(* ===== verification/_CoqProject ===== *)
-Q . S2P
Prelude.v
Types.v
FixedPoint.v
Decimal.v
RingBuffer.v
Bits.v
Pool.v
BucketBits.v
HashMap.v
RecentMap.v
Interfaces.v
Orders.v
Oms.v
MapSum.v
OmsInv.v
OmsStep.v
OmsOps.v
OmsHandlers.v
OmsProps.v
L2Book.v
L2BookProps.v
Instruments.v
Position.v
PositionProps.v
Risk.v
RiskProps.v
BookSync.v
BookSyncProps.v
Matching.v
MatchingBook.v
MatchingInv.v
MatchingOps.v
MatchingMatch.v
MatchingLoop.v
MatchingEntry.v
MatchingAmend.v
MatchingFok.v
MatchingProps.v
QuoteManager.v
QuoteInv.v
QuoteProps.v
QuoteSettle.v
QuoteQueues.v
QuoteOms.v
QuoteConcrete.v
DList.v
TimerWheel.v
TimerInv.v
TimerOps.v
TimerWalk.v
TimerPoll.v
TimerProps.v
NasdaqFields.v
NasdaqProps.v
MoldUdp.v
MoldPacket.v
MoldReceive.v
MoldRecover.v
MoldProps.v
MoldTransmit.v
MoldStream.v
BalanceBook.v
BalanceOps.v
BalanceInv.v
BalanceFlight.v
BalanceSteps.v
BalanceReports.v
BalanceBuild.v
BalanceProps.v
EngineHolds.v
L3Store.v
L3StoreInv.v
L3StoreOps.v
L3StorePack.v
L3StoreProps.v
