(* ===== verification/Prelude.v ===== *)
(** * FastMM: a verification development of the market-making engine's core

    FastMM is a low-latency market-making engine.  Market data of a venue reaches a strategy
    through a synchroniser (snapshots and deltas into one gapless stream) and a price book; the
    strategy's orders go through the pre-trade checks to the order manager, which follows every
    order to its end from what the venue reports; fills move the position tracker, whose totals
    the checks read.  In a backtest the venue is a simulated exchange.  All of it works on
    fixed-point numbers in 64-bit integers and on preallocated containers.  This development
    models those parts as executable functions and proves what they owe to each other.

    ** Files and sources

    Paths are below [include/fastmm/core] unless they say otherwise.

    - [Prelude] (this file): record update, machine integers and their tactics, [loop], shared
      lemmas on lists and integers.
    - [Types] ([enums.hpp], [strong_id.hpp], [time.hpp], parts of [book/book_view.hpp]): the
      enumerations and identifiers.
    - [FixedPoint], [Decimal] ([fixed_point.hpp]): arithmetic, tick and lot rounding; the decimal
      parser and printer against the decimal grammar.
    - [RingBuffer], [Bits], [Pool], [BucketBits], [HashMap], [RecentMap] ([containers/]): each
      container and the mathematical object it implements.
    - [Interfaces]: the classes [IdMap], [ObjPool] and [Seen] that the order manager and the
      exchange are written against, with the containers as instances.
    - [Orders] ([order.hpp], [messages.hpp], [fixed_string.hpp]), [Oms] ([oms.hpp]): the order
      manager.  [OmsInv], [OmsStep], [OmsOps], [OmsHandlers], [OmsProps]: its invariant, every
      operation, what one venue message does, the theorems.  [MapSum]: sums over maps.
    - [L2Book], [L2BookProps] ([book/l2_book.hpp], [containers/static_vector.hpp]): the price book.
    - [BookSync], [BookSyncProps] ([book/book_syncer.hpp]): the synchroniser.
    - [Instruments] ([instrument.hpp], [fx.hpp], [underlying.hpp]), [Position], [PositionProps]
      ([position.hpp]): valuation and the position tracker.
    - [Risk], [RiskProps] ([risk.hpp], [risk_limits.hpp]): the pre-trade checks.
    - [Matching] ([include/fastmm/sim/sim_book.hpp], [include/fastmm/sim/matching_engine.hpp],
      [src/sim/matching_engine.cpp]): the simulated exchange.  [MatchingBook], [MatchingInv],
      [MatchingOps], [MatchingMatch], [MatchingLoop], [MatchingEntry], [MatchingAmend],
      [MatchingFok], [MatchingProps]: its invariant from the linked queues up, and the theorems.
    - [QuoteManager] ([quote_manager.hpp]): the differ of wanted and resting quotes.  [QuoteInv],
      [QuoteProps], [QuoteSettle], [QuoteQueues]: one order per level, pulls, settling, the retry
      queues.  [QuoteOms]: the order manager as the quote manager's world; [QuoteConcrete]: runs.
    - [TimerWheel] ([timer_wheel.hpp]) with doubly linked lists ([DList]) in one pool.  [TimerInv],
      [TimerOps], [TimerWalk], [TimerPoll], [TimerProps]: its lists, a poll whose callbacks change
      the wheel, the identifiers and the questions about the next expiry.
    - [NasdaqFields] ([nasdaq_fields.hpp]), [NasdaqProps]: wire fields and their round trips.
      [MoldUdp] ([moldudp64.hpp], [moldudp64.cpp]): packets, receiver, transmitter.  [MoldPacket]:
      the format; [MoldReceive], [MoldRecover], [MoldProps]: the receiver; [MoldTransmit]: the
      history; [MoldStream]: both over a lossy network.
    - [BalanceBook], [BalanceOps] ([balance_book.hpp], [fees.hpp], [account_pool.hpp]): balances
      per venue and asset.  [BalanceInv]: the specification of a row; [BalanceFlight]: orders in
      flight; [BalanceSteps], [BalanceReports], [BalanceBuild], [BalanceProps]: its refinement.
      [EngineHolds] ([engine.hpp], balances): the holds of the open orders, by pool slot.
    - [L3Store] ([l3_book.hpp]): the overflow store of the order-by-order book.  [L3StoreInv],
      [L3StoreOps], [L3StorePack], [L3StoreProps]: it is a bounded ordered map.

    ** How state and operations correspond

    A class is a record with one field per member, under the member's name or a short prefix of
    it; a method is a function from the state to its result and the new state.  Early returns are
    the branches of the function, in the order of the source.  Arrays that are never resized are
    finite maps or total lookups that read as the value-initialised element; a vector is the list
    of its live prefix.  A reference into a pool is its handle, and the object is written back
    where the source writes through the reference.  Calls on a sink or listener are appended to a
    log in the state; the listener does not call back into the component.  What the sink of the
    exchange answers about a reduce-only order is a parameter [reducible] of the calls made so
    far, assumed not negative.

    Integers are [Z] with the wrap of their type ([i64], [u64], [u32], ...) after every operation
    that can leave the range.  Unsigned wrap is what the language defines; for signed overflow,
    which C++ leaves undefined, the model takes the two's complement result, and theorems about
    mathematical values carry the range as a hypothesis.  Conditions on calls that the source
    states as assertions are hypotheses or part of the reachability relation.

    ** What the theorems show

    - Containers: the hash table, the recent map, the pool and the ring implement a finite map, a
      bounded log, a partial map and a queue; the probe loops of a table of eight slots or more
      stop (one of four slots never does, shown).
    - Fixed point: multiply-divide is exact, the decimal parser accepts exactly the decimal
      grammar within range, printing and parsing round-trip.
    - Order manager: in every state reachable by requests and venue messages the open counts and
      working quantities are those of the open orders, ids lead to their orders, best own prices
      are best, and estimates are counted; a message moves one order along the allowed
      transitions, and one whose id finds no open order changes no order and no id; a fill counts
      exactly what no earlier execution or estimate has booked; reconciliation ends exactly the
      unreported orders.
    - Book and synchroniser: a side is a map in price order; loading a snapshot equals applying
      it; for sequence rules under which no update can follow a lost one (the class [GapFree]; the
      rules of one venue, Bybit, are not such), whatever is lost or reordered, a synced consumer
      holds the venue's book, and a lossless stream synchronises with one snapshot.
    - Positions and risk: the running totals are the sums they stand for; a fill conserves value
      up to the roundings of the one step it takes, at any contract multiplier; an order that passes
      is inside every limit, notional and exposure taken as exact integers where they fit 64 bits,
      also as a ladder; closing is never capped; the loss limit latches; the rate limiter bounds
      what it grants.
    - Simulated exchange: books stay sorted and uncrossed and levels sum their orders; fills are
      the allocation by price and time, and fill-or-kill is all or nothing, when the order is not
      reduce-only and no reduce-only order rests against it (an example shows why the condition
      is there); replace keeps the place in the queue; the ledgers balance and the depth stream
      replays to the books.
    - Quote manager: whatever interleaves, a level has at most one live order and only the slot's
      own order is touched, never while it is pending; a requote settles; a pull leaves nothing
      working; the retry queues hold exactly the instruments held back.  The order manager and the
      placer are a world with the contract of the class [Placer], which the order manager behind a
      direct placer is proved to keep; the placer does not call back into the quote manager.
    - Timer wheel: a poll ends and fires only active timers that are due; when the timers its
      callbacks add expire at or after a bound [b] (now, or the nanosecond after) it leaves none
      that expires before [b], timers of the poll's own millisecond that a long pause left in the
      overflow list apart; ids name one timer each; the next expiry is exact.  Loops along a list
      run on [kMaxTimers + 1] fuel, more than a list can hold.
    - MoldUDP64: the parser accepts exactly the format and packets round trip; the receiver tells
      its handler consecutive messages and lost ranges whatever arrives, attends to every hole and
      with repeated requests delivers exactly what was published; the history of the transmitter
      survives the wraps of its ring and a publish is refused exactly when it does not fit;
      a request for a held message that fits a datagram is answered and the answer takes the
      receiver on.
      Its loops run under [loop], which the proofs show to end; sequence numbers stay below 2^62.
    - Balances: a row is its last report, the moves no report has covered, the orders in flight and
      the reservation, through every operation, as long as the ring of 1024 pending moves drops
      none and acknowledged derivative orders net alike with and without those in flight (a late
      report otherwise overestimates, shown); an order that does not reduce and passes the check
      of a reported row never overdraws it; the hold of a spot buy covers its fills and fees when
      the maker rate is not above the taker rate; the totals in flight are those of the engine's open orders.
    - Overflow store: every operation answers as on a sorted list of levels.  The binary searches
      run on 64 turns of fuel, more than [log2] of any directory or block, insertion on two
      turns, since a pack leaves a free block; the visits on the number of blocks.

    ** Bounds and fuel

    A [while] of the source that is not structural is [loop d step s], which takes at most [2^d]
    turns, or a [Fixpoint] on fuel.  The sweep of the exchange uses [loop 64]: each turn takes a
    level away or fills at least one unit of a 64-bit quantity, so it ends, as
    [matching_terminates] proves.  The mirror of decreases uses [loop 17]: each turn but the last
    removes one of at most [2^16] orders.  Walks along a queue take the level's count as fuel, the
    probes of a hash table its capacity, the bisections the length of the vector; the invariants
    show that the fuel suffices, and no theorem about a result depends on running out.

    ** Not modelled

    The engine's event loop ([engine.hpp]), sessions, gateways and venue connectors ([live/],
    [venues/]) are orchestration of threads, sockets and external protocols; the rings and
    seqlocks between threads need a weak-memory model; configuration is reading of text into
    records; the [mdp3] schema is generated.  Of [instrument.hpp] and [underlying.hpp] the symbol
    table and the plan builders are left out; of [messages.hpp] the fields no modelled component
    reads.  Still to be modelled, in this order: the ring window and the
  order index of the order-by-order book, the market-data aggregator and margin accounts of the
  simulation, the other exchange codecs. *)

From stdpp Require Export base gmap list fin_maps fin_sets.
From Stdlib Require Export ZArith Lia ZifyBool.
From Stdlib Require Import Zquot.

#[global] Open Scope Z_scope.

(** ** Record update

    [r <| f := v |>] is [r] with its field [f] set to [v], and
    [r <| f ::= g |>] applies [g] to the field.  A record type takes part by
    giving its eta expansion as an instance of [Eta]; the updater of a field is
    then built by abstracting the projection out of that expansion. *)

Class Eta (R : Type) := eta_expand : R -> R.

Class FieldUpd {R T : Type} (proj : R -> T) := fupd : (T -> T) -> R -> R.

Ltac build_field_upd proj :=
  lazymatch type of proj with
  | ?R -> ?T =>
    let e := constr:((_ : Eta R)) in
    let e := eval cbv beta delta [eta_expand] in e in
    let e := eval hnf in e in
    let p := eval pattern proj in e in
    lazymatch p with
    | ?body _ =>
      let t := constr:(fun (g : T -> T) => body (fun r : R => g (proj r))) in
      let t := eval cbv beta in t in
      exact t
    end
  end.

#[export] Hint Extern 1 (FieldUpd ?f) => build_field_upd f : typeclass_instances.

Declare Scope fmm_scope.
Delimit Scope fmm_scope with fmm.
#[global] Open Scope fmm_scope.

Notation "r <| f := v |>" := (fupd (proj := f) (fun _ => v) r)
  (at level 1, f constr at level 200, left associativity,
   format "r  <| f  :=  v |>") : fmm_scope.
Notation "r <| f ::= g |>" := (fupd (proj := f) g r)
  (at level 1, f constr at level 200, left associativity,
   format "r  <| f  ::=  g |>") : fmm_scope.

(** ** Machine integers

    A C++ integer of width [w] is a [Z]; an operation that may leave the range
    is followed by the wrap of its type.  Unsigned wrap-around is what the
    language defines.  Signed overflow is undefined in C++: the wrap below is
    the two's complement result, and a theorem that relies on the mathematical
    value has the range as a hypothesis. *)

Definition i64_min : Z := -9223372036854775808.
Definition i64_max : Z := 9223372036854775807.

Definition i64 (z : Z) : Z := (z + 2 ^ 63) mod 2 ^ 64 - 2 ^ 63.
Definition i128 (z : Z) : Z := (z + 2 ^ 127) mod 2 ^ 128 - 2 ^ 127.
Definition u64 (z : Z) : Z := z mod 2 ^ 64.
Definition u32 (z : Z) : Z := z mod 2 ^ 32.
Definition u8 (z : Z) : Z := z mod 2 ^ 8.

Definition in_i64 (z : Z) : Prop := i64_min <= z <= i64_max.
Definition fits_i64 (z : Z) : bool := (i64_min <=? z) && (z <=? i64_max).

(** Equality of the wrapped values: what an [int64] accumulator can tell. *)
Definition eq64 (x y : Z) : Prop := i64 x = i64 y.
Infix "=64" := eq64 (at level 70, no associativity) : fmm_scope.

Lemma pow63 : 2 ^ 63 = 9223372036854775808.
Proof. reflexivity. Qed.
Lemma pow64 : 2 ^ 64 = 18446744073709551616.
Proof. reflexivity. Qed.

(** Unfolds the widths to their numerals, then decides. *)
Ltac width := unfold in_i64, i64_min, i64_max in *; rewrite ?pow63, ?pow64 in *; lia.

#[global] Instance in_i64_dec z : Decision (in_i64 z).
Proof. unfold in_i64. apply _. Defined.

Lemma fits_i64_spec z : fits_i64 z = true <-> in_i64 z.
Proof. unfold fits_i64, in_i64. lia. Qed.

Lemma i64_range z : in_i64 (i64 z).
Proof.
  unfold i64. pose proof (Z.mod_pos_bound (z + 2 ^ 63) (2 ^ 64) ltac:(lia)). width.
Qed.

Lemma i64_id z : in_i64 z -> i64 z = z.
Proof. intros H. unfold i64. rewrite Z.mod_small; width. Qed.

Lemma i64_idem z : i64 (i64 z) = i64 z.
Proof. apply i64_id, i64_range. Qed.

Lemma i64_mod z : exists k, i64 z = z + k * 2 ^ 64.
Proof.
  exists (- ((z + 2 ^ 63) / 2 ^ 64)). unfold i64.
  pose proof (Z.div_mod (z + 2 ^ 63) (2 ^ 64) ltac:(lia)). lia.
Qed.

Lemma i64_shift z k : i64 (z + k * 2 ^ 64) = i64 z.
Proof.
  unfold i64. replace (z + k * 2 ^ 64 + 2 ^ 63) with (z + 2 ^ 63 + k * 2 ^ 64) by lia.
  by rewrite Z_mod_plus_full.
Qed.

#[global] Instance eq64_equiv : Equivalence eq64.
Proof. split; unfold eq64; red; intros; congruence. Qed.

Lemma i64_eq64 z : i64 z =64 z.
Proof. apply i64_idem. Qed.

Lemma eq64_diff x y : x =64 y <-> exists k, x = y + k * 2 ^ 64.
Proof.
  split.
  - intros H. destruct (i64_mod x) as [a Ha], (i64_mod y) as [b Hb].
    unfold eq64 in H. exists (b - a). lia.
  - intros [k ->]. apply i64_shift.
Qed.

#[global] Instance add_eq64 : Proper (eq64 ==> eq64 ==> eq64) Z.add.
Proof.
  intros x x' [a ->]%eq64_diff y y' [b ->]%eq64_diff. apply eq64_diff. exists (a + b). lia.
Qed.
#[global] Instance sub_eq64 : Proper (eq64 ==> eq64 ==> eq64) Z.sub.
Proof.
  intros x x' [a ->]%eq64_diff y y' [b ->]%eq64_diff. apply eq64_diff. exists (a - b). lia.
Qed.
#[global] Instance opp_eq64 : Proper (eq64 ==> eq64) Z.opp.
Proof. intros x x' [a ->]%eq64_diff. apply eq64_diff. exists (- a). lia. Qed.
#[global] Instance mul_eq64 : Proper (eq64 ==> eq64 ==> eq64) Z.mul.
Proof.
  intros x x' [a ->]%eq64_diff y y' [b ->]%eq64_diff. apply eq64_diff.
  exists (a * y' + x' * b + a * b * 2 ^ 64). lia.
Qed.
#[global] Instance i64_proper : Proper (eq64 ==> eq) i64.
Proof. intros x y H. exact H. Qed.

(** Two in-range values that agree modulo 2^64 are equal. *)
Lemma eq64_exact x y : in_i64 x -> in_i64 y -> x =64 y -> x = y.
Proof. intros Hx Hy H. unfold eq64 in H. by rewrite !i64_id in H. Qed.

Lemma quot_range p d : in_i64 p -> d <> 0 -> d <> -1 -> in_i64 (Z.quot p d).
Proof.
  intros Hp Hd Hd1. assert (Z.abs (Z.quot p d) <= Z.abs p).
  { destruct (Z.eq_dec d 1) as [-> | Hn]; [by rewrite Z.quot_1_r|].
    rewrite <- Z.quot_abs by done.
    rewrite Z.quot_div_nonneg by lia.
    apply Z.div_le_upper_bound; nia. }
  destruct (Z.eq_dec p i64_min) as [-> | Hmin]; [|width].
  split; [width|]. enough (Z.quot i64_min d < - i64_min) by width.
  assert (1 < Z.abs d \/ d = 1) as [Hab | ->] by lia; [|reflexivity].
  assert (Z.abs (Z.quot i64_min d) < Z.abs i64_min); [|width].
  rewrite <- Z.quot_abs, Z.quot_div_nonneg by lia.
  apply Z.div_lt; [reflexivity | lia].
Qed.

(** ** Power-of-two masks *)

Lemma land_mask x p : 0 <= p -> Z.land x (2 ^ p - 1) = x mod 2 ^ p.
Proof. intros Hp. rewrite <- Z.land_ones by done. f_equal. rewrite Z.ones_equiv. lia. Qed.

(** Packing a low field under a shifted high one, and reading both back. *)
Lemma lor_pack a b n : 0 <= n -> 0 <= b < 2 ^ n -> Z.lor (Z.shiftl a n) b = a * 2 ^ n + b.
Proof.
  intros Hn Hb. rewrite <- Z.shiftl_mul_pow2 by done. symmetry. apply Z.add_nocarry_lor.
  apply Z.bits_inj'. intros m Hm. rewrite Z.land_spec, Z.testbit_0_l.
  destruct (Z.lt_ge_cases m n).
  - by rewrite Z.shiftl_spec_low.
  - rewrite andb_comm, (proj1 (Z.bounded_iff_bits_nonneg n b Hn ltac:(lia)) ltac:(lia)); [done|lia].
Qed.
Lemma pack_high a b n : 0 <= n -> 0 <= b < 2 ^ n -> Z.shiftr (a * 2 ^ n + b) n = a.
Proof.
  intros Hn Hb. rewrite Z.shiftr_div_pow2 by done.
  rewrite Z.div_add_l, Z.div_small by lia. lia.
Qed.
Lemma pack_low a b n : 0 <= n -> 0 <= b < 2 ^ n -> Z.land (a * 2 ^ n + b) (2 ^ n - 1) = b.
Proof. intros Hn Hb. rewrite land_mask by done. rewrite Z.add_comm, Z_mod_plus_full. by apply Z.mod_small. Qed.

(** A counter kept modulo 2^64 indexes a power-of-two table as the unbounded one. *)
Lemma u64_mod_pow x p : 0 <= p <= 64 -> (u64 x) mod 2 ^ p = x mod 2 ^ p.
Proof.
  intros Hp. unfold u64. rewrite Z.mod_mod_divide; [done|].
  exists (2 ^ (64 - p)). rewrite <- Z.pow_add_r by lia. f_equal. lia.
Qed.

(** ** Loops

    [loop d step s] runs [step] up to [2 ^ d] times, until it returns a result.  The bound is
    only a bound: with a measure below it the loop returns, which [loop_rule] gives together
    with what the result satisfies. *)

Fixpoint loop {S R : Type} (d : nat) (step : S -> S + R) (s : S) : S + R :=
  match d with
  | O => step s
  | Datatypes.S d => match loop d step s with inl s' => loop d step s' | inr r => inr r end
  end.

Lemma loop_rule {S R : Type} (step : S -> S + R) (I : S -> Prop) (Q : R -> Prop) (mu : S -> Z) :
  (forall s, I s -> match step s with inl s' => I s' /\ 0 <= mu s' < mu s | inr r => Q r end) ->
  forall d s, I s -> 0 <= mu s < 2 ^ Z.of_nat d -> exists r, loop d step s = inr r /\ Q r.
Proof.
  intros Hstep d s HI Hmu.
  assert (H : forall d s, I s -> match loop d step s with inl s' => I s' /\ 0 <= mu s' <= mu s - 2 ^ Z.of_nat d | inr r => Q r end).
  { clear d s HI Hmu. induction d as [|d IH]; intros s HI; cbn [loop].
    - specialize (Hstep s HI). destruct (step s); [|done].
      destruct Hstep as [HI' Hlt]. split; [done|]. change (2 ^ Z.of_nat 0) with 1. lia.
    - pose proof (IH s HI) as H1. destruct (loop d step s) as [s1|r]; [|done]. destruct H1 as [HI1 H1].
      pose proof (IH s1 HI1) as H2. destruct (loop d step s1) as [s2|r]; [|done]. destruct H2 as [HI2 H2]. split; [done|].
      rewrite Nat2Z.inj_succ, Z.pow_succ_r by lia. lia. }
  specialize (H d s HI). destruct (loop d step s) as [s'|r]; [lia | by exists r].
Qed.

(** ** Filters that keep everything or nothing *)

Lemma filter_all {A} (R : A -> Prop) `{!forall x, Decision (R x)} l : Forall R l -> filter R l = l.
Proof. induction 1 as [|x l Hx _ IH]; [done|]. by rewrite filter_cons_True, IH. Qed.
Lemma filter_none {A} (R : A -> Prop) `{!forall x, Decision (R x)} l : Forall (fun x => ~ R x) l -> filter R l = [].
Proof. induction 1 as [|x l Hx _ IH]; [done|]. by rewrite filter_cons_False. Qed.

(** ** Case analysis on the tests of the code *)

(** Splits every boolean test of an [if] in the goal or a hypothesis. *)
Ltac case_if :=
  match goal with
  | |- context [if ?b then _ else _] =>
    lazymatch type of b with bool => destruct b eqn:? end
  | H : context [if ?b then _ else _] |- _ =>
    lazymatch type of b with bool => destruct b eqn:? end
  end.
Ltac zcase := repeat case_if; try lia.

(** Splits the outermost match of a hypothesis that equates a computation to a value. *)
Ltac case_match_in H :=
  match type of H with
  | context [match ?x with _ => _ end] => destruct x eqn:?
  end.

Create HintDb fmm.
Create Rewrite HintDb fmm.
#[export] Hint Resolve i64_range : fmm.
#[export] Hint Rewrite i64_idem : fmm.
