(* ===== verification/Types.v ===== *)
(** * Types: the enumerations and plain records every component shares

    [include/fastmm/core/enums.hpp] (sides, order types, states, reject
    reasons), the strong identifiers of [strong_id.hpp] and the time stamps of
    [time.hpp].  A [Fixed<Tag>] is its [raw] field, an [int64] number of 1e-8
    units; an identifier is its [value]; a time is its nanosecond count. *)

From S2P Require Import Prelude.

Abbreviation Price := Z (only parsing).
Abbreviation Qty := Z (only parsing).
Abbreviation Notional := Z (only parsing).
Abbreviation Timestamp := Z (only parsing).
Abbreviation Duration := Z (only parsing).
Abbreviation ClientOrderId := Z (only parsing).
Abbreviation InstrumentId := Z (only parsing).
Abbreviation VenueId := Z (only parsing).

Inductive Side := Buy | Sell.
#[global] Instance Side_eq_dec : EqDecision Side.
Proof. solve_decision. Defined.

Definition opposite (s : Side) : Side := match s with Buy => Sell | Sell => Buy end.
Definition sign (s : Side) : Z := match s with Buy => 1 | Sell => -1 end.

Inductive OrderType := Limit | Market | PostOnly.
#[global] Instance OrderType_eq_dec : EqDecision OrderType.
Proof. solve_decision. Defined.

Inductive TimeInForce := Gtc | Ioc | Fok | Day.
#[global] Instance TimeInForce_eq_dec : EqDecision TimeInForce.
Proof. solve_decision. Defined.

Inductive AssetClass := Spot | Perpetual | Future | Option_ | Fx | Equity.
#[global] Instance AssetClass_eq_dec : EqDecision AssetClass.
Proof. solve_decision. Defined.

Inductive OrderState :=
  PendingNew | Live | PartiallyFilled | PendingCancel | PendingReplace
| Filled | Canceled | Rejected | Expired.
#[global] Instance OrderState_eq_dec : EqDecision OrderState.
Proof. solve_decision. Defined.

(** The underlying [uint8] of each state. *)
Definition state_code (s : OrderState) : Z :=
  match s with
  | PendingNew => 0 | Live => 1 | PartiallyFilled => 2 | PendingCancel => 3
  | PendingReplace => 4 | Filled => 5 | Canceled => 6 | Rejected => 7 | Expired => 8
  end.
Definition is_terminal (s : OrderState) : bool := state_code Filled <=? state_code s.
Definition is_pending (s : OrderState) : bool :=
  match s with PendingNew | PendingCancel | PendingReplace => true | _ => false end.

Inductive RejectReason :=
  NoReason | KillSwitch | VenueKilled | InstrumentDisabled | InvalidTick | InvalidLot
| BelowMinNotional | StaleMarketData | PriceCollar | FatFinger | MaxOrderQty
| MaxOrderNotional | MaxPosition | MaxOpenOrders | SelfTradePrevention | RateLimit
| MaxLoss | MaxGrossNotional | MaxNetNotional | FxRateUnknown | FeedLag
| MaxUnderlyingNet | UnderlyingMarkUnknown | BalanceShort | ReduceOnly | PricedOut
| PoolExhausted | UnknownOrder | InvalidState | DuplicateId | TransportFull
| NotReconciled | InvalidTag | OrderTableFull | InvalidAccount | HomeUnavailable
| GatewayRateLimit | GatewayOpenNotional | GatewayNotOwner | GatewayAccountKilled
| GatewayGrossNotional | GatewayNetNotional | GatewayFxRateUnknown
| GatewayUnderlyingNet | GatewayUnderlyingMarkUnknown | GatewaySelfTrade
| GatewayBalanceShort
| VenueReject | PostOnlyWouldCross | InsufficientBalance | VenueRateLimit
| VenueUnknownOrder.
#[global] Instance RejectReason_eq_dec : EqDecision RejectReason.
Proof. solve_decision. Defined.

(** The underlying [uint8] of each reason (the index of the reject counters). *)
Definition reason_code (r : RejectReason) : Z :=
  match r with
  | NoReason => 0 | KillSwitch => 1 | VenueKilled => 2 | InstrumentDisabled => 3
  | InvalidTick => 4 | InvalidLot => 5 | BelowMinNotional => 6 | StaleMarketData => 7
  | PriceCollar => 8 | FatFinger => 9 | MaxOrderQty => 10 | MaxOrderNotional => 11
  | MaxPosition => 12 | MaxOpenOrders => 13 | SelfTradePrevention => 14
  | RateLimit => 15 | MaxLoss => 16 | MaxGrossNotional => 17 | MaxNetNotional => 18
  | FxRateUnknown => 19 | FeedLag => 20 | MaxUnderlyingNet => 21
  | UnderlyingMarkUnknown => 22 | BalanceShort => 23 | ReduceOnly => 24
  | PricedOut => 25 | PoolExhausted => 32 | UnknownOrder => 33 | InvalidState => 34
  | DuplicateId => 35 | TransportFull => 36 | NotReconciled => 37 | InvalidTag => 38
  | OrderTableFull => 39 | InvalidAccount => 40 | HomeUnavailable => 41
  | GatewayRateLimit => 48 | GatewayOpenNotional => 49 | GatewayNotOwner => 50
  | GatewayAccountKilled => 51 | GatewayGrossNotional => 52 | GatewayNetNotional => 53
  | GatewayFxRateUnknown => 54 | GatewayUnderlyingNet => 55
  | GatewayUnderlyingMarkUnknown => 56 | GatewaySelfTrade => 57
  | GatewayBalanceShort => 58 | VenueReject => 64 | PostOnlyWouldCross => 65
  | InsufficientBalance => 66 | VenueRateLimit => 67 | VenueUnknownOrder => 68
  end.

Lemma reason_code_inj r r' : reason_code r = reason_code r' -> r = r'.
Proof. destruct r, r'; intros H; try reflexivity; discriminate H. Qed.

(** [StrongId::valid]: the invalid value of each identifier type. *)
Definition kInvalidInstrument : Z := 2 ^ 32 - 1.
Definition kInvalidVenue : Z := 2 ^ 8 - 1.
Definition venue_valid (v : VenueId) : bool := negb (v =? kInvalidVenue).
Definition instrument_valid (i : InstrumentId) : bool := negb (i =? kInvalidInstrument).
Definition cl_ord_id_valid (id : ClientOrderId) : bool := negb (id =? 0).

(** [Handle<T>]: a 32-bit pool index, [kNullHandle] for none. *)
Definition kNullHandle : Z := 2 ^ 32 - 1.
Definition handle_valid (h : Z) : bool := negb (h =? kNullHandle).

(** [Timestamp::valid] *)
Definition ts_valid (t : Timestamp) : bool := negb (t =? 0).

Definition kMaxInstruments : Z := 256.

(** [at_or_better] and [better] of [book/book_view.hpp]. *)
Definition at_or_better (s : Side) (p q : Price) : bool :=
  match s with Buy => q <=? p | Sell => p <=? q end.
Definition better (s : Side) (p q : Price) : bool :=
  match s with Buy => q <? p | Sell => p <? q end.

Lemma better_irrefl s p : better s p p = false.
Proof. destruct s; simpl; lia. Qed.
Lemma better_trans s p q r : better s p q = true -> better s q r = true -> better s p r = true.
Proof. destruct s; simpl; lia. Qed.
Lemma better_total s p q : better s p q = false -> better s q p = false -> p = q.
Proof. destruct s; simpl; lia. Qed.
Lemma better_asym s p q : better s p q = true -> better s q p = false.
Proof. destruct s; simpl; lia. Qed.
Lemma not_better s p q : better s p q = false <-> at_or_better s q p = true.
Proof. destruct s; simpl; lia. Qed.

(** ** Client order ids: [session_epoch(16) << 32 | seq(32)] *)

Definition make_cl_ord_id (epoch seq : Z) : ClientOrderId := Z.lor (Z.shiftl epoch 32) seq.
Definition cl_ord_id_epoch (id : ClientOrderId) : Z := Z.land (Z.shiftr id 32) 65535.
Definition cl_ord_id_seq (id : ClientOrderId) : Z := Z.land id (2 ^ 32 - 1).
