(* ===== verification/FixedPoint.v ===== *)
(** * FixedPoint: [Fixed<Tag>], the int64 fixed point with a 1e-8 scale

    [include/fastmm/core/fixed_point.hpp].  A value is its [raw] field.  The
    file holds the 128-bit multiply and divide and its 64-bit fast path, the
    two decimal parsers, the decimal printer, the tick and lot rounding and the
    checked arithmetic. *)

From S2P Require Import Prelude Types.
From Stdlib Require Import Ascii Zquot.

Definition kFixedScale : Z := 100000000.
Definition kFixedDecimals : nat := 8.
Definition kMaxDecimalChars : nat := 24.
Definition kRatioPerBp : Z := 10000.

(** ** Arithmetic *)

(** [detail::mul_div(a, b, d)]: [a * b / d] truncated toward zero, the
    division in 64 bits when the product fits. *)
Definition mul_div (a b d : Z) : Z :=
  let p := a * b in
  if fits_i64 p && negb (d =? -1) then Z.quot p d
  else i64 (i128 (Z.quot (i128 (a * b)) d)).

(** [detail::mul_div<D>(a, b)] *)
Definition mul_div_const (D a b : Z) : Z :=
  let p := a * b in
  if fits_i64 p then Z.quot p D
  else i64 (i128 (Z.quot (i128 (a * b)) D)).

(** The unchecked operators of [Fixed]. *)
Definition fx_add (a b : Z) : Z := i64 (a + b).
Definition fx_sub (a b : Z) : Z := i64 (a - b).
Definition fx_neg (a : Z) : Z := i64 (- a).
Definition fx_scale (a k : Z) : Z := i64 (a * k).
Definition fx_quot (a b : Z) : Z := i64 (Z.quot a b).
Definition fx_rem (a b : Z) : Z := Z.rem a b.
Definition fx_abs (a : Z) : Z := if a <? 0 then i64 (- a) else a.
Definition from_int (units : Z) : Z := i64 (units * kFixedScale).
Definition units (a : Z) : Z := Z.quot a kFixedScale.

Definition mul (p : Price) (q : Qty) : Notional := mul_div_const kFixedScale p q.
Definition mul_raw (a b : Z) : Z := mul_div_const kFixedScale a b.
Definition ratio_mul (v r : Z) : Z := mul_div_const kFixedScale v r.
Definition ratio (num den : Z) : Z := if den =? 0 then 0 else mul_div num kFixedScale den.
Definition div (n : Notional) (q : Qty) : Price := if q =? 0 then 0 else mul_div n kFixedScale q.
Definition apply_bps (v bps : Z) : Z := mul_div_const 10000 v bps.

Definition floor_div (a b : Z) : Z :=
  let q := Z.quot a b in
  if negb (Z.rem a b =? 0) && negb (Bool.eqb (a <? 0) (b <? 0)) then q - 1 else q.

Definition round_to_tick (p tick : Price) (side : Side) : Price :=
  let q := floor_div p tick in
  let floored := i64 (q * tick) in
  if match side with Buy => true | Sell => false end || (floored =? p) then floored
  else i64 (floored + tick).

Definition round_to_tick_nearest (p tick : Price) : Price :=
  let half := Z.quot tick 2 in
  let shifted := if 0 <=? p then i64 (p + half) else i64 (p - half) in
  i64 (floor_div shifted tick * tick).

Definition on_tick (p tick : Price) : bool := (0 <? tick) && (Z.rem p tick =? 0).
Definition round_to_lot (q lot : Qty) : Qty := i64 (floor_div q lot * lot).
Definition on_lot (q lot : Qty) : bool := (0 <? lot) && (Z.rem q lot =? 0).

Definition checked_add (a b : Z) : option Z := if fits_i64 (a + b) then Some (a + b) else None.
Definition checked_sub (a b : Z) : option Z := if fits_i64 (a - b) then Some (a - b) else None.
Definition checked_mul (a k : Z) : option Z := if fits_i64 (a * k) then Some (a * k) else None.

(** ** Decimal text *)

Definition code (c : ascii) : Z := Z.of_N (N_of_ascii c).
Definition is_digit (c : ascii) : bool := (48 <=? code c) && (code c <=? 57).
Definition digit (c : ascii) : Z := code c - 48.
Definition digit_char (d : Z) : ascii := ascii_of_N (Z.to_N (48 + d)).
Definition chr (c : ascii) (d : ascii) : bool := Ascii.eqb c d.

(** [Fixed::from_decimal], its integer loop: stops at the dot or the end. *)
Definition kMaxInt : Z := Z.quot i64_max kFixedScale.

Fixpoint fd_int (s : list ascii) (ip : Z) (int_digits : Z) : option (Z * Z * list ascii) :=
  match s with
  | [] => Some (ip, int_digits, [])
  | c :: s' =>
    if chr c "." then Some (ip, int_digits, s)
    else if negb (is_digit c) then None
    else if Z.quot (kMaxInt - digit c) 10 <? ip then None
    else fd_int s' (ip * 10 + digit c) (int_digits + 1)
  end.

(** Its fraction loop: the first eight digits, then only zeros. *)
Fixpoint fd_frac (s : list ascii) (fp : Z) (frac_digits : nat) : option (Z * nat) :=
  match s with
  | [] => Some (fp, frac_digits)
  | c :: s' =>
    if negb (is_digit c) then None
    else if (frac_digits <? kFixedDecimals)%nat then fd_frac s' (fp * 10 + digit c) (S frac_digits)
    else if negb (chr c "0") then None
    else fd_frac s' fp frac_digits
  end.

(** [for (k = frac_digits; k < kFixedDecimals; ++k) fp *= 10] *)
Fixpoint times10 (n : nat) (x : Z) : Z :=
  match n with O => x | S n => times10 n (x * 10) end.

Definition split_sign (s : list ascii) : bool * list ascii :=
  match s with
  | c :: s' => if chr c "-" || chr c "+" then (chr c "-", s') else (false, s)
  | [] => (false, s)
  end.

Definition from_decimal (s : list ascii) : option Z :=
  match s with
  | [] => None
  | _ =>
    let '(neg, s) := split_sign s in
    match fd_int s 0 0 with
    | None => None
    | Some (ip, int_digits, rest) =>
      match match rest with [] => Some (0, O) | _ :: s' => fd_frac s' 0 O end with
      | None => None
      | Some (fp, frac_digits) =>
        if (int_digits =? 0) && (frac_digits =? 0)%nat then None
        else
          let fp := times10 (kFixedDecimals - frac_digits) fp in
          let mag := i64 (ip * kFixedScale) in
          if i64_max - fp <? mag then None
          else let r := mag + fp in Some (if neg then - r else r)
      end
    end
  end.

(** [Fixed::to_decimal].  The integer digits come out of [v % 10] last first;
    [tmp] has room for 20 of them, the fuel of the loop. *)
Fixpoint int_chars (fuel : nat) (v : Z) (acc : list ascii) : list ascii :=
  match fuel with
  | O => acc
  | S f =>
    let acc := digit_char (v mod 10) :: acc in
    let v := v / 10 in
    if v =? 0 then acc else int_chars f v acc
  end.

(** The eight fraction digits, [frac[k]] for [k] from 7 down to 0. *)
Fixpoint frac_chars (n : nat) (fp : Z) (acc : list ascii) : list ascii :=
  match n with
  | O => acc
  | S n => frac_chars n (fp / 10) (digit_char (fp mod 10) :: acc)
  end.

(** [while (len > 0 && frac[len - 1] == '0') --len] on the reversed digits. *)
Fixpoint drop_zeros (l : list ascii) : list ascii :=
  match l with
  | [] => []
  | c :: l' => if chr c "0" then drop_zeros l' else l
  end.

Definition magnitude (raw : Z) : Z :=
  if raw <? 0 then (if raw =? i64_min then u64 (i64_max + 1) else u64 (- raw)) else u64 raw.

Definition to_decimal (raw : Z) : list ascii :=
  let sgn := if raw <? 0 then ["-"%char] else [] in
  let mag := magnitude raw in
  let ip := mag / kFixedScale in
  let fp := mag mod kFixedScale in
  sgn ++ int_chars 20 ip [] ++
  (if fp =? 0 then []
   else "."%char :: rev (drop_zeros (rev (frac_chars kFixedDecimals fp [])))).

(** [detail::parse_scaled_decimal].  The mantissa scan: digits, one dot and,
    for a literal, separators; it returns the digit and fraction-digit counts,
    whether a dot was seen, and splits off what follows the mantissa. *)
Fixpoint ps_mantissa (literal : bool) (s : list ascii) (n frac : Z) (dot : bool)
    (mant : list ascii) : Z * Z * bool * list ascii * list ascii :=
  match s with
  | [] => (n, frac, dot, rev mant, [])
  | c :: s' =>
    if is_digit c then
      ps_mantissa literal s' (n + 1) (if dot then frac + 1 else frac) dot (c :: mant)
    else if chr c "." && negb dot then ps_mantissa literal s' n frac true (c :: mant)
    else if negb literal || negb (chr c "'") then (n, frac, dot, rev mant, s)
    else ps_mantissa literal s' n frac dot (c :: mant)
  end.

(** The exponent digits; [None] on any other character. *)
Fixpoint ps_exp (literal : bool) (s : list ascii) (exp digits : Z) : option (Z * Z) :=
  match s with
  | [] => Some (exp, digits)
  | c :: s' =>
    if literal && chr c "'" then ps_exp literal s' exp digits
    else if negb (is_digit c) then None
    else ps_exp literal s' (if exp <? 100000 then exp * 10 + digit c else exp) (digits + 1)
  end.

(** The digits of the mantissa into [r]: the first [keep] of them count, the
    others must be zero. *)
Fixpoint ps_digits (s : list ascii) (keep idx r : Z) : option Z :=
  match s with
  | [] => Some r
  | c :: s' =>
    if negb (is_digit c) then ps_digits s' keep idx r
    else if idx <? keep then
      if Z.quot (i64_max - digit c) 10 <? r then None
      else ps_digits s' keep (idx + 1) (r * 10 + digit c)
    else if negb (digit c =? 0) then None
    else ps_digits s' keep (idx + 1) r
  end.

(** [for (k = 0; k < shift && r != 0; ++k) { overflow check; r *= 10; }] *)
Fixpoint ps_shift (n : nat) (r : Z) : option Z :=
  match n with
  | O => Some r
  | S n =>
    if r =? 0 then Some r
    else if Z.quot i64_max 10 <? r then None
    else ps_shift n (r * 10)
  end.

Definition parse_scaled_decimal (s : list ascii) (decimals : Z) (literal : bool) : option Z :=
  let '(neg, s) := if literal then (false, s) else split_sign s in
  let '(n_digits, frac_digits, dot, mant, rest) := ps_mantissa literal s 0 0 false [] in
  if n_digits =? 0 then None
  else
    match
      match rest with
      | [] => Some (0, false)
      | c :: s' =>
        if negb (chr c "e") && negb (chr c "E") then None
        else
          let '(exp_neg, s') := split_sign s' in
          match ps_exp literal s' 0 0 with
          | None => None
          | Some (e, exp_digits) =>
            if exp_digits =? 0 then None else Some (if exp_neg then - e else e, true)
          end
      end
    with
    | None => None
    | Some (exp, has_exp) =>
      if literal && negb dot && negb has_exp && (1 <? n_digits) &&
         match s with c :: _ => chr c "0" | [] => false end
      then None
      else
        let shift := exp - frac_digits + decimals in
        let keep := n_digits + (if shift <? 0 then shift else 0) in
        match ps_digits mant keep 0 0 with
        | None => None
        | Some r =>
          match ps_shift (Z.to_nat shift) r with
          | None => None
          | Some r => Some (if neg then - r else r)
          end
        end
    end.

(** [Fixed::parse] *)
Definition parse (s : list ascii) : option Z :=
  parse_scaled_decimal s (Z.of_nat kFixedDecimals) false.

(** [detail::literal_raw]: the numeric literals [_px], [_qty] and [_bps]. *)
Definition literal_raw (s : list ascii) (decimals : Z) : option Z :=
  parse_scaled_decimal s decimals true.

(** ** Exactness of the arithmetic *)

Lemma i128_product a b : in_i64 a -> in_i64 b -> i128 (a * b) = a * b.
Proof.
  intros Ha Hb. unfold i128. rewrite Z.mod_small; [lia|].
  assert (Z.abs (a * b) <= 2 ^ 63 * 2 ^ 63).
  { rewrite Z.abs_mul. apply Z.mul_le_mono_nonneg; width. }
  change (2 ^ 128) with (2 * 2 ^ 127). change (2 ^ 127) with (2 * (2 ^ 63 * 2 ^ 63)). lia.
Qed.

Lemma i128_quot a b d : in_i64 a -> in_i64 b -> d <> 0 ->
  i128 (Z.quot (a * b) d) = Z.quot (a * b) d.
Proof.
  intros Ha Hb Hd. unfold i128. rewrite Z.mod_small; [lia|].
  assert (Z.abs (a * b) <= 2 ^ 63 * 2 ^ 63).
  { rewrite Z.abs_mul. apply Z.mul_le_mono_nonneg; width. }
  assert (Z.abs (Z.quot (a * b) d) <= Z.abs (a * b)).
  { rewrite <- Z.quot_abs, Z.quot_div_nonneg by lia.
    apply Z.div_le_upper_bound; [lia|]. nia. }
  change (2 ^ 128) with (2 * 2 ^ 127). change (2 ^ 127) with (2 * (2 ^ 63 * 2 ^ 63)). lia.
Qed.

(** The 64-bit path and the 128-bit path of [mul_div] give the same result. *)
Lemma mul_div_eq a b d : in_i64 a -> in_i64 b -> d <> 0 ->
  mul_div a b d = i64 (Z.quot (a * b) d).
Proof.
  intros Ha Hb Hd. unfold mul_div. destruct (fits_i64 (a * b)) eqn:Hf; simpl.
  - apply fits_i64_spec in Hf. destruct (Z.eqb_spec d (-1)); simpl.
    + by rewrite i128_product, i128_quot.
    + symmetry. apply i64_id, quot_range; auto.
  - by rewrite i128_product, i128_quot.
Qed.

Lemma mul_div_const_eq D a b : in_i64 a -> in_i64 b -> D <> 0 -> D <> -1 ->
  mul_div_const D a b = i64 (Z.quot (a * b) D).
Proof.
  intros Ha Hb Hd Hd1. unfold mul_div_const. destruct (fits_i64 (a * b)) eqn:Hf.
  - apply fits_i64_spec in Hf. symmetry. apply i64_id, quot_range; auto.
  - by rewrite i128_product, i128_quot.
Qed.

Lemma floor_div_eq a b : b <> 0 -> floor_div a b = a / b.
Proof.
  intros Hb. unfold floor_div.
  pose proof (Z.quot_rem' a b). pose proof (Z.rem_bound_abs a b Hb).
  pose proof (Z.rem_sign_mul a b Hb).
  destruct (Z.eqb_spec (Z.rem a b) 0) as [E | E]; simpl.
  - apply Z.div_unique_exact; lia.
  - assert (a <> 0) by (intros ->; by rewrite Z.rem_0_l in E).
    assert (Hs : 0 < Z.rem a b * a) by nia.
    destruct (Bool.eqb (a <? 0) (b <? 0)) eqn:Heq; simpl.
    + apply Bool.eqb_prop in Heq. apply Z.div_unique with (Z.rem a b); [|lia].
      destruct (Z.ltb_spec a 0), (Z.ltb_spec b 0); try discriminate; nia.
    + apply Z.div_unique with (Z.rem a b + b); [|lia].
      destruct (Z.ltb_spec a 0), (Z.ltb_spec b 0); simpl in Heq; try discriminate; nia.
Qed.

(** C: rounding to the grid. *)
Lemma round_floor p tick : 0 < tick -> in_i64 p -> in_i64 (p - tick) ->
  i64 (floor_div p tick * tick) = p / tick * tick /\ p - tick < p / tick * tick <= p.
Proof.
  intros Ht Hp Hpt. rewrite floor_div_eq by lia.
  assert (p - tick < p / tick * tick <= p).
  { pose proof (Z.div_mod p tick ltac:(lia)). pose proof (Z.mod_pos_bound p tick Ht). nia. }
  split; [|done]. apply i64_id. width.
Qed.

(** The fast path of [mul_div] is invisible: for all int64 operands the result is the
    128-bit product divided with truncation toward zero, narrowed to int64, whether or
    not the product fits 64 bits; when the quotient fits, it is exact. *)
Theorem mul_div_exact a b d : in_i64 a -> in_i64 b -> d <> 0 ->
  mul_div a b d = i64 (Z.quot (a * b) d) /\
  (in_i64 (Z.quot (a * b) d) -> mul_div a b d = Z.quot (a * b) d).
Proof.
  intros Ha Hb Hd. split; [by apply mul_div_eq|].
  intros Hq. rewrite mul_div_eq by done. by apply i64_id.
Qed.

Lemma mul_div_exact_witness :
  mul_div i64_max i64_max i64_max = i64_max /\ mul_div i64_min 1 (-1) = i64_min.
Proof.
  split.
  - rewrite (proj2 (mul_div_exact i64_max i64_max i64_max ltac:(width) ltac:(width) ltac:(width)));
      [reflexivity | vm_compute; split; discriminate].
  - rewrite (proj1 (mul_div_exact i64_min 1 (-1) ltac:(width) ltac:(width) ltac:(width))).
    reflexivity.
Defined.

(** [round_to_tick] is the passive rounding: the result is a multiple of the tick,
    the largest one not above the price for a bid and the smallest one not below it for
    an ask, and a price already on the grid is left alone. *)
Theorem round_to_tick_passive p tick side :
  0 < tick -> in_i64 p -> in_i64 (p - tick) -> in_i64 (p + tick) ->
  on_tick (round_to_tick p tick side) tick = true /\
  match side with
  | Buy => p - tick < round_to_tick p tick side <= p
  | Sell => p <= round_to_tick p tick side < p + tick
  end /\
  (on_tick p tick = true -> round_to_tick p tick side = p).
Proof.
  intros Ht Hp Hl Hh. destruct (round_floor p tick Ht Hp Hl) as [Hf Hb].
  assert (Hrem : forall q, Z.rem (q * tick) tick = 0) by (intros q; apply Z.rem_mul; lia).
  assert (Hon : forall r, on_tick r tick = true <-> Z.rem r tick = 0)
    by (intros r; unfold on_tick; lia).
  unfold round_to_tick. rewrite Hf, !Hon. destruct side; simpl.
  - split; [apply Hrem|]. split; [lia|]. intros Hr. apply Z.rem_divide in Hr as [q ->]; [|lia].
    by rewrite Z.div_mul by lia.
  - destruct (Z.eqb_spec (p / tick * tick) p) as [E | E].
    + rewrite E. split; [rewrite <- E; apply Hrem|]. lia.
    + rewrite i64_id by width. split; [|split; [lia|]].
      * replace (p / tick * tick + tick) with ((p / tick + 1) * tick) by lia. apply Hrem.
      * intros Hr. apply Z.rem_divide in Hr as [q ->]; [|lia]. by rewrite Z.div_mul in E by lia.
Qed.

Lemma round_to_tick_passive_witness :
  round_to_tick 10012 10 Buy <= 10012 <= round_to_tick 10012 10 Sell.
Proof.
  pose proof (round_to_tick_passive 10012 10 Buy ltac:(lia) ltac:(width) ltac:(width) ltac:(width)).
  pose proof (round_to_tick_passive 10012 10 Sell ltac:(lia) ltac:(width) ltac:(width) ltac:(width)).
  simpl in *. lia.
Defined.

(** [round_to_lot] never rounds a quantity up: the result is a multiple of the lot
    within one lot below the quantity. *)
Theorem round_to_lot_down q lot : 0 < lot -> in_i64 q -> in_i64 (q - lot) ->
  on_lot (round_to_lot q lot) lot = true /\ q - lot < round_to_lot q lot <= q.
Proof.
  intros Hl Hq Hql. unfold round_to_lot. destruct (round_floor q lot Hl Hq Hql) as [-> Hb].
  split; [|done]. unfold on_lot. rewrite Z.rem_mul by lia. lia.
Qed.

Lemma round_to_lot_down_witness : round_to_lot 1234 100 = 1200 /\ round_to_lot 1234 100 <= 1234.
Proof. split; [reflexivity|]. apply (round_to_lot_down 1234 100); width. Defined.

(** For a price that is not negative, [round_to_tick_nearest] returns a multiple of
    the tick at most half a tick away. *)
Theorem round_to_tick_nearest_nonneg p tick :
  0 < tick -> 0 <= p -> in_i64 (p + tick) ->
  on_tick (round_to_tick_nearest p tick) tick = true /\
  2 * Z.abs (round_to_tick_nearest p tick - p) <= tick.
Proof.
  intros Ht Hp Hr. unfold round_to_tick_nearest.
  assert (Hh : 2 * (Z.quot tick 2) <= tick <= 2 * (Z.quot tick 2) + 1).
  { rewrite Z.quot_div_nonneg by lia. pose proof (Z.div_mod tick 2 ltac:(lia)).
    pose proof (Z.mod_pos_bound tick 2 ltac:(lia)). lia. }
  destruct (Z.leb_spec 0 p); [|lia]. rewrite (i64_id (p + _)) by width.
  set (s := p + Z.quot tick 2) in *.
  destruct (round_floor s tick Ht ltac:(width) ltac:(width)) as [-> Hb].
  split; [unfold on_tick; rewrite Z.rem_mul by lia; lia|]. lia.
Qed.

Lemma round_to_tick_nearest_nonneg_witness :
  round_to_tick_nearest 10012500000 1000000 = 10013000000 /\
  2 * Z.abs (round_to_tick_nearest 10012500000 1000000 - 10012500000) <= 1000000.
Proof.
  split; [reflexivity|]. apply (round_to_tick_nearest_nonneg 10012500000 1000000); width.
Defined.

(** On the negative side [round_to_tick_nearest] is not the nearest tick: it subtracts
    half a tick and then floors, so the smallest negative price goes a whole tick down,
    almost a full tick away from the nearest grid point, zero. *)
Theorem round_to_tick_nearest_negative tick :
  4 <= tick <= i64_max -> round_to_tick_nearest (-1) tick = - tick.
Proof.
  intros Ht. unfold round_to_tick_nearest. cbn [Z.leb Z.compare].
  assert (Hh : 2 * (Z.quot tick 2) <= tick) by (rewrite Z.quot_div_nonneg by lia;
    pose proof (Z.div_mod tick 2 ltac:(lia)); pose proof (Z.mod_pos_bound tick 2 ltac:(lia)); lia).
  assert (0 <= Z.quot tick 2) by (apply Z.quot_pos; lia).
  rewrite (i64_id (-1 - _)) by width. rewrite floor_div_eq by lia.
  replace ((-1 - Z.quot tick 2) / tick) with (-1).
  - rewrite i64_id; width.
  - apply Z.div_unique with (tick - 1 - Z.quot tick 2); lia.
Qed.

Lemma round_to_tick_nearest_negative_witness : round_to_tick_nearest (-1) 10 = -10.
Proof. apply (round_to_tick_nearest_negative 10). width. Defined.
