(* ===== verification/Decimal.v ===== *)
(** * Decimal: the decimal text of a fixed-point value

    Correctness of [Fixed::from_decimal], [Fixed::to_decimal] and
    [Fixed::parse] ([FixedPoint.from_decimal], [to_decimal], [parse]) against
    the decimal grammar: what a string denotes, that the parser accepts exactly
    the strings whose value fits the scale and the range, that printing and
    parsing round-trip, and that the configuration parser extends the strict
    one. *)

From S2P Require Import Prelude Types FixedPoint.
From Stdlib Require Import Ascii.

(** ** Digit strings *)

Abbreviation all_digits := (Forall (fun c => is_digit c = true)).

(** The number a digit string denotes, most significant first. *)
Definition dval (acc : Z) (l : list ascii) : Z :=
  fold_left (fun a c => a * 10 + digit c) l acc.

Lemma digit_range c : is_digit c = true -> 0 <= digit c <= 9.
Proof. unfold is_digit, digit. lia. Qed.

Lemma dval_acc acc l : dval acc l = acc * 10 ^ Z.of_nat (length l) + dval 0 l.
Proof.
  unfold dval. revert acc. induction l as [|c l IH]; intros acc; simpl fold_left; [simpl; lia|].
  rewrite IH, (IH (0 * 10 + digit c)). simpl length.
  rewrite Nat2Z.inj_succ, Z.pow_succ_r by lia. lia.
Qed.

Lemma dval_app acc l1 l2 : dval acc (l1 ++ l2) = dval (dval acc l1) l2.
Proof. apply fold_left_app. Qed.

Lemma dval_cons acc c l : dval acc (c :: l) = dval (acc * 10 + digit c) l.
Proof. done. Qed.

Lemma dval_bound l : all_digits l -> 0 <= dval 0 l < 10 ^ Z.of_nat (length l).
Proof.
  induction 1 as [|c l Hc _ IH]; [done|].
  rewrite dval_cons, dval_acc. apply digit_range in Hc. simpl length.
  rewrite Nat2Z.inj_succ, Z.pow_succ_r by lia. nia.
Qed.

Lemma dval_mono acc l : all_digits l -> 0 <= acc -> acc <= dval acc l.
Proof.
  intros Hl Ha. rewrite dval_acc. pose proof (dval_bound l Hl).
  assert (1 <= 10 ^ Z.of_nat (length l)) by (apply (Z.pow_le_mono_r 10 0); lia). nia.
Qed.

Lemma digit_char_code d : 0 <= d <= 9 ->
  is_digit (digit_char d) = true /\ digit (digit_char d) = d.
Proof.
  intros H. assert (Hcode : code (digit_char d) = 48 + d).
  { unfold code, digit_char. rewrite N_ascii_embedding by lia. lia. }
  unfold is_digit, digit. rewrite Hcode. lia.
Qed.

Lemma chr_eq c d : chr c d = true <-> c = d.
Proof. apply Ascii.eqb_eq. Qed.

Lemma digit_not_dot c : is_digit c = true -> chr c "." = false.
Proof.
  intros H. destruct (chr c ".") eqn:E; [|done]. apply chr_eq in E. by subst.
Qed.

Lemma digit_not_sign c : is_digit c = true -> chr c "-" || chr c "+" = false.
Proof.
  intros H. destruct (chr c "-") eqn:E1; [apply chr_eq in E1; by subst|].
  destruct (chr c "+") eqn:E2; [apply chr_eq in E2; by subst|done].
Qed.

Lemma digit_zero c : is_digit c = true -> chr c "0" = (digit c =? 0).
Proof.
  intros H. destruct (chr c "0") eqn:E.
  - apply chr_eq in E. by subst.
  - destruct (Z.eqb_spec (digit c) 0) as [E0|]; [|done].
    assert (c = "0"%char); [|subst; discriminate E].
    rewrite <- (ascii_N_embedding c). unfold digit, code in E0.
    replace (N_of_ascii c) with 48%N by lia. done.
Qed.

(** A digit string of value zero has only zeros. *)
Lemma dval_zero l : all_digits l -> dval 0 l = 0 -> Forall (fun c => digit c = 0) l.
Proof.
  induction 1 as [|c l Hc Hl IH]; intros H0; [done|].
  rewrite dval_cons, dval_acc in H0. apply digit_range in Hc. pose proof (dval_bound l Hl).
  assert (1 <= 10 ^ Z.of_nat (length l)) by (apply (Z.pow_le_mono_r 10 0); lia).
  constructor; [nia|]. apply IH. nia.
Qed.

Lemma zeros_dval l acc : Forall (fun c => digit c = 0) l ->
  dval acc l = acc * 10 ^ Z.of_nat (length l).
Proof.
  intros H. rewrite dval_acc. enough (dval 0 l = 0) by lia.
  induction H as [|c l Hc _ IH]; [done|]. rewrite dval_cons, dval_acc, Hc, IH. lia.
Qed.

(** ** The strict parser *)

(** [sign? ip [. fp]], the sign and the fraction optional. *)
Definition decimal_form (neg : bool) (ip fp : list ascii) (s : list ascii) : Prop :=
  all_digits ip /\ all_digits fp /\ (ip <> [] \/ fp <> []) /\
  exists sgn dot,
    s = sgn ++ ip ++ dot ++ fp /\
    (sgn = ["-"%char] /\ neg = true \/ (sgn = ["+"%char] \/ sgn = []) /\ neg = false) /\
    (dot = ["."%char] \/ dot = [] /\ fp = []).

(** The value [r] (in 1e-8 units) the digits denote, exactly. *)
Definition denotes (ip fp : list ascii) (r : Z) : Prop :=
  r * 10 ^ Z.of_nat (length fp) = dval 0 (ip ++ fp) * kFixedScale.

Lemma guard10 M d ip : 0 <= d <= 9 -> d <= M ->
  (Z.quot (M - d) 10 <? ip) = (M <? ip * 10 + d).
Proof.
  intros Hd HM. rewrite Z.quot_div_nonneg by lia.
  pose proof (Z.div_mod (M - d) 10 ltac:(lia)). pose proof (Z.mod_pos_bound (M - d) 10 ltac:(lia)).
  lia.
Qed.

Lemma kMaxInt_val : kMaxInt = 92233720368.
Proof. reflexivity. Qed.

(** The integer loop runs through a digit string whose value fits. *)
Lemma fd_int_run ip n l rest : all_digits l -> 0 <= ip -> dval ip l <= kMaxInt ->
  (rest = [] \/ exists r', rest = "."%char :: r') ->
  fd_int (l ++ rest) ip n = Some (dval ip l, n + Z.of_nat (length l), rest).
Proof.
  intros Hl. revert ip n. induction Hl as [|c l Hc Hl IH]; intros ip n Hip Hmax Hrest.
  - simpl. rewrite Z.add_0_r. by destruct Hrest as [-> | [r' ->]].
  - simpl app. cbn [fd_int]. rewrite digit_not_dot, Hc by done. cbn [negb].
    apply digit_range in Hc as Hd. rewrite dval_cons in Hmax.
    pose proof (dval_mono (ip * 10 + digit c) l Hl ltac:(lia)).
    rewrite guard10 by (rewrite ?kMaxInt_val in *; lia).
    destruct (Z.ltb_spec kMaxInt (ip * 10 + digit c)); [lia|].
    rewrite IH by (done || lia). rewrite dval_cons. simpl length. f_equal. f_equal. f_equal. lia.
Qed.

(** ... and what it accepts is such a string. *)
Lemma fd_int_sound s ip n v n' rest : 0 <= ip <= kMaxInt -> fd_int s ip n = Some (v, n', rest) ->
  exists l, s = l ++ rest /\ all_digits l /\ v = dval ip l /\ v <= kMaxInt /\
    n' = n + Z.of_nat (length l) /\ (rest = [] \/ exists r', rest = "."%char :: r').
Proof.
  revert ip n. induction s as [|c s IH]; intros ip n Hip; cbn [fd_int].
  - intros [= <- <- <-]. exists []. repeat split; try done; simpl; try lia. by left.
  - destruct (chr c ".") eqn:Ed.
    { intros [= <- <- <-]. exists []. apply chr_eq in Ed as ->.
      repeat split; try done; simpl; try lia. right. eauto. }
    destruct (is_digit c) eqn:Hc; [|done]. cbn [negb]. apply digit_range in Hc as Hd.
    rewrite guard10 by (rewrite ?kMaxInt_val in *; lia).
    destruct (Z.ltb_spec kMaxInt (ip * 10 + digit c)); [done|].
    intros (l & -> & Hl & -> & Hm & -> & Hr)%IH; [|lia].
    exists (c :: l). repeat split; auto; simpl length; lia.
Qed.

(** The fraction loop: the digits up to the eighth are read, the others are zeros. *)
Lemma fd_frac_spec l fp n : (n <= 8)%nat ->
  fd_frac l fp n = Some (dval fp (take (8 - n) l), (n + length (take (8 - n) l))%nat) /\
    all_digits l /\ Forall (fun c => digit c = 0) (drop (8 - n) l)
  \/ fd_frac l fp n = None /\
     ~ (all_digits l /\ Forall (fun c => digit c = 0) (drop (8 - n) l)).
Proof.
  unfold kFixedDecimals in *. revert fp n.
  induction l as [|c l IH]; intros fp n Hn; cbn [fd_frac].
  - left. rewrite take_nil, drop_nil. simpl. rewrite Nat.add_0_r. by repeat split.
  - destruct (is_digit c) eqn:Hc; cbn [negb].
    2: { right. split; [done|]. intros [Hd _]. apply Forall_cons in Hd as [Hd _]. congruence. }
    destruct (Nat.ltb_spec n kFixedDecimals) as [Hlt | Hge]; unfold kFixedDecimals in *.
    + replace (8 - n)%nat with (S (8 - S n)) by lia. cbn [take drop length].
      destruct (IH (fp * 10 + digit c) (S n) ltac:(lia)) as [(-> & Hd & Hz) | (-> & Hno)].
      * left. split; [|split; [by constructor|done]]. rewrite dval_cons. f_equal. f_equal. simpl. lia.
      * right. split; [done|]. intros [Hd Hz]. apply Hno. split; [by inversion Hd|done].
    + replace (8 - n)%nat with O in * by lia. cbn [take drop].
      rewrite digit_zero by done. destruct (Z.eqb_spec (digit c) 0) as [E|E]; cbn [negb].
      * destruct (IH fp n Hn) as [(-> & Hd & Hz) | (-> & Hno)];
          replace (8 - n)%nat with O in * by lia; cbn [take drop] in *.
        -- left. split; [done|]. split; by constructor.
        -- right. split; [done|]. intros [Hd Hz]. apply Hno.
           split; [by inversion Hd | by inversion Hz].
      * right. split; [done|]. intros [_ Hz]. by inversion Hz.
Qed.

Lemma times10_eq n x : times10 n x = x * 10 ^ Z.of_nat n.
Proof.
  revert x. induction n as [|n IH]; intros x; cbn [times10]; [lia|].
  rewrite IH, Nat2Z.inj_succ, Z.pow_succ_r by lia. lia.
Qed.

(** The exact value in terms of the digits the parser reads. *)
Lemma denotes_iff ip fp r : all_digits ip -> all_digits fp ->
  denotes ip fp r <->
  Forall (fun c => digit c = 0) (drop 8 fp) /\
  r = dval 0 ip * kFixedScale + times10 (8 - length (take 8 fp)) (dval 0 (take 8 fp)).
Proof.
  intros Hip Hfp. unfold denotes. rewrite dval_app, dval_acc, times10_eq.
  destruct (decide (length fp <= 8)%nat) as [Hle | Hgt].
  - rewrite take_ge, drop_ge by lia. set (n := length fp).
    replace kFixedScale with (10 ^ Z.of_nat n * 10 ^ Z.of_nat (8 - n)) at 1.
    2: { rewrite <- Z.pow_add_r by lia. replace (Z.of_nat n + Z.of_nat (8 - n)) with 8 by lia. done. }
    assert (0 < 10 ^ Z.of_nat n) by (apply Z.pow_pos_nonneg; lia).
    assert (HS : kFixedScale = 10 ^ Z.of_nat n * 10 ^ Z.of_nat (8 - n)).
    { rewrite <- Z.pow_add_r by lia. replace (Z.of_nat n + Z.of_nat (8 - n)) with 8 by lia. done. }
    split; [intros E; split; [constructor|]; nia | intros [_ ->]; rewrite HS; ring].
  - rewrite length_take_le by lia. change (8 - 8)%nat with O. rewrite Z.mul_1_r.
    pose proof (dval_bound (drop 8 fp) ltac:(by apply Forall_drop)) as Hd.
    rewrite length_drop in Hd. set (m := (length fp - 8)%nat) in *.
    assert (Hp : 10 ^ Z.of_nat (length fp) = kFixedScale * 10 ^ Z.of_nat m).
    { change kFixedScale with (10 ^ 8). rewrite <- Z.pow_add_r by lia. f_equal. lia. }
    assert (Hv : dval 0 fp = dval 0 (take 8 fp) * 10 ^ Z.of_nat m + dval 0 (drop 8 fp)).
    { rewrite <- (take_drop 8 fp) at 1. rewrite dval_app, dval_acc, length_drop. done. }
    rewrite Hv, Hp. assert (0 < 10 ^ Z.of_nat m) by (apply Z.pow_pos_nonneg; lia).
    change kFixedScale with 100000000. split.
    + intros E. assert (E' : r * 10 ^ Z.of_nat m = (dval 0 ip * 100000000 + dval 0 (take 8 fp)) *
        10 ^ Z.of_nat m + dval 0 (drop 8 fp)) by lia.
      assert (r = dval 0 ip * 100000000 + dval 0 (take 8 fp)) by nia.
      split; [|done]. apply dval_zero; [by apply Forall_drop|nia].
    + intros [Hz ->]. assert (dval 0 (drop 8 fp) = 0) by (rewrite zeros_dval by done; lia). nia.
Qed.

Lemma split_sign_app neg sgn body :
  (sgn = ["-"%char] /\ neg = true \/ (sgn = ["+"%char] \/ sgn = []) /\ neg = false) ->
  (forall c b, body = c :: b -> chr c "-" || chr c "+" = false) ->
  split_sign (sgn ++ body) = (neg, body).
Proof.
  intros [[-> ->] | [[-> | ->] ->]] Hb; try done. simpl.
  destruct body as [|c b]; [done|]. cbn [split_sign]. by rewrite (Hb c b).
Qed.

(** What the parser computes on a string of the grammar. *)
Lemma from_decimal_run neg ip fp s : decimal_form neg ip fp s ->
  forall r, denotes ip fp r -> 0 <= r <= i64_max ->
  from_decimal s = Some (if neg then - r else r).
Proof.
  intros (Hip & Hfp & Hne & sgn & dot & -> & Hsgn & Hdot) r Hr Hrange.
  apply denotes_iff in Hr as [Hz Hr]; [|done..]. rewrite times10_eq in Hr.
  pose proof (dval_bound ip Hip). pose proof (dval_bound (take 8 fp) ltac:(by apply Forall_take)).
  assert (0 <= 10 ^ Z.of_nat (8 - length (take 8 fp))) by (apply Z.pow_nonneg; lia).
  assert (Hmax : dval 0 ip <= kMaxInt) by (rewrite kMaxInt_val; unfold kFixedScale in Hr; width || nia).
  assert (Hbody : forall c b, ip ++ dot ++ fp = c :: b -> chr c "-" || chr c "+" = false).
  { intros c b E. destruct ip as [|c' ip'].
    - destruct Hdot as [-> | [-> ->]]; [by injection E as <- _|]. by destruct Hne.
    - injection E as <- _. inversion Hip; subst. by apply digit_not_sign. }
  unfold from_decimal. assert (Hnn : sgn ++ ip ++ dot ++ fp <> []).
  { destruct sgn; [|done]. destruct ip; [|done]. destruct Hdot as [-> | [-> ->]]; [done|].
    by destruct Hne. }
  destruct (sgn ++ ip ++ dot ++ fp) as [|c0 s0] eqn:Es; [done|]. rewrite <- Es.
  rewrite (split_sign_app neg) by done.
  rewrite fd_int_run; [|done|lia|done|destruct Hdot as [-> | [-> ->]]; [right; by eexists|by left]].
  assert (Hfrac : match dot ++ fp with [] => Some (0, O) | _ :: s' => fd_frac s' 0 O end =
    Some (dval 0 (take 8 fp), length (take 8 fp))).
  { destruct Hdot as [-> | [-> ->]]; [|done]. simpl app.
    destruct (fd_frac_spec fp 0 0 ltac:(lia)) as [(-> & _ & _) | (_ & Hno)]; [done|].
    destruct Hno. by split. }
  rewrite Hfrac.
  assert (Hcount : (0 + Z.of_nat (length ip) =? 0) && (length (take 8 fp) =? 0)%nat = false).
  { destruct Hne as [Hne | Hne].
    - destruct ip; [done|]. simpl length. lia.
    - destruct fp; [done|]. simpl. lia. }
  rewrite Hcount. change kFixedDecimals with 8%nat. rewrite times10_eq.
  rewrite (i64_id (dval 0 ip * kFixedScale)) by (unfold kFixedScale in *; width || nia).
  destruct (Z.ltb_spec (i64_max - dval 0 (take 8 fp) * 10 ^ Z.of_nat (8 - length (take 8 fp)))
    (dval 0 ip * kFixedScale)); [lia|]. by rewrite <- Hr.
Qed.

Lemma split_sign_inv s neg body : split_sign s = (neg, body) ->
  exists sgn, s = sgn ++ body /\
    (sgn = ["-"%char] /\ neg = true \/ (sgn = ["+"%char] \/ sgn = []) /\ neg = false).
Proof.
  destruct s as [|c s]; cbn [split_sign].
  - intros [= <- <-]. exists []. auto.
  - destruct (chr c "-") eqn:E1; cbn [orb].
    + intros [= <- <-]. apply chr_eq in E1 as ->. exists ["-"%char]. auto.
    + destruct (chr c "+") eqn:E2; intros [= <- <-].
      * apply chr_eq in E2 as ->. exists ["+"%char]. auto.
      * exists []. auto.
Qed.

Lemma from_decimal_sound s r : from_decimal s = Some r ->
  exists neg ip fp m, decimal_form neg ip fp s /\ denotes ip fp m /\
    0 <= m <= i64_max /\ r = if neg then - m else m.
Proof.
  unfold from_decimal. destruct s as [|c0 s0]; [done|]. set (s := c0 :: s0).
  destruct (split_sign s) as [neg body] eqn:Es. apply split_sign_inv in Es as (sgn & Es & Hsgn).
  destruct (fd_int body 0 0) as [[[ip n] rest]|] eqn:Ei; [|done].
  apply fd_int_sound in Ei as (l & -> & Hl & -> & Hm & -> & Hrest); [|done].
  assert (Hfr : exists fp dot, rest = dot ++ fp /\ (dot = ["."%char] \/ dot = [] /\ fp = []) /\
    match rest with [] => Some (0, O) | _ :: s' => fd_frac s' 0 O end = fd_frac fp 0 O).
  { destruct Hrest as [-> | [r' ->]]; [exists [], [] | exists r', ["."%char]]; auto. }
  destruct Hfr as (fp & dot & -> & Hdot & ->).
  destruct (fd_frac_spec fp 0 0 ltac:(lia)) as [(-> & Hfp & Hz) | (-> & _)]; [|done].
  change (8 - 0)%nat with 8%nat in *. rewrite Nat.add_0_l, Z.add_0_l.
  destruct ((Z.of_nat (length l) =? 0) && (length (take 8 fp) =? 0)%nat) eqn:Ec; [done|].
  change kFixedDecimals with 8%nat. rewrite times10_eq.
  pose proof (dval_bound l Hl). pose proof (dval_bound (take 8 fp) ltac:(by apply Forall_take)).
  assert (0 <= 10 ^ Z.of_nat (8 - length (take 8 fp))) by (apply Z.pow_nonneg; lia).
  rewrite kMaxInt_val in Hm.
  rewrite (i64_id (dval 0 l * kFixedScale)) by (unfold kFixedScale; width || nia).
  destruct (Z.ltb_spec (i64_max - dval 0 (take 8 fp) * 10 ^ Z.of_nat (8 - length (take 8 fp)))
    (dval 0 l * kFixedScale)) as [|Hfit]; [done|]. intros [= <-].
  eexists neg, l, fp, _. split; [|split; [apply denotes_iff; [done..|]; split; [done|];
    by rewrite times10_eq|]].
  - split; [done|]. split; [done|]. split.
    + destruct l; [|by left]. destruct fp; [|by right]. done.
    + exists sgn, dot. auto.
  - split; [|done]. unfold kFixedScale in *. nia.
Qed.

(** C40. [Fixed::from_decimal] accepts exactly the strings [sign? digits? [. digits?]] with at
    least one digit whose exact value is a multiple of 1e-8 of magnitude at most INT64_MAX,
    and returns that value: no accepted string loses precision and none that is exact
    and in range is refused. *)
Theorem from_decimal_exact s r : from_decimal s = Some r <->
  exists neg ip fp m, decimal_form neg ip fp s /\ denotes ip fp m /\
    0 <= m <= i64_max /\ r = if neg then - m else m.
Proof.
  split; [apply from_decimal_sound|].
  intros (neg & ip & fp & m & Hf & Hd & Hm & ->). by apply from_decimal_run with ip fp.
Qed.

(** ** The printer *)

Lemma int_chars_spec fuel k v acc : 0 <= v < 10 ^ Z.of_nat k -> (0 < k <= fuel)%nat ->
  exists l, int_chars fuel v acc = l ++ acc /\ all_digits l /\ dval 0 l = v /\ l <> [] /\
    (length l <= k)%nat.
Proof.
  revert k v acc. induction fuel as [|f IH]; intros k v acc Hv Hf; [lia|]. cbn [int_chars].
  pose proof (Z.div_mod v 10 ltac:(lia)). pose proof (Z.mod_pos_bound v 10 ltac:(lia)).
  destruct (digit_char_code (v mod 10) ltac:(lia)) as [Hd1 Hd2].
  destruct (Z.eqb_spec (v / 10) 0) as [E|E].
  - exists [digit_char (v mod 10)]. repeat split; auto; [|simpl; lia].
    unfold dval. simpl. rewrite Hd2. lia.
  - destruct k as [|k]; [lia|]. rewrite Nat2Z.inj_succ, Z.pow_succ_r in Hv by lia.
    assert (0 < k)%nat.
    { destruct k; [|lia]. change (10 ^ Z.of_nat 0) with 1 in Hv.
      destruct E. apply Z.div_small. lia. }
    destruct (IH k (v / 10) (digit_char (v mod 10) :: acc)) as (l & -> & Hl & Hval & Hn & Hlen);
      [split; [apply Z.div_pos; lia | apply Z.div_lt_upper_bound; lia] | lia |].
    exists (l ++ [digit_char (v mod 10)]). rewrite <- app_assoc. repeat split.
    + apply Forall_app. auto.
    + rewrite dval_app, Hval, dval_cons, Hd2. unfold dval. simpl. lia.
    + destruct l; done.
    + rewrite length_app. simpl. lia.
Qed.

Lemma frac_chars_spec n fp acc : 0 <= fp < 10 ^ Z.of_nat n ->
  exists l, frac_chars n fp acc = l ++ acc /\ all_digits l /\ dval 0 l = fp /\ length l = n.
Proof.
  revert fp acc. induction n as [|n IH]; intros fp acc Hv; cbn [frac_chars].
  - exists []. simpl in *. repeat split; auto. unfold dval. simpl. lia.
  - rewrite Nat2Z.inj_succ, Z.pow_succ_r in Hv by lia.
    pose proof (Z.div_mod fp 10 ltac:(lia)). pose proof (Z.mod_pos_bound fp 10 ltac:(lia)).
    destruct (digit_char_code (fp mod 10) ltac:(lia)) as [Hd1 Hd2].
    destruct (IH (fp / 10) (digit_char (fp mod 10) :: acc)) as (l & -> & Hl & Hval & Hlen);
      [split; [apply Z.div_pos; lia | apply Z.div_lt_upper_bound; lia] |].
    exists (l ++ [digit_char (fp mod 10)]). rewrite <- app_assoc. repeat split.
    + apply Forall_app. auto.
    + rewrite dval_app, Hval, dval_cons, Hd2. unfold dval. simpl. lia.
    + rewrite length_app. simpl. lia.
Qed.

(** Dropping trailing zeros keeps the value up to the scale. *)
Lemma drop_zeros_spec l : all_digits l ->
  exists z, l = z ++ drop_zeros l /\ Forall (fun c => digit c = 0) z /\ all_digits (drop_zeros l).
Proof.
  induction 1 as [|c l Hc Hl (z & Hz & Hz0 & Hd)]; [by exists []|].
  cbn [drop_zeros]. destruct (chr c "0") eqn:E.
  - rewrite digit_zero in E by done. exists (c :: z). simpl. rewrite <- Hz.
    repeat split; auto. constructor; [lia|done].
  - exists []. repeat split; auto.
Qed.

Lemma magnitude_eq raw : in_i64 raw -> magnitude raw = Z.abs raw.
Proof.
  intros H. unfold magnitude, u64. destruct (Z.ltb_spec raw 0); [|rewrite Z.mod_small; width].
  destruct (Z.eqb_spec raw i64_min) as [-> |]; [done|]. rewrite Z.mod_small; width.
Qed.

(** The printed text is of the grammar, denotes the magnitude, and its size is bounded. *)
Lemma to_decimal_form raw : in_i64 raw -> exists ip fp,
  decimal_form (raw <? 0) ip fp (to_decimal raw) /\ denotes ip fp (Z.abs raw) /\
  (length (to_decimal raw) <= 21)%nat.
Proof.
  intros Hr. unfold to_decimal. rewrite magnitude_eq by done. set (m := Z.abs raw).
  assert (Hm : 0 <= m <= 9223372036854775808) by (subst m; width).
  pose proof (Z.div_mod m kFixedScale ltac:(done)) as Hdm.
  pose proof (Z.mod_pos_bound m kFixedScale ltac:(done)) as Hmb.
  set (sgn := if raw <? 0 then ["-"%char] else []).
  assert (Hsgn : (sgn = ["-"%char] /\ (raw <? 0) = true \/
    (sgn = ["+"%char] \/ sgn = []) /\ (raw <? 0) = false) /\ (length sgn <= 1)%nat).
  { subst sgn. destruct (raw <? 0); simpl; auto. }
  destruct Hsgn as [Hsgn Hsl].
  assert (Hip : 0 <= m / kFixedScale < 10 ^ Z.of_nat 11).
  { unfold kFixedScale. change (10 ^ Z.of_nat 11) with 100000000000.
    split; [apply Z.div_pos; lia | apply Z.div_lt_upper_bound; lia]. }
  destruct (int_chars_spec 20 11 _ [] Hip ltac:(lia)) as (ip & -> & Hipd & Hipv & Hipn & Hipl).
  rewrite app_nil_r. destruct (Z.eqb_spec (m mod kFixedScale) 0) as [E | E].
  - exists ip, []. rewrite app_nil_r. split; [|split].
    + split; [done|]. split; [done|]. split; [by left|]. exists sgn, [].
      simpl. rewrite app_nil_r. auto.
    + unfold denotes. rewrite app_nil_r, Hipv. change (10 ^ Z.of_nat (length [])) with 1. lia.
    + rewrite length_app. lia.
  - destruct (frac_chars_spec kFixedDecimals (m mod kFixedScale) [] Hmb)
      as (fr & -> & Hfd & Hfv & Hfl).
    rewrite app_nil_r. destruct (drop_zeros_spec (rev fr)) as (z & Hz & Hz0 & Hd).
    { by apply Forall_rev. }
    set (fp := rev (drop_zeros (rev fr))) in *.
    assert (Hfr : fr = fp ++ rev z).
    { rewrite <- (rev_involutive fr), Hz, rev_app_distr. done. }
    assert (Hfpd : all_digits fp) by (subst fp; by apply Forall_rev).
    assert (Hlen : (length fp + length z = 8)%nat).
    { unfold kFixedDecimals in Hfl. rewrite Hfr, length_app, length_rev in Hfl. lia. }
    exists ip, fp. split; [|split].
    + split; [done|]. split; [done|]. split; [by left|]. exists sgn, ["."%char]. auto.
    + unfold denotes. rewrite dval_app, dval_acc, Hipv.
      rewrite Hfr, dval_app, zeros_dval in Hfv by (by apply Forall_rev).
      rewrite length_rev in Hfv.
      assert (HS : kFixedScale = 10 ^ Z.of_nat (length fp) * 10 ^ Z.of_nat (length z)).
      { rewrite <- Z.pow_add_r by lia. replace (_ + _) with 8 by lia. done. }
      rewrite <- Hfv in Hdm. clearbody m. revert Hdm. generalize (m / kFixedScale) as q.
      rewrite HS. intros q ->. ring.
    + rewrite !length_app. simpl length. lia.
Qed.

(** Printing and parsing round-trip: for every int64 value but INT64_MIN,
    [from_decimal] reads back what [to_decimal] wrote, and INT64_MIN is the one value
    whose text the parser refuses. *)
Theorem decimal_roundtrip raw : in_i64 raw ->
  from_decimal (to_decimal raw) = if raw =? i64_min then None else Some raw.
Proof.
  intros Hr. destruct (Z.eqb_spec raw i64_min) as [-> | Hne]; [reflexivity|].
  destruct (to_decimal_form raw Hr) as (ip & fp & Hf & Hd & _).
  rewrite (from_decimal_run _ _ _ _ Hf _ Hd) by width.
  f_equal. destruct (Z.ltb_spec raw 0); lia.
Qed.

Lemma decimal_roundtrip_witness :
  from_decimal (to_decimal (-150000001)) = Some (-150000001) /\
  from_decimal (to_decimal i64_min) = None.
Proof.
  split; [apply (decimal_roundtrip (-150000001)) | apply (decimal_roundtrip i64_min)]; width.
Defined.

(** The text of any int64 value fits the buffer [to_decimal] is given: it needs at most
    21 of the [kMaxDecimalChars] characters. *)
Theorem to_decimal_fits raw : in_i64 raw ->
  (length (to_decimal raw) <= 21)%nat /\ (21 < kMaxDecimalChars)%nat.
Proof.
  intros Hr. split; [|unfold kMaxDecimalChars; lia].
  destruct (to_decimal_form raw Hr) as (ip & fp & _ & _ & Hl). exact Hl.
Qed.

Lemma to_decimal_fits_witness : (length (to_decimal i64_min) <= 21)%nat.
Proof. apply (to_decimal_fits i64_min). width. Defined.

(** ** The configuration parser *)

Lemma ps_mantissa_digits lit l n frac dot mant rest : all_digits l ->
  ps_mantissa lit (l ++ rest) n frac dot mant =
  ps_mantissa lit rest (n + Z.of_nat (length l))
    (if dot then frac + Z.of_nat (length l) else frac) dot (rev l ++ mant).
Proof.
  intros Hl. revert n frac mant. induction Hl as [|c l Hc _ IH]; intros n frac mant.
  - simpl. rewrite !Z.add_0_r. by destruct dot.
  - simpl app. cbn [ps_mantissa]. rewrite Hc, IH. simpl rev. rewrite <- app_assoc.
    simpl length. f_equal; [lia|]. destruct dot; lia.
Qed.

Lemma ps_mantissa_form ip dot fp : all_digits ip -> all_digits fp ->
  (dot = ["."%char] \/ dot = [] /\ fp = []) ->
  ps_mantissa false (ip ++ dot ++ fp) 0 0 false [] =
  (Z.of_nat (length ip + length fp), Z.of_nat (length fp),
   match dot with [] => false | _ => true end, ip ++ dot ++ fp, []).
Proof.
  intros Hip Hfp Hdot. rewrite ps_mantissa_digits by done. rewrite app_nil_r.
  destruct Hdot as [-> | [-> ->]].
  - simpl app. cbn [ps_mantissa]. change (is_digit ".") with false. cbn [chr Ascii.eqb Bool.eqb negb andb].
    rewrite <- (app_nil_r fp), ps_mantissa_digits, app_nil_r by done. cbn [ps_mantissa].
    rewrite !rev_app_distr. simpl. rewrite !rev_involutive, <- app_assoc. simpl.
    f_equal. f_equal. f_equal. f_equal; lia.
  - simpl. rewrite rev_involutive, app_nil_r, Nat.add_0_r. f_equal.
Qed.

Lemma ps_digits_keep l keep idx r rest : all_digits l -> 0 <= r ->
  idx + Z.of_nat (length l) <= keep -> dval r l <= i64_max ->
  ps_digits (l ++ rest) keep idx r = ps_digits rest keep (idx + Z.of_nat (length l)) (dval r l).
Proof.
  intros Hl. revert idx r. induction Hl as [|c l Hc Hl IH]; intros idx r Hr Hk Hm.
  - simpl. by rewrite Z.add_0_r.
  - simpl app. cbn [ps_digits]. rewrite Hc. cbn [negb]. apply digit_range in Hc as Hd.
    rewrite dval_cons in *. simpl length in *.
    pose proof (dval_mono (r * 10 + digit c) l Hl ltac:(lia)).
    destruct (Z.ltb_spec idx keep); [|lia].
    rewrite guard10 by (width || lia). destruct (Z.ltb_spec i64_max (r * 10 + digit c)); [lia|].
    rewrite IH by lia. f_equal. lia.
Qed.

Lemma ps_digits_zero l keep idx r : all_digits l -> Forall (fun c => digit c = 0) l ->
  keep <= idx -> ps_digits l keep idx r = Some r.
Proof.
  intros Hl Hz. revert idx. induction l as [|c l IH]; intros idx Hk; [done|].
  inversion Hl; inversion Hz; subst. cbn [ps_digits].
  rewrite H1, H5. destruct (Z.ltb_spec idx keep); [lia|]. cbn. apply IH; auto; lia.
Qed.

Lemma ps_shift_eq n r : 0 <= r -> r * 10 ^ Z.of_nat n <= i64_max ->
  ps_shift n r = Some (r * 10 ^ Z.of_nat n).
Proof.
  revert r. induction n as [|n IH]; intros r Hr Hm; cbn [ps_shift].
  - f_equal. simpl. lia.
  - rewrite Nat2Z.inj_succ, Z.pow_succ_r in * by lia.
    assert (1 <= 10 ^ Z.of_nat n) by (apply (Z.pow_le_mono_r 10 0); lia).
    destruct (Z.eqb_spec r 0) as [-> |]; [done|].
    change (Z.quot i64_max 10) with 922337203685477580.
    destruct (Z.ltb_spec 922337203685477580 r); [width || nia|].
    rewrite IH by nia. f_equal. lia.
Qed.

Lemma ps_digits_form ip dot fp : all_digits ip -> all_digits fp ->
  (dot = ["."%char] \/ dot = [] /\ fp = []) ->
  Forall (fun c => digit c = 0) (drop 8 fp) ->
  dval 0 (ip ++ take 8 fp) <= i64_max ->
  ps_digits (ip ++ dot ++ fp) (Z.of_nat (length ip + length (take 8 fp))) 0 0 =
  Some (dval 0 (ip ++ take 8 fp)).
Proof.
  intros Hip Hfp Hdot Hz Hm. rewrite dval_app in *.
  assert (Ht : all_digits (take 8 fp)) by by apply Forall_take.
  pose proof (dval_bound ip Hip). pose proof (dval_mono (dval 0 ip) _ Ht ltac:(lia)).
  rewrite ps_digits_keep by (done || lia). rewrite Z.add_0_l.
  assert (Hskip : forall i r, ps_digits (dot ++ fp) (Z.of_nat (length ip + length (take 8 fp))) i r =
    ps_digits fp (Z.of_nat (length ip + length (take 8 fp))) i r).
  { intros i r. destruct Hdot as [-> | [-> ->]]; done. }
  rewrite Hskip. rewrite <- (take_drop 8 fp) at 1.
  rewrite ps_digits_keep by (done || lia).
  rewrite ps_digits_zero; [done| by apply Forall_drop | done | lia].
Qed.

(** The configuration parser [Fixed::parse] extends the venue parser: every string
    [from_decimal] accepts, [parse] accepts with the same value. *)
Theorem parse_extends_from_decimal s r : from_decimal s = Some r -> parse s = Some r.
Proof.
  intros (neg & ip & fp & m & Hform & Hd & Hm & ->)%from_decimal_sound.
  destruct Hform as (Hip & Hfp & Hne & sgn & dot & -> & Hsgn & Hdot).
  apply denotes_iff in Hd as [Hz Hd]; [|done..]. rewrite times10_eq in Hd.
  assert (Hbody : forall c b, ip ++ dot ++ fp = c :: b -> chr c "-" || chr c "+" = false).
  { intros c b E. destruct ip as [|c' ip'].
    - destruct Hdot as [-> | [-> ->]]; [by injection E as <- _|]. by destruct Hne.
    - injection E as <- _. inversion Hip; subst. by apply digit_not_sign. }
  unfold parse, parse_scaled_decimal. rewrite (split_sign_app neg) by done.
  rewrite ps_mantissa_form by done.
  destruct (Z.eqb_spec (Z.of_nat (length ip + length fp)) 0).
  { destruct ip, fp; simpl in *; try lia. by destruct Hne. }
  cbn [andb]. change (Z.of_nat kFixedDecimals) with 8.
  pose proof (length_take fp 8) as Hlt.
  assert (Hmin : (if 0 - Z.of_nat (length fp) + 8 <? 0 then 0 - Z.of_nat (length fp) + 8 else 0) =
    Z.of_nat (length (take 8 fp)) - Z.of_nat (length fp)).
  { destruct (Z.ltb_spec (0 - Z.of_nat (length fp) + 8) 0); lia. }
  rewrite Hmin. replace (Z.of_nat (length ip + length fp) + _)
    with (Z.of_nat (length ip + length (take 8 fp))) by lia.
  assert (Hv : m = dval 0 (ip ++ take 8 fp) * 10 ^ Z.of_nat (8 - length (take 8 fp))).
  { rewrite Hd, dval_app, (dval_acc (dval 0 ip)), Z.mul_add_distr_r. f_equal.
    rewrite <- Z.mul_assoc, <- Z.pow_add_r by lia. unfold kFixedScale. f_equal.
    replace (_ + _) with 8 by lia. done. }
  assert (1 <= 10 ^ Z.of_nat (8 - length (take 8 fp))) by (apply (Z.pow_le_mono_r 10 0); lia).
  pose proof (dval_bound (ip ++ take 8 fp) ltac:(apply Forall_app; split; [done|by apply Forall_take])).
  rewrite ps_digits_form by (done || nia).
  replace (Z.to_nat (0 - Z.of_nat (length fp) + 8)) with (8 - length (take 8 fp))%nat by lia.
  rewrite ps_shift_eq by lia. by rewrite <- Hv.
Qed.

Lemma parse_extends_from_decimal_witness :
  parse ["-"; "0"; "."; "1"; "0"; "0"; "0"; "0"; "0"; "0"; "0"; "0"]%char = Some (-10000000).
Proof. apply parse_extends_from_decimal. reflexivity. Defined.
