(* ===== verification/RingBuffer.v ===== *)
(** * RingBuffer: the circular FIFO of [containers/ring_buffer.hpp]

    Capacity [N = 2^p]; the head and tail are 64-bit counters that wrap, the
    slot of a position is its low [p] bits.  [ring_rep] relates a buffer to the
    list of its elements, oldest first, and every operation is shown to act on
    that list; the counters may wrap, the proofs do not assume they do not. *)

From S2P Require Import Prelude.

Module Ring.

Record Ring (T : Type) := mkRing {
  head_ : Z;
  tail_ : Z;
  buf_ : gmap Z T;
}.
Arguments mkRing {T}.
Arguments head_ {T}.
Arguments tail_ {T}.
Arguments buf_ {T}.

Section ring.
Context {T : Type} (p : Z).

Definition cap : Z := 2 ^ p.

Definition ring_empty : Ring T := mkRing 0 0 ∅.

Definition size (r : Ring T) : Z := u64 (tail_ r - head_ r).
Definition empty (r : Ring T) : bool := head_ r =? tail_ r.
Definition full (r : Ring T) : bool := size r =? cap.
Definition slot (pos : Z) : Z := Z.land pos (cap - 1).

Definition push (r : Ring T) (v : T) : Ring T :=
  let head := if full r then u64 (head_ r + 1) else head_ r in
  mkRing head (u64 (tail_ r + 1)) (<[slot (tail_ r) := v]> (buf_ r)).

Definition try_push (r : Ring T) (v : T) : bool * Ring T :=
  if full r then (false, r)
  else (true, mkRing (head_ r) (u64 (tail_ r + 1)) (<[slot (tail_ r) := v]> (buf_ r))).

(** [pop(out)]: the element and the rest, [None] when empty. *)
Definition pop (r : Ring T) : option (option T * Ring T) :=
  if empty r then None
  else Some (buf_ r !! slot (head_ r), mkRing (u64 (head_ r + 1)) (tail_ r) (buf_ r)).

Definition front (r : Ring T) : option T := buf_ r !! slot (head_ r).
Definition back (r : Ring T) : option T := buf_ r !! slot (u64 (tail_ r - 1)).
(** [operator[](i)]: [i == 0] is the oldest element. *)
Definition nth (r : Ring T) (i : Z) : option T := buf_ r !! slot (u64 (head_ r + i)).

Definition head_pos (r : Ring T) : Z := head_ r.
Definition next_pos (r : Ring T) : Z := tail_ r.
Definition at_pos (r : Ring T) (pos : Z) : option T :=
  if u64 (pos - head_ r) <? size r then buf_ r !! slot pos else None.
(** [*at_pos(pos) = v], through the pointer the source returns. *)
Definition set_pos (r : Ring T) (pos : Z) (v : T) : Ring T :=
  mkRing (head_ r) (tail_ r) (<[slot pos := v]> (buf_ r)).

(** [find_if]: newest first; [n] counts down from [size()]. *)
Fixpoint find_from (r : Ring T) (f : T -> bool) (n : nat) : option T :=
  match n with
  | O => None
  | S n =>
    match nth r (Z.of_nat n) with
    | Some e => if f e then Some e else find_from r f n
    | None => find_from r f n
    end
  end.
Definition find_if (r : Ring T) (f : T -> bool) : option T :=
  find_from r f (Z.to_nat (size r)).

(** ** The list of elements *)

Definition ring_rep (r : Ring T) (l : list T) : Prop :=
  0 <= head_ r < 2 ^ 64 /\ tail_ r = u64 (head_ r + Z.of_nat (length l)) /\
  Z.of_nat (length l) <= cap /\
  forall i x, l !! i = Some x -> buf_ r !! ((head_ r + Z.of_nat i) mod cap) = Some x.

Hypothesis Hp : 0 <= p < 64.

Lemma cap_pos : 0 < cap.
Proof. apply Z.pow_pos_nonneg; lia. Qed.
Lemma cap_lt : cap < 2 ^ 64.
Proof. apply Z.pow_lt_mono_r; lia. Qed.

Lemma slot_mod x : slot x = x mod cap.
Proof. apply land_mask. lia. Qed.
Lemma slot_u64 x : slot (u64 x) = x mod cap.
Proof. rewrite slot_mod. apply u64_mod_pow. lia. Qed.

Lemma u64_add_cap a b : (u64 a + b) mod cap = (a + b) mod cap.
Proof.
  rewrite Zplus_mod. unfold cap. rewrite u64_mod_pow by lia. by rewrite <- Zplus_mod.
Qed.
Lemma add_u64_cap a b : (a + u64 b) mod cap = (a + b) mod cap.
Proof. rewrite Z.add_comm, u64_add_cap. f_equal. lia. Qed.

Lemma u64_range x : 0 <= u64 x < 2 ^ 64.
Proof. apply Z.mod_pos_bound. lia. Qed.
Lemma u64_diff a b n : 0 <= n < 2 ^ 64 -> b = u64 (a + n) -> u64 (b - a) = n.
Proof.
  intros Hn ->. unfold u64. rewrite Zminus_mod_idemp_l.
  replace (a + n - a) with n by lia. by apply Z.mod_small.
Qed.

Lemma size_rep r l : ring_rep r l -> size r = Z.of_nat (length l).
Proof.
  intros (Hh & Ht & Hc & _). unfold size. apply u64_diff; [|done].
  pose proof cap_lt. lia.
Qed.
Lemma full_rep r l : ring_rep r l -> full r = (Z.of_nat (length l) =? cap).
Proof. intros H. unfold full. by rewrite (size_rep r l). Qed.

Lemma empty_rep r l : ring_rep r l -> empty r = true <-> l = [].
Proof.
  intros Hrep. pose proof (size_rep r l Hrep) as Hs. destruct Hrep as (Hh & Ht & Hc & _).
  unfold empty, size in *. rewrite Z.eqb_eq. split.
  - intros E. rewrite E, Z.sub_diag in Hs. destruct l; [done|]. simpl in Hs. by vm_compute in Hs.
  - intros ->. rewrite Ht, Z.add_0_r. symmetry. by apply Z.mod_small.
Qed.

(** Two positions less than a capacity apart have different slots. *)
Lemma slot_ne h i j : 0 <= i < cap -> 0 <= j < cap -> i <> j -> (h + i) mod cap <> (h + j) mod cap.
Proof.
  intros Hi Hj Hij E. pose proof cap_pos.
  assert (Hd : (h + i - (h + j)) mod cap = 0) by (rewrite Zminus_mod, E, Z.sub_diag; by apply Z.mod_0_l; lia).
  apply Z.mod_divide in Hd as [k Hk]; [|lia]. assert (k = 0) by nia. lia.
Qed.

Lemma rep_empty : ring_rep ring_empty [].
Proof. repeat split; simpl; try lia; [pose proof cap_pos; lia | done]. Qed.

Lemma rep_push_room r l v : ring_rep r l -> Z.of_nat (length l) < cap ->
  ring_rep (mkRing (head_ r) (u64 (tail_ r + 1)) (<[slot (tail_ r) := v]> (buf_ r))) (l ++ [v]).
Proof.
  intros (Hh & Ht & Hc & Hl) Hroom. split; [done|]. simpl. split; [|split].
  - rewrite length_app. simpl. rewrite Ht. unfold u64. rewrite Zplus_mod_idemp_l. f_equal. lia.
  - rewrite length_app. simpl. lia.
  - intros i x Hi. rewrite Ht, slot_u64. apply lookup_app_Some in Hi as [Hi | [Hge Hi]].
    + pose proof (lookup_lt_Some _ _ _ Hi). rewrite lookup_insert_ne; [by apply Hl|].
      apply slot_ne; lia.
    + assert (i = length l) as -> by (apply lookup_lt_Some in Hi; simpl in Hi; lia).
      rewrite Nat.sub_diag in Hi. injection Hi as ->. by rewrite lookup_insert_eq.
Qed.

Lemma rep_drop_oldest r x l : ring_rep r (x :: l) ->
  ring_rep (mkRing (u64 (head_ r + 1)) (tail_ r) (buf_ r)) l.
Proof.
  intros (Hh & Ht & Hc & Hl). split; [apply u64_range|]. simpl in *. split; [|split].
  - rewrite Ht. unfold u64. rewrite Zplus_mod_idemp_l. f_equal. lia.
  - lia.
  - intros i y Hi. specialize (Hl (S i) y Hi).
    rewrite u64_add_cap.
    replace (head_ r + 1 + Z.of_nat i) with (head_ r + Z.of_nat (S i)) by lia. done.
Qed.

(** [push] appends; a full buffer loses its oldest element. *)
Lemma rep_push r l v : ring_rep r l ->
  ring_rep (push r v) ((if full r then tail l else l) ++ [v]).
Proof.
  intros Hr. pose proof (full_rep r l Hr) as Hf. unfold push. destruct (full r) eqn:E.
  - destruct l as [|x l]; [cbn [length] in Hf; pose proof cap_pos; lia|]. cbn [tail].
    apply (rep_push_room (mkRing (u64 (head_ r + 1)) (tail_ r) (buf_ r)) l v).
    + by apply rep_drop_oldest with x.
    + destruct Hr as (_ & _ & Hc & _). simpl in Hc. lia.
  - apply rep_push_room; [done|]. destruct Hr as (_ & _ & Hc & _). lia.
Qed.

(** Reading at a position: the element pushed there, while it is still in the buffer. *)
Lemma rep_at_pos r l pos : ring_rep r l ->
  at_pos r pos = if u64 (pos - head_ r) <? Z.of_nat (length l)
                 then l !! Z.to_nat (u64 (pos - head_ r)) else None.
Proof.
  intros Hr. unfold at_pos. rewrite (size_rep r l Hr). pose proof (u64_range (pos - head_ r)).
  destruct (Z.ltb_spec (u64 (pos - head_ r)) (Z.of_nat (length l))) as [Hlt|]; [|done].
  destruct (lookup_lt_is_Some_2 l (Z.to_nat (u64 (pos - head_ r))) ltac:(lia)) as [x Hx].
  rewrite Hx. destruct Hr as (_ & _ & _ & Hl). specialize (Hl _ _ Hx).
  rewrite Z2Nat.id in Hl by lia. rewrite <- Hl. f_equal.
  rewrite slot_mod, add_u64_cap. f_equal. lia.
Qed.

Lemma rep_set_pos r l pos v : ring_rep r l -> u64 (pos - head_ r) < Z.of_nat (length l) ->
  ring_rep (set_pos r pos v) (<[Z.to_nat (u64 (pos - head_ r)) := v]> l).
Proof.
  intros (Hh & Ht & Hc & Hl) Hlt. pose proof (u64_range (pos - head_ r)) as Hu.
  assert (Hs : slot pos = (head_ r + u64 (pos - head_ r)) mod cap).
  { rewrite slot_mod, add_u64_cap. f_equal. lia. }
  split; [done|]. simpl. rewrite length_insert. split; [done|]. split; [done|].
  intros i x Hi. rewrite Hs. destruct (decide (Z.to_nat (u64 (pos - head_ r)) = i)) as [<- | Hne].
  - rewrite list_lookup_insert_eq in Hi by lia. injection Hi as ->.
    rewrite Z2Nat.id by lia. by rewrite lookup_insert_eq.
  - rewrite list_lookup_insert_ne in Hi by done. pose proof (lookup_lt_Some _ _ _ Hi).
    rewrite lookup_insert_ne; [by apply Hl|]. apply slot_ne; lia.
Qed.

Lemma rep_nth r l i : ring_rep r l -> (i < length l)%nat -> nth r (Z.of_nat i) = l !! i.
Proof.
  intros (_ & _ & _ & Hl) Hi. unfold nth. rewrite slot_u64.
  destruct (lookup_lt_is_Some_2 l i Hi) as [x Hx]. rewrite Hx. by apply Hl.
Qed.

(** ** Refinement of the bounded FIFO *)

Inductive op := OPush (v : T) | OTryPush (v : T) | OPop.
(** What a caller sees of an operation. *)
Inductive out := RDone | RBool (b : bool) | RPopped (v : option T).

Definition step (o : op) (r : Ring T) : out * Ring T :=
  match o with
  | OPush v => (RDone, push r v)
  | OTryPush v => let '(b, r') := try_push r v in (RBool b, r')
  | OPop => match pop r with Some (x, r') => (RPopped x, r') | None => (RPopped None, r) end
  end.

(** The specification: a list of at most [cap] elements, oldest first. *)
Definition spec_step (o : op) (l : list T) : out * list T :=
  match o with
  | OPush v => (RDone, (if Z.of_nat (length l) =? cap then tail l else l) ++ [v])
  | OTryPush v => if Z.of_nat (length l) =? cap then (RBool false, l) else (RBool true, l ++ [v])
  | OPop => match l with [] => (RPopped None, []) | x :: l' => (RPopped (Some x), l') end
  end.

Fixpoint run {S} (st : op -> S -> out * S) (ops : list op) (s : S) : list out :=
  match ops with
  | [] => []
  | o :: ops => let '(x, s') := st o s in x :: run st ops s'
  end.

Lemma ring_step_refines o r l : ring_rep r l ->
  fst (step o r) = fst (spec_step o l) /\ ring_rep (snd (step o r)) (snd (spec_step o l)).
Proof.
  intros Hr. pose proof (full_rep r l Hr) as Hf. destruct o as [v | v |]; cbn [step spec_step].
  - rewrite <- Hf. split; [done|]. by apply rep_push.
  - unfold try_push. rewrite <- Hf. destruct (full r); [done|]. split; [done|].
    apply rep_push_room; [done|]. destruct Hr as (_ & _ & Hc & _). lia.
  - unfold pop. pose proof (empty_rep r l Hr) as He. destruct (empty r) eqn:E.
    + assert (l = []) as -> by by apply He. done.
    + destruct l as [|x l]; [destruct He as [_ He]; by specialize (He eq_refl)|]. split.
      * simpl. destruct Hr as (_ & _ & _ & Hl). rewrite slot_mod.
        specialize (Hl O x eq_refl). rewrite Z.add_0_r in Hl. by rewrite Hl.
      * by apply rep_drop_oldest with x.
Qed.

Lemma ring_run_refines ops : forall r l, ring_rep r l -> run step ops r = run spec_step ops l.
Proof.
  induction ops as [|o ops IH]; intros r l Hr; [done|]. cbn [run].
  pose proof (ring_step_refines o r l Hr) as [Ho Hr'].
  destruct (step o r) as [x r'], (spec_step o l) as [x' l']. simpl in *. subst.
  f_equal. by apply IH.
Qed.

Lemma rep_push_keeps vs : forall r l v k, ring_rep r l ->
  l !! k = Some v -> (Z.of_nat (length vs) + (Z.of_nat (length l) - Z.of_nat k) <= cap) ->
  exists l' k', ring_rep (fold_left push vs r) l' /\ l' !! k' = Some v /\
    u64 (head_ (fold_left push vs r) + Z.of_nat k') = u64 (head_ r + Z.of_nat k).
Proof.
  induction vs as [|w vs IH]; intros r l v k Hr Hk Hroom; [by exists l, k|].
  cbn [fold_left]. pose proof (rep_push r l w Hr) as Hr'. pose proof (full_rep r l Hr) as Hf.
  pose proof (lookup_lt_Some _ _ _ Hk) as Hlt. simpl length in Hroom.
  destruct (full r) eqn:E.
  - destruct k as [|k]; [lia|]. destruct l as [|x l]; [done|]. cbn [tail] in Hr'. simpl in Hk, Hlt.
    destruct (IH (push r w) (l ++ [w]) v k Hr') as (l' & k' & H1 & H2 & H3).
    + by apply lookup_app_l_Some.
    + rewrite length_app. simpl in *. lia.
    + exists l', k'. split; [done|]. split; [done|]. rewrite H3. unfold push. rewrite E. simpl.
      unfold u64. rewrite Zplus_mod_idemp_l. f_equal. lia.
  - destruct (IH (push r w) (l ++ [w]) v k Hr') as (l' & k' & H1 & H2 & H3).
    + by apply lookup_app_l_Some.
    + rewrite length_app. simpl in *. lia.
    + exists l', k'. split; [done|]. split; [done|]. rewrite H3. unfold push. rewrite E. done.
Qed.

(** [RingBuffer] implements the bounded FIFO: over any sequence of [push], [try_push] and
    [pop] from the empty buffer, every result is the one of the list that drops its
    oldest element when a full buffer is pushed to, also across the wrap of the 64-bit
    counters. *)
Theorem ring_refines_fifo ops : run step ops ring_empty = run spec_step ops [].
Proof. apply ring_run_refines, rep_empty. Qed.

(** A position stays valid for a capacity's worth of pushes: the element pushed at
    [next_pos()] is what [at_pos] returns there until [N] more have been pushed. *)
Theorem at_pos_stable r l v vs : ring_rep r l -> Z.of_nat (length vs) < cap ->
  at_pos (fold_left push vs (push r v)) (next_pos r) = Some v.
Proof.
  intros Hr Hvs. set (l1 := (if full r then tail l else l) ++ [v]).
  assert (Hk : l1 !! (length l1 - 1)%nat = Some v).
  { subst l1. rewrite length_app. simpl. rewrite lookup_app_r by lia.
    by replace (_ - _)%nat with O by lia. }
  pose proof (lookup_lt_Some _ _ _ Hk) as Hlen.
  destruct (rep_push_keeps vs (push r v) l1 v (length l1 - 1) (rep_push r l v Hr) Hk ltac:(lia))
    as (l' & k' & Hr' & Hk' & Hpos).
  assert (Htail : next_pos r = u64 (head_ (push r v) + Z.of_nat (length l1 - 1))).
  { pose proof (rep_push r l v Hr) as (_ & Ht & _ & _). fold l1 in Ht.
    destruct Hr as (_ & Htl & _). unfold next_pos, push in *. simpl in Ht.
    apply (f_equal (fun x => u64 (x - 1))) in Ht. unfold u64 in Ht.
    rewrite !Zminus_mod_idemp_l in Ht. replace (tail_ r + 1 - 1) with (tail_ r) in Ht by lia.
    rewrite Z.mod_small in Ht by (rewrite Htl; apply u64_range). rewrite Ht. unfold u64. f_equal.
    simpl. lia. }
  rewrite (rep_at_pos _ l' _ Hr'), Htail, <- Hpos.
  pose proof (lookup_lt_Some _ _ _ Hk') as Hlt'. pose proof Hr' as (_ & _ & Hc' & _).
  assert (Hu : u64 (u64 (head_ (fold_left push vs (push r v)) + Z.of_nat k') -
    head_ (fold_left push vs (push r v))) = Z.of_nat k').
  { apply u64_diff with (n := Z.of_nat k'); [pose proof cap_lt; lia|done]. }
  rewrite Hu. destruct (Z.ltb_spec (Z.of_nat k') (Z.of_nat (length l'))); [|lia].
  by rewrite Nat2Z.id.
Qed.
End ring.

Lemma ring_refines_fifo_witness :
  run (step 1) [OPush 1; OTryPush 2; OTryPush 3; OPush 4; OPop; OPop; OPop] ring_empty =
  [RDone; RBool true; RBool false; RDone; RPopped (Some 2); RPopped (Some 4); RPopped None].
Proof. rewrite (ring_refines_fifo 1 ltac:(lia)). reflexivity. Defined.

(** A buffer of two slots whose counters are at the last 64-bit value. *)
Lemma at_pos_stable_witness :
  let r := mkRing (2 ^ 64 - 1) (2 ^ 64 - 1) ∅ in
  at_pos 1 (fold_left (push 1) [8] (push 1 r 7)) (2 ^ 64 - 1) = Some 7.
Proof.
  intros r. apply (at_pos_stable 1 ltac:(lia) r [] 7 [8]); [|vm_compute; reflexivity].
  repeat split; simpl; try lia; [vm_compute; discriminate | intros i x Hi; inversion Hi].
Defined.
End Ring.
