(* ===== verification/Bits.v ===== *)
(** * Bits: occupancy words

    The visits of [containers/pool.hpp] and [containers/bucket_bits.hpp] walk a
    64-bit word with [__builtin_ctzll] and [bits &= bits - 1]: the list of its
    set bits, ascending. *)

From Stdlib Require Import Sorted.
From S2P Require Import Prelude.

(** [__builtin_ctzll(x)]: the index of the lowest set bit (of a non-zero word). *)
Fixpoint ctz_from (fuel : nat) (i : Z) (x : Z) : Z :=
  match fuel with
  | O => i
  | S f => if Z.testbit x i then i else ctz_from f (i + 1) x
  end.
Definition ctz (x : Z) : Z := ctz_from 64 0 x.

(** [while (bits != 0) { bit = ctz(bits); bits &= bits - 1; f(bit); }] *)
Fixpoint bit_walk (fuel : nat) (bits : Z) : list Z :=
  match fuel with
  | O => []
  | S f => if bits =? 0 then [] else ctz bits :: bit_walk f (Z.land bits (bits - 1))
  end.
Definition bits_of (bits : Z) : list Z := bit_walk 64 bits.

Definition set_bit (w i : Z) : Z := Z.lor w (Z.shiftl 1 i).
Definition clear_bit (w i : Z) : Z := Z.land w (u64 (Z.lnot (Z.shiftl 1 i))).

Lemma testbit_one_shift i j : 0 <= i -> Z.testbit (Z.shiftl 1 i) j = (i =? j).
Proof.
  intros Hi. rewrite Z.shiftl_1_l. destruct (Z.eqb_spec i j) as [-> | Hne].
  - by apply Z.pow2_bits_true.
  - apply Z.pow2_bits_false. lia.
Qed.

Lemma set_bit_test w i j : 0 <= i -> Z.testbit (set_bit w i) j = Z.testbit w j || (i =? j).
Proof. intros Hi. unfold set_bit. by rewrite Z.lor_spec, testbit_one_shift. Qed.

Lemma clear_bit_test w i j : 0 <= i -> 0 <= j < 64 ->
  Z.testbit (clear_bit w i) j = Z.testbit w j && negb (i =? j).
Proof.
  intros Hi Hj. unfold clear_bit, u64. rewrite Z.land_spec, Z.mod_pow2_bits_low by lia.
  rewrite Z.lnot_spec by lia. by rewrite testbit_one_shift.
Qed.

Definition word (w : Z) : Prop := 0 <= w < 2 ^ 64.

Lemma word_high w i : word w -> 64 <= i -> Z.testbit w i = false.
Proof.
  intros Hw Hi. unfold word in Hw. destruct (Z.eq_dec w 0) as [-> |]; [apply Z.testbit_0_l|].
  apply Z.bits_above_log2; [lia|]. assert (Z.log2 w < 64); [|lia]. by apply Z.log2_lt_pow2; lia.
Qed.
Lemma word_bits w : 0 <= w -> (forall i, 64 <= i -> Z.testbit w i = false) -> word w.
Proof.
  intros Hw Hb. split; [done|]. destruct (Z.eq_dec w 0) as [-> |]; [done|].
  apply Z.log2_lt_pow2; [lia|]. destruct (Z.lt_ge_cases (Z.log2 w) 64) as [|Hge]; [done|].
  specialize (Hb _ Hge). by rewrite Z.bit_log2 in Hb by lia.
Qed.
Lemma word_zero w : word w -> (forall i, 0 <= i < 64 -> Z.testbit w i = false) -> w = 0.
Proof.
  intros Hw Hb. apply Z.bits_inj'. intros i Hi. rewrite Z.testbit_0_l.
  destruct (Z.lt_ge_cases i 64); [by apply Hb | by apply word_high].
Qed.

Lemma set_bit_word w i : word w -> 0 <= i < 64 -> word (set_bit w i).
Proof.
  intros Hw Hi. apply word_bits.
  - unfold set_bit. apply Z.lor_nonneg. split; [apply Hw|]. apply Z.shiftl_nonneg. lia.
  - intros j Hj. rewrite set_bit_test by lia. rewrite word_high by done. lia.
Qed.
Lemma land_word_l w x : word w -> word (Z.land w x).
Proof.
  intros Hw. apply word_bits; [apply Z.land_nonneg; left; apply Hw|].
  intros j Hj. by rewrite Z.land_spec, word_high.
Qed.
Lemma clear_bit_word w i : word w -> word (clear_bit w i).
Proof. apply land_word_l. Qed.

Lemma ctz_from_spec fuel i x : 0 <= i ->
  (exists j, i <= j < i + Z.of_nat fuel /\ Z.testbit x j = true) ->
  let k := ctz_from fuel i x in
  i <= k < i + Z.of_nat fuel /\ Z.testbit x k = true /\
  forall j, i <= j < k -> Z.testbit x j = false.
Proof.
  revert i. induction fuel as [|f IH]; intros i Hi [j [Hj Hb]]; [lia|]. cbn [ctz_from].
  destruct (Z.testbit x i) eqn:E; [repeat split; auto; lia|].
  assert (j <> i) by congruence.
  destruct (IH (i + 1) ltac:(lia)) as (H1 & H2 & H3); [exists j; split; [lia|done]|].
  cbn zeta. split; [lia|]. split; [done|]. intros j' Hj'.
  destruct (Z.eq_dec j' i) as [-> |]; [done|]. apply H3. lia.
Qed.

Lemma ctz_spec x : word x -> x <> 0 ->
  0 <= ctz x < 64 /\ Z.testbit x (ctz x) = true /\ forall j, 0 <= j < ctz x -> Z.testbit x j = false.
Proof.
  intros Hx Hne. unfold ctz. apply (ctz_from_spec 64 0 x); [lia|].
  exists (Z.log2 x). split; [|apply Z.bit_log2; unfold word in Hx; lia].
  split; [apply Z.log2_nonneg|]. apply Z.log2_lt_pow2; unfold word in Hx; lia.
Qed.

(** [x & (x - 1)] clears exactly the lowest set bit. *)
Lemma land_pred_test x k : 0 < x -> 0 <= k -> Z.testbit x k = true ->
  (forall j, 0 <= j < k -> Z.testbit x j = false) ->
  forall j, 0 <= j -> Z.testbit (Z.land x (x - 1)) j = Z.testbit x j && negb (k =? j).
Proof.
  intros Hx Hk Hbit Hlow j Hj. rewrite Z.land_spec.
  assert (Hdec : x = 2 ^ k * (2 * (x / 2 ^ (k + 1)) + 1)).
  { rewrite Z.pow_add_r, Z.pow_1_r, <- Z.div_div by lia.
    assert (Hm : x mod 2 ^ k = 0).
    { apply Z.bits_inj'. intros i Hi. rewrite Z.testbit_0_l.
      destruct (Z.lt_ge_cases i k); [rewrite Z.mod_pow2_bits_low by lia; by apply Hlow|].
      by rewrite Z.mod_pow2_bits_high by lia. }
    pose proof (Z.div_mod x (2 ^ k) ltac:(lia)).
    pose proof (Z.div_mod (x / 2 ^ k) 2 ltac:(lia)).
    pose proof (Z.testbit_spec' x k Hk) as Hone. rewrite Hbit in Hone. simpl Z.b2z in Hone. nia. }
  set (m := x / 2 ^ (k + 1)) in *. clearbody m.
  assert (Hpred : x - 1 = m * 2 ^ (k + 1) + (2 ^ k - 1)).
  { rewrite Z.pow_add_r, Z.pow_1_r by lia. nia. }
  assert (Hx' : x = m * 2 ^ (k + 1) + 2 ^ k).
  { rewrite Z.pow_add_r, Z.pow_1_r by lia. nia. }
  destruct (Z.lt_trichotomy j k) as [Hjk | [-> | Hjk]].
  - rewrite (Hlow j) by lia. done.
  - rewrite Z.eqb_refl, Hbit. simpl. rewrite Hpred.
    rewrite <- (Z.mod_pow2_bits_low _ (k + 1) k) by lia.
    rewrite Z.add_comm, Z_mod_plus_full, Z.mod_pow2_bits_low by lia.
    rewrite <- Z.ones_equiv || replace (2 ^ k - 1) with (Z.ones k) by (rewrite Z.ones_equiv; lia).
    apply Z.ones_spec_high. lia.
  - replace (k =? j) with false by lia. rewrite andb_true_r.
    assert (Hdiv : forall y, 0 <= y < 2 ^ (k + 1) ->
      Z.testbit (m * 2 ^ (k + 1) + y) j = Z.testbit m (j - (k + 1))).
    { intros y Hy. replace j with (j - (k + 1) + (k + 1)) at 1 by lia.
      rewrite <- Z.div_pow2_bits by lia. f_equal.
      rewrite Z.add_comm, Z.div_add by lia. rewrite Z.div_small by lia. lia. }
    assert (0 < 2 ^ k) by (apply Z.pow_pos_nonneg; lia).
    assert (2 ^ (k + 1) = 2 * 2 ^ k) by (rewrite Z.pow_add_r; lia).
    rewrite Hpred, Hx', !Hdiv by lia. by destruct (Z.testbit m _).
Qed.


(** The set bits below 64, ascending: what the walk visits. *)
Definition bits_spec (w : Z) : list Z := filter (fun i => Z.testbit w i = true) (seqZ 0 64).

Lemma filter_agree (P Q : Z -> Prop) `{!forall x, Decision (P x), !forall x, Decision (Q x)} (l : list Z) :
  (forall x, x ∈ l -> P x <-> Q x) -> filter P l = filter Q l.
Proof.
  intros Hl. induction l as [|x l IH]; [done|]. rewrite !filter_cons.
  rewrite IH by set_solver. specialize (Hl x ltac:(set_solver)).
  destruct (decide (P x)), (decide (Q x)); tauto || done.
Qed.

Lemma bits_spec_step w : word w -> w <> 0 ->
  bits_spec w = ctz w :: bits_spec (Z.land w (w - 1)).
Proof.
  intros Hw Hne. destruct (ctz_spec w Hw Hne) as (Hk & Hb & Hlow). set (k := ctz w) in *.
  pose proof (land_pred_test w k ltac:(unfold word in Hw; lia) ltac:(lia) Hb Hlow) as Ht.
  unfold bits_spec. replace (seqZ 0 64) with (seqZ 0 k ++ k :: seqZ (k + 1) (63 - k)).
  2: { replace 64 with (k + (1 + (63 - k))) by lia. rewrite seqZ_app by lia.
       f_equal. rewrite Z.add_0_l. rewrite (seqZ_cons k) by lia. f_equal. f_equal; lia. }
  rewrite !filter_app, !filter_cons. rewrite decide_True by done.
  rewrite decide_False by (rewrite Ht by lia; rewrite Z.eqb_refl, andb_false_r; done).
  do 2 rewrite (filter_none _ (seqZ 0 k))
    by (apply Forall_forall; intros x Hx; apply elem_of_seqZ in Hx; rewrite ?Ht, Hlow by lia; done).
  simpl. f_equal. apply filter_agree. intros x Hx. apply elem_of_seqZ in Hx.
  rewrite Ht by lia. replace (k =? x) with false by lia. by rewrite andb_true_r.
Qed.

Lemma bits_spec_zero : bits_spec 0 = [].
Proof. reflexivity. Qed.

Lemma bit_walk_spec fuel : forall w, word w -> (length (bits_spec w) <= fuel)%nat ->
  bit_walk fuel w = bits_spec w.
Proof.
  induction fuel as [|f IH]; intros w Hw Hf; cbn [bit_walk].
  - destruct (bits_spec w) eqn:E; [done|]. simpl in Hf. lia.
  - destruct (Z.eqb_spec w 0) as [-> | Hne]; [by rewrite bits_spec_zero|].
    rewrite bits_spec_step in * by done. f_equal. apply IH; [by apply land_word_l|].
    simpl in Hf. lia.
Qed.

Lemma bits_of_spec w : word w -> bits_of w = bits_spec w.
Proof.
  intros Hw. apply bit_walk_spec; [done|]. unfold bits_spec.
  etransitivity; [apply length_filter|]. by rewrite length_seqZ.
Qed.

Lemma elem_of_bits_of w i : word w -> i ∈ bits_of w <-> 0 <= i < 64 /\ Z.testbit w i = true.
Proof.
  intros Hw. rewrite bits_of_spec by done. unfold bits_spec.
  rewrite list_elem_of_filter, elem_of_seqZ. intuition lia.
Qed.

(** ** Walks of several words

    The visits go through the words in ascending order and list the bits of
    each: the slot numbers come out in ascending order. *)

Lemma seqZ_sorted a n : StronglySorted Z.lt (seqZ a n).
Proof.
  destruct (Z.le_gt_cases n 0) as [Hn|Hn]; [rewrite seqZ_nil by done; constructor|].
  revert a. pattern n. apply natlike_ind with (x := n); [| |lia].
  - intros a. rewrite seqZ_nil by lia. constructor.
  - intros k Hk IH a. rewrite seqZ_cons by lia. constructor.
    + by replace (Z.pred (Z.succ k)) with k by lia.
    + apply Forall_forall. intros x Hx. apply elem_of_seqZ in Hx. lia.
Qed.

Lemma sorted_shift a l : StronglySorted Z.lt l -> StronglySorted Z.lt ((fun k => a + k) <$> l).
Proof.
  induction 1 as [|x l Hl IH Hx]; [constructor|]. cbn. constructor; [done|]. apply Forall_fmap.
  eapply Forall_impl; [exact Hx|]. intros y Hy. cbn. lia.
Qed.

Lemma sorted_filter (P : Z -> Prop) `{!forall x, Decision (P x)} l :
  StronglySorted Z.lt l -> StronglySorted Z.lt (filter P l).
Proof.
  induction 1 as [|x l Hs IH Hf]; [constructor|]. rewrite filter_cons. case_decide; [|done].
  constructor; [done|]. apply Forall_forall. intros y [_ Hy]%list_elem_of_filter.
  by apply (proj1 (Forall_forall _ _) Hf).
Qed.

Lemma bits_of_sorted w : word w -> StronglySorted Z.lt (bits_of w).
Proof. intros Hw. rewrite bits_of_spec by done. apply sorted_filter, seqZ_sorted. Qed.

Lemma blocks_sorted (f : Z -> Z) ws : (forall w, word (f w)) -> StronglySorted Z.lt ws ->
  StronglySorted Z.lt (concat (map (fun w => map (fun bit => w * 64 + bit) (bits_of (f w))) ws)).
Proof.
  intros Hws. induction 1 as [|w l Hs IH Hf]; [constructor|]. simpl.
  assert (Hr : forall x, x ∈ bits_of (f w) -> 0 <= x < 64)
    by (intros x [? _]%elem_of_bits_of; [done | apply Hws]).
  pose proof (bits_of_sorted (f w) (Hws w)) as Hb.
  assert (Hrest : forall x, x ∈ concat (map (fun w => map (fun b => w * 64 + b)
    (bits_of (f w))) l) -> (w + 1) * 64 <= x).
  { intros x Hx. apply list_elem_of_In, in_concat in Hx as (m & Hm & Hx).
    apply in_map_iff in Hm as (w' & <- & Hw'). apply in_map_iff in Hx as (b & <- & Hb').
    apply list_elem_of_In, elem_of_bits_of in Hb' as [? _]; [|done].
    apply list_elem_of_In in Hw'. pose proof (proj1 (Forall_forall _ _) Hf w' Hw'). simpl in *. lia. }
  induction Hb as [|b bs Hbs IHb Hfb]; [exact IH|]. simpl. constructor.
  - apply IHb. intros x Hx. apply Hr. by right.
  - apply Forall_forall. intros x Hx. apply elem_of_app in Hx as [Hx|Hx].
    + apply list_elem_of_In, in_map_iff in Hx as (b' & <- & Hb').
      apply list_elem_of_In in Hb'. pose proof (proj1 (Forall_forall _ _) Hfb b' Hb'). simpl in *. lia.
    + apply Hrest in Hx. pose proof (Hr b (list_elem_of_here _ _)). lia.
Qed.
