(* ===== verification/Pool.v ===== *)
(** * Pool: the fixed-size object pool of [containers/pool.hpp]

    Slots are a union of an object and the next free index; freed slots form a
    linked list threaded through them and are handed out first, then the slots
    never used, in index order.  A bit per slot says which are live; the visit
    walks those words.  [pool_abs] is the finite map of the live objects, and
    the operations are shown to act on it. *)

From Stdlib Require Import Sorted.
From S2P Require Import Prelude Types Bits.

Module Pool.

Inductive Slot (T : Type) := Obj (x : T) | NextFree (n : Z).
Arguments Obj {T}.
Arguments NextFree {T}.

Record Pool (T : Type) := mkPool {
  slots_ : gmap Z (Slot T);
  live_ : gmap Z Z;
  free_head_ : Z;
  unused_ : Z;
  size_ : Z;
}.
Arguments mkPool {T}.
Arguments slots_ {T}.
Arguments live_ {T}.
Arguments free_head_ {T}.
Arguments unused_ {T}.
Arguments size_ {T}.

#[export] Instance eta_pool T : Eta (Pool T) := fun p =>
  mkPool (slots_ p) (live_ p) (free_head_ p) (unused_ p) (size_ p).

Section pool.
Context {T : Type} (N : Z).

Definition kWords : Z := (N + 63) / 64.

(** The word [w] of the liveness bitmap; all words start at zero. *)
Definition live_word (p : Pool T) (w : Z) : Z := default 0 (live_ p !! w).

Definition reset (p : Pool T) : Pool T := mkPool (slots_ p) ∅ kNullHandle 0 0.
Definition new_pool : Pool T := reset (mkPool ∅ ∅ kNullHandle 0 0).

Definition full (p : Pool T) : bool := size_ p =? N.

(** [warm_up]: writes [next_free] of every slot never used. *)
Definition warm_up (p : Pool T) : Pool T :=
  p <| slots_ := fold_left (fun s i => <[i := NextFree 0]> s) (seqZ (unused_ p) (N - unused_ p))
                   (slots_ p) |>.

(** [slots_[h].next_free]; the other cases are not read on a well-formed pool. *)
Definition next_free (p : Pool T) (h : Z) : Z :=
  match slots_ p !! h with Some (NextFree n) => n | _ => kNullHandle end.

Definition mark_live (p : Pool T) (h : Z) : Pool T :=
  p <| live_ := <[h / 64 := set_bit (live_word p (h / 64)) (h mod 64)]> (live_ p) |>
    <| size_ := size_ p + 1 |>.

(** [allocate()]: a null handle when exhausted. *)
Definition allocate (p : Pool T) : Z * Pool T :=
  let h := free_head_ p in
  if negb (h =? kNullHandle) then (h, mark_live (p <| free_head_ := next_free p h |>) h)
  else if unused_ p <? N then
    (unused_ p, mark_live (p <| unused_ := unused_ p + 1 |>) (unused_ p))
  else (kNullHandle, p).

Definition is_live (p : Pool T) (h : Z) : bool :=
  (h <? N) && negb (Z.land (Z.shiftr (live_word p (h / 64)) (h mod 64)) 1 =? 0).

Definition get (p : Pool T) (h : Z) : option T :=
  match slots_ p !! h with Some (Obj x) => Some x | _ => None end.
(** Assignment through the reference [get(h)] returns. *)
Definition set (p : Pool T) (h : Z) (x : T) : Pool T := p <| slots_ := <[h := Obj x]> (slots_ p) |>.

(** [allocate(init)] *)
Definition allocate_init (p : Pool T) (x : T) : Z * Pool T :=
  let '(h, p') := allocate p in
  if negb (h =? kNullHandle) then (h, set p' h x) else (h, p').

Definition free (p : Pool T) (h : Z) : Pool T :=
  mkPool (<[h := NextFree (free_head_ p)]> (slots_ p))
    (<[h / 64 := clear_bit (live_word p (h / 64)) (h mod 64)]> (live_ p))
    h (unused_ p) (size_ p - 1).

(** The handles [for_each] visits, in its order. *)
Definition handles (p : Pool T) : list Z :=
  concat (map (fun w => map (fun bit => w * 64 + bit) (bits_of (live_word p w)))
              (seqZ 0 kWords)).

(** ** Invariant *)

(** The free list starting at [h] is [fl]. *)
Fixpoint free_chain (s : gmap Z (Slot T)) (h : Z) (fl : list Z) : Prop :=
  match fl with
  | [] => h = kNullHandle
  | x :: fl' => h = x /\ exists n, s !! x = Some (NextFree n) /\ free_chain s n fl'
  end.

Record pool_wf (p : Pool T) (fl : list Z) : Prop := {
  wf_unused : 0 <= unused_ p <= N;
  wf_chain : free_chain (slots_ p) (free_head_ p) fl;
  wf_nodup : NoDup fl;
  wf_free : forall x, x ∈ fl -> 0 <= x < unused_ p;
  wf_words : forall w, word (live_word p w);
  wf_live : forall h, 0 <= h ->
    Z.testbit (live_word p (h / 64)) (h mod 64) = true <-> h < unused_ p /\ h ∉ fl;
  wf_size : size_ p = unused_ p - Z.of_nat (length fl);
}.

Hypothesis HN : 0 < N < kNullHandle.

Lemma is_live_test p h : is_live p h =
  (h <? N) && Z.testbit (live_word p (h / 64)) (h mod 64).
Proof.
  unfold is_live. f_equal. pose proof (Z.mod_pos_bound h 64 ltac:(lia)).
  rewrite <- (Z.add_0_l (h mod 64)), <- Z.shiftr_spec by lia. rewrite Z.add_0_l.
  rewrite (land_mask _ 1) by lia. rewrite Z.bit0_eqb. change (2 ^ 1) with 2.
  pose proof (Z.mod_pos_bound (Z.shiftr (live_word p (h / 64)) (h mod 64)) 2 ltac:(lia)). lia.
Qed.

Lemma wf_is_live p fl h : pool_wf p fl -> 0 <= h -> is_live p h = true <-> h < unused_ p /\ h ∉ fl.
Proof.
  intros Hwf Hh. rewrite is_live_test, andb_true_iff, (wf_live p fl Hwf) by done.
  pose proof (wf_unused p fl Hwf). intuition lia.
Qed.

Lemma wf_new : pool_wf new_pool [].
Proof.
  split; simpl; try done; try lia.
  - constructor.
  - set_solver.
  - intros h Hh. unfold live_word. simpl. rewrite lookup_empty. simpl. rewrite Z.testbit_0_l.
    split; [done|]. lia.
Qed.

(** Writing a slot that is not on the free list leaves the list alone. *)
Lemma free_chain_insert s h fl x v : x ∉ fl -> free_chain s h fl -> free_chain (<[x := v]> s) h fl.
Proof.
  revert h. induction fl as [|y fl IH]; intros h Hx; [done|]. intros [-> (n & Hn & Hc)].
  split; [done|]. exists n. rewrite lookup_insert_ne by set_solver. split; [done|].
  apply IH; [set_solver|done].
Qed.

Lemma word_index h k : 0 <= h -> 0 <= k -> (h / 64 = k / 64 /\ h mod 64 = k mod 64) <-> h = k.
Proof.
  intros Hh Hk. split; [|by intros ->]. intros [H1 H2].
  rewrite (Z.div_mod h 64), (Z.div_mod k 64) by lia. congruence.
Qed.

Lemma live_word_mark p h w : live_word (mark_live p h) w =
  if w =? h / 64 then set_bit (live_word p (h / 64)) (h mod 64) else live_word p w.
Proof.
  unfold live_word. simpl. destruct (Z.eqb_spec w (h / 64)) as [-> |].
  - by rewrite lookup_insert_eq.
  - by rewrite lookup_insert_ne by done.
Qed.

Lemma mark_live_test p h k : 0 <= h -> 0 <= k ->
  Z.testbit (live_word (mark_live p h) (k / 64)) (k mod 64) =
  Z.testbit (live_word p (k / 64)) (k mod 64) || (h =? k).
Proof.
  intros Hh Hk. rewrite live_word_mark. pose proof (Z.mod_pos_bound h 64 ltac:(lia)).
  pose proof (word_index h k Hh Hk) as Hi. destruct (Z.eqb_spec (k / 64) (h / 64)) as [E|E].
  - rewrite set_bit_test by lia. rewrite E. f_equal. lia.
  - replace (h =? k) with false by lia. by rewrite orb_false_r.
Qed.

Lemma mark_live_word p h w : (forall w, word (live_word p w)) -> word (live_word (mark_live p h) w).
Proof.
  intros Hw. rewrite live_word_mark. case_if; [|done]. apply set_bit_word; [done|].
  apply Z.mod_pos_bound. lia.
Qed.

Lemma free_test p h k : 0 <= h -> 0 <= k ->
  Z.testbit (live_word (free p h) (k / 64)) (k mod 64) =
  Z.testbit (live_word p (k / 64)) (k mod 64) && negb (h =? k).
Proof.
  intros Hh Hk. pose proof (Z.mod_pos_bound h 64 ltac:(lia)).
  pose proof (Z.mod_pos_bound k 64 ltac:(lia)). pose proof (word_index h k Hh Hk) as Hi.
  unfold live_word at 1. simpl. destruct (Z.eqb_spec (k / 64) (h / 64)) as [E|E].
  - rewrite E, lookup_insert_eq. simpl. rewrite clear_bit_test by lia. f_equal. f_equal. lia.
  - rewrite lookup_insert_ne by done. replace (h =? k) with false by lia. by rewrite andb_true_r.
Qed.

(** Every outcome of [allocate] on a well-formed pool. *)
Lemma allocate_wf p fl : pool_wf p fl ->
  let '(h, p') := allocate p in
  if h =? kNullHandle then p' = p /\ size_ p = N
  else 0 <= h < N /\ is_live p h = false /\ size_ p < N /\
    (exists fl', pool_wf p' fl' /\ h ∉ fl') /\ slots_ p' = slots_ p /\
    forall k, 0 <= k -> is_live p' k = is_live p k || (h =? k).
Proof.
  intros Hwf. pose proof Hwf as [Hu Hch Hnd Hfr Hws Hlv Hsz]. unfold allocate.
  destruct fl as [|x fl]; cbn [free_chain] in Hch.
  - rewrite Hch. rewrite Z.eqb_refl. simpl. destruct (Z.ltb_spec (unused_ p) N) as [Hlt|Hge].
    + replace (unused_ p =? kNullHandle) with false by lia.
      set (p1 := p <| unused_ := unused_ p + 1 |>).
      assert (Htest : forall k, 0 <= k -> Z.testbit (live_word (mark_live p1 (unused_ p)) (k / 64))
        (k mod 64) = Z.testbit (live_word p (k / 64)) (k mod 64) || (unused_ p =? k)).
      { intros k Hk. by rewrite mark_live_test by lia. }
      split; [lia|]. split.
      { destruct (is_live p (unused_ p)) eqn:E; [|done].
        apply (wf_is_live p [] _ Hwf) in E; [|lia]. lia. }
      split; [simpl in Hsz; lia|]. split; [|split; [done|]].
      * exists []. split; [|set_solver]. split; simpl; try done; try lia.
        -- set_solver.
        -- intros w. by apply mark_live_word.
        -- intros k Hk. rewrite Htest by done. specialize (Hlv k Hk).
           rewrite orb_true_iff, Hlv, Z.eqb_eq. split; [|intros [? _]; destruct (Z.eq_dec (unused_ p) k)].
           ++ intros [[? ?] | ->]; split; (lia || set_solver).
           ++ by right.
           ++ left. split; [lia | set_solver].
        -- simpl in Hsz. lia.
      * intros k Hk. rewrite !is_live_test, Htest by done.
        destruct (Z.ltb_spec k N); simpl; [done|]. symmetry. lia.
    + rewrite Z.eqb_refl. split; [done|]. simpl in Hsz. lia.
  - destruct Hch as [Hh (n & Hn & Hch)]. pose proof (Hfr x ltac:(set_solver)) as Hx.
    rewrite Hh. replace (x =? kNullHandle) with false by lia. simpl.
    apply NoDup_cons in Hnd as [Hnx Hnd].
    assert (Hnf : next_free p x = n) by (unfold next_free; by rewrite Hn). rewrite Hnf.
    replace (x =? kNullHandle) with false by lia.
    set (p1 := p <| free_head_ := n |>).
    assert (Htest : forall k, 0 <= k -> Z.testbit (live_word (mark_live p1 x) (k / 64))
      (k mod 64) = Z.testbit (live_word p (k / 64)) (k mod 64) || (x =? k)).
    { intros k Hk. by rewrite mark_live_test by lia. }
    split; [lia|]. split.
    { destruct (is_live p x) eqn:E; [|done].
      apply (wf_is_live p (x :: fl) _ Hwf) in E; [|lia]. set_solver. }
    split; [simpl in Hsz; lia|]. split; [|split; [done|]].
    + exists fl. split; [|done]. split; simpl; try done; try lia.
      * intros y Hy. apply Hfr. set_solver.
      * intros w. by apply mark_live_word.
      * intros k Hk. rewrite Htest by done. specialize (Hlv k Hk).
        rewrite orb_true_iff, Hlv, Z.eqb_eq. split; [|intros [? ?]; destruct (Z.eq_dec x k)].
        -- intros [[? ?] | <-]; split; (lia || set_solver).
        -- by right.
        -- left. split; [lia|]. set_solver.
      * simpl in Hsz. lia.
    + intros k Hk. rewrite !is_live_test, Htest by done.
      destruct (Z.ltb_spec k N); simpl; [done|]. symmetry. lia.
Qed.

Lemma set_wf p fl h x : pool_wf p fl -> h ∉ fl -> pool_wf (set p h x) fl.
Proof.
  intros [Hu Hch Hnd Hfr Hws Hlv Hsz] Hh. split; simpl; try done.
  by apply free_chain_insert.
Qed.

Lemma free_wf p fl h : pool_wf p fl -> 0 <= h -> is_live p h = true -> pool_wf (free p h) (h :: fl).
Proof.
  intros Hwf Hh Hl. apply (wf_is_live p fl h Hwf Hh) in Hl as [Hlt Hni].
  pose proof Hwf as [Hu Hch Hnd Hfr Hws Hlv Hsz]. split; simpl; try done.
  - split; [done|]. exists (free_head_ p). rewrite lookup_insert_eq. split; [done|].
    by apply free_chain_insert.
  - by constructor.
  - intros y [-> | Hy]%elem_of_cons; [lia|]. by apply Hfr.
  - intros w. unfold live_word. simpl. destruct (Z.eq_dec w (h / 64)) as [-> | Hne].
    + rewrite lookup_insert_eq. simpl. apply clear_bit_word, Hws.
    + rewrite lookup_insert_ne by done. apply Hws.
  - intros k Hk. rewrite free_test by done. rewrite andb_true_iff, (Hlv k Hk). set_solver by lia.
  - simpl length. lia.
Qed.

(** ** The live objects *)

Definition pool_abs (p : Pool T) : gmap Z T :=
  map_imap (fun h s => if is_live p h then match s with Obj x => Some x | _ => None end else None)
    (slots_ p).

Lemma abs_lookup p h : pool_abs p !! h = if is_live p h then get p h else None.
Proof.
  unfold pool_abs, get. rewrite map_lookup_imap. destruct (slots_ p !! h) as [[]|]; simpl;
    by destruct (is_live p h).
Qed.

Lemma abs_set p h x : is_live p h = true -> pool_abs (set p h x) = <[h := x]> (pool_abs p).
Proof.
  intros Hl. apply map_eq. intros k. rewrite abs_lookup.
  change (is_live (set p h x) k) with (is_live p k). unfold get. simpl.
  destruct (Z.eq_dec h k) as [<- | Hne].
  - rewrite Hl, !lookup_insert_eq. done.
  - rewrite !lookup_insert_ne by done. by rewrite abs_lookup.
Qed.

Lemma abs_free p h : 0 <= h -> (forall k, is_Some (slots_ p !! k) -> 0 <= k) ->
  pool_abs (free p h) = delete h (pool_abs p).
Proof.
  intros Hh Hpos. apply map_eq. intros k. rewrite abs_lookup. unfold get. simpl.
  destruct (Z.eq_dec h k) as [<- | Hne].
  - rewrite lookup_delete_eq, lookup_insert_eq. zcase; done.
  - rewrite lookup_delete_ne, lookup_insert_ne by done. rewrite abs_lookup. unfold get.
    destruct (slots_ p !! k) as [s|] eqn:Es; [|zcase; done].
    assert (0 <= k) by (apply Hpos; by eexists).
    rewrite !is_live_test, free_test by done.
    replace (h =? k) with false by lia. by rewrite andb_true_r.
Qed.

(** ** The visit *)

Lemma elem_of_handles p fl h : pool_wf p fl -> h ∈ handles p <-> 0 <= h /\ is_live p h = true.
Proof.
  intros Hwf. unfold handles. rewrite list_elem_of_In, in_concat.
  setoid_rewrite in_map_iff. split.
  - intros (l & (w & <- & Hw) & Hh). apply in_map_iff in Hh as (b & <- & Hb).
    apply list_elem_of_In, elem_of_seqZ in Hw. apply list_elem_of_In in Hb.
    apply elem_of_bits_of in Hb as [Hb Ht]; [|apply (wf_words p fl Hwf)].
    split; [lia|]. rewrite is_live_test.
    assert (E1 : (w * 64 + b) / 64 = w) by (rewrite Z.div_add_l, Z.div_small by lia; lia).
    assert (E2 : (w * 64 + b) mod 64 = b) by (rewrite Z.add_comm, Z_mod_plus_full; apply Z.mod_small; lia).
    rewrite andb_true_iff. split; [|by rewrite E1, E2].
    pose proof (wf_live p fl Hwf (w * 64 + b) ltac:(lia)) as Hl. rewrite E1, E2, Ht in Hl.
    pose proof (wf_unused p fl Hwf). destruct Hl as [Hl _]. specialize (Hl eq_refl). lia.
  - intros [Hh Hl]. rewrite is_live_test, andb_true_iff in Hl. destruct Hl as [HhN Ht].
    pose proof (Z.mod_pos_bound h 64 ltac:(lia)). pose proof (Z.div_mod h 64 ltac:(lia)).
    eexists. split; [exists (h / 64); split; [reflexivity|]|].
    + apply list_elem_of_In, elem_of_seqZ. unfold kWords.
      split; [apply Z.div_pos; lia|]. rewrite Z.add_0_l.
      apply Z.div_lt_upper_bound; [lia|]. pose proof (Z.div_mod (N + 63) 64 ltac:(lia)).
      pose proof (Z.mod_pos_bound (N + 63) 64 ltac:(lia)). lia.
    + apply in_map_iff. exists (h mod 64). split; [lia|].
      apply list_elem_of_In, elem_of_bits_of; [apply (wf_words p fl Hwf)|]. split; [lia|done].
Qed.

Lemma handles_sorted p : (forall w, word (live_word p w)) -> StronglySorted Z.lt (handles p).
Proof. intros Hws. by apply blocks_sorted, seqZ_sorted. Qed.

(** ** The invariant a client relies on *)

(** Some free list accounts for the slots, and every live slot holds an object. *)
Record pool_ok (p : Pool T) : Prop := {
  ok_wf : exists fl, pool_wf p fl;
  ok_keys : forall h, is_Some (slots_ p !! h) -> 0 <= h;
  ok_objs : forall h, 0 <= h -> is_live p h = true -> is_Some (get p h);
}.

Lemma ok_new : pool_ok new_pool.
Proof.
  split; [exists []; apply wf_new | |].
  - intros h [x Hx]. simpl in Hx. by rewrite lookup_empty in Hx.
  - intros h Hh Hl. apply (wf_is_live _ _ h wf_new Hh) in Hl as [Hl _]. simpl in Hl. lia.
Qed.

Lemma ok_abs_key p h : pool_ok p -> is_Some (pool_abs p !! h) -> 0 <= h.
Proof.
  intros Hok [x Hx]. apply (ok_keys p Hok). rewrite abs_lookup in Hx.
  destruct (is_live p h); [|done]. unfold get in Hx. destruct (slots_ p !! h) eqn:E; [by eexists|done].
Qed.

Lemma ok_live_abs p h : pool_ok p -> 0 <= h -> is_live p h = true <-> is_Some (pool_abs p !! h).
Proof.
  intros Hok Hh. rewrite abs_lookup. split.
  - intros Hl. rewrite Hl. by apply (ok_objs p Hok).
  - destruct (is_live p h); [done|]. by intros [? ?].
Qed.

Lemma ok_set p h x : pool_ok p -> 0 <= h -> is_live p h = true -> pool_ok (set p h x).
Proof.
  intros [[fl Hwf] Hk Ho] Hh Hl. split.
  - exists fl. apply set_wf; [done|]. by apply (wf_is_live p fl h Hwf) in Hl as [_ ?].
  - intros k [y Hy]. simpl in Hy. destruct (Z.eq_dec h k) as [<- |]; [done|].
    rewrite lookup_insert_ne in Hy by done. apply Hk. by eexists.
  - intros k Hk0 Hlk. unfold get. simpl. destruct (Z.eq_dec h k) as [<- |].
    + rewrite lookup_insert_eq. by eexists.
    + rewrite lookup_insert_ne by done. by apply Ho.
Qed.

Lemma ok_free p h : pool_ok p -> 0 <= h -> is_live p h = true -> pool_ok (free p h).
Proof.
  intros [[fl Hwf] Hk Ho] Hh Hl. split.
  - exists (h :: fl). by apply free_wf.
  - intros k [y Hy]. simpl in Hy. destruct (Z.eq_dec h k) as [<- |]; [done|].
    rewrite lookup_insert_ne in Hy by done. apply Hk. by eexists.
  - intros k Hk0 Hlk. rewrite is_live_test, free_test in Hlk by done.
    destruct (Z.eqb_spec h k); [subst; rewrite andb_false_r in Hlk; lia|].
    rewrite andb_true_r, <- is_live_test in Hlk. unfold get. simpl.
    rewrite lookup_insert_ne by done. by apply Ho.
Qed.

(** What [allocate] gives a caller that then initialises the slot, or frees it again. *)
Lemma ok_allocate p h p' : pool_ok p -> allocate p = (h, p') -> h <> kNullHandle ->
  0 <= h < N /\ pool_abs p !! h = None /\
  (forall x, pool_ok (set p' h x) /\ pool_abs (set p' h x) = <[h := x]> (pool_abs p)) /\
  pool_ok (free p' h) /\ pool_abs (free p' h) = pool_abs p.
Proof.
  intros Hok Ha Hne. pose proof Hok as [[fl Hwf] Hk Ho].
  pose proof (allocate_wf p fl Hwf) as H. rewrite Ha in H.
  replace (h =? kNullHandle) with false in H by lia.
  destruct H as (Hh & Hl & _ & (fl' & Hwf' & Hni) & Hs & Hlive).
  assert (Hlh : is_live p' h = true) by (rewrite Hlive by lia; lia).
  assert (Hother : forall k, h <> k -> 0 <= k -> is_live p' k = is_live p k).
  { intros k Hkh Hk0. rewrite Hlive by done. replace (h =? k) with false by lia. by rewrite orb_false_r. }
  assert (Hok' : forall x, pool_ok (set p' h x)).
  { intros x. split; [exists fl'; by apply set_wf| |].
    - intros k [y Hy]. simpl in Hy. rewrite Hs in Hy. destruct (Z.eq_dec h k) as [<- |]; [lia|].
      rewrite lookup_insert_ne in Hy by done. apply Hk. by eexists.
    - intros k Hk0 Hlk. unfold get. simpl. rewrite Hs. destruct (Z.eq_dec h k) as [<- |].
      + rewrite lookup_insert_eq. by eexists.
      + rewrite lookup_insert_ne by done. apply Ho; [done|]. by rewrite <- Hother. }
  split; [done|]. split; [by rewrite abs_lookup, Hl|]. split; [|split].
  - intros x. split; [apply Hok'|]. apply map_eq. intros k. rewrite abs_lookup.
    change (is_live (set p' h x) k) with (is_live p' k). unfold get. simpl. rewrite Hs.
    destruct (Z.eq_dec h k) as [<- | Hkh].
    + by rewrite Hlh, !lookup_insert_eq.
    + rewrite !lookup_insert_ne, abs_lookup by done. unfold get.
      destruct (Z.lt_ge_cases k 0) as [Hk0|Hk0]; [|by rewrite Hother by done].
      destruct (slots_ p !! k) eqn:E; [|zcase; done].
      assert (0 <= k) by (apply Hk; by eexists). lia.
  - split; [exists (h :: fl'); by apply free_wf; [|lia|]| |].
    + intros k [y Hy]. simpl in Hy. rewrite Hs in Hy. destruct (Z.eq_dec h k) as [<- |]; [lia|].
      rewrite lookup_insert_ne in Hy by done. apply Hk. by eexists.
    + intros k Hk0 Hlk. rewrite is_live_test, free_test in Hlk by lia.
      destruct (Z.eqb_spec h k); [subst; rewrite andb_false_r in Hlk; lia|].
      rewrite andb_true_r, <- is_live_test, Hother in Hlk by done. unfold get. simpl.
      rewrite Hs, lookup_insert_ne by done. by apply Ho.
  - apply map_eq. intros k. rewrite !abs_lookup. unfold get. simpl. rewrite Hs.
    destruct (Z.eq_dec h k) as [<- | Hkh].
    + rewrite lookup_insert_eq, Hl. zcase; done.
    + rewrite lookup_insert_ne by done.
      destruct (Z.lt_ge_cases k 0) as [Hk0|Hk0].
      * destruct (slots_ p !! k) eqn:E; [|zcase; done].
        assert (0 <= k) by (apply Hk; by eexists). lia.
      * rewrite !is_live_test, free_test by lia. replace (h =? k) with false by lia.
        rewrite andb_true_r, <- !is_live_test, Hother by done. done.
Qed.

Lemma free_chain_agree s s' h fl : (forall x, x ∈ fl -> s !! x = s' !! x) ->
  free_chain s h fl -> free_chain s' h fl.
Proof.
  revert h. induction fl as [|y fl IH]; intros h Hag; [done|]. intros [-> (n & Hn & Hc)].
  split; [done|]. exists n. rewrite <- Hag by set_solver. split; [done|].
  apply IH; [|done]. intros x Hx. apply Hag. by right.
Qed.

(** The slots the loop of [warm_up] writes. *)
Lemma warm_lookup n a (s : gmap Z (Slot T)) k :
  fold_left (fun s i => <[i := NextFree 0]> s) (seqZ a n) s !! k =
  if (a <=? k) && (k <? a + n) then Some (NextFree 0) else s !! k.
Proof.
  destruct (Z.le_gt_cases n 0) as [Hn|Hn].
  { rewrite seqZ_nil by done. simpl. zcase; done. }
  revert a s. pattern n. apply natlike_ind with (x := n); [| |lia].
  - intros a s. rewrite seqZ_nil by lia. simpl. zcase; done.
  - intros m Hm IH a s. rewrite seqZ_cons by lia. cbn [fold_left].
    replace (Z.pred (Z.succ m)) with m by lia. rewrite IH.
    destruct (Z.eq_dec a k) as [<- | Hne].
    + rewrite lookup_insert_eq. zcase; done.
    + rewrite lookup_insert_ne by done. zcase; done.
Qed.

Lemma ok_warm_up p : pool_ok p -> pool_ok (warm_up p) /\ pool_abs (warm_up p) = pool_abs p.
Proof.
  intros [[fl Hwf] Hk Ho].
  pose proof (wf_unused p fl Hwf) as Hu.
  assert (Hin : forall k, k < unused_ p -> slots_ (warm_up p) !! k = slots_ p !! k).
  { intros k Hkk. unfold warm_up. simpl. rewrite warm_lookup. zcase. done. }
  assert (Hlv : forall k, 0 <= k -> is_live p k = true -> k < unused_ p).
  { intros k Hk0 Hl. by apply (wf_is_live p fl k Hwf Hk0) in Hl as [? _]. }
  split.
  - split.
    + exists fl. destruct Hwf as [? Hch Hnd Hfr ? ? ?]. split; try done.
      apply (free_chain_agree (slots_ p)); [|done]. intros x Hx. symmetry. apply Hin.
      pose proof (Hfr x Hx). lia.
    + intros k [y Hy]. destruct (Z.lt_ge_cases k (unused_ p)); [|lia].
      rewrite Hin in Hy by done. apply Hk. by eexists.
    + intros k Hk0 Hl. change (is_live p k = true) in Hl. unfold get. rewrite Hin by auto.
      by apply Ho.
  - apply map_eq. intros k. rewrite !abs_lookup. change (is_live (warm_up p) k) with (is_live p k).
    destruct (is_live p k) eqn:El; [|done]. destruct (Z.lt_ge_cases k (unused_ p)) as [?|Hge].
    + unfold get. by rewrite Hin.
    + exfalso. specialize (Hlv k ltac:(lia) El). lia.
Qed.

Lemma ok_size p : pool_ok p -> size_ p = Z.of_nat (base.size (pool_abs p)).
Proof.
  intros Hok. pose proof Hok as [[fl Hwf] Hk Ho].
  assert (Hdom : dom (pool_abs p) =@{gset Z} list_to_set (seqZ 0 (unused_ p)) ∖ list_to_set fl).
  { apply set_eq. intros h. rewrite elem_of_dom, elem_of_difference, !elem_of_list_to_set, elem_of_seqZ.
    destruct (Z.lt_ge_cases h 0) as [Hh|Hh].
    - split; [intros Hs; apply (ok_abs_key p h Hok) in Hs; lia | lia].
    - rewrite <- ok_live_abs by done. rewrite (wf_is_live p fl) by done. intuition lia. }
  pose proof (wf_unused p fl Hwf). rewrite <- size_dom, Hdom, (wf_size p fl Hwf), size_difference.
  - rewrite !size_list_to_set; [rewrite length_seqZ|apply (wf_nodup p fl Hwf)|apply NoDup_seqZ].
    assert (length fl <= Z.to_nat (unused_ p))%nat; [|lia].
    rewrite <- (length_seqZ 0 (unused_ p)). apply submseteq_length, NoDup_submseteq.
    + apply (wf_nodup p fl Hwf).
    + intros x Hx. apply elem_of_seqZ. pose proof (wf_free p fl Hwf x Hx). lia.
  - intros x. rewrite !elem_of_list_to_set, elem_of_seqZ. intros Hx.
    pose proof (wf_free p fl Hwf x Hx). lia.
Qed.

Lemma ok_exhausted p p' : pool_ok p -> allocate p = (kNullHandle, p') ->
  p' = p /\ Z.of_nat (base.size (pool_abs p)) = N.
Proof.
  intros Hok Ha. pose proof Hok as [[fl Hwf] _ _]. pose proof (allocate_wf p fl Hwf) as H.
  rewrite Ha, Z.eqb_refl in H. by rewrite <- ok_size.
Qed.

(** ** The contract *)

(** The pools a client reaches: it initialises what it allocates and frees live handles. *)
Inductive reach : Pool T -> Prop :=
| reach_new : reach new_pool
| reach_reset p : reach p -> reach (reset p)
| reach_warm p : reach p -> reach (warm_up p)
| reach_alloc p x : reach p -> reach (snd (allocate_init p x))
| reach_set p h x : reach p -> 0 <= h -> is_live p h = true -> reach (set p h x)
| reach_free p h : reach p -> 0 <= h -> is_live p h = true -> reach (free p h).

Lemma ok_reset p : pool_ok p -> pool_ok (reset p).
Proof.
  intros [[fl Hwf] Hk Ho]. assert (Hwf' : pool_wf (reset p) []).
  { split; simpl; try done; try lia; [constructor | set_solver |].
    intros h Hh. unfold live_word. simpl. rewrite lookup_empty. simpl. rewrite Z.testbit_0_l.
    split; [done|]. lia. }
  split; [by exists [] | done |].
  intros h Hh Hl. apply (wf_is_live _ _ h Hwf' Hh) in Hl as [Hl _]. simpl in Hl. lia.
Qed.

Lemma ok_allocate_init p x : pool_ok p -> pool_ok (snd (allocate_init p x)).
Proof.
  intros Hok. unfold allocate_init. destruct (allocate p) as [h p'] eqn:Ha.
  destruct (Z.eqb_spec h kNullHandle) as [-> | Hne]; simpl.
  - by apply (ok_exhausted p p' Hok) in Ha as [-> _].
  - by apply (ok_allocate p h p' Hok Ha Hne).
Qed.

Lemma reach_ok p : reach p -> pool_ok p.
Proof.
  induction 1; [apply ok_new | by apply ok_reset | by apply ok_warm_up | by apply ok_allocate_init
  | by apply ok_set | by apply ok_free].
Qed.

(** [Pool] hands out each slot to one owner at a time: in any reachable pool,
    [allocate(init)] fails exactly when all [N] slots are live, and otherwise returns an
    in-range handle that was not live, adds that object and leaves every other live object
    as it was. *)
Theorem pool_allocate_fresh p x : reach p ->
  let '(h, p') := allocate_init p x in
  if h =? kNullHandle then p' = p /\ Z.of_nat (base.size (pool_abs p)) = N
  else 0 <= h < N /\ pool_abs p !! h = None /\ pool_abs p' = <[h := x]> (pool_abs p).
Proof.
  intros Hok%reach_ok. unfold allocate_init. destruct (allocate p) as [h p'] eqn:Ha.
  destruct (Z.eqb_spec h kNullHandle) as [-> | Hne]; simpl.
  - by apply (ok_exhausted p p' Hok).
  - replace (h =? kNullHandle) with false by lia.
    destruct (ok_allocate p h p' Hok Ha Hne) as (? & ? & Hset & _). repeat split; try done; try lia.
    apply Hset.
Qed.

(** [Pool::for_each] visits every live object once, in ascending handle order, and nothing
    else: the handles are strictly increasing and are the keys of the live objects. *)
Theorem pool_for_each_order p : reach p ->
  StronglySorted Z.lt (handles p) /\ list_to_set (handles p) =@{gset Z} dom (pool_abs p).
Proof.
  intros Hok%reach_ok. pose proof Hok as [[fl Hwf] _ _]. split.
  - apply handles_sorted, (wf_words p fl Hwf).
  - apply set_eq. intros h. rewrite elem_of_list_to_set, elem_of_dom, (elem_of_handles p fl) by done.
    split; [intros [? ?]; by apply ok_live_abs|]. intros Hs. pose proof (ok_abs_key p h Hok Hs).
    split; [done|]. by apply ok_live_abs.
Qed.
End pool.

Definition demo3 : Pool Z := snd (allocate_init 3 (snd (allocate_init 3 (new_pool) 10)) 20).
Definition demo : Pool Z := free demo3 0.

Lemma demo_reach : reach 3 demo.
Proof.
  apply reach_free; [|done|reflexivity]. apply reach_alloc, reach_alloc, reach_new.
Qed.

(** The slot freed last is handed out first. *)
Lemma pool_allocate_fresh_witness :
  fst (allocate_init 3 demo 30) = 0 /\ pool_abs 3 demo !! 0 = None /\
  pool_abs 3 (snd (allocate_init 3 demo 30)) = <[0 := 30]> (pool_abs 3 demo).
Proof. split; [reflexivity|]. apply (pool_allocate_fresh 3 ltac:(done) demo 30 demo_reach). Defined.

Lemma pool_for_each_order_witness :
  handles 3 demo3 = [0; 1] /\ list_to_set (handles 3 demo3) =@{gset Z} dom (pool_abs 3 demo3).
Proof.
  split; [reflexivity|]. apply (pool_for_each_order 3 ltac:(done) demo3).
  apply reach_alloc, reach_alloc, reach_new.
Defined.
End Pool.
