(* ===== verification/BucketBits.v ===== *)
(** * BucketBits: slots grouped by bucket ([containers/bucket_bits.hpp])

    A bit per (bucket, slot) and a summary bit per non-empty 64-slot word.  The
    visit reads only the words the summary names; the invariant [bb_ok] is that
    it names exactly the non-empty ones, so the visit lists a bucket's slots in
    ascending order and misses none. *)

From Stdlib Require Import Sorted.
From S2P Require Import Prelude Types Bits.

Module Buckets.

Record BucketBits := mkBB {
  bits_ : gmap Z Z;
  words_ : gmap Z Z;
}.

Section buckets.
Context (N B : Z).

Definition kWords : Z := (N + 63) / 64.

Definition bb_empty : BucketBits := mkBB ∅ ∅.

(** Both arrays are zero-initialised. *)
Definition bits_at (bb : BucketBits) (i : Z) : Z := default 0 (bits_ bb !! i).
Definition words_at (bb : BucketBits) (b : Z) : Z := default 0 (words_ bb !! b).

Definition bucket (key : Z) : Z := Z.land key (B - 1).

Definition set (bb : BucketBits) (b slot : Z) : BucketBits :=
  let i := b * kWords + slot / 64 in
  mkBB (<[i := set_bit (bits_at bb i) (slot mod 64)]> (bits_ bb))
       (<[b := set_bit (words_at bb b) (slot / 64)]> (words_ bb)).

Definition clear (bb : BucketBits) (b slot : Z) : BucketBits :=
  let i := b * kWords + slot / 64 in
  let w := clear_bit (bits_at bb i) (slot mod 64) in
  mkBB (<[i := w]> (bits_ bb))
       (if w =? 0 then <[b := clear_bit (words_at bb b) (slot / 64)]> (words_ bb) else words_ bb).

(** The slots [for_each(b, f)] passes to [f], in its order. *)
Definition slots (bb : BucketBits) (b : Z) : list Z :=
  concat (map (fun w => map (fun bit => w * 64 + bit) (bits_of (bits_at bb (b * kWords + w))))
              (bits_of (words_at bb b))).

(** ** Invariant *)

Definition mem (bb : BucketBits) (b slot : Z) : bool :=
  Z.testbit (bits_at bb (b * kWords + slot / 64)) (slot mod 64).

Record bb_ok (bb : BucketBits) : Prop := {
  ok_bits : forall i, word (bits_at bb i);
  ok_words : forall b, word (words_at bb b);
  ok_summary : forall b w, 0 <= b -> 0 <= w < kWords ->
    Z.testbit (words_at bb b) w = negb (bits_at bb (b * kWords + w) =? 0);
  ok_range : forall b w, 0 <= b -> Z.testbit (words_at bb b) w = true -> w < kWords;
}.

Hypothesis HN : 0 < N.
Hypothesis Hwords : kWords <= 64.

Lemma kWords_pos : 0 < kWords.
Proof. unfold kWords. apply Z.div_str_pos. lia. Qed.

Lemma slot_word s : 0 <= s < N -> 0 <= s / 64 < kWords.
Proof.
  intros Hs. unfold kWords. split; [apply Z.div_pos; lia|].
  apply Z.div_lt_upper_bound; [lia|]. pose proof (Z.div_mod (N + 63) 64 ltac:(lia)).
  pose proof (Z.mod_pos_bound (N + 63) 64 ltac:(lia)). lia.
Qed.

Lemma row_index b b' w w' : 0 <= b -> 0 <= b' -> 0 <= w < kWords -> 0 <= w' < kWords ->
  b * kWords + w = b' * kWords + w' -> b = b' /\ w = w'.
Proof.
  intros Hb Hb' Hw Hw' E. assert (b = b'); [|nia].
  destruct (Z.lt_total b b') as [? | [? | ?]]; [nia | done | nia].
Qed.

Lemma ok_empty : bb_ok bb_empty.
Proof.
  split; intros; unfold bits_at, words_at in *; simpl in *; rewrite ?lookup_empty in *; simpl in *;
    try done; by rewrite Z.testbit_0_l in *.
Qed.

Lemma bits_at_set bb b s i : bits_at (set bb b s) i =
  if i =? b * kWords + s / 64 then set_bit (bits_at bb i) (s mod 64) else bits_at bb i.
Proof.
  unfold bits_at, set. simpl. destruct (Z.eqb_spec i (b * kWords + s / 64)) as [-> |].
  - by rewrite lookup_insert_eq.
  - by rewrite lookup_insert_ne.
Qed.
Lemma words_at_set bb b s c : words_at (set bb b s) c =
  if c =? b then set_bit (words_at bb c) (s / 64) else words_at bb c.
Proof.
  unfold words_at, set. simpl. destruct (Z.eqb_spec c b) as [-> |].
  - by rewrite lookup_insert_eq.
  - by rewrite lookup_insert_ne.
Qed.
Lemma bits_at_clear bb b s i : bits_at (clear bb b s) i =
  if i =? b * kWords + s / 64 then clear_bit (bits_at bb i) (s mod 64) else bits_at bb i.
Proof.
  unfold bits_at, clear. simpl. destruct (Z.eqb_spec i (b * kWords + s / 64)) as [-> |].
  - by rewrite lookup_insert_eq.
  - by rewrite lookup_insert_ne.
Qed.
Lemma words_at_clear bb b s c : words_at (clear bb b s) c =
  if (c =? b) && (clear_bit (bits_at bb (b * kWords + s / 64)) (s mod 64) =? 0)
  then clear_bit (words_at bb c) (s / 64) else words_at bb c.
Proof.
  unfold words_at, clear. simpl. destruct (Z.eqb_spec c b) as [-> | Hne]; simpl.
  - case_if; [by rewrite lookup_insert_eq | done].
  - case_if; [by rewrite lookup_insert_ne | done].
Qed.

Lemma set_bit_nonzero w i : 0 <= i -> set_bit w i <> 0.
Proof.
  intros Hi E. assert (Z.testbit (set_bit w i) i = true) as H by (rewrite set_bit_test by done; lia).
  rewrite E, Z.testbit_0_l in H. done.
Qed.

Lemma ok_set_bit bb b s : bb_ok bb -> 0 <= b -> 0 <= s < N -> bb_ok (set bb b s).
Proof.
  intros [Hb Hw Hs Hr] Hb0 Hs0. pose proof (slot_word s Hs0) as Hsw.
  pose proof (Z.mod_pos_bound s 64 ltac:(lia)). split.
  - intros i. rewrite bits_at_set. case_if; [apply set_bit_word; [done|lia]|done].
  - intros c. rewrite words_at_set. case_if; [apply set_bit_word; [done|lia]|done].
  - intros c w Hc Hw0. rewrite words_at_set, bits_at_set.
    destruct (Z.eqb_spec c b) as [-> | Hne].
    + rewrite set_bit_test by lia. destruct (Z.eqb_spec (s / 64) w) as [<- | Hn].
      * rewrite Z.eqb_refl. pose proof (set_bit_nonzero (bits_at bb (b * kWords + s / 64)) (s mod 64) ltac:(lia)).
        lia.
      * destruct (Z.eqb_spec (b * kWords + w) (b * kWords + s / 64)); [lia|].
        by rewrite Hs, orb_false_r.
    + destruct (Z.eqb_spec (c * kWords + w) (b * kWords + s / 64)) as [E|]; [|by apply Hs].
      apply row_index in E; [lia..].
  - intros c w Hc. rewrite words_at_set. destruct (Z.eqb_spec c b) as [-> |]; [|by apply Hr].
    rewrite set_bit_test by lia. intros [?|?]%orb_true_iff; [by apply (Hr b)|lia].
Qed.

Lemma ok_clear bb b s : bb_ok bb -> 0 <= b -> 0 <= s < N -> bb_ok (clear bb b s).
Proof.
  intros [Hb Hw Hs Hr] Hb0 Hs0. pose proof (slot_word s Hs0) as Hsw.
  pose proof (Z.mod_pos_bound s 64 ltac:(lia)). split.
  - intros i. rewrite bits_at_clear. case_if; [by apply clear_bit_word|done].
  - intros c. rewrite words_at_clear. case_if; [by apply clear_bit_word|done].
  - intros c w Hc Hw0. rewrite words_at_clear, bits_at_clear.
    destruct (Z.eqb_spec c b) as [-> | Hne]; simpl.
    + destruct (Z.eqb_spec (b * kWords + w) (b * kWords + s / 64)) as [E|E].
      * assert (w = s / 64) as -> by lia.
        destruct (clear_bit (bits_at bb (b * kWords + s / 64)) (s mod 64) =? 0) eqn:Ez; simpl.
        -- rewrite clear_bit_test by lia. rewrite Z.eqb_refl. by rewrite andb_false_r.
        -- rewrite Hs by done. destruct (Z.eqb_spec (bits_at bb (b * kWords + s / 64)) 0) as [E0|]; [|done].
           rewrite E0 in Ez. unfold clear_bit in Ez. by rewrite Z.land_0_l in Ez.
      * case_if; [|by apply Hs]. rewrite clear_bit_test by lia.
        replace (s / 64 =? w) with false by lia. by rewrite Hs, andb_true_r.
    + destruct (Z.eqb_spec (c * kWords + w) (b * kWords + s / 64)) as [E|]; [|by apply Hs].
      apply row_index in E; [lia..].
  - intros c w Hc. rewrite words_at_clear. case_if; [|by apply Hr].
    unfold clear_bit. rewrite Z.land_spec. intros [? _]%andb_true_iff. by apply (Hr c).
Qed.

Lemma mem_index b b' s s' : 0 <= b -> 0 <= b' -> 0 <= s < N -> 0 <= s' < N ->
  ((b * kWords + s / 64 = b' * kWords + s' / 64) /\ s mod 64 = s' mod 64) <-> (b = b' /\ s = s').
Proof.
  intros Hb Hb' Hs Hs'. split; [|by intros [-> ->]]. intros [E1 E2].
  apply row_index in E1 as [-> E1]; [|done..|by apply slot_word|by apply slot_word].
  split; [done|]. rewrite (Z.div_mod s 64), (Z.div_mod s' 64) by lia. congruence.
Qed.

Lemma mem_set bb b s b' s' : 0 <= b -> 0 <= b' -> 0 <= s < N -> 0 <= s' < N ->
  mem (set bb b s) b' s' = mem bb b' s' || ((b =? b') && (s =? s')).
Proof.
  intros Hb Hb' Hs Hs'. unfold mem. rewrite bits_at_set.
  pose proof (Z.mod_pos_bound s 64 ltac:(lia)). pose proof (mem_index b b' s s' Hb Hb' Hs Hs') as Hi.
  destruct (Z.eqb_spec (b' * kWords + s' / 64) (b * kWords + s / 64)) as [E|E].
  - rewrite set_bit_test by lia. f_equal. lia.
  - replace ((b =? b') && (s =? s')) with false by lia. by rewrite orb_false_r.
Qed.

Lemma mem_clear bb b s b' s' : 0 <= b -> 0 <= b' -> 0 <= s < N -> 0 <= s' < N ->
  mem (clear bb b s) b' s' = mem bb b' s' && negb ((b =? b') && (s =? s')).
Proof.
  intros Hb Hb' Hs Hs'. unfold mem. rewrite bits_at_clear.
  pose proof (Z.mod_pos_bound s 64 ltac:(lia)). pose proof (Z.mod_pos_bound s' 64 ltac:(lia)).
  pose proof (mem_index b b' s s' Hb Hb' Hs Hs') as Hi.
  destruct (Z.eqb_spec (b' * kWords + s' / 64) (b * kWords + s / 64)) as [E|E].
  - rewrite clear_bit_test by lia. f_equal. lia.
  - replace ((b =? b') && (s =? s')) with false by lia. by rewrite andb_true_r.
Qed.

Lemma elem_of_slots bb b s : bb_ok bb -> 0 <= b -> 0 <= s < N ->
  s ∈ slots bb b <-> mem bb b s = true.
Proof.
  intros [Hb Hw Hs Hr] Hb0 Hs0. unfold slots, mem.
  pose proof (slot_word s Hs0). pose proof (Z.mod_pos_bound s 64 ltac:(lia)).
  pose proof (Z.div_mod s 64 ltac:(lia)).
  rewrite list_elem_of_In, in_concat. setoid_rewrite in_map_iff. split.
  - intros (l & (w & <- & Hin) & Hx). apply in_map_iff in Hx as (x & Ex & Hx).
    apply list_elem_of_In, elem_of_bits_of in Hx as [Hx Ht]; [|done].
    apply list_elem_of_In, elem_of_bits_of in Hin as [Hin _]; [|done].
    assert (w = s / 64) as -> by lia. assert (x = s mod 64) as -> by lia. done.
  - intros Hm. eexists. split; [exists (s / 64); split; [reflexivity|]|].
    + apply list_elem_of_In, elem_of_bits_of; [done|]. split; [lia|]. rewrite Hs by done.
      destruct (Z.eqb_spec (bits_at bb (b * kWords + s / 64)) 0) as [E|]; [|done].
      by rewrite E, Z.testbit_0_l in Hm.
    + apply in_map_iff. exists (s mod 64). split; [lia|].
      apply list_elem_of_In, elem_of_bits_of; [done|]. split; [lia|done].
Qed.

Lemma slots_sorted bb b : bb_ok bb -> StronglySorted Z.lt (slots bb b).
Proof.
  intros Hok. apply (blocks_sorted (fun w => bits_at bb (b * kWords + w))).
  - intros w. apply (ok_bits bb Hok).
  - apply bits_of_sorted, (ok_words bb Hok).
Qed.

Lemma kWords_mult : N mod 64 = 0 -> kWords * 64 = N.
Proof.
  intros Hm. unfold kWords. assert (E : N = N / 64 * 64) by (pose proof (Z.div_mod N 64); lia).
  rewrite E, Z.add_comm, Z.div_add, Z.div_small by lia. lia.
Qed.

(** With a whole number of words the visit cannot leave the pool. *)
Lemma slots_range bb b s : bb_ok bb -> 0 <= b -> N mod 64 = 0 -> s ∈ slots bb b -> 0 <= s < N.
Proof.
  intros [Hb Hw Hs Hr] Hb0 Hm. unfold slots. rewrite list_elem_of_In, in_concat.
  intros (l & Hl & Hx).
  apply in_map_iff in Hl as (w & <- & Hin). apply in_map_iff in Hx as (x & <- & Hx).
  apply list_elem_of_In, elem_of_bits_of in Hx as [Hx _]; [|done].
  apply list_elem_of_In, elem_of_bits_of in Hin as [Hin Ht]; [|done].
  specialize (Hr b w Hb0 Ht). pose proof (kWords_mult Hm) as Hk.
  clear - Hr Hk Hx Hin. lia.
Qed.

(** ** Sequences of operations *)

Inductive op := OSet (b s : Z) | OClear (b s : Z).
Definition op_ok (o : op) : Prop :=
  match o with OSet b s | OClear b s => 0 <= b < B /\ 0 <= s < N end.
Definition apply_op (bb : BucketBits) (o : op) : BucketBits :=
  match o with OSet b s => set bb b s | OClear b s => clear bb b s end.
(** The specification: the set of (bucket, slot) pairs. *)
Definition spec_op (m : gset (Z * Z)) (o : op) : gset (Z * Z) :=
  match o with OSet b s => m ∪ {[(b, s)]} | OClear b s => m ∖ {[(b, s)]} end.

Lemma run_ops ops : forall bb m, Forall op_ok ops -> bb_ok bb ->
  (forall b s, 0 <= b < B -> 0 <= s < N -> mem bb b s = true <-> (b, s) ∈ m) ->
  bb_ok (fold_left apply_op ops bb) /\
  (forall b s, 0 <= b < B -> 0 <= s < N ->
    mem (fold_left apply_op ops bb) b s = true <-> (b, s) ∈ fold_left spec_op ops m).
Proof.
  induction ops as [|o ops IH]; intros bb m Hops Hok Hm; [done|].
  inversion Hops as [|? ? Ho Hops']; subst. cbn [fold_left]. apply IH; [done| |].
  - destruct o; simpl in *; [apply ok_set_bit | apply ok_clear]; (done || lia).
  - intros b' s' Hb' Hs'. specialize (Hm b' s' Hb' Hs'). destruct o as [b s | b s]; simpl in *.
    + rewrite mem_set by lia. rewrite orb_true_iff, Hm, elem_of_union, elem_of_singleton.
      split; (intros [?|?]; [by left|right]); [f_equal; lia|simplify_eq; lia].
    + rewrite mem_clear by lia. rewrite andb_true_iff, Hm, elem_of_difference, elem_of_singleton.
      split; (intros [? Hn]; split; [done|]); [intros ?; simplify_eq; lia|].
      destruct (Z.eqb_spec b b'), (Z.eqb_spec s s'); simpl; subst; done.
Qed.

(** [BucketBits::for_each] lists a bucket exactly: after any sequence of [set] and
    [clear], the slots visited are strictly ascending, and a slot is visited iff it was set
    in that bucket and not cleared since, although the visit reads only the words the summary
    marks. *)
Theorem bucket_visit_exact ops b s : Forall op_ok ops -> 0 <= b < B -> 0 <= s < N ->
  let bb := fold_left apply_op ops bb_empty in
  StronglySorted Z.lt (slots bb b) /\ (s ∈ slots bb b <-> (b, s) ∈ fold_left spec_op ops ∅).
Proof.
  intros Hops Hb Hs bb. destruct (run_ops ops bb_empty ∅ Hops ok_empty) as [Hok Hm].
  - intros b' s' _ _. unfold mem, bits_at. simpl. rewrite lookup_empty. simpl.
    rewrite Z.testbit_0_l. set_solver.
  - split; [by apply slots_sorted|]. rewrite elem_of_slots by (done || lia). by apply Hm.
Qed.
End buckets.

Lemma bucket_visit_exact_witness :
  let bb := fold_left (apply_op 128) [OSet 1 100; OSet 1 3; OSet 0 5; OSet 1 7; OClear 1 3] bb_empty in
  slots 128 bb 1 = [7; 100] /\ StronglySorted Z.lt (slots 128 bb 1) /\
  (7 ∈ slots 128 bb 1 <->
   (1, 7) ∈ fold_left spec_op [OSet 1 100; OSet 1 3; OSet 0 5; OSet 1 7; OClear 1 3] ∅).
Proof.
  intros bb. split; [reflexivity|].
  apply (bucket_visit_exact 128 2 ltac:(lia) ltac:(vm_compute; discriminate)
    [OSet 1 100; OSet 1 3; OSet 0 5; OSet 1 7; OClear 1 3] 1 7); [|lia|lia].
  repeat constructor; vm_compute; (reflexivity || discriminate).
Defined.
End Buckets.
