(* ===== verification/HashMap.v ===== *)
(** * HashMap: the open-addressing table of [containers/open_hash_map.hpp]

    Linear probing over [N = 2^p] slots, backward-shift deletion, insertion
    refused above a 7/8 load.  A slot whose [used] flag is zero is absent from
    [slots_]; the stale key and value such a slot still holds are never read.
    The probe and deletion loops take fuel [N]; the invariant [table_ok] gives
    them an empty slot to stop at, so they never run out. *)

From S2P Require Import Prelude.

Module OpenHash.

Record OpenHashMap (V : Type) := mkHash {
  slots_ : gmap Z (Z * V);
  size_ : Z;
}.
Arguments mkHash {V}.
Arguments slots_ {V}.
Arguments size_ {V}.

Section hash.
Context {V : Type} (p : Z).

Definition N : Z := 2 ^ p.
Definition kMaxSize : Z := N - N / 8.

Definition new_map : OpenHashMap V := mkHash ∅ 0.

Definition kFib : Z := 11400714819323198485.  (* 0x9E3779B97F4A7C15 *)
(** Fibonacci hashing: multiply by 2^64/phi, keep the top [p] bits. *)
Definition index_of (k : Z) : Z := Z.shiftr (u64 (u64 k * kFib)) (64 - p).

Definition next (i : Z) : Z := Z.land (i + 1) (N - 1).

(** The loop [find], [insert] and [erase] share: where it stops, and whether the key is there. *)
Fixpoint probe (fuel : nat) (s : gmap Z (Z * V)) (k i : Z) : option (Z * option V) :=
  match fuel with
  | O => None
  | S f =>
    match s !! i with
    | None => Some (i, None)
    | Some (k', v) => if k' =? k then Some (i, Some v) else probe f s k (next i)
    end
  end.

Definition fuelN : nat := Z.to_nat N.

Definition find (m : OpenHashMap V) (k : Z) : option V :=
  match probe fuelN (slots_ m) k (index_of k) with Some (_, r) => r | None => None end.

Definition contains (m : OpenHashMap V) (k : Z) : bool :=
  match find m k with Some _ => true | None => false end.

(** [insert]: the slot of the key ([None] when full) and whether it was inserted. *)
Definition insert (m : OpenHashMap V) (k : Z) (v : V) : option Z * bool * OpenHashMap V :=
  match probe fuelN (slots_ m) k (index_of k) with
  | Some (i, Some _) => (Some i, false, m)
  | Some (i, None) =>
    if kMaxSize <=? size_ m then (None, false, m)
    else (Some i, true, mkHash (<[i := (k, v)]> (slots_ m)) (size_ m + 1))
  | None => (None, false, m)
  end.

(** [assign]: [false] stands for the null pointer it returns when full. *)
Definition assign (m : OpenHashMap V) (k : Z) (v : V) : bool * OpenHashMap V :=
  match insert m k v with
  | (Some i, false, m') => (true, mkHash (<[i := (k, v)]> (slots_ m')) (size_ m'))
  | (Some _, true, m') => (true, m')
  | (None, _, m') => (false, m')
  end.

(** The loop of [erase_slot]: [hole] is the slot to refill, [j] the last one looked at.  The
    home slot of a key is an argument: [recent_map.hpp] runs the same loop with another. *)
Fixpoint shift_back (home_of : Z -> Z) (fuel : nat) (s : gmap Z (Z * V)) (hole j : Z) :
  option (gmap Z (Z * V) * Z) :=
  match fuel with
  | O => None
  | S f =>
    let j := next j in
    match s !! j with
    | None => Some (s, hole)
    | Some (k, v) =>
      let home := home_of k in
      let in_range := if hole <=? j then (hole <? home) && (home <=? j)
                      else (hole <? home) || (home <=? j) in
      if negb in_range then shift_back home_of f (<[hole := (k, v)]> s) j j
      else shift_back home_of f s hole j
    end
  end.

Definition erase_slot (m : OpenHashMap V) (hole : Z) : OpenHashMap V :=
  match shift_back index_of fuelN (slots_ m) hole hole with
  | Some (s, h) => mkHash (delete h s) (size_ m - 1)
  | None => m
  end.

Definition erase (m : OpenHashMap V) (k : Z) : bool * OpenHashMap V :=
  match probe fuelN (slots_ m) k (index_of k) with
  | Some (i, Some _) => (true, erase_slot m i)
  | _ => (false, m)
  end.

Definition clear (m : OpenHashMap V) : OpenHashMap V := mkHash ∅ 0.

(** The entries [for_each] visits, in slot order. *)
Definition for_each (m : OpenHashMap V) : list (Z * V) :=
  omap (fun i => slots_ m !! i) (seqZ 0 N).

(** ** Cyclic distance *)

(** How many steps of [next] lead from [a] to [b]. *)
Definition dist (a b : Z) : Z := if a <=? b then b - a else b - a + N.

Definition slot_ok (i : Z) : Prop := 0 <= i < N.

Hypothesis Hp : 2 <= p <= 64.

Lemma N_ge : 4 <= N.
Proof. unfold N. change 4 with (2 ^ 2). apply Z.pow_le_mono_r; lia. Qed.

Lemma next_eq i : slot_ok i -> next i = if i + 1 =? N then 0 else i + 1.
Proof.
  intros Hi. unfold next, N. rewrite land_mask by lia. fold N. unfold slot_ok in Hi.
  destruct (Z.eqb_spec (i + 1) N) as [-> |]; [apply Z.mod_same; lia | apply Z.mod_small; lia].
Qed.

Lemma dist_cases a b : a <= b /\ dist a b = b - a \/ b < a /\ dist a b = b - a + N.
Proof. unfold dist. destruct (Z.leb_spec a b); lia. Qed.

Lemma next_cases i : slot_ok i -> i + 1 = N /\ next i = 0 \/ i + 1 < N /\ next i = i + 1.
Proof. intros Hi. rewrite next_eq by done. unfold slot_ok in Hi. destruct (Z.eqb_spec (i + 1) N); lia. Qed.

Lemma next_ok i : slot_ok i -> slot_ok (next i).
Proof. intros Hi. pose proof N_ge. destruct (next_cases i Hi); unfold slot_ok in *; lia. Qed.

Lemma index_ok k : slot_ok (index_of k).
Proof.
  unfold index_of, slot_ok. rewrite Z.shiftr_div_pow2 by lia.
  pose proof (Z.mod_pos_bound (u64 k * kFib) (2 ^ 64) ltac:(lia)) as Hb.
  assert (Hpow : 2 ^ 64 = N * 2 ^ (64 - p)) by (unfold N; rewrite <- Z.pow_add_r by lia; f_equal; lia).
  assert (0 < 2 ^ (64 - p)) by (apply Z.pow_pos_nonneg; lia).
  unfold u64 at 1 3. split; [apply Z.div_pos; lia|]. apply Z.div_lt_upper_bound; lia.
Qed.
End hash.

(** Decides facts on slots and cyclic distances. *)
Ltac cyc :=
  unfold slot_ok in *;
  repeat match goal with
  | |- context [dist ?p ?a ?b] =>
    lazymatch goal with
    | _ : _ <= _ /\ dist p a b = _ \/ _ |- _ => fail
    | |- _ => pose proof (dist_cases p a b)
    end
  | H : context [dist ?p ?a ?b] |- _ =>
    lazymatch goal with
    | _ : _ <= _ /\ dist p a b = _ \/ _ |- _ => fail
    | |- _ => pose proof (dist_cases p a b)
    end
  end; lia.

(** ** The linear-probing invariant *)

Section table.
Context {V : Type} (p : Z).
Hypothesis Hp : 2 <= p <= 64.
Notation dist := (dist p).
Notation slot_ok := (slot_ok p).
Notation next := (next p).
Context (home : Z -> Z).
Hypothesis Hhome : forall k, slot_ok (home k).
Implicit Types s : gmap Z (Z * V).

(** Entries sit in range, keys are unique, and the slots from a key's home to its entry are all
    used. *)
Record table_ok s : Prop := {
  t_slots : forall i, is_Some (s !! i) -> slot_ok i;
  t_uniq : forall i j k v w, s !! i = Some (k, v) -> s !! j = Some (k, w) -> i = j;
  t_path : forall i k v x, s !! i = Some (k, v) -> slot_ok x ->
    dist (home k) x < dist (home k) i -> is_Some (s !! x);
}.

Lemma used_or_empty s i : s !! i = None \/ exists k v, s !! i = Some (k, v).
Proof. destruct (s !! i) as [[k v]|]; [right; eauto | by left]. Qed.

Lemma empty_exists s : table_ok s -> Z.of_nat (size s) < N p -> exists e, slot_ok e /\ s !! e = None.
Proof.
  intros Hok Hsz. pose proof (N_ge p Hp).
  destruct (decide (Forall (fun i => is_Some (s !! i)) (seqZ 0 (N p)))) as [Hall|Hall].
  - assert (Hsub : list_to_set (seqZ 0 (N p)) ⊆ dom s).
    { intros x. rewrite elem_of_list_to_set, elem_of_dom. apply (proj1 (Forall_forall _ _) Hall). }
    apply subseteq_size in Hsub. rewrite size_dom, size_list_to_set in Hsub by apply NoDup_seqZ.
    rewrite length_seqZ in Hsub. lia.
  - apply not_Forall_Exists in Hall; [|apply _]. apply Exists_exists in Hall as (e & He & Hne).
    apply elem_of_seqZ in He. exists e. split; [unfold OpenHash.slot_ok; lia|].
    by apply eq_None_not_Some.
Qed.

(** Where the probe for [k] stops, starting anywhere on its chain. *)
Lemma probe_spec fuel : forall s k i e, table_ok s -> slot_ok i -> slot_ok e -> s !! e = None ->
  dist i e < Z.of_nat fuel ->
  (forall x, slot_ok x -> dist (home k) x < dist (home k) i ->
     exists k' v', s !! x = Some (k', v') /\ k' <> k) ->
  exists i' r, probe p fuel s k i = Some (i', r) /\ slot_ok i' /\
    match r with
    | Some v => s !! i' = Some (k, v)
    | None => s !! i' = None /\ (forall x v, s !! x <> Some (k, v)) /\
        forall x, slot_ok x -> dist (home k) x < dist (home k) i' -> is_Some (s !! x)
    end.
Proof.
  induction fuel as [|f IH]; intros s k i e Hok Hi He Hem Hf Hscan; [cyc|]. cbn [probe].
  pose proof (Hhome k) as Hh. destruct (s !! i) as [[k' v']|] eqn:Ei.
  - destruct (Z.eqb_spec k' k) as [-> | Hne]; [by exists i, (Some v')|].
    assert (Hei : e <> i) by congruence.
    assert (Hd : ~ dist (home k) e < dist (home k) i).
    { intros Hlt. destruct (Hscan e He Hlt) as (? & ? & ? & _). congruence. }
    pose proof (next_cases p Hp i Hi) as Hn. apply (IH s k (next i) e); try done.
    + by apply next_ok.
    + cyc.
    + intros x Hx Hlt. destruct (Z.eq_dec x i) as [-> |]; [by exists k', v'|]. apply Hscan; [done|]. cyc.
  - exists i, None. split; [done|]. split; [done|]. split; [done|]. split.
    + intros x v Hx. assert (Hxo : slot_ok x) by (apply (t_slots s Hok); by eexists).
      assert (x <> i) by congruence.
      destruct (Z.lt_ge_cases (dist (home k) x) (dist (home k) i)) as [Hlt|Hge].
      * destruct (Hscan x Hxo Hlt) as (? & ? & ? & ?). congruence.
      * assert (is_Some (s !! i)) as [? ?] by (apply (t_path s Hok x k v i Hx Hi); cyc). congruence.
    + intros x Hx Hlt. destruct (Hscan x Hx Hlt) as (? & ? & -> & _). by eexists.
Qed.

Lemma probe_home s k e : table_ok s -> slot_ok e -> s !! e = None ->
  exists i' r, probe p (fuelN p) s k (home k) = Some (i', r) /\ slot_ok i' /\
    match r with
    | Some v => s !! i' = Some (k, v)
    | None => s !! i' = None /\ (forall x v, s !! x <> Some (k, v)) /\
        forall x, slot_ok x -> dist (home k) x < dist (home k) i' -> is_Some (s !! x)
    end.
Proof.
  intros Hok He Hem. pose proof (Hhome k). pose proof (N_ge p Hp).
  apply (probe_spec _ s k _ e); try done.
  - unfold fuelN. cyc.
  - intros x Hx Hlt. cyc.
Qed.

(** Storing a new key where its probe stopped. *)
Lemma insert_ok s k v i : table_ok s -> slot_ok i -> s !! i = None ->
  (forall x v, s !! x <> Some (k, v)) ->
  (forall x, slot_ok x -> dist (home k) x < dist (home k) i -> is_Some (s !! x)) ->
  table_ok (<[i := (k, v)]> s).
Proof.
  intros [Hs Hu Hpa] Hi Hem Hnew Hpath. split.
  - intros x. destruct (Z.eq_dec i x) as [<- |]; [done|]. rewrite lookup_insert_ne by done. apply Hs.
  - intros x y k' a b. destruct (Z.eq_dec i x) as [<- |], (Z.eq_dec i y) as [<- |];
      rewrite ?lookup_insert_eq, ?lookup_insert_ne by done; intros H1 H2; simplify_eq; try done.
    + by apply Hnew in H2.
    + by apply Hnew in H1.
    + by apply (Hu _ _ _ _ _ H1 H2).
  - intros x k' a y Hx Hy Hlt. destruct (Z.eq_dec i y) as [<- |]; [rewrite lookup_insert_eq; by eexists|].
    rewrite lookup_insert_ne by done. destruct (Z.eq_dec i x) as [<- |].
    + rewrite lookup_insert_eq in Hx. simplify_eq. by apply Hpath.
    + rewrite lookup_insert_ne in Hx by done. by apply (Hpa x k' a).
Qed.

(** Overwriting the value of a key in place. *)
Lemma overwrite_ok s k v v' i : table_ok s -> s !! i = Some (k, v) -> table_ok (<[i := (k, v')]> s).
Proof.
  intros [Hs Hu Hpa] Hi.
  assert (Hback : forall x k' a, <[i := (k, v')]> s !! x = Some (k', a) -> exists b, s !! x = Some (k', b)).
  { intros x k' a. destruct (Z.eq_dec i x) as [<- |].
    - rewrite lookup_insert_eq. intros ?; simplify_eq. by exists v.
    - rewrite lookup_insert_ne by done. eauto. }
  assert (Hsome : forall x, is_Some (s !! x) -> is_Some (<[i := (k, v')]> s !! x)).
  { intros x. destruct (Z.eq_dec i x) as [<- |].
    - rewrite lookup_insert_eq. by eexists.
    - by rewrite lookup_insert_ne. }
  split.
  - intros x [[k' a] Hx]. apply Hback in Hx as [b Hx]. apply Hs. by eexists.
  - intros x y k' a b Hx%Hback Hy%Hback. destruct Hx, Hy. by eapply Hu.
  - intros x k' a y Hx%Hback Hy Hlt. destruct Hx as [b Hx]. apply Hsome. by apply (Hpa x k' b).
Qed.

(** ** Backward-shift deletion *)

(** During [erase_slot]: the entry of [h] is the one being removed (or a copy of one already
    moved), the slots from [h] to [j] are used, and each entry after [h] up to [j] has its home
    after [h] too, so that it does not need the hole filled. *)
Record hole_ok s (h j : Z) : Prop := {
  h_hole : slot_ok h /\ slot_ok j /\ is_Some (s !! h);
  h_slots : forall i, is_Some (s !! i) -> slot_ok i;
  h_uniq : forall i i' k v w, s !! i = Some (k, v) -> s !! i' = Some (k, w) -> i <> h -> i' <> h -> i = i';
  h_path : forall i k v x, s !! i = Some (k, v) -> i <> h -> slot_ok x ->
    dist (home k) x < dist (home k) i -> is_Some (s !! x);
  h_run : forall x, slot_ok x -> dist h x <= dist h j -> is_Some (s !! x);
  h_scan : forall i k v, s !! i = Some (k, v) -> i <> h -> dist h i <= dist h j ->
    0 < dist h (home k) <= dist h i;
}.

Definition ent s (h : Z) (k : Z) (v : V) : Prop := exists i, i <> h /\ s !! i = Some (k, v).

(** The next slot is empty: the hole can be emptied. *)
Lemma hole_done s h j : hole_ok s h j -> s !! next j = None -> table_ok (delete h s).
Proof.
  intros [(Hh & Hj & Hhs) Hs Hu Hpa Hrun Hsc] Hem. pose proof (next_cases p Hp j Hj) as Hn.
  pose proof (next_ok p Hp j Hj) as Hno. pose proof (N_ge p Hp). split.
  - intros i [x Hi]. apply Hs. rewrite lookup_delete_Some in Hi. by eexists; apply Hi.
  - intros i i' k v w [? Hi]%lookup_delete_Some [? Hi']%lookup_delete_Some. by eapply Hu.
  - intros i k v x [Hne Hi]%lookup_delete_Some Hx Hlt.
    assert (Hio : slot_ok i) by (apply Hs; by eexists). pose proof (Hhome k) as Hk.
    pose proof (Hpa i k v x Hi ltac:(done) Hx Hlt) as Hux.
    destruct (Z.eq_dec h x) as [<- | Hxh]; [|by rewrite lookup_delete_ne].
    assert (Hnn : ~ dist (home k) (next j) < dist (home k) i).
    { intros Hc. destruct (Hpa i k v (next j) Hi ltac:(done) Hno Hc). congruence. }
    assert (next j <> i) by congruence.
    assert (Hnh : next j <> h) by (destruct Hhs; congruence).
    assert (Hle : dist h i <= dist h j) by cyc.
    pose proof (Hsc i k v Hi ltac:(done) Hle). cyc.
Qed.

Lemma in_range_spec h j k : slot_ok h -> slot_ok j -> h <> j ->
  (if h <=? j then (h <? home k) && (home k <=? j) else (h <? home k) || (home k <=? j))
  = (0 <? dist h (home k)) && (dist h (home k) <=? dist h j).
Proof.
  intros Hh Hj Hne. pose proof (Hhome k). destruct (Z.leb_spec h j); cyc.
Qed.

(** Moving the entry of the next slot into the hole makes that slot the hole. *)
Lemma hole_move s h j k v : hole_ok s h j -> s !! next j = Some (k, v) -> next j <> h ->
  ~ 0 < dist h (home k) <= dist h (next j) ->
  hole_ok (<[h := (k, v)]> s) (next j) (next j) /\
  (forall k' v', ent (<[h := (k, v)]> s) (next j) k' v' <-> ent s h k' v').
Proof.
  intros [(Hh & Hj & Hhs) Hs Hu Hpa Hrun Hsc] Hnx Hnh Hout. pose proof (next_cases p Hp j Hj) as Hn.
  pose proof (next_ok p Hp j Hj) as Hno. pose proof (N_ge p Hp). pose proof (Hhome k) as Hk.
  assert (Hsome : forall x, is_Some (<[h := (k, v)]> s !! x) <-> is_Some (s !! x)).
  { intros x. destruct (Z.eq_dec h x) as [<- |]; [|by rewrite lookup_insert_ne].
    rewrite lookup_insert_eq. split; [done | by eexists]. }
  split; [split|].
  - split; [done|]. split; [done|]. apply Hsome. by eexists.
  - intros i Hi%Hsome. by apply Hs.
  - intros i i' k' a b. destruct (Z.eq_dec h i) as [<- |], (Z.eq_dec h i') as [<- |];
      rewrite ?lookup_insert_eq, ?lookup_insert_ne by done; intros H1 H2 ? ?; simplify_eq; try done.
    + by pose proof (Hu i' (next j) _ _ _ H2 Hnx ltac:(done) Hnh).
    + by pose proof (Hu i (next j) _ _ _ H1 Hnx ltac:(done) Hnh).
    + by eapply Hu.
  - intros i k' a x Hi Hne Hx Hlt. apply Hsome. destruct (Z.eq_dec h i) as [<- |].
    + rewrite lookup_insert_eq in Hi. simplify_eq. apply (Hpa _ _ _ x Hnx Hnh Hx). cyc.
    + rewrite lookup_insert_ne in Hi by done. by apply (Hpa i k' a).
  - intros x Hx Hle. apply Hsome. assert (x = next j) as -> by cyc. by eexists.
  - intros i k' a Hi Hne Hle. exfalso.
    assert (slot_ok i) by (apply Hs, Hsome; by eexists). cyc.
  - intros k' v'. unfold ent. split.
    + intros (i & Hne & Hi). destruct (Z.eq_dec h i) as [<- |].
      * rewrite lookup_insert_eq in Hi. simplify_eq. by exists (next j).
      * rewrite lookup_insert_ne in Hi by done. by exists i.
    + intros (i & Hne & Hi). destruct (Z.eq_dec (next j) i) as [<- |].
      * exists h. rewrite lookup_insert_eq. split; congruence.
      * exists i. by rewrite lookup_insert_ne by done.
Qed.

(** Leaving it where it is extends the scanned run. *)
Lemma hole_keep s h j k v : hole_ok s h j -> s !! next j = Some (k, v) -> next j <> h ->
  0 < dist h (home k) <= dist h (next j) -> hole_ok s h (next j).
Proof.
  intros [(Hh & Hj & Hhs) Hs Hu Hpa Hrun Hsc] Hnx Hnh Hin. pose proof (next_cases p Hp j Hj) as Hn.
  pose proof (next_ok p Hp j Hj) as Hno. split; try done.
  - intros x Hx Hle. destruct (Z.eq_dec x (next j)) as [-> |]; [by eexists|]. apply Hrun; [done|]. cyc.
  - intros i k' a Hi Hne Hle. assert (slot_ok i) by (apply Hs; by eexists).
    destruct (Z.eq_dec i (next j)) as [-> |].
    + rewrite Hnx in Hi. by simplify_eq.
    + apply (Hsc i k' a); [done..|]. cyc.
Qed.

Lemma shift_back_spec fuel : forall s h j e, hole_ok s h j -> slot_ok e -> s !! e = None ->
  dist j e <= Z.of_nat fuel ->
  exists s' h', shift_back p home fuel s h j = Some (s', h') /\ table_ok (delete h' s') /\
    (forall k v, (exists i, delete h' s' !! i = Some (k, v)) <-> ent s h k v) /\
    is_Some (s' !! h') /\ size s' = size s.
Proof.
  induction fuel as [|f IH]; intros s h j e Hok He Hem Hf.
  - pose proof (h_hole s h j Hok) as (Hh & Hj & Hhs). exfalso.
    assert (j = e) as -> by cyc. assert (is_Some (s !! e)) as [? ?]; [|congruence].
    apply (h_run s h e Hok); [done|lia].
  - pose proof (h_hole s h j Hok) as (Hh & Hj & Hhs). cbn [shift_back].
    pose proof (next_cases p Hp j Hj) as Hn. pose proof (N_ge p Hp).
    assert (Hje : j <> e).
    { intros ->. assert (is_Some (s !! e)) as [? ?]; [|congruence]. apply (h_run s h e Hok); [done|lia]. }
    destruct (s !! next j) as [[k v]|] eqn:En.
    + assert (Hnh : next j <> h).
      { intros E. assert (is_Some (s !! e)) as [? ?]; [|congruence].
        apply (h_run s h j Hok); [done|]. rewrite E in Hn. cyc. }
      rewrite in_range_spec by (try done; by apply next_ok). assert (next j <> e) by congruence.
      destruct (_ && _) eqn:Er; cbn [negb].
      * apply (IH s h (next j) e); [|done..|cyc]. apply (hole_keep s h j k v); try done. lia.
      * destruct (hole_move s h j k v Hok En Hnh ltac:(lia)) as [Hok' Hent].
        destruct (IH _ _ _ e Hok' He) as (s' & h' & -> & Ht & Hc & Hh' & Hsz).
        { rewrite lookup_insert_ne by (destruct Hhs; congruence). done. }
        { cyc. }
        exists s', h'. split; [done|]. split; [done|]. split; [intros; by rewrite Hc|]. split; [done|].
        rewrite Hsz. by apply map_size_insert_Some.
    + exists s, h. split; [done|]. split; [by apply (hole_done s h j)|]. split; [|done].
      intros k v. unfold ent. setoid_rewrite lookup_delete_Some.
      split; intros (i & ? & ?); exists i; split; congruence.
Qed.

Lemma hole_start s h : table_ok s -> is_Some (s !! h) -> hole_ok s h h.
Proof.
  intros [Hs Hu Hpa] Hh. pose proof (Hs h Hh). split; try done.
  - intros. by eapply Hu.
  - intros. by eapply Hpa.
  - intros x Hx Hle. assert (x = h) as -> by cyc. done.
  - intros i k v Hi Hne Hle. assert (slot_ok i) by (apply Hs; by eexists). cyc.
Qed.

(** ** The finite map *)

Definition to_map (m : OpenHashMap V) : gmap Z V := list_to_map (map_to_list (slots_ m)).*2.

Lemma entries_nodup s : table_ok s -> NoDup (map_to_list s).*2.*1.
Proof.
  intros Hok. rewrite <- list_fmap_compose. apply NoDup_fmap_2_strong; [|apply NoDup_map_to_list].
  intros [i [k1 v1]] [j [k2 v2]] Hi Hj E. apply elem_of_map_to_list in Hi, Hj. simpl in E. subst.
  assert (i = j) as -> by by eapply (t_uniq _ Hok). congruence.
Qed.

Lemma to_map_spec m k v : table_ok (slots_ m) ->
  to_map m !! k = Some v <-> exists i, slots_ m !! i = Some (k, v).
Proof.
  intros Hok. unfold to_map. rewrite <- elem_of_list_to_map by by apply entries_nodup.
  rewrite list_elem_of_fmap. split.
  - intros ([i e] & Ee & Hin). simpl in Ee. subst. exists i. by apply elem_of_map_to_list.
  - intros [i Hi]. exists (i, (k, v)). split; [done|]. by apply elem_of_map_to_list.
Qed.

Lemma to_map_None m k : table_ok (slots_ m) -> (forall i v, slots_ m !! i <> Some (k, v)) ->
  to_map m !! k = None.
Proof.
  intros Hok Hn. destruct (to_map m !! k) as [v|] eqn:E; [|done].
  apply to_map_spec in E as [i Hi]; [|done]. by apply Hn in Hi.
Qed.

Lemma to_map_size m : table_ok (slots_ m) -> size (to_map m) = size (slots_ m).
Proof.
  intros Hok. unfold to_map. rewrite <- length_map_to_list, map_to_list_to_map by by apply entries_nodup.
  by rewrite length_fmap, length_map_to_list.
Qed.

(** Two tables with the same entries are the same map. *)
Lemma to_map_ext m (g : gmap Z V) : table_ok (slots_ m) ->
  (forall k v, (exists i, slots_ m !! i = Some (k, v)) <-> g !! k = Some v) -> to_map m = g.
Proof.
  intros Hok Hg. apply map_eq. intros k. apply option_eq. intros v.
  by rewrite to_map_spec, Hg.
Qed.
End table.

(** ** The operations act on the finite map *)

Section ops.
Context {V : Type} (p : Z).
Hypothesis Hp : 3 <= p <= 64.
Implicit Types m : OpenHashMap V.

Notation table_ok := (table_ok p (index_of p)).

(** The whole invariant: the table, its counter and the load cap. *)
Record map_ok m : Prop := {
  mo_table : table_ok (slots_ m);
  mo_size : size_ m = Z.of_nat (size (slots_ m));
  mo_load : size_ m <= kMaxSize p;
}.

Lemma Hp2 : 2 <= p <= 64.
Proof. lia. Qed.

Lemma kMax_lt : kMaxSize p < N p.
Proof.
  unfold kMaxSize. assert (0 < N p / 8); [|lia]. apply Z.div_str_pos.
  assert (2 ^ 3 <= N p) by (apply Z.pow_le_mono_r; lia). lia.
Qed.

Lemma probe_total m k : map_ok m -> exists i r, probe p (fuelN p) (slots_ m) k (index_of p k) = Some (i, r)
  /\ slot_ok p i /\
    match r with
    | Some v => slots_ m !! i = Some (k, v)
    | None => slots_ m !! i = None /\ (forall x v, slots_ m !! x <> Some (k, v)) /\
        forall x, slot_ok p x -> dist p (index_of p k) x < dist p (index_of p k) i -> is_Some (slots_ m !! x)
    end.
Proof.
  intros [Ht Hs Hl]. pose proof kMax_lt.
  destruct (empty_exists p Hp2 _ (slots_ m) Ht) as (e & He & Hem); [lia|].
  by apply (probe_home p Hp2 _ (index_ok p Hp2) _ k e).
Qed.

Lemma new_ok : map_ok new_map.
Proof.
  split; [split| |].
  - intros i [x Hx]. simpl in Hx. by rewrite lookup_empty in Hx.
  - intros i j k v w Hx. simpl in Hx. by rewrite lookup_empty in Hx.
  - intros i k v x Hx. simpl in Hx. by rewrite lookup_empty in Hx.
  - done.
  - simpl. unfold kMaxSize. assert (8 * (N p / 8) <= N p) by (apply Z.mul_div_le; lia).
    pose proof (N_ge p Hp2). lia.
Qed.

Lemma new_to_map : to_map new_map = (∅ : gmap Z V).
Proof. unfold to_map. simpl. by rewrite map_to_list_empty. Qed.

Lemma find_ok m k : map_ok m -> find p m k = to_map m !! k.
Proof.
  intros Hok. pose proof (mo_table m Hok) as Ht. unfold find.
  destruct (probe_total m k Hok) as (i & [v|] & -> & Hi & Hr).
  - symmetry. apply (to_map_spec p _ m k v Ht). eauto.
  - symmetry. apply (to_map_None p _ m k Ht), Hr.
Qed.

Lemma load_room m : map_ok m -> (kMaxSize p <=? size_ m) = negb (Z.of_nat (size (to_map m)) <? kMaxSize p).
Proof. intros Hok. rewrite (to_map_size p _ m (mo_table m Hok)), (mo_size m Hok). lia. Qed.

Lemma store_new m k v i : map_ok m -> slot_ok p i -> slots_ m !! i = None ->
  (forall x v, slots_ m !! x <> Some (k, v)) ->
  (forall x, slot_ok p x -> dist p (index_of p k) x < dist p (index_of p k) i -> is_Some (slots_ m !! x)) ->
  size_ m < kMaxSize p ->
  let m' := mkHash (<[i := (k, v)]> (slots_ m)) (size_ m + 1) in
  map_ok m' /\ to_map m' = <[k := v]> (to_map m).
Proof.
  intros [Ht Hs Hl] Hi Hem Hnew Hpath Hroom m'.
  assert (Ht' : table_ok (slots_ m')) by by apply insert_ok.
  split; [split; [done| |simpl; lia]|].
  - simpl. rewrite map_size_insert_None by done. lia.
  - apply (to_map_ext p _ m' _ Ht'). intros k' v'. simpl.
    destruct (Z.eq_dec k k') as [<- | Hk].
    + rewrite lookup_insert_eq. split.
      * intros [x Hx]. destruct (Z.eq_dec i x) as [<- |]; [rewrite lookup_insert_eq in Hx; congruence|].
        rewrite lookup_insert_ne in Hx by done. by apply Hnew in Hx.
      * intros ?; simplify_eq. exists i. by rewrite lookup_insert_eq.
    + rewrite lookup_insert_ne, (to_map_spec p _ m k' v' Ht) by done. split; intros [x Hx]; exists x.
      * destruct (Z.eq_dec i x) as [<- |]; [rewrite lookup_insert_eq in Hx; congruence|].
        by rewrite lookup_insert_ne in Hx.
      * rewrite lookup_insert_ne; [done|]. congruence.
Qed.

Lemma store_old m k v w i : map_ok m -> slots_ m !! i = Some (k, w) ->
  let m' := mkHash (<[i := (k, v)]> (slots_ m)) (size_ m) in
  map_ok m' /\ to_map m' = <[k := v]> (to_map m).
Proof.
  intros [Ht Hs Hl] Hi m'.
  assert (Ht' : table_ok (slots_ m')) by by apply (overwrite_ok _ _ _ k w v i).
  split; [split; [done| |done]|].
  - simpl. by rewrite map_size_insert_Some.
  - apply (to_map_ext p _ m' _ Ht'). intros k' v'. simpl.
    destruct (Z.eq_dec k k') as [<- | Hk].
    + rewrite lookup_insert_eq. split.
      * intros [x Hx]. destruct (Z.eq_dec i x) as [<- |Hne]; [rewrite lookup_insert_eq in Hx; congruence|].
        rewrite lookup_insert_ne in Hx by done. destruct Hne. by apply (t_uniq _ _ _ Ht i x k w v').
      * intros ?; simplify_eq. exists i. by rewrite lookup_insert_eq.
    + rewrite lookup_insert_ne, (to_map_spec p _ m k' v' Ht) by done. split; intros [x Hx]; exists x.
      * destruct (Z.eq_dec i x) as [<- |]; [rewrite lookup_insert_eq in Hx; congruence|].
        by rewrite lookup_insert_ne in Hx.
      * rewrite lookup_insert_ne; [done|]. congruence.
Qed.

(** Whether the map takes a key: it has it already, or it is below the load cap. *)
Definition accepts (g : gmap Z V) (k : Z) : bool :=
  bool_decide (is_Some (g !! k)) || (Z.of_nat (size g) <? kMaxSize p).

Lemma assign_ok m k v : map_ok m -> let '(b, m') := assign p m k v in
  b = accepts (to_map m) k /\ map_ok m' /\
  to_map m' = (if accepts (to_map m) k then <[k := v]> (to_map m) else to_map m).
Proof.
  intros Hok. pose proof (mo_table m Hok) as Ht. pose proof (load_room m Hok) as Hr0.
  unfold assign, insert, accepts. destruct (probe_total m k Hok) as (i & [w|] & -> & Hi & Hr).
  - rewrite bool_decide_true by (exists w; apply (to_map_spec p _ m k w Ht); eauto). simpl.
    split; [done|]. by apply (store_old m k v w i).
  - destruct Hr as (Hem & Hnew & Hpath). rewrite Hr0.
    rewrite bool_decide_false by (rewrite (to_map_None p _ m k Ht Hnew); by intros [? ?]).
    simpl. destruct (_ <? _) eqn:E; simpl; [|done]. split; [done|].
    apply store_new; try done. rewrite (mo_size m Hok), <- (to_map_size p _ m Ht). lia.
Qed.

Lemma insert_ok' m k v : map_ok m -> let '(q, b, m') := insert p m k v in
  bool_decide (is_Some q) = accepts (to_map m) k /\
  b = accepts (to_map m) k && negb (bool_decide (is_Some (to_map m !! k))) /\ map_ok m' /\
  to_map m' = (if b then <[k := v]> (to_map m) else to_map m).
Proof.
  intros Hok. pose proof (mo_table m Hok) as Ht. pose proof (load_room m Hok) as Hr0.
  unfold insert, accepts. destruct (probe_total m k Hok) as (i & [w|] & -> & Hi & Hr).
  - rewrite (bool_decide_true (is_Some (to_map m !! k))) by (exists w; apply (to_map_spec p _ m k w Ht); eauto). done.
  - destruct Hr as (Hem & Hnew & Hpath). rewrite Hr0.
    rewrite (bool_decide_false (is_Some (to_map m !! k))) by (rewrite (to_map_None p _ m k Ht Hnew); by intros [? ?]).
    simpl. destruct (_ <? _) eqn:E; simpl; [|done]. split; [done|]. split; [done|].
    apply store_new; try done. rewrite (mo_size m Hok), <- (to_map_size p _ m Ht). lia.
Qed.

Lemma erase_slot_ok m k v i : map_ok m -> slots_ m !! i = Some (k, v) ->
  map_ok (erase_slot p m i) /\ to_map (erase_slot p m i) = delete k (to_map m).
Proof.
  intros [Ht Hs Hl] Hi. pose proof kMax_lt. pose proof (N_ge p Hp2).
  destruct (empty_exists p Hp2 _ (slots_ m) Ht) as (e & He & Hem); [lia|].
  assert (Hio : slot_ok p i) by (apply (t_slots _ _ _ Ht); by eexists).
  destruct (shift_back_spec p Hp2 _ (index_ok p Hp2) (fuelN p) (slots_ m) i i e)
    as (s' & h' & Eq & Ht' & Hent & Hh' & Hsz); try done.
  { apply hole_start; [done | by eexists]. }
  { unfold fuelN. cyc. }
  unfold erase_slot. rewrite Eq. split; [split; [done| |simpl; lia]|].
  - simpl. rewrite Hs. destruct Hh' as [x Hx].
    rewrite <- Hsz, <- (insert_delete_id s' h' x Hx), map_size_insert_None by apply lookup_delete_eq.
    rewrite delete_insert_id by apply lookup_delete_eq. lia.
  - apply (to_map_ext p (index_of p) (mkHash (delete h' s') _) _ Ht'). intros k' v'. simpl. rewrite Hent. unfold ent.
    rewrite lookup_delete_Some, (to_map_spec p _ m k' v' Ht). split.
    + intros (x & Hne & Hx). split; [|eauto]. intros ->. destruct Hne.
      by apply (t_uniq _ _ _ Ht x i k' v' v).
    + intros [Hne [x Hx]]. exists x. split; [|done]. congruence.
Qed.

Lemma erase_ok m k : map_ok m -> let '(b, m') := erase p m k in
  b = bool_decide (is_Some (to_map m !! k)) /\ map_ok m' /\ to_map m' = delete k (to_map m).
Proof.
  intros Hok. pose proof (mo_table m Hok) as Ht. unfold erase.
  destruct (probe_total m k Hok) as (i & [w|] & -> & Hi & Hr).
  - rewrite bool_decide_true by (exists w; apply (to_map_spec p _ m k w Ht); eauto).
    split; [done|]. by apply (erase_slot_ok m k w i).
  - destruct Hr as (Hem & Hnew & Hpath). pose proof (to_map_None p _ m k Ht Hnew) as Hn.
    rewrite bool_decide_false by (rewrite Hn; by intros [? ?]). by rewrite delete_id.
Qed.

(** ** Sequences of operations *)

Inductive op := OFind (k : Z) | OContains (k : Z) | OInsert (k : Z) (v : V) | OAssign (k : Z) (v : V)
  | OErase (k : Z) | OClear.
Inductive out := RVal (v : option V) | RBool (b : bool) | RInsert (ok inserted : bool) | RDone.

Definition step (m : OpenHashMap V) (o : op) : out * OpenHashMap V :=
  match o with
  | OFind k => (RVal (find p m k), m)
  | OContains k => (RBool (contains p m k), m)
  | OInsert k v => let '(q, b, m') := insert p m k v in (RInsert (bool_decide (is_Some q)) b, m')
  | OAssign k v => let '(b, m') := assign p m k v in (RBool b, m')
  | OErase k => let '(b, m') := erase p m k in (RBool b, m')
  | OClear => (RDone, clear m)
  end.

(** The specification: a finite map that refuses a new key at [kMaxSize] entries. *)
Definition spec_step (g : gmap Z V) (o : op) : out * gmap Z V :=
  match o with
  | OFind k => (RVal (g !! k), g)
  | OContains k => (RBool (bool_decide (is_Some (g !! k))), g)
  | OInsert k v =>
    let fresh := accepts g k && negb (bool_decide (is_Some (g !! k))) in
    (RInsert (accepts g k) fresh, if fresh then <[k := v]> g else g)
  | OAssign k v => (RBool (accepts g k), if accepts g k then <[k := v]> g else g)
  | OErase k => (RBool (bool_decide (is_Some (g !! k))), delete k g)
  | OClear => (RDone, ∅)
  end.

Fixpoint run {S} (st : S -> op -> out * S) (ops : list op) (s : S) : list out :=
  match ops with [] => [] | o :: ops => let '(x, s') := st s o in x :: run st ops s' end.

Lemma step_refines m o : map_ok m ->
  fst (step m o) = fst (spec_step (to_map m) o) /\ map_ok (snd (step m o)) /\
  to_map (snd (step m o)) = snd (spec_step (to_map m) o).
Proof.
  intros Hok. destruct o as [k | k | k v | k v | k |]; cbn [step spec_step].
  - simpl. by rewrite find_ok.
  - simpl. unfold contains. rewrite find_ok by done. split; [|done].
    destruct (to_map m !! k) eqn:E; [by rewrite bool_decide_true by by eexists|].
    rewrite bool_decide_false; [done|]. by intros [? ?].
  - pose proof (insert_ok' m k v Hok) as H. destruct (insert p m k v) as [[q b] m'].
    destruct H as (E1 & E2 & ? & E3). subst b. simpl. by rewrite E1, E3.
  - pose proof (assign_ok m k v Hok) as H. destruct (assign p m k v) as [b m'].
    destruct H as (E1 & ? & E2). subst b. simpl. by rewrite E2.
  - pose proof (erase_ok m k Hok) as H. destruct (erase p m k) as [b m'].
    destruct H as (E1 & ? & E2). subst b. simpl. by rewrite E2.
  - split; [done|]. split; [apply new_ok | apply new_to_map].
Qed.

Lemma run_refines ops : forall m, map_ok m -> run step ops m = run spec_step ops (to_map m).
Proof.
  induction ops as [|o ops IH]; intros m Hok; [done|]. cbn [run].
  destruct (step_refines m o Hok) as (Ho & Hok' & Hm).
  destruct (step m o) as [x m'], (spec_step (to_map m) o) as [x' g]. simpl in *. subst.
  f_equal. by apply IH.
Qed.

(** C39. [OpenHashMap] of eight or more slots is a finite map with a load cap: over any sequence of [find],
    [contains], [insert], [assign], [erase] and [clear] from the empty table, every result is
    the one of a finite map that refuses a new key once it holds [N - N/8] entries;
    backward-shift deletion never loses or duplicates an entry. *)
Theorem hash_map_refines ops : run step ops new_map = run spec_step ops ∅.
Proof. rewrite run_refines by apply new_ok. by rewrite new_to_map. Qed.

(** The tables reachable by operations. *)
Definition reached (ops : list op) : OpenHashMap V :=
  fold_left (fun m o => snd (step m o)) ops new_map.

Lemma reached_ok ops : map_ok (reached ops).
Proof.
  unfold reached. generalize new_ok. generalize (@new_map V).
  induction ops as [|o ops IH]; intros m Hok; [done|]. cbn [fold_left]. apply IH.
  by apply step_refines.
Qed.

(** The probe and deletion loops of [OpenHashMap] stop within [N] steps on every
    table the operations can build (with [N >= 8]): the 7/8 load cap always leaves an empty
    slot. *)
Theorem hash_loops_stop ops k :
  is_Some (probe p (fuelN p) (slots_ (reached ops)) k (index_of p k)) /\
  forall i, is_Some (slots_ (reached ops) !! i) ->
    is_Some (shift_back p (index_of p) (fuelN p) (slots_ (reached ops)) i i).
Proof.
  pose proof (reached_ok ops) as Hok. split.
  - destruct (probe_total _ k Hok) as (i & r & -> & _). by eexists.
  - intros i Hi. destruct Hok as [Ht Hs Hl]. pose proof kMax_lt. pose proof (N_ge p Hp2).
    destruct (empty_exists p Hp2 _ _ Ht) as (e & He & Hem); [lia|].
    pose proof (t_slots _ _ _ Ht i Hi) as Hio.
    destruct (shift_back_spec p Hp2 _ (index_ok p Hp2) (fuelN p) (slots_ (reached ops)) i i e)
      as (s' & h' & -> & _); [by apply hole_start | done | done | unfold fuelN; cyc | by eexists].
Qed.
End ops.

Lemma hash_map_refines_witness :
  run (step 3) [OInsert 5 50; OInsert 13 1; OAssign 5 51; OErase 13; OFind 5; OContains 13] new_map =
  [RInsert true true; RInsert true true; RBool true; RBool true; RVal (Some 51); RBool false].
Proof. rewrite (hash_map_refines 3 ltac:(lia)). reflexivity. Defined.

Lemma hash_loops_stop_witness :
  is_Some (probe 3 (fuelN 3) (slots_ (reached 3 [OInsert 5 50; OInsert 13 1])) 7 (index_of 3 7)) /\
  forall i, is_Some (slots_ (reached 3 [OInsert 5 50; OInsert 13 1]) !! i) ->
    is_Some (shift_back 3 (index_of 3) (fuelN 3) (slots_ (reached 3 [OInsert 5 50; OInsert 13 1])) i i).
Proof. apply (hash_loops_stop 3 ltac:(lia) [OInsert 5 50; OInsert 13 1] 7). Defined.

(** The smallest capacity the class admits: four keys fill all four slots. *)
Definition full4 : OpenHashMap Z :=
  fold_left (fun m k => snd (assign 2 m k k)) [0; 1; 2; 3] new_map.

Lemma probe_full4 fuel : forall i, 0 <= i < 4 -> probe 2 fuel (slots_ full4) 4 i = None.
Proof.
  induction fuel as [|f IH]; intros i Hi; [done|]. cbn [probe].
  assert (Hn : 0 <= next 2 i < 4) by (apply (next_ok 2 ltac:(lia) i); unfold slot_ok; change (N 2) with 4; lia).
  specialize (IH (next 2 i) Hn).
  assert (i = 0 \/ i = 1 \/ i = 2 \/ i = 3) as [-> | [-> | [-> | ->]]] by lia; exact IH.
Qed.

(** With [N = 4], which the class's [static_assert] admits, the load cap [N - N/8] is
    [N] itself: four insertions succeed, the table has no empty slot left, and the probe for an
    absent key goes round for ever (no number of steps ends it). *)
Theorem capacity_four_never_stops fuel :
  kMaxSize 2 = N 2 /\ size_ full4 = 4 /\ probe 2 fuel (slots_ full4) 4 (index_of 2 4) = None.
Proof. split; [reflexivity|]. split; [reflexivity|]. apply probe_full4. by vm_compute. Qed.
End OpenHash.
