(* ===== verification/RecentMap.v ===== *)
(** * RecentMap: the most recently inserted keys ([containers/recent_map.hpp])

    Keys and values sit in a ring in insertion order; an open-addressing index
    of twice the capacity holds, per key, the ring position and the top half of
    the key's hash in one 64-bit word.  An empty index slot (a zero word) is
    absent from [index_].  The index runs the same linear probing and
    backward-shift deletion as [HashMap], with the home slot read from the word
    itself, and its proofs are those of that file. *)

From S2P Require Import Prelude RingBuffer HashMap.

Module Recent.

Record RecentMap (V : Type) := mkRecent {
  index_ : gmap Z (Z * unit);
  keys_ : gmap Z Z;
  values_ : gmap Z V;
  head_ : Z;
  tail_ : Z;
}.
Arguments mkRecent {V}.
Arguments index_ {V}.
Arguments keys_ {V}.
Arguments values_ {V}.
Arguments head_ {V}.
Arguments tail_ {V}.

Section recent.
Context {V : Type} (p : Z).

Definition N : Z := 2 ^ p.
Definition kSlotBits : Z := p + 1.
Definition kSlots : Z := 2 ^ kSlotBits.

Definition new_recent : RecentMap V := mkRecent ∅ ∅ ∅ 0 0.

Definition hash (k : Z) : Z := u64 (u64 k * OpenHash.kFib).
Definition home (h : Z) : Z := Z.shiftr h (64 - kSlotBits).
Definition next (i : Z) : Z := Z.land (i + 1) (kSlots - 1).
Definition low32 (w : Z) : Z := Z.land w (2 ^ 32 - 1).

(** The word of the key with hash [h] at ring position [pos]. *)
Definition slot_word (h pos : Z) : Z := Z.lor (Z.shiftl (Z.shiftr h 32) 32) (pos + 1).
(** [index_[j] >> (64 - kSlotBits)]: the home slot of the word's key. *)
Definition word_home (w : Z) : Z := Z.shiftr (u64 w) (64 - kSlotBits).

Definition fuelS : nat := Z.to_nat kSlots.

(** [keys_[pos]]; the array is zero-initialised. *)
Definition key_at (m : RecentMap V) (pos : Z) : Z := default 0 (keys_ m !! pos).

(** The private [find(k, h)]: the ring position of the key. *)
Fixpoint find_loop (fuel : nat) (m : RecentMap V) (k top i : Z) : option (option Z) :=
  match fuel with
  | O => None
  | S f =>
    match index_ m !! i with
    | None => Some None
    | Some (s, _) =>
      if negb (Z.shiftr s 32 =? top) then find_loop f m k top (next i)
      else
        let pos := low32 s - 1 in
        if key_at m pos =? k then Some (Some pos)
        else find_loop f m k top (next i)
    end
  end.
Definition find_pos (m : RecentMap V) (k h : Z) : option Z :=
  default None (find_loop fuelS m k (Z.shiftr h 32) (home h)).

Definition find (m : RecentMap V) (k : Z) : option V :=
  match find_pos m k (hash k) with Some pos => values_ m !! pos | None => None end.
Definition contains (m : RecentMap V) (k : Z) : bool := bool_decide (is_Some (find m k)).

Definition size (m : RecentMap V) : Z := u64 (tail_ m - head_ m).
Definition clear (m : RecentMap V) : RecentMap V := mkRecent ∅ (keys_ m) (values_ m) 0 0.

(** [unindex]: the slot of ring position [pos], then the loop that closes the gap. *)
Fixpoint scan_pos (fuel : nat) (m : RecentMap V) (pos i : Z) : option Z :=
  match fuel with
  | O => None
  | S f =>
    if low32 (default 0 (fst <$> index_ m !! i)) =? pos + 1 then Some i else scan_pos f m pos (next i)
  end.
Definition unindex (m : RecentMap V) (h pos : Z) : RecentMap V :=
  match scan_pos fuelS m pos (home h) with
  | None => m
  | Some hole =>
    match OpenHash.shift_back kSlotBits word_home fuelS (index_ m) hole hole with
    | Some (ix, hole) => mkRecent (delete hole ix) (keys_ m) (values_ m) (head_ m) (tail_ m)
    | None => m
    end
  end.

(** [while (index_[i] != 0) i = (i + 1) & (kSlots - 1);] *)
Fixpoint first_empty (fuel : nat) (ix : gmap Z (Z * unit)) (i : Z) : option Z :=
  match fuel with
  | O => None
  | S f => match ix !! i with None => Some i | Some _ => first_empty f ix (next i) end
  end.

(** [assign]: [true] for a new key.  The prefetch of the next eviction's slot has no effect on
    the state. *)
Definition assign (m : RecentMap V) (k : Z) (v : V) : bool * RecentMap V :=
  let h := hash k in
  match find_pos m k h with
  | Some pos => (false, mkRecent (index_ m) (keys_ m) (<[pos := v]> (values_ m)) (head_ m) (tail_ m))
  | None =>
    let m :=
      if u64 (tail_ m - head_ m) =? N then
        let oldest := Z.land (head_ m) (N - 1) in
        let m := unindex m (hash (key_at m oldest)) oldest in
        mkRecent (index_ m) (keys_ m) (values_ m) (u64 (head_ m + 1)) (tail_ m)
      else m in
    let pos := Z.land (tail_ m) (N - 1) in
    let ix := match first_empty fuelS (index_ m) (home h) with
              | Some i => <[i := (slot_word h pos, tt)]> (index_ m)
              | None => index_ m
              end in
    (true, mkRecent ix (<[pos := k]> (keys_ m)) (<[pos := v]> (values_ m)) (head_ m) (u64 (tail_ m + 1)))
  end.

(** ** The list of entries, oldest first *)

Definition pos_of (m : RecentMap V) (i : nat) : Z := (head_ m + Z.of_nat i) mod N.

Record recent_rep (m : RecentMap V) (l : list (Z * V)) : Prop := {
  rr_keys : Ring.ring_rep p (Ring.mkRing (head_ m) (tail_ m) (keys_ m)) l.*1;
  rr_values : Ring.ring_rep p (Ring.mkRing (head_ m) (tail_ m) (values_ m)) l.*2;
  rr_nodup : NoDup l.*1;
  rr_table : OpenHash.table_ok kSlotBits word_home (index_ m);
  rr_words : forall w, (exists x, index_ m !! x = Some (w, tt)) <->
    exists i k, l.*1 !! i = Some k /\ w = slot_word (hash k) (pos_of m i);
}.

Hypothesis Hp : 1 <= p <= 31.

Lemma Hb : 2 <= kSlotBits <= 64.
Proof. unfold kSlotBits. lia. Qed.
Lemma Hr : 0 <= p < 64.
Proof. lia. Qed.
Lemma N_bounds : 2 <= N <= 2 ^ 31.
Proof.
  unfold N. split; [change 2 with (2 ^ 1) at 1|]; apply Z.pow_le_mono_r; lia.
Qed.
Lemma kSlots_N : OpenHash.N kSlotBits = 2 * N.
Proof. unfold OpenHash.N, kSlotBits, N. rewrite Z.pow_add_r by lia. lia. Qed.

Lemma shiftr_slot x : 0 <= x < 2 ^ 64 -> OpenHash.slot_ok kSlotBits (Z.shiftr x (64 - kSlotBits)).
Proof.
  intros Hx. pose proof Hb. unfold OpenHash.slot_ok. rewrite Z.shiftr_div_pow2 by lia.
  assert (Hpow : 2 ^ 64 = OpenHash.N kSlotBits * 2 ^ (64 - kSlotBits))
    by (unfold OpenHash.N; rewrite <- Z.pow_add_r by lia; f_equal; lia).
  assert (0 < 2 ^ (64 - kSlotBits)) by (apply Z.pow_pos_nonneg; lia).
  split; [apply Z.div_pos; lia|]. apply Z.div_lt_upper_bound; lia.
Qed.

Lemma word_home_ok w : OpenHash.slot_ok kSlotBits (word_home w).
Proof. apply shiftr_slot, Z.mod_pos_bound. lia. Qed.

Lemma hash_range k : 0 <= hash k < 2 ^ 64.
Proof. apply Z.mod_pos_bound. lia. Qed.

(** The fields of an index word. *)
Lemma word_fields k pos : -1 <= pos < N -> let w := slot_word (hash k) pos in
  Z.shiftr w 32 = Z.shiftr (hash k) 32 /\ low32 w = pos + 1 /\ word_home w = home (hash k).
Proof.
  intros Hpos w. pose proof N_bounds. pose proof (hash_range k) as Hh.
  assert (Hlow : 0 <= pos + 1 < 2 ^ 32) by lia.
  assert (Hw : w = Z.shiftr (hash k) 32 * 2 ^ 32 + (pos + 1)) by (apply lor_pack; lia).
  assert (Hhi : 0 <= Z.shiftr (hash k) 32 < 2 ^ 32).
  { rewrite Z.shiftr_div_pow2 by lia. split; [apply Z.div_pos; lia|].
    apply Z.div_lt_upper_bound; [lia|]. change (2 ^ 32 * 2 ^ 32) with (2 ^ 64). lia. }
  split; [rewrite Hw; by apply pack_high|]. split; [unfold low32; rewrite Hw; by apply pack_low|].
  unfold word_home, home. unfold u64. rewrite Z.mod_small by (rewrite Hw; nia).
  pose proof Hb. unfold kSlotBits in *.
  replace (64 - (p + 1)) with (32 + (31 - p)) by lia.
  rewrite <- !Z.shiftr_shiftr by lia. f_equal. rewrite Hw. by apply pack_high.
Qed.

Lemma pos_range m i : 0 <= pos_of m i < N.
Proof. apply Z.mod_pos_bound. pose proof N_bounds. lia. Qed.

Lemma pos_inj m l i j k k' : recent_rep m l -> l.*1 !! i = Some k -> l.*1 !! j = Some k' ->
  pos_of m i = pos_of m j -> i = j.
Proof.
  intros Hrep Hi Hj E. pose proof (rr_keys m l Hrep) as (_ & _ & Hc & _).
  apply lookup_lt_Some in Hi, Hj. destruct (Nat.eq_dec i j) as [|Hne]; [done|].
  exfalso. apply (Ring.slot_ne p Hr (head_ m) (Z.of_nat i) (Z.of_nat j)); [lia..|exact E].
Qed.

Lemma key_at_pos m l i k : recent_rep m l -> l.*1 !! i = Some k -> key_at m (pos_of m i) = k.
Proof.
  intros Hrep Hi. pose proof (rr_keys m l Hrep) as (_ & _ & _ & Hl). unfold key_at.
  specialize (Hl i k Hi). simpl in Hl. unfold pos_of, N. unfold Ring.cap in Hl. by rewrite Hl.
Qed.

(** The index never fills: it has twice as many slots as the ring has keys. *)
Lemma index_room m l : recent_rep m l -> exists e, OpenHash.slot_ok kSlotBits e /\ index_ m !! e = None.
Proof.
  intros Hrep. apply (OpenHash.empty_exists kSlotBits Hb word_home); [apply (rr_table m l Hrep)|].
  pose proof (rr_keys m l Hrep) as (_ & _ & Hc & _). unfold Ring.cap in Hc. fold N in Hc.
  pose proof N_bounds. rewrite kSlots_N.
  enough (base.size (index_ m) <= length l.*1)%nat by lia.
  rewrite <- length_map_to_list, <- (length_fmap snd), <- (length_fmap fst).
  set (ws := imap (fun i k => slot_word (hash k) (pos_of m i)) l.*1).
  replace (length l.*1) with (length ws) by apply length_imap. apply submseteq_length, NoDup_submseteq.
  - apply (OpenHash.entries_nodup kSlotBits word_home), (rr_table m l Hrep).
  - intros w ((w' & []) & -> & Hin)%list_elem_of_fmap. apply list_elem_of_fmap in Hin as ((x & e) & Ee & Hin).
    simpl in *. subst e. apply elem_of_map_to_list in Hin.
    destruct (proj1 (rr_words m l Hrep w') (ex_intro _ x Hin)) as (i & k & Hk & ->).
    apply elem_of_lookup_imap. eauto.
Qed.

(** ** The loops are probes of the index for one word *)

Lemma find_loop_probe m k top t : (forall x w, index_ m !! x = Some (w, tt) ->
    (Z.shiftr w 32 = top /\ key_at m (low32 w - 1) = k) <-> w = t) ->
  forall fuel i, find_loop fuel m k top i =
    (fun r => match snd r with Some _ => Some (low32 t - 1) | None => None end) <$>
      OpenHash.probe kSlotBits fuel (index_ m) t i.
Proof.
  intros Hm. induction fuel as [|f IH]; intros i; [done|]. cbn [find_loop OpenHash.probe].
  destruct (index_ m !! i) as [[w []]|] eqn:E; [|done]. specialize (Hm i w E).
  destruct (Z.eqb_spec (Z.shiftr w 32) top) as [Et|Et]; cbn [negb].
  - destruct (Z.eqb_spec (key_at m (low32 w - 1)) k) as [Ek|Ek].
    + assert (w = t) as -> by by apply Hm. by rewrite Z.eqb_refl.
    + destruct (Z.eqb_spec w t) as [-> |]; [|apply IH]. destruct Hm as [_ Hm]. by destruct Hm.
  - destruct (Z.eqb_spec w t) as [-> |]; [|apply IH]. destruct Hm as [_ Hm]. by destruct Hm.
Qed.

Lemma scan_probe m pos t : (forall x w, index_ m !! x = Some (w, tt) -> low32 w = pos + 1 <-> w = t) ->
  0 <= pos -> forall fuel i i' u, OpenHash.probe kSlotBits fuel (index_ m) t i = Some (i', Some u) ->
  scan_pos fuel m pos i = Some i'.
Proof.
  intros Hm Hpos. induction fuel as [|f IH]; intros i i' u; [done|]. cbn [scan_pos OpenHash.probe].
  destruct (index_ m !! i) as [[w []]|] eqn:E; [|done]. specialize (Hm i w E). simpl.
  destruct (Z.eqb_spec w t) as [-> | Hne].
  - intros ?; simplify_eq. assert (low32 t = pos + 1) as -> by by apply Hm. by rewrite Z.eqb_refl.
  - intros Hpr. destruct (Z.eqb_spec (low32 w) (pos + 1)) as [Ew|]; [by apply Hm in Ew|].
    by apply (IH _ _ u).
Qed.

Lemma first_empty_probe ix t : (forall x u, ix !! x <> Some (t, u)) ->
  forall fuel i, first_empty fuel ix i = fst <$> OpenHash.probe kSlotBits fuel ix t i.
Proof.
  intros Hnew. induction fuel as [|f IH]; intros i; [done|]. cbn [first_empty OpenHash.probe].
  destruct (ix !! i) as [[w []]|] eqn:E; [|done].
  destruct (Z.eqb_spec w t) as [-> |]; [by apply Hnew in E | apply IH].
Qed.

(** Which words of the index belong to a key, and to a ring position. *)
Lemma word_of_key m l x w i k : recent_rep m l -> index_ m !! x = Some (w, tt) -> l.*1 !! i = Some k ->
  (Z.shiftr w 32 = Z.shiftr (hash k) 32 /\ key_at m (low32 w - 1) = k) <->
  w = slot_word (hash k) (pos_of m i).
Proof.
  intros Hrep Hx Hi. destruct (proj1 (rr_words m l Hrep w) (ex_intro _ x Hx)) as (j & k' & Hj & ->).
  destruct (word_fields k' (pos_of m j)) as (Ht & Hl & _); [pose proof (pos_range m j); lia|].
  rewrite Ht, Hl. replace (pos_of m j + 1 - 1) with (pos_of m j) by lia.
  rewrite (key_at_pos m l j k' Hrep Hj). split.
  - intros [_ ->]. assert (i = j) as -> by by apply (NoDup_lookup _ _ _ _ (rr_nodup m l Hrep) Hi Hj). done.
  - intros E. destruct (word_fields k (pos_of m i)) as (Ht' & Hl' & _); [pose proof (pos_range m i); lia|].
    rewrite E in Ht, Hl. assert (Epos : pos_of m i = pos_of m j) by lia.
    apply (pos_inj m l i j k k' Hrep Hi Hj) in Epos as ->. rewrite Hi in Hj. by simplify_eq.
Qed.

Lemma word_of_pos m l x w i k : recent_rep m l -> index_ m !! x = Some (w, tt) -> l.*1 !! i = Some k ->
  low32 w = pos_of m i + 1 <-> w = slot_word (hash k) (pos_of m i).
Proof.
  intros Hrep Hx Hi. destruct (proj1 (rr_words m l Hrep w) (ex_intro _ x Hx)) as (j & k' & Hj & ->).
  destruct (word_fields k' (pos_of m j)) as (_ & Hl & _); [pose proof (pos_range m j); lia|].
  destruct (word_fields k (pos_of m i)) as (_ & Hl' & _); [pose proof (pos_range m i); lia|].
  rewrite Hl. split; [|intros E; rewrite E in Hl; lia].
  intros Epos. assert (E : pos_of m i = pos_of m j) by lia.
  apply (pos_inj m l i j k k' Hrep Hi Hj) in E as ->. rewrite Hi in Hj. by simplify_eq.
Qed.

(** ** What each operation does to the list *)

Lemma find_pos_spec m l k : recent_rep m l ->
  (exists i, l.*1 !! i = Some k /\ find_pos m k (hash k) = Some (pos_of m i)) \/
  (k ∉ l.*1 /\ find_pos m k (hash k) = None).
Proof.
  intros Hrep. destruct (index_room m l Hrep) as (e & He & Hem). unfold find_pos.
  pose proof (OpenHash.probe_home kSlotBits Hb word_home word_home_ok (index_ m)) as Hprobe.
  destruct (decide (k ∈ l.*1)) as [Hin|Hni].
  - left. apply list_elem_of_lookup_1 in Hin as [i Hi]. exists i. split; [done|].
    set (t := slot_word (hash k) (pos_of m i)).
    destruct (word_fields k (pos_of m i)) as (_ & Hl & Hh); [pose proof (pos_range m i); lia|]. fold t in Hl, Hh.
    rewrite (find_loop_probe m k _ t) by (intros x w Hx; by apply (word_of_key m l x w i k)).
    destruct (Hprobe t e (rr_table m l Hrep) He Hem) as (i' & r & Hpr & _ & Hres).
    rewrite Hh in Hpr. change (OpenHash.fuelN kSlotBits) with fuelS in Hpr. rewrite Hpr. simpl.
    destruct r as [u|]; [simpl; f_equal; lia|].
    destruct Hres as (_ & Hno & _). exfalso.
    destruct (proj2 (rr_words m l Hrep t)) as [x Hx]; [by exists i, k|]. by apply Hno in Hx.
  - right. split; [done|]. set (t := slot_word (hash k) (-1)). pose proof N_bounds.
    destruct (word_fields k (-1)) as (_ & Hl & Hh); [lia|]. fold t in Hl, Hh.
    assert (Hno : forall x w, index_ m !! x = Some (w, tt) -> w <> t /\ key_at m (low32 w - 1) <> k).
    { intros x w Hx. destruct (proj1 (rr_words m l Hrep w) (ex_intro _ x Hx)) as (j & k' & Hj & ->).
      destruct (word_fields k' (pos_of m j)) as (_ & Hl' & _); [pose proof (pos_range m j); lia|].
      pose proof (pos_range m j). split; [intros E; rewrite E in Hl'; lia|].
      rewrite Hl'. replace (pos_of m j + 1 - 1) with (pos_of m j) by lia.
      rewrite (key_at_pos m l j k' Hrep Hj). intros ->. by apply Hni, (list_elem_of_lookup_2 _ j). }
    rewrite (find_loop_probe m k _ t).
    2: { intros x w Hx. destruct (Hno x w Hx). split; [by intros [_ ?] | done]. }
    destruct (Hprobe t e (rr_table m l Hrep) He Hem) as (i' & r & Hpr & _ & Hres).
    rewrite Hh in Hpr. change (OpenHash.fuelN kSlotBits) with fuelS in Hpr. rewrite Hpr. simpl.
    destruct r as [[]|]; [|done]. by destruct (Hno _ _ Hres).
Qed.

Lemma find_spec m l k : recent_rep m l -> find m k = (list_to_map l : gmap Z V) !! k.
Proof.
  intros Hrep. unfold find. pose proof (rr_nodup m l Hrep) as Hnd.
  destruct (find_pos_spec m l k Hrep) as [(i & Hi & ->) | [Hni ->]].
  - rewrite list_lookup_fmap in Hi. destruct (l !! i) as [[k' v]|] eqn:El; [|done]. simpl in Hi. simplify_eq.
    pose proof (rr_values m l Hrep) as (_ & _ & _ & Hv). simpl in Hv.
    assert (values_ m !! pos_of m i = Some v) as ->.
    { apply (Hv i v). by rewrite list_lookup_fmap, El. }
    symmetry. apply elem_of_list_to_map_1; [done|]. by apply (list_elem_of_lookup_2 _ i).
  - symmetry. by apply not_elem_of_list_to_map_1.
Qed.

Lemma u64_small i : 0 <= i < 2 ^ 64 -> u64 i = i.
Proof. apply Z.mod_small. Qed.

(** Overwriting the value of a key the map has. *)
Lemma overwrite_rep m l k v i : recent_rep m l -> l.*1 !! i = Some k ->
  recent_rep (mkRecent (index_ m) (keys_ m) (<[pos_of m i := v]> (values_ m)) (head_ m) (tail_ m))
    (<[i := (k, v)]> l).
Proof.
  intros [Hk Hv Hnd Ht Hw] Hi.
  assert (E1 : (<[i := (k, v)]> l).*1 = l.*1) by (rewrite list_fmap_insert; by apply list_insert_id).
  pose proof (lookup_lt_Some _ _ _ Hi) as Hlt. rewrite length_fmap in Hlt.
  pose proof N_bounds. pose proof Hk as (_ & _ & Hc & _). unfold Ring.cap in Hc. fold N in Hc.
  rewrite length_fmap in Hc. split; rewrite ?E1; try done.
  rewrite list_fmap_insert. simpl.
  pose proof (Ring.rep_set_pos p Hr _ _ (head_ m + Z.of_nat i) v Hv) as H1. simpl in H1.
  assert (E : u64 (head_ m + Z.of_nat i - head_ m) = Z.of_nat i)
    by (replace (head_ m + Z.of_nat i - head_ m) with (Z.of_nat i) by lia; apply u64_small; lia).
  rewrite E, length_fmap, Nat2Z.id in H1. specialize (H1 ltac:(lia)).
  unfold Ring.set_pos in H1. simpl in H1. rewrite Ring.slot_mod in H1 by lia. exact H1.
Qed.

(** The eviction of the oldest key. *)
Lemma evict_rep m k v l : recent_rep m ((k, v) :: l) ->
  let m1 := unindex m (hash (key_at m (Z.land (head_ m) (N - 1)))) (Z.land (head_ m) (N - 1)) in
  recent_rep (mkRecent (index_ m1) (keys_ m1) (values_ m1) (u64 (head_ m1 + 1)) (tail_ m1)) l.
Proof.
  intros Hrep. pose proof Hrep as [Hk Hv Hnd Ht Hw].
  assert (Ep : Z.land (head_ m) (N - 1) = pos_of m 0).
  { unfold pos_of, N. rewrite land_mask by lia. f_equal. lia. }
  rewrite Ep, (key_at_pos m _ 0 k Hrep eq_refl).
  destruct (index_room m _ Hrep) as (e & He & Hem).
  set (t := slot_word (hash k) (pos_of m 0)).
  destruct (word_fields k (pos_of m 0)) as (_ & Hl & Hh); [pose proof (pos_range m 0); lia|]. fold t in Hl, Hh.
  destruct (OpenHash.probe_home kSlotBits Hb word_home word_home_ok _ t e Ht He Hem)
    as (hole & r & Hpr & Hho & Hres). rewrite Hh in Hpr. change (OpenHash.fuelN kSlotBits) with fuelS in Hpr.
  destruct r as [[]|].
  2: { destruct Hres as (_ & Hno & _). exfalso.
       destruct (proj2 (Hw t)) as [x Hx]; [by exists O, k|]. by apply Hno in Hx. }
  assert (Hscan : scan_pos fuelS m (pos_of m 0) (home (hash k)) = Some hole).
  { apply (scan_probe m _ t) with (u := tt); [|by apply pos_range|done].
    intros x w Hx. by apply (word_of_pos m _ x w 0 k Hrep Hx). }
  destruct (OpenHash.shift_back_spec kSlotBits Hb word_home word_home_ok fuelS (index_ m) hole hole e)
    as (ix & h' & Eq & Ht' & Hent & _); [|done|done| |].
  { apply OpenHash.hole_start; [done | by eexists]. }
  { unfold fuelS. change kSlots with (OpenHash.N kSlotBits). pose proof (OpenHash.N_ge kSlotBits Hb). OpenHash.cyc. }
  unfold unindex. rewrite Hscan, Eq. cbn zeta. split; simpl.
  - apply (Ring.rep_drop_oldest p Hr _ k l.*1 Hk).
  - apply (Ring.rep_drop_oldest p Hr _ v l.*2 Hv).
  - by inversion Hnd.
  - done.
  - intros w. rewrite Hent. unfold OpenHash.ent.
    assert (Hpos : forall i, pos_of (mkRecent (delete h' ix) (keys_ m) (values_ m) (u64 (head_ m + 1)) (tail_ m)) i
                     = pos_of m (S i)).
    { intros i. unfold pos_of. simpl. unfold N. rewrite (Ring.u64_add_cap p Hr). f_equal. lia. }
    setoid_rewrite Hpos. split.
    + intros (x & Hne & Hx). destruct (proj1 (Hw w) (ex_intro _ x Hx)) as ([|i] & k' & Hi & ->).
      * simpl in Hi. simplify_eq. destruct Hne. by eapply (OpenHash.t_uniq _ _ _ Ht).
      * by exists i, k'.
    + intros (i & k' & Hi & ->). destruct (proj2 (Hw (slot_word (hash k') (pos_of m (S i))))) as [x Hx].
      { by exists (S i), k'. }
      exists x. split; [|done]. intros ->. rewrite Hres in Hx. injection Hx as Hx.
      assert (E : low32 (slot_word (hash k') (pos_of m (S i))) = pos_of m 0 + 1) by (rewrite <- Hx; done).
      destruct (word_fields k' (pos_of m (S i))) as (_ & Hl' & _); [pose proof (pos_range m (S i)); lia|].
      assert (E' : pos_of m 0 = pos_of m (S i)) by lia.
      by apply (pos_inj m _ 0 (S i) k k' Hrep) in E'.
Qed.

(** Appending a new key to a map with room. *)
Lemma append_rep m l k v : recent_rep m l -> k ∉ l.*1 -> Z.of_nat (length l) < N ->
  let pos := Z.land (tail_ m) (N - 1) in
  exists i, first_empty fuelS (index_ m) (home (hash k)) = Some i /\
  recent_rep (mkRecent (<[i := (slot_word (hash k) pos, tt)]> (index_ m)) (<[pos := k]> (keys_ m))
    (<[pos := v]> (values_ m)) (head_ m) (u64 (tail_ m + 1))) (l ++ [(k, v)]).
Proof.
  intros Hrep Hni Hroom pos. pose proof Hrep as [Hk Hv Hnd Ht Hw].
  destruct (index_room m _ Hrep) as (e & He & Hem). pose proof N_bounds.
  assert (Ep : pos = pos_of m (length l)).
  { unfold pos, pos_of, N. rewrite land_mask by lia. destruct Hk as (_ & Htl & _). simpl in Htl.
    rewrite Htl, u64_mod_pow by lia. by rewrite length_fmap. }
  set (t := slot_word (hash k) pos).
  destruct (word_fields k pos) as (_ & Hl & Hh); [rewrite Ep; pose proof (pos_range m (length l)); lia|].
  fold t in Hl, Hh.
  assert (Hnew : forall x u, index_ m !! x <> Some (t, u)).
  { intros x [] Hx. destruct (proj1 (Hw t) (ex_intro _ x Hx)) as (j & k' & Hj & E).
    destruct (word_fields k' (pos_of m j)) as (_ & Hl' & _); [pose proof (pos_range m j); lia|].
    rewrite E, Hl', Ep in Hl. apply lookup_lt_Some in Hj. rewrite length_fmap in Hj.
    apply (Ring.slot_ne p Hr (head_ m) (Z.of_nat j) (Z.of_nat (length l))).
    all: unfold pos_of, N in *; unfold Ring.cap; lia. }
  destruct (OpenHash.probe_home kSlotBits Hb word_home word_home_ok _ t e Ht He Hem)
    as (i & r & Hpr & Hio & Hres). rewrite Hh in Hpr. change (OpenHash.fuelN kSlotBits) with fuelS in Hpr.
  destruct r as [u|]; [by apply Hnew in Hres|]. destruct Hres as (Hie & _ & Hpath).
  exists i. split; [by rewrite (first_empty_probe _ t Hnew), Hpr|].
  assert (Eslot : Ring.slot p (tail_ m) = pos) by done.
  split; cbn [index_ keys_ values_ head_ tail_]; rewrite ?fmap_app.
  - pose proof (Ring.rep_push_room p Hr _ _ k Hk) as H1. rewrite length_fmap in H1. by apply H1.
  - pose proof (Ring.rep_push_room p Hr _ _ v Hv) as H1. rewrite length_fmap in H1. by apply H1.
  - apply NoDup_app. split; [done|]. split; [|apply NoDup_singleton]. set_solver.
  - by apply (OpenHash.insert_ok kSlotBits).
  - intros w. split.
    + intros [x Hx]. destruct (Z.eq_dec i x) as [<- | Hne].
      * rewrite lookup_insert_eq in Hx. injection Hx as <-. exists (length l), k.
        split; [|unfold t; by rewrite Ep]. rewrite lookup_app_r by (by rewrite length_fmap).
        by rewrite length_fmap, Nat.sub_diag.
      * rewrite lookup_insert_ne in Hx by done.
        destruct (proj1 (Hw w) (ex_intro _ x Hx)) as (j & k' & Hj & ->). exists j, k'.
        split; [by apply lookup_app_l_Some | done].
    + intros (j & k' & Hj & ->). apply lookup_app_Some in Hj as [Hj | [Hge Hj]].
      * destruct (proj2 (Hw (slot_word (hash k') (pos_of m j)))) as [x Hx]; [by exists j, k'|].
        exists x. rewrite lookup_insert_ne; [done|]. congruence.
      * apply list_lookup_singleton_Some in Hj as [Hj <-]. rewrite length_fmap in *.
        assert (j = length l) as -> by lia. exists i. rewrite lookup_insert_eq. unfold t. by rewrite Ep.
Qed.

(** ** Refinement *)

(** The specification: at most [N] entries, oldest first; a new key drops the oldest one. *)
Definition spec_assign (l : list (Z * V)) (k : Z) (v : V) : bool * list (Z * V) :=
  if bool_decide (k ∈ l.*1) then (false, (fun e => if fst e =? k then (k, v) else e) <$> l)
  else (true, (if Z.of_nat (length l) =? N then tail l else l) ++ [(k, v)]).

Lemma overwrite_map l k (v : V) i : NoDup l.*1 -> l.*1 !! i = Some k ->
  (fun e => if fst e =? k then (k, v) else e) <$> l = <[i := (k, v)]> l.
Proof.
  intros Hnd Hi. apply list_eq. intros j. rewrite list_lookup_fmap.
  destruct (Nat.eq_dec i j) as [<- | Hne].
  - rewrite list_lookup_fmap in Hi. destruct (l !! i) as [[k' w]|] eqn:E; [|done]. simpl in *. simplify_eq.
    rewrite Z.eqb_refl, list_lookup_insert_eq; [done|]. by apply lookup_lt_Some in E.
  - rewrite list_lookup_insert_ne by done. destruct (l !! j) as [[k' w]|] eqn:E; [|done]. simpl.
    destruct (Z.eqb_spec k' k) as [-> |]; [|done]. destruct Hne.
    apply (NoDup_lookup _ _ _ _ Hnd Hi). by rewrite list_lookup_fmap, E.
Qed.

Lemma assign_rep m l k v : recent_rep m l ->
  fst (assign m k v) = fst (spec_assign l k v) /\ recent_rep (snd (assign m k v)) (snd (spec_assign l k v)).
Proof.
  intros Hrep. unfold assign, spec_assign. pose proof (rr_nodup m l Hrep) as Hnd.
  destruct (find_pos_spec m l k Hrep) as [(i & Hi & ->) | [Hni ->]].
  - rewrite bool_decide_true by by apply (list_elem_of_lookup_2 _ i). split; [done|].
    cbn [snd]. rewrite (overwrite_map l k v i) by done. by apply overwrite_rep.
  - rewrite bool_decide_false by done. pose proof N_bounds.
    assert (Hlen : u64 (tail_ m - head_ m) = Z.of_nat (length l)).
    { pose proof (Ring.size_rep p Hr _ _ (rr_keys m l Hrep)) as Hs. by rewrite length_fmap in Hs. }
    pose proof (rr_keys m l Hrep) as (_ & _ & Hc & _). unfold Ring.cap in Hc. fold N in Hc.
    rewrite length_fmap in Hc. rewrite Hlen. destruct (Z.eqb_spec (Z.of_nat (length l)) N) as [Ef|Ef].
    + destruct l as [|[k0 v0] l]; [simpl in Ef; lia|]. pose proof (evict_rep m k0 v0 l Hrep) as Hev.
      cbn zeta in Hev. set (m1 := mkRecent _ _ _ _ _) in Hev |- *. cbn [tail fst snd].
      destruct (append_rep m1 l k v Hev) as (i & -> & Ha); [set_solver | simpl in Ef; lia|]. done.
    + destruct (append_rep m l k v Hrep Hni ltac:(lia)) as (i & -> & Ha). done.
Qed.

Lemma rep_new : recent_rep new_recent [].
Proof.
  split; simpl; try apply Ring.rep_empty; try lia.
  - constructor.
  - split; intros *; rewrite ?lookup_empty; try done.
  - intros w. split; [intros [x Hx]; by rewrite lookup_empty in Hx | by intros (? & ? & ? & _)].
Qed.

Fixpoint run_assign (l : list (Z * V)) (m : RecentMap V) : list bool * RecentMap V :=
  match l with
  | [] => ([], m)
  | (k, v) :: l => let '(b, m1) := assign m k v in let '(bs, m2) := run_assign l m1 in (b :: bs, m2)
  end.
Fixpoint run_spec (l : list (Z * V)) (g : list (Z * V)) : list bool * list (Z * V) :=
  match l with
  | [] => ([], g)
  | (k, v) :: l => let '(b, g1) := spec_assign g k v in let '(bs, g2) := run_spec l g1 in (b :: bs, g2)
  end.

Lemma run_rep l : forall m g, recent_rep m g ->
  fst (run_assign l m) = fst (run_spec l g) /\ recent_rep (snd (run_assign l m)) (snd (run_spec l g)).
Proof.
  induction l as [|[k v] l IH]; intros m g Hrep; [done|]. cbn [run_assign run_spec].
  pose proof (assign_rep m g k v Hrep) as [Hb1 Hr1].
  destruct (assign m k v) as [b m1], (spec_assign g k v) as [b' g1]. simpl in *. subst b'.
  specialize (IH m1 g1 Hr1) as [Hb2 Hr2].
  destruct (run_assign l m1) as [bs m2], (run_spec l g1) as [bs' g2]. simpl in *. by subst.
Qed.

(** [RecentMap] remembers exactly the [N] most recently inserted keys: after any sequence
    of [assign]s, each call reported a new key iff the key was not among them, and [find]
    returns the last value assigned to a remembered key and nothing for any other, through
    evictions, hash collisions and the wrap of the 64-bit counters. *)
Theorem recent_map_refines l k :
  fst (run_assign l new_recent) = fst (run_spec l []) /\
  find (snd (run_assign l new_recent)) k = (list_to_map (snd (run_spec l [])) : gmap Z V) !! k.
Proof.
  destruct (run_rep l new_recent [] rep_new) as [Hb1 Hr1]. split; [done|]. by apply find_spec.
Qed.
End recent.

Lemma recent_map_refines_witness :
  fst (run_assign 1 [(10, 1); (20, 2); (10, 3); (30, 4); (10, 5)] new_recent) =
    [true; true; false; true; true] /\
  find 1 (snd (run_assign 1 [(10, 1); (20, 2); (10, 3); (30, 4); (10, 5)] new_recent)) 20 = None.
Proof.
  destruct (recent_map_refines 1 ltac:(lia) [(10, 1); (20, 2); (10, 3); (30, 4); (10, 5)] 20) as [H1 H2].
  split; [rewrite H1 | rewrite H2]; reflexivity.
Defined.
End Recent.
