(* ===== verification/Interfaces.v ===== *)
(** * Interfaces: what the containers promise to the order manager

    The order manager is written and proved against these three classes; the
    instances at the end give them the containers of [Pool], [HashMap] and
    [RecentMap] with the capacities [oms.hpp] picks. *)

From Stdlib Require Import Sorted.
From S2P Require Import Prelude Types Pool HashMap RecentMap.

(** ** A bounded map of identifiers to 32-bit references *)

Class IdMapOps (M : Type) := {
  im_new : M;
  im_find : M -> Z -> option Z;
  im_assign : M -> Z -> Z -> bool * M;
  im_erase : M -> Z -> bool * M;
}.

Class IdMap (M : Type) `{!IdMapOps M} := {
  im_cap : Z;
  im_ok : M -> Prop;
  im_abs : M -> gmap Z Z;
  im_new_ok : im_ok im_new /\ im_abs im_new = ∅;
  im_find_spec m k : im_ok m -> im_find m k = im_abs m !! k;
  im_assign_spec m k v : im_ok m ->
    is_Some (im_abs m !! k) \/ Z.of_nat (size (im_abs m)) < im_cap ->
    exists m', im_assign m k v = (true, m') /\ im_ok m' /\ im_abs m' = <[k := v]> (im_abs m);
  im_erase_spec m k : im_ok m -> im_ok (snd (im_erase m k)) /\ im_abs (snd (im_erase m k)) = delete k (im_abs m);
}.

(** ** A pool of objects behind handles *)

Class ObjPoolOps (P T : Type) := {
  op_new : P;
  op_allocate : P -> Z * P;
  op_free : P -> Z -> P;
  op_get : P -> Z -> option T;
  op_set : P -> Z -> T -> P;
  op_is_live : P -> Z -> bool;
  op_handles : P -> list Z;
  op_warm_up : P -> P;
}.

Class ObjPool (P T : Type) `{!ObjPoolOps P T} := {
  op_cap : Z;
  op_ok : P -> Prop;
  op_abs : P -> gmap Z T;
  op_new_ok : op_ok op_new /\ op_abs op_new = ∅;
  op_range p h : op_ok p -> is_Some (op_abs p !! h) -> 0 <= h < op_cap;
  op_cap_range : 0 < op_cap < kNullHandle;
  op_get_spec p h : op_ok p -> is_Some (op_abs p !! h) -> op_get p h = op_abs p !! h;
  op_live_spec p h : op_ok p -> 0 <= h -> op_is_live p h = true <-> is_Some (op_abs p !! h);
  op_handles_spec p : op_ok p -> StronglySorted Z.lt (op_handles p) /\
    forall h, h ∈ op_handles p <-> is_Some (op_abs p !! h);
  op_set_spec p h x : op_ok p -> is_Some (op_abs p !! h) ->
    op_ok (op_set p h x) /\ op_abs (op_set p h x) = <[h := x]> (op_abs p);
  op_free_spec p h : op_ok p -> is_Some (op_abs p !! h) ->
    op_ok (op_free p h) /\ op_abs (op_free p h) = delete h (op_abs p);
  op_allocate_null p p' : op_ok p -> op_allocate p = (kNullHandle, p') ->
    p' = p /\ Z.of_nat (size (op_abs p)) = op_cap;
  op_allocate_some p h p' : op_ok p -> op_allocate p = (h, p') -> h <> kNullHandle ->
    0 <= h < op_cap /\ op_abs p !! h = None /\
    (forall x, op_ok (op_set p' h x) /\ op_abs (op_set p' h x) = <[h := x]> (op_abs p)) /\
    op_ok (op_free p' h) /\ op_abs (op_free p' h) = op_abs p;
  op_warm_up_spec p : op_ok p -> op_ok (op_warm_up p) /\ op_abs (op_warm_up p) = op_abs p;
}.

(** ** A bounded memory of keys *)

Class SeenOps (R : Type) := {
  sn_new : R;
  sn_assign : R -> Z -> bool * R;
}.

(** [sn_abs] lists the remembered keys, oldest first. *)
Class Seen (R : Type) `{!SeenOps R} := {
  sn_cap : Z;
  sn_rep : R -> list Z -> Prop;
  sn_cap_pos : 2 <= sn_cap;
  sn_new_rep : sn_rep sn_new [];
  sn_assign_spec r l k : sn_rep r l ->
    fst (sn_assign r k) = negb (bool_decide (k ∈ l)) /\
    sn_rep (snd (sn_assign r k))
      (if bool_decide (k ∈ l) then l
       else (if Z.of_nat (length l) =? sn_cap then tail l else l) ++ [k]);
}.

(** ** Instances *)

Section instances.

#[export] Instance hash_id_ops (p : Z) : IdMapOps (OpenHash.OpenHashMap Z) := {
  im_new := OpenHash.new_map;
  im_find := OpenHash.find p;
  im_assign := OpenHash.assign p;
  im_erase := OpenHash.erase p;
}.

#[export] Instance pool_ops (T : Type) (N : Z) : ObjPoolOps (Pool.Pool T) T := {
  op_new := Pool.new_pool;
  op_allocate := Pool.allocate N;
  op_free := Pool.free;
  op_get := Pool.get;
  op_set := Pool.set;
  op_is_live := Pool.is_live N;
  op_handles := Pool.handles N;
  op_warm_up := Pool.warm_up N;
}.

#[export] Instance recent_ops (p : Z) : SeenOps (Recent.RecentMap Z) := {
  sn_new := Recent.new_recent;
  sn_assign r k := Recent.assign p r k 1;
}.
End instances.

Definition hash_id_map (p : Z) (Hp : 3 <= p <= 64) : @IdMap _ (hash_id_ops p).
Proof.
  refine {| im_cap := OpenHash.kMaxSize p; im_ok := OpenHash.map_ok p;
            im_abs := OpenHash.to_map |}.
  - split; [by apply OpenHash.new_ok | apply OpenHash.new_to_map].
  - intros m k Hok. by apply OpenHash.find_ok.
  - intros m k v Hok Hroom. pose proof (OpenHash.assign_ok p Hp m k v Hok) as H. simpl.
    destruct (OpenHash.assign p m k v) as [b m'].
    assert (Ha : OpenHash.accepts p (OpenHash.to_map m) k = true).
    { unfold OpenHash.accepts. apply orb_true_iff. destruct Hroom; [left | right; lia].
      by apply bool_decide_eq_true. }
    rewrite Ha in H. destruct H as (-> & ? & ?). eauto.
  - intros m k Hok. pose proof (OpenHash.erase_ok p Hp m k Hok) as H. simpl.
    destruct (OpenHash.erase p m k) as [b m']. by destruct H as (_ & ? & ?).
Defined.

Definition obj_pool (T : Type) (N : Z) (HN : 0 < N < kNullHandle) : @ObjPool _ T (pool_ops T N).
Proof.
  refine {| op_cap := N; op_ok := Pool.pool_ok N; op_abs := Pool.pool_abs N |}.
  - split; [by apply Pool.ok_new|]. apply map_eq. intros h. rewrite Pool.abs_lookup.
    unfold Pool.get. simpl. rewrite !lookup_empty. zcase; done.
  - intros p h Hok Hs. pose proof (Pool.ok_abs_key N p h Hok Hs) as Hh. split; [done|].
    rewrite Pool.abs_lookup in Hs. destruct (Pool.is_live N p h) eqn:E; [|by destruct Hs].
    unfold Pool.is_live in E. lia.
  - done.
  - intros p h Hok Hs. simpl. rewrite Pool.abs_lookup in *. destruct (Pool.is_live N p h); [done|].
    by destruct Hs.
  - intros p h Hok Hh. by apply Pool.ok_live_abs.
  - intros p Hok. pose proof Hok as [[fl Hwf] _ _]. split; [apply Pool.handles_sorted, (Pool.wf_words N p fl Hwf)|].
    intros h. simpl. rewrite (Pool.elem_of_handles N p fl h Hwf). split.
    + intros [Hh Hl]. by apply Pool.ok_live_abs.
    + intros Hs. pose proof (Pool.ok_abs_key N p h Hok Hs). split; [done|]. by apply Pool.ok_live_abs.
  - intros p h x Hok Hs. pose proof (Pool.ok_abs_key N p h Hok Hs) as Hh.
    apply Pool.ok_live_abs in Hs; [|done..]. split; [by apply Pool.ok_set | by apply Pool.abs_set].
  - intros p h Hok Hs. pose proof (Pool.ok_abs_key N p h Hok Hs) as Hh.
    apply Pool.ok_live_abs in Hs; [|done..]. split; [by apply Pool.ok_free|].
    apply Pool.abs_free; [done|]. apply (Pool.ok_keys N p Hok).
  - intros p p' Hok Ha. by apply Pool.ok_exhausted.
  - intros p h p' Hok Ha Hne. by apply Pool.ok_allocate.
  - intros p Hok. by apply Pool.ok_warm_up.
Defined.

Definition recent_seen (p : Z) (Hp : 1 <= p <= 31) : @Seen _ (recent_ops p).
Proof.
  refine {| sn_cap := Recent.N p;
            sn_rep := fun r ks => exists l, Recent.recent_rep p r l /\ l.*1 = ks |}.
  - by apply Recent.N_bounds.
  - exists []. split; [by apply Recent.rep_new | done].
  - intros r ks k (l & Hrep & <-). destruct (Recent.assign_rep p Hp r l k 1 Hrep) as [Hb Hr]. simpl.
    unfold Recent.spec_assign in *. case_bool_decide as Hk; simpl in *.
    + split; [done|]. eexists. split; [done|]. rewrite <- list_fmap_compose.
      apply list_fmap_ext. intros i [k' v'] Hi. simpl. case_if; simpl; lia.
    + split; [done|]. eexists. split; [done|]. rewrite fmap_app, length_fmap. f_equal.
      case_if; [by destruct l | done].
Defined.
