(* ===== verification/Orders.v ===== *)
(** * Orders: the records of [order.hpp] and the messages the order manager reads

    One record per struct, its fields in the source's order with a short prefix;
    [FixedString] is its list of bytes.  Message headers keep the fields the order
    manager reads (instrument, venue time, receive time). *)

From S2P Require Import Prelude Types.

(** ** Order *)

Record Order := mkOrder {
  o_cl_ord_id : ClientOrderId;
  o_venue_order_id : list Z;
  o_arm : Z;
  o_instrument : InstrumentId;
  o_venue : VenueId;
  o_side : Side;
  o_type : OrderType;
  o_tif : TimeInForce;
  o_state : OrderState;
  o_reject_reason : RejectReason;
  o_flags : Z;
  o_cancel_attempts : Z;
  o_user_tag : Z;
  o_price : Price;
  o_qty : Qty;
  o_cum_qty : Qty;
  o_created : Timestamp;
  o_pending_cl_ord_id : ClientOrderId;
  o_pending_price : Price;
  o_pending_qty : Qty;
}.
#[export] Instance eta_order : Eta Order := fun o =>
  mkOrder (o_cl_ord_id o) (o_venue_order_id o) (o_arm o) (o_instrument o) (o_venue o) (o_side o)
    (o_type o) (o_tif o) (o_state o) (o_reject_reason o) (o_flags o) (o_cancel_attempts o)
    (o_user_tag o) (o_price o) (o_qty o) (o_cum_qty o) (o_created o) (o_pending_cl_ord_id o)
    (o_pending_price o) (o_pending_qty o).

(** [Order{}] *)
Definition no_order : Order :=
  mkOrder 0 [] 0 kInvalidInstrument kInvalidVenue Buy Limit Gtc PendingNew NoReason 0 0 0 0 0 0 0 0 0 0.

(** [Order::Flags] *)
Definition kPostOnly : Z := 1.
Definition kReduceOnly : Z := 2.
Definition kUnsolicitedCancel : Z := 4.
Definition kReconciled : Z := 8.
Definition kSeenInReconcile : Z := 16.
Definition kSynthetic : Z := 32.
Definition kReplaceOldCanceled : Z := 64.

Definition has (o : Order) (f : Z) : bool := negb (Z.land (o_flags o) f =? 0).
(** [o.flags |= f] and [o.flags &= ~f] on the [uint8]. *)
Definition add_flag (o : Order) (f : Z) : Order := o <| o_flags ::= fun x => Z.lor x f |>.
Definition drop_flag (o : Order) (f : Z) : Order := o <| o_flags ::= fun x => Z.land x (u8 (Z.lnot f)) |>.

Definition leaves_qty (o : Order) : Qty := i64 (o_qty o - o_cum_qty o).
Definition is_open (o : Order) : bool := negb (is_terminal (o_state o)).
Definition is_working (o : Order) : bool :=
  match o_state o with Live | PartiallyFilled => true | _ => false end.

Record OrderTimes := mkTimes { t_sent : Timestamp; t_venue_ack : Timestamp; t_local_ack : Timestamp }.
#[export] Instance eta_times : Eta OrderTimes := fun t => mkTimes (t_sent t) (t_venue_ack t) (t_local_ack t).

(** [NewOrderRequest], less the [float] value, which the order manager does not read. *)
Record NewOrderRequest := mkRequest {
  r_instrument : InstrumentId;
  r_venue : VenueId;
  r_account : VenueId;
  r_side : Side;
  r_type : OrderType;
  r_tif : TimeInForce;
  r_post_only : bool;
  r_reduce_only : bool;
  r_price : Price;
  r_qty : Qty;
  r_user_tag : Z;
}.
#[export] Instance eta_request : Eta NewOrderRequest := fun r =>
  mkRequest (r_instrument r) (r_venue r) (r_account r) (r_side r) (r_type r) (r_tif r) (r_post_only r)
    (r_reduce_only r) (r_price r) (r_qty r) (r_user_tag r).

(** The builder [NewOrderRequest::limit(...)] and its refinements. *)
Definition limit (inst : InstrumentId) (s : Side) (px : Price) (q : Qty) : NewOrderRequest :=
  mkRequest inst kInvalidVenue kInvalidVenue s Limit Gtc false false px q 0.
Definition post_only (r : NewOrderRequest) : NewOrderRequest :=
  r <| r_type := PostOnly |> <| r_post_only := true |>.
Definition reduce_only (r : NewOrderRequest) : NewOrderRequest := r <| r_reduce_only := true |>.
Definition ioc (r : NewOrderRequest) : NewOrderRequest := r <| r_tif := Ioc |>.
Definition tag (r : NewOrderRequest) (t : Z) : NewOrderRequest := r <| r_user_tag := t |>.
Definition account (r : NewOrderRequest) (v : VenueId) : NewOrderRequest := r <| r_account := v |>.

(** ** Messages from a venue *)

Record EventHeader := mkHdr { h_instrument : InstrumentId; h_exch_ts : Timestamp; h_recv_ts : Timestamp }.

Record OrderAckMsg := mkAck {
  ack_hdr : EventHeader;
  ack_cl_ord_id : ClientOrderId;
  ack_venue_order_id : list Z;
  ack_flags : Z;
}.
Definition kAmendedInPlace : Z := 1.

Record OrderRejectMsg := mkReject { rej_cl_ord_id : ClientOrderId; rej_reason : RejectReason }.
Record OrderCancelAckMsg := mkCancelAck { ca_cl_ord_id : ClientOrderId; ca_cum_qty : Qty }.
Record OrderCancelRejectMsg := mkCancelReject { cr_cl_ord_id : ClientOrderId; cr_reason : RejectReason }.
Record OrderFillMsg := mkFill {
  f_hdr : EventHeader;
  f_cl_ord_id : ClientOrderId;
  f_venue_order_id : list Z;
  f_exec_id : list Z;
  f_price : Price;
  f_qty : Qty;
  f_cum_qty : Qty;
  f_side : Side;
  f_flags : Z;
}.
Definition kReplayed : Z := 1.
Record OrderExpiredMsg := mkExpired { ex_cl_ord_id : ClientOrderId; ex_cum_qty : Qty }.
(** The [OpenOrder] kind of [ReconcileMsg]. *)
Record ReconcileMsg := mkReconcile {
  rc_cl_ord_id : ClientOrderId;
  rc_venue_order_id : list Z;
  rc_cum_qty : Qty;
}.

Definition str_empty (s : list Z) : bool := match s with [] => true | _ => false end.

(** [FixedString::hash]: FNV-1a over the bytes, in 64 bits. *)
Definition fnv_hash (s : list Z) : Z :=
  fold_left (fun h c => u64 (Z.lxor h (u8 c) * 1099511628211)) s 14695981039346656037.
