(* ===== verification/Oms.v ===== *)
(** * Oms: the order manager of [oms.hpp]

    State and every operation, translated one to one: the pool of open orders,
    the id table that names an open order or a recently terminal record, the ring
    of those records, the per-instrument accounting (open count, working quantity
    by side, best own price, slot buckets), the estimates of quantity a venue
    reported without an execution, and the execution ids seen.  The three
    containers with an interface are the parameters [M] (ids), [P] (pool) and [R]
    (execution memory); the ring and the buckets are used as they are.

    [OmsUpdate& u] is passed and returned; [Order& o] is a local copy written back
    with [put] where the source goes on to read the pool. *)

From S2P Require Import Prelude Types Orders RingBuffer BucketBits Interfaces.

(** ** Data *)

Definition kMaxOpenOrders : Z := 4096.
Definition kRecentlyTerminal : Z := 4096.
Definition kTerminalBits : Z := 12.
Definition kMaxSeq : Z := 4294967295.
Definition kTerminalRef : Z := 2 ^ 31.

Inductive OmsAction := ANone | AIgnored | ADuplicate | ACancelUnknown | ALateFill | AUnknownFill | AReconcileNeeded.
#[export] Instance OmsAction_eq_dec : EqDecision OmsAction.
Proof. solve_decision. Defined.

Record OmsUpdate := mkUpdate {
  u_order : Order;
  u_handle : Z;
  u_prev : OrderState;
  u_action : OmsAction;
  u_known : bool;
  u_changed : bool;
  u_terminal : bool;
  u_refused : RejectReason;
  u_fill_qty : Qty;
  u_fill_px : Price;
  u_missed_qty : Qty;
  u_replaced_cl_ord_id : ClientOrderId;
  u_unresolved_qty : Qty;
  u_corrected_qty : Qty;
  u_synthetic_px : Price;
  u_forgotten_qty : Qty;
  u_forgotten_id : ClientOrderId;
  u_times : OrderTimes;
  u_slot : Z;
}.
#[export] Instance eta_update : Eta OmsUpdate := fun u =>
  mkUpdate (u_order u) (u_handle u) (u_prev u) (u_action u) (u_known u) (u_changed u) (u_terminal u)
    (u_refused u) (u_fill_qty u) (u_fill_px u) (u_missed_qty u) (u_replaced_cl_ord_id u)
    (u_unresolved_qty u) (u_corrected_qty u) (u_synthetic_px u) (u_forgotten_qty u) (u_forgotten_id u)
    (u_times u) (u_slot u).

(** [OmsUpdate u;] *)
Definition new_update : OmsUpdate :=
  mkUpdate no_order kNullHandle PendingNew ANone false false false NoReason 0 0 0 0 0 0 0 0 0
    (mkTimes 0 0 0) kNullHandle.

Record OmsStats := mkStats {
  s_open : Z;
  s_submitted : Z;
  s_acked : Z;
  s_rejected : Z;
  s_canceled : Z;
  s_filled : Z;
  s_fills : Z;
  s_expired : Z;
  s_unknown_ids : Z;
  s_duplicates : Z;
  s_late_fills : Z;
  s_unsolicited_cancels : Z;
  s_missed_fills : Z;
  s_corrected_fills : Z;
  s_synthetic_pending : Z;
  s_synthetic_forgotten : Z;
  s_ack_timeouts : Z;
  s_reconcile_unresolved : Z;
}.
#[export] Instance eta_stats : Eta OmsStats := fun s =>
  mkStats (s_open s) (s_submitted s) (s_acked s) (s_rejected s) (s_canceled s) (s_filled s) (s_fills s)
    (s_expired s) (s_unknown_ids s) (s_duplicates s) (s_late_fills s) (s_unsolicited_cancels s)
    (s_missed_fills s) (s_corrected_fills s) (s_synthetic_pending s) (s_synthetic_forgotten s)
    (s_ack_timeouts s) (s_reconcile_unresolved s).
Definition no_stats : OmsStats := mkStats 0 0 0 0 0 0 0 0 0 0 0 0 0 0 0 0 0 0.

Inductive OrderClass := Open | RecentlyTerminal | Unknown.

Record Estimate := mkEstimate { e_qty : Qty; e_price : Price }.
#[export] Instance eta_estimate : Eta Estimate := fun e => mkEstimate (e_qty e) (e_price e).
Definition no_estimate : Estimate := mkEstimate 0 0.

Record TerminalRecord := mkTerminal {
  tr_cl_ord_id : ClientOrderId;
  tr_price : Price;
  tr_qty : Qty;
  tr_cum_qty : Qty;
  tr_instrument : InstrumentId;
  tr_venue : VenueId;
  tr_state : OrderState;
  tr_side : Side;
  tr_by_reconcile : bool;
  tr_estimate : Estimate;
}.
#[export] Instance eta_terminal : Eta TerminalRecord := fun r =>
  mkTerminal (tr_cl_ord_id r) (tr_price r) (tr_qty r) (tr_cum_qty r) (tr_instrument r) (tr_venue r)
    (tr_state r) (tr_side r) (tr_by_reconcile r) (tr_estimate r).

Record ReconcileScope := mkScope { sc_watermark : ClientOrderId; sc_bounded : bool }.
Record TimesSlot := mkTimesSlot { ts_t : OrderTimes; ts_replace_sent : Timestamp }.
#[export] Instance eta_times_slot : Eta TimesSlot := fun t => mkTimesSlot (ts_t t) (ts_replace_sent t).
Definition no_times : TimesSlot := mkTimesSlot (mkTimes 0 0 0) 0.

(** The index of a side in the two-element arrays. *)
Definition side_ix (s : Side) : Z := match s with Buy => 0 | Sell => 1 end.
Lemma side_ix_inj s s' : side_ix s = side_ix s' -> s = s'.
Proof. by destruct s, s'. Qed.

Record Oms (M P R : Type) := mkOms {
  epoch_ : Z;
  max_seq_ : Z;
  seq_ : Z;
  stats_ : OmsStats;
  pool_ : P;
  by_inst_ : Buckets.BucketBits;
  ids_ : M;
  recently_terminal_ : Ring.Ring TerminalRecord;
  exec_seen_ : R;
  best_own_ : gmap (Z * Z) Price;
  open_qty_ : gmap (Z * Z) Qty;
  open_per_inst_ : gmap Z Z;
  recon_scope_ : gmap Z ReconcileScope;
  times_ : gmap Z TimesSlot;
  estimates_ : gmap Z Estimate;
}.
Arguments mkOms {M P R}.
Arguments epoch_ {M P R}.
Arguments max_seq_ {M P R}.
Arguments seq_ {M P R}.
Arguments stats_ {M P R}.
Arguments pool_ {M P R}.
Arguments by_inst_ {M P R}.
Arguments ids_ {M P R}.
Arguments recently_terminal_ {M P R}.
Arguments exec_seen_ {M P R}.
Arguments best_own_ {M P R}.
Arguments open_qty_ {M P R}.
Arguments open_per_inst_ {M P R}.
Arguments recon_scope_ {M P R}.
Arguments times_ {M P R}.
Arguments estimates_ {M P R}.
#[export] Instance eta_oms M P R : Eta (Oms M P R) := fun s =>
  mkOms (epoch_ s) (max_seq_ s) (seq_ s) (stats_ s) (pool_ s) (by_inst_ s) (ids_ s) (recently_terminal_ s)
    (exec_seen_ s) (best_own_ s) (open_qty_ s) (open_per_inst_ s) (recon_scope_ s) (times_ s) (estimates_ s).

(** A 64-bit counter going up. *)
Definition inc (x : Z) : Z := u64 (x + 1).

Inductive result (A : Type) := Ok (x : A) | Err (r : RejectReason).
Arguments Ok {A}.
Arguments Err {A}.

(** ** Operations *)

Section oms.
Context {M P R : Type} `{!IdMapOps M} `{!ObjPoolOps P Order} `{!SeenOps R}.
Notation Oms := (Oms M P R).

Definition new_oms (epoch max_seq : Z) : Oms :=
  mkOms epoch max_seq 0 no_stats op_new Buckets.bb_empty im_new Ring.ring_empty sn_new ∅ ∅ ∅ ∅ ∅ ∅.

Definition stat (st : Oms) (f : OmsStats -> OmsStats) : Oms := st <| stats_ ::= f |>.

Definition next_cl_ord_id (st : Oms) : ClientOrderId * Oms :=
  if max_seq_ st <=? seq_ st then (0, st)
  else let seq := u64 (seq_ st + 1) in (make_cl_ord_id (epoch_ st) (u32 seq), st <| seq_ := seq |>).
Definition ids_left (st : Oms) : Z := u64 (max_seq_ st - seq_ st).

(** The arrays: zero-initialised, indexed by instrument (and side), or by pool slot. *)
Definition open_count (st : Oms) : Z := s_open (stats_ st).
Definition open_count_inst (st : Oms) (i : InstrumentId) : Z := default 0 (open_per_inst_ st !! i).
Definition open_qty (st : Oms) (i : InstrumentId) (s : Side) : Qty := default 0 (open_qty_ st !! (i, side_ix s)).
Definition best_own_px (st : Oms) (i : InstrumentId) (s : Side) : Price := default 0 (best_own_ st !! (i, side_ix s)).
Definition times_at (st : Oms) (h : Z) : TimesSlot := default no_times (times_ st !! h).
Definition estimate_at (st : Oms) (h : Z) : Estimate := default no_estimate (estimates_ st !! h).
Definition scope_at (st : Oms) (v : VenueId) : ReconcileScope := default (mkScope 0 false) (recon_scope_ st !! v).

Definition add_open_qty (st : Oms) (i : InstrumentId) (s : Side) (d : Z) : Oms :=
  st <| open_qty_ := <[(i, side_ix s) := i64 (open_qty st i s + d)]> (open_qty_ st) |>.
Definition set_best (st : Oms) (i : InstrumentId) (s : Side) (px : Price) : Oms :=
  st <| best_own_ := <[(i, side_ix s) := px]> (best_own_ st) |>.
Definition set_times (st : Oms) (h : Z) (t : TimesSlot) : Oms := st <| times_ := <[h := t]> (times_ st) |>.
Definition set_estimate (st : Oms) (h : Z) (e : Estimate) : Oms := st <| estimates_ := <[h := e]> (estimates_ st) |>.

(** [pool_.get(h)]; the assertion that [h] is live is an invariant of the callers. *)
Definition get (st : Oms) (h : Z) : Order := default no_order (op_get (pool_ st) h).
Definition put (st : Oms) (h : Z) (o : Order) : Oms := st <| pool_ := op_set (pool_ st) h o |>.
Definition is_live (st : Oms) (h : Z) : bool := op_is_live (pool_ st) h.

Definition inst_bucket (i : InstrumentId) : Z := Buckets.bucket kMaxInstruments i.

(** ** ids_ *)

Definition is_terminal_ref (v : Z) : bool := negb (Z.land v kTerminalRef =? 0).

Definition open_handle (st : Oms) (id : ClientOrderId) : Z :=
  match im_find (ids_ st) id with
  | None => kNullHandle
  | Some v => if is_terminal_ref v then kNullHandle else v
  end.
Definition add_open (st : Oms) (id : ClientOrderId) (h : Z) : bool * Oms :=
  let '(ok, m) := im_assign (ids_ st) id h in (ok, st <| ids_ := m |>).
Definition drop_open (st : Oms) (id : ClientOrderId) : Oms :=
  match im_find (ids_ st) id with
  | Some v => if negb (is_terminal_ref v) then st <| ids_ := snd (im_erase (ids_ st) id) |> else st
  | None => st
  end.

Definition terminal_ref (pos : Z) : Z := Z.lor kTerminalRef (u32 (Z.land pos (kRecentlyTerminal - 1))).
Definition terminal_pos (st : Oms) (id : ClientOrderId) : Z :=
  match im_find (ids_ st) id with
  | None => Ring.next_pos (recently_terminal_ st)
  | Some v =>
    if negb (is_terminal_ref v) then Ring.next_pos (recently_terminal_ st)
    else let head := Ring.head_pos (recently_terminal_ st) in
         u64 (head + Z.land (u64 (v - head)) (kRecentlyTerminal - 1))
  end.
Definition find_terminal (st : Oms) (id : ClientOrderId) : option TerminalRecord :=
  Ring.at_pos kTerminalBits (recently_terminal_ st) (terminal_pos st id).
(** The write through the pointer [find_terminal] returned. *)
Definition set_terminal (st : Oms) (id : ClientOrderId) (r : TerminalRecord) : Oms :=
  st <| recently_terminal_ := Ring.set_pos kTerminalBits (recently_terminal_ st) (terminal_pos st id) r |>.

(** What leaves the ring when a record is added to a full one. *)
Definition forget_oldest (u : OmsUpdate) (st : Oms) : OmsUpdate * Oms :=
  match Ring.front kTerminalBits (recently_terminal_ st) with
  | None => (u, st)
  | Some gone =>
    let '(u, st) :=
      if 0 <? e_qty (tr_estimate gone) then
        (u <| u_forgotten_qty := e_qty (tr_estimate gone) |> <| u_forgotten_id := tr_cl_ord_id gone |>,
         stat st (fun s => s <| s_synthetic_forgotten ::= inc |>
                             <| s_synthetic_pending ::= fun x => u32 (x - 1) |>))
      else (u, st) in
    match im_find (ids_ st) (tr_cl_ord_id gone) with
    | Some v =>
      if v =? terminal_ref (Ring.head_pos (recently_terminal_ st))
      then (u, st <| ids_ := snd (im_erase (ids_ st) (tr_cl_ord_id gone)) |>) else (u, st)
    | None => (u, st)
    end
  end.

Definition remember_terminal (r : TerminalRecord) (u : OmsUpdate) (st : Oms) : OmsUpdate * Oms :=
  let '(u, st) :=
    if Ring.full kTerminalBits (recently_terminal_ st) then forget_oldest u st else (u, st) in
  let st := st <| ids_ := snd (im_assign (ids_ st) (tr_cl_ord_id r)
                                 (terminal_ref (Ring.next_pos (recently_terminal_ st)))) |> in
  (u, st <| recently_terminal_ := Ring.push kTerminalBits (recently_terminal_ st) r |>).

Definition lookup (id : ClientOrderId) (u : OmsUpdate) (st : Oms) : Z * OmsUpdate :=
  match im_find (ids_ st) id with
  | None => (kNullHandle, u)
  | Some v =>
    if negb (is_terminal_ref v) then (v, u <| u_known := true |> <| u_handle := v |>)
    else
      match find_terminal st id with
      | Some r =>
        let o := (u_order u) <| o_cl_ord_id := tr_cl_ord_id r |> <| o_instrument := tr_instrument r |>
                   <| o_venue := tr_venue r |> <| o_side := tr_side r |> <| o_state := tr_state r |>
                   <| o_price := tr_price r |> <| o_qty := tr_qty r |> <| o_cum_qty := tr_cum_qty r |> in
        (kNullHandle,
         u <| u_known := true |>
           <| u_order := if tr_by_reconcile r then add_flag o kReconciled else o |>)
      | None => (kNullHandle, u)
      end
  end.

Definition finish_update (u : OmsUpdate) (h : Z) (o : Order) (st : Oms) : OmsUpdate :=
  u <| u_order := o |> <| u_handle := h |> <| u_times := ts_t (times_at st h) |> <| u_slot := h |>.

(** ** Best own price *)

Definition best_step (st : Oms) (i : InstrumentId) (s : Side) (best : Price) (idx : Z) : Price :=
  let o := get st idx in
  if negb (bool_decide (o_side o = s)) || negb (o_instrument o =? i) then best
  else if (best =? 0) || better s (o_price o) best then o_price o else best.
Definition recompute_best_own (st : Oms) (i : InstrumentId) (s : Side) : Oms :=
  set_best st i s
    (fold_left (best_step st i s) (Buckets.slots kMaxOpenOrders (by_inst_ st) (inst_bucket i)) 0).

(** ** Estimates *)

Definition note_synthetic (st : Oms) (h : Z) (q : Qty) (px : Price) : Oms :=
  let e := estimate_at st h in
  let st := if negb (0 <? e_qty e) then stat st (fun s => s <| s_synthetic_pending ::= fun x => u32 (x + 1) |>)
            else st in
  set_estimate st h (mkEstimate (i64 (e_qty e + q)) px).

Definition absorb_cum (h : Z) (o : Order) (reported : Qty) (u : OmsUpdate) (st : Oms) :
  Order * OmsUpdate * Oms :=
  let cum := if o_qty o <? reported then o_qty o else reported in
  if cum <=? o_cum_qty o then (o, u, st)
  else
    let diff := i64 (cum - o_cum_qty o) in
    let st := add_open_qty st (o_instrument o) (o_side o) (- diff) in
    let o := o <| o_cum_qty := cum |> in
    let st := put st h o in
    let u := u <| u_missed_qty ::= fun q => i64 (q + diff) |> <| u_changed := true |> in
    let st := stat st (fun s => s <| s_missed_fills ::= inc |>) in
    (o, u, note_synthetic st h diff (o_price o)).

(** The estimate [take_synthetic] works on: of the open order, else of the terminal record. *)
Definition the_estimate (st : Oms) (h : Z) (id : ClientOrderId) : option Estimate :=
  if handle_valid h then Some (estimate_at st h)
  else match find_terminal st id with Some r => Some (tr_estimate r) | None => None end.
Definition set_the_estimate (st : Oms) (h : Z) (id : ClientOrderId) (e : Estimate) : Oms :=
  if handle_valid h then set_estimate st h e
  else match find_terminal st id with
       | Some r => set_terminal st id (r <| tr_estimate := e |>) | None => st end.

Definition take_synthetic (h : Z) (id : ClientOrderId) (q : Qty) (u : OmsUpdate) (st : Oms) : OmsUpdate * Oms :=
  match the_estimate st h id with
  | None => (u, st)
  | Some e =>
    if negb (0 <? e_qty e) then (u, st)
    else
      let c := if q <? e_qty e then q else e_qty e in
      let u := u <| u_corrected_qty := c |> <| u_synthetic_px := e_price e |> in
      let left := i64 (e_qty e - c) in
      let st := stat st (fun s => s <| s_corrected_fills ::= inc |>) in
      if negb (0 <? left) then
        (u, stat (set_the_estimate st h id no_estimate)
              (fun s => s <| s_synthetic_pending ::= fun x => u32 (x - 1) |>))
      else (u, set_the_estimate st h id (mkEstimate left (e_price e)))
  end.

(** ** The end of an order *)

Definition clear_pending (o : Order) (st : Oms) : Order * Oms :=
  let st := if cl_ord_id_valid (o_pending_cl_ord_id o) && negb (o_pending_cl_ord_id o =? o_cl_ord_id o)
            then drop_open st (o_pending_cl_ord_id o) else st in
  (drop_flag (o <| o_pending_cl_ord_id := 0 |> <| o_pending_price := 0 |> <| o_pending_qty := 0 |>)
     kReplaceOldCanceled, st).

Definition terminal_record (o : Order) (final : OrderState) (by_reconcile : bool) (e : Estimate) : TerminalRecord :=
  mkTerminal (o_cl_ord_id o) (o_price o) (o_qty o) (o_cum_qty o) (o_instrument o) (o_venue o) final
    (o_side o) by_reconcile e.

Definition terminate (u : OmsUpdate) (h : Z) (o : Order) (final : OrderState) (by_reconcile : bool) (st : Oms) :
  OmsUpdate * Oms :=
  let o := o <| o_state := final |> in
  let st := if bool_decide (final = Canceled) then stat st (fun s => s <| s_canceled ::= inc |>) else st in
  let st := stat st (fun s => s <| s_open ::= fun x => u32 (x - 1) |>) in
  let i := o_instrument o in
  let st := st <| open_per_inst_ := <[i := u32 (open_count_inst st i - 1)]> (open_per_inst_ st) |> in
  let st := add_open_qty st i (o_side o) (- leaves_qty o) in
  let st := if cl_ord_id_valid (o_pending_cl_ord_id o) && negb (o_pending_cl_ord_id o =? o_cl_ord_id o)
            then drop_open st (o_pending_cl_ord_id o) else st in
  let '(u, st) := remember_terminal (terminal_record o final by_reconcile (estimate_at st h)) u st in
  let st := set_estimate st h no_estimate in
  let u := u <| u_order := o |> <| u_handle := kNullHandle |> <| u_times := ts_t (times_at st h) |>
             <| u_slot := h |> <| u_changed := true |> <| u_terminal := true |> in
  let st := st <| by_inst_ := Buckets.clear kMaxOpenOrders (by_inst_ st) (inst_bucket i) h |> in
  let st := st <| pool_ := op_free (pool_ st) h |> in
  (u, if o_price o =? best_own_px st i (o_side o) then recompute_best_own st i (o_side o) else st).

Definition apply_replace (u : OmsUpdate) (h : Z) (o : Order) (rekey new_venue_order : bool) (st : Oms) :
  OmsUpdate * Order * Oms :=
  let i := o_instrument o in
  let s := o_side o in
  let st := add_open_qty st i s (- leaves_qty o) in
  let e := estimate_at st h in
  let '(u, st) :=
    if rekey && new_venue_order && (0 <? e_qty e) then
      let final := if o_qty o <=? o_cum_qty o then Filled else Canceled in
      let '(u, st) := remember_terminal (terminal_record o final false e) u st in
      (u, set_estimate st h no_estimate)
    else (u, st) in
  let '(o, st) :=
    if rekey then (o <| o_cl_ord_id := o_pending_cl_ord_id o |>, drop_open st (o_cl_ord_id o)) else (o, st) in
  let o := if new_venue_order then o <| o_cum_qty := 0 |> else o in
  let old_px := o_price o in
  let o := o <| o_price := o_pending_price o |> <| o_qty := o_pending_qty o |> in
  let o := if o_qty o <? o_cum_qty o then o <| o_cum_qty := o_qty o |> else o in
  let st := add_open_qty st i s (leaves_qty o) in
  let o := drop_flag (o <| o_pending_cl_ord_id := 0 |> <| o_pending_price := 0 |> <| o_pending_qty := 0 |>)
             kReplaceOldCanceled in
  let o := o <| o_state := if o_cum_qty o =? 0 then Live else PartiallyFilled |> in
  let st := put st h o in
  let best := best_own_px st i s in
  let st := if (best =? 0) || better s (o_price o) best then set_best st i s (o_price o)
            else if old_px =? best then recompute_best_own st i s else st in
  (u, o, st).

(** ** Outbound *)

Definition submit (req : NewOrderRequest) (id : ClientOrderId) (now : Timestamp) (st : Oms) : result Z * Oms :=
  if kMaxInstruments <=? r_instrument req then (Err InstrumentDisabled, st)
  else if handle_valid (open_handle st id) then (Err DuplicateId, st)
  else
    let '(h, pool) := op_allocate (pool_ st) in
    let st := st <| pool_ := pool |> in
    if negb (handle_valid h) then (Err PoolExhausted, st)
    else
      let '(ok, st) := add_open st id h in
      if negb ok then (Err PoolExhausted, st <| pool_ := op_free (pool_ st) h |>)
      else
        let i := r_instrument req in
        let st := st <| by_inst_ := Buckets.set kMaxOpenOrders (by_inst_ st) (inst_bucket i) h |> in
        let o := no_order <| o_cl_ord_id := id |> <| o_instrument := i |> <| o_venue := r_venue req |>
                   <| o_side := r_side req |> <| o_type := r_type req |> <| o_tif := r_tif req |>
                   <| o_flags := Z.lor (if r_post_only req then kPostOnly else 0)
                                       (if r_reduce_only req then kReduceOnly else 0) |>
                   <| o_state := PendingNew |> <| o_price := r_price req |> <| o_qty := r_qty req |>
                   <| o_created := now |> <| o_user_tag := r_user_tag req |> in
        let st := put st h o in
        let st := set_times st h (mkTimesSlot (mkTimes now 0 0) 0) in
        let st := set_estimate st h no_estimate in
        let st := stat st (fun s => s <| s_submitted ::= inc |> <| s_open ::= fun x => u32 (x + 1) |>) in
        let st := st <| open_per_inst_ := <[i := u32 (open_count_inst st i + 1)]> (open_per_inst_ st) |> in
        let st := add_open_qty st i (o_side o) (o_qty o) in
        let best := best_own_px st i (o_side o) in
        let st := if (best =? 0) || better (o_side o) (o_price o) best
                  then set_best st i (o_side o) (o_price o) else st in
        (Ok h, st).

Definition request_cancel (h : Z) (st : Oms) : result unit * Oms :=
  if negb (is_live st h) then (Err UnknownOrder, st)
  else
    let o := get st h in
    if negb (is_working o) then (Err InvalidState, st)
    else (Ok tt, put st h (o <| o_state := PendingCancel |>)).

Definition request_cancel_unacked (h : Z) (st : Oms) : result unit * Oms :=
  if negb (is_live st h) then (Err UnknownOrder, st)
  else
    let o := get st h in
    if negb (bool_decide (o_state o = PendingNew)) then (Err InvalidState, st)
    else (Ok tt, put st h (o <| o_state := PendingCancel |>)).

Definition request_replace (h : Z) (new_id : ClientOrderId) (px : Price) (q : Qty) (now : Timestamp) (st : Oms) :
  result unit * Oms :=
  if negb (is_live st h) then (Err UnknownOrder, st)
  else
    let o := get st h in
    if negb (is_working o) then (Err InvalidState, st)
    else
      let finish st :=
        let o := o <| o_pending_cl_ord_id := new_id |> <| o_pending_price := px |> <| o_pending_qty := q |>
                   <| o_state := PendingReplace |> in
        let st := put st h o in
        (Ok tt, set_times st h ((times_at st h) <| ts_replace_sent := now |>)) in
      if negb (new_id =? o_cl_ord_id o) then
        if handle_valid (open_handle st new_id) then (Err DuplicateId, st)
        else
          let '(ok, st) := add_open st new_id h in
          if negb ok then (Err PoolExhausted, st) else finish st
      else finish st.

(** ** Inbound *)

Definition on_ack (m : OrderAckMsg) (st : Oms) : OmsUpdate * Oms :=
  let '(h, u) := lookup (ack_cl_ord_id m) new_update st in
  if negb (handle_valid h) then
    if negb (u_known u) then
      (u <| u_action := ACancelUnknown |>, stat st (fun s => s <| s_unknown_ids ::= inc |>))
    else if has (u_order u) kReconciled then (u <| u_action := ACancelUnknown |>, st)
    else (u <| u_action := AIgnored |>, st)
  else
    let o := get st h in
    let u := u <| u_prev := o_state o |> in
    match o_state o with
    | PendingNew =>
      let o := o <| o_state := Live |> <| o_venue_order_id := ack_venue_order_id m |> in
      let st := put st h o in
      let st := stat st (fun s => s <| s_acked ::= inc |>) in
      let u := u <| u_changed := true |> in
      let t := times_at st h in
      let st := set_times st h
        (t <| ts_t := (ts_t t) <| t_venue_ack := h_exch_ts (ack_hdr m) |>
                             <| t_local_ack := h_recv_ts (ack_hdr m) |> |>) in
      (finish_update u h o st, st)
    | PendingReplace =>
      if ack_cl_ord_id m =? o_pending_cl_ord_id o then
        let old_id := o_cl_ord_id o in
        let rekey := negb (o_pending_cl_ord_id o =? o_cl_ord_id o) in
        let new_venue_order := rekey && (Z.land (ack_flags m) kAmendedInPlace =? 0) in
        let '(u, o, st) := apply_replace u h o rekey new_venue_order st in
        let u := if negb (o_cl_ord_id o =? old_id) then u <| u_replaced_cl_ord_id := old_id |> else u in
        let o := o <| o_venue_order_id := ack_venue_order_id m |> in
        let st := put st h o in
        let u := u <| u_changed := true |> in
        let t := times_at st h in
        let st := set_times st h
          (t <| ts_t := mkTimes (ts_replace_sent t) (h_exch_ts (ack_hdr m)) (h_recv_ts (ack_hdr m)) |>) in
        (finish_update u h o st, st)
      else (finish_update (u <| u_action := AIgnored |>) h o st, st)
    | _ =>
      let u := u <| u_action := AIgnored |> in
      let t := times_at st h in
      let st := if (ack_cl_ord_id m =? o_cl_ord_id o) && negb (ts_valid (t_venue_ack (ts_t t)))
                then set_times st h (t <| ts_t := (ts_t t) <| t_venue_ack := h_exch_ts (ack_hdr m) |> |>)
                else st in
      (finish_update u h o st, st)
    end.

Definition working_state (o : Order) : OrderState := if o_cum_qty o =? 0 then Live else PartiallyFilled.

Definition on_reject (m : OrderRejectMsg) (st : Oms) : OmsUpdate * Oms :=
  let '(h, u) := lookup (rej_cl_ord_id m) new_update st in
  if negb (handle_valid h) then (u <| u_action := AIgnored |>, st)
  else
    let o := get st h in
    let u := u <| u_prev := o_state o |> in
    if bool_decide (o_state o = PendingNew) then
      let o := o <| o_reject_reason := rej_reason m |> in
      let u := u <| u_refused := rej_reason m |> in
      terminate u h o Rejected false (stat st (fun s => s <| s_rejected ::= inc |>))
    else if bool_decide (o_state o = PendingReplace) && (rej_cl_ord_id m =? o_pending_cl_ord_id o) then
      let u := u <| u_refused := rej_reason m |> in
      if has o kReplaceOldCanceled then
        let '(o, st) := clear_pending o st in terminate u h o Canceled false st
      else
        let '(o, st) := clear_pending o st in
        let o := o <| o_state := working_state o |> in
        let st := put st h o in
        (finish_update (u <| u_changed := true |>) h o st, st)
    else (finish_update (u <| u_action := AIgnored |>) h o st, st).

Definition on_cancel_ack (m : OrderCancelAckMsg) (st : Oms) : OmsUpdate * Oms :=
  let '(h, u) := lookup (ca_cl_ord_id m) new_update st in
  if negb (handle_valid h) then (u <| u_action := AIgnored |>, st)
  else
    let o := get st h in
    let u := u <| u_prev := o_state o |> in
    let '(o, u, st) := absorb_cum h o (ca_cum_qty m) u st in
    if bool_decide (o_state o = PendingReplace) && (ca_cl_ord_id m =? o_cl_ord_id o) then
      let o := add_flag o kReplaceOldCanceled in
      let st := put st h o in
      (finish_update u h o st, st)
    else if o_qty o <=? o_cum_qty o then
      terminate u h o Filled false (stat st (fun s => s <| s_filled ::= inc |>))
    else
      let '(o, st) :=
        if negb (bool_decide (o_state o = PendingCancel)) then
          (add_flag o kUnsolicitedCancel, stat st (fun s => s <| s_unsolicited_cancels ::= inc |>))
        else (o, st) in
      terminate u h o Canceled false st.

Definition on_cancel_reject (m : OrderCancelRejectMsg) (st : Oms) : OmsUpdate * Oms :=
  let '(h, u) := lookup (cr_cl_ord_id m) new_update st in
  if negb (handle_valid h) then (u <| u_action := AIgnored |>, st)
  else
    let o := get st h in
    let u := u <| u_prev := o_state o |> in
    if negb (bool_decide (o_state o = PendingCancel)) then
      (finish_update (u <| u_action := AIgnored |>) h o st, st)
    else if bool_decide (cr_reason m = VenueUnknownOrder) then terminate u h o Canceled false st
    else
      let o := o <| o_state := working_state o |> <| o_cancel_attempts ::= fun x => u8 (x + 1) |> in
      let u := if 3 <? o_cancel_attempts o then u <| u_action := AReconcileNeeded |> else u in
      let st := put st h o in
      (finish_update (u <| u_changed := true |>) h o st, st).

Definition exec_key (m : OrderFillMsg) : Z :=
  Z.lxor (Z.lxor (fnv_hash (f_exec_id m)) (u64 (Z.shiftl (h_instrument (f_hdr m)) 1)))
         (u64 (side_ix (f_side m) * 11400714819323198485)).
Definition remember_exec (m : OrderFillMsg) (st : Oms) : bool * Oms :=
  let '(fresh, r) := sn_assign (exec_seen_ st) (exec_key m) in (fresh, st <| exec_seen_ := r |>).

Definition late_fill (m : OrderFillMsg) (u : OmsUpdate) (st : Oms) : OmsUpdate * Oms :=
  match find_terminal st (f_cl_ord_id m) with
  | None => (u, st)
  | Some r =>
    let u := u <| u_prev := tr_state r |> in
    let fresh := i64 (f_qty m - u_corrected_qty u) in
    let cum := if 0 <? f_cum_qty m then f_cum_qty m else i64 (tr_cum_qty r + fresh) in
    let cum := if tr_qty r <? cum then tr_qty r else cum in
    if cum <=? tr_cum_qty r then (u, st)
    else
      let completes := (tr_qty r <=? cum) &&
        (bool_decide (tr_state r = Canceled) || bool_decide (tr_state r = Expired)) in
      let r := r <| tr_cum_qty := cum |> <| tr_state ::= fun s => if completes then Filled else s |> in
      let st := if completes then stat st (fun s => s <| s_filled ::= inc |>) else st in
      let st := set_terminal st (f_cl_ord_id m) r in
      (u <| u_order := (u_order u) <| o_cum_qty := tr_cum_qty r |> <| o_state := tr_state r |> |>
         <| u_changed := true |>, st)
  end.

(** The part of [on_fill] that settles an estimate. *)
Definition settle_estimate (h : Z) (m : OrderFillMsg) (u : OmsUpdate) (st : Oms) : OmsUpdate * Oms :=
  let replayed := negb (Z.land (f_flags m) kReplayed =? 0) in
  if negb (s_synthetic_pending (stats_ st) =? 0) && u_known u then
    if negb replayed && (0 <? f_cum_qty m) then
      let booked := if handle_valid h then o_cum_qty (get st h) else o_cum_qty (u_order u) in
      let covered := i64 (booked - i64 (f_cum_qty m - f_qty m)) in
      let covered := if f_qty m <? covered then f_qty m else covered in
      if 0 <? covered then take_synthetic h (f_cl_ord_id m) covered u st else (u, st)
    else if replayed || negb (handle_valid h) then take_synthetic h (f_cl_ord_id m) (f_qty m) u st
    else (u, st)
  else (u, st).

(** The part of [on_fill] that moves an open order forward. *)
Definition fill_order (h : Z) (m : OrderFillMsg) (u : OmsUpdate) (st : Oms) : OmsUpdate * Oms :=
  let o := get st h in
  let u := u <| u_prev := o_state o |> in
  let before := o_cum_qty o in
  let fresh := i64 (f_qty m - u_corrected_qty u) in
  let cum := if 0 <? f_cum_qty m then f_cum_qty m else i64 (o_cum_qty o + fresh) in
  let cum := if cum <? before then before else cum in
  let cum := if o_qty o <? cum then o_qty o else cum in
  let st := add_open_qty st (o_instrument o) (o_side o) (- i64 (cum - before)) in
  let o := o <| o_cum_qty := cum |> in
  let o := if str_empty (o_venue_order_id o) then o <| o_venue_order_id := f_venue_order_id m |> else o in
  let st := put st h o in
  let u := u <| u_changed := true |> in
  if o_qty o <=? o_cum_qty o then
    terminate u h o Filled false (stat st (fun s => s <| s_filled ::= inc |>))
  else
    let o := match o_state o with Live | PendingNew => o <| o_state := PartiallyFilled |> | _ => o end in
    let st := put st h o in
    (finish_update u h o st, st).

Definition on_fill (m : OrderFillMsg) (st : Oms) : OmsUpdate * Oms :=
  let u := new_update <| u_fill_qty := f_qty m |> <| u_fill_px := f_price m |> in
  let '(seen, st) :=
    if negb (str_empty (f_exec_id m)) then
      let '(fresh, st) := remember_exec m st in (negb fresh, st)
    else (false, st) in
  if seen then (u <| u_action := ADuplicate |>, stat st (fun s => s <| s_duplicates ::= inc |>))
  else
    let '(h, u) := lookup (f_cl_ord_id m) u st in
    let '(u, st) := settle_estimate h m u st in
    let st := stat st (fun s => s <| s_fills ::= inc |>) in
    if negb (handle_valid h) then
      if u_known u then
        late_fill m (u <| u_action := ALateFill |>) (stat st (fun s => s <| s_late_fills ::= inc |>))
      else (u <| u_action := AUnknownFill |>, stat st (fun s => s <| s_unknown_ids ::= inc |>))
    else fill_order h m u st.

Definition on_expired (m : OrderExpiredMsg) (st : Oms) : OmsUpdate * Oms :=
  let '(h, u) := lookup (ex_cl_ord_id m) new_update st in
  if negb (handle_valid h) then (u <| u_action := AIgnored |>, st)
  else
    let o := get st h in
    let u := u <| u_prev := o_state o |> in
    let '(o, u, st) := absorb_cum h o (ex_cum_qty m) u st in
    if o_qty o <=? o_cum_qty o then
      terminate u h o Filled false (stat st (fun s => s <| s_filled ::= inc |>))
    else terminate u h o Expired false (stat st (fun s => s <| s_expired ::= inc |>)).

(** ** Reconciliation *)

Definition in_scope (o : Order) (v : VenueId) : bool := negb (venue_valid v) || (o_venue o =? v).

Definition reconcile_begin (v : VenueId) (sent_watermark : option ClientOrderId) (st : Oms) : Oms :=
  let sc := mkScope (default 0 sent_watermark) (bool_decide (is_Some sent_watermark)) in
  let st := st <| recon_scope_ := <[v := sc]> (recon_scope_ st) |> in
  fold_left (fun st h => let o := get st h in
                         if in_scope o v then put st h (drop_flag o kSeenInReconcile) else st)
    (op_handles (pool_ st)) st.

Definition reconcile_open_order (m : ReconcileMsg) (st : Oms) : OmsUpdate * Oms :=
  let '(h, u) := lookup (rc_cl_ord_id m) new_update st in
  if negb (handle_valid h) then
    (u <| u_action := ACancelUnknown |>, stat st (fun s => s <| s_unknown_ids ::= inc |>))
  else
    let o := get st h in
    let u := u <| u_prev := o_state o |> in
    let o := add_flag o (Z.lor kSeenInReconcile kReconciled) in
    let o := if negb (str_empty (o_venue_order_id o)) || negb (str_empty (rc_venue_order_id m))
             then o <| o_venue_order_id := rc_venue_order_id m |> else o in
    let st := put st h o in
    let '(o, u, st) := absorb_cum h o (rc_cum_qty m) u st in
    let '(o, u) :=
      if bool_decide (o_state o = PendingNew) then (o <| o_state := working_state o |>, u <| u_changed := true |>)
      else (o, u) in
    let st := put st h o in
    (finish_update u h o st, st).

(** The orders [reconcile_end] collects: in scope, unseen, and sent before the snapshot. *)
Definition unseen (st : Oms) (v : VenueId) : list Z :=
  let sc := scope_at st v in
  filter (fun h => let o := get st h in
    in_scope o v && negb (has o kSeenInReconcile) &&
    negb (sc_bounded sc && (sc_watermark sc <? o_cl_ord_id o)) = true) (op_handles (pool_ st)).

(** Ending one order the snapshot did not report; [f] is the caller's function, which may use
    the order manager. *)
Definition end_unseen (f : OmsUpdate -> Oms -> Oms) (st : Oms) (h : Z) : Oms :=
  if negb (is_live st h) then st
  else
    let o := get st h in
    let u := new_update <| u_prev := o_state o |> <| u_known := true |> in
    let o := add_flag o kReconciled in
    let '(u, st) :=
      if 0 <? leaves_qty o then
        (u <| u_unresolved_qty := leaves_qty o |>, stat st (fun s => s <| s_reconcile_unresolved ::= inc |>))
      else (u, st) in
    let '(u, st) := terminate u h o Canceled true st in
    f u st.

Definition reconcile_end (f : OmsUpdate -> Oms -> Oms) (v : VenueId) (st : Oms) : Oms :=
  fold_left (end_unseen f) (unseen st v) st.

(** ** Ack timeout *)

Definition stale (st : Oms) (now : Timestamp) (timeout : Duration) : list Z :=
  filter (fun h => let o := get st h in
    bool_decide (o_state o = PendingNew) && ts_valid (o_created o) &&
    negb (i64 (now - o_created o) <? timeout) = true) (op_handles (pool_ st)).

Definition sweep_pending (now : Timestamp) (timeout : Duration) (f : Z -> Order -> Oms -> Oms) (st : Oms) : Z * Oms :=
  if timeout <=? 0 then (0, st)
  else
    let hs := stale st now timeout in
    (Z.of_nat (length hs),
     fold_left (fun st h =>
       if negb (is_live st h) then st
       else let st := stat st (fun s => s <| s_ack_timeouts ::= inc |>) in f h (get st h) st) hs st).

(** ** Queries *)

Definition find (st : Oms) (id : ClientOrderId) : Z := open_handle st id.
Definition classify (st : Oms) (id : ClientOrderId) : OrderClass :=
  if handle_valid (open_handle st id) then Open
  else match find_terminal st id with Some _ => RecentlyTerminal | None => Unknown end.
(** The orders [for_each_open_order(f)] and [for_each_open_order(id, f)] visit. *)
Definition open_orders (st : Oms) : list (Z * Order) := (fun h => (h, get st h)) <$> op_handles (pool_ st).
Definition open_orders_of (st : Oms) (i : InstrumentId) : list (Z * Order) :=
  filter (fun e => o_instrument (snd e) = i)
    ((fun h => (h, get st h)) <$> Buckets.slots kMaxOpenOrders (by_inst_ st) (inst_bucket i)).
Definition warm_up (st : Oms) : Oms := st <| pool_ := op_warm_up (pool_ st) |>.
End oms.
