(* ===== verification/MapSum.v ===== *)
(** * MapSum: sums over finite maps

    The accounting of the order manager and of the position tracker keeps running
    totals of a quantity over a collection; these lemmas say how such a sum moves
    when one entry is added, changed or removed. *)

From S2P Require Import Prelude.

Section msum.
Context {K A : Type} `{Countable K}.
Implicit Types (m : gmap K A) (f g : K -> A -> Z).

Definition msum (f : K -> A -> Z) (m : gmap K A) : Z := map_fold (fun k x acc => f k x + acc) 0 m.

Lemma msum_empty f : msum f ∅ = 0.
Proof. apply map_fold_empty. Qed.

Lemma msum_insert f m k x : m !! k = None -> msum f (<[k := x]> m) = f k x + msum f m.
Proof.
  intros Hk. unfold msum. rewrite map_fold_insert_L; [done| |done].
  intros j1 j2 z1 z2 y _ _ _. lia.
Qed.

Lemma msum_delete f m k x : m !! k = Some x -> msum f (delete k m) = msum f m - f k x.
Proof.
  intros Hk. rewrite <- (insert_delete_id m k x Hk) at 2.
  rewrite msum_insert by apply lookup_delete_eq. lia.
Qed.

Lemma msum_update f m k x y : m !! k = Some x -> msum f (<[k := y]> m) = msum f m - f k x + f k y.
Proof.
  intros Hk. rewrite <- insert_delete_eq, msum_insert by apply lookup_delete_eq.
  rewrite (msum_delete f m k x Hk). lia.
Qed.

Lemma msum_ext f g m : (forall k x, m !! k = Some x -> f k x = g k x) -> msum f m = msum g m.
Proof.
  induction m as [|k x m Hk IH] using map_ind; intros E; [by rewrite !msum_empty|].
  rewrite !msum_insert by done. rewrite (E k x) by apply lookup_insert_eq. f_equal. apply IH.
  intros k' x' Hk'. apply E. rewrite lookup_insert_ne; [done|]. congruence.
Qed.

(** The summand changes at one key. *)
Lemma msum_change f g m k x : m !! k = Some x -> (forall k' x', k' <> k -> g k' x' = f k' x') ->
  msum g m = msum f m - f k x + g k x.
Proof.
  intros Hk Hfg. rewrite <- (insert_delete_id m k x Hk), !msum_insert by apply lookup_delete_eq.
  rewrite (msum_ext g f (delete k m)); [lia|]. intros k' x' Hk'. apply Hfg.
  intros ->. by rewrite lookup_delete_eq in Hk'.
Qed.

Lemma msum_size m : msum (fun _ _ => 1) m = Z.of_nat (size m).
Proof.
  induction m as [|k x m Hk IH] using map_ind; [done|].
  rewrite msum_insert, map_size_insert_None by done. lia.
Qed.

(** A sum of ones over the entries with a property counts them. *)
Lemma msum_count (Q : K * A -> Prop) `{!forall e, Decision (Q e)} m :
  msum (fun k x => if decide (Q (k, x)) then 1 else 0) m = Z.of_nat (size (filter Q m)).
Proof.
  induction m as [|k x m Hk IH] using map_ind; [done|]. rewrite msum_insert, IH by done.
  destruct (decide (Q (k, x))) as [Hq|Hq].
  - rewrite map_filter_insert_True, map_size_insert_None; [lia | | done]. apply map_lookup_filter_None. by left.
  - rewrite map_filter_insert_False, delete_id by done. lia.
Qed.

Lemma msum_nonneg f m : (forall k x, m !! k = Some x -> 0 <= f k x) -> 0 <= msum f m.
Proof.
  induction m as [|k x m Hk IH] using map_ind; intros Hf; [by rewrite msum_empty|].
  rewrite msum_insert by done. pose proof (Hf k x ltac:(apply lookup_insert_eq)).
  assert (0 <= msum f m); [|lia]. apply IH. intros k' x' Hk'. apply Hf.
  rewrite lookup_insert_ne; [done|]. congruence.
Qed.

Lemma msum_le f g m : (forall k x, m !! k = Some x -> f k x <= g k x) -> msum f m <= msum g m.
Proof.
  induction m as [|k x m Hk IH] using map_ind; intros E; [by rewrite !msum_empty|].
  rewrite !msum_insert by done. pose proof (E k x ltac:(apply lookup_insert_eq)).
  assert (msum f m <= msum g m); [|lia]. apply IH.
  intros k' x' Hk'. apply E. rewrite lookup_insert_ne; [done|]. congruence.
Qed.

(** A positive sum of non-negative terms has a positive term. *)
Lemma msum_pos f m k x : (forall k x, m !! k = Some x -> 0 <= f k x) -> m !! k = Some x ->
  0 < f k x -> 0 < msum f m.
Proof.
  intros Hf Hk Hpos. assert (f k x <= msum f m); [|lia].
  rewrite <- (insert_delete_id m k x Hk), msum_insert by apply lookup_delete_eq.
  assert (0 <= msum f (delete k m)); [|lia]. apply msum_nonneg.
  intros k' x' Hk'. apply Hf. by apply lookup_delete_Some in Hk' as [_ ?].
Qed.
End msum.

(** Sums over lists. *)
Definition lsum {A} (f : A -> Z) (l : list A) : Z := foldr (fun x acc => f x + acc) 0 l.

Lemma lsum_app {A} (f : A -> Z) l k : lsum f (l ++ k) = lsum f l + lsum f k.
Proof. induction l as [|x l IH]; simpl; [lia|]. unfold lsum in *. lia. Qed.

Lemma lsum_update {A} (f : A -> Z) l i x y : l !! i = Some x -> lsum f (<[i := y]> l) = lsum f l - f x + f y.
Proof.
  revert i. induction l as [|z l IH]; intros [|i] Hi; simplify_eq/=; [unfold lsum; simpl; lia|].
  unfold lsum in *. simpl. rewrite (IH i Hi). lia.
Qed.

Lemma lsum_nonneg {A} (f : A -> Z) l : (forall x, 0 <= f x) -> 0 <= lsum f l.
Proof. intros Hf. induction l as [|x l IH]; [done|]. unfold lsum in *. simpl. specialize (Hf x). lia. Qed.

Lemma lsum_delete {A} (f : A -> Z) l i x : l !! i = Some x -> lsum f (delete i l) = lsum f l - f x.
Proof.
  revert i. induction l as [|z l IH]; intros [|i] Hi; simplify_eq/=; [unfold lsum; simpl; lia|].
  unfold lsum in *. simpl. rewrite (IH i Hi). lia.
Qed.

Lemma lsum_count {A} (Q : A -> Prop) `{!forall e, Decision (Q e)} l :
  lsum (fun x => if decide (Q x) then 1 else 0) l = Z.of_nat (length (filter Q l)).
Proof.
  unfold lsum. induction l as [|x l IH]; [done|]. cbn [foldr]. rewrite IH, filter_cons. case_decide; cbn [length]; lia.
Qed.

Lemma lsum_ext {A} (f g : A -> Z) l : (forall x, f x = g x) -> lsum f l = lsum g l.
Proof. intros E. induction l as [|x l IH]; [done|]. unfold lsum in *. cbn [foldr]. by rewrite E, IH. Qed.

(** A sum whose summand changes at one element. *)
Lemma lsum_change {A} (f g : A -> Z) l i : NoDup l -> i ∈ l -> (forall j, j ∈ l -> j <> i -> g j = f j) ->
  lsum g l = lsum f l - f i + g i.
Proof.
  unfold lsum. induction 1 as [|x l Hx Hl IH]; intros Hi E; [by apply not_elem_of_nil in Hi|]. cbn [foldr].
  apply elem_of_cons in Hi as [-> |Hi].
  - assert (Eq : foldr (fun x acc => g x + acc) 0 l = foldr (fun x acc => f x + acc) 0 l); [|lia].
    clear IH Hl. induction l as [|y l IHl]; [done|]. cbn [foldr]. rewrite IHl.
    + rewrite (E y); [done | by do 2 constructor |]. intros ->. apply Hx. constructor.
    + intros H. apply Hx. by constructor.
    + intros j Hj. apply E. apply elem_of_cons in Hj as [-> |Hj]; [constructor|]. by do 2 constructor.
  - rewrite IH; [|done|intros j Hj; apply E; by constructor]. rewrite (E x); [lia | constructor |]. intros ->. done.
Qed.
