(* ===== verification/OmsInv.v ===== *)
(** * OmsInv: the invariant of the order manager

    Three groups of facts about the state of [Oms], each stated over the map of
    open orders and the fields it constrains, so that an update of another field
    leaves it alone:
    - [acct]: the open count, the per-instrument counts, the working quantity by
      side (modulo 2^64, as an [int64] accumulator keeps it) and the slot buckets
      agree with the open orders; [best_inv]: so does the best own price;
    - [ids_inv]: every id of the table names an open order that carries it, or the
      ring record of a terminal order with that id;
    - [syn_inv]: [synthetic_pending] counts the estimates outstanding.
    [strict] adds the best own price, which needs every price positive. *)

From Stdlib Require Import Sorted.
From S2P Require Import Prelude Types Orders MapSum RingBuffer BucketBits Interfaces Oms.

Definition on_side (i : InstrumentId) (s : Side) (o : Order) : bool :=
  (o_instrument o =? i) && bool_decide (o_side o = s).
Definition qty_term (i : InstrumentId) (s : Side) (_ : Z) (o : Order) : Z :=
  if on_side i s o then leaves_qty o else 0.
Definition inst_term (i : InstrumentId) (_ : Z) (o : Order) : Z := if o_instrument o =? i then 1 else 0.

Record order_ok (strict : Prop) (o : Order) : Prop := {
  oo_inst : 0 <= o_instrument o < kMaxInstruments;
  oo_open : is_terminal (o_state o) = false;
  oo_qty : 0 <= o_cum_qty o <= o_qty o /\ o_qty o <= i64_max;
  oo_pending : o_state o = PendingReplace ->
    o_pending_cl_ord_id o <> 0 /\ 0 <= o_pending_qty o <= i64_max;
  oo_none : o_state o <> PendingReplace -> o_pending_cl_ord_id o = 0;
  oo_price : strict -> 0 < o_price o /\ (o_state o = PendingReplace -> 0 < o_pending_price o);
}.

(** [px] is the best price of the open orders on a side, zero when there are none. *)
Definition is_best (m : gmap Z Order) (i : InstrumentId) (s : Side) (px : Price) : Prop :=
  (px = 0 /\ forall h o, m !! h = Some o -> on_side i s o = false) \/
  (0 < px /\ (exists h o, m !! h = Some o /\ on_side i s o = true /\ o_price o = px) /\
   forall h o, m !! h = Some o -> on_side i s o = true -> better s (o_price o) px = false).

Record acct (strict : Prop) (m : gmap Z Order) (bb : Buckets.BucketBits) (open : Z) (per : gmap Z Z)
    (q : gmap (Z * Z) Z) : Prop := {
  ac_orders : forall h o, m !! h = Some o -> order_ok strict o;
  ac_slots : forall h, is_Some (m !! h) -> 0 <= h < kMaxOpenOrders;
  ac_bb : Buckets.bb_ok kMaxOpenOrders bb;
  ac_mem : forall b h, 0 <= b < kMaxInstruments -> 0 <= h < kMaxOpenOrders ->
    Buckets.mem kMaxOpenOrders bb b h = true <-> exists o, m !! h = Some o /\ o_instrument o = b;
  ac_open : open = msum (fun _ _ => 1) m;
  ac_per : forall i, default 0 (per !! i) = msum (inst_term i) m;
  ac_qty : forall i s, default 0 (q !! (i, side_ix s)) = i64 (msum (qty_term i s) m);
}.

Definition best_inv (strict : Prop) (m : gmap Z Order) (best : gmap (Z * Z) Z) : Prop :=
  strict -> forall i s, is_best m i s (default 0 (best !! (i, side_ix s))).

(** Every id names an open order that carries it, or its record in the ring [l] from [head]. *)
Record ids_inv (m : gmap Z Order) (idm : gmap Z Z) (l : list TerminalRecord) (head : Z) : Prop := {
  id_own : forall h o, m !! h = Some o -> idm !! o_cl_ord_id o = Some h;
  id_pend : forall h o, m !! h = Some o -> o_state o = PendingReplace -> idm !! o_pending_cl_ord_id o = Some h;
  id_open : forall id v, idm !! id = Some v -> is_terminal_ref v = false ->
    exists o, m !! v = Some o /\
      (o_cl_ord_id o = id \/ o_state o = PendingReplace /\ o_pending_cl_ord_id o = id);
  id_term : forall id v, idm !! id = Some v -> is_terminal_ref v = true ->
    exists k r, l !! k = Some r /\ tr_cl_ord_id r = id /\ v = terminal_ref (head + Z.of_nat k);
}.

Definition held (e : Estimate) : Z := if 0 <? e_qty e then 1 else 0.
Definition slot_held (est : gmap Z Estimate) (h : Z) (_ : Order) : Z := held (default no_estimate (est !! h)).
Definition syn_inv (m : gmap Z Order) (est : gmap Z Estimate) (pending : Z) (l : list TerminalRecord) : Prop :=
  (forall h, 0 <= e_qty (default no_estimate (est !! h))) /\
  pending = msum (slot_held est) m + lsum (fun r => held (tr_estimate r)) l.

(** ** Bounds *)

Lemma msum_one_bound (m : gmap Z Order) : (forall h, is_Some (m !! h) -> 0 <= h < kMaxOpenOrders) ->
  0 <= msum (fun _ _ => 1) m <= kMaxOpenOrders.
Proof.
  intros Hs. rewrite msum_size. split; [lia|].
  assert (Hsub : dom m ⊆ (list_to_set (seqZ 0 kMaxOpenOrders) : gset Z)).
  { intros h Hh%elem_of_dom. apply Hs in Hh. rewrite elem_of_list_to_set, elem_of_seqZ. lia. }
  apply subseteq_size in Hsub. rewrite size_dom, size_list_to_set, length_seqZ in Hsub by apply NoDup_seqZ.
  unfold kMaxOpenOrders in *. lia.
Qed.

Lemma inst_term_bound i (m : gmap Z Order) : (forall h, is_Some (m !! h) -> 0 <= h < kMaxOpenOrders) ->
  0 <= msum (inst_term i) m <= kMaxOpenOrders.
Proof.
  intros Hs. split.
  - apply msum_nonneg. intros. unfold inst_term. case_if; lia.
  - etransitivity; [|apply (msum_one_bound m Hs)]. apply msum_le. intros. unfold inst_term. case_if; lia.
Qed.

Lemma u32_small x : 0 <= x <= 2 ^ 32 - 1 -> u32 x = x.
Proof. intros Hx. apply Z.mod_small. lia. Qed.

Lemma leaves_eq strict o : order_ok strict o -> leaves_qty o = o_qty o - o_cum_qty o.
Proof. intros Hok. destruct (oo_qty _ _ Hok). unfold leaves_qty. apply i64_id. width. Qed.

(** ** Best own price *)

Lemma on_side_iff i s o : on_side i s o = true <-> o_instrument o = i /\ o_side o = s.
Proof. unfold on_side. rewrite andb_true_iff, Z.eqb_eq, bool_decide_eq_true. done. Qed.

(** An entry that is on the side neither before nor after changes nothing. *)
Lemma is_best_insert_other m i s px h o' : on_side i s o' = false ->
  (forall o, m !! h = Some o -> on_side i s o = false) -> is_best m i s px -> is_best (<[h := o']> m) i s px.
Proof.
  intros Ho' Hold [[-> Hn] | (Hpos & (k & o & Hk & Hs & Hpx) & Hall)].
  - left. split; [done|]. intros k o. destruct (Z.eq_dec h k) as [<- |].
    + rewrite lookup_insert_eq. intros ?; by simplify_eq.
    + rewrite lookup_insert_ne by done. apply Hn.
  - right. split; [done|]. split.
    + exists k, o. split; [|done]. rewrite lookup_insert_ne; [done|]. intros ->. apply Hold in Hk. congruence.
    + intros k' o0. destruct (Z.eq_dec h k') as [<- |].
      * rewrite lookup_insert_eq. intros ?; simplify_eq. congruence.
      * rewrite lookup_insert_ne by done. apply Hall.
Qed.

(** An update that keeps the side and the price changes nothing. *)
Lemma is_best_same m i s px h o o' : m !! h = Some o -> on_side i s o' = on_side i s o ->
  o_price o' = o_price o -> is_best m i s px -> is_best (<[h := o']> m) i s px.
Proof.
  intros Hm Hs Hp [[-> Hn] | (Hpos & (k & o1 & Hk & Hs1 & Hpx) & Hall)].
  - left. split; [done|]. intros k o0. destruct (Z.eq_dec h k) as [<- |].
    + rewrite lookup_insert_eq. intros ?; simplify_eq. rewrite Hs. by apply (Hn h).
    + rewrite lookup_insert_ne by done. apply Hn.
  - right. split; [done|]. split.
    + destruct (Z.eq_dec h k) as [<- |].
      * exists h, o'. rewrite lookup_insert_eq. simplify_eq. by rewrite Hs, Hp.
      * exists k, o1. by rewrite lookup_insert_ne.
    + intros k' o0. destruct (Z.eq_dec h k') as [<- |].
      * rewrite lookup_insert_eq. intros ?; simplify_eq. rewrite Hs, Hp. by apply (Hall h).
      * rewrite lookup_insert_ne by done. apply Hall.
Qed.

(** [best.is_zero() || better(...)]: a price at or beyond the best becomes the best. *)
Lemma is_best_take m i s px h o' : on_side i s o' = true -> 0 < o_price o' -> is_best m i s px ->
  (px =? 0) || better s (o_price o') px = true -> is_best (<[h := o']> m) i s (o_price o').
Proof.
  intros Hs Hpos Hb Hcond. right. split; [done|]. split; [exists h, o'; by rewrite lookup_insert_eq|].
  intros k o. destruct (Z.eq_dec h k) as [<- |].
  - rewrite lookup_insert_eq. intros ? _; simplify_eq. apply better_irrefl.
  - rewrite lookup_insert_ne by done. intros Hk Hsk.
    destruct Hb as [[-> Hn] | (Hpx & _ & Hall)]; [by rewrite (Hn k o Hk) in Hsk|].
    specialize (Hall k o Hk Hsk). replace (px =? 0) with false in Hcond by lia. simpl in Hcond.
    destruct s; simpl in *; lia.
Qed.

(** Otherwise the best stands, if the entry was not the one that set it. *)
Lemma is_best_keep m i s px h o' : on_side i s o' = true -> is_best m i s px ->
  (px =? 0) || better s (o_price o') px = false ->
  (forall o, m !! h = Some o -> on_side i s o = true -> o_price o <> px) ->
  is_best (<[h := o']> m) i s px.
Proof.
  intros Hs Hb Hcond Hnot. destruct Hb as [[-> Hn] | (Hpx & (k & o & Hk & Hsk & Hp) & Hall)]; [done|].
  apply orb_false_iff in Hcond as [_ Hcond]. right. split; [done|]. split.
  - exists k, o. split; [|done]. rewrite lookup_insert_ne; [done|]. intros ->. by apply (Hnot o).
  - intros k' o0. destruct (Z.eq_dec h k') as [<- |].
    + rewrite lookup_insert_eq. intros ? _; by simplify_eq.
    + rewrite lookup_insert_ne by done. apply Hall.
Qed.

(** Removing an order that did not set the best. *)
Lemma is_best_delete m i s px h o : m !! h = Some o -> (on_side i s o = true -> o_price o <> px) ->
  is_best m i s px -> is_best (delete h m) i s px.
Proof.
  intros Hm Hnot [[-> Hn] | (Hpx & (k & o1 & Hk & Hsk & Hp) & Hall)].
  - left. split; [done|]. intros k o1 [_ Hk]%lookup_delete_Some. by apply (Hn k).
  - right. split; [done|]. split.
    + exists k, o1. split; [|done]. rewrite lookup_delete_ne; [done|].
      intros ->. simplify_eq. by apply Hnot.
    + intros k' o0 [_ Hk']%lookup_delete_Some. by apply (Hall k').
Qed.

(** ** How the accounting moves *)


Lemma side_key (i i' : Z) (s s' : Side) : (i, side_ix s) = (i', side_ix s') <-> i = i' /\ s = s'.
Proof. split; [intros E; simplify_eq; by destruct s, s' | by intros [-> ->]]. Qed.

(** The working quantity after [d] is added on one side. *)
Definition bump_qty (q : gmap (Z * Z) Z) (i : Z) (s : Side) (d : Z) : gmap (Z * Z) Z :=
  <[(i, side_ix s) := i64 (default 0 (q !! (i, side_ix s)) + d)]> q.

Lemma bump_qty_spec (m m' : gmap Z Order) q i s d :
  (forall i' s', default 0 (q !! (i', side_ix s')) = i64 (msum (qty_term i' s') m)) ->
  (forall i' s', msum (qty_term i' s') m' =
     msum (qty_term i' s') m + if (i =? i') && bool_decide (s = s') then d else 0) ->
  forall i' s', default 0 (bump_qty q i s d !! (i', side_ix s')) = i64 (msum (qty_term i' s') m').
Proof.
  intros Hq Hm i' s'. unfold bump_qty. rewrite Hm. destruct (decide (i = i' /\ s = s')) as [[-> ->] | Hne].
  - rewrite lookup_insert_eq, Z.eqb_refl, bool_decide_true by done. simpl. rewrite Hq.
    apply i64_proper. by rewrite i64_eq64.
  - rewrite lookup_insert_ne by (by rewrite side_key). rewrite Hq. f_equal.
    destruct (Z.eqb_spec i i'); [|simpl; lia]. rewrite bool_decide_false; [simpl; lia|]. naive_solver.
Qed.

Lemma qty_term_at i s o i' s' : on_side i s o = true ->
  on_side i' s' o = (i =? i') && bool_decide (s = s').
Proof. intros [<- <-]%on_side_iff. done. Qed.

(** A change that keeps an order's side and price keeps the best prices. *)
Lemma best_put strict m best h o o' : best_inv strict m best -> m !! h = Some o ->
  o_instrument o' = o_instrument o -> o_side o' = o_side o -> o_price o' = o_price o ->
  best_inv strict (<[h := o']> m) best.
Proof.
  intros Hb Hm Hi Hs Hp Hst i s. apply (is_best_same m i s _ h o); [done| |done|by apply Hb].
  unfold on_side. by rewrite Hi, Hs.
Qed.

Section moves.
Context (strict : Prop).
Notation order_ok := (order_ok strict).
Notation acct := (acct strict).

(** Changing an open order, keeping its instrument and side. *)
Lemma acct_change m bb open per q h o o' d :
  acct m bb open per q -> m !! h = Some o -> order_ok o' ->
  o_instrument o' = o_instrument o -> o_side o' = o_side o ->
  leaves_qty o' = leaves_qty o + d ->
  acct (<[h := o']> m) bb open per (bump_qty q (o_instrument o) (o_side o) d).
Proof.
  intros [Ho Hs Hbb Hmem Hop Hper Hq] Hm Hok' Hi Hsd Hd.
  assert (Hsome : forall k, is_Some (<[h := o']> m !! k) <-> is_Some (m !! k)).
  { intros k. destruct (Z.eq_dec h k) as [<- |]; [|by rewrite lookup_insert_ne].
    rewrite lookup_insert_eq, Hm. split; by eexists. }
  split; try done.
  - intros k o0. destruct (Z.eq_dec h k) as [<- |]; [rewrite lookup_insert_eq; intros ?; by simplify_eq|].
    rewrite lookup_insert_ne by done. apply Ho.
  - intros k Hk%Hsome. by apply Hs.
  - intros b k Hb0 Hk0. rewrite Hmem by done. destruct (Z.eq_dec h k) as [<- |]; [|by rewrite lookup_insert_ne].
    rewrite lookup_insert_eq, Hm. split; intros (x & ? & ?); simplify_eq; [exists o' | exists o]; split; congruence.
  - rewrite Hop, (msum_update _ m h o o' Hm). lia.
  - intros i. rewrite Hper, (msum_update _ m h o o' Hm). unfold inst_term. rewrite Hi. lia.
  - apply (bump_qty_spec m); [done|]. intros i' s'. rewrite (msum_update _ m h o o' Hm).
    assert (Hon : on_side i' s' o = (o_instrument o =? i') && bool_decide (o_side o = s')) by done.
    assert (Hon' : on_side i' s' o' = on_side i' s' o) by (unfold on_side; by rewrite Hi, Hsd).
    unfold qty_term. rewrite Hon', Hon. case_if; lia.
Qed.

(** ... with the same working quantity and price: only the order itself changes. *)
Lemma acct_put m bb open per q h o o' :
  acct m bb open per q -> m !! h = Some o -> order_ok o' ->
  o_instrument o' = o_instrument o -> o_side o' = o_side o ->
  leaves_qty o' = leaves_qty o -> acct (<[h := o']> m) bb open per q.
Proof.
  intros Hac Hm Hok' Hi Hsd Hl.
  pose proof (acct_change m bb open per q h o o' 0 Hac Hm Hok' Hi Hsd ltac:(lia)) as H.
  destruct H as [Ho Hs Hbb Hmem Hop Hper Hq].
  split; try done. intros i s. rewrite <- Hq. unfold bump_qty.
  destruct (decide ((o_instrument o, side_ix (o_side o)) = (i, side_ix s))) as [E|E].
  - rewrite E, lookup_insert_eq. simpl. rewrite Z.add_0_r, (ac_qty _ _ _ _ _ _ Hac). by rewrite i64_idem.
  - by rewrite lookup_insert_ne.
Qed.

(** An order that ends. *)
Lemma acct_remove m bb open per q h o :
  acct m bb open per q -> m !! h = Some o ->
  acct (delete h m) (Buckets.clear kMaxOpenOrders bb (inst_bucket (o_instrument o)) h) (u32 (open - 1))
    (<[o_instrument o := u32 (default 0 (per !! o_instrument o) - 1)]> per)
    (bump_qty q (o_instrument o) (o_side o) (- leaves_qty o)).
Proof.
  intros [Ho Hs Hbb Hmem Hop Hper Hq] Hm. pose proof (Ho h o Hm) as Hok.
  pose proof (oo_inst _ _ Hok) as Hi. pose proof (Hs h ltac:(by eexists)) as Hh.
  assert (Hbk : inst_bucket (o_instrument o) = o_instrument o).
  { unfold inst_bucket, Buckets.bucket, kMaxInstruments in *. change 256 with (2 ^ 8) in *.
    rewrite land_mask by lia. by apply Z.mod_small. }
  assert (Hs' : forall k, is_Some (delete h m !! k) -> 0 <= k < kMaxOpenOrders).
  { intros k [x [_ Hk]%lookup_delete_Some]. apply Hs. by eexists. }
  split; try done.
  - intros k o0 [_ Hk]%lookup_delete_Some. by apply (Ho k).
  - rewrite Hbk. apply Buckets.ok_clear; try done; unfold kMaxOpenOrders, kMaxInstruments in *; (lia || by vm_compute).
  - intros b k Hb0 Hk0. rewrite Hbk, Buckets.mem_clear by first [unfold kMaxOpenOrders in *; lia | by vm_compute].
    rewrite andb_true_iff, Hmem by done. split.
    + intros [(x & Hx & Hxi) Hne]. exists x. split; [|done]. rewrite lookup_delete_ne; [done|].
      intros <-. simplify_eq. rewrite !Z.eqb_refl in Hne. done.
    + intros (x & [Hne Hx]%lookup_delete_Some & Hxi). split; [eauto|].
      destruct (Z.eqb_spec h k); [congruence|]. by rewrite andb_false_r.
  - rewrite (msum_delete _ m h o Hm), Hop. apply u32_small.
    pose proof (msum_one_bound _ Hs'). rewrite (msum_delete _ m h o Hm) in *. unfold kMaxOpenOrders in *. lia.
  - intros i. rewrite (msum_delete _ m h o Hm). unfold inst_term at 2.
    destruct (Z.eqb_spec (o_instrument o) i) as [<- | Hne].
    + rewrite lookup_insert_eq. simpl. rewrite Hper. apply u32_small.
      pose proof (inst_term_bound (o_instrument o) _ Hs') as Hbd. rewrite (msum_delete _ m h o Hm) in Hbd.
      unfold inst_term at 2 4 in Hbd. rewrite Z.eqb_refl in Hbd. unfold kMaxOpenOrders in *. lia.
    + rewrite lookup_insert_ne by done. rewrite Hper. lia.
  - apply (bump_qty_spec m); [done|]. intros i' s'. rewrite (msum_delete _ m h o Hm).
    unfold qty_term at 2, on_side. case_if; lia.
Qed.

(** A new order. *)
Lemma acct_add m bb open per q h o :
  acct m bb open per q -> m !! h = None -> 0 <= h < kMaxOpenOrders -> order_ok o ->
  leaves_qty o = o_qty o ->
  acct (<[h := o]> m) (Buckets.set kMaxOpenOrders bb (inst_bucket (o_instrument o)) h) (u32 (open + 1))
    (<[o_instrument o := u32 (default 0 (per !! o_instrument o) + 1)]> per)
    (bump_qty q (o_instrument o) (o_side o) (o_qty o)).
Proof.
  intros [Ho Hs Hbb Hmem Hop Hper Hq] Hm Hh Hok Hl. pose proof (oo_inst _ _ Hok) as Hi.
  assert (Hbk : inst_bucket (o_instrument o) = o_instrument o).
  { unfold inst_bucket, Buckets.bucket, kMaxInstruments in *. change 256 with (2 ^ 8) in *.
    rewrite land_mask by lia. by apply Z.mod_small. }
  assert (Hs' : forall k, is_Some (<[h := o]> m !! k) -> 0 <= k < kMaxOpenOrders).
  { intros k. destruct (Z.eq_dec h k) as [<- |]; [done|]. rewrite lookup_insert_ne by done. apply Hs. }
  split; try done.
  - intros k o0. destruct (Z.eq_dec h k) as [<- |]; [rewrite lookup_insert_eq; intros ?; by simplify_eq|].
    rewrite lookup_insert_ne by done. apply Ho.
  - rewrite Hbk. apply Buckets.ok_set_bit; try done; unfold kMaxOpenOrders, kMaxInstruments in *; (lia || by vm_compute).
  - intros b k Hb0 Hk0. rewrite Hbk, Buckets.mem_set by first [unfold kMaxOpenOrders in *; lia | by vm_compute].
    rewrite orb_true_iff, Hmem by done. destruct (Z.eq_dec h k) as [<- | Hne].
    + rewrite lookup_insert_eq, Z.eqb_refl, andb_true_r. rewrite Hm. split.
      * intros [(x & ? & _) | E]; [done|]. exists o. split; [done|lia].
      * intros (x & ? & Hx). simplify_eq. right. lia.
    + rewrite lookup_insert_ne by done. replace (h =? k) with false by lia.
      rewrite andb_false_r. split; [by intros [?|?] | by left].
  - rewrite (msum_insert _ m h o Hm), Hop. rewrite Z.add_comm. apply u32_small.
    pose proof (msum_one_bound _ Hs'). rewrite (msum_insert _ m h o Hm) in *. unfold kMaxOpenOrders in *. lia.
  - intros i. rewrite (msum_insert _ m h o Hm). unfold inst_term at 1.
    destruct (Z.eqb_spec (o_instrument o) i) as [<- | Hne].
    + rewrite lookup_insert_eq. simpl. rewrite Hper, Z.add_comm. apply u32_small.
      pose proof (inst_term_bound (o_instrument o) _ Hs') as Hbd. rewrite (msum_insert _ m h o Hm) in Hbd.
      unfold inst_term at 1 3 in Hbd. rewrite Z.eqb_refl in Hbd. unfold kMaxOpenOrders in *. lia.
    + rewrite lookup_insert_ne by done. rewrite Hper. lia.
  - apply (bump_qty_spec m); [done|]. intros i' s'. rewrite (msum_insert _ m h o Hm).
    unfold qty_term at 1, on_side. rewrite Hl. case_if; lia.
Qed.
End moves.

(** ** References into the ring *)

Lemma slot_not_ref v : 0 <= v < 2 ^ 31 -> is_terminal_ref v = false.
Proof.
  intros Hv. unfold is_terminal_ref, kTerminalRef. apply negb_false_iff, Z.eqb_eq.
  apply Z.bits_inj'. intros n Hn. rewrite Z.land_spec, Z.testbit_0_l.
  destruct (Z.eq_dec n 31) as [-> |].
  - by rewrite (proj1 (Z.bounded_iff_bits_nonneg 31 v ltac:(lia) ltac:(lia)) ltac:(lia)) by lia.
  - rewrite Z.pow2_bits_false by done. by rewrite andb_false_r.
Qed.

Lemma terminal_ref_eq pos : terminal_ref pos = 2 ^ 31 + pos mod 4096.
Proof.
  unfold terminal_ref, kTerminalRef, kRecentlyTerminal. change (4096 - 1) with (2 ^ 12 - 1).
  rewrite land_mask by lia. change (2 ^ 12) with 4096.
  pose proof (Z.mod_pos_bound pos 4096 ltac:(lia)). unfold u32. rewrite Z.mod_small by lia.
  change (2 ^ 31) with (Z.shiftl 1 31). rewrite lor_pack by lia. rewrite Z.shiftl_mul_pow2 by lia. lia.
Qed.

Lemma ref_is_terminal pos : is_terminal_ref (terminal_ref pos) = true.
Proof.
  unfold is_terminal_ref. apply negb_true_iff, Z.eqb_neq. intros E.
  assert (Hb : Z.testbit (Z.land (terminal_ref pos) kTerminalRef) 31 = true).
  { rewrite Z.land_spec. unfold terminal_ref, kTerminalRef. rewrite Z.lor_spec.
    by rewrite Z.pow2_bits_true by lia. }
  by rewrite E, Z.testbit_0_l in Hb.
Qed.

Lemma terminal_ref_mod x y : x mod 4096 = y mod 4096 -> terminal_ref x = terminal_ref y.
Proof. intros E. by rewrite !terminal_ref_eq, E. Qed.

Lemma terminal_ref_u64 x : terminal_ref (u64 x) = terminal_ref x.
Proof. apply terminal_ref_mod. change 4096 with (2 ^ 12). apply u64_mod_pow. lia. Qed.

Lemma ring_bits : 0 <= kTerminalBits < 64.
Proof. unfold kTerminalBits. lia. Qed.

(** ** The ids through an order's life *)

Section idmoves.
Context (strict : Prop).
Notation order_ok := (order_ok strict).

Lemma id_slot m idm l head id v : ids_inv m idm l head ->
  (forall h, is_Some (m !! h) -> 0 <= h < kMaxOpenOrders) ->
  idm !! id = Some v -> is_Some (m !! v) -> is_terminal_ref v = false.
Proof. intros _ Hs _ Hv%Hs. apply slot_not_ref. unfold kMaxOpenOrders in *. lia. Qed.

(** A change that keeps the ids an order carries. *)
Lemma ids_put m idm l head h o o' : ids_inv m idm l head -> m !! h = Some o ->
  o_cl_ord_id o' = o_cl_ord_id o -> o_pending_cl_ord_id o' = o_pending_cl_ord_id o ->
  (o_state o' = PendingReplace <-> o_state o = PendingReplace) -> ids_inv (<[h := o']> m) idm l head.
Proof.
  intros [H1 H2 H3 H4] Hm Hid Hp Hst. split; try done.
  - intros k x. destruct (Z.eq_dec h k) as [<- |].
    + rewrite lookup_insert_eq. intros ?; simplify_eq. rewrite Hid. by apply H1.
    + rewrite lookup_insert_ne by done. apply H1.
  - intros k x. destruct (Z.eq_dec h k) as [<- |].
    + rewrite lookup_insert_eq. intros ? ?; simplify_eq. rewrite Hp. apply (H2 h o Hm). by apply Hst.
    + rewrite lookup_insert_ne by done. apply H2.
  - intros id v Hv Ht. destruct (H3 id v Hv Ht) as (x & Hx & Hc). destruct (Z.eq_dec h v) as [<- |].
    + exists o'. rewrite lookup_insert_eq. simplify_eq. split; [done|]. rewrite Hid, Hp, Hst. done.
    + exists x. by rewrite lookup_insert_ne.
Qed.

(** A new order under an id no open order carries. *)
Lemma ids_add m idm l head h o : ids_inv m idm l head -> m !! h = None -> 0 <= h < kMaxOpenOrders ->
  (forall v, idm !! o_cl_ord_id o = Some v -> is_terminal_ref v = true) -> o_state o <> PendingReplace ->
  (forall k, is_Some (m !! k) -> 0 <= k < kMaxOpenOrders) ->
  ids_inv (<[h := o]> m) (<[o_cl_ord_id o := h]> idm) l head.
Proof.
  intros [H1 H2 H3 H4] Hm Hh Hnew Hst Hs.
  assert (Hother : forall id k, idm !! id = Some k -> is_Some (m !! k) -> o_cl_ord_id o <> id).
  { intros id k Hid Hk <-. apply Hnew in Hid. rewrite slot_not_ref in Hid; [done|].
    apply Hs in Hk. unfold kMaxOpenOrders in *. lia. }
  split.
  - intros k x. destruct (Z.eq_dec h k) as [<- |].
    + rewrite lookup_insert_eq. intros ?; simplify_eq. by rewrite lookup_insert_eq.
    + rewrite lookup_insert_ne by done. intros Hk. rewrite lookup_insert_ne; [by apply H1|].
      apply (Hother _ k); [by apply H1 | by eexists].
  - intros k x. destruct (Z.eq_dec h k) as [<- |].
    + rewrite lookup_insert_eq. intros ? ?; by simplify_eq.
    + rewrite lookup_insert_ne by done. intros Hk Hx. rewrite lookup_insert_ne; [by apply H2|].
      apply (Hother _ k); [by apply H2 | by eexists].
  - intros id v. destruct (Z.eq_dec (o_cl_ord_id o) id) as [<- | Hne].
    + rewrite lookup_insert_eq. intros ? _; simplify_eq. exists o. rewrite lookup_insert_eq. eauto.
    + rewrite lookup_insert_ne by done. intros Hv Ht. destruct (H3 id v Hv Ht) as (x & Hx & Hc).
      exists x. rewrite lookup_insert_ne; [done|]. congruence.
  - intros id v. destruct (Z.eq_dec (o_cl_ord_id o) id) as [<- | Hne].
    + rewrite lookup_insert_eq. intros ? Ht; simplify_eq. rewrite slot_not_ref in Ht; [done|].
      unfold kMaxOpenOrders in *. lia.
    + rewrite lookup_insert_ne by done. apply H4.
Qed.

(** A replace request adds the new id. *)
Lemma ids_request m idm l head h o o' id : ids_inv m idm l head -> m !! h = Some o ->
  o_state o <> PendingReplace -> o_cl_ord_id o' = o_cl_ord_id o -> o_pending_cl_ord_id o' = id ->
  o_state o' = PendingReplace ->
  (id = o_cl_ord_id o \/ forall v, idm !! id = Some v -> is_terminal_ref v = true) ->
  (forall k, is_Some (m !! k) -> 0 <= k < kMaxOpenOrders) ->
  ids_inv (<[h := o']> m) (if id =? o_cl_ord_id o then idm else <[id := h]> idm) l head.
Proof.
  intros [H1 H2 H3 H4] Hm Hst Hid Hp Hst' Hnew Hs.
  pose proof (Hs h ltac:(by eexists)) as Hh.
  set (idm' := if id =? o_cl_ord_id o then idm else <[id := h]> idm).
  assert (Hat : idm' !! id = Some h).
  { unfold idm'. destruct (Z.eqb_spec id (o_cl_ord_id o)) as [-> |]; [by apply H1 | apply lookup_insert_eq]. }
  assert (Hkeep : forall k v, idm !! k = Some v -> is_terminal_ref v = false -> idm' !! k = Some v).
  { intros k v Hk Ht. unfold idm'. destruct (Z.eqb_spec id (o_cl_ord_id o)) as [|Hne]; [done|].
    destruct Hnew as [|Hnew]; [done|]. rewrite lookup_insert_ne; [done|].
    intros ->. apply Hnew in Hk. congruence. }
  assert (Hback : forall k v, idm' !! k = Some v -> k <> id -> idm !! k = Some v).
  { intros k v. unfold idm'. case_if; [done|]. intros Hk Hne. by rewrite lookup_insert_ne in Hk by done. }
  assert (Hslot : forall k x, m !! k = Some x -> is_terminal_ref k = false).
  { intros k x Hk. apply slot_not_ref. pose proof (Hs k ltac:(by eexists)). unfold kMaxOpenOrders in *. lia. }
  split.
  - intros k x. destruct (Z.eq_dec h k) as [<- |].
    + rewrite lookup_insert_eq. intros ?; simplify_eq. rewrite Hid. apply Hkeep; [by apply H1 | by eapply Hslot].
    + rewrite lookup_insert_ne by done. intros Hk. apply Hkeep; [by apply H1 | by eapply Hslot].
  - intros k x. destruct (Z.eq_dec h k) as [<- |].
    + rewrite lookup_insert_eq. intros ? ?; simplify_eq. done.
    + rewrite lookup_insert_ne by done. intros Hk Hx. apply Hkeep; [by apply H2 | by eapply Hslot].
  - intros k v Hk Ht. destruct (Z.eq_dec k id) as [-> | Hne].
    + rewrite Hat in Hk. simplify_eq. exists o'. rewrite lookup_insert_eq. eauto.
    + apply Hback in Hk; [|done]. destruct (H3 k v Hk Ht) as (x & Hx & Hc).
      destruct (Z.eq_dec h v) as [<- |].
      * exists o'. rewrite lookup_insert_eq. simplify_eq. split; [done|].
        left. destruct Hc as [? | [? _]]; congruence.
      * exists x. by rewrite lookup_insert_ne.
  - intros k v Hk Ht. destruct (Z.eq_dec k id) as [-> | Hne].
    + rewrite Hat in Hk. simplify_eq. rewrite (Hslot _ _ Hm) in Ht. done.
    + apply Hback in Hk; [|done]. by apply H4.
Qed.

(** The id a replace asked for, dropped when it is not the order's own. *)
Definition drop_pending (o : Order) (idm : gmap Z Z) : gmap Z Z :=
  if cl_ord_id_valid (o_pending_cl_ord_id o) && negb (o_pending_cl_ord_id o =? o_cl_ord_id o)
  then delete (o_pending_cl_ord_id o) idm else idm.

(** A replace refused: the order goes back to working under its own id. *)
Lemma ids_unpend m idm l head h o o' : ids_inv m idm l head -> m !! h = Some o -> order_ok o ->
  o_state o = PendingReplace -> o_cl_ord_id o' = o_cl_ord_id o -> o_state o' <> PendingReplace ->
  ids_inv (<[h := o']> m) (drop_pending o idm) l head.
Proof.
  intros [H1 H2 H3 H4] Hm Hok Hst Hid Hst'. destruct (oo_pending _ _ Hok Hst) as [Hpv _].
  assert (Hval : cl_ord_id_valid (o_pending_cl_ord_id o) = true) by (unfold cl_ord_id_valid; lia).
  unfold drop_pending. rewrite Hval. simpl. set (p := o_pending_cl_ord_id o) in *.
  pose proof (H2 h o Hm Hst) as Hp. fold p in Hp.
  assert (Hkeep : forall k x, m !! k = Some x -> forall id, idm !! id = Some k -> k <> h \/ id = o_cl_ord_id o ->
    (if negb (p =? o_cl_ord_id o) then delete p idm else idm) !! id = Some k).
  { intros k x Hk id Hidk Hc. destruct (Z.eqb_spec p (o_cl_ord_id o)) as [|Hne]; simpl; [done|].
    rewrite lookup_delete_ne; [done|]. intros <-. destruct Hc as [Hc | ->]; [|done]. congruence. }
  split.
  - intros k x. destruct (Z.eq_dec h k) as [<- |].
    + rewrite lookup_insert_eq. intros ?; simplify_eq. rewrite Hid. apply (Hkeep h o Hm); [by apply H1 | by right].
    + rewrite lookup_insert_ne by done. intros Hk. apply (Hkeep k x Hk); [by apply H1 | by left].
  - intros k x. destruct (Z.eq_dec h k) as [<- |].
    + rewrite lookup_insert_eq. intros ? ?; by simplify_eq.
    + rewrite lookup_insert_ne by done. intros Hk Hx. apply (Hkeep k x Hk); [by apply H2 | by left].
  - intros id v Hv Ht.
    assert (Hv' : idm !! id = Some v /\ (p = o_cl_ord_id o \/ id <> p)).
    { destruct (Z.eqb_spec p (o_cl_ord_id o)); simpl in Hv; [eauto|].
      apply lookup_delete_Some in Hv as [? ?]. eauto. }
    destruct Hv' as [Hv' Hnp]. destruct (H3 id v Hv' Ht) as (x & Hx & Hc). destruct (Z.eq_dec h v) as [<- |].
    + exists o'. rewrite lookup_insert_eq. simplify_eq. split; [done|]. left. rewrite Hid.
      destruct Hc as [? | [_ ?]]; [done|]. fold p in H. destruct Hnp; congruence.
    + exists x. by rewrite lookup_insert_ne.
  - intros id v Hv Ht. apply (H4 id v); [|done]. destruct (Z.eqb_spec p (o_cl_ord_id o)); simpl in Hv; [done|].
    by apply lookup_delete_Some in Hv as [_ ?].
Qed.
End idmoves.

(** ** A record joining the ring *)

(** The ids and the ring after a record joins it; [full] says the oldest one leaves. *)
Definition forget (idm : gmap Z Z) (l : list TerminalRecord) (head : Z) (full : bool) : gmap Z Z :=
  match l with
  | gone :: _ => if full && bool_decide (idm !! tr_cl_ord_id gone = Some (terminal_ref head))
                 then delete (tr_cl_ord_id gone) idm else idm
  | [] => idm
  end.
Definition ring_add (l : list TerminalRecord) (full : bool) (r : TerminalRecord) : list TerminalRecord :=
  (if full then tail l else l) ++ [r].
Definition head_after (head : Z) (full : bool) : Z := if full then u64 (head + 1) else head.

Lemma forget_sub idm l head full id v : forget idm l head full !! id = Some v -> idm !! id = Some v.
Proof.
  unfold forget. destruct l as [|gone l]; [done|]. case_if; [|done]. by intros [_ ?]%lookup_delete_Some.
Qed.

Lemma forget_keep idm l head full id v : idm !! id = Some v -> is_terminal_ref v = false ->
  forget idm l head full !! id = Some v.
Proof.
  intros Hid Ht. unfold forget. destruct l as [|gone l]; [done|].
  destruct (full && _) eqn:E; [|done]. apply andb_true_iff in E as [_ E%bool_decide_eq_true].
  rewrite lookup_delete_ne; [done|]. intros <-. rewrite Hid in E. simplify_eq.
  by rewrite ref_is_terminal in Ht.
Qed.

Lemma ring_add_last l full r : (full = true -> l <> []) ->
  exists k, ring_add l full r !! k = Some r /\
    forall head, terminal_ref (head_after head full + Z.of_nat k) = terminal_ref (head + Z.of_nat (length l)).
Proof.
  intros Hf. exists (length (if full then tail l else l)). unfold ring_add. split.
  - by rewrite lookup_app_r, Nat.sub_diag by done.
  - intros head. destruct full; [|done]. unfold head_after. destruct l as [|x l]; [by destruct Hf|]. simpl.
    apply terminal_ref_mod. change 4096 with (2 ^ 12). rewrite (Ring.u64_add_cap 12) by lia.
    unfold Ring.cap. f_equal. lia.
Qed.

(** The references that survive still lead to their records. *)
Lemma forget_refs idm l head full r id v :
  (forall id v, idm !! id = Some v -> is_terminal_ref v = true ->
     exists k r, l !! k = Some r /\ tr_cl_ord_id r = id /\ v = terminal_ref (head + Z.of_nat k)) ->
  forget idm l head full !! id = Some v -> is_terminal_ref v = true ->
  exists k r', ring_add l full r !! k = Some r' /\ tr_cl_ord_id r' = id /\
    v = terminal_ref (head_after head full + Z.of_nat k).
Proof.
  intros Hl Hv Ht. pose proof (forget_sub _ _ _ _ _ _ Hv) as Hv0.
  destruct (Hl id v Hv0 Ht) as (k & x & Hk & Hx & ->). unfold ring_add, head_after.
  destruct full; [|exists k, x; split; [by apply lookup_app_l_Some | done]].
  destruct l as [|gone l]; [done|]. destruct k as [|k].
  - exfalso. simpl in Hk. simplify_eq. unfold forget in Hv. rewrite Z.add_0_r in *.
    rewrite bool_decide_true in Hv by done. simpl in Hv. by rewrite lookup_delete_eq in Hv.
  - exists k, x. split; [by apply lookup_app_l_Some|]. split; [done|]. apply terminal_ref_mod.
    change 4096 with (2 ^ 12). rewrite (Ring.u64_add_cap 12) by lia. unfold Ring.cap. f_equal. lia.
Qed.

Section idends.
Context (strict : Prop).
Notation order_ok := (order_ok strict).

(** An order that ends: its own id names its record. *)
Lemma ids_end m idm l head full h o r : ids_inv m idm l head -> m !! h = Some o -> order_ok o ->
  (full = true -> l <> []) -> (forall k, is_Some (m !! k) -> 0 <= k < kMaxOpenOrders) ->
  tr_cl_ord_id r = o_cl_ord_id o ->
  ids_inv (delete h m)
    (<[o_cl_ord_id o := terminal_ref (head + Z.of_nat (length l))]> (forget (drop_pending o idm) l head full))
    (ring_add l full r) (head_after head full).
Proof.
  intros [H1 H2 H3 H4] Hm Hok Hf Hs Hr.
  assert (Hslot : forall k x, m !! k = Some x -> is_terminal_ref k = false).
  { intros k x Hk. apply slot_not_ref. pose proof (Hs k ltac:(by eexists)). unfold kMaxOpenOrders in *. lia. }
  pose proof (H1 h o Hm) as Hown.
  assert (Hpk : forall id k, idm !! id = Some k -> k <> h -> drop_pending o idm !! id = Some k).
  { intros id k Hid Hne. unfold drop_pending. destruct (_ && _) eqn:E; [|done].
    rewrite lookup_delete_ne; [done|]. intros <-. destruct (decide (o_state o = PendingReplace)) as [Hst|Hst].
    - rewrite (H2 h o Hm Hst) in Hid. congruence.
    - rewrite (oo_none _ _ Hok Hst) in E. done. }
  assert (Hps : forall id v, drop_pending o idm !! id = Some v -> idm !! id = Some v).
  { intros id v. unfold drop_pending. case_if; [|done]. by intros [_ ?]%lookup_delete_Some. }
  assert (Hkeep : forall k x id, k <> h -> m !! k = Some x -> idm !! id = Some k ->
    <[o_cl_ord_id o := terminal_ref (head + Z.of_nat (length l))]> (forget (drop_pending o idm) l head full) !! id = Some k).
  { intros k x id Hne Hk Hid. rewrite lookup_insert_ne by congruence.
    apply forget_keep; [by apply Hpk | by eapply Hslot]. }
  split.
  - intros k x [Hne Hk]%lookup_delete_Some. apply (Hkeep k x); [congruence|done|]. by apply H1.
  - intros k x [Hne Hk]%lookup_delete_Some Hx. apply (Hkeep k x); [congruence|done|]. by apply H2.
  - intros id v Hv Ht. apply lookup_insert_Some in Hv as [[<- <-] | [Hne Hv]]; [by rewrite ref_is_terminal in Ht|].
    pose proof (forget_sub _ _ _ _ _ _ Hv) as Hv1. pose proof (Hps _ _ Hv1) as Hv0.
    destruct (H3 id v Hv0 Ht) as (x & Hx & Hc). exists x. split; [|done].
    rewrite lookup_delete_ne; [done|]. intros <-. simplify_eq. destruct Hc as [? | [Hst Hp]]; [done|].
    destruct (oo_pending _ _ Hok Hst) as [Hpv _]. unfold drop_pending in Hv1.
    replace (cl_ord_id_valid (o_pending_cl_ord_id o)) with true in Hv1 by (unfold cl_ord_id_valid; lia).
    rewrite Hp in Hv1. replace (id =? o_cl_ord_id o) with false in Hv1 by lia. simpl in Hv1.
    by rewrite lookup_delete_eq in Hv1.
  - intros id v Hv Ht. apply lookup_insert_Some in Hv as [[<- <-] | [Hne Hv]].
    + destruct (ring_add_last l full r Hf) as (k & Hk & Href). exists k, r.
      split; [done|]. split; [done|]. by rewrite Href.
    + apply (forget_refs (drop_pending o idm) l head full r id v); try done.
      intros id' v' Hv'. apply H4. by apply Hps.
Qed.

(** A replace accepted under a new id, the old one gone. *)
Lemma ids_rekey m idm l head h o o' : ids_inv m idm l head -> m !! h = Some o -> order_ok o ->
  o_state o = PendingReplace -> o_pending_cl_ord_id o <> o_cl_ord_id o ->
  o_cl_ord_id o' = o_pending_cl_ord_id o -> o_state o' <> PendingReplace ->
  ids_inv (<[h := o']> m) (delete (o_cl_ord_id o) idm) l head.
Proof.
  intros [H1 H2 H3 H4] Hm Hok Hst Hne Hid Hst'. pose proof (H1 h o Hm) as Hown. pose proof (H2 h o Hm Hst) as Hp.
  split.
  - intros k x. destruct (Z.eq_dec h k) as [<- | Hk].
    + rewrite lookup_insert_eq. intros ?; simplify_eq. rewrite Hid, lookup_delete_ne by congruence. done.
    + rewrite lookup_insert_ne by done. intros Hx. pose proof (H1 k x Hx).
      rewrite lookup_delete_ne by congruence. done.
  - intros k x. destruct (Z.eq_dec h k) as [<- | Hk].
    + rewrite lookup_insert_eq. intros ? ?; by simplify_eq.
    + rewrite lookup_insert_ne by done. intros Hx Hsx. pose proof (H2 k x Hx Hsx).
      rewrite lookup_delete_ne by congruence. done.
  - intros id v [Hni Hv]%lookup_delete_Some Ht. destruct (H3 id v Hv Ht) as (x & Hx & Hc).
    destruct (Z.eq_dec h v) as [<- |].
    + exists o'. rewrite lookup_insert_eq. simplify_eq. split; [done|]. left. rewrite Hid.
      destruct Hc as [? | [_ ?]]; congruence.
    + exists x. by rewrite lookup_insert_ne.
  - intros id v [Hni Hv]%lookup_delete_Some Ht. by apply H4.
Qed.

(** ... and its record kept for the estimate it held. *)
Lemma ids_rekey_record m idm l head full h o o' r : ids_inv m idm l head -> m !! h = Some o -> order_ok o ->
  (full = true -> l <> []) -> (forall k, is_Some (m !! k) -> 0 <= k < kMaxOpenOrders) ->
  o_state o = PendingReplace -> o_pending_cl_ord_id o <> o_cl_ord_id o ->
  o_cl_ord_id o' = o_pending_cl_ord_id o -> o_state o' <> PendingReplace ->
  tr_cl_ord_id r = o_cl_ord_id o ->
  ids_inv (<[h := o']> m)
    (<[o_cl_ord_id o := terminal_ref (head + Z.of_nat (length l))]> (forget idm l head full))
    (ring_add l full r) (head_after head full).
Proof.
  intros Hinv Hm Hok Hf Hs Hst Hne Hid Hst' Hr. pose proof (id_own _ _ _ _ Hinv h o Hm) as Hown.
  pose proof (ids_rekey m idm l head h o o' Hinv Hm Hok Hst Hne Hid Hst') as [H1 H2 H3 H4].
  assert (Hslot : forall k, is_Some (<[h := o']> m !! k) -> is_terminal_ref k = false).
  { intros k Hk. apply slot_not_ref. assert (0 <= k < kMaxOpenOrders); [|unfold kMaxOpenOrders in *; lia].
    destruct (Z.eq_dec h k) as [<- |]; [apply Hs; by eexists|]. rewrite lookup_insert_ne in Hk by done. by apply Hs. }
  assert (Hkeep : forall k id, is_Some (<[h := o']> m !! k) -> delete (o_cl_ord_id o) idm !! id = Some k ->
    <[o_cl_ord_id o := terminal_ref (head + Z.of_nat (length l))]> (forget idm l head full) !! id = Some k).
  { intros k id Hk [Hni Hid']%lookup_delete_Some. rewrite lookup_insert_ne by done.
    apply forget_keep; [done | by apply Hslot]. }
  split.
  - intros k x Hk. apply Hkeep; [by eexists | by apply H1].
  - intros k x Hk Hx. apply Hkeep; [by eexists | by apply H2].
  - intros id v Hv Ht. apply lookup_insert_Some in Hv as [[<- <-] | [Hni Hv]]; [by rewrite ref_is_terminal in Ht|].
    apply H3; [|done]. rewrite lookup_delete_ne by done. by apply forget_sub in Hv.
  - intros id v Hv Ht. apply lookup_insert_Some in Hv as [[<- <-] | [Hni Hv]].
    + destruct (ring_add_last l full r Hf) as (k & Hk & Href). exists k, r.
      split; [done|]. split; [done|]. by rewrite Href.
    + apply (forget_refs idm l head full r id v); try done. apply (id_term _ _ _ _ Hinv).
Qed.
End idends.

(** ** The number of ids *)

Lemma ids_size m idm l head : ids_inv m idm l head ->
  Z.of_nat (size idm) <= 2 * Z.of_nat (size m) + Z.of_nat (length l).
Proof.
  intros [H1 H2 H3 H4]. set (os := (map_to_list m).*2).
  assert (Hsub : dom idm ⊆ (list_to_set ((o_cl_ord_id <$> os) ++ (o_pending_cl_ord_id <$> os) ++
    (tr_cl_ord_id <$> l)) : gset Z)).
  { intros id Hid%elem_of_dom. destruct Hid as [v Hv]. rewrite elem_of_list_to_set, !elem_of_app.
    destruct (is_terminal_ref v) eqn:Et.
    - destruct (H4 id v Hv Et) as (k & r & Hk & <- & _). right; right.
      apply list_elem_of_fmap. exists r. split; [done|]. by apply (list_elem_of_lookup_2 _ k).
    - destruct (H3 id v Hv Et) as (o & Ho & Hc).
      assert (Hin : o ∈ os).
      { apply list_elem_of_fmap. exists (v, o). split; [done|]. by apply elem_of_map_to_list. }
      destruct Hc as [<- | [_ <-]]; [left | right; left]; apply list_elem_of_fmap; eauto. }
  apply subseteq_size in Hsub. rewrite size_dom in Hsub.
  assert (Hlen : forall ids : list Z, (size (list_to_set ids : gset Z) <= length ids)%nat).
  { induction ids as [|x ids IH]; [done|]. simpl list_to_set. rewrite size_union_alt, size_singleton.
    etransitivity; [apply Nat.add_le_mono_l, subseteq_size, subseteq_difference_l; reflexivity|]. simpl. lia. }
  pose proof (Hlen ((o_cl_ord_id <$> os) ++ (o_pending_cl_ord_id <$> os) ++ (tr_cl_ord_id <$> l))) as Hl.
  rewrite !length_app, !length_fmap in Hl.
  assert (Hos : length os = size m) by (unfold os; by rewrite length_fmap, length_map_to_list). lia.
Qed.

(** ** Counting the estimates *)

Lemma held_range e : 0 <= held e <= 1.
Proof. unfold held. case_if; lia. Qed.

Lemma held_none : held no_estimate = 0.
Proof. done. Qed.

Lemma syn_bound m est pending l : syn_inv m est pending l ->
  (forall h, is_Some (m !! h) -> 0 <= h < kMaxOpenOrders) -> Z.of_nat (length l) <= kRecentlyTerminal ->
  0 <= pending <= 8192.
Proof.
  intros [_ ->] Hs Hl. pose proof (msum_one_bound m Hs) as Hm.
  assert (0 <= msum (slot_held est) m <= msum (fun _ _ => 1) m).
  { split; [apply msum_nonneg; intros; apply held_range | apply msum_le; intros; apply held_range]. }
  assert (0 <= lsum (fun r => held (tr_estimate r)) l <= Z.of_nat (length l)).
  { clear Hl. induction l as [|r l IH]; [done|]. cbn [lsum foldr length]. fold (lsum (fun r => held (tr_estimate r)) l).
    pose proof (held_range (tr_estimate r)). lia. }
  unfold kMaxOpenOrders, kRecentlyTerminal in *. lia.
Qed.

Lemma syn_put m est pending l h o o' : syn_inv m est pending l -> m !! h = Some o ->
  syn_inv (<[h := o']> m) est pending l.
Proof. intros [Hn ->] Hm. split; [done|]. rewrite (msum_update _ m h o o' Hm). unfold slot_held. lia. Qed.

Lemma syn_estimate m est pending l h o e : syn_inv m est pending l -> m !! h = Some o -> 0 <= e_qty e ->
  syn_inv m (<[h := e]> est) (pending - held (default no_estimate (est !! h)) + held e) l.
Proof.
  intros [Hn ->] Hm He. split.
  - intros k. destruct (Z.eq_dec h k) as [<- |]; [by rewrite lookup_insert_eq | by rewrite lookup_insert_ne].
  - rewrite (msum_change (slot_held est) (slot_held (<[h := e]> est)) m h o Hm).
    + unfold slot_held. rewrite lookup_insert_eq. simpl. lia.
    + intros k x Hk. unfold slot_held. by rewrite lookup_insert_ne.
Qed.

Lemma syn_record m est pending l i r e : syn_inv m est pending l -> l !! i = Some r ->
  syn_inv m est (pending - held (tr_estimate r) + held e) (<[i := r <| tr_estimate := e |>]> l).
Proof. intros [Hn ->] Hi. split; [done|]. rewrite (lsum_update _ l i r _ Hi). simpl. lia. Qed.

(** What the ring loses when a record joins a full one. *)
Definition lost (l : list TerminalRecord) (full : bool) : Z :=
  match l with gone :: _ => if full then held (tr_estimate gone) else 0 | [] => 0 end.

Lemma lsum_ring_add l full r : lsum (fun r => held (tr_estimate r)) (ring_add l full r) =
  lsum (fun r => held (tr_estimate r)) l - lost l full + held (tr_estimate r).
Proof.
  unfold ring_add. rewrite lsum_app. unfold lost. destruct l as [|gone l]; [destruct full; simpl; lia|].
  destruct full; simpl; unfold lsum; simpl; lia.
Qed.

(** The estimate moves with the order into its record; the slot is then free or starts anew. *)
Lemma syn_move m est pending l full h o r : syn_inv m est pending l -> m !! h = Some o ->
  tr_estimate r = default no_estimate (est !! h) ->
  syn_inv m (<[h := no_estimate]> est) (pending - lost l full) (ring_add l full r).
Proof.
  intros Hs Hm Hr. pose proof (syn_estimate m est pending l h o no_estimate Hs Hm ltac:(done)) as [Hn E].
  split; [done|]. rewrite lsum_ring_add, Hr. rewrite held_none in E. lia.
Qed.

Lemma syn_delete m est pending l h o : syn_inv m est pending l -> m !! h = Some o ->
  default no_estimate (est !! h) = no_estimate -> syn_inv (delete h m) est pending l.
Proof.
  intros [Hn ->] Hm He. split; [done|]. rewrite (msum_delete _ m h o Hm). unfold slot_held at 3.
  rewrite He, held_none. lia.
Qed.

Lemma syn_add m est pending l h o : syn_inv m est pending l -> m !! h = None ->
  syn_inv (<[h := o]> m) (<[h := no_estimate]> est) pending l.
Proof.
  intros [Hn ->] Hm. split.
  - intros k. destruct (Z.eq_dec h k) as [<- |]; [by rewrite lookup_insert_eq | by rewrite lookup_insert_ne].
  - rewrite (msum_insert _ m h o Hm). unfold slot_held at 2. rewrite lookup_insert_eq. simpl.
    rewrite held_none. f_equal. apply msum_ext. intros k x Hk. unfold slot_held. rewrite lookup_insert_ne; [done|]. congruence.
Qed.
