(* ===== verification/OmsStep.v ===== *)
(** * OmsStep: every operation of the order manager keeps its invariant

    [inv] puts the groups of [OmsInv] together for a state; the lemmas below take
    it through the private helpers ([recompute_best_own], [remember_terminal],
    [absorb_cum], [take_synthetic], [terminate], [apply_replace]) and then through
    each operation. *)

From Stdlib Require Import Sorted.
From S2P Require Import Prelude Types Orders MapSum RingBuffer BucketBits Interfaces Oms OmsInv.

#[local] Arguments i64 : simpl never.
#[local] Arguments u32 : simpl never.
#[local] Arguments Z.ltb : simpl never.

Section step.
Context {M P R : Type} `{IM : IdMap M} `{OP : ObjPool P Order} `{SN : Seen R}.
Notation Oms := (Oms M P R).
Context (strict : Prop).

Definition orders (st : Oms) : gmap Z Order := op_abs (pool_ st).

(** The invariant over a map of open orders [m], which is the pool's but for an order a handler
    holds a changed copy of. *)
Record Inv (m : gmap Z Order) (st : Oms) (l : list TerminalRecord) : Prop := {
  v_pool : op_ok (pool_ st);
  v_acct : acct strict m (by_inst_ st) (s_open (stats_ st)) (open_per_inst_ st) (open_qty_ st);
  v_best : best_inv strict m (best_own_ st);
  v_im : im_ok (ids_ st);
  v_ring : Ring.ring_rep kTerminalBits (recently_terminal_ st) l;
  v_ids : ids_inv m (im_abs (ids_ st)) l (Ring.head_ (recently_terminal_ st));
  v_syn : syn_inv m (estimates_ st) (s_synthetic_pending (stats_ st)) l;
}.
Definition inv (st : Oms) : Prop := exists l, Inv (orders st) st l.

Lemma inv_slots m st l : Inv m st l -> forall h, is_Some (m !! h) -> 0 <= h < kMaxOpenOrders.
Proof. intros Hv. apply (ac_slots _ _ _ _ _ _ (v_acct _ _ _ Hv)). Qed.

Lemma inv_order m st l h o : Inv m st l -> m !! h = Some o -> order_ok strict o.
Proof. intros Hv. apply (ac_orders _ _ _ _ _ _ (v_acct _ _ _ Hv)). Qed.

Lemma ring_len m st l : Inv m st l -> Z.of_nat (length l) <= kRecentlyTerminal.
Proof. intros Hv. by destruct (v_ring _ _ _ Hv) as (_ & _ & Hc & _). Qed.

Lemma slot_valid h : 0 <= h < kMaxOpenOrders -> handle_valid h = true.
Proof. intros Hh. unfold handle_valid, kNullHandle, kMaxOpenOrders in *. lia. Qed.

Lemma get_spec (st : Oms) h o : op_ok (pool_ st) -> orders st !! h = Some o -> get st h = o.
Proof. intros Hok Hh. unfold get. rewrite op_get_spec by (done || by eexists). unfold orders in Hh. by rewrite Hh. Qed.

Lemma put_orders (st : Oms) h o : op_ok (pool_ st) -> is_Some (orders st !! h) ->
  op_ok (pool_ (put st h o)) /\ orders (put st h o) = <[h := o]> (orders st).
Proof. intros Hok Hh. by apply op_set_spec. Qed.

(** Writing back a changed copy. *)
Lemma put_inv (st : Oms) l h o : Inv (<[h := o]> (orders st)) st l -> is_Some (orders st !! h) ->
  Inv (orders (put st h o)) (put st h o) l.
Proof.
  intros [H1 H2 Hb H3 H4 H5 H6] Hh. destruct (put_orders st h o H1 Hh) as [Hok E].
  rewrite E. by split.
Qed.

(** A change of an order that keeps its ids, its working quantity and its price. *)
Lemma change_inv m st l h o o' : Inv m st l -> m !! h = Some o -> order_ok strict o' ->
  o_cl_ord_id o' = o_cl_ord_id o -> o_pending_cl_ord_id o' = o_pending_cl_ord_id o ->
  (o_state o' = PendingReplace <-> o_state o = PendingReplace) ->
  o_instrument o' = o_instrument o -> o_side o' = o_side o -> o_price o' = o_price o ->
  leaves_qty o' = leaves_qty o -> Inv (<[h := o']> m) st l.
Proof.
  intros [H1 H2 Hb H3 H4 H5 H6] Hm Hok Hid Hp Hst Hi Hs Hpx Hl. split; try done.
  - by apply (acct_put _ m _ _ _ _ h o).
  - by apply (best_put _ m _ h o).
  - by apply (ids_put m _ _ _ h o).
  - by apply (syn_put m _ _ _ h o).
Qed.

(** ** Best own price *)

Definition best_over (st : Oms) (i : InstrumentId) (s : Side) (px : Price) (hs : list Z) : Prop :=
  (px = 0 /\ forall h o, h ∈ hs -> orders st !! h = Some o -> on_side i s o = false) \/
  (0 < px /\ (exists h o, h ∈ hs /\ orders st !! h = Some o /\ on_side i s o = true /\ o_price o = px) /\
   forall h o, h ∈ hs -> orders st !! h = Some o -> on_side i s o = true -> better s (o_price o) px = false).

Lemma best_step_over (st : Oms) i s px seen h o : op_ok (pool_ st) -> orders st !! h = Some o ->
  0 < o_price o -> best_over st i s px seen -> best_over st i s (best_step st i s px h) (seen ++ [h]).
Proof.
  intros Hok Hh Hpos Hb. unfold best_step. rewrite (get_spec st h o Hok Hh).
  assert (Hon : negb (bool_decide (o_side o = s)) || negb (o_instrument o =? i) = negb (on_side i s o)).
  { unfold on_side. rewrite andb_comm, negb_andb. done. }
  rewrite Hon. destruct (on_side i s o) eqn:Es; simpl.
  - destruct ((px =? 0) || better s (o_price o) px) eqn:Ec.
    + right. split; [done|]. split; [exists h, o; set_solver|]. intros k x Hk Hx Hsx.
      apply elem_of_app in Hk as [Hk | ->%list_elem_of_singleton]; [|simplify_eq; apply better_irrefl].
      destruct Hb as [[-> Hn] | (Hpx & _ & Hall)]; [by rewrite (Hn k x Hk Hx) in Hsx|].
      specialize (Hall k x Hk Hx Hsx). replace (px =? 0) with false in Ec by lia. destruct s; simpl in *; lia.
    + apply orb_false_iff in Ec as [Ez Ec].
      destruct Hb as [[-> Hn] | (Hpx & (k & x & Hk & Hx & Hsx & Ex) & Hall)]; [done|]. right. split; [done|].
      split; [exists k, x; set_solver|]. intros k' x' Hk' Hx' Hs'.
      apply elem_of_app in Hk' as [Hk' | ->%list_elem_of_singleton]; [by apply (Hall k')|]. by simplify_eq.
  - destruct Hb as [[-> Hn] | (Hpx & (k & x & Hk & Hx & Hsx & Ex) & Hall)].
    + left. split; [done|]. intros k x Hk Hx.
      apply elem_of_app in Hk as [Hk | ->%list_elem_of_singleton]; [by apply (Hn k) | by simplify_eq].
    + right. split; [done|]. split; [exists k, x; set_solver|]. intros k' x' Hk' Hx' Hs'.
      apply elem_of_app in Hk' as [Hk' | ->%list_elem_of_singleton]; [by apply (Hall k')|]. simplify_eq. congruence.
Qed.

Lemma best_fold_over (st : Oms) i s hs : op_ok (pool_ st) ->
  (forall h, h ∈ hs -> exists o, orders st !! h = Some o /\ 0 < o_price o) ->
  forall seen px, best_over st i s px seen -> best_over st i s (fold_left (best_step st i s) hs px) (seen ++ hs).
Proof.
  intros Hok. induction hs as [|h hs IH]; intros Hall seen px Hb; [by rewrite app_nil_r|].
  cbn [fold_left]. destruct (Hall h (list_elem_of_here _ _)) as (o & Ho & Hpos).
  replace (seen ++ h :: hs) with ((seen ++ [h]) ++ hs) by by rewrite <- app_assoc.
  apply IH; [intros k Hk; apply Hall; by right|]. by apply (best_step_over st i s px seen h o).
Qed.

Lemma bucket_id i : 0 <= i < kMaxInstruments -> inst_bucket i = i.
Proof.
  intros Hi. unfold inst_bucket, Buckets.bucket, kMaxInstruments in *. change 256 with (2 ^ 8) in *.
  rewrite land_mask by lia. by apply Z.mod_small.
Qed.

(** The slots of an instrument's bucket are those of its open orders. *)
Lemma inst_slots (st : Oms) open per q i h :
  acct strict (orders st) (by_inst_ st) open per q -> 0 <= i < kMaxInstruments ->
  h ∈ Buckets.slots kMaxOpenOrders (by_inst_ st) i <-> exists o, orders st !! h = Some o /\ o_instrument o = i.
Proof.
  intros Hac Hi. pose proof (ac_bb _ _ _ _ _ _ Hac) as Hbb.
  assert (HW : Buckets.kWords kMaxOpenOrders <= 64) by by vm_compute.
  destruct (decide (0 <= h < kMaxOpenOrders)) as [Hh|Hh].
  - rewrite <- (ac_mem _ _ _ _ _ _ Hac i h Hi Hh).
    apply (Buckets.elem_of_slots kMaxOpenOrders HW); [done|lia|done].
  - split.
    + intros Hin. destruct Hh. apply (Buckets.slots_range kMaxOpenOrders (by_inst_ st) i h Hbb); [lia | reflexivity | done].
    + intros (o & Ho & _). destruct Hh. apply (ac_slots _ _ _ _ _ _ Hac). by eexists.
Qed.

Lemma best_over_all (st : Oms) i s px hs :
  (forall h o, orders st !! h = Some o -> o_instrument o = i -> h ∈ hs) ->
  best_over st i s px hs -> is_best (orders st) i s px.
Proof.
  intros Hall [[E Hn] | (Hpx & (h & o & Hh & Ho & Hs & Ep) & Hb)].
  - left. split; [done|]. intros h o Ho. destruct (on_side i s o) eqn:Es; [|done].
    rewrite <- (Hn h o); [done| |done]. apply on_side_iff in Es as [? _]. eauto.
  - right. split; [done|]. split; [eauto|]. intros k x Hx Hsx. apply (Hb k x); [|done..].
    apply on_side_iff in Hsx as [? _]. eauto.
Qed.

(** The scan of the instrument's slots finds the best of its open orders. *)
Lemma recompute_spec (st : Oms) open per q i s :
  op_ok (pool_ st) -> acct strict (orders st) (by_inst_ st) open per q -> strict ->
  0 <= i < kMaxInstruments ->
  is_best (orders st) i s
    (fold_left (best_step st i s) (Buckets.slots kMaxOpenOrders (by_inst_ st) (inst_bucket i)) 0).
Proof.
  intros Hok Hac Hst Hi. rewrite bucket_id by done.
  pose proof (fun h => inst_slots st open per q i h Hac Hi) as Hslot.
  generalize dependent (Buckets.slots kMaxOpenOrders (by_inst_ st) i). intros hs Hslot.
  apply (best_over_all st i s _ hs); [intros h o Ho Hoi; apply Hslot; eauto|].
  apply (best_fold_over st i s hs Hok) with (seen := []).
  - intros h Hh. apply Hslot in Hh as (o & Ho & _). exists o. split; [done|].
    by apply (oo_price _ _ (ac_orders _ _ _ _ _ _ Hac h o Ho)).
  - left. split; [done|]. intros h o Hh. by apply not_elem_of_nil in Hh.
Qed.

(** ** Ids and the ring *)

Lemma drop_open_spec (st : Oms) id : im_ok (ids_ st) ->
  exists m', drop_open st id = st <| ids_ := m' |> /\ im_ok m' /\
    im_abs m' = match im_abs (ids_ st) !! id with
                | Some v => if is_terminal_ref v then im_abs (ids_ st) else delete id (im_abs (ids_ st))
                | None => im_abs (ids_ st)
                end.
Proof.
  intros Hok. unfold drop_open. rewrite im_find_spec by done.
  destruct (im_abs (ids_ st) !! id) as [v|]; [|by exists (ids_ st); destruct st].
  destruct (is_terminal_ref v); simpl; [by exists (ids_ st); destruct st|].
  destruct (im_erase_spec (ids_ st) id Hok) as [? ?]. eexists. by split.
Qed.

Lemma full_spec (st : Oms) l : Ring.ring_rep kTerminalBits (recently_terminal_ st) l ->
  Ring.full kTerminalBits (recently_terminal_ st) = (Z.of_nat (length l) =? kRecentlyTerminal).
Proof. intros Hr. by rewrite (Ring.full_rep _ ring_bits _ l Hr). Qed.

Lemma ring_push_head (rg : Ring.Ring TerminalRecord) r :
  Ring.head_ (Ring.push kTerminalBits rg r) = head_after (Ring.head_ rg) (Ring.full kTerminalBits rg).
Proof. unfold Ring.push, head_after. simpl. by case_if. Qed.

(** What [forget_oldest] does to the ids and to the count of estimates. *)
Lemma forget_oldest_spec (st : Oms) gone l u :
  im_ok (ids_ st) -> Ring.ring_rep kTerminalBits (recently_terminal_ st) (gone :: l) ->
  0 <= s_synthetic_pending (stats_ st) <= 8192 -> 0 <= s_synthetic_pending (stats_ st) - held (tr_estimate gone) ->
  exists u' ids' stats', forget_oldest u st = (u', st <| ids_ := ids' |> <| stats_ := stats' |>) /\
    im_ok ids' /\
    im_abs ids' = forget (im_abs (ids_ st)) (gone :: l) (Ring.head_ (recently_terminal_ st)) true /\
    s_open stats' = s_open (stats_ st) /\
    s_synthetic_pending stats' = s_synthetic_pending (stats_ st) - held (tr_estimate gone).
Proof.
  intros Hok Hr Hb Hge. unfold forget_oldest.
  assert (Hfront : Ring.front kTerminalBits (recently_terminal_ st) = Some gone).
  { destruct Hr as (_ & _ & _ & Hl). unfold Ring.front. rewrite (Ring.slot_mod _ ring_bits).
    specialize (Hl O gone eq_refl). by rewrite Z.add_0_r in Hl. }
  rewrite Hfront.
  assert (Est : exists u1, (if 0 <? e_qty (tr_estimate gone) then
      (u <| u_forgotten_qty := e_qty (tr_estimate gone) |> <| u_forgotten_id := tr_cl_ord_id gone |>,
       stat st (fun s => s <| s_synthetic_forgotten ::= inc |> <| s_synthetic_pending ::= fun x => u32 (x - 1) |>))
    else (u, st)) = (u1, st <| stats_ := if 0 <? e_qty (tr_estimate gone) then
      (stats_ st) <| s_synthetic_forgotten ::= inc |> <| s_synthetic_pending ::= fun x => u32 (x - 1) |>
      else stats_ st |>)).
  { case_if; eexists; [done|]. by destruct st. }
  destruct Est as [u1 Est]. rewrite Est. simpl. rewrite im_find_spec by done.
  set (stats' := if 0 <? e_qty (tr_estimate gone) then _ else _).
  assert (Hst : s_open stats' = s_open (stats_ st) /\
    s_synthetic_pending stats' = s_synthetic_pending (stats_ st) - held (tr_estimate gone)).
  { unfold stats', held in *. destruct (0 <? e_qty (tr_estimate gone)); simpl; split; try done; [|lia].
    apply u32_small. lia. }
  unfold forget. simpl. change (Ring.head_pos (recently_terminal_ st)) with (Ring.head_ (recently_terminal_ st)).
  destruct (im_abs (ids_ st) !! tr_cl_ord_id gone) as [v|] eqn:Ev.
  - destruct (Z.eqb_spec v (terminal_ref (Ring.head_ (recently_terminal_ st)))) as [-> | Hne].
    + rewrite bool_decide_true by done. destruct (im_erase_spec (ids_ st) (tr_cl_ord_id gone) Hok).
      do 3 eexists. split; [reflexivity|]. by destruct Hst.
    + rewrite bool_decide_false by congruence. exists u1, (ids_ st), stats'.
      split; [by destruct st|]. by destruct Hst.
  - rewrite bool_decide_false by done. exists u1, (ids_ st), stats'. split; [by destruct st|]. by destruct Hst.
Qed.

(** What [remember_terminal] does, for a record whose id names an open order. *)
Lemma remember_spec (st : Oms) l r u v :
  im_ok (ids_ st) -> Ring.ring_rep kTerminalBits (recently_terminal_ st) l ->
  0 <= s_synthetic_pending (stats_ st) <= 8192 ->
  (forall full, 0 <= s_synthetic_pending (stats_ st) - lost l full) ->
  im_abs (ids_ st) !! tr_cl_ord_id r = Some v -> is_terminal_ref v = false ->
  let full := Z.of_nat (length l) =? kRecentlyTerminal in
  let head := Ring.head_ (recently_terminal_ st) in
  exists u' ids' ring' stats',
    remember_terminal r u st = (u', st <| ids_ := ids' |> <| recently_terminal_ := ring' |> <| stats_ := stats' |>) /\
    im_ok ids' /\
    im_abs ids' = <[tr_cl_ord_id r := terminal_ref (head + Z.of_nat (length l))]> (forget (im_abs (ids_ st)) l head full) /\
    Ring.ring_rep kTerminalBits ring' (ring_add l full r) /\ Ring.head_ ring' = head_after head full /\
    s_open stats' = s_open (stats_ st) /\
    s_synthetic_pending stats' = s_synthetic_pending (stats_ st) - lost l full.
Proof.
  intros Hok Hr Hb Hge Hv Ht full head. unfold remember_terminal. rewrite (full_spec st l Hr). fold full.
  assert (Hf : exists u' ids' stats', (if full then forget_oldest u st else (u, st)) =
      (u', st <| ids_ := ids' |> <| stats_ := stats' |>) /\ im_ok ids' /\
      im_abs ids' = forget (im_abs (ids_ st)) l head full /\ s_open stats' = s_open (stats_ st) /\
      s_synthetic_pending stats' = s_synthetic_pending (stats_ st) - lost l full).
  { destruct full eqn:Ef.
    - destruct l as [|gone l]; [unfold full in Ef; simpl in Ef; by unfold kRecentlyTerminal in Ef|].
      apply (forget_oldest_spec st gone l u Hok Hr Hb). apply (Hge true).
    - exists u, (ids_ st), (stats_ st). split; [by destruct st|]. split; [done|]. split.
      + unfold forget. destruct l; done.
      + split; [done|]. unfold lost. destruct l; lia. }
  destruct Hf as (u' & ids1 & stats' & -> & Hok1 & Habs1 & Ho & Hs). simpl.
  assert (Hroom : is_Some (im_abs ids1 !! tr_cl_ord_id r)).
  { exists v. rewrite Habs1. by apply forget_keep. }
  destruct (im_assign_spec ids1 (tr_cl_ord_id r)
    (terminal_ref (Ring.next_pos (recently_terminal_ st))) Hok1 (or_introl Hroom)) as (ids2 & -> & Hok2 & Habs2).
  simpl. exists u', ids2, (Ring.push kTerminalBits (recently_terminal_ st) r), stats'.
  split; [by destruct st|]. split; [done|]. split.
  - rewrite Habs2, Habs1. f_equal. destruct Hr as (_ & Htl & _). unfold Ring.next_pos. rewrite Htl.
    apply terminal_ref_u64.
  - pose proof (Ring.rep_push _ ring_bits _ l r Hr) as Hp. rewrite (full_spec st l Hr) in Hp.
    split; [exact Hp|]. split; [|done]. by rewrite ring_push_head, (full_spec st l Hr).
Qed.

Lemma full_nonempty l : (Z.of_nat (length l) =? kRecentlyTerminal) = true -> l <> ([] : list TerminalRecord).
Proof. intros E ->. done. Qed.

Lemma lost_le m est pending l full : syn_inv m est pending l -> 0 <= pending - lost l full.
Proof.
  intros [_ ->]. assert (0 <= msum (slot_held est) m) by (apply msum_nonneg; intros; apply held_range).
  unfold lost. destruct l as [|gone l]; [simpl; lia|].
  cbn [lsum foldr]. fold (lsum (fun r => held (tr_estimate r)) l).
  assert (0 <= lsum (fun r => held (tr_estimate r)) l) by (apply lsum_nonneg; intros; apply held_range).
  pose proof (held_range (tr_estimate gone)). destruct full; lia.
Qed.

(** ** The end of an order *)

(** Dropping the id of a pending replace, where [clear_pending] and [terminate] do. *)
Lemma drop_pending_spec m (st st1 : Oms) l h o : Inv m st l -> m !! h = Some o -> ids_ st1 = ids_ st ->
  exists ids', (if cl_ord_id_valid (o_pending_cl_ord_id o) && negb (o_pending_cl_ord_id o =? o_cl_ord_id o)
                then drop_open st1 (o_pending_cl_ord_id o) else st1) = st1 <| ids_ := ids' |> /\
    im_ok ids' /\ im_abs ids' = drop_pending o (im_abs (ids_ st)).
Proof.
  intros Hv Hm Eids. pose proof (v_im _ _ _ Hv) as Him. rewrite <- Eids in *. unfold drop_pending.
  destruct (_ && _) eqn:E; [|by exists (ids_ st1); destruct st1].
  destruct (drop_open_spec st1 (o_pending_cl_ord_id o) Him) as (ids' & -> & Hok & Habs).
  exists ids'. split; [done|]. split; [done|]. rewrite Habs, Eids.
  destruct (decide (o_state o = PendingReplace)) as [Hst|Hst].
  - rewrite (id_pend _ _ _ _ (v_ids _ _ _ Hv) h o Hm Hst).
    rewrite slot_not_ref; [done|]. pose proof (inv_slots _ _ _ Hv h ltac:(by eexists)).
    unfold kMaxOpenOrders in *. lia.
  - by rewrite (oo_none _ _ (inv_order _ _ _ _ _ Hv Hm) Hst) in E.
Qed.

Lemma own_kept m (st : Oms) l h o : Inv m st l -> m !! h = Some o ->
  drop_pending o (im_abs (ids_ st)) !! o_cl_ord_id o = Some h.
Proof.
  intros Hv Hm. pose proof (id_own _ _ _ _ (v_ids _ _ _ Hv) h o Hm). unfold drop_pending.
  destruct (_ && _) eqn:E; [|done]. rewrite lookup_delete_ne; [done|]. lia.
Qed.

Definition not_ref h : 0 <= h < kMaxOpenOrders -> is_terminal_ref h = false.
Proof. intros Hh. apply slot_not_ref. unfold kMaxOpenOrders in *. lia. Qed.

Lemma bump_open_qty (st : Oms) i s d :
  open_qty_ (add_open_qty st i s d) = bump_qty (open_qty_ st) i s d.
Proof. done. Qed.

(** The best price once the order's slot is free. *)
Lemma best_after_end m (st : Oms) h o open per q : op_ok (pool_ st) ->
  acct strict (orders st) (by_inst_ st) open per q -> best_inv strict m (best_own_ st) -> m !! h = Some o ->
  orders st = delete h m -> 0 <= o_instrument o < kMaxInstruments ->
  best_inv strict (orders st)
    (best_own_ (if o_price o =? best_own_px st (o_instrument o) (o_side o)
                then recompute_best_own st (o_instrument o) (o_side o) else st)).
Proof.
  intros Hok Hac Hb Hm Eo Hi Hst i s. specialize (Hb Hst i s) as Hbis.
  assert (Hoth : ~ (o_instrument o = i /\ o_side o = s) -> is_best (orders st) i s (default 0 (best_own_ st !! (i, side_ix s)))).
  { intros Hne. rewrite Eo. apply (is_best_delete m i s _ h o Hm); [|done].
    intros Hon%on_side_iff. done. }
  destruct (Z.eqb_spec (o_price o) (best_own_px st (o_instrument o) (o_side o))) as [E|E].
  - unfold recompute_best_own, set_best. cbn [best_own_ fupd].
    destruct (decide (o_instrument o = i /\ o_side o = s)) as [[<- <-] | Hne].
    + rewrite lookup_insert_eq. by apply (recompute_spec st open per q).
    + rewrite lookup_insert_ne by (by rewrite side_key). by apply Hoth.
  - destruct (decide (o_instrument o = i /\ o_side o = s)) as [[<- <-] | Hne]; [|by apply Hoth].
    rewrite Eo. apply (is_best_delete m _ _ _ h o Hm); [|done]. intros _. done.
Qed.

(** [terminate] up to the free of the slot. *)
Lemma terminate_body m (st : Oms) l u h o final br : Inv m st l -> m !! h = Some o ->
  let full := Z.of_nat (length l) =? kRecentlyTerminal in
  let i := o_instrument o in
  exists ids' ring' stats' u',
    let st' := st <| ids_ := ids' |> <| recently_terminal_ := ring' |> <| stats_ := stats' |>
                  <| open_per_inst_ := <[i := u32 (open_count_inst st i - 1)]> (open_per_inst_ st) |>
                  <| open_qty_ := bump_qty (open_qty_ st) i (o_side o) (- leaves_qty o) |>
                  <| estimates_ := <[h := no_estimate]> (estimates_ st) |>
                  <| by_inst_ := Buckets.clear kMaxOpenOrders (by_inst_ st) (inst_bucket i) h |>
                  <| pool_ := op_free (pool_ st) h |> in
    terminate u h o final br st =
      (u' <| u_order := o <| o_state := final |> |> <| u_handle := kNullHandle |>
          <| u_times := ts_t (times_at st h) |> <| u_slot := h |> <| u_changed := true |> <| u_terminal := true |>,
       if o_price o =? best_own_px st' i (o_side o) then recompute_best_own st' i (o_side o) else st') /\
    s_open stats' = u32 (s_open (stats_ st) - 1) /\
    im_ok ids' /\
    im_abs ids' = <[o_cl_ord_id o := terminal_ref (Ring.head_ (recently_terminal_ st) + Z.of_nat (length l))]>
      (forget (drop_pending o (im_abs (ids_ st))) l (Ring.head_ (recently_terminal_ st)) full) /\
    Ring.ring_rep kTerminalBits ring' (ring_add l full (terminal_record o final br (estimate_at st h))) /\
    Ring.head_ ring' = head_after (Ring.head_ (recently_terminal_ st)) full /\
    s_synthetic_pending stats' = s_synthetic_pending (stats_ st) - lost l full.
Proof.
  intros Hv Hm full i. pose proof (v_syn _ _ _ Hv) as Hsyn.
  pose proof (syn_bound _ _ _ _ Hsyn (inv_slots _ _ _ Hv) (ring_len _ _ _ Hv)) as Hbd.
  unfold terminate. cbv zeta.
  set (stats1 := if bool_decide (final = Canceled) then (stats_ st) <| s_canceled ::= inc |> else stats_ st).
  assert (E0 : (if bool_decide (final = Canceled) then stat st (fun s => s <| s_canceled ::= inc |>) else st) =
    st <| stats_ := stats1 |>) by (unfold stats1; case_if; by destruct st).
  rewrite E0.
  assert (Es : s_open stats1 = s_open (stats_ st) /\ s_synthetic_pending stats1 = s_synthetic_pending (stats_ st))
    by (unfold stats1; by case_if).
  destruct Es as [Es1 Es2]. cbn [o_instrument o_side o_pending_cl_ord_id o_cl_ord_id o_price fupd].
  set (st1 := add_open_qty _ _ _ _).
  destruct (drop_pending_spec m st st1 l h o Hv Hm eq_refl) as (ids1 & E1 & Hok1 & Habs1). rewrite E1.
  set (st2 := st1 <| ids_ := ids1 |>). set (rec := terminal_record _ _ _ _).
  destruct (remember_spec st2 l rec u h) as (u' & ids' & ring' & stats' & Er & Hok2 & Habs2 & Hring & Hhead & Ho & Hsy).
  - done.
  - apply Hv.
  - cbn. rewrite Es2. done.
  - intros b. cbn. rewrite Es2. by apply (lost_le _ _ _ _ _ Hsyn).
  - cbn. rewrite Habs1. by apply (own_kept m st l).
  - apply not_ref, (inv_slots _ _ _ Hv). by eexists.
  - rewrite Er. exists ids', ring', stats', u'. cbn zeta. split; [reflexivity|].
    split; [rewrite Ho; cbn; by rewrite Es1|]. split; [done|]. split; [rewrite Habs2; cbn; by rewrite Habs1|].
    split; [done|]. split; [done|]. rewrite Hsy. cbn. by rewrite Es2.
Qed.

Lemma terminate_inv (st : Oms) l u h o final br : Inv (<[h := o]> (orders st)) st l -> is_Some (orders st !! h) ->
  inv (snd (terminate u h o final br st)) /\
  orders (snd (terminate u h o final br st)) = delete h (orders st).
Proof.
  intros Hv Hh. set (m := <[h := o]> (orders st)) in *.
  assert (Hm : m !! h = Some o) by apply lookup_insert_eq.
  pose proof (inv_order _ _ _ _ _ Hv Hm) as Hok. pose proof (inv_slots _ _ _ Hv) as Hs.
  assert (Edel : delete h m = delete h (orders st)) by apply delete_insert_eq.
  destruct (terminate_body m st l u h o final br Hv Hm) as (ids' & ring' & stats' & u' & Et & Ho & Hk & Ha & Hr & Hhd & Hsy).
  cbv zeta in Et. set (st' := st <| ids_ := ids' |> <| recently_terminal_ := ring' |> <| stats_ := stats' |>
    <| open_per_inst_ := _ |> <| open_qty_ := _ |> <| estimates_ := _ |> <| by_inst_ := _ |> <| pool_ := _ |>) in *.
  rewrite Et. cbn [snd]. clear Et. destruct (op_free_spec (pool_ st) h (v_pool _ _ _ Hv) Hh) as [Hpf Hpa].
  assert (Eo : orders st' = delete h m) by (rewrite Edel; exact Hpa).
  assert (Hac : acct strict (orders st') (by_inst_ st') (s_open (stats_ st')) (open_per_inst_ st') (open_qty_ st')).
  { rewrite Eo. cbn. rewrite Ho. apply (acct_remove strict m _ _ _ _ h o); [apply Hv | done]. }
  assert (Hbest := best_after_end m st' h o _ _ _ Hpf Hac (v_best _ _ _ Hv) Hm Eo (oo_inst _ _ Hok)).
  assert (Hrest : forall best, best_inv strict (orders st') best ->
    inv (st' <| best_own_ := best |>) /\ orders (st' <| best_own_ := best |>) = delete h (orders st)).
  { intros best Hb2. split; [|change (orders st' = delete h (orders st)); by rewrite <- Edel].
    exists (ring_add l (Z.of_nat (length l) =? kRecentlyTerminal) (terminal_record o final br (estimate_at st h))).
    change (orders (st' <| best_own_ := best |>)) with (orders st'). split; [done..| |].
    - rewrite Eo. cbn. rewrite Ha, Hhd. apply (ids_end strict m); try done; [apply Hv | apply full_nonempty].
    - rewrite Eo. cbn. rewrite Hsy. apply (syn_delete _ _ _ _ h o); [|done|by rewrite lookup_insert_eq].
      by apply (syn_move _ _ _ _ _ h o _ (v_syn _ _ _ Hv) Hm). }
  destruct (o_price o =? best_own_px st' (o_instrument o) (o_side o)); exact (Hrest _ Hbest).
Qed.

(** ** Quantity a venue reports *)

(** Fields the invariant does not read may change freely. *)
Lemma Inv_frame m (st st' : Oms) l : Inv m st l -> pool_ st' = pool_ st -> by_inst_ st' = by_inst_ st ->
  s_open (stats_ st') = s_open (stats_ st) -> open_per_inst_ st' = open_per_inst_ st ->
  open_qty_ st' = open_qty_ st -> best_own_ st' = best_own_ st -> ids_ st' = ids_ st ->
  recently_terminal_ st' = recently_terminal_ st ->
  s_synthetic_pending (stats_ st') = s_synthetic_pending (stats_ st) -> estimates_ st' = estimates_ st ->
  Inv m st' l.
Proof.
  intros [H1 H2 Hb H3 H4 H5 H6] E1 E2 E3 E4 E5 E6 E7 E8 E9 E10.
  split; rewrite ?E1, ?E2, ?E3, ?E4, ?E5, ?E6, ?E7, ?E8, ?E9, ?E10; done.
Qed.

(** Filled quantity that grows: the working quantity of the side shrinks by as much. *)
Lemma advance_inv (st : Oms) l h o o' cum : Inv (orders st) st l -> orders st !! h = Some o ->
  o_cum_qty o <= cum <= o_qty o -> order_ok strict o' ->
  o_cl_ord_id o' = o_cl_ord_id o -> o_pending_cl_ord_id o' = o_pending_cl_ord_id o ->
  (o_state o' = PendingReplace <-> o_state o = PendingReplace) ->
  o_instrument o' = o_instrument o -> o_side o' = o_side o -> o_price o' = o_price o ->
  o_qty o' = o_qty o -> o_cum_qty o' = cum ->
  let st' := put (add_open_qty st (o_instrument o) (o_side o) (- i64 (cum - o_cum_qty o))) h o' in
  Inv (orders st') st' l /\ orders st' = <[h := o']> (orders st).
Proof.
  intros Hv Hh Hcum Hok' Hid Hp Hst Hi Hs Hpx Hq Hc st'. pose proof (inv_order _ _ _ _ _ Hv Hh) as Hok.
  pose proof Hv as [H1 H2 Hb H3 H4 H5 H6].
  destruct (put_orders (add_open_qty st (o_instrument o) (o_side o) (- i64 (cum - o_cum_qty o))) h o' H1
    ltac:(by eexists)) as [Hpok Ho].
  destruct (oo_qty _ _ Hok) as [Hc1 Hc2].
  assert (Hd : i64 (cum - o_cum_qty o) = cum - o_cum_qty o) by (apply i64_id; width).
  split; [|exact Ho]. unfold st'. rewrite Ho. change (orders (add_open_qty st _ _ _)) with (orders st). split; try done.
  - apply (acct_change strict _ _ _ _ _ h o); try done.
    rewrite (leaves_eq _ _ Hok), (leaves_eq _ _ Hok'), Hd, Hq, Hc. lia.
  - by apply (best_put _ _ _ h o).
  - by apply (ids_put _ _ _ _ h o).
  - by apply (syn_put _ _ _ _ h o).
Qed.

(** Adding to an order's estimate. *)
Lemma note_inv m (st : Oms) l h o q px : Inv m st l -> m !! h = Some o -> 0 < q ->
  e_qty (estimate_at st h) + q <= i64_max -> Inv m (note_synthetic st h q px) l.
Proof.
  intros Hv Hm Hq Hroom. pose proof Hv as [H1 H2 Hb H3 H4 H5 H6].
  pose proof (syn_bound _ _ _ _ H6 (inv_slots _ _ _ Hv) (ring_len _ _ _ Hv)) as Hbd.
  pose proof (proj1 H6 h) as He. fold (estimate_at st h) in He.
  set (e := mkEstimate (i64 (e_qty (estimate_at st h) + q)) px).
  assert (He' : e_qty e = e_qty (estimate_at st h) + q) by (apply i64_id; width).
  pose proof (syn_estimate _ _ _ _ h o e H6 Hm ltac:(lia)) as Hs.
  fold (estimate_at st h) in Hs. replace (held e) with 1 in Hs by (unfold held; zcase).
  unfold note_synthetic, held in *. fold e.
  destruct (0 <? e_qty (estimate_at st h)) eqn:Ep; cbn [negb]; split; try done; cbn.
  - by replace (s_synthetic_pending (stats_ st) - 1 + 1) with (s_synthetic_pending (stats_ st)) in Hs by lia.
  - rewrite u32_small by lia. by rewrite Z.sub_0_r in Hs.
Qed.

Lemma absorb_inv (st : Oms) l h o reported u o' u' st' :
  Inv (orders st) st l -> orders st !! h = Some o ->
  e_qty (estimate_at st h) + o_qty o <= i64_max ->
  absorb_cum h o reported u st = (o', u', st') ->
  Inv (orders st') st' l /\ orders st' !! h = Some o' /\
  (exists c, o' = o <| o_cum_qty := c |> /\ o_cum_qty o <= c <= o_qty o) /\
  orders st' = <[h := o']> (orders st).
Proof.
  intros Hv Hh Hroom. pose proof (inv_order _ _ _ _ _ Hv Hh) as Hok. destruct (oo_qty _ _ Hok) as [Hc1 Hc2].
  unfold absorb_cum. set (cum := if o_qty o <? reported then o_qty o else reported).
  destruct (Z.leb_spec cum (o_cum_qty o)) as [Hle|Hgt].
  - intros ?; simplify_eq. split; [done|]. split; [done|]. split; [|by rewrite insert_id].
    exists (o_cum_qty o'). split; [by destruct o' | lia].
  - intros E. injection E as <- <- <-. assert (Hcum : cum <= o_qty o) by (unfold cum; zcase).
    set (o' := o <| o_cum_qty := cum |>).
    assert (Hok' : order_ok strict o') by (destruct Hok; split; cbn; try done; lia).
    destruct (advance_inv st l h o o' cum Hv Hh ltac:(lia) Hok') as [Hv1 Ho1]; try done.
    set (st1 := put _ _ _) in *. assert (Hh1 : orders st1 !! h = Some o') by (rewrite Ho1; apply lookup_insert_eq).
    assert (Hd : i64 (cum - o_cum_qty o) = cum - o_cum_qty o) by (apply i64_id; width).
    set (st2 := stat st1 (fun s => s <| s_missed_fills ::= inc |>)).
    assert (Hv2 : Inv (orders st1) st2 l) by by apply (Inv_frame _ st1).
    assert (Hv3 := note_inv (orders st1) st2 l h o' (i64 (cum - o_cum_qty o)) (o_price o') Hv2 Hh1 ltac:(lia)
      ltac:(change (estimate_at st2 h) with (estimate_at st h); lia)).
    set (st3 := note_synthetic st2 h (i64 (cum - o_cum_qty o)) (o_price o')) in *.
    assert (E : orders st3 = orders st1) by (unfold st3, note_synthetic; by case_if).
    assert (H : Inv (orders st3) st3 l /\ orders st3 !! h = Some o' /\
      (exists c, o' = o <| o_cum_qty := c |> /\ o_cum_qty o <= c <= o_qty o) /\
      orders st3 = <[h := o']> (orders st)); [|exact H].
    rewrite E. split; [done|]. split; [done|]. split; [|done]. exists cum. split; [done|lia].
Qed.

(** ** Terminal records *)

Lemma terminal_pos_ref (st : Oms) l id v k : im_ok (ids_ st) ->
  Ring.ring_rep kTerminalBits (recently_terminal_ st) l -> im_abs (ids_ st) !! id = Some v ->
  is_terminal_ref v = true -> v = terminal_ref (Ring.head_ (recently_terminal_ st) + Z.of_nat k) ->
  (k < length l)%nat ->
  u64 (terminal_pos st id - Ring.head_ (recently_terminal_ st)) = Z.of_nat k.
Proof.
  intros Hok Hr Hid Ht Ev Hk. unfold terminal_pos. rewrite im_find_spec, Hid by done. rewrite Ht. cbn [negb].
  unfold Ring.head_pos. set (hd := Ring.head_ (recently_terminal_ st)) in *.
  destruct Hr as (_ & _ & Hc & _). unfold Ring.cap, kTerminalBits in Hc. change (2 ^ 12) with 4096 in Hc.
  assert (Hl : Z.land (u64 (v - hd)) (kRecentlyTerminal - 1) = Z.of_nat k).
  { unfold kRecentlyTerminal. change (4096 - 1) with (2 ^ 12 - 1). rewrite land_mask, u64_mod_pow by lia.
    change (2 ^ 12) with 4096. rewrite Ev, terminal_ref_eq.
    replace (2 ^ 31 + (hd + Z.of_nat k) mod 4096 - hd) with ((hd + Z.of_nat k) mod 4096 - hd + 524288 * 4096) by lia.
    rewrite Z_mod_plus_full, Zminus_mod_idemp_l.
    replace (hd + Z.of_nat k - hd) with (Z.of_nat k) by lia. apply Z.mod_small. lia. }
  rewrite Hl. apply (Ring.u64_diff hd _ (Z.of_nat k)); [lia|done].
Qed.

(** [find_terminal] finds the record an id names, and nothing for any other id. *)
Lemma find_terminal_spec m (st : Oms) l id : Inv m st l ->
  (exists v k r, im_abs (ids_ st) !! id = Some v /\ is_terminal_ref v = true /\ l !! k = Some r /\
     tr_cl_ord_id r = id /\ find_terminal st id = Some r /\
     forall r', Ring.ring_rep kTerminalBits (recently_terminal_ (set_terminal st id r')) (<[k := r']> l)) \/
  ((forall v, im_abs (ids_ st) !! id = Some v -> is_terminal_ref v = false) /\ find_terminal st id = None).
Proof.
  intros Hv. pose proof (v_im _ _ _ Hv) as Hok. pose proof (v_ring _ _ _ Hv) as Hr.
  assert (Hnone : terminal_pos st id = Ring.next_pos (recently_terminal_ st) -> find_terminal st id = None).
  { intros E. unfold find_terminal. rewrite E, (Ring.rep_at_pos _ ring_bits _ l _ Hr).
    assert (Hs := Ring.size_rep _ ring_bits _ l Hr). unfold Ring.size in Hs. unfold Ring.next_pos. rewrite Hs.
    by rewrite Z.ltb_irrefl. }
  destruct (im_abs (ids_ st) !! id) as [v|] eqn:Ev.
  - destruct (is_terminal_ref v) eqn:Et.
    + left. destruct (id_term _ _ _ _ (v_ids _ _ _ Hv) id v Ev Et) as (k & r & Hk & Hid & Href).
      pose proof (lookup_lt_Some _ _ _ Hk) as Hlt.
      pose proof (terminal_pos_ref st l id v k Hok Hr Ev Et Href Hlt) as Hpos.
      exists v, k, r. split; [done|]. split; [done|]. split; [done|]. split; [done|]. split.
      * unfold find_terminal. rewrite (Ring.rep_at_pos _ ring_bits _ l _ Hr), Hpos, Nat2Z.id.
        replace (Z.of_nat k <? Z.of_nat (length l)) with true by lia. done.
      * intros r'. pose proof (Ring.rep_set_pos _ ring_bits _ l (terminal_pos st id) r' Hr) as Hs.
        rewrite Hpos, Nat2Z.id in Hs. apply Hs. lia.
    + right. split; [intros ? ?; by simplify_eq|]. apply Hnone. unfold terminal_pos.
      rewrite im_find_spec, Ev, Et by done. done.
  - right. split; [done|]. apply Hnone. unfold terminal_pos. by rewrite im_find_spec, Ev.
Qed.

Lemma ids_record m idm l head k r r' : ids_inv m idm l head -> l !! k = Some r ->
  tr_cl_ord_id r' = tr_cl_ord_id r -> ids_inv m idm (<[k := r']> l) head.
Proof.
  intros [H1 H2 H3 H4] Hk Hid. split; try done. intros id v Hv Ht.
  destruct (H4 id v Hv Ht) as (j & x & Hj & Hx & Href). destruct (Nat.eq_dec k j) as [<- |].
  - exists k, r'. rewrite list_lookup_insert_eq by (by apply lookup_lt_Some in Hk). simplify_eq.
    split; [done|]. split; [congruence | done].
  - exists j, x. by rewrite list_lookup_insert_ne.
Qed.

(** A record rewritten in place. *)
Lemma record_inv m (st st' : Oms) l id k r r' : Inv m st l -> l !! k = Some r ->
  Ring.ring_rep kTerminalBits (recently_terminal_ (set_terminal st id r')) (<[k := r']> l) ->
  tr_cl_ord_id r' = tr_cl_ord_id r ->
  s_open (stats_ st') = s_open (stats_ st) ->
  s_synthetic_pending (stats_ st') =
    s_synthetic_pending (stats_ st) - held (tr_estimate r) + held (tr_estimate r') ->
  st' = (set_terminal st id r') <| stats_ := stats_ st' |> -> Inv m st' (<[k := r']> l).
Proof.
  intros [H1 H2 Hb H3 H4 H5 H6] Hk Hring Hid Ho Hsy E. rewrite E. split; cbn; try done.
  - by rewrite Ho.
  - by apply (ids_record _ _ _ _ k r).
  - rewrite Hsy. destruct H6 as [Hn ->]. split; [done|]. rewrite (lsum_update _ l k r r' Hk). lia.
Qed.

(** Naming part of an estimate keeps the count of estimates right. *)
Lemma take_inv (st : Oms) l h id q u : Inv (orders st) st l ->
  (h = kNullHandle \/ is_Some (orders st !! h)) ->
  inv (snd (take_synthetic h id q u st)) /\ orders (snd (take_synthetic h id q u st)) = orders st.
Proof.
  intros Hv Hh. pose proof Hv as [H1 H2 Hb H3 H4 H5 H6].
  pose proof (syn_bound _ _ _ _ H6 (inv_slots _ _ _ Hv) (ring_len _ _ _ Hv)) as Hbd.
  unfold take_synthetic, the_estimate, set_the_estimate. destruct Hh as [-> | [o Ho]].
  - change (handle_valid kNullHandle) with false. cbn [negb].
    destruct (find_terminal_spec _ st l id Hv) as [(v & k & r & _ & _ & Hk & Hid & Ef & Hring) | [_ Ef]]; rewrite Ef;
      [|by split; [exists l|]].
    destruct (0 <? e_qty (tr_estimate r)) eqn:Ep; cbn [negb]; [|by split; [exists l|]].
    set (c := if q <? e_qty (tr_estimate r) then q else e_qty (tr_estimate r)).
    change (find_terminal (stat st _) id) with (find_terminal st id). rewrite Ef.
    assert (Hh : held (tr_estimate r) = 1) by (unfold held; by rewrite Ep).
    assert (Hpos : 0 < s_synthetic_pending (stats_ st)).
    { destruct H6 as [_ ->]. assert (0 <= msum (slot_held (estimates_ st)) (orders st))
        by (apply msum_nonneg; intros; apply held_range).
      assert (Hl : 0 <= lsum (fun r => held (tr_estimate r)) (delete k l)) by (apply lsum_nonneg; intros; apply held_range).
      rewrite (lsum_delete _ l k r Hk) in Hl. lia. }
    destruct (0 <? i64 (e_qty (tr_estimate r) - c)) eqn:El; cbn [negb snd]; (split; [|done]).
    + eexists. apply (record_inv _ st _ l id k r _ Hv Hk
        (Hring (r <| tr_estimate := mkEstimate (i64 (e_qty (tr_estimate r) - c)) (e_price (tr_estimate r)) |>))); try done.
      cbn. rewrite Hh. unfold held. cbn. rewrite El. lia.
    + eexists. apply (record_inv _ st _ l id k r _ Hv Hk (Hring (r <| tr_estimate := no_estimate |>))); try done.
      cbn. rewrite Hh, held_none. rewrite u32_small by lia. lia.
  - rewrite (slot_valid h) by (apply (inv_slots _ _ _ Hv); by eexists).
    destruct (0 <? e_qty (estimate_at st h)) eqn:Ep; cbn [negb]; [|by split; [exists l|]].
    set (c := if q <? e_qty (estimate_at st h) then q else e_qty (estimate_at st h)).
    assert (Hh : held (estimate_at st h) = 1) by (unfold held; by rewrite Ep).
    assert (Hpos : 0 < s_synthetic_pending (stats_ st)).
    { destruct H6 as [_ ->]. assert (0 <= lsum (fun r => held (tr_estimate r)) l) by (apply lsum_nonneg; intros; apply held_range).
      assert (0 < msum (slot_held (estimates_ st)) (orders st)); [|lia].
      apply (msum_pos _ _ h o); [intros; apply held_range | done |]. unfold slot_held.
      fold (estimate_at st h). lia. }
    destruct (0 <? i64 (e_qty (estimate_at st h) - c)) eqn:El; cbn [negb snd]; (split; [|done]); exists l; split; try done; cbn.
    + pose proof (syn_estimate _ _ _ _ h o (mkEstimate (i64 (e_qty (estimate_at st h) - c)) (e_price (estimate_at st h)))
        H6 Ho ltac:(cbn; lia)) as Hs. fold (estimate_at st h) in Hs. rewrite Hh in Hs. unfold held in Hs. cbn in Hs.
      rewrite El in Hs. by replace (s_synthetic_pending (stats_ st) - 1 + 1) with (s_synthetic_pending (stats_ st)) in Hs by lia.
    + pose proof (syn_estimate _ _ _ _ h o no_estimate H6 Ho ltac:(done)) as Hs. fold (estimate_at st h) in Hs.
      rewrite Hh, held_none, Z.add_0_r in Hs. by rewrite u32_small by lia.
Qed.

(** ** An accepted replace *)

Lemma bump_bump q i s a b : bump_qty (bump_qty q i s a) i s b = bump_qty q i s (a + b).
Proof.
  unfold bump_qty. rewrite lookup_insert_eq, insert_insert_eq. f_equal. cbn.
  apply i64_proper. rewrite i64_eq64. f_equal. lia.
Qed.

(** The order an accepted replace leaves. *)
Definition replaced (o : Order) (rekey new_venue_order : bool) : Order :=
  let cum := if new_venue_order then 0 else o_cum_qty o in
  let cum := if o_pending_qty o <? cum then o_pending_qty o else cum in
  (drop_flag (o <| o_cl_ord_id := if rekey then o_pending_cl_ord_id o else o_cl_ord_id o |>
               <| o_cum_qty := cum |> <| o_price := o_pending_price o |> <| o_qty := o_pending_qty o |>
               <| o_pending_cl_ord_id := 0 |> <| o_pending_price := 0 |> <| o_pending_qty := 0 |>)
    kReplaceOldCanceled) <| o_state := if cum =? 0 then Live else PartiallyFilled |>.

Lemma replaced_ok o rekey nv : order_ok strict o -> o_state o = PendingReplace -> order_ok strict (replaced o rekey nv).
Proof.
  intros Hok Hst. destruct (oo_pending _ _ Hok Hst) as [_ Hq]. destruct (oo_qty _ _ Hok). destruct Hok as [Hi Ho Hqt Hp Hn Hpx].
  split; cbn; try done.
  - by case_if.
  - split; [|lia]. destruct nv; zcase.
  - case_if; done.
  - intros Hs. split; [by apply Hpx|]. case_if; done.
Qed.

(** The ids, the ring and the estimates after the old leg is settled. *)
Lemma settle_leg (st : Oms) l u h o nv : Inv (orders st) st l -> orders st !! h = Some o ->
  o_state o = PendingReplace -> let rekey := negb (o_pending_cl_ord_id o =? o_cl_ord_id o) in
  (nv = true -> rekey = true) ->
  let st0 := add_open_qty st (o_instrument o) (o_side o) (- leaves_qty o) in
  let '(u1, st1) :=
    if rekey && nv && (0 <? e_qty (estimate_at st0 h)) then
      let '(u, st) := remember_terminal (terminal_record o (if o_qty o <=? o_cum_qty o then Filled else Canceled)
                                           false (estimate_at st0 h)) u st0 in
      (u, set_estimate st h no_estimate)
    else (u, st0) in
  let st2 := if rekey then drop_open st1 (o_cl_ord_id o) else st1 in
  exists ids' ring' stats' est' l',
    st2 = st0 <| ids_ := ids' |> <| recently_terminal_ := ring' |> <| stats_ := stats' |> <| estimates_ := est' |> /\
    s_open stats' = s_open (stats_ st) /\ im_ok ids' /\ Ring.ring_rep kTerminalBits ring' l' /\
    ids_inv (<[h := replaced o rekey nv]> (orders st)) (im_abs ids') l' (Ring.head_ ring') /\
    syn_inv (<[h := replaced o rekey nv]> (orders st)) est' (s_synthetic_pending stats') l'.
Proof.
  intros Hv Hh Hst rekey Hnv st0. pose proof (inv_order _ _ _ _ _ Hv Hh) as Hok.
  pose proof (v_syn _ _ _ Hv) as Hsyn. pose proof (inv_slots _ _ _ Hv) as Hs.
  pose proof (syn_bound _ _ _ _ Hsyn Hs (ring_len _ _ _ Hv)) as Hbd.
  pose proof (id_own _ _ _ _ (v_ids _ _ _ Hv) h o Hh) as Hown.
  assert (Hnr : is_terminal_ref h = false) by (apply not_ref, Hs; by eexists).
  set (o' := replaced o rekey nv).
  assert (Hst' : o_state o' <> PendingReplace) by (unfold o', replaced; cbn; case_if; done).
  assert (Hid' : o_cl_ord_id o' = if rekey then o_pending_cl_ord_id o else o_cl_ord_id o) by done.
  destruct (rekey && nv && (0 <? e_qty (estimate_at st0 h))) eqn:Ec.
  - apply andb_true_iff in Ec as [[Hrk _]%andb_true_iff _]. rewrite Hrk in *.
    set (rec := terminal_record _ _ _ _).
    destruct (remember_spec st0 l rec u h) as (u' & ids' & ring' & stats' & Er & Hok2 & Habs2 & Hring & Hhead & Ho & Hsy);
      [apply Hv | apply Hv | done | intros b; by apply (lost_le _ _ _ _ _ Hsyn) | done | done|].
    rewrite Er. set (st1 := set_estimate _ h no_estimate).
    destruct (drop_open_spec st1 (o_cl_ord_id o) Hok2) as (ids2 & Ed & Hok3 & Habs3). rewrite Ed.
    change (ids_ st1) with ids' in Habs3. rewrite Habs2 in Habs3. cbn [tr_cl_ord_id terminal_record rec] in Habs3.
    rewrite lookup_insert_eq, ref_is_terminal in Habs3.
    eexists ids2, ring', stats', _, _. split; [reflexivity|]. split; [done|]. split; [done|]. split; [exact Hring|]. split.
    + rewrite Habs3, Hhead. apply (ids_rekey_record strict); try done; [apply Hv | apply full_nonempty | unfold rekey in Hrk; lia].
    + rewrite Hsy. apply (syn_put _ _ _ _ h o); [|done]. by apply (syn_move _ _ _ _ _ h o _ Hsyn Hh).
  - destruct rekey eqn:Hrk.
    + destruct (drop_open_spec st0 (o_cl_ord_id o) (v_im _ _ _ Hv)) as (ids2 & Ed & Hok3 & Habs3). rewrite Ed.
      change (ids_ st0) with (ids_ st) in Habs3. rewrite Hown, Hnr in Habs3.
      exists ids2, (recently_terminal_ st), (stats_ st), (estimates_ st), l. split; [by destruct st|].
      split; [done|]. split; [done|]. split; [apply Hv|]. split; [|by apply (syn_put _ _ _ _ h o)].
      rewrite Habs3. apply (ids_rekey strict _ _ _ _ h o); try done; [apply Hv | unfold rekey in Hrk; lia].
    + exists (ids_ st), (recently_terminal_ st), (stats_ st), (estimates_ st), l. split; [by destruct st|].
      split; [done|]. split; [apply Hv|]. split; [apply Hv|]. split; [|by apply (syn_put _ _ _ _ h o)].
      pose proof (ids_unpend strict _ _ _ _ h o o' (v_ids _ _ _ Hv) Hh Hok Hst Hid' Hst') as H.
      unfold drop_pending in H. unfold rekey in Hrk. rewrite Hrk, andb_false_r in H. exact H.
Qed.

(** The best price after a replace, by the three cases of [apply_replace]. *)
Lemma best_after_replace m (st : Oms) h o o' open per q : op_ok (pool_ st) ->
  acct strict (orders st) (by_inst_ st) open per q -> best_inv strict m (best_own_ st) -> m !! h = Some o ->
  orders st = <[h := o']> m -> order_ok strict o' -> o_instrument o' = o_instrument o -> o_side o' = o_side o ->
  let i := o_instrument o in let s := o_side o in let best := best_own_px st i s in
  best_inv strict (orders st)
    (best_own_ (if (best =? 0) || better s (o_price o') best then set_best st i s (o_price o')
                else if o_price o =? best then recompute_best_own st i s else st)).
Proof.
  intros Hok Hac Hb Hm Eo Hok' Hi Hs i s best Hst i' s'. specialize (Hb Hst i' s') as Hbis.
  destruct (oo_price _ _ Hok' Hst) as [Hpos _].
  assert (Hon : on_side i s o' = true) by (apply on_side_iff; by rewrite Hi, Hs).
  assert (Hoth : ~ (i = i' /\ s = s') -> is_best (orders st) i' s' (default 0 (best_own_ st !! (i', side_ix s')))).
  { intros Hne. rewrite Eo. apply is_best_insert_other; [| |done].
    - destruct (on_side i' s' o') eqn:E; [|done]. apply on_side_iff in E as [? ?]. destruct Hne. unfold i, s. split; congruence.
    - intros x Hx. assert (x = o) as -> by congruence.
      destruct (on_side i' s' o) eqn:E; [|done]. by apply on_side_iff in E. }
  assert (Hins : forall px, ~ (i = i' /\ s = s') -> is_best (orders st) i' s'
    (default 0 (<[(i, side_ix s) := px]> (best_own_ st) !! (i', side_ix s')))).
  { intros px Hne. rewrite lookup_insert_ne by (by rewrite side_key). by apply Hoth. }
  destruct ((best =? 0) || better s (o_price o') best) eqn:Ec.
  - unfold set_best. cbn [best_own_ fupd]. destruct (decide (i = i' /\ s = s')) as [[<- <-] | Hne]; [|by apply Hins].
    rewrite lookup_insert_eq, Eo. by apply (is_best_take m i s best).
  - destruct (Z.eqb_spec (o_price o) best) as [E|E].
    + unfold recompute_best_own, set_best. cbn [best_own_ fupd].
      destruct (decide (i = i' /\ s = s')) as [[<- <-] | Hne]; [|by apply Hins].
      rewrite lookup_insert_eq. apply (recompute_spec st open per q); try done. unfold i. rewrite <- Hi. apply (oo_inst _ _ Hok').
    + destruct (decide (i = i' /\ s = s')) as [[<- <-] | Hne]; [|by apply Hoth].
      rewrite Eo. apply (is_best_keep m i s best); try done. intros x Hx _. congruence.
Qed.

(** The chain of assignments in [apply_replace] builds [replaced]. *)
Lemma replaced_chain o (rekey nv : bool) :
  let o1 := o <| o_cl_ord_id := if rekey then o_pending_cl_ord_id o else o_cl_ord_id o |> in
  let o2 := if nv then o1 <| o_cum_qty := 0 |> else o1 in
  let o3 := o2 <| o_price := o_pending_price o2 |> <| o_qty := o_pending_qty o2 |> in
  let o4 := if o_qty o3 <? o_cum_qty o3 then o3 <| o_cum_qty := o_qty o3 |> else o3 in
  let o5 := drop_flag (o4 <| o_pending_cl_ord_id := 0 |> <| o_pending_price := 0 |> <| o_pending_qty := 0 |>)
              kReplaceOldCanceled in
  o_price o2 = o_price o /\ leaves_qty o4 = leaves_qty (replaced o rekey nv) /\
  o5 <| o_state := if o_cum_qty o5 =? 0 then Live else PartiallyFilled |> = replaced o rekey nv.
Proof.
  cbv zeta. unfold replaced, leaves_qty. split; [by destruct nv|].
  split; destruct nv; cbn; match goal with |- context [?a <? ?b] => destruct (a <? b) end; reflexivity.
Qed.

Lemma apply_replace_inv (st : Oms) l u h o nv : Inv (orders st) st l -> orders st !! h = Some o ->
  o_state o = PendingReplace -> let rekey := negb (o_pending_cl_ord_id o =? o_cl_ord_id o) in
  (nv = true -> rekey = true) ->
  let '(u', o', st') := apply_replace u h o rekey nv st in
  o' = replaced o rekey nv /\ inv st' /\ orders st' = <[h := o']> (orders st).
Proof.
  intros Hv Hh Hst rekey Hnv. pose proof (settle_leg st l u h o nv Hv Hh Hst Hnv) as Hsl.
  pose proof (inv_order _ _ _ _ _ Hv Hh) as Hok. pose proof (replaced_ok o rekey nv Hok Hst) as Hok'.
  pose proof (replaced_chain o rekey nv) as (Eold & Elv & Eo6).
  unfold apply_replace. cbv zeta in *. fold rekey in Hsl.
  set (st0 := add_open_qty st _ _ (- leaves_qty o)) in *.
  destruct (if rekey && nv && (0 <? e_qty (estimate_at st0 h)) then _ else _) as [u1 st1] eqn:E1 in Hsl |- *.
  destruct Hsl as (ids' & ring' & stats' & est' & l' & E2 & Ho & Hik & Hrg & Hii & Hsy).
  replace (if rekey then (o <| o_cl_ord_id := o_pending_cl_ord_id o |>, drop_open st1 (o_cl_ord_id o)) else (o, st1))
    with (o <| o_cl_ord_id := if rekey then o_pending_cl_ord_id o else o_cl_ord_id o |>,
          if rekey then drop_open st1 (o_cl_ord_id o) else st1) by (destruct rekey; [done | by destruct o]).
  rewrite E2. cbv beta iota. rewrite Eo6, Eold, Elv. clear E1 E2 Eo6 Eold Elv.
  set (o' := replaced o rekey nv) in *. split; [done|].
  set (st3 := put _ h o'). destruct (op_set_spec (pool_ st) h o' (v_pool _ _ _ Hv) ltac:(by eexists)) as [Hpk Hpa].
  assert (Eo : orders st3 = <[h := o']> (orders st)) by exact Hpa.
  assert (Hq : open_qty_ st3 = bump_qty (open_qty_ st) (o_instrument o) (o_side o) (- leaves_qty o + leaves_qty o'))
    by (rewrite <- bump_bump; reflexivity).
  assert (Hac : acct strict (orders st3) (by_inst_ st3) (s_open stats') (open_per_inst_ st3) (open_qty_ st3)).
  { rewrite Eo, Hq, Ho. apply (acct_change strict _ _ _ _ _ h o); try done; [apply Hv | lia]. }
  pose proof (best_after_replace (orders st) st3 h o o' _ _ _ Hpk Hac (v_best _ _ _ Hv) Hh Eo Hok' eq_refl eq_refl) as Hbest.
  assert (Hrest : forall best, best_inv strict (orders st3) best ->
    inv (st3 <| best_own_ := best |>) /\ orders (st3 <| best_own_ := best |>) = <[h := o']> (orders st)).
  { intros best Hb2. split; [|exact Eo]. exists l'. change (orders (st3 <| best_own_ := best |>)) with (orders st3).
    split; try done; rewrite Eo; done. }
  cbv zeta in Hbest. destruct ((_ =? 0) || _); [exact (Hrest _ Hbest)|].
  destruct (o_price o =? _); exact (Hrest _ Hbest).
Qed.
End step.
