(* ===== verification/OmsOps.v ===== *)
(** * OmsOps: the operations of the order manager, one by one

    Each public operation keeps [inv]; [reach] closes the initial state under
    them, with the conditions a caller owes (a valid id for a replace, quantities
    that are non-negative [int64]s), and every reachable state satisfies [inv]. *)

From Stdlib Require Import Sorted.
From S2P Require Import Prelude Types Orders MapSum RingBuffer BucketBits Interfaces Oms OmsInv OmsStep.

#[local] Arguments i64 : simpl never.
#[local] Arguments u32 : simpl never.
#[local] Arguments Z.ltb : simpl never.

Section ops.
Context {M P R : Type} `{IM : IdMap M} `{OP : ObjPool P Order} `{SN : Seen R}.
Notation Oms := (Oms M P R).
Hypothesis Hcap : op_cap = kMaxOpenOrders.
Hypothesis Hids : 3 * kMaxOpenOrders < im_cap.
Context (strict : Prop).
Notation Inv := (Inv strict).
Notation inv := (inv strict).

(** ** Looking an id up *)

Lemma lookup_spec (st : Oms) l id u : Inv (orders st) st l ->
  let '(h, u') := lookup id u st in
  (exists o, orders st !! h = Some o /\ handle_valid h = true /\ get st h = o /\
     (o_cl_ord_id o = id \/ o_state o = PendingReplace /\ o_pending_cl_ord_id o = id) /\
     u' = u <| u_known := true |> <| u_handle := h |>) \/
  (h = kNullHandle /\ handle_valid h = false /\ open_handle st id = kNullHandle).
Proof.
  intros Hv. unfold lookup, open_handle. rewrite im_find_spec by apply Hv.
  destruct (im_abs (ids_ st) !! id) as [v|] eqn:Ev; [|by right].
  destruct (is_terminal_ref v) eqn:Et; cbn [negb].
  - destruct (find_terminal st id); by right.
  - left. destruct (id_open _ _ _ _ (v_ids _ _ _ _ Hv) id v Ev Et) as (o & Ho & Hc).
    exists o. split; [done|]. split; [apply slot_valid, (inv_slots _ _ _ _ Hv); by eexists|].
    split; [|done]. apply get_spec; [apply Hv | done].
Qed.

Lemma open_handle_free (st : Oms) l id v : Inv (orders st) st l -> handle_valid (open_handle st id) = false ->
  im_abs (ids_ st) !! id = Some v -> is_terminal_ref v = true.
Proof.
  intros Hv Hh Hid. unfold open_handle in Hh. rewrite im_find_spec, Hid in Hh by apply Hv.
  destruct (is_terminal_ref v) eqn:Et; [done|].
  destruct (id_open _ _ _ _ (v_ids _ _ _ _ Hv) id v Hid Et) as (o & Ho & _).
  rewrite (slot_valid v) in Hh; [done|]. apply (inv_slots _ _ _ _ Hv). by eexists.
Qed.

(** The id table never refuses: it has room for two ids per slot and one per record. *)
Lemma ids_room (st : Oms) l : Inv (orders st) st l -> Z.of_nat (size (im_abs (ids_ st))) < im_cap.
Proof.
  intros Hv. pose proof (ids_size _ _ _ _ (v_ids _ _ _ _ Hv)). pose proof (ring_len _ _ _ _ Hv).
  pose proof (msum_one_bound _ (inv_slots _ _ _ _ Hv)) as Hb. rewrite msum_size in Hb.
  unfold kMaxOpenOrders, kRecentlyTerminal in *. lia.
Qed.

Lemma live_order (st : Oms) l h : Inv (orders st) st l -> 0 <= h -> is_live st h = true ->
  exists o, orders st !! h = Some o /\ get st h = o.
Proof.
  intros Hv Hh Hl. apply op_live_spec in Hl as [o Ho]; [|apply Hv|done]. exists o. split; [done|].
  apply get_spec; [apply Hv | done].
Qed.

(** ** Outbound *)

Lemma state_put (st : Oms) l h o s : Inv (orders st) st l -> orders st !! h = Some o ->
  o_state o <> PendingReplace -> s <> PendingReplace -> is_terminal s = false ->
  inv (put st h (o <| o_state := s |>)).
Proof.
  intros Hv Ho Hn Hs Ht. pose proof (inv_order _ _ _ _ _ _ Hv Ho) as Hok. exists l. apply put_inv; [|by eexists].
  apply (change_inv _ _ _ _ h o); try done. destruct Hok as [? ? ? Hp Hno Hpx]. split; cbn; try done.
  - intros _. by apply Hno.
  - intros Hst. split; [by apply Hpx | done].
Qed.

Lemma request_cancel_inv (st : Oms) h : inv st -> 0 <= h -> inv (snd (request_cancel h st)).
Proof.
  intros [l Hv] Hh. unfold request_cancel. destruct (is_live st h) eqn:El; cbn [negb]; [|by exists l].
  destruct (live_order st l h Hv Hh El) as (o & Ho & ->). unfold is_working.
  destruct (o_state o) eqn:Es; cbn [negb snd]; try (by exists l); by apply (state_put st l); rewrite ?Es.
Qed.

Lemma request_cancel_unacked_inv (st : Oms) h : inv st -> 0 <= h -> inv (snd (request_cancel_unacked h st)).
Proof.
  intros [l Hv] Hh. unfold request_cancel_unacked. destruct (is_live st h) eqn:El; cbn [negb]; [|by exists l].
  destruct (live_order st l h Hv Hh El) as (o & Ho & ->). case_bool_decide as Es; cbn [negb snd]; [|by exists l].
  by apply (state_put st l); rewrite ?Es.
Qed.

Lemma request_replace_inv (st : Oms) h id px q now : inv st -> 0 <= h -> id <> 0 -> 0 <= q <= i64_max ->
  (strict -> 0 < px) -> inv (snd (request_replace h id px q now st)).
Proof.
  intros [l Hv] Hh Hid Hq Hpx. unfold request_replace. destruct (is_live st h) eqn:El; cbn [negb]; [|by exists l].
  destruct (live_order st l h Hv Hh El) as (o & Ho & ->).
  assert (Hw : is_working o = true -> o_state o <> PendingReplace) by (unfold is_working; by destruct (o_state o)).
  destruct (is_working o) eqn:Ew; cbn [negb]; [|by exists l]. specialize (Hw eq_refl).
  pose proof (inv_order _ _ _ _ _ _ Hv Ho) as Hok. cbv zeta.
  set (o' := o <| o_pending_cl_ord_id := id |> <| o_pending_price := px |> <| o_pending_qty := q |>
               <| o_state := PendingReplace |>).
  assert (Hok' : order_ok strict o').
  { destruct Hok as [? ? ? Hp Hno Hp2]. split; cbn; try done. intros Hst. split; [by apply Hp2 | auto]. }
  assert (Hfin : forall ids', im_ok ids' ->
    im_abs ids' = (if id =? o_cl_ord_id o then im_abs (ids_ st) else <[id := h]> (im_abs (ids_ st))) ->
    (id = o_cl_ord_id o \/ forall v, im_abs (ids_ st) !! id = Some v -> is_terminal_ref v = true) ->
    inv (put (st <| ids_ := ids' |>) h o')).
  { intros ids' Hik Hia Hnew. exists l. apply put_inv; [|by eexists]. change (orders (st <| ids_ := ids' |>)) with (orders st).
    pose proof Hv as [H1 H2 Hb H3 H4 H5 H6]. split; cbn; try done.
    - by apply (acct_put _ _ _ _ _ _ h o).
    - by apply (best_put _ _ _ h o).
    - rewrite Hia. apply (ids_request (orders st) _ _ _ h o); try done. apply (inv_slots _ _ _ _ Hv).
    - by apply (syn_put _ _ _ _ h o). }
  assert (Hset : forall st1 : Oms, inv st1 -> forall t, inv (set_times st1 h t)).
  { intros st1 [l1 Hv1] t. exists l1. by apply (Inv_frame _ _ st1). }
  destruct (Z.eqb_spec id (o_cl_ord_id o)) as [-> | Hne]; cbn [negb].
  - cbn [snd]. apply Hset. replace st with (st <| ids_ := ids_ st |>) by by destruct st.
    apply Hfin; [apply Hv | done | by left].
  - destruct (handle_valid (open_handle st id)) eqn:Eh; [by exists l|]. unfold add_open.
    destruct (im_assign_spec (ids_ st) id h ltac:(apply Hv) (or_intror (ids_room st l Hv))) as (ids' & -> & Hik & Hia).
    cbn [negb snd]. apply Hset, Hfin; [done | done |]. right. intros v. by apply (open_handle_free st l).
Qed.

(** A new order in the pool, its id, bucket, accounting and best price. *)
Lemma add_order_inv (st : Oms) l h o pool ids' stats' : Inv (orders st) st l -> order_ok strict o ->
  op_ok pool -> op_abs pool = <[h := o]> (orders st) -> orders st !! h = None -> 0 <= h < kMaxOpenOrders ->
  (forall v, im_abs (ids_ st) !! o_cl_ord_id o = Some v -> is_terminal_ref v = true) ->
  o_state o = PendingNew -> o_cum_qty o = 0 -> im_ok ids' ->
  im_abs ids' = <[o_cl_ord_id o := h]> (im_abs (ids_ st)) ->
  s_open stats' = u32 (s_open (stats_ st) + 1) -> s_synthetic_pending stats' = s_synthetic_pending (stats_ st) ->
  let i := o_instrument o in let best := best_own_px st i (o_side o) in
  forall times, inv (st <| pool_ := pool |> <| ids_ := ids' |> <| stats_ := stats' |>
    <| by_inst_ := Buckets.set kMaxOpenOrders (by_inst_ st) (inst_bucket i) h |>
    <| times_ := times |> <| estimates_ := <[h := no_estimate]> (estimates_ st) |>
    <| open_per_inst_ := <[i := u32 (open_count_inst st i + 1)]> (open_per_inst_ st) |>
    <| open_qty_ := bump_qty (open_qty_ st) i (o_side o) (o_qty o) |>
    <| best_own_ := if (best =? 0) || better (o_side o) (o_price o) best
                    then <[(i, side_ix (o_side o)) := o_price o]> (best_own_ st) else best_own_ st |>).
Proof.
  intros Hv Hok Hpk Hpa Hnone Hslot Hnew Hst Hcum Hik Hia Hso Hsy i best times.
  pose proof Hv as [H1 H2 Hb H3 H4 H5 H6]. exists l.
  assert (Eo : forall st' : Oms, pool_ st' = pool -> orders st' = <[h := o]> (orders st))
    by (intros st' E; unfold orders; by rewrite E).
  rewrite Eo by done. split; cbn; try done.
  - rewrite Hso. apply acct_add; try done. unfold leaves_qty. rewrite Hcum, Z.sub_0_r. apply i64_id.
    destruct (oo_qty _ _ Hok). width.
  - intros Hs i' s'. specialize (Hb Hs i' s'). destruct (oo_price _ _ Hok Hs) as [Hpos _].
    assert (Hon : on_side i (o_side o) o = true) by by apply on_side_iff.
    destruct (decide (i = i' /\ o_side o = s')) as [[<- <-] | Hne].
    + destruct ((best =? 0) || better (o_side o) (o_price o) best) eqn:Ec.
      * rewrite lookup_insert_eq. by apply (is_best_take _ _ _ best).
      * apply is_best_keep; try done. intros x Hx. congruence.
    + assert (Hoth : is_best (<[h := o]> (orders st)) i' s' (default 0 (best_own_ st !! (i', side_ix s')))).
      { apply is_best_insert_other; [|intros x Hx; congruence|done].
        destruct (on_side i' s' o) eqn:E; [|done]. by apply on_side_iff in E. }
      case_if; [|done]. by rewrite lookup_insert_ne by (by rewrite side_key).
  - rewrite Hia. apply ids_add; try done; [by rewrite Hst | apply (inv_slots _ _ _ _ Hv)].
  - rewrite Hsy. by apply syn_add.
Qed.

Lemma submit_inv (st : Oms) req id now : inv st -> 0 <= r_instrument req -> 0 <= r_qty req <= i64_max ->
  (strict -> 0 < r_price req) -> inv (snd (submit req id now st)).
Proof.
  intros [l Hv] Hi Hq Hpx. unfold submit. destruct (Z.leb_spec kMaxInstruments (r_instrument req)) as [|Hlt]; [by exists l|].
  destruct (handle_valid (open_handle st id)) eqn:Eh; [by exists l|].
  destruct (op_allocate (pool_ st)) as [h pool] eqn:Ea.
  destruct (handle_valid h) eqn:Ehv; cbn [negb].
  2: { unfold handle_valid in Ehv. assert (h = kNullHandle) as -> by lia.
       destruct (op_allocate_null (pool_ st) pool (v_pool _ _ _ _ Hv) Ea) as [-> _]. exists l. cbn [snd]. by destruct st. }
  assert (Hne : h <> kNullHandle) by (unfold handle_valid in Ehv; lia).
  destruct (op_allocate_some (pool_ st) h pool (v_pool _ _ _ _ Hv) Ea Hne) as (Hh & Hnone & Hset & _).
  rewrite Hcap in Hh. cbv zeta. unfold add_open. cbn [ids_ pool_ fupd].
  destruct (im_assign_spec (ids_ st) id h ltac:(apply Hv) (or_intror (ids_room st l Hv))) as (ids' & -> & Hik & Hia).
  cbn [negb]. set (o := no_order <| o_cl_ord_id := id |> <| o_instrument := _ |> <| o_venue := _ |>
    <| o_side := _ |> <| o_type := _ |> <| o_tif := _ |> <| o_flags := _ |> <| o_state := _ |> <| o_price := _ |>
    <| o_qty := _ |> <| o_created := _ |> <| o_user_tag := _ |>).
  destruct (Hset o) as [Hpk Hpa].
  assert (Hok : order_ok strict o) by (split; cbn; try done; first [lia | intros Hst; split; [by apply Hpx | done]]).
  pose proof (add_order_inv st l h o (op_set pool h o) ids'
    ((stats_ st) <| s_submitted ::= inc |> <| s_open ::= fun x => u32 (x + 1) |>) Hv Hok Hpk Hpa Hnone Hh
    ltac:(intros v; by apply (open_handle_free st l)) eq_refl eq_refl Hik Hia eq_refl eq_refl
    (<[h := mkTimesSlot (mkTimes now 0 0) 0]> (times_ st))) as Hinv.
  cbv zeta in Hinv. cbn [snd]. revert Hinv.
  match goal with |- inv ?a -> inv ?b => replace b with a; [done|] end.
  unfold best_own_px, set_best. cbn. case_if; reflexivity.
Qed.

(** ** Inbound *)

Lemma frame_stats (st : Oms) f : inv st -> (forall s, s_open (f s) = s_open s) ->
  (forall s, s_synthetic_pending (f s) = s_synthetic_pending s) -> inv (stat st f).
Proof. intros [l Hv] H1 H2. exists l. apply (Inv_frame _ _ st); try done; [apply H1 | apply H2]. Qed.

(** The state a working order falls back to. *)
Lemma working_cases o : working_state o = Live \/ working_state o = PartiallyFilled.
Proof. unfold working_state. case_if; eauto. Qed.

Lemma on_ack_inv (st : Oms) m : inv st -> inv (snd (on_ack m st)).
Proof.
  intros [l Hv]. unfold on_ack. pose proof (lookup_spec st l (ack_cl_ord_id m) new_update Hv) as Hl.
  destruct (lookup _ _ _) as [h u]. destruct Hl as [(o & Ho & Hval & Hget & _ & _) | (_ & Hval & _)]; rewrite Hval; cbn [negb].
  2: { destruct (u_known u); cbn [negb]; [|apply frame_stats; [by exists l|done|done]].
       case_if; by exists l. }
  rewrite Hget. pose proof (inv_order _ _ _ _ _ _ Hv Ho) as Hok.
  assert (Hdef : inv (if (ack_cl_ord_id m =? o_cl_ord_id o) && negb (ts_valid (t_venue_ack (ts_t (times_at st h))))
    then set_times st h ((times_at st h) <| ts_t := (ts_t (times_at st h)) <| t_venue_ack := h_exch_ts (ack_hdr m) |> |>)
    else st)).
  { exists l. case_if; [|done]. by apply (Inv_frame _ _ st). }
  destruct (o_state o) eqn:Es; try exact Hdef.
  - cbn [snd]. set (o' := o <| o_state := Live |> <| o_venue_order_id := _ |>).
    assert (Hv1 : Inv (orders (put st h o')) (put st h o') l).
    { apply put_inv; [|by eexists]. apply (change_inv _ _ _ _ h o); try done; [|by rewrite Es].
      destruct Hok as [? ? ? Hp Hno Hpx]. split; cbn; try done.
      - intros _. apply Hno. by rewrite Es.
      - intros Hst. split; [by apply Hpx | done]. }
    exists l. by apply (Inv_frame _ _ (put st h o')).
  - destruct (Z.eqb_spec (ack_cl_ord_id m) (o_pending_cl_ord_id o)) as [_|_]; [|by exists l]. cbv zeta.
    set (nv := negb _ && _).
    pose proof (apply_replace_inv strict st l (u <| u_prev := PendingReplace |>) h o nv Hv Ho Es
      ltac:(intros H; unfold nv in H; by apply andb_true_iff in H as [? _])) as Har. cbv zeta in Har.
    destruct (apply_replace _ h o _ nv st) as [[u' o'] st'].
    destruct Har as (Eo' & [l' Hv'] & Hor).
    cbn [snd]. set (o2 := o' <| o_venue_order_id := _ |>).
    assert (Ho' : orders st' !! h = Some o') by (rewrite Hor; apply lookup_insert_eq).
    assert (Hv2 : Inv (orders (put st' h o2)) (put st' h o2) l').
    { apply put_inv; [|by eexists]. apply (change_inv _ _ _ _ h o'); try done.
      destruct (inv_order _ _ _ _ _ _ Hv' Ho'). by split. }
    exists l'. by apply (Inv_frame _ _ (put st' h o2)).
Qed.

(** Ending an order from a copy that differs from the pool's only where the records do not look. *)
Lemma end_inv (st : Oms) l u h o o' final br : Inv (orders st) st l -> orders st !! h = Some o ->
  order_ok strict o' ->
  o_cl_ord_id o' = o_cl_ord_id o -> o_pending_cl_ord_id o' = o_pending_cl_ord_id o ->
  o_state o' = o_state o -> o_instrument o' = o_instrument o -> o_side o' = o_side o -> o_price o' = o_price o ->
  leaves_qty o' = leaves_qty o -> inv (snd (terminate u h o' final br st)).
Proof.
  intros Hv Ho Hok' Hid Hp Hst Hi Hs Hpx Hl. apply (terminate_inv strict st l); [|by eexists].
  apply (change_inv _ _ _ _ h o); try done. by rewrite Hst.
Qed.

(** A replace refused: the copy and the ids after [clear_pending]. *)
Lemma clear_pending_inv (st : Oms) l h o s : Inv (orders st) st l -> orders st !! h = Some o ->
  o_state o = PendingReplace -> s <> PendingReplace -> is_terminal s = false ->
  let '(o', st') := clear_pending o st in
  Inv (<[h := o' <| o_state := s |>]> (orders st')) st' l /\ orders st' = orders st /\
  o_cum_qty o' = o_cum_qty o.
Proof.
  intros Hv Ho Hst Hs Ht. unfold clear_pending. pose proof (inv_order _ _ _ _ _ _ Hv Ho) as Hok.
  destruct (drop_pending_spec strict (orders st) st st l h o Hv Ho eq_refl) as (ids' & -> & Hik & Hia).
  split; [|done]. change (orders (st <| ids_ := ids' |>)) with (orders st). set (o' := (drop_flag _ _) <| o_state := s |>).
  assert (Hok' : order_ok strict o').
  { destruct Hok as [? ? ? Hp Hno Hpx]. split; cbn; try done. intros Hstr. split; [by apply Hpx | done]. }
  pose proof Hv as [H1 H2 Hb H3 H4 H5 H6]. split; cbn; try done.
  - by apply (acct_put _ _ _ _ _ _ h o).
  - by apply (best_put _ _ _ h o).
  - rewrite Hia. by apply (ids_unpend strict _ _ _ _ h o).
  - by apply (syn_put _ _ _ _ h o).
Qed.

(** The state an order is in does not matter to [terminate], which sets it. *)
Lemma terminate_state (u : OmsUpdate) h o s final br (st : Oms) :
  terminate u h (o <| o_state := s |>) final br st = terminate u h o final br st.
Proof. reflexivity. Qed.

Lemma on_reject_inv (st : Oms) m : inv st -> inv (snd (on_reject m st)).
Proof.
  intros [l Hv]. unfold on_reject. pose proof (lookup_spec st l (rej_cl_ord_id m) new_update Hv) as Hl.
  destruct (lookup _ _ _) as [h u]. destruct Hl as [(o & Ho & Hval & Hget & _ & _) | (_ & Hval & _)]; rewrite Hval; cbn [negb];
    [|by exists l].
  rewrite Hget. pose proof (inv_order _ _ _ _ _ _ Hv Ho) as Hok. case_bool_decide as Es1.
  - apply (end_inv _ l _ h o); try done; [by apply (Inv_frame _ _ st)|]. by destruct Hok.
  - destruct (bool_decide (o_state o = PendingReplace) && _) eqn:Ec; [|by exists l].
    apply andb_true_iff in Ec as [Es2%bool_decide_eq_true _].
    destruct (has o kReplaceOldCanceled).
    + pose proof (clear_pending_inv st l h o Live Hv Ho Es2 ltac:(done) eq_refl) as Hcp.
      destruct (clear_pending o st) as [o' st']. destruct Hcp as (Hv' & Hor & _).
      rewrite <- (terminate_state _ h o' Live). apply (terminate_inv strict st' l); [done|]. rewrite Hor. by eexists.
    + assert (Hs : exists s, s <> PendingReplace /\ is_terminal s = false /\ working_state (fst (clear_pending o st)) = s).
      { destruct (working_cases (fst (clear_pending o st))) as [-> | ->]; [exists Live | exists PartiallyFilled]; done. }
      destruct Hs as (s & Hs1 & Hs2 & Hs3).
      pose proof (clear_pending_inv st l h o s Hv Ho Es2 Hs1 Hs2) as Hcp.
      destruct (clear_pending o st) as [o' st']. destruct Hcp as (Hv' & Hor & _). cbn [fst] in Hs3. rewrite Hs3.
      cbn [snd]. exists l. apply put_inv; [done|]. rewrite Hor. by eexists.
Qed.

(** The sum of an order's estimate and its quantity stays an [int64]. *)
Definition est_room (st : Oms) : Prop :=
  forall h o, orders st !! h = Some o -> e_qty (estimate_at st h) + o_qty o <= i64_max.

Lemma on_cancel_ack_inv (st : Oms) m : inv st -> est_room st -> inv (snd (on_cancel_ack m st)).
Proof.
  intros [l Hv] Hroom. unfold on_cancel_ack. pose proof (lookup_spec st l (ca_cl_ord_id m) new_update Hv) as Hl.
  destruct (lookup _ _ _) as [h u]. destruct Hl as [(o & Ho & Hval & Hget & _ & _) | (_ & Hval & _)]; rewrite Hval; cbn [negb];
    [|by exists l].
  rewrite Hget. cbv zeta. destruct (absorb_cum h o _ _ st) as [[o1 u1] st1] eqn:Ea.
  destruct (absorb_inv _ _ _ _ _ _ _ _ _ _ Hv Ho (Hroom h o Ho) Ea) as (Hv1 & Ho1 & _ & _).
  pose proof (inv_order _ _ _ _ _ _ Hv1 Ho1) as Hok1.
  destruct (bool_decide (o_state o1 = PendingReplace) && _) eqn:Ec.
  - cbn [snd]. exists l. apply put_inv; [|by eexists]. apply (change_inv _ _ _ _ h o1); try done. by destruct Hok1.
  - destruct (o_qty o1 <=? o_cum_qty o1) eqn:Ef.
    + apply (end_inv _ l _ h o1); try done. by apply (Inv_frame _ _ st1).
    + destruct (bool_decide (o_state o1 = PendingCancel)); cbn [negb].
      * by apply (end_inv _ l _ h o1).
      * apply (end_inv _ l _ h o1); try done; [by apply (Inv_frame _ _ st1) | by destruct Hok1].
Qed.

Lemma on_cancel_reject_inv (st : Oms) m : inv st -> inv (snd (on_cancel_reject m st)).
Proof.
  intros [l Hv]. unfold on_cancel_reject. pose proof (lookup_spec st l (cr_cl_ord_id m) new_update Hv) as Hl.
  destruct (lookup _ _ _) as [h u]. destruct Hl as [(o & Ho & Hval & Hget & _ & _) | (_ & Hval & _)]; rewrite Hval; cbn [negb];
    [|by exists l].
  rewrite Hget. pose proof (inv_order _ _ _ _ _ _ Hv Ho) as Hok.
  case_bool_decide as Es; cbn [negb]; [|by exists l]. case_bool_decide as Er; [by apply (end_inv _ l _ h o)|].
  cbn [snd]. exists l. apply put_inv; [|by eexists]. destruct (working_cases o) as [Ew | Ew];
    (apply (change_inv _ _ _ _ h o); cbn; try done; rewrite ?Ew, ?Es; try done;
     destruct Hok as [? ? ? Hp Hno Hpx]; split; cbn; rewrite ?Ew; try done;
     [intros _; apply Hno; by rewrite Es | intros Hst; split; [by apply Hpx | done]]).
Qed.

Lemma on_expired_inv (st : Oms) m : inv st -> est_room st -> inv (snd (on_expired m st)).
Proof.
  intros [l Hv] Hroom. unfold on_expired. pose proof (lookup_spec st l (ex_cl_ord_id m) new_update Hv) as Hl.
  destruct (lookup _ _ _) as [h u]. destruct Hl as [(o & Ho & Hval & Hget & _ & _) | (_ & Hval & _)]; rewrite Hval; cbn [negb];
    [|by exists l].
  rewrite Hget. cbv zeta. destruct (absorb_cum h o _ _ st) as [[o1 u1] st1] eqn:Ea.
  destruct (absorb_inv _ _ _ _ _ _ _ _ _ _ Hv Ho (Hroom h o Ho) Ea) as (Hv1 & Ho1 & _ & _).
  pose proof (inv_order _ _ _ _ _ _ Hv1 Ho1) as Hok1.
  case_if; (apply (end_inv _ l _ h o1); [by apply (Inv_frame _ _ st1) | done..]).
Qed.

Lemma late_fill_inv (st : Oms) m u : inv st -> inv (snd (late_fill m u st)).
Proof.
  intros [l Hv]. unfold late_fill.
  destruct (find_terminal_spec strict _ st l (f_cl_ord_id m) Hv) as [(v & k & r & _ & _ & Hk & Hid & Ef & Hring) | [_ Ef]];
    rewrite Ef; [|by exists l].
  cbv zeta. set (cum := if tr_qty r <? _ then _ else _). destruct (cum <=? tr_cum_qty r); [by exists l|].
  destruct ((tr_qty r <=? cum) && _); cbn [snd]; set (r' := r <| tr_cum_qty := cum |> <| tr_state ::= _ |>);
    exists (<[k := r']> l); apply (record_inv strict _ st _ l (f_cl_ord_id m) k r r' Hv Hk (Hring r')); try done;
    cbn; lia.
Qed.

Lemma settle_inv (st : Oms) h m u : inv st -> (h = kNullHandle \/ is_Some (orders st !! h)) ->
  inv (snd (settle_estimate h m u st)) /\ orders (snd (settle_estimate h m u st)) = orders st.
Proof.
  intros [l Hv] Hh. unfold settle_estimate.
  assert (Hsame : inv st /\ orders st = orders st) by (split; [by exists l | done]).
  repeat case_if; first [exact Hsame | by apply (take_inv strict st l)].
Qed.

Lemma fill_order_inv (st : Oms) h m u : inv st -> is_Some (orders st !! h) -> inv (snd (fill_order h m u st)).
Proof.
  intros [l Hv] [o Ho]. unfold fill_order. rewrite (get_spec st h o (v_pool _ _ _ _ Hv) Ho). cbv zeta.
  pose proof (inv_order _ _ _ _ _ _ Hv Ho) as Hok. destruct (oo_qty _ _ Hok) as [Hc1 Hc2].
  set (cum0 := if 0 <? f_cum_qty m then _ else _).
  set (cum := if o_qty o <? (if cum0 <? o_cum_qty o then o_cum_qty o else cum0) then _ else _).
  assert (Hcum : o_cum_qty o <= cum <= o_qty o) by (unfold cum; zcase).
  set (o1 := if str_empty _ then _ else _).
  assert (Hf : o_cl_ord_id o1 = o_cl_ord_id o /\ o_pending_cl_ord_id o1 = o_pending_cl_ord_id o /\
    o_state o1 = o_state o /\ o_instrument o1 = o_instrument o /\ o_side o1 = o_side o /\ o_price o1 = o_price o /\
    o_qty o1 = o_qty o /\ o_cum_qty o1 = cum /\ o_pending_qty o1 = o_pending_qty o /\ o_pending_price o1 = o_pending_price o)
    by (unfold o1; cbn; case_if; done).
  destruct Hf as (F1 & F2 & F3 & F4 & F5 & F6 & F7 & F8 & F9 & F10).
  assert (Hok1 : order_ok strict o1).
  { destruct Hok as [? ? ? Hp Hno Hpx]. split; rewrite ?F1, ?F2, ?F3, ?F4, ?F5, ?F6, ?F7, ?F8, ?F9, ?F10; try done; lia. }
  destruct (advance_inv strict st l h o o1 cum Hv Ho Hcum Hok1 F1 F2) as [Hv1 Hor]; try done; [by rewrite F3|].
  set (st1 := put _ h o1) in *.
  assert (Ho1 : orders st1 !! h = Some o1) by (rewrite Hor; apply lookup_insert_eq).
  destruct (o_qty o1 <=? o_cum_qty o1).
  - apply (end_inv _ l _ h o1); [by apply (Inv_frame _ _ st1) | done..].
  - cbn [snd]. exists l. apply put_inv; [|by eexists].
    assert (Hpf : o_state o1 <> PendingReplace ->
      Inv (<[h := o1 <| o_state := PartiallyFilled |>]> (orders st1)) st1 l).
    { intros Hn. apply (change_inv _ _ _ _ h o1); try done. destruct Hok1 as [? ? ? Hp Hno Hpx].
      split; cbn; try done; [intros _; by apply Hno | intros Hst; split; [by apply Hpx | done]]. }
    destruct (o_state o1) eqn:Es; try (by apply Hpf); by rewrite insert_id.
Qed.

Lemma on_fill_inv (st : Oms) m : inv st -> inv (snd (on_fill m st)).
Proof.
  intros Hi. unfold on_fill.
  assert (Hseen : exists b st1, (if negb (str_empty (f_exec_id m)) then
      let '(fresh, st) := remember_exec m st in (negb fresh, st) else (false, st)) = (b, st1) /\ inv st1).
  { case_if; [|by exists false, st]. unfold remember_exec. destruct (sn_assign _ _) as [fresh r].
    do 2 eexists. split; [reflexivity|]. destruct Hi as [l Hv]. exists l. by apply (Inv_frame _ _ st). }
  destruct Hseen as (b & st1 & -> & Hi1). destruct b; [by apply frame_stats|].
  pose proof Hi1 as [l Hv]. set (u0 := new_update <| u_fill_qty := _ |> <| u_fill_px := _ |>).
  pose proof (lookup_spec st1 l (f_cl_ord_id m) u0 Hv) as Hl. destruct (lookup _ _ _) as [h u].
  assert (Hh : h = kNullHandle \/ is_Some (orders st1 !! h)).
  { destruct Hl as [(o & Ho & _) | (-> & _)]; [right; by eexists | by left]. }
  destruct (settle_inv st1 h m u Hi1 Hh) as [Hi2 Hor2].
  destruct (settle_estimate h m u st1) as [u2 st2]. cbn [snd] in *.
  set (st3 := stat st2 _). assert (Hi3 : inv st3) by by apply frame_stats.
  assert (Hor3 : orders st3 = orders st1) by exact Hor2.
  destruct Hl as [(o & Ho & Hval & _) | (_ & Hval & _)]; rewrite Hval; cbn [negb].
  - apply (fill_order_inv st3 h m u2); [done|]. rewrite Hor3. by eexists.
  - destruct (u_known u2); [apply late_fill_inv; by apply frame_stats | by apply frame_stats].
Qed.

(** ** Reconciliation and the sweep *)

Lemma flag_inv (st : Oms) l h o o' : Inv (orders st) st l -> orders st !! h = Some o ->
  (exists fl, o' = o <| o_flags := fl |>) -> Inv (orders (put st h o')) (put st h o') l.
Proof.
  intros Hv Ho [fl ->]. apply put_inv; [|by eexists]. apply (change_inv _ _ _ _ h o); try done.
  by destruct (inv_order _ _ _ _ _ _ Hv Ho).
Qed.

Lemma reconcile_begin_inv (st : Oms) v w : inv st -> inv (reconcile_begin v w st).
Proof.
  intros [l Hv]. unfold reconcile_begin. set (st0 := st <| recon_scope_ := _ |>).
  assert (Hv0 : Inv (orders st0) st0 l) by by apply (Inv_frame _ _ st).
  destruct (op_handles_spec (pool_ st) (v_pool _ _ _ _ Hv)) as [_ Hin].
  assert (Hall : forall h, h ∈ op_handles (pool_ st0) -> is_Some (orders st0 !! h)) by (intros h; apply Hin).
  exists l. revert Hv0 Hall. generalize (op_handles (pool_ st0)). generalize st0. clear.
  intros st0 hs. revert st0. induction hs as [|h hs IH]; intros st0 Hv Hall; [done|]. cbn [fold_left].
  destruct (Hall h (list_elem_of_here _ _)) as [o Ho]. rewrite (get_spec st0 h o (v_pool _ _ _ _ Hv) Ho). case_if.
  - destruct (put_orders st0 h (drop_flag o kSeenInReconcile) (v_pool _ _ _ _ Hv) ltac:(by eexists)) as [_ Eo].
    apply IH; [apply (flag_inv st0 l h o); [done|done|by eexists]|].
    intros k Hk. rewrite Eo. destruct (Z.eq_dec h k) as [<- |]; [rewrite lookup_insert_eq; by eexists|].
    rewrite lookup_insert_ne by done. apply Hall. by right.
  - apply IH; [done|]. intros k Hk. apply Hall. by right.
Qed.

Lemma reconcile_open_order_inv (st : Oms) m : inv st -> est_room st -> inv (snd (reconcile_open_order m st)).
Proof.
  intros [l Hv] Hroom. unfold reconcile_open_order. pose proof (lookup_spec st l (rc_cl_ord_id m) new_update Hv) as Hl.
  destruct (lookup _ _ _) as [h u]. destruct Hl as [(o & Ho & Hval & Hget & _ & _) | (_ & Hval & _)]; rewrite Hval; cbn [negb];
    [|apply frame_stats; [by exists l|done|done]].
  rewrite Hget. cbv zeta. set (o0 := if negb (str_empty _) || _ then _ else _).
  assert (Hf : exists fl vid, o0 = o <| o_flags := fl |> <| o_venue_order_id := vid |>).
  { unfold o0. case_if; [by do 2 eexists|].
    exists (Z.lor (o_flags o) (Z.lor kSeenInReconcile kReconciled)), (o_venue_order_id o). by destruct o. }
  destruct Hf as (fl & vid & Ef). assert (Hok0 : order_ok strict o0).
  { rewrite Ef. by destruct (inv_order _ _ _ _ _ _ Hv Ho). }
  set (st0 := put st h o0).
  assert (Hv0 : Inv (orders st0) st0 l).
  { apply put_inv; [|by eexists]. apply (change_inv _ _ _ _ h o); try done; by rewrite Ef. }
  destruct (put_orders st h o0 (v_pool _ _ _ _ Hv) ltac:(by eexists)) as [_ Eo]. fold st0 in Eo.
  assert (Ho0 : orders st0 !! h = Some o0) by (rewrite Eo; apply lookup_insert_eq).
  destruct (absorb_cum h o0 _ _ st0) as [[o1 u1] st1] eqn:Ea.
  assert (Hr : e_qty (estimate_at st0 h) + o_qty o0 <= i64_max) by (rewrite Ef; apply (Hroom h o Ho)).
  destruct (absorb_inv _ _ _ _ _ _ _ _ _ _ Hv0 Ho0 Hr Ea) as (Hv1 & Ho1 & _ & _).
  pose proof (inv_order _ _ _ _ _ _ Hv1 Ho1) as Hok1. case_bool_decide as Es; cbn [snd].
  - destruct (working_cases o1) as [Ew | Ew]; rewrite Ew; apply (state_put st1 l); rewrite ?Es; done.
  - exists l. apply put_inv; [|by eexists]. by rewrite insert_id.
Qed.

Lemma end_unseen_inv f (st : Oms) h : (forall u st, inv st -> inv (f u st)) -> 0 <= h -> inv st -> inv (end_unseen f st h).
Proof.
  intros Hf Hh [l Hv]. unfold end_unseen. destruct (is_live st h) eqn:El; cbn [negb]; [|by exists l].
  destruct (live_order st l h Hv Hh El) as (o & Ho & ->). cbv zeta.
  set (o' := add_flag o kReconciled). pose proof (inv_order _ _ _ _ _ _ Hv Ho) as Hok.
  assert (Hend : forall u st1, Inv (orders st1) st1 l -> orders st1 = orders st ->
    inv (let '(u, st2) := terminate u h o' Canceled true st1 in f u st2)).
  { intros u1 st1 Hv1 Eo. pose proof (end_inv st1 l u1 h o o' Canceled true Hv1) as H.
    rewrite Eo in H. specialize (H Ho ltac:(by destruct Hok) eq_refl eq_refl eq_refl eq_refl eq_refl eq_refl eq_refl).
    destruct (terminate u1 h o' Canceled true st1) as [u2 st2]. by apply Hf. }
  case_if; apply Hend; try done. by apply (Inv_frame _ _ st).
Qed.

Lemma handles_nonneg (st : Oms) h : inv st -> h ∈ op_handles (pool_ st) -> 0 <= h.
Proof.
  intros [l Hv] Hh. destruct (op_handles_spec (pool_ st) (v_pool _ _ _ _ Hv)) as [_ Hin].
  apply Hin in Hh. apply (inv_slots _ _ _ _ Hv) in Hh. lia.
Qed.

Lemma fold_inv {A} (step : Oms -> A -> Oms) (P0 : A -> Prop) l : (forall st x, P0 x -> inv st -> inv (step st x)) ->
  Forall P0 l -> forall st, inv st -> inv (fold_left step l st).
Proof. intros Hs. induction 1 as [|x l Hx Hl IH]; intros st Hi; [done|]. cbn. apply IH. by apply Hs. Qed.

Lemma reconcile_end_inv (st : Oms) f v : inv st -> (forall u st, inv st -> inv (f u st)) -> inv (reconcile_end f v st).
Proof.
  intros Hi Hf. unfold reconcile_end. apply (fold_inv _ (fun h => 0 <= h)); [intros st0 h; by apply end_unseen_inv| |done].
  apply Forall_forall. intros h Hh. unfold unseen in Hh. apply list_elem_of_filter in Hh as [_ Hh].
  by apply (handles_nonneg st).
Qed.

Lemma sweep_pending_inv (st : Oms) now d f : inv st -> (forall h o st, inv st -> inv (f h o st)) ->
  inv (snd (sweep_pending now d f st)).
Proof.
  intros Hi Hf. unfold sweep_pending. case_if; [done|]. cbn [snd].
  apply (fold_inv _ (fun h => 0 <= h)); [| |done].
  - intros st0 h Hh Hi0. case_if; [done|]. apply Hf. by apply frame_stats.
  - apply Forall_forall. intros h Hh. unfold stale in Hh. apply list_elem_of_filter in Hh as [_ Hh].
    by apply (handles_nonneg st).
Qed.

Lemma warm_up_inv (st : Oms) : inv st -> inv (warm_up st).
Proof.
  intros [l Hv]. destruct (op_warm_up_spec (pool_ st) (v_pool _ _ _ _ Hv)) as [Hok E].
  exists l. assert (Eo : orders (warm_up st) = orders st) by exact E. rewrite Eo.
  by destruct Hv as [H1 H2 Hb H3 H4 H5 H6].
Qed.

Lemma next_id_inv (st : Oms) : inv st -> inv (snd (next_cl_ord_id st)).
Proof. intros [l Hv]. unfold next_cl_ord_id. case_if; [by exists l|]. exists l. by apply (Inv_frame _ _ st). Qed.

Lemma new_inv epoch max_seq : inv (new_oms epoch max_seq).
Proof.
  destruct op_new_ok as [Hpk Hpa], im_new_ok as [Hik Hia]. exists [].
  assert (Eo : orders (new_oms epoch max_seq) = ∅) by exact Hpa. rewrite Eo. split; cbn; try done.
  - split.
    + intros h o Ho. by rewrite lookup_empty in Ho.
    + intros h [o Ho]. by rewrite lookup_empty in Ho.
    + apply Buckets.ok_empty.
    + intros b h _ _. unfold Buckets.mem, Buckets.bits_at. cbn. rewrite !lookup_empty. cbn. rewrite Z.testbit_0_l.
      split; [done|]. by intros (? & ? & _).
    + by rewrite msum_empty.
    + intros i. by rewrite lookup_empty, msum_empty.
    + intros i s. by rewrite lookup_empty, msum_empty.
  - intros _ i s. left. rewrite lookup_empty. split; [done|]. intros h o Ho. by rewrite lookup_empty in Ho.
  - rewrite Hia. split; intros *; by rewrite lookup_empty.
Qed.

(** ** Reachable states *)

(** The conditions a caller owes: a non-negative [int64] quantity, a valid id for a replace, and,
    when [strict], a positive price. *)
Inductive reach : Oms -> Prop :=
| reach_new epoch max_seq : reach (new_oms epoch max_seq)
| reach_next st : reach st -> reach (snd (next_cl_ord_id st))
| reach_submit st req id now : reach st -> 0 <= r_instrument req -> 0 <= r_qty req <= i64_max ->
    (strict -> 0 < r_price req) -> reach (snd (submit req id now st))
| reach_cancel st h : reach st -> 0 <= h -> reach (snd (request_cancel h st))
| reach_cancel_unacked st h : reach st -> 0 <= h -> reach (snd (request_cancel_unacked h st))
| reach_replace st h id px q now : reach st -> 0 <= h -> id <> 0 -> 0 <= q <= i64_max -> (strict -> 0 < px) ->
    reach (snd (request_replace h id px q now st))
| reach_ack st m : reach st -> reach (snd (on_ack m st))
| reach_reject st m : reach st -> reach (snd (on_reject m st))
| reach_cancel_ack st m : reach st -> est_room st -> reach (snd (on_cancel_ack m st))
| reach_cancel_reject st m : reach st -> reach (snd (on_cancel_reject m st))
| reach_fill st m : reach st -> reach (snd (on_fill m st))
| reach_expired st m : reach st -> est_room st -> reach (snd (on_expired m st))
| reach_begin st v w : reach st -> reach (reconcile_begin v w st)
| reach_open_order st m : reach st -> est_room st -> reach (snd (reconcile_open_order m st))
| reach_end st f v : reach st -> (forall u st, inv st -> inv (f u st)) -> reach (reconcile_end f v st)
| reach_sweep st now d f : reach st -> (forall h o st, inv st -> inv (f h o st)) -> reach (snd (sweep_pending now d f st))
| reach_warm st : reach st -> reach (warm_up st).

Lemma reach_inv st : reach st -> inv st.
Proof.
  induction 1; [apply new_inv | by apply next_id_inv | by apply submit_inv | by apply request_cancel_inv
  | by apply request_cancel_unacked_inv | by apply request_replace_inv | by apply on_ack_inv | by apply on_reject_inv
  | by apply on_cancel_ack_inv | by apply on_cancel_reject_inv | by apply on_fill_inv | by apply on_expired_inv
  | by apply reconcile_begin_inv | by apply reconcile_open_order_inv | by apply reconcile_end_inv
  | by apply sweep_pending_inv | by apply warm_up_inv].
Qed.
End ops.
