(* ===== verification/OmsHandlers.v ===== *)
(** * OmsHandlers: what one venue message does to one order

    For each inbound handler: the order it found is the only one that changes, it
    moves along a transition of the state machine of [oms.hpp], it leaves the pool
    exactly when it became terminal, and an execution moves its filled quantity by
    what was not already booked. *)

From Stdlib Require Import Sorted.
From S2P Require Import Prelude Types Orders MapSum RingBuffer BucketBits Interfaces Oms OmsInv OmsStep OmsOps.

#[local] Arguments i64 : simpl never.
#[local] Arguments u32 : simpl never.
#[local] Arguments Z.ltb : simpl never.

(** ** The state machine of an order *)

Inductive event :=
  EAck (m : OrderAckMsg) | EReject (m : OrderRejectMsg) | ECancelAck (m : OrderCancelAckMsg)
| ECancelReject (m : OrderCancelRejectMsg) | EFill (m : OrderFillMsg) | EExpired (m : OrderExpiredMsg)
| EOpenOrder (m : ReconcileMsg).

Definition event_id (e : event) : ClientOrderId :=
  match e with
  | EAck m => ack_cl_ord_id m | EReject m => rej_cl_ord_id m | ECancelAck m => ca_cl_ord_id m
  | ECancelReject m => cr_cl_ord_id m | EFill m => f_cl_ord_id m | EExpired m => ex_cl_ord_id m
  | EOpenOrder m => rc_cl_ord_id m
  end.

(** The transitions of the header of [oms.hpp], per message. *)
Inductive moves : event -> OrderState -> OrderState -> Prop :=
| mv_ack_new m : moves (EAck m) PendingNew Live
| mv_ack_replace m s : s = Live \/ s = PartiallyFilled -> moves (EAck m) PendingReplace s
| mv_ack_dup m s : s <> PendingNew -> moves (EAck m) s s
| mv_reject_new m : moves (EReject m) PendingNew Rejected
| mv_reject_replace m s : s = Live \/ s = PartiallyFilled \/ s = Canceled -> moves (EReject m) PendingReplace s
| mv_reject_other m s : s <> PendingNew -> moves (EReject m) s s
| mv_cancel m s s' : s' = Canceled \/ s' = Filled -> moves (ECancelAck m) s s'
| mv_cancel_leg m : moves (ECancelAck m) PendingReplace PendingReplace
| mv_cr_back m s : s = Live \/ s = PartiallyFilled \/ s = Canceled -> moves (ECancelReject m) PendingCancel s
| mv_cr_other m s : s <> PendingCancel -> moves (ECancelReject m) s s
| mv_fill_done m s : moves (EFill m) s Filled
| mv_fill_part m s : s = Live \/ s = PendingNew -> moves (EFill m) s PartiallyFilled
| mv_fill_keep m s : s <> Live -> s <> PendingNew -> moves (EFill m) s s
| mv_expired m s s' : s' = Expired \/ s' = Filled -> moves (EExpired m) s s'
| mv_open_new m s : s = Live \/ s = PartiallyFilled -> moves (EOpenOrder m) PendingNew s
| mv_open_other m s : s <> PendingNew -> moves (EOpenOrder m) s s.

Section props.
Context {M P R : Type} `{IM : IdMap M} `{OP : ObjPool P Order} `{SN : Seen R}.
Notation Oms := (Oms M P R).
Hypothesis Hcap : op_cap = kMaxOpenOrders.
Hypothesis Hids : 3 * kMaxOpenOrders < im_cap.
Context (strict : Prop).
Notation Inv := (Inv strict).
Notation inv := (inv strict).

Definition handle (e : event) (st : Oms) : OmsUpdate * Oms :=
  match e with
  | EAck m => on_ack m st | EReject m => on_reject m st | ECancelAck m => on_cancel_ack m st
  | ECancelReject m => on_cancel_reject m st | EFill m => on_fill m st | EExpired m => on_expired m st
  | EOpenOrder m => reconcile_open_order m st
  end.

(** A finished order leaves a record its id leads to, and the id is free for a new order. *)
Definition remembered (o : Order) (st : Oms) : Prop :=
  open_handle st (o_cl_ord_id o) = kNullHandle /\
  exists r, find_terminal st (o_cl_ord_id o) = Some r /\ tr_cl_ord_id r = o_cl_ord_id o /\
    tr_state r = o_state o /\ tr_qty r = o_qty o /\ tr_cum_qty r = o_cum_qty o.

(** The order keeps its instrument, side and tag. *)
Definition same_quote (o o' : Order) : Prop := o_instrument o' = o_instrument o /\ o_side o' = o_side o /\ o_user_tag o' = o_user_tag o.

(** What a handler may report about the order [o] in slot [h] it found. *)
Definition handled (e : event) (st : Oms) (h : Z) (o : Order) (u : OmsUpdate) (st' : Oms) : Prop :=
  u_prev u = o_state o /\ moves e (o_state o) (o_state (u_order u)) /\
  u_terminal u = is_terminal (o_state (u_order u)) /\
  (orders st' = if u_terminal u then delete h (orders st) else <[h := u_order u]> (orders st)) /\
  (u_terminal u = true -> remembered (u_order u) st') /\ same_quote o (u_order u) /\ (u_terminal u = false -> u_handle u = h).

(** [remember_terminal] reports only the estimate it pushed out. *)
Lemma remember_update r u (st : Oms) : exists q id, fst (remember_terminal r u st) =
  u <| u_forgotten_qty := q |> <| u_forgotten_id := id |>.
Proof.
  assert (Hid : u = (u <| u_forgotten_qty := u_forgotten_qty u |> <| u_forgotten_id := u_forgotten_id u |>)) by by destruct u.
  unfold remember_terminal, forget_oldest. case_if; [|by do 2 eexists].
  destruct (Ring.front _ _) as [gone|]; [|by do 2 eexists].
  destruct (0 <? e_qty (tr_estimate gone)); destruct (im_find _ _); try case_if; by do 2 eexists.
Qed.

Lemma terminate_prev u h o final br (st : Oms) : u_prev (fst (terminate u h o final br st)) = u_prev u.
Proof.
  unfold terminate. cbv zeta.
  match goal with |- context [remember_terminal ?r u ?s] =>
    destruct (remember_update r u s) as (q & id & E); destruct (remember_terminal r u s) end.
  cbn [fst] in E. by rewrite E.
Qed.

Lemma apply_replace_update u h o rk nv (st : Oms) :
  u_prev (fst (fst (apply_replace u h o rk nv st))) = u_prev u /\
  u_terminal (fst (fst (apply_replace u h o rk nv st))) = u_terminal u.
Proof.
  unfold apply_replace. cbv zeta. destruct (rk && nv && _).
  - match goal with |- context [remember_terminal ?r u ?s] =>
      destruct (remember_update r u s) as (q & id & E); destruct (remember_terminal r u s) end.
    cbn [fst] in E. rewrite E. by destruct rk.
  - by destruct rk.
Qed.

(** The id of a finished order leads to the record [terminate] pushed. *)
Lemma terminate_remembered m (st : Oms) l u h o final br : Inv m st l -> m !! h = Some o ->
  remembered (o <| o_state := final |>) (snd (terminate u h o final br st)).
Proof.
  intros Hv Hm. destruct (terminate_body strict m st l u h o final br Hv Hm)
    as (ids' & ring' & stats' & u' & Et & _ & Hk & Ha & Hr & Hhd & _). cbv zeta in Et. rewrite Et. cbn [snd].
  match goal with |- remembered _ (if _ then _ else ?x) => set (st' := x) end.
  assert (Hfin : remembered (o <| o_state := final |>) st'); [|case_if; exact Hfin].
  set (full := Z.of_nat (length l) =? kRecentlyTerminal) in *. set (rec := terminal_record _ _ _ _) in *.
  destruct (ring_add_last l full rec (full_nonempty l)) as (k & Hlk & Href).
  set (hd := Ring.head_ (recently_terminal_ st)) in *.
  assert (Hid : im_abs (ids_ st') !! o_cl_ord_id o = Some (terminal_ref (hd + Z.of_nat (length l))))
    by (change (ids_ st') with ids'; rewrite Ha; apply lookup_insert_eq).
  assert (Hpos : u64 (terminal_pos st' (o_cl_ord_id o) - Ring.head_ (recently_terminal_ st')) = Z.of_nat k).
  { apply (terminal_pos_ref st' (ring_add l full rec) _ (terminal_ref (hd + Z.of_nat (length l))) k); try done;
      [apply ref_is_terminal| |by eapply lookup_lt_Some].
    change (recently_terminal_ st') with ring'. by rewrite Hhd, Href. }
  unfold remembered. cbn [o_cl_ord_id fupd]. split.
  - unfold open_handle. by rewrite im_find_spec, Hid, ref_is_terminal.
  - exists rec. split; [|done]. unfold find_terminal.
    rewrite (Ring.rep_at_pos _ ring_bits (recently_terminal_ st') (ring_add l full rec) _ Hr), Hpos, Nat2Z.id.
    pose proof (lookup_lt_Some _ _ _ Hlk). replace (_ <? _) with true by lia. done.
Qed.

(** [terminate] reports what it did. *)
Lemma terminate_handled e (st st1 : Oms) l u h o o1 final br : Inv (<[h := o1]> (orders st1)) st1 l ->
  is_Some (orders st1 !! h) -> u_prev u = o_state o -> is_terminal final = true -> moves e (o_state o) final ->
  (forall k, k <> h -> orders st1 !! k = orders st !! k) -> same_quote o o1 ->
  handled e st h o (fst (terminate u h o1 final br st1)) (snd (terminate u h o1 final br st1)).
Proof.
  intros Hv Hh Hu Ht Hm Hk Hsq.
  destruct (terminate_body strict (<[h := o1]> (orders st1)) st1 l u h o1 final br Hv (lookup_insert_eq _ _ _))
    as (ids' & ring' & stats' & u' & Et & _).
  destruct (terminate_inv strict st1 l u h o1 final br Hv Hh) as [_ Hor].
  pose proof (terminate_prev u h o1 final br st1) as Hu'.
  pose proof (terminate_remembered (<[h := o1]> (orders st1)) st1 l u h o1 final br Hv (lookup_insert_eq _ _ _)) as Hrem.
  unfold handled. rewrite Hu'. rewrite Hor. rewrite Et in *. cbn [fst u_terminal u_order fupd o_state].
  split; [done|]. split; [done|]. split; [done|]. split; [|by split_and!].
  apply map_eq. intros k. destruct (Z.eq_dec h k) as [<- |]; [by rewrite !lookup_delete_eq|].
  rewrite !lookup_delete_ne by done. apply Hk. congruence.
Qed.

Lemma lookup_at (st : Oms) l id u h o : Inv (orders st) st l -> open_handle st id = h -> orders st !! h = Some o ->
  lookup id u st = (h, u <| u_known := true |> <| u_handle := h |>) /\ handle_valid h = true /\ get st h = o.
Proof.
  intros Hv Hf Ho. assert (Hval : handle_valid h = true) by (apply slot_valid, (inv_slots _ _ _ _ Hv); by eexists).
  split; [|split; [done|]]; [|apply get_spec; [apply Hv | done]].
  unfold open_handle in Hf. unfold lookup. destruct (im_find (ids_ st) id) as [v|]; [|by subst].
  destruct (is_terminal_ref v); cbn [negb]; by subst.
Qed.

(** A handler that writes the order back and reports it. *)
Lemma finish_handled e (st st1 st' : Oms) h o o1 u : u_prev u = o_state o -> u_terminal u = false ->
  moves e (o_state o) (o_state o1) -> is_terminal (o_state o1) = false -> op_ok (pool_ st1) ->
  orders st' = <[h := o1]> (orders st1) -> is_Some (orders st1 !! h) ->
  (forall k, k <> h -> orders st1 !! k = orders st !! k) -> same_quote o o1 ->
  handled e st h o (finish_update u h o1 st') st'.
Proof.
  intros Hu Ht Hm Hnt Hok Hor Hs Hk Hsq. unfold handled, finish_update. cbn [u_prev u_order u_terminal fupd]. rewrite Ht.
  split; [done|]. split; [done|]. split; [done|]. split; [|by split_and!]. rewrite Hor. apply map_eq. intros k.
  destruct (Z.eq_dec h k) as [<- |]; [by rewrite !lookup_insert_eq|]. rewrite !lookup_insert_ne by done.
  apply Hk. congruence.
Qed.

Lemma unchanged_handled e (st : Oms) h o u : orders st !! h = Some o -> op_ok (pool_ st) -> u_prev u = o_state o ->
  u_terminal u = false -> moves e (o_state o) (o_state o) -> is_terminal (o_state o) = false ->
  forall st', orders st' = orders st -> handled e st h o (finish_update u h o st') st'.
Proof.
  intros Ho Hok Hu Ht Hm Hnt st' Hor. apply (finish_handled e st st st' h o o); try done.
  by rewrite Hor, insert_id.
Qed.

Lemma ack_handled (st : Oms) l m h o : Inv (orders st) st l -> open_handle st (ack_cl_ord_id m) = h ->
  orders st !! h = Some o -> handled (EAck m) st h o (fst (on_ack m st)) (snd (on_ack m st)).
Proof.
  intros Hv Hf Ho. destruct (lookup_at st l _ new_update h o Hv Hf Ho) as (El & Hval & Hget).
  pose proof (v_pool _ _ _ _ Hv) as Hpk. pose proof (oo_open _ _ (inv_order _ _ _ _ _ _ Hv Ho)) as Hnt.
  unfold on_ack. rewrite El, Hval. cbn [negb]. rewrite Hget.
  assert (Hdup : o_state o <> PendingNew -> forall u st', u_prev u = o_state o -> u_terminal u = false ->
    orders st' = orders st -> handled (EAck m) st h o (finish_update u h o st') st').
  { intros Hn u st' Hu Ht Hor. apply unchanged_handled; try done. by constructor. }
  assert (Hoth : forall b t u, orders (if b : bool then set_times st h t else st) = orders st /\
    (u_prev u = o_state o -> u_terminal u = false -> o_state o <> PendingNew ->
     handled (EAck m) st h o (finish_update u h o (if b then set_times st h t else st)) (if b then set_times st h t else st))).
  { intros b t u. assert (E : orders (if b then set_times st h t else st) = orders st) by by destruct b.
    split; [done|]. intros. by apply Hdup. }
  destruct (o_state o) eqn:Es; cbn [fst snd];
    lazymatch goal with
    | |- handled _ _ _ _ (finish_update _ _ _ (if _ then _ else _)) _ => by apply Hoth
    | |- _ => idtac
    end.
  - set (o1 := o <| o_state := Live |> <| o_venue_order_id := _ |>).
    destruct (put_orders st h o1 Hpk ltac:(by eexists)) as [Hok1 Eo].
    apply (finish_handled _ st st); try done. rewrite Es. constructor.
  - destruct (Z.eqb_spec (ack_cl_ord_id m) (o_pending_cl_ord_id o)) as [_|_]; cbn [fst snd]; [|by apply Hdup].
    cbv zeta. set (nv := negb _ && _). set (u0 := _ <| u_prev := PendingReplace |>).
    pose proof (apply_replace_inv strict st l u0 h o nv Hv Ho Es
      ltac:(intros H; unfold nv in H; by apply andb_true_iff in H as [? _])) as Har. cbv zeta in Har.
    pose proof (apply_replace_update u0 h o (negb (o_pending_cl_ord_id o =? o_cl_ord_id o)) nv st) as [Hp1 Hp2].
    destruct (apply_replace _ h o _ nv st) as [[u' o'] st']. cbn [fst snd] in *.
    destruct Har as (Eo' & [l' Hv'] & Hor). set (o2 := o' <| o_venue_order_id := _ |>).
    assert (Ho' : orders st' !! h = Some o') by (rewrite Hor; apply lookup_insert_eq).
    destruct (put_orders st' h o2 (v_pool _ _ _ _ Hv') ltac:(by eexists)) as [Hok2 Eo2].
    assert (Hs2 : o_state o2 = Live \/ o_state o2 = PartiallyFilled)
      by (unfold o2; rewrite Eo'; unfold replaced; cbn; case_if; eauto).
    apply (finish_handled _ st st'); try done.
    + cbn. case_if; cbn; by rewrite Hp1, ?Es.
    + cbn. case_if; cbn; by rewrite Hp2.
    + rewrite Es. by constructor.
    + by destruct Hs2 as [-> | ->].
    + apply Hv'.
    + intros k Hk. rewrite Hor. by rewrite lookup_insert_ne.
    + unfold o2. by rewrite Eo'.
Qed.

(** A copy that agrees with the pool's order where the invariant looks. *)
Lemma copy_inv (st : Oms) l h o o' : Inv (orders st) st l -> orders st !! h = Some o -> order_ok strict o' ->
  o_cl_ord_id o' = o_cl_ord_id o -> o_pending_cl_ord_id o' = o_pending_cl_ord_id o ->
  o_state o' = o_state o -> o_instrument o' = o_instrument o -> o_side o' = o_side o -> o_price o' = o_price o ->
  leaves_qty o' = leaves_qty o -> Inv (<[h := o']> (orders st)) st l.
Proof. intros Hv Ho Hok Hid Hp Hst Hi Hs Hpx Hl. apply (change_inv _ _ _ _ h o); try done. by rewrite Hst. Qed.

Lemma clear_pending_same o (st : Oms) : same_quote o (fst (clear_pending o st)).
Proof. unfold clear_pending. by repeat case_if. Qed.
Lemma reject_handled (st : Oms) l m h o : Inv (orders st) st l -> open_handle st (rej_cl_ord_id m) = h ->
  orders st !! h = Some o -> handled (EReject m) st h o (fst (on_reject m st)) (snd (on_reject m st)).
Proof.
  intros Hv Hf Ho. destruct (lookup_at st l _ new_update h o Hv Hf Ho) as (El & Hval & Hget).
  pose proof (v_pool _ _ _ _ Hv) as Hpk. pose proof (inv_order _ _ _ _ _ _ Hv Ho) as Hok.
  pose proof (oo_open _ _ Hok) as Hnt. assert (Hsome : is_Some (orders st !! h)) by by eexists.
  unfold on_reject. rewrite El, Hval. cbn [negb]. rewrite Hget. case_bool_decide as Es1.
  - apply (terminate_handled _ st _ l); try done; [|rewrite Es1; constructor].
    apply (copy_inv _ l h o); try done; [by apply (Inv_frame _ _ st) | by destruct Hok].
  - destruct (bool_decide (o_state o = PendingReplace) && _) eqn:Ec.
    2: { cbn [fst snd]. apply unchanged_handled; try done. by constructor. }
    apply andb_true_iff in Ec as [Es2%bool_decide_eq_true _]. destruct (has o kReplaceOldCanceled).
    + pose proof (clear_pending_inv strict st l h o Live Hv Ho Es2 ltac:(done) eq_refl) as Hcp. pose proof (clear_pending_same o st) as Hsq.
      destruct (clear_pending o st) as [o' st']. destruct Hcp as (Hv' & Hor & _).
      rewrite <- (terminate_state _ h o' Live). apply (terminate_handled _ st st' l); try done.
      * by rewrite Hor.
      * rewrite Es2. constructor. eauto.
      * by rewrite Hor.
    + assert (Hs : exists s, working_state (fst (clear_pending o st)) = s /\ (s = Live \/ s = PartiallyFilled))
        by (eexists; split; [reflexivity | apply working_cases]).
      destruct Hs as (s & Ew & Hs).
      assert (Hcp := clear_pending_inv strict st l h o s Hv Ho Es2 ltac:(by destruct Hs as [-> | ->]) ltac:(by destruct Hs as [-> | ->])). pose proof (clear_pending_same o st) as Hsq.
      destruct (clear_pending o st) as [o' st']. cbn [fst] in Ew. rewrite Ew. destruct Hcp as (Hv' & Hor & _). cbn [fst snd].
      destruct (put_orders st' h (o' <| o_state := s |>) (v_pool _ _ _ _ Hv') ltac:(by rewrite Hor)) as [_ Eo].
      apply (finish_handled _ st st'); try done.
      * rewrite Es2. constructor. cbn. tauto.
      * by destruct Hs as [-> | ->].
      * apply Hv'.
      * by rewrite Hor.
      * by rewrite Hor.
Qed.

Lemma cancel_ack_handled (st : Oms) l m h o : Inv (orders st) st l -> open_handle st (ca_cl_ord_id m) = h ->
  orders st !! h = Some o -> est_room st ->
  handled (ECancelAck m) st h o (fst (on_cancel_ack m st)) (snd (on_cancel_ack m st)).
Proof.
  intros Hv Hf Ho Hroom. destruct (lookup_at st l _ new_update h o Hv Hf Ho) as (El & Hval & Hget).
  unfold on_cancel_ack. rewrite El, Hval. cbn [negb]. rewrite Hget. cbv zeta.
  set (u0 := _ <| u_prev := o_state o |>).
  assert (Hu1 : u_prev (snd (fst (absorb_cum h o (ca_cum_qty m) u0 st))) = o_state o /\
                u_terminal (snd (fst (absorb_cum h o (ca_cum_qty m) u0 st))) = false) by (unfold absorb_cum; by case_if).
  destruct (absorb_cum h o _ u0 st) as [[o1 u1] st1] eqn:Ea. cbn [fst snd] in Hu1. destruct Hu1 as [Hu1 Ht1].
  destruct (absorb_inv strict _ _ _ _ _ _ _ _ _ Hv Ho (Hroom h o Ho) Ea) as (Hv1 & Ho1 & (c & Eo1 & _) & Hor1).
  pose proof (inv_order _ _ _ _ _ _ Hv1 Ho1) as Hok1.
  assert (Hst1 : o_state o1 = o_state o) by (by rewrite Eo1). assert (Hsq : same_quote o o1) by by rewrite Eo1.
  assert (Hoth : forall k, k <> h -> orders st1 !! k = orders st !! k)
    by (intros k Hk; by rewrite Hor1, lookup_insert_ne).
  assert (Hsome : is_Some (orders st1 !! h)) by by eexists.
  destruct (bool_decide (o_state o1 = PendingReplace) && _) eqn:Ec.
  - apply andb_true_iff in Ec as [Es2%bool_decide_eq_true _]. cbn [fst snd].
    destruct (put_orders st1 h (add_flag o1 kReplaceOldCanceled) (v_pool _ _ _ _ Hv1) Hsome) as [_ Eo].
    apply (finish_handled _ st st1); try done; [|apply (oo_open _ _ Hok1)|apply Hv1].
    cbn. rewrite <- Hst1, Es2. apply mv_cancel_leg.
  - destruct (o_qty o1 <=? o_cum_qty o1) eqn:Ef.
    + apply (terminate_handled _ st _ l); try done; [|constructor; eauto].
      apply (copy_inv _ l h o1); try done. by apply (Inv_frame _ _ st1).
    + destruct (bool_decide (o_state o1 = PendingCancel)); cbn [negb].
      * apply (terminate_handled _ st _ l); try done; [by rewrite insert_id | constructor; eauto].
      * apply (terminate_handled _ st _ l); try done; [|constructor; eauto].
        apply (copy_inv _ l h o1); try done; [by apply (Inv_frame _ _ st1) | by destruct Hok1].
Qed.

Lemma cancel_reject_handled (st : Oms) l m h o : Inv (orders st) st l -> open_handle st (cr_cl_ord_id m) = h ->
  orders st !! h = Some o -> handled (ECancelReject m) st h o (fst (on_cancel_reject m st)) (snd (on_cancel_reject m st)).
Proof.
  intros Hv Hf Ho. destruct (lookup_at st l _ new_update h o Hv Hf Ho) as (El & Hval & Hget).
  pose proof (v_pool _ _ _ _ Hv) as Hpk. pose proof (inv_order _ _ _ _ _ _ Hv Ho) as Hok.
  assert (Hsome : is_Some (orders st !! h)) by by eexists.
  unfold on_cancel_reject. rewrite El, Hval. cbn [negb]. rewrite Hget. cbv zeta. case_bool_decide as Es; cbn [negb fst snd].
  2: { apply unchanged_handled; try done; [by constructor | apply (oo_open _ _ Hok)]. }
  case_bool_decide as Er.
  - apply (terminate_handled _ st st l); try done; [by rewrite insert_id | rewrite Es; constructor; eauto].
  - cbn [fst snd]. match goal with |- context [put st h ?x] => set (o1 := x) end.
    destruct (put_orders st h o1 Hpk Hsome) as [_ Eo].
    assert (Hs : o_state o1 = Live \/ o_state o1 = PartiallyFilled) by apply working_cases.
    apply (finish_handled _ st st); try done.
    + cbn. by case_if.
    + cbn. by case_if.
    + rewrite Es. constructor. tauto.
    + by destruct Hs as [-> | ->].
Qed.

Lemma expired_handled (st : Oms) l m h o : Inv (orders st) st l -> open_handle st (ex_cl_ord_id m) = h ->
  orders st !! h = Some o -> est_room st ->
  handled (EExpired m) st h o (fst (on_expired m st)) (snd (on_expired m st)).
Proof.
  intros Hv Hf Ho Hroom. destruct (lookup_at st l _ new_update h o Hv Hf Ho) as (El & Hval & Hget).
  unfold on_expired. rewrite El, Hval. cbn [negb]. rewrite Hget. cbv zeta.
  set (u0 := _ <| u_prev := o_state o |>).
  assert (Hu1 : u_prev (snd (fst (absorb_cum h o (ex_cum_qty m) u0 st))) = o_state o) by (unfold absorb_cum; by case_if).
  destruct (absorb_cum h o _ u0 st) as [[o1 u1] st1] eqn:Ea. cbn [fst snd] in Hu1.
  destruct (absorb_inv strict _ _ _ _ _ _ _ _ _ Hv Ho (Hroom h o Ho) Ea) as (Hv1 & Ho1 & (c & Eo1 & _) & Hor1).
  assert (Hsq : same_quote o o1) by by rewrite Eo1.
  assert (Hoth : forall k, k <> h -> orders st1 !! k = orders st !! k)
    by (intros k Hk; by rewrite Hor1, lookup_insert_ne).
  assert (Hsome : is_Some (orders st1 !! h)) by by eexists.
  case_if; (apply (terminate_handled _ st _ l); try done; [|constructor; eauto]);
    (apply (copy_inv _ l h o1); try done; [by apply (Inv_frame _ _ st1) | apply (inv_order _ _ _ _ _ _ Hv1 Ho1)]).
Qed.

Lemma open_order_handled (st : Oms) l m h o : Inv (orders st) st l -> open_handle st (rc_cl_ord_id m) = h ->
  orders st !! h = Some o -> est_room st ->
  handled (EOpenOrder m) st h o (fst (reconcile_open_order m st)) (snd (reconcile_open_order m st)).
Proof.
  intros Hv Hf Ho Hroom. destruct (lookup_at st l _ new_update h o Hv Hf Ho) as (El & Hval & Hget).
  unfold reconcile_open_order. rewrite El, Hval. cbn [negb]. rewrite Hget. cbv zeta.
  set (u0 := _ <| u_prev := o_state o |>). set (o0 := if negb (str_empty _) || _ then _ else _).
  assert (Hf0 : exists fl vid, o0 = o <| o_flags := fl |> <| o_venue_order_id := vid |>).
  { unfold o0. case_if; [by do 2 eexists|].
    exists (Z.lor (o_flags o) (Z.lor kSeenInReconcile kReconciled)), (o_venue_order_id o). by destruct o. }
  destruct Hf0 as (fl & vid & Ef). pose proof (inv_order _ _ _ _ _ _ Hv Ho) as Hok.
  assert (Hok0 : order_ok strict o0) by (rewrite Ef; by destruct Hok).
  destruct (put_orders st h o0 (v_pool _ _ _ _ Hv) ltac:(by eexists)) as [_ Eo]. set (st0 := put st h o0) in *.
  assert (Hv0 : Inv (orders st0) st0 l).
  { apply put_inv; [|by eexists]. apply (copy_inv _ l h o); try done; by rewrite Ef. }
  assert (Ho0 : orders st0 !! h = Some o0) by (rewrite Eo; apply lookup_insert_eq).
  assert (Hu1 : u_prev (snd (fst (absorb_cum h o0 (rc_cum_qty m) u0 st0))) = o_state o /\
                u_terminal (snd (fst (absorb_cum h o0 (rc_cum_qty m) u0 st0))) = false) by (unfold absorb_cum; by case_if).
  destruct (absorb_cum h o0 _ u0 st0) as [[o1 u1] st1] eqn:Ea. cbn [fst snd] in Hu1. destruct Hu1 as [Hu1 Ht1].
  assert (Hr : e_qty (estimate_at st0 h) + o_qty o0 <= i64_max) by (rewrite Ef; apply (Hroom h o Ho)).
  destruct (absorb_inv strict _ _ _ _ _ _ _ _ _ Hv0 Ho0 Hr Ea) as (Hv1 & Ho1 & (c & Eo1 & _) & Hor1).
  assert (Hst1 : o_state o1 = o_state o) by (by rewrite Eo1, Ef). assert (Hsq : same_quote o o1) by by rewrite Eo1, Ef.
  assert (Hoth : forall k, k <> h -> orders st1 !! k = orders st !! k)
    by (intros k Hk; by rewrite Hor1, Eo, !lookup_insert_ne).
  assert (Hsome : is_Some (orders st1 !! h)) by by eexists.
  pose proof (inv_order _ _ _ _ _ _ Hv1 Ho1) as Hok1. case_bool_decide as Es; cbn [fst snd].
  - destruct (put_orders st1 h (o1 <| o_state := working_state o1 |>) (v_pool _ _ _ _ Hv1) Hsome) as [_ Eo2].
    apply (finish_handled _ st st1); try done.
    + cbn. rewrite <- Hst1, Es. constructor. apply working_cases.
    + cbn. by destruct (working_cases o1) as [-> | ->].
    + apply Hv1.
  - destruct (put_orders st1 h o1 (v_pool _ _ _ _ Hv1) Hsome) as [_ Eo2].
    apply (finish_handled _ st st1); try done; [|apply (oo_open _ _ Hok1)|apply Hv1].
    rewrite Hst1 in *. by constructor.
Qed.

(** ** Fills *)

(** The part of an execution an estimate has booked before it arrived, [E] being what the estimate of the order still
    stands for: all of a replayed execution; of a live one with a cumulative quantity, which covers the quantities above
    [cum - qty] up to [cum], the part at or below what is booked; nothing of one without. *)
Definition booked_already (o : Order) (m : OrderFillMsg) (E : Qty) : Qty :=
  let part := if negb (Z.land (f_flags m) kReplayed =? 0) then f_qty m
              else if 0 <? f_cum_qty m then Z.min (f_qty m) (o_cum_qty o - (f_cum_qty m - f_qty m)) else 0 in
  Z.max 0 (Z.min part E).
(** What an execution does to the order in slot [h]: the quantity the venue says, or the part not yet booked on top. *)
Definition filled (st : Oms) (h : Z) (o : Order) (m : OrderFillMsg) (u : OmsUpdate) (st' : Oms) : Prop :=
  let E := e_qty (estimate_at st h) in
  let c := booked_already o m E in
  let cum := if 0 <? f_cum_qty m then f_cum_qty m else o_cum_qty o + (f_qty m - c) in
  u_corrected_qty u = c /\
  o_cum_qty (u_order u) = Z.min (o_qty o) (Z.max (o_cum_qty o) cum) /\ o_qty (u_order u) = o_qty o /\
  u_terminal u = (o_qty o <=? o_cum_qty (u_order u)) /\
  (u_terminal u = false -> e_qty (estimate_at st' h) = E - c).
(** Messages whose quantities fit, next to those of the order. *)
Definition fill_ok (o : Order) (m : OrderFillMsg) : Prop := 0 <= f_qty m /\ 0 <= f_cum_qty m <= i64_max /\ f_qty m + o_qty o <= i64_max.

Lemma terminate_order u h o final br (st : Oms) :
  u_order (fst (terminate u h o final br st)) = (o <| o_state := final |>) /\
  u_terminal (fst (terminate u h o final br st)) = true /\
  u_corrected_qty (fst (terminate u h o final br st)) = u_corrected_qty u.
Proof.
  unfold terminate. cbv zeta.
  match goal with |- context [remember_terminal ?r u ?s] =>
    destruct (remember_update r u s) as (q & id & E); destruct (remember_terminal r u s) end.
  cbn [fst] in *. by rewrite E.
Qed.

Lemma fill_order_handled (st : Oms) l m h o u : Inv (orders st) st l -> orders st !! h = Some o -> u_terminal u = false ->
  let cum0 := if 0 <? f_cum_qty m then f_cum_qty m else i64 (o_cum_qty o + i64 (f_qty m - u_corrected_qty u)) in
  let u' := fst (fill_order h m u st) in let st' := snd (fill_order h m u st) in
  handled (EFill m) st h o u' st' /\ u_corrected_qty u' = u_corrected_qty u /\ o_cum_qty (u_order u') = Z.min (o_qty o) (Z.max (o_cum_qty o) cum0) /\
  o_qty (u_order u') = o_qty o /\ u_terminal u' = (o_qty o <=? o_cum_qty (u_order u')) /\ (u_terminal u' = false -> estimate_at st' h = estimate_at st h).
Proof.
  intros Hv Ho Htu. cbv zeta. unfold fill_order. rewrite (get_spec st h o (v_pool _ _ _ _ Hv) Ho). cbv zeta.
  pose proof (inv_order _ _ _ _ _ _ Hv Ho) as Hok. destruct (oo_qty _ _ Hok) as [Hc1 Hc2].
  set (u1 := u <| u_prev := o_state o |>). change (u_corrected_qty u1) with (u_corrected_qty u).
  set (cum0 := if 0 <? f_cum_qty m then f_cum_qty m else _).
  set (cum := if o_qty o <? (if cum0 <? o_cum_qty o then o_cum_qty o else cum0) then _ else _).
  assert (Ecum : cum = Z.min (o_qty o) (Z.max (o_cum_qty o) cum0)) by (unfold cum; zcase).
  assert (Hcum : o_cum_qty o <= cum <= o_qty o) by (unfold cum; zcase).
  set (o1 := if str_empty _ then _ else _).
  assert (Hf : exists vid, o1 = o <| o_cum_qty := cum |> <| o_venue_order_id := vid |>).
  { unfold o1. case_if; [by eexists|]. exists (o_venue_order_id o). by destruct o. }
  destruct Hf as (vid & Ef).
  assert (Hok1 : order_ok strict o1) by (rewrite Ef; destruct Hok; split; cbn; try done; lia).
  destruct (advance_inv strict st l h o o1 cum Hv Ho Hcum Hok1) as [Hv1 Hor]; try (by rewrite Ef).
  set (st1 := put _ h o1) in *.
  assert (Ho1 : orders st1 !! h = Some o1) by (rewrite Hor; apply lookup_insert_eq).
  assert (Hsome : is_Some (orders st1 !! h)) by by eexists.
  assert (Hoth : forall k, k <> h -> orders st1 !! k = orders st !! k) by (intros k Hk; by rewrite Hor, lookup_insert_ne).
  assert (Hq1 : o_qty o1 = o_qty o) by by rewrite Ef. assert (Hcu1 : o_cum_qty o1 = cum) by by rewrite Ef.
  assert (Hs1 : o_state o1 = o_state o) by by rewrite Ef. assert (Hsq : same_quote o o1) by by rewrite Ef.
  destruct (o_qty o1 <=? o_cum_qty o1) eqn:Efull.
  - split.
    + apply (terminate_handled _ st _ l); try done; [|constructor].
      apply (copy_inv _ l h o1); try done. by apply (Inv_frame _ _ st1).
    + set (t := terminate _ _ _ _ _ _). destruct (terminate_order (u1 <| u_changed := true |>) h o1 Filled false
        (stat st1 (fun s => s <| s_filled ::= inc |>))) as (E1 & E2 & E3). fold t in E1, E2, E3.
      rewrite E1, E2, E3. cbn. rewrite Hq1, Hcu1 in *. by rewrite Efull.
  - cbn [fst snd]. set (o2 := match o_state o1 with Live | PendingNew => _ | _ => o1 end).
    assert (H2 : o_qty o2 = o_qty o1 /\ o_cum_qty o2 = o_cum_qty o1 /\ is_terminal (o_state o2) = false /\
      moves (EFill m) (o_state o) (o_state o2)).
    { pose proof (oo_open _ _ Hok1) as Hn. rewrite <- Hs1. unfold o2. destruct (o_state o1) eqn:Es; cbn; rewrite ?Es; try done;
        (split; [done|]; split; [done|]; split; [done|]); first [apply mv_fill_part; by eauto | by apply mv_fill_keep]. }
    destruct H2 as (Q1 & Q2 & Q3 & Q4).
    assert (Hsq2 : same_quote o o2) by (unfold o2; by destruct (o_state o1)).
    destruct (put_orders st1 h o2 (v_pool _ _ _ _ Hv1) Hsome) as [_ Eo2]. split.
    + apply (finish_handled _ st st1); try done. apply Hv1.
    + cbn. rewrite Q1, Q2, Hq1, Hcu1 in *. rewrite Htu, Efull. done.
Qed.

Lemma settle_update (st : Oms) h m u : u_terminal (fst (settle_estimate h m u st)) = u_terminal u.
Proof.
  assert (Ht : forall id q, u_terminal (fst (take_synthetic h id q u st)) = u_terminal u).
  { intros id q. unfold take_synthetic. destruct (the_estimate st h id); [|done]. repeat case_if; done. }
  unfold settle_estimate. repeat case_if; done.
Qed.

(** Settling the estimate of an open order. *)
Lemma settle_open (st : Oms) l h m u o : Inv (orders st) st l -> orders st !! h = Some o -> est_room st -> u_known u = true -> u_corrected_qty u = 0 -> fill_ok o m ->
  let E := e_qty (estimate_at st h) in let r := settle_estimate h m u st in
  u_corrected_qty (fst r) = booked_already o m E /\ e_qty (estimate_at (snd r) h) = E - booked_already o m E.
Proof.
  intros Hv Ho Hroom Hk Hz (Hq & Hcq & Hsum). cbv zeta. set (E := e_qty (estimate_at st h)). destruct (v_syn _ _ _ _ Hv) as [Hpos Hpend]. pose proof (Hpos h) as HE0. fold (estimate_at st h) in HE0. fold E in HE0.
  pose proof (oo_qty _ _ (inv_order _ _ _ _ _ _ Hv Ho)) as Hcum. specialize (Hroom h o Ho). fold E in Hroom. assert (Hval : handle_valid h = true) by (apply slot_valid, (inv_slots _ _ _ _ Hv); by eexists).
  assert (Htake : forall id q, 0 <= q -> let r := take_synthetic h id q u st in u_corrected_qty (fst r) = Z.max 0 (Z.min q E) /\ e_qty (estimate_at (snd r) h) = E - Z.max 0 (Z.min q E)).
  { intros id q Hq0. cbv zeta. unfold take_synthetic, the_estimate, set_the_estimate. rewrite Hval. fold E. destruct (Z.ltb_spec 0 E) as [HE|HE]; cbn [negb]; [|cbn [fst snd]; fold E; lia].
    set (c := if q <? E then q else E). assert (Ec : c = Z.min q E) by (unfold c; zcase). rewrite (i64_id (E - c)) by width.
    destruct (Z.ltb_spec 0 (E - c)) as [Hl|Hl]; cbn [negb fst snd]; (split; [cbn; lia|]); unfold set_estimate, estimate_at, stat; cbn; rewrite lookup_insert_eq; cbn; lia. }
  unfold booked_already, settle_estimate. rewrite Hk, andb_true_r, Hval. cbn [negb]. rewrite orb_false_r, (get_spec st h o (v_pool _ _ _ _ Hv) Ho).
  destruct (Z.eqb_spec (s_synthetic_pending (stats_ st)) 0) as [Ep|Ep]; cbn [negb].
  - assert (E = 0) as E0; [|cbn [fst snd]; fold E; rewrite E0; case_match; lia]. destruct (Z.le_gt_cases E 0); [lia|]. exfalso. rewrite Hpend, <- (insert_id _ _ _ Ho) in Ep.
    rewrite <- insert_delete_eq, msum_insert in Ep by apply lookup_delete_eq. unfold slot_held at 1, held at 1 in Ep. fold (estimate_at st h) in Ep. fold E in Ep. replace (0 <? E) with true in Ep by lia.
    pose proof (msum_nonneg (slot_held (estimates_ st)) (delete h (orders st)) ltac:(intros k x _; unfold slot_held, held; zcase)). pose proof (lsum_nonneg (fun r => held (tr_estimate r)) l ltac:(intros x; unfold held; zcase)). lia.
  - destruct (Z.land (f_flags m) kReplayed =? 0); cbn [negb andb]; [|by apply Htake]. destruct (Z.ltb_spec 0 (f_cum_qty m)) as [Hc|Hc]; [|cbn [fst snd]; fold E; lia].
    rewrite (i64_id (f_cum_qty m - f_qty m)) by width. rewrite (i64_id (o_cum_qty o - _)) by width. set (part := Z.min (f_qty m) (o_cum_qty o - (f_cum_qty m - f_qty m))).
    replace (if f_qty m <? o_cum_qty o - (f_cum_qty m - f_qty m) then f_qty m else o_cum_qty o - (f_cum_qty m - f_qty m)) with part by (unfold part; zcase).
    destruct (Z.ltb_spec 0 part) as [Hp|Hp]; [by apply Htake; lia | cbn [fst snd]; fold E; lia].
Qed.

Lemma fill_handled (st : Oms) m h o : inv st -> open_handle st (f_cl_ord_id m) = h -> orders st !! h = Some o ->
  (u_action (fst (on_fill m st)) = ADuplicate /\ orders (snd (on_fill m st)) = orders st) \/
  (handled (EFill m) st h o (fst (on_fill m st)) (snd (on_fill m st)) /\ (est_room st -> fill_ok o m -> filled st h o m (fst (on_fill m st)) (snd (on_fill m st)))).
Proof.
  intros Hi Hf Ho. unfold on_fill.
  assert (Hseen : exists b st1, (if negb (str_empty (f_exec_id m)) then
      let '(fresh, st) := remember_exec m st in (negb fresh, st) else (false, st)) = (b, st1) /\ inv st1 /\
      orders st1 = orders st /\ open_handle st1 (f_cl_ord_id m) = h /\ estimates_ st1 = estimates_ st).
  { case_if; [|by exists false, st]. unfold remember_exec. destruct (sn_assign _ _) as [fresh r].
    do 2 eexists. split; [reflexivity|]. split; [|done]. destruct Hi as [l Hv]. exists l. by apply (Inv_frame _ _ st). }
  destruct Hseen as (b & st1 & -> & Hi1 & Eor1 & Hf1 & Ees1). destruct b; [left; split; [done | exact Eor1]|]. right.
  pose proof Hi1 as [l Hv]. rewrite <- Eor1 in Ho. set (u0 := new_update <| u_fill_qty := _ |> <| u_fill_px := _ |>).
  destruct (lookup_at st1 l _ u0 h o Hv Hf1 Ho) as (El & Hval & _). rewrite El.
  set (u := u0 <| u_known := true |> <| u_handle := h |>).
  destruct (settle_inv strict st1 h m u Hi1 ltac:(right; by eexists)) as [Hi2 Hor2].
  pose proof (settle_update st1 h m u) as Htu. pose proof (fun Hr => settle_open st1 l h m u o Hv Ho Hr eq_refl eq_refl) as Hset. cbv zeta in Hset.
  destruct (settle_estimate h m u st1) as [u2 st2]. cbn [fst snd] in *. rewrite Hval. cbn [negb].
  set (st3 := stat st2 _). assert (Hi3 : inv st3) by by apply frame_stats.
  assert (Hor3 : orders st3 = orders st1) by exact Hor2. destruct Hi3 as [l3 Hv3].
  rewrite <- Hor3 in Ho. destruct (fill_order_handled st3 l3 m h o u2 Hv3 Ho Htu) as [(H1 & H2 & H3 & H4 & H5 & H6 & H7) (F1 & F2 & F3 & F4 & F5)].
  split; [unfold handled; rewrite H4, Hor3, Eor1; done|]. intros Hroom Hfit. assert (Ees : forall k, estimate_at st1 k = estimate_at st k) by (intros k; unfold estimate_at; by rewrite Ees1).
  destruct Hset as [S1 S2]; [intros k o' Ho'; rewrite Ees; apply Hroom; by rewrite <- Eor1 | done|]. rewrite Ees in S1, S2. unfold filled. rewrite F1. split; [exact S1|]. rewrite F2, S1. set (c := booked_already o m _) in *.
  assert (Hc : 0 <= c <= f_qty m). { unfold c, booked_already. destruct Hfit as (Hq & _). clear -Hq. repeat case_match; lia. }
  assert (Ei : i64 (o_cum_qty o + i64 (f_qty m - c)) = o_cum_qty o + (f_qty m - c)).
  { destruct Hfit as (Hq & _ & Hs). pose proof (oo_qty _ _ (inv_order _ _ _ _ _ _ Hv3 Ho)). rewrite (i64_id (f_qty m - c)) by width. apply i64_id. width. }
  rewrite Ei. split; [done|]. split; [done|]. split; [by rewrite F4, F2, S1, Ei|]. intros Ht. rewrite (F5 Ht). exact S2.
Qed.

(** ** Events about no open order *)

(** Neither the orders nor the ids change. *)
Definition idle (st st' : Oms) : Prop := pool_ st' = pool_ st /\ ids_ st' = ids_ st.
Lemma take_idle h id q u (st : Oms) : idle st (snd (take_synthetic h id q u st)).
Proof. unfold take_synthetic, set_the_estimate. destruct (the_estimate st h id) as [e|]; [|done]. repeat case_match; done. Qed.
Lemma settle_idle h m u (st : Oms) : idle st (snd (settle_estimate h m u st)).
Proof. unfold settle_estimate. repeat case_if; first [done | apply take_idle]. Qed.
Lemma late_idle m u (st : Oms) : idle st (snd (late_fill m u st)).
Proof. unfold late_fill. destruct (find_terminal st _) as [r|]; [|done]. cbv zeta. case_if; [done|]. by destruct (_ && _). Qed.
Lemma lookup_none (st : Oms) l id u : Inv (orders st) st l -> orders st !! open_handle st id = None -> handle_valid (fst (lookup id u st)) = false.
Proof.
  intros Hv Hn. assert (E : fst (lookup id u st) = open_handle st id) by (unfold lookup, open_handle; destruct (im_find (ids_ st) id) as [v|]; [|done]; destruct (is_terminal_ref v); cbn [negb]; [by destruct (find_terminal st id) | done]).
  pose proof (lookup_spec strict st l id u Hv) as Hl. destruct (lookup id u st) as [h u']. cbn [fst] in *. subst h. destruct Hl as [(o & Ho & _)|(_ & Hf & _)]; [congruence | done].
Qed.
Lemma event_idle (st : Oms) e : inv st -> orders st !! find st (event_id e) = None -> idle st (snd (handle e st)).
Proof.
  intros [l Hv] Hn. unfold find in Hn. destruct e as [m|m|m|m|m|m|m]; cbn [event_id handle] in *;
    [unfold on_ack | unfold on_reject | unfold on_cancel_ack | unfold on_cancel_reject | | unfold on_expired | unfold reconcile_open_order];
    try (pose proof (lookup_none st l _ new_update Hv Hn) as Hf; destruct (lookup _ new_update st) as [h u]; cbn [fst] in Hf; rewrite Hf; cbn [negb]; repeat case_if; done).
  unfold on_fill. assert (Hseen : exists b r st1, (if negb (str_empty (f_exec_id m)) then let '(fresh, st) := remember_exec m st in (negb fresh, st) else (false, st)) = (b, st1) /\ st1 = st <| exec_seen_ := r |>).
  { case_if; [|exists false, (exec_seen_ st), st; split; [done | by destruct st]]. unfold remember_exec. destruct (sn_assign _ _) as [fresh r]. by do 3 eexists. }
  destruct Hseen as (b & r & st1 & -> & ->). destruct b; [done|]. set (st1 := st <| exec_seen_ := r |>). assert (Hv1 : Inv (orders st1) st1 l) by (by apply (Inv_frame _ _ st)).
  match goal with |- context [lookup _ ?x st1] => set (u0 := x) end. pose proof (lookup_none st1 l _ u0 Hv1 Hn) as Hf. destruct (lookup (f_cl_ord_id m) u0 st1) as [h u]. cbn [fst] in Hf. pose proof (settle_idle h m u st1) as Hs. destruct (settle_estimate h m u st1) as [u2 st2].
  rewrite Hf. cbn [negb snd] in *. destruct (u_known u2); [|exact Hs]. destruct (late_idle m (u2 <| u_action := ALateFill |>) (stat (stat st2 (fun s => s <| s_fills ::= inc |>)) (fun s => s <| s_late_fills ::= inc |>))) as [L1 L2]. destruct Hs as [S1 S2]. split; [rewrite L1; exact S1 | rewrite L2; exact S2].
Qed.

(** Every message about an open order. *)
Lemma event_handled (st : Oms) e o : inv st -> est_room st -> orders st !! find st (event_id e) = Some o ->
  (u_action (fst (handle e st)) = ADuplicate /\ orders (snd (handle e st)) = orders st) \/ handled e st (find st (event_id e)) o (fst (handle e st)) (snd (handle e st)).
Proof.
  intros Hi Hroom Ho. pose proof Hi as [l Hv]. destruct e as [m|m|m|m|m|m|m]; cbn [event_id handle] in *.
  - right. by apply (ack_handled st l).
  - right. by apply (reject_handled st l).
  - right. by apply (cancel_ack_handled st l).
  - right. by apply (cancel_reject_handled st l).
  - destruct (fill_handled st m _ o Hi eq_refl Ho) as [?|[? _]]; [by left | by right].
  - right. by apply (expired_handled st l).
  - right. by apply (open_order_handled st l).
Qed.
End props.
