(* ===== verification/OmsProps.v ===== *)
(** * OmsProps: what the order manager guarantees

    The accounting, the ids and the estimates in every reachable state, the
    outcome of a submission, the state machine under venue messages,
    deduplication of executions, id allocation, reconciliation, and the place
    where the best own price departs from its description. *)

From Stdlib Require Import Sorted.
From S2P Require Import Prelude Types Orders MapSum Bits RingBuffer BucketBits Pool.
From S2P Require Import HashMap RecentMap Interfaces Oms OmsInv OmsStep OmsOps OmsHandlers.

#[local] Arguments i64 : simpl never.
#[local] Arguments u32 : simpl never.
#[local] Arguments Z.ltb : simpl never.

Section props.
Context {M P R : Type} `{IM : IdMap M} `{OP : ObjPool P Order} `{SN : Seen R}.
Notation Oms := (Oms M P R).
Hypothesis Hcap : op_cap = kMaxOpenOrders.
Hypothesis Hids : 3 * kMaxOpenOrders < im_cap.

(** C1. In every reachable state the counters of the order manager are exact: the open count is the
    number of orders in the pool (at most 4096), the count per instrument is the number of its open
    orders, the working quantity per side is the sum of what its open orders have left (as an
    [int64] holds it), and an open order is never terminal nor filled beyond its quantity. *)
Theorem oms_accounting (st : Oms) : reach False st ->
  open_count st = Z.of_nat (size (orders st)) /\ open_count st <= kMaxOpenOrders /\
  (forall i, open_count_inst st i = Z.of_nat (size (filter (fun e => o_instrument (snd e) = i) (orders st)))) /\
  (forall i s, open_qty st i s = i64 (msum (qty_term i s) (orders st))) /\
  (forall h o, orders st !! h = Some o -> is_terminal (o_state o) = false /\ 0 <= o_cum_qty o <= o_qty o).
Proof.
  intros Hr. destruct (reach_inv Hcap Hids False st Hr) as [l Hv]. destruct (v_acct _ _ _ _ Hv) as [Ho Hs _ _ Hop Hpe Hq].
  unfold open_count, open_count_inst, open_qty. rewrite Hop, msum_size. split; [done|]. split.
  { pose proof (msum_one_bound _ Hs) as Hb. rewrite msum_size in Hb. unfold kMaxOpenOrders in *. lia. }
  split; [intros i; rewrite Hpe, <- msum_count; apply msum_ext; intros h o _; unfold inst_term; cbn [snd]; case_decide; zcase | split; [done|]].
  intros h o E. destruct (Ho h o E) as [_ ? [? _] _ _ _]. done.
Qed.

(** When every order carries a positive price, [best_own_px] is, in every reachable state, the
    best price among the open orders on that side of the instrument, and zero when there are none. *)
Theorem best_own_exact (st : Oms) i s : reach True st -> is_best (orders st) i s (best_own_px st i s).
Proof. intros Hr. destruct (reach_inv Hcap Hids True st Hr) as [l Hv]. exact (v_best _ _ _ _ Hv I i s). Qed.

(** The id table in both directions. *)
Definition names (st : Oms) (id : ClientOrderId) : Prop :=
  match classify st id with
  | Open => exists o, orders st !! find st id = Some o /\
      (o_cl_ord_id o = id \/ o_state o = PendingReplace /\ o_pending_cl_ord_id o = id)
  | RecentlyTerminal => exists r, find_terminal st id = Some r /\ tr_cl_ord_id r = id
  | Unknown => find_terminal st id = None
  end.

(** C38. The id table never dangles: an id classified open finds an open order that carries it, an id
    classified recently terminal finds the record of that id, and conversely every open order is
    found under its own id and, while a replace is pending, under the id of the replace. *)
Theorem ids_sound (st : Oms) : reach False st -> (forall id, names st id) /\
  (forall h o, orders st !! h = Some o -> find st (o_cl_ord_id o) = h /\
     (o_state o = PendingReplace -> find st (o_pending_cl_ord_id o) = h)).
Proof.
  intros Hr. destruct (reach_inv Hcap Hids False st Hr) as [l Hv]. split.
  - intros id. unfold names, classify. destruct (handle_valid (open_handle st id)) eqn:Eh.
    + pose proof (lookup_spec False st l id new_update Hv) as Hl. unfold find. unfold lookup in Hl.
      unfold open_handle in *. destruct (im_find (ids_ st) id) as [v|]; [|done].
      destruct (is_terminal_ref v); cbn [negb] in *; [done|].
      destruct Hl as [(o & Ho & _ & _ & Hc & _) | (_ & Hn & _)]; [eauto | by rewrite Eh in Hn].
    + destruct (find_terminal_spec False _ st l id Hv) as [(v & k & r & _ & _ & _ & Hid & -> & _) | [_ ->]]; eauto.
  - intros h o Ho. assert (Hn : is_terminal_ref h = false) by (apply not_ref, (inv_slots _ _ _ _ Hv); by eexists).
    pose proof (v_ids _ _ _ _ Hv) as Hi. unfold find, open_handle. rewrite !im_find_spec by apply Hv. split.
    + by rewrite (id_own _ _ _ _ Hi h o Ho), Hn.
    + intros Hp. by rewrite (id_pend _ _ _ _ Hi h o Ho Hp), Hn.
Qed.

(** [synthetic_pending] is exactly the number of estimates not yet matched by an execution: those of
    open orders and those of the records of terminal orders still in the ring. *)
Theorem estimates_counted (st : Oms) : reach False st ->
  exists l, Ring.ring_rep kTerminalBits (recently_terminal_ st) l /\
  s_synthetic_pending (stats_ st) =
    Z.of_nat (size (filter (fun e => 0 < e_qty (estimate_at st (fst e))) (orders st))) +
    Z.of_nat (length (filter (fun r => 0 < e_qty (tr_estimate r)) l)).
Proof.
  intros Hr. destruct (reach_inv Hcap Hids False st Hr) as [l Hv]. exists l. split; [apply Hv|].
  destruct (v_syn _ _ _ _ Hv) as [_ ->]. f_equal.
  - rewrite <- msum_count. apply msum_ext. intros h o _. unfold slot_held, held, estimate_at. cbn [fst].
    case_decide; zcase.
  - rewrite <- lsum_count. apply lsum_ext. intros r. unfold held. case_decide; zcase.
Qed.

(** C36. [submit] has exactly four outcomes: an instrument out of range and an id that is open are refused
    without a change, a full pool (4096 open orders) is refused without a change to any order, and
    otherwise the order is accepted in a slot that was free, pending, unfilled and found by its id.
    In particular the id table never refuses while the pool has room. *)
Theorem submit_outcome (st : Oms) req id now : reach False st -> 0 <= r_instrument req -> 0 <= r_qty req <= i64_max ->
  let r := submit req id now st in
  if kMaxInstruments <=? r_instrument req then r = (Err InstrumentDisabled, st)
  else if handle_valid (find st id) then r = (Err DuplicateId, st)
  else if open_count st =? kMaxOpenOrders then fst r = Err PoolExhausted /\ orders (snd r) = orders st
  else exists h o, fst r = Ok h /\ orders st !! h = None /\ orders (snd r) = <[h := o]> (orders st) /\
    o_cl_ord_id o = id /\ o_instrument o = r_instrument req /\ o_side o = r_side req /\ o_state o = PendingNew /\
    o_price o = r_price req /\ o_qty o = r_qty req /\ o_cum_qty o = 0 /\ find (snd r) id = h.
Proof.
  intros Hr Hi Hq. destruct (reach_inv Hcap Hids False st Hr) as [l Hv].
  destruct (reach_inv Hcap Hids False _ (reach_submit False st req id now Hr Hi Hq ltac:(done))) as [l' Hv'].
  assert (Hn : open_count st = Z.of_nat (size (orders st))) by (rewrite <- msum_size; apply Hv).
  cbv zeta. remember (submit req id now st) as r eqn:Er. unfold submit, find in *. case_if; [done|]. case_if; [done|].
  destruct (op_allocate (pool_ st)) as [h pool] eqn:Ea. destruct (handle_valid h) eqn:Eh; cbn [negb] in Er.
  - assert (Hne : h <> kNullHandle) by (unfold handle_valid in Eh; lia).
    destruct (op_allocate_some (pool_ st) h pool (v_pool _ _ _ _ Hv) Ea Hne) as (Hh & Hnone & Hset & _).
    assert (Hroom : open_count st < kMaxOpenOrders).
    { pose proof (msum_one_bound (<[h := no_order]> (orders st))) as Hb. rewrite msum_size, map_size_insert_None in Hb by done.
      unfold kMaxOpenOrders in *. enough (Z.of_nat (S (size (orders st))) <= 4096) by lia. apply Hb. intros k Hk.
      destruct (Z.eq_dec h k) as [<- |]; [lia|]. rewrite lookup_insert_ne in Hk by done. by apply (inv_slots _ _ _ _ Hv). }
    replace (open_count st =? kMaxOpenOrders) with false by lia.
    unfold add_open in Er. cbn [ids_ pool_ fupd] in Er.
    destruct (im_assign_spec (ids_ st) id h ltac:(apply Hv) (or_intror (ids_room Hids False st l Hv)))
      as (ids' & E & Hik & Hia). rewrite E in Er. cbn [negb] in Er. cbv zeta in Er.
    match type of Er with context [put _ h ?x] => set (o := x) in Er end.
    assert (Eo : orders (snd r) = <[h := o]> (orders st)) by (rewrite Er; cbn [snd]; case_if; apply Hset).
    exists h, o. split; [by rewrite Er|]. split; [done|]. split; [done|]. do 7 (split; [done|]).
    unfold open_handle. rewrite im_find_spec by apply Hv'.
    assert (Ho : orders (snd r) !! h = Some o) by (rewrite Eo; apply lookup_insert_eq).
    change id with (o_cl_ord_id o). rewrite (id_own _ _ _ _ (v_ids _ _ _ _ Hv') h o Ho), not_ref; [done|].
    by rewrite <- Hcap.
  - unfold handle_valid in Eh. assert (h = kNullHandle) as -> by lia.
    destruct (op_allocate_null (pool_ st) pool (v_pool _ _ _ _ Hv) Ea) as [-> Hfull].
    rewrite Hcap in Hfull. fold (orders st) in Hfull. replace (open_count st =? kMaxOpenOrders) with true by lia.
    by rewrite Er.
Qed.

(** C2. A venue message (acknowledgement, reject, cancel ack and reject, fill, expiry, reconciliation) changes at most the
    order its id leads to.  When that is an open order, either the message is a repeated execution and no order changes, or
    the order moves along a transition of the documented state machine, keeps its instrument, side and tag, is updated in
    place while it is open and leaves the pool exactly when it became terminal.  When the id leads to no open order, because
    the order has ended or was never known, no order changes, none comes back, and every id leads where it did.  The
    estimates of the orders fit 64 bits next to their quantities. *)
Theorem oms_event_step (st : Oms) e : reach False st -> est_room st ->
  let u := fst (handle e st) in let st' := snd (handle e st) in
  match orders st !! find st (event_id e) with
  | Some o => (u_action u = ADuplicate /\ orders st' = orders st) \/ handled e st (find st (event_id e)) o u st'
  | None => orders st' = orders st /\ forall id, find st' id = find st id
  end.
Proof.
  intros Hr Hroom. cbv zeta. pose proof (reach_inv Hcap Hids False st Hr) as Hi. destruct (orders st !! find st (event_id e)) as [o|] eqn:Ho; [by apply (event_handled False)|].
  destruct (event_idle False st e Hi Ho) as [E1 E2]. unfold orders, find, open_handle. by rewrite E1, E2.
Qed.

(** C5. An execution for an open order that is not a repeat moves its filled quantity to the venue's cumulative quantity or,
    when the venue sends none, by the executed quantity less the part an estimate had booked before; never down and never
    beyond the order's quantity.  That part is determined by the order, its estimate and the message ([booked_already]), it
    is what the update reports as corrected, and the estimate of an order that stays open shrinks by exactly it.  The order
    is finished exactly when it is filled.  Quantities are not negative and fit 64 bits together. *)
Theorem on_fill_quantity (st : Oms) m o : reach False st -> est_room st -> orders st !! find st (f_cl_ord_id m) = Some o -> fill_ok o m ->
  u_action (fst (on_fill m st)) <> ADuplicate -> filled st (find st (f_cl_ord_id m)) o m (fst (on_fill m st)) (snd (on_fill m st)).
Proof.
  intros Hr Hroom Ho Hok Hd. destruct (fill_handled False st m _ o (reach_inv Hcap Hids False st Hr) eq_refl Ho) as [[? _]|[_ ?]]; [done | auto].
Qed.

(** ** Executions are booked once *)

Lemma remember_seen r u (st : Oms) : exec_seen_ (snd (remember_terminal r u st)) = exec_seen_ st.
Proof.
  unfold remember_terminal, forget_oldest. case_if; [|done]. destruct (Ring.front _ _) as [g|]; [|done].
  destruct (0 <? e_qty (tr_estimate g)); destruct (im_find _ _); try case_if; done.
Qed.
Lemma terminate_seen u h o final br (st : Oms) : exec_seen_ (snd (terminate u h o final br st)) = exec_seen_ st.
Proof.
  unfold terminate. cbv zeta. match goal with |- context [remember_terminal ?r u ?s] =>
    pose proof (remember_seen r u s) as E; destruct (remember_terminal r u s) as [u' st'] end.
  cbn [snd] in E. transitivity (exec_seen_ st'); [by case_if|]. rewrite E.
  unfold drop_open. repeat case_if; try done; destruct (im_find _ _); try done; by case_if.
Qed.
Lemma settle_seen h m u (st : Oms) : exec_seen_ (snd (settle_estimate h m u st)) = exec_seen_ st.
Proof.
  assert (Ht : forall q, exec_seen_ (snd (take_synthetic h (f_cl_ord_id m) q u st)) = exec_seen_ st).
  { intros q. unfold take_synthetic, set_the_estimate. destruct (the_estimate st h _); [|done].
    repeat case_if; try done; by destruct (find_terminal _ _). }
  unfold settle_estimate. repeat case_if; done.
Qed.
Lemma late_seen m u (st : Oms) : exec_seen_ (snd (late_fill m u st)) = exec_seen_ st.
Proof. unfold late_fill. destruct (find_terminal _ _); [|done]. repeat case_if; done. Qed.
Lemma fill_order_seen h m u (st : Oms) : exec_seen_ (snd (fill_order h m u st)) = exec_seen_ st.
Proof. unfold fill_order. cbv zeta. case_if; [by rewrite terminate_seen | done]. Qed.

(** Where an execution goes once it is not a repeat. *)
Definition book (m : OrderFillMsg) (st : Oms) : OmsUpdate * Oms :=
  let u := new_update <| u_fill_qty := f_qty m |> <| u_fill_px := f_price m |> in
  let '(h, u) := lookup (f_cl_ord_id m) u st in
  let '(u, st) := settle_estimate h m u st in
  let st := stat st (fun s => s <| s_fills ::= inc |>) in
  if negb (handle_valid h) then
    if u_known u then
      late_fill m (u <| u_action := ALateFill |>) (stat st (fun s => s <| s_late_fills ::= inc |>))
    else (u <| u_action := AUnknownFill |>, stat st (fun s => s <| s_unknown_ids ::= inc |>))
  else fill_order h m u st.

Lemma book_seen m (st : Oms) : exec_seen_ (snd (book m st)) = exec_seen_ st.
Proof.
  unfold book. destruct (lookup _ _ _) as [h u]. pose proof (settle_seen h m u st) as E.
  destruct (settle_estimate h m u st) as [u' st']. cbn [snd] in E. rewrite <- E.
  repeat case_if; by rewrite ?late_seen, ?fill_order_seen.
Qed.

(** With [l] the execution keys remembered (oldest first), an execution that carries an id is
    booked exactly when its key is not in [l], and is otherwise reported as a duplicate and changes
    nothing but the duplicate counter; once booked it is the newest key, and the oldest is
    forgotten only when the memory is full. *)
Theorem on_fill_dedup (st : Oms) m l : sn_rep (exec_seen_ st) l -> str_empty (f_exec_id m) = false ->
  let r := on_fill m st in let k := exec_key m in
  if bool_decide (k ∈ l) then
    u_action (fst r) = ADuplicate /\ u_changed (fst r) = false /\
    snd r = stat (st <| exec_seen_ := exec_seen_ (snd r) |>) (fun s => s <| s_duplicates ::= inc |>) /\
    sn_rep (exec_seen_ (snd r)) l
  else
    r = book m (snd (remember_exec m st)) /\
    sn_rep (exec_seen_ (snd r)) ((if Z.of_nat (length l) =? sn_cap then tail l else l) ++ [k]).
Proof.
  intros Hs He. cbv zeta. destruct (sn_assign_spec (exec_seen_ st) l (exec_key m) Hs) as [Hf Hrep].
  assert (E : on_fill m st = if fst (sn_assign (exec_seen_ st) (exec_key m))
    then book m (snd (remember_exec m st))
    else (new_update <| u_fill_qty := f_qty m |> <| u_fill_px := f_price m |> <| u_action := ADuplicate |>,
          stat (st <| exec_seen_ := snd (sn_assign (exec_seen_ st) (exec_key m)) |>) (fun s => s <| s_duplicates ::= inc |>))).
  { unfold on_fill, remember_exec. rewrite He. cbn [negb]. destruct (sn_assign _ _) as [fresh r]. by destruct fresh. }
  rewrite E, Hf. case_bool_decide; cbn [negb].
  - done.
  - split; [done|]. rewrite book_seen. unfold remember_exec. by destruct (sn_assign _ _).
Qed.

(** ** Client order ids *)

(** [n] calls to [next_cl_ord_id]. *)
Fixpoint draw (n : nat) (st : Oms) : list ClientOrderId * Oms :=
  match n with
  | O => ([], st)
  | S n => let '(id, st) := next_cl_ord_id st in let '(ids, st) := draw n st in (id :: ids, st)
  end.

Lemma make_id_sum e s : 0 <= e -> 0 <= s < 2 ^ 32 -> make_cl_ord_id e s = e * 2 ^ 32 + s.
Proof. intros He Hs. unfold make_cl_ord_id. apply lor_pack; lia. Qed.

Lemma draw_ids n : forall st : Oms, 0 <= epoch_ st -> 0 <= seq_ st -> max_seq_ st <= kMaxSeq ->
  seq_ st + Z.of_nat n <= max_seq_ st ->
  fst (draw n st) = (fun k => epoch_ st * 2 ^ 32 + k) <$> seqZ (seq_ st + 1) (Z.of_nat n) /\
  snd (draw n st) = (st <| seq_ := seq_ st + Z.of_nat n |>).
Proof.
  unfold kMaxSeq. induction n as [|n IH]; intros st He Hs Hm Hn.
  - split; [done|]. rewrite Z.add_0_r. by destruct st.
  - cbn [draw]. unfold next_cl_ord_id. destruct (Z.leb_spec (max_seq_ st) (seq_ st)); [lia|].
    replace (u64 (seq_ st + 1)) with (seq_ st + 1) by (symmetry; apply Z.mod_small; lia).
    replace (u32 (seq_ st + 1)) with (seq_ st + 1) by (symmetry; apply Z.mod_small; lia). set (st1 := st <| seq_ := _ |>).
    destruct (IH st1 He ltac:(cbn; lia) Hm ltac:(cbn; lia)) as [E1 E2].
    destruct (draw n st1) as [ids st2]. cbn [fst snd] in *.
    rewrite seqZ_cons by lia. cbn [fmap list_fmap]. rewrite make_id_sum by lia. split.
    + f_equal. rewrite E1. replace (Z.pred (Z.of_nat (S n))) with (Z.of_nat n) by lia. done.
    + rewrite E2. unfold st1. replace (seq_ st + Z.of_nat (S n)) with (seq_ st + 1 + Z.of_nat n) by lia. done.
Qed.

(** A session that starts at sequence zero issues valid, strictly increasing client order ids
    [epoch << 32 | sequence], all within its epoch's range (so above those of every earlier epoch),
    until the sequence is used up, and from then on only the invalid id. *)
Theorem cl_ord_ids_increase (epoch max_seq : Z) (n : nat) : 0 <= epoch < 2 ^ 16 -> 0 <= max_seq <= kMaxSeq ->
  Z.of_nat n <= max_seq ->
  let '(ids, st) := draw n (new_oms epoch max_seq : Oms) in
  length ids = n /\ StronglySorted Z.lt ids /\
  Forall (fun id => cl_ord_id_valid id = true /\ make_cl_ord_id epoch 0 < id < make_cl_ord_id (epoch + 1) 0 /\
                    cl_ord_id_epoch id = epoch) ids /\
  ids_left st = max_seq - Z.of_nat n /\ (Z.of_nat n = max_seq -> next_cl_ord_id st = (0, st)).
Proof.
  unfold kMaxSeq. intros He Hm Hn. set (st0 := new_oms epoch max_seq : Oms).
  destruct (draw_ids n st0) as [E1 E2]; [cbn; unfold kMaxSeq; lia.. |].
  destruct (draw n st0) as [ids st]. cbn [fst snd] in *. cbn in E1. subst ids.
  rewrite length_fmap, length_seqZ. split; [lia|]. split; [apply sorted_shift, seqZ_sorted|]. split; [|split].
  - apply Forall_forall. intros id Hid. apply list_elem_of_fmap in Hid as (k & -> & Hk). apply elem_of_seqZ in Hk.
    rewrite !make_id_sum by lia. unfold cl_ord_id_valid, cl_ord_id_epoch. split; [lia|]. split; [lia|].
    rewrite pack_high by lia. change 65535 with (2 ^ 16 - 1).
    rewrite land_mask by lia. apply Z.mod_small. lia.
  - rewrite E2. unfold ids_left. cbn. apply Z.mod_small. lia.
  - intros E. unfold next_cl_ord_id. destruct (Z.leb_spec (max_seq_ st) (seq_ st)) as [|Hlt]; [done|]. exfalso.
    rewrite E2 in Hlt. cbn [max_seq_ seq_ fupd] in Hlt. unfold st0, new_oms in Hlt. cbn [max_seq_ seq_] in Hlt. lia.
Qed.

(** ** Reconciliation *)

(** A caller that only watches. *)
Definition watch (u : OmsUpdate) (st : Oms) : Oms := st.

Lemma end_unseen_orders (st : Oms) h : inv False st -> 0 <= h ->
  orders (end_unseen watch st h) = delete h (orders st) /\ inv False (end_unseen watch st h).
Proof.
  intros [l Hv] Hh. split; [|apply (end_unseen_inv False); [by intros | done | by exists l]].
  unfold end_unseen, watch. destruct (is_live st h) eqn:El; cbn [negb].
  - destruct (live_order False st l h Hv Hh El) as (o & Ho & ->). cbv zeta. set (o' := add_flag o kReconciled).
    assert (Hend : forall u (st1 : Oms), Inv False (orders st1) st1 l -> orders st1 = orders st ->
      orders (snd (terminate u h o' Canceled true st1)) = delete h (orders st)).
    { intros u st1 Hv1 Eo. destruct (terminate_inv False st1 l u h o' Canceled true) as [_ E]; [|rewrite Eo; by eexists|by rewrite E, Eo].
      apply (copy_inv False _ l h o); try done; [by rewrite Eo|]. destruct (inv_order _ _ _ _ _ _ Hv Ho). done. }
    case_if; match goal with |- context [terminate ?u ?h ?o ?f ?b ?s] => specialize (Hend u s); destruct (terminate u h o f b s) end;
      apply Hend; try done. by apply (Inv_frame _ _ st).
  - assert (Hn : orders st !! h = None); [|by rewrite delete_id].
    destruct (orders st !! h) eqn:E; [|done]. exfalso. unfold is_live in El.
    assert (op_is_live (pool_ st) h = true); [apply op_live_spec; [apply Hv | done | by eexists] | congruence].
Qed.

(** The end of a reconciliation ends exactly the orders it collected: those of the venue that the
    snapshot did not report and, when the snapshot came with the id last sent before it, that were
    sent by then; every other order is untouched. *)
Theorem reconcile_end_exact (st : Oms) v h : reach False st ->
  orders (reconcile_end watch v st) !! h = if bool_decide (h ∈ unseen st v) then None else orders st !! h.
Proof.
  intros Hr. pose proof (reach_inv Hcap Hids False st Hr) as Hi. unfold reconcile_end.
  assert (Hnn : Forall (fun h => 0 <= h) (unseen st v)).
  { apply Forall_forall. intros k Hk. apply list_elem_of_filter in Hk as [_ Hk]. by apply (handles_nonneg False st). }
  clear Hr. revert Hnn Hi. generalize (unseen st v) as hs. intros hs Hnn. revert st. induction Hnn as [|k hs Hk _ IH]; intros st Hi.
  - cbn. by rewrite bool_decide_false by apply not_elem_of_nil.
  - cbn [fold_left]. destruct (end_unseen_orders st k Hi Hk) as [Eo Hi1]. rewrite (IH _ Hi1), Eo.
    destruct (Z.eq_dec k h) as [-> |Hne].
    + rewrite lookup_delete_eq, (bool_decide_true (h ∈ h :: hs)) by constructor. by case_if.
    + rewrite lookup_delete_ne by done. rewrite (bool_decide_ext (h ∈ k :: hs) (h ∈ hs)); [done|].
      rewrite elem_of_cons. naive_solver.
Qed.
End props.

(** ** The order manager with the containers [oms.hpp] gives it *)

Module Concrete.
#[local] Instance ids_ops : IdMapOps (OpenHash.OpenHashMap Z) | 0 := hash_id_ops 14.
#[local] Instance slots_ops : ObjPoolOps (Pool.Pool Order) Order | 0 := pool_ops Order 4096.
#[local] Instance seen_ops : SeenOps (Recent.RecentMap Z) | 0 := recent_ops 16.
#[local] Instance ids_map : IdMap (OpenHash.OpenHashMap Z) := hash_id_map 14 ltac:(lia).
#[local] Instance slots_pool : ObjPool (Pool.Pool Order) Order := obj_pool Order 4096 ltac:(unfold kNullHandle; lia).
#[local] Instance seen_map : Seen (Recent.RecentMap Z) := recent_seen 16 ltac:(lia).
Notation SimpleOms := (Oms (OpenHash.OpenHashMap Z) (Pool.Pool Order) (Recent.RecentMap Z)).

Lemma cap_ok : @op_cap _ _ _ slots_pool = kMaxOpenOrders.
Proof. reflexivity. Qed.
Lemma ids_ok : 3 * kMaxOpenOrders < @im_cap _ _ ids_map.
Proof. reflexivity. Qed.

(** A sell of 5 at 100, acknowledged, with 2 executed. *)
Definition st0 : SimpleOms := new_oms 1 100.
Definition st1 : SimpleOms := snd (submit (limit 7 Sell 100 5) 1 10 st0).
Definition st2 : SimpleOms := snd (on_ack (mkAck (mkHdr 7 20 21) 1 [65] 0) st1).
Definition fill : OrderFillMsg := mkFill (mkHdr 7 30 31) 1 [65] [88] 100 2 0 Sell 0.
Definition st3 : SimpleOms := snd (on_fill fill st2).

Lemma st3_reach (strict : Prop) : reach strict st3.
Proof.
  unfold st3, st2, st1, st0. apply reach_fill, reach_ack, reach_submit; [apply reach_new | done | done | done].
Qed.
Lemma st2_reach (strict : Prop) : reach strict st2.
Proof. unfold st2, st1, st0. apply reach_ack, reach_submit; [apply reach_new | done | done | done]. Qed.

Definition order2 : Order :=
  mkOrder 1 [65] 0 7 kInvalidVenue Sell Limit Gtc Live NoReason 0 0 0 100 5 0 10 0 0 0.

Lemma oms_accounting_witness : open_count st3 = 1 /\ open_qty st3 7 Sell = 3 /\
  open_count st3 = Z.of_nat (size (orders st3)).
Proof.
  split; [vm_compute; reflexivity|]. split; [vm_compute; reflexivity|].
  destruct (oms_accounting cap_ok ids_ok st3 (st3_reach False)) as [H _]. exact H.
Defined.

Lemma best_own_exact_witness : best_own_px st3 7 Sell = 100 /\ is_best (orders st3) 7 Sell (best_own_px st3 7 Sell).
Proof. split; [vm_compute; reflexivity|]. apply (best_own_exact cap_ok ids_ok st3 7 Sell (st3_reach True)). Defined.

Lemma ids_sound_witness : classify st3 1 = Open /\ names st3 1.
Proof. split; [vm_compute; reflexivity|]. destruct (ids_sound cap_ok ids_ok st3 (st3_reach False)) as [H _]. exact (H 1). Defined.

(** A cancel acknowledged with one more executed than was ever reported leaves an estimate. *)
Definition st4 : SimpleOms := snd (on_cancel_ack (mkCancelAck 1 3) st3).
Lemma no_estimates_room (st : SimpleOms) : reach False st -> estimates_ st = {[ 0 := no_estimate ]} -> est_room st.
Proof.
  intros Hr E h o Ho. destruct (reach_inv cap_ok ids_ok False st Hr) as [l Hv].
  destruct (inv_order _ _ _ _ _ _ Hv Ho) as [_ _ [_ Hq] _ _ _].
  assert (He : e_qty (estimate_at st h) = 0); [|lia]. unfold estimate_at. rewrite E.
  destruct (Z.eq_dec 0 h) as [<- |]; [by rewrite lookup_singleton_eq | by rewrite lookup_singleton_ne].
Qed.
Lemma st3_room : est_room st3.
Proof. apply no_estimates_room; [apply (st3_reach False) | vm_compute; reflexivity]. Qed.
Lemma st2_room : est_room st2.
Proof. apply no_estimates_room; [apply (st2_reach False) | vm_compute; reflexivity]. Qed.
Lemma st4_reach : reach False st4.
Proof. apply reach_cancel_ack; [apply (st3_reach False) | apply st3_room]. Qed.

Lemma estimates_counted_witness : s_synthetic_pending (stats_ st4) = 1 /\
  exists l, Ring.ring_rep kTerminalBits (recently_terminal_ st4) l /\
  s_synthetic_pending (stats_ st4) =
    Z.of_nat (size (filter (fun e => 0 < e_qty (estimate_at st4 (fst e))) (orders st4))) +
    Z.of_nat (length (filter (fun r => 0 < e_qty (tr_estimate r)) l)).
Proof. split; [vm_compute; reflexivity|]. apply (estimates_counted cap_ok ids_ok st4 st4_reach). Defined.

Lemma submit_outcome_witness : exists h o, fst (submit (limit 7 Buy 90 4) 2 40 st3) = Ok h /\
  orders (snd (submit (limit 7 Buy 90 4) 2 40 st3)) = <[h := o]> (orders st3) /\ o_cl_ord_id o = 2.
Proof.
  pose proof (submit_outcome cap_ok ids_ok st3 (limit 7 Buy 90 4) 2 40 (st3_reach False)
    ltac:(cbn; lia) ltac:(cbn; unfold i64_max; lia)) as H. cbv zeta in H.
  replace (kMaxInstruments <=? r_instrument (limit 7 Buy 90 4)) with false in H by reflexivity.
  replace (handle_valid (find st3 2)) with false in H by (vm_compute; reflexivity).
  replace (open_count st3 =? kMaxOpenOrders) with false in H by (vm_compute; reflexivity).
  destruct H as (h & o & H1 & _ & H2 & H3 & _). exists h, o. split; [exact H1|]. split; [exact H2 | exact H3].
Defined.

Lemma st2_order : orders st2 !! find st2 1 = Some order2.
Proof. vm_compute. reflexivity. Qed.
Lemma st3_order : orders st3 !! find st3 (event_id (ECancelAck (mkCancelAck 1 3))) = Some (order2 <| o_state := PartiallyFilled |> <| o_cum_qty := 2 |>).
Proof. vm_compute. reflexivity. Qed.

Definition cancel4 : event := ECancelAck (mkCancelAck 1 3).
Lemma st4_empty : orders st4 = ∅.
Proof.
  destruct (reach_inv cap_ok ids_ok False st4 st4_reach) as [l Hv]. destruct (v_acct _ _ _ _ Hv) as [_ _ _ _ Hop _ _]. rewrite msum_size in Hop. assert (E : s_open (stats_ st4) = 0) by (vm_compute; reflexivity). apply map_size_empty_inv. lia.
Qed.
Lemma st4_room : est_room st4.
Proof. intros h o Ho. rewrite st4_empty in Ho. destruct (lookup_empty_Some _ _ Ho). Qed.
(** A cancel acknowledgement ends the order; an expiry that comes late finds it ended. *)
Definition late5 : event := EExpired (mkExpired 1 3).
Lemma oms_event_step_witness : (exists o, orders st3 !! find st3 (event_id cancel4) = Some o /\
  handled cancel4 st3 (find st3 (event_id cancel4)) o (fst (handle cancel4 st3)) (snd (handle cancel4 st3))) /\
  find_terminal st4 (event_id late5) <> None /\ orders (snd (handle late5 st4)) = ∅.
Proof.
  split; [|split; [vm_compute; discriminate|]].
  - eexists. split; [exact st3_order|]. pose proof (oms_event_step cap_ok ids_ok st3 cancel4 (st3_reach False) st3_room) as H. cbv zeta in H. unfold cancel4 in H at 1. rewrite st3_order in H.
    destruct H as [[H _] | H]; [exfalso; revert H; vm_compute; discriminate | exact H].
  - pose proof (oms_event_step cap_ok ids_ok st4 late5 st4_reach st4_room) as H. cbv zeta in H. rewrite st4_empty, lookup_empty in H.
    destruct H as [H _]. exact H.
Defined.

Lemma on_fill_quantity_witness : o_cum_qty (u_order (fst (on_fill fill st2))) = 2 /\
  filled st2 (find st2 1) order2 fill (fst (on_fill fill st2)) (snd (on_fill fill st2)).
Proof.
  split; [vm_compute; reflexivity|].
  apply (on_fill_quantity cap_ok ids_ok st2 fill order2 (st2_reach False) st2_room st2_order); [split; [|split]; vm_compute; [discriminate | split; discriminate | discriminate]|].
  vm_compute. discriminate.
Defined.

(** The same execution again. *)
Lemma on_fill_dedup_witness : u_action (fst (on_fill fill st3)) = ADuplicate /\
  u_action (fst (on_fill fill st3)) <> u_action (fst (on_fill fill st2)).
Proof.
  assert (H2 : sn_rep (exec_seen_ st2) []).
  { assert (E : exec_seen_ st2 = sn_new) by (vm_compute; reflexivity). rewrite E. apply sn_new_rep. }
  pose proof (on_fill_dedup st2 fill [] H2 eq_refl) as Ha. cbv zeta in Ha.
  rewrite bool_decide_false in Ha by apply not_elem_of_nil. destruct Ha as [_ Ha].
  replace (Z.of_nat (length ([] : list Z)) =? sn_cap) with false in Ha by reflexivity.
  pose proof (on_fill_dedup (snd (on_fill fill st2)) fill _ Ha eq_refl) as Hb. cbv zeta in Hb.
  rewrite bool_decide_true in Hb by apply list_elem_of_here. destruct Hb as (Hb & _).
  unfold st3. split; [exact Hb|]. rewrite Hb. vm_compute. discriminate.
Defined.

Lemma cl_ord_ids_increase_witness : fst (draw 3 st0) = [4294967297; 4294967298; 4294967299] /\
  StronglySorted Z.lt (fst (draw 3 st0)).
Proof.
  split; [vm_compute; reflexivity|].
  pose proof (cl_ord_ids_increase 1 100 3 ltac:(lia) ltac:(unfold kMaxSeq; lia) ltac:(lia)) as H.
  unfold st0. destruct (draw 3 (new_oms 1 100)). destruct H as (_ & H & _). exact H.
Defined.

Lemma reconcile_end_exact_witness : orders (reconcile_end watch kInvalidVenue st3) !! 0 = None.
Proof.
  rewrite (reconcile_end_exact cap_ok ids_ok st3 kInvalidVenue 0 (st3_reach False)). vm_compute. reflexivity.
Defined.

(** A market sell next to the sell at 100: no price, so it reads as the best one. *)
Definition market : NewOrderRequest := (limit 7 Sell 0 1) <| r_type := Market |> <| r_tif := Ioc |>.
Definition st5 : SimpleOms := snd (submit market 2 50 st2).

(** An open order that carries no price hides the best own price: with a sell open at 100, submitting
    a market sell makes [best_own_px] report that the side has no open order, although the sell at
    100 is still open. *)
Theorem market_order_hides_best : best_own_px st2 7 Sell = 100 /\ best_own_px st5 7 Sell = 0 /\
  orders st5 !! find st5 1 = Some order2.
Proof. split; [|split]; vm_compute; reflexivity. Qed.
End Concrete.
