(* ===== verification/L2Book.v ===== *)
(** * L2Book: the price-aggregated book of [book/l2_book.hpp]

    A side is the live prefix of a [StaticVector<Level>], a list from the worst
    level to the best one.  [locate] scans the best sixteen levels and bisects the
    rest; [apply_level], [apply_snapshot] and [apply_delta] maintain the sides, and
    the queries read them.  The theorems say that a side is a finite map of prices
    to quantities kept in price order ([apply_level] is insertion and deletion of a
    key, dropping the worst key of a full side), that the linear-time snapshot
    loader equals applying its levels one by one, and what the queries return. *)

From Stdlib Require Import Sorted.
From S2P Require Import Prelude Types.

Record Level := mkLevel { l_price : Price; l_qty : Qty }.
#[export] Instance Level_eq_dec : EqDecision Level.
Proof. solve_decision. Defined.
Definition no_level : Level := mkLevel 0 0.

(** ** StaticVector *)

Module SVec.
Section ops.
Context {A : Type} (N : nat).
Definition insert_at (i : nat) (x : A) (v : list A) : bool * list A :=
  if bool_decide (length v = N) || (length v <? i)%nat then (false, v) else (true, take i v ++ x :: drop i v).
Definition erase_at (i : nat) (v : list A) : list A :=
  if (length v <=? i)%nat then v else take i v ++ drop (S i) v.
Definition erase_front (k : nat) (v : list A) : list A := drop (if (length v <? k)%nat then length v else k) v.
Definition push_back (x : A) (v : list A) : bool * list A :=
  if bool_decide (length v = N) then (false, v) else (true, v ++ [x]).
Definition assign (src : list A) : bool * list A := ((length src <=? N)%nat, take N src).
End ops.
End SVec.

(** ** The book *)

(** [BookDeltaMsg]: the fields the book reads. *)
Record BookDeltaMsg := mkDelta {
  d_flags : Z;
  d_exch_ts : Timestamp;
  d_recv_ts : Timestamp;
  d_last_update_id : Z;
  d_bids : list Level;
  d_asks : list Level;
}.
Definition kSnapshot : Z := 4.
Definition kTruncatedBids : Z := 64.
Definition kTruncatedAsks : Z := 128.
Definition is_snapshot (d : BookDeltaMsg) : bool := negb (Z.land (d_flags d) kSnapshot =? 0).

Record L2Book := mkBook {
  bids_ : list Level;
  asks_ : list Level;
  book_seq_ : Z;
  last_update_ : Timestamp;
  crossed_since_ : Timestamp;
  truncated_buy : bool;
  truncated_sell : bool;
  have_snapshot_ : bool;
}.
#[export] Instance eta_book : Eta L2Book := fun b =>
  mkBook (bids_ b) (asks_ b) (book_seq_ b) (last_update_ b) (crossed_since_ b) (truncated_buy b)
    (truncated_sell b) (have_snapshot_ b).
Definition new_book : L2Book := mkBook [] [] 0 0 0 false false false.

Definition kLinearScan : nat := 16.
Definition kOwnLevels : nat := 32.

Definition levels (b : L2Book) (s : Side) : list Level := match s with Buy => bids_ b | Sell => asks_ b end.
Definition set_levels (b : L2Book) (s : Side) (v : list Level) : L2Book :=
  match s with Buy => b <| bids_ := v |> | Sell => b <| asks_ := v |> end.
Definition truncated (b : L2Book) (s : Side) : bool :=
  match s with Buy => truncated_buy b | Sell => truncated_sell b end.
Definition set_truncated (b : L2Book) (s : Side) : L2Book :=
  match s with Buy => b <| truncated_buy := true |> | Sell => b <| truncated_sell := true |> end.

(** [v[i]] *)
Definition at_ (v : list Level) (i : nat) : Level := default no_level (v !! i).

(** *** Finding a price *)

(** The loop over the best levels, down to [stop]; [None] when it ran through them. *)
Fixpoint scan (v : list Level) (s : Side) (px : Price) (stop i : nat) : option (nat * bool) :=
  match i with
  | O => None
  | S j =>
    if (i <=? stop)%nat then None
    else
      let p := l_price (at_ v j) in
      if p =? px then Some (j, true)
      else if better s px p then Some (i, false)
      else scan v s px stop j
  end.

(** The bisection; [hi - lo] halves, so [hi - lo] rounds are enough. *)
Fixpoint bisect (fuel : nat) (v : list Level) (s : Side) (px : Price) (lo hi : nat) : nat :=
  match fuel with
  | O => lo
  | S fuel =>
    if (hi <=? lo)%nat then lo
    else
      let mid := (lo + (hi - lo) / 2)%nat in
      if better s px (l_price (at_ v mid)) then bisect fuel v s px (S mid) hi
      else bisect fuel v s px lo mid
  end.

Definition locate (v : list Level) (s : Side) (px : Price) : nat * bool :=
  let stop := if (kLinearScan <? length v)%nat then (length v - kLinearScan)%nat else O in
  match scan v s px stop (length v) with
  | Some r => r
  | None =>
    if (stop =? 0)%nat then (O, false)
    else let lo := bisect stop v s px O stop in
         (lo, (lo <? length v)%nat && (l_price (at_ v lo) =? px))
  end.

Section book.
Context (kMaxDepth : nat).

Definition clear (b : L2Book) : L2Book :=
  b <| bids_ := [] |> <| asks_ := [] |> <| truncated_buy := false |> <| truncated_sell := false |>
    <| have_snapshot_ := false |> <| crossed_since_ := 0 |> <| book_seq_ := 0 |>.

(** Returns what the source returns, [old], and the book. *)
Definition apply_level (s : Side) (px : Price) (q : Qty) (b : L2Book) : bool * Qty * L2Book :=
  let v := levels b s in
  let '(i, found) := locate v s px in
  if found then
    let old := l_qty (at_ v i) in
    if q =? 0 then (true, old, set_levels b s (SVec.erase_at i v))
    else (true, old, set_levels b s (<[i := mkLevel (l_price (at_ v i)) q]> v))
  else if q =? 0 then (true, 0, b)
  else if (kMaxDepth <=? length v)%nat then
    let b := set_truncated b s in
    if (i =? 0)%nat then (false, 0, b)
    else
      let v := take (i - 1) (drop 1 v) ++ drop (i - 1) v in
      (true, 0, set_levels b s (<[(i - 1)%nat := mkLevel px q]> v))
  else (true, 0, set_levels b s (snd (SVec.insert_at (kMaxDepth + kOwnLevels) i (mkLevel px q) v))).

Definition apply_levels (s : Side) (ls : list Level) (b : L2Book) : L2Book :=
  fold_left (fun b l => snd (apply_level s (l_price l) (l_qty l) b)) ls b.

Definition add_own (s : Side) (px : Price) (q : Qty) (b : L2Book) : bool * bool * L2Book :=
  let v := levels b s in
  let '(i, found) := locate v s px in
  let inserted := negb found in
  if found then
    (true, inserted, set_levels b s (<[i := mkLevel (l_price (at_ v i)) (i64 (l_qty (at_ v i) + q))]> v))
  else
    let '(ok, v) := SVec.insert_at (kMaxDepth + kOwnLevels) i (mkLevel px q) v in
    (ok, inserted, set_levels b s v).
Definition remove_own (s : Side) (px : Price) (q : Qty) (inserted : bool) (b : L2Book) : L2Book :=
  let v := levels b s in
  let '(i, found) := locate v s px in
  if negb found then b
  else if inserted then set_levels b s (SVec.erase_at i v)
  else set_levels b s (<[i := mkLevel (l_price (at_ v i)) (i64 (l_qty (at_ v i) - q))]> v).

(** *** Snapshots *)

(** 1: best first, -1: worst first, 0: neither. *)
Definition load_order (s : Side) (ls : list Level) : Z :=
  let ok (order : Z) (k : nat) :=
    (0 <? l_qty (at_ ls k)) &&
    (if order =? 1 then better s (l_price (at_ ls (k - 1))) (l_price (at_ ls k))
     else better s (l_price (at_ ls k)) (l_price (at_ ls (k - 1)))) in
  if (0 <? length ls)%nat && (0 <? l_qty (at_ ls 0)) then
    let order := if (length ls =? 1)%nat then 1
                 else if better s (l_price (at_ ls 0)) (l_price (at_ ls 1)) then 1 else -1 in
    fold_left (fun order k => if order =? 0 then 0 else if ok order k then order else 0)
      (seq 1 (length ls - 1)) order
  else 0.

Definition load_side (s : Side) (ls : list Level) (b : L2Book) : L2Book :=
  let n := length ls in
  let order := load_order s ls in
  if order =? 0 then apply_levels s ls b
  else
    let m := if (n <? kMaxDepth)%nat then n else kMaxDepth in
    let v := if order =? 1 then (fun k => at_ ls (m - 1 - k)) <$> seq 0 m
             else (fun k => at_ ls (n - m + k)) <$> seq 0 m in
    let b := set_levels b s v in
    if (m <? n)%nat then set_truncated b s else b.

Definition crossed (b : L2Book) : bool :=
  match last (bids_ b), last (asks_ b) with
  | Some bid, Some ask => l_price ask <=? l_price bid
  | _, _ => false
  end.

Definition update_crossed (ts : Timestamp) (b : L2Book) : L2Book :=
  if crossed b then if negb (ts_valid (crossed_since_ b)) then b <| crossed_since_ := ts |> else b
  else b <| crossed_since_ := 0 |>.

Definition apply_snapshot (bids asks : list Level) (seq : Z) (ts : Timestamp) (b : L2Book) : L2Book :=
  let b := clear b in
  let b := load_side Buy bids b in
  let b := load_side Sell asks b in
  let b := b <| have_snapshot_ := true |> <| book_seq_ := seq |> <| last_update_ := ts |> in
  update_crossed ts b.

(** *** Deltas *)

Definition worst_of (s : Side) (carried : list Level) : Price :=
  fold_left (fun bound l => if better s bound (l_price l) then l_price l else bound) carried
    (l_price (at_ carried 0)).

(** [while (k < v.size() && better(side, bound, v[k].price)) ++k;] *)
Fixpoint behind (s : Side) (bound : Price) (v : list Level) : nat :=
  match v with
  | [] => O
  | l :: v => if better s bound (l_price l) then S (behind s bound v) else O
  end.

Definition trim_behind (s : Side) (carried : list Level) (b : L2Book) : L2Book :=
  match carried with
  | [] => b
  | _ =>
    let v := levels b s in
    let k := behind s (worst_of s carried) v in
    if (k =? 0)%nat then b else set_truncated (set_levels b s (SVec.erase_front k v)) s
  end.

Definition trim_truncated (d : BookDeltaMsg) (b : L2Book) : L2Book :=
  let b := if negb (Z.land (d_flags d) kTruncatedBids =? 0) then trim_behind Buy (d_bids d) b else b in
  if negb (Z.land (d_flags d) kTruncatedAsks =? 0) then trim_behind Sell (d_asks d) b else b.

Definition apply_delta (d : BookDeltaMsg) (b : L2Book) : L2Book :=
  let ts := if ts_valid (d_exch_ts d) then d_exch_ts d else d_recv_ts d in
  if is_snapshot d then apply_snapshot (d_bids d) (d_asks d) (d_last_update_id d) ts b
  else
    let b := apply_levels Buy (d_bids d) b in
    let b := apply_levels Sell (d_asks d) b in
    let b := if negb (Z.land (d_flags d) (Z.lor kTruncatedBids kTruncatedAsks) =? 0)
             then trim_truncated d b else b in
    let b := b <| book_seq_ := d_last_update_id d |> <| last_update_ := ts |> in
    update_crossed ts b.
End book.

(** *** Queries *)

Definition best_bid (b : L2Book) : Level := default no_level (last (bids_ b)).
Definition best_ask (b : L2Book) : Level := default no_level (last (asks_ b)).
Definition mid (b : L2Book) : Price :=
  match bids_ b, asks_ b with
  | [], _ | _, [] => 0
  | _, _ => Z.quot (i64 (l_price (best_bid b) + l_price (best_ask b))) 2
  end.
Definition spread (b : L2Book) : Price :=
  match bids_ b, asks_ b with
  | [], _ | _, [] => 0
  | _, _ => i64 (l_price (best_ask b) - l_price (best_bid b))
  end.
Definition level (b : L2Book) (s : Side) (i : nat) : Level :=
  let v := levels b s in if (i <? length v)%nat then at_ v (length v - 1 - i) else no_level.
Definition depth (b : L2Book) (s : Side) : nat := length (levels b s).
Definition top (N : nat) (b : L2Book) (s : Side) : list Level :=
  let v := levels b s in
  let n := if (length v <? N)%nat then length v else N in
  (fun i => at_ v (length v - 1 - i)) <$> seq 0 n.

(** The loops [for (i = v.size(); i > 0; --i)]: the levels best first. *)
Fixpoint sum_to (s : Side) (limit : Price) (sum : Qty) (best_first : list Level) : Qty :=
  match best_first with
  | [] => sum
  | l :: ls => if negb (at_or_better s (l_price l) limit) then sum else sum_to s limit (i64 (sum + l_qty l)) ls
  end.
Definition qty_at_or_better (b : L2Book) (s : Side) (limit : Price) : Qty := sum_to s limit 0 (rev (levels b s)).

Fixpoint reach_qty (qty cum : Qty) (best_first : list Level) : Price :=
  match best_first with
  | [] => 0
  | l :: ls => let cum := i64 (cum + l_qty l) in if qty <=? cum then l_price l else reach_qty qty cum ls
  end.
Definition price_for_qty (b : L2Book) (s : Side) (qty : Qty) : Price := reach_qty qty 0 (rev (levels b s)).

Definition crossed_for (b : L2Book) (now : Timestamp) : Duration :=
  if ts_valid (crossed_since_ b) then i64 (now - crossed_since_ b) else 0.
Definition is_valid (b : L2Book) : bool :=
  have_snapshot_ b && negb (bool_decide (bids_ b = [])) && negb (bool_decide (asks_ b = [])) && negb (crossed b).
