(* ===== verification/L2BookProps.v ===== *)
(** * L2BookProps: the book is a bounded map of prices in price order

    Where [locate] lands on a sorted side, what each update does to the map of
    prices to quantities, the equality of the two ways to load a snapshot, and the
    invariant of every book the operations can produce. *)

From Stdlib Require Import Sorted.
From S2P Require Import Prelude Types L2Book.

#[local] Arguments i64 : simpl never.

(** ** Price order *)

Definition worse (s : Side) (a b : Level) : Prop := better s (l_price b) (l_price a) = true.
Definition sorted (s : Side) (v : list Level) : Prop := StronglySorted (worse s) v.

(** The finite map a side stands for. *)
Definition price_map (v : list Level) : gmap Z Z := list_to_map ((fun l => (l_price l, l_qty l)) <$> v).

Lemma at_lookup v i l : v !! i = Some l -> at_ v i = l.
Proof. intros E. unfold at_. by rewrite E. Qed.
Lemma at_lt v i : (i < length v)%nat -> v !! i = Some (at_ v i).
Proof. intros Hi. destruct (lookup_lt_is_Some_2 v i Hi) as [l E]. by rewrite (at_lookup v i l E). Qed.

Lemma sorted_lookup s v i j a b : sorted s v -> (i < j)%nat -> v !! i = Some a -> v !! j = Some b -> worse s a b.
Proof.
  intros Hs. revert i j. induction Hs as [|x v Hs IH Hx]; intros i j Hij Ha Hb; [done|].
  destruct j as [|j]; [lia|]. cbn in Hb. destruct i as [|i]; cbn in Ha.
  - simplify_eq. rewrite Forall_forall in Hx. apply Hx. by apply list_elem_of_lookup_2 in Hb.
  - apply (IH i j); [lia | done | done].
Qed.

Lemma sorted_app s v w : sorted s (v ++ w) <->
  sorted s v /\ sorted s w /\ forall a b, a ∈ v -> b ∈ w -> worse s a b.
Proof.
  unfold sorted. induction v as [|x v IH]; cbn [app].
  - split; [|by intros (_ & ? & _)]. intros H. split; [constructor|]. split; [done|]. intros a b Ha. by apply not_elem_of_nil in Ha.
  - split.
    + intros H. inversion H as [|? ? H1 H2]; subst. apply IH in H1 as (Hv & Hw & Hx). apply Forall_app in H2 as [F1 F2].
      split; [by constructor|]. split; [done|]. intros a b Ha Hb. apply elem_of_cons in Ha as [-> | Ha]; [|by apply Hx].
      rewrite Forall_forall in F2. by apply F2.
    + intros (Hv & Hw & Hx). inversion Hv as [|? ? H1 H2]; subst. constructor.
      * apply IH. split; [done|]. split; [done|]. intros a b Ha Hb. apply Hx; [by constructor | done].
      * apply Forall_app. split; [done|]. apply Forall_forall. intros b Hb. apply Hx; [constructor | done].
Qed.

(** ** Finding a price *)

(** [i] splits the side at [px]: worse levels below, [px] itself or better ones from it on. *)
Definition splits (v : list Level) (s : Side) (px : Price) (i : nat) (found : bool) : Prop :=
  (i <= length v)%nat /\ (forall k l, (k < i)%nat -> v !! k = Some l -> better s px (l_price l) = true) /\
  if found then exists l, v !! i = Some l /\ l_price l = px
  else forall k l, (i <= k)%nat -> v !! k = Some l -> better s (l_price l) px = true.

Lemma scan_spec v s px stop i : sorted s v -> (i <= length v)%nat ->
  (forall k l, (i <= k)%nat -> v !! k = Some l -> better s (l_price l) px = true) ->
  match scan v s px stop i with
  | Some (j, found) => splits v s px j found
  | None => forall k l, (stop <= k)%nat -> v !! k = Some l -> better s (l_price l) px = true
  end.
Proof.
  intros Hs. induction i as [|i IH]; intros Hi Hab; [intros k l _; apply Hab; lia|]. cbn [scan].
  destruct (Nat.leb_spec (S i) stop) as [Hst|Hst]; [intros k l Hk; apply Hab; lia|].
  destruct (lookup_lt_is_Some_2 v i ltac:(lia)) as [x Hx]. rewrite (at_lookup v i x Hx).
  assert (Hlow : forall k l, (k < i)%nat -> v !! k = Some l -> better s (l_price x) (l_price l) = true)
    by (intros k l Hk Hl; by apply (sorted_lookup s v k i)).
  destruct (Z.eqb_spec (l_price x) px) as [Heq|Hne].
  { split; [lia|]. split; [|by exists x]. intros k l Hk Hl. rewrite <- Heq. by apply (Hlow k). }
  destruct (better s px (l_price x)) eqn:Eb.
  - split; [lia|]. split; [|done]. intros k l Hk Hl. destruct (Nat.eq_dec k i) as [-> |]; [by simplify_eq|].
    apply (better_trans _ _ (l_price x)); [done|]. apply (Hlow k); [lia | done].
  - apply IH; [lia|]. intros k l Hk Hl. destruct (Nat.eq_dec k i) as [-> |]; [|apply (Hab k l); [lia | done]].
    assert (l = x) as -> by congruence. destruct (better s (l_price x) px) eqn:E; [done|]. by destruct Hne; apply (better_total s).
Qed.

Lemma bisect_spec v s px fuel : forall lo hi, sorted s v -> (lo <= hi <= length v)%nat -> (hi - lo <= fuel)%nat ->
  (forall k l, (k < lo)%nat -> v !! k = Some l -> better s px (l_price l) = true) ->
  (forall k l, (hi <= k)%nat -> v !! k = Some l -> better s px (l_price l) = false) ->
  let r := bisect fuel v s px lo hi in (r <= hi)%nat /\
  (forall k l, (k < r)%nat -> v !! k = Some l -> better s px (l_price l) = true) /\
  (forall k l, (r <= k)%nat -> v !! k = Some l -> better s px (l_price l) = false).
Proof.
  induction fuel as [|fuel IH]; intros lo hi Hs Hlh Hf Hlo Hhi; cbn [bisect].
  { assert (lo = hi) as -> by lia. done. }
  destruct (Nat.leb_spec hi lo) as [Hle|Hlt]; [assert (lo = hi) as -> by lia; done|].
  set (md := (lo + (hi - lo) / 2)%nat).
  assert (Hm : (lo <= md < hi)%nat) by (unfold md; pose proof (Nat.div_lt (hi - lo) 2 ltac:(lia) ltac:(lia)); lia).
  destruct (lookup_lt_is_Some_2 v md ltac:(lia)) as [x Hx]. rewrite (at_lookup v md x Hx).
  destruct (better s px (l_price x)) eqn:Eb.
  - apply IH; try done; try lia. intros k l Hk Hl. destruct (Nat.eq_dec k md) as [-> |]; [by simplify_eq|].
    apply (better_trans _ _ (l_price x)); [done|]. apply (sorted_lookup s v k md); [done | lia | done | done].
  - assert (Hhi' : forall k l, (md <= k)%nat -> v !! k = Some l -> better s px (l_price l) = false).
    { intros k l Hk Hl. destruct (Nat.eq_dec k md) as [-> |]; [by simplify_eq|].
      assert (Hw : better s (l_price l) (l_price x) = true) by (apply (sorted_lookup s v md k); [done | lia | done | done]).
      destruct (better s px (l_price l)) eqn:E; [|done]. by rewrite (better_trans _ _ _ _ E Hw) in Eb. }
    destruct (IH lo md Hs ltac:(lia) ltac:(lia) Hlo Hhi') as (H1 & H2 & H3). split; [lia|]. done.
Qed.

(** On a sorted side [locate] finds the place of a price: every level before the index is worse; at
    the index is the level of that price when it is found, and otherwise every level from there on
    is better.  The bisection stops within as many rounds as there are levels to bisect. *)
Lemma locate_splits v s px : sorted s v -> splits v s px (fst (locate v s px)) (snd (locate v s px)).
Proof.
  intros Hs. unfold locate. set (stop := if (kLinearScan <? length v)%nat then _ else O).
  assert (Hst : (stop <= length v)%nat) by (unfold stop; case_if; lia).
  pose proof (scan_spec v s px stop (length v) Hs ltac:(done)) as Hsc.
  destruct (scan v s px stop (length v)) as [[j found]|].
  { apply Hsc. intros k l Hk Hl. apply lookup_lt_Some in Hl. lia. }
  assert (Habove : forall k l, (stop <= k)%nat -> v !! k = Some l -> better s (l_price l) px = true).
  { apply Hsc. intros k l Hk Hl. apply lookup_lt_Some in Hl. lia. }
  destruct (Nat.eqb_spec stop 0) as [E0|Hn0]; cbn [fst snd].
  { rewrite E0 in Habove. split; [lia|]. split; [intros; lia | done]. }
  destruct (bisect_spec v s px stop O stop Hs ltac:(lia) ltac:(lia)) as (H1 & H2 & H3); [intros; lia| |].
  { intros k l Hk Hl. by apply better_asym, (Habove k). }
  set (lo := bisect _ _ _ _ _ _) in *. split; [lia|]. split; [done|].
  destruct (Nat.ltb_spec lo (length v)) as [Hlt|Hge]; cbn [andb].
  2: { intros k l Hk Hl. apply lookup_lt_Some in Hl. lia. }
  pose proof (at_lt v lo Hlt) as Ha. set (x := at_ v lo) in *.
  destruct (Z.eqb_spec (l_price x) px) as [Heq|Hne]; [by exists x|]. intros k l Hk Hl.
  assert (Hx : better s (l_price x) px = true).
  { destruct (better s (l_price x) px) eqn:E; [done|]. destruct Hne. apply (better_total s); [done|]. by apply (H3 lo). }
  destruct (Nat.eq_dec lo k) as [<- |]; [by simplify_eq|].
  apply (better_trans _ _ (l_price x)); [|done]. apply (sorted_lookup s v lo k); [done | lia | done | done].
Qed.

(** ** A side as a map *)

Definition absent (px : Price) (v : list Level) : Prop := forall l, l ∈ v -> l_price l <> px.

Lemma pm_cons l v : price_map (l :: v) = <[l_price l := l_qty l]> (price_map v).
Proof. done. Qed.
Lemma pm_absent px v : absent px v -> price_map v !! px = None.
Proof.
  intros Ha. induction v as [|l v IH]; [done|]. rewrite pm_cons, lookup_insert_ne.
  - apply IH. intros x Hx. apply Ha. by constructor.
  - apply Ha. constructor.
Qed.
Lemma pm_middle a l b : absent (l_price l) a -> price_map (a ++ l :: b) = <[l_price l := l_qty l]> (price_map (a ++ b)).
Proof.
  intros Ha. induction a as [|x a IH]; [done|]. cbn [app]. rewrite !pm_cons, IH.
  - apply insert_insert_ne. intros E. apply (Ha x); [constructor | done].
  - intros y Hy. apply Ha. by constructor.
Qed.

Lemma worse_absent s px v : Forall (fun l => better s px (l_price l) = true) v -> absent px v.
Proof. intros H l Hl E. rewrite Forall_forall in H. specialize (H l Hl). by rewrite E, better_irrefl in H. Qed.
Lemma better_absent s px v : Forall (fun l => better s (l_price l) px = true) v -> absent px v.
Proof. intros H l Hl E. rewrite Forall_forall in H. specialize (H l Hl). by rewrite E, better_irrefl in H. Qed.

Lemma splits_take v s px i found : splits v s px i found -> Forall (fun l => better s px (l_price l) = true) (take i v).
Proof.
  intros (_ & Hb & _). apply Forall_lookup. intros k l Hk. apply lookup_take_Some in Hk as [Hk Hi]. by apply (Hb k).
Qed.
Lemma splits_drop v s px i : splits v s px i false -> Forall (fun l => better s (l_price l) px = true) (drop i v).
Proof.
  intros (_ & _ & Ha). apply Forall_lookup. intros k l Hk. rewrite lookup_drop in Hk. apply (Ha (i + k)%nat); [lia | done].
Qed.
Lemma splits_found v s px i : splits v s px i true -> exists q, v = take i v ++ mkLevel px q :: drop (S i) v.
Proof.
  intros (_ & _ & ([p q] & Hl & <-)). exists q. symmetry. by apply take_drop_middle.
Qed.

(** A level inserted at its place. *)
Lemma insert_side v s px q j : sorted s v -> splits v s px j false ->
  sorted s (take j v ++ mkLevel px q :: drop j v) /\
  price_map (take j v ++ mkLevel px q :: drop j v) = <[px := q]> (price_map v) /\ price_map v !! px = None.
Proof.
  intros Hs Hsp. pose proof (splits_take _ _ _ _ _ Hsp) as Ft. pose proof (splits_drop _ _ _ _ Hsp) as Fd. split; [|split].
  - rewrite <- (take_drop j v) in Hs. apply sorted_app in Hs as (H1 & H2 & H3). apply sorted_app. split; [done|]. split.
    + constructor; [done|]. exact Fd.
    + intros a b Ha Hb. apply elem_of_cons in Hb as [-> | Hb]; [|by apply H3].
      rewrite Forall_forall in Ft. by apply Ft.
  - rewrite pm_middle, take_drop; [done|]. by apply (worse_absent s).
  - apply pm_absent. rewrite <- (take_drop j v). intros l Hl. apply elem_of_app in Hl as [Hl|Hl].
    + by apply (worse_absent s px (take j v)).
    + by apply (better_absent s px (drop j v)).
Qed.

Lemma found_absent v s px i : sorted s v -> splits v s px i true -> absent px (take i v ++ drop (S i) v).
Proof.
  intros Hs Hsp l Hl. destruct (splits_found _ _ _ _ Hsp) as [q E]. rewrite E in Hs.
  apply sorted_app in Hs as (_ & Hc & Hx). apply elem_of_app in Hl as [Hl|Hl].
  - pose proof (splits_take _ _ _ _ _ Hsp) as Ft. by apply (worse_absent s px (take i v)).
  - inversion Hc as [|? ? _ Hf]; subst. rewrite Forall_forall in Hf. specialize (Hf l Hl). unfold worse in Hf. cbn in Hf.
    intros E2. by rewrite E2, better_irrefl in Hf.
Qed.

(** The level of a price removed, or given another quantity. *)
Lemma erase_side v s px i : sorted s v -> splits v s px i true ->
  sorted s (take i v ++ drop (S i) v) /\ price_map (take i v ++ drop (S i) v) = delete px (price_map v).
Proof.
  intros Hs Hsp. pose proof (found_absent v s px i Hs Hsp) as Hab. destruct (splits_found _ _ _ _ Hsp) as [q E].
  pose proof (splits_take _ _ _ _ _ Hsp) as Ft. split.
  - rewrite E in Hs. apply sorted_app in Hs as (H1 & H2 & H3). inversion H2 as [|? ? H4 H5]; subst.
    apply sorted_app. split; [done|]. split; [done|]. intros a b Ha Hb. apply H3; [done|]. by constructor.
  - rewrite E at 3. rewrite pm_middle by by apply (worse_absent s). cbn [l_price l_qty].
    by rewrite delete_insert_id by by apply pm_absent.
Qed.

Lemma update_side v s px q i : sorted s v -> splits v s px i true ->
  sorted s (<[i := mkLevel px q]> v) /\ price_map (<[i := mkLevel px q]> v) = <[px := q]> (price_map v).
Proof.
  intros Hs Hsp. pose proof (splits_take _ _ _ _ _ Hsp) as Ft. destruct (splits_found _ _ _ _ Hsp) as [q0 E].
  pose proof Hsp as (Hi & _ & (l0 & Hl0 & _)). apply lookup_lt_Some in Hl0.
  assert (E2 : <[i := mkLevel px q]> v = take i v ++ mkLevel px q :: drop (S i) v) by by apply insert_take_drop.
  rewrite E2. split.
  - rewrite E in Hs. apply sorted_app in Hs as (H1 & H2 & H3). inversion H2 as [|? ? H4 H5]; subst.
    apply sorted_app. split; [done|]. split; [by constructor|]. intros a b Ha Hb.
    apply elem_of_cons in Hb as [-> | Hb]; [|apply H3; [done | by constructor]].
    apply (H3 a (mkLevel px q0)); [done | constructor].
  - rewrite E at 3. rewrite !pm_middle by by apply (worse_absent s). cbn [l_price l_qty].
    by rewrite insert_insert_eq.
Qed.

Lemma levels_set b s v : levels (set_levels b s v) s = v.
Proof. by destruct s. Qed.
Lemma levels_set_other b s v : levels (set_levels b s v) (opposite s) = levels b (opposite s).
Proof. by destruct s. Qed.
Lemma levels_truncated b s s' : levels (set_truncated b s) s' = levels b s'.
Proof. by destruct s, s'. Qed.
Lemma truncated_set b s v s' : truncated (set_levels b s v) s' = truncated b s'.
Proof. by destruct s, s'. Qed.
Lemma truncated_same b s : truncated (set_truncated b s) s = true.
Proof. by destruct s. Qed.

Lemma splits_at v s px i found : splits v s px i found -> found = true -> l_price (at_ v i) = px /\
  (i < length v)%nat /\ price_map v !! px = Some (l_qty (at_ v i)).
Proof.
  intros Hsp ->. pose proof Hsp as (Hi & _ & (l & Hl & Hp)). rewrite (at_lookup v i l Hl). split; [done|].
  split; [by apply lookup_lt_Some in Hl|]. destruct (splits_found _ _ _ _ Hsp) as [q E].
  assert (Hq : l = mkLevel px q).
  { assert (Hlt : (i < length v)%nat) by by apply lookup_lt_Some in Hl.
    rewrite E, lookup_app_r in Hl by (rewrite length_take; lia). rewrite length_take in Hl.
    replace (i - i `min` length v)%nat with O in Hl by lia. cbn in Hl. congruence. }
  rewrite E, Hq, pm_middle; [by rewrite lookup_insert_eq|]. apply (worse_absent s). by apply (splits_take v s px i true).
Qed.

(** Moving the worse levels down over the worst one and writing in the gap. *)
Lemma shift_in (w : Level) rest i x : (0 < i <= S (length rest))%nat ->
  <[(i - 1)%nat := x]> (take (i - 1) (drop 1 (w :: rest)) ++ drop (i - 1) (w :: rest)) =
  take (i - 1) rest ++ x :: drop (i - 1) rest.
Proof.
  intros Hi. change (drop 1 (w :: rest)) with rest. set (a := take (i - 1) rest).
  assert (Hl : length a = (i - 1)%nat) by (unfold a; rewrite length_take; lia).
  rewrite insert_take_drop by (rewrite length_app, length_drop; cbn [length]; lia).
  rewrite take_app_le, take_ge by lia. f_equal. f_equal.
  rewrite drop_app_ge by lia. rewrite Hl, drop_drop. replace (i - 1 + (S (i - 1) - (i - 1)))%nat with (S (i - 1)) by lia. done.
Qed.

Lemma splits_tail w rest s px i : splits (w :: rest) s px (S i) false -> splits rest s px i false.
Proof.
  intros (H1 & H2 & H3). cbn in H1. split; [lia|]. split.
  - intros k l Hk Hl. apply (H2 (S k)); [lia | done].
  - intros k l Hk Hl. apply (H3 (S k)); [lia | done].
Qed.

Lemma head_absent s l v : sorted s (l :: v) -> absent (l_price l) v.
Proof.
  intros H x Hx E. inversion H as [|? ? _ Hf]; subst. rewrite Forall_forall in Hf. specialize (Hf x Hx).
  unfold worse in Hf. by rewrite E, better_irrefl in Hf.
Qed.
Lemma pm_size s v : sorted s v -> size (price_map v) = length v.
Proof.
  induction v as [|l v IH]; intros Hs; [done|]. pose proof (head_absent s l v Hs) as Hab. inversion Hs; subst.
  rewrite pm_cons, map_size_insert_None by by apply pm_absent. cbn [length]. by rewrite IH.
Qed.
Lemma pm_elem s v l : sorted s v -> l ∈ v <-> price_map v !! l_price l = Some (l_qty l).
Proof.
  induction v as [|x v IH]; intros Hs; [split; [by intros ?%not_elem_of_nil | done]|].
  pose proof (head_absent s x v Hs) as Hab. inversion Hs; subst. rewrite pm_cons, elem_of_cons, IH by done.
  destruct (Z.eq_dec (l_price x) (l_price l)) as [E|Hne].
  - rewrite E, lookup_insert_eq. split.
    + intros [-> |Hl]; [done|]. rewrite <- E, pm_absent in Hl; done.
    + intros [= Hq]. left. destruct l, x. cbn in *. congruence.
  - rewrite lookup_insert_ne by done. split; [|by right]. intros [-> |?]; done.
Qed.

(** The place of a price is unique. *)
Lemma splits_unique v s px i f j g : splits v s px i f -> splits v s px j g -> i = j /\ f = g.
Proof.
  intros (Hi & Hi1 & Hi2) (Hj & Hj1 & Hj2).
  assert (Hno : forall k l, better s px (l_price l) = true -> l_price l = px \/ better s (l_price l) px = true -> v !! k = Some l -> False).
  { intros k l H1 [H2|H2] _; [by rewrite H2, better_irrefl in H1 | by rewrite (better_asym _ _ _ H1) in H2]. }
  assert (Hup : forall n (h : bool) m, (if h then exists l, v !! n = Some l /\ l_price l = px
      else forall k l, (n <= k)%nat -> v !! k = Some l -> better s (l_price l) px = true) -> (n < m <= length v)%nat ->
      (forall k l, (k < m)%nat -> v !! k = Some l -> better s px (l_price l) = true) -> False).
  { intros n h m Hn Hm Hlow. destruct (lookup_lt_is_Some_2 v n ltac:(lia)) as [l Hl].
    apply (Hno n l); [apply (Hlow n); [lia | done]| |done]. destruct h; [|right; by apply (Hn n)].
    destruct Hn as (l' & Hl' & Hp). left. congruence. }
  assert (i = j) as ->.
  { destruct (Nat.lt_trichotomy i j) as [H|[H|H]]; [|done|]; exfalso; [apply (Hup i f j) | apply (Hup j g i)]; done || lia. }
  split; [done|]. destruct f, g; try done; exfalso; [destruct Hi2 as (l & Hl & Hp) | destruct Hj2 as (l & Hl & Hp)].
  - specialize (Hj2 j l ltac:(done) Hl). by rewrite Hp, better_irrefl in Hj2.
  - specialize (Hi2 j l ltac:(done) Hl). by rewrite Hp, better_irrefl in Hi2.
Qed.

Lemma locate_eq v s px i f : sorted s v -> splits v s px i f -> locate v s px = (i, f).
Proof.
  intros Hs Hsp. pose proof (locate_splits v s px Hs) as H. destruct (locate v s px) as [j g]. cbn in H.
  by destruct (splits_unique v s px j g i f H Hsp) as [-> ->].
Qed.

Section depth.
Context (D : nat).
Hypothesis HD : (1 <= D)%nat.

(** What [apply_level] promises about the side it changes, as a map. *)
Definition level_applied (s : Side) (px : Price) (q : Qty) (b b' : L2Book) (ok : bool) (old : Qty) : Prop :=
  let m := price_map (levels b s) in let m' := price_map (levels b' s) in
  old = default 0 (m !! px) /\ levels b' (opposite s) = levels b (opposite s) /\
  if q =? 0 then ok = true /\ m' = delete px m /\ truncated b' s = truncated b s
  else if bool_decide (is_Some (m !! px)) || (length (levels b s) <? D)%nat
  then ok = true /\ m' = <[px := q]> m /\ truncated b' s = truncated b s
  else truncated b' s = true /\ exists w, head (levels b s) = Some w /\
    if better s px (l_price w) then ok = true /\ m' = <[px := q]> (delete (l_price w) m)
    else ok = false /\ m' = m.

Lemma apply_level_ok s px q b : sorted s (levels b s) ->
  let r := apply_level D s px q b in
  sorted s (levels (snd r) s) /\ level_applied s px q b (snd r) (fst (fst r)) (snd (fst r)).
Proof.
  intros Hs. cbv zeta. unfold apply_level, level_applied. pose proof (locate_splits (levels b s) s px Hs) as Hsp.
  destruct (locate (levels b s) s px) as [i found]. cbn [fst snd] in Hsp. set (v := levels b s) in *. destruct found.
  - destruct (splits_at v s px i true Hsp eq_refl) as (Hp & Hi & Hm). destruct (Z.eqb_spec q 0) as [Hq|Hq]; cbn [fst snd].
    + unfold SVec.erase_at. destruct (Nat.leb_spec (length v) i); [lia|]. rewrite levels_set, levels_set_other, truncated_set, Hm.
      destruct (erase_side v s px i Hs Hsp) as [? ?]. done.
    + rewrite Hp, levels_set, levels_set_other, truncated_set, Hm. rewrite bool_decide_true by done. cbn [orb].
      destruct (update_side v s px q i Hs Hsp) as [? ?]. done.
  - destruct (insert_side v s px q i Hs Hsp) as (Hsi & Hmi & Hnone). rewrite Hnone. rewrite bool_decide_false by by intros [? ?].
    cbn [orb]. destruct (Z.eqb_spec q 0) as [Hq|Hq]; cbn [fst snd]; [fold v; rewrite delete_id by done; done|].
    rewrite Nat.ltb_antisym. destruct (Nat.leb_spec D (length v)) as [Hfull|Hroom]; cbn [negb].
    + destruct v as [|w rest] eqn:Ev; [cbn in Hfull; lia|]. fold v in Ev. destruct i as [|i]; cbn [Nat.eqb fst snd].
      * rewrite !levels_truncated. fold v. rewrite truncated_same, Ev. split; [done|]. split; [done|]. split; [done|]. split; [done|].
        exists w. split; [done|]. destruct Hsp as (_ & _ & H3). rewrite (better_asym s _ px); [done|]. by apply (H3 O w).
      * pose proof Hsp as (Hi & H2 & _). pose proof (splits_tail _ _ _ _ _ Hsp) as Hsp'. inversion Hs as [|? ? Hs' Hf]; subst.
        assert (Eb : better s px (l_price w) = true) by (apply (H2 O w); [lia | done]).
        rewrite levels_set, levels_set_other, !levels_truncated, truncated_set, truncated_same.
        rewrite shift_in by (cbn in Hi; lia). replace (S i - 1)%nat with i by lia.
        destruct (insert_side rest s px q i Hs' Hsp') as (H3 & H4 & _). split; [done|]. split; [done|]. split; [done|].
        split; [done|]. exists w. split; [done|]. rewrite Eb. split; [done|]. rewrite H4, pm_cons.
        rewrite delete_insert_id; [done|]. apply pm_absent. intros l Hl E. rewrite Forall_forall in Hf.
        specialize (Hf l Hl). unfold worse in Hf. by rewrite E, better_irrefl in Hf.
    + assert (Ei : SVec.insert_at (D + kOwnLevels) i (mkLevel px q) v = (true, take i v ++ mkLevel px q :: drop i v)).
      { unfold SVec.insert_at. rewrite bool_decide_false by lia. destruct Hsp as (Hi & _).
        destruct (Nat.ltb_spec (length v) i); [lia | done]. }
      rewrite Ei. cbn [fst snd]. rewrite levels_set, levels_set_other, truncated_set. done.
Qed.

Lemma insert_size_le (m : gmap Z Z) k x : (size (<[k := x]> m) <= S (size m))%nat.
Proof. rewrite map_size_insert. destruct (m !! k); cbn; lia. Qed.
Lemma delete_size_le (m : gmap Z Z) k : (size (delete k m) <= size m)%nat.
Proof. rewrite map_size_delete. destruct (m !! k); cbn; lia. Qed.

(** A level applied keeps the side in order, at most as deep as it was or [D], and without empty levels. *)
Lemma level_applied_depth s px q b b' ok old : sorted s (levels b s) -> sorted s (levels b' s) ->
  level_applied s px q b b' ok old -> (length (levels b' s) <= D `max` length (levels b s))%nat.
Proof.
  intros Hs Hs' (_ & _ & H). rewrite <- (pm_size s _ Hs'). rewrite <- (pm_size s _ Hs).
  pose proof (delete_size_le (price_map (levels b s)) px) as Hdel.
  destruct (q =? 0); [destruct H as (_ & -> & _); lia|].
  destruct (bool_decide _) eqn:E1; cbn [orb] in H; [|destruct (Nat.ltb_spec (length (levels b s)) D) as [E2|E2]].
  - apply bool_decide_eq_true in E1. destruct H as (_ & -> & _). rewrite map_size_insert_Some by done. lia.
  - destruct H as (_ & -> & _). rewrite <- (pm_size s _ Hs) in E2.
    pose proof (insert_size_le (price_map (levels b s)) px q). lia.
  - destruct H as (_ & w & Hw & H). destruct (better s px (l_price w)); [|destruct H as [_ ->]; lia].
    destruct H as [_ ->].
    assert (Hin : price_map (levels b s) !! l_price w = Some (l_qty w)).
    { apply (pm_elem s); [done|]. destruct (levels b s); cbn in Hw; simplify_eq. constructor. }
    pose proof (insert_size_le (delete (l_price w) (price_map (levels b s))) px q) as Hi.
    rewrite (map_size_delete_Some (l_price w)) in Hi by by eexists.
    assert (size (price_map (levels b s)) <> 0%nat); [|lia]. intros E%map_size_empty_inv. by rewrite E in Hin.
Qed.

Lemma level_applied_nonzero s px q b b' ok old : sorted s (levels b s) -> sorted s (levels b' s) ->
  level_applied s px q b b' ok old -> Forall (fun l => l_qty l <> 0) (levels b s) -> Forall (fun l => l_qty l <> 0) (levels b' s).
Proof.
  intros Hs Hs' (_ & _ & H) Hf. rewrite Forall_forall in *. intros l Hl. apply (pm_elem s) in Hl; [|done].
  assert (Hold : price_map (levels b s) !! l_price l = Some (l_qty l) -> l_qty l <> 0)
    by (intros E; apply Hf; by apply (pm_elem s)).
  assert (Hins : forall m : gmap Z Z, <[px := q]> m !! l_price l = Some (l_qty l) -> q <> 0 ->
    (m !! l_price l = Some (l_qty l) -> l_qty l <> 0) -> l_qty l <> 0).
  { intros m E Hq Hm. apply lookup_insert_Some in E as [[_ <-]|[_ E]]; auto. }
  destruct (Z.eqb_spec q 0) as [Hq|Hq].
  - destruct H as (_ & E & _). rewrite E in Hl. apply lookup_delete_Some in Hl as [_ Hl]. auto.
  - destruct (bool_decide _ || _); [destruct H as (_ & E & _); rewrite E in Hl; by apply (Hins _ Hl)|].
    destruct H as (_ & w & _ & H). destruct (better s px (l_price w)); destruct H as [_ E]; rewrite E in Hl; [|auto].
    apply (Hins _ Hl Hq). intros Hl'. apply lookup_delete_Some in Hl' as [_ Hl']. auto.
Qed.

(** ** Loading a snapshot *)

Lemma apply_worst s px q b : sorted s (levels b s) -> Forall (fun l => better s (l_price l) px = true) (levels b s) ->
  q <> 0 -> snd (apply_level D s px q b) =
    if (D <=? length (levels b s))%nat then set_truncated b s else set_levels b s (mkLevel px q :: levels b s).
Proof.
  intros Hs Hf Hq. unfold apply_level. rewrite (locate_eq _ s px O false Hs).
  - destruct (Z.eqb_spec q 0); [done|]. case_if; [done|]. unfold SVec.insert_at.
    rewrite bool_decide_false by lia. cbn [orb]. destruct (Nat.ltb_spec (length (levels b s)) 0); [lia|].
    cbn [snd]. by rewrite take_0, drop_0.
  - split; [lia|]. split; [intros; lia|]. intros k l _ Hl. rewrite Forall_lookup in Hf. by apply (Hf k).
Qed.

Lemma apply_best s px q b : sorted s (levels b s) -> Forall (fun l => better s px (l_price l) = true) (levels b s) ->
  q <> 0 -> snd (apply_level D s px q b) =
    if (D <=? length (levels b s))%nat then set_levels (set_truncated b s) s (drop 1 (levels b s) ++ [mkLevel px q])
    else set_levels b s (levels b s ++ [mkLevel px q]).
Proof.
  intros Hs Hf Hq. unfold apply_level. rewrite (locate_eq _ s px (length (levels b s)) false Hs).
  - destruct (Z.eqb_spec q 0); [done|]. set (v := levels b s) in *.
    destruct (Nat.leb_spec D (length v)) as [Hfull|Hroom].
    + destruct v as [|w rest]; [cbn in Hfull; lia|]. cbn [length Nat.eqb snd].
      rewrite shift_in by lia. replace (S (length rest) - 1)%nat with (length rest) by lia.
      by rewrite firstn_all, drop_all.
    + unfold SVec.insert_at. rewrite bool_decide_false by lia. cbn [orb]. rewrite Nat.ltb_irrefl. cbn [snd].
      by rewrite firstn_all, drop_all.
  - split; [lia|]. split.
    + intros k l _ Hl. rewrite Forall_lookup in Hf. by apply (Hf k).
    + intros k l Hk Hl. apply lookup_lt_Some in Hl. lia.
Qed.

Lemma set_set b s v w : set_levels (set_levels b s v) s w = set_levels b s w.
Proof. by destruct s. Qed.
Lemma set_id b s : set_levels b s (levels b s) = b.
Proof. by destruct s, b. Qed.
Lemma trunc_trunc b s : set_truncated (set_truncated b s) s = set_truncated b s.
Proof. by destruct s, b. Qed.
Lemma trunc_set b s v : set_levels (set_truncated b s) s v = set_truncated (set_levels b s v) s.
Proof. by destruct s, b. Qed.

(** The book after [p] was loaded into an empty side best first, and worst first. *)
Definition loaded (s : Side) (v : list Level) (n : nat) (b : L2Book) : L2Book :=
  let b := set_levels b s v in if (D <? n)%nat then set_truncated b s else b.

Lemma levels_loaded s v n b : levels (loaded s v n b) s = v.
Proof. unfold loaded. case_if; by rewrite ?levels_truncated, levels_set. Qed.
Lemma loaded_set s v w n b : set_levels (loaded s v n b) s w = loaded s w n b.
Proof. unfold loaded. case_if; by rewrite ?trunc_set, set_set. Qed.
Lemma loaded_trunc s v n b : (D < n)%nat -> forall k, set_truncated (loaded s v k b) s = loaded s v n b.
Proof.
  intros Hn k. unfold loaded. replace (D <? n)%nat with true by (symmetry; apply Nat.ltb_lt; lia).
  case_if; by rewrite ?trunc_trunc.
Qed.
Lemma loaded_small s v n k b : (n <= D)%nat -> (k <= D)%nat -> loaded s v n b = loaded s v k b.
Proof.
  intros Hn Hk. unfold loaded. by destruct (Nat.ltb_spec D n), (Nat.ltb_spec D k); try lia.
Qed.

Definition all_nonzero (ls : list Level) : Prop := Forall (fun l => l_qty l <> 0) ls.

Lemma sorted_sub s a b c : sorted s (a ++ b ++ c) -> sorted s b.
Proof. intros H. apply sorted_app in H as (_ & H & _). by apply sorted_app in H as (? & _ & _). Qed.

Lemma load_best_first s b ls : levels b s = [] -> sorted s (rev ls) -> all_nonzero ls ->
  apply_levels D s ls b = loaded s (rev (take D ls)) (length ls) b.
Proof.
  intros He. induction ls as [|l ls IH] using rev_ind; intros Hs Hq.
  - cbn. unfold loaded. rewrite take_nil. cbn. destruct (Nat.ltb_spec D 0); [lia|]. by rewrite <- He, set_id.
  - rewrite rev_app_distr in Hs. cbn [rev app] in Hs. inversion Hs as [|? ? Hs' Hf]; subst.
    apply Forall_app in Hq as [Hq Hql]. inversion Hql as [|? ? Hl _]; subst.
    unfold apply_levels in *. rewrite fold_left_app, IH by done. cbn [fold_left]. set (b1 := loaded s _ _ b).
    assert (Hsub : rev ls = rev (drop D ls) ++ rev (take D ls)) by (rewrite <- rev_app_distr; by rewrite take_drop).
    assert (Hs1 : sorted s (levels b1 s)) by (unfold b1; rewrite levels_loaded; rewrite Hsub in Hs'; by apply sorted_app in Hs' as (_ & ? & _)).
    rewrite apply_worst; [| done | | done].
    + unfold b1. rewrite levels_loaded, loaded_set, length_app, length_rev, length_take. cbn [length].
      destruct (Nat.leb_spec D (D `min` length ls)) as [Hfull|Hroom].
      * rewrite take_app_le by lia. rewrite (loaded_trunc s _ (length ls + 1)) by lia. done.
      * rewrite take_ge by lia. rewrite (take_ge (ls ++ [l])) by (rewrite length_app; cbn; lia).
        rewrite rev_app_distr. cbn [rev app]. replace (mkLevel (l_price l) (l_qty l)) with l by by destruct l.
        apply loaded_small; lia.
    + unfold b1. rewrite levels_loaded. rewrite Hsub in Hf. by apply Forall_app in Hf as [_ ?].
Qed.

Lemma load_worst_first s b ls : levels b s = [] -> sorted s ls -> all_nonzero ls ->
  apply_levels D s ls b = loaded s (drop (length ls - D) ls) (length ls) b.
Proof.
  intros He. induction ls as [|l ls IH] using rev_ind; intros Hs Hq.
  - cbn. unfold loaded. destruct (Nat.ltb_spec D 0); [lia|]. by rewrite <- He, set_id.
  - apply sorted_app in Hs as (Hs' & _ & Hx). apply Forall_app in Hq as [Hq Hql]. inversion Hql as [|? ? Hl _]; subst.
    unfold apply_levels in *. rewrite fold_left_app, IH by done. cbn [fold_left]. set (b1 := loaded s _ _ b).
    assert (Hs1 : sorted s (levels b1 s)).
    { unfold b1. rewrite levels_loaded. rewrite <- (take_drop (length ls - D) ls) in Hs'. by apply sorted_app in Hs' as (_ & ? & _). }
    rewrite apply_best; [| done | | done].
    + unfold b1. rewrite levels_loaded, trunc_set, loaded_set, length_app, length_drop. cbn [length].
      replace (mkLevel (l_price l) (l_qty l)) with l by by destruct l.
      destruct (Nat.leb_spec D (length ls - (length ls - D))) as [Hfull|Hroom].
      * rewrite (loaded_trunc s _ (length ls + 1)) by lia. f_equal. rewrite drop_drop.
        replace (length ls + 1 - D)%nat with (length ls - D + 1)%nat by lia. by rewrite drop_app_le by lia.
      * replace (length ls - D)%nat with O by lia. replace (length ls + 1 - D)%nat with O by lia. rewrite !drop_0.
        rewrite loaded_set. apply loaded_small; lia.
    + unfold b1. rewrite levels_loaded. apply Forall_forall. intros x Hin. apply (Hx x l); [|constructor].
      rewrite <- (take_drop (length ls - D) ls). apply elem_of_app. by right.
Qed.

Lemma rev_lookup (l : list Level) i : (i < length l)%nat -> rev l !! i = l !! (length l - S i)%nat.
Proof. rewrite rev_alt. apply reverse_lookup. Qed.

(** What the scan of [load_side] established about a snapshot side. *)
Lemma adjacent_sorted s ls : (forall k, (S k < length ls)%nat -> worse s (at_ ls k) (at_ ls (S k))) -> sorted s ls.
Proof.
  intros H. apply Sorted_StronglySorted; [intros a b c Hab Hbc; by apply (better_trans s _ (l_price b))|].
  induction ls as [|x ls IH]; [constructor|]. constructor.
  - apply IH. intros k Hk. apply (H (S k)). cbn. lia.
  - destruct ls as [|y ls]; constructor. apply (H O). cbn. lia.
Qed.

Lemma order_fold (ok : Z -> nat -> bool) ks order : order <> 0 ->
  fold_left (fun order k => if order =? 0 then 0 else if ok order k then order else 0) ks order =
  if forallb (ok order) ks then order else 0.
Proof.
  intros Ho. assert (H0 : forall ks, fold_left (fun order k => if order =? 0 then 0 else if ok order k then order else 0) ks 0 = 0)
    by (clear; induction ks; done).
  revert order Ho. induction ks as [|k ks IH]; intros order Ho; [done|]. cbn [fold_left forallb].
  destruct (Z.eqb_spec order 0); [done|]. destruct (ok order k); cbn [andb]; [by apply IH | apply H0].
Qed.

Lemma load_order_spec s ls : load_order s ls = 0 \/
  (load_order s ls = 1 /\ sorted s (rev ls) /\ all_nonzero ls) \/ (load_order s ls = -1 /\ sorted s ls /\ all_nonzero ls).
Proof.
  unfold load_order. destruct ((0 <? length ls)%nat && (0 <? l_qty (at_ ls 0))) eqn:E0; [|by left].
  apply andb_true_iff in E0 as [Hn%Nat.ltb_lt Hq0%Z.ltb_lt].
  set (order := if (length ls =? 1)%nat then 1 else _).
  assert (Ho : order = 1 \/ order = -1) by (unfold order; repeat case_if; eauto).
  rewrite order_fold by (destruct Ho; lia). destruct (forallb _ _) eqn:Ef; [|by left]. right.
  assert (Hall : forall k, (S k < length ls)%nat -> 0 < l_qty (at_ ls (S k)) /\
    (if order =? 1 then worse s (at_ ls (S k)) (at_ ls k) else worse s (at_ ls k) (at_ ls (S k)))).
  { intros k Hk. rewrite forallb_forall in Ef. specialize (Ef (S k) ltac:(apply in_seq; lia)).
    apply andb_true_iff in Ef as [Hq Hb]. replace (S k - 1)%nat with k in Hb by lia. split; [lia|]. unfold worse. by case_if. }
  assert (Hnz : all_nonzero ls).
  { apply Forall_lookup. intros k l Hl. pose proof (lookup_lt_Some _ _ _ Hl) as Hlt. rewrite <- (at_lookup ls k l Hl).
    destruct k as [|k]; [lia|]. destruct (Hall k Hlt) as [? _]. lia. }
  destruct Ho as [Eo|Eo]; [left | right]; rewrite Eo in *; (split; [done|]); (split; [|done]).
  - apply adjacent_sorted. intros k Hk. rewrite length_rev in Hk.
    assert (Hr : forall j, (j < length ls)%nat -> at_ (rev ls) j = at_ ls (length ls - S j)).
    { intros j Hj. unfold at_. by rewrite rev_lookup. }
    rewrite !Hr by lia. replace (length ls - S k)%nat with (S (length ls - S (S k))) by lia.
    apply (Hall (length ls - S (S k))%nat). lia.
  - apply adjacent_sorted. intros k Hk. by apply Hall.
Qed.

Lemma take_index (ls : list Level) m : (m <= length ls)%nat -> (fun k => at_ ls (m - 1 - k)) <$> seq 0 m = rev (take m ls).
Proof.
  intros Hm. apply list_eq_same_length with m; [by rewrite length_rev, length_take; lia | by rewrite length_fmap, length_seq |].
  intros k x y Hk Hx Hy. rewrite list_lookup_fmap, lookup_seq_lt in Hx by lia. cbn in Hx. simplify_eq.
  rewrite rev_lookup in Hy by (rewrite length_take; lia). rewrite length_take in Hy.
  rewrite lookup_take_lt in Hy by lia. replace (m `min` length ls - S k)%nat with (m - 1 - k)%nat in Hy by lia.
  by rewrite (at_lookup _ _ _ Hy).
Qed.
Lemma drop_index (ls : list Level) m : (m <= length ls)%nat ->
  (fun k => at_ ls (length ls - m + k)) <$> seq 0 m = drop (length ls - m) ls.
Proof.
  intros Hm. apply list_eq_same_length with m; [by rewrite length_drop; lia | by rewrite length_fmap, length_seq |].
  intros k x y Hk Hx Hy. rewrite list_lookup_fmap, lookup_seq_lt in Hx by lia. cbn in Hx. simplify_eq.
  rewrite lookup_drop in Hy. by rewrite (at_lookup _ _ _ Hy).
Qed.

Lemma load_side_levels s ls b : levels b s = [] -> load_side D s ls b = apply_levels D s ls b.
Proof.
  intros He. unfold load_side. cbv zeta.
  assert (Hm : forall v, (let b := set_levels b s v in
     if ((if (length ls <? D)%nat then length ls else D) <? length ls)%nat then set_truncated b s else b) = loaded s v (length ls) b).
  { intros v. unfold loaded. destruct (Nat.ltb_spec (length ls) D), (Nat.ltb_spec D (length ls)); try lia; by rewrite ?Nat.ltb_irrefl. }
  destruct (load_order_spec s ls) as [-> | [(-> & Hs & Hq) | (-> & Hs & Hq)]]; cbn [Z.eqb Pos.eqb]; [done| |]; rewrite Hm.
  - rewrite (load_best_first s b ls He Hs Hq). f_equal. destruct (Nat.ltb_spec (length ls) D).
    + rewrite take_index by lia. by rewrite !take_ge by lia.
    + by rewrite take_index.
  - rewrite (load_worst_first s b ls He Hs Hq). f_equal. destruct (Nat.ltb_spec (length ls) D).
    + rewrite drop_index by lia. by replace (length ls - D)%nat with (length ls - length ls)%nat by lia.
    + by rewrite drop_index.
Qed.

(** ** The invariant of a book *)

(** A side in price order, without empty levels, at most [n] deep. *)
Definition side_ok (n : nat) (s : Side) (v : list Level) : Prop :=
  sorted s v /\ (length v <= n)%nat /\ Forall (fun l => l_qty l <> 0) v.

Lemma opposite_cases (s s' : Side) : s' = s \/ s' = opposite s.
Proof. destruct s, s'; auto. Qed.

Definition sides_ok (b : L2Book) : Prop := forall s, side_ok D s (levels b s).

Lemma apply_level_sides s px q b : sides_ok b -> sides_ok (snd (apply_level D s px q b)).
Proof.
  intros Hb. destruct (Hb s) as (Hs & Hl & Hz). destruct (apply_level_ok s px q b Hs) as [Hs' Ha].
  intros s'. destruct (opposite_cases s s') as [-> | ->].
  - split; [done|]. split; [|by apply (level_applied_nonzero _ _ _ _ _ _ _ Hs Hs' Ha)].
    pose proof (level_applied_depth _ _ _ _ _ _ _ Hs Hs' Ha). lia.
  - destruct Ha as (_ & -> & _). apply Hb.
Qed.

Lemma apply_levels_sides s ls : forall b, sides_ok b -> sides_ok (apply_levels D s ls b).
Proof. induction ls as [|l ls IH]; intros b Hb; [done|]. apply IH. by apply apply_level_sides. Qed.

Lemma apply_levels_other s ls : forall b, sides_ok b ->
  levels (apply_levels D s ls b) (opposite s) = levels b (opposite s).
Proof.
  induction ls as [|l ls IH]; intros b Hb; [done|]. unfold apply_levels in *. cbn [fold_left].
  rewrite IH by by apply apply_level_sides. destruct (Hb s) as (Hs & _).
  by destruct (apply_level_ok s (l_price l) (l_qty l) b Hs) as (_ & _ & E & _).
Qed.
Lemma empty_sides b : sides_ok (clear b).
Proof. intros s. destruct s; (split; [constructor | split; [cbn; lia | constructor]]). Qed.

Lemma behind_drop s bound v : sorted s v -> drop (behind s bound v) v = filter (fun l => better s bound (l_price l) = false) v.
Proof.
  intros Hs. induction Hs as [|l v Hs IH Hf]; [done|]. cbn [behind]. rewrite filter_cons.
  destruct (better s bound (l_price l)) eqn:E; [by rewrite decide_False, <- IH by done|].
  rewrite decide_True, drop_0 by done. f_equal. symmetry. apply filter_all. rewrite Forall_forall in *.
  intros x Hx. specialize (Hf x Hx). destruct (better s bound (l_price x)) eqn:E2; [|done].
  by rewrite (better_trans _ _ _ _ E2 Hf) in E.
Qed.
Lemma behind_le s bound v : (behind s bound v <= length v)%nat.
Proof. clear HD. induction v as [|l v IH]; [done|]. cbn. case_if; lia. Qed.

Lemma sorted_drop s v k : sorted s v -> sorted s (drop k v).
Proof. intros H. rewrite <- (take_drop k v) in H. by apply sorted_app in H as (_ & ? & _). Qed.

Lemma trim_sides s carried b : sides_ok b -> sides_ok (trim_behind s carried b).
Proof.
  intros Hb. unfold trim_behind. destruct carried as [|c cs]; [done|]. case_if; [done|]. set (k := behind _ _ _).
  intros s'. rewrite levels_truncated. destruct (opposite_cases s s') as [-> | ->]; [|rewrite levels_set_other; apply Hb].
  rewrite levels_set. destruct (Hb s) as (Hs & Hl & Hz). unfold SVec.erase_front.
  split; [by apply sorted_drop|]. split; [rewrite length_drop; case_if; lia | by apply Forall_drop].
Qed.

Lemma update_crossed_levels ts b s : levels (update_crossed ts b) s = levels b s.
Proof. unfold update_crossed. repeat case_if; by destruct s. Qed.

Lemma snapshot_sides bids asks q ts b : sides_ok (apply_snapshot D bids asks q ts b).
Proof.
  unfold apply_snapshot. cbv zeta. intros s. rewrite update_crossed_levels.
  pose proof (empty_sides b) as He.
  assert (H1 : sides_ok (load_side D Buy bids (clear b))) by (rewrite load_side_levels by done; by apply apply_levels_sides).
  assert (Ho : levels (load_side D Buy bids (clear b)) Sell = []).
  { rewrite load_side_levels by done. by apply (apply_levels_other Buy). }
  assert (H2 : sides_ok (load_side D Sell asks (load_side D Buy bids (clear b))))
    by (rewrite load_side_levels by done; by apply apply_levels_sides).
  specialize (H2 s). by destruct s.
Qed.

Lemma delta_sides d b : sides_ok b -> sides_ok (apply_delta D d b).
Proof.
  intros Hb. unfold apply_delta. case_if; [apply snapshot_sides|]. cbv zeta. intros s. rewrite update_crossed_levels.
  set (b1 := apply_levels D Sell _ _). assert (H1 : sides_ok b1) by by do 2 apply apply_levels_sides.
  assert (H2 : sides_ok (if negb (Z.land (d_flags d) (Z.lor kTruncatedBids kTruncatedAsks) =? 0) then trim_truncated d b1 else b1)).
  { case_if; [|done]. unfold trim_truncated. repeat case_if; auto using trim_sides. }
  specialize (H2 s). by destruct s.
Qed.

(** The books a feed produces. *)
Inductive fed : L2Book -> Prop :=
| fed_new : fed new_book
| fed_clear b : fed b -> fed (clear b)
| fed_delta b d : fed b -> fed (apply_delta D d b)
| fed_snapshot b bids asks q ts : fed b -> fed (apply_snapshot D bids asks q ts b).

Lemma fed_sides b : fed b -> sides_ok b.
Proof.
  induction 1.
  - apply (empty_sides new_book).
  - apply empty_sides.
  - by apply delta_sides.
  - apply snapshot_sides.
Qed.

Lemma crossed_since_set (b : L2Book) t : crossed (b <| crossed_since_ := t |>) = crossed b.
Proof. done. Qed.

(** While the book is crossed it knows since when, and only then. *)
Lemma fed_crossed b : fed b -> ts_valid (crossed_since_ b) = true -> crossed b = true.
Proof.
  assert (Hu : forall ts b, ts_valid (crossed_since_ (update_crossed ts b)) = true -> crossed (update_crossed ts b) = true).
  { intros ts b0 H. unfold update_crossed in *. destruct (crossed b0) eqn:E; [|done]. by case_if; rewrite ?crossed_since_set. }
  intros Hf. destruct Hf as [| |b d|]; [done | done | | apply Hu]. unfold apply_delta. case_if; apply Hu.
Qed.

Lemma last_best s v l x : sorted s v -> last v = Some l -> x ∈ v -> at_or_better s (l_price l) (l_price x) = true.
Proof.
  intros Hs Hl Hx. apply list_elem_of_lookup in Hx as [k Hk]. rewrite last_lookup in Hl.
  pose proof (lookup_lt_Some _ _ _ Hk) as Hlt. destruct (Nat.eq_dec k (pred (length v))) as [-> |Hne].
  - assert (x = l) as -> by congruence. destruct s; cbn; lia.
  - assert (Hw : worse s x l) by (apply (sorted_lookup s v k (pred (length v))); [done | lia | done | done]).
    unfold worse in Hw. destruct s; cbn in *; lia.
Qed.

(** C25. Every book a feed of snapshots and deltas produces has both sides in strict price order from worst
    to best, at most [kMaxDepth] deep and without an empty level; it records a crossing time only while
    it is crossed; its best bid and ask are the best of all levels, and when it reads as valid every
    bid is below every ask. *)
Theorem book_invariant b : fed b -> (forall s, side_ok D s (levels b s)) /\
  (ts_valid (crossed_since_ b) = true -> crossed b = true) /\
  (forall x, x ∈ bids_ b -> l_price x <= l_price (best_bid b)) /\
  (forall x, x ∈ asks_ b -> l_price (best_ask b) <= l_price x) /\
  (is_valid b = true -> forall x y, x ∈ bids_ b -> y ∈ asks_ b -> l_price x < l_price y).
Proof.
  intros Hf. pose proof (fed_sides b Hf) as Hs. split; [done|]. split; [by apply fed_crossed|].
  assert (Hbid : forall x, x ∈ bids_ b -> exists l, last (bids_ b) = Some l /\ l_price x <= l_price l).
  { intros x Hx. destruct (last (bids_ b)) as [l|] eqn:El; [|apply last_None in El; by rewrite El in Hx; apply not_elem_of_nil in Hx].
    exists l. split; [done|]. destruct (Hs Buy) as (Hsb & _). pose proof (last_best Buy _ l x Hsb El Hx) as H. cbn in H. lia. }
  assert (Hask : forall x, x ∈ asks_ b -> exists l, last (asks_ b) = Some l /\ l_price l <= l_price x).
  { intros x Hx. destruct (last (asks_ b)) as [l|] eqn:El; [|apply last_None in El; by rewrite El in Hx; apply not_elem_of_nil in Hx].
    exists l. split; [done|]. destruct (Hs Sell) as (Hsb & _). pose proof (last_best Sell _ l x Hsb El Hx) as H. cbn in H. lia. }
  split; [|split].
  - intros x Hx. destruct (Hbid x Hx) as (l & El & H). unfold best_bid. by rewrite El.
  - intros x Hx. destruct (Hask x Hx) as (l & El & H). unfold best_ask. by rewrite El.
  - intros Hv x y Hx Hy. destruct (Hbid x Hx) as (l & El & H1), (Hask y Hy) as (k & Ek & H2).
    unfold is_valid, crossed in Hv. rewrite El, Ek in Hv. apply andb_true_iff in Hv as [_ Hv]. lia.
Qed.

(** C26. On a side in price order [apply_level] is the update of a bounded map of prices to quantities:
    it reports the quantity the price had, a zero quantity deletes the price, any other quantity is
    stored under it, and when the side is full a new price either pushes the worst one out or, when it
    is itself worse than all, is refused; both mark the side truncated.  The other side is untouched
    and the side stays in order. *)
Theorem apply_level_refines s px q b : sorted s (levels b s) ->
  let r := apply_level D s px q b in
  sorted s (levels (snd r) s) /\ level_applied s px q b (snd r) (fst (fst r)) (snd (fst r)).
Proof. apply apply_level_ok. Qed.

(** A snapshot applied level by level. *)
Definition snapshot_by_level (bids asks : list Level) (q : Z) (ts : Timestamp) (b : L2Book) : L2Book :=
  update_crossed ts ((apply_levels D Sell asks (apply_levels D Buy bids (clear b)))
    <| have_snapshot_ := true |> <| book_seq_ := q |> <| last_update_ := ts |>).

(** Loading a snapshot in one pass gives the same book, field by field, as applying its levels one by
    one, whatever their order, quantities and number. *)
Theorem snapshot_load_equiv bids asks q ts b :
  apply_snapshot D bids asks q ts b = snapshot_by_level bids asks q ts b.
Proof.
  unfold apply_snapshot, snapshot_by_level. cbv zeta. rewrite (load_side_levels Buy) by done. rewrite load_side_levels; [done|].
  by apply (apply_levels_other Buy), empty_sides.
Qed.
End depth.

(** ** Our own levels *)

Lemma i64_back x d : in_i64 x -> i64 (i64 (x + d) - d) = x.
Proof. intros Hx. rewrite (i64_eq64 (x + d)). replace (x + d - d) with x by lia. by apply i64_id. Qed.

Lemma splits_update v s px i x : splits v s px i true -> l_price x = px -> splits (<[i := x]> v) s px i true.
Proof.
  intros (H1 & H2 & (l & Hl & Hp)) Hx. pose proof (lookup_lt_Some _ _ _ Hl) as Hlt. rewrite <- Hx in *.
  split; [by rewrite length_insert|]. split.
  - intros k y Hk Hy. rewrite list_lookup_insert_ne in Hy by lia. by apply (H2 k).
  - exists x. split; [|done]. by apply list_lookup_insert_eq.
Qed.

Lemma splits_insert v s px i x : splits v s px i false -> l_price x = px -> splits (take i v ++ x :: drop i v) s px i true.
Proof.
  intros (H1 & H2 & _) Hx. assert (Hl : length (take i v) = i) by (rewrite length_take; lia).
  split; [rewrite length_app; lia|]. split.
  - intros k y Hk Hy. rewrite lookup_app_l, lookup_take_lt in Hy by lia. by apply (H2 k).
  - exists x. split; [|done]. rewrite lookup_app_r by lia. by rewrite Hl, Nat.sub_diag.
Qed.

(** Showing our own quantity in the market's book and taking it out again leaves the book exactly as it
    was, whether the price had a level of its own or not; when there is no room for a level the book
    is unchanged. *)
Theorem own_roundtrip D s px q b : sorted s (levels b s) -> Forall (fun l => in_i64 (l_qty l)) (levels b s) ->
  let '(ok, inserted, b') := add_own D s px q b in
  if ok then remove_own s px q inserted b' = b else b' = b.
Proof.
  intros Hs Hq. unfold add_own. pose proof (locate_splits (levels b s) s px Hs) as Hsp.
  destruct (locate (levels b s) s px) as [i found]. cbn [fst snd] in Hsp. set (v := levels b s) in *. destruct found; cbn [negb].
  - destruct (splits_at v s px i true Hsp eq_refl) as (Hp & Hi & _). pose proof (at_lt v i Hi) as Ha.
    set (l := at_ v i) in *. set (x := mkLevel (l_price l) (i64 (l_qty l + q))).
    pose proof (splits_update v s px i x Hsp Hp) as Hsp'.
    assert (Hs' : sorted s (<[i := x]> v)) by (unfold x; rewrite Hp; by apply update_side).
    unfold remove_own. rewrite levels_set, (locate_eq _ s px i true Hs' Hsp'). cbn [negb]. rewrite set_set.
    rewrite (at_lookup (<[i := x]> v) i x) by by apply list_lookup_insert_eq. cbn [x l_price l_qty].
    rewrite list_insert_insert_eq, list_insert_id; [apply set_id|].
    rewrite Forall_lookup in Hq. specialize (Hq i l Ha). rewrite Ha. destruct l as [p0 q0]. cbn [l_price l_qty] in *.
    do 2 f_equal. symmetry. apply i64_back. exact Hq.
  - unfold SVec.insert_at. destruct (bool_decide _ || _); [apply set_id|].
    pose proof (splits_insert v s px i (mkLevel px q) Hsp eq_refl) as Hsp'.
    destruct (insert_side v s px q i Hs Hsp) as (Hs' & _ & _). unfold remove_own.
    rewrite levels_set, (locate_eq _ s px i true Hs' Hsp'). cbn [negb]. rewrite set_set.
    assert (Hl : length (take i v) = i) by (destruct Hsp; rewrite length_take; lia).
    unfold SVec.erase_at. rewrite length_app. cbn [length]. destruct (Nat.leb_spec (length (take i v) + S (length (drop i v))) i); [lia|].
    rewrite take_app_length', drop_app_ge by lia. rewrite Hl. replace (S i - i)%nat with 1%nat by lia. cbn [drop].
    rewrite drop_0, take_drop. apply set_id.
Qed.

(** ** Depth queries *)

Definition total (ls : list Level) : Z := foldr (fun l acc => l_qty l + acc) 0 ls.
Lemma total_app a b : total (a ++ b) = total a + total b.
Proof. unfold total. induction a as [|l a IH]; [done|]. cbn [app foldr]. lia. Qed.
Lemma total_rev a : total (rev a) = total a.
Proof. induction a as [|l a IH]; [done|]. cbn [rev]. rewrite total_app, IH. unfold total. cbn [foldr]. lia. Qed.
Lemma total_nonneg a : Forall (fun l => 0 <= l_qty l) a -> 0 <= total a.
Proof. unfold total. induction 1; cbn [foldr]; lia. Qed.

(** The levels of a side at or better than a limit. *)
Definition up_to (s : Side) (limit : Price) (ls : list Level) : list Level :=
  filter (fun l => at_or_better s (l_price l) limit = true) ls.

(** Levels from the best to the worst. *)
Definition best_first (s : Side) (ls : list Level) : Prop := StronglySorted (fun a b => worse s b a) ls.
Lemma sorted_rev s v : sorted s v -> best_first s (rev v).
Proof.
  unfold sorted, best_first. induction 1 as [|l v Hs IH Hf]; [constructor|]. cbn [rev].
  assert (Hin : forall x, x ∈ rev v -> worse s l x).
  { intros x Hx. rewrite Forall_forall in Hf. apply Hf. rewrite list_elem_of_In, <- in_rev, <- list_elem_of_In in Hx. done. }
  revert IH Hin. clear. induction (rev v) as [|y r IHr]; intros Hr Hin; [repeat constructor|]. cbn [app].
  inversion Hr as [|? ? H1 H2]; subst. constructor.
  - apply IHr; [done|]. intros x Hx. apply Hin. by constructor.
  - apply Forall_app. split; [done|]. constructor; [|constructor]. apply Hin. constructor.
Qed.

(** The loop stops at the first level beyond the limit; no later one is within it. *)
Lemma sum_to_filter s limit ls : best_first s ls -> forall acc, in_i64 acc ->
  sum_to s limit acc ls = i64 (acc + total (up_to s limit ls)).
Proof.
  induction 1 as [|l ls Hs IH Hf]; intros acc Ha; cbn [sum_to].
  - unfold up_to, total. cbn. by rewrite Z.add_0_r, i64_id.
  - unfold up_to. rewrite filter_cons. destruct (at_or_better s (l_price l) limit) eqn:E; cbn [negb].
    + rewrite decide_True by done. rewrite IH by apply i64_range. rewrite (i64_eq64 (acc + l_qty l)).
      fold (up_to s limit ls). change (total (l :: up_to s limit ls)) with (l_qty l + total (up_to s limit ls)).
      by rewrite Z.add_assoc.
    + rewrite decide_False by done. assert (Hn : filter (fun l => at_or_better s (l_price l) limit = true) ls = []).
      { apply filter_none. apply Forall_forall. intros x Hx. rewrite Forall_forall in Hf. specialize (Hf x Hx).
        unfold worse in Hf. destruct s; cbn in *; lia. }
      rewrite Hn. unfold total. cbn. by rewrite Z.add_0_r, i64_id.
Qed.

Lemma reach_qty_spec qty ls : forall cum, 0 <= cum < qty -> Forall (fun l => 0 <= l_qty l) ls -> cum + total ls <= i64_max ->
  (cum + total ls < qty /\ reach_qty qty cum ls = 0) \/
  exists pre l post, ls = pre ++ l :: post /\ reach_qty qty cum ls = l_price l /\
    cum + total pre < qty <= cum + total pre + l_qty l.
Proof.
  induction ls as [|l ls IH]; intros cum Hc Hq Ht; cbn [reach_qty].
  - left. unfold total. cbn. lia.
  - inversion Hq as [|? ? Hl Hq']; subst. pose proof (total_nonneg ls Hq') as Hn.
    assert (Et : total (l :: ls) = l_qty l + total ls) by done. rewrite Et in *.
    rewrite i64_id by (unfold in_i64, i64_min, i64_max in *; lia).
    destruct (Z.leb_spec qty (cum + l_qty l)) as [Hd|Hd].
    + right. exists [], l, ls. split; [done|]. split; [done|]. unfold total. cbn. lia.
    + destruct (IH (cum + l_qty l)) as [[H1 H2]|(pre & x & post & -> & H2 & H3)]; [lia | done | lia | left; split; [lia | done]|].
      right. exists (l :: pre), x, post. split; [done|]. split; [done|].
      assert (E2 : total (l :: pre) = l_qty l + total pre) by done. lia.
Qed.

Lemma up_to_split s pre l post : best_first s (pre ++ l :: post) ->
  up_to s (l_price l) (pre ++ l :: post) = pre ++ [l] /\
  forall limit, better s limit (l_price l) = true -> up_to s limit (pre ++ l :: post) = up_to s limit pre.
Proof.
  unfold up_to. intros Hs. assert (Hpre : forall x, x ∈ pre -> better s (l_price x) (l_price l) = true).
  { induction pre as [|y pre IH]; [by intros x ?%not_elem_of_nil|]. inversion Hs as [|? ? H1 H2]; subst. intros x Hx.
    apply elem_of_cons in Hx as [-> |Hx]; [|by apply IH]. rewrite Forall_forall in H2. apply H2. apply elem_of_app. right. constructor. }
  assert (Hpost : forall x, x ∈ post -> better s (l_price l) (l_price x) = true).
  { clear Hpre. induction pre as [|y pre IH]; inversion Hs as [|? ? H1 H2]; subst; [|by apply IH].
    intros x Hx. rewrite Forall_forall in H2. by apply H2. }
  split.
  - rewrite filter_app, filter_cons_True by (destruct s; cbn; lia). f_equal.
    + apply filter_all. apply Forall_forall. intros x Hx. specialize (Hpre x Hx). destruct s; cbn in *; lia.
    + f_equal. apply filter_none. apply Forall_forall. intros x Hx. specialize (Hpost x Hx). destruct s; cbn in *; lia.
  - intros limit Hlim. rewrite filter_app, filter_cons_False by (destruct s; cbn in *; lia).
    rewrite <- (app_nil_r (filter _ pre)) at 2. f_equal. apply filter_none. apply Forall_forall. intros x Hx.
    specialize (Hpost x Hx). destruct s; cbn in *; lia.
Qed.

Lemma total_up_to s limit ls : Forall (fun l => 0 <= l_qty l) ls -> 0 <= total (up_to s limit ls) <= total ls.
Proof.
  unfold up_to, total. induction 1 as [|l ls Hl _ IH]; [done|]. rewrite filter_cons. case_decide; cbn [foldr]; lia.
Qed.

(** On a side in price order whose quantities add up to an [int64], the two depth queries answer each
    other: when the side holds [qty], the price for it is the first one with at least [qty] at or
    better, and any better limit has less; when it does not, the price is zero.  The quantity at or
    better than a limit is the sum over all levels within it, although the loop stops early. *)
Theorem depth_queries_agree b s qty : sorted s (levels b s) -> Forall (fun l => 0 <= l_qty l) (levels b s) ->
  total (levels b s) <= i64_max -> 0 < qty ->
  let p := price_for_qty b s qty in
  (forall limit, qty_at_or_better b s limit = total (up_to s limit (levels b s))) /\
  if qty <=? total (levels b s)
  then qty <= qty_at_or_better b s p /\ (forall limit, better s limit p = true -> qty_at_or_better b s limit < qty)
  else p = 0.
Proof.
  intros Hs Hq Ht Hpos. cbv zeta. set (v := levels b s) in *. pose proof (sorted_rev s v Hs) as Hb.
  assert (Hqr : Forall (fun l => 0 <= l_qty l) (rev v)) by (rewrite rev_alt; by apply Forall_reverse).
  assert (Hqob : forall limit, qty_at_or_better b s limit = total (up_to s limit (rev v))).
  { intros limit. unfold qty_at_or_better. rewrite sum_to_filter by done. apply i64_id.
    pose proof (total_up_to s limit _ Hqr) as H. rewrite total_rev in H. unfold in_i64, i64_min, i64_max in *. lia. }
  assert (Hur : forall limit, total (up_to s limit (rev v)) = total (up_to s limit v)).
  { intros limit. clear. unfold up_to. induction v as [|l v IH]; [done|]. cbn [rev]. rewrite filter_app, total_app, IH.
    rewrite !filter_cons, filter_nil. case_decide; unfold total; cbn [foldr]; lia. }
  split; [intros limit; by rewrite Hqob|].
  destruct (reach_qty_spec qty (rev v) 0 ltac:(lia) Hqr ltac:(rewrite total_rev; lia)) as [[H1 H2]|(pre & l & post & E & H2 & H3)].
  - rewrite total_rev in H1. destruct (Z.leb_spec qty (total v)); [lia|]. exact H2.
  - unfold price_for_qty. fold v. rewrite H2. rewrite E in *. destruct (up_to_split s pre l post Hb) as [U1 U2].
    assert (Hpq : 0 <= total post) by (apply total_nonneg; apply Forall_app in Hqr as [_ Hqr]; by inversion Hqr).
    assert (Htot : total v = total pre + (l_qty l + total post)) by (rewrite <- (total_rev v), E; apply total_app).
    destruct (Z.leb_spec qty (total v)); [|lia]. rewrite Hqob, U1, total_app. split.
    + unfold total at 2. cbn [foldr]. lia.
    + intros limit Hlim. rewrite Hqob, U2 by done. apply Forall_app in Hqr as [Hqp _].
      pose proof (total_up_to s limit pre Hqp). lia.
Qed.

(** Trimming a side behind a truncated update keeps exactly the levels at or better than the worst price
    the update carried, and marks the side truncated when it dropped one. *)
Theorem trim_behind_exact s c cs b : sorted s (levels b s) ->
  let b' := trim_behind s (c :: cs) b in let kept l := better s (worst_of s (c :: cs)) (l_price l) = false in
  levels b' s = filter kept (levels b s) /\ levels b' (opposite s) = levels b (opposite s) /\
  (levels b' s <> levels b s -> truncated b' s = true) /\
  (forall l, l ∈ c :: cs -> at_or_better s (l_price l) (worst_of s (c :: cs)) = true).
Proof.
  intros Hs. cbv zeta. unfold trim_behind. set (bound := worst_of s (c :: cs)). pose proof (behind_drop s bound _ Hs) as Hd.
  assert (Hle : (behind s bound (levels b s) <= length (levels b s))%nat) by apply behind_le.
  assert (Hw : forall l, l ∈ c :: cs -> at_or_better s (l_price l) bound = true).
  { unfold bound, worst_of. cbn [at_ default lookup list_lookup].
    assert (Hg : forall ls p, at_or_better s p (fold_left (fun bound l => if better s bound (l_price l) then l_price l else bound) ls p) = true /\
      forall l, l ∈ ls -> at_or_better s (l_price l) (fold_left (fun bound l => if better s bound (l_price l) then l_price l else bound) ls p) = true).
    { induction ls as [|x ls IH]; intros p; cbn [fold_left].
      - split; [destruct s; cbn; lia | by intros l ?%not_elem_of_nil].
      - destruct (IH (if better s p (l_price x) then l_price x else p)) as [H1 H2].
        set (r := fold_left _ _ _) in *. split.
        + destruct s; cbn in *; repeat case_if; lia.
        + intros l Hl. apply elem_of_cons in Hl as [-> |Hl]; [|by apply H2]. destruct s; cbn in *; repeat case_if; lia. }
    apply Hg. }
  destruct (Nat.eqb_spec (behind s bound (levels b s)) 0) as [E|Hne].
  - rewrite E, drop_0 in Hd. by rewrite <- Hd.
  - rewrite !levels_truncated, levels_set, levels_set_other, truncated_same. split; [|done].
    unfold SVec.erase_front. destruct (Nat.ltb_spec (length (levels b s)) (behind s bound (levels b s))); [lia | done].
Qed.

(** ** Examples *)

Module Book.
Definition L := mkLevel.
(** Two levels a side, and a delta that deletes the best bid and adds a worse one. *)
Definition book0 : L2Book := apply_snapshot 3 [L 100 5; L 99 7] [L 101 4; L 103 6] 10 50 new_book.
Definition delta1 : BookDeltaMsg := mkDelta 0 60 61 11 [L 100 0; L 98 2] [].
Definition book1 : L2Book := apply_delta 3 delta1 book0.

Lemma book1_fed : fed 3 book1.
Proof. apply fed_delta, fed_snapshot, fed_new. Qed.

Lemma book_invariant_witness : bids_ book1 = [L 98 2; L 99 7] /\ is_valid book1 = true /\
  (forall x y, x ∈ bids_ book1 -> y ∈ asks_ book1 -> l_price x < l_price y).
Proof.
  split; [reflexivity|]. split; [reflexivity|].
  destruct (book_invariant 3 ltac:(lia) book1 book1_fed) as (_ & _ & _ & _ & H). apply H. reflexivity.
Defined.

Lemma book1_sorted s : sorted s (levels book1 s).
Proof. destruct s; vm_compute; repeat constructor. Qed.

Lemma book1_qty : Forall (fun l => in_i64 (l_qty l)) (levels book1 Buy) /\ Forall (fun l => 0 <= l_qty l) (levels book1 Buy).
Proof.
  replace (levels book1 Buy) with [L 98 2; L 99 7] by reflexivity.
  split; repeat constructor; cbn; unfold in_i64, i64_min, i64_max; lia.
Qed.

(** The side is full, so the new best bid pushes out the worst one. *)
Lemma apply_level_refines_witness : let r := apply_level 2 Buy 100 9 book1 in
  levels (snd r) Buy = [L 99 7; L 100 9] /\ level_applied 2 Buy 100 9 book1 (snd r) (fst (fst r)) (snd (fst r)).
Proof.
  cbv zeta. split; [reflexivity|]. apply (apply_level_refines 2 ltac:(lia) Buy 100 9 book1 (book1_sorted Buy)).
Defined.

Lemma snapshot_load_equiv_witness :
  bids_ (snapshot_by_level 2 [L 100 5; L 99 7; L 98 1] [] 10 50 new_book) = [L 99 7; L 100 5] /\
  apply_snapshot 2 [L 100 5; L 99 7; L 98 1] [] 10 50 new_book =
  snapshot_by_level 2 [L 100 5; L 99 7; L 98 1] [] 10 50 new_book.
Proof. split; [reflexivity|]. apply (snapshot_load_equiv 2 ltac:(lia)). Defined.

Lemma own_roundtrip_witness : let '(ok, ins, b') := add_own 3 Buy 100 8 book1 in
  ok = true /\ ins = true /\ bids_ b' = [L 98 2; L 99 7; L 100 8] /\ remove_own Buy 100 8 ins b' = book1.
Proof.
  pose proof (own_roundtrip 3 Buy 100 8 book1 (book1_sorted Buy) (proj1 book1_qty)) as H.
  change (add_own 3 Buy 100 8 book1) with (true, true, set_levels book1 Buy [L 98 2; L 99 7; L 100 8]) in *.
  split; [reflexivity|]. split; [reflexivity|]. split; [reflexivity | exact H].
Defined.

Lemma depth_queries_agree_witness : price_for_qty book1 Buy 8 = 98 /\ 8 <= qty_at_or_better book1 Buy 98 /\
  qty_at_or_better book1 Buy 99 < 8.
Proof.
  split; [reflexivity|].
  destruct (depth_queries_agree book1 Buy 8 (book1_sorted Buy) (proj2 book1_qty)
    ltac:(vm_compute; intros H; discriminate H) ltac:(lia)) as [_ H].
  cbv zeta in H. change (8 <=? total (levels book1 Buy)) with true in H. change (price_for_qty book1 Buy 8) with 98 in H.
  destruct H as [H1 H2]. split; [exact H1 | apply H2; reflexivity].
Defined.

Lemma trim_behind_exact_witness :
  levels (trim_behind Buy [L 100 3; L 99 1] book1) Buy = [L 99 7] /\
  truncated (trim_behind Buy [L 100 3; L 99 1] book1) Buy = true.
Proof.
  destruct (trim_behind_exact Buy (L 100 3) [L 99 1] book1 (book1_sorted Buy)) as (H1 & _ & H2 & _).
  split; [rewrite H1; reflexivity | apply H2; vm_compute; discriminate].
Defined.
End Book.
