(* ===== verification/Instruments.v ===== *)
(** * Instruments: reference data, currencies and underlyings

    [Instrument] of [instrument.hpp] with its valuation, the conversion rates of
    [fx.hpp] and the base-unit conversion of [underlying.hpp].  [Int128]
    intermediates are kept at their width with [i128]. *)

From S2P Require Import Prelude Types FixedPoint.

Record Instrument := mkInstrument {
  in_id : InstrumentId;
  in_venue : VenueId;
  in_asset_class : AssetClass;
  in_flags : Z;
  in_price_decimals : Z;
  in_tick : Price;
  in_lot : Qty;
  in_min_qty : Qty;
  in_max_qty : Qty;
  in_min_notional : Notional;
  in_contract_multiplier : Qty;
  in_max_notional : Notional;
}.
#[export] Instance eta_instrument : Eta Instrument := fun i =>
  mkInstrument (in_id i) (in_venue i) (in_asset_class i) (in_flags i) (in_price_decimals i) (in_tick i) (in_lot i)
    (in_min_qty i) (in_max_qty i) (in_min_notional i) (in_contract_multiplier i) (in_max_notional i).

Definition kEnabled : Z := 1.
Definition kInverse : Z := 2.
Definition kCoinQuoted : Z := 8.
Definition enabled (i : Instrument) : bool := negb (Z.land (in_flags i) kEnabled =? 0).
Definition inverse (i : Instrument) : bool := negb (Z.land (in_flags i) kInverse =? 0).
Definition coin_quoted (i : Instrument) : bool := negb (Z.land (in_flags i) kCoinQuoted =? 0).
Definition one_contract : Qty := from_int 1.

Definition round_price (i : Instrument) (p : Price) (s : Side) : Price := round_to_tick p (in_tick i) s.
Definition round_qty (i : Instrument) (q : Qty) : Qty := round_to_lot q (in_lot i).
Definition ticks (i : Instrument) (n : Z) : Price := fx_scale (in_tick i) n.
Definition valid_price (i : Instrument) (p : Price) : bool := (0 <? p) && on_tick p (in_tick i).
Definition valid_qty (i : Instrument) (q : Qty) : bool :=
  (0 <? q) && on_lot q (in_lot i) && (in_min_qty i <=? q) && ((in_max_qty i =? 0) || (q <=? in_max_qty i)).

Definition notional (i : Instrument) (p : Price) (q : Qty) : Notional :=
  if inverse i then
    if negb (0 <? p) then 0
    else i64 (i128 (Z.quot (i128 (q * in_contract_multiplier i)) p))
  else
    let n := mul p q in
    if in_contract_multiplier i =? one_contract then n else mul_raw n (in_contract_multiplier i).

Definition pnl_per_tick (i : Instrument) : Notional :=
  if inverse i then 0 else mul_raw (in_tick i) (in_contract_multiplier i).

Definition inverse_pnl (i : Instrument) (from to : Price) (q : Qty) : Notional :=
  if negb (0 <? from) || negb (0 <? to) then 0
  else
    let num := i128 (i128 (q * in_contract_multiplier i) * i64 (to - from)) in
    let den := i128 (from * to) in
    i64 (i128 (Z.quot num den)).

Definition is_derivative (i : Instrument) : bool :=
  match in_asset_class i with Perpetual | Future | Option_ => true | _ => false end.

(** ** Conversion rates *)

Definition kMaxCurrencies : Z := 8.
Record FxRate := mkRate { fx_num : Z; fx_den : Z }.
Definition no_rate : FxRate := mkRate 0 1.
Definition identity_rate : FxRate := mkRate 1 1.
Definition from_mid (m : Price) (invert : bool) : FxRate :=
  if negb (0 <? m) then no_rate
  else if invert then mkRate kFixedScale m else mkRate m kFixedScale.
Definition known (r : FxRate) : bool := 0 <? fx_num r.
Definition rate_price (r : FxRate) : Price :=
  if known r then i64 (i128 (Z.quot (i128 (kFixedScale * fx_num r)) (fx_den r))) else 0.
Definition convert (n : Notional) (r : FxRate) : Notional :=
  if fx_num r =? fx_den r then n
  else i64 (i128 (Z.quot (i128 (n * fx_num r)) (fx_den r))).

(** ** Underlyings *)

Definition counts_toward_underlying (i : Instrument) : bool :=
  negb (bool_decide (in_asset_class i = Option_)) && negb (coin_quoted i).

(** [None] where the source returns false. *)
Definition to_base_units (i : Instrument) (qty_raw : Z) (mark : Price) : option Z :=
  if qty_raw =? 0 then Some 0
  else if inverse i then
    if negb (0 <? mark) then None
    else Some (i64 (i128 (Z.quot (i128 (qty_raw * in_contract_multiplier i)) mark)))
  else Some (if in_contract_multiplier i =? one_contract then qty_raw else mul_raw qty_raw (in_contract_multiplier i)).

Definition underlying_exceeds (max_net net worst : Z) : bool :=
  let abs_worst := if worst <? 0 then i64 (- worst) else worst in
  let abs_net := if net <? 0 then i64 (- net) else net in
  (0 <? max_net) && (max_net <? abs_worst) && (abs_net <? abs_worst).

Lemma convert_zero r : convert 0 r = 0.
Proof. unfold convert. case_if; [done|]. rewrite Z.mul_0_l. change (i128 0) with 0. by destruct (fx_den r). Qed.
