(* ===== verification/Position.v ===== *)
(** * Position: the position tracker of [position.hpp]

    Per-instrument positions with average-cost accounting, the running totals the
    risk checks read, the exposure at the last marks, funding, and the totals per
    settlement currency with their conversion.  A pointer to a member of [Totals]
    is a [field]; the arrays are maps that read as zero where nothing was written. *)

From S2P Require Import Prelude Types FixedPoint Instruments.

Record Position := mkPosition {
  p_qty : Qty;
  p_avg_px : Price;
  p_realized : Notional;
  p_unrealized : Notional;
  p_fees : Notional;
  p_last_mark : Price;
  p_gross_traded : Qty;
  p_fills : Z;
}.
#[export] Instance eta_position : Eta Position := fun p =>
  mkPosition (p_qty p) (p_avg_px p) (p_realized p) (p_unrealized p) (p_fees p) (p_last_mark p) (p_gross_traded p) (p_fills p).
Definition no_position : Position := mkPosition 0 0 0 0 0 0 0 0.

Definition position_pnl (p : Position) : Notional := fx_sub (fx_add (p_realized p) (p_unrealized p)) (p_fees p).

(** ** What an order opens *)

Definition opening_qty (q : Z) (side : Side) (ahead qty : Z) : Z :=
  if (q =? 0) || Bool.eqb (0 <? q) (match side with Buy => true | Sell => false end) then qty
  else
    let room := i64 ((if q <? 0 then i64 (- q) else q) - ahead) in
    if room <=? 0 then qty else if room <? qty then i64 (qty - room) else 0.

Definition nearer_zero (q : Z) (side : Side) (ahead qty : Z) : bool :=
  if (q =? 0) || Bool.eqb (0 <? q) (match side with Buy => true | Sell => false end) then false
  else
    let room := i64 ((if q <? 0 then i64 (- q) else q) - ahead) in
    (0 <? room) && (i64 (qty - room) <? room).

Definition notional_share (n : Notional) (part qty : Z) : Notional :=
  if (qty <=? part) || (qty <=? 0) then n
  else let x := i128 (n * part) in i64 (i128 (Z.quot (i128 (i128 (x + qty) - 1)) qty)).

(** ** The tracker *)

Record Totals := mkTotals { t_realized : Notional; t_unrealized : Notional; t_fees : Notional; t_gross : Notional; t_net : Notional }.
Definition no_totals : Totals := mkTotals 0 0 0 0 0.
Inductive field := FRealized | FUnrealized | FFees | FGross | FNet.
#[export] Instance field_eq_dec : EqDecision field.
Proof. solve_decision. Defined.
Definition tget (t : Totals) (f : field) : Notional :=
  match f with FRealized => t_realized t | FUnrealized => t_unrealized t | FFees => t_fees t | FGross => t_gross t | FNet => t_net t end.
Definition tset (t : Totals) (f : field) (v : Notional) : Totals :=
  match f with
  | FRealized => mkTotals v (t_unrealized t) (t_fees t) (t_gross t) (t_net t)
  | FUnrealized => mkTotals (t_realized t) v (t_fees t) (t_gross t) (t_net t)
  | FFees => mkTotals (t_realized t) (t_unrealized t) v (t_gross t) (t_net t)
  | FGross => mkTotals (t_realized t) (t_unrealized t) (t_fees t) v (t_net t)
  | FNet => mkTotals (t_realized t) (t_unrealized t) (t_fees t) (t_gross t) v
  end.

Record PositionTracker := mkTracker {
  pos_ : gmap Z Position;
  realized_total_ : Notional;
  unrealized_total_ : Notional;
  fees_total_ : Notional;
  exposure_ : gmap Z Notional;
  gross_exposure_ : Notional;
  net_exposure_ : Notional;
  ccy_count_ : Z;
  ccy_ : gmap Z Z;
  rate_ : gmap Z FxRate;
  native_ : gmap Z Totals;
  conv_ : gmap Z Totals;
  conv_total_ : Totals;
  changes_ : Z;
  fund_total : Notional;
  fund_per : gmap Z Notional;
  fund_native : gmap Z Notional;
}.
#[export] Instance eta_tracker : Eta PositionTracker := fun t =>
  mkTracker (pos_ t) (realized_total_ t) (unrealized_total_ t) (fees_total_ t) (exposure_ t) (gross_exposure_ t)
    (net_exposure_ t) (ccy_count_ t) (ccy_ t) (rate_ t) (native_ t) (conv_ t) (conv_total_ t) (changes_ t)
    (fund_total t) (fund_per t) (fund_native t).

Definition new_tracker : PositionTracker :=
  mkTracker ∅ 0 0 0 ∅ 0 0 0 ∅ {[ 0 := identity_rate ]} ∅ ∅ no_totals 0 0 ∅ ∅.

Definition pos_at (t : PositionTracker) (i : InstrumentId) : Position := default no_position (pos_ t !! i).
Definition exposure_at (t : PositionTracker) (i : InstrumentId) : Notional := default 0 (exposure_ t !! i).
Definition ccy_at (t : PositionTracker) (i : InstrumentId) : Z := default 0 (ccy_ t !! i).
Definition rate_at (t : PositionTracker) (c : Z) : FxRate := default no_rate (rate_ t !! c).
Definition native_at (t : PositionTracker) (c : Z) : Totals := default no_totals (native_ t !! c).
Definition conv_at (t : PositionTracker) (c : Z) : Totals := default no_totals (conv_ t !! c).
Definition fund_at (t : PositionTracker) (i : InstrumentId) : Notional := default 0 (fund_per t !! i).
Definition fund_native_at (t : PositionTracker) (c : Z) : Notional := default 0 (fund_native t !! c).
Definition set_pos (t : PositionTracker) (i : InstrumentId) (p : Position) : PositionTracker :=
  t <| pos_ := <[i := p]> (pos_ t) |>.

Definition converting (t : PositionTracker) : bool := 1 <? ccy_count_ t.
Definition changed (t : PositionTracker) : PositionTracker := t <| changes_ ::= fun x => u64 (x + 1) |>.

(** [conv_total_.*f += v - conv_[c].*f; conv_[c].*f = v] at the currency's rate. *)
Definition reconvert_field (c : Z) (t : PositionTracker) (f : field) : PositionTracker :=
  let v := convert (tget (native_at t c) f) (rate_at t c) in
  let d := fx_sub v (tget (conv_at t c) f) in
  let t := t <| conv_total_ := tset (conv_total_ t) f (fx_add (tget (conv_total_ t) f) d) |> in
  t <| conv_ := <[c := tset (conv_at t c) f v]> (conv_ t) |>.
Definition reconvert (c : Z) (t : PositionTracker) : PositionTracker :=
  fold_left (reconvert_field c) [FRealized; FUnrealized; FFees; FGross; FNet] t.

Definition book_converted (i : InstrumentId) (f : field) (d : Notional) (t : PositionTracker) : PositionTracker :=
  let c := ccy_at t i in
  let n := fx_add (tget (native_at t c) f) d in
  let t := t <| native_ := <[c := tset (native_at t c) f n]> (native_ t) |> in
  reconvert_field c t f.
Definition book (i : InstrumentId) (f : field) (d : Notional) (t : PositionTracker) : PositionTracker :=
  if converting t then book_converted i f d t else t.

Definition scale (n : Notional) (inst : Instrument) : Notional :=
  if in_contract_multiplier inst =? one_contract then n else mul_raw n (in_contract_multiplier inst).

Definition arithmetic_avg (cur : Z) (avg : Price) (f : Z) (px : Price) (denom : Z) : Price :=
  let num := i128 (i128 (cur * avg) + i128 (f * px)) in
  i64 (i128 (Z.quot num denom)).
Definition harmonic_avg (cur : Z) (avg : Price) (f : Z) (px : Price) (denom : Z) : Price :=
  if negb (0 <? px) then avg
  else
    let inv := i128 (Z.quot (i128 (f * kFixedScale)) px) in
    let inv := if negb (cur =? 0) && (0 <? avg) then i128 (inv + i128 (Z.quot (i128 (cur * kFixedScale)) avg)) else inv in
    if inv =? 0 then px else i64 (i128 (Z.quot (i128 (denom * kFixedScale)) inv)).

Definition signed_notional (p : Position) (mark : Price) (inst : Instrument) : Notional :=
  if (p_qty p =? 0) || negb (0 <? mark) then 0
  else let n := notional inst mark (fx_abs (p_qty p)) in if p_qty p <? 0 then fx_sub 0 n else n.
Definition revalue (p : Position) (mark : Price) (inst : Instrument) : Notional :=
  if (p_qty p =? 0) || negb (0 <? mark) then 0
  else if inverse inst then inverse_pnl inst (p_avg_px p) mark (p_qty p)
  else scale (mul_div_const kFixedScale (i64 (mark - p_avg_px p)) (p_qty p)) inst.

Definition set_exposure (i : InstrumentId) (e : Notional) (t : PositionTracker) : PositionTracker :=
  let cur := exposure_at t i in
  let dg := fx_sub (fx_abs e) (fx_abs cur) in
  let dn := fx_sub e cur in
  let t := t <| gross_exposure_ ::= fun x => fx_add x dg |> <| net_exposure_ ::= fun x => fx_add x dn |> in
  let t := book i FGross dg t in
  let t := book i FNet dn t in
  t <| exposure_ := <[i := e]> (exposure_ t) |>.
Definition set_unrealized (i : InstrumentId) (u : Notional) (t : PositionTracker) : PositionTracker :=
  let p := pos_at t i in
  let d := fx_sub u (p_unrealized p) in
  let t := t <| unrealized_total_ ::= fun x => fx_add x d |> in
  let t := book i FUnrealized d t in
  set_pos t i (p <| p_unrealized := u |>).

(** [p.realized += d; realized_total_ += d; book(...)], and the same for fees. *)
Definition add_realized (i : InstrumentId) (d : Notional) (t : PositionTracker) : PositionTracker :=
  let t := set_pos t i ((pos_at t i) <| p_realized ::= fun x => fx_add x d |>) in
  book i FRealized d (t <| realized_total_ ::= fun x => fx_add x d |>).
Definition add_fees (i : InstrumentId) (d : Notional) (t : PositionTracker) : PositionTracker :=
  let t := set_pos t i ((pos_at t i) <| p_fees ::= fun x => fx_add x d |>) in
  book i FFees d (t <| fees_total_ ::= fun x => fx_add x d |>).

Definition mark (i : InstrumentId) (mid : Price) (inst : Instrument) (t : PositionTracker) : PositionTracker :=
  let p := (pos_at t i) <| p_last_mark := mid |> in
  let t := set_pos t i p in
  let t := set_unrealized i (revalue p mid inst) t in
  set_exposure i (signed_notional (pos_at t i) mid inst) t.

(** What closing [closed] of a position of direction [dir] at [px] realizes. *)
Definition close_pnl (p : Position) (px : Price) (closed dir : Z) (inst : Instrument) : Notional :=
  if inverse inst then inverse_pnl inst (p_avg_px p) px (i64 (closed * dir))
  else
    let pnl := i128 (Z.quot (i128 (i128 (i64 (px - p_avg_px p) * closed) * dir)) kFixedScale) in
    scale (i64 pnl) inst.

Definition on_fill (i : InstrumentId) (side : Side) (px : Price) (qty : Qty) (fee : Notional) (inst : Instrument)
    (t : PositionTracker) : PositionTracker :=
  let t := changed t in
  let f := match side with Buy => qty | Sell => i64 (- qty) end in
  let cur := p_qty (pos_at t i) in
  let inv := inverse inst in
  let t := add_fees i fee t in
  let t := set_pos t i ((pos_at t i) <| p_gross_traded ::= fun x => fx_add x qty |> <| p_fills ::= fun x => u32 (x + 1) |>) in
  let t :=
    if (cur =? 0) || Bool.eqb (0 <? cur) (0 <? f) then
      let denom := i64 (cur + f) in
      let p := pos_at t i in
      set_pos t i (p <| p_avg_px := if inv then harmonic_avg cur (p_avg_px p) f px denom
                                    else arithmetic_avg cur (p_avg_px p) f px denom |> <| p_qty := denom |>)
    else
      let abs_cur := if cur <? 0 then i64 (- cur) else cur in
      let abs_f := if f <? 0 then i64 (- f) else f in
      let closed := if abs_f <? abs_cur then abs_f else abs_cur in
      let dir := if 0 <? cur then 1 else -1 in
      let t := add_realized i (close_pnl (pos_at t i) px closed dir inst) t in
      let p := pos_at t i in
      let remaining := i64 (abs_f - closed) in
      if 0 <? remaining then
        set_pos t i (p <| p_qty := if 0 <? f then remaining else i64 (- remaining) |> <| p_avg_px := px |>)
      else
        let q := i64 (cur + f) in
        set_pos t i (p <| p_qty := q |> <| p_avg_px := if q =? 0 then 0 else p_avg_px p |>) in
  if 0 <? p_last_mark (pos_at t i) then mark i (p_last_mark (pos_at t i)) inst t
  else set_exposure i (signed_notional (pos_at t i) px inst) t.

Definition correct_fill (i : InstrumentId) (side : Side) (est_px px : Price) (qty : Qty) (fee : Notional)
    (inst : Instrument) (t : PositionTracker) : PositionTracker :=
  let t := changed t in
  let diff := if inverse inst then inverse_pnl inst est_px px qty
              else scale (mul_div_const kFixedScale (i64 (px - est_px)) qty) inst in
  let adj := match side with Buy => fx_sub 0 diff | Sell => diff end in
  add_fees i fee (add_realized i adj t).

Definition on_funding (i : InstrumentId) (amount : Notional) (t : PositionTracker) : PositionTracker :=
  let t := add_realized i amount (changed t) in
  let t := t <| fund_per := <[i := fx_add (fund_at t i) amount]> (fund_per t) |> <| fund_total ::= fun x => fx_add x amount |> in
  if converting t then
    let c := ccy_at t i in t <| fund_native := <[c := fx_add (fund_native_at t c) amount]> (fund_native t) |>
  else t.

Definition set (i : InstrumentId) (qty : Qty) (avg_px : Price) (inst : Instrument) (t : PositionTracker) : PositionTracker :=
  let t := changed t in
  let p := pos_at t i in
  let avg_px :=
    if negb (qty =? 0) && negb (0 <? avg_px) then
      let same_side := negb (p_qty p =? 0) && Bool.eqb (p_qty p <? 0) (qty <? 0) in
      if same_side && (0 <? p_avg_px p) then p_avg_px p else p_last_mark p
    else avg_px in
  let p := p <| p_qty := qty |> <| p_avg_px := if qty =? 0 then 0 else avg_px |> in
  let t := set_pos t i p in
  let t := set_unrealized i (revalue p (p_last_mark p) inst) t in
  set_exposure i (signed_notional (pos_at t i) (p_last_mark p) inst) t.

Definition reset (i : InstrumentId) (t : PositionTracker) : PositionTracker :=
  let t := changed t in
  let p := pos_at t i in
  let t := book i FRealized (fx_sub 0 (p_realized p)) (t <| realized_total_ ::= fun x => fx_sub x (p_realized p) |>) in
  let t := book i FFees (fx_sub 0 (p_fees p)) (t <| fees_total_ ::= fun x => fx_sub x (p_fees p) |>) in
  let t := t <| fund_total ::= fun x => fx_sub x (fund_at t i) |> in
  let t := if converting t then
             let c := ccy_at t i in
             t <| fund_native := <[c := fx_sub (fund_native_at t c) (fund_at t i)]> (fund_native t) |>
           else t in
  let t := t <| fund_per := <[i := 0]> (fund_per t) |> in
  let t := set_unrealized i 0 t in
  let t := set_exposure i 0 t in
  set_pos t i no_position.

Definition instruments : list Z := seqZ 0 kMaxInstruments.

(** [t.realized += p.realized; ...] *)
Definition tadd (a b : Totals) : Totals :=
  mkTotals (fx_add (t_realized a) (t_realized b)) (fx_add (t_unrealized a) (t_unrealized b)) (fx_add (t_fees a) (t_fees b))
    (fx_add (t_gross a) (t_gross b)) (fx_add (t_net a) (t_net b)).
Definition booked (t : PositionTracker) (i : InstrumentId) : Totals :=
  let p := pos_at t i in
  mkTotals (p_realized p) (p_unrealized p) (p_fees p) (fx_abs (exposure_at t i)) (exposure_at t i).

(** The bodies of the two loops over the instruments. *)
Definition book_funding (t : PositionTracker) (i : InstrumentId) : PositionTracker :=
  let c := ccy_at t i in t <| fund_native := <[c := fx_add (fund_native_at t c) (fund_at t i)]> (fund_native t) |>.
Definition book_native (t : PositionTracker) (i : InstrumentId) : PositionTracker :=
  let c := ccy_at t i in t <| native_ := <[c := tadd (native_at t c) (booked t i)]> (native_ t) |>.

(** [plan.count] and [plan.ccy]. *)
Definition set_accounting (count : Z) (ccy : gmap Z Z) (t : PositionTracker) : PositionTracker :=
  let t := changed t in
  let t := t <| ccy_count_ := count |> <| ccy_ := ccy |> <| rate_ := {[ 0 := identity_rate ]} |>
             <| native_ := ∅ |> <| conv_ := ∅ |> <| conv_total_ := no_totals |> <| fund_native := ∅ |> in
  if negb (converting t) then t
  else
    let t := fold_left book_funding instruments t in
    let t := fold_left book_native instruments t in
    reconvert 0 t.

Definition set_rate (c : Z) (r : FxRate) (t : PositionTracker) : PositionTracker :=
  if (c =? 0) || (kMaxCurrencies <=? c) then t
  else
    let t := changed t in
    let t := t <| rate_ := <[c := r]> (rate_ t) |> in
    reconvert c t.

(** ** Queries *)

Definition unrealized_at (t : PositionTracker) (i : InstrumentId) (mid : Price) (inst : Instrument) : Notional :=
  revalue (pos_at t i) mid inst.
Definition funding (t : PositionTracker) (i : InstrumentId) : Notional := fund_at t i.
Definition gross_exposure (t : PositionTracker) : Notional := if converting t then t_gross (conv_total_ t) else gross_exposure_ t.
Definition net_exposure (t : PositionTracker) : Notional := if converting t then t_net (conv_total_ t) else net_exposure_ t.
Definition total_realized (t : PositionTracker) : Notional := if converting t then t_realized (conv_total_ t) else realized_total_ t.
Definition total_unrealized (t : PositionTracker) : Notional := if converting t then t_unrealized (conv_total_ t) else unrealized_total_ t.
Definition total_fees (t : PositionTracker) : Notional := if converting t then t_fees (conv_total_ t) else fees_total_ t.
Definition total_funding (t : PositionTracker) : Notional :=
  if negb (converting t) then fund_total t
  else fold_left (fun s c => fx_add s (convert (fund_native_at t c) (rate_at t c))) (seqZ 0 (ccy_count_ t)) 0.
Definition native_funding (t : PositionTracker) (c : Z) : Notional := if c <? kMaxCurrencies then fund_native_at t c else 0.
Definition net_pnl (t : PositionTracker) : Notional := fx_sub (fx_add (total_realized t) (total_unrealized t)) (total_fees t).
