(* ===== verification/PositionProps.v ===== *)
(** * PositionProps: the totals of the position tracker cannot drift

    For each of the five totals (realized, unrealized, fees, gross and net
    exposure): the running total is the sum over all instruments, the total per
    settlement currency the sum over the instruments that settle in it, and the
    converted total the sum of those at the rates last set, in every state the
    operations can reach.  A fill moves a position by its signed quantity and
    conserves its value up to one rounding. *)

From S2P Require Import Prelude Types FixedPoint Instruments MapSum Position.

#[local] Arguments i64 : simpl never.
#[local] Arguments i128 : simpl never.
#[local] Arguments Z.ltb : simpl never.
#[local] Arguments Z.quot : simpl never.

Definition isum (v : Z -> Z) : Z := lsum v instruments.
Definition currencies : list Z := seqZ 0 kMaxCurrencies.
Definition csum (t : PositionTracker) (c : Z) (v : Z -> Z) : Z := isum (fun i => if ccy_at t i =? c then v i else 0).

Definition ptotal (t : PositionTracker) (f : field) : Z :=
  match f with
  | FRealized => realized_total_ t | FUnrealized => unrealized_total_ t | FFees => fees_total_ t
  | FGross => gross_exposure_ t | FNet => net_exposure_ t
  end.
(** What instrument [i] contributes to total [f]. *)
Definition fv (t : PositionTracker) (f : field) (i : InstrumentId) : Z := tget (booked t i) f.

(** The totals of field [f] sum the contributions [v]. *)
Record InvV (f : field) (t : PositionTracker) (v : Z -> Z) : Prop := {
  iv_total : ptotal t f = i64 (isum v);
  iv_native : converting t = true -> forall c, 0 <= c < kMaxCurrencies -> tget (native_at t c) f = i64 (csum t c v);
  iv_conv : converting t = true -> forall c, 0 <= c < kMaxCurrencies ->
    tget (conv_at t c) f = convert (tget (native_at t c) f) (rate_at t c);
  iv_conv_total : converting t = true -> tget (conv_total_ t) f = i64 (lsum (fun c => tget (conv_at t c) f) currencies);
}.

(** The fields [InvV] reads. *)
Record same (f : field) (t t' : PositionTracker) : Prop := {
  sm_total : ptotal t' f = ptotal t f;
  sm_count : ccy_count_ t' = ccy_count_ t;
  sm_ccy : ccy_ t' = ccy_ t;
  sm_rate : rate_ t' = rate_ t;
  sm_native : forall c, tget (native_at t' c) f = tget (native_at t c) f;
  sm_conv : forall c, tget (conv_at t' c) f = tget (conv_at t c) f;
  sm_conv_total : tget (conv_total_ t') f = tget (conv_total_ t) f;
}.

Lemma in_instruments i : i ∈ instruments <-> 0 <= i < kMaxInstruments.
Proof. unfold instruments. rewrite elem_of_seqZ. lia. Qed.
Lemma isum_ext v v' : (forall i, 0 <= i < kMaxInstruments -> v' i = v i) -> isum v' = isum v.
Proof.
  intros H. unfold isum, lsum. assert (Hf : forall i, i ∈ instruments -> v' i = v i) by (intros i Hi%in_instruments; auto).
  induction instruments as [|x l IH]; [done|]. cbn [foldr]. rewrite IH, Hf; [done | constructor |].
  intros i Hi. apply Hf. by constructor.
Qed.
Lemma isum_change v v' i : 0 <= i < kMaxInstruments -> (forall j, j <> i -> v' j = v j) -> isum v' = isum v - v i + v' i.
Proof. intros Hi H. apply lsum_change; [apply NoDup_seqZ | by apply in_instruments | auto]. Qed.

#[local] Opaque instruments.

Lemma framev f t t' v v' : InvV f t v -> same f t t' -> (forall i, 0 <= i < kMaxInstruments -> v' i = v i) -> InvV f t' v'.
Proof.
  intros [H1 H2 H3 H4] [S1 S2 S3 S4 S5 S6 S7] Hv.
  assert (Ec : converting t' = converting t) by (unfold converting; by rewrite S2).
  assert (Ecs : forall c, csum t' c v' = csum t c v).
  { intros c. apply isum_ext. intros i Hi. unfold ccy_at. rewrite S3. by rewrite Hv. }
  split; rewrite ?Ec.
  - by rewrite S1, H1, (isum_ext v v').
  - intros Hc c Hr. by rewrite S5, Ecs, H2.
  - intros Hc c Hr. unfold rate_at. rewrite S4, S5, S6. by apply H3.
  - intros Hc. rewrite S7, H4 by done. f_equal. apply lsum_ext. intros c. by rewrite S6.
Qed.

(** ** Booking *)

Lemma tget_tset t f g v : tget (tset t f v) g = if decide (f = g) then v else tget t g.
Proof. destruct f, g; reflexivity. Qed.

Lemma native_insert t n c c' : native_at (t <| native_ := <[c := n]> (native_ t) |>) c' = if c =? c' then n else native_at t c'.
Proof.
  unfold native_at. cbn. destruct (Z.eqb_spec c c') as [-> |]; [by rewrite lookup_insert_eq | by rewrite lookup_insert_ne].
Qed.
Lemma conv_insert t n c c' : conv_at (t <| conv_ := <[c := n]> (conv_ t) |>) c' = if c =? c' then n else conv_at t c'.
Proof.
  unfold conv_at. cbn. destruct (Z.eqb_spec c c') as [-> |]; [by rewrite lookup_insert_eq | by rewrite lookup_insert_ne].
Qed.

(** What [reconvert_field] leaves. *)
Lemma reconvert_field_spec c t f :
  let v := convert (tget (native_at t c) f) (rate_at t c) in
  let t' := reconvert_field c t f in
  native_ t' = native_ t /\ ccy_count_ t' = ccy_count_ t /\ ccy_ t' = ccy_ t /\ rate_ t' = rate_ t /\ pos_ t' = pos_ t /\
  exposure_ t' = exposure_ t /\ (forall g, ptotal t' g = ptotal t g) /\
  (forall c' g, tget (conv_at t' c') g = if (c =? c') && bool_decide (f = g) then v else tget (conv_at t c') g) /\
  (forall g, tget (conv_total_ t') g =
     if bool_decide (f = g) then fx_add (tget (conv_total_ t) f) (fx_sub v (tget (conv_at t c) f)) else tget (conv_total_ t) g) /\
  fund_total t' = fund_total t /\ fund_per t' = fund_per t /\ fund_native t' = fund_native t /\ changes_ t' = changes_ t.
Proof.
  cbv zeta. unfold reconvert_field. cbv zeta. do 6 (split; [done|]). split; [by intros []|]. split; [|split; [|done]].
  - intros c' g. rewrite conv_insert. destruct (Z.eqb_spec c c') as [<- |]; cbn [andb]; [|done].
    rewrite tget_tset. case_decide; [by rewrite bool_decide_true | by rewrite bool_decide_false].
  - intros g. cbn [conv_total_ fupd]. rewrite tget_tset. case_decide; [subst; by rewrite bool_decide_true | by rewrite bool_decide_false].
Qed.

Definition idx (i : InstrumentId) : Prop := 0 <= i < kMaxInstruments.
Definition ccy_ok (t : PositionTracker) : Prop := forall i, idx i -> 0 <= ccy_at t i < kMaxCurrencies.

Lemma csum_change t c v v' i : idx i -> (forall j, j <> i -> v' j = v j) ->
  csum t c v' = csum t c v + (if ccy_at t i =? c then v' i - v i else 0).
Proof.
  intros Hi Hv. unfold csum. rewrite (isum_change (fun i => if ccy_at t i =? c then v i else 0)
    (fun i => if ccy_at t i =? c then v' i else 0) i Hi); [case_if; lia|].
  intros j Hj. by rewrite Hv.
Qed.

(** The rest of the state [book] leaves alone. *)
Record book_frame (t t' : PositionTracker) : Prop := {
  bf_pos : pos_ t' = pos_ t;
  bf_exp : exposure_ t' = exposure_ t;
  bf_count : ccy_count_ t' = ccy_count_ t;
  bf_ccy : ccy_ t' = ccy_ t;
  bf_rate : rate_ t' = rate_ t;
  bf_total : forall g, ptotal t' g = ptotal t g;
  bf_fund : fund_total t' = fund_total t /\ fund_per t' = fund_per t /\ fund_native t' = fund_native t;
}.

Lemma book_frames i f d t : book_frame t (book i f d t).
Proof.
  unfold book. case_if; [|done]. unfold book_converted. cbv zeta.
  match goal with |- book_frame _ (reconvert_field ?c ?t1 f) =>
    destruct (reconvert_field_spec c t1 f) as (_ & H2 & H3 & H4 & H5 & H6 & H7 & _ & _ & H8 & H9 & H10 & _) end.
  by split.
Qed.

(** [book] leaves the other totals alone. *)
Lemma book_other i f d t g : f <> g -> same g t (book i f d t).
Proof.
  intros Hfg. destruct (book_frames i f d t). split; try done; unfold book; case_if; try done; unfold book_converted; cbv zeta;
    match goal with |- context [reconvert_field ?c ?t1 f] =>
      destruct (reconvert_field_spec c t1 f) as (H1 & _ & _ & _ & _ & _ & _ & H8 & H9 & _) end.
  - intros c. unfold native_at at 1. rewrite H1. fold (native_at (t <| native_ := <[ccy_at t i := tset (native_at t (ccy_at t i)) f
      (fx_add (tget (native_at t (ccy_at t i)) f) d)]> (native_ t) |>) c).
    rewrite native_insert. case_if; [|done]. rewrite tget_tset, decide_False by done.
    assert (c = ccy_at t i) as -> by lia. done.
  - intros c. rewrite H8. rewrite (bool_decide_false (f = g)) by done. by rewrite andb_false_r.
  - rewrite H9. by rewrite (bool_decide_false (f = g)).
Qed.

Lemma lsum_currencies v v' c : 0 <= c < kMaxCurrencies -> (forall j, j <> c -> v' j = v j) ->
  lsum v' currencies = lsum v currencies - v c + v' c.
Proof.
  intros Hc H. apply lsum_change; [apply NoDup_seqZ | unfold currencies; apply elem_of_seqZ; lia | auto].
Qed.

(** A change [d] of one instrument's contribution, added to the total and booked. *)
Lemma bookv f t t' v v' i d : InvV f t v -> ccy_ok t -> idx i -> (forall j, j <> i -> v' j = v j) ->
  v' i =64 v i + d -> ptotal t' f = i64 (ptotal t f + d) ->
  ccy_count_ t' = ccy_count_ t -> ccy_ t' = ccy_ t -> rate_ t' = rate_ t ->
  (forall c, tget (native_at t' c) f = tget (native_at (book i f d t) c) f) ->
  (forall c, tget (conv_at t' c) f = tget (conv_at (book i f d t) c) f) ->
  tget (conv_total_ t') f = tget (conv_total_ (book i f d t)) f -> InvV f t' v'.
Proof.
  intros [H1 H2 H3 H4] Hcc Hi Hv Hd Ht E1 E2 E3 En Ec Et.
  assert (Econ : converting t' = converting t) by (unfold converting; by rewrite E1).
  set (c0 := ccy_at t i) in *. pose proof (Hcc i Hi) as Hc0. fold c0 in Hc0.
  assert (Ecs : forall c, csum t' c v' = csum t c v + (if c0 =? c then v' i - v i else 0)).
  { intros c. pose proof (csum_change t c v v' i Hi Hv) as E. fold c0 in E. rewrite <- E. apply isum_ext. intros j Hj. unfold ccy_at. by rewrite E2. }
  assert (Hb : converting t = true -> book i f d t = book_converted i f d t) by (intros H; unfold book; by rewrite H).
  set (n := fx_add (tget (native_at t c0) f) d) in *.
  set (t1 := t <| native_ := <[c0 := tset (native_at t c0) f n]> (native_ t) |>) in *.
  assert (Hn1 : forall c, tget (native_at t1 c) f = if c0 =? c then n else tget (native_at t c) f).
  { intros c. unfold t1. rewrite native_insert. destruct (Z.eqb_spec c0 c) as [<- |]; [|done]. by rewrite tget_tset, decide_True. }
  destruct (reconvert_field_spec c0 t1 f) as (R1 & _ & _ & R4 & _ & _ & _ & R8 & R9 & _). cbv zeta in R8, R9.
  assert (Hn : converting t = true -> forall c, tget (native_at t' c) f = if c0 =? c then n else tget (native_at t c) f).
  { intros Hc c. rewrite En, (Hb Hc). unfold book_converted. cbv zeta. fold c0 n t1.
    rewrite <- Hn1. unfold native_at at 1. by rewrite R1. }
  assert (Hcv : converting t = true -> forall c, tget (conv_at t' c) f = if c0 =? c then convert n (rate_at t c0) else tget (conv_at t c) f).
  { intros Hc c. rewrite Ec, (Hb Hc). unfold book_converted. cbv zeta. fold c0 n t1. rewrite R8, (bool_decide_true (f = f)) by done.
    rewrite andb_true_r, Hn1, Z.eqb_refl. done. }
  split; rewrite ?Econ.
  - rewrite Ht, H1. rewrite (isum_change v v' i Hi Hv). apply i64_proper. rewrite i64_eq64, Hd. apply eq64_diff. exists 0. lia.
  - intros Hc c Hr. rewrite Hn, Ecs by done. destruct (Z.eqb_spec c0 c) as [<- |]; [|rewrite H2 by done; f_equal; lia].
    unfold n, fx_add. rewrite H2 by done. apply i64_proper. rewrite i64_eq64, Hd. apply eq64_diff. exists 0. lia.
  - intros Hc c Hr. rewrite Hcv, Hn by done. unfold rate_at. rewrite E3.
    destruct (Z.eqb_spec c0 c) as [<- |]; [done | by apply H3].
  - intros Hc. rewrite Et, (Hb Hc). unfold book_converted. cbv zeta. fold c0 n t1. rewrite R9, (bool_decide_true (f = f)) by done.
    rewrite Hn1, Z.eqb_refl. change (conv_total_ t1) with (conv_total_ t). change (conv_at t1 c0) with (conv_at t c0).
    change (rate_at t1 c0) with (rate_at t c0). rewrite H4 by done.
    rewrite (lsum_currencies (fun c => tget (conv_at t c) f) (fun c => tget (conv_at t' c) f) c0 Hc0).
    + rewrite (Hcv Hc c0), Z.eqb_refl. unfold fx_add, fx_sub. apply i64_proper. rewrite !i64_eq64. apply eq64_diff. exists 0. lia.
    + intros j Hj. rewrite (Hcv Hc j). destruct (Z.eqb_spec c0 j); [congruence | done].
Qed.

(** ** The invariant and the operations *)

Definition fund_inv (t : PositionTracker) : Prop :=
  fund_total t = i64 (isum (fund_at t)) /\
  (converting t = true -> forall c, 0 <= c < kMaxCurrencies -> fund_native_at t c = i64 (csum t c (fund_at t))).

Record Inv (t : PositionTracker) : Prop := {
  in_fields : forall f, InvV f t (fv t f);
  in_ccy : ccy_ok t;
  in_fund : fund_inv t;
}.

(** The state but for positions, exposures and plain totals. *)
Record parts (t t' : PositionTracker) : Prop := {
  pa_count : ccy_count_ t' = ccy_count_ t;
  pa_ccy : ccy_ t' = ccy_ t;
  pa_rate : rate_ t' = rate_ t;
  pa_native : native_ t' = native_ t;
  pa_conv : conv_ t' = conv_ t;
  pa_conv_total : conv_total_ t' = conv_total_ t;
  pa_fund : fund_total t' = fund_total t /\ fund_per t' = fund_per t /\ fund_native t' = fund_native t;
}.
#[local] Instance parts_equiv : Equivalence parts.
Proof. split; [by split | intros x y [? ? ? ? ? ? (?&?&?)]; by split | intros x y z [? ? ? ? ? ? (?&?&?)] [? ? ? ? ? ? (?&?&?)]; split; try congruence; split; [congruence|]; split; congruence]. Qed.

(** [book] reads and writes only those. *)
#[local] Instance book_parts i f d : Proper (parts ==> parts) (book i f d).
Proof.
  intros t0 t [E1 E2 E3 E4 E5 E6 (E7 & E8 & E9)]. destruct t0, t. cbn in *. subst. unfold book, converting. cbn. by case_if.
Qed.

Lemma pos_set t i p j : pos_at (set_pos t i p) j = if i =? j then p else pos_at t j.
Proof.
  unfold pos_at, set_pos. cbn. destruct (Z.eqb_spec i j) as [-> |]; [by rewrite lookup_insert_eq | by rewrite lookup_insert_ne].
Qed.
Lemma exposure_set t i e j : exposure_at (t <| exposure_ := <[i := e]> (exposure_ t) |>) j = if i =? j then e else exposure_at t j.
Proof.
  unfold exposure_at. cbn. destruct (Z.eqb_spec i j) as [-> |]; [by rewrite lookup_insert_eq | by rewrite lookup_insert_ne].
Qed.

Lemma fund_frame t t' : fund_inv t -> parts t t' -> fund_inv t'.
Proof.
  intros [H1 H2] [E4 E5 _ _ _ _ (E1 & E2 & E3)].
  unfold fund_inv, converting, csum, fund_native_at, fund_at, ccy_at. rewrite E1, E2, E3, E4, E5. done.
Qed.
Lemma ccy_frame t t' : ccy_ok t -> parts t t' -> ccy_ok t'.
Proof. intros H [_ E _ _ _ _ _] j Hj. unfold ccy_at. rewrite E. by apply H. Qed.
Lemma parts_same f t t' : parts t t' -> ptotal t' f = ptotal t f -> same f t t'.
Proof.
  intros [E1 E2 E3 E4 E5 E6 _] Et.
  split; try done; [intros c; unfold native_at; by rewrite E4 | intros c; unfold conv_at; by rewrite E5 | by rewrite E6].
Qed.
Lemma book_parts_fund i f d t : fund_inv t -> fund_inv (book i f d t) /\ (ccy_ok t -> ccy_ok (book i f d t)).
Proof.
  intros [H1 H2]. destruct (book_frames i f d t) as [_ _ E4 E5 _ _ (E1 & E2 & E3)].
  unfold fund_inv, ccy_ok, converting, csum, fund_native_at, fund_at, ccy_at. rewrite E1, E2, E3, E4, E5. done.
Qed.

(** A contribution moved by [d] in one total, which was added to it and booked. *)
Lemma move_field t t' v v' i f d : InvV f t v -> ccy_ok t -> idx i -> parts (book i f d t) t' ->
  ptotal t' f = i64 (ptotal t f + d) -> (forall j, j <> i -> v' j = v j) -> v' i =64 v i + d -> InvV f t' v'.
Proof.
  intros Hf Hc Hi [E1 E2 E3 E4 E5 E6 _] Ht Hj Hd. destruct (book_frames i f d t) as [_ _ B3 B4 B5 _ _].
  apply (bookv f t _ v _ i d Hf Hc Hi Hj Hd); [done|congruence|congruence|congruence| | |].
  - intros c. unfold native_at. by rewrite E4.
  - intros c. unfold conv_at. by rewrite E5.
  - by rewrite E6.
Qed.
(** The other totals while one is booked. *)
Lemma keep_field t t' v v' i f d g : InvV g t v -> f <> g -> parts (book i f d t) t' -> ptotal t' g = ptotal t g ->
  (forall j, idx j -> v' j = v j) -> InvV g t' v'.
Proof.
  intros Hg Hne [E1 E2 E3 E4 E5 E6 _] Ht Hv. destruct (book_frames i f d t) as [_ _ B3 B4 B5 _ _].
  apply (framev g t _ v); [done | | done]. destruct (book_other i f d t g Hne) as [_ _ _ _ S5 S6 S7].
  split; [done|congruence|congruence|congruence| | |].
  - intros c. rewrite <- S5. unfold native_at. by rewrite E4.
  - intros c. rewrite <- S6. unfold conv_at. by rewrite E5.
  - by rewrite E6, <- S7.
Qed.

Lemma inv_book t t' i f d : Inv t -> idx i -> parts (book i f d t) t' ->
  ptotal t' f = i64 (ptotal t f + d) -> (forall g, g <> f -> ptotal t' g = ptotal t g) ->
  (forall g, g <> f -> forall j, idx j -> fv t' g j = fv t g j) ->
  (forall j, j <> i -> fv t' f j = fv t f j) -> fv t' f i =64 fv t f i + d -> Inv t'.
Proof.
  intros [Hf Hc Hu] Hi Hp Ef Eo Hg Hj Hd. destruct (book_parts_fund i f d t Hu) as [Hu' Hc']. split.
  - intros g. destruct (decide (g = f)) as [-> |Hne].
    + by apply (move_field t _ (fv t f) _ i f d).
    + apply (keep_field t _ (fv t g) _ i f d); auto.
  - apply (ccy_frame (book i f d t)); auto.
  - by apply (fund_frame (book i f d t)).
Qed.

(** A state that differs in nothing the totals read. *)
Lemma inv_frame t t' : Inv t -> parts t t' -> (forall f, ptotal t' f = ptotal t f) ->
  (forall f j, idx j -> fv t' f j = fv t f j) -> Inv t'.
Proof.
  intros [Hf Hc Hu] Hp Et Hv. split.
  - intros f. apply (framev f t _ (fv t f)); [done | by apply parts_same | by apply Hv].
  - by apply (ccy_frame t).
  - by apply (fund_frame t).
Qed.

Lemma changed_inv t : Inv t -> Inv (changed t).
Proof. intros H. by apply (inv_frame t). Qed.

Lemma set_pos_inv t i p : Inv t -> p_realized p = p_realized (pos_at t i) -> p_unrealized p = p_unrealized (pos_at t i) ->
  p_fees p = p_fees (pos_at t i) -> Inv (set_pos t i p).
Proof.
  intros H E1 E2 E3. apply (inv_frame t); try done. intros f j Hj. unfold fv, booked. rewrite pos_set.
  destruct (Z.eqb_spec i j) as [<- |]; [|done]. by destruct f; cbn.
Qed.

(** The contributions after a position, or an exposure, was written. *)
Lemma fv_pos t t' i p : pos_ t' = <[i := p]> (pos_ t) -> exposure_ t' = exposure_ t -> forall f j,
  fv t' f j = if i =? j then tget (mkTotals (p_realized p) (p_unrealized p) (p_fees p) (fx_abs (exposure_at t i)) (exposure_at t i)) f
              else fv t f j.
Proof.
  intros E1 E2 f j. assert (Ep : pos_at t' j = pos_at (set_pos t i p) j) by (unfold pos_at; by rewrite E1).
  unfold fv, booked. unfold exposure_at at 1 2. rewrite Ep, E2, pos_set. fold (exposure_at t j). destruct (Z.eqb_spec i j) as [<- |]; done.
Qed.

Lemma book_pos i f d t : pos_ (book i f d t) = pos_ t /\ exposure_ (book i f d t) = exposure_ t /\ forall g, ptotal (book i f d t) g = ptotal t g.
Proof. by destruct (book_frames i f d t). Qed.

(** Adding [d] to a position's own total, to the tracker's, and booking it. *)
Lemma inv_add t t' i f d p : Inv t -> idx i -> parts (book i f d t) t' -> pos_ t' = <[i := p]> (pos_ t) -> exposure_ t' = exposure_ t ->
  ptotal t' f = i64 (ptotal t f + d) -> (forall g, g <> f -> ptotal t' g = ptotal t g) ->
  let b := mkTotals (p_realized p) (p_unrealized p) (p_fees p) (fx_abs (exposure_at t i)) (exposure_at t i) in
  tget b f =64 fv t f i + d -> (forall g, g <> f -> tget b g = fv t g i) -> Inv t'.
Proof.
  intros H Hi Hp Ep Ee Ef Eo b Hd Hg. pose proof (fv_pos t t' i p Ep Ee) as Hv.
  apply (inv_book t t' i f d H Hi Hp Ef Eo).
  - intros g Hne j Hj. rewrite Hv. destruct (Z.eqb_spec i j) as [<- |]; [by apply Hg | done].
  - intros j Hj. rewrite Hv. destruct (Z.eqb_spec i j); [congruence | done].
  - rewrite Hv, Z.eqb_refl. exact Hd.
Qed.

Lemma add_realized_inv t i d : Inv t -> idx i -> Inv (add_realized i d t).
Proof.
  intros H Hi. unfold add_realized. cbv zeta. set (t0 := _ <| realized_total_ ::= _ |>).
  destruct (book_pos i FRealized d t0) as (B1 & B2 & B3).
  apply (inv_add t _ i FRealized d ((pos_at t i) <| p_realized ::= fun x => fx_add x d |>)); try done.
  - by apply book_parts.
  - intros g Hg. rewrite B3. by destruct g.
  - cbn. apply i64_eq64.
  - intros g Hg. by destruct g.
Qed.
Lemma add_fees_inv t i d : Inv t -> idx i -> Inv (add_fees i d t).
Proof.
  intros H Hi. unfold add_fees. cbv zeta. set (t0 := _ <| fees_total_ ::= _ |>).
  destruct (book_pos i FFees d t0) as (B1 & B2 & B3).
  apply (inv_add t _ i FFees d ((pos_at t i) <| p_fees ::= fun x => fx_add x d |>)); try done.
  - by apply book_parts.
  - intros g Hg. rewrite B3. by destruct g.
  - cbn. apply i64_eq64.
  - intros g Hg. by destruct g.
Qed.
Lemma set_unrealized_inv t i u : Inv t -> idx i -> Inv (set_unrealized i u t).
Proof.
  intros H Hi. unfold set_unrealized. cbv zeta. set (d := fx_sub u _). set (t0 := _ <| unrealized_total_ ::= _ |>).
  destruct (book_pos i FUnrealized d t0) as (B1 & B2 & B3).
  apply (inv_add t _ i FUnrealized d ((pos_at t i) <| p_unrealized := u |>)); try done.
  - transitivity (book i FUnrealized d t0); [by apply book_parts | by split].
  - unfold set_pos. cbn. by rewrite B1.
  - exact (B3 FUnrealized).
  - intros g Hg. transitivity (ptotal t0 g); [rewrite <- B3; by destruct g | by destruct g].
  - cbn. unfold d, fx_sub. rewrite i64_eq64. unfold fv, booked. cbn. apply eq64_diff. exists 0. lia.
  - intros g Hg. by destruct g.
Qed.

(** An exposure written, with both exposure totals: [x] is the state once the gross one is booked. *)
Lemma set_exposure_inv t i e : Inv t -> idx i -> Inv (set_exposure i e t).
Proof.
  intros [Hf Hc Hu] Hi. set (cur := exposure_at t i). set (dg := fx_sub (fx_abs e) (fx_abs cur)). set (dn := fx_sub e cur).
  set (t0 := t <| gross_exposure_ ::= fun x => fx_add x dg |> <| net_exposure_ ::= fun x => fx_add x dn |>).
  set (t2 := book i FNet dn (book i FGross dg t0)). set (t' := t2 <| exposure_ := <[i := e]> (exposure_ t2) |>).
  change (set_exposure i e t) with t'.
  destruct (book_pos i FGross dg t0) as (B1 & B2 & B3). destruct (book_pos i FNet dn (book i FGross dg t0)) as (D1 & D2 & D3). fold t2 in D1, D2, D3.
  assert (Hv : forall f j, fv t' f j = if i =? j then tget (mkTotals (p_realized (pos_at t i)) (p_unrealized (pos_at t i)) (p_fees (pos_at t i))
      (fx_abs e) e) f else fv t f j).
  { assert (Ep : pos_ t' = pos_ t) by (change (pos_ t') with (pos_ t2); by rewrite D1, B1).
    assert (Ee : exposure_ t' = <[i := e]> (exposure_ t)) by (change (exposure_ t') with (<[i := e]> (exposure_ t2)); by rewrite D2, B2).
    intros f j. unfold fv, booked, pos_at, exposure_at. rewrite Ep, Ee.
    destruct (Z.eqb_spec i j) as [<- |]; [by rewrite lookup_insert_eq | by rewrite lookup_insert_ne]. }
  assert (Et : forall f, ptotal t' f = ptotal t0 f) by (intros f; transitivity (ptotal t2 f); [by destruct f | by rewrite D3, B3]).
  set (s1 := book i FGross dg t). set (x := s1 <| gross_exposure_ ::= fun x => fx_add x dg |>).
  destruct (book_pos i FGross dg t) as (_ & _ & G3). fold s1 in G3.
  assert (Px : parts s1 x) by by split. assert (Ex : forall f, f <> FGross -> ptotal x f = ptotal t f) by (intros f Hn; rewrite <- G3; by destruct f).
  assert (Pt : parts (book i FNet dn x) t').
  { transitivity t2; [|by split]. apply book_parts. symmetry. transitivity s1; [|done]. by apply book_parts. }
  set (vg := fun j => if i =? j then fx_abs e else fv t FGross j).
  assert (Hg : InvV FGross x vg).
  { apply (move_field t _ (fv t FGross) _ i FGross dg); try done.
    - change (ptotal x FGross) with (fx_add (ptotal s1 FGross) dg). by rewrite G3.
    - intros j Hj. unfold vg. destruct (Z.eqb_spec i j); [congruence | done].
    - unfold vg, dg, fx_sub. rewrite Z.eqb_refl, i64_eq64. unfold fv, booked. cbn. fold cur. apply eq64_diff. exists 0. lia. }
  assert (Ho : forall f, f <> FGross -> InvV f x (fv t f)) by (intros f Hn; apply (keep_field t _ (fv t f) _ i FGross dg); auto).
  destruct (book_parts_fund i FGross dg t Hu) as [Hu1 Hc1]. pose proof (fund_frame _ _ Hu1 Px) as Hux.
  pose proof (ccy_frame _ _ (Hc1 Hc) Px) as Hcx. destruct (book_parts_fund i FNet dn x Hux) as [Hu2 Hc2]. split.
  - intros f. destruct (decide (f = FNet)) as [-> |Hn]; [|destruct (decide (f = FGross)) as [-> |Hg2]].
    + apply (move_field x _ (fv t FNet) _ i FNet dn); auto.
      * rewrite Et, Ex by done. done.
      * intros j Hj. rewrite Hv. destruct (Z.eqb_spec i j); [congruence | done].
      * rewrite Hv, Z.eqb_refl. unfold dn, fx_sub. rewrite i64_eq64. unfold fv, booked. cbn. fold cur. apply eq64_diff. exists 0. lia.
    + apply (keep_field x _ vg _ i FNet dn); auto.
      rewrite Et. change (ptotal x FGross) with (fx_add (ptotal s1 FGross) dg). by rewrite G3.
    + apply (keep_field x _ (fv t f) _ i FNet dn); auto.
      * rewrite Et, Ex by done. by destruct f.
      * intros j Hj. rewrite Hv. destruct (Z.eqb_spec i j) as [<- |]; [by destruct f | done].
  - apply (ccy_frame (book i FNet dn x)); auto.
  - by apply (fund_frame (book i FNet dn x)).
Qed.

Lemma set_pos_core t i p : parts t (set_pos t i p) /\ exposure_ (set_pos t i p) = exposure_ t.
Proof. split; [by split | done]. Qed.

Lemma pos_set_same t i p : pos_at (set_pos t i p) i = p.
Proof. by rewrite pos_set, Z.eqb_refl. Qed.

Lemma mark_inv t i mid inst : Inv t -> idx i -> Inv (mark i mid inst t).
Proof.
  intros H Hi. unfold mark. cbv zeta. apply set_exposure_inv; [|done]. apply set_unrealized_inv; [|done].
  by apply set_pos_inv.
Qed.

Lemma fill_inv t i side px qty fee inst : Inv t -> idx i -> Inv (on_fill i side px qty fee inst t).
Proof.
  intros H Hi. unfold on_fill. cbv zeta. set (f := match side with Buy => qty | Sell => _ end).
  set (t1 := add_fees i fee (changed t)). assert (H1 : Inv t1) by (apply add_fees_inv; [by apply changed_inv | done]).
  set (t2 := set_pos t1 i _). assert (H2 : Inv t2) by by apply set_pos_inv.
  assert (Hfin : forall t3, Inv t3 -> Inv (if 0 <? p_last_mark (pos_at t3 i) then mark i (p_last_mark (pos_at t3 i)) inst t3
    else set_exposure i (signed_notional (pos_at t3 i) px inst) t3)).
  { intros t3 H3. case_if; [by apply mark_inv | by apply set_exposure_inv]. }
  apply Hfin. case_if; [by apply set_pos_inv|].
  match goal with |- context [add_realized i ?d t2] => set (t3 := add_realized i d t2); assert (H3 : Inv t3) by by apply add_realized_inv end.
  case_if; by apply set_pos_inv.
Qed.

Lemma correct_fill_inv t i side est px qty fee inst : Inv t -> idx i -> Inv (correct_fill i side est px qty fee inst t).
Proof.
  intros H Hi. unfold correct_fill. cbv zeta. apply add_fees_inv; [|done]. apply add_realized_inv; [|done]. by apply changed_inv.
Qed.

Lemma set_inv t i qty avg inst : Inv t -> idx i -> Inv (set i qty avg inst t).
Proof.
  intros H Hi. unfold set. cbv zeta. apply set_exposure_inv; [|done]. apply set_unrealized_inv; [|done].
  apply set_pos_inv; try done. by apply changed_inv.
Qed.

(** ** Funding *)

Lemma fund_at_insert t i x j : default 0 (<[i := x]> (fund_per t) !! j) = if i =? j then x else fund_at t j.
Proof.
  destruct (Z.eqb_spec i j) as [-> |]; [by rewrite lookup_insert_eq | by rewrite lookup_insert_ne].
Qed.
Lemma fund_native_insert t c x j : default 0 (<[c := x]> (fund_native t) !! j) = if c =? j then x else fund_native_at t j.
Proof.
  destruct (Z.eqb_spec c j) as [-> |]; [by rewrite lookup_insert_eq | by rewrite lookup_insert_ne].
Qed.

(** Funding of one instrument moved by [d], with its totals. *)
Lemma fund_move t t' i d : fund_inv t -> ccy_ok t -> idx i -> ccy_count_ t' = ccy_count_ t -> ccy_ t' = ccy_ t ->
  (forall j, j <> i -> fund_at t' j = fund_at t j) -> fund_at t' i =64 fund_at t i + d ->
  fund_total t' = i64 (fund_total t + d) ->
  (converting t = true -> forall c, fund_native_at t' c = if ccy_at t i =? c then i64 (fund_native_at t c + d) else fund_native_at t c) ->
  fund_inv t'.
Proof.
  intros [H1 H2] Hc Hi E1 E2 Hj Hd Ht Hn. split.
  - rewrite Ht, H1, (isum_change _ _ i Hi Hj). apply i64_proper. rewrite i64_eq64, Hd. apply eq64_diff. exists 0. lia.
  - intros Hcv c Hr. assert (Hcv' : converting t = true) by (unfold converting in *; by rewrite <- E1). rewrite Hn, H2 by done.
    assert (Ecs : csum t' c (fund_at t') = csum t c (fund_at t')) by (apply isum_ext; intros j _; unfold ccy_at; by rewrite E2).
    rewrite Ecs, (csum_change t c (fund_at t) (fund_at t') i Hi Hj). case_if; [|f_equal; lia].
    apply i64_proper. rewrite i64_eq64, Hd. apply eq64_diff. exists 0. lia.
Qed.

Lemma on_funding_inv t i a : Inv t -> idx i -> Inv (on_funding i a t).
Proof.
  intros H Hi. unfold on_funding. cbv zeta. set (t1 := add_realized i a (changed t)).
  assert (H1 : Inv t1) by (apply add_realized_inv; [by apply changed_inv | done]). clearbody t1. destruct H1 as [Hf Hc Hu].
  assert (Hgo : forall t', fund_per t' = <[i := fx_add (fund_at t1 i) a]> (fund_per t1) -> fund_total t' = fx_add (fund_total t1) a ->
    (converting t1 = true -> forall c, fund_native_at t' c = if ccy_at t1 i =? c then i64 (fund_native_at t1 c + a) else fund_native_at t1 c) ->
    ccy_count_ t' = ccy_count_ t1 -> ccy_ t' = ccy_ t1 -> (forall f, same f t1 t') -> pos_ t' = pos_ t1 -> exposure_ t' = exposure_ t1 -> Inv t').
  { intros t' E1 E2 E3 E4 E5 Hs E6 E7. split.
    - intros f. apply (framev f t1 _ (fv t1 f)); [done | done |]. intros j _. unfold fv, booked, pos_at, exposure_at. by rewrite E6, E7.
    - intros j Hj. unfold ccy_at. rewrite E5. by apply Hc.
    - apply (fund_move t1 t' i a); try done; unfold fund_at; rewrite E1.
      + intros j Hj. rewrite lookup_insert_ne by congruence. done.
      + rewrite lookup_insert_eq. cbn. apply i64_eq64. }
  case_if.
  - apply Hgo; try done.
    intros _ c. unfold fund_native_at at 1. cbn [fund_native fupd]. rewrite fund_native_insert.
    match goal with |- context [ccy_at ?x i] => change (ccy_at x i) with (ccy_at t1 i) end.
    destruct (Z.eqb_spec (ccy_at t1 i) c) as [<- |]; done.
  - apply Hgo; try done. intros Hcv. exfalso.
    unfold converting in *. cbn in *. congruence.
Qed.

(** ** Reset *)

Lemma book_pos_comm i f d t m : book i f d (t <| pos_ := m |>) = (book i f d t) <| pos_ := m |>.
Proof. unfold book, converting. cbn. case_if; reflexivity. Qed.

Lemma pos_pos (t : PositionTracker) a b : t <| pos_ := a |> <| pos_ := b |> = t <| pos_ := b |>.
Proof. reflexivity. Qed.

(** What follows the last write of a position does not depend on it but for its unrealized PnL. *)
Lemma reset_tail i u e q p0 t : p_unrealized p0 = p_unrealized (pos_at t i) ->
  set_pos (set_exposure i e (set_unrealized i u t)) i q =
  set_pos (set_exposure i e (set_unrealized i u (set_pos t i p0))) i q.
Proof.
  intros Hp. unfold set_unrealized. cbv zeta. rewrite (pos_set_same t i p0), Hp. set (d := fx_sub u _).
  assert (Hex : forall t m, set_exposure i e (t <| pos_ := m |>) = (set_exposure i e t) <| pos_ := m |>).
  { intros s m. unfold set_exposure. cbv zeta. change (exposure_at (s <| pos_ := m |>) i) with (exposure_at s i).
    match goal with |- context [book i FGross ?dg (_ <| gross_exposure_ ::= ?a |> <| net_exposure_ ::= ?b |>)] =>
      change (s <| pos_ := m |> <| gross_exposure_ ::= a |> <| net_exposure_ ::= b |>) with
        ((s <| gross_exposure_ ::= a |> <| net_exposure_ ::= b |>) <| pos_ := m |>) end.
    by rewrite !book_pos_comm. }
  unfold set_pos.
  change (t <| pos_ := <[i := p0]> (pos_ t) |> <| unrealized_total_ ::= fun x => fx_add x d |>) with
    ((t <| unrealized_total_ ::= fun x => fx_add x d |>) <| pos_ := <[i := p0]> (pos_ t) |>).
  rewrite book_pos_comm, !Hex. cbn [pos_ fupd].
  destruct (book_pos i FUnrealized d (t <| unrealized_total_ ::= fun x => fx_add x d |>)) as (Eb & _ & _). rewrite Eb. cbn [pos_ fupd].
  change (pos_ (t <| unrealized_total_ ::= fun x => fx_add x d |>)) with (pos_ t).
  rewrite !insert_insert_eq. rewrite !pos_pos. done.
Qed.

Lemma sub_inverse x r : fx_sub x r = i64 (x + fx_sub 0 r).
Proof. unfold fx_sub. apply i64_proper. rewrite i64_eq64. apply eq64_diff. exists 0. lia. Qed.

Lemma set_exposure_pos i e t : pos_ (set_exposure i e t) = pos_ t.
Proof.
  unfold set_exposure. cbv zeta. cbn [pos_ fupd].
  match goal with |- pos_ (book i FNet ?dn (book i FGross ?dg ?t0)) = _ =>
    destruct (book_pos i FGross dg t0) as (E1 & _); destruct (book_pos i FNet dn (book i FGross dg t0)) as (E2 & _) end.
  by rewrite E2, E1.
Qed.
Lemma set_unrealized_pos i u t : pos_ (set_unrealized i u t) = <[i := (pos_at t i) <| p_unrealized := u |>]> (pos_ t).
Proof.
  unfold set_unrealized. cbv zeta. unfold set_pos. cbn [pos_ fupd].
  match goal with |- context [book i FUnrealized ?d ?t0] => destruct (book_pos i FUnrealized d t0) as (E & _) end. by rewrite E.
Qed.

Lemma reset_inv t i : Inv t -> idx i -> Inv (reset i t).
Proof.
  intros H Hi. apply changed_inv in H. unfold reset. cbv zeta. generalize dependent (changed t). clear t. intros t [Hf Hc Hu].
  set (p := pos_at t i). set (t2 := book i FRealized _ (t <| realized_total_ ::= _ |>)).
  set (t3 := book i FFees _ (t2 <| fees_total_ ::= _ |>)).
  destruct (book_pos i FRealized (fx_sub 0 (p_realized p)) (t <| realized_total_ ::= fun x => fx_sub x (p_realized p) |>)) as (A1 & A2 & A3).
  destruct (book_pos i FFees (fx_sub 0 (p_fees p)) (t2 <| fees_total_ ::= fun x => fx_sub x (p_fees p) |>)) as (B1 & B2 & B3).
  fold t2 in A1, A2, A3. fold t3 in B1, B2, B3. change (pos_ t2 = pos_ t) in A1. change (pos_ t3 = pos_ t2) in B1.
  change (exposure_ t2 = exposure_ t) in A2. change (exposure_ t3 = exposure_ t2) in B2.
  set (p0 := p <| p_realized := 0 |> <| p_fees := 0 |>).
  assert (P2 : parts (book i FRealized (fx_sub 0 (p_realized p)) t) t2) by by apply book_parts.
  assert (P3 : parts (book i FFees (fx_sub 0 (p_fees p)) t2) t3) by by apply book_parts.
  destruct (book_parts_fund i FRealized (fx_sub 0 (p_realized p)) t Hu) as [Hu2 Hc2].
  assert (Hcc2 : ccy_ok t2) by by apply (ccy_frame _ _ (Hc2 Hc)).
  assert (Hfu2 : fund_inv t2) by by apply (fund_frame _ _ Hu2).
  destruct (book_parts_fund i FFees (fx_sub 0 (p_fees p)) t2 Hfu2) as [Hu3 Hc3].
  assert (Hcc3 : ccy_ok t3) by by apply (ccy_frame _ _ (Hc3 Hcc2)).
  assert (Hfu3 : fund_inv t3) by by apply (fund_frame _ _ Hu3).
  assert (H3 : Inv (set_pos t3 i p0)).
  { assert (Hv : forall f j, fv (set_pos t3 i p0) f j = if i =? j then tget (mkTotals 0 (p_unrealized p) 0 (fx_abs (exposure_at t i)) (exposure_at t i)) f
       else fv t f j).
    { intros f j. rewrite (fv_pos t (set_pos t3 i p0) i p0); [done | unfold set_pos; cbn [pos_ fupd]; by rewrite B1, A1 | unfold set_pos; cbn [exposure_ fupd]; by rewrite B2, A2]. }
    set (w := fun (f : field) (j : Z) => if (i =? j) && bool_decide (f = FRealized) then 0 else fv t f j).
    assert (H2 : forall f, InvV f t2 (w f)).
    { intros f. destruct (decide (f = FRealized)) as [-> |Hne].
      - apply (move_field t _ (fv t FRealized) _ i FRealized (fx_sub 0 (p_realized p))); try done.
        + rewrite A3. apply sub_inverse.
        + intros j Hj. unfold w. destruct (Z.eqb_spec i j); [congruence | done].
        + unfold w. rewrite Z.eqb_refl. cbn [andb]. rewrite bool_decide_true by done. unfold fx_sub. rewrite i64_eq64.
          unfold fv, booked. cbn. fold p. apply eq64_diff. exists 0. lia.
      - apply (keep_field t _ (fv t f) _ i FRealized (fx_sub 0 (p_realized p))); auto.
        + rewrite A3. by destruct f.
        + intros j Hj. unfold w. rewrite (bool_decide_false (f = FRealized)) by done. by rewrite andb_false_r. }
    assert (Pp : parts t3 (set_pos t3 i p0)) by by split. split; [|by apply (ccy_frame t3)|by apply (fund_frame t3)].
    intros f. apply (framev f t3 _ (fun j => if (i =? j) && bool_decide (f = FFees) then 0 else w f j)).
    - destruct (decide (f = FFees)) as [-> |Hne].
      + apply (move_field t2 _ (w FFees) _ i FFees (fx_sub 0 (p_fees p))); try done.
        * rewrite B3. apply sub_inverse.
        * intros j Hj. destruct (Z.eqb_spec i j); [congruence | done].
        * rewrite Z.eqb_refl. cbn [andb]. rewrite bool_decide_true by done. unfold fx_sub. rewrite i64_eq64.
          unfold w. rewrite (bool_decide_false (FFees = FRealized)), andb_false_r by done.
          unfold fv, booked. cbn. fold p. apply eq64_diff. exists 0. lia.
      + apply (keep_field t2 _ (w f) _ i FFees (fx_sub 0 (p_fees p))); auto.
        * rewrite B3. by destruct f.
        * intros j Hj. rewrite (bool_decide_false (f = FFees)) by done. by rewrite andb_false_r.
    - apply parts_same; [done | by destruct f].
    - intros j Hj. rewrite Hv. unfold w. destruct (Z.eqb_spec i j) as [<- |]; cbn [andb]; [by destruct f | done]. }
  match goal with |- Inv (set_pos (set_exposure i 0 (set_unrealized i 0 ?x)) i no_position) => set (t5 := x) end.
  assert (Ep5 : pos_ t5 = pos_ t) by (unfold t5; case_if; cbn; by rewrite B1, A1).
  assert (Pp5 : pos_at t5 i = p) by (unfold pos_at; by rewrite Ep5).
  rewrite (reset_tail i 0 0 no_position p0 t5) by by rewrite Pp5.
  assert (H5 : Inv (set_pos t5 i p0)).
  { destruct H3 as [G1 G2 G3]. assert (Hs : forall f, same f (set_pos t3 i p0) (set_pos t5 i p0)) by (intros f; unfold t5; case_if; by split).
    split.
    - intros f. apply (framev f _ _ _ _ (G1 f) (Hs f)). intros j _. unfold fv, booked, pos_at, exposure_at, t5. by case_if.
    - intros j Hj. unfold ccy_at, t5. case_if; by apply G2.
    - apply (fund_move (set_pos t3 i p0) _ i (- fund_at t3 i)); try done.
      + unfold t5. by case_if.
      + unfold t5. by case_if.
      + intros j Hj. unfold t5, fund_at. case_if; cbn; by rewrite lookup_insert_ne by congruence.
      + transitivity 0; [unfold t5, fund_at; case_if; cbn; by rewrite lookup_insert_eq|].
        change (fund_at (set_pos t3 i p0) i) with (fund_at t3 i). apply eq64_diff. exists 0. lia.
      + unfold t5. case_if; reflexivity.
      + intros Hcv c. unfold t5, fund_native_at at 1. change (converting (set_pos t3 i p0)) with (converting t3) in Hcv.
        match goal with |- context [converting ?x] => change (converting x) with (converting t3) end. rewrite Hcv. unfold set_pos. cbn [fund_native fupd].
        match goal with |- default 0 (<[?c0 := ?x]> ?m !! c) = _ => change m with (fund_native t3) end.
        rewrite fund_native_insert. match goal with |- (if ?c0 =? c then ?x else ?y) = (if ?c1 =? c then _ else _) =>
          change c0 with (ccy_at t3 i); change c1 with (ccy_at t3 i) end.
        destruct (Z.eqb_spec (ccy_at t3 i) c) as [<- |]; reflexivity. }
  apply set_pos_inv; [apply set_exposure_inv; [by apply set_unrealized_inv | done]| | |];
    unfold pos_at; rewrite set_exposure_pos, set_unrealized_pos, lookup_insert_eq, (pos_set_same t5 i p0); done.
Qed.

(** ** Conversion *)

(** As [InvV], but for the converted totals of currency [c], which are out of date. *)
Record Weak (c : Z) (f : field) (t : PositionTracker) (v : Z -> Z) : Prop := {
  wk_total : ptotal t f = i64 (isum v);
  wk_native : converting t = true -> forall c', 0 <= c' < kMaxCurrencies -> tget (native_at t c') f = i64 (csum t c' v);
  wk_conv : converting t = true -> forall c', 0 <= c' < kMaxCurrencies -> c' <> c ->
    tget (conv_at t c') f = convert (tget (native_at t c') f) (rate_at t c');
  wk_conv_total : converting t = true -> tget (conv_total_ t) f = i64 (lsum (fun c => tget (conv_at t c) f) currencies);
}.

Lemma reconvert_same c t f g : f <> g -> same g t (reconvert_field c t f).
Proof.
  intros Hne. destruct (reconvert_field_spec c t f) as (R1 & R2 & R3 & R4 & _ & _ & R7 & R8 & R9 & _). cbv zeta in *.
  split; try done.
  - intros c'. rewrite R8, (bool_decide_false (f = g)) by done. by rewrite andb_false_r.
  - by rewrite R9, (bool_decide_false (f = g)).
Qed.

Lemma weak_frame c f t t' v : Weak c f t v -> same f t t' -> Weak c f t' v.
Proof.
  intros [H1 H2 H3 H4] [S1 S2 S3 S4 S5 S6 S7].
  assert (Ec : converting t' = converting t) by (unfold converting; by rewrite S2). split; rewrite ?Ec.
  - by rewrite S1.
  - intros Hc c' Hr. rewrite S5, H2 by done. f_equal. apply isum_ext. intros i _. unfold ccy_at. by rewrite S3.
  - intros Hc c' Hr Hn. unfold rate_at. rewrite S4, S5, S6. by apply H3.
  - intros Hc. rewrite S7, H4 by done. f_equal. apply lsum_ext. intros c'. by rewrite S6.
Qed.

(** Converting one field of the currency brings it up to date. *)
Lemma reconvert_fix c f t v : 0 <= c < kMaxCurrencies -> Weak c f t v -> InvV f (reconvert_field c t f) v.
Proof.
  intros Hr [H1 H2 H3 H4]. destruct (reconvert_field_spec c t f) as (R1 & R2 & R3 & R4 & _ & _ & R7 & R8 & R9 & _). cbv zeta in *.
  set (t' := reconvert_field c t f) in *. assert (Ec : converting t' = converting t) by (unfold converting; by rewrite R2).
  assert (En : forall c', native_at t' c' = native_at t c') by (intros c'; unfold native_at; by rewrite R1).
  assert (Ecv : forall c', tget (conv_at t' c') f = if c =? c' then convert (tget (native_at t c) f) (rate_at t c) else tget (conv_at t c') f).
  { intros c'. rewrite R8, (bool_decide_true (f = f)) by done. by rewrite andb_true_r. }
  split; rewrite ?Ec.
  - by rewrite R7.
  - intros Hc c' Hr'. by rewrite En, H2.
  - intros Hc c' Hr'. rewrite Ecv, En. unfold rate_at. rewrite R4. destruct (Z.eqb_spec c c') as [<- |]; [done|]. apply H3; congruence || done.
  - intros Hc. rewrite R9, (bool_decide_true (f = f)), H4 by done.
    rewrite (lsum_currencies (fun c => tget (conv_at t c) f) (fun c => tget (conv_at t' c) f) c Hr).
    + rewrite Ecv, Z.eqb_refl. unfold fx_add, fx_sub. apply i64_proper. rewrite !i64_eq64. apply eq64_diff. exists 0. lia.
    + intros j Hj. rewrite Ecv. destruct (Z.eqb_spec c j); [congruence | done].
Qed.

Lemma reconvert_inv c (v : field -> Z -> Z) : 0 <= c < kMaxCurrencies -> forall l t, NoDup l ->
  (forall f, f ∈ l -> Weak c f t (v f)) -> (forall f, f ∉ l -> InvV f t (v f)) ->
  forall f, InvV f (fold_left (reconvert_field c) l t) (v f).
Proof.
  intros Hr l. induction l as [|g l IH]; intros t Hnd Hw Hi f; [apply Hi, not_elem_of_nil|]. inversion Hnd as [|? ? Hg Hl]; subst.
  cbn [fold_left]. apply IH; [done| |].
  - intros f' Hf'. apply (weak_frame c f' t); [apply Hw; by constructor|]. apply reconvert_same. intros ->. done.
  - intros f' Hf'. destruct (decide (g = f')) as [<- |Hne].
    + apply reconvert_fix; [done|]. apply Hw. constructor.
    + apply (framev f' t _ (v f')); [|by apply reconvert_same|done]. apply Hi. intros Hin. apply elem_of_cons in Hin as [-> |?]; done.
Qed.

Lemma all_fields f : f ∈ [FRealized; FUnrealized; FFees; FGross; FNet].
Proof. destruct f; repeat constructor. Qed.

Lemma reconvert_keeps c t : let t' := reconvert c t in
  pos_ t' = pos_ t /\ exposure_ t' = exposure_ t /\ ccy_ t' = ccy_ t /\ ccy_count_ t' = ccy_count_ t /\
  fund_total t' = fund_total t /\ fund_per t' = fund_per t /\ fund_native t' = fund_native t.
Proof. done. Qed.

Lemma reconvert_all c t : 0 <= c < kMaxCurrencies -> (forall f, Weak c f t (fv t f)) -> ccy_ok t -> fund_inv t -> Inv (reconvert c t).
Proof.
  intros Hr Hw Hc [Hu1 Hu2].
  assert (Hf : forall f, InvV f (reconvert c t) (fv t f)).
  { intros f. apply (reconvert_inv c (fv t) Hr); [repeat constructor; set_solver | intros g _; apply Hw |].
    intros g Hg. destruct Hg. apply all_fields. }
  pose proof (reconvert_keeps c t) as Hk. cbv zeta in Hk. generalize dependent (reconvert c t).
  intros t' Hf (E1 & E2 & E3 & E4 & E5 & E6 & E7). split.
  - intros f. apply (framev f t' _ (fv t f)); [apply Hf | by split |]. intros j _. unfold fv, booked, pos_at, exposure_at. by rewrite E1, E2.
  - intros j Hj. unfold ccy_at. rewrite E3. by apply Hc.
  - unfold fund_inv, converting, csum, fund_native_at, fund_at, ccy_at. by rewrite E3, E4, E5, E6, E7.
Qed.

Lemma set_rate_inv t c r : Inv t -> 0 <= c -> Inv (set_rate c r t).
Proof.
  intros H Hc0. unfold set_rate. case_if; [done|]. cbv zeta. apply changed_inv in H. generalize dependent (changed t). clear t.
  intros t [Hf Hc Hu]. apply reconvert_all; [unfold kMaxCurrencies in *; lia| | done | done].
  intros f. destruct (Hf f) as [H1 H2 H3 H4]. split; try done. intros Hcv c' Hr Hne.
  change (tget (conv_at t c') f = convert (tget (native_at t c') f) (default no_rate (<[c := r]> (rate_ t) !! c'))).
  rewrite lookup_insert_ne by congruence. by apply H3.
Qed.

(** The totals per currency after the contributions of the instruments in [l] were added. *)
Lemma native_fold (s : Z -> field -> Z) l : forall t, (forall c f, tget (native_at t c) f = i64 (s c f)) ->
  let t' := fold_left book_native l t in
  (forall c f, tget (native_at t' c) f = i64 (s c f + lsum (fun i => if ccy_at t i =? c then fv t f i else 0) l)) /\
  pos_ t' = pos_ t /\ exposure_ t' = exposure_ t /\ ccy_ t' = ccy_ t /\ ccy_count_ t' = ccy_count_ t /\ rate_ t' = rate_ t /\
  conv_ t' = conv_ t /\ conv_total_ t' = conv_total_ t /\ (forall f, ptotal t' f = ptotal t f) /\
  fund_total t' = fund_total t /\ fund_per t' = fund_per t /\ fund_native t' = fund_native t.
Proof.
  revert s. induction l as [|i l IH]; intros s t Hs; cbn [fold_left].
  { unfold lsum. cbn [foldr]. split; [intros c f; by rewrite Z.add_0_r | done]. }
  set (t1 := book_native t i).
  destruct (IH (fun c f => s c f + (if ccy_at t i =? c then fv t f i else 0)) t1) as (H1 & H2).
  { intros c f. unfold t1, book_native. cbv zeta. rewrite native_insert. destruct (Z.eqb_spec (ccy_at t i) c) as [<- |]; [|rewrite Hs; f_equal; lia].
    transitivity (fx_add (tget (native_at t (ccy_at t i)) f) (tget (booked t i) f)); [by destruct f|].
    rewrite Hs. unfold fx_add, fv. by rewrite (i64_eq64 (s (ccy_at t i) f)). }
  cbv zeta in H1, H2. split; [|exact H2]. intros c f. rewrite H1. unfold lsum. cbn [foldr]. f_equal.
  change (foldr (fun x acc => (if ccy_at t1 x =? c then fv t1 f x else 0) + acc) 0 l) with
    (foldr (fun x acc => (if ccy_at t x =? c then fv t f x else 0) + acc) 0 l). lia.
Qed.

Lemma fund_fold (s : Z -> Z) l : forall t, (forall c, fund_native_at t c = i64 (s c)) ->
  let t' := fold_left book_funding l t in
  (forall c, fund_native_at t' c = i64 (s c + lsum (fun i => if ccy_at t i =? c then fund_at t i else 0) l)) /\
  pos_ t' = pos_ t /\ exposure_ t' = exposure_ t /\ ccy_ t' = ccy_ t /\ ccy_count_ t' = ccy_count_ t /\ rate_ t' = rate_ t /\
  native_ t' = native_ t /\ conv_ t' = conv_ t /\ conv_total_ t' = conv_total_ t /\ (forall f, ptotal t' f = ptotal t f) /\
  fund_total t' = fund_total t /\ fund_per t' = fund_per t.
Proof.
  revert s. induction l as [|i l IH]; intros s t Hs; cbn [fold_left].
  { unfold lsum. cbn [foldr]. split; [intros c; by rewrite Z.add_0_r | done]. }
  set (t1 := book_funding t i).
  destruct (IH (fun c => s c + (if ccy_at t i =? c then fund_at t i else 0)) t1) as (H1 & H2).
  { intros c. unfold t1, book_funding, fund_native_at at 1. cbv zeta. cbn [fund_native fupd]. rewrite fund_native_insert.
    destruct (Z.eqb_spec (ccy_at t i) c) as [<- |]; [|rewrite Hs; f_equal; lia]. rewrite Hs. unfold fx_add. by rewrite (i64_eq64 (s (ccy_at t i))). }
  cbv zeta in H1, H2. split; [|exact H2]. intros c. rewrite H1. unfold lsum. cbn [foldr]. f_equal.
  change (foldr (fun x acc => (if ccy_at t1 x =? c then fund_at t1 x else 0) + acc) 0 l) with
    (foldr (fun x acc => (if ccy_at t x =? c then fund_at t x else 0) + acc) 0 l). lia.
Qed.

(** The plan's currencies are indices of the arrays. *)
Definition plan_ok (ccy : gmap Z Z) : Prop := forall i, idx i -> 0 <= default 0 (ccy !! i) < kMaxCurrencies.

Lemma lsum_zero {A} (v : A -> Z) l : (forall x, v x = 0) -> lsum v l = 0.
Proof. intros H. unfold lsum. induction l as [|x l IH]; [done|]. cbn [foldr]. by rewrite H, IH. Qed.

Lemma no_rate_zero n : convert n no_rate = 0.
Proof. unfold convert, no_rate. cbn [fx_num fx_den Z.eqb]. by rewrite Z.mul_0_r. Qed.

Lemma set_accounting_inv t count ccy : Inv t -> plan_ok ccy -> Inv (set_accounting count ccy t).
Proof.
  intros H Hp. apply changed_inv in H. unfold set_accounting. cbv zeta. generalize dependent (changed t). clear t. intros t [Hf Hc [Hu1 Hu2]].
  set (t0 := t <| ccy_count_ := count |> <| ccy_ := ccy |> <| rate_ := _ |> <| native_ := ∅ |> <| conv_ := ∅ |>
               <| conv_total_ := no_totals |> <| fund_native := ∅ |>).
  destruct (converting t0) eqn:Ec; cbn [negb].
  2: { split; [|done|split; [done | by rewrite Ec]]. intros f. destruct (Hf f) as [H1 _ _ _]. split; try (by rewrite Ec).
       transitivity (ptotal t f); [by destruct f|]. exact H1. }
  destruct (fund_fold (fun _ => 0) instruments t0 ltac:(done)) as (F1 & F2 & F3 & F4 & F5 & F6 & F7 & F8 & F9 & F10 & F11 & F12).
  cbv zeta in *. set (t1 := fold_left _ instruments t0) in *. clearbody t1.
  assert (Hn1 : forall c f, tget (native_at t1 c) f = i64 0) by (intros c f; unfold native_at; rewrite F7; by destruct f).
  destruct (native_fold (fun _ _ => 0) instruments t1 Hn1) as (G1 & G2 & G3 & G4 & G5 & G6 & G7 & G8 & G9 & G10 & G11 & G12).
  cbv zeta in *. set (t2 := fold_left _ instruments t1) in *. clearbody t2.
  assert (Hv : forall f j, fv t2 f j = fv t f j) by (intros f j; unfold fv, booked, pos_at, exposure_at; by rewrite G2, G3, F2, F3).
  assert (Hv1 : forall f j, fv t1 f j = fv t f j) by (intros f j; unfold fv, booked, pos_at, exposure_at; by rewrite F2, F3).
  assert (Hcc : forall j, ccy_at t1 j = ccy_at t2 j) by (intros j; unfold ccy_at; by rewrite G4).
  assert (Hzero : forall c f, tget (conv_at t2 c) f = 0) by (intros c f; unfold conv_at; rewrite G7, F8; by destruct f).
  apply reconvert_all; [unfold kMaxCurrencies; lia| | |].
  - intros f. split.
    + rewrite G9, F10. destruct (Hf f) as [H1 _ _ _]. transitivity (ptotal t f); [by destruct f|]. rewrite H1. f_equal.
      apply isum_ext. intros j _. by rewrite Hv.
    + intros _ c _. rewrite G1. f_equal. unfold csum, isum. cbn. apply lsum_ext. intros j. by rewrite Hcc, Hv, Hv1.
    + intros _ c Hr Hne. rewrite Hzero. unfold rate_at. rewrite G6, F6. change (rate_ t0) with ({[ 0 := identity_rate ]} : gmap Z FxRate). rewrite lookup_singleton_ne by congruence.
      symmetry. apply no_rate_zero.
    + intros _. rewrite G8, F9. rewrite (lsum_zero (fun c => tget (conv_at t2 c) f)) by done. by destruct f.
  - intros j Hj. unfold ccy_at. rewrite G4, F4. by apply Hp.
  - assert (Ef : forall j, fund_at t2 j = fund_at t j) by (intros j; unfold fund_at; by rewrite G11, F12). split.
    + rewrite G10, F11. transitivity (fund_total t); [done|]. rewrite Hu1. f_equal. apply isum_ext. intros j _. by rewrite Ef.
    + intros _ c _. unfold fund_native_at at 1. rewrite G12. fold (fund_native_at t1 c). rewrite F1. f_equal.
      unfold csum, isum. cbn. apply lsum_ext. intros j. rewrite Ef. unfold ccy_at. by rewrite G4, F4.
Qed.

Lemma new_tracker_inv : Inv new_tracker.
Proof.
  split; [|done|].
  - intros f. split; try done. rewrite (isum_ext (fun _ => 0)) by by destruct f.
    unfold isum. rewrite lsum_zero by done. by destruct f.
  - split; [|done]. rewrite (isum_ext (fun _ => 0)) by done. unfold isum. by rewrite lsum_zero.
Qed.

(** ** Reachable trackers *)

Inductive tracked : PositionTracker -> Prop :=
| tr_new : tracked new_tracker
| tr_fill t i side px qty fee inst : tracked t -> idx i -> tracked (on_fill i side px qty fee inst t)
| tr_correct t i side est px qty fee inst : tracked t -> idx i -> tracked (correct_fill i side est px qty fee inst t)
| tr_funding t i a : tracked t -> idx i -> tracked (on_funding i a t)
| tr_mark t i mid inst : tracked t -> idx i -> tracked (mark i mid inst t)
| tr_set t i qty avg inst : tracked t -> idx i -> tracked (set i qty avg inst t)
| tr_reset t i : tracked t -> idx i -> tracked (reset i t)
| tr_accounting t count ccy : tracked t -> plan_ok ccy -> tracked (set_accounting count ccy t)
| tr_rate t c r : tracked t -> 0 <= c -> tracked (set_rate c r t).

Lemma tracked_inv t : tracked t -> Inv t.
Proof.
  induction 1; [apply new_tracker_inv | by apply fill_inv | by apply correct_fill_inv | by apply on_funding_inv
  | by apply mark_inv | by apply set_inv | by apply reset_inv | by apply set_accounting_inv | by apply set_rate_inv].
Qed.

(** C29. In every state of the tracker its running totals cannot drift from the positions: without
    conversion each total (realized, unrealized, fees, gross and net exposure) is the sum over all
    instruments, as an [int64] holds it; with conversion each is the sum, over the currencies, of
    the total in that currency converted at the rate last set, and the total in a currency is the
    sum over the instruments that settle in it.  The funding total sums the instruments' funding. *)
Theorem totals_exact t f : tracked t -> fund_total t = i64 (isum (fund_at t)) /\
  if converting t
  then tget (conv_total_ t) f = i64 (lsum (fun c => convert (tget (native_at t c) f) (rate_at t c)) currencies) /\
       (forall c, 0 <= c < kMaxCurrencies -> tget (native_at t c) f = i64 (csum t c (fv t f)))
  else ptotal t f = i64 (isum (fv t f)).
Proof.
  intros Ht. destruct (tracked_inv t Ht) as [Hf _ [Hu _]]. split; [done|]. destruct (Hf f) as [H1 H2 H3 H4].
  destruct (converting t); [|done]. split; [|by apply H2]. rewrite H4 by done. f_equal.
  assert (Hin : forall c, c ∈ currencies -> 0 <= c < kMaxCurrencies) by (intros c Hc; unfold currencies in Hc; apply elem_of_seqZ in Hc; lia).
  revert Hin. unfold lsum. generalize currencies as l. intros l Hin. induction l as [|c l IH]; [done|]. cbn [foldr].
  rewrite IH by (intros x Hx; apply Hin; by constructor). rewrite H3; [done | done |]. apply Hin. constructor.
Qed.

(** ** What a fill does to the position *)

(** Quantity, average and realized PnL of a position: what [on_fill] computes. *)
Definition core_of (p : Position) : Qty * Price * Notional := (p_qty p, p_avg_px p, p_realized p).
Definition signed (side : Side) (qty : Qty) : Z := match side with Buy => qty | Sell => i64 (- qty) end.
Definition filled_core (p : Position) (side : Side) (px : Price) (qty : Qty) (inst : Instrument) : Qty * Price * Notional :=
  let f := signed side qty in let cur := p_qty p in
  if (cur =? 0) || Bool.eqb (0 <? cur) (0 <? f) then
    let denom := i64 (cur + f) in
    (denom, if inverse inst then harmonic_avg cur (p_avg_px p) f px denom else arithmetic_avg cur (p_avg_px p) f px denom, p_realized p)
  else
    let abs_cur := if cur <? 0 then i64 (- cur) else cur in
    let abs_f := if f <? 0 then i64 (- f) else f in
    let closed := if abs_f <? abs_cur then abs_f else abs_cur in
    let r := fx_add (p_realized p) (close_pnl p px closed (if 0 <? cur then 1 else -1) inst) in
    let remaining := i64 (abs_f - closed) in
    if 0 <? remaining then (if 0 <? f then remaining else i64 (- remaining), px, r)
    else let q := i64 (cur + f) in (q, if q =? 0 then 0 else p_avg_px p, r).

Lemma mark_core t i mid inst : core_of (pos_at (mark i mid inst t) i) = core_of (pos_at t i).
Proof.
  unfold mark. cbv zeta. unfold pos_at at 1. rewrite set_exposure_pos, set_unrealized_pos, lookup_insert_eq. cbn [default].
  by rewrite pos_set_same.
Qed.
Lemma add_pos_at t i d : pos_at (add_fees i d t) i = ((pos_at t i) <| p_fees ::= fun x => fx_add x d |>) /\
  pos_at (add_realized i d t) i = ((pos_at t i) <| p_realized ::= fun x => fx_add x d |>).
Proof.
  unfold add_fees, add_realized. cbv zeta. split.
  - match goal with |- pos_at (book i FFees d ?t0) i = _ => destruct (book_pos i FFees d t0) as (E & _ & _) end.
    unfold pos_at at 1. rewrite E. apply pos_set_same.
  - match goal with |- pos_at (book i FRealized d ?t0) i = _ => destruct (book_pos i FRealized d t0) as (E & _ & _) end.
    unfold pos_at at 1. rewrite E. apply pos_set_same.
Qed.

Lemma on_fill_core t i side px qty fee inst :
  core_of (pos_at (on_fill i side px qty fee inst t) i) = filled_core (pos_at t i) side px qty inst.
Proof.
  unfold on_fill. cbv zeta. fold (signed side qty). set (f := signed side qty). change (pos_at (changed t) i) with (pos_at t i).
  set (t2 := set_pos (add_fees i fee (changed t)) i _).
  assert (E2 : exists ff fl gt, pos_at t2 i = (pos_at t i) <| p_fees := ff |> <| p_gross_traded := gt |> <| p_fills := fl |>).
  { unfold t2. rewrite pos_set_same. destruct (add_pos_at (changed t) i fee) as [-> _]. change (pos_at (changed t) i) with (pos_at t i).
    by do 3 eexists. }
  assert (Hfin : forall t3, core_of (pos_at (if 0 <? p_last_mark (pos_at t3 i) then mark i (p_last_mark (pos_at t3 i)) inst t3
    else set_exposure i (signed_notional (pos_at t3 i) px inst) t3) i) = core_of (pos_at t3 i)).
  { intros t3. case_if; [apply mark_core|]. unfold pos_at at 1. by rewrite set_exposure_pos. }
  rewrite Hfin. clear Hfin. clearbody t2. destruct E2 as (ff & fl & gt & E2). unfold filled_core. fold f. cbv zeta.
  case_if; [rewrite pos_set_same, E2; done|].
  match goal with |- context [close_pnl (pos_at t2 i) px ?c ?dir inst] => set (closed := c) in *; set (dr := dir) in * end.
  set (d := close_pnl (pos_at t2 i) px closed dr inst).
  destruct (add_pos_at t2 i d) as [_ E3].
  assert (Ed : d = close_pnl (pos_at t i) px closed dr inst) by (unfold d; by rewrite E2).
  rewrite <- Ed. rewrite E3. case_if; rewrite pos_set_same, E2; done.
Qed.

(** ** A fill conserves the value of the position *)

(** Realized PnL and the open position against a price, for a contract multiplier [M], in units of 1e-24. *)
Definition value (M : Z) (p : Position) (m : Price) : Z := p_realized p * (kFixedScale * kFixedScale) + p_qty p * (m - p_avg_px p) * M.
(** One unit of the realized PnL, and one of the PnL before the multiplier where there is one. *)
Definition pnl_rounding (M : Z) : Z := if M =? one_contract then kFixedScale * kFixedScale else kFixedScale * (kFixedScale + M).

(** Sizes for which no [int64] of a linear contract wraps. *)
Record small (M : Z) (p : Position) (px : Price) (qty : Qty) : Prop := {
  sl_mult : 0 < M <= i64_max;
  sl_cur : Z.abs (p_qty p) <= 2 ^ 61;
  sl_qty : 0 < qty <= 2 ^ 61;
  sl_avg : 0 <= p_avg_px p <= 2 ^ 61;
  sl_px : 0 <= px <= 2 ^ 61;
  sl_notional : Z.abs (p_qty p) * Z.max (p_avg_px p) px <= 2 ^ 61 * kFixedScale;
  sl_scaled : Z.abs (p_qty p) * Z.max (p_avg_px p) px * M <= 2 ^ 61 * (kFixedScale * kFixedScale);
  sl_realized : Z.abs (p_realized p) <= 2 ^ 61;
}.

Lemma i128_small z : - 2 ^ 127 <= z < 2 ^ 127 -> i128 z = z.
Proof. intros H. unfold i128. rewrite Z.mod_small; lia. Qed.

Lemma signed_cases side qty : 0 < qty <= 2 ^ 61 -> signed side qty = match side with Buy => qty | Sell => - qty end.
Proof. intros H. unfold signed. destruct side; [done|]. apply i64_id. unfold in_i64, i64_min, i64_max. lia. Qed.

Lemma quot_small a d M : d <> 0 -> Z.abs a <= M * Z.abs d -> Z.abs (Z.quot a d) <= M.
Proof.
  intros Hd Ha. rewrite <- Z.quot_abs by done. apply Z.quot_le_upper_bound; lia.
Qed.
Lemma quot_error a d : d <> 0 -> Z.abs (a - d * Z.quot a d) < Z.abs d.
Proof. intros Hd. pose proof (Z.quot_rem' a d) as H. pose proof (Z.rem_bound_abs a d Hd). lia. Qed.

Lemma product_bound a b A B : Z.abs a <= A -> Z.abs b <= B -> Z.abs (a * b) <= A * B.
Proof. intros Ha Hb. rewrite Z.abs_mul. apply Z.mul_le_mono_nonneg; lia. Qed.

(** Adding to a position: the average, without wrap-around, and its rounding. *)
Lemma avg_rounds cur avg f px : Z.abs cur <= 2 ^ 61 -> Z.abs f <= 2 ^ 61 -> 0 <= avg <= 2 ^ 61 -> 0 <= px <= 2 ^ 61 ->
  cur + f <> 0 -> Z.abs (cur + f) = Z.abs cur + Z.abs f ->
  Z.abs (cur * avg + f * px - (cur + f) * arithmetic_avg cur avg f px (cur + f)) < Z.abs (cur + f).
Proof.
  intros Hc Hf Ha Hp Hn Hs. pose proof (product_bound cur avg (2 ^ 61) (2 ^ 61) Hc ltac:(lia)) as P1.
  pose proof (product_bound f px (2 ^ 61) (2 ^ 61) Hf ltac:(lia)) as P2.
  assert (Hq : Z.abs (Z.quot (cur * avg + f * px) (cur + f)) <= 2 ^ 61).
  { apply quot_small; [done|]. rewrite Hs. pose proof (product_bound cur avg (Z.abs cur) (2 ^ 61) ltac:(lia) ltac:(lia)).
    pose proof (product_bound f px (Z.abs f) (2 ^ 61) ltac:(lia) ltac:(lia)). lia. }
  assert (E : arithmetic_avg cur avg f px (cur + f) = Z.quot (cur * avg + f * px) (cur + f)).
  { unfold arithmetic_avg. rewrite (i128_small (cur * avg)), (i128_small (f * px)), (i128_small (cur * avg + f * px)) by lia.
    rewrite i128_small by lia. apply i64_id. unfold in_i64, i64_min, i64_max. lia. }
  rewrite E. by apply quot_error.
Qed.

(** Closing part of a position: what is realized, without wrap-around, and its rounding. *)
Lemma scaled_twice a n1 n2 M S : 0 < S -> 0 < M -> Z.abs (a - S * n1) < S -> Z.abs (n1 * M - S * n2) < S -> Z.abs (a * M - S * S * n2) < S * (S + M).
Proof.
  intros HS HM H1 H2. replace (a * M - S * S * n2) with ((a - S * n1) * M + S * (n1 * M - S * n2)) by ring. eapply Z.le_lt_trans; [apply Z.abs_triangle|]. rewrite !Z.abs_mul, (Z.abs_eq M), (Z.abs_eq S) by lia.
  assert (Z.abs (a - S * n1) * M < S * M) by (by apply Z.mul_lt_mono_pos_r). assert (S * Z.abs (n1 * M - S * n2) < S * S) by (by apply Z.mul_lt_mono_pos_l). lia.
Qed.
Lemma close_rounds p px closed dir inst : let M := in_contract_multiplier inst in 0 < M <= i64_max ->
  Z.abs (p_realized p) <= 2 ^ 61 -> 0 <= p_avg_px p <= 2 ^ 61 -> 0 <= px <= 2 ^ 61 ->
  0 <= closed <= 2 ^ 61 -> Z.abs dir = 1 -> closed * Z.max (p_avg_px p) px <= 2 ^ 61 * kFixedScale -> closed * Z.max (p_avg_px p) px * M <= 2 ^ 61 * (kFixedScale * kFixedScale) ->
  inverse inst = false ->
  Z.abs ((px - p_avg_px p) * closed * dir * M - kFixedScale * kFixedScale * (fx_add (p_realized p) (close_pnl p px closed dir inst) - p_realized p)) < pnl_rounding M.
Proof.
  intros M HM Hr Ha Hp Hc Hd Hn Hs Hi. unfold close_pnl, scale. rewrite Hi. fold M.
  assert (Hdiff : Z.abs (px - p_avg_px p) <= Z.max (p_avg_px p) px) by lia.
  assert (Hle : Z.abs ((px - p_avg_px p) * closed) <= closed * Z.max (p_avg_px p) px) by (rewrite Z.abs_mul, (Z.abs_eq closed) by lia; nia).
  assert (Hpd : Z.abs ((px - p_avg_px p) * closed * dir) <= closed * Z.max (p_avg_px p) px) by (rewrite Z.abs_mul, Hd; lia).
  rewrite (i64_id (px - p_avg_px p)) by (unfold in_i64, i64_min, i64_max; lia).
  rewrite (i128_small ((px - p_avg_px p) * closed)), (i128_small ((px - p_avg_px p) * closed * dir)) by (unfold kFixedScale in *; lia).
  set (x := (px - p_avg_px p) * closed * dir) in *. set (n1 := Z.quot x kFixedScale). set (w := closed * Z.max (p_avg_px p) px) in *.
  assert (H1 : Z.abs n1 <= 2 ^ 61) by (apply quot_small; unfold kFixedScale in *; lia). pose proof (quot_error x kFixedScale ltac:(done)) as E1. fold n1 in E1. change (Z.abs kFixedScale) with kFixedScale in E1.
  rewrite (i128_small n1), (i64_id n1) by (unfold in_i64, i64_min, i64_max; lia). unfold pnl_rounding. destruct (Z.eqb_spec M one_contract) as [EM|EM].
  - unfold fx_add. rewrite i64_id by (unfold in_i64, i64_min, i64_max; lia). replace (x * M - kFixedScale * kFixedScale * (p_realized p + n1 - p_realized p)) with ((x - kFixedScale * n1) * kFixedScale) by (rewrite EM; change one_contract with kFixedScale; ring).
    rewrite Z.abs_mul. change (Z.abs kFixedScale) with kFixedScale. apply Z.mul_lt_mono_pos_r; [done | exact E1].
  - unfold mul_raw. rewrite mul_div_const_eq by (done || (unfold in_i64, i64_min, i64_max in *; lia)). set (n2 := Z.quot (n1 * M) kFixedScale).
    assert (Hn1 : Z.abs n1 * kFixedScale <= w) by (unfold n1; rewrite <- Z.quot_abs by done; change (Z.abs kFixedScale) with kFixedScale; pose proof (Z.mul_quot_le (Z.abs x) kFixedScale ltac:(lia) ltac:(done)); lia).
    assert (H2 : Z.abs n2 <= 2 ^ 61). { apply quot_small; [done|]. rewrite Z.abs_mul, (Z.abs_eq M) by lia. change (Z.abs kFixedScale) with kFixedScale. apply (Z.mul_le_mono_pos_r _ _ kFixedScale); [done|].
      assert (Z.abs n1 * kFixedScale * M <= w * M) by (apply Z.mul_le_mono_nonneg_r; lia). clear -H Hs. lia. }
    pose proof (quot_error (n1 * M) kFixedScale ltac:(done)) as E2. fold n2 in E2. change (Z.abs kFixedScale) with kFixedScale in E2.
    rewrite (i64_id n2) by (unfold in_i64, i64_min, i64_max; lia). unfold fx_add. rewrite i64_id by (unfold in_i64, i64_min, i64_max; lia). replace (p_realized p + n2 - p_realized p) with n2 by lia. apply (scaled_twice x n1 n2 M); [done | lia | exact E1 | exact E2].
Qed.

(** The three algebraic cases of a fill, over plain integers. *)
Lemma value_adding S U M r cur f m px a a' : 0 < M -> Z.abs (cur * a + f * px - (cur + f) * a') < Z.abs (cur + f) ->
  Z.abs (r * S + (cur + f) * (m - a') * M - (r * S + cur * (m - a) * M) - f * (m - px) * M) < Z.max U (Z.abs (cur + f) * M).
Proof.
  intros HM H. replace (_ - _ - _) with ((cur * a + f * px - (cur + f) * a') * M) by ring. rewrite Z.abs_mul, (Z.abs_eq M) by lia. apply Z.max_lt_iff. right. by apply Z.mul_lt_mono_pos_r.
Qed.
Lemma value_flipping S U M Q r r' cur f m px a : Z.abs ((px - a) * cur * M - S * (r' - r)) < U ->
  Z.abs (r' * S + (cur + f) * (m - px) * M - (r * S + cur * (m - a) * M) - f * (m - px) * M) < Z.max U Q.
Proof. intros H. apply Z.max_lt_iff. left. rewrite <- Z.abs_opp. eapply Z.le_lt_trans; [|exact H]. apply Z.eq_le_incl. f_equal. ring. Qed.
Lemma value_reducing S U M Q r r' cur f m px a : Z.abs ((px - a) * - f * M - S * (r' - r)) < U ->
  Z.abs (r' * S + (cur + f) * (m - a) * M - (r * S + cur * (m - a) * M) - f * (m - px) * M) < Z.max U Q.
Proof. intros H. apply Z.max_lt_iff. left. rewrite <- Z.abs_opp. eapply Z.le_lt_trans; [|exact H]. apply Z.eq_le_incl. f_equal. ring. Qed.

(** C30. A fill of a linear contract of any multiplier [M] conserves value: priced at any [m], the realized PnL and the open
    part of the position change by exactly [M] times the filled quantity times the distance from the fill price to [m], up
    to the roundings of the one step the fill takes (of the average when it adds to the position; of the realized PnL, and
    of the PnL before the multiplier where [M] is not one, when it reduces or flips it); and the quantity moves by exactly
    the signed fill.  The sizes are such that no 64-bit amount wraps. *)
Theorem fill_conserves_value t i side px qty fee inst m :
  let M := in_contract_multiplier inst in
  small M (pos_at t i) px qty -> inverse inst = false ->
  let p := pos_at t i in let p' := pos_at (on_fill i side px qty fee inst t) i in
  let f := match side with Buy => qty | Sell => - qty end in
  p_qty p' = p_qty p + f /\
  Z.abs (value M p' m - value M p m - f * (m - px) * M) < Z.max (pnl_rounding M) (Z.abs (p_qty p') * M).
Proof.
  intros M [HM Hcur Hqty Havg Hpx Hnot Hscaled Hreal] Hi. cbv zeta. pose proof (on_fill_core t i side px qty fee inst) as Hcore.
  unfold core_of, filled_core in Hcore. cbv zeta in Hcore. rewrite (signed_cases side qty Hqty), Hi in Hcore.
  set (p := pos_at t i) in *. set (p' := pos_at (on_fill i side px qty fee inst t) i) in *. clearbody p'.
  set (f := match side with Buy => qty | Sell => - qty end) in *.
  assert (Hf : Z.abs f = qty) by (unfold f; destruct side; lia). clearbody f.
  assert (E1 : i64 (p_qty p + f) = p_qty p + f) by (apply i64_id; unfold in_i64, i64_min, i64_max; lia).
  assert (E2 : i64 (- p_qty p) = - p_qty p) by (apply i64_id; unfold in_i64, i64_min, i64_max; lia).
  assert (E3 : i64 (- f) = - f) by (apply i64_id; unfold in_i64, i64_min, i64_max; lia).
  rewrite E1, E2, E3 in Hcore. unfold value. destruct ((p_qty p =? 0) || Bool.eqb (0 <? p_qty p) (0 <? f)) eqn:Eadd.
  - injection Hcore as Hq Ha Hr.
    assert (Hsame : Z.abs (p_qty p + f) = Z.abs (p_qty p) + Z.abs f) by (destruct (Z.ltb_spec 0 (p_qty p)), (Z.ltb_spec 0 f); cbn in Eadd; lia).
    pose proof (avg_rounds (p_qty p) (p_avg_px p) f px Hcur ltac:(lia) Havg Hpx ltac:(lia) Hsame) as Hav.
    rewrite Hq, Ha, Hr. split; [done|]. apply value_adding; [lia | done].
  - assert (Hopp : p_qty p * f < 0) by (destruct (Z.ltb_spec 0 (p_qty p)), (Z.ltb_spec 0 f); cbn in Eadd; nia).
    assert (Ecur : (if p_qty p <? 0 then - p_qty p else p_qty p) = Z.abs (p_qty p)) by (destruct (Z.ltb_spec (p_qty p) 0); lia).
    assert (Ef : (if f <? 0 then - f else f) = Z.abs f) by (destruct (Z.ltb_spec f 0); lia).
    rewrite Ecur, Ef in Hcore. set (closed := if Z.abs f <? Z.abs (p_qty p) then Z.abs f else Z.abs (p_qty p)) in *.
    assert (Hcl : closed = Z.min (Z.abs f) (Z.abs (p_qty p))) by (unfold closed; destruct (Z.ltb_spec (Z.abs f) (Z.abs (p_qty p))); lia).
    set (dir := if 0 <? p_qty p then 1 else -1) in *. assert (Hdir : dir = Z.sgn (p_qty p)) by (unfold dir; destruct (Z.ltb_spec 0 (p_qty p)); lia).
    assert (Hd1 : Z.abs dir = 1) by lia.
    pose proof (close_rounds p px closed dir inst HM Hreal Havg Hpx ltac:(lia) Hd1 ltac:(nia) ltac:(apply (Z.le_trans _ (Z.abs (p_qty p) * Z.max (p_avg_px p) px * M)); [fold M; apply Z.mul_le_mono_nonneg_r; [lia | nia] | done]) Hi) as Hc. fold M in Hc.
    set (r := fx_add (p_realized p) (close_pnl p px closed dir inst)) in *.
    rewrite (i64_id (Z.abs f - closed)) in Hcore by (unfold in_i64, i64_min, i64_max; lia).
    rewrite (i64_id (- (Z.abs f - closed))) in Hcore by (unfold in_i64, i64_min, i64_max; lia). clearbody r closed dir.
    destruct (Z.ltb_spec 0 (Z.abs f - closed)) as [Hrem|Hrem]; injection Hcore as Hq Ha Hr.
    + assert (Ecl : closed * dir = p_qty p) by (rewrite Hdir, Hcl, Z.min_r by lia; apply Z.abs_sgn).
      assert (Hq' : p_qty p' = p_qty p + f) by (rewrite Hq; destruct (Z.ltb_spec 0 f), (Z.abs_spec (p_qty p)) as [[? ?]|[? ?]]; lia || nia).
      rewrite Hq', Ha, Hr. split; [done|]. rewrite <- (Z.mul_assoc _ closed), Ecl in Hc. by apply value_flipping.
    + assert (Ecl : closed * dir = - f).
      { rewrite Hdir, Hcl, Z.min_l by lia. destruct (Z.sgn_spec (p_qty p)) as [[? ->]|[[? ->]|[? ->]]]; [|lia|]; destruct (Z.abs_spec f) as [[? ->]|[? ->]]; nia. }
      rewrite <- (Z.mul_assoc _ closed), Ecl in Hc. rewrite Hq, Hr. split; [done|].
      assert (Hv : (p_qty p + f) * (m - p_avg_px p') = (p_qty p + f) * (m - p_avg_px p)) by (destruct (Z.eqb_spec (p_qty p + f) 0) as [-> |]; [lia | by rewrite Ha]).
      rewrite Hv. by apply value_reducing.
Qed.

(** ** A traded instrument *)

Module Traded.
Definition inst : Instrument := mkInstrument 3 0 Spot kEnabled 2 1000000 1000 1000 0 0 one_contract 0.
(** Buy 2.0 at 100, sell 3.0 at 110 through zero, mark at 105. *)
Definition bought : PositionTracker := on_fill 3 Buy (100 * kFixedScale) (2 * kFixedScale) 5 inst new_tracker.
Definition marked : PositionTracker := mark 3 (105 * kFixedScale) inst (on_fill 3 Sell (110 * kFixedScale) (3 * kFixedScale) 7 inst bought).

Lemma idx3 : idx 3.
Proof. unfold idx, kMaxInstruments. lia. Qed.
Lemma bought_tracked : tracked bought.
Proof. unfold bought. constructor; [constructor | exact idx3]. Qed.
Lemma marked_tracked : tracked marked.
Proof. unfold marked. constructor; [constructor; [exact bought_tracked | exact idx3] | exact idx3]. Qed.

(** Realized 20, unrealized 5 on the short 1.0, fees of 12 units. *)
Lemma totals_exact_witness :
  (ptotal marked FRealized, ptotal marked FUnrealized, ptotal marked FFees) = (20 * kFixedScale, 5 * kFixedScale, 12) /\
  fund_total marked = i64 (isum (fund_at marked)).
Proof. split; [vm_compute; reflexivity|]. destruct (totals_exact marked FRealized marked_tracked) as [H _]. exact H. Defined.

(** A future of ten units per contract: selling 3.0 at 110 against 2.0 bought at 100 realizes 200. *)
Definition future : Instrument := mkInstrument 3 0 Spot kEnabled 2 1000000 1000 1000 0 0 (10 * kFixedScale) 0.
Definition long : PositionTracker := on_fill 3 Buy (100 * kFixedScale) (2 * kFixedScale) 5 future new_tracker.
Definition flipped : PositionTracker := on_fill 3 Sell (110 * kFixedScale) (3 * kFixedScale) 7 future long.
Lemma long_small : small (10 * kFixedScale) (pos_at long 3) (110 * kFixedScale) (3 * kFixedScale).
Proof. split; vm_compute; repeat split; congruence. Qed.
Lemma fill_conserves_value_witness : p_realized (pos_at flipped 3) = 200 * kFixedScale /\ p_qty (pos_at flipped 3) = - kFixedScale /\
  Z.abs (value (10 * kFixedScale) (pos_at flipped 3) 0 - value (10 * kFixedScale) (pos_at long 3) 0 - - (3 * kFixedScale) * (0 - 110 * kFixedScale) * (10 * kFixedScale)) <
    Z.max (pnl_rounding (10 * kFixedScale)) (Z.abs (p_qty (pos_at flipped 3)) * (10 * kFixedScale)).
Proof.
  split; [vm_compute; reflexivity|]. destruct (fill_conserves_value long 3 Sell (110 * kFixedScale) (3 * kFixedScale) 7 future 0 long_small eq_refl) as [H1 H2].
  split; [|exact H2]. unfold flipped. rewrite H1. vm_compute. reflexivity.
Defined.
End Traded.
