(* ===== verification/Risk.v ===== *)
(** * Risk: the pre-trade checks of [risk.hpp] and [risk_limits.hpp]

    The token bucket, the kill switch, the market state the price bands are computed
    from, the conversion rates and the underlyings an order is measured with, the
    fixed sequence of checks with its counters, and the read-only headroom.  The
    arrays are maps that read as the default value where nothing was written; an
    atomic word is its value, since one thread checks orders. *)

From S2P Require Import Prelude Types FixedPoint Instruments Orders Position.

(** ** [TokenBucket] *)

Definition kScale : Z := 1000000.
Definition kNsPerSec : Z := 1000000000.

Record TokenBucket := mkBucket { tb_rate : Z; tb_capacity : Z; tb_tokens : Z; tb_last : Timestamp }.
#[export] Instance eta_bucket : Eta TokenBucket := fun b => mkBucket (tb_rate b) (tb_capacity b) (tb_tokens b) (tb_last b).
Definition no_bucket : TokenBucket := mkBucket 0 0 0 0.

Definition configure (rate burst : Z) (now : Timestamp) : TokenBucket :=
  let capacity := i64 ((if burst =? 0 then rate else burst) * kScale) in
  mkBucket rate capacity capacity now.
Definition bucket_enabled (b : TokenBucket) : bool := negb (tb_rate b =? 0).

(** Millionths of a token the time since the last refill is worth. *)
Definition accrued (b : TokenBucket) (now : Timestamp) : Z :=
  i64 (i128 (Z.quot (i128 (i128 (i64 (now - tb_last b) * tb_rate b) * kScale)) kNsPerSec)).

Definition refill (now : Timestamp) (b : TokenBucket) : TokenBucket :=
  if now <=? tb_last b then b
  else
    let t := i64 (tb_tokens b + accrued b now) in
    let t := if tb_capacity b <? t then tb_capacity b else t in
    b <| tb_tokens := t |> <| tb_last := now |>.
Definition try_take (now : Timestamp) (b : TokenBucket) : bool * TokenBucket :=
  if tb_rate b =? 0 then (true, b)
  else
    let b := refill now b in
    if tb_tokens b <? kScale then (false, b)
    else (true, b <| tb_tokens ::= fun t => i64 (t - kScale) |>).
Definition available (b : TokenBucket) (now : Timestamp) : Z :=
  if tb_rate b =? 0 then i64_max
  else
    let t := tb_tokens b in
    let t := if tb_last b <? now then
               let t := i64 (t + accrued b now) in
               if tb_capacity b <? t then tb_capacity b else t
             else t in
    Z.quot t kScale.
Definition wait_ns (b : TokenBucket) (now : Timestamp) : Z :=
  if tb_rate b =? 0 then 0
  else
    let t := tb_tokens b in
    let t := if tb_last b <? now then i64 (t + accrued b now) else t in
    if kScale <=? t then 0
    else
      let need := i128 (i64 (kScale - t) * kNsPerSec) in
      let per := i128 (tb_rate b * kScale) in
      i64 (i128 (Z.quot (i128 (i128 (need + per) - 1)) per)).
Definition rebase (now : Timestamp) (b : TokenBucket) : TokenBucket := b <| tb_last := now |>.
Definition tokens (b : TokenBucket) : Z := Z.quot (tb_tokens b) kScale.

(** ** Limits, intents and inputs *)

Record RiskLimits := mkLimits {
  max_order_qty : Qty;
  max_order_notional : Notional;
  max_position : Qty;
  max_open_orders : Z;
  price_collar_bps : Z;
  fat_finger_bps : Z;
  stale_md : Duration;
  max_gross_notional : Notional;
  max_net_notional : Notional;
  max_loss : Notional;
  orders_per_sec : Z;
  burst : Z;
  stp : bool;
  max_feed_lag_ms : Z;
}.
Definition no_limits : RiskLimits := mkLimits 0 0 0 0 0 0 0 0 0 0 0 0 true 0.
Definition reads_totals (l : RiskLimits) : bool :=
  (0 <? max_loss l) || (0 <? max_gross_notional l) || (0 <? max_net_notional l).

Record OrderIntent := mkIntent {
  i_instrument : InstrumentId;
  i_venue : VenueId;
  i_side : Side;
  i_type : OrderType;
  i_price : Price;
  i_qty : Qty;
  i_tif : TimeInForce;
}.

Record UnderlyingInputs := mkUnderlying { u_net : Z; u_open : Z; u_limited : bool; u_known : bool }.
#[export] Instance eta_underlying : Eta UnderlyingInputs := fun u => mkUnderlying (u_net u) (u_open u) (u_limited u) (u_known u).
Definition no_underlying : UnderlyingInputs := mkUnderlying 0 0 false true.

(** [position] is a pointer: [None] for null. *)
Record RiskInputs := mkInputs {
  ri_now : Timestamp;
  ri_position : option Position;
  ri_gross_exposure : Notional;
  ri_net_exposure : Notional;
  ri_open_same_side : Qty;
  ri_open_orders : Z;
  ri_best_own_opposite : Price;
  ri_feed_lagged : bool;
  ri_underlying : UnderlyingInputs;
  ri_balance_short : bool;
  ri_primary_killed : bool;
  ri_account_full : bool;
  ri_flatten : bool;
  ri_reduce_only : bool;
}.
#[export] Instance eta_inputs : Eta RiskInputs := fun i =>
  mkInputs (ri_now i) (ri_position i) (ri_gross_exposure i) (ri_net_exposure i) (ri_open_same_side i) (ri_open_orders i)
    (ri_best_own_opposite i) (ri_feed_lagged i) (ri_underlying i) (ri_balance_short i) (ri_primary_killed i)
    (ri_account_full i) (ri_flatten i) (ri_reduce_only i).

Record RiskStats := mkStats { rs_checks : Z; rs_passed : Z; rs_rejects : gmap Z Z; rs_trips : Z }.
#[export] Instance eta_stats : Eta RiskStats := fun s => mkStats (rs_checks s) (rs_passed s) (rs_rejects s) (rs_trips s).
Definition no_stats : RiskStats := mkStats 0 0 ∅ 0.
Definition rejects_at (s : RiskStats) (c : Z) : Z := default 0 (rs_rejects s !! c).

(** ** Plans: the currencies and the underlyings of the instruments *)

Definition kMaxUnderlyings : Z := 8.
Record FxSource := mkSource { fs_instrument : InstrumentId; fs_invert : bool }.
Definition no_source : FxSource := mkSource kInvalidInstrument false.
Record FxPlan := mkFxPlan { fp_count : Z; fp_sources : gmap Z FxSource; fp_ccy : gmap Z Z; fp_stale : Duration }.
Definition fx_active (p : FxPlan) : bool := 1 <? fp_count p.
Record UnderlyingPlan := mkUnderlyingPlan {
  up_count : Z;
  up_max_net : gmap Z Qty;
  up_of : gmap Z Z;
  up_members : gmap Z InstrumentId;
  up_begin : gmap Z Z;
}.

(** ** [RiskEngine] *)

Record MdState := mkMd {
  md_book_ts : Timestamp;
  md_mid : Price;
  md_last_trade : Price;
  md_collar_lo : Price;
  md_collar_hi : Price;
  md_ff_lo : Price;
  md_ff_hi : Price;
}.
#[export] Instance eta_md : Eta MdState := fun m =>
  mkMd (md_book_ts m) (md_mid m) (md_last_trade m) (md_collar_lo m) (md_collar_hi m) (md_ff_lo m) (md_ff_hi m).
Definition no_md : MdState := mkMd 0 0 0 0 0 0 0.

Record RiskEngine := mkRisk {
  limits_ : RiskLimits;
  bucket_ : TokenBucket;
  stats_ : RiskStats;
  kill_ : Z;
  md_ : gmap Z MdState;
  portfolio_ : bool;
  fx_gate_ : bool;
  fx_on_ : bool;
  fx_stale_ : Duration;
  und_on_ : bool;
  fx_valid_ : gmap Z bool;
  fx_src_ : gmap Z FxSource;
  fx_ccy_ : gmap Z Z;
  und_count_ : Z;
  und_max_ : gmap Z Z;
  und_of_ : gmap Z Z;
  und_members_ : gmap Z InstrumentId;
  und_begin_ : gmap Z Z;
}.
#[export] Instance eta_risk : Eta RiskEngine := fun r =>
  mkRisk (limits_ r) (bucket_ r) (stats_ r) (kill_ r) (md_ r) (portfolio_ r) (fx_gate_ r) (fx_on_ r) (fx_stale_ r)
    (und_on_ r) (fx_valid_ r) (fx_src_ r) (fx_ccy_ r) (und_count_ r) (und_max_ r) (und_of_ r) (und_members_ r) (und_begin_ r).

Definition md_at (r : RiskEngine) (i : InstrumentId) : MdState := default no_md (md_ r !! i).
Definition fx_valid_at (r : RiskEngine) (c : Z) : bool := default false (fx_valid_ r !! c).
Definition fx_src_at (r : RiskEngine) (c : Z) : FxSource := default no_source (fx_src_ r !! c).
Definition fx_ccy_at (r : RiskEngine) (i : InstrumentId) : Z := default 0 (fx_ccy_ r !! i).
Definition und_max_at (r : RiskEngine) (u : Z) : Z := default 0 (und_max_ r !! u).
Definition und_of_at (r : RiskEngine) (i : InstrumentId) : Z := default 0 (und_of_ r !! i).
Definition und_member_at (r : RiskEngine) (k : Z) : InstrumentId := default kInvalidInstrument (und_members_ r !! k).
Definition und_begin_at (r : RiskEngine) (u : Z) : Z := default 0 (und_begin_ r !! u).

Definition update_flags (r : RiskEngine) : RiskEngine :=
  let gate := fx_on_ r && reads_totals (limits_ r) in
  r <| fx_gate_ := gate |>
    <| portfolio_ := gate || (0 <? max_gross_notional (limits_ r)) || (0 <? max_net_notional (limits_ r)) |>
    <| und_on_ := fold_left (fun on u => on || (0 <? und_max_at r u)) (seqZ 0 (und_count_ r)) false |>.

Definition set_limits (l : RiskLimits) (now : Timestamp) (r : RiskEngine) : RiskEngine :=
  let r := update_flags (r <| limits_ := l |>) in
  r <| bucket_ := configure (orders_per_sec l) (burst l) now |>.
Definition new_risk (l : RiskLimits) (now : Timestamp) : RiskEngine :=
  set_limits l now (mkRisk no_limits no_bucket no_stats 0 ∅ false false false 0 false ∅ ∅ ∅ 0 ∅ ∅ ∅ ∅).

(** *** Kill switch *)

Definition kKillVenueSlots : Z := 31.
Definition venue_bit (v : VenueId) : Z := Z.shiftl 1 (1 + (if v <? 31 then v else 30)).
Definition venue_slot (v : VenueId) : Z := if v <? kKillVenueSlots then v else kKillVenueSlots - 1.
Definition count_trip (r : RiskEngine) : RiskEngine := r <| stats_ ::= fun s => s <| rs_trips ::= fun x => u64 (x + 1) |> |>.
Definition trip (r : RiskEngine) : RiskEngine := count_trip (r <| kill_ ::= fun k => Z.lor k 1 |>).
Definition trip_venue (v : VenueId) (r : RiskEngine) : RiskEngine :=
  count_trip (r <| kill_ ::= fun k => Z.lor k (venue_bit v) |>).
Definition reset_kill (r : RiskEngine) : RiskEngine := r <| kill_ := 0 |>.
Definition reset_venue (v : VenueId) (r : RiskEngine) : RiskEngine :=
  r <| kill_ ::= fun k => Z.land k (u32 (Z.lnot (venue_bit v))) |>.
Definition killed (r : RiskEngine) : bool := negb (Z.land (kill_ r) 1 =? 0).
Definition venue_killed (r : RiskEngine) (v : VenueId) : bool := negb (Z.land (kill_ r) (venue_bit v) =? 0).

(** *** Market state *)

(** The band of [bps] around a price; no band when it is off or would not fit. *)
Definition band (px : Price) (bps : Z) : Price * Price :=
  if (0 <? bps) && (0 <? px) then
    let w := apply_bps px bps in
    match checked_add px w with
    | Some hi => (fx_sub px w, hi)
    | None => (0, 0)
    end
  else (0, 0).

Definition on_book (id : InstrumentId) (mid : Price) (ts : Timestamp) (r : RiskEngine) : RiskEngine :=
  if kMaxInstruments <=? id then r
  else
    let '(lo, hi) := band mid (price_collar_bps (limits_ r)) in
    r <| md_ := <[id := (md_at r id) <| md_book_ts := ts |> <| md_mid := mid |> <| md_collar_lo := lo |> <| md_collar_hi := hi |>]> (md_ r) |>.
Definition on_trade (id : InstrumentId) (px : Price) (r : RiskEngine) : RiskEngine :=
  if kMaxInstruments <=? id then r
  else
    let '(lo, hi) := band px (fat_finger_bps (limits_ r)) in
    r <| md_ := <[id := (md_at r id) <| md_last_trade := px |> <| md_ff_lo := lo |> <| md_ff_hi := hi |>]> (md_ r) |>.

Definition set_fx (plan : FxPlan) (r : RiskEngine) : RiskEngine :=
  let r := update_flags (r <| fx_on_ := fx_active plan |> <| fx_stale_ := fp_stale plan |>) in
  r <| fx_ccy_ := fp_ccy plan |> <| fx_src_ := fp_sources plan |> <| fx_valid_ := ∅ |>.
Definition set_underlying (plan : UnderlyingPlan) (r : RiskEngine) : RiskEngine :=
  update_flags (r <| und_count_ := up_count plan |> <| und_of_ := up_of plan |> <| und_members_ := up_members plan |>
    <| und_begin_ := up_begin plan |> <| und_max_ := up_max_net plan |>).
Definition set_underlying_limit (u : Z) (max_net : Qty) (r : RiskEngine) : bool * RiskEngine :=
  if (und_count_ r <=? u) || (max_net <? 0) then (false, r)
  else (true, update_flags (r <| und_max_ := <[u := max_net]> (und_max_ r) |>)).
Definition underlying_limit (r : RiskEngine) (u : Z) : Qty := if u <? kMaxUnderlyings then und_max_at r u else 0.

(** [now - ts > limit], or no time stamp, with a limit set. *)
Definition stale (limit : Duration) (ts now : Timestamp) : bool :=
  (0 <? limit) && (negb (ts_valid ts) || (limit <? i64 (now - ts))).

Definition underlying_mark (r : RiskEngine) (id : InstrumentId) (now : Timestamp) : Price :=
  if kMaxInstruments <=? id then 0
  else
    let md := md_at r id in
    if negb (0 <? md_mid md) then 0
    else if stale (stale_md (limits_ r)) (md_book_ts md) now then 0
    else md_mid md.

(** The instruments of underlying [u]: [members[begin[u] .. begin[u + 1])]. *)
Definition members (r : RiskEngine) (u : Z) : list InstrumentId :=
  und_member_at r <$> seqZ (und_begin_at r u) (und_begin_at r (u + 1) - und_begin_at r u).

Definition underlying_net (r : RiskEngine) (u : Z) (insts : InstrumentId -> Instrument) (now : Timestamp)
    (position_of : InstrumentId -> Qty) : bool * Z :=
  if und_count_ r <=? u then (false, 0)
  else
    fold_left (fun '(ok, net) j =>
        match to_base_units (insts j) (position_of j) (underlying_mark r j now) with
        | Some b => (ok, i64 (net + b))
        | None => (false, net)
        end) (members r u) (true, 0).

Fixpoint sum_inputs (r : RiskEngine) (insts : InstrumentId -> Instrument) (now : Timestamp)
    (position_of open_of : InstrumentId -> Qty) (js : list InstrumentId) (u : UnderlyingInputs) : UnderlyingInputs :=
  match js with
  | [] => u
  | j :: js =>
    let m := underlying_mark r j now in
    match to_base_units (insts j) (position_of j) m, to_base_units (insts j) (open_of j) m with
    | Some p, Some o => sum_inputs r insts now position_of open_of js
        (u <| u_net ::= fun x => i64 (x + p) |> <| u_open ::= fun x => i64 (x + o) |>)
    | _, _ => u <| u_known := false |>
    end
  end.
Definition underlying_inputs (r : RiskEngine) (id : InstrumentId) (insts : InstrumentId -> Instrument) (now : Timestamp)
    (position_of open_of : InstrumentId -> Qty) : UnderlyingInputs :=
  if (kMaxInstruments <=? id) || (und_of_at r id =? 0) then no_underlying
  else
    let u := und_of_at r id - 1 in
    if und_max_at r u <=? 0 then no_underlying
    else sum_inputs r insts now position_of open_of (members r u) (no_underlying <| u_limited := true |>).

Definition on_fx_book (c : Z) (valid : bool) (r : RiskEngine) : RiskEngine :=
  if c <? kMaxCurrencies then r <| fx_valid_ := <[c := valid]> (fx_valid_ r) |> else r.
Definition fx_rate (r : RiskEngine) (c : Z) (now : Timestamp) : FxRate :=
  if c =? 0 then identity_rate
  else if (kMaxCurrencies <=? c) || negb (fx_valid_at r c) || negb (instrument_valid (fs_instrument (fx_src_at r c))) then no_rate
  else
    let md := md_at r (fs_instrument (fx_src_at r c)) in
    if stale (fx_stale_ r) (md_book_ts md) now then no_rate
    else from_mid (md_mid md) (fs_invert (fx_src_at r c)).

Definition on_pnl (net : Notional) (r : RiskEngine) : bool * RiskEngine :=
  if (0 <? max_loss (limits_ r)) && (net <=? i64 (- max_loss (limits_ r))) && negb (killed r)
  then (true, trip r) else (false, r).

(** ** The checks *)

(** [reason] when the condition holds, none otherwise. *)
Definition refuse (reason : RejectReason) (c : bool) : RejectReason := if c then reason else NoReason.
(** The first reason of a sequence of checks. *)
Definition is_none (r : RejectReason) : bool := match r with NoReason => true | _ => false end.
Fixpoint first_reason (l : list RejectReason) : RejectReason :=
  match l with [] => NoReason | r :: l => if is_none r then first_reason l else r end.

Definition market (o : OrderIntent) : bool := bool_decide (i_type o = Market).
Definition may_rest (o : OrderIntent) : bool :=
  negb (market o) && negb (bool_decide (i_tif o = Ioc)) && negb (bool_decide (i_tif o = Fok)).
(** Our open orders on the order's side that it would trade behind. *)
Definition ahead_of (inp : RiskInputs) (exclude_open : Qty) : Z := i64 (ri_open_same_side inp - exclude_open).
Definition reduces_position (o : OrderIntent) (inp : RiskInputs) (exclude_open : Qty) : bool :=
  match ri_position inp with
  | Some p => opening_qty (p_qty p) (i_side o) (ahead_of inp exclude_open) (i_qty o) =? 0
  | None => false
  end.
Definition at_or_better_cross (side : Side) (px own_opposite : Price) : bool :=
  match side with Buy => own_opposite <=? px | Sell => px <=? own_opposite end.

Definition raw_abs (x : Z) : Z := if x <? 0 then i64 (- x) else x.

Definition check_position (r : RiskEngine) (o : OrderIntent) (inp : RiskInputs) (exclude_open : Qty) : RejectReason :=
  match ri_position inp with
  | Some p =>
    if 0 <? max_position (limits_ r) then
      let predicted := i64 (p_qty p + i64 (sign (i_side o) * i64 (ahead_of inp exclude_open + i_qty o))) in
      refuse MaxPosition ((max_position (limits_ r) <? raw_abs predicted) && (raw_abs (p_qty p) <? raw_abs predicted))
    else NoReason
  | None => NoReason
  end.

Definition check_exposure (r : RiskEngine) (o : OrderIntent) (inp : RiskInputs) (opens : Z) (exposure : Notional) : RejectReason :=
  let net := fx_add (ri_net_exposure inp) (match i_side o with Buy => exposure | Sell => fx_sub 0 exposure end) in
  first_reason [
    refuse MaxGrossNotional ((0 <? max_gross_notional (limits_ r)) &&
      (max_gross_notional (limits_ r) <? fx_add (ri_gross_exposure inp) (notional_share exposure opens (i_qty o))));
    refuse MaxNetNotional ((0 <? max_net_notional (limits_ r)) &&
      (max_net_notional (limits_ r) <? fx_abs net) && (fx_abs (ri_net_exposure inp) <? fx_abs net)) ].

Definition check_portfolio (r : RiskEngine) (o : OrderIntent) (inp : RiskInputs) (exclude_open : Qty) (n : Notional) : RejectReason :=
  match ri_position inp with
  | Some p =>
    if portfolio_ r then
      let opens := opening_qty (p_qty p) (i_side o) (ahead_of inp exclude_open) (i_qty o) in
      if 0 <? opens then
        let c := fx_ccy_at r (i_instrument o) in
        if fx_gate_ r && negb (c =? 0) then
          let rate := fx_rate r c (ri_now inp) in
          if negb (known rate) then FxRateUnknown
          else check_exposure r o inp opens (convert n rate)
        else check_exposure r o inp opens n
      else NoReason
    else NoReason
  | None => NoReason
  end.

Definition check_underlying (r : RiskEngine) (o : OrderIntent) (inst : Instrument) (inp : RiskInputs) (exclude_open : Qty) : RejectReason :=
  match ri_position inp with
  | Some _ =>
    if u_limited (ri_underlying inp) then
      if negb (u_known (ri_underlying inp)) then UnderlyingMarkUnknown
      else match to_base_units inst (i64 (i_qty o - exclude_open)) (underlying_mark r (i_instrument o) (ri_now inp)) with
      | None => UnderlyingMarkUnknown
      | Some add =>
        let net := u_net (ri_underlying inp) in
        let worst := i64 (net + i64 (sign (i_side o) * i64 (u_open (ri_underlying inp) + add))) in
        refuse MaxUnderlyingNet (underlying_exceeds (und_max_at r (und_of_at r (i_instrument o) - 1)) net worst)
      end
    else NoReason
  | None => NoReason
  end.

Definition check_reduce_only (o : OrderIntent) (inp : RiskInputs) (exclude_open : Qty) : RejectReason :=
  match ri_position inp with
  | Some p => refuse ReduceOnly (ri_reduce_only inp && negb (nearer_zero (p_qty p) (i_side o) (ahead_of inp exclude_open) (i_qty o)))
  | None => NoReason
  end.

(** The checks of [evaluate] up to the token bucket, in their order. *)
Definition verdict (r : RiskEngine) (o : OrderIntent) (inst : Instrument) (inp : RiskInputs) (exclude_open : Qty)
    (count_order : bool) : RejectReason :=
  let md := md_at r (i_instrument o) in
  let l := limits_ r in
  let n := notional inst (if market o then md_mid md else i_price o) (i_qty o) in
  first_reason [
    refuse KillSwitch (killed r && negb (ri_flatten inp));
    refuse VenueKilled (venue_killed r (i_venue o));
    refuse InstrumentDisabled (negb (enabled inst) || (kMaxInstruments <=? i_instrument o));
    refuse InvalidTick (negb (market o) && negb (valid_price inst (i_price o)));
    refuse InvalidLot (negb (valid_qty inst (i_qty o)));
    refuse BelowMinNotional ((0 <? in_min_notional inst) && (n <? in_min_notional inst));
    refuse StaleMarketData (stale (stale_md l) (md_book_ts md) (ri_now inp));
    refuse FeedLag (ri_feed_lagged inp && may_rest o && negb (reduces_position o inp exclude_open));
    refuse PriceCollar (negb (market o) && (0 <? md_collar_hi md) && ((i_price o <? md_collar_lo md) || (md_collar_hi md <? i_price o)));
    refuse FatFinger (negb (market o) && (0 <? md_ff_hi md) && ((i_price o <? md_ff_lo md) || (md_ff_hi md <? i_price o)));
    refuse MaxOrderQty ((0 <? max_order_qty l) && (max_order_qty l <? i_qty o));
    refuse MaxOrderNotional ((0 <? max_order_notional l) && (max_order_notional l <? n));
    check_reduce_only o inp exclude_open;
    check_position r o inp exclude_open;
    check_portfolio r o inp exclude_open n;
    check_underlying r o inst inp exclude_open;
    refuse MaxOpenOrders (count_order && (0 <? max_open_orders l) && (max_open_orders l <=? ri_open_orders inp));
    refuse SelfTradePrevention (stp l && negb (market o) && (0 <? ri_best_own_opposite inp) &&
      at_or_better_cross (i_side o) (i_price o) (ri_best_own_opposite inp));
    refuse BalanceShort (ri_balance_short inp);
    refuse VenueKilled (ri_primary_killed inp);
    refuse RateLimit (ri_account_full inp) ].

Definition evaluate (r : RiskEngine) (o : OrderIntent) (inst : Instrument) (inp : RiskInputs) (exclude_open : Qty)
    (count_order : bool) : RejectReason * TokenBucket :=
  let reason := verdict r o inst inp exclude_open count_order in
  if is_none reason then let '(ok, b) := try_take (ri_now inp) (bucket_ r) in (if ok then NoReason else RateLimit, b)
  else (reason, bucket_ r).

Definition check (o : OrderIntent) (inst : Instrument) (inp : RiskInputs) (exclude_open : Qty) (count_order : bool)
    (r : RiskEngine) : RejectReason * RiskEngine :=
  let r := r <| stats_ ::= fun s => s <| rs_checks ::= fun x => u64 (x + 1) |> |> in
  let '(reason, b) := evaluate r o inst inp exclude_open count_order in
  let r := r <| bucket_ := b |> in
  (reason,
   if is_none reason then r <| stats_ ::= fun s => s <| rs_passed ::= fun x => u64 (x + 1) |> |>
   else r <| stats_ ::= fun s => s <| rs_rejects := <[reason_code reason := u64 (rejects_at s (reason_code reason) + 1)]> (rs_rejects s) |> |>).
Definition check_new (o : OrderIntent) (inst : Instrument) (inp : RiskInputs) (r : RiskEngine) : RejectReason * RiskEngine :=
  check o inst inp 0 true r.
Definition check_replace (o : OrderIntent) (existing : Order) (inst : Instrument) (inp : RiskInputs) (r : RiskEngine) :
    RejectReason * RiskEngine :=
  check o inst inp (leaves_qty existing) false r.

(** ** Headroom *)

Record RiskHeadroom := mkHeadroom {
  h_order_tokens : Z;
  h_open_orders : Z;
  h_max_order_qty : Qty;
  h_max_order_notional : Notional;
  h_buy_qty : Qty;
  h_sell_qty : Qty;
  h_underlying_buy_qty : Qty;
  h_underlying_sell_qty : Qty;
  h_gross_notional : Notional;
  h_net_buy_notional : Notional;
  h_net_sell_notional : Notional;
  h_exposure_buy_notional : Notional;
  h_exposure_sell_notional : Notional;
  h_loss_budget : Notional;
  h_balance_buy_qty : Qty;
  h_balance_sell_qty : Qty;
}.

Definition lot_floor (inst : Instrument) (raw : Z) : Qty :=
  if raw <=? 0 then 0 else if negb (0 <? in_lot inst) then raw else i64 (raw - Z.rem raw (in_lot inst)).
Definition to_own (n : Notional) (rate : FxRate) : Notional :=
  if (n =? i64_max) || (fx_num rate =? fx_den rate) then n
  else
    let x := i128 (Z.quot (i128 (n * fx_den rate)) (fx_num rate)) in
    if i64_max <=? x then i64_max else i64 x.
Definition at_least_zero (x : Z) : Z := if 0 <? x then x else 0.

(** Room of a directed cap [m] over [q], measured in the order's direction, after [open]. *)
Definition cap_room (m q open : Z) : Z :=
  let b := i64 (i64 (m - q) - open) in
  if q <? 0 then Z.max b (i64 (i64 (-2 * q) - open)) else b.

Definition exposure_room (r : RiskEngine) (inst : Instrument) (q : Z) (now : Timestamp) (gross : Notional)
    (is_buy : bool) (open : Qty) (net : Notional) : Notional :=
  let c := fx_ccy_at r (in_id inst) in
  let mid := md_mid (md_at r (in_id inst)) in
  let left := if negb (q =? 0) && negb (Bool.eqb (0 <? q) is_buy) then i64 (raw_abs q - open) else 0 in
  let closes := if (0 <? left) && (0 <? mid) then notional inst mid left else 0 in
  let room g n :=
    let opened := if (g =? i64_max) || (i64 (i64_max - g) <? closes) then i64_max else fx_add closes g in
    Z.max closes (Z.min opened n) in
  if fx_gate_ r && negb (c =? 0) then
    let rate := fx_rate r c now in
    if negb (known rate) then closes else room (to_own gross rate) (to_own net rate)
  else room gross net.

Definition underlying_room (r : RiskEngine) (inst : Instrument) (now : Timestamp) (u : UnderlyingInputs) (is_buy : bool) : Qty :=
  let m := und_max_at r (und_of_at r (in_id inst) - 1) in
  let mark := underlying_mark r (in_id inst) now in
  if negb (u_known u) || (inverse inst && negb (0 <? mark)) then 0
  else
    let q := if is_buy then u_net u else i64 (- u_net u) in
    let room := cap_room m q (u_open u) in
    if room <=? 0 then 0
    else lot_floor inst (i64 (i128 (Z.quot (i128 (room * (if inverse inst then mark else kFixedScale))) (in_contract_multiplier inst)))).

Definition headroom (r : RiskEngine) (inst : Instrument) (buy sell : RiskInputs) (net_pnl : Notional) : RiskHeadroom :=
  let l := limits_ r in
  let in_range := in_id inst <? kMaxInstruments in
  let n := ri_net_exposure buy in
  let gross := if 0 <? max_gross_notional l then at_least_zero (i64 (max_gross_notional l - ri_gross_exposure buy)) else i64_max in
  let net_buy := if 0 <? max_net_notional l then at_least_zero (cap_room (max_net_notional l) n 0) else i64_max in
  let net_sell := if 0 <? max_net_notional l then at_least_zero (cap_room (max_net_notional l) (- n) 0) else i64_max in
  let position_room is_buy :=
    match ri_position buy with
    | Some p => if 0 <? max_position l
        then lot_floor inst (cap_room (max_position l) (if is_buy : bool then p_qty p else - p_qty p)
                                      (ri_open_same_side (if is_buy then buy else sell)))
        else i64_max
    | None => i64_max
    end in
  let exposure is_buy net :=
    match ri_position buy with
    | Some p => if portfolio_ r && in_range
        then exposure_room r inst (p_qty p) (ri_now buy) gross is_buy (ri_open_same_side (if is_buy : bool then buy else sell)) net
        else i64_max
    | None => i64_max
    end in
  let underlying is_buy :=
    if u_limited (ri_underlying buy) && in_range
    then underlying_room r inst (ri_now buy) (ri_underlying (if is_buy : bool then buy else sell)) is_buy else i64_max in
  {| h_order_tokens := available (bucket_ r) (ri_now buy);
     h_open_orders := if 0 <? max_open_orders l then at_least_zero (max_open_orders l - ri_open_orders buy) else i64_max;
     h_max_order_qty := if 0 <? max_order_qty l then max_order_qty l else i64_max;
     h_max_order_notional := if 0 <? max_order_notional l then max_order_notional l else i64_max;
     h_buy_qty := position_room true;
     h_sell_qty := position_room false;
     h_underlying_buy_qty := underlying true;
     h_underlying_sell_qty := underlying false;
     h_gross_notional := gross;
     h_net_buy_notional := net_buy;
     h_net_sell_notional := net_sell;
     h_exposure_buy_notional := exposure true net_buy;
     h_exposure_sell_notional := exposure false net_sell;
     h_loss_budget := if 0 <? max_loss l then i64 (max_loss l + net_pnl) else i64_max;
     h_balance_buy_qty := i64_max;
     h_balance_sell_qty := i64_max |}.
