(* ===== verification/RiskProps.v ===== *)
(** * RiskProps: what the pre-trade checks guarantee

    The rate limiter bounds what it grants and says exactly what it would grant next;
    an order that passes is inside every limit; an order that only closes a position is
    never refused by the caps; the kill switch reaches exactly the venues it names; the
    headroom is exactly what the position check admits; the counters account for every
    check. *)

From S2P Require Import Prelude Types FixedPoint MapSum Instruments Orders Position Risk.

(** ** The token bucket *)

Record bucket_ok (b : TokenBucket) : Prop := {
  bo_rate : 0 <= tb_rate b < 2 ^ 32;
  bo_capacity : 0 <= tb_capacity b < 2 ^ 52;
  bo_tokens : 0 <= tb_tokens b <= tb_capacity b;
}.

(** The refill at [now] fits its [int64]. *)
Definition refill_fits (b : TokenBucket) (now : Timestamp) : Prop :=
  now - tb_last b < 2 ^ 63 /\ (now - tb_last b) * tb_rate b <= 2 ^ 62 * 1000.

Lemma configure_ok rate burst now : 0 <= rate < 2 ^ 32 -> 0 <= burst < 2 ^ 32 -> bucket_ok (configure rate burst now).
Proof.
  intros Hr Hb. assert (Hc : 0 <= (if burst =? 0 then rate else burst) < 2 ^ 32) by (case_if; lia).
  unfold configure. rewrite i64_id by (unfold kScale; width). unfold kScale. split; cbn; lia.
Qed.

Lemma i128_id z : - 2 ^ 127 <= z < 2 ^ 127 -> i128 z = z.
Proof. intros H. unfold i128. rewrite Z.mod_small; lia. Qed.

Lemma accrued_eq b now : bucket_ok b -> tb_last b <= now -> refill_fits b now ->
  accrued b now = (now - tb_last b) * tb_rate b / 1000 /\ 0 <= (now - tb_last b) * tb_rate b / 1000 <= 2 ^ 62.
Proof.
  intros [Hr _ _] Hl [He Hf]. unfold accrued. set (e := now - tb_last b) in *. assert (0 <= e) by lia.
  assert (0 <= e * tb_rate b) by nia. rewrite (i64_id e) by width.
  rewrite (i128_id (e * tb_rate b)) by lia. unfold kScale, kNsPerSec.
  rewrite (i128_id (e * tb_rate b * 1000000)) by lia.
  rewrite Z.quot_div_nonneg by lia.
  replace (e * tb_rate b * 1000000 / 1000000000) with (e * tb_rate b / 1000)
    by (replace 1000000000 with (1000 * 1000000) by reflexivity; by rewrite Z.div_mul_cancel_r).
  assert (0 <= e * tb_rate b / 1000 <= 2 ^ 62)
    by (split; [apply Z.div_pos; lia | apply Z.div_le_upper_bound; lia]).
  rewrite i128_id by lia. rewrite i64_id by width. done.
Qed.

(** A refill adds the whole millionths accrued, up to the capacity. *)
Lemma refill_eq b now : bucket_ok b -> tb_last b < now -> refill_fits b now ->
  refill now b = mkBucket (tb_rate b) (tb_capacity b)
    (Z.min (tb_capacity b) (tb_tokens b + (now - tb_last b) * tb_rate b / 1000)) now.
Proof.
  intros Hb Hl Hf. destruct (accrued_eq b now Hb ltac:(lia) Hf) as [Ea Ha]. destruct Hb as [Hr Hc Ht].
  unfold refill. destruct (Z.leb_spec now (tb_last b)); [lia|]. rewrite Ea, i64_id by width.
  cbv [fupd]. cbn. f_equal. case_if; lia.
Qed.
Lemma refill_ok b now : bucket_ok b -> refill_fits b now -> bucket_ok (refill now b).
Proof.
  intros Hb Hf. destruct (Z.le_gt_cases now (tb_last b)) as [Hl|Hl].
  - unfold refill. by rewrite (proj2 (Z.leb_le _ _) Hl).
  - rewrite refill_eq by done. destruct (accrued_eq b now Hb ltac:(lia) Hf) as [_ Ha]. destruct Hb as [Hr Hc Ht].
    split; cbn; lia.
Qed.

Lemma try_take_eq b now : bucket_ok b -> tb_rate b <> 0 -> refill_fits b now ->
  try_take now b = (if tb_tokens (refill now b) <? kScale then (false, refill now b)
                    else (true, (refill now b) <| tb_tokens := tb_tokens (refill now b) - kScale |>)).
Proof.
  intros Hb Hr Hf. unfold try_take. rewrite (proj2 (Z.eqb_neq _ _) Hr). case_if; [done|].
  destruct (refill_ok b now Hb Hf) as [_ Hc Ht]. cbv [fupd]. rewrite i64_id; [done|]. unfold kScale in *. width.
Qed.

(** The grants of a sequence of requests, and the bucket after it. *)
Fixpoint takes (ts : list Timestamp) (b : TokenBucket) : Z * TokenBucket :=
  match ts with
  | [] => (0, b)
  | t :: ts => let '(ok, b) := try_take t b in let '(n, b) := takes ts b in ((if ok then 1 else 0) + n, b)
  end.

(** What the bucket can still grant by [T], in 1e-9 of a token. *)
Definition potential (b : TokenBucket) (T : Timestamp) : Z := tb_tokens b * 1000 + (T - tb_last b) * tb_rate b.

Lemma refill_potential b now T : bucket_ok b -> refill_fits b now -> tb_last b <= T -> now <= T ->
  potential (refill now b) T <= potential b T /\ tb_last (refill now b) <= T /\ tb_last b <= tb_last (refill now b) /\
  tb_rate (refill now b) = tb_rate b.
Proof.
  intros Hb Hf HT Hn. destruct (Z.le_gt_cases now (tb_last b)) as [Hl|Hl].
  - unfold refill. rewrite (proj2 (Z.leb_le _ _) Hl). lia.
  - rewrite refill_eq by done. unfold potential. cbn.
    pose proof (Z.mul_div_le ((now - tb_last b) * tb_rate b) 1000 ltac:(lia)).
    replace ((T - tb_last b) * tb_rate b) with ((T - now) * tb_rate b + (now - tb_last b) * tb_rate b) by ring. lia.
Qed.

Lemma fits_le b T now : bucket_ok b -> refill_fits b T -> now <= T -> refill_fits b now.
Proof. intros [Hr _ _] [H1 H2] Hn. split; [lia|]. nia. Qed.
Lemma fits_later b b' T : refill_fits b T -> tb_last b <= tb_last b' -> 0 <= tb_rate b -> tb_rate b' = tb_rate b -> refill_fits b' T.
Proof. intros [H1 H2] Hl Hr He. split; [lia|]. rewrite He. nia. Qed.

Lemma take_potential b now T : bucket_ok b -> tb_rate b <> 0 -> refill_fits b T -> tb_last b <= T -> now <= T ->
  let '(ok, b') := try_take now b in
  bucket_ok b' /\ (if ok then kScale * 1000 else 0) + potential b' T <= potential b T /\
  tb_last b' <= T /\ refill_fits b' T /\ tb_rate b' = tb_rate b.
Proof.
  intros Hb Hr Hf HT Hn. pose proof (fits_le b T now Hb Hf Hn) as Hfn.
  rewrite try_take_eq by done. destruct (refill_potential b now T Hb Hfn HT Hn) as (Hp & Hl1 & Hl2 & Hrr).
  pose proof (refill_ok b now Hb Hfn) as Hb'. pose proof (fits_later b _ T Hf Hl2 (proj1 (bo_rate b Hb)) Hrr) as Hf'.
  destruct (Z.ltb_spec (tb_tokens (refill now b)) kScale) as [Ht|Ht]; [by split_and!|].
  unfold potential in *. unfold kScale in *. cbv [fupd]. cbn.
  split_and!; [|lia|done|exact Hf'|done]. destruct Hb' as [? ? ?]. split; cbn; lia.
Qed.

(** Over any sequence of requests made by time [T] the rate limiter grants no more than the
    tokens it held plus what the rate accrues until [T] ([g] tokens cost [10^9 g]; the rate earns
    [rate] per nanosecond); so from any state, in any window, at most [burst + rate * window] orders
    pass, and the bucket stays between empty and its capacity. *)
Theorem bucket_rate_bound b ts T : bucket_ok b -> tb_rate b <> 0 -> tb_last b <= T -> refill_fits b T -> Forall (fun t => t <= T) ts ->
  let '(g, b') := takes ts b in
  kNsPerSec * g <= 1000 * tb_tokens b + (T - tb_last b) * tb_rate b /\ bucket_ok b'.
Proof.
  intros Hb Hr Hl Hf Hts.
  enough (H : let '(g, b') := takes ts b in kNsPerSec * g + potential b' T <= potential b T /\ 0 <= potential b' T /\ bucket_ok b').
  { destruct (takes ts b) as [g b']. destruct H as (H1 & H2 & H3). unfold potential in *. split; [lia|done]. }
  revert b Hb Hr Hl Hf. induction Hts as [|t ts Ht Hts IH]; intros b Hb Hr Hl Hf; cbn [takes].
  - split_and!; [lia| |done]. unfold potential. destruct Hb as [? ? ?]. nia.
  - pose proof (take_potential b t T Hb Hr Hf Hl Ht) as Hstep. destruct (try_take t b) as [ok b1].
    destruct Hstep as (Hb1 & Hp & Hl1 & Hf1 & Hr1). specialize (IH b1 Hb1 ltac:(lia) Hl1 Hf1).
    destruct (takes ts b1) as [g b']. destruct IH as (I1 & I2 & I3). split_and!; [|done|done].
    unfold kScale, kNsPerSec in *. destruct ok; lia.
Qed.

Definition bucket3 : TokenBucket := configure 2 3 1000.
(** Three tokens at once; half a second later the next. *)
Lemma bucket_rate_bound_witness :
  let '(g, b') := takes [1000; 1000; 1000; 1000; 500001000] bucket3 in g = 4 /\ kNsPerSec * g <= 1000 * tb_tokens bucket3 + (500001000 - 1000) * 2 /\ bucket_ok b'.
Proof.
  destruct (takes [1000; 1000; 1000; 1000; 500001000] bucket3) as [g b'] eqn:E.
  pose proof (bucket_rate_bound bucket3 [1000; 1000; 1000; 1000; 500001000] 500001000
    (configure_ok 2 3 1000 ltac:(lia) ltac:(lia)) ltac:(vm_compute; discriminate) ltac:(vm_compute; discriminate)
    ltac:(split; vm_compute; [reflexivity | discriminate]) ltac:(repeat constructor; vm_compute; discriminate)) as H.
  rewrite E in H. destruct H as [H1 H2]. split_and!; [|exact H1|exact H2]. vm_compute in E. by injection E.
Defined.

Lemma available_eq b now : bucket_ok b -> tb_rate b <> 0 -> refill_fits b now ->
  available b now = tb_tokens (refill now b) / kScale.
Proof.
  intros Hb Hr Hf. pose proof (refill_ok b now Hb Hf) as Hb'. unfold available. rewrite (proj2 (Z.eqb_neq _ _) Hr).
  rewrite <- Z.quot_div_nonneg by (destruct Hb'; unfold kScale; lia). f_equal. unfold refill.
  destruct (Z.leb_spec now (tb_last b)), (Z.ltb_spec (tb_last b) now); try lia; done.
Qed.

(** Once refilled at [now], a request at [now] only compares and subtracts. *)
Lemma refill_same b now : tb_last b = now -> refill now b = b.
Proof. intros <-. unfold refill. by rewrite Z.leb_refl. Qed.
Lemma refill_early b now : now <= tb_last b -> refill now b = b.
Proof. intros H. unfold refill. by rewrite (proj2 (Z.leb_le _ _) H). Qed.
Lemma takes_again b now n : bucket_ok b -> tb_rate b <> 0 -> now <= tb_last b ->
  fst (takes (replicate n now) b) = Z.min (Z.of_nat n) (tb_tokens b / kScale).
Proof.
  revert b. induction n as [|n IH]; intros b Hb Hr Hl; [destruct Hb; pose proof (Z.div_pos (tb_tokens b) kScale); unfold kScale in *; cbn; lia|].
  assert (Ef : refill now b = b) by (unfold refill; by rewrite (proj2 (Z.leb_le _ _) Hl)).
  cbn [replicate takes]. unfold try_take. rewrite (proj2 (Z.eqb_neq _ _) Hr), Ef. destruct Hb as [H1 H2 H3]. unfold kScale in *.
  destruct (Z.ltb_spec (tb_tokens b) 1000000) as [Ht|Ht].
  - specialize (IH b (Build_bucket_ok b H1 H2 H3) Hr Hl). destruct (takes (replicate n now) b) as [g b']. cbn in *.
    rewrite Z.div_small in * by lia. lia.
  - cbv [fupd]. rewrite i64_id by width. set (b1 := mkBucket _ _ _ _).
    specialize (IH b1 ltac:(split; unfold b1; cbn; lia) Hr Hl). destruct (takes (replicate n now) b1) as [g b'].
    cbn in IH |- *. replace (tb_tokens b - 1000000) with (tb_tokens b + (-1) * 1000000) in IH by lia.
    rewrite Z.div_add in IH by lia. lia.
Qed.

(** [available] is exactly the number of requests the rate limiter would grant now: of [n] requests
    made at [now], [min n (available now)] pass. *)
Theorem available_exact b now n : bucket_ok b -> tb_rate b <> 0 -> refill_fits b now ->
  fst (takes (replicate n now) b) = Z.min (Z.of_nat n) (available b now).
Proof.
  intros Hb Hr Hf. rewrite available_eq by done. destruct n as [|n].
  { pose proof (refill_ok b now Hb Hf) as [_ _ H]. pose proof (Z.div_pos (tb_tokens (refill now b)) kScale). unfold kScale in *. cbn; lia. }
  assert (E : forall l, takes (now :: l) b = takes (now :: l) (refill now b)).
  { intros l. cbn [takes]. unfold try_take at 1 2. assert (Er : tb_rate (refill now b) = tb_rate b) by (unfold refill; by case_if).
    rewrite Er, (proj2 (Z.eqb_neq _ _) Hr). assert (Ei : refill now (refill now b) = refill now b); [|by rewrite Ei].
    destruct (Z.le_gt_cases now (tb_last b)) as [Hn|Hn]; [by rewrite !(refill_early b)|]. apply refill_same. unfold refill. by rewrite (proj2 (Z.leb_gt _ _) Hn). }
  cbn [replicate]. rewrite E. apply (takes_again (refill now b) now (S n)); [by apply refill_ok | unfold refill; by case_if |].
  unfold refill. case_if; cbn; lia.
Qed.

Lemma available_exact_witness : fst (takes (replicate 5 2000) bucket3) = 3.
Proof.
  rewrite (available_exact bucket3 2000 5 (configure_ok 2 3 1000 ltac:(lia) ltac:(lia)) ltac:(vm_compute; discriminate)
    ltac:(split; vm_compute; [reflexivity | discriminate])). vm_compute. reflexivity.
Defined.

(** The millionths [wait_ns] counts: not capped. *)
Definition level (b : TokenBucket) (now : Timestamp) : Z := tb_tokens b + (now - tb_last b) * tb_rate b / 1000.

Lemma ceil_div need per : 0 < per -> need <= per * ((need + per - 1) / per) < need + per.
Proof. intros Hp. pose proof (Z.div_mod (need + per - 1) per ltac:(lia)). pose proof (Z.mod_pos_bound (need + per - 1) per Hp). lia. Qed.

Lemma wait_eq b now : bucket_ok b -> 0 < tb_rate b -> tb_last b <= now -> refill_fits b now ->
  wait_ns b now = if kScale <=? level b now then 0 else (1000 * (kScale - level b now) + tb_rate b - 1) / tb_rate b.
Proof.
  intros Hb Hr Hl Hf. destruct (accrued_eq b now Hb Hl Hf) as [Ea Ha]. destruct Hb as [H1 H2 H3].
  unfold wait_ns. destruct (Z.eqb_spec (tb_rate b) 0); [lia|].
  assert (El : (if tb_last b <? now then i64 (tb_tokens b + accrued b now) else tb_tokens b) = level b now).
  { unfold level. destruct (Z.ltb_spec (tb_last b) now).
    - rewrite Ea. apply i64_id. width.
    - replace (now - tb_last b) with 0 by lia. rewrite Z.mul_0_l, Z.div_0_l by lia. lia. }
  rewrite El. destruct (Z.leb_spec kScale (level b now)) as [Hk|Hk]; [done|].
  assert (Hlv : 0 <= level b now) by (unfold level; lia). unfold kScale, kNsPerSec in *.
  rewrite (i64_id (1000000 - level b now)) by width. rewrite (i128_id ((1000000 - level b now) * 1000000000)) by lia.
  rewrite (i128_id (tb_rate b * 1000000)) by lia. rewrite (i128_id ((1000000 - level b now) * 1000000000 + tb_rate b * 1000000)) by lia.
  rewrite (i128_id (_ - 1)) by lia. rewrite Z.quot_div_nonneg by lia.
  assert (E : ((1000000 - level b now) * 1000000000 + tb_rate b * 1000000 - 1) / (tb_rate b * 1000000) =
              (1000 * (1000000 - level b now) + tb_rate b - 1) / tb_rate b).
  { set (x := 1000 * (1000000 - level b now)). replace ((1000000 - level b now) * 1000000000) with (x * 1000000) by (unfold x; lia).
    symmetry. apply Z.div_unique with (r := (((x + tb_rate b - 1) mod tb_rate b) * 1000000 + 999999)).
    - left. pose proof (Z.mod_pos_bound (x + tb_rate b - 1) (tb_rate b) ltac:(lia)). lia.
    - pose proof (Z.div_mod (x + tb_rate b - 1) (tb_rate b) ltac:(lia)). nia. }
  rewrite E. pose proof (ceil_div (1000 * (1000000 - level b now)) (tb_rate b) Hr) as Hc.
  assert (0 <= (1000 * (1000000 - level b now) + tb_rate b - 1) / tb_rate b <= 2 ^ 33) by nia.
  rewrite i128_id by lia. apply i64_id. width.
Qed.

Lemma try_take_level b t : bucket_ok b -> 0 < tb_rate b -> kScale <= tb_capacity b -> tb_last b <= t -> refill_fits b t ->
  fst (try_take t b) = (kScale <=? level b t).
Proof.
  intros Hb Hr Hc Hl Hf. rewrite try_take_eq by (done || lia).
  assert (E : tb_tokens (refill t b) = Z.min (tb_capacity b) (level b t)).
  { destruct (Z.le_gt_cases t (tb_last b)) as [H|H]; [|by rewrite refill_eq].
    rewrite refill_early by done. unfold level. replace (t - tb_last b) with 0 by lia. rewrite Z.mul_0_l, Z.div_0_l by lia.
    destruct Hb; lia. }
  rewrite E. destruct (Z.ltb_spec (Z.min (tb_capacity b) (level b t)) kScale), (Z.leb_spec kScale (level b t)); cbn; lia.
Qed.

Lemma div_add_bounds a b c : 0 < c -> a / c + b / c <= (a + b) / c <= a / c + b / c + 1.
Proof.
  intros Hc. pose proof (Z.div_mod a c ltac:(lia)). pose proof (Z.div_mod b c ltac:(lia)). pose proof (Z.div_mod (a + b) c ltac:(lia)).
  pose proof (Z.mod_pos_bound a c Hc). pose proof (Z.mod_pos_bound b c Hc). pose proof (Z.mod_pos_bound (a + b) c Hc). nia.
Qed.

Lemma level_later b now d : 0 <= tb_rate b -> level b now + d * tb_rate b / 1000 <= level b (now + d) <= level b now + d * tb_rate b / 1000 + 1.
Proof.
  intros Hr. unfold level. replace ((now + d - tb_last b) * tb_rate b) with ((now - tb_last b) * tb_rate b + d * tb_rate b) by ring.
  pose proof (div_add_bounds ((now - tb_last b) * tb_rate b) (d * tb_rate b) 1000 ltac:(lia)). lia.
Qed.

(** A caller that waits [wait_ns] is granted: it is at most a second, and a request that long after
    [now] passes.  It does not wait much too long either: an earlier time at which a request would pass
    is before it by no more than the time of one millionth of a token and one nanosecond. *)
Theorem wait_ns_sound b now : bucket_ok b -> 0 < tb_rate b -> kScale <= tb_capacity b -> tb_last b <= now ->
  refill_fits b (now + kNsPerSec) ->
  0 <= wait_ns b now <= kNsPerSec /\
  fst (try_take (now + wait_ns b now) b) = true /\
  (forall d, 0 <= d <= wait_ns b now -> fst (try_take (now + d) b) = true ->
     (wait_ns b now - d) * tb_rate b < 1000 + tb_rate b).
Proof.
  intros Hb Hr Hc Hl Hf. assert (Hfits : forall t, t <= now + kNsPerSec -> refill_fits b t) by (intros t Ht; by eapply fits_le).
  assert (Hfn : refill_fits b now) by (apply Hfits; unfold kNsPerSec; lia).
  assert (Hlv : 0 <= level b now) by (destruct (accrued_eq b now Hb Hl Hfn) as [_ ?]; destruct Hb; unfold level; lia).
  assert (Hw : 0 <= wait_ns b now <= kNsPerSec /\ kScale <= level b now + wait_ns b now * tb_rate b / 1000 /\
               wait_ns b now * tb_rate b < Z.max 0 (1000 * (kScale - level b now)) + tb_rate b).
  { rewrite wait_eq by done. unfold kScale, kNsPerSec in *. destruct (Z.leb_spec 1000000 (level b now)) as [H|H]; [rewrite Z.mul_0_l, Z.div_0_l by lia; lia|].
    pose proof (ceil_div (1000 * (1000000 - level b now)) (tb_rate b) Hr) as Hd. set (w := _ / tb_rate b) in *.
    assert (1000000 - level b now <= w * tb_rate b / 1000) by (apply Z.div_le_lower_bound; lia). clearbody w.
    assert (0 < w) by nia. assert (w <= 1000000000) by (apply Z.le_ngt; intros Hw; assert (tb_rate b * 1000000000 <= tb_rate b * (w - 1)) by nia; nia).
    split_and!; lia. }
  destruct Hw as (Hw & Hge & Hlt). split; [done|]. split.
  - rewrite try_take_level by (done || lia || apply Hfits; lia). pose proof (level_later b now (wait_ns b now) ltac:(lia)). lia.
  - intros d Hd. rewrite try_take_level by (done || lia || apply Hfits; lia). intros Hk.
    pose proof (level_later b now d ltac:(lia)). pose proof (Z.mul_div_le (d * tb_rate b) 1000 ltac:(lia)).
    assert (0 <= d * tb_rate b) by nia. replace ((wait_ns b now - d) * tb_rate b) with (wait_ns b now * tb_rate b - d * tb_rate b) by ring. lia.
Qed.

(** One order per second, the token just spent, 999 ns later. *)
Definition spent : TokenBucket := snd (try_take 0 (configure 1 1 0)).
Lemma wait_ns_sound_witness : wait_ns spent 999 = 1000000000 /\ fst (try_take (999 + wait_ns spent 999) spent) = true.
Proof.
  split; [vm_compute; reflexivity|].
  destruct (wait_ns_sound spent 999 ltac:(split; vm_compute; split; congruence) ltac:(vm_compute; reflexivity)
    ltac:(vm_compute; discriminate) ltac:(vm_compute; discriminate) ltac:(split; vm_compute; congruence)) as (_ & H & _). exact H.
Defined.

(** The wait is not the least one: the refill rounds the whole time since the last refill down, not
    the part before [now] and the part after it, so here a request one nanosecond earlier passes. *)
Theorem wait_ns_not_least : fst (try_take (999 + wait_ns spent 999 - 1) spent) = true /\ 0 < wait_ns spent 999.
Proof. split; vm_compute; reflexivity. Qed.

(** ** The sequence of checks *)

Lemma is_none_spec r : is_none r = true <-> r = NoReason.
Proof. destruct r; split; done. Qed.
Lemma is_none_false r : r <> NoReason -> is_none r = false.
Proof. rewrite <- is_none_spec. by destruct (is_none r). Qed.
Lemma first_reason_none l : first_reason l = NoReason <-> Forall (eq NoReason) l.
Proof.
  induction l as [|r l IH]; [by split; [constructor|]|]. cbn. destruct (is_none r) eqn:E.
  - apply is_none_spec in E as ->. rewrite IH. split; [by constructor | by inversion 1].
  - split; [intros ->; discriminate E | inversion 1; by subst].
Qed.
Lemma first_reason_in l : first_reason l = NoReason \/ first_reason l ∈ l.
Proof. induction l as [|r l IH]; [by left|]. cbn. destruct (is_none r); [destruct IH; [by left | right; by constructor] | right; constructor]. Qed.
Lemma refuse_none reason c : reason <> NoReason -> NoReason = refuse reason c <-> c = false.
Proof. intros H. unfold refuse. destruct c; split; congruence. Qed.

(** The effect of a check: the reason is that of the sequence, then of the bucket. *)
Definition outcome (r : RiskEngine) (o : OrderIntent) (inst : Instrument) (inp : RiskInputs) (ex : Qty) (co : bool) : RejectReason :=
  let v := verdict r o inst inp ex co in
  if is_none v then if fst (try_take (ri_now inp) (bucket_ r)) then NoReason else RateLimit else v.
Definition counted (reason : RejectReason) (s : RiskStats) : RiskStats :=
  let s := s <| rs_checks := u64 (rs_checks s + 1) |> in
  if is_none reason then s <| rs_passed := u64 (rs_passed s + 1) |>
  else s <| rs_rejects := <[reason_code reason := u64 (rejects_at s (reason_code reason) + 1)]> (rs_rejects s) |>.

Lemma check_eq o inst inp ex co r :
  check o inst inp ex co r =
  (outcome r o inst inp ex co,
   r <| stats_ := counted (outcome r o inst inp ex co) (stats_ r) |>
     <| bucket_ := if is_none (verdict r o inst inp ex co) then snd (try_take (ri_now inp) (bucket_ r)) else bucket_ r |>).
Proof.
  unfold check, evaluate, outcome. set (r1 := r <| stats_ ::= _ |>).
  change (verdict r1 o inst inp ex co) with (verdict r o inst inp ex co). change (bucket_ r1) with (bucket_ r).
  generalize (verdict r o inst inp ex co) as v. intros v. destruct (try_take (ri_now inp) (bucket_ r)) as [ok b]. cbv zeta.
  destruct (is_none v) eqn:Ev; [destruct ok; reflexivity|]. unfold counted. by rewrite Ev.
Qed.

Lemma check_passed o inst inp ex co r : fst (check o inst inp ex co r) = NoReason ->
  verdict r o inst inp ex co = NoReason /\ fst (try_take (ri_now inp) (bucket_ r)) = true.
Proof.
  rewrite check_eq. cbn [fst]. unfold outcome. generalize (verdict r o inst inp ex co) as v. intros v.
  destruct (is_none v) eqn:Ev; cbv zeta; rewrite ?Ev; [|intros ->; discriminate Ev]. intros H. apply is_none_spec in Ev. split; [done|]. by destruct (fst _).
Qed.

(** ** An order that passes is inside the limits *)

(** Sizes an order's arithmetic cannot wrap at: 2^60 is eleven billion units. *)
Record sizes_ok (o : OrderIntent) (inp : RiskInputs) (ex : Qty) : Prop := {
  so_qty : 0 <= i_qty o <= 2 ^ 60;
  so_open : 0 <= ex <= ri_open_same_side inp /\ ri_open_same_side inp <= 2 ^ 60;
  so_position : forall p, ri_position inp = Some p -> Z.abs (p_qty p) <= 2 ^ 60;
  so_now : 0 <= ri_now inp <= i64_max;
}.

Lemma raw_abs_eq x : - 2 ^ 62 <= x <= 2 ^ 62 -> raw_abs x = Z.abs x.
Proof. intros H. unfold raw_abs. destruct (Z.ltb_spec x 0); [rewrite i64_id by width|]; lia. Qed.
Lemma ahead_eq o inp ex : sizes_ok o inp ex -> ahead_of inp ex = ri_open_same_side inp - ex.
Proof. intros [? ? _ _]. unfold ahead_of. apply i64_id. width. Qed.

(** The position with the open orders of the side and the order filled. *)
Definition worst_position (o : OrderIntent) (inp : RiskInputs) (ex : Qty) (p : Position) : Z :=
  p_qty p + sign (i_side o) * (ri_open_same_side inp - ex + i_qty o).

Lemma check_position_spec r o inp ex p : sizes_ok o inp ex -> ri_position inp = Some p -> 0 < max_position (limits_ r) ->
  check_position r o inp ex = refuse MaxPosition
    (bool_decide (max_position (limits_ r) < Z.abs (worst_position o inp ex p) /\ Z.abs (p_qty p) < Z.abs (worst_position o inp ex p))).
Proof.
  intros Hs Hp Hm. unfold check_position. rewrite Hp, (proj2 (Z.ltb_lt _ _) Hm), (ahead_eq o inp ex Hs).
  destruct Hs as [Hq Ho Hpos _]. specialize (Hpos p Hp). unfold worst_position.
  set (a := ri_open_same_side inp - ex + i_qty o). assert (Ha : 0 <= a <= 2 ^ 61) by (unfold a; lia).
  rewrite (i64_id a) by width. assert (Hsa : Z.abs (sign (i_side o) * a) <= 2 ^ 61) by (destruct (i_side o); cbn [sign]; lia).
  rewrite (i64_id (sign (i_side o) * a)) by width. rewrite (i64_id (p_qty p + _)) by width. rewrite !raw_abs_eq by lia.
  f_equal. case_bool_decide; lia.
Qed.

Lemma nearer_zero_spec q side ahead qty : Z.abs q <= 2 ^ 60 -> 0 <= ahead <= 2 ^ 60 -> 0 < qty <= 2 ^ 60 ->
  nearer_zero q side ahead qty = true ->
  sign side * q < 0 /\ ahead < Z.abs q /\ Z.abs (q + sign side * (ahead + qty)) < Z.abs (q + sign side * ahead).
Proof.
  intros Hq Ha Hn. unfold nearer_zero. assert (Eabs : (if q <? 0 then i64 (- q) else q) = Z.abs q) by (destruct (Z.ltb_spec q 0); [rewrite i64_id by width|]; lia).
  rewrite Eabs, (i64_id (Z.abs q - ahead)) by width. case_if; [done|]. rewrite (i64_id (qty - _)) by width.
  intros H. destruct side; cbn [sign] in *; destruct (Z.ltb_spec 0 q); cbn in *; lia.
Qed.

(** Two bands of on_tick / on_lot: a multiple of the increment. *)
Lemma multiple_spec x d : (0 <? d) && (Z.rem x d =? 0) = true -> 0 < d /\ (d | x).
Proof. intros H. assert (0 < d) by lia. split; [done|]. apply Z.rem_divide; lia. Qed.

(** What an order opens at most is its quantity, and its share of a notional is that part, rounded up. *)
Lemma opening_le q side ahead qty : Z.abs q <= 2 ^ 60 -> 0 <= ahead <= 2 ^ 60 -> 0 <= qty <= 2 ^ 60 ->
  0 <= opening_qty q side ahead qty <= qty.
Proof.
  intros Hq Ha Hn. unfold opening_qty. assert (Eabs : (if q <? 0 then i64 (- q) else q) = Z.abs q) by (destruct (Z.ltb_spec q 0); [rewrite i64_id by width|]; lia).
  rewrite Eabs, (i64_id (Z.abs q - ahead)) by width. repeat case_if; rewrite ?i64_id by width; lia.
Qed.
Lemma notional_share_spec n part qty : 0 <= n <= 2 ^ 61 -> 0 < part <= qty -> qty <= 2 ^ 60 ->
  n * part <= notional_share n part qty * qty /\ 0 <= notional_share n part qty <= n.
Proof.
  intros Hn Hp Hq. unfold notional_share. destruct (Z.leb_spec qty part), (Z.leb_spec qty 0); cbn [orb]; try lia; [nia|].
  assert (0 <= n * part <= 2 ^ 121) by nia. rewrite !(i128_id (n * part)) by lia. rewrite (i128_id (n * part + qty)) by lia.
  rewrite (i128_id (_ - 1)) by lia. rewrite Z.quot_div_nonneg by lia. pose proof (ceil_div (n * part) qty ltac:(lia)) as Hc.
  set (d := (n * part + qty - 1) / qty) in *. assert (0 <= d <= n) by nia. rewrite i128_id by lia. rewrite i64_id by width. nia.
Qed.

(** ** Amounts over the integers *)

(** The price an order is valued at, and its notional: price times quantity times the contract multiplier, or quantity times
    multiplier over price for an inverse contract, each division rounding towards zero. *)
Definition order_px (r : RiskEngine) (o : OrderIntent) : Price := if market o then md_mid (md_at r (i_instrument o)) else i_price o.
Definition exact_notional (inst : Instrument) (px q : Z) : Z :=
  if inverse inst then if px <=? 0 then 0 else Z.quot (q * in_contract_multiplier inst) px
  else Z.quot (Z.quot (px * q) kFixedScale * in_contract_multiplier inst) kFixedScale.
(** The exposure of an order of notional [n] in the reporting currency; none while its rate is unknown. *)
Definition exact_exposure (r : RiskEngine) (o : OrderIntent) (inp : RiskInputs) (n : Z) : option Z :=
  let c := fx_ccy_at r (i_instrument o) in
  let rate := fx_rate r c (ri_now inp) in
  if fx_gate_ r && negb (c =? 0) then if known rate then Some (Z.quot (n * fx_num rate) (fx_den rate)) else None else Some n.
(** How much of the order opens: what it takes the position further in its own direction, behind [ahead]. *)
Definition exact_opening (q : Z) (side : Side) (ahead qty : Z) : Z :=
  Z.max 0 (sign side * (q + sign side * (ahead + qty))) - Z.max 0 (sign side * (q + sign side * ahead)).
(** A quantity in units of the underlying. *)
Definition exact_base (inst : Instrument) (q mark : Z) : option Z :=
  if q =? 0 then Some 0
  else if inverse inst then if mark <=? 0 then None else Some (Z.quot (q * in_contract_multiplier inst) mark)
  else Some (Z.quot (q * in_contract_multiplier inst) kFixedScale).

(** Amounts that fit: one 64-bit number each, the exposures with a bit to spare. *)
Record amounts_ok (r : RiskEngine) (o : OrderIntent) (inst : Instrument) (inp : RiskInputs) (ex : Qty) : Prop := {
  am_px : in_i64 (order_px r o);
  am_mult : in_i64 (in_contract_multiplier inst);
  am_step : inverse inst = false -> in_i64 (Z.quot (order_px r o * i_qty o) kFixedScale);
  am_notional : in_i64 (exact_notional inst (order_px r o) (i_qty o));
  am_rate : in_i64 (fx_num (fx_rate r (fx_ccy_at r (i_instrument o)) (ri_now inp)));
  am_exposure : forall e, exact_exposure r o inp (exact_notional inst (order_px r o) (i_qty o)) = Some e -> 0 <= e <= 2 ^ 61;
  am_totals : Z.abs (ri_gross_exposure inp) <= 2 ^ 61 /\ Z.abs (ri_net_exposure inp) <= 2 ^ 61;
  am_base : forall a, exact_base inst (i_qty o - ex) (underlying_mark r (i_instrument o) (ri_now inp)) = Some a -> Z.abs a <= 2 ^ 60;
  am_underlying : Z.abs (u_net (ri_underlying inp)) <= 2 ^ 60 /\ Z.abs (u_open (ri_underlying inp)) <= 2 ^ 60;
}.

Lemma quot_by_one x : Z.quot (x * one_contract) kFixedScale = x.
Proof. change one_contract with kFixedScale. by apply Z.quot_mul. Qed.
Lemma notional_exact inst px q : in_i64 px -> in_i64 q -> in_i64 (in_contract_multiplier inst) -> (inverse inst = false -> in_i64 (Z.quot (px * q) kFixedScale)) ->
  in_i64 (exact_notional inst px q) -> notional inst px q = exact_notional inst px q.
Proof.
  intros Hp Hq Hm Hs Hn. unfold notional, exact_notional in *. destruct (inverse inst).
  - destruct (Z.ltb_spec 0 px) as [Hpos|Hpos], (Z.leb_spec px 0); try lia; cbn [negb]; [|done]. rewrite i128_product, i128_quot by (done || lia). by apply i64_id.
  - specialize (Hs eq_refl). unfold mul, mul_raw. rewrite mul_div_const_eq, (i64_id (Z.quot (px * q) kFixedScale)) by done.
    destruct (Z.eqb_spec (in_contract_multiplier inst) one_contract) as [E|E]; [by rewrite E, quot_by_one|]. rewrite mul_div_const_eq by done. by apply i64_id.
Qed.
Lemma exposure_exact r o inp n e : let rate := fx_rate r (fx_ccy_at r (i_instrument o)) (ri_now inp) in
  in_i64 n -> in_i64 (fx_num rate) -> (forall e, exact_exposure r o inp n = Some e -> 0 <= e <= 2 ^ 61) -> fx_gate_ r && negb (fx_ccy_at r (i_instrument o) =? 0) = true -> known rate = true ->
  exact_exposure r o inp n = Some e -> convert n rate = e.
Proof.
  intros rate Hn Hr Hb Hg Hk He. pose proof (Hb e He) as He'. unfold exact_exposure in He. cbv zeta in He. fold rate in He. rewrite Hg, Hk in He. injection He as <-. unfold convert. unfold known in Hk. destruct (Z.eqb_spec (fx_num rate) (fx_den rate)) as [E|E].
  - rewrite <- E. symmetry. apply Z.quot_mul. lia.
  - rewrite i128_product by done. destruct (Z.eq_dec (fx_den rate) 0) as [Ed|Ed]; [rewrite Ed, Zquot.Zquot_0_r; reflexivity|]. rewrite i128_quot by done. apply i64_id. width.
Qed.
Lemma opening_exact q side ahead qty : Z.abs q <= 2 ^ 60 -> 0 <= ahead <= 2 ^ 60 -> 0 <= qty <= 2 ^ 60 -> opening_qty q side ahead qty = exact_opening q side ahead qty.
Proof.
  intros Hq Ha Hn. unfold opening_qty, exact_opening. assert (Eabs : (if q <? 0 then i64 (- q) else q) = Z.abs q) by (destruct (Z.ltb_spec q 0); [rewrite i64_id by width|]; lia).
  rewrite Eabs, (i64_id (Z.abs q - ahead)) by width. destruct (Z.eqb_spec q 0) as [-> |Hz]; cbn [orb]; [destruct side; cbn [sign]; lia|].
  destruct side, (Z.ltb_spec 0 q); cbn [Bool.eqb sign]; try lia; (destruct (Z.leb_spec (Z.abs q - ahead) 0); [lia|]); (destruct (Z.ltb_spec (Z.abs q - ahead) qty); [rewrite i64_id by width; lia | lia]).
Qed.
Lemma base_exact inst q mark : in_i64 q -> in_i64 (in_contract_multiplier inst) -> (forall a, exact_base inst q mark = Some a -> Z.abs a <= 2 ^ 60) -> to_base_units inst q mark = exact_base inst q mark.
Proof.
  intros Hq Hm Hb. unfold to_base_units, exact_base in *. destruct (q =? 0); [done|]. destruct (inverse inst).
  - destruct (Z.ltb_spec 0 mark), (Z.leb_spec mark 0); try lia; cbn [negb]; [|done]. specialize (Hb _ eq_refl). rewrite i128_product, i128_quot by (done || lia). f_equal. apply i64_id. width.
  - specialize (Hb _ eq_refl). destruct (Z.eqb_spec (in_contract_multiplier inst) one_contract) as [E|E]; [by rewrite E, quot_by_one|]. unfold mul_raw. rewrite mul_div_const_eq by done. f_equal. apply i64_id. width.
Qed.
(** Inside the exposure caps: [opens] of the order's quantity adds to the gross exposure, all of it to the net. *)
Definition exposure_within (r : RiskEngine) (o : OrderIntent) (inp : RiskInputs) (opens : Z) (e : Notional) : Prop :=
  (0 < max_gross_notional (limits_ r) ->
     ri_gross_exposure inp * i_qty o + e * opens <= max_gross_notional (limits_ r) * i_qty o) /\
  (0 < max_net_notional (limits_ r) ->
     Z.abs (ri_net_exposure inp + sign (i_side o) * e) <= Z.max (max_net_notional (limits_ r)) (Z.abs (ri_net_exposure inp))).

Lemma fx_abs_eq x : - 2 ^ 62 <= x <= 2 ^ 62 -> fx_abs x = Z.abs x.
Proof. exact (raw_abs_eq x). Qed.

Lemma check_exposure_within r o inp opens e : 0 < opens <= i_qty o -> i_qty o <= 2 ^ 60 ->
  0 <= e <= 2 ^ 61 -> Z.abs (ri_gross_exposure inp) <= 2 ^ 61 -> Z.abs (ri_net_exposure inp) <= 2 ^ 61 ->
  check_exposure r o inp opens e = NoReason -> exposure_within r o inp opens e.
Proof.
  intros Ho Hq He Hg Hn H. unfold check_exposure in H. cbv zeta in H. rewrite first_reason_none in H.
  apply Forall_cons in H as [H1 H]. apply Forall_cons in H as [H2 _].
  apply refuse_none in H1; [|discriminate]. apply refuse_none in H2; [|discriminate].
  pose proof (notional_share_spec e opens (i_qty o) He Ho Hq) as [Hs1 Hs2]. unfold fx_add in *. split.
  - intros Hm. rewrite i64_id in H1 by width. assert (ri_gross_exposure inp + notional_share e opens (i_qty o) <= max_gross_notional (limits_ r)) by lia. nia.
  - intros Hm. clear H1 Hs1 Hs2. unfold fx_sub in H2.
    assert (E : (match i_side o with Buy => e | Sell => i64 (0 - e) end) = sign (i_side o) * e) by (destruct (i_side o); cbn [sign]; [|rewrite i64_id by width]; lia).
    rewrite E in H2. assert (Z.abs (sign (i_side o) * e) <= 2 ^ 61) by (destruct (i_side o); cbn [sign]; lia).
    rewrite i64_id in H2 by width. rewrite !fx_abs_eq in H2 by lia. lia.
Qed.

(** What holds of an order that passed, over the integers. *)
Record within (r : RiskEngine) (o : OrderIntent) (inst : Instrument) (inp : RiskInputs) (ex : Qty) (co : bool) : Prop := {
  wi_alive : (killed r = true -> ri_flatten inp = true) /\ venue_killed r (i_venue o) = false;
  wi_instrument : enabled inst = true /\ i_instrument o < kMaxInstruments;
  wi_tick : market o = false -> 0 < i_price o /\ (in_tick inst | i_price o);
  wi_lot : 0 < i_qty o /\ (in_lot inst | i_qty o) /\ in_min_qty inst <= i_qty o /\ (in_max_qty inst <> 0 -> i_qty o <= in_max_qty inst);
  wi_fresh : 0 < stale_md (limits_ r) -> md_book_ts (md_at r (i_instrument o)) <> 0 /\
    ri_now inp - md_book_ts (md_at r (i_instrument o)) <= stale_md (limits_ r);
  (** while the feed lags, an order that may rest opens nothing *)
  wi_lag : ri_feed_lagged inp = true -> may_rest o = true ->
    exists p, ri_position inp = Some p /\ exact_opening (p_qty p) (i_side o) (ri_open_same_side inp - ex) (i_qty o) = 0;
  wi_collar : market o = false -> let md := md_at r (i_instrument o) in 0 < md_collar_hi md -> md_collar_lo md <= i_price o <= md_collar_hi md;
  wi_fat_finger : market o = false -> let md := md_at r (i_instrument o) in 0 < md_ff_hi md -> md_ff_lo md <= i_price o <= md_ff_hi md;
  wi_qty : 0 < max_order_qty (limits_ r) -> i_qty o <= max_order_qty (limits_ r);
  wi_notional : let n := exact_notional inst (order_px r o) (i_qty o) in
    (0 < max_order_notional (limits_ r) -> n <= max_order_notional (limits_ r)) /\ (0 < in_min_notional inst -> in_min_notional inst <= n);
  wi_position : forall p, ri_position inp = Some p -> 0 < max_position (limits_ r) ->
    Z.abs (worst_position o inp ex p) <= Z.max (max_position (limits_ r)) (Z.abs (p_qty p));
  wi_reduce : forall p, ri_position inp = Some p -> ri_reduce_only inp = true ->
    Z.abs (worst_position o inp ex p) < Z.abs (p_qty p);
  wi_exposure : forall p, ri_position inp = Some p -> portfolio_ r = true ->
    let opens := exact_opening (p_qty p) (i_side o) (ri_open_same_side inp - ex) (i_qty o) in
    0 < opens -> exists e, exact_exposure r o inp (exact_notional inst (order_px r o) (i_qty o)) = Some e /\ exposure_within r o inp opens e;
  (** the net of the underlying with its open orders and what this one adds *)
  wi_underlying : forall p, ri_position inp = Some p -> u_limited (ri_underlying inp) = true -> u_known (ri_underlying inp) = true /\
    exists a, exact_base inst (i_qty o - ex) (underlying_mark r (i_instrument o) (ri_now inp)) = Some a /\
      let max := und_max_at r (und_of_at r (i_instrument o) - 1) in let net := u_net (ri_underlying inp) in
      (0 < max -> Z.abs (net + sign (i_side o) * (u_open (ri_underlying inp) + a)) <= Z.max max (Z.abs net));
  wi_count : co = true -> 0 < max_open_orders (limits_ r) -> ri_open_orders inp < max_open_orders (limits_ r);
  wi_self : stp (limits_ r) = true -> market o = false -> 0 < ri_best_own_opposite inp ->
    match i_side o with Buy => i_price o < ri_best_own_opposite inp | Sell => ri_best_own_opposite inp < i_price o end;
  wi_account : ri_balance_short inp = false /\ ri_primary_killed inp = false /\ ri_account_full inp = false;
}.

(** The checks one by one: each condition false. *)
Ltac each_check H := rewrite first_reason_none in H; repeat (let c := fresh H in apply Forall_cons in H as [c H]);
  repeat match goal with H : NoReason = refuse _ _ |- _ => apply refuse_none in H; [|discriminate] end.

Lemma verdict_position r o inst inp ex co p : sizes_ok o inp ex -> verdict r o inst inp ex co = NoReason ->
  ri_position inp = Some p -> 0 < max_position (limits_ r) ->
  Z.abs (worst_position o inp ex p) <= Z.max (max_position (limits_ r)) (Z.abs (p_qty p)).
Proof.
  intros Hs Hv Hp Hm. unfold verdict in Hv. cbv zeta in Hv. each_check Hv.
  rewrite (check_position_spec r o inp ex p Hs Hp Hm) in Hv13. apply refuse_none in Hv13; [|discriminate].
  apply bool_decide_eq_false in Hv13. clear -Hv13. lia.
Qed.
Lemma verdict_exposure r o inst inp ex p : sizes_ok o inp ex -> amounts_ok r o inst inp ex -> ri_position inp = Some p -> portfolio_ r = true ->
  NoReason = check_portfolio r o inp ex (exact_notional inst (order_px r o) (i_qty o)) ->
  let opens := exact_opening (p_qty p) (i_side o) (ri_open_same_side inp - ex) (i_qty o) in
  0 < opens -> exists e, exact_exposure r o inp (exact_notional inst (order_px r o) (i_qty o)) = Some e /\ exposure_within r o inp opens e.
Proof.
  intros Hs Ham Hp Hpf Hv. cbv zeta. pose proof Hs as [Hq Ho Hpos Hnow]. specialize (Hpos p Hp). pose proof (opening_exact (p_qty p) (i_side o) (ri_open_same_side inp - ex) (i_qty o) Hpos ltac:(lia) Hq) as Eop.
  pose proof (opening_le (p_qty p) (i_side o) (ri_open_same_side inp - ex) (i_qty o) Hpos ltac:(lia) Hq) as Hle. rewrite Eop in Hle. intros Hop. unfold check_portfolio in Hv. rewrite Hp, Hpf, (ahead_eq o inp ex Hs), Eop, (proj2 (Z.ltb_lt _ _) Hop) in Hv. cbv zeta in Hv.
  set (n := exact_notional inst (order_px r o) (i_qty o)) in *. destruct Ham as [_ _ _ A1 A2 A3 [A4 A5] _ _]. fold n in A1, A3.
  assert (Hin : forall e, exact_exposure r o inp n = Some e -> NoReason = check_exposure r o inp (exact_opening (p_qty p) (i_side o) (ri_open_same_side inp - ex) (i_qty o)) e -> exists e, exact_exposure r o inp n = Some e /\ exposure_within r o inp (exact_opening (p_qty p) (i_side o) (ri_open_same_side inp - ex) (i_qty o)) e).
  { intros e He Hc. exists e. split; [done|]. apply check_exposure_within; [lia | lia | by apply A3 | done | done | done]. }
  destruct (fx_gate_ r && negb (fx_ccy_at r (i_instrument o) =? 0)) eqn:Eg.
  - destruct (known (fx_rate r (fx_ccy_at r (i_instrument o)) (ri_now inp))) eqn:Ek; cbn [negb] in Hv; [|discriminate Hv].
    pose proof (exposure_exact r o inp n (Z.quot (n * fx_num (fx_rate r (fx_ccy_at r (i_instrument o)) (ri_now inp))) (fx_den (fx_rate r (fx_ccy_at r (i_instrument o)) (ri_now inp)))) A1 A2 A3 Eg Ek) as Ex. unfold exact_exposure in Ex, Hin. cbv zeta in Ex, Hin. rewrite Eg, Ek in Ex, Hin.
    rewrite (Ex eq_refl) in Hv. unfold exact_exposure. cbv zeta. rewrite Eg, Ek. by apply (Hin _ eq_refl).
  - apply (Hin n); [|done]. unfold exact_exposure. cbv zeta. by rewrite Eg.
Qed.
Lemma verdict_underlying r o inst inp ex p : sizes_ok o inp ex -> amounts_ok r o inst inp ex -> ri_position inp = Some p -> u_limited (ri_underlying inp) = true ->
  NoReason = check_underlying r o inst inp ex -> u_known (ri_underlying inp) = true /\
  exists a, exact_base inst (i_qty o - ex) (underlying_mark r (i_instrument o) (ri_now inp)) = Some a /\
    let max := und_max_at r (und_of_at r (i_instrument o) - 1) in let net := u_net (ri_underlying inp) in
    (0 < max -> Z.abs (net + sign (i_side o) * (u_open (ri_underlying inp) + a)) <= Z.max max (Z.abs net)).
Proof.
  intros [Hq Ho _ _] [_ A1 _ _ _ _ _ A2 [A3 A4]] Hp Hl Hv. unfold check_underlying in Hv. rewrite Hp, Hl in Hv. destruct (u_known (ri_underlying inp)); cbn [negb] in Hv; [|discriminate Hv]. split; [done|].
  rewrite (i64_id (i_qty o - ex)), base_exact in Hv; [| width | done | done | width]. destruct (exact_base _ _ _) as [a|] eqn:Ea; [|discriminate Hv]. exists a. split; [done|]. specialize (A2 a eq_refl). cbv zeta in *. intros Hm.
  apply refuse_none in Hv; [|discriminate]. set (net := u_net (ri_underlying inp)) in *. set (op := u_open (ri_underlying inp)) in *. rewrite (i64_id (op + a)) in Hv by width.
  assert (Hsa : Z.abs (sign (i_side o) * (op + a)) <= 2 ^ 61) by (destruct (i_side o); cbn [sign]; lia). rewrite (i64_id (sign _ * _)), (i64_id (net + _)) in Hv by width. set (w := net + sign (i_side o) * (op + a)) in *.
  unfold underlying_exceeds in Hv. fold (raw_abs w) (raw_abs net) in Hv. rewrite !raw_abs_eq in Hv by lia. lia.
Qed.
Lemma verdict_within r o inst inp ex co : sizes_ok o inp ex -> amounts_ok r o inst inp ex -> 0 <= md_book_ts (md_at r (i_instrument o)) <= i64_max ->
  verdict r o inst inp ex co = NoReason -> within r o inst inp ex co.
Proof.
  intros Hs Ham Hts Hv. pose proof Hv as Hv'. unfold verdict in Hv. cbv zeta in Hv.
  assert (En : notional inst (if market o then md_mid (md_at r (i_instrument o)) else i_price o) (i_qty o) = exact_notional inst (order_px r o) (i_qty o)) by (destruct Ham, Hs; apply notional_exact; try done; width).
  rewrite En in Hv. each_check Hv.
  assert (Hlot : valid_qty inst (i_qty o) = true) by (by destruct (valid_qty inst (i_qty o))). unfold valid_qty in Hlot.
  apply andb_true_iff in Hlot as [Hlot Hmax]. apply andb_true_iff in Hlot as [Hlot Hmin]. apply andb_true_iff in Hlot as [Hpos Hlot].
  apply multiple_spec in Hlot as [_ Hlot].
  split.
  - split; [|done]. intros Hk. rewrite Hk in Hv0. by destruct (ri_flatten inp).
  - clear -Hv2. destruct (enabled inst); [split; [done|cbn in Hv2; lia]|done].
  - intros Hm. rewrite Hm in Hv3. unfold valid_price in Hv3. apply negb_false_iff in Hv3.
    apply andb_true_iff in Hv3 as [Hp Hv3]. apply multiple_spec in Hv3 as [_ Hv3]. clear -Hp Hv3. split; [lia|done].
  - clear -Hpos Hlot Hmin Hmax. split_and!; [lia|done|lia|intros ?; lia].
  - intros Hst. unfold stale, ts_valid in Hv6. destruct Hs as [_ _ _ Hn]. clear -Hv6 Hst Hn Hts. rewrite i64_id in Hv6 by width. lia.
  - intros Hl Hm. rewrite Hl, Hm in Hv7. cbn [andb] in Hv7. apply negb_false_iff in Hv7. unfold reduces_position in Hv7. destruct (ri_position inp) as [p|] eqn:Ep; [|done]. exists p. split; [done|].
    rewrite (ahead_eq o inp ex Hs) in Hv7. destruct Hs as [Hq Ho Hpos' _]. rewrite <- opening_exact; [clear -Hv7; lia | by apply Hpos' | clear -Ho; lia | done].
  - intros Hm. cbv zeta. intros Hh. rewrite Hm in Hv8. clear -Hv8 Hh. cbn [negb andb] in Hv8. lia.
  - intros Hm. cbv zeta. intros Hh. rewrite Hm in Hv9. clear -Hv9 Hh. cbn [negb andb] in Hv9. lia.
  - clear -Hv10. lia.
  - cbv zeta. clear -Hv5 Hv11. lia.
  - intros p Hp Hm. eapply verdict_position; eassumption.
  - intros p Hp Hr. unfold check_reduce_only in Hv12. rewrite Hp, Hr in Hv12. apply refuse_none in Hv12; [|discriminate].
    apply negb_false_iff in Hv12. rewrite (ahead_eq o inp ex Hs) in Hv12. destruct Hs as [Hq Ho Hpos' _]. specialize (Hpos' p Hp).
    clear -Hv12 Hq Ho Hpos' Hpos. apply nearer_zero_spec in Hv12; [|done|lia|lia]. unfold worst_position. destruct (i_side o); cbn [sign] in *; lia.
  - intros p Hp Hpf. by apply verdict_exposure.
  - intros p Hp Hl. by apply (verdict_underlying r o inst inp ex p).
  - intros -> Hm. clear -Hv16 Hm. lia.
  - intros Hst Hm Hb. rewrite Hst, Hm in Hv17. unfold at_or_better_cross in Hv17. clear -Hv17 Hb. destruct (i_side o); lia.
  - done.
Qed.

(** C6. An order that passes [check_new] or [check_replace] is inside every limit these enforce, computed over the integers:
    no kill applies to it, its price and quantity are on the grid, the book is fresh, a lagging feed lets it rest only if it
    opens nothing, its price is inside the collar and fat-finger bands in force, quantity and notional are under their caps,
    the position with every open order of its side and this one filled stays within [max_position] (or no further from zero
    than now), reduce-only orders end nearer zero, the exposure it opens fits the gross and net caps at a known rate, the
    net of its underlying with its open orders fits its cap, it does not cross our own orders, no account limit refuses it,
    and the bucket had a token.  Quantities are at most 2^60 and the amounts fit 64 bits ([sizes_ok], [amounts_ok]). *)
Theorem passed_within_limits o inst inp ex co r : sizes_ok o inp ex -> amounts_ok r o inst inp ex -> 0 <= md_book_ts (md_at r (i_instrument o)) <= i64_max ->
  fst (check o inst inp ex co r) = NoReason ->
  within r o inst inp ex co /\ fst (try_take (ri_now inp) (bucket_ r)) = true.
Proof. intros Hs Ham Hts H. apply check_passed in H as [Hv Ht]. split; [by apply verdict_within | done]. Qed.

(** A linear instrument with tick and lot 1.00, limits on position and exposure, and a buy of one at 100. *)
Definition unit_inst : Instrument := mkInstrument 0 0 Spot kEnabled 2 100000000 100000000 100000000 0 0 one_contract 0.
Definition demo_limits : RiskLimits := mkLimits (5 * 100000000) (1000 * 100000000) (3 * 100000000) 4 100 200 1000000
  (900 * 100000000) (500 * 100000000) (1000 * 100000000) 10 10 true 0.
Definition demo_risk : RiskEngine :=
  on_trade 0 (100 * 100000000) (on_book 0 (100 * 100000000) 5000 (new_risk demo_limits 5000)).
Definition buy_one : OrderIntent := mkIntent 0 0 Buy Limit (100 * 100000000) 100000000 Gtc.
Definition demo_inputs : RiskInputs :=
  mkInputs 6000 (Some (no_position <| p_qty := 100000000 |>)) (100 * 100000000) (100 * 100000000) 100000000 1 0 false no_underlying false false false false false.

Lemma demo_sizes : sizes_ok buy_one demo_inputs 0.
Proof. split; [split; vm_compute; congruence | vm_compute; repeat split; congruence | | split; vm_compute; congruence]. intros p [= <-]. vm_compute. congruence. Qed.

Lemma demo_amounts : amounts_ok demo_risk buy_one unit_inst demo_inputs 0.
Proof.
  constructor.
  - vm_compute. split; discriminate.
  - vm_compute. split; discriminate.
  - intros _. vm_compute. split; discriminate.
  - vm_compute. split; discriminate.
  - vm_compute. split; discriminate.
  - assert (E : exact_exposure demo_risk buy_one demo_inputs (exact_notional unit_inst (order_px demo_risk buy_one) (i_qty buy_one)) = Some (100 * 100000000)) by (vm_compute; reflexivity).
    rewrite E. intros e [= <-]. lia.
  - vm_compute. split; discriminate.
  - assert (E : exact_base unit_inst (i_qty buy_one - 0) (underlying_mark demo_risk (i_instrument buy_one) (ri_now demo_inputs)) = Some 100000000) by (vm_compute; reflexivity).
    rewrite E. intros a [= <-]. lia.
  - vm_compute. split; discriminate.
Qed.
Lemma passed_within_limits_witness : fst (check_new buy_one unit_inst demo_inputs demo_risk) = NoReason /\
  within demo_risk buy_one unit_inst demo_inputs 0 true.
Proof.
  split; [vm_compute; reflexivity|].
  destruct (passed_within_limits buy_one unit_inst demo_inputs 0 true demo_risk demo_sizes demo_amounts ltac:(split; vm_compute; congruence) ltac:(vm_compute; reflexivity)) as [H _].
  exact H.
Defined.

(** ** A ladder of orders *)


(** Orders of one side sent one after the other, each checked with the accepted ones before it open.
    The result is the quantity they leave open. *)
Fixpoint ladder (side : Side) (l : list (OrderIntent * Instrument * RiskInputs)) (q : Position) (open : Qty) (r : RiskEngine) : Qty * RiskEngine :=
  match l with
  | [] => (open, r)
  | (o, inst, inp) :: l =>
    let '(reason, r) := check_new o inst (inp <| ri_position := Some q |> <| ri_open_same_side := open |>) r in
    ladder side l q (if is_none reason then open + i_qty o else open) r
  end.

Definition rung_ok (side : Side) (e : OrderIntent * Instrument * RiskInputs) : Prop :=
  let '(o, _, inp) := e in i_side o = side /\ 0 <= i_qty o <= 2 ^ 40 /\ 0 <= ri_now inp <= i64_max.

Lemma check_limits o inst inp ex co r : limits_ (snd (check o inst inp ex co r)) = limits_ r.
Proof. rewrite check_eq. reflexivity. Qed.
Lemma check_md o inst inp ex co r : md_ (snd (check o inst inp ex co r)) = md_ r.
Proof. rewrite check_eq. reflexivity. Qed.

(** C7. A ladder of orders on one side cannot take the position past [max_position] even if it fills
    entirely: whatever part [k] of what it leaves open fills, the position stays within the limit, or
    within its size before. *)
Theorem ladder_within_max_position side l p r k : Z.abs (p_qty p) <= 2 ^ 60 -> 0 < max_position (limits_ r) ->
  Z.of_nat (length l) <= 2 ^ 19 -> Forall (rung_ok side) l ->
  0 <= k <= fst (ladder side l p 0 r) ->
  Z.abs (p_qty p + sign side * k) <= Z.max (max_position (limits_ r)) (Z.abs (p_qty p)).
Proof.
  intros Hp Hm Hlen Hl Hk.
  set (fine open := Z.abs (p_qty p + sign side * open) <= Z.max (max_position (limits_ r)) (Z.abs (p_qty p))).
  enough (H : 0 <= fst (ladder side l p 0 r) /\ fine (fst (ladder side l p 0 r))).
  { destruct H as [H0 H]. unfold fine in H. destruct side; cbn [sign] in *; lia. }
  assert (Hgen : forall open r', limits_ r' = limits_ r -> 0 <= open -> open + Z.of_nat (length l) * 2 ^ 40 <= 2 ^ 60 -> fine open ->
    0 <= fst (ladder side l p open r') /\ fine (fst (ladder side l p open r'))).
  2: { apply Hgen; [done | lia | lia |]. unfold fine. rewrite Z.mul_0_r, Z.add_0_r. lia. }
  clear Hk Hlen. induction Hl as [|[[o inst] inp] l Ho Hl IH]; intros open r' Er Hop Hsz Hf; [done|]. cbn [ladder length] in *.
  unfold rung_ok in Ho. destruct Ho as (Hside & Hqty & Hnow). set (inp' := (inp <| ri_position := _ |> <| ri_open_same_side := _ |>)).
  pose proof (check_limits o inst inp' 0 true r') as Elim. pose proof (check_passed o inst inp' 0 true r') as Hpass.
  unfold check_new. destruct (check o inst inp' 0 true r') as [reason r1]. cbn [fst snd] in Elim, Hpass.
  destruct (is_none reason) eqn:En.
  - apply is_none_spec in En as ->. destruct (Hpass eq_refl) as [Hv _].
    assert (Hs : sizes_ok o inp' 0) by (split; [lia | cbn; lia | intros p' [= <-]; done | done]).
    pose proof (verdict_position r' o inst inp' 0 true p Hs Hv eq_refl ltac:(rewrite Er; exact Hm)) as Hw.
    unfold worst_position in Hw. change (ri_open_same_side inp') with open in Hw. rewrite Hside, Er, Z.sub_0_r in Hw.
    apply IH; [congruence | lia | lia |]. exact Hw.
  - apply IH; [congruence | lia | lia | done].
Qed.

(** Three buys of one with the position at one: the limit of three admits two of them. *)
Definition three_buys : list (OrderIntent * Instrument * RiskInputs) := replicate 3 (buy_one, unit_inst, demo_inputs).
Lemma ladder_within_max_position_witness :
  let q := no_position <| p_qty := 100000000 |> in
  fst (ladder Buy three_buys q 0 demo_risk) = 200000000 /\ Z.abs (p_qty q + 200000000) <= 300000000.
Proof.
  cbv zeta. set (q := no_position <| p_qty := 100000000 |>). assert (E : fst (ladder Buy three_buys q 0 demo_risk) = 200000000) by (vm_compute; reflexivity).
  split; [exact E|].
  pose proof (ladder_within_max_position Buy three_buys q demo_risk 200000000 ltac:(vm_compute; congruence) ltac:(vm_compute; reflexivity)
    ltac:(vm_compute; congruence) ltac:(repeat constructor; vm_compute; congruence) ltac:(rewrite E; lia)) as H. exact H.
Defined.

(** ** An order that only closes *)

Definition capped (reason : RejectReason) : bool :=
  match reason with FeedLag | ReduceOnly | MaxPosition | FxRateUnknown | MaxGrossNotional | MaxNetNotional => true | _ => false end.

Lemma refuse_capped reason c : capped reason = false -> capped (refuse reason c) = false.
Proof. unfold refuse. by destruct c. Qed.
Lemma check_underlying_uncapped r o inst inp ex : capped (check_underlying r o inst inp ex) = false.
Proof. unfold check_underlying. destruct (ri_position inp); [|done]. repeat case_if; try done. case_match; [by apply refuse_capped | done]. Qed.
Lemma first_reason_uncapped l : Forall (fun r => capped r = false) l -> capped (first_reason l) = false.
Proof. induction 1 as [|r l Hr Hl IH]; [done|]. cbn. by case_if. Qed.

Lemma closing_opens_nothing q side ahead qty : Z.abs q <= 2 ^ 60 -> 0 <= ahead -> 0 < qty -> sign side * q < 0 -> ahead + qty <= Z.abs q ->
  opening_qty q side ahead qty = 0 /\ nearer_zero q side ahead qty = true.
Proof.
  intros Hq Ha Hn Hs Hle. unfold opening_qty, nearer_zero.
  assert (E0 : (q =? 0) || Bool.eqb (0 <? q) (match side with Buy => true | Sell => false end) = false) by (destruct side; cbn [sign] in *; destruct (Z.ltb_spec 0 q); cbn; lia).
  assert (Eabs : (if q <? 0 then i64 (- q) else q) = Z.abs q) by (destruct (Z.ltb_spec q 0); [rewrite i64_id by width|]; lia).
  rewrite E0, Eabs, (i64_id (Z.abs q - ahead)) by width. rewrite (i64_id (qty - _)) by width.
  destruct (Z.leb_spec (Z.abs q - ahead) 0), (Z.ltb_spec (Z.abs q - ahead) qty); lia.
Qed.

(** An order that only closes the position is never refused by a cap: against the position and, with
    the open orders ahead of it, no larger than it, the order is not refused for the position limit, the
    gross or net exposure, an unknown conversion rate, a lagging feed or reduce-only mode, whatever the
    limits are. *)
Theorem closing_never_capped o inst inp ex co r p : sizes_ok o inp ex -> ri_position inp = Some p -> 0 < i_qty o ->
  sign (i_side o) * p_qty p < 0 -> ri_open_same_side inp - ex + i_qty o <= Z.abs (p_qty p) ->
  capped (fst (check o inst inp ex co r)) = false.
Proof.
  intros Hs Hp Hq Hside Hle. rewrite check_eq. cbn [fst]. unfold outcome. cbv zeta. repeat case_if; try done.
  pose proof (ahead_eq o inp ex Hs) as Ea. pose proof (so_position _ _ _ Hs p Hp) as Hpos. pose proof (so_open _ _ _ Hs) as Ho.
  destruct (closing_opens_nothing (p_qty p) (i_side o) (ri_open_same_side inp - ex) (i_qty o) Hpos ltac:(lia) Hq Hside Hle) as [E1 E2].
  apply first_reason_uncapped. repeat apply Forall_cons_2; try (by apply refuse_capped); [| | | |apply check_underlying_uncapped|apply Forall_nil; done].
  - unfold reduces_position. by rewrite Hp, Ea, E1, andb_false_r.
  - unfold check_reduce_only. by rewrite Hp, Ea, E2, andb_false_r.
  - destruct (Z.lt_ge_cases 0 (max_position (limits_ r))) as [Hm|Hm].
    + rewrite (check_position_spec r o inp ex p Hs Hp Hm), bool_decide_false; [done|]. unfold worst_position.
      intros [_ H]. destruct (i_side o); cbn [sign] in *; lia.
    + unfold check_position. by rewrite Hp, (proj2 (Z.ltb_ge _ _) Hm).
  - unfold check_portfolio. rewrite Hp, Ea, E1. by case_if.
Qed.

(** Long one, selling one, with the limit on the position at a quarter of it. *)
Definition sell_one : OrderIntent := mkIntent 0 0 Sell Limit (100 * 100000000) 100000000 Gtc.
Definition tight_risk : RiskEngine :=
  set_limits (mkLimits 0 0 25000000 0 0 0 0 1 1 0 0 0 true 0) 5000 demo_risk.
Definition closing_inputs : RiskInputs :=
  mkInputs 6000 (Some (no_position <| p_qty := 100000000 |>)) (900 * 100000000) (-900 * 100000000) 0 1 0 true no_underlying false false false false true.
Lemma closing_never_capped_witness : fst (check_new sell_one unit_inst closing_inputs tight_risk) = NoReason /\
  capped (fst (check_new sell_one unit_inst closing_inputs tight_risk)) = false.
Proof.
  split; [vm_compute; reflexivity|].
  assert (Hs : sizes_ok sell_one closing_inputs 0).
  { split; [split; vm_compute; congruence | vm_compute; repeat split; congruence | | split; vm_compute; congruence]. intros p [= <-]. vm_compute. congruence. }
  exact (closing_never_capped sell_one unit_inst closing_inputs 0 true tight_risk _ Hs eq_refl ltac:(vm_compute; reflexivity)
    ltac:(vm_compute; reflexivity) ltac:(vm_compute; congruence)).
Defined.

(** ** The price bands *)

Lemma band_spec px bps x : 0 < px <= i64_max -> 0 < bps <= 10000 -> px + px * bps / 10000 <= i64_max ->
  let '(lo, hi) := band px bps in 0 < hi /\ (lo <= x <= hi -> Z.abs (x - px) * 10000 <= px * bps).
Proof.
  intros Hp Hb Hf. unfold band. rewrite (proj2 (Z.ltb_lt 0 bps)), (proj2 (Z.ltb_lt 0 px)) by lia. cbn [andb].
  assert (Hq : 0 <= px * bps / 10000 <= px) by (split; [apply Z.div_pos; lia | apply Z.div_le_upper_bound; nia]).
  assert (Ew : apply_bps px bps = px * bps / 10000).
  { unfold apply_bps. rewrite mul_div_const_eq by (width || lia). rewrite Z.quot_div_nonneg by nia. apply i64_id. width. }
  rewrite Ew. unfold checked_add. rewrite (proj2 (fits_i64_spec _)) by width. unfold fx_sub. rewrite i64_id by width.
  split; [lia|]. intros Hx. pose proof (Z.mul_div_le (px * bps) 10000 ltac:(lia)). lia.
Qed.

Lemma verdict_bands r o inst inp ex co : verdict r o inst inp ex co = NoReason -> market o = false ->
  (0 < md_collar_hi (md_at r (i_instrument o)) -> md_collar_lo (md_at r (i_instrument o)) <= i_price o <= md_collar_hi (md_at r (i_instrument o))) /\
  (0 < md_ff_hi (md_at r (i_instrument o)) -> md_ff_lo (md_at r (i_instrument o)) <= i_price o <= md_ff_hi (md_at r (i_instrument o))).
Proof.
  intros Hv Hm. unfold verdict in Hv. cbv zeta in Hv. each_check Hv. rewrite Hm in Hv8, Hv9. clear -Hv8 Hv9. lia.
Qed.

Lemma md_at_set r id m : md_at (r <| md_ := <[id := m]> (md_ r) |>) id = m.
Proof. unfold md_at. change (md_ _) with (<[id := m]> (md_ r)) at 1. by rewrite lookup_insert_eq. Qed.
Lemma md_on_book id mid ts r : id < kMaxInstruments -> md_at (on_book id mid ts r) id =
  let '(lo, hi) := band mid (price_collar_bps (limits_ r)) in
  (md_at r id) <| md_book_ts := ts |> <| md_mid := mid |> <| md_collar_lo := lo |> <| md_collar_hi := hi |>.
Proof. intros H. unfold on_book. rewrite (proj2 (Z.leb_gt _ _) H). destruct (band _ _). apply md_at_set. Qed.
Lemma md_on_trade id px r : id < kMaxInstruments -> md_at (on_trade id px r) id =
  let '(lo, hi) := band px (fat_finger_bps (limits_ r)) in (md_at r id) <| md_last_trade := px |> <| md_ff_lo := lo |> <| md_ff_hi := hi |>.
Proof. intros H. unfold on_trade. rewrite (proj2 (Z.leb_gt _ _) H). destruct (band _ _). apply md_at_set. Qed.
Lemma on_book_limits id mid ts r : limits_ (on_book id mid ts r) = limits_ r.
Proof. unfold on_book. case_if; [done|]. by destruct (band _ _). Qed.

(** A limit order that passes after a book and a trade is within [price_collar_bps] of that book's mid and
    within [fat_finger_bps] of that trade, as long as the upper bands fit an [int64]. *)
Theorem bands_enforced r id mid ts px o inst inp ex co : 0 <= id < kMaxInstruments -> i_instrument o = id -> market o = false ->
  0 < mid <= i64_max -> 0 < px <= i64_max ->
  0 < price_collar_bps (limits_ r) <= 10000 -> 0 < fat_finger_bps (limits_ r) <= 10000 ->
  mid + mid * price_collar_bps (limits_ r) / 10000 <= i64_max -> px + px * fat_finger_bps (limits_ r) / 10000 <= i64_max ->
  fst (check o inst inp ex co (on_trade id px (on_book id mid ts r))) = NoReason ->
  Z.abs (i_price o - mid) * 10000 <= mid * price_collar_bps (limits_ r) /\
  Z.abs (i_price o - px) * 10000 <= px * fat_finger_bps (limits_ r).
Proof.
  intros Hid Ho Hm Hmid Hpx Hc Hf Fc Ff H. apply check_passed in H as [Hv _]. apply verdict_bands in Hv; [|done]. rewrite Ho in Hv.
  pose proof (band_spec mid _ (i_price o) Hmid Hc Fc) as B1. pose proof (band_spec px _ (i_price o) Hpx Hf Ff) as B2.
  rewrite md_on_trade, md_on_book in Hv by lia. rewrite on_book_limits in Hv. destruct (band mid _) as [lo hi]. destruct (band px _) as [flo fhi]. cbn in Hv. destruct Hv as [H1 H2].
  split; [apply B1, H1, B1 | apply B2, H2, B2].
Qed.

Lemma bands_enforced_witness : fst (check_new buy_one unit_inst demo_inputs demo_risk) = NoReason /\
  Z.abs (i_price buy_one - 100 * 100000000) * 10000 <= 100 * 100000000 * 100.
Proof.
  split; [vm_compute; reflexivity|].
  destruct (bands_enforced (new_risk demo_limits 5000) 0 (100 * 100000000) 5000 (100 * 100000000) buy_one unit_inst demo_inputs 0 true
    ltac:(vm_compute; split; congruence) eq_refl eq_refl ltac:(vm_compute; split; congruence) ltac:(vm_compute; split; congruence) ltac:(vm_compute; split; congruence)
    ltac:(vm_compute; split; congruence) ltac:(vm_compute; congruence) ltac:(vm_compute; congruence) ltac:(vm_compute; reflexivity)) as [H _]. exact H.
Defined.

(** ** Headroom *)

Lemma lot_floor_spec inst raw x : 0 < in_lot inst <= i64_max -> raw <= i64_max -> 0 < x -> (in_lot inst | x) ->
  x <= lot_floor inst raw <-> x <= raw.
Proof.
  intros Hl Hr Hx [k ->]. unfold lot_floor. destruct (Z.leb_spec raw 0); [lia|]. rewrite (proj2 (Z.ltb_lt _ _)) by lia. cbn [negb].
  rewrite Z.rem_mod_nonneg by lia. pose proof (Z.mod_pos_bound raw (in_lot inst) ltac:(lia)). pose proof (Z.div_mod raw (in_lot inst) ltac:(lia)).
  rewrite i64_id by width. split; [lia|]. intros Hk. replace (raw - raw mod in_lot inst) with (in_lot inst * (raw / in_lot inst)) by lia.
  assert (k <= raw / in_lot inst) by (apply Z.div_le_lower_bound; lia). nia.
Qed.

Lemma cap_room_spec m q open x : 0 <= m <= 2 ^ 60 -> Z.abs q <= 2 ^ 60 -> 0 <= open <= 2 ^ 60 -> 0 < x ->
  cap_room m q open <= 2 ^ 62 /\
  (x <= cap_room m q open <-> ~ (m < Z.abs (q + (open + x)) /\ Z.abs q < Z.abs (q + (open + x)))).
Proof.
  intros Hm Hq Ho Hx. unfold cap_room. rewrite (i64_id (m - q)), (i64_id (m - q - open)) by width.
  rewrite (i64_id (-2 * q)), (i64_id (-2 * q - open)) by width. destruct (Z.ltb_spec q 0); lia.
Qed.

(** The position room of the headroom is exact: a quantity on the lot passes the position check, on either
    side, exactly when it is no more than the room, so the room itself passes and one lot more is refused. *)
Theorem headroom_position_exact r inst buy sell pnl p side o x : ri_position buy = Some p -> ri_position sell = Some p ->
  0 < max_position (limits_ r) <= 2 ^ 60 -> 0 < in_lot inst <= i64_max -> 0 < x -> (in_lot inst | x) ->
  i_side o = side -> i_qty o = x ->
  sizes_ok o (match side with Buy => buy | Sell => sell end) 0 ->
  let h := headroom r inst buy sell pnl in
  check_position r o (match side with Buy => buy | Sell => sell end) 0 = NoReason <->
  x <= match side with Buy => h_buy_qty h | Sell => h_sell_qty h end.
Proof.
  intros Hb Hs Hm Hl Hx Hd <- <- Hok. cbv zeta. set (inp := match i_side o with Buy => buy | Sell => sell end) in *.
  assert (Hp : ri_position inp = Some p) by (unfold inp; by destruct (i_side o)).
  rewrite (check_position_spec r o inp 0 p Hok Hp) by lia. pose proof (so_position _ _ _ Hok p Hp) as Hq. pose proof (so_open _ _ _ Hok) as Ho.
  assert (E : match i_side o with Buy => h_buy_qty (headroom r inst buy sell pnl) | Sell => h_sell_qty (headroom r inst buy sell pnl) end =
    lot_floor inst (cap_room (max_position (limits_ r)) (sign (i_side o) * p_qty p) (ri_open_same_side inp))).
  { unfold inp. destruct (i_side o); cbn [headroom h_buy_qty h_sell_qty sign]; rewrite Hb, (proj2 (Z.ltb_lt 0 _)) by lia; do 2 f_equal; lia. }
  rewrite E. destruct (cap_room_spec (max_position (limits_ r)) (sign (i_side o) * p_qty p) (ri_open_same_side inp) (i_qty o)) as [Hc1 Hc2];
    [lia | destruct (i_side o); cbn [sign]; lia | lia | done |].
  rewrite lot_floor_spec by (done || width). rewrite Hc2.
  assert (Ew : Z.abs (worst_position o inp 0 p) = Z.abs (sign (i_side o) * p_qty p + (ri_open_same_side inp + i_qty o)))
    by (unfold worst_position; destruct (i_side o); cbn [sign]; lia).
  assert (Ep : Z.abs (sign (i_side o) * p_qty p) = Z.abs (p_qty p)) by (destruct (i_side o); cbn [sign]; lia).
  rewrite Ew, Ep. split; [intros H; symmetry in H; apply refuse_none in H; [by apply bool_decide_eq_false in H | discriminate]|].
  intros H. by rewrite bool_decide_false.
Qed.

Lemma headroom_position_exact_witness :
  h_buy_qty (headroom demo_risk unit_inst demo_inputs demo_inputs 0) = 100000000 /\ check_position demo_risk buy_one demo_inputs 0 = NoReason.
Proof.
  assert (E : h_buy_qty (headroom demo_risk unit_inst demo_inputs demo_inputs 0) = 100000000) by (vm_compute; reflexivity). split; [exact E|].
  apply (headroom_position_exact demo_risk unit_inst demo_inputs demo_inputs 0 _ Buy buy_one 100000000 eq_refl eq_refl
    ltac:(vm_compute; split; congruence) ltac:(vm_compute; split; congruence) ltac:(lia) ltac:(exists 1; reflexivity) eq_refl eq_refl demo_sizes).
  rewrite E. lia.
Defined.

(** ** The kill switch *)

Lemma land_bit k n : 0 <= n -> negb (Z.land k (Z.shiftl 1 n) =? 0) = Z.testbit k n.
Proof.
  intros Hn. rewrite Z.shiftl_1_l. destruct (Z.eqb_spec (Z.land k (2 ^ n)) 0) as [E|E]; cbn.
  - symmetry. apply (f_equal (fun z => Z.testbit z n)) in E. rewrite Z.land_spec, Z.pow2_bits_true, andb_true_r, Z.bits_0 in E by done. done.
  - destruct (Z.testbit k n) eqn:Et; [done|]. exfalso. apply E. apply Z.bits_inj'. intros m Hm.
    rewrite Z.land_spec, Z.bits_0. destruct (decide (m = n)) as [->|Hne]; [by rewrite Et|]. by rewrite Z.pow2_bits_false, andb_false_r.
Qed.
Lemma venue_bit_slot v : venue_bit v = Z.shiftl 1 (1 + venue_slot v).
Proof. unfold venue_bit, venue_slot, kKillVenueSlots. by case_if. Qed.
Lemma slot_range v : 0 <= v -> 0 <= venue_slot v <= 30.
Proof. intros H. unfold venue_slot, kKillVenueSlots. destruct (Z.ltb_spec v 31); lia. Qed.
Lemma killed_bit r : killed r = Z.testbit (kill_ r) 0.
Proof. exact (land_bit (kill_ r) 0 ltac:(lia)). Qed.
Lemma venue_killed_bit r v : 0 <= v -> venue_killed r v = Z.testbit (kill_ r) (1 + venue_slot v).
Proof. intros Hv. pose proof (slot_range v Hv). unfold venue_killed. rewrite venue_bit_slot. apply land_bit. lia. Qed.
Lemma shiftl1_bits n m : 0 <= n -> 0 <= m -> Z.testbit (Z.shiftl 1 n) m = bool_decide (n = m).
Proof.
  intros Hn Hm. rewrite Z.shiftl_1_l. case_bool_decide as E; [subst; by apply Z.pow2_bits_true | by apply Z.pow2_bits_false].
Qed.

(** The kill switch reaches exactly what it names: tripping or resetting a venue changes the venues of its
    slot and no other and never the global flag; the global trip and reset work on the flag, the reset on
    every venue too. *)
Theorem kill_switch_scope r v w : 0 <= v < 256 -> 0 <= w < 256 -> 0 <= kill_ r < 2 ^ 32 ->
  venue_killed (trip_venue v r) w = venue_killed r w || (venue_slot v =? venue_slot w) /\
  venue_killed (reset_venue v r) w = venue_killed r w && negb (venue_slot v =? venue_slot w) /\
  killed (trip_venue v r) = killed r /\ killed (reset_venue v r) = killed r /\
  killed (trip r) = true /\ venue_killed (trip r) w = venue_killed r w /\
  killed (reset_kill r) = false /\ venue_killed (reset_kill r) w = false.
Proof.
  intros Hv Hw Hk. pose proof (slot_range v ltac:(lia)) as Sv. pose proof (slot_range w ltac:(lia)) as Sw.
  assert (Eu : forall m, 0 <= m < 32 -> Z.testbit (u32 (Z.lnot (venue_bit v))) m = negb (bool_decide (1 + venue_slot v = m))).
  { intros m Hm. unfold u32. rewrite venue_bit_slot, Z.mod_pow2_bits_low, Z.lnot_spec, shiftl1_bits by lia. done. }
  assert (Ev : forall m, 0 <= m -> Z.testbit (venue_bit v) m = bool_decide (1 + venue_slot v = m)) by (intros m Hm; rewrite venue_bit_slot, shiftl1_bits; lia || done).
  assert (E1 : forall m, 0 <= m -> Z.testbit 1 m = bool_decide (0 = m)) by (intros m Hm; apply (shiftl1_bits 0 m); lia).
  assert (Es : bool_decide (1 + venue_slot v = 1 + venue_slot w) = (venue_slot v =? venue_slot w)) by (case_bool_decide; lia).
  assert (E0 : bool_decide (1 + venue_slot v = 0) = false) by (apply bool_decide_false; lia).
  assert (E0w : bool_decide (0 = 1 + venue_slot w) = false) by (apply bool_decide_false; lia).
  rewrite !killed_bit, !venue_killed_bit by lia.
  change (kill_ (trip_venue v r)) with (Z.lor (kill_ r) (venue_bit v)). change (kill_ (reset_venue v r)) with (Z.land (kill_ r) (u32 (Z.lnot (venue_bit v)))).
  change (kill_ (trip r)) with (Z.lor (kill_ r) 1). change (kill_ (reset_kill r)) with 0.
  rewrite !Z.lor_spec, !Z.land_spec, !Z.bits_0, !Eu, !Ev, !E1 by lia. rewrite Es, E0, E0w.
  cbn [negb]. rewrite !orb_false_r, !andb_true_r. split_and!; try done. by rewrite orb_true_r.
Qed.

Lemma kill_switch_scope_witness : venue_killed (trip_venue 2 demo_risk) 2 = true /\ venue_killed (trip_venue 2 demo_risk) 3 = false.
Proof.
  destruct (kill_switch_scope demo_risk 2 2 ltac:(lia) ltac:(lia) ltac:(vm_compute; split; congruence)) as [H1 _].
  destruct (kill_switch_scope demo_risk 2 3 ltac:(lia) ltac:(lia) ltac:(vm_compute; split; congruence)) as [H2 _].
  rewrite H1, H2. split; vm_compute; reflexivity.
Defined.

(** ** The engine's life: every operation, in any order *)

Inductive risk_op :=
| OpLimits (l : RiskLimits) (now : Timestamp)
| OpTrip
| OpTripVenue (v : VenueId)
| OpReset
| OpResetVenue (v : VenueId)
| OpBook (id : InstrumentId) (mid : Price) (ts : Timestamp)
| OpTrade (id : InstrumentId) (px : Price)
| OpFx (plan : FxPlan)
| OpUnderlying (plan : UnderlyingPlan)
| OpUnderlyingLimit (u : Z) (max_net : Qty)
| OpFxBook (c : Z) (valid : bool)
| OpPnl (net : Notional)
| OpRebase (now : Timestamp)
| OpCheckNew (o : OrderIntent) (inst : Instrument) (inp : RiskInputs)
| OpCheckReplace (o : OrderIntent) (existing : Order) (inst : Instrument) (inp : RiskInputs).

Definition run_op (r : RiskEngine) (op : risk_op) : RiskEngine :=
  match op with
  | OpLimits l now => set_limits l now r
  | OpTrip => trip r
  | OpTripVenue v => trip_venue v r
  | OpReset => reset_kill r
  | OpResetVenue v => reset_venue v r
  | OpBook id mid ts => on_book id mid ts r
  | OpTrade id px => on_trade id px r
  | OpFx plan => set_fx plan r
  | OpUnderlying plan => set_underlying plan r
  | OpUnderlyingLimit u m => snd (set_underlying_limit u m r)
  | OpFxBook c v => on_fx_book c v r
  | OpPnl n => snd (on_pnl n r)
  | OpRebase now => r <| bucket_ ::= rebase now |>
  | OpCheckNew o inst inp => snd (check_new o inst inp r)
  | OpCheckReplace o e inst inp => snd (check_replace o e inst inp r)
  end.
Definition run (ops : list risk_op) (r : RiskEngine) : RiskEngine := fold_left run_op ops r.

(** Everything but the operator's reset keeps the global flag. *)
Definition keeps_kill (op : risk_op) : Prop := match op with OpReset => False | OpResetVenue v => 0 <= v < 256 | _ => True end.

Lemma reset_venue_global v r : 0 <= v -> Z.testbit (kill_ (reset_venue v r)) 0 = Z.testbit (kill_ r) 0.
Proof.
  intros Hv. pose proof (slot_range v Hv). change (kill_ (reset_venue v r)) with (Z.land (kill_ r) (u32 (Z.lnot (venue_bit v)))).
  unfold u32. rewrite Z.land_spec, Z.mod_pow2_bits_low, Z.lnot_spec, venue_bit_slot, shiftl1_bits by lia.
  rewrite bool_decide_false by lia. by rewrite andb_true_r.
Qed.
Lemma run_op_killed r op : keeps_kill op -> killed r = true -> killed (run_op r op) = true.
Proof.
  rewrite !killed_bit. destruct op; cbn [run_op keeps_kill]; intros Hop Hk; try exact Hk; try done.
  - change (kill_ (trip r)) with (Z.lor (kill_ r) 1). by rewrite Z.lor_spec, Hk.
  - change (kill_ (trip_venue v r)) with (Z.lor (kill_ r) (venue_bit v)). by rewrite Z.lor_spec, Hk.
  - rewrite reset_venue_global by lia. done.
  - unfold on_book. case_if; [done|]. by destruct (band _ _).
  - unfold on_trade. case_if; [done|]. by destruct (band _ _).
  - unfold set_underlying_limit. by case_if.
  - unfold on_fx_book. by case_if.
  - unfold on_pnl. case_if; [|done]. cbn [snd]. change (kill_ (trip r)) with (Z.lor (kill_ r) 1). by rewrite Z.lor_spec, Hk.
  - unfold check_new. by rewrite check_eq.
  - unfold check_replace. by rewrite check_eq.
Qed.
Lemma killed_refuses o inst inp ex co r : killed r = true -> ri_flatten inp = false ->
  fst (check o inst inp ex co r) = KillSwitch /\ bucket_ (snd (check o inst inp ex co r)) = bucket_ r.
Proof.
  intros Hk Hf. assert (Hv : verdict r o inst inp ex co = KillSwitch) by (unfold verdict; cbv zeta; cbn [first_reason]; by rewrite Hk, Hf).
  rewrite check_eq. unfold outcome. rewrite Hv. by split.
Qed.

(** C34. A loss limit stops trading and stays: once the net PnL given to [on_pnl] is at or below [-max_loss],
    then whatever the engine does next short of the operator's reset, every new order and replace that is
    not the operator's flatten is refused with the kill switch, and takes no token. *)
Theorem loss_limit_latches r net ops o e inst inp : 0 < max_loss (limits_ r) <= i64_max -> net <= - max_loss (limits_ r) ->
  Forall keeps_kill ops -> ri_flatten inp = false ->
  let r' := run ops (snd (on_pnl net r)) in
  fst (check_new o inst inp r') = KillSwitch /\ fst (check_replace o e inst inp r') = KillSwitch /\
  bucket_ (snd (check_new o inst inp r')) = bucket_ r'.
Proof.
  intros Hl Hn Hops Hf. cbv zeta.
  assert (Hk : killed (run ops (snd (on_pnl net r))) = true).
  { assert (H0 : killed (snd (on_pnl net r)) = true).
    { unfold on_pnl. rewrite (i64_id (- _)) by width. rewrite (proj2 (Z.ltb_lt _ _)), (proj2 (Z.leb_le _ _)) by lia. cbn [andb].
      destruct (killed r) eqn:E; cbn [negb snd]; [done|]. rewrite killed_bit. change (kill_ (trip r)) with (Z.lor (kill_ r) 1).
      by rewrite Z.lor_spec, orb_true_r. }
    clear Hl Hn. revert H0. generalize (snd (on_pnl net r)) as r0. induction Hops as [|op ops Hop _ IH]; intros r0 H0; [done|].
    apply IH. by apply run_op_killed. }
  split_and!; [by apply killed_refuses | by apply killed_refuses | by apply killed_refuses].
Qed.

Lemma loss_limit_latches_witness :
  fst (check_new buy_one unit_inst demo_inputs demo_risk) = NoReason /\
  fst (check_new buy_one unit_inst demo_inputs (run [OpResetVenue 0; OpBook 0 100 7] (snd (on_pnl (-1000 * 100000000) demo_risk)))) = KillSwitch.
Proof.
  split; [vm_compute; reflexivity|].
  destruct (loss_limit_latches demo_risk (-1000 * 100000000) [OpResetVenue 0; OpBook 0 100 7] buy_one no_order unit_inst demo_inputs
    ltac:(vm_compute; split; congruence) ltac:(vm_compute; congruence) ltac:(repeat constructor; cbn; lia) eq_refl) as [H _]. exact H.
Defined.

(** *** The counters and the cached flags *)

Definition rejected (s : RiskStats) : Z := msum (fun _ n => n) (rs_rejects s).
Record stats_ok (s : RiskStats) : Prop := {
  st_sum : rs_checks s = u64 (rs_passed s + rejected s);
  st_key : forall c n, rs_rejects s !! c = Some n -> exists reason, c = reason_code reason /\ reason <> NoReason;
}.
Record flags_ok (r : RiskEngine) : Prop := {
  fl_gate : fx_gate_ r = fx_on_ r && reads_totals (limits_ r);
  fl_portfolio : portfolio_ r = fx_gate_ r || (0 <? max_gross_notional (limits_ r)) || (0 <? max_net_notional (limits_ r));
  fl_underlying : und_on_ r = true <-> exists u, 0 <= u < und_count_ r /\ 0 < und_max_at r u;
}.

Lemma any_spec (f : Z -> bool) n : fold_left (fun on u => on || f u) (seqZ 0 n) false = true <-> exists u, 0 <= u < n /\ f u = true.
Proof.
  assert (H : forall l b, fold_left (fun on u => on || f u) l b = b || existsb f l).
  { induction l as [|u l IH]; intros b; cbn; [by rewrite orb_false_r|]. by rewrite IH, orb_assoc. }
  rewrite H. cbn [orb]. rewrite existsb_exists. split; intros (u & Hu & Hf); exists u; (split; [|done]).
  - apply list_elem_of_In, elem_of_seqZ in Hu. lia.
  - apply list_elem_of_In, elem_of_seqZ. lia.
Qed.
Lemma update_flags_ok r : flags_ok (update_flags r).
Proof.
  split; [reflexivity | reflexivity |]. change (und_on_ (update_flags r)) with (fold_left (fun on u => on || (0 <? und_max_at r u)) (seqZ 0 (und_count_ r)) false).
  rewrite any_spec. change (und_count_ (update_flags r)) with (und_count_ r). change (und_max_at (update_flags r)) with (und_max_at r).
  split; intros (u & Hu & Hm); exists u; lia.
Qed.
Lemma u64_eq a b k : a = b + k * 2 ^ 64 -> u64 a = u64 b.
Proof. intros ->. unfold u64. by rewrite Z_mod_plus_full. Qed.
Lemma u64_mod z : exists k, u64 z = z + k * 2 ^ 64.
Proof. exists (- (z / 2 ^ 64)). unfold u64. pose proof (Z.div_mod z (2 ^ 64) ltac:(lia)). lia. Qed.
Lemma counted_ok reason s : stats_ok s -> stats_ok (counted reason s).
Proof.
  intros [H1 H2]. unfold counted. cbv zeta. destruct (is_none reason) eqn:E.
  - split; [|done]. unfold rejected in *. cbn in *. rewrite H1. set (m := msum _ _). destruct (u64_mod (rs_passed s + m)) as [k1 ->].
    destruct (u64_mod (rs_passed s + 1)) as [k2 ->]. apply (u64_eq _ _ (k1 - k2)). lia.
  - split.
    + unfold rejected, rejects_at in *. cbn in *. rewrite H1. destruct (u64_mod (rs_passed s + msum (fun _ n => n) (rs_rejects s))) as [k1 ->].
      destruct (rs_rejects s !! reason_code reason) as [n|] eqn:El; cbn.
      * rewrite (msum_update _ _ _ _ _ El). destruct (u64_mod (n + 1)) as [k2 ->]. apply (u64_eq _ _ (k1 - k2)). lia.
      * rewrite msum_insert by done. change (u64 (0 + 1)) with 1. apply (u64_eq _ _ k1). lia.
    + cbn. intros c n Hc. apply lookup_insert_Some in Hc as [[<- _]|[_ Hc]]; [|by eapply H2]. exists reason. split; [done|]. intros ->. discriminate E.
Qed.

Lemma flags_ext r r' : limits_ r' = limits_ r -> fx_on_ r' = fx_on_ r -> fx_gate_ r' = fx_gate_ r -> portfolio_ r' = portfolio_ r ->
  und_on_ r' = und_on_ r -> und_count_ r' = und_count_ r -> und_max_ r' = und_max_ r -> flags_ok r -> flags_ok r'.
Proof.
  intros E1 E2 E3 E4 E5 E6 E7 [H1 H2 H3]. split; [by rewrite E1, E2, E3 | by rewrite E1, E3, E4 |].
  unfold und_max_at in *. by rewrite E5, E6, E7.
Qed.

Lemma run_op_stats r op : stats_ok (stats_ r) -> stats_ok (stats_ (run_op r op)).
Proof.
  intros H. assert (Ht : forall r, stats_ok (stats_ r) -> stats_ok (stats_ (count_trip r))) by (intros r0 [H1 H2]; by split).
  destruct op; cbn [run_op]; try exact H; try (by apply Ht).
  - unfold on_book. case_if; [done|]. by destruct (band _ _).
  - unfold on_trade. case_if; [done|]. by destruct (band _ _).
  - unfold set_underlying_limit. by case_if.
  - unfold on_fx_book. by case_if.
  - unfold on_pnl. case_if; [by apply Ht | done].
  - unfold check_new. rewrite check_eq. by apply counted_ok.
  - unfold check_replace. rewrite check_eq. by apply counted_ok.
Qed.
Lemma run_op_flags r op : flags_ok r -> flags_ok (run_op r op).
Proof.
  intros H. destruct op; cbn [run_op]; try (by apply (flags_ext r)).
  - apply (flags_ext (update_flags (r <| limits_ := l |>))); try reflexivity. apply update_flags_ok.
  - unfold on_book. case_if; [done|]. destruct (band _ _). by apply (flags_ext r).
  - unfold on_trade. case_if; [done|]. destruct (band _ _). by apply (flags_ext r).
  - unfold set_fx. cbv zeta. match goal with |- flags_ok (?x <| fx_ccy_ := _ |> <| fx_src_ := _ |> <| fx_valid_ := _ |>) => apply (flags_ext x) end; try reflexivity. apply update_flags_ok.
  - apply update_flags_ok.
  - unfold set_underlying_limit. case_if; [done|]. apply update_flags_ok.
  - unfold on_fx_book. case_if; [by apply (flags_ext r) | done].
  - unfold on_pnl. case_if; [by apply (flags_ext r) | done].
  - unfold check_new. rewrite check_eq. by apply (flags_ext r).
  - unfold check_replace. rewrite check_eq. by apply (flags_ext r).
Qed.

(** In every state the engine reaches, its counters account for every check (the checks are the passes plus
    the rejects of all reasons, as the 64-bit counters hold them, and each reject counter belongs to a
    reason) and the flags that gate the hot path are those of the limits and plans in force. *)
Theorem risk_state_invariant l now ops : let r := run ops (new_risk l now) in stats_ok (stats_ r) /\ flags_ok r.
Proof.
  cbv zeta. assert (H0 : stats_ok (stats_ (new_risk l now)) /\ flags_ok (new_risk l now)).
  { split; [split; [reflexivity | done]|]. apply (flags_ext (update_flags (mkRisk l no_bucket no_stats 0 ∅ false false false 0 false ∅ ∅ ∅ 0 ∅ ∅ ∅ ∅))); try reflexivity.
    apply update_flags_ok. }
  revert H0. unfold run. generalize (new_risk l now). induction ops as [|op ops IH]; intros r [H1 H2]; [done|].
  apply IH. split; [by apply run_op_stats | by apply run_op_flags].
Qed.
