(* ===== verification/BookSync.v ===== *)
(** * BookSync: the snapshot and delta synchronisation of [book/book_syncer.hpp]

    One synchroniser per instrument turns a venue's stream of deltas and its snapshots
    into a stream a book can apply blindly.  The venue's rules are an instance of
    [SyncTraits]; the calls on the sink are the list [log_], in their order.  The sink
    does not call back into the synchroniser.  Buffered deltas live in a byte arena: a
    cell of [arena_] is the message that starts at that byte. *)

From S2P Require Import Prelude Types L2Book.

Inductive SyncState := Idle | Buffering | Synced | Resync.
#[export] Instance SyncState_eq_dec : EqDecision SyncState.
Proof. solve_decision. Defined.
Inductive SyncReason := SNone | SequenceGap | BufferOverflow | SnapshotTooOld | Explicit | SnapshotMarker | ChecksumMismatch.

(** A [BookDeltaMsg] with its sequence numbers and its length in bytes. *)
Record SeqMsg := mkSeqMsg { sd_msg : BookDeltaMsg; sd_first : Z; sd_prev : Z; sd_len : Z }.
Definition sd_last (d : SeqMsg) : Z := d_last_update_id (sd_msg d).
Definition sd_snapshot (d : SeqMsg) : bool := is_snapshot (sd_msg d).

(** ** Venue rules *)

Class SyncTraits := {
  kNeedsRestSnapshot : bool;
  kBuffersDeltas : bool;
  is_stale : SeqMsg -> Z -> bool;
  first_applies : SeqMsg -> Z -> bool;
  next_applies : SeqMsg -> Z -> bool;
  is_snapshot_marker : SeqMsg -> bool;
}.

Definition BinanceSpotSyncTraits : SyncTraits := {|
  kNeedsRestSnapshot := true;
  kBuffersDeltas := true;
  is_stale d snap := sd_last d <=? snap;
  first_applies d snap := (sd_first d <=? u64 (snap + 1)) && (u64 (snap + 1) <=? sd_last d);
  next_applies d prev_u := sd_first d =? u64 (prev_u + 1);
  is_snapshot_marker _ := false |}.

Definition BinanceFuturesSyncTraits : SyncTraits := {|
  kNeedsRestSnapshot := true;
  kBuffersDeltas := true;
  is_stale d snap := sd_last d <? snap;
  first_applies d snap := (sd_first d <=? snap) && (snap <=? sd_last d);
  next_applies d prev_u := sd_prev d =? prev_u;
  is_snapshot_marker _ := false |}.

Definition BybitSyncTraits : SyncTraits := {|
  kNeedsRestSnapshot := false;
  kBuffersDeltas := false;
  is_stale d snap := sd_last d <=? snap;
  first_applies d snap := snap <? sd_last d;
  next_applies d prev_u := prev_u <? sd_last d;
  is_snapshot_marker d := (sd_last d =? 1) && negb (sd_snapshot d) |}.

(** ** The synchroniser *)

(** A call on the sink. *)
Inductive out := OSnapshot (d : SeqMsg) | ODelta (d : SeqMsg) | OResync (r : SyncReason) | ORequest.

Definition kMaxBuffered : Z := 4096.

Record BookSyncer := mkSyncer {
  log_ : list out;
  state_ : SyncState;
  awaiting_first_ : bool;
  prev_u_ : Z;
  resyncs_ : Z;
  arena_ : gmap Z SeqMsg;
  offsets_ : list Z;
  buf_bytes_ : Z;
  used_ : Z;
}.
#[export] Instance eta_syncer : Eta BookSyncer := fun s =>
  mkSyncer (log_ s) (state_ s) (awaiting_first_ s) (prev_u_ s) (resyncs_ s) (arena_ s) (offsets_ s) (buf_bytes_ s) (used_ s).

Section syncer.
Context `{T : SyncTraits}.

Definition new_syncer (buffer_bytes : Z) : BookSyncer :=
  mkSyncer [] Idle false 0 0 ∅ [] (if kBuffersDeltas then buffer_bytes else 0) 0.

(** [count_] is the number of offsets in use. *)
Definition count_ (s : BookSyncer) : Z := Z.of_nat (length (offsets_ s)).
Definition emit (o : out) (s : BookSyncer) : BookSyncer := s <| log_ ::= fun l => l ++ [o] |>.
Definition synced (s : BookSyncer) : bool := bool_decide (state_ s = Synced).

Definition reset_buffer (s : BookSyncer) : BookSyncer := s <| offsets_ := [] |> <| used_ := 0 |>.

Definition buffer (d : SeqMsg) (s : BookSyncer) : bool * BookSyncer :=
  if (kMaxBuffered <=? count_ s) || (buf_bytes_ s <? used_ s + sd_len d) then (false, s)
  else (true, s <| arena_ := <[used_ s := d]> (arena_ s) |> <| offsets_ ::= fun l => l ++ [u32 (used_ s)] |>
                <| used_ := used_ s + sd_len d |>).

Definition at_ (s : BookSyncer) (i : nat) : option SeqMsg := offsets_ s !! i ≫= fun o => arena_ s !! o.

(** [memmove(buf, buf + base, n)]: the messages that start in [base .. base + n) start [base] bytes earlier. *)
Definition memmove (base n : Z) (m : gmap Z SeqMsg) : gmap Z SeqMsg :=
  kmap (fun k => k - base) (filter (fun e => base <= e.1 < base + n) m).
Definition drop_front (n : nat) (s : BookSyncer) : BookSyncer :=
  if (n =? 0)%nat then s
  else if (length (offsets_ s) <=? n)%nat then reset_buffer s
  else
    let base := default 0 (offsets_ s !! n) in
    s <| arena_ := memmove base (used_ s - base) (arena_ s) |>
      <| offsets_ := (fun o => u32 (o - base)) <$> drop n (offsets_ s) |>
      <| used_ := used_ s - base |>.

Definition start (s : BookSyncer) : BookSyncer :=
  let s := (reset_buffer s) <| awaiting_first_ := false |> <| state_ := Buffering |> in
  if kNeedsRestSnapshot then emit ORequest s else s.

Definition resync (r : SyncReason) (s : BookSyncer) : BookSyncer :=
  let s := s <| resyncs_ ::= fun x => u32 (x + 1) |> <| state_ := Resync |> in
  start (emit (OResync r) s).

Definition resync_keeping (d : SeqMsg) (s : BookSyncer) : BookSyncer :=
  let s := resync SequenceGap s in
  if kBuffersDeltas then
    if bool_decide (state_ s = Buffering) then
      let '(ok, s) := buffer d s in if ok then s else resync BufferOverflow s
    else s
  else s.

(** [while (i < count_ && is_stale( *at(i), L)) ++i]; a missing cell ends the walk as a fresh message would. *)
Fixpoint skip_stale (s : BookSyncer) (L : Z) (i : nat) (fuel : nat) : nat :=
  match fuel with
  | O => i
  | S fuel =>
    match at_ s i with
    | Some d => if is_stale d L then skip_stale s L (S i) fuel else i
    | None => i
    end
  end.

(** The replay loop of [on_snapshot] from buffered message [i] on; [fuel] counts the messages left. *)
Fixpoint replay (L : Z) (i fuel : nat) (first : bool) (s : BookSyncer) : BookSyncer :=
  match fuel with
  | O => reset_buffer (s <| awaiting_first_ := first |>)
  | S fuel =>
    match at_ s i with
    | Some d =>
      if negb (if first then first_applies d L else next_applies d (prev_u_ s)) then
        let s := drop_front i s in
        let s := s <| resyncs_ ::= fun x => u32 (x + 1) |> <| state_ := Resync |> in
        let s := (emit (OResync SequenceGap) s) <| awaiting_first_ := false |> <| state_ := Buffering |> in
        emit ORequest s
      else replay L (S i) fuel false (emit (ODelta d) (s <| prev_u_ := sd_last d |>))
    | None => s
    end
  end.

Definition on_snapshot (snap : SeqMsg) (s : BookSyncer) : BookSyncer :=
  if bool_decide (state_ s = Idle) then s
  else
    let L := sd_last snap in
    if kBuffersDeltas then
      let n := length (offsets_ s) in
      let i := skip_stale s L 0 n in
      if match at_ s i with Some d => negb (first_applies d L) | None => false end then
        let s := emit (OResync SnapshotTooOld) (s <| resyncs_ ::= fun x => u32 (x + 1) |>) in
        emit ORequest (drop_front i s)
      else
        let s := (emit (OSnapshot snap) s) <| prev_u_ := L |> <| state_ := Synced |> in
        replay L i (n - i) true s
    else (emit (OSnapshot snap) s) <| prev_u_ := L |> <| state_ := Synced |>.

Definition on_delta (d : SeqMsg) (s : BookSyncer) : BookSyncer :=
  if sd_snapshot d then on_snapshot d s
  else if is_snapshot_marker d then resync SnapshotMarker s
  else
    match state_ s with
    | Idle | Resync => s
    | Buffering =>
      if kBuffersDeltas then let '(ok, s) := buffer d s in if ok then s else resync BufferOverflow s else s
    | Synced =>
      if kBuffersDeltas && awaiting_first_ s then
        if is_stale d (prev_u_ s) then s
        else if negb (first_applies d (prev_u_ s)) then resync_keeping d s
        else emit (ODelta d) (s <| awaiting_first_ := false |> <| prev_u_ := sd_last d |>)
      else if next_applies d (prev_u_ s) then emit (ODelta d) (s <| prev_u_ := sd_last d |>)
      else if negb (is_stale d (prev_u_ s)) then resync_keeping d s
      else s
    end.
End syncer.
