(* ===== verification/BookSyncProps.v ===== *)
(** * BookSyncProps: what the synchroniser guarantees

    The byte arena implements a list of messages.  A consumer that applies the sink's
    calls holds, whenever the synchroniser is synced, exactly the venue's book at the last
    update id it passed on, whatever is lost, repeated or reordered on the way; and a
    stream with nothing lost is synchronised by one snapshot without a resync. *)

From S2P Require Import Prelude Types L2Book BookSync.

(** ** The arena *)

Section arena.
Context `{T : SyncTraits}.

Fixpoint starts (b : Z) (ds : list SeqMsg) : list Z :=
  match ds with [] => [] | d :: ds => b :: starts (b + sd_len d) ds end.
Fixpoint cells (b : Z) (ds : list SeqMsg) (m : gmap Z SeqMsg) : Prop :=
  match ds with [] => True | d :: ds => m !! b = Some d /\ cells (b + sd_len d) ds m end.
Fixpoint bytes (ds : list SeqMsg) : Z := match ds with [] => 0 | d :: ds => sd_len d + bytes ds end.
Definition sized (d : SeqMsg) : Prop := 0 < sd_len d.

(** The arena holds the messages [ds] one after the other. *)
Record holds (s : BookSyncer) (ds : list SeqMsg) : Prop := {
  ho_offsets : offsets_ s = starts 0 ds;
  ho_cells : cells 0 ds (arena_ s);
  ho_used : used_ s = bytes ds;
  ho_sized : Forall sized ds;
  ho_bytes : bytes ds <= Z.max 0 (buf_bytes_ s) /\ buf_bytes_ s < 2 ^ 32;
  ho_count : Z.of_nat (length ds) <= kMaxBuffered;
}.

Lemma starts_length b ds : length (starts b ds) = length ds.
Proof. revert b. induction ds as [|d ds IH]; intros b; cbn; [done | by rewrite IH]. Qed.
Lemma bytes_app ds ds' : bytes (ds ++ ds') = bytes ds + bytes ds'.
Proof. induction ds as [|d ds IH]; cbn; [done | rewrite IH; lia]. Qed.
Lemma bytes_nonneg ds : Forall sized ds -> 0 <= bytes ds.
Proof. induction 1 as [|d ds Hd _ IH]; cbn; [done | unfold sized in Hd; lia]. Qed.
Lemma starts_app b ds ds' : starts b (ds ++ ds') = starts b ds ++ starts (b + bytes ds) ds'.
Proof. revert b. induction ds as [|d ds IH]; intros b; cbn; [f_equal; lia | rewrite IH; do 3 f_equal; lia]. Qed.
Lemma cells_app b ds ds' m : cells b (ds ++ ds') m <-> cells b ds m /\ cells (b + bytes ds) ds' m.
Proof.
  revert b. induction ds as [|d ds IH]; intros b; cbn; [rewrite Z.add_0_r; tauto|].
  rewrite IH. replace (b + sd_len d + bytes ds) with (b + (sd_len d + bytes ds)) by lia. tauto.
Qed.
Lemma cells_insert b ds m k d : Forall sized ds -> b + bytes ds <= k -> cells b ds m -> cells b ds (<[k := d]> m).
Proof.
  intros Hs. revert b. induction Hs as [|e ds He Hs IH]; intros b Hk; cbn; [done|]. cbn in Hk. pose proof (bytes_nonneg ds Hs).
  unfold sized in He. intros [H1 H2]. split; [rewrite lookup_insert_ne by lia; done | apply IH; [lia | done]].
Qed.
Lemma at_starts b ds m i : cells b ds m -> (starts b ds !! i) ≫= (fun o => m !! o) = ds !! i.
Proof. revert b i. induction ds as [|d ds IH]; intros b i; cbn; [by rewrite !lookup_nil|]. intros [H1 H2]. destruct i as [|i]; cbn; [done | by apply IH]. Qed.
Lemma starts_drop b ds n : drop n (starts b ds) = starts (b + bytes (take n ds)) (drop n ds).
Proof.
  revert b n. induction ds as [|d ds IH]; intros b [|n]; cbn; try done; [by rewrite Z.add_0_r|]. rewrite IH. f_equal. lia.
Qed.
Lemma starts_shift base ds : Forall sized ds -> base + bytes ds < 2 ^ 32 -> 0 <= base ->
  (fun o => u32 (o - base)) <$> starts base ds = starts 0 ds.
Proof.
  intros Hs Hb Hbase. enough (H : forall c, 0 <= c -> c + bytes ds < 2 ^ 32 -> (fun o => u32 (o - base)) <$> starts (base + c) ds = starts c ds)
    by (specialize (H 0 ltac:(lia) ltac:(lia)); by rewrite Z.add_0_r in H).
  clear Hb. induction Hs as [|d ds Hd Hs IH]; intros c Hc Hcb; cbn; [done|]. cbn in Hcb. pose proof (bytes_nonneg ds Hs). unfold sized in Hd. f_equal.
  - unfold u32. rewrite Z.mod_small; lia.
  - replace (base + c + sd_len d) with (base + (c + sd_len d)) by lia. apply IH; lia.
Qed.
Lemma memmove_lookup base n m k : 0 <= k < n -> memmove base n m !! k = m !! (base + k).
Proof.
  intros Hk. unfold memmove. assert (Hinj : Inj eq eq (fun k => k - base)) by (intros ? ?; lia). replace k with ((fun k => k - base) (base + k)) at 1 by (cbn; lia).
  rewrite (lookup_kmap (fun k => k - base)). apply option_eq. intros x. rewrite map_lookup_filter_Some. cbn. split; [by intros [? _] | intros H; split; [done | lia]].
Qed.
Lemma cells_memmove base n ds m : Forall sized ds -> bytes ds <= n -> cells base ds m -> cells 0 ds (memmove base n m).
Proof.
  intros Hs Hn. enough (H : forall c, 0 <= c -> c + bytes ds <= n -> cells (base + c) ds m -> cells c ds (memmove base n m))
    by (intros Hc; apply (H 0); [lia | lia | by rewrite Z.add_0_r]).
  clear Hn. induction Hs as [|d ds Hd Hs IH]; intros c Hc Hcb; cbn; [done|]. cbn in Hcb. pose proof (bytes_nonneg ds Hs). unfold sized in Hd.
  intros [H1 H2]. split; [rewrite memmove_lookup by lia; done|]. apply IH; [lia | lia|]. by replace (base + (c + sd_len d)) with (base + c + sd_len d) by lia.
Qed.

Lemma holds_at s ds i : holds s ds -> at_ s i = ds !! i.
Proof. intros H. unfold at_. rewrite (ho_offsets s ds H). apply at_starts, (ho_cells s ds H). Qed.
Lemma holds_count s ds : holds s ds -> length (offsets_ s) = length ds.
Proof. intros H. rewrite (ho_offsets s ds H). apply starts_length. Qed.
Lemma holds_nil s : buf_bytes_ s < 2 ^ 32 -> offsets_ s = [] -> used_ s = 0 -> holds s [].
Proof. intros H1 H2 H3. split; cbn; try done. split; lia. Qed.
Lemma holds_ext s s' ds : arena_ s' = arena_ s -> offsets_ s' = offsets_ s -> used_ s' = used_ s -> buf_bytes_ s' = buf_bytes_ s ->
  holds s ds -> holds s' ds.
Proof. intros E1 E2 E3 E4 [H1 H2 H3 H4 H5 H6]. split; congruence. Qed.
Lemma reset_holds s ds : holds s ds -> holds (reset_buffer s) [].
Proof. intros H. apply holds_nil; [exact (proj2 (ho_bytes s ds H)) | done | done]. Qed.

(** [buffer] appends, or refuses and changes nothing. *)
Definition fits (s : BookSyncer) (ds : list SeqMsg) (d : SeqMsg) : bool :=
  (Z.of_nat (length ds) <? kMaxBuffered) && (bytes ds + sd_len d <=? buf_bytes_ s).
Lemma buffer_spec s ds d : holds s ds -> sized d ->
  if fits s ds d then exists s', buffer d s = (true, s') /\ holds s' (ds ++ [d]) /\ (log_ s', state_ s', awaiting_first_ s', prev_u_ s') = (log_ s, state_ s, awaiting_first_ s, prev_u_ s)
  else buffer d s = (false, s).
Proof.
  intros H Hd. unfold fits, buffer, count_. rewrite (holds_count s ds H), (ho_used s ds H).
  destruct (Z.ltb_spec (Z.of_nat (length ds)) kMaxBuffered) as [Hc|Hc], (Z.leb_spec kMaxBuffered (Z.of_nat (length ds))); try lia; [|done].
  destruct (Z.leb_spec (bytes ds + sd_len d) (buf_bytes_ s)) as [Hb|Hb], (Z.ltb_spec (buf_bytes_ s) (bytes ds + sd_len d)); try lia; [|done].
  cbn [andb orb]. eexists. split; [reflexivity|]. split; [|done]. destruct H as [G1 G2 G3 G4 G5 G6].
  pose proof (bytes_nonneg ds G4). unfold sized in Hd. split; cbn.
  - rewrite G1, starts_app. cbn. f_equal. f_equal. unfold u32. rewrite Z.mod_small; lia.
  - apply cells_app. split; [apply cells_insert; [done | lia | done]|]. cbn. rewrite Z.add_0_l. split; [apply lookup_insert_eq | done].
  - rewrite bytes_app. cbn. lia.
  - apply Forall_app. by repeat constructor.
  - rewrite bytes_app. cbn. lia.
  - rewrite length_app. cbn. lia.
Qed.

(** [drop_front] forgets the oldest messages. *)
Lemma drop_front_spec s ds n : holds s ds -> holds (drop_front n s) (drop n ds) /\
  (log_ (drop_front n s), state_ (drop_front n s), awaiting_first_ (drop_front n s), prev_u_ (drop_front n s), buf_bytes_ (drop_front n s)) = (log_ s, state_ s, awaiting_first_ s, prev_u_ s, buf_bytes_ s).
Proof.
  intros H. unfold drop_front. rewrite (holds_count s ds H). destruct (Nat.eqb_spec n 0) as [->|Hn]; [done|].
  destruct (Nat.leb_spec (length ds) n) as [Hl|Hl]; [rewrite drop_ge by lia; split; [by eapply reset_holds | done]|].
  split; [|done]. destruct H as [H1 H2 H3 H4 H5 H6].
  assert (Eb : default 0 (offsets_ s !! n) = bytes (take n ds)).
  { rewrite H1. replace n with (n + 0)%nat at 1 by lia. rewrite <- lookup_drop, starts_drop. destruct (drop n ds) eqn:E; [|cbn; lia].
    apply (f_equal length) in E. rewrite length_drop in E. cbn in E. lia. }
  rewrite <- (take_drop n ds) in H2, H3, H4, H5. rewrite bytes_app in H3, H5. apply Forall_app in H4 as [H4 H4'].
  pose proof (bytes_nonneg _ H4). pose proof (bytes_nonneg _ H4'). apply cells_app in H2 as [_ H2]. rewrite Z.add_0_l in H2.
  rewrite Eb. split; cbn.
  - rewrite H1, starts_drop, Z.add_0_l. apply starts_shift; [done | lia | lia].
  - rewrite H3. apply cells_memmove; [done | lia | done].
  - lia.
  - done.
  - lia.
  - rewrite length_drop. lia.
Qed.
End arena.

(** ** The venue's book and the consumer *)

(** Quantities per side and price; zero is no level. *)
Definition content := Side -> Price -> Qty.
Definition side_levels (d : SeqMsg) (s : Side) : list Level := match s with Buy => d_bids (sd_msg d) | Sell => d_asks (sd_msg d) end.
Definition listed (ls : list Level) (px : Price) : option Qty := l_qty <$> last (filter (fun l => l_price l = px) ls).
(** A message's levels on top of what was there. *)
Definition overlay (d : SeqMsg) (c : content) : content := fun s px => default (c s px) (listed (side_levels d s) px).

Inductive view := Stale | Live (c : content).
(** A consumer of the sink's calls: [None] once a delta arrives with no book to apply it to. *)
Definition consume (v : option view) (o : out) : option view :=
  match v, o with
  | None, _ => None
  | Some _, OSnapshot d => Some (Live (overlay d (fun _ _ => 0)))
  | Some (Live c), ODelta d => Some (Live (overlay d c))
  | Some Stale, ODelta _ => None
  | Some _, OResync _ => Some Stale
  | Some v, ORequest => Some v
  end.
Definition consumer (log : list out) : option view := fold_left consume log (Some Stale).

#[local] Arguments consumer : simpl never.
Lemma consumer_snoc l o : consumer (l ++ [o]) = consume (consumer l) o.
Proof. unfold consumer. by rewrite fold_left_app. Qed.

(** An update id a stream can carry: the code adds one to it. *)
Definition id_ok (n : Z) : Prop := 0 <= n < 2 ^ 64 - 1.
Record delta_wf (d : SeqMsg) : Prop := {
  dw_sized : sized d;
  dw_ids : 0 <= sd_prev d <= sd_first d /\ sd_first d <= sd_last d /\ id_ok (sd_last d);
}.

(** Venue rules that leave no gap: a delta they accept after state [n] covers every update since [n]. *)
Class GapFree (T : SyncTraits) := {
  from : SeqMsg -> Z;
  first_covers : forall d L, delta_wf d -> id_ok L -> first_applies d L = true -> from d <= L <= sd_last d;
  next_covers : forall d p, delta_wf d -> id_ok p -> next_applies d p = true -> from d <= p <= sd_last d;
}.

#[export] Instance spot_gap_free : GapFree BinanceSpotSyncTraits.
Proof.
  refine {| from d := sd_first d - 1 |}; intros d n [_ Hd] Hn; cbn; unfold u64, id_ok in *; rewrite Z.mod_small by lia; lia.
Defined.
#[export] Instance futures_gap_free : GapFree BinanceFuturesSyncTraits.
Proof. refine {| from d := sd_prev d |}; intros d n [_ Hd] Hn; cbn; lia. Defined.

Section venue.
Context `{T : SyncTraits} `{G : !GapFree T}.
(** The venue's book after each update id. *)
Variable V : Z -> content.

(** A delta gives the final quantity of every level its updates changed. *)
Definition honest_delta (d : SeqMsg) : Prop := delta_wf d /\ forall s px,
  match listed (side_levels d s) px with
  | Some q => q = V (sd_last d) s px
  | None => forall n, from d <= n <= sd_last d -> V n s px = V (sd_last d) s px
  end.
(** A snapshot is the book at its id. *)
Definition honest_snapshot (d : SeqMsg) : Prop := id_ok (sd_last d) /\
  forall s px, default 0 (listed (side_levels d s) px) = V (sd_last d) s px.

Definition follows (v : option view) (n : Z) : Prop := exists c, v = Some (Live c) /\ forall s px, c s px = V n s px.

Lemma follows_delta v n d : follows v n -> honest_delta d -> from d <= n <= sd_last d -> follows (consume v (ODelta d)) (sd_last d).
Proof.
  intros (c & -> & Hc) [_ Hd] Hn. exists (overlay d c). split; [done|]. intros s px. unfold overlay. specialize (Hd s px).
  destruct (listed (side_levels d s) px); cbn; [done|]. rewrite Hc. by apply Hd.
Qed.
Lemma follows_snapshot v d w : v = Some w -> honest_snapshot d -> follows (consume v (OSnapshot d)) (sd_last d).
Proof. intros -> [_ Hd]. destruct w; (eexists; split; [done|]); intros s px; apply Hd. Qed.

Record sync_ok (s : BookSyncer) : Prop := {
  sy_state : state_ s <> Resync;
  sy_buffer : exists ds, holds s ds /\ Forall honest_delta ds /\ (state_ s = Buffering /\ kBuffersDeltas = true \/ ds = []);
  sy_view : match state_ s with Synced => follows (consumer (log_ s)) (prev_u_ s) /\ id_ok (prev_u_ s) | _ => exists v, consumer (log_ s) = Some v end;
}.

Lemma view_some s : sync_ok s -> exists v, consumer (log_ s) = Some v.
Proof. intros [_ _ H]. destruct (state_ s); try done. destruct H as [(c & H & _) _]. by exists (Live c). Qed.

Lemma start_ok s ds w : holds s ds -> consumer (log_ s) = Some w -> sync_ok (start s).
Proof.
  intros Hh Hw. assert (Hr : holds (reset_buffer s) []) by (by eapply reset_holds).
  unfold start. destruct kNeedsRestSnapshot; (split; [done | exists []; split; [eapply holds_ext; [..|exact Hr]; done | split; [done | by right]] |]).
  - exists w. cbn. rewrite consumer_snoc, Hw. by destruct w.
  - by exists w.
Qed.
Lemma resync_ok s ds w r : holds s ds -> consumer (log_ s) = Some w -> sync_ok (resync r s) /\ state_ (resync r s) = Buffering.
Proof.
  intros Hh Hw. split; [|unfold resync, start; by destruct kNeedsRestSnapshot].
  apply (start_ok _ ds Stale); [eapply holds_ext; [..|exact Hh]; done|]. cbn. rewrite consumer_snoc, Hw. by destruct w.
Qed.
Lemma buffer_ok s d : sync_ok s -> kBuffersDeltas = true -> state_ s = Buffering -> honest_delta d ->
  sync_ok (let '(ok, s') := buffer d s in if ok then s' else resync BufferOverflow s').
Proof.
  intros Hs Hk Hb Hd. destruct (sy_buffer s Hs) as (ds & Hh & Hds & _). destruct (view_some s Hs) as [w Hw].
  pose proof (buffer_spec s ds d Hh (dw_sized d (proj1 Hd))) as Hspec. destruct (fits s ds d).
  - destruct Hspec as (s' & -> & Hh' & E). injection E as E1 E2 E3 E4. split.
    + congruence.
    + exists (ds ++ [d]). split; [done|]. split; [apply Forall_app; split; [done | by apply Forall_singleton] | left; split; congruence].
    + rewrite E2, Hb, E1. by exists w.
  - rewrite Hspec. by eapply resync_ok.
Qed.
Lemma resync_keeping_ok s d : sync_ok s -> honest_delta d -> sync_ok (resync_keeping d s).
Proof.
  intros Hs Hd. destruct (sy_buffer s Hs) as (ds & Hh & _). destruct (view_some s Hs) as [w Hw].
  destruct (resync_ok s ds w SequenceGap Hh Hw) as [Hr Hb]. unfold resync_keeping. cbv zeta. destruct kBuffersDeltas eqn:Ek; [|done].
  rewrite bool_decide_true by done. by apply buffer_ok.
Qed.

(** The state after an accepted delta. *)
Lemma accept_ok s d b : sync_ok s -> state_ s = Synced -> honest_delta d -> from d <= prev_u_ s <= sd_last d ->
  sync_ok (emit (ODelta d) (s <| awaiting_first_ := b |> <| prev_u_ := sd_last d |>)).
Proof.
  intros Hs Hst Hd Hc. destruct (sy_buffer s Hs) as (ds & Hh & Hds & He). pose proof (sy_view s Hs) as Hv. rewrite Hst in Hv.
  destruct Hv as [Hf _]. split; [cbn; congruence | |].
  - exists ds. split; [eapply holds_ext; [..|exact Hh]; done | done].
  - cbn. rewrite Hst, consumer_snoc. split; [by eapply follows_delta | apply Hd].
Qed.

Lemma skip_stale_spec s ds L i fuel : holds s ds -> (i <= skip_stale s L i fuel <= i + fuel)%nat.
Proof. intros H. revert i. induction fuel as [|fuel IH]; intros i; cbn; [lia|]. destruct (at_ s i) as [d|]; [|lia]. destruct (is_stale d L); [specialize (IH (S i)); lia | lia]. Qed.

Lemma replay_ok L ds fuel : kBuffersDeltas = true -> Forall honest_delta ds -> forall i first s, holds s ds -> (i + fuel)%nat = length ds -> state_ s = Synced ->
  follows (consumer (log_ s)) (prev_u_ s) -> id_ok (prev_u_ s) -> (first = true -> prev_u_ s = L) ->
  sync_ok (replay L i fuel first s).
Proof.
  intros Hk Hds. induction fuel as [|fuel IH]; intros i first s Hh Hi Hst Hf Hid Hfirst; cbn [replay].
  - split; [cbn; congruence | exists []; split; [eapply holds_ext; [..|eapply (reset_holds s); exact Hh]; done | split; [done | by right]] |].
    cbn. by rewrite Hst.
  - rewrite (holds_at s ds i Hh). destruct (ds !! i) as [d|] eqn:Ed.
    2: { apply lookup_ge_None_1 in Ed. lia. }
    assert (Hd : honest_delta d) by (by eapply Forall_lookup_1).
    destruct (if first then first_applies d L else next_applies d (prev_u_ s)) eqn:Eok; cbn [negb].
    + assert (Hc : from d <= prev_u_ s <= sd_last d).
      { destruct first; [rewrite (Hfirst eq_refl) in *; apply first_covers | apply next_covers]; (apply Hd || done). }
      apply IH; [eapply holds_ext; [..|exact Hh]; done | lia | done | | apply Hd | done].
      cbn. rewrite consumer_snoc. by eapply follows_delta.
    + destruct (drop_front_spec s ds i Hh) as [Hh' E]. injection E as E1 E2 E3 E4 E5. split; [done | |].
      * exists (drop i ds). split; [eapply holds_ext; [..|exact Hh']; done|]. split; [by apply Forall_drop | by left].
      * cbn. exists Stale. rewrite !consumer_snoc. rewrite E1. destruct Hf as (c & -> & _). done.
Qed.

Lemma on_snapshot_ok s d : sync_ok s -> honest_snapshot d -> sync_ok (on_snapshot d s).
Proof.
  intros Hs Hd. unfold on_snapshot. case_bool_decide as Hidle; [done|]. cbv zeta.
  destruct (sy_buffer s Hs) as (ds & Hh & Hds & He). destruct (view_some s Hs) as [w Hw]. rewrite (holds_count s ds Hh).
  assert (Hfol : follows (consumer (log_ s ++ [OSnapshot d])) (sd_last d)) by (rewrite consumer_snoc; by eapply follows_snapshot).
  destruct kBuffersDeltas eqn:Ek.
  - pose proof (skip_stale_spec s ds (sd_last d) 0 (length ds) Hh) as Hi. set (i := skip_stale s (sd_last d) 0 (length ds)) in *.
    rewrite (holds_at s ds i Hh). destruct (match ds !! i with Some _ => _ | None => _ end) eqn:Eold.
    + assert (Hst : state_ s = Buffering) by (destruct He as [[? _]| ->]; [done | by rewrite lookup_nil in Eold]).
      set (s1 := emit (OResync SnapshotTooOld) _). assert (Hh1 : holds s1 ds) by (eapply holds_ext; [..|exact Hh]; done).
      destruct (drop_front_spec s1 ds i Hh1) as [Hh' E]. injection E as E1 E2 E3 E4 E5. split.
      * cbn. rewrite E2. cbn. congruence.
      * exists (drop i ds). split; [eapply holds_ext; [..|exact Hh']; done|]. split; [by apply Forall_drop | left; split; [cbn; rewrite E2; exact Hst | done]].
      * cbn. rewrite E2. cbn. rewrite Hst. exists Stale. rewrite E1. cbn. rewrite !consumer_snoc, Hw. by destruct w.
    + apply replay_ok with (ds := ds); try done; [eapply holds_ext; [..|exact Hh]; done | lia | apply Hd].
  - split; [done | exists ds; split; [eapply holds_ext; [..|exact Hh]; done|] | cbn; split; [done | apply Hd]].
    split; [done|]. right. destruct He as [[_ He]|He]; congruence.
Qed.

Lemma on_delta_ok s d : sync_ok s -> (if sd_snapshot d then honest_snapshot d else honest_delta d) -> sync_ok (on_delta d s).
Proof.
  intros Hs Hd. unfold on_delta. destruct (sd_snapshot d); [by apply on_snapshot_ok|].
  destruct (sy_buffer s Hs) as (ds & Hh & _). destruct (view_some s Hs) as [w Hw].
  destruct (is_snapshot_marker d); [by eapply resync_ok|]. destruct (state_ s) eqn:Est; try done.
  - destruct kBuffersDeltas eqn:Ek; [by apply buffer_ok | done].
  - pose proof (sy_view s Hs) as Hv. rewrite Est in Hv. destruct Hv as [_ Hid].
    assert (Hacc : forall b, from d <= prev_u_ s <= sd_last d -> sync_ok (emit (ODelta d) (s <| awaiting_first_ := b |> <| prev_u_ := sd_last d |>)))
      by (intros b Hc; by apply accept_ok).
    destruct (kBuffersDeltas && awaiting_first_ s).
    + destruct (is_stale d (prev_u_ s)); [done|]. destruct (first_applies d (prev_u_ s)) eqn:Ef; cbn [negb]; [|by apply resync_keeping_ok].
      apply Hacc. apply first_covers; [apply Hd | done | done].
    + destruct (next_applies d (prev_u_ s)) eqn:En; [apply (Hacc (awaiting_first_ s)), next_covers; [apply Hd | done | done]|].
      destruct (is_stale d (prev_u_ s)); cbn [negb]; [done | by apply resync_keeping_ok].
Qed.

(** Every state of a synchroniser whose messages are the venue's; they may be lost, repeated or reordered. *)
Inductive served : BookSyncer -> Prop :=
| sv_new n : n < 2 ^ 32 -> served (new_syncer n)
| sv_start s : served s -> served (start s)
| sv_resync s r : served s -> served (resync r s)
| sv_delta s d : served s -> (if sd_snapshot d then honest_snapshot d else honest_delta d) -> served (on_delta d s)
| sv_snapshot s d : served s -> honest_snapshot d -> served (on_snapshot d s).

Lemma served_ok s : served s -> sync_ok s.
Proof.
  induction 1 as [n Hn | s _ IH | s r _ IH | s d _ IH Hd | s d _ IH Hd].
  - split; [done | exists []; split; [apply holds_nil; cbn; [case_if; lia | done | done] | split; [done | by right]] | by exists Stale].
  - destruct (sy_buffer s IH) as (ds & Hh & _). destruct (view_some s IH) as [w Hw]. by eapply start_ok.
  - destruct (sy_buffer s IH) as (ds & Hh & _). destruct (view_some s IH) as [w Hw]. by eapply resync_ok.
  - by apply on_delta_ok.
  - by apply on_snapshot_ok.
Qed.

(** C28. With venue rules that leave no gap ([GapFree]: those of Binance spot and futures are proved so, the rule of Bybit
    accepts a delta after a lost one and is not), the consumer of a synchroniser never gets a delta without a book,
    and whenever the synchroniser is synced the consumer's book is exactly the venue's book after the
    last update id passed on, whatever messages were lost, repeated or reordered before. *)
Theorem sync_tracks_venue s : served s -> consumer (log_ s) <> None /\ (synced s = true -> follows (consumer (log_ s)) (prev_u_ s)).
Proof.
  intros H. apply served_ok in H. destruct (view_some s H) as [w Hw]. split; [congruence|]. intros Hs. apply bool_decide_eq_true in Hs.
  pose proof (sy_view s H) as Hv. rewrite Hs in Hv. by destruct Hv.
Qed.

(** The buffer never leaves its arena: whatever arrives, at most [kMaxBuffered] messages are held, they lie
    one after the other in the bytes in use, within the buffer, and each is read back as it came. *)
Theorem buffer_bounded s : served s -> exists ds, holds s ds /\ Z.of_nat (length ds) <= kMaxBuffered /\
  0 <= used_ s <= Z.max 0 (buf_bytes_ s) /\ forall i, at_ s i = ds !! i.
Proof.
  intros H. apply served_ok in H. destruct (sy_buffer s H) as (ds & Hh & _). exists ds. split; [done|]. split; [apply Hh|].
  split; [rewrite (ho_used s ds Hh); split; [apply bytes_nonneg, Hh | apply Hh] | intros i; by apply holds_at].
Qed.
End venue.

(** ** A stream with nothing lost *)

(** Consecutive deltas of a stream, for rules that agree with it. *)
Class Lossless (T : SyncTraits) := {
  chain : SeqMsg -> SeqMsg -> Prop;
  lo_buffers : kBuffersDeltas = true;
  lo_rest : kNeedsRestSnapshot = true;
  lo_marker : forall d, is_snapshot_marker d = false;
  lo_next : forall d d', chain d d' -> next_applies d' (sd_last d) = true;
  lo_first : forall d d' L, id_ok L -> chain d d' -> is_stale d L = true -> is_stale d' L = false -> first_applies d' L = true;
  lo_fresh : forall d d' L, chain d d' -> is_stale d L = false -> is_stale d' L = false;
}.

Record follows_on (d d' : SeqMsg) : Prop := {
  fo_first : sd_first d' = sd_last d + 1;
  fo_prev : sd_prev d' = sd_last d;
  fo_ids : id_ok (sd_last d) /\ sd_first d' <= sd_last d';
}.
#[export] Instance spot_lossless : Lossless BinanceSpotSyncTraits.
Proof.
  refine {| chain := follows_on |}; try done.
  - intros d d' [H1 H2 H3]. cbn. unfold u64, id_ok in *. rewrite Z.mod_small; lia.
  - intros d d' L HL [H1 H2 H3]. cbn. unfold u64, id_ok in *. rewrite Z.mod_small by lia. lia.
  - intros d d' L [H1 H2 H3]. cbn. lia.
Defined.
#[export] Instance futures_lossless : Lossless BinanceFuturesSyncTraits.
Proof.
  refine {| chain := follows_on |}; try done.
  - intros d d' [H1 H2 H3]. cbn. lia.
  - intros d d' L HL [H1 H2 H3]. cbn. lia.
  - intros d d' L [H1 H2 H3]. cbn. lia.
Defined.

Section lossless.
Context `{T : SyncTraits} `{LF : !Lossless T}.

Inductive stream : list SeqMsg -> Prop :=
| st_nil : stream []
| st_one d : stream [d]
| st_cons d d' l : chain d d' -> stream (d' :: l) -> stream (d :: d' :: l).

Definition fresh (L : Z) (ds : list SeqMsg) : list SeqMsg := filter (fun d => is_stale d L = false) ds.
#[local] Arguments fresh : simpl never.
Definition feed (ds : list SeqMsg) (s : BookSyncer) : BookSyncer := fold_left (fun s d => on_delta d s) ds s.

(** The first message of the stream is old for the snapshot, or brackets it. *)
Definition reaches (L : Z) (ds : list SeqMsg) : Prop :=
  match ds with [] => True | d :: _ => is_stale d L = true \/ first_applies d L = true end.

Lemma stream_tail d l : stream (d :: l) -> stream l.
Proof. inversion 1; [constructor | done]. Qed.
Lemma fresh_all L d l : stream (d :: l) -> is_stale d L = false -> fresh L (d :: l) = d :: l.
Proof.
  revert d. induction l as [|d' l IH]; intros d Hs Hd; unfold fresh; rewrite filter_cons_True by done; [done|].
  inversion Hs as [| |? ? ? Hc Hs']; subst. f_equal. apply (IH d' Hs'). by eapply lo_fresh.
Qed.
Lemma reaches_tail L d l : id_ok L -> stream (d :: l) -> is_stale d L = true -> reaches L l.
Proof.
  intros HL Hs Hd. inversion Hs as [| |? d' ? Hc Hs']; subst; [done|]. cbn. destruct (is_stale d' L) eqn:E; [by left | right].
  by eapply lo_first.
Qed.

Lemma stream_mid l x y r : stream (l ++ x :: y :: r) -> chain x y.
Proof. induction l as [|d l IH]; cbn; [by inversion 1|]. intros H. apply IH. by eapply stream_tail. Qed.
Lemma stream_prefix l r : stream (l ++ r) -> stream l.
Proof.
  induction l as [|d l IH]; intros H; [constructor|]. destruct l as [|d' l]; [constructor|]. cbn in H. inversion H; subst. constructor; [done | by apply IH].
Qed.
Lemma fresh_app L l l' : fresh L (l ++ l') = fresh L l ++ fresh L l'.
Proof. apply filter_app. Qed.
Lemma fresh_one L d : fresh L [d] = if is_stale d L then [] else [d].
Proof. unfold fresh. destruct (is_stale d L) eqn:E; [rewrite filter_cons_False by congruence | rewrite filter_cons_True by done]; done. Qed.
(** A stream is old up to some point and fresh from there on. *)
Lemma fresh_stale_end L l x : stream (l ++ [x]) -> is_stale x L = true -> fresh L (l ++ [x]) = [].
Proof.
  induction l as [|d l IH]; intros Hs Hx; [cbn; by rewrite fresh_one, Hx|]. cbn in *. destruct (is_stale d L) eqn:Ed.
  - unfold fresh. rewrite filter_cons_False by congruence. apply IH; [by eapply stream_tail | done].
  - pose proof (fresh_all L d _ Hs Ed) as E. assert (Hin : x ∈ fresh L (d :: l ++ [x])) by (rewrite E; apply list_elem_of_further, elem_of_app; right; constructor).
    apply list_elem_of_filter in Hin as [Hin _]. congruence.
Qed.
Lemma fresh_end L l x : stream (l ++ [x]) -> is_stale x L = false -> last (fresh L (l ++ [x])) = Some x.
Proof. intros _ Hx. rewrite fresh_app, fresh_one, Hx. apply last_snoc. Qed.

(** Where a synced synchroniser stands in the stream, having seen [seen]. *)
Record caught_up (L : Z) (log0 : list out) (seen : list SeqMsg) (s : BookSyncer) : Prop := {
  cu_state : state_ s = Synced;
  cu_log : log_ s = log0 ++ (ODelta <$> fresh L seen);
  cu_await : awaiting_first_ s = bool_decide (fresh L seen = []);
  cu_prev : prev_u_ s = default L (sd_last <$> last (fresh L seen));
}.

Lemma caught_up_step L log0 seen d s : id_ok L -> stream (seen ++ [d]) -> reaches L (seen ++ [d]) -> sd_snapshot d = false ->
  caught_up L log0 seen s -> caught_up L log0 (seen ++ [d]) (on_delta d s).
Proof.
  intros HL Hst Hre Hsn [H1 H2 H3 H4]. unfold on_delta. rewrite Hsn, lo_marker, H1, lo_buffers, H3. cbn [andb].
  destruct (fresh L seen) as [|f fs] eqn:Ef.
  - rewrite bool_decide_true by done. cbn in H4. rewrite H4. destruct (is_stale d L) eqn:Ed.
    + split; rewrite ?fresh_app, ?Ef, ?fresh_one, ?Ed; cbn; try done; by rewrite H3, bool_decide_true.
    + assert (Hfirst : first_applies d L = true).
      { destruct seen as [|x l _] using rev_ind; [cbn in Hre; by destruct Hre as [Hre|Hre]; [congruence | done]|].
        destruct (is_stale x L) eqn:Ex.
        - apply (lo_first x d L HL); [|done|done]. apply (stream_mid l x d []). by rewrite <- app_assoc in Hst.
        - rewrite fresh_app, fresh_one, Ex in Ef. by destruct (fresh L l). }
      rewrite Hfirst. split; cbn; rewrite ?fresh_app, ?Ef, ?fresh_one, ?Ed; cbn; try done. by rewrite H2, app_nil_r.
  - rewrite bool_decide_false by done. destruct seen as [|x l _] using rev_ind; [done|].
    assert (Hx : is_stale x L = false).
    { destruct (is_stale x L) eqn:Ex; [|done]. by rewrite (fresh_stale_end L l x (stream_prefix _ _ Hst) Ex) in Ef. }
    assert (Hc : chain x d) by (apply (stream_mid l x d []); by rewrite <- app_assoc in Hst).
    assert (Hlast : last (f :: fs) = Some x) by (rewrite <- Ef; apply fresh_end; [by apply (stream_prefix _ [d]) | done]).
    rewrite Hlast in H4. cbn in H4. rewrite H4, (lo_next x d Hc). assert (Hd : is_stale d L = false) by (by eapply lo_fresh).
    assert (E : fresh L ((l ++ [x]) ++ [d]) = (f :: fs) ++ [d]) by (by rewrite fresh_app, Ef, fresh_one, Hd).
    split; cbn [log_ state_ awaiting_first_ prev_u_ emit fupd]; rewrite ?E.
    + done.
    + rewrite H2, fmap_app, app_assoc. done.
    + rewrite H3. by rewrite !bool_decide_false by done.
    + rewrite last_snoc. done.
Qed.

Lemma caught_up_feed L log0 seen ds s : id_ok L -> stream (seen ++ ds) -> reaches L (seen ++ ds) -> Forall (fun d => sd_snapshot d = false) ds ->
  caught_up L log0 seen s -> caught_up L log0 (seen ++ ds) (feed ds s).
Proof.
  intros HL Hst Hre Hsn. revert seen s Hst Hre. induction Hsn as [|d ds Hd _ IH]; intros seen s Hst Hre H; [by rewrite app_nil_r|].
  replace (seen ++ d :: ds) with ((seen ++ [d]) ++ ds) in * by (by rewrite <- app_assoc). cbn.
  apply IH; [done | done|]. apply caught_up_step; [done | by eapply stream_prefix | | done | done].
  destruct (seen ++ [d]) eqn:E; [by destruct seen | done].
Qed.

(** Deltas before the snapshot are kept, in order. *)
Lemma feed_buffering ds s held : state_ s = Buffering -> holds s held -> Forall sized ds -> Forall (fun d => sd_snapshot d = false) ds ->
  Z.of_nat (length (held ++ ds)) <= kMaxBuffered -> bytes (held ++ ds) <= buf_bytes_ s ->
  holds (feed ds s) (held ++ ds) /\ state_ (feed ds s) = Buffering /\ log_ (feed ds s) = log_ s.
Proof.
  intros Hst Hh Hs Hsn. revert s held Hst Hh Hsn. induction Hs as [|d ds Hd Hs IH]; intros s held Hst Hh Hsn Hc Hb; [by rewrite app_nil_r|].
  apply Forall_cons in Hsn as [Hsd Hsn]. cbn [feed fold_left]. replace (held ++ d :: ds) with ((held ++ [d]) ++ ds) in * by (by rewrite <- app_assoc).
  pose proof (bytes_nonneg ds Hs) as Hn. rewrite bytes_app, bytes_app in Hb. cbn [bytes] in Hb. rewrite !length_app in Hc. cbn in Hc.
  pose proof (buffer_spec s held d Hh Hd) as Hspec. assert (Hfit : fits s held d = true) by (unfold fits; lia). rewrite Hfit in Hspec.
  destruct Hspec as (s' & Hbuf & Hh' & E). injection E as E1 E2 E3 E4.
  assert (Eon : on_delta d s = s') by (unfold on_delta; by rewrite Hsd, lo_marker, Hst, lo_buffers, Hbuf). rewrite Eon.
  assert (Eb : buf_bytes_ s' = buf_bytes_ s) by (unfold buffer in Hbuf; case_if; [done|]; by injection Hbuf as <-).
  destruct (IH s' (held ++ [d])) as (I1 & I2 & I3); [congruence | done | done | rewrite !length_app; cbn; lia | rewrite !bytes_app; cbn [bytes]; lia |].
  split_and!; [done | done | rewrite <- E1; exact I3].
Qed.

Lemma skip_stale_fresh s ds L i fuel : holds s ds -> stream ds -> (i + fuel)%nat = length ds -> drop (skip_stale s L i fuel) ds = fresh L (drop i ds).
Proof.
  intros Hh Hst. revert i. induction fuel as [|fuel IH]; intros i Hi; cbn.
  - rewrite drop_ge by lia. done.
  - rewrite (holds_at s ds i Hh). destruct (ds !! i) as [d|] eqn:Ed; [|apply lookup_ge_None_1 in Ed; lia].
    assert (Hsd : stream (drop i ds)) by (revert Hst; clear; revert ds; induction i as [|i IH]; intros [|e ds]; cbn; try done; intros H; apply IH; by eapply stream_tail).
    rewrite (drop_S ds d i Ed) in Hsd |- *. destruct (is_stale d L) eqn:Es.
    + rewrite IH by lia. unfold fresh. by rewrite filter_cons_False by congruence.
    + rewrite (drop_S ds d i Ed). symmetry. by apply fresh_all.
Qed.

(** The replay passes the rest of the stream on. *)
Lemma replay_stream L ds fuel : forall (i : nat) (first : bool) (s : BookSyncer), holds s ds -> (i + fuel)%nat = length ds -> stream (drop i ds) ->
  match drop i ds with [] => True | d :: _ => (if first then first_applies d L else next_applies d (prev_u_ s)) = true end ->
  let s' := replay L i fuel first s in
  state_ s' = state_ s /\ log_ s' = log_ s ++ (ODelta <$> drop i ds) /\ awaiting_first_ s' = first && bool_decide (drop i ds = []) /\
  prev_u_ s' = default (prev_u_ s) (sd_last <$> last (drop i ds)).
Proof.
  induction fuel as [|fuel IH]; intros i first s Hh Hi Hst Hhd; cbn [replay].
  - rewrite drop_ge by lia. cbn. rewrite app_nil_r, andb_true_r. done.
  - rewrite (holds_at s ds i Hh). destruct (ds !! i) as [d|] eqn:Ed; [|apply lookup_ge_None_1 in Ed; lia].
    rewrite (drop_S ds d i Ed) in *. rewrite Hhd. cbn [negb]. cbv zeta. set (s1 := emit (ODelta d) _).
    assert (Hh1 : holds s1 ds) by (eapply holds_ext; [..|exact Hh]; done).
    destruct (IH (S i) false s1 Hh1 ltac:(lia) (stream_tail _ _ Hst)) as (I1 & I2 & I3 & I4).
    { destruct (drop (S i) ds) as [|d' l]; [done|]. inversion Hst; subst. by apply lo_next. }
    rewrite I1, I2, I3, I4. split_and!; [done | cbn; by rewrite <- app_assoc | cbn; by rewrite andb_false_r |].
    rewrite last_cons. by destruct (last (drop (S i) ds)).
Qed.

Lemma snapshot_catches_up s ds snap : holds s ds -> stream ds -> reaches (sd_last snap) ds -> id_ok (sd_last snap) -> state_ s = Buffering ->
  caught_up (sd_last snap) (log_ s ++ [OSnapshot snap]) ds (on_snapshot snap s).
Proof.
  intros Hh Hst Hre HL Hb. unfold on_snapshot. rewrite bool_decide_false by congruence. cbv zeta. rewrite lo_buffers, (holds_count s ds Hh).
  pose proof (skip_stale_fresh s ds (sd_last snap) 0 (length ds) Hh Hst eq_refl) as Hskip. rewrite drop_0 in Hskip.
  pose proof (skip_stale_spec s ds (sd_last snap) 0 (length ds) Hh) as Hi. set (i := skip_stale s (sd_last snap) 0 (length ds)) in *.
  rewrite (holds_at s ds i Hh).
  assert (Hfirst : match fresh (sd_last snap) ds with [] => True | d :: _ => first_applies d (sd_last snap) = true end).
  { clear -Hre Hst HL LF. induction ds as [|d l IH]; [done|]. destruct (is_stale d (sd_last snap)) eqn:E.
    - unfold fresh. rewrite filter_cons_False by congruence. apply IH; [by eapply stream_tail | by eapply reaches_tail].
    - rewrite fresh_all by done. cbn in Hre. destruct Hre; [congruence | done]. }
  assert (Hsf : stream (fresh (sd_last snap) ds)).
  { clear -Hst LF. induction ds as [|d l IH]; [constructor|]. destruct (is_stale d (sd_last snap)) eqn:E; [|by rewrite fresh_all].
    unfold fresh. rewrite filter_cons_False by congruence. apply IH. by eapply stream_tail. }
  assert (Hcond : match ds !! i with Some d => negb (first_applies d (sd_last snap)) | None => false end = false).
  { destruct (ds !! i) as [d|] eqn:Ed; [|done]. rewrite (drop_S ds d i Ed) in Hskip. rewrite <- Hskip in Hfirst. by rewrite Hfirst. }
  rewrite Hcond. set (s1 := _ <| prev_u_ := _ |> <| state_ := _ |>). assert (Hh1 : holds s1 ds) by (eapply holds_ext; [..|exact Hh]; done).
  destruct (replay_stream (sd_last snap) ds (length ds - i) i true s1 Hh1 ltac:(lia)) as (R1 & R2 & R3 & R4); rewrite ?Hskip in *; try done.
Qed.

(** A stream in which nothing is lost is synchronised by one snapshot: started, fed the deltas before the
    snapshot, the snapshot, and the deltas after it, the synchroniser is synced, asked for one snapshot,
    never resynchronises, and passes on the snapshot and then exactly the deltas that are newer, in order. *)
Theorem lossless_stream_syncs n pre post snap : let L := sd_last snap in
  n < 2 ^ 32 -> id_ok L -> stream (pre ++ post) -> reaches L (pre ++ post) ->
  Forall sized pre -> Forall (fun d => sd_snapshot d = false) (pre ++ post) ->
  Z.of_nat (length pre) <= kMaxBuffered -> bytes pre <= n ->
  let s := feed post (on_snapshot snap (feed pre (start (new_syncer n)))) in
  state_ s = Synced /\ log_ s = ORequest :: OSnapshot snap :: (ODelta <$> fresh L (pre ++ post)).
Proof.
  cbv zeta. intros Hn HL Hst Hre Hsz Hsn Hc Hb. apply Forall_app in Hsn as [Hsn1 Hsn2].
  assert (H0 : holds (start (new_syncer n)) []) by (apply holds_nil; unfold start; rewrite lo_rest; cbn; [rewrite lo_buffers; lia | done | done]).
  destruct (feed_buffering pre (start (new_syncer n)) [] ltac:(unfold start; by rewrite lo_rest) H0 Hsz Hsn1 Hc) as (B1 & B2 & B3).
  { unfold start. rewrite lo_rest. cbn. rewrite lo_buffers. done. }
  assert (Hre1 : reaches (sd_last snap) pre) by (destruct pre; done).
  pose proof (snapshot_catches_up _ pre snap B1 (stream_prefix _ _ Hst) Hre1 HL B2) as Hcu.
  apply (caught_up_feed _ _ pre post) in Hcu; [|done..]. split; [apply Hcu|]. rewrite (cu_log _ _ _ _ Hcu), B3. unfold start. rewrite lo_rest. done.
Qed.
End lossless.

(** ** A concrete stream *)

Module SyncDemo.
Abbreviation Spot := BinanceSpotSyncTraits.
(** The venue sets the bid at 100 to [n] at each update [n]. *)
Definition V (n : Z) : content := fun s px => match s with Buy => if decide (px = 100) then n else 0 | Sell => 0 end.
Definition msg (snapshot : bool) (U u : Z) : SeqMsg :=
  mkSeqMsg (mkDelta (if snapshot then kSnapshot else 0) 1 1 u [mkLevel 100 u] []) U (U - 1) 128.

Lemma msg_listed b U u s px : listed (side_levels (msg b U u) s) px = match s with Buy => if decide (px = 100) then Some u else None | Sell => None end.
Proof.
  destruct s; [|done]. unfold listed. cbn [msg side_levels sd_msg d_bids]. destruct (decide (px = 100)) as [->|Hne]; [done|].
  rewrite filter_cons_False by (cbn; congruence). done.
Qed.
Lemma delta_honest U u : 1 <= U <= u -> id_ok u -> honest_delta (T := Spot) V (msg false U u).
Proof.
  intros HU Hu. split; [split; [done | cbn; unfold sd_last, id_ok in *; cbn; lia]|]. intros s px. rewrite msg_listed. unfold V. destruct s; [|done].
  by destruct (decide (px = 100)).
Qed.
Lemma snapshot_honest u : id_ok u -> honest_snapshot V (msg true u u).
Proof. intros Hu. split; [done|]. intros s px. rewrite msg_listed. unfold V. destruct s; [|done]. by destruct (decide (px = 100)). Qed.

(** Delta 1..3 buffered, snapshot at 2, delta 4..5 live; then 8..9 reveals a gap, and a snapshot at 8 closes it. *)
Definition s1 : BookSyncer := on_delta (T := Spot) (msg false 4 5) (on_snapshot (T := Spot) (msg true 2 2) (on_delta (T := Spot) (msg false 1 3) (start (T := Spot) (new_syncer (T := Spot) 4096)))).
Definition s2 : BookSyncer := on_snapshot (T := Spot) (msg true 8 8) (on_delta (T := Spot) (msg false 8 9) s1).
Lemma s1_served : served (T := Spot) V s1.
Proof.
  unfold s1. apply sv_delta; [apply sv_snapshot; [apply sv_delta; [apply sv_start, sv_new; lia|]|]|].
  - apply delta_honest; [lia | unfold id_ok; lia].
  - apply snapshot_honest. unfold id_ok. lia.
  - apply delta_honest; [lia | unfold id_ok; lia].
Qed.
Lemma s2_served : served (T := Spot) V s2.
Proof.
  unfold s2. apply sv_snapshot; [apply sv_delta; [exact s1_served|]|].
  - apply delta_honest; [lia | unfold id_ok; lia].
  - apply snapshot_honest. unfold id_ok. lia.
Qed.

Lemma sync_tracks_venue_witness : state_ s2 = Synced /\ prev_u_ s2 = 9 /\ resyncs_ s2 = 1 /\ follows V (consumer (log_ s2)) 9.
Proof.
  split_and!; [vm_compute; reflexivity | vm_compute; reflexivity | vm_compute; reflexivity |].
  destruct (sync_tracks_venue (T := Spot) V s2 s2_served) as [_ H]. exact (H ltac:(vm_compute; reflexivity)).
Defined.
Lemma buffer_bounded_witness : exists ds, holds s1 ds /\ Z.of_nat (length ds) <= kMaxBuffered.
Proof. destruct (buffer_bounded (T := Spot) V s1 s1_served) as (ds & H1 & H2 & _). exists ds. split; [exact H1 | exact H2]. Defined.
Lemma lossless_stream_syncs_witness :
  log_ (feed (T := Spot) [msg false 4 5] (on_snapshot (T := Spot) (msg true 2 2) (feed (T := Spot) [msg false 1 3] (start (T := Spot) (new_syncer (T := Spot) 4096))))) =
  [ORequest; OSnapshot (msg true 2 2); ODelta (msg false 1 3); ODelta (msg false 4 5)].
Proof.
  destruct (lossless_stream_syncs (T := Spot) 4096 [msg false 1 3] [msg false 4 5] (msg true 2 2)) as [_ H].
  - lia.
  - vm_compute. split; congruence.
  - constructor; [|constructor]. split; vm_compute; repeat split; congruence.
  - right. vm_compute. reflexivity.
  - repeat constructor.
  - repeat constructor.
  - vm_compute. congruence.
  - vm_compute. congruence.
  - rewrite H. vm_compute. reflexivity.
Defined.
End SyncDemo.
