(* ===== verification/Matching.v ===== *)
(** * Matching: the simulated exchange of [sim/sim_book.hpp] and [sim/matching_engine]

    A continuous double auction with price-time priority.  Each side of a book is a sorted
    vector of price levels, best at the back; a level heads a doubly linked queue of orders
    that live in one pool.  The calls on the sink are the list [log_]; what the sink answers
    when asked how much of a reduce-only order may fill is a function of the calls it has
    received.  Orders are found by a key of account and client id in a hash table; pool and
    table are used through their interfaces. *)

From S2P Require Import Prelude Types FixedPoint L2Book Interfaces.

(** ** Data *)

Abbreviation AccountId := Z (only parsing).
Definition kMaxAccounts : Z := 16.
Definition kMaxSimOrders : Z := 2 ^ 16.
Definition kMaxSimLevels : nat := 2048.

Record SimOrder := mkSim {
  so_order_id : Z;
  so_cl_ord_id : ClientOrderId;
  so_price : Price;
  so_qty : Qty;
  so_cum_qty : Qty;
  so_created : Timestamp;
  so_instrument : InstrumentId;
  so_next : Z;
  so_prev : Z;
  so_account : AccountId;
  so_side : Side;
  so_type : OrderType;
  so_tif : TimeInForce;
  so_reduce_only : bool;
}.
#[export] Instance eta_sim : Eta SimOrder := fun o =>
  mkSim (so_order_id o) (so_cl_ord_id o) (so_price o) (so_qty o) (so_cum_qty o) (so_created o) (so_instrument o)
    (so_next o) (so_prev o) (so_account o) (so_side o) (so_type o) (so_tif o) (so_reduce_only o).
Definition no_sim : SimOrder := mkSim 0 0 0 0 0 0 kInvalidInstrument 0 0 0 Buy Limit Gtc false.
Definition leaves (o : SimOrder) : Qty := fx_sub (so_qty o) (so_cum_qty o).

Record PriceLevel := mkPriceLevel { pl_price : Price; pl_qty : Qty; pl_head : Z; pl_tail : Z; pl_count : Z }.
#[export] Instance eta_price_level : Eta PriceLevel := fun l =>
  mkPriceLevel (pl_price l) (pl_qty l) (pl_head l) (pl_tail l) (pl_count l).
Definition no_price_level : PriceLevel := mkPriceLevel 0 0 kNullHandle kNullHandle 0.

Record SimBook := mkSimBook { sb_bids : list PriceLevel; sb_asks : list PriceLevel; sb_update_id : Z }.
#[export] Instance eta_sim_book : Eta SimBook := fun b => mkSimBook (sb_bids b) (sb_asks b) (sb_update_id b).
Definition new_sim_book : SimBook := mkSimBook [] [] 0.

(** ** [SimBook] *)

Definition sb_levels (b : SimBook) (s : Side) : list PriceLevel := match s with Buy => sb_bids b | Sell => sb_asks b end.
Definition sb_set_levels (b : SimBook) (s : Side) (v : list PriceLevel) : SimBook :=
  match s with Buy => b <| sb_bids := v |> | Sell => b <| sb_asks := v |> end.
Definition sb_best (b : SimBook) (s : Side) : option PriceLevel := last (sb_levels b s).
Definition pl_at (v : list PriceLevel) (i : nat) : PriceLevel := default no_price_level (v !! i).

Fixpoint sb_bisect (s : Side) (price : Price) (v : list PriceLevel) (lo hi fuel : nat) : nat :=
  match fuel with
  | O => lo
  | S fuel =>
    if (lo <? hi)%nat then
      let mid := (lo + (hi - lo) / 2)%nat in
      if better s price (pl_price (pl_at v mid)) then sb_bisect s price v (mid + 1)%nat hi fuel
      else sb_bisect s price v lo mid fuel
    else lo
  end.
Definition lower_bound (b : SimBook) (s : Side) (price : Price) : nat :=
  let v := sb_levels b s in
  let hi := length v in
  if (0 <? hi)%nat && better s price (pl_price (pl_at v (hi - 1)%nat)) then hi
  else sb_bisect s price v 0 hi hi.

(** The index of the level, where the source returns its address. *)
Definition sb_find (b : SimBook) (s : Side) (price : Price) : option nat :=
  let v := sb_levels b s in
  let i := lower_bound b s price in
  if (i <? length v)%nat && (pl_price (pl_at v i) =? price) then Some i else None.
Definition find_or_insert (b : SimBook) (s : Side) (price : Price) : option nat * SimBook :=
  let v := sb_levels b s in
  let i := lower_bound b s price in
  if (i <? length v)%nat && (pl_price (pl_at v i) =? price) then (Some i, b)
  else match SVec.insert_at kMaxSimLevels i (mkPriceLevel price 0 kNullHandle kNullHandle 0) v with
  | (false, _) => (None, b)
  | (true, v) => (Some i, sb_set_levels b s v)
  end.
Definition sb_erase (b : SimBook) (s : Side) (i : nat) : SimBook := sb_set_levels b s (SVec.erase_at i (sb_levels b s)).
Fixpoint sum_better (s : Side) (limit : Price) (is_market : bool) (best_first : list PriceLevel) (acc : Qty) : Qty :=
  match best_first with
  | [] => acc
  | l :: ls => if negb is_market && negb (at_or_better s (pl_price l) limit) then acc else sum_better s limit is_market ls (fx_add acc (pl_qty l))
  end.
Definition sb_qty_at_or_better (b : SimBook) (s : Side) (limit : Price) (is_market : bool) : Qty :=
  sum_better s limit is_market (rev (sb_levels b s)) 0.
Definition sb_snapshot (b : SimBook) (s : Side) (max : nat) : list Level :=
  (fun l => mkLevel (pl_price l) (pl_qty l)) <$> take max (rev (sb_levels b s)).

Definition best_level (b : SimBook) (s : Side) : Level :=
  match sb_best b s with None => no_level | Some l => mkLevel (pl_price l) (pl_qty l) end.
Definition depth (b : SimBook) (s : Side) : nat := length (sb_levels b s).
Definition sb_clear (b : SimBook) : SimBook := b <| sb_bids := [] |> <| sb_asks := [] |>.

(** ** The engine *)

Record NewOrder := mkNew {
  n_account : AccountId;
  n_cl_ord_id : ClientOrderId;
  n_instrument : InstrumentId;
  n_side : Side;
  n_type : OrderType;
  n_tif : TimeInForce;
  n_price : Price;
  n_qty : Qty;
  n_reduce_only : bool;
}.
Inductive StpMode := StpNone | CancelTaker | CancelMaker | CancelBoth.
#[export] Instance StpMode_eq_dec : EqDecision StpMode.
Proof. solve_decision. Defined.
Inductive CancelReason := Requested | Replaced | IocExpired | FokExpired | NoLiquidity | Stp | ReducedOut.
#[export] Instance CancelReason_eq_dec : EqDecision CancelReason.
Proof. solve_decision. Defined.

Definition is_expiry (r : CancelReason) : bool :=
  match r with IocExpired | FokExpired | NoLiquidity | ReducedOut => true | _ => false end.

(** A call on the sink. *)
Inductive sim_event :=
| EvAck (o : SimOrder) (now : Timestamp)
| EvReject (n : NewOrder) (r : RejectReason) (now : Timestamp)
| EvCancel (o : SimOrder) (why : CancelReason) (now : Timestamp)
| EvCancelReject (a : AccountId) (id : ClientOrderId) (i : InstrumentId) (now : Timestamp)
| EvFill (maker taker : SimOrder) (px : Price) (q : Qty) (now : Timestamp)
| EvBook (i : InstrumentId) (s : Side) (px : Price) (q : Qty) (u : Z)
| EvTrade (i : InstrumentId) (px : Price) (q : Qty) (aggressor : Side) (id : Z) (now : Timestamp).

Record SubmitResult := mkSubmit { sr_order_id : Z; sr_reason : RejectReason; sr_filled : Qty; sr_resting : Qty }.
Record AccountLedger := mkLedger { al_bought : Qty; al_sold : Qty; al_buy_notional : Notional; al_sell_notional : Notional; al_fills : Z }.
#[export] Instance eta_ledger : Eta AccountLedger := fun l =>
  mkLedger (al_bought l) (al_sold l) (al_buy_notional l) (al_sell_notional l) (al_fills l).
Definition no_ledger : AccountLedger := mkLedger 0 0 0 0 0.
Record MatchingStats := mkMStats {
  ms_submits : Z; ms_rejects : Z; ms_cancels : Z; ms_cancel_rejects : Z; ms_replaces : Z; ms_fills : Z; ms_trades : Z;
  ms_stp_cancels : Z; ms_expired : Z; ms_pool_exhausted : Z; ms_level_full : Z }.
#[export] Instance eta_mstats : Eta MatchingStats := fun s =>
  mkMStats (ms_submits s) (ms_rejects s) (ms_cancels s) (ms_cancel_rejects s) (ms_replaces s) (ms_fills s) (ms_trades s)
    (ms_stp_cancels s) (ms_expired s) (ms_pool_exhausted s) (ms_level_full s).
Definition bump (x : Z) : Z := u64 (x + 1).

Record MatchingEngine (M P : Type) := mkEngine {
  me_count : Z;
  me_books : gmap Z SimBook;
  me_pool : P;
  me_by_key : M;
  me_stp : gmap Z StpMode;
  me_ledgers : gmap Z AccountLedger;
  me_stats : MatchingStats;
  me_next_order_id : Z;
  me_next_trade_id : Z;
  me_log : list sim_event;
}.
Arguments mkEngine {M P}.
Arguments me_count {M P}.
Arguments me_books {M P}.
Arguments me_pool {M P}.
Arguments me_by_key {M P}.
Arguments me_stp {M P}.
Arguments me_ledgers {M P}.
Arguments me_stats {M P}.
Arguments me_next_order_id {M P}.
Arguments me_next_trade_id {M P}.
Arguments me_log {M P}.
#[export] Instance eta_engine M P : Eta (MatchingEngine M P) := fun e =>
  mkEngine (me_count e) (me_books e) (me_pool e) (me_by_key e) (me_stp e) (me_ledgers e) (me_stats e)
    (me_next_order_id e) (me_next_trade_id e) (me_log e).

Section engine.
Context {M P : Type} `{!IdMapOps M} `{!ObjPoolOps P SimOrder}.
Abbreviation Engine := (MatchingEngine M P).
(** The sink's answer to [reducible], after the calls so far. *)
Variable reducible : list sim_event -> SimOrder -> Qty.

Definition new_engine (instrument_count : Z) : Engine :=
  mkEngine (if instrument_count =? 0 then 1 else instrument_count) ∅ (op_warm_up op_new) im_new ∅ ∅
    (mkMStats 0 0 0 0 0 0 0 0 0 0 0) 1 1 [].

Definition book_at (st : Engine) (i : InstrumentId) : SimBook := default new_sim_book (me_books st !! i).
Definition set_book (st : Engine) (i : InstrumentId) (b : SimBook) : Engine := st <| me_books := <[i := b]> (me_books st) |>.
Definition lvl (st : Engine) (i : InstrumentId) (s : Side) (k : nat) : PriceLevel := pl_at (sb_levels (book_at st i) s) k.
Definition set_lvl (st : Engine) (i : InstrumentId) (s : Side) (k : nat) (l : PriceLevel) : Engine :=
  set_book st i (sb_set_levels (book_at st i) s (<[k := l]> (sb_levels (book_at st i) s))).
Definition ord (st : Engine) (h : Z) : SimOrder := default no_sim (op_get (me_pool st) h).
Definition put_ord (st : Engine) (h : Z) (o : SimOrder) : Engine := st <| me_pool := op_set (me_pool st) h o |>.
Definition say (e : sim_event) (st : Engine) : Engine := st <| me_log ::= fun l => l ++ [e] |>.
Definition mstat (f : MatchingStats -> MatchingStats) (st : Engine) : Engine := st <| me_stats ::= f |>.
Definition asks (st : Engine) (o : SimOrder) : Qty := reducible (me_log st) o.

Definition key (a : AccountId) (id : ClientOrderId) : Z := Z.lor (Z.shiftl a 48) (Z.land id (2 ^ 48 - 1)).
Definition crosses (taker : Side) (px maker_px : Price) : bool := match taker with Buy => maker_px <=? px | Sell => px <=? maker_px end.

Definition set_stp_all (a : AccountId) (mode : StpMode) (st : Engine) : Engine :=
  if kMaxAccounts <=? a then st
  else st <| me_stp := fold_left (fun m i => <[i * kMaxAccounts + a := mode]> m) (seqZ 0 (me_count st)) (me_stp st) |>.
Definition set_stp (a : AccountId) (i : InstrumentId) (mode : StpMode) (st : Engine) : Engine :=
  if (a <? kMaxAccounts) && (i <? me_count st) then st <| me_stp := <[i * kMaxAccounts + a := mode]> (me_stp st) |> else st.
Definition stp (st : Engine) (a : AccountId) (i : InstrumentId) : StpMode :=
  if (a <? kMaxAccounts) && (i <? me_count st) then default StpNone (me_stp st !! (i * kMaxAccounts + a)) else StpNone.

Definition find (st : Engine) (a : AccountId) (id : ClientOrderId) : option SimOrder :=
  match im_find (me_by_key st) (key a id) with Some h => Some (ord st h) | None => None end.

Definition book_changed (i : InstrumentId) (s : Side) (l : PriceLevel) (st : Engine) : Engine :=
  let b := book_at st i in
  let u := u64 (sb_update_id b + 1) in
  say (EvBook i s (pl_price l) (pl_qty l) u) (set_book st i (b <| sb_update_id := u |>)).
Definition book_level_gone (i : InstrumentId) (s : Side) (px : Price) (st : Engine) : Engine :=
  let b := book_at st i in
  let u := u64 (sb_update_id b + 1) in
  say (EvBook i s px 0 u) (set_book st i (b <| sb_update_id := u |>)).

Definition free_order (h : Z) (st : Engine) : Engine :=
  let o := ord st h in
  let st := st <| me_by_key := snd (im_erase (me_by_key st) (key (so_account o) (so_cl_ord_id o))) |> in
  st <| me_pool := op_free (me_pool st) h |>.

(** [unlink(o, *l)] for the order behind [h] in level [k]. *)
Definition unlink (h : Z) (i : InstrumentId) (s : Side) (k : nat) (st : Engine) : Engine :=
  let o := ord st h in
  let l := lvl st i s k in
  let '(l, st) := if handle_valid (so_prev o)
    then (l, put_ord st (so_prev o) ((ord st (so_prev o)) <| so_next := so_next o |>))
    else (l <| pl_head := so_next o |>, st) in
  let '(l, st) := if handle_valid (so_next o)
    then (l, put_ord st (so_next o) ((ord st (so_next o)) <| so_prev := so_prev o |>))
    else (l <| pl_tail := so_prev o |>, st) in
  let st := set_lvl st i s k (l <| pl_count := u32 (pl_count l - 1) |>) in
  put_ord st h (o <| so_next := kNullHandle |> <| so_prev := kNullHandle |>).

(** [level->qty -= q] *)
Definition take_level_qty (i : InstrumentId) (s : Side) (k : nat) (q : Qty) (st : Engine) : Engine :=
  set_lvl st i s k ((lvl st i s k) <| pl_qty ::= fun x => fx_sub x q |>).

(** The order behind [h] leaves level [k] unfilled: quantity, links, report, release. *)
Definition drop_maker (h : Z) (i : InstrumentId) (s : Side) (k : nat) (why : CancelReason) (now : Timestamp) (st : Engine) : Engine :=
  let st := take_level_qty i s k (leaves (ord st h)) st in
  let st := unlink h i s k st in
  free_order h (say (EvCancel (ord st h) why now) st).

Definition ledger_ix (a : AccountId) : Z := if a <? kMaxAccounts then a else kMaxAccounts - 1.
Definition ledger (st : Engine) (a : AccountId) : AccountLedger := default no_ledger (me_ledgers st !! ledger_ix a).
Definition book_fill (o : SimOrder) (n : Notional) (q : Qty) (st : Engine) : Engine :=
  let l := (ledger st (so_account o)) <| al_fills ::= bump |> in
  let l := match so_side o with
    | Buy => l <| al_bought ::= fun x => fx_add x q |> <| al_buy_notional ::= fun x => fx_add x n |>
    | Sell => l <| al_sold ::= fun x => fx_add x q |> <| al_sell_notional ::= fun x => fx_add x n |>
    end in
  st <| me_ledgers := <[ledger_ix (so_account o) := l]> (me_ledgers st) |>.
Definition record_fill (maker taker : SimOrder) (px : Price) (q : Qty) (st : Engine) : Engine :=
  let st := mstat (fun s => s <| ms_fills ::= bump |> <| ms_trades ::= bump |>) st in
  let n := mul px q in
  book_fill taker n q (book_fill maker n q st).

(** *** Matching *)

Inductive swept := Swept | TakerDone | TakerReduced.

(** The walk along the queue of level [k]; [fuel] is the number of orders in it. *)
Fixpoint sweep (fuel : nat) (th : Z) (mode : StpMode) (i : InstrumentId) (ms : Side) (k : nat) (px : Price) (now : Timestamp)
    (idx : Z) (st : Engine) : swept * Engine :=
  match fuel with
  | O => (Swept, st)
  | S fuel =>
    let taker := ord st th in
    if negb (handle_valid idx) || negb (0 <? leaves taker) then (Swept, st)
    else
      let maker := ord st idx in
      let next := so_next maker in
      let q := if so_reduce_only taker then Z.min (leaves taker) (asks st taker) else leaves taker in
      if so_reduce_only taker && (q =? 0) then (TakerReduced, st)
      else if negb (bool_decide (mode = StpNone)) && (so_account maker =? so_account taker) then
        let st := mstat (fun s => s <| ms_stp_cancels ::= bump |>) st in
        let st := match mode with CancelMaker | CancelBoth => drop_maker idx i ms k Stp now st | _ => st end in
        match mode with
        | CancelTaker | CancelBoth => (TakerDone, st)
        | _ => sweep fuel th mode i ms k px now next st
        end
      else
        let m := if so_reduce_only maker then Z.min (leaves maker) (asks st maker) else leaves maker in
        if m =? 0 then
          let st := drop_maker idx i ms k ReducedOut now (mstat (fun s => s <| ms_expired ::= bump |>) st) in
          sweep fuel th mode i ms k px now next st
        else
          let q := Z.min q m in
          let maker := maker <| so_cum_qty ::= fun x => fx_add x q |> in
          let taker := taker <| so_cum_qty ::= fun x => fx_add x q |> in
          let st := put_ord (put_ord st idx maker) th taker in
          let st := take_level_qty i ms k q st in
          let st := record_fill maker taker px q st in
          let st := say (EvFill maker taker px q now) st in
          let st := say (EvTrade (so_instrument taker) px q (so_side taker) (me_next_trade_id st) now) st in
          let st := st <| me_next_trade_id ::= bump |> in
          let st :=
            if leaves maker =? 0 then free_order idx (unlink idx i ms k st)
            else if so_reduce_only maker && (asks st maker =? 0) then
              drop_maker idx i ms k ReducedOut now (mstat (fun s => s <| ms_expired ::= bump |>) st)
            else st in
          sweep fuel th mode i ms k px now next st
  end.

(** The taker is released with its remainder reported. *)
Definition end_taker (th : Z) (why : CancelReason) (now : Timestamp) (st : Engine) : Qty * Engine :=
  let taker := ord st th in
  (so_cum_qty taker, free_order th (say (EvCancel taker why now) st)).

(** One turn of the outer loop of [match]: [inr] when it ends, with whether the taker is still there and
    its executed quantity. *)
Definition match_step (th : Z) (now : Timestamp) (st : Engine) : Engine + (bool * Qty * Engine) :=
  let taker := ord st th in
  let i := so_instrument taker in
  let ms := opposite (so_side taker) in
  let stop := inr (true, so_cum_qty taker, st) in
  if negb (0 <? leaves taker) then stop
  else
    match sb_best (book_at st i) ms with
    | None => stop
    | Some level =>
      if negb (bool_decide (so_type taker = Market)) && negb (crosses (so_side taker) (so_price taker) (pl_price level)) then stop
      else
        let px := pl_price level in
        let k := (length (sb_levels (book_at st i) ms) - 1)%nat in
        let '(r, st) := sweep (Z.to_nat (pl_count level)) th (stp st (so_account taker) i) i ms k px now (pl_head level) st in
        let level := lvl st i ms k in
        let st := if pl_count level =? 0
          then let st := book_level_gone i ms px st in set_book st i (sb_erase (book_at st i) ms k)
          else book_changed i ms level st in
        let taker := ord st th in
        let expire st := let '(f, st) := end_taker th ReducedOut now (mstat (fun s => s <| ms_expired ::= bump |>) st) in inr (false, f, st) in
        match r with
        | TakerDone => let '(f, st) := end_taker th Stp now st in inr (false, f, st)
        | TakerReduced => expire st
        | Swept => if so_reduce_only taker && (0 <? leaves taker) && (asks st taker =? 0) then expire st else inl st
        end
    end.

(** [match]: each turn takes a level away or fills some of the taker, so 2^64 turns are never reached. *)
Definition match_ (th : Z) (now : Timestamp) (st : Engine) : bool * Qty * Engine :=
  match loop 64 (match_step th now) st with inr r => r | inl st => (true, 0, st) end.

(** The orders of a queue from [idx] on, oldest first; [fuel] is the number of orders in it. *)
Fixpoint queue (st : Engine) (idx : Z) (fuel : nat) : list SimOrder :=
  match fuel with
  | O => []
  | S fuel => if handle_valid idx then let o := ord st idx in o :: queue st (so_next o) fuel else []
  end.
Definition level_orders (st : Engine) (l : PriceLevel) : list SimOrder := queue st (pl_head l) (Z.to_nat (pl_count l)).

(** The inner loop of [fillable]: [inr] when it returns. *)
Fixpoint fillable_level (taker : SimOrder) (mode : StpMode) (os : list SimOrder) (sum : Qty) : Qty + Qty :=
  match os with
  | [] => inl sum
  | o :: os =>
    if negb (so_account o =? so_account taker) then
      let sum := fx_add sum (leaves o) in
      if leaves taker <=? sum then inr sum else fillable_level taker mode os sum
    else if negb (bool_decide (mode = CancelMaker)) then inr sum
    else if leaves taker <=? sum then inr sum else fillable_level taker mode os sum
  end.
Fixpoint fillable_levels (st : Engine) (taker : SimOrder) (mode : StpMode) (best_first : list PriceLevel) (sum : Qty) : Qty :=
  match best_first with
  | [] => sum
  | l :: ls =>
    if negb (bool_decide (so_type taker = Market)) && negb (crosses (so_side taker) (so_price taker) (pl_price l)) then sum
    else match fillable_level taker mode (level_orders st l) sum with inr q => q | inl sum => fillable_levels st taker mode ls sum end
  end.
Definition fillable (st : Engine) (taker : SimOrder) : Qty :=
  let b := book_at st (so_instrument taker) in
  let opp := opposite (so_side taker) in
  let mode := stp st (so_account taker) (so_instrument taker) in
  if bool_decide (mode = StpNone) then sb_qty_at_or_better b opp (so_price taker) (bool_decide (so_type taker = Market))
  else fillable_levels st taker mode (rev (sb_levels b opp)) 0.

(** The order behind [h] joins the end of the queue of level [k]. *)
Definition enqueue (h : Z) (i : InstrumentId) (s : Side) (k : nat) (st : Engine) : Engine :=
  let l := lvl st i s k in
  let o := (ord st h) <| so_prev := pl_tail l |> <| so_next := kNullHandle |> in
  let st := put_ord st h o in
  let '(l', st) := if handle_valid (pl_tail l)
    then (l, put_ord st (pl_tail l) ((ord st (pl_tail l)) <| so_next := h |>))
    else (l <| pl_head := h |>, st) in
  set_lvl st i s k (l' <| pl_tail := h |> <| pl_count ::= fun c => u32 (c + 1) |> <| pl_qty ::= fun q => fx_add q (leaves o) |>).
Definition rest (h : Z) (st : Engine) : Engine :=
  let o := ord st h in
  let i := so_instrument o in
  let s := so_side o in
  match find_or_insert (book_at st i) s (so_price o) with
  | (None, _) =>
    let st := mstat (fun x => x <| ms_level_full ::= bump |>) st in
    let n := mkNew (so_account o) (so_cl_ord_id o) i s (so_type o) (so_tif o) (so_price o) (so_qty o) (so_reduce_only o) in
    free_order h (say (EvReject n VenueReject (so_created o)) st)
  | (Some k, b) =>
    let st := enqueue h i s k (set_book st i b) in
    book_changed i s (lvl st i s k) st
  end.

Definition remove_resting (h : Z) (why : CancelReason) (now : Timestamp) (st : Engine) : Engine :=
  let o := ord st h in
  let i := so_instrument o in
  let s := so_side o in
  match sb_find (book_at st i) s (so_price o) with
  | None => free_order h (say (EvCancel o why now) st)
  | Some k =>
    let st := take_level_qty i s k (leaves o) st in
    let st := unlink h i s k st in
    let st := if pl_count (lvl st i s k) =? 0
      then let st := book_level_gone i s (so_price o) st in set_book st i (sb_erase (book_at st i) s k)
      else book_changed i s (lvl st i s k) st in
    free_order h (say (EvCancel (ord st h) why now) st)
  end.

(** *** Order entry *)

Definition reject (n : NewOrder) (why : RejectReason) (now : Timestamp) (st : Engine) : SubmitResult * Engine :=
  (mkSubmit 0 why 0 0, say (EvReject n why now) (mstat (fun s => s <| ms_rejects ::= bump |>) st)).

(** What [submit] does with an accepted order: the fill-or-kill test, the sweep, then rest or expire. *)
Definition work (h : Z) (now : Timestamp) (st : Engine) : SubmitResult * Engine :=
  let o := ord st h in
  let id := so_order_id o in
  let is_market := bool_decide (so_type o = Market) in
  if bool_decide (so_tif o = Fok) && ((fillable st o <? so_qty o) || (so_reduce_only o && (asks st o <? so_qty o))) then
    (mkSubmit id NoReason 0 0, free_order h (say (EvCancel o FokExpired now) (mstat (fun s => s <| ms_expired ::= bump |>) st)))
  else
    let '(alive, filled, st) := if bool_decide (so_type o = PostOnly) then (true, 0, st) else match_ h now st in
    if negb alive then (mkSubmit id NoReason filled 0, st)
    else
      let o := ord st h in
      let filled := so_cum_qty o in
      if leaves o =? 0 then (mkSubmit id NoReason filled 0, free_order h st)
      else if is_market || bool_decide (so_tif o = Ioc) || bool_decide (so_tif o = Fok) then
        let st := mstat (fun s => s <| ms_expired ::= bump |>) st in
        (mkSubmit id NoReason filled 0, free_order h (say (EvCancel o (if is_market then NoLiquidity else IocExpired) now) st))
      else
        let st := rest h st in
        if negb (op_is_live (me_pool st) h) then (mkSubmit id VenueReject filled 0, st)
        else (mkSubmit id NoReason filled (leaves (ord st h)), st).

Definition submit (n : NewOrder) (now : Timestamp) (st : Engine) : SubmitResult * Engine :=
  let st := mstat (fun s => s <| ms_submits ::= bump |>) st in
  let is_market := bool_decide (n_type n = Market) in
  if me_count st <=? n_instrument n then reject n InstrumentDisabled now st
  else if negb (0 <? n_qty n) then reject n InvalidLot now st
  else if negb is_market && negb (0 <? n_price n) then reject n InvalidTick now st
  else if bool_decide (is_Some (im_find (me_by_key st) (key (n_account n) (n_cl_ord_id n)))) then reject n DuplicateId now st
  else if bool_decide (n_type n = PostOnly) &&
      match sb_best (book_at st (n_instrument n)) (opposite (n_side n)) with
      | Some best => crosses (n_side n) (n_price n) (pl_price best) | None => false end
    then reject n PostOnlyWouldCross now st
  else
    let '(h, p) := op_allocate (me_pool st) in
    if negb (handle_valid h) then
      reject n PoolExhausted now (mstat (fun s => s <| ms_pool_exhausted ::= bump |>) (st <| me_pool := p |>))
    else
      let o := mkSim (me_next_order_id st) (n_cl_ord_id n) (if is_market then 0 else n_price n) (n_qty n) 0 now (n_instrument n)
        kNullHandle kNullHandle (n_account n) (n_side n) (n_type n) (if is_market then Ioc else n_tif n) (n_reduce_only n) in
      let st := st <| me_pool := op_set p h o |> <| me_next_order_id ::= bump |> in
      let st := st <| me_by_key := snd (im_assign (me_by_key st) (key (n_account n) (n_cl_ord_id n)) h) |> in
      work h now (say (EvAck o now) st).

Definition cancel (a : AccountId) (id : ClientOrderId) (now : Timestamp) (st : Engine) : bool * Engine :=
  match im_find (me_by_key st) (key a id) with
  | None => (false, say (EvCancelReject a id kInvalidInstrument now) (mstat (fun s => s <| ms_cancel_rejects ::= bump |>) st))
  | Some h => (true, remove_resting h Requested now (mstat (fun s => s <| ms_cancels ::= bump |>) st))
  end.

(** The order behind [h] keeps its place in the queue and becomes a fresh venue order. *)
Definition amend (h : Z) (a : AccountId) (orig new_id : ClientOrderId) (qty : Qty) (now : Timestamp) (st : Engine) : SubmitResult * Engine :=
  let o := ord st h in
  let i := so_instrument o in
  let s := so_side o in
  let k := default 0%nat (sb_find (book_at st i) s (so_price o)) in
  let st := say (EvCancel o Replaced now) st in
  let st := st <| me_by_key := snd (im_erase (me_by_key st) (key a orig)) |> in
  let st := take_level_qty i s k (fx_sub (leaves o) qty) st in
  let o' := o <| so_order_id := me_next_order_id st |> <| so_cl_ord_id := new_id |> <| so_qty := qty |> <| so_cum_qty := 0 |> <| so_created := now |> in
  let st := put_ord (st <| me_next_order_id ::= bump |>) h o' in
  let st := st <| me_by_key := snd (im_assign (me_by_key st) (key a new_id) h) |> in
  let st := if negb (qty =? leaves o) then book_changed i s (lvl st i s k) st else st in
  (mkSubmit (so_order_id o') NoReason 0 qty, say (EvAck o' now) st).

Definition replace (a : AccountId) (orig new_id : ClientOrderId) (price : Price) (qty : Qty) (now : Timestamp) (st : Engine) : SubmitResult * Engine :=
  let st := mstat (fun s => s <| ms_replaces ::= bump |>) st in
  match im_find (me_by_key st) (key a orig) with
  | None =>
    let st := say (EvCancelReject a orig kInvalidInstrument now) (mstat (fun s => s <| ms_cancel_rejects ::= bump |>) st) in
    let n := mkNew a new_id kInvalidInstrument Buy Limit Gtc price qty false in
    (mkSubmit 0 VenueUnknownOrder 0 0, say (EvReject n VenueUnknownOrder now) (mstat (fun s => s <| ms_rejects ::= bump |>) st))
  | Some h =>
    let o := ord st h in
    if (0 <? qty) && (price =? so_price o) && (qty <=? leaves o) && negb (bool_decide (is_Some (im_find (me_by_key st) (key a new_id)))) then
      amend h a orig new_id qty now st
    else
      let n := mkNew a new_id (so_instrument o) (so_side o) (so_type o) (so_tif o) price qty (so_reduce_only o) in
      submit n now (remove_resting h Replaced now st)
  end.

(** *** Queries and the mirror of historical decreases *)

Definition l2_snapshot (st : Engine) (i : InstrumentId) (s : Side) (max : nat) : list Level := sb_snapshot (book_at st i) s max.
Definition top_of_book (st : Engine) (i : InstrumentId) : Level * Level := (best_level (book_at st i) Buy, best_level (book_at st i) Sell).
Definition level_qty (st : Engine) (i : InstrumentId) (s : Side) (px : Price) : Qty :=
  match sb_find (book_at st i) s px with None => 0 | Some k => pl_qty (lvl st i s k) end.
Definition for_each_open_order {A} (f : A -> SimOrder -> A) (st : Engine) (a : A) : A :=
  fold_left (fun a h => f a (ord st h)) (op_handles (me_pool st)) a.
(** The orders [for_each_resting] visits, in its order. *)
Definition resting (st : Engine) (i : InstrumentId) (s : Side) : list SimOrder :=
  concat (level_orders st <$> rev (sb_levels (book_at st i) s)).

Definition best_of_levels (st : Engine) (a : AccountId) : list PriceLevel -> Level :=
  fix go ls := match ls with
  | [] => no_level
  | l :: ls =>
    let sum := fold_left (fun sum o => if so_account o =? a then fx_add sum (leaves o) else sum) (level_orders st l) 0 in
    if 0 <? sum then mkLevel (pl_price l) sum else go ls
  end.
Definition best_of (st : Engine) (a : AccountId) (i : InstrumentId) (s : Side) : Level :=
  if me_count st <=? i then no_level else best_of_levels st a (rev (sb_levels (book_at st i) s)).
Definition account_qty_at (st : Engine) (a : AccountId) (i : InstrumentId) (s : Side) (px : Price) : Qty :=
  if me_count st <=? i then 0
  else match sb_find (book_at st i) s px with
  | None => 0
  | Some k => fold_left (fun sum o => if so_account o =? a then fx_add sum (leaves o) else sum) (level_orders st (lvl st i s k)) 0
  end.
Record SideExposure := mkExposure { sx_orders : Z; sx_leaves : Qty; sx_best : Price }.
Definition exposure (st : Engine) (a : AccountId) (i : InstrumentId) (s : Side) : SideExposure :=
  for_each_open_order (fun e o =>
      if negb (so_account o =? a) || negb (so_instrument o =? i) || negb (bool_decide (so_side o = s)) then e
      else mkExposure (u32 (sx_orders e + 1)) (fx_add (sx_leaves e) (leaves o))
             (if (sx_best e =? 0) || better s (so_price o) (sx_best e) then so_price o else sx_best e))
    st (mkExposure 0 0 0).

(** From the tail of a queue, the newest order of the account; [fuel] is the number of orders in it. *)
Fixpoint newest_of (st : Engine) (a : AccountId) (idx : Z) (fuel : nat) : Z :=
  match fuel with
  | O => kNullHandle
  | S fuel => if handle_valid idx && negb (so_account (ord st idx) =? a) then newest_of st a (so_prev (ord st idx)) fuel else idx
  end.
Definition reduce_step (a : AccountId) (i : InstrumentId) (s : Side) (px : Price) (now : Timestamp) (x : Qty * Engine) : Qty * Engine + Engine :=
  let '(by_, st) := x in
  if negb (0 <? by_) then inr st
  else match sb_find (book_at st i) s px with
  | None => inr st
  | Some k =>
    let l := lvl st i s k in
    let h := newest_of st a (pl_tail l) (Z.to_nat (pl_count l)) in
    if negb (handle_valid h) then inr st
    else
      let o := ord st h in
      if leaves o <=? by_ then
        inl (fx_sub by_ (leaves o), remove_resting h Requested now (mstat (fun x => x <| ms_cancels ::= bump |>) st))
      else
        let st := put_ord st h (o <| so_qty ::= fun q => fx_sub q by_ |>) in
        let st := take_level_qty i s k by_ st in
        inr (book_changed i s (lvl st i s k) st)
  end.
(** Each turn but the last removes an order. *)
Definition reduce_account_qty (a : AccountId) (i : InstrumentId) (s : Side) (px : Price) (by_ : Qty) (now : Timestamp) (st : Engine) : Engine :=
  if me_count st <=? i then st
  else match loop 17 (reduce_step a i s px now) (by_, st) with inr st => st | inl x => snd x end.
End engine.
