(* ===== verification/MatchingBook.v ===== *)
(** * MatchingBook: a side of the simulated book and the queues of its levels

    Where [lower_bound] lands on a sorted side, and doubly linked segments of orders: how they
    split, and what an unlink or an append does to them. *)

From Stdlib Require Import Sorted.
From S2P Require Import Prelude Types FixedPoint MapSum L2Book L2BookProps Matching.

#[local] Arguments i64 : simpl never.
#[local] Arguments kNullHandle : simpl never.

(** ** A side as prices and quantities *)

Definition flat1 (l : PriceLevel) : Level := mkLevel (pl_price l) (pl_qty l).
Definition flat (v : list PriceLevel) : list Level := flat1 <$> v.

Lemma flat_lookup v k : flat v !! k = flat1 <$> (v !! k).
Proof. apply list_lookup_fmap. Qed.
Lemma flat_length v : length (flat v) = length v.
Proof. apply length_fmap. Qed.
Lemma flat_price v k : l_price (L2Book.at_ (flat v) k) = pl_price (pl_at v k).
Proof. unfold L2Book.at_, pl_at. rewrite flat_lookup. by destruct (v !! k). Qed.

Lemma sb_bisect_flat fuel s px v lo hi : sb_bisect s px v lo hi fuel = bisect fuel (flat v) s px lo hi.
Proof.
  revert lo hi. induction fuel as [|fuel IH]; intros lo hi; [done|]. cbn [sb_bisect bisect]. rewrite flat_price, !IH.
  rewrite Nat.add_1_r. destruct (Nat.ltb_spec lo hi), (Nat.leb_spec hi lo); try lia; done.
Qed.

(** The level at [lower_bound] when it has the price. *)
Definition has_price (v : list PriceLevel) (px : Price) (i : nat) : bool := (i <? length v)%nat && (pl_price (pl_at v i) =? px).

Lemma pl_at_lookup v i : (i < length v)%nat -> v !! i = Some (pl_at v i).
Proof. intros Hi. unfold pl_at. by destruct (lookup_lt_is_Some_2 v i Hi) as [l ->]. Qed.

Lemma lower_bound_splits b s px : sorted s (flat (sb_levels b s)) ->
  splits (flat (sb_levels b s)) s px (lower_bound b s px) (has_price (sb_levels b s) px (lower_bound b s px)).
Proof.
  intros Hs. unfold lower_bound. set (v := sb_levels b s) in *.
  destruct ((0 <? length v)%nat && better s px (pl_price (pl_at v (length v - 1)))) eqn:E.
  { apply andb_true_iff in E as [E1%Nat.ltb_lt E2]. unfold has_price. rewrite Nat.ltb_irrefl. cbn [andb]. split; [by rewrite flat_length|].
    split; [|intros k l Hk Hl; apply lookup_lt_Some in Hl; rewrite flat_length in Hl; lia]. intros k l Hk Hl.
    rewrite <- flat_price in E2. destruct (Nat.eq_dec k (length v - 1)) as [-> |]; [by rewrite (at_lookup _ _ _ Hl) in E2|].
    eapply better_trans; [exact E2|]. apply (sorted_lookup s _ k (length v - 1) l _ Hs ltac:(lia) Hl). apply at_lt. rewrite flat_length. lia. }
  rewrite sb_bisect_flat. destruct (bisect_spec (flat v) s px (length v) 0 (length v) Hs) as (H1 & H2 & H3); rewrite ?flat_length; try lia.
  { intros k l Hk Hl. apply lookup_lt_Some in Hl. rewrite flat_length in Hl. lia. }
  cbv zeta in *. set (i := bisect _ _ _ _ _ _) in *. split; [by rewrite flat_length|]. split; [done|]. unfold has_price.
  destruct (Nat.ltb_spec i (length v)) as [Hi|Hi]; cbn [andb].
  2: { intros k l Hk Hl. apply lookup_lt_Some in Hl. rewrite flat_length in Hl. lia. }
  pose proof (pl_at_lookup v i Hi) as Ev. set (x := pl_at v i) in *. assert (Ef : flat v !! i = Some (flat1 x)) by (by rewrite flat_lookup, Ev).
  destruct (Z.eqb_spec (pl_price x) px) as [Ep|Np]; [by exists (flat1 x)|]. intros k l Hk Hl.
  assert (Hx : better s (pl_price x) px = true).
  { destruct (better s (pl_price x) px) eqn:Eb; [done|]. destruct Np. apply (better_total s); [done|]. by apply (H3 i (flat1 x)). }
  destruct (Nat.eq_dec i k) as [<- |]; [simplify_eq; done|]. eapply better_trans; [|exact Hx].
  apply (sorted_lookup s (flat v) i k (flat1 x) l Hs ltac:(lia) Ef Hl).
Qed.

Lemma sorted_price_inj s v j k a b : sorted s (flat v) -> v !! j = Some a -> v !! k = Some b -> pl_price a = pl_price b -> j = k.
Proof.
  intros Hs Ha Hb E. assert (Ha' : flat v !! j = Some (flat1 a)) by (by rewrite flat_lookup, Ha).
  assert (Hb' : flat v !! k = Some (flat1 b)) by (by rewrite flat_lookup, Hb).
  destruct (Nat.lt_trichotomy j k) as [H|[H|H]]; [|done|].
  - pose proof (sorted_lookup s _ _ _ _ _ Hs H Ha' Hb') as W. unfold worse in W. cbn in W. by rewrite E, better_irrefl in W.
  - pose proof (sorted_lookup s _ _ _ _ _ Hs H Hb' Ha') as W. unfold worse in W. cbn in W. by rewrite E, better_irrefl in W.
Qed.

Lemma sb_find_some b s px k l : sorted s (flat (sb_levels b s)) -> sb_levels b s !! k = Some l -> pl_price l = px -> sb_find b s px = Some k.
Proof.
  intros Hs Hk Hp. unfold sb_find. pose proof (lower_bound_splits b s px Hs) as Hsp. unfold has_price in Hsp.
  set (i := lower_bound b s px) in *. destruct (_ && _) eqn:E.
  - f_equal. apply andb_true_iff in E as [E1%Nat.ltb_lt E2]. apply (sorted_price_inj s _ i k _ l Hs (pl_at_lookup _ _ E1) Hk). lia.
  - exfalso. destruct Hsp as (_ & H1 & H2). assert (Hf : flat (sb_levels b s) !! k = Some (flat1 l)) by (by rewrite flat_lookup, Hk).
    destruct (Nat.lt_ge_cases k i) as [Hlt|Hge]; [specialize (H1 _ _ Hlt Hf) | specialize (H2 _ _ Hge Hf)];
      cbn in *; by rewrite Hp, better_irrefl in *.
Qed.
Lemma sb_find_inv b s px k : sb_find b s px = Some k -> exists l, sb_levels b s !! k = Some l /\ pl_price l = px.
Proof.
  unfold sb_find. destruct (_ && _) eqn:E; [|done]. intros [= <-]. apply andb_true_iff in E as [E1%Nat.ltb_lt E2].
  eexists. split; [by apply pl_at_lookup | lia].
Qed.

(** ** Doubly linked segments *)

(** [seg m p h q n l]: the orders [l] are linked from [h] on; before the first comes [p], the last is [q]
    (or [p] when there is none), and after it comes [n]. *)
Fixpoint seg (m : gmap Z SimOrder) (p h q n : Z) (l : list Z) : Prop :=
  match l with
  | [] => h = n /\ p = q
  | x :: l => h = x /\ exists o, m !! x = Some o /\ so_prev o = p /\ seg m x (so_next o) q n l
  end.

Lemma seg_app m l1 l2 : forall p h q n, seg m p h q n (l1 ++ l2) <-> exists q' n', seg m p h q' n' l1 /\ seg m q' n' q n l2.
Proof.
  induction l1 as [|x l1 IH]; intros p h q n; cbn [app seg].
  - split; [intros H; by exists p, h | intros (? & ? & [-> ->] & ?); done].
  - split.
    + intros (-> & o & Ho & Hp & H). apply IH in H as (q' & n' & H1 & H2). exists q', n'. split; [|done]. split; [done|]. by exists o.
    + intros (q' & n' & (-> & o & Ho & Hp & H1) & H2). split; [done|]. exists o. split; [done|]. split; [done|]. apply IH. eauto.
Qed.

(** Only the links of the segment's own orders matter. *)
Lemma seg_ext m m' l : forall p h q n, (forall x, x ∈ l -> (fun o => (so_prev o, so_next o)) <$> (m' !! x) = (fun o => (so_prev o, so_next o)) <$> (m !! x)) ->
  seg m p h q n l -> seg m' p h q n l.
Proof.
  induction l as [|x l IH]; intros p h q n He H; [done|]. destruct H as (-> & o & Ho & Hp & H). split; [done|].
  pose proof (He x ltac:(constructor)) as Ex. rewrite Ho in Ex. destruct (m' !! x) as [o'|] eqn:Eo'; [|done]. injection Ex as E1 E2.
  exists o'. split; [done|]. split; [congruence|]. replace (so_next o') with (so_next o) by congruence. apply IH; [|done]. intros y Hy. apply He. by constructor.
Qed.
Lemma seg_frame m y o l p h q n : y ∉ l -> seg m p h q n l -> seg (<[y := o]> m) p h q n l.
Proof. intros Hy. apply seg_ext. intros x Hx. rewrite lookup_insert_ne; [done|]. by intros ->. Qed.

Lemma seg_set_next m l p h q n o n' : NoDup l -> l <> [] -> seg m p h q n l -> m !! q = Some o ->
  seg (<[q := o <| so_next := n' |>]> m) p h q n' l.
Proof.
  intros Hnd Hne Hs Ho. destruct l as [|z l _] using rev_ind; [done|]. apply NoDup_app in Hnd as (_ & Hnd & _).
  apply seg_app in Hs as (q' & h' & H1 & H2). cbn in H2. destruct H2 as (-> & o' & Ho' & Hp & <- & ->). rewrite Ho in Ho'. injection Ho' as <-.
  apply seg_app. exists q', q. split.
  - apply seg_frame; [|done]. intros Hin. by apply (Hnd q Hin), list_elem_of_singleton.
  - cbn. split; [done|]. eexists. rewrite lookup_insert_eq. done.
Qed.
Lemma seg_set_prev m x l p h q n o p' : NoDup (x :: l) -> seg m p h q n (x :: l) -> m !! x = Some o ->
  seg (<[x := o <| so_prev := p' |>]> m) p' h q n (x :: l).
Proof.
  intros Hnd (-> & o' & Ho' & Hp & Hs) Ho. rewrite Ho in Ho'. injection Ho' as <-. inversion Hnd; subst.
  split; [done|]. eexists. rewrite lookup_insert_eq. split; [done|]. split; [done|]. by apply seg_frame.
Qed.

Lemma seg_last m l p h q n : seg m p h q n l -> q = default p (last l).
Proof.
  revert p h. induction l as [|x l IH]; intros p h H; [by destruct H|]. destruct H as (-> & o & Ho & Hp & H). apply IH in H.
  rewrite last_cons. by destruct (last l).
Qed.
Lemma seg_head m l p h q n : seg m p h q n l -> h = default n (head l).
Proof. destruct l; cbn; [by intros []|by intros []]. Qed.
Lemma seg_live m l p h q n x : seg m p h q n l -> x ∈ l -> is_Some (m !! x).
Proof.
  revert p h. induction l as [|y l IH]; intros p h H Hx; [by apply not_elem_of_nil in Hx|]. destruct H as (-> & o & Ho & Hp & H).
  apply elem_of_cons in Hx as [-> |Hx]; [by exists o | by apply (IH _ _ H)].
Qed.

(** ** Taking an order out of its queue, and putting one at its end *)

(** An order without its links. *)
Definition core (o : SimOrder) : SimOrder := o <| so_next := 0 |> <| so_prev := 0 |>.
Definition valid_keys (m : gmap Z SimOrder) : Prop := forall h, is_Some (m !! h) -> handle_valid h = true.

Definition set_next (m : gmap Z SimOrder) (h n : Z) : gmap Z SimOrder :=
  if handle_valid h then alter (fun o => o <| so_next := n |>) h m else m.
Definition set_prev (m : gmap Z SimOrder) (h p : Z) : gmap Z SimOrder :=
  if handle_valid h then alter (fun o => o <| so_prev := p |>) h m else m.

Lemma null_invalid : handle_valid kNullHandle = false.
Proof. reflexivity. Qed.

Lemma core_alter (f : SimOrder -> SimOrder) (h : Z) (m : gmap Z SimOrder) : (forall o, core (f o) = core o) -> core <$> alter f h m = core <$> m.
Proof.
  intros Hf. apply map_eq. intros k. rewrite !lookup_fmap. destruct (decide (k = h)) as [-> |].
  - rewrite lookup_alter_eq. destruct (m !! h); [|done]. cbn. by rewrite Hf.
  - by rewrite lookup_alter_ne.
Qed.
Lemma core_set_next m h n : core <$> set_next m h n = core <$> m.
Proof. unfold set_next. destruct (handle_valid h); [|done]. by apply core_alter. Qed.
Lemma core_set_prev m h n : core <$> set_prev m h n = core <$> m.
Proof. unfold set_prev. destruct (handle_valid h); [|done]. by apply core_alter. Qed.
Lemma set_next_other m h n x : x <> h -> set_next m h n !! x = m !! x.
Proof. intros H. unfold set_next. destruct (handle_valid h); [|done]. by rewrite lookup_alter_ne. Qed.
Lemma set_prev_other m h n x : x <> h -> set_prev m h n !! x = m !! x.
Proof. intros H. unfold set_prev. destruct (handle_valid h); [|done]. by rewrite lookup_alter_ne. Qed.
Lemma alter_insert (f : SimOrder -> SimOrder) h (m : gmap Z SimOrder) o : m !! h = Some o -> alter f h m = <[h := f o]> m.
Proof.
  intros Ho. apply map_eq. intros k. destruct (decide (k = h)) as [-> |].
  - by rewrite lookup_alter_eq, lookup_insert_eq, Ho.
  - by rewrite lookup_alter_ne, lookup_insert_ne.
Qed.

Lemma seg_new_end m l1 p n n' h : valid_keys m -> NoDup l1 -> seg m kNullHandle h p n l1 ->
  seg (set_next m p n') kNullHandle (if handle_valid p then h else n') p n' l1.
Proof.
  intros Hv Hnd Hs. pose proof (seg_last _ _ _ _ _ _ Hs) as Hq. destruct l1 as [|z l1 _] using rev_ind.
  - destruct Hs as [-> <-]. unfold set_next. by rewrite null_invalid.
  - rewrite last_snoc in Hq. cbn in Hq. subst z. destruct (seg_live _ _ _ _ _ _ p Hs) as [o Ho]; [apply elem_of_app; right; constructor|].
    unfold set_next. rewrite (Hv p) by eauto. rewrite (alter_insert _ _ _ o Ho). apply (seg_set_next m _ _ _ _ n); try done. by destruct l1.
Qed.
Lemma seg_new_start m l2 p p' n t : valid_keys m -> NoDup l2 -> seg m p n t kNullHandle l2 ->
  seg (set_prev m n p') p' n (if handle_valid n then t else p') kNullHandle l2.
Proof.
  intros Hv Hnd Hs. destruct l2 as [|z l2].
  - destruct Hs as [-> <-]. unfold set_prev. by rewrite null_invalid.
  - pose proof Hs as (-> & o & Ho & _). unfold set_prev. rewrite (Hv z) by eauto. rewrite (alter_insert _ _ _ o Ho). by apply (seg_set_prev _ _ _ p).
Qed.

(** The pool after [unlink] of [x], except for [x]'s own links. *)
Definition bridged (m : gmap Z SimOrder) (o : SimOrder) : gmap Z SimOrder := set_prev (set_next m (so_prev o) (so_next o)) (so_next o) (so_prev o).

Lemma valid_core m m' : core <$> m' = core <$> m -> valid_keys m -> valid_keys m'.
Proof.
  intros E Hv h Hh. apply Hv. apply (fmap_is_Some core). rewrite <- lookup_fmap, <- E, lookup_fmap. by apply fmap_is_Some.
Qed.
Lemma bridged_core m o : core <$> bridged m o = core <$> m.
Proof. unfold bridged. by rewrite core_set_prev, core_set_next. Qed.

Lemma seg_unlink m h t l1 x l2 o : valid_keys m -> NoDup (l1 ++ x :: l2) -> seg m kNullHandle h t kNullHandle (l1 ++ x :: l2) -> m !! x = Some o ->
  seg (bridged m o) kNullHandle (if handle_valid (so_prev o) then h else so_next o) (if handle_valid (so_next o) then t else so_prev o) kNullHandle (l1 ++ l2) /\
  (forall y, y ∉ l1 ++ l2 -> bridged m o !! y = m !! y).
Proof.
  intros Hv Hnd Hs Ho. apply seg_app in Hs as (p & x' & H1 & (-> & o' & Ho' & Hp & H2)). rewrite Ho in Ho'. injection Ho' as <-.
  rewrite Hp. apply NoDup_app in Hnd as (Hn1 & Hn12 & Hn2). inversion Hn2 as [|? ? Hx Hn2']; subst x0 l.
  assert (Hin1 : handle_valid p = true -> p ∈ l1).
  { pose proof (seg_last _ _ _ _ _ _ H1) as E. destruct (last l1) as [z|] eqn:El; cbn [from_option id] in E.
    - intros _. rewrite E. by apply last_Some_elem_of.
    - intros Hval. by rewrite E in Hval. }
  assert (Hin2 : handle_valid (so_next o) = true -> so_next o ∈ l2).
  { pose proof (seg_head _ _ _ _ _ _ H2) as E. destruct l2; cbn [head from_option id] in E; intros Hval; [by rewrite E in Hval | rewrite E; constructor]. }
  assert (Hvb : valid_keys (set_next m p (so_next o))) by (eapply valid_core; [apply core_set_next | done]).
  unfold bridged. rewrite Hp. split.
  - apply seg_app. exists p, (so_next o). split.
    + apply (seg_ext (set_next m p (so_next o))); [|by apply (seg_new_end m l1 p x)]. intros y Hy. f_equal.
      unfold set_prev. destruct (handle_valid (so_next o)) eqn:E; [|done]. rewrite lookup_alter_ne; [done|]. intros <-.
      apply (Hn12 (so_next o) Hy). constructor. by apply Hin2.
    + apply (seg_new_start _ l2 x p); [done | done|]. apply (seg_ext m); [|done]. intros y Hy. f_equal.
      unfold set_next. destruct (handle_valid p) eqn:E; [|done]. rewrite lookup_alter_ne; [done|]. intros <-.
      apply (Hn12 p (Hin1 eq_refl)). by constructor.
  - intros y Hy. rewrite not_elem_of_app in Hy. destruct Hy as [Hy1 Hy2]. unfold set_prev, set_next.
    destruct (handle_valid (so_next o)) eqn:E2, (handle_valid p) eqn:E1; rewrite ?lookup_alter_ne; try done;
      intros <-; try (by apply Hy1, Hin1); try (by apply Hy2, Hin2).
Qed.

(** A new order [h] after the last one. *)
Lemma seg_append m hd t l h o : valid_keys m -> NoDup l -> h ∉ l -> seg m kNullHandle hd t kNullHandle l -> m !! h = Some o -> so_prev o = t -> so_next o = kNullHandle ->
  seg (set_next m t h) kNullHandle (if handle_valid t then hd else h) h kNullHandle (l ++ [h]).
Proof.
  intros Hv Hnd Hh Hs Ho Hp Hn. apply seg_app. exists t, h. split; [by apply (seg_new_end m l t kNullHandle)|]. cbn. split; [done|]. exists o.
  split; [|done]. rewrite set_next_other; [done|]. intros ->. apply Hh.
  pose proof (seg_last _ _ _ _ _ _ Hs) as E. destruct (last l) as [z|] eqn:El; cbn [from_option id] in E.
  - rewrite E. by apply last_Some_elem_of.
  - exfalso. pose proof (Hv t ltac:(eauto)) as Hval. by rewrite E in Hval.
Qed.
