(* ===== verification/MatchingInv.v ===== *)
(** * MatchingInv: the structure of the simulated exchange

    The invariant ties the pool, the key table and the levels of every book to ghost queues:
    [Q i s] lists, level by level, the handles waiting on side [s] of instrument [i], and [F] the
    orders that are in no queue because an operation is working on them.  Each primitive step
    of the engine keeps it. *)

From Stdlib Require Import Sorted.
From S2P Require Import Prelude Types FixedPoint MapSum L2Book L2BookProps Interfaces Matching MatchingBook.

#[local] Arguments i64 : simpl never.
#[local] Arguments u32 : simpl never.
#[local] Arguments kNullHandle : simpl never.

(** ** Tables by instrument and side *)

Definition upd {A} (f : Z -> Side -> A) (i : Z) (s : Side) (x : A) : Z -> Side -> A :=
  fun i' s' => if decide (i' = i /\ s' = s) then x else f i' s'.
Lemma upd_eq {A} (f : Z -> Side -> A) i s x : upd f i s x i s = x.
Proof. unfold upd. by rewrite decide_True. Qed.
Lemma upd_ne {A} (f : Z -> Side -> A) i s x i' s' : ~ (i' = i /\ s' = s) -> upd f i s x i' s' = f i' s'.
Proof. intros H. unfold upd. by rewrite decide_False. Qed.
Lemma upd_ind {A} (R : Z -> Side -> A -> Prop) f i s x : R i s x -> (forall i' s', ~ (i' = i /\ s' = s) -> R i' s' (f i' s')) ->
  forall i' s', R i' s' (upd f i s x i' s').
Proof. intros H1 H2 i' s'. unfold upd. case_decide as H; [by destruct H as [-> ->] | by apply H2]. Qed.

Section inv.
Context {M P : Type} `{!IdMapOps M, !IdMap M} `{!ObjPoolOps P SimOrder, !ObjPool P SimOrder}.
Abbreviation Engine := (MatchingEngine M P).
Implicit Type st : Engine.

(** ** Views of a state *)

Definition pm (st : Engine) : gmap Z SimOrder := op_abs (me_pool st).
Definition cs (st : Engine) : gmap Z SimOrder := core <$> pm st.
Definition ks (st : Engine) : gmap Z Z := im_abs (me_by_key st).
Definition V (st : Engine) (i : InstrumentId) (s : Side) : list PriceLevel := sb_levels (book_at st i) s.
Definition PV (st : Engine) (i : InstrumentId) (s : Side) : list Level := flat (V st i s).

Lemma V_set_book st i b i' s' : V (set_book st i b) i' s' = if decide (i' = i) then sb_levels b s' else V st i' s'.
Proof.
  unfold V, set_book, book_at. cbn. case_decide as H; [subst; by rewrite lookup_insert_eq | by rewrite lookup_insert_ne].
Qed.
Lemma sb_levels_set b s v s' : sb_levels (sb_set_levels b s v) s' = if decide (s' = s) then v else sb_levels b s'.
Proof. by destruct s, s'. Qed.
Lemma V_set_levels st i s v i' s' : V (set_book st i (sb_set_levels (book_at st i) s v)) i' s' = upd (V st) i s v i' s'.
Proof.
  rewrite V_set_book, sb_levels_set. unfold upd. destruct (decide (i' = i)) as [-> |]; [|rewrite decide_False by tauto; done].
  destruct (decide (s' = s)) as [-> |]; [by rewrite decide_True | rewrite decide_False by tauto; done].
Qed.
Lemma V_set_lvl st i s k l i' s' : V (set_lvl st i s k l) i' s' = upd (V st) i s (<[k := l]> (V st i s)) i' s'.
Proof. apply V_set_levels. Qed.
Lemma book_set_lvl_other st i s k l i' : i' <> i -> book_at (set_lvl st i s k l) i' = book_at st i'.
Proof. intros H. unfold book_at, set_lvl, set_book. cbn. by rewrite lookup_insert_ne. Qed.
Lemma V_bump st i b u i' s' : book_at st i = b -> V (set_book st i (b <| sb_update_id := u |>)) i' s' = V st i' s'.
Proof. intros <-. rewrite V_set_book. case_decide as H; [subst; by destruct s' | done]. Qed.

Lemma PV_lookup st i s k l : V st i s !! k = Some l -> PV st i s !! k = Some (flat1 l).
Proof. intros E. unfold PV. by rewrite flat_lookup, E. Qed.
Lemma lvl_lookup st i s k l : V st i s !! k = Some l -> lvl st i s k = l.
Proof. intros E. unfold lvl, pl_at. fold (V st i s). by rewrite E. Qed.

(** ** The pool *)

Lemma ord_lookup st h o : op_ok (me_pool st) -> pm st !! h = Some o -> ord st h = o.
Proof. intros Hok E. unfold ord. unfold pm in E. rewrite op_get_spec; [by rewrite E | done | by exists o]. Qed.
Lemma pm_put st h o : op_ok (me_pool st) -> is_Some (pm st !! h) -> op_ok (me_pool (put_ord st h o)) /\ pm (put_ord st h o) = <[h := o]> (pm st).
Proof. intros Hok E. by apply op_set_spec. Qed.
Lemma pm_valid st : op_ok (me_pool st) -> valid_keys (pm st).
Proof.
  intros Hok h Hh. pose proof (op_range (me_pool st) h Hok Hh). pose proof op_cap_range. unfold handle_valid. lia.
Qed.
Lemma cs_lookup st h o : cs st !! h = Some o <-> exists x, pm st !! h = Some x /\ o = core x.
Proof. unfold cs. rewrite lookup_fmap. destruct (pm st !! h); cbn; split; [intros [= <-]; eauto | intros (x & [= <-] & ->); done | done | intros (x & ? & _); done]. Qed.

(** ** The invariant *)

(** Level [lv] of side [s] of instrument [i] queues the orders [l]. *)
Record lv_rep (m c : gmap Z SimOrder) (i : InstrumentId) (s : Side) (lv : PriceLevel) (l : list Z) : Prop := {
  lr_seg : seg m kNullHandle (pl_head lv) (pl_tail lv) kNullHandle l;
  lr_nodup : NoDup l;
  lr_count : pl_count lv = Z.of_nat (length l);
  lr_orders : forall h, h ∈ l -> exists o, c !! h = Some o /\ so_instrument o = i /\ so_side o = s /\ so_price o = pl_price lv;
}.

Abbreviation queues := (Z -> Side -> list (list Z)) (only parsing).

Record inv (st : Engine) (F : gset Z) (Q : queues) : Prop := {
  i_pool : op_ok (me_pool st);
  i_map : im_ok (me_by_key st);
  i_sorted : forall i s, sorted s (PV st i s);
  i_depth : forall i s, (length (V st i s) <= kMaxSimLevels)%nat;
  i_rep : forall i s, Forall2 (lv_rep (pm st) (cs st) i s) (V st i s) (Q i s);
  i_live : forall h o, cs st !! h = Some o -> h ∈ F \/ h ∈ concat (Q (so_instrument o) (so_side o));
  i_flight : forall h, h ∈ F -> is_Some (cs st !! h) /\ forall i s, h ∉ concat (Q i s);
  i_ord : forall h o, cs st !! h = Some o -> 0 <= so_cum_qty o <= so_qty o /\ so_qty o <= i64_max;
  i_keys : forall k h, ks st !! k = Some h <-> exists o, cs st !! h = Some o /\ key (so_account o) (so_cl_ord_id o) = k;
  i_size : size (ks st) = size (cs st);
}.

(** What does not touch pool, table or levels does not matter. *)
Lemma sim_inv_frame st st' F Q : me_pool st' = me_pool st -> me_by_key st' = me_by_key st -> (forall i s, V st' i s = V st i s) -> inv st F Q -> inv st' F Q.
Proof.
  intros Ep Ek Ev H. assert (E1 : pm st' = pm st) by (unfold pm; by rewrite Ep). assert (E2 : cs st' = cs st) by (unfold cs; by rewrite E1).
  assert (E3 : ks st' = ks st) by (unfold ks; by rewrite Ek). assert (E4 : forall i s, PV st' i s = PV st i s) by (intros; unfold PV; by rewrite Ev).
  destruct H. constructor; intros; rewrite ?Ep, ?Ek, ?Ev, ?E1, ?E2, ?E3, ?E4 in *; eauto.
Qed.

Lemma in_queue st F Q i s k l h : inv st F Q -> Q i s !! k = Some l -> h ∈ l ->
  exists lv o, V st i s !! k = Some lv /\ cs st !! h = Some o /\ so_instrument o = i /\ so_side o = s /\ so_price o = pl_price lv.
Proof.
  intros H Hk Hh. destruct (Forall2_lookup_r _ _ _ _ _ (i_rep _ _ _ H i s) Hk) as (lv & Hlv & Hr).
  destruct (lr_orders _ _ _ _ _ _ Hr h Hh) as (o & Ho & E). by exists lv, o.
Qed.
(** An order waits in one place only. *)
Lemma queue_unique st F Q i s k l i' s' k' l' h : inv st F Q -> Q i s !! k = Some l -> Q i' s' !! k' = Some l' -> h ∈ l -> h ∈ l' -> i' = i /\ s' = s /\ k' = k.
Proof.
  intros H Hk Hk' Hh Hh'. destruct (in_queue _ _ _ _ _ _ _ _ H Hk Hh) as (lv & o & Hv & Ho & E1 & E2 & E3).
  destruct (in_queue _ _ _ _ _ _ _ _ H Hk' Hh') as (lv' & o' & Hv' & Ho' & E1' & E2' & E3'). rewrite Ho in Ho'. injection Ho' as <-. subst.
  split; [done|]. split; [done|]. apply (sorted_price_inj _ _ _ _ lv' lv (i_sorted _ _ _ H (so_instrument o) (so_side o))); [done | done | congruence].
Qed.
Lemma elem_of_concat (ls : list (list Z)) h : h ∈ concat ls <-> exists k l, ls !! k = Some l /\ h ∈ l.
Proof.
  rewrite list_elem_of_In, in_concat. split.
  - intros (l & Hl & Hh). apply list_elem_of_In, list_elem_of_lookup in Hl as [k Hk]. exists k, l. split; [done|]. by apply list_elem_of_In.
  - intros (k & l & Hk & Hh). exists l. split; [|by apply list_elem_of_In]. apply list_elem_of_In, (list_elem_of_lookup_2 _ _ _ Hk).
Qed.

Definition place (o : SimOrder) : Z * Side * Z := (so_instrument o, so_side o, so_price o).
Lemma lv_rep_ext m m' c c' i s lv lv' l :
  (forall x, x ∈ l -> (fun o => (so_prev o, so_next o)) <$> (m' !! x) = (fun o => (so_prev o, so_next o)) <$> (m !! x)) ->
  (forall x, x ∈ l -> place <$> (c' !! x) = place <$> (c !! x)) ->
  pl_head lv' = pl_head lv -> pl_tail lv' = pl_tail lv -> pl_count lv' = pl_count lv -> pl_price lv' = pl_price lv ->
  lv_rep m c i s lv l -> lv_rep m' c' i s lv' l.
Proof.
  intros Hm Hc Eh Et Ec Ep [H1 H2 H3 H4]. constructor; [rewrite Eh, Et; by apply (seg_ext m) | done | congruence|].
  intros h Hh. destruct (H4 h Hh) as (o & Ho & E1 & E2 & E3). specialize (Hc h Hh). rewrite Ho in Hc.
  destruct (c' !! h) as [o'|]; [|done]. cbn in Hc. unfold place in Hc. injection Hc as F1 F2 F3. exists o'. split; [done|]. rewrite F1, F2, F3, Ep. done.
Qed.
Lemma rep_lookup st F Q i s k l : inv st F Q -> Q i s !! k = Some l -> exists lv, V st i s !! k = Some lv /\ lv_rep (pm st) (cs st) i s lv l.
Proof. intros H Hk. destruct (Forall2_lookup_r _ _ _ _ _ (i_rep _ _ _ H i s) Hk) as (lv & Hlv & Hr). by exists lv. Qed.
Lemma rep_lookup_l st F Q i s k lv : inv st F Q -> V st i s !! k = Some lv -> exists l, Q i s !! k = Some l /\ lv_rep (pm st) (cs st) i s lv l.
Proof. intros H Hk. destruct (Forall2_lookup_l _ _ _ _ _ (i_rep _ _ _ H i s) Hk) as (l & Hl & Hr). by exists l. Qed.

Lemma sorted_prices s v v' : l_price <$> v' = l_price <$> v -> sorted s v -> sorted s v'.
Proof.
  intros E Hs. revert v' E. induction Hs as [|x v Hs IH Hx]; intros [|y v'] E; try done; [constructor|]. injection E as E1 E2. change (l_price <$> v' = l_price <$> v) in E2. constructor; [by apply IH|].
  apply Forall_forall. intros z Hz. assert (Hz' : l_price z ∈ l_price <$> v) by (rewrite <- E2; by apply list_elem_of_fmap_2).
  apply list_elem_of_fmap in Hz' as (w & Ew & Hw). rewrite Forall_forall in Hx. specialize (Hx w Hw). unfold worse in *. by rewrite E1, Ew.
Qed.
Lemma prices_insert v k lv lv' : v !! k = Some lv -> pl_price lv' = pl_price lv -> l_price <$> flat (<[k := lv']> v) = l_price <$> flat v.
Proof.
  intros Hk Hp. unfold flat. rewrite <- !list_fmap_compose, list_fmap_insert, list_insert_id; [done|]. rewrite list_lookup_fmap, Hk. cbn. by rewrite Hp.
Qed.

(** *** One level rewritten *)

Lemma inv_set_lvl st F Q i s k lv lv' : inv st F Q -> V st i s !! k = Some lv ->
  pl_head lv' = pl_head lv -> pl_tail lv' = pl_tail lv -> pl_count lv' = pl_count lv -> pl_price lv' = pl_price lv ->
  inv (set_lvl st i s k lv') F Q.
Proof.
  intros H Hk Eh Et Ec Ep. pose proof (V_set_lvl st i s k lv') as Ev. destruct H. constructor; try done.
  - intros i' s'. unfold PV. rewrite Ev. unfold upd. case_decide as E; [destruct E as [-> ->]|apply i_sorted0].
    eapply sorted_prices; [by apply (prices_insert _ _ lv) | apply i_sorted0].
  - intros i' s'. rewrite Ev. unfold upd. case_decide; [rewrite length_insert; apply i_depth0 | apply i_depth0].
  - intros i' s'. rewrite Ev. unfold upd. change (pm (set_lvl st i s k lv')) with (pm st). change (cs (set_lvl st i s k lv')) with (cs st).
    case_decide as E; [destruct E as [-> ->]|apply i_rep0]. pose proof (i_rep0 i s) as Hr.
    destruct (Forall2_lookup_l _ _ _ _ _ Hr Hk) as (l & Hl & Hlr). rewrite <- (list_insert_id (Q i s) k l Hl).
    apply Forall2_insert; [done|]. by apply (lv_rep_ext (pm st) _ (cs st) _ i s lv).
Qed.

(** *** An order out of its queue *)

Lemma unlink_pool st x i s k o : op_ok (me_pool st) -> pm st !! x = Some o ->
  (handle_valid (so_prev o) = true -> is_Some (pm st !! so_prev o)) -> (handle_valid (so_next o) = true -> is_Some (pm st !! so_next o)) ->
  op_ok (me_pool (unlink x i s k st)) /\
  pm (unlink x i s k st) = <[x := o <| so_next := kNullHandle |> <| so_prev := kNullHandle |>]> (bridged (pm st) o).
Proof.
  intros Hok Ho Hp Hn. unfold unlink. rewrite (ord_lookup st x o Hok Ho). set (lv := lvl st i s k).
  set (st1 := if handle_valid (so_prev o) then put_ord st (so_prev o) ((ord st (so_prev o)) <| so_next := so_next o |>) else st).
  assert (H1 : op_ok (me_pool st1) /\ pm st1 = set_next (pm st) (so_prev o) (so_next o)).
  { unfold st1, set_next. destruct (handle_valid (so_prev o)); [|done]. destruct (Hp eq_refl) as [y Hy].
    destruct (pm_put st (so_prev o) ((ord st (so_prev o)) <| so_next := so_next o |>) Hok ltac:(eauto)) as [Ha Hb].
    split; [done|]. rewrite Hb, (alter_insert _ _ _ y Hy). by rewrite (ord_lookup st _ y Hok Hy). }
  destruct H1 as [Hok1 Hpm1].
  set (st2 := if handle_valid (so_next o) then put_ord st1 (so_next o) ((ord st1 (so_next o)) <| so_prev := so_prev o |>) else st1).
  assert (Hd1 : forall z, is_Some (pm st !! z) -> is_Some (pm st1 !! z)).
  { intros z Hz. rewrite Hpm1. apply (fmap_is_Some core). rewrite <- lookup_fmap, core_set_next, lookup_fmap. by apply fmap_is_Some. }
  assert (H2 : op_ok (me_pool st2) /\ pm st2 = bridged (pm st) o).
  { unfold st2, bridged, set_prev. rewrite <- Hpm1. destruct (handle_valid (so_next o)); [|done]. destruct (Hd1 _ (Hn eq_refl)) as [y Hy].
    destruct (pm_put st1 (so_next o) ((ord st1 (so_next o)) <| so_prev := so_prev o |>) Hok1 ltac:(eauto)) as [Ha Hb].
    split; [done|]. rewrite Hb, (alter_insert _ _ _ y Hy). by rewrite (ord_lookup st1 _ y Hok1 Hy). }
  destruct H2 as [Hok2 Hpm2].
  assert (Hx : is_Some (pm st2 !! x)).
  { rewrite Hpm2. apply (fmap_is_Some core). rewrite <- lookup_fmap, bridged_core, lookup_fmap, Ho. by eexists. }
  assert (E : forall l0, me_pool (put_ord (set_lvl st2 i s k l0) x (o <| so_next := kNullHandle |> <| so_prev := kNullHandle |>)) = op_set (me_pool st2) x (o <| so_next := kNullHandle |> <| so_prev := kNullHandle |>)) by done.
  destruct (op_set_spec (me_pool st2) x (o <| so_next := kNullHandle |> <| so_prev := kNullHandle |>) Hok2 Hx) as [Ha Hb]. fold (pm st2) in Hb. rewrite Hpm2 in Hb.
  unfold st2, st1 in *. destruct (handle_valid (so_prev o)), (handle_valid (so_next o)); cbn [fst snd]; unfold pm; rewrite E; done.
Qed.

(** The parts of a state that the levels and the pool do not hold. *)
Definition aux st := (me_count st, me_by_key st, me_stp st, me_ledgers st, me_log st, me_next_order_id st, me_next_trade_id st).
Lemma unlink_aux st x i s k : aux (unlink x i s k st) = aux st.
Proof. unfold unlink. destruct (handle_valid (so_prev _)), (handle_valid (so_next _)); done. Qed.

(** The level after an unlink of an order [o]. *)
Definition unlinked (lv : PriceLevel) (o : SimOrder) : PriceLevel :=
  let l := if handle_valid (so_prev o) then lv else lv <| pl_head := so_next o |> in
  let l := if handle_valid (so_next o) then l else l <| pl_tail := so_prev o |> in
  l <| pl_count := u32 (pl_count l - 1) |>.
Lemma unlink_V st x i s k o lv i' s' : op_ok (me_pool st) -> pm st !! x = Some o -> V st i s !! k = Some lv ->
  V (unlink x i s k st) i' s' = upd (V st) i s (<[k := unlinked lv o]> (V st i s)) i' s'.
Proof.
  intros Hok Ho Hk. unfold unlink, unlinked. rewrite (ord_lookup st x o Hok Ho), (lvl_lookup _ _ _ _ _ Hk).
  destruct (handle_valid (so_prev o)), (handle_valid (so_next o)); cbn [fst snd]; rewrite <- V_set_lvl; unfold V, set_lvl, set_book, book_at, put_ord; done.
Qed.

Lemma queue_length st F Q i s k l : inv st F Q -> Q i s !! k = Some l -> Z.of_nat (length l) <= op_cap.
Proof.
  intros H Hk. destruct (rep_lookup _ _ _ _ _ _ _ H Hk) as (lv & _ & Hr). pose proof op_cap_range.
  assert (Hs : l ⊆+ seqZ 0 op_cap).
  { apply NoDup_submseteq; [apply Hr|]. intros h Hh. apply elem_of_seqZ. pose proof (op_range (me_pool st) h (i_pool _ _ _ H)) as Hrg.
    destruct (seg_live _ _ _ _ _ _ h (lr_seg _ _ _ _ _ _ Hr) Hh) as [o Ho]. specialize (Hrg ltac:(by exists o)). lia. }
  apply submseteq_length in Hs. rewrite length_seqZ in Hs. lia.
Qed.

(** One queue changed: the other ones only need their own orders where they were. *)
Definition links (o : SimOrder) : Z * Z := (so_prev o, so_next o).
Lemma reps_change m m' c c' (W : Z -> Side -> list PriceLevel) (Q : queues) i s k lv' l' :
  (forall i' s', Forall2 (lv_rep m c i' s') (W i' s') (Q i' s')) -> (k < length (Q i s))%nat -> lv_rep m' c' i s lv' l' ->
  (forall i' s' j b, ~ (i' = i /\ s' = s /\ j = k) -> Q i' s' !! j = Some b -> forall y, y ∈ b -> links <$> (m' !! y) = links <$> (m !! y) /\ place <$> (c' !! y) = place <$> (c !! y)) ->
  forall i' s', Forall2 (lv_rep m' c' i' s') (upd W i s (<[k := lv']> (W i s)) i' s') (upd Q i s (<[k := l']> (Q i s)) i' s').
Proof.
  intros Hall Hk Hnew Hoth i' s'. pose proof (Forall2_length _ _ _ (Hall i s)) as Hlen.
  assert (Hkeep : forall j a b, ~ (i' = i /\ s' = s /\ j = k) -> W i' s' !! j = Some a -> Q i' s' !! j = Some b -> lv_rep m' c' i' s' a b).
  { intros j a b Hne Ha Hb. eapply lv_rep_ext; [..|exact (Forall2_lookup_lr _ _ _ _ _ _ (Hall i' s') Ha Hb)]; try done;
      intros y Hy; by apply (Hoth i' s' j b Hne Hb). }
  apply Forall2_same_length_lookup. unfold upd. case_decide as E.
  - destruct E as [-> ->]. rewrite !length_insert. split; [done|]. intros j a b Ha Hb. destruct (decide (j = k)) as [-> |Hjk].
    + rewrite list_lookup_insert_eq in Ha by lia. rewrite list_lookup_insert_eq in Hb by lia. by simplify_eq.
    + rewrite list_lookup_insert_ne in Ha by done. rewrite list_lookup_insert_ne in Hb by done. apply (Hkeep j); [tauto | done | done].
  - split; [by apply (Forall2_length _ _ _ (Hall i' s'))|]. intros j a b Ha Hb. apply (Hkeep j); [tauto | done | done].
Qed.

Lemma nodup_mid (l1 l2 : list Z) x : NoDup (l1 ++ x :: l2) -> x ∉ l1 ++ l2 /\ NoDup (l1 ++ l2).
Proof.
  intros Hnd. apply NoDup_app in Hnd as (H1 & H2 & H3). inversion H3; subst. split.
  - intros Hin. apply elem_of_app in Hin as [Hin|Hin]; [|done]. apply (H2 x Hin). constructor.
  - apply NoDup_app. split; [done|]. split; [|done]. intros y Hy Hy2. apply (H2 y Hy). by constructor.
Qed.
Lemma elem_mid (l1 l2 : list Z) x y : y ∈ l1 ++ l2 -> y ∈ l1 ++ x :: l2.
Proof. intros Hin. apply elem_of_app in Hin as [Hin|Hin]; apply elem_of_app; [by left | right; by constructor]. Qed.
Lemma elem_at (l1 l2 : list Z) x : x ∈ l1 ++ x :: l2.
Proof. apply elem_of_app; right; constructor. Qed.

Lemma seg_ends m h t l1 x l2 o : seg m kNullHandle h t kNullHandle (l1 ++ x :: l2) -> m !! x = Some o ->
  (handle_valid (so_prev o) = true -> is_Some (m !! so_prev o)) /\ (handle_valid (so_next o) = true -> is_Some (m !! so_next o)).
Proof.
  intros Hseg Ho. apply seg_app in Hseg as (p & x' & S1 & (-> & o' & Ho' & Hp & S2)). rewrite Ho in Ho'. injection Ho' as <-. rewrite Hp. split; intros Hv.
  - pose proof (seg_last _ _ _ _ _ _ S1) as E. destruct (last l1) as [z|] eqn:El; cbn [from_option id] in E; [|by rewrite E in Hv].
    apply (seg_live _ _ _ _ _ _ _ S1). rewrite E. by apply last_Some_elem_of.
  - pose proof (seg_head _ _ _ _ _ _ S2) as E. destruct l2 as [|z l2]; cbn [head from_option id] in E; [by rewrite E in Hv|].
    apply (seg_live _ _ _ _ _ _ _ S2). rewrite E. constructor.
Qed.

Lemma concat_upd_remove st F Q i s k l1 x l2 i' s' h : inv st F Q -> Q i s !! k = Some (l1 ++ x :: l2) ->
  h ∈ concat (upd Q i s (<[k := l1 ++ l2]> (Q i s)) i' s') <-> h ∈ concat (Q i' s') /\ h <> x.
Proof.
  intros H Hk. destruct (rep_lookup _ _ _ _ _ _ _ H Hk) as (lv & Hlv & Hr). destruct (nodup_mid _ _ _ (lr_nodup _ _ _ _ _ _ Hr)) as [Hx _].
  assert (Hkl : (k < length (Q i s))%nat) by (by apply lookup_lt_Some in Hk).
  rewrite !elem_of_concat. unfold upd. case_decide as E; [destruct E as [-> ->]|].
  - split.
    + intros (j & l & Hj & Hh). destruct (decide (j = k)) as [-> |Hne].
      * rewrite list_lookup_insert_eq in Hj by done. injection Hj as <-. split; [|intros ->; done]. exists k, (l1 ++ x :: l2). split; [done | by apply elem_mid].
      * rewrite list_lookup_insert_ne in Hj by done. split; [by exists j, l|]. intros ->. destruct Hne.
        by apply (queue_unique _ _ _ i s k (l1 ++ x :: l2) i s j l x H); [..|apply elem_at|].
    + intros ((j & l & Hj & Hh) & Hne). destruct (decide (j = k)) as [-> |Hjk].
      * exists k, (l1 ++ l2). rewrite list_lookup_insert_eq by done. split; [done|]. rewrite Hk in Hj. injection Hj as <-.
        apply elem_of_app in Hh as [Hh|Hh]; apply elem_of_app; [by left | right]. by apply elem_of_cons in Hh as [-> |].
      * exists j, l. by rewrite list_lookup_insert_ne.
  - split; [|by intros []]. intros (j & l & Hj & Hh). split; [by exists j, l|]. intros ->.
    destruct (queue_unique _ _ _ i s k (l1 ++ x :: l2) i' s' j l x H Hk Hj) as (E1 & E2 & _); [apply elem_at | done|]. tauto.
Qed.

(** The level of the unlinked order. *)
Lemma rep_unlink st F Q i s k l1 x l2 lv o : inv st F Q -> Q i s !! k = Some (l1 ++ x :: l2) -> V st i s !! k = Some lv -> pm st !! x = Some o ->
  let m := <[x := o <| so_next := kNullHandle |> <| so_prev := kNullHandle |>]> (bridged (pm st) o) in
  lv_rep m (cs st) i s (unlinked lv o) (l1 ++ l2) /\ forall y, y ∉ l1 ++ x :: l2 -> m !! y = pm st !! y.
Proof.
  intros H Hk Hlv Ho m. destruct (rep_lookup _ _ _ _ _ _ _ H Hk) as (lv' & Hlv' & [Hseg Hnd Hcnt Hord]). assert (lv' = lv) as -> by congruence.
  pose proof (queue_length _ _ _ _ _ _ _ H Hk) as Hlen. pose proof op_cap_range as Hcap. destruct (nodup_mid _ _ _ Hnd) as [Hx12 Hnd'].
  destruct (seg_unlink _ _ _ _ _ _ _ (pm_valid st (i_pool _ _ _ H)) Hnd Hseg Ho) as [Hseg' Hother].
  assert (Eu : pl_head (unlinked lv o) = (if handle_valid (so_prev o) then pl_head lv else so_next o) /\ pl_tail (unlinked lv o) = (if handle_valid (so_next o) then pl_tail lv else so_prev o) /\
    pl_count (unlinked lv o) = u32 (pl_count lv - 1) /\ pl_price (unlinked lv o) = pl_price lv)
    by (unfold unlinked; by destruct (handle_valid (so_prev o)), (handle_valid (so_next o))). destruct Eu as (E1 & E2 & E3 & E4).
  split; [|intros y Hy; unfold m; rewrite lookup_insert_ne; [apply Hother | intros <-; by apply Hy, elem_at]; intros Hin; by apply Hy, elem_mid].
  constructor; [|done| |].
  - unfold m. rewrite E1, E2. by apply seg_frame.
  - rewrite E3, Hcnt. rewrite length_app in *. cbn [length] in *. unfold kNullHandle in Hcap. unfold u32. rewrite length_app, Z.mod_small; lia.
  - intros h Hh. rewrite E4. by apply Hord, elem_mid.
Qed.

Lemma inv_unlink st F Q i s k l1 x l2 : inv st F Q -> Q i s !! k = Some (l1 ++ x :: l2) ->
  inv (unlink x i s k st) ({[x]} ∪ F) (upd Q i s (<[k := l1 ++ l2]> (Q i s))) /\ cs (unlink x i s k st) = cs st /\
  (forall i' s', PV (unlink x i s k st) i' s' = PV st i' s').
Proof.
  intros H Hk. destruct (rep_lookup _ _ _ _ _ _ _ H Hk) as (lv & Hlv & Hr).
  destruct (seg_live _ _ _ _ _ _ x (lr_seg _ _ _ _ _ _ Hr) (elem_at _ _ _)) as [o Ho].
  destruct (seg_ends _ _ _ _ _ _ _ (lr_seg _ _ _ _ _ _ Hr) Ho) as [He1 He2].
  destruct (unlink_pool st x i s k o (i_pool _ _ _ H) Ho He1 He2) as [Hok' Hpm'].
  destruct (rep_unlink _ _ _ _ _ _ _ _ _ _ _ H Hk Hlv Ho) as [Hrep Hother]. rewrite <- Hpm' in Hrep, Hother.
  pose proof (fun i' s' => unlink_V st x i s k o lv i' s' (i_pool _ _ _ H) Ho Hlv) as HV.
  assert (Ecs : cs (unlink x i s k st) = cs st).
  { unfold cs. rewrite Hpm', fmap_insert, bridged_core. apply insert_id. rewrite lookup_fmap, Ho. done. }
  assert (Ek : me_by_key (unlink x i s k st) = me_by_key st) by (pose proof (unlink_aux st x i s k) as E; unfold aux in E; congruence).
  assert (Epv : forall i' s', PV (unlink x i s k st) i' s' = PV st i' s').
  { intros i' s'. unfold PV. rewrite HV. unfold upd. case_decide as E; [destruct E as [-> ->]|done]. unfold flat. rewrite list_fmap_insert, list_insert_id; [done|].
    rewrite list_lookup_fmap, Hlv. cbn. f_equal. unfold unlinked, flat1. by destruct (handle_valid (so_prev o)), (handle_valid (so_next o)). }
  split; [|done]. pose proof (fun i' s' h => concat_upd_remove _ _ _ _ _ _ _ _ _ i' s' h H Hk) as HQ.
  constructor; unfold ks; rewrite ?Ecs, ?Ek; try apply H; try done.
  - intros i' s'. rewrite Epv. apply H.
  - intros i' s'. rewrite HV. unfold upd. case_decide as E; [destruct E as [-> ->]; rewrite length_insert|]; apply H.
  - intros i' s'. rewrite HV. apply (reps_change (pm st) _ (cs st)); [apply H | by apply lookup_lt_Some in Hk | done|].
    intros i2 s2 j b Hne Hb y Hy. rewrite Hother; [done|]. intros Hin. destruct Hne. by apply (queue_unique _ _ _ i s k (l1 ++ x :: l2) i2 s2 j b y H).
  - intros h o' Ho'. rewrite HQ, elem_of_union, elem_of_singleton. destruct (i_live _ _ _ H h o' Ho'); [tauto|]. destruct (decide (h = x)); tauto.
  - intros h Hh. apply elem_of_union in Hh as [->%elem_of_singleton|Hh].
    + split; [|intros i' s'; rewrite HQ; tauto]. unfold cs. rewrite lookup_fmap, Ho. by eexists.
    + destruct (i_flight _ _ _ H h Hh) as [H1 H2]. split; [done|]. intros i' s'. rewrite HQ. intros [? _]. by apply (H2 i' s').
Qed.

(** *** Orders changed, released and created *)

Lemma flight_not_queued st F Q h i s k l : inv st F Q -> h ∈ F -> Q i s !! k = Some l -> h ∉ l.
Proof. intros H Hh Hk Hin. apply (proj2 (i_flight _ _ _ H h Hh) i s). apply elem_of_concat. eauto. Qed.
Lemma queued_live st F Q i s k l h : inv st F Q -> Q i s !! k = Some l -> h ∈ l -> is_Some (cs st !! h).
Proof. intros H Hk Hh. destruct (in_queue _ _ _ _ _ _ _ _ H Hk Hh) as (lv & o & _ & Ho & _). by exists o. Qed.

(** The queues keep their orders under a change of pool that keeps their links and places. *)
Lemma reps_keep (m m' c c' : gmap Z SimOrder) (W : Z -> Side -> list PriceLevel) (Q : queues) : (forall i s, Forall2 (lv_rep m c i s) (W i s) (Q i s)) ->
  (forall i s j b y, Q i s !! j = Some b -> y ∈ b -> links <$> (m' !! y) = links <$> (m !! y) /\ place <$> (c' !! y) = place <$> (c !! y)) ->
  forall i s, Forall2 (lv_rep m' c' i s) (W i s) (Q i s).
Proof.
  intros Hall Hk i s. apply Forall2_same_length_lookup. split; [by apply (Forall2_length _ _ _ (Hall i s))|].
  intros j a b Ha Hb. eapply lv_rep_ext; [..|exact (Forall2_lookup_lr _ _ _ _ _ _ (Hall i s) Ha Hb)]; try done; intros y Hy; by apply (Hk i s j b y).
Qed.

Lemma free_views st h o : op_ok (me_pool st) -> im_ok (me_by_key st) -> pm st !! h = Some o ->
  op_ok (me_pool (free_order h st)) /\ im_ok (me_by_key (free_order h st)) /\ pm (free_order h st) = delete h (pm st) /\
  ks (free_order h st) = delete (key (so_account o) (so_cl_ord_id o)) (ks st) /\ (forall i s, V (free_order h st) i s = V st i s).
Proof.
  intros Hok Hmk Ho. unfold free_order. rewrite (ord_lookup st h o Hok Ho).
  destruct (im_erase_spec (me_by_key st) (key (so_account o) (so_cl_ord_id o)) Hmk) as [A1 A2].
  destruct (op_free_spec (me_pool st) h Hok ltac:(by exists o)) as [B1 B2].
  split; [exact B1|]. split; [exact A1|]. split; [exact B2|]. split; [exact A2|]. done.
Qed.

Lemma inv_free st F Q h : inv st F Q -> h ∈ F -> inv (free_order h st) (F ∖ {[h]}) Q /\ cs (free_order h st) = delete h (cs st).
Proof.
  intros H Hh. destruct (i_flight _ _ _ H h Hh) as [[oc Hoc] Hnq]. apply cs_lookup in Hoc as (o & Ho & ->).
  destruct (free_views st h o (i_pool _ _ _ H) (i_map _ _ _ H) Ho) as (A1 & A2 & A3 & A4 & A5).
  assert (Ecs : cs (free_order h st) = delete h (cs st)) by (unfold cs; by rewrite A3, fmap_delete).
  assert (Hoc : cs st !! h = Some (core o)) by (apply cs_lookup; eauto).
  assert (Hkh : ks st !! key (so_account o) (so_cl_ord_id o) = Some h) by (apply (i_keys _ _ _ H); by exists (core o)).
  split; [|done]. constructor; try done; unfold PV; setoid_rewrite A5 || idtac; try apply H.
  - intros i s. rewrite Ecs. apply (reps_keep (pm st) _ (cs st)); [apply H|]. intros i' s' j b y Hb Hy. rewrite A3, !lookup_delete_ne; [done|..];
      intros <-; by apply (flight_not_queued _ _ _ _ _ _ _ _ H Hh Hb).
  - intros h' o'. rewrite Ecs, lookup_delete_Some. intros [Hne Ho']. destruct (i_live _ _ _ H h' o' Ho') as [|]; [left|by right].
    apply elem_of_difference. split; [done|]. by rewrite elem_of_singleton.
  - intros h' Hh'. apply elem_of_difference in Hh' as [Hh' Hne]. rewrite elem_of_singleton in Hne. rewrite Ecs, lookup_delete_ne by done. by apply (i_flight _ _ _ H).
  - intros h' o'. rewrite Ecs, lookup_delete_Some. intros [_ Ho']. by apply (i_ord _ _ _ H h').
  - intros k h'. rewrite A4, Ecs, lookup_delete_Some. setoid_rewrite lookup_delete_Some. rewrite (i_keys _ _ _ H k h'). split.
    + intros (Hne & o' & Ho' & Hk). exists o'. split; [|done]. split; [|done]. intros <-. rewrite Hoc in Ho'. injection Ho' as <-. by apply Hne.
    + intros (o' & (Hne & Ho') & Hk). split; [|eauto]. intros <-. apply Hne. apply (inj Some). rewrite <- Hkh. apply (i_keys _ _ _ H). eauto.
  - rewrite A4, Ecs. rewrite !map_size_delete. rewrite Hkh, Hoc. by rewrite (i_size _ _ _ H).
Qed.

(** A live order rewritten in place: its links, place and key stay. *)
Lemma inv_put st F Q h x o : inv st F Q -> pm st !! h = Some x -> links o = links x -> place o = place x ->
  so_account o = so_account x -> so_cl_ord_id o = so_cl_ord_id x -> 0 <= so_cum_qty o <= so_qty o -> so_qty o <= i64_max ->
  inv (put_ord st h o) F Q /\ pm (put_ord st h o) = <[h := o]> (pm st) /\ cs (put_ord st h o) = <[h := core o]> (cs st).
Proof.
  intros H Hx El Ep Ea Ec Hq1 Hq2. destruct (pm_put st h o (i_pool _ _ _ H) ltac:(by exists x)) as [A1 A2].
  assert (Ecs : cs (put_ord st h o) = <[h := core o]> (cs st)) by (unfold cs; by rewrite A2, fmap_insert).
  assert (Hxc : cs st !! h = Some (core x)) by (apply cs_lookup; eauto).
  assert (P1 : so_instrument (core o) = so_instrument (core x)) by (injection Ep; done).
  assert (P2 : so_side (core o) = so_side (core x)) by (injection Ep; done).
  split; [|done]. constructor; try done; try apply H.
  - rewrite Ecs. intros i s. apply (reps_keep (pm st) _ (cs st)); [apply H|]. intros i' s' j b y Hb Hy. rewrite A2.
    destruct (decide (y = h)) as [-> |Hne]; [|by rewrite !lookup_insert_ne]. rewrite !lookup_insert_eq, Hx, Hxc. cbn [fmap option_fmap option_map]. rewrite El. split; [done|].
    f_equal. exact Ep.
  - intros h' o'. rewrite Ecs. intros [[<- <-]|[Hne Ho']]%lookup_insert_Some; [|by apply (i_live _ _ _ H h')].
    rewrite P1, P2. by apply (i_live _ _ _ H h).
  - intros h' Hh'. destruct (i_flight _ _ _ H h' Hh') as [Hs Hq]. split; [|done]. rewrite Ecs. apply lookup_insert_is_Some'. by right.
  - intros h' o'. rewrite Ecs. intros [[-> <-]|[Hne Ho']]%lookup_insert_Some; [done | by apply (i_ord _ _ _ H h')].
  - intros k h'. change (ks (put_ord st h o)) with (ks st). rewrite (i_keys _ _ _ H k h'), Ecs. destruct (decide (h' = h)) as [-> |Hne]; [|by rewrite lookup_insert_ne].
    rewrite lookup_insert_eq, Hxc. assert (Hkey : key (so_account (core o)) (so_cl_ord_id (core o)) = key (so_account (core x)) (so_cl_ord_id (core x)))
      by (change (key (so_account o) (so_cl_ord_id o) = key (so_account x) (so_cl_ord_id x)); congruence).
    split; intros (o' & [= <-] & Hk); eexists; (split; [reflexivity|]); congruence.
  - rewrite Ecs, map_size_insert_Some by (by rewrite Hxc). apply (i_size _ _ _ H).
Qed.

(** A live order rewritten under another key. *)
Lemma inv_rekey st st' F Q h x o : inv st F Q -> pm st !! h = Some x -> links o = links x -> place o = place x -> 0 <= so_cum_qty o <= so_qty o -> so_qty o <= i64_max ->
  op_ok (me_pool st') -> im_ok (me_by_key st') -> pm st' = <[h := o]> (pm st) ->
  ks st' = <[key (so_account o) (so_cl_ord_id o) := h]> (delete (key (so_account x) (so_cl_ord_id x)) (ks st)) -> ks st !! key (so_account o) (so_cl_ord_id o) = None ->
  (forall i s, V st' i s = V st i s) -> inv st' F Q /\ cs st' = <[h := core o]> (cs st).
Proof.
  intros H Hx El Ep Hq1 Hq2 A1 A2 A3 A4 Hfresh EV. set (kn := key (so_account o) (so_cl_ord_id o)) in *. set (ko := key (so_account x) (so_cl_ord_id x)) in *.
  assert (Ecs : cs st' = <[h := core o]> (cs st)) by (unfold cs; by rewrite A3, fmap_insert). assert (Hxc : cs st !! h = Some (core x)) by (apply cs_lookup; eauto).
  assert (Hold : ks st !! ko = Some h) by (apply (i_keys _ _ _ H); by exists (core x)). assert (Hnk : kn <> ko) by congruence.
  assert (P1 : so_instrument (core o) = so_instrument (core x)) by (injection Ep; done). assert (P2 : so_side (core o) = so_side (core x)) by (injection Ep; done).
  split; [|done]. constructor; try done.
  - intros i s. unfold PV. rewrite EV. apply H.
  - intros i s. rewrite EV. apply H.
  - rewrite Ecs. intros i s. rewrite EV. apply (reps_keep (pm st) _ (cs st)); [apply H|]. intros i' s' j b y Hb Hy. rewrite A3.
    destruct (decide (y = h)) as [-> |Hne]; [|by rewrite !lookup_insert_ne]. rewrite !lookup_insert_eq, Hx, Hxc. cbn [fmap option_fmap option_map]. rewrite El. split; [done|]. f_equal. exact Ep.
  - intros h' o'. rewrite Ecs. intros [[<- <-]|[Hne Ho']]%lookup_insert_Some; [|by apply (i_live _ _ _ H h')]. rewrite P1, P2. by apply (i_live _ _ _ H h).
  - intros h' Hh'. destruct (i_flight _ _ _ H h' Hh') as [Hs Hq]. split; [|done]. rewrite Ecs. apply lookup_insert_is_Some'. by right.
  - intros h' o'. rewrite Ecs. intros [[-> <-]|[Hne Ho']]%lookup_insert_Some; [done | by apply (i_ord _ _ _ H h')].
  - intros k h'. rewrite A4, Ecs, lookup_insert_Some, lookup_delete_Some, (i_keys _ _ _ H k h'). split.
    + intros [[<- <-]|(Hk & Hko & o' & Ho' & Hk')]; [exists (core o); by rewrite lookup_insert_eq|]. exists o'. split; [|done]. rewrite lookup_insert_ne; [done|]. intros <-.
      rewrite Hxc in Ho'. injection Ho' as <-. by apply Hko.
    + intros (o' & [[<- <-]|[Hne Ho']]%lookup_insert_Some & Hk); [by left|]. assert (Hkk : ks st !! k = Some h') by (apply (i_keys _ _ _ H); eauto).
      right. split; [intros <-; congruence|]. split; [intros <-; congruence | eauto].
  - rewrite A4, Ecs, map_size_insert_None by (rewrite lookup_delete_ne; done). rewrite map_size_delete, Hold. rewrite map_size_insert_Some by (by rewrite Hxc).
    rewrite <- (i_size _ _ _ H). assert (size (ks st) <> 0)%nat; [|lia]. intros E. apply map_size_empty_inv in E. by rewrite E, lookup_empty in Hold.
Qed.

(** *** Levels erased and created *)

Lemma lookup_splits v s k l : sorted s v -> v !! k = Some l -> splits v s (l_price l) k true.
Proof.
  intros Hs Hk. split; [apply lookup_lt_Some in Hk; lia|]. split; [|by exists l]. intros j x Hj Hx. by apply (sorted_lookup s v j k x l).
Qed.
Lemma upd_concat Q i s ls : (forall h, h ∈ concat ls <-> h ∈ concat (Q i s)) -> forall i' s' (h : Z), h ∈ concat (upd Q i s ls i' s') <-> h ∈ concat (Q i' s').
Proof. intros E i' s' h. unfold upd. case_decide as H; [destruct H as [-> ->]; apply E | done]. Qed.

(** Queues regrouped: levels without orders come or go. *)
Lemma inv_regroup st st' F Q Q' : inv st F Q -> me_pool st' = me_pool st -> me_by_key st' = me_by_key st ->
  (forall i s, sorted s (PV st' i s)) -> (forall i s, (length (V st' i s) <= kMaxSimLevels)%nat) ->
  (forall i s, Forall2 (lv_rep (pm st) (cs st) i s) (V st' i s) (Q' i s)) -> (forall i s h, h ∈ concat (Q' i s) <-> h ∈ concat (Q i s)) -> inv st' F Q'.
Proof.
  intros H Ep Ek Hs Hd Hr HQ. assert (E1 : pm st' = pm st) by (unfold pm; by rewrite Ep). assert (E2 : cs st' = cs st) by (unfold cs; by rewrite E1).
  assert (E3 : ks st' = ks st) by (unfold ks; by rewrite Ek). constructor; rewrite ?Ep, ?Ek, ?E1, ?E2, ?E3; try done; try apply H.
  - intros h o Ho. rewrite HQ. by apply (i_live _ _ _ H).
  - intros h Hh. destruct (i_flight _ _ _ H h Hh) as [A B]. split; [done|]. intros i s. rewrite HQ. apply B.
Qed.

Lemma erase_V st i s k lv i' s' : V st i s !! k = Some lv ->
  V (set_book st i (sb_erase (book_at st i) s k)) i' s' = upd (V st) i s (take k (V st i s) ++ drop (S k) (V st i s)) i' s'.
Proof.
  intros Hk. unfold sb_erase, SVec.erase_at. fold (V st i s). apply lookup_lt_Some in Hk. destruct (Nat.leb_spec (length (V st i s)) k); [lia|]. apply V_set_levels.
Qed.
Lemma inv_erase st F Q i s k : inv st F Q -> Q i s !! k = Some [] ->
  inv (set_book st i (sb_erase (book_at st i) s k)) F (upd Q i s (take k (Q i s) ++ drop (S k) (Q i s))).
Proof.
  intros H Hk. destruct (rep_lookup _ _ _ _ _ _ _ H Hk) as (lv & Hlv & Hr). pose proof (fun i' s' => erase_V st i s k lv i' s' Hlv) as HV.
  apply (inv_regroup st _ F Q); try done.
  - intros i' s'. unfold PV. rewrite HV. unfold upd. case_decide as E; [destruct E as [-> ->]|apply H]. unfold flat. rewrite fmap_app, fmap_take, fmap_drop.
    apply (erase_side _ s (l_price (flat1 lv)) k (i_sorted _ _ _ H i s)). apply lookup_splits; [apply H|]. by apply PV_lookup.
  - intros i' s'. rewrite HV. unfold upd. case_decide as E; [destruct E as [-> ->]|apply H]. pose proof (i_depth _ _ _ H i s).
    rewrite length_app, length_take, length_drop. lia.
  - intros i' s'. rewrite HV. unfold upd. case_decide as E; [destruct E as [-> ->]|apply H].
    apply Forall2_app; [by apply Forall2_take, H | by apply Forall2_drop, H].
  - apply upd_concat. intros h. rewrite concat_app.
    assert (E : concat (Q i s) = concat (take k (Q i s)) ++ concat (drop (S k) (Q i s))) by (rewrite <- (take_drop_middle (Q i s) k [] Hk) at 1; by rewrite concat_app). by rewrite E.
Qed.

Lemma find_or_insert_V st F Q i s px k b : inv st F Q -> find_or_insert (book_at st i) s px = (Some k, b) ->
  (exists lv, V st i s !! k = Some lv /\ pl_price lv = px /\ b = book_at st i) \/
  (splits (PV st i s) s px k false /\ (length (V st i s) < kMaxSimLevels)%nat /\
   b = sb_set_levels (book_at st i) s (take k (V st i s) ++ mkPriceLevel px 0 kNullHandle kNullHandle 0 :: drop k (V st i s))).
Proof.
  intros H. unfold find_or_insert. pose proof (lower_bound_splits (book_at st i) s px (i_sorted _ _ _ H i s)) as Hsp. fold (V st i s) in *.
  unfold has_price in Hsp. set (j := lower_bound (book_at st i) s px) in *. destruct (_ && _) eqn:E.
  - intros [= <- <-]. left. apply andb_true_iff in E as [E1%Nat.ltb_lt E2]. exists (pl_at (V st i s) j). split; [by apply pl_at_lookup|]. split; [lia | done].
  - unfold SVec.insert_at. pose proof (i_depth _ _ _ H i s). destruct (bool_decide _ || _) eqn:E3; [done|]. intros [= <- <-]. right. split; [done|]. split; [|done].
    apply orb_false_iff in E3 as [E3%bool_decide_eq_false _]. lia.
Qed.

(** The level [rest] works on is there afterwards, with the queue it had, or an empty one. *)
Lemma ensure_level st F Q i s px k b : inv st F Q -> find_or_insert (book_at st i) s px = (Some k, b) ->
  exists Q' lv l, inv (set_book st i b) F Q' /\ V (set_book st i b) i s !! k = Some lv /\ pl_price lv = px /\ Q' i s !! k = Some l /\
    (forall i' s', price_map (PV (set_book st i b) i' s') = price_map (PV st i' s') \/
       i' = i /\ s' = s /\ price_map (PV st i s) !! px = None /\ price_map (PV (set_book st i b) i s) = <[px := 0]> (price_map (PV st i s))) /\
    ((Q' = Q /\ forall i' s', V (set_book st i b) i' s' = V st i' s') \/ l = [] /\ pl_qty lv = 0 /\ V (set_book st i b) i s = take k (V st i s) ++ lv :: drop k (V st i s) /\ Q' = upd Q i s (take k (Q i s) ++ [] :: drop k (Q i s)) /\
       (forall i' s', ~ (i' = i /\ s' = s) -> V (set_book st i b) i' s' = V st i' s')).
Proof.
  intros H Hf. destruct (find_or_insert_V _ _ _ _ _ _ _ _ H Hf) as [(lv & Hlv & Hp & ->)|(Hsp & Hroom & ->)].
  - assert (Ev : forall i' s', V (set_book st i (book_at st i)) i' s' = V st i' s') by (intros; rewrite V_set_book; case_decide; [by subst | done]).
    destruct (rep_lookup_l _ _ _ _ _ _ _ H Hlv) as (l & Hl & _). exists Q, lv, l. split; [by apply (sim_inv_frame st)|]. rewrite Ev. split; [done|]. split; [done|].
    split; [done|]. split; [|by left]. intros i' s'. left. unfold PV. by rewrite Ev.
  - set (lv := mkPriceLevel px 0 kNullHandle kNullHandle 0). set (v := take k (V st i s) ++ lv :: drop k (V st i s)).
    pose proof (V_set_levels st i s v) as HV. set (st' := set_book _ _ _) in *.
    assert (EP : forall i' s', PV st' i' s' = flat (upd (V st) i s v i' s')) by (intros; unfold PV; by rewrite HV).
    assert (Hkl : (k <= length (V st i s))%nat) by (destruct Hsp as (Hk & _); unfold PV in Hk; by rewrite flat_length in Hk).
    assert (HkQ : (k <= length (Q i s))%nat) by (by rewrite <- (Forall2_length _ _ _ (i_rep _ _ _ H i s))).
    assert (Hins : sorted s (flat v) /\ price_map (flat v) = <[px := 0]> (price_map (PV st i s)) /\ price_map (PV st i s) !! px = None).
    { unfold v, flat. rewrite fmap_app, fmap_cons, fmap_take, fmap_drop. by apply insert_side; [apply H|]. }
    destruct Hins as (I1 & I2 & I3).
    exists (upd Q i s (take k (Q i s) ++ [] :: drop k (Q i s))), lv, []. split; [apply (inv_regroup st _ F Q); try done|].
    + intros i' s'. unfold PV. rewrite HV. unfold upd. case_decide as E; [destruct E as [-> ->]; done|apply H].
    + intros i' s'. rewrite HV. unfold upd. case_decide as E; [destruct E as [-> ->]|apply H]. unfold v. rewrite length_app, length_take. cbn [length]. rewrite length_drop. lia.
    + intros i' s'. rewrite HV. unfold upd. case_decide as E; [destruct E as [-> ->]|apply H]. unfold v.
      apply Forall2_app; [by apply Forall2_take, H|]. constructor; [|by apply Forall2_drop, H]. constructor; [done | constructor | done|]. intros h Hh. by apply not_elem_of_nil in Hh.
    + apply upd_concat. intros h. rewrite concat_app. cbn [concat]. rewrite app_nil_l. rewrite <- concat_app, take_drop. done.
    + rewrite HV, upd_eq. unfold v. rewrite lookup_app_r, length_take, Nat.min_l, Nat.sub_diag by (rewrite ?length_take; lia). split; [done|]. split; [done|].
      rewrite upd_eq. rewrite lookup_app_r, length_take, Nat.min_l, Nat.sub_diag by (rewrite ?length_take; lia). split; [done|]. split.
      * intros i' s'. destruct (decide (i' = i /\ s' = s)) as [[-> ->]|Hne]; [right | left].
        -- split; [done|]. split; [done|]. split; [done|]. by rewrite EP, upd_eq.
        -- by rewrite EP, upd_ne.
      * right. split; [done|]. split; [done|]. split; [done|]. split; [done|]. intros i' s' Hne. by rewrite HV, upd_ne.
Qed.

(** *** An order at the end of a queue *)

Lemma enqueue_aux st h i s k : aux (enqueue h i s k st) = aux st.
Proof. unfold enqueue. destruct (handle_valid (pl_tail _)); done. Qed.

Lemma enqueue_views st h i s k o lv : op_ok (me_pool st) -> pm st !! h = Some o -> V st i s !! k = Some lv ->
  (handle_valid (pl_tail lv) = true -> is_Some (pm st !! pl_tail lv)) ->
  let o' := o <| so_prev := pl_tail lv |> <| so_next := kNullHandle |> in
  let lv' := (if handle_valid (pl_tail lv) then lv else lv <| pl_head := h |>) <| pl_tail := h |> <| pl_count := u32 (pl_count lv + 1) |> <| pl_qty := fx_add (pl_qty lv) (leaves o) |> in
  op_ok (me_pool (enqueue h i s k st)) /\ pm (enqueue h i s k st) = set_next (<[h := o']> (pm st)) (pl_tail lv) h /\
  forall i' s', V (enqueue h i s k st) i' s' = upd (V st) i s (<[k := lv']> (V st i s)) i' s'.
Proof.
  intros Hok Ho Hlv Ht o' lv'. unfold enqueue. rewrite (ord_lookup st h o Hok Ho), (lvl_lookup _ _ _ _ _ Hlv). fold o'.
  destruct (pm_put st h o' Hok ltac:(eauto)) as [A1 A2]. set (st1 := put_ord st h o') in *. unfold set_next, lv'.
  destruct (handle_valid (pl_tail lv)).
  - assert (Hy : is_Some (pm st1 !! pl_tail lv)) by (rewrite A2; apply lookup_insert_is_Some'; right; by apply Ht). destruct Hy as [y Hy].
    destruct (pm_put st1 (pl_tail lv) ((ord st1 (pl_tail lv)) <| so_next := h |>) A1 ltac:(eauto)) as [B1 B2].
    split; [exact B1|]. split; [|intros i' s'; rewrite <- V_set_lvl; done].
    transitivity (pm (put_ord st1 (pl_tail lv) ((ord st1 (pl_tail lv)) <| so_next := h |>))); [done|]. rewrite B2, (ord_lookup st1 _ y A1 Hy).
    rewrite <- A2. by rewrite (alter_insert _ _ _ y Hy).
  - split; [exact A1|]. split; [exact A2|]. intros i' s'. rewrite <- V_set_lvl. done.
Qed.

Lemma concat_upd_add Q i s k (l : list Z) h i' s' y : Q i s !! k = Some l ->
  y ∈ concat (upd Q i s (<[k := l ++ [h]]> (Q i s)) i' s') <-> y ∈ concat (Q i' s') \/ (i' = i /\ s' = s /\ y = h).
Proof.
  intros Hk. pose proof (lookup_lt_Some _ _ _ Hk) as Hlt. unfold upd. case_decide as E; [destruct E as [-> ->]|tauto].
  rewrite insert_take_drop by done. rewrite <- (take_drop_middle (Q i s) k l Hk) at 3. rewrite !concat_app. cbn [concat]. rewrite !elem_of_app, list_elem_of_singleton. tauto.
Qed.

Lemma inv_enqueue st F Q h i s k o lv l : inv st F Q -> h ∈ F -> pm st !! h = Some o -> V st i s !! k = Some lv -> Q i s !! k = Some l ->
  so_instrument o = i -> so_side o = s -> so_price o = pl_price lv ->
  inv (enqueue h i s k st) (F ∖ {[h]}) (upd Q i s (<[k := l ++ [h]]> (Q i s))) /\ cs (enqueue h i s k st) = cs st /\
  forall i' s', PV (enqueue h i s k st) i' s' = upd (PV st) i s (<[k := mkLevel (pl_price lv) (fx_add (pl_qty lv) (leaves o))]> (PV st i s)) i' s'.
Proof.
  intros H Hh Ho Hlv Hl Ei Es Ep. destruct (rep_lookup _ _ _ _ _ _ _ H Hl) as (lv0 & Hlv0 & Hr). assert (lv0 = lv) as -> by congruence. pose proof Hr as [Hseg Hnd Hcnt Hord].
  pose proof (flight_not_queued _ _ _ _ _ _ _ _ H Hh Hl) as Hhl.
  assert (Ht : handle_valid (pl_tail lv) = true -> pl_tail lv ∈ l).
  { pose proof (seg_last _ _ _ _ _ _ Hseg) as E. intros Hv. destruct (last l) as [z|] eqn:El; cbn [from_option id] in E; [rewrite E; by apply last_Some_elem_of | by rewrite E in Hv]. }
  destruct (enqueue_views st h i s k o lv (i_pool _ _ _ H) Ho Hlv) as (A1 & A2 & A3). { intros Hv. by apply (seg_live _ _ _ _ _ _ _ Hseg), Ht. }
  set (o' := o <| so_prev := pl_tail lv |> <| so_next := kNullHandle |>) in *. set (lv' := (if handle_valid (pl_tail lv) then _ else _) <| pl_tail := h |> <| pl_count := _ |> <| pl_qty := _ |>) in *.
  assert (Elv : pl_head lv' = (if handle_valid (pl_tail lv) then pl_head lv else h) /\ pl_tail lv' = h /\ pl_count lv' = u32 (pl_count lv + 1) /\ flat1 lv' = mkLevel (pl_price lv) (fx_add (pl_qty lv) (leaves o)))
    by (unfold lv', flat1; by destruct (handle_valid (pl_tail lv))). destruct Elv as (L1 & L2 & L3 & L4). assert (L5 : pl_price lv' = pl_price lv) by (injection L4; done).
  assert (Ecs : cs (enqueue h i s k st) = cs st).
  { unfold cs. rewrite A2, core_set_next, fmap_insert. apply insert_id. rewrite lookup_fmap, Ho. done. }
  assert (Epv : forall i' s', PV (enqueue h i s k st) i' s' = upd (PV st) i s (<[k := mkLevel (pl_price lv) (fx_add (pl_qty lv) (leaves o))]> (PV st i s)) i' s').
  { intros i' s'. unfold PV. rewrite A3. unfold upd. case_decide; [|done]. unfold flat. by rewrite list_fmap_insert, L4. }
  assert (Ek : me_by_key (enqueue h i s k st) = me_by_key st) by (pose proof (enqueue_aux st h i s k) as E; unfold aux in E; congruence).
  assert (Hoth : forall y, y ∉ l -> y <> h -> pm (enqueue h i s k st) !! y = pm st !! y).
  { intros y Hy Hne. rewrite A2. unfold set_next. destruct (handle_valid (pl_tail lv)) eqn:E; [rewrite lookup_alter_ne by (intros <-; auto)|]; by rewrite lookup_insert_ne. }
  assert (Hcap : Z.of_nat (length l) < kNullHandle) by (pose proof (queue_length _ _ _ _ _ _ _ H Hl); pose proof op_cap_range; lia).
  assert (Hoc : cs st !! h = Some (core o)) by (apply cs_lookup; eauto).
  assert (Hrep : lv_rep (pm (enqueue h i s k st)) (cs st) i s lv' (l ++ [h])).
  { constructor.
    - rewrite A2, L1, L2. apply (seg_append _ _ _ _ _ o'); [|done|done| |by rewrite lookup_insert_eq|done|done].
      + intros y Hy. apply (pm_valid st (i_pool _ _ _ H)). apply lookup_insert_is_Some in Hy as [<-|[_ Hy]]; eauto.
      + by apply seg_frame.
    - apply NoDup_app. split; [done|]. split; [|apply NoDup_singleton]. intros y Hy ->%list_elem_of_singleton. done.
    - rewrite L3, Hcnt, length_app. unfold u32. cbn [length]. unfold kNullHandle in Hcap. rewrite Z.mod_small; lia.
    - intros y Hy. rewrite L5. apply elem_of_app in Hy as [Hy|Hy]; [by apply Hord|]. apply list_elem_of_singleton in Hy as ->. by exists (core o). }
  split; [|done]. pose proof (fun i' s' y => concat_upd_add Q i s k l h i' s' y Hl) as HQ.
  constructor; unfold ks; rewrite ?Ecs, ?Ek; try apply H; try done.
  - intros i' s'. rewrite Epv. unfold upd. case_decide as E; [destruct E as [-> ->]|apply H]. eapply sorted_prices; [|apply (i_sorted _ _ _ H i s)].
    rewrite list_fmap_insert, list_insert_id; [done|]. by rewrite list_lookup_fmap, (PV_lookup _ _ _ _ _ Hlv).
  - intros i' s'. rewrite A3. unfold upd. case_decide as E; [destruct E as [-> ->]; rewrite length_insert|]; apply H.
  - intros i' s'. rewrite A3. apply (reps_change (pm st) _ (cs st)); [apply H | by apply lookup_lt_Some in Hl | done|].
    intros i2 s2 j b Hne Hb y Hy. rewrite Hoth; [done|..].
    + intros Hin. destruct Hne. by apply (queue_unique _ _ _ i s k l i2 s2 j b y H).
    + intros ->. by apply (flight_not_queued _ _ _ _ _ _ _ _ H Hh Hb).
  - intros y oy Hoy. rewrite HQ, elem_of_difference, elem_of_singleton. destruct (decide (y = h)) as [-> |Hne].
    + right. right. rewrite Hoc in Hoy. by injection Hoy as <-.
    + destruct (i_live _ _ _ H y oy Hoy); tauto.
  - intros y [Hy Hne]%elem_of_difference. rewrite elem_of_singleton in Hne. destruct (i_flight _ _ _ H y Hy) as [B1 B2]. split; [done|].
    intros i' s'. rewrite HQ. intros [?|(_ & _ & ?)]; [by apply (B2 i' s') | done].
Qed.

(** *** A new order *)

Lemma cs_size_cap st F Q : inv st F Q -> Z.of_nat (size (cs st)) <= op_cap.
Proof.
  intros H. pose proof op_cap_range as Hc. assert (Hs : (map_to_list (pm st)).*1 ⊆+ seqZ 0 op_cap).
  { apply NoDup_submseteq; [apply NoDup_fst_map_to_list|]. intros h Hh. apply elem_of_seqZ. apply list_elem_of_fmap in Hh as ((h', o) & -> & Ho%elem_of_map_to_list).
    pose proof (op_range (me_pool st) h' (i_pool _ _ _ H) ltac:(by exists o)). cbn. lia. }
  apply submseteq_length in Hs. rewrite length_seqZ, length_fmap, length_map_to_list in Hs. unfold cs. rewrite map_size_fmap. lia.
Qed.

Lemma inv_create st st' F Q h p o : op_cap < im_cap -> inv st F Q -> op_allocate (me_pool st) = (h, p) -> handle_valid h = true ->
  ks st !! key (so_account o) (so_cl_ord_id o) = None -> 0 <= so_cum_qty o <= so_qty o -> so_qty o <= i64_max ->
  me_pool st' = op_set p h o -> me_by_key st' = snd (im_assign (me_by_key st) (key (so_account o) (so_cl_ord_id o)) h) -> (forall i s, V st' i s = V st i s) ->
  inv st' ({[h]} ∪ F) Q /\ pm st' = <[h := o]> (pm st) /\ cs st' = <[h := core o]> (cs st) /\ h ∉ F.
Proof.
  intros Hcap H Ha Hv Hfresh Hq1 Hq2 Ep Ek EV. set (kk := key _ _) in *.
  destruct (op_allocate_some (me_pool st) h p (i_pool _ _ _ H) Ha) as (Hrg & Hnew & Hset & _); [intros ->; done|]. destruct (Hset o) as [B1 B2].
  pose proof (cs_size_cap _ _ _ H) as Hsz. rewrite <- (i_size _ _ _ H) in Hsz.
  destruct (im_assign_spec (me_by_key st) kk h (i_map _ _ _ H)) as (m' & C1 & C2 & C3); [right; unfold ks in Hsz; lia|].
  assert (Epm : pm st' = <[h := o]> (pm st)) by (unfold pm; by rewrite Ep).
  assert (Ecs : cs st' = <[h := core o]> (cs st)) by (unfold cs; by rewrite Epm, fmap_insert).
  assert (Eks : ks st' = <[kk := h]> (ks st)) by (unfold ks; by rewrite Ek, C1).
  assert (Hnc : cs st !! h = None) by (unfold cs; rewrite lookup_fmap; unfold pm; by rewrite Hnew).
  assert (HnF : h ∉ F) by (intros Hin; destruct (i_flight _ _ _ H h Hin) as [[? E] _]; congruence).
  assert (Hnq : forall i s, h ∉ concat (Q i s)).
  { intros i s Hin. apply elem_of_concat in Hin as (k & l & Hk & Hl). destruct (queued_live _ _ _ _ _ _ _ _ H Hk Hl); congruence. }
  split; [|done]. constructor.
  - by rewrite Ep.
  - by rewrite Ek, C1.
  - intros i s. unfold PV. rewrite EV. apply H.
  - intros i s. rewrite EV. apply H.
  - intros i s. rewrite EV, Ecs. apply (reps_keep (pm st) _ (cs st)); [apply H|]. intros i' s' j b y Hb Hy. rewrite Epm.
    rewrite !lookup_insert_ne; [done|..]; intros <-; apply (Hnq i' s'), elem_of_concat; eauto.
  - intros y oy. rewrite Ecs, elem_of_union, elem_of_singleton. intros [[<- _]|[Hne Ho]]%lookup_insert_Some; [tauto|]. destruct (i_live _ _ _ H y oy Ho); tauto.
  - intros y. rewrite Ecs, elem_of_union, elem_of_singleton. intros [-> |Hy].
    + split; [rewrite lookup_insert_eq; by eexists | done].
    + destruct (i_flight _ _ _ H y Hy) as [D1 D2]. split; [|done]. apply lookup_insert_is_Some'. by right.
  - intros y oy. rewrite Ecs. intros [[<- <-]|[Hne Ho]]%lookup_insert_Some; [done | by apply (i_ord _ _ _ H y)].
  - intros k y. rewrite Eks, Ecs, lookup_insert_Some. rewrite (i_keys _ _ _ H k y). split.
    + intros [[<- <-]|(Hne & oy & Ho & Hk)]; [exists (core o); by rewrite lookup_insert_eq|]. exists oy. split; [|done]. rewrite lookup_insert_ne; [done|]. intros <-. congruence.
    + intros (oy & [[<- <-]|[Hne Ho]]%lookup_insert_Some & Hk); [by left|]. right. split; [|eauto]. intros <-.
      assert (ks st !! kk = Some y) by (apply (i_keys _ _ _ H); eauto). congruence.
  - rewrite Eks, Ecs, !map_size_insert_None by done. by rewrite (i_size _ _ _ H).
Qed.

(** *** Steps that only report or count *)

Lemma inv_say st F Q e : inv st F Q -> inv (say e st) F Q.
Proof. by apply sim_inv_frame. Qed.
Lemma inv_mstat st F Q f : inv st F Q -> inv (mstat f st) F Q.
Proof. by apply sim_inv_frame. Qed.
Lemma V_changed st i s l i' s' : V (book_changed i s l st) i' s' = V st i' s'.
Proof. unfold book_changed. change (V (say ?e ?x) i' s') with (V x i' s'). by apply V_bump. Qed.
Lemma V_gone st i s px i' s' : V (book_level_gone i s px st) i' s' = V st i' s'.
Proof. unfold book_level_gone. change (V (say ?e ?x) i' s') with (V x i' s'). by apply V_bump. Qed.
Lemma inv_changed st F Q i s l : inv st F Q -> inv (book_changed i s l st) F Q.
Proof. apply sim_inv_frame; [done | done | intros; apply V_changed]. Qed.
Lemma inv_gone st F Q i s px : inv st F Q -> inv (book_level_gone i s px st) F Q.
Proof. apply sim_inv_frame; [done | done | intros; apply V_gone]. Qed.
Lemma inv_fill_booked st F Q maker taker px q : inv st F Q -> inv (record_fill maker taker px q st) F Q.
Proof. by apply sim_inv_frame. Qed.
End inv.
