(* ===== verification/MatchingOps.v ===== *)
(** * MatchingOps: quantities, ledgers and reports of the simulated exchange

    On top of the structure: every level shows the sum of what its orders have left, the ledgers add up
    to what the fill reports say, and the depth reports replay to the levels.  [E] is a level whose
    depth is not reported yet, [X] holds orders that may have nothing left. *)

From S2P Require Import Prelude Types FixedPoint MapSum L2Book L2BookProps Interfaces Matching MatchingBook MatchingInv.

#[local] Arguments i64 : simpl never.
#[local] Arguments u32 : simpl never.
#[local] Arguments u64 : simpl never.
#[local] Arguments kNullHandle : simpl never.

(** ** What the reports say *)

Definition vol (log : list sim_event) : Z := lsum (fun e => match e with EvFill _ _ _ q _ => q | _ => 0 end) log.
Definition turnover (log : list sim_event) : Z := lsum (fun e => match e with EvFill _ _ px q _ => mul px q | _ => 0 end) log.

(** The quantity last reported at a price. *)
Definition depth_step (i : InstrumentId) (s : Side) (px : Price) (q : Qty) (e : sim_event) : Qty :=
  match e with EvBook i' s' px' q' _ => if (i' =? i) && bool_decide (s' = s) && (px' =? px) then q' else q | _ => q end.
Definition depth_of (log : list sim_event) (i : InstrumentId) (s : Side) (px : Price) : Qty := fold_left (depth_step i s px) log 0.
Lemma depth_snoc log e i s px : depth_of (log ++ [e]) i s px = depth_step i s px (depth_of log i s px) e.
Proof. unfold depth_of. by rewrite fold_left_app. Qed.

(** The update ids reported for an instrument, in order. *)
Definition ids_of (log : list sim_event) (i : InstrumentId) : list Z :=
  omap (fun e => match e with EvBook i' _ _ _ u => if i' =? i then Some u else None | _ => None end) log.

Definition is_book (e : sim_event) : bool := match e with EvBook _ _ _ _ _ => true | _ => false end.
Definition is_fill (e : sim_event) : bool := match e with EvFill _ _ _ _ _ => true | _ => false end.

(** ** Sums of what is left *)

Definition lat (c : gmap Z SimOrder) (h : Z) : Qty := leaves (default no_sim (c !! h)).
Definition qty_ok (c : gmap Z SimOrder) (W : Z -> Side -> list Level) (Q : Z -> Side -> list (list Z)) : Prop :=
  forall i s, Forall2 (fun lv l => l_qty lv = i64 (lsum (lat c) l)) (W i s) (Q i s).

Lemma lsum_eq {A} (f g : A -> Z) l : (forall x, x ∈ l -> f x = g x) -> lsum f l = lsum g l.
Proof.
  intros E. induction l as [|x l IH]; [done|]. unfold lsum in *. cbn [foldr]. rewrite (E x) by constructor. f_equal. apply IH. intros y Hy. apply E. by constructor.
Qed.
Lemma qty_ext c c' W W' Q Q' : (forall i s, W' i s = W i s) -> (forall i s, Q' i s = Q i s) -> (forall i s h, h ∈ concat (Q i s) -> lat c' h = lat c h) -> qty_ok c W Q -> qty_ok c' W' Q'.
Proof.
  intros EW EQ Ec H i s. rewrite EW, EQ. apply Forall2_same_length_lookup. split; [by apply (Forall2_length _ _ _ (H i s))|].
  intros k lv l Hlv Hl. rewrite (Forall2_lookup_lr _ _ _ _ _ _ (H i s) Hlv Hl). f_equal. apply lsum_eq. intros h Hh. symmetry. apply (Ec i s). apply elem_of_concat. eauto.
Qed.
(** One level and its queue rewritten. *)
Lemma qty_change c c' W Q i s k lv' l' : qty_ok c W Q -> (k < length (Q i s))%nat -> l_qty lv' = i64 (lsum (lat c') l') ->
  (forall i' s' j b h, ~ (i' = i /\ s' = s /\ j = k) -> Q i' s' !! j = Some b -> h ∈ b -> lat c' h = lat c h) ->
  qty_ok c' (upd W i s (<[k := lv']> (W i s))) (upd Q i s (<[k := l']> (Q i s))).
Proof.
  intros H Hk Hnew Hoth i' s'. pose proof (Forall2_length _ _ _ (H i s)) as Hlen.
  assert (Hkeep : forall j a b, ~ (i' = i /\ s' = s /\ j = k) -> W i' s' !! j = Some a -> Q i' s' !! j = Some b -> l_qty a = i64 (lsum (lat c') b)).
  { intros j a b Hne Ha Hb. rewrite (Forall2_lookup_lr _ _ _ _ _ _ (H i' s') Ha Hb). f_equal. apply lsum_eq. intros h Hh. symmetry. by apply (Hoth i' s' j b). }
  apply Forall2_same_length_lookup. unfold upd. case_decide as E.
  - destruct E as [-> ->]. rewrite !length_insert. split; [done|]. intros j a b Ha Hb. destruct (decide (j = k)) as [-> |Hjk].
    + rewrite list_lookup_insert_eq in Ha by lia. rewrite list_lookup_insert_eq in Hb by lia. by simplify_eq.
    + rewrite list_lookup_insert_ne in Ha by done. rewrite list_lookup_insert_ne in Hb by done. apply (Hkeep j); [tauto | done | done].
  - split; [by apply (Forall2_length _ _ _ (H i' s'))|]. intros j a b Ha Hb. apply (Hkeep j); [tauto | done | done].
Qed.
Lemma lsum_mid f (l1 l2 : list Z) x : lsum f (l1 ++ x :: l2) = lsum f (l1 ++ l2) + f x.
Proof. rewrite !lsum_app. unfold lsum. cbn [foldr]. lia. Qed.

Section ops.
Context {M P : Type} `{!IdMapOps M, !IdMap M} `{!ObjPoolOps P SimOrder, !ObjPool P SimOrder}.
Abbreviation Engine := (MatchingEngine M P).
Implicit Type st : Engine.

(** ** Ledgers *)

Definition tot (f : AccountLedger -> Z) st : Z := msum (fun _ l => f l) (me_ledgers st).
Record booked st : Prop := {
  b_bought : tot al_bought st =64 vol (me_log st);
  b_sold : tot al_sold st =64 vol (me_log st);
  b_buy_notional : tot al_buy_notional st =64 turnover (me_log st);
  b_sell_notional : tot al_sell_notional st =64 turnover (me_log st);
}.

Lemma tot_put f st k l : f no_ledger = 0 -> tot f (st <| me_ledgers := <[k := l]> (me_ledgers st) |>) = tot f st - f (default no_ledger (me_ledgers st !! k)) + f l.
Proof.
  intros Hf. unfold tot. change (me_ledgers (_ <| me_ledgers := ?m |>)) with m. destruct (me_ledgers st !! k) as [l0|] eqn:E; cbn [default from_option id].
  - by rewrite (msum_update _ _ _ l0).
  - rewrite msum_insert by done. rewrite Hf. lia.
Qed.
Lemma fx_add64 a b : fx_add a b =64 a + b.
Proof. apply i64_eq64. Qed.

(** What booking one side of a fill adds. *)
Lemma tot_book_fill st o n q :
  tot al_bought (book_fill o n q st) =64 tot al_bought st + (match so_side o with Buy => q | Sell => 0 end) /\
  tot al_sold (book_fill o n q st) =64 tot al_sold st + (match so_side o with Buy => 0 | Sell => q end) /\
  tot al_buy_notional (book_fill o n q st) =64 tot al_buy_notional st + (match so_side o with Buy => n | Sell => 0 end) /\
  tot al_sell_notional (book_fill o n q st) =64 tot al_sell_notional st + (match so_side o with Buy => 0 | Sell => n end).
Proof.
  unfold book_fill. rewrite !tot_put by done. fold (ledger st (so_account o)). set (l := ledger st (so_account o)).
  destruct (so_side o); repeat split; cbn; rewrite ?fx_add64; apply eq64_diff; exists 0; lia.
Qed.

(** ** The whole invariant *)

Definition uid st (i : InstrumentId) : Z := sb_update_id (book_at st i).

Record J st (F : gset Z) (Q : Z -> Side -> list (list Z)) (E : option (Z * Side * Z)) (X : gset Z) : Prop := {
  j_inv : inv st F Q;
  j_qty : qty_ok (cs st) (PV st) Q;
  j_pos : forall i s h, h ∈ concat (Q i s) -> h ∉ X -> 0 < lat (cs st) h;
  j_booked : booked st;
  j_depth : forall i s px, E <> Some (i, s, px) -> depth_of (me_log st) i s px = default 0 (price_map (PV st i s) !! px);
  j_ids : forall i, exists n, ids_of (me_log st) i = (fun k => u64 (Z.of_nat k)) <$> seq 1 n /\ uid st i = u64 (Z.of_nat n);
}.

Definition plain (e : sim_event) : Prop := is_book e = false /\ is_fill e = false.
Lemma plain_log log es : Forall plain es -> vol (log ++ es) = vol log /\ turnover (log ++ es) = turnover log /\
  (forall i s px, depth_of (log ++ es) i s px = depth_of log i s px) /\ (forall i, ids_of (log ++ es) i = ids_of log i).
Proof.
  induction es as [|e es IH] using rev_ind; intros Hp; [by rewrite app_nil_r|]. apply Forall_app in Hp as [Hp He]. inversion He as [|? ? [Hb Hf] _]; subst.
  destruct (IH Hp) as (I1 & I2 & I3 & I4). rewrite app_assoc. unfold vol, turnover in *. rewrite !(lsum_app _ (log ++ es)).
  split; [|split; [|split]].
  - rewrite I1. unfold lsum. destruct e; try done; cbn; lia.
  - rewrite I2. unfold lsum. destruct e; try done; cbn; lia.
  - intros i s px. rewrite depth_snoc, I3. by destruct e.
  - intros i. unfold ids_of in *. rewrite omap_app, I4. destruct e; try done; cbn; by rewrite app_nil_r.
Qed.

(** A step that reports neither depth nor fills. *)
Lemma J_move st st' F F' Q Q' E E' X X' es : J st F Q E X -> inv st' F' Q' -> qty_ok (cs st') (PV st') Q' ->
  (forall i s h, h ∈ concat (Q' i s) -> h ∉ X' -> 0 < lat (cs st') h) ->
  me_log st' = me_log st ++ es -> Forall plain es -> me_ledgers st' = me_ledgers st -> (forall i, uid st' i = uid st i) ->
  (forall i s px, E' <> Some (i, s, px) -> E <> Some (i, s, px) /\ default 0 (price_map (PV st' i s) !! px) = default 0 (price_map (PV st i s) !! px)) ->
  J st' F' Q' E' X'.
Proof.
  intros H Hinv Hq Hp Hlog Hes Hl Hu Hd. destruct (plain_log (me_log st) es Hes) as (L1 & L2 & L3 & L4). constructor; try done.
  - destruct (j_booked _ _ _ _ _ H). constructor; unfold tot in *; rewrite Hl, Hlog, ?L1, ?L2; done.
  - intros i s px Hne. destruct (Hd i s px Hne) as [H1 H2]. rewrite Hlog, L3, H2. by apply (j_depth _ _ _ _ _ H).
  - intros i. rewrite Hlog, L4, Hu. apply (j_ids _ _ _ _ _ H).
Qed.
(** ... and changes no order, level or queue. *)
Lemma J_frame st st' F Q E X es : J st F Q E X -> me_pool st' = me_pool st -> me_by_key st' = me_by_key st -> me_books st' = me_books st ->
  me_log st' = me_log st ++ es -> Forall plain es -> me_ledgers st' = me_ledgers st -> J st' F Q E X.
Proof.
  intros H Ep Ek Eb El Hes Elg. assert (Ev : forall i s, V st' i s = V st i s) by (intros; unfold V, book_at; by rewrite Eb).
  assert (Epv : forall i s, PV st' i s = PV st i s) by (intros; unfold PV; by rewrite Ev).
  assert (Ec : cs st' = cs st) by (unfold cs, pm; by rewrite Ep).
  apply (J_move st st' F F Q Q E E X X es H); try done.
  - apply (sim_inv_frame st); try done. apply H.
  - rewrite Ec. apply (qty_ext (cs st) _ (PV st) _ Q Q); try done. apply H.
  - rewrite Ec. apply H.
  - intros i. unfold uid, book_at. by rewrite Eb.
  - intros i s px Hne. by rewrite Epv.
Qed.
Lemma J_say st F Q E X e : plain e -> J st F Q E X -> J (say e st) F Q E X.
Proof. intros He H. apply (J_frame st _ _ _ _ _ [e] H); try done. by apply Forall_singleton. Qed.
Lemma J_mstat st F Q E X f : J st F Q E X -> J (mstat f st) F Q E X.
Proof. intros H. apply (J_frame st _ _ _ _ _ [] H); try done. cbn. by rewrite app_nil_r. Qed.
Lemma J_weaken st F Q E X X' : X ⊆ X' -> J st F Q E X -> J st F Q E X'.
Proof. intros Hx [H1 H2 H3 H4 H5 H6]. constructor; try done. intros i s h Hh Hn. apply (H3 i s); [done|]. intros ?. by apply Hn, Hx. Qed.
Lemma J_exempt st F Q E X : J st F Q None X -> J st F Q E X.
Proof. intros [H1 H2 H3 H4 H5 H6]. constructor; try done. intros i s px _. by apply H5. Qed.

(** *** Update ids *)

Lemma uid_set_levels st i s v i' : uid (set_book st i (sb_set_levels (book_at st i) s v)) i' = uid st i'.
Proof.
  unfold uid, set_book, book_at. cbn. destruct (decide (i' = i)) as [-> |]; [rewrite lookup_insert_eq; by destruct s | by rewrite lookup_insert_ne].
Qed.
Lemma uid_set_lvl st i s k l i' : uid (set_lvl st i s k l) i' = uid st i'.
Proof. apply uid_set_levels. Qed.
Lemma uid_unlink st x i s k i' : uid (unlink x i s k st) i' = uid st i'.
Proof. unfold unlink. destruct (handle_valid (so_prev _)), (handle_valid (so_next _)); cbn [fst snd]; exact (uid_set_lvl _ i s k _ i'). Qed.
Lemma uid_enqueue st h i s k i' : uid (enqueue h i s k st) i' = uid st i'.
Proof. unfold enqueue. destruct (handle_valid (pl_tail _)); exact (uid_set_lvl _ i s k _ i'). Qed.
Lemma uid_erase st i s k i' : uid (set_book st i (sb_erase (book_at st i) s k)) i' = uid st i'.
Proof. apply uid_set_levels. Qed.

(** *** Reading an order *)

Lemma lat_ord st F Q h : inv st F Q -> is_Some (cs st !! h) -> leaves (ord st h) = lat (cs st) h /\ cs st !! h = Some (core (ord st h)) /\ pm st !! h = Some (ord st h).
Proof.
  intros H [c Hc]. pose proof Hc as Hc'. apply cs_lookup in Hc' as (o & Ho & ->). rewrite (ord_lookup st h o (i_pool _ _ _ H) Ho). unfold lat. by rewrite Hc.
Qed.
Lemma leaves_exact o : 0 <= so_cum_qty o <= so_qty o -> so_qty o <= i64_max -> leaves o = so_qty o - so_cum_qty o.
Proof. intros H1 H2. unfold leaves, fx_sub. apply i64_id. width. Qed.
Lemma lat_range st F Q h : inv st F Q -> is_Some (cs st !! h) -> 0 <= lat (cs st) h <= i64_max.
Proof. intros H [c Hc]. destruct (i_ord _ _ _ H h c Hc) as [A B]. unfold lat. rewrite Hc. cbn [default from_option id]. rewrite leaves_exact by done. lia. Qed.

(** *** Orders leave a level *)

Lemma PV_take st i s k q lv i' s' : V st i s !! k = Some lv ->
  PV (take_level_qty i s k q st) i' s' = upd (PV st) i s (<[k := mkLevel (pl_price lv) (fx_sub (pl_qty lv) q)]> (PV st i s)) i' s'.
Proof.
  intros Hk. unfold take_level_qty, PV. rewrite V_set_lvl, (lvl_lookup _ _ _ _ _ Hk). unfold upd. case_decide; [|done]. unfold flat. by rewrite list_fmap_insert.
Qed.
Lemma inv_take st F Q i s k q lv : inv st F Q -> V st i s !! k = Some lv -> inv (take_level_qty i s k q st) F Q.
Proof. intros H Hk. unfold take_level_qty. rewrite (lvl_lookup _ _ _ _ _ Hk). by apply (inv_set_lvl _ _ _ _ _ _ lv). Qed.

(** Elsewhere the depth stays. *)
Lemma depth_put st F Q i s k lv q i' s' px : inv st F Q -> V st i s !! k = Some lv -> Some (i, s, pl_price lv) <> Some (i', s', px) ->
  price_map (upd (PV st) i s (<[k := mkLevel (pl_price lv) q]> (PV st i s)) i' s') !! px = price_map (PV st i' s') !! px.
Proof.
  intros H Hk Hne. unfold upd. case_decide as E; [destruct E as [-> ->]|done]. pose proof (PV_lookup _ _ _ _ _ Hk) as Hp.
  pose proof (lookup_splits _ _ _ _ (i_sorted _ _ _ H i s) Hp) as Hsp. destruct (update_side _ _ _ q _ (i_sorted _ _ _ H i s) Hsp) as [_ Hu].
  change (l_price (flat1 lv)) with (pl_price lv) in Hu. rewrite Hu. rewrite lookup_insert_ne; [done|]. intros <-. done.
Qed.

Lemma J_pull st F Q E X i s k l1 x l2 lv : J st F Q E X -> Q i s !! k = Some (l1 ++ x :: l2) -> V st i s !! k = Some lv -> E = Some (i, s, pl_price lv) ->
  let st' := unlink x i s k (take_level_qty i s k (leaves (ord st x)) st) in
  J st' ({[x]} ∪ F) (upd Q i s (<[k := l1 ++ l2]> (Q i s))) E (X ∖ {[x]}) /\ cs st' = cs st /\
  forall i' s', PV st' i' s' = upd (PV st) i s (<[k := mkLevel (pl_price lv) (fx_sub (pl_qty lv) (lat (cs st) x))]> (PV st i s)) i' s'.
Proof.
  intros H Hk Hlv -> st'. pose proof (j_inv _ _ _ _ _ H) as Hi. pose proof (queued_live _ _ _ _ _ _ _ _ Hi Hk (elem_at _ _ _)) as Hx.
  destruct (lat_ord _ _ _ _ Hi Hx) as (Hl & _ & _). set (q := leaves (ord st x)) in *. unfold st'. set (st1 := take_level_qty i s k q st).
  pose proof (inv_take st F Q i s k q lv Hi Hlv) as Hi1. fold st1 in Hi1. destruct (inv_unlink st1 F Q i s k l1 x l2 Hi1 Hk) as (Hi2 & Ec & Ep).
  change (cs st1) with (cs st) in Ec. assert (Ep' : forall i' s', PV (unlink x i s k st1) i' s' = upd (PV st) i s (<[k := mkLevel (pl_price lv) (fx_sub (pl_qty lv) (lat (cs st) x))]> (PV st i s)) i' s').
  { intros i' s'. rewrite Ep. unfold st1. rewrite (PV_take _ _ _ _ _ lv) by done. by rewrite Hl. }
  pose proof (unlink_aux st1 x i s k) as Ea. unfold aux in Ea. split; [|done].
  apply (J_move st _ F _ Q _ (Some (i, s, pl_price lv)) _ X _ []); try done.
  - rewrite Ec. eapply qty_ext; [exact Ep' | done | done|]. apply (qty_change (cs st) _ (PV st)); [apply H | by apply lookup_lt_Some in Hk | | done].
    cbn [l_qty]. pose proof (Forall2_lookup_lr _ _ _ _ _ _ (j_qty _ _ _ _ _ H i s) (PV_lookup _ _ _ _ _ Hlv) Hk) as Hq. cbn [flat1 l_qty] in Hq.
    rewrite Hq. unfold fx_sub. rewrite lsum_mid. apply i64_proper. rewrite i64_eq64. apply eq64_diff. exists 0. lia.
  - intros i' s' h Hh Hn. rewrite Ec. apply (concat_upd_remove _ _ _ _ _ _ _ _ _ _ _ _ Hi Hk) in Hh as [Hh Hne]. apply (j_pos _ _ _ _ _ H i' s'); [done|].
    intros HX. apply Hn. apply elem_of_difference. split; [done|]. by rewrite elem_of_singleton.
  - rewrite app_nil_r. change (me_log st) with (me_log st1). congruence.
  - change (me_ledgers st) with (me_ledgers st1). congruence.
  - intros i'. rewrite uid_unlink. unfold st1, take_level_qty. apply uid_set_lvl.
  - intros i' s' px Hne. split; [done|]. rewrite Ep'. by rewrite (depth_put _ _ _ _ _ _ _ _ _ _ _ Hi Hlv Hne).
Qed.

(** An order with nothing left leaves the level as it is. *)
Lemma J_unlink_done st F Q E X i s k l1 x l2 : J st F Q E X -> Q i s !! k = Some (l1 ++ x :: l2) -> lat (cs st) x = 0 ->
  J (unlink x i s k st) ({[x]} ∪ F) (upd Q i s (<[k := l1 ++ l2]> (Q i s))) E (X ∖ {[x]}) /\ cs (unlink x i s k st) = cs st /\
  forall i' s', PV (unlink x i s k st) i' s' = PV st i' s'.
Proof.
  intros H Hk Hx0. pose proof (j_inv _ _ _ _ _ H) as Hi. destruct (inv_unlink st F Q i s k l1 x l2 Hi Hk) as (Hi2 & Ec & Ep).
  destruct (rep_lookup _ _ _ _ _ _ _ Hi Hk) as (lv & Hlv & _). pose proof (unlink_aux st x i s k) as Ea. unfold aux in Ea. split; [|done].
  apply (J_move st _ F _ Q _ E _ X _ []); try done.
  - rewrite Ec. eapply qty_ext; [|done|done|].
    2: { apply (qty_change (cs st) _ (PV st) Q i s k (flat1 lv)); [apply H | by apply lookup_lt_Some in Hk | | done].
      rewrite (Forall2_lookup_lr _ _ _ _ _ _ (j_qty _ _ _ _ _ H i s) (PV_lookup _ _ _ _ _ Hlv) Hk). f_equal. rewrite lsum_mid, Hx0. lia. }
    intros i' s'. rewrite Ep. unfold upd. case_decide as E'; [destruct E' as [-> ->]|done]. symmetry. by apply list_insert_id, PV_lookup.
  - intros i' s' h Hh Hn. rewrite Ec. apply (concat_upd_remove _ _ _ _ _ _ _ _ _ _ _ _ Hi Hk) in Hh as [Hh Hne]. apply (j_pos _ _ _ _ _ H i' s'); [done|].
    intros HX. apply Hn. apply elem_of_difference. split; [done|]. by rewrite elem_of_singleton.
  - rewrite app_nil_r. congruence.
  - congruence.
  - intros i'. apply uid_unlink.
  - intros i' s' px Hne. split; [done|]. by rewrite Ep.
Qed.

Lemma J_free st F Q E X h : J st F Q E X -> h ∈ F -> J (free_order h st) (F ∖ {[h]}) Q E X /\ cs (free_order h st) = delete h (cs st).
Proof.
  intros H Hh. pose proof (j_inv _ _ _ _ _ H) as Hi. destruct (inv_free st F Q h Hi Hh) as [Hi' Ec]. split; [|done].
  assert (Hlat : forall i s y, y ∈ concat (Q i s) -> lat (cs (free_order h st)) y = lat (cs st) y).
  { intros i s y Hy. unfold lat. rewrite Ec, lookup_delete_ne; [done|]. intros <-. by apply (proj2 (i_flight _ _ _ Hi h Hh) i s). }
  apply (J_move st _ F _ Q _ E _ X _ []); try done.
  - eapply qty_ext; [| |exact Hlat|apply H]; done.
  - intros i s y Hy Hn. rewrite (Hlat i s) by done. by apply (j_pos _ _ _ _ _ H i s).
  - by rewrite app_nil_r.
Qed.

Lemma J_drop_maker st F Q E X i s k l1 x l2 lv why now : J st F Q E X -> Q i s !! k = Some (l1 ++ x :: l2) -> V st i s !! k = Some lv -> E = Some (i, s, pl_price lv) ->
  let st' := drop_maker x i s k why now st in
  J st' F (upd Q i s (<[k := l1 ++ l2]> (Q i s))) E X /\ cs st' = delete x (cs st) /\
  forall i' s', PV st' i' s' = upd (PV st) i s (<[k := mkLevel (pl_price lv) (fx_sub (pl_qty lv) (lat (cs st) x))]> (PV st i s)) i' s'.
Proof.
  intros H Hk Hlv HE st'. destruct (J_pull st F Q E X i s k l1 x l2 lv H Hk Hlv HE) as (H1 & Ec & Ep). unfold st', drop_maker.
  set (st1 := unlink x i s k _) in *. apply (J_say _ _ _ _ _ (EvCancel (ord st1 x) why now)) in H1; [|done].
  assert (HxF : x ∉ F) by (intros Hin; by apply (flight_not_queued _ _ _ _ _ _ _ _ (j_inv _ _ _ _ _ H) Hin Hk), elem_at).
  destruct (J_free _ _ _ _ _ x H1) as [H2 Ec2]; [set_solver|]. rewrite difference_union_distr_l_L, difference_diag_L, union_empty_l_L, difference_disjoint_L in H2 by set_solver.
  split; [|split; [rewrite Ec2; change (cs (say ?e ?y)) with (cs y); by rewrite Ec | intros i' s'; rewrite <- Ep; done]].
  eapply J_weaken; [|exact H2]. set_solver.
Qed.

(** *** A fill *)

Definition filled_by (o : SimOrder) (q : Qty) : SimOrder := o <| so_cum_qty ::= fun x => fx_add x q |>.
(** The state of [sweep] after the maker [x] trades [q] with the taker [th]. *)
Definition fill_state (th x : Z) (i : InstrumentId) (s : Side) (k : nat) (px : Price) (now : Timestamp) (q : Qty) st : Engine :=
  let maker := filled_by (ord st x) q in
  let taker := filled_by (ord st th) q in
  let st := record_fill maker taker px q (take_level_qty i s k q (put_ord (put_ord st x maker) th taker)) in
  let st := say (EvFill maker taker px q now) st in
  let st := say (EvTrade (so_instrument taker) px q (so_side taker) (me_next_trade_id st) now) st in
  st <| me_next_trade_id ::= bump |>.

Lemma filled_by_cum st F Q h q : inv st F Q -> is_Some (cs st !! h) -> 0 <= q <= lat (cs st) h ->
  so_cum_qty (filled_by (ord st h) q) = so_cum_qty (ord st h) + q /\ leaves (filled_by (ord st h) q) = lat (cs st) h - q /\
  0 <= so_cum_qty (filled_by (ord st h) q) <= so_qty (filled_by (ord st h) q) /\ so_qty (filled_by (ord st h) q) <= i64_max.
Proof.
  intros H Hs Hq. destruct (lat_ord _ _ _ _ H Hs) as (Hl & Hc & _). destruct (i_ord _ _ _ H h _ Hc) as [A B].
  change (so_cum_qty (core (ord st h))) with (so_cum_qty (ord st h)) in A. change (so_qty (core (ord st h))) with (so_qty (ord st h)) in A, B.
  rewrite <- Hl, leaves_exact in Hq by done. assert (Ec : so_cum_qty (filled_by (ord st h) q) = so_cum_qty (ord st h) + q) by (cbn; unfold fx_add; apply i64_id; width).
  assert (Eq : so_qty (filled_by (ord st h) q) = so_qty (ord st h)) by done. rewrite <- Hl. rewrite !leaves_exact by (rewrite ?Ec, ?Eq; lia). rewrite Ec, Eq. lia.
Qed.

Lemma vol_snoc log e : vol (log ++ [e]) = vol log + match e with EvFill _ _ _ q _ => q | _ => 0 end.
Proof. unfold vol. rewrite lsum_app. unfold lsum at 2. cbn. lia. Qed.
Lemma turnover_snoc log e : turnover (log ++ [e]) = turnover log + match e with EvFill _ _ px q _ => mul px q | _ => 0 end.
Proof. unfold turnover. rewrite lsum_app. unfold lsum at 2. cbn. lia. Qed.

(** Both sides of a fill are booked, and reported once. *)
Lemma booked_fill st st' maker taker px q e now : booked st -> so_side taker = opposite (so_side maker) ->
  me_ledgers st' = me_ledgers (record_fill maker taker px q st) -> me_log st' = (me_log st ++ [EvFill maker taker px q now]) ++ [e] -> is_fill e = false -> booked st'.
Proof.
  intros [B1 B2 B3 B4] Hs El Elog He. unfold record_fill in El. set (st1 := mstat _ st) in *. change (me_ledgers st) with (me_ledgers st1) in *.
  destruct (tot_book_fill st1 maker (mul px q) q) as (A1 & A2 & A3 & A4). destruct (tot_book_fill (book_fill maker (mul px q) q st1) taker (mul px q) q) as (C1 & C2 & C3 & C4).
  assert (Ev : vol (me_log st') = vol (me_log st) + q) by (rewrite Elog, !vol_snoc; destruct e; try done; lia).
  assert (Et : turnover (me_log st') = turnover (me_log st) + mul px q) by (rewrite Elog, !turnover_snoc; destruct e; try done; lia).
  assert (Etot : forall f, tot f st' = tot f (book_fill taker (mul px q) q (book_fill maker (mul px q) q st1))) by (intros; unfold tot; by rewrite El).
  assert (Etot1 : forall f, tot f st1 = tot f st) by done. rewrite Etot1 in A1, A2, A3, A4.
  constructor; rewrite Etot, ?Ev, ?Et.
  - rewrite C1, A1, B1, Hs. destruct (so_side maker); cbn [opposite]; apply eq64_diff; exists 0; lia.
  - rewrite C2, A2, B2, Hs. destruct (so_side maker); cbn [opposite]; apply eq64_diff; exists 0; lia.
  - rewrite C3, A3, B3, Hs. destruct (so_side maker); cbn [opposite]; apply eq64_diff; exists 0; lia.
  - rewrite C4, A4, B4, Hs. destruct (so_side maker); cbn [opposite]; apply eq64_diff; exists 0; lia.
Qed.

Lemma inv_fill st F Q i s k l x th lv px now q : inv st F Q -> th ∈ F -> Q i s !! k = Some l -> x ∈ l -> V st i s !! k = Some lv ->
  0 <= q <= lat (cs st) x -> q <= lat (cs st) th ->
  let st' := fill_state th x i s k px now q st in
  inv st' F Q /\ cs st' = <[th := core (filled_by (ord st th) q)]> (<[x := core (filled_by (ord st x) q)]> (cs st)) /\
  forall i' s', PV st' i' s' = upd (PV st) i s (<[k := mkLevel (pl_price lv) (fx_sub (pl_qty lv) q)]> (PV st i s)) i' s'.
Proof.
  intros H Ht Hk Hx Hlv Hqx Hqt. cbv zeta. pose proof (queued_live _ _ _ _ _ _ _ _ H Hk Hx) as Lx. destruct (i_flight _ _ _ H th Ht) as [Lt _].
  destruct (lat_ord _ _ _ _ H Lx) as (_ & Cx & Px). destruct (lat_ord _ _ _ _ H Lt) as (_ & Ct & Pt).
  assert (Hne : x <> th) by (intros ->; by apply (flight_not_queued _ _ _ _ _ _ _ _ H Ht Hk)).
  destruct (filled_by_cum _ _ _ x q H Lx Hqx) as (_ & _ & X1 & X2). destruct (filled_by_cum _ _ _ th q H Lt ltac:(lia)) as (_ & _ & T1 & T2).
  destruct (inv_put st F Q x (ord st x) (filled_by (ord st x) q) H Px) as (H1 & P1 & C1); try done.
  destruct (inv_put (put_ord st x (filled_by (ord st x) q)) F Q th (ord st th) (filled_by (ord st th) q) H1) as (H2 & P2 & C2); try done.
  { rewrite P1. by rewrite lookup_insert_ne. }
  set (st2 := put_ord (put_ord st x _) th _) in *. assert (Hlv2 : V st2 i s !! k = Some lv) by exact Hlv.
  pose proof (inv_take st2 F Q i s k q lv H2 Hlv2) as H3. unfold fill_state. fold st2.
  split; [by apply (sim_inv_frame (take_level_qty i s k q st2))|]. split; [transitivity (cs st2); [done|]; by rewrite C2, C1|].
  intros i' s'. transitivity (PV (take_level_qty i s k q st2) i' s'); [done|]. by rewrite (PV_take st2 _ _ _ _ lv).
Qed.

Lemma J_fill st F Q X i s k l x th lv now q : J st F Q (Some (i, s, pl_price lv)) X -> th ∈ F -> Q i s !! k = Some l -> x ∈ l -> V st i s !! k = Some lv ->
  so_side (ord st th) = opposite s -> 0 <= q <= lat (cs st) x -> q <= lat (cs st) th ->
  let st' := fill_state th x i s k (pl_price lv) now q st in
  J st' F Q (Some (i, s, pl_price lv)) ({[x]} ∪ X) /\
  cs st' = <[th := core (filled_by (ord st th) q)]> (<[x := core (filled_by (ord st x) q)]> (cs st)) /\
  lat (cs st') x = lat (cs st) x - q /\ lat (cs st') th = lat (cs st) th - q /\
  forall i' s', PV st' i' s' = upd (PV st) i s (<[k := mkLevel (pl_price lv) (fx_sub (pl_qty lv) q)]> (PV st i s)) i' s'.
Proof.
  intros HJ Ht Hk Hx Hlv Hside Hqx Hqt st'. pose proof (j_inv _ _ _ _ _ HJ) as H.
  destruct (inv_fill st F Q i s k l x th lv (pl_price lv) now q H Ht Hk Hx Hlv Hqx Hqt) as (H' & Ec & Ep). fold st' in H', Ec, Ep.
  pose proof (queued_live _ _ _ _ _ _ _ _ H Hk Hx) as Lx. destruct (i_flight _ _ _ H th Ht) as [Lt _].
  assert (Hne : x <> th) by (intros ->; by apply (flight_not_queued _ _ _ _ _ _ _ _ H Ht Hk)).
  destruct (filled_by_cum _ _ _ x q H Lx Hqx) as (_ & X1 & _ & _). destruct (filled_by_cum _ _ _ th q H Lt ltac:(lia)) as (_ & T1 & _ & _).
  assert (Lx' : lat (cs st') x = lat (cs st) x - q) by (unfold lat at 1; rewrite Ec, lookup_insert_ne, lookup_insert_eq by done; exact X1).
  assert (Lt' : lat (cs st') th = lat (cs st) th - q) by (unfold lat at 1; rewrite Ec, lookup_insert_eq; exact T1).
  assert (Lo : forall y, y <> x -> y <> th -> lat (cs st') y = lat (cs st) y) by (intros y H1 H2; unfold lat; by rewrite Ec, !lookup_insert_ne).
  assert (Hmaker : so_side (ord st x) = s).
  { destruct (in_queue _ _ _ _ _ _ _ _ H Hk Hx) as (lv0 & o & _ & Ho & _ & Hs & _). destruct (lat_ord _ _ _ _ H Lx) as (_ & Cx & _). rewrite Cx in Ho. by injection Ho as <-. }
  assert (Hu : forall i', uid st' i' = uid st i') by (intros i'; exact (uid_set_lvl _ i s k _ i')).
  assert (Hlog : me_log st' = (me_log st ++ [EvFill (filled_by (ord st x) q) (filled_by (ord st th) q) (pl_price lv) q now]) ++ [EvTrade (so_instrument (ord st th)) (pl_price lv) q (so_side (ord st th)) (me_next_trade_id st) now]) by done.
  split; [|done]. constructor; [done|..].
  - eapply qty_ext; [exact Ep | | |].
    3: { apply (qty_change (cs st) (cs st') (PV st) Q i s k _ l); [apply HJ | by apply lookup_lt_Some in Hk | |].
      - cbn [l_qty]. pose proof (Forall2_lookup_lr _ _ _ _ _ _ (j_qty _ _ _ _ _ HJ i s) (PV_lookup _ _ _ _ _ Hlv) Hk) as Hq. cbn [flat1 l_qty] in Hq. rewrite Hq.
        destruct (rep_lookup _ _ _ _ _ _ _ H Hk) as (lv0 & _ & Hr). rewrite (lsum_change (lat (cs st)) (lat (cs st')) l x (lr_nodup _ _ _ _ _ _ Hr) Hx).
        + unfold fx_sub. apply i64_proper. rewrite i64_eq64. apply eq64_diff. exists 0. lia.
        + intros y Hy Hyx. apply Lo; [done|]. intros ->. by apply (flight_not_queued _ _ _ _ _ _ _ _ H Ht Hk).
      - intros i' s' j b y Hn Hb Hy. apply Lo; [intros -> | intros ->; by apply (flight_not_queued _ _ _ _ _ _ _ _ H Ht Hb)].
        destruct Hn. by apply (queue_unique _ _ _ i s k l i' s' j b x H). }
    + intros i' s'. unfold upd. case_decide as E; [destruct E as [-> ->]|done]. symmetry. by apply list_insert_id.
    + done.
  - intros i' s' y Hy Hn. rewrite not_elem_of_union, not_elem_of_singleton in Hn. destruct Hn as [Hn1 Hn2]. rewrite Lo; [by apply (j_pos _ _ _ _ _ HJ i' s')|done|].
    intros ->. by apply (proj2 (i_flight _ _ _ H th Ht) i' s').
  - eapply (booked_fill st); [apply HJ | | |exact Hlog|done]; [|done]. cbn. by rewrite Hmaker, Hside.
  - intros i' s' px Hpx. rewrite Hlog, !depth_snoc. cbn [depth_step]. rewrite Ep, (depth_put _ _ _ _ _ _ _ _ _ _ _ H Hlv Hpx). by apply (j_depth _ _ _ _ _ HJ).
  - intros i'. rewrite Hlog, Hu. unfold ids_of. rewrite !omap_app. cbn. rewrite !app_nil_r. apply (j_ids _ _ _ _ _ HJ).
Qed.

(** *** A level reported *)

Lemma u64_succ n : u64 (u64 n + 1) = u64 (n + 1).
Proof. unfold u64. by rewrite Z.add_mod_idemp_l by done. Qed.

Lemma J_report st st' F F' Q Q' E X X' i s px q : J st F Q E X -> inv st' F' Q' -> qty_ok (cs st') (PV st') Q' ->
  (forall i s h, h ∈ concat (Q' i s) -> h ∉ X' -> 0 < lat (cs st') h) ->
  me_log st' = me_log st ++ [EvBook i s px q (u64 (uid st i + 1))] -> me_ledgers st' = me_ledgers st ->
  (forall i', uid st' i' = if decide (i' = i) then u64 (uid st i + 1) else uid st i') ->
  default 0 (price_map (PV st' i s) !! px) = q ->
  (forall i' s' px', Some (i', s', px') <> Some (i, s, px) -> E <> Some (i', s', px') /\ default 0 (price_map (PV st' i' s') !! px') = default 0 (price_map (PV st i' s') !! px')) ->
  J st' F' Q' None X'.
Proof.
  intros H Hi Hq Hp Hlog Hl Hu Hd Ho. constructor; try done.
  - destruct (j_booked _ _ _ _ _ H). constructor; unfold tot in *; rewrite Hl, Hlog, ?vol_snoc, ?turnover_snoc, Z.add_0_r; done.
  - intros i' s' px' _. rewrite Hlog, depth_snoc. cbn [depth_step]. destruct ((i =? i') && bool_decide (s = s') && (px =? px')) eqn:E1.
    + apply andb_true_iff in E1 as [[E1 E2%bool_decide_eq_true]%andb_true_iff E3]. assert (i' = i) as -> by lia. assert (px' = px) as -> by lia. by subst s'.
    + assert (Hne : Some (i', s', px') <> Some (i, s, px)).
      { intros [= -> -> ->]. rewrite !Z.eqb_refl, bool_decide_true in E1; done. }
      destruct (Ho i' s' px' Hne) as [H1 H2]. rewrite H2. by apply (j_depth _ _ _ _ _ H).
  - intros i'. destruct (j_ids _ _ _ _ _ H i') as (n & N1 & N2). rewrite Hlog, Hu. unfold ids_of. rewrite omap_app. fold (ids_of (me_log st) i'). rewrite N1.
    destruct (decide (i' = i)) as [-> |Hne]; cbn.
    + rewrite Z.eqb_refl. exists (S n). rewrite seq_S, fmap_app, N2, u64_succ. cbn. split; [|f_equal; lia]. do 2 f_equal. f_equal. lia.
    + destruct (Z.eqb_spec i i') as [->|_]; [done|]. exists n. by rewrite app_nil_r.
Qed.

Lemma uid_bump st i b i' : book_at st i = b -> uid (set_book st i (b <| sb_update_id := u64 (sb_update_id b + 1) |>)) i' = if decide (i' = i) then u64 (uid st i + 1) else uid st i'.
Proof. intros <-. unfold uid, set_book, book_at. cbn. case_decide; [subst; by rewrite lookup_insert_eq | by rewrite lookup_insert_ne]. Qed.

Lemma price_at st F Q i s k lv : inv st F Q -> V st i s !! k = Some lv -> price_map (PV st i s) !! pl_price lv = Some (pl_qty lv).
Proof.
  intros H Hk. pose proof (PV_lookup _ _ _ _ _ Hk) as Hp. pose proof (lookup_splits _ _ _ _ (i_sorted _ _ _ H i s) Hp) as Hsp.
  destruct (splits_at _ _ _ _ _ Hsp eq_refl) as (_ & _ & E). by rewrite (at_lookup _ _ _ Hp) in E.
Qed.

Lemma J_changed st F Q X i s k lv : J st F Q (Some (i, s, pl_price lv)) X -> V st i s !! k = Some lv -> J (book_changed i s lv st) F Q None X.
Proof.
  intros H Hk. pose proof (j_inv _ _ _ _ _ H) as Hi. assert (Ep : forall i' s', PV (book_changed i s lv st) i' s' = PV st i' s') by (intros; unfold PV; by rewrite V_changed).
  apply (J_report st _ F F Q Q (Some (i, s, pl_price lv)) X X i s (pl_price lv) (pl_qty lv) H); try done.
  - by apply inv_changed.
  - apply (qty_ext (cs st) _ (PV st) _ Q Q); try done. apply H.
  - apply H.
  - intros i'. exact (uid_bump st i _ i' eq_refl).
  - rewrite Ep. by rewrite (price_at _ _ _ _ _ _ _ Hi Hk).
  - intros i' s' px' Hne. rewrite Ep. done.
Qed.

Lemma J_gone st F Q X i s k lv : J st F Q (Some (i, s, pl_price lv)) X -> V st i s !! k = Some lv -> Q i s !! k = Some [] ->
  let st1 := book_level_gone i s (pl_price lv) st in let st' := set_book st1 i (sb_erase (book_at st1 i) s k) in
  J st' F (upd Q i s (take k (Q i s) ++ drop (S k) (Q i s))) None X /\ cs st' = cs st /\ forall i' s', PV st' i' s' = upd (PV st) i s (take k (PV st i s) ++ drop (S k) (PV st i s)) i' s'.
Proof.
  intros H Hk Hl st1 st'. pose proof (j_inv _ _ _ _ _ H) as Hi. pose proof (inv_gone st F Q i s (pl_price lv) Hi) as Hi1. fold st1 in Hi1.
  assert (EV1 : forall i' s', V st1 i' s' = V st i' s') by (intros; apply V_gone). assert (Hk1 : V st1 i s !! k = Some lv) by (by rewrite EV1).
  pose proof (inv_erase st1 F Q i s k Hi1 Hl) as Hi2. fold st' in Hi2.
  assert (Ep : forall i' s', PV st' i' s' = upd (PV st) i s (take k (PV st i s) ++ drop (S k) (PV st i s)) i' s').
  { intros i' s'. unfold PV, st'. rewrite (erase_V st1 i s k lv i' s' Hk1). unfold upd. case_decide as E; [destruct E as [-> ->]|by rewrite EV1].
    unfold flat. rewrite fmap_app, fmap_take, fmap_drop, EV1. done. }
  pose proof (lookup_splits _ _ _ _ (i_sorted _ _ _ Hi i s) (PV_lookup _ _ _ _ _ Hk)) as Hsp. destruct (erase_side _ _ _ _ (i_sorted _ _ _ Hi i s) Hsp) as [_ Hmap].
  change (l_price (flat1 lv)) with (pl_price lv) in Hmap. split; [|done].
  assert (HQ : forall i' s' h, h ∈ concat (upd Q i s (take k (Q i s) ++ drop (S k) (Q i s)) i' s') -> h ∈ concat (Q i' s')).
  { intros i' s' h. unfold upd. case_decide as E; [destruct E as [-> ->]|done]. rewrite concat_app, elem_of_app. rewrite !elem_of_concat.
    intros [(j & b & Hj & Hb)|(j & b & Hj & Hb)]; [apply lookup_take_Some in Hj as [Hj _] | rewrite lookup_drop in Hj]; eauto. }
  apply (J_report st _ F F Q _ (Some (i, s, pl_price lv)) X X i s (pl_price lv) 0 H); try done.
  - eapply qty_ext; [exact Ep | done | done|]. intros i' s'. unfold upd. case_decide as E; [destruct E as [-> ->]|apply H].
    apply Forall2_app; [by apply Forall2_take, H | by apply Forall2_drop, H].
  - intros i' s' h Hh. apply (j_pos _ _ _ _ _ H i' s'). by apply HQ.
  - intros i'. unfold st'. rewrite uid_erase. exact (uid_bump st i _ i' eq_refl).
  - rewrite Ep, upd_eq, Hmap, lookup_delete_eq. done.
  - intros i' s' px' Hne. split; [congruence|]. rewrite Ep. unfold upd. case_decide as E; [destruct E as [-> ->]|done]. rewrite Hmap, lookup_delete_ne by congruence. done.
Qed.
End ops.
