(* ===== verification/MatchingMatch.v ===== *)
(** * MatchingMatch: the sweep of a taker through the opposite side

    One turn of the inner loop of [match] on a queue, the walk along a whole queue against the
    reference allocation, and what happens to the level afterwards. *)

From S2P Require Import Prelude Types FixedPoint MapSum L2Book L2BookProps Interfaces Matching MatchingBook MatchingInv MatchingOps.

#[local] Arguments i64 : simpl never.
#[local] Arguments u32 : simpl never.
#[local] Arguments u64 : simpl never.
#[local] Arguments kNullHandle : simpl never.

(** The fills reported: maker, price and quantity. *)
Definition fills_of (log : list sim_event) : list (Z * Price * Qty) :=
  omap (fun e => match e with EvFill maker _ px q _ => Some (so_order_id maker, px, q) | _ => None end) log.
Lemma fills_snoc log e : fills_of (log ++ [e]) = fills_of log ++ match e with EvFill maker _ px q _ => [(so_order_id maker, px, q)] | _ => [] end.
Proof. unfold fills_of. rewrite omap_app. by destruct e. Qed.

(** ** The reference: who trades with whom

    [want] goes to the waiting orders in their order; one of the taker's own account is passed over
    under [CancelMaker] and ends the taker under the other modes of self-trade prevention.  The
    result is the fills, what is still wanted, and whether the taker was ended. *)
Fixpoint alloc (mode : StpMode) (a : AccountId) (want : Qty) (os : list SimOrder) : list (Z * Price * Qty) * Qty * bool :=
  match os with
  | [] => ([], want, false)
  | o :: os =>
    if want <=? 0 then ([], want, false)
    else if negb (bool_decide (mode = StpNone)) && (so_account o =? a) then
      match mode with CancelMaker => alloc mode a want os | _ => ([], want, true) end
    else
      let q := Z.min want (leaves o) in
      let '(fs, w, b) := alloc mode a (want - q) os in ((so_order_id o, so_price o, q) :: fs, w, b)
  end.
Lemma alloc_app mode a want l1 l2 : alloc mode a want (l1 ++ l2) =
  let '(f1, w1, b1) := alloc mode a want l1 in if b1 then (f1, w1, true) else let '(f2, w2, b2) := alloc mode a w1 l2 in (f1 ++ f2, w2, b2).
Proof.
  revert want. induction l1 as [|o l1 IH]; intros want; cbn [app alloc]; [by destruct (alloc mode a want l2) as [[? ?] ?]|].
  destruct (Z.leb_spec want 0) as [Hw|Hw].
  - destruct l2 as [|o2 l2]; cbn [alloc]; [done|]. by rewrite (proj2 (Z.leb_le want 0) Hw).
  - destruct (negb _ && _); [destruct mode; try done; apply IH|]. rewrite IH. destruct (alloc mode a _ l1) as [[f1 w1] [|]]; [done|]. by destruct (alloc mode a w1 l2) as [[? ?] ?].
Qed.
Lemma alloc_done mode a os : alloc mode a 0 os = ([], 0, false).
Proof. by destruct os. Qed.

Section sweep.
Context {M P : Type} `{!IdMapOps M, !IdMap M} `{!ObjPoolOps P SimOrder, !ObjPool P SimOrder}.
Abbreviation Engine := (MatchingEngine M P).
Implicit Type st : Engine.
Abbreviation queues := (Z -> Side -> list (list Z)) (only parsing).

(** The sink never answers with a negative quantity. *)
Variable reducible : list sim_event -> SimOrder -> Qty.
Hypothesis reducible_nonneg : forall log o, 0 <= reducible log o.

Section level.
Context (th : Z) (t : SimOrder) (mode : StpMode) (i : InstrumentId) (ms : Side) (k : nat) (px : Price) (now : Timestamp).
Hypothesis taker_side : so_side t = opposite ms.

(** The taker has [c] executed, and level [k] queues [l]. *)
Record sw st (Q : queues) (l : list Z) (c : Qty) : Prop := {
  w_J : J st {[th]} Q (Some (i, ms, px)) ∅;
  w_lv : exists lv, V st i ms !! k = Some lv /\ pl_price lv = px;
  w_q : Q i ms !! k = Some l;
  w_t : cs st !! th = Some (t <| so_cum_qty := c |>);
}.
Record moved st Q st' Q' l c : Prop := {
  m_sw : sw st' Q' l c;
  m_Q : forall i' s', Q' i' s' = upd Q i ms (<[k := l]> (Q i ms)) i' s';
  m_px : forall i' s', l_price <$> PV st' i' s' = l_price <$> PV st i' s';
  m_cfg : me_stp st' = me_stp st /\ me_count st' = me_count st;
}.

Lemma price_level st' lv px' s' k' : l_price <$> PV st' i s' = lv -> lv !! k' = Some px' -> exists l, V st' i s' !! k' = Some l /\ pl_price l = px'.
Proof.
  intros <-. rewrite list_lookup_fmap. unfold PV. rewrite flat_lookup. destruct (V st' i s' !! k') as [l|]; [|done]. cbn. intros [= <-]. by exists l.
Qed.
Lemma moved_lv st Q st' l c : sw st Q l c -> (forall i' s', l_price <$> PV st' i' s' = l_price <$> PV st i' s') -> exists lv, V st' i ms !! k = Some lv /\ pl_price lv = px.
Proof.
  intros H E. destruct (w_lv _ _ _ _ H) as (lv & Hlv & Hp). apply (price_level st' _ px ms k (E i ms)). rewrite list_lookup_fmap, (PV_lookup _ _ _ _ _ Hlv). by rewrite <- Hp.
Qed.

Lemma moved_refl st Q l c : sw st Q l c -> moved st Q st Q l c.
Proof.
  intros H. constructor; try done. intros i' s'. unfold upd. case_decide as E; [destruct E as [-> ->]|done]. symmetry. by apply list_insert_id, (w_q _ _ _ _ H).
Qed.
Lemma moved_trans st Q st1 Q1 l1 c1 st2 Q2 l2 c2 : moved st Q st1 Q1 l1 c1 -> moved st1 Q1 st2 Q2 l2 c2 -> moved st Q st2 Q2 l2 c2.
Proof.
  intros [A1 A2 A3 A4] [B1 B2 B3 B4]. constructor; [done| | |destruct A4, B4; split; congruence].
  - intros i' s'. rewrite B2. unfold upd at 1 2. case_decide as E; [|rewrite A2; by rewrite !upd_ne]. destruct E as [-> ->].
    rewrite A2, !upd_eq. apply list_insert_insert_eq.
  - intros i' s'. by rewrite B3, A3.
Qed.

Lemma sw_mstat st Q l c f : sw st Q l c -> sw (mstat f st) Q l c.
Proof. intros [H1 H2 H3 H4]. constructor; [by apply J_mstat | exact H2 | exact H3 | exact H4]. Qed.
Lemma moved_mstat st f Q st' Q' l c : moved (mstat f st) Q st' Q' l c -> moved st Q st' Q' l c.
Proof. intros [H1 H2 H3 H4]. constructor; [exact H1 | exact H2 | exact H3 | exact H4]. Qed.

Lemma px_upd st lv q i' s' : V st i ms !! k = Some lv ->
  l_price <$> upd (PV st) i ms (<[k := mkLevel (pl_price lv) q]> (PV st i ms)) i' s' = l_price <$> PV st i' s'.
Proof.
  intros Hk. unfold upd. case_decide as E; [destruct E as [-> ->]|done]. rewrite list_fmap_insert. apply list_insert_id. rewrite list_lookup_fmap, (PV_lookup _ _ _ _ _ Hk). done.
Qed.

(** The taker as the code reads it. *)
Lemma taker_read st Q l c : sw st Q l c -> core (ord st th) = t <| so_cum_qty := c |> /\ leaves (ord st th) = leaves (t <| so_cum_qty := c |>) /\
  so_reduce_only (ord st th) = so_reduce_only t /\ so_account (ord st th) = so_account t /\ so_side (ord st th) = so_side t /\ lat (cs st) th = leaves (t <| so_cum_qty := c |>).
Proof.
  intros H. destruct (lat_ord st _ _ th (j_inv _ _ _ _ _ (w_J _ _ _ _ H)) ltac:(rewrite (w_t _ _ _ _ H); by eexists)) as (E1 & E2 & _).
  rewrite (w_t _ _ _ _ H) in E2. apply (inj Some) in E2. symmetry in E2. assert (El : lat (cs st) th = leaves (t <| so_cum_qty := c |>)) by (unfold lat; by rewrite (w_t _ _ _ _ H)).
  split; [done|]. split; [by rewrite E1|]. split; [exact (f_equal so_reduce_only E2)|]. split; [exact (f_equal so_account E2)|]. split; [exact (f_equal so_side E2)|done].
Qed.

Lemma head_next st Q don x rest c : sw st Q (don ++ x :: rest) c -> so_next (ord st x) = default kNullHandle (head rest) /\ handle_valid x = true /\ is_Some (cs st !! x) /\ x <> th.
Proof.
  intros H. pose proof (j_inv _ _ _ _ _ (w_J _ _ _ _ H)) as Hi. pose proof (w_q _ _ _ _ H) as Hq. destruct (rep_lookup _ _ _ _ _ _ _ Hi Hq) as (lv & _ & Hr).
  pose proof (queued_live _ _ _ _ _ _ _ _ Hi Hq (elem_at _ _ _)) as Lx. destruct (lat_ord _ _ _ _ Hi Lx) as (_ & _ & Hpm).
  pose proof (lr_seg _ _ _ _ _ _ Hr) as Hs. apply seg_app in Hs as (p & x' & _ & (-> & o & Ho & _ & Hs)). rewrite Hpm in Ho. injection Ho as <-.
  split; [by apply (seg_head _ _ _ _ _ _ Hs)|]. split; [apply (pm_valid st (i_pool _ _ _ Hi)); eauto|]. split; [done|].
  intros ->. apply (flight_not_queued _ _ _ _ _ _ _ _ Hi (proj2 (elem_of_singleton th th) eq_refl) Hq), elem_at.
Qed.

(** The head of the queue leaves. *)
Lemma moved_drop st Q don x rest c why : sw st Q (don ++ x :: rest) c ->
  exists Q', moved st Q (drop_maker x i ms k why now st) Q' (don ++ rest) c /\ cs (drop_maker x i ms k why now st) = delete x (cs st).
Proof.
  intros H. destruct (w_lv _ _ _ _ H) as (lv & Hlv & Hp). pose proof (w_q _ _ _ _ H) as Hq. destruct (head_next _ _ _ _ _ _ H) as (_ & _ & _ & Hne).
  destruct (J_drop_maker st _ Q _ _ i ms k don x rest lv why now (w_J _ _ _ _ H) Hq Hlv) as (H1 & Ec & Ep); [by rewrite Hp|].
  exists (upd Q i ms (<[k := don ++ rest]> (Q i ms))). split; [|done].
  assert (Epx : forall i' s', l_price <$> PV (drop_maker x i ms k why now st) i' s' = l_price <$> PV st i' s') by (intros; rewrite Ep; by apply px_upd).
  constructor; try done.
  - constructor; [done | by apply (moved_lv st Q _ _ _ H) | |].
    + rewrite upd_eq. apply list_lookup_insert_eq. by apply lookup_lt_Some in Hq.
    + rewrite Ec, lookup_delete_ne by done. apply H.
  - unfold drop_maker. set (st1 := take_level_qty _ _ _ _ st). pose proof (unlink_aux st1 x i ms k) as Ea. unfold aux in Ea.
    change (me_stp (free_order x (say ?e ?y))) with (me_stp y). change (me_count (free_order x (say ?e ?y))) with (me_count y).
    change (me_stp st) with (me_stp st1). change (me_count st) with (me_count st1). split; congruence.
Qed.

(** What [sweep] does with the maker after a fill. *)
Definition settle (x : Z) (maker : SimOrder) st : Engine :=
  if leaves maker =? 0 then free_order x (unlink x i ms k st)
  else if so_reduce_only maker && (asks reducible st maker =? 0) then
    drop_maker x i ms k ReducedOut now (mstat (fun s => s <| ms_expired ::= bump |>) st)
  else st.

Lemma fill_taker st Q l c x q : sw st Q l c -> x <> th -> 0 <= q <= lat (cs st) th ->
  cs (fill_state th x i ms k px now q st) = <[th := core (filled_by (ord st th) q)]> (<[x := core (filled_by (ord st x) q)]> (cs st)) ->
  cs (fill_state th x i ms k px now q st) !! th = Some (t <| so_cum_qty := c + q |>).
Proof.
  intros H Hne Hq Ec. destruct (taker_read _ _ _ _ H) as (E & _). rewrite Ec, lookup_insert_eq. f_equal.
  destruct (filled_by_cum st _ _ th q (j_inv _ _ _ _ _ (w_J _ _ _ _ H)) ltac:(rewrite (w_t _ _ _ _ H); by eexists) Hq) as (Ecum & _).
  assert (Ec2 : so_cum_qty (ord st th) = c) by exact (f_equal so_cum_qty E). rewrite Ec2 in Ecum.
  assert (E3 : core (filled_by (ord st th) q) = (core (ord st th)) <| so_cum_qty := so_cum_qty (filled_by (ord st th) q) |>) by done. rewrite E3, Ecum, E. done.
Qed.

Lemma fill_log st x q : fills_of (me_log (fill_state th x i ms k px now q st)) = fills_of (me_log st) ++ [(so_order_id (ord st x), px, q)].
Proof.
  change (me_log (fill_state th x i ms k px now q st)) with ((me_log st ++ [EvFill (filled_by (ord st x) q) (filled_by (ord st th) q) px q now]) ++ [EvTrade (so_instrument (ord st th)) px q (so_side (ord st th)) (me_next_trade_id st) now]).
  rewrite !fills_snoc. by rewrite app_nil_r.
Qed.
Lemma drop_log st x why : fills_of (me_log (drop_maker x i ms k why now st)) = fills_of (me_log st).
Proof.
  unfold drop_maker. set (st1 := take_level_qty _ _ _ _ st). pose proof (unlink_aux st1 x i ms k) as Ea. unfold aux in Ea.
  change (me_log (free_order x (say ?e ?y))) with (me_log y ++ [e]). rewrite fills_snoc, app_nil_r. change (me_log st) with (me_log st1). congruence.
Qed.

Lemma fill_cfg st x q : me_stp (fill_state th x i ms k px now q st) = me_stp st /\ me_count (fill_state th x i ms k px now q st) = me_count st.
Proof. split; reflexivity. Qed.
Lemma free_cfg st x : me_stp (free_order x st) = me_stp st /\ me_count (free_order x st) = me_count st /\ me_log (free_order x st) = me_log st /\ forall i' s', PV (free_order x st) i' s' = PV st i' s'.
Proof. repeat split; reflexivity. Qed.

(** The filled maker is released when nothing is left or nothing more may fill, and stays otherwise. *)
Lemma settle_moved st Q don x rest c maker : J st {[th]} Q (Some (i, ms, px)) ({[x]} ∪ ∅) -> (exists lv, V st i ms !! k = Some lv /\ pl_price lv = px) ->
  Q i ms !! k = Some (don ++ x :: rest) -> cs st !! th = Some (t <| so_cum_qty := c |>) -> x <> th -> leaves maker = lat (cs st) x -> 0 <= leaves maker ->
  exists Q' l', moved st Q (settle x maker st) Q' l' c /\ (l' = don ++ rest \/ l' = don ++ x :: rest) /\
    (lat (cs st) x = 0 -> l' = don ++ rest) /\ (so_reduce_only maker = false -> lat (cs st) x <> 0 -> l' = don ++ x :: rest) /\
    fills_of (me_log (settle x maker st)) = fills_of (me_log st) /\ (forall y, y <> x -> cs (settle x maker st) !! y = cs st !! y).
Proof.
  intros HJ Hlv Hq Ht Hne Hmk Hpos. unfold settle. rewrite Hmk in *. destruct (Z.eqb_spec (lat (cs st) x) 0) as [E0|N0].
  - destruct (J_unlink_done st _ Q _ _ i ms k don x rest HJ Hq E0) as (U1 & U2 & U3). pose proof (unlink_aux st x i ms k) as Ea. unfold aux in Ea.
    set (st2 := unlink x i ms k st) in *. clearbody st2. destruct (free_cfg st2 x) as (K1 & K2 & K3 & K4).
    destruct (J_free st2 _ _ _ _ x U1 ltac:(set_solver)) as [G1 G2]. exists (upd Q i ms (<[k := don ++ rest]> (Q i ms))), (don ++ rest).
    replace (({[x]} ∪ {[th]}) ∖ {[x]}) with ({[th]} : gset Z) in G1 by set_solver. replace (({[x]} ∪ ∅) ∖ {[x]}) with (∅ : gset Z) in G1 by set_solver.
    set (st3 := free_order x st2) in *. clearbody st3.
    assert (Epx : forall i' s', l_price <$> PV st3 i' s' = l_price <$> PV st i' s') by (intros; by rewrite K4, U3).
    split; [constructor; [|done|done|split; congruence]|].
    + constructor; [done | | |by rewrite G2, U2, lookup_delete_ne by done].
      * destruct Hlv as (lv & Hlv & Hp). apply (price_level st3 _ px ms k (Epx i ms)). rewrite list_lookup_fmap, (PV_lookup _ _ _ _ _ Hlv). by rewrite <- Hp.
      * rewrite upd_eq. apply list_lookup_insert_eq. by apply lookup_lt_Some in Hq.
    + split; [by left|]. split; [done|]. split; [done|]. split; [congruence|]. intros y Y. by rewrite G2, U2, lookup_delete_ne by done.
  - assert (HJ1 : J st {[th]} Q (Some (i, ms, px)) ∅).
    { destruct HJ as [A1 A2 A3 A4 A5 A6]. constructor; try done. intros i' s' h Hh _. destruct (decide (h = x)) as [-> |]; [lia|]. apply (A3 i' s'); set_solver. }
    assert (Hsw : sw st Q (don ++ x :: rest) c) by (by constructor). destruct (so_reduce_only maker && _) eqn:Er.
    + destruct (moved_drop _ Q don x rest c ReducedOut (sw_mstat _ _ _ _ (fun s => s <| ms_expired ::= bump |>) Hsw)) as (Q' & D1 & D2). exists Q', (don ++ rest).
      split; [by apply moved_mstat in D1|]. split; [by left|]. split; [done|]. apply andb_true_iff in Er as [Er _]. split; [congruence|].
      split; [by rewrite drop_log|]. intros y Y. by rewrite D2, lookup_delete_ne by done.
    + exists Q, (don ++ x :: rest). split; [by apply moved_refl|]. split; [by right|]. split; [done|]. done.
Qed.

Lemma moved_fill st Q don x rest c q : sw st Q (don ++ x :: rest) c -> 0 < q <= lat (cs st) x -> q <= lat (cs st) th ->
  let st' := settle x (filled_by (ord st x) q) (fill_state th x i ms k px now q st) in
  exists Q' l', moved st Q st' Q' l' (c + q) /\ (l' = don ++ rest \/ l' = don ++ x :: rest) /\
    (lat (cs st) x = q -> l' = don ++ rest) /\ (so_reduce_only (ord st x) = false -> lat (cs st) x <> q -> l' = don ++ x :: rest) /\
    fills_of (me_log st') = fills_of (me_log st) ++ [(so_order_id (ord st x), px, q)] /\
    (forall y, y <> x -> y <> th -> cs st' !! y = cs st !! y).
Proof.
  intros H Hqx Hqt. cbv zeta. pose proof (w_J _ _ _ _ H) as HJ. pose proof (j_inv _ _ _ _ _ HJ) as Hi. pose proof (w_q _ _ _ _ H) as Hq.
  destruct (w_lv _ _ _ _ H) as (lv & Hlv & Hp). destruct (head_next _ _ _ _ _ _ H) as (_ & _ & Lx & Hne). destruct (taker_read _ _ _ _ H) as (_ & _ & _ & _ & Hts & _).
  assert (HJ' : J st {[th]} Q (Some (i, ms, pl_price lv)) ∅) by (by rewrite Hp).
  destruct (J_fill st _ Q _ i ms k _ x th lv now q HJ' (proj2 (elem_of_singleton th th) eq_refl) Hq (elem_at _ _ _) Hlv ltac:(by rewrite Hts) ltac:(lia) Hqt) as (F1 & F2 & F3 & F4 & F5).
  rewrite Hp in F1, F2, F3, F4, F5. pose proof (fill_taker st Q _ c x q H Hne ltac:(lia) F2) as Ht1. pose proof (fill_log st x q) as Hlog1. destruct (fill_cfg st x q) as [K1 K2].
  destruct (filled_by_cum st _ _ x q Hi Lx ltac:(lia)) as (_ & Hmk & _).
  assert (Hro : so_reduce_only (filled_by (ord st x) q) = so_reduce_only (ord st x)) by reflexivity.
  set (st1 := fill_state th x i ms k px now q st) in *. set (maker := filled_by (ord st x) q) in *. clearbody st1.
  assert (Epx : forall i' s', l_price <$> PV st1 i' s' = l_price <$> PV st i' s') by (intros; rewrite F5, <- Hp; by apply px_upd).
  destruct (settle_moved st1 Q don x rest (c + q) maker F1 (moved_lv st Q _ _ _ H Epx) Hq Ht1 Hne ltac:(lia) ltac:(lia)) as (Q' & l' & S1 & S2 & S3 & S4 & S5 & S6).
  exists Q', l'. split; [|split; [done|split; [intros; apply S3; lia|split; [intros; apply S4; [congruence | lia]|split; [congruence|]]]]].
  - destruct S1 as [M1 M2 M3 [M4 M5]]. constructor; [done | done | intros; by rewrite M3, Epx | split; congruence].
  - intros y Y1 Y2. rewrite S6 by done. by rewrite F2, !lookup_insert_ne.
Qed.

Lemma sweep_S fuel idx st : sweep reducible (S fuel) th mode i ms k px now idx st =
  let taker := ord st th in
  if negb (handle_valid idx) || negb (0 <? leaves taker) then (Swept, st)
  else
    let maker := ord st idx in
    let next := so_next maker in
    let q := if so_reduce_only taker then Z.min (leaves taker) (asks reducible st taker) else leaves taker in
    if so_reduce_only taker && (q =? 0) then (TakerReduced, st)
    else if negb (bool_decide (mode = StpNone)) && (so_account maker =? so_account taker) then
      let st1 := mstat (fun s => s <| ms_stp_cancels ::= bump |>) st in
      match mode with
      | CancelTaker => (TakerDone, st1)
      | CancelBoth => (TakerDone, drop_maker idx i ms k Stp now st1)
      | CancelMaker => sweep reducible fuel th mode i ms k px now next (drop_maker idx i ms k Stp now st1)
      | StpNone => sweep reducible fuel th mode i ms k px now next st1
      end
    else
      let m := if so_reduce_only maker then Z.min (leaves maker) (asks reducible st maker) else leaves maker in
      if m =? 0 then sweep reducible fuel th mode i ms k px now next (drop_maker idx i ms k ReducedOut now (mstat (fun s => s <| ms_expired ::= bump |>) st))
      else sweep reducible fuel th mode i ms k px now next (settle idx (filled_by maker (Z.min q m)) (fill_state th idx i ms k px now (Z.min q m) st)).
Proof. cbn [sweep]. cbv zeta. destruct mode; reflexivity. Qed.

(** What a turn on the head [x] of the rest of the queue can do. *)
Inductive turn fuel st (Q : queues) (don : list Z) (x : Z) (rest : list Z) (c : Qty) : swept * Engine -> Prop :=
| TurnReduced : so_reduce_only t = true -> turn fuel st Q don x rest c (TakerReduced, st)
| TurnEnd st1 Q1 l1 : so_account (ord st x) = so_account t -> mode = CancelTaker \/ mode = CancelBoth -> moved st Q st1 Q1 l1 c ->
    fills_of (me_log st1) = fills_of (me_log st) -> (forall y, y <> x -> cs st1 !! y = cs st !! y) -> turn fuel st Q don x rest c (TakerDone, st1)
| TurnDrop st1 Q1 : (so_account (ord st x) = so_account t /\ mode = CancelMaker) \/ so_reduce_only (ord st x) = true -> moved st Q st1 Q1 (don ++ rest) c ->
    fills_of (me_log st1) = fills_of (me_log st) -> (forall y, y <> x -> cs st1 !! y = cs st !! y) ->
    turn fuel st Q don x rest c (sweep reducible fuel th mode i ms k px now (default kNullHandle (head rest)) st1)
| TurnFill st1 Q1 l1 q : negb (bool_decide (mode = StpNone)) && (so_account (ord st x) =? so_account t) = false -> 0 < q <= leaves (t <| so_cum_qty := c |>) ->
    moved st Q st1 Q1 l1 (c + q) -> l1 = don ++ rest \/ l1 = don ++ x :: rest ->
    (so_reduce_only t = false -> so_reduce_only (ord st x) = false ->
      q = Z.min (leaves (t <| so_cum_qty := c |>)) (lat (cs st) x) /\ (lat (cs st) x = q -> l1 = don ++ rest)) ->
    fills_of (me_log st1) = fills_of (me_log st) ++ [(so_order_id (ord st x), px, q)] -> (forall y, y <> x -> y <> th -> cs st1 !! y = cs st !! y) ->
    turn fuel st Q don x rest c (sweep reducible fuel th mode i ms k px now (default kNullHandle (head rest)) st1).

Lemma sweep_turn fuel st Q don x rest c : sw st Q (don ++ x :: rest) c -> 0 < leaves (t <| so_cum_qty := c |>) ->
  turn fuel st Q don x rest c (sweep reducible (S fuel) th mode i ms k px now x st).
Proof.
  intros H Hpos. destruct (head_next _ _ _ _ _ _ H) as (En & Hval & Lx & Hne). destruct (taker_read _ _ _ _ H) as (_ & Et & Ero & Eacc & _ & Elat).
  pose proof (j_inv _ _ _ _ _ (w_J _ _ _ _ H)) as Hi. destruct (lat_ord _ _ _ _ Hi Lx) as (Elx & _ & _).
  assert (Hlx : 0 < lat (cs st) x).
  { apply (j_pos _ _ _ _ _ (w_J _ _ _ _ H) i ms); [|set_solver]. apply elem_of_concat. exists k, (don ++ x :: rest). split; [apply (w_q _ _ _ _ H) | apply elem_at]. }
  rewrite sweep_S. cbv zeta. rewrite Hval, Et, Ero, Eacc, En, Elx. rewrite (proj2 (Z.ltb_lt _ _) Hpos). cbn [negb orb]. set (lt := leaves (t <| so_cum_qty := c |>)) in *.
  set (q := if so_reduce_only t then _ else _). assert (Hq : 0 <= q <= lt) by (unfold q; destruct (so_reduce_only t); [pose proof (reducible_nonneg (me_log st) (ord st th)); unfold asks; lia | lia]).
  destruct (so_reduce_only t && (q =? 0)) eqn:E1; [apply andb_true_iff in E1 as [? _]; by constructor|].
  assert (Hq0 : 0 < q) by (unfold q in *; destruct (so_reduce_only t); cbn [andb] in E1; lia).
  destruct (negb (bool_decide (mode = StpNone)) && (so_account (ord st x) =? so_account t)) eqn:E2.
  - pose proof (sw_mstat _ _ _ _ (fun s => s <| ms_stp_cancels ::= bump |>) H) as H1. apply andb_true_iff in E2 as [E2%negb_true_iff%bool_decide_eq_false E3%Z.eqb_eq].
    destruct (moved_drop _ Q don x rest c Stp H1) as (Q1 & D1 & D2). apply moved_mstat in D1.
    assert (D3 : forall y, y <> x -> cs (drop_maker x i ms k Stp now (mstat (fun s => s <| ms_stp_cancels ::= bump |>) st)) !! y = cs st !! y) by (intros y Hy; by rewrite D2, lookup_delete_ne).
    destruct mode eqn:Em; [done| | |].
    + eapply TurnEnd; [done | by left | | |]; [apply (moved_mstat _ (fun s => s <| ms_stp_cancels ::= bump |>)); by apply moved_refl | done | done].
    + rewrite <- Em. eapply TurnDrop; [by left | done | by rewrite drop_log | done].
    + eapply TurnEnd; [done | by right | done | by rewrite drop_log | done].
  - set (m := if so_reduce_only (ord st x) then _ else _).
    assert (Hm : 0 <= m <= lat (cs st) x) by (unfold m; destruct (so_reduce_only (ord st x)); [pose proof (reducible_nonneg (me_log st) (ord st x)); unfold asks; lia | lia]).
    destruct (Z.eqb_spec m 0) as [Em|Nm].
    + destruct (moved_drop _ Q don x rest c ReducedOut (sw_mstat _ _ _ _ (fun s => s <| ms_expired ::= bump |>) H)) as (Q1 & D1 & D2). apply moved_mstat in D1.
      eapply TurnDrop; [|done|by rewrite drop_log|intros y Hy; by rewrite D2, lookup_delete_ne]. right. unfold m in Em. destruct (so_reduce_only (ord st x)); [done | lia].
    + destruct (moved_fill st Q don x rest c (Z.min q m) H ltac:(lia) ltac:(rewrite Elat; lia)) as (Q1 & l1 & M1 & M2 & M3 & M4 & M5 & M6).
      eapply TurnFill; [done | | exact M1 | done | | done | done]; [lia|]. intros R1 R2. unfold q, m in *. rewrite R1, R2 in *. split; [done|]. intros E. apply M3. lia.
Qed.

Lemma sw_leaves st Q l c : sw st Q l c -> leaves (t <| so_cum_qty := c |>) = so_qty t - c /\ 0 <= c <= so_qty t.
Proof.
  intros H. destruct (i_ord _ _ _ (j_inv _ _ _ _ _ (w_J _ _ _ _ H)) th _ (w_t _ _ _ _ H)) as [A B]. split; [by rewrite leaves_exact | done].
Qed.

(** The orders behind handles. *)
Definition orders_at (c : gmap Z SimOrder) (l : list Z) : list SimOrder := (fun h => default no_sim (c !! h)) <$> l.
Lemma orders_at_ext c c' l : (forall h, h ∈ l -> c' !! h = c !! h) -> orders_at c' l = orders_at c l.
Proof. intros E. apply list_fmap_ext. intros j h Hh. by rewrite E by by apply list_elem_of_lookup_2 in Hh. Qed.

(** What the walk did is what the reference gives. *)
Definition traced st (rest : list Z) (c : Qty) (r : swept) st' (don l' : list Z) (c' : Qty) : Prop :=
  so_reduce_only t = false -> Forall (fun o => so_reduce_only o = false) (orders_at (cs st) rest) ->
  let '(fs, w, b) := alloc mode (so_account t) (so_qty t - c) (orders_at (cs st) rest) in
  fills_of (me_log st') = fills_of (me_log st) ++ fs /\ so_qty t - c' = w /\ r = (if b then TakerDone else Swept) /\ (b = false -> 0 < w -> l' = don).

Lemma sweep_ok fuel : forall idx st Q don rest c, sw st Q (don ++ rest) c -> idx = default kNullHandle (head rest) -> (length rest <= fuel)%nat ->
  exists r st' Q' l' c', sweep reducible fuel th mode i ms k px now idx st = (r, st') /\ moved st Q st' Q' l' c' /\ c <= c' /\
    (r = Swept -> c' = so_qty t \/ c < c' \/ l' = don) /\ (forall y, y ∉ rest -> y <> th -> cs st' !! y = cs st !! y) /\ traced st rest c r st' don l' c'.
Proof.
  induction fuel as [|fuel IH]; intros idx st Q don rest c H Hidx Hlen; destruct (sw_leaves _ _ _ _ H) as [Ell Hc].
  { destruct rest as [|x rest]; [|cbn in Hlen; lia]. rewrite app_nil_r in H. exists Swept, st, Q, don, c. split; [done|]. split; [by apply moved_refl|]. split; [lia|].
    split; [by auto|]. split; [done|]. intros _ _. cbn. by rewrite app_nil_r. }
  destruct rest as [|x rest].
  { rewrite app_nil_r in H. subst idx. exists Swept, st, Q, don, c. split; [done|]. split; [by apply moved_refl|]. split; [lia|].
    split; [by auto|]. split; [done|]. intros _ _. cbn. by rewrite app_nil_r. }
  subst idx. cbn [head default from_option id] in *. destruct (Z.eq_dec c (so_qty t)) as [Ed|Nd].
  { exists Swept, st, Q, (don ++ x :: rest), c. destruct (taker_read _ _ _ _ H) as (_ & Et & _). rewrite sweep_S. cbv zeta. rewrite Et, Ell, (proj2 (Z.ltb_ge 0 (so_qty t - c)) ltac:(lia)).
    cbn [negb]. rewrite orb_true_r. split; [done|]. split; [by apply moved_refl|]. split; [lia|]. split; [by left|]. split; [done|]. intros _ _.
    replace (so_qty t - c) with 0 by lia. rewrite alloc_done, app_nil_r. split; [done|]. split; [lia|]. split; [done|lia]. }
  destruct (head_next _ _ _ _ _ _ H) as (_ & _ & Lx & Hxth). pose proof (j_inv _ _ _ _ _ (w_J _ _ _ _ H)) as Hi. destruct (lat_ord _ _ _ _ Hi Lx) as (Elx & Ecx & _).
  pose proof (w_q _ _ _ _ H) as Hq. destruct (rep_lookup _ _ _ _ _ _ _ Hi Hq) as (lv & Hlv & Hr). pose proof (lr_nodup _ _ _ _ _ _ Hr) as Hnd.
  apply NoDup_app in Hnd as (_ & _ & Hnd). apply NoDup_cons in Hnd as [Hxr Hnd].
  assert (Hpx : so_price (ord st x) = px).
  { destruct (in_queue _ _ _ _ _ _ _ _ Hi Hq (elem_at _ _ _)) as (lv0 & o & E1 & E2 & _ & _ & E3). destruct (w_lv _ _ _ _ H) as (lv1 & E4 & <-).
    rewrite Ecx in E2. apply (inj Some) in E2. rewrite E1 in E4. injection E4 as <-. rewrite <- E3, <- E2. done. }
  assert (Hth : forall y, y ∈ rest -> y <> th).
  { intros y Hy ->. apply (flight_not_queued _ _ _ _ _ _ _ _ Hi (proj2 (elem_of_singleton th th) eq_refl) Hq). apply elem_of_app. right. by constructor. }
  assert (Eo : orders_at (cs st) (x :: rest) = core (ord st x) :: orders_at (cs st) rest) by (unfold orders_at; cbn; by rewrite Ecx).
  assert (Eal : forall want, alloc mode (so_account t) want (orders_at (cs st) (x :: rest)) =
    if want <=? 0 then ([], want, false) else if negb (bool_decide (mode = StpNone)) && (so_account (ord st x) =? so_account t) then
      match mode with CancelMaker => alloc mode (so_account t) want (orders_at (cs st) rest) | _ => ([], want, true) end
    else let q := Z.min want (lat (cs st) x) in let '(fs, w, b) := alloc mode (so_account t) (want - q) (orders_at (cs st) rest) in ((so_order_id (ord st x), px, q) :: fs, w, b)).
  { intros want. rewrite Eo. cbn [alloc]. change (leaves (core (ord st x))) with (leaves (ord st x)). rewrite Elx. change (so_price (core (ord st x))) with (so_price (ord st x)). by rewrite Hpx. }
  destruct (sweep_turn fuel st Q don x rest c H ltac:(lia)) as [Hro|st1 Q1 l1 Hacc Hmode Hmv Hf Hcs|st1 Q1 Hwhy Hmv Hf Hcs|st1 Q1 l1 q Hstp Hqq Hmv Hl1 Hex Hf Hcs].
  - exists TakerReduced, st, Q, (don ++ x :: rest), c. split; [done|]. split; [by apply moved_refl|]. split; [lia|]. split; [done|]. split; [done|]. intros Hn. congruence.
  - exists TakerDone, st1, Q1, l1, c. split; [done|]. split; [done|]. split; [lia|]. split; [done|]. split; [intros y Hy _; apply Hcs; set_solver|].
    intros _ _. rewrite Eal, (proj2 (Z.leb_gt (so_qty t - c) 0) ltac:(lia)), Hacc, Z.eqb_refl. rewrite bool_decide_false by (destruct Hmode; congruence). cbn [negb andb].
    destruct Hmode as [-> | ->]; rewrite app_nil_r; done.
  - destruct (IH _ st1 Q1 don rest c (m_sw _ _ _ _ _ _ Hmv) eq_refl ltac:(cbn in Hlen; lia)) as (r & st' & Q' & l' & c' & E & Hm & Hle & Hsw & Hoth & Htr).
    exists r, st', Q', l', c'. split; [done|]. split; [by apply (moved_trans _ _ _ _ _ _ _ _ _ _ Hmv Hm)|]. split; [done|]. split; [done|].
    split; [intros y Hy Hy2; rewrite Hoth by set_solver; apply Hcs; set_solver|]. intros R1 R2. rewrite Eo in R2. inversion R2 as [|? ? R3 R4]; subst.
    change (so_reduce_only (core (ord st x))) with (so_reduce_only (ord st x)) in R3. destruct Hwhy as [[Hacc Hmode]|]; [|congruence].
    rewrite Eal, (proj2 (Z.leb_gt (so_qty t - c) 0) ltac:(lia)), Hacc, Z.eqb_refl, Hmode. rewrite bool_decide_false by done. cbn [negb andb].
    assert (Eor : orders_at (cs st1) rest = orders_at (cs st) rest) by (apply orders_at_ext; intros h Hh; apply Hcs; set_solver).
    specialize (Htr R1 ltac:(by rewrite Eor)). rewrite Eor, Hmode in Htr. destruct (alloc CancelMaker _ _ _) as [[fs w] b]. by rewrite Hf in Htr.
  - assert (Hrest : exists don', l1 = don' ++ rest /\ (l1 = don ++ rest -> don' = don)).
    { destruct Hl1 as [-> | ->]; [by exists don|]. exists (don ++ [x]). rewrite <- app_assoc. split; [done|]. cbn. intros Eq. apply app_inv_head in Eq. exfalso. apply (f_equal length) in Eq. cbn in Eq. lia. }
    destruct Hrest as (don' & -> & Hdon).
    destruct (IH _ st1 Q1 don' rest (c + q) (m_sw _ _ _ _ _ _ Hmv) eq_refl ltac:(cbn in Hlen; lia)) as (r & st' & Q' & l' & c' & E & Hm & Hle & Hsw & Hoth & Htr).
    exists r, st', Q', l', c'. split; [done|]. split; [by apply (moved_trans _ _ _ _ _ _ _ _ _ _ Hmv Hm)|]. split; [lia|]. split; [intros _; right; left; lia|].
    split; [intros y Hy Hy2; rewrite Hoth by set_solver; apply Hcs; set_solver|]. intros R1 R2. rewrite Eo in R2. inversion R2 as [|? ? R3 R4]; subst.
    change (so_reduce_only (core (ord st x))) with (so_reduce_only (ord st x)) in R3. destruct (Hex R1 R3) as [Eq Hgone]. rewrite Ell in Eq.
    rewrite Eal, (proj2 (Z.leb_gt (so_qty t - c) 0) ltac:(lia)), Hstp. cbv zeta. rewrite <- Eq.
    assert (Eor : orders_at (cs st1) rest = orders_at (cs st) rest) by (apply orders_at_ext; intros h Hh; apply Hcs; [set_solver | by apply Hth]).
    specialize (Htr R1 ltac:(by rewrite Eor)). rewrite Eor in Htr. replace (so_qty t - (c + q)) with (so_qty t - c - q) in Htr by lia.
    assert (Hw0 : q = so_qty t - c -> snd (fst (alloc mode (so_account t) (so_qty t - c - q) (orders_at (cs st) rest))) = 0) by (intros ->; by rewrite Z.sub_diag, alloc_done).
    destruct (alloc mode _ _ _) as [[fs w] b]. rewrite Hf in Htr. destruct Htr as (T1 & T2 & T3 & T4). cbn [fst snd] in Hw0.
    split; [rewrite T1, <- app_assoc; done|]. split; [done|]. split; [done|]. intros Hb Hw. rewrite (T4 Hb Hw). apply Hdon, Hgone. lia.
Qed.

(** What [match] does with the level after the walk. *)
Definition close_level st : Engine :=
  let level := lvl st i ms k in
  if pl_count level =? 0 then let st := book_level_gone i ms px st in set_book st i (sb_erase (book_at st i) ms k) else book_changed i ms level st.

Lemma close_fields st : me_stp (close_level st) = me_stp st /\ me_count (close_level st) = me_count st /\ fills_of (me_log (close_level st)) = fills_of (me_log st).
Proof.
  unfold close_level. destruct (_ =? 0).
  - change (me_log (set_book ?x i ?b)) with (me_log x). unfold book_level_gone. change (me_log (say ?e ?x)) with (me_log x ++ [e]). by rewrite fills_snoc, app_nil_r.
  - unfold book_changed. change (me_log (say ?e ?x)) with (me_log x ++ [e]). by rewrite fills_snoc, app_nil_r.
Qed.
Lemma close_level_ok st Q l c : sw st Q l c -> exists Q', J (close_level st) {[th]} Q' None ∅ /\ cs (close_level st) = cs st /\
  if decide (l = []) then (forall i' s', Q' i' s' = upd Q i ms (take k (Q i ms) ++ drop (S k) (Q i ms)) i' s') /\
    (forall i' s', PV (close_level st) i' s' = upd (PV st) i ms (take k (PV st i ms) ++ drop (S k) (PV st i ms)) i' s')
  else Q' = Q /\ (forall i' s', PV (close_level st) i' s' = PV st i' s').
Proof.
  intros H. destruct (w_lv _ _ _ _ H) as (lv & Hlv & Hp). pose proof (w_J _ _ _ _ H) as HJ. rewrite <- Hp in HJ. pose proof (w_q _ _ _ _ H) as Hq.
  destruct (rep_lookup _ _ _ _ _ _ _ (j_inv _ _ _ _ _ HJ) Hq) as (lv' & Hlv' & Hr). assert (lv' = lv) as -> by congruence.
  unfold close_level. rewrite (lvl_lookup _ _ _ _ _ Hlv), (lr_count _ _ _ _ _ _ Hr). case_decide as E.
  - subst l. change (Z.of_nat (@length Z []) =? 0) with true. cbv iota. rewrite <- Hp. destruct (J_gone st _ Q _ i ms k lv HJ Hlv Hq) as (G1 & G2 & G3).
    eexists. split; [exact G1|]. split; [exact G2|]. split; [done | exact G3].
  - destruct (Z.eqb_spec (Z.of_nat (length l)) 0) as [E0|_]; [destruct l; [done | cbn in E0; lia]|]. exists Q. split; [by apply (J_changed _ _ _ _ _ _ k)|].
    split; [done|]. split; [done|]. intros i' s'. unfold PV. by rewrite V_changed.
Qed.
End level.
End sweep.
