(* ===== verification/MatchingLoop.v ===== *)
(** * MatchingLoop: the loop of [match] over the levels

    Every turn takes a level away or fills some of the taker, so the loop ends; it keeps the books
    well formed and uncrossed, and fills what the reference allocation gives. *)

From S2P Require Import Prelude Types FixedPoint MapSum L2Book L2BookProps Interfaces Matching MatchingBook MatchingInv MatchingOps MatchingMatch.

#[local] Arguments i64 : simpl never.
#[local] Arguments u32 : simpl never.
#[local] Arguments u64 : simpl never.
#[local] Arguments kNullHandle : simpl never.

Section loop.
Context {M P : Type} `{!IdMapOps M, !IdMap M} `{!ObjPoolOps P SimOrder, !ObjPool P SimOrder}.
Abbreviation Engine := (MatchingEngine M P).
Implicit Type st : Engine.
Abbreviation queues := (Z -> Side -> list (list Z)) (only parsing).

Variable reducible : list sim_event -> SimOrder -> Qty.
Hypothesis reducible_nonneg : forall log o, 0 <= reducible log o.



Definition prices st i s : list Price := l_price <$> PV st i s.
Record full st (F : gset Z) (Q : queues) : Prop := {
  f_J : J st F Q None ∅;
  f_nonempty : forall i s, Forall (fun l => l <> []) (Q i s);
  f_uncrossed : forall i b a, b ∈ prices st i Buy -> a ∈ prices st i Sell -> b < a;
}.

(** A level closed after orders left it. *)
Lemma close_full th t i ms k px st Q st1 Q1 l c : (forall i s, Forall (fun l => l <> []) (Q i s)) -> (forall i b a, b ∈ prices st i Buy -> a ∈ prices st i Sell -> b < a) ->
  moved th t i ms k px st Q st1 Q1 l c ->
  exists Q2, full (close_level i ms k px st1) {[th]} Q2 /\ cs (close_level i ms k px st1) = cs st1 /\
    (forall i' s', Q2 i' s' = upd Q i ms (if decide (l = []) then take k (Q i ms) ++ drop (S k) (Q i ms) else <[k := l]> (Q i ms)) i' s') /\
    Z.of_nat (length (V (close_level i ms k px st1) i ms)) = Z.of_nat (length (V st i ms)) - (if decide (l = []) then 1 else 0).
Proof.
  intros Hne Hunc [Msw MQ Mpx _]. destruct (close_level_ok _ _ _ _ _ _ _ _ _ _ Msw) as (Q2 & HJ2 & Ecs & Hcase). set (st2 := close_level i ms k px st1) in *. clearbody st2.
  assert (Hlp : forall j s, length (PV st1 j s) = length (PV st j s)) by (intros j s; by rewrite <- (length_fmap l_price (PV st1 j s)), Mpx, length_fmap).
  assert (Hk : (k < length (PV st1 i ms))%nat).
  { destruct (w_lv _ _ _ _ _ _ _ _ _ _ Msw) as (lv & Hlv & _). unfold PV. rewrite flat_length. by apply lookup_lt_Some in Hlv. }
  assert (EQ : forall i' s', Q2 i' s' = upd Q i ms (if decide (l = []) then take k (Q i ms) ++ drop (S k) (Q i ms) else <[k := l]> (Q i ms)) i' s').
  { intros i' s'. case_decide as E; destruct Hcase as [EQ _].
    - rewrite EQ. unfold upd. case_decide as E2; [destruct E2 as [-> ->]|by rewrite MQ, upd_ne]. rewrite MQ, upd_eq. by rewrite take_insert_ge, drop_insert_lt by lia.
    - by rewrite EQ, MQ. }
  exists Q2. split; [|split; [done|split; [done|]]].
  - constructor; [done| |].
    + intros j s. rewrite EQ. clear EQ Hcase. destruct (decide (l = [])) as [E|E]; unfold upd; (case_decide as E2; [destruct E2 as [-> ->]|apply Hne]); [|by apply Forall_insert].
      apply Forall_app. split; [by apply Forall_take | by apply Forall_drop].
    + assert (Hpr : forall j s p, p ∈ prices st2 j s -> p ∈ prices st j s); [|intros j b a Hb Ha; apply (Hunc j); by apply Hpr].
      intros j s p. unfold prices. rewrite <- Mpx. case_decide as E; destruct Hcase as [_ EP]; rewrite EP; [|done]. unfold upd. case_decide as E2; [destruct E2 as [-> ->]|done].
      rewrite fmap_app, elem_of_app, fmap_take, fmap_drop.
      intros [Hp|Hp]; [by apply elem_of_take in Hp as (? & ? & _); eapply list_elem_of_lookup_2 | apply list_elem_of_lookup in Hp as [n Hp]; rewrite lookup_drop in Hp; by eapply list_elem_of_lookup_2].
  - rewrite <- !flat_length. fold (PV st2 i ms) (PV st i ms). rewrite <- Hlp. case_decide as E; destruct Hcase as [_ EP]; rewrite EP; [|lia]. rewrite upd_eq, length_app, length_take, length_drop. lia.
Qed.

Section taker.
Context (th : Z) (t : SimOrder) (now : Timestamp) (mode : StpMode).
Abbreviation i := (so_instrument t).
Abbreviation ms := (opposite (so_side t)).

(** The taker may trade at [p]. *)
Definition can (p : Price) : bool := bool_decide (so_type t = Market) || crosses (so_side t) (so_price t) p.

Lemma can_mono p p' : better ms p p' = true -> can p = false -> can p' = false.
Proof.
  unfold can, better, crosses. destruct (bool_decide _); [done|]. cbn [orb]. destruct (so_side t); cbn [opposite]; lia.
Qed.

(** The orders the taker meets, in the order it meets them. *)
Definition cands st (Q : queues) : list SimOrder := filter (fun o => can (so_price o) = true) (orders_at (cs st) (concat (rev (Q i ms)))).

Record ml st (Q : queues) (c : Qty) : Prop := {
  l_full : full st {[th]} Q;
  l_taker : cs st !! th = Some (t <| so_cum_qty := c |>);
  l_mode : stp st (so_account t) i = mode;
}.

Lemma stp_cfg st st' a j : me_stp st' = me_stp st -> me_count st' = me_count st -> stp st' a j = stp st a j.
Proof. intros E1 E2. unfold stp. by rewrite E1, E2. Qed.

Lemma taker_ord st Q c : ml st Q c -> core (ord st th) = t <| so_cum_qty := c |> /\ leaves (ord st th) = so_qty t - c /\ 0 <= c <= so_qty t /\ so_qty t <= i64_max.
Proof.
  intros H. pose proof (j_inv _ _ _ _ _ (f_J _ _ _ (l_full _ _ _ H))) as Hi. pose proof (l_taker _ _ _ H) as Ht.
  destruct (lat_ord st _ _ th Hi ltac:(rewrite Ht; by eexists)) as (E1 & E2 & _). rewrite Ht in E2. apply (inj Some) in E2.
  destruct (i_ord _ _ _ Hi th _ Ht) as [A B]. split; [done|]. split; [|done]. rewrite E1. unfold lat. rewrite Ht. exact (leaves_exact _ A B).
Qed.

(** The level at the back of the side is the best, and the first the taker meets. *)
Lemma best_split st Q c lv : ml st Q c -> sb_best (book_at st i) ms = Some lv ->
  let k := (length (sb_levels (book_at st i) ms) - 1)%nat in
  exists l, V st i ms !! k = Some lv /\ Q i ms !! k = Some l /\ l <> [] /\ take k (Q i ms) ++ drop (S k) (Q i ms) = take k (Q i ms) /\ Q i ms = take k (Q i ms) ++ [l] /\
    take k (PV st i ms) ++ drop (S k) (PV st i ms) = take k (PV st i ms) /\ S k = length (V st i ms).
Proof.
  intros H Hb k. pose proof (f_J _ _ _ (l_full _ _ _ H)) as HJ. pose proof (j_inv _ _ _ _ _ HJ) as Hi. unfold sb_best in Hb. fold (V st i ms) in *.
  assert (Hv : V st i ms !! k = Some lv) by (rewrite last_lookup in Hb; unfold k; by rewrite Nat.sub_1_r).
  assert (HS : S k = length (V st i ms)) by (pose proof (lookup_lt_Some _ _ _ Hv); unfold k in *; fold (V st i ms) in *; lia).
  destruct (rep_lookup_l _ _ _ _ _ _ _ Hi Hv) as (l & Hl & Hr). pose proof (Forall2_length _ _ _ (i_rep _ _ _ Hi i ms)) as Hlen.
  exists l. split; [done|]. split; [done|]. split; [by apply (Forall_lookup_1 _ _ _ _ (f_nonempty _ _ _ (l_full _ _ _ H) i ms) Hl)|].
  assert (Ed : drop (S k) (Q i ms) = []) by (apply drop_ge; lia). rewrite Ed, app_nil_r. split; [done|]. split.
  - rewrite <- (take_drop_middle _ _ _ Hl) at 1. by rewrite Ed.
  - rewrite (drop_ge (PV st i ms)) by (unfold PV; rewrite flat_length; lia). by rewrite app_nil_r.
Qed.

Lemma orders_price st F Q j s k l lv : inv st F Q -> Q j s !! k = Some l -> V st j s !! k = Some lv -> Forall (fun o => so_price o = pl_price lv) (orders_at (cs st) l).
Proof.
  intros H Hl Hlv. apply Forall_fmap, Forall_forall. intros h Hh. destruct (in_queue _ _ _ _ _ _ _ _ H Hl Hh) as (lv' & o & E1 & E2 & _ & _ & E3).
  cbn. rewrite E2. cbn. congruence.
Qed.
Lemma orders_app c l1 l2 : orders_at c (l1 ++ l2) = orders_at c l1 ++ orders_at c l2.
Proof. apply fmap_app. Qed.

(** The candidates are the best level's orders and then the rest, when that level can trade. *)
Lemma cands_best st Q c lv l k : ml st Q c -> V st i ms !! k = Some lv -> Q i ms = take k (Q i ms) ++ [l] -> Q i ms !! k = Some l -> can (pl_price lv) = true ->
  cands st Q = orders_at (cs st) l ++ filter (fun o => can (so_price o) = true) (orders_at (cs st) (concat (rev (take k (Q i ms))))).
Proof.
  intros H Hv HQ Hl Hc. unfold cands. rewrite HQ at 1. rewrite rev_app_distr. cbn [rev app concat]. rewrite orders_app, filter_app. f_equal. apply filter_all.
  eapply Forall_impl; [exact (orders_price _ _ _ _ _ _ _ _ (j_inv _ _ _ _ _ (f_J _ _ _ (l_full _ _ _ H))) Hl Hv)|]. cbn. by intros o ->.
Qed.
(** When the best level cannot trade, none can. *)
Lemma cands_none st Q c : ml st Q c -> (forall lv, sb_best (book_at st i) ms = Some lv -> can (pl_price lv) = false) -> cands st Q = [].
Proof.
  intros H Hb. pose proof (j_inv _ _ _ _ _ (f_J _ _ _ (l_full _ _ _ H))) as Hi. unfold cands. apply filter_none. apply Forall_fmap, Forall_forall. intros h Hh. cbn.
  assert (Hh' : h ∈ concat (Q i ms)).
  { apply list_elem_of_In, in_concat in Hh as (l & Hl & Hh). apply list_elem_of_In, in_concat. exists l. split; [by apply in_rev | done]. }
  apply elem_of_concat in Hh' as (j & l & Hj & Hhl). destruct (in_queue _ _ _ _ _ _ _ _ Hi Hj Hhl) as (lv & o & Hv & Ho & _ & _ & Hp). rewrite Ho. cbn. rewrite Hp.
  destruct (last (V st i ms)) as [lb|] eqn:El; [|apply last_None in El; by rewrite El in Hv]. specialize (Hb lb El). intros Hcan.
  rewrite last_lookup in El. pose proof (lookup_lt_Some _ _ _ Hv) as Hlt. destruct (Nat.eq_dec j (pred (length (V st i ms)))) as [-> |Hne]; [rewrite Hv in El; congruence|].
  pose proof (sorted_lookup ms _ j (pred (length (V st i ms))) _ _ (i_sorted _ _ _ Hi i ms) ltac:(lia) (PV_lookup _ _ _ _ _ Hv) (PV_lookup _ _ _ _ _ El)) as W.
  pose proof (can_mono _ _ W Hb) as Hno. change (l_price (flat1 lv)) with (pl_price lv) in Hno. congruence.
Qed.

(** *** One turn *)

Lemma match_step_eq st : match_step reducible th now st =
  let taker := ord st th in
  let i := so_instrument taker in
  let ms := opposite (so_side taker) in
  if negb (0 <? leaves taker) then inr (true, so_cum_qty taker, st)
  else match sb_best (book_at st i) ms with
  | None => inr (true, so_cum_qty taker, st)
  | Some level =>
    if negb (bool_decide (so_type taker = Market)) && negb (crosses (so_side taker) (so_price taker) (pl_price level)) then inr (true, so_cum_qty taker, st)
    else
      let k := (length (sb_levels (book_at st i) ms) - 1)%nat in
      let '(r, st) := sweep reducible (Z.to_nat (pl_count level)) th (stp st (so_account taker) i) i ms k (pl_price level) now (pl_head level) st in
      let st := close_level i ms k (pl_price level) st in
      let expire := let '(f, st) := end_taker th ReducedOut now (mstat (fun s => s <| ms_expired ::= bump |>) st) in inr (false, f, st) in
      match r with
      | TakerDone => let '(f, st) := end_taker th Stp now st in inr (false, f, st)
      | TakerReduced => expire
      | Swept => if so_reduce_only (ord st th) && (0 <? leaves (ord st th)) && (asks reducible st (ord st th) =? 0) then expire else inl st
      end
  end.
Proof. reflexivity. Qed.

(** The taker is released. *)
Lemma end_taker_ok st Q c why : full st {[th]} Q -> cs st !! th = Some (t <| so_cum_qty := c |>) -> exists st', end_taker th why now st = (c, st') /\ full st' ∅ Q /\ fills_of (me_log st') = fills_of (me_log st) /\ me_count st' = me_count st.
Proof.
  intros [HJ Hn Hu] Ht. destruct (lat_ord st _ _ th (j_inv _ _ _ _ _ HJ) ltac:(rewrite Ht; by eexists)) as (_ & E2 & _). rewrite Ht in E2. apply (inj Some) in E2.
  unfold end_taker. assert (Ec : so_cum_qty (ord st th) = c) by exact (f_equal so_cum_qty (eq_sym E2)). rewrite Ec. eexists. split; [reflexivity|].
  set (e := EvCancel (ord st th) why now). assert (He : plain e) by done. assert (Hf : fills_of (me_log (say e st)) = fills_of (me_log st)).
  { change (me_log (say e st)) with (me_log st ++ [e]). rewrite fills_snoc. apply app_nil_r. }
  assert (Epv : forall j s, PV (say e st) j s = PV st j s) by done. assert (Ecnt : me_count (say e st) = me_count st) by done.
  pose proof (J_say st _ _ _ _ e He HJ) as HJ1. set (st1 := say e st) in *. clearbody st1. clear e He.
  destruct (free_cfg st1 th) as (K1 & K2 & K3 & K4). destruct (J_free st1 _ _ _ _ th HJ1 ltac:(set_solver)) as [G1 _].
  replace ({[th]} ∖ {[th]}) with (∅ : gset Z) in G1 by set_solver. set (st2 := free_order th st1) in *. clearbody st2. split; [|split; congruence].
  constructor; [done | done|]. intros j b a. unfold prices. rewrite !K4, !Epv. apply Hu.
Qed.

Definition mu st : Z := leaves (ord st th) + Z.of_nat (length (V st i ms)).

(** After the level is closed the loop can go on. *)
Lemma close_ml st Q c st1 Q1 l c1 lv k : ml st Q c -> V st i ms !! k = Some lv -> S k = length (V st i ms) -> moved th t i ms k (pl_price lv) st Q st1 Q1 l c1 ->
  let st2 := close_level i ms k (pl_price lv) st1 in
  exists Q2, ml st2 Q2 c1 /\ cs st2 = cs st1 /\ fills_of (me_log st2) = fills_of (me_log st1) /\
    (l = [] -> Q2 i ms = take k (Q i ms)) /\ Z.of_nat (length (V st2 i ms)) = Z.of_nat (length (V st i ms)) - (if decide (l = []) then 1 else 0).
Proof.
  intros H Hv HSk Hm st2. destruct (l_full _ _ _ H) as [HJ Hne Hunc]. destruct (close_full _ _ _ _ _ _ _ _ _ _ _ _ Hne Hunc Hm) as (Q2 & H2 & Ecs & HQ2 & Hlen).
  destruct Hm as [Msw _ _ [Mc1 Mc2]]. destruct (close_fields i ms k (pl_price lv) st1) as (C1 & C2 & C3). fold st2 in C1, C2, C3, H2, Ecs, Hlen.
  pose proof (Forall2_length _ _ _ (i_rep _ _ _ (j_inv _ _ _ _ _ HJ) i ms)) as HlenQ. exists Q2. split; [|split; [done|split; [done|split; [|done]]]].
  - constructor; [done | by rewrite Ecs; apply Msw | by rewrite (stp_cfg st1 st2), (stp_cfg st st1); [apply H|..]].
  - intros ->. rewrite HQ2, upd_eq, decide_True by done. rewrite drop_ge by lia. apply app_nil_r.
Qed.

(** *** The loop against the reference *)

Context (plainly : Prop) (F0 : list (Z * Price * Qty)) (W0 : Qty) (B0 : bool).
(** When neither the taker nor what it meets is reduce-only: what is still to come completes [F0]. *)
Definition to_come st (Q : queues) (c : Qty) : Prop := plainly ->
  so_reduce_only t = false /\
  if decide (c = so_qty t) then fills_of (me_log st) = F0 /\ 0 = W0 /\ B0 = false
  else Forall (fun o => so_reduce_only o = false) (cands st Q) /\
    let '(fs, w, b) := alloc mode (so_account t) (so_qty t - c) (cands st Q) in fills_of (me_log st) ++ fs = F0 /\ w = W0 /\ b = B0.
Definition came st (c : Qty) (b : bool) : Prop := plainly -> fills_of (me_log st) = F0 /\ so_qty t - c = W0 /\ B0 = b.
Definition result (r : bool * Qty * Engine) : Prop :=
  let '(alive, f, st) := r in
  if alive then exists Q, ml st Q f /\ (f = so_qty t \/ forall lv, sb_best (book_at st i) ms = Some lv -> can (pl_price lv) = false) /\ came st f false
  else exists Q, full st ∅ Q /\ 0 <= f <= so_qty t /\ came st f true.

Lemma stop_ok st Q c : ml st Q c -> to_come st Q c -> c = so_qty t \/ (forall lv, sb_best (book_at st i) ms = Some lv -> can (pl_price lv) = false) -> result (true, c, st).
Proof.
  intros H Ht Hd. exists Q. split; [done|]. split; [done|]. intros Hp. destruct (Ht Hp) as (_ & Ha). case_decide as E.
  - destruct Ha as (A1 & A2 & A3). repeat split; [done | lia | done].
  - destruct Hd as [|Hd]; [done|]. rewrite (cands_none st Q c H Hd) in Ha. cbn [alloc] in Ha. destruct Ha as (_ & A1 & A2 & A3). by rewrite app_nil_r in A1.
Qed.

(** What the walk along one level leaves to come. *)
Lemma to_come_level st (Q : queues) c lv (l : list Z) k st1 r (l' : list Z) c1 (Q2 : queues) st2 : ml st Q c -> c <> so_qty t -> to_come st Q c -> V st i ms !! k = Some lv -> Q i ms = take k (Q i ms) ++ [l] -> Q i ms !! k = Some l -> can (pl_price lv) = true ->
  traced t mode st l c r st1 [] l' c1 -> (forall y, y ∉ l -> y <> th -> cs st1 !! y = cs st !! y) -> cs st2 = cs st1 -> fills_of (me_log st2) = fills_of (me_log st1) ->
  (l' = [] -> Q2 i ms = take k (Q i ms)) -> c1 <= so_qty t ->
  (r = Swept -> to_come st2 Q2 c1) /\ (r <> Swept -> came st2 c1 true).
Proof.
  intros H Hc Ht Hv HQ Hl Hcan Htr Hoth Ecs Ef HQ2 Hle. pose proof (j_inv _ _ _ _ _ (f_J _ _ _ (l_full _ _ _ H))) as Hi. pose proof (cands_best _ _ _ _ _ _ H Hv HQ Hl Hcan) as Ec.
  set (tl := filter (fun o => can (so_price o) = true) (orders_at (cs st) (concat (rev (take k (Q i ms)))))) in *.
  assert (Hout : forall y, y ∈ concat (rev (take k (Q i ms))) -> y ∉ l /\ y <> th).
  { intros y Hy. apply list_elem_of_In, in_concat in Hy as (b & Hb & Hy). apply in_rev, list_elem_of_In in Hb. apply list_elem_of_In in Hy.
    apply list_elem_of_lookup in Hb as [n Hb]. apply lookup_take_Some in Hb as [Hb Hn]. split.
    - intros Hin. destruct (queue_unique _ _ _ _ _ _ _ _ _ _ _ _ Hi Hl Hb Hin Hy) as (_ & _ & E). lia.
    - intros ->. by apply (flight_not_queued _ _ _ _ _ _ _ _ Hi (proj2 (elem_of_singleton th th) eq_refl) Hb). }
  assert (Etl : l' = [] -> cands st2 Q2 = tl).
  { intros E. unfold cands, tl. rewrite (HQ2 E), Ecs. f_equal. apply orders_at_ext. intros y Hy. destruct (Hout y Hy). by apply Hoth. }
  assert (Hmain : plainly -> so_reduce_only t = false /\ Forall (fun o => so_reduce_only o = false) tl /\
    exists fs1 w1 (b1 : bool), fills_of (me_log st1) = fills_of (me_log st) ++ fs1 /\ so_qty t - c1 = w1 /\ r = (if b1 then TakerDone else Swept) /\ (b1 = false -> 0 < w1 -> l' = []) /\
      if b1 then fills_of (me_log st) ++ fs1 = F0 /\ w1 = W0 /\ true = B0 else let '(f2, w2, b2) := alloc mode (so_account t) w1 tl in fills_of (me_log st) ++ fs1 ++ f2 = F0 /\ w2 = W0 /\ b2 = B0).
  { intros Hp. destruct (Ht Hp) as (R1 & R2). rewrite decide_False in R2 by done. destruct R2 as [R2 R3]. rewrite Ec in R2, R3. apply Forall_app in R2 as [R4 R5]. specialize (Htr R1 R4).
    rewrite alloc_app in R3. destruct (alloc mode (so_account t) (so_qty t - c) (orders_at (cs st) l)) as [[fs1 w1] b1]. destruct Htr as (T1 & T2 & T3 & T4).
    split; [done|]. split; [done|]. exists fs1, w1, b1. split; [done|]. split; [done|]. split; [done|]. split; [done|]. destruct b1; [done|]. by destruct (alloc mode _ w1 tl) as [[f2 w2] b2]. }
  split.
  - intros Er Hp. destruct (Hmain Hp) as (R1 & R2 & fs1 & w1 & b1 & T1 & T2 & T3 & T4 & T5). destruct b1; [congruence|]. split; [done|]. rewrite Ef, T1. case_decide as E.
    + replace w1 with 0 in T5 by lia. rewrite alloc_done in T5. destruct T5 as (U1 & U2 & U3). by rewrite app_nil_r in U1.
    + rewrite Etl by (apply T4; [done | lia]). split; [done|]. rewrite T2. destruct (alloc mode _ w1 tl) as [[f2 w2] b2]. by rewrite <- app_assoc.
  - intros Er Hp. destruct (Hmain Hp) as (R1 & R2 & fs1 & w1 & b1 & T1 & T2 & T3 & T4 & T5). destruct b1; [|congruence]. destruct T5 as (U1 & U2 & U3). rewrite Ef, T1. split; [done|]. split; [congruence | done].
Qed.

Lemma match_step_ok st Q c : ml st Q c -> to_come st Q c ->
  match match_step reducible th now st with
  | inl st' => (exists Q' c', ml st' Q' c' /\ to_come st' Q' c') /\ 0 <= mu st' < mu st
  | inr r => result r
  end.
Proof.
  intros H Ht. destruct (taker_ord _ _ _ H) as (Eo & El & Hc & Hq). rewrite match_step_eq. cbv zeta.
  assert (E1 : so_instrument (ord st th) = i) by exact (f_equal so_instrument Eo). assert (E2 : so_side (ord st th) = so_side t) by exact (f_equal so_side Eo).
  assert (E3 : so_cum_qty (ord st th) = c) by exact (f_equal so_cum_qty Eo). assert (E4 : so_type (ord st th) = so_type t) by exact (f_equal so_type Eo).
  assert (E5 : so_price (ord st th) = so_price t) by exact (f_equal so_price Eo). assert (E6 : so_account (ord st th) = so_account t) by exact (f_equal so_account Eo).
  rewrite El, E1, E2, E3, E4, E5, E6, (l_mode _ _ _ H). destruct (Z.ltb_spec 0 (so_qty t - c)) as [Hpos|Hz]; cbn [negb].
  2: { apply (stop_ok st Q); [done | done | left; lia]. }
  destruct (sb_best (book_at st i) ms) as [lv|] eqn:Eb; [|apply (stop_ok st Q); [done | done | right; congruence]].
  assert (Ecan : negb (bool_decide (so_type t = Market)) && negb (crosses (so_side t) (so_price t) (pl_price lv)) = negb (can (pl_price lv))) by (unfold can; by rewrite negb_orb).
  rewrite Ecan. destruct (can (pl_price lv)) eqn:Ec; cbn [negb]; [|apply (stop_ok st Q); [done | done | right; congruence]].
  destruct (best_split _ _ _ _ H Eb) as (l & Hv & Hl & Hne & _ & HQ & _ & HSk). set (k := (length (sb_levels (book_at st i) ms) - 1)%nat) in *. pose proof (f_J _ _ _ (l_full _ _ _ H)) as HJ.
  destruct (rep_lookup _ _ _ _ _ _ _ (j_inv _ _ _ _ _ HJ) Hl) as (lv' & Hv' & Hr). assert (lv' = lv) as -> by congruence.
  assert (Hsw : sw th t i ms k (pl_price lv) st Q ([] ++ l) c) by (constructor; [by apply J_exempt | eauto | done | apply H]).
  rewrite (lr_count _ _ _ _ _ _ Hr), Nat2Z.id.
  assert (Hts : so_side t = opposite ms) by (by destruct (so_side t)).
  destruct (sweep_ok reducible reducible_nonneg th t mode i ms k (pl_price lv) now Hts (length l) (pl_head lv) st Q [] l c Hsw (seg_head _ _ _ _ _ _ (lr_seg _ _ _ _ _ _ Hr)) ltac:(lia))
    as (r & st1 & Q1 & l' & c1 & Es & Hm & Hle & Hprog & Hoth & Htr). rewrite Es.
  destruct (close_ml _ _ _ _ _ _ _ _ _ H Hv HSk Hm) as (Q2 & H2 & Ecs2 & Ef2 & HQ2 & Hlen2). set (st2 := close_level i ms k (pl_price lv) st1) in *. clearbody st2.
  destruct (taker_ord _ _ _ H2) as (Eo2 & El2 & Hc2 & _).
  destruct (to_come_level st Q c lv l k st1 r l' c1 Q2 st2 H ltac:(lia) Ht Hv HQ Hl Ec Htr Hoth Ecs2 Ef2 HQ2 ltac:(lia)) as (Hgo & Hend).
  assert (Hred : forall why (f : MatchingStats -> MatchingStats), came st2 c1 true -> result (let '(q, st3) := end_taker th why now (mstat f st2) in (false, q, st3))).
  { intros why f Hcame. destruct (end_taker_ok (mstat f st2) Q2 c1 why) as (st3 & -> & Hf3 & Hfl & _).
    - destruct (l_full _ _ _ H2) as [A1 A2 A3]. constructor; [by apply J_mstat | done | exact A3].
    - apply (l_taker _ _ _ H2).
    - exists Q2. split; [done|]. split; [done|]. intros Hp. destruct (Hcame Hp) as (B1 & B2 & B3). split; [by rewrite Hfl | done]. }
  destruct r.
  - destruct (so_reduce_only (ord st2 th) && _ && _) eqn:Er.
    + specialize (Hred ReducedOut (fun s => s <| ms_expired ::= bump |>)). destruct (end_taker th ReducedOut now _) as [q st3]. apply Hred. intros Hp. exfalso.
      destruct (Ht Hp) as (R1 & _). apply andb_true_iff in Er as [[Er _]%andb_true_iff _].
      assert (E7 : so_reduce_only (ord st2 th) = so_reduce_only t) by exact (f_equal so_reduce_only Eo2). congruence.
    + split; [exists Q2, c1; auto|]. unfold mu. rewrite El, El2, Hlen2. assert (Hbig : (1 <= length (V st i ms))%nat) by lia.
      destruct (Hprog eq_refl) as [Hp|[Hp|Hp]]; [case_decide; lia | case_decide; lia | rewrite decide_True by done; lia].
  - pose proof (end_taker_ok st2 Q2 c1 Stp (l_full _ _ _ H2) (l_taker _ _ _ H2)) as (st3 & -> & Hf3 & Hfl & _). exists Q2. split; [done|]. split; [done|].
    intros Hp. destruct (Hend ltac:(done) Hp) as (B1 & B2 & B3). split; [by rewrite Hfl | done].
  - specialize (Hred ReducedOut (fun s => s <| ms_expired ::= bump |>)). destruct (end_taker th ReducedOut now _) as [q st3]. apply Hred. by apply Hend.
Qed.

(** The loop ends within its bound, with what the reference gives. *)
Lemma match_ok st Q c : ml st Q c -> to_come st Q c -> exists r, loop 64 (match_step reducible th now) st = inr r /\ match_ reducible th now st = r /\ result r.
Proof.
  intros H Ht. destruct (loop_rule (match_step reducible th now) (fun st => exists Q c, ml st Q c /\ to_come st Q c) result mu) with (d := 64%nat) (s := st) as (r & Er & Hr).
  - intros s (Q' & c' & H1 & H2). exact (match_step_ok s Q' c' H1 H2).
  - eauto.
  - unfold mu. destruct (taker_ord _ _ _ H) as (_ & El & Hc & Hq). rewrite El. pose proof (i_depth _ _ _ (j_inv _ _ _ _ _ (f_J _ _ _ (l_full _ _ _ H))) i ms) as Hd.
    unfold kMaxSimLevels in Hd. change (2 ^ Z.of_nat 64) with 18446744073709551616. unfold i64_max in Hq. lia.
  - exists r. split; [done|]. split; [|done]. unfold match_. by rewrite Er.
Qed.
End taker.
End loop.
