(* ===== verification/MatchingEntry.v ===== *)
(** * MatchingEntry: order entry keeps the exchange well formed

    Resting, removing and submitting, each from one settled state to the next, and what an
    accepted order trades. *)

From S2P Require Import Prelude Types FixedPoint MapSum L2Book L2BookProps Interfaces Matching MatchingBook MatchingInv MatchingOps MatchingMatch MatchingLoop.

#[local] Arguments i64 : simpl never.
#[local] Arguments u32 : simpl never.
#[local] Arguments u64 : simpl never.
#[local] Arguments kNullHandle : simpl never.

Section entry.
Context {M P : Type} `{!IdMapOps M, !IdMap M} `{!ObjPoolOps P SimOrder, !ObjPool P SimOrder}.
Abbreviation Engine := (MatchingEngine M P).
Implicit Type st : Engine.
Abbreviation queues := (Z -> Side -> list (list Z)) (only parsing).

(** ** Frames *)

Lemma full_frame st st' F Q es : full st F Q -> me_pool st' = me_pool st -> me_by_key st' = me_by_key st -> me_books st' = me_books st ->
  me_log st' = me_log st ++ es -> Forall plain es -> me_ledgers st' = me_ledgers st -> full st' F Q.
Proof.
  intros [HJ Hn Hu] Ep Ek Eb El Hes Elg. constructor; [by apply (J_frame st _ _ _ _ _ es) | done|].
  intros i b a. unfold prices, PV, V, book_at. rewrite Eb. apply Hu.
Qed.
Lemma full_mstat st F Q f : full st F Q -> full (mstat f st) F Q.
Proof. intros H. apply (full_frame st _ _ _ [] H); try done. symmetry. apply app_nil_r. Qed.
Lemma full_say st F Q e : plain e -> full st F Q -> full (say e st) F Q.
Proof. intros He H. apply (full_frame st _ _ _ [e] H); try done. by apply Forall_singleton. Qed.
Lemma full_free st F Q h : full st F Q -> h ∈ F -> full (free_order h st) (F ∖ {[h]}) Q.
Proof. intros [HJ Hn Hu] Hh. constructor; [by apply J_free | done | exact Hu]. Qed.

(** A live order of a settled state waits in the queue of its price. *)
Lemma waiting st Q h o : full st ∅ Q -> cs st !! h = Some o -> exists k l1 l2 lv,
  Q (so_instrument o) (so_side o) !! k = Some (l1 ++ h :: l2) /\ V st (so_instrument o) (so_side o) !! k = Some lv /\ pl_price lv = so_price o /\
  sb_find (book_at st (so_instrument o)) (so_side o) (so_price o) = Some k.
Proof.
  intros [HJ _ _] Ho. pose proof (j_inv _ _ _ _ _ HJ) as Hi. destruct (i_live _ _ _ Hi h o Ho) as [?|Hin]; [set_solver|].
  apply elem_of_concat in Hin as (k & l & Hk & Hl). destruct (in_queue _ _ _ _ _ _ _ _ Hi Hk Hl) as (lv & o' & Hv & Ho' & _ & _ & Hp).
  rewrite Ho in Ho'. injection Ho' as <-. apply list_elem_of_split in Hl as (l1 & l2 & ->). exists k, l1, l2, lv. split; [done|]. split; [done|]. split; [done|].
  by apply (sb_find_some _ _ _ k lv (i_sorted _ _ _ Hi _ _)).
Qed.

(** ** Removing *)

Lemma remove_eq st h why now k : sb_find (book_at st (so_instrument (ord st h))) (so_side (ord st h)) (so_price (ord st h)) = Some k ->
  remove_resting h why now st =
  let o := ord st h in let i := so_instrument o in let s := so_side o in
  let st3 := close_level i s k (so_price o) (unlink h i s k (take_level_qty i s k (leaves o) st)) in
  free_order h (say (EvCancel (ord st3 h) why now) st3).
Proof. intros E. unfold remove_resting. rewrite E. reflexivity. Qed.

Lemma remove_resting_ok st Q h why now : full st ∅ Q -> is_Some (cs st !! h) ->
  let st' := remove_resting h why now st in
  exists Q', full st' ∅ Q' /\ cs st' = delete h (cs st) /\ fills_of (me_log st') = fills_of (me_log st) /\ me_count st' = me_count st /\ me_stp st' = me_stp st.
Proof.
  intros H Hs st'. pose proof (f_J _ _ _ H) as HJ. pose proof (j_inv _ _ _ _ _ HJ) as Hi. destruct (lat_ord _ _ _ _ Hi Hs) as (_ & Ec & _).
  destruct (waiting st Q h _ H Ec) as (k & l1 & l2 & lv & Hq & Hv & Hp & Hf). unfold st'. rewrite (remove_eq _ _ _ _ k Hf). cbv zeta.
  change (so_instrument (core (ord st h))) with (so_instrument (ord st h)) in *. change (so_side (core (ord st h))) with (so_side (ord st h)) in *. change (so_price (core (ord st h))) with (so_price (ord st h)) in *.
  set (o := ord st h) in *. set (i := so_instrument o) in *. set (s := so_side o) in *.
  destruct (J_pull st ∅ Q (Some (i, s, pl_price lv)) ∅ i s k l1 h l2 lv (J_exempt _ _ _ _ _ HJ) Hq Hv eq_refl) as (H1 & Ec1 & Ep1). fold o in H1, Ec1, Ep1.
  pose proof (unlink_aux (take_level_qty i s k (leaves o) st) h i s k) as Ea. unfold aux in Ea.
  assert (Elog : me_log (take_level_qty i s k (leaves o) st) = me_log st /\ me_count (take_level_qty i s k (leaves o) st) = me_count st /\ me_stp (take_level_qty i s k (leaves o) st) = me_stp st) by done.
  destruct Elog as (Elog & Ecnt & Estp). set (st1 := unlink h i s k _) in *. clearbody st1.
  assert (Epx : forall i' s', l_price <$> PV st1 i' s' = l_price <$> PV st i' s') by (intros; rewrite Ep1; by apply px_upd).
  assert (Hm : moved h (core o) i s k (pl_price lv) st Q st1 (upd Q i s (<[k := l1 ++ l2]> (Q i s))) (l1 ++ l2) (so_cum_qty o)).
  { constructor; [|done|done|split; congruence]. constructor.
    - replace ({[h]} ∪ ∅) with ({[h]} : gset Z) in H1 by set_solver. replace (∅ ∖ {[h]}) with (∅ : gset Z) in H1 by set_solver. done.
    - apply (price_level i st1 _ (pl_price lv) s k (Epx i s)). rewrite list_lookup_fmap, (PV_lookup _ _ _ _ _ Hv). done.
    - rewrite upd_eq. apply list_lookup_insert_eq. by apply lookup_lt_Some in Hq.
    - rewrite Ec1, Ec. done. }
  destruct (close_full _ _ _ _ _ _ _ _ _ _ _ _ (f_nonempty _ _ _ H) (f_uncrossed _ _ _ H) Hm) as (Q2 & H2 & Ec2 & _ & _).
  destruct (close_fields i s k (pl_price lv) st1) as (C1 & C2 & C3). rewrite Hp in H2, Ec2, C1, C2, C3. set (st2 := close_level i s k (so_price o) st1) in *. clearbody st2.
  exists Q2. pose proof (full_say _ _ _ (EvCancel (ord st2 h) why now) ltac:(done) H2) as H3. apply (full_free _ _ _ h) in H3; [|set_solver].
  replace ({[h]} ∖ {[h]}) with (∅ : gset Z) in H3 by set_solver.
  destruct (J_free st2 _ _ _ _ h (f_J _ _ _ H2) ltac:(set_solver)) as [_ Ecf]. split; [done|]. split; [|split; [|split]].
  - change (cs (free_order h (say ?e st2))) with (cs (free_order h st2)). by rewrite Ecf, Ec2, Ec1.
  - change (me_log (free_order h (say ?e st2))) with (me_log st2 ++ [e]). rewrite fills_snoc, app_nil_r, C3. replace (me_log st1) with (me_log st) by congruence. done.
  - change (me_count (free_order h (say ?e st2))) with (me_count st2). congruence.
  - change (me_stp (free_order h (say ?e st2))) with (me_stp st2). congruence.
Qed.

(** ** Resting *)

Lemma uid_set_found st F Q i s px k b i' : inv st F Q -> find_or_insert (book_at st i) s px = (Some k, b) -> uid (set_book st i b) i' = uid st i'.
Proof.
  intros H Hf. destruct (find_or_insert_V _ _ _ _ _ _ _ _ H Hf) as [(lv & _ & _ & ->)|(_ & _ & ->)]; [|apply uid_set_levels].
  unfold uid, book_at, set_book. cbn. destruct (decide (i' = i)) as [-> |]; [by rewrite lookup_insert_eq | by rewrite lookup_insert_ne].
Qed.

Lemma J_ensure st F Q X i s px k b : J st F Q None X -> find_or_insert (book_at st i) s px = (Some k, b) ->
  exists Q' lv l, J (set_book st i b) F Q' None X /\ V (set_book st i b) i s !! k = Some lv /\ pl_price lv = px /\ Q' i s !! k = Some l /\
    (forall i' s' p, p ∈ prices (set_book st i b) i' s' -> p ∈ prices st i' s' \/ (i' = i /\ s' = s /\ p = px)) /\
    (forall i' s' j l', Q' i' s' !! j = Some l' -> ~ (i' = i /\ s' = s /\ j = k) -> exists j', Q i' s' !! j' = Some l').
Proof.
  intros H Hf. pose proof (j_inv _ _ _ _ _ H) as Hi. destruct (ensure_level _ _ _ _ _ _ _ _ Hi Hf) as (Q' & lv & l & Hi' & Hlv & Hp & Hl & Hd & Hcase).
  exists Q', lv, l. assert (HJ : J (set_book st i b) F Q' None X).
  { apply (J_move st _ F _ Q _ None _ X _ []); try done.
    - destruct Hcase as [[-> EV]|(-> & Hq0 & EV & -> & Eo)].
      + apply (qty_ext (cs st) _ (PV st) _ Q Q); try done; [|apply H]. intros i' s'. unfold PV. by rewrite EV.
      + intros i' s'. unfold PV. unfold upd. case_decide as E; [destruct E as [-> ->]|rewrite Eo by done; apply (j_qty _ _ _ _ _ H)]. rewrite EV. unfold flat. rewrite fmap_app, fmap_cons, fmap_take, fmap_drop.
        apply Forall2_app; [by apply Forall2_take, (j_qty _ _ _ _ _ H)|]. constructor; [done | by apply Forall2_drop, (j_qty _ _ _ _ _ H)].
    - destruct Hcase as [[-> _]|(_ & _ & _ & -> & _)]; [apply H|]. intros i' s' h Hh. apply (j_pos _ _ _ _ _ H i' s'). revert Hh. unfold upd. case_decide as E; [destruct E as [-> ->]|done].
      rewrite concat_app. cbn [concat]. rewrite app_nil_l, <- concat_app, take_drop. done.
    - symmetry. apply app_nil_r.
    - intros i'. by apply (uid_set_found _ _ _ _ _ _ _ _ _ Hi Hf).
    - intros i' s' p _. split; [done|]. destruct (Hd i' s') as [-> |(-> & -> & Hno & Hins)]; [done|]. rewrite Hins. destruct (decide (p = px)) as [-> |]; [by rewrite lookup_insert_eq, Hno | by rewrite lookup_insert_ne]. }
  split; [done|]. split; [done|]. split; [done|]. split; [done|]. split.
  - intros i' s' p. unfold prices, PV. destruct Hcase as [[_ EV]|(_ & _ & EV & _ & Eo)]; [rewrite EV; by left|].
    destruct (decide (i' = i /\ s' = s)) as [[-> ->]|Hne]; [|rewrite Eo by done; by left]. rewrite EV. unfold flat. rewrite !fmap_app, !fmap_cons, elem_of_app, elem_of_cons, !fmap_take, !fmap_drop.
    cbn [flat1 l_price]. rewrite Hp. intros [Hin|[Hin|Hin]]; [left; apply elem_of_take in Hin as (n & Hn & _); by eapply list_elem_of_lookup_2 | by right|].
    left. apply list_elem_of_lookup in Hin as [n Hn]. rewrite lookup_drop in Hn. by eapply list_elem_of_lookup_2.
  - intros i' s' j l' Hj Hne. destruct Hcase as [[-> _]|(-> & _ & _ & -> & _)]; [eauto|]. revert Hj. unfold upd. case_decide as E; [|eauto]. destruct E as [-> ->].
    assert (HkQ : length (take k (Q i s)) = k).
    { rewrite upd_eq in Hl. destruct (Nat.le_gt_cases k (length (Q i s))) as [|Hgt]; [rewrite length_take; lia|]. exfalso. rewrite take_ge, drop_ge in Hl by lia.
      apply lookup_lt_Some in Hl. rewrite length_app in Hl. cbn in Hl. lia. }
    intros Hj. apply lookup_app_Some in Hj as [Hj|[Hge Hj]]; [apply lookup_take_Some in Hj as [Hj _]; eauto|]. rewrite HkQ in *.
    destruct (j - k)%nat as [|n] eqn:En; [exfalso; apply Hne; split; [done|split; [done|lia]]|]. rewrite lookup_cons_ne_0 in Hj by lia. rewrite Nat.pred_succ, lookup_drop in Hj. eauto.
Qed.

Lemma J_enqueue st F Q X h i s k o lv l : J st F Q None X -> h ∈ F -> pm st !! h = Some o -> V st i s !! k = Some lv -> Q i s !! k = Some l ->
  so_instrument o = i -> so_side o = s -> so_price o = pl_price lv -> 0 < lat (cs st) h ->
  J (enqueue h i s k st) (F ∖ {[h]}) (upd Q i s (<[k := l ++ [h]]> (Q i s))) (Some (i, s, pl_price lv)) X /\ cs (enqueue h i s k st) = cs st /\
  (forall i' s', prices (enqueue h i s k st) i' s' = prices st i' s').
Proof.
  intros H Hh Ho Hlv Hl Ei Es Ep Hpos. pose proof (j_inv _ _ _ _ _ H) as Hi. destruct (inv_enqueue _ _ _ _ _ _ _ _ _ _ Hi Hh Ho Hlv Hl Ei Es Ep) as (Hi' & Ec & Epv).
  assert (El : leaves o = lat (cs st) h) by (unfold lat, cs; by rewrite lookup_fmap, Ho).
  split; [|split; [done|intros i' s'; unfold prices; rewrite Epv; by apply px_upd]]. pose proof (enqueue_aux st h i s k) as Ea. unfold aux in Ea.
  apply (J_move st _ F _ Q _ None _ X _ []); try done.
  - rewrite Ec. eapply qty_ext; [exact Epv | done | done|]. apply (qty_change (cs st) _ (PV st)); [apply H | by apply lookup_lt_Some in Hl | | done].
    cbn [l_qty]. pose proof (Forall2_lookup_lr _ _ _ _ _ _ (j_qty _ _ _ _ _ H i s) (PV_lookup _ _ _ _ _ Hlv) Hl) as Hq. cbn [flat1 l_qty] in Hq.
    rewrite Hq, El, lsum_app. unfold fx_add, lsum at 3. cbn [foldr]. apply i64_proper. rewrite i64_eq64. apply eq64_diff. exists 0. lia.
  - intros i' s' y Hy Hn. rewrite Ec. apply (concat_upd_add _ _ _ _ _ _ _ _ _ Hl) in Hy as [Hy|(_ & _ & ->)]; [by apply (j_pos _ _ _ _ _ H i' s') | done].
  - rewrite app_nil_r. congruence.
  - congruence.
  - intros i'. apply uid_enqueue.
  - intros i' s' p Hne. split; [done|]. rewrite Epv. by rewrite (depth_put _ _ _ _ _ _ _ _ _ _ _ Hi Hlv Hne).
Qed.

Lemma changed_fields st i s l : me_stp (book_changed i s l st) = me_stp st /\ me_count (book_changed i s l st) = me_count st /\ fills_of (me_log (book_changed i s l st)) = fills_of (me_log st) /\
  cs (book_changed i s l st) = cs st /\ forall i' s', prices (book_changed i s l st) i' s' = prices st i' s'.
Proof.
  split; [done|]. split; [done|]. split; [|split; [done|intros; unfold prices, PV; by rewrite V_changed]].
  unfold book_changed. change (me_log (say ?e ?x)) with (me_log x ++ [e]). by rewrite fills_snoc, app_nil_r.
Qed.

(** The new price is on its side of the opposite levels. *)
Definition fits st (o : SimOrder) : Prop := forall p, p ∈ prices st (so_instrument o) (opposite (so_side o)) -> crosses (so_side o) (so_price o) p = false.

Lemma rest_ok st Q h : full st {[h]} Q -> fits st (ord st h) -> 0 < lat (cs st) h ->
  exists Q', full (rest h st) ∅ Q' /\ fills_of (me_log (rest h st)) = fills_of (me_log st) /\ me_count (rest h st) = me_count st /\ me_stp (rest h st) = me_stp st.
Proof.
  intros H Hfit Hpos. pose proof (f_J _ _ _ H) as HJ. pose proof (j_inv _ _ _ _ _ HJ) as Hi. assert (HhF : h ∈ ({[h]} : gset Z)) by set_solver.
  destruct (lat_ord _ _ _ _ Hi (proj1 (i_flight _ _ _ Hi h HhF))) as (_ & Ec & Eo). unfold rest. set (o := ord st h) in *. destruct (find_or_insert _ _ _) as [[k|] b] eqn:Ef.
  - destruct (J_ensure st _ Q _ _ _ _ k b HJ Ef) as (Q1 & lv & l & HJ1 & Hv1 & Hp1 & Hl1 & Hpr1 & HQ1).
    assert (Hfill : fills_of (me_log (set_book st (so_instrument o) b)) = fills_of (me_log st) /\ me_count (set_book st (so_instrument o) b) = me_count st /\ me_stp (set_book st (so_instrument o) b) = me_stp st /\ pm (set_book st (so_instrument o) b) = pm st) by done.
    destruct Hfill as (K1 & K2 & K3 & K4). set (st1 := set_book st (so_instrument o) b) in *. assert (Ec1 : cs st1 = cs st) by (unfold cs; by rewrite K4). clearbody st1.
    destruct (J_enqueue st1 _ Q1 _ h (so_instrument o) (so_side o) k o lv l HJ1 HhF ltac:(by rewrite K4) Hv1 Hl1 eq_refl eq_refl (eq_sym Hp1) ltac:(by rewrite Ec1)) as (HJ2 & Ec2 & Hpr2).
    pose proof (enqueue_aux st1 h (so_instrument o) (so_side o) k) as Ea. unfold aux in Ea. set (st2 := enqueue h _ _ k st1) in *. clearbody st2.
    destruct (rep_lookup st2 _ _ (so_instrument o) (so_side o) k (l ++ [h]) (j_inv _ _ _ _ _ HJ2)) as (lv2 & Hv2 & Hr2); [rewrite upd_eq; apply list_lookup_insert_eq; by apply lookup_lt_Some in Hl1|].
    assert (Hp2 : pl_price lv2 = pl_price lv).
    { pose proof (Hpr2 (so_instrument o) (so_side o)) as E. apply (f_equal (fun l => l !! k)) in E. unfold prices in E. rewrite !list_lookup_fmap, (PV_lookup _ _ _ _ _ Hv2), (PV_lookup _ _ _ _ _ Hv1) in E. by injection E. }
    rewrite (lvl_lookup _ _ _ _ _ Hv2). rewrite <- Hp2 in HJ2. pose proof (J_changed _ _ _ _ _ _ k lv2 HJ2 Hv2) as HJ3. replace ({[h]} ∖ {[h]}) with (∅ : gset Z) in HJ3 by set_solver.
    destruct (changed_fields st2 (so_instrument o) (so_side o) lv2) as (D1 & D2 & D3 & D4 & D5). eexists. split; [constructor; [exact HJ3| |]|split; [|split; congruence]].
    + intros i' s'. apply Forall_lookup. intros j l' Hj. destruct (decide (i' = so_instrument o /\ s' = so_side o /\ j = k)) as [(-> & -> & ->)|Hne].
      * rewrite upd_eq, list_lookup_insert_eq in Hj by (by apply lookup_lt_Some in Hl1). injection Hj as <-. by destruct l.
      * assert (Hj1 : Q1 i' s' !! j = Some l').
        { revert Hj. unfold upd. case_decide as E; [destruct E as [-> ->]|done]. rewrite list_lookup_insert_ne; [done|]. intros <-. tauto. }
        destruct (HQ1 i' s' j l' Hj1 Hne) as (j' & Hj'). by apply (Forall_lookup_1 _ _ _ _ (f_nonempty _ _ _ H i' s') Hj').
    + intros i' b' a' Hb Ha. rewrite D5, Hpr2 in Hb, Ha. apply Hpr1 in Hb as [Hb|(Eb1 & Eb & ->)]; apply Hpr1 in Ha as [Ha|(Ea1 & Ea' & ->)].
      * by apply (f_uncrossed _ _ _ H i').
      * assert (Ha : crosses (so_side o) (so_price o) b' = false) by (apply Hfit; by rewrite <- Ea', <- Ea1). rewrite <- Ea' in Ha. unfold crosses in Ha. lia.
      * assert (Ha' : crosses (so_side o) (so_price o) a' = false) by (apply Hfit; by rewrite <- Eb, <- Eb1). rewrite <- Eb in Ha'. unfold crosses in Ha'. lia.
      * congruence.
    + rewrite D3. replace (me_log st2) with (me_log st1) by congruence. done.
  - set (e := EvReject _ _ _). set (f := fun x => x <| ms_level_full ::= bump |>). exists Q.
    pose proof (full_say (mstat f st) _ _ e ltac:(done) (full_mstat _ _ _ f H)) as H1. apply (full_free _ _ _ h) in H1; [|done]. replace ({[h]} ∖ {[h]}) with (∅ : gset Z) in H1 by set_solver.
    split; [exact H1|]. split; [|done]. change (me_log (free_order h (say e (mstat f st)))) with (me_log st ++ [e]). rewrite fills_snoc. apply app_nil_r.
Qed.

(** ** An accepted order at work *)

Variable reducible : list sim_event -> SimOrder -> Qty.
Hypothesis reducible_nonneg : forall log o, 0 <= reducible log o.
Hypothesis caps : op_cap < im_cap.

Lemma opp_none th t mode st Q c : ml th t mode st Q c -> (forall lv, sb_best (book_at st (so_instrument t)) (opposite (so_side t)) = Some lv -> can t (pl_price lv) = false) ->
  forall p, p ∈ prices st (so_instrument t) (opposite (so_side t)) -> can t p = false.
Proof.
  intros H Hb p Hp. pose proof (j_inv _ _ _ _ _ (f_J _ _ _ (l_full _ _ _ _ _ _ H))) as Hi. apply list_elem_of_fmap in Hp as (x & -> & Hx). apply list_elem_of_lookup in Hx as [j Hj].
  unfold PV in Hj. rewrite flat_lookup in Hj. destruct (V st (so_instrument t) (opposite (so_side t)) !! j) as [lv|] eqn:Hv; [|done]. cbn in Hj. injection Hj as <-.
  destruct (last (V st (so_instrument t) (opposite (so_side t)))) as [lb|] eqn:El; [|apply last_None in El; by rewrite El in Hv]. specialize (Hb lb El).
  rewrite last_lookup in El. pose proof (lookup_lt_Some _ _ _ Hv) as Hlt. destruct (Nat.eq_dec j (pred (length (V st (so_instrument t) (opposite (so_side t)))))) as [-> |Hne]; [rewrite Hv in El; by injection El as <-|].
  apply (can_mono t (pl_price lb)); [|done]. apply (sorted_lookup _ _ j (pred (length (V st (so_instrument t) (opposite (so_side t))))) (flat1 lv) (flat1 lb) (i_sorted _ _ _ Hi (so_instrument t) (opposite (so_side t)))); [lia | by apply PV_lookup | by apply PV_lookup].
Qed.

(** The fill-or-kill test refuses the order. *)
Definition fok_refuses st (o : SimOrder) : bool :=
  bool_decide (so_tif o = Fok) && ((fillable st o <? so_qty o) || (so_reduce_only o && (asks reducible st o <? so_qty o))).

Lemma free_taker st Q h e f : full st {[h]} Q -> plain e -> let st' := free_order h (say e (mstat f st)) in full st' ∅ Q /\ fills_of (me_log st') = fills_of (me_log st) /\ me_count st' = me_count st.
Proof.
  intros H He st'. pose proof (full_free _ _ _ h (full_say (mstat f st) _ _ e He (full_mstat _ _ _ f H)) ltac:(set_solver)) as H1.
  replace ({[h]} ∖ {[h]}) with (∅ : gset Z) in H1 by set_solver. split; [exact H1|]. split; [|done]. change (me_log st') with (me_log st ++ [e]). rewrite fills_snoc. destruct e; try apply app_nil_r. by destruct He.
Qed.
Lemma free_only st Q h : full st {[h]} Q -> full (free_order h st) ∅ Q /\ fills_of (me_log (free_order h st)) = fills_of (me_log st) /\ me_count (free_order h st) = me_count st.
Proof.
  intros H. pose proof (full_free _ _ _ h H ltac:(set_solver)) as H1. replace ({[h]} ∖ {[h]}) with (∅ : gset Z) in H1 by set_solver. done.
Qed.

(** What becomes of the order once it met the book: done, expired or resting. *)
Definition finish (h id : Z) (is_market : bool) (now : Timestamp) st : SubmitResult * Engine :=
  let o := ord st h in
  if leaves o =? 0 then (mkSubmit id NoReason (so_cum_qty o) 0, free_order h st)
  else if is_market || bool_decide (so_tif o = Ioc) || bool_decide (so_tif o = Fok) then
    (mkSubmit id NoReason (so_cum_qty o) 0, free_order h (say (EvCancel o (if is_market then NoLiquidity else IocExpired) now) (mstat (fun s => s <| ms_expired ::= bump |>) st)))
  else
    let st := rest h st in
    if negb (op_is_live (me_pool st) h) then (mkSubmit id VenueReject (so_cum_qty o) 0, st) else (mkSubmit id NoReason (so_cum_qty o) (leaves (ord st h)), st).
Lemma work_eq h now st : work reducible h now st =
  let o := ord st h in
  let id := so_order_id o in
  let is_market := bool_decide (so_type o = Market) in
  if fok_refuses st o then (mkSubmit id NoReason 0 0, free_order h (say (EvCancel o FokExpired now) (mstat (fun s => s <| ms_expired ::= bump |>) st)))
  else
    let '(alive, filled, st) := if bool_decide (so_type o = PostOnly) then (true, 0, st) else match_ reducible h now st in
    if negb alive then (mkSubmit id NoReason filled 0, st) else finish h id is_market now st.
Proof. reflexivity. Qed.

Lemma finish_ok t mode h id now st Q c : ml h t mode st Q c -> c = so_qty t \/ (forall p, p ∈ prices st (so_instrument t) (opposite (so_side t)) -> can t p = false) ->
  exists Q', full (snd (finish h id (bool_decide (so_type t = Market)) now st)) ∅ Q' /\ fills_of (me_log (snd (finish h id (bool_decide (so_type t = Market)) now st))) = fills_of (me_log st) /\
    me_count (snd (finish h id (bool_decide (so_type t = Market)) now st)) = me_count st /\ sr_filled (fst (finish h id (bool_decide (so_type t = Market)) now st)) = c.
Proof.
  intros H Hfit. destruct (taker_ord _ _ _ _ _ _ H) as (Eo & El & Hc & _). pose proof (l_full _ _ _ _ _ _ H) as Hf. unfold finish.
  assert (E1 : so_cum_qty (ord st h) = c) by exact (f_equal so_cum_qty Eo). rewrite El, E1. destruct (Z.eqb_spec (so_qty t - c) 0) as [E0|N0].
  { destruct (free_only _ _ _ Hf) as (F1 & F2 & F3). exists Q. done. }
  destruct (bool_decide (so_type t = Market) || _ || _) eqn:Em.
  { destruct (free_taker st Q h (EvCancel (ord st h) (if bool_decide (so_type t = Market) then NoLiquidity else IocExpired) now) (fun s => s <| ms_expired ::= bump |>) Hf ltac:(done)) as (F1 & F2 & F3). exists Q. done. }
  apply orb_false_iff in Em as [[Em _]%orb_false_iff _]. destruct Hfit as [|Hfit]; [lia|].
  destruct (rest_ok st Q h Hf) as (Q' & R1 & R2 & R3 & R4).
  - intros p. assert (E2 : so_instrument (ord st h) = so_instrument t) by exact (f_equal so_instrument Eo). assert (E3 : so_side (ord st h) = so_side t) by exact (f_equal so_side Eo).
    assert (E4 : so_price (ord st h) = so_price t) by exact (f_equal so_price Eo). rewrite E2, E3, E4. intros Hp. specialize (Hfit p Hp). unfold can in Hfit. by rewrite Em in Hfit.
  - destruct (lat_ord st _ _ h (j_inv _ _ _ _ _ (f_J _ _ _ Hf)) ltac:(rewrite (l_taker _ _ _ _ _ _ H); by eexists)) as (E & _ & _). lia.
  - exists Q'. cbv zeta. destruct (op_is_live _ _); cbn [negb fst snd sr_filled]; done.
Qed.

Lemma cands_nil th t mode st Q c : ml th t mode st Q c -> (forall p, p ∈ prices st (so_instrument t) (opposite (so_side t)) -> can t p = false) -> cands t st Q = [].
Proof.
  intros H Hn. apply (cands_none th t mode st Q c H). intros lv Hb. apply Hn. unfold prices. apply list_elem_of_fmap. exists (flat1 lv). split; [done|].
  unfold sb_best in Hb. apply last_Some_elem_of in Hb. by apply list_elem_of_fmap_2.
Qed.

Lemma work_ok t mode h now st Q : ml h t mode st Q 0 -> (so_type t = PostOnly -> forall p, p ∈ prices st (so_instrument t) (opposite (so_side t)) -> can t p = false) ->
  exists Q', full (snd (work reducible h now st)) ∅ Q' /\
    (so_reduce_only t = false -> Forall (fun o => so_reduce_only o = false) (cands t st Q) ->
     let '(fs, w, b) := alloc mode (so_account t) (so_qty t) (cands t st Q) in
     if fok_refuses st (ord st h) then fills_of (me_log (snd (work reducible h now st))) = fills_of (me_log st) /\ sr_filled (fst (work reducible h now st)) = 0
     else fills_of (me_log (snd (work reducible h now st))) = fills_of (me_log st) ++ fs /\ sr_filled (fst (work reducible h now st)) = so_qty t - w).
Proof.
  intros H Hpost. rewrite work_eq. cbv zeta. destruct (taker_ord _ _ _ _ _ _ H) as (Eo & El & Hc & _). pose proof (l_full _ _ _ _ _ _ H) as Hf.
  assert (E1 : so_type (ord st h) = so_type t) by exact (f_equal so_type Eo). destruct (fok_refuses st (ord st h)).
  { destruct (free_taker st Q h (EvCancel (ord st h) FokExpired now) (fun s => s <| ms_expired ::= bump |>) Hf ltac:(done)) as (F1 & F2 & _). exists Q. split; [exact F1|].
    intros _ _. destruct (alloc _ _ _ _) as [[fs w] b]. split; [exact F2 | done]. }
  rewrite E1. destruct (bool_decide (so_type t = PostOnly)) eqn:Ep.
  { apply bool_decide_eq_true in Ep. specialize (Hpost Ep). destruct (finish_ok t mode h (so_order_id (ord st h)) now st Q 0 H (or_intror Hpost)) as (Q' & G1 & G2 & _ & G3).
    exists Q'. split; [exact G1|]. intros _ _. rewrite (cands_nil _ _ _ _ _ _ H Hpost). cbn [alloc]. rewrite app_nil_r. split; [exact G2|]. cbn [negb]. lia. }
  set (plainly := so_reduce_only t = false /\ Forall (fun o => so_reduce_only o = false) (cands t st Q)).
  destruct (alloc mode (so_account t) (so_qty t) (cands t st Q)) as [[fs w] b] eqn:Ea.
  destruct (match_ok reducible reducible_nonneg h t now mode plainly (fills_of (me_log st) ++ fs) w b st Q 0 H) as (r & _ & Er & Hr).
  { intros [P1 P2]. split; [done|]. destruct (decide (0 = so_qty t)) as [E0|E0]; [rewrite <- E0 in Ea; rewrite alloc_done in Ea; injection Ea as <- <- <-; by rewrite app_nil_r|]. split; [done|]. by rewrite Z.sub_0_r, Ea. }
  rewrite Er. destruct r as [[[|] f] st1]; cbn [negb].
  - destruct Hr as (Q1 & H1 & Hstop & Hcame). destruct (finish_ok t mode h (so_order_id (ord st h)) now st1 Q1 f H1) as (Q' & G1 & G2 & _ & G3).
    + destruct Hstop as [|Hstop]; [by left | right; by apply (opp_none h t mode st1 Q1 f)].
    + exists Q'. split; [exact G1|]. intros P1 P2. destruct (Hcame (conj P1 P2)) as (C1 & C2 & _). split; [by rewrite G2 | lia].
  - destruct Hr as (Q1 & H1 & Hrange & Hcame). exists Q1. split; [exact H1|]. intros P1 P2. destruct (Hcame (conj P1 P2)) as (C1 & C2 & _). cbn [fst snd sr_filled]. split; [done | lia].
Qed.

(** ** Submitting *)

Lemma full_create st st' Q h p o es : full st ∅ Q -> op_allocate (me_pool st) = (h, p) -> handle_valid h = true ->
  ks st !! key (so_account o) (so_cl_ord_id o) = None -> 0 <= so_cum_qty o <= so_qty o -> so_qty o <= i64_max ->
  me_pool st' = op_set p h o -> me_by_key st' = snd (im_assign (me_by_key st) (key (so_account o) (so_cl_ord_id o)) h) -> me_books st' = me_books st ->
  me_log st' = me_log st ++ es -> Forall plain es -> me_ledgers st' = me_ledgers st ->
  full st' {[h]} Q /\ cs st' = <[h := core o]> (cs st) /\ (forall i s, h ∉ concat (Q i s)).
Proof.
  intros [HJ Hn Hu] Ha Hv Hk Hq1 Hq2 Ep Ek Eb El Hes Elg. pose proof (j_inv _ _ _ _ _ HJ) as Hi. assert (EV : forall i s, V st' i s = V st i s) by (intros; unfold V, book_at; by rewrite Eb).
  assert (EPV : forall i s, PV st' i s = PV st i s) by (intros; unfold PV; by rewrite EV).
  destruct (inv_create st st' ∅ Q h p o caps Hi Ha Hv Hk Hq1 Hq2 Ep Ek EV) as (Hi' & _ & Ec & _). replace ({[h]} ∪ ∅) with ({[h]} : gset Z) in Hi' by set_solver.
  pose proof (proj2 (i_flight _ _ _ Hi' h ltac:(set_solver))) as Hnq. assert (Hlat : forall i s y, y ∈ concat (Q i s) -> lat (cs st') y = lat (cs st) y).
  { intros i s y Hy. unfold lat. rewrite Ec, lookup_insert_ne; [done|]. intros <-. by apply (Hnq i s). }
  split; [|done]. constructor; [|done|intros i b a; unfold prices; rewrite !EPV; apply Hu].
  apply (J_move st _ ∅ _ Q _ None _ ∅ _ es); try done.
  - apply (qty_ext (cs st) _ (PV st) _ Q Q); try done. apply HJ.
  - intros i s y Hy Hx. rewrite (Hlat i s) by done. by apply (j_pos _ _ _ _ _ HJ i s).
  - intros i. unfold uid, book_at. by rewrite Eb.
  - intros i s px _. by rewrite EPV.
Qed.

(** The order [submit] creates. *)
Definition order_of st (n : NewOrder) (now : Timestamp) : SimOrder :=
  let is_market := bool_decide (n_type n = Market) in
  mkSim (me_next_order_id st) (n_cl_ord_id n) (if is_market then 0 else n_price n) (n_qty n) 0 now (n_instrument n)
    kNullHandle kNullHandle (n_account n) (n_side n) (n_type n) (if is_market then Ioc else n_tif n) (n_reduce_only n).
Definition placed st (n : NewOrder) (now : Timestamp) (h : Z) (p : P) : Engine :=
  let o := order_of st n now in
  let st := st <| me_pool := op_set p h o |> <| me_next_order_id ::= bump |> in
  let st := st <| me_by_key := snd (im_assign (me_by_key st) (key (n_account n) (n_cl_ord_id n)) h) |> in
  say (EvAck o now) st.
(** What [submit] refuses before it creates the order. *)
Definition refusal st (n : NewOrder) : option RejectReason :=
  if me_count st <=? n_instrument n then Some InstrumentDisabled
  else if negb (0 <? n_qty n) then Some InvalidLot
  else if negb (bool_decide (n_type n = Market)) && negb (0 <? n_price n) then Some InvalidTick
  else if bool_decide (is_Some (im_find (me_by_key st) (key (n_account n) (n_cl_ord_id n)))) then Some DuplicateId
  else if bool_decide (n_type n = PostOnly) &&
      match sb_best (book_at st (n_instrument n)) (opposite (n_side n)) with Some best => crosses (n_side n) (n_price n) (pl_price best) | None => false end
    then Some PostOnlyWouldCross
  else None.

Lemma submit_eq n now st : submit reducible n now st =
  let st0 := mstat (fun s => s <| ms_submits ::= bump |>) st in
  match refusal st n with
  | Some r => reject n r now st0
  | None =>
    let '(h, p) := op_allocate (me_pool st) in
    if negb (handle_valid h) then reject n PoolExhausted now (mstat (fun s => s <| ms_pool_exhausted ::= bump |>) (st0 <| me_pool := p |>))
    else work reducible h now (placed st0 n now h p)
  end.
Proof.
  unfold submit, refusal. set (st0 := mstat _ st). change (me_count st0) with (me_count st). change (me_by_key st0) with (me_by_key st). change (me_pool st0) with (me_pool st).
  change (book_at st0 (n_instrument n)) with (book_at st (n_instrument n)). destruct (me_count st <=? n_instrument n); [done|]. destruct (negb (0 <? n_qty n)); [done|].
  destruct (negb (bool_decide (n_type n = Market)) && negb (0 <? n_price n)); [done|]. destruct (bool_decide (is_Some _)); [done|]. destruct (bool_decide (n_type n = PostOnly) && _); [done|].
  destruct (op_allocate (me_pool st)) as [h p]. done.
Qed.

Lemma reject_ok n r now st Q : full st ∅ Q -> full (snd (reject n r now st)) ∅ Q /\ fills_of (me_log (snd (reject n r now st))) = fills_of (me_log st).
Proof.
  intros H. unfold reject. cbn [snd]. split; [apply full_say; [done|by apply full_mstat]|]. change (me_log (say ?e (mstat ?f st))) with (me_log st ++ [e]). by rewrite fills_snoc, app_nil_r.
Qed.

Lemma orders_at_insert c h o l : h ∉ l -> orders_at (<[h := o]> c) l = orders_at c l.
Proof. intros Hn. apply orders_at_ext. intros y Hy. apply lookup_insert_ne. by intros <-. Qed.
Lemma concat_rev_elem (ls : list (list Z)) h : h ∈ concat (rev ls) <-> h ∈ concat ls.
Proof. rewrite !list_elem_of_In, !in_concat. split; intros (l & Hl & Hh); exists l; split; try done; [by apply in_rev | by apply in_rev; rewrite rev_involutive]. Qed.

(** [submit] accepts the order for matching. *)
Definition admitted st (n : NewOrder) : Prop := refusal st n = None /\ handle_valid (fst (op_allocate (me_pool st))) = true.
(** The state and the order the fill-or-kill test sees. *)
Definition at_work st (n : NewOrder) (now : Timestamp) : Engine :=
  placed (mstat (fun s => s <| ms_submits ::= bump |>) st) n now (fst (op_allocate (me_pool st))) (snd (op_allocate (me_pool st))).

Lemma submit_work n now st : admitted st n -> submit reducible n now st = work reducible (fst (op_allocate (me_pool st))) now (at_work st n now).
Proof. intros [H1 H2]. rewrite submit_eq, H1. unfold at_work. destruct (op_allocate (me_pool st)) as [h p]. cbn [fst snd] in *. by rewrite H2. Qed.

(** The created order is in flight and nothing else changed. *)
Lemma at_work_ok st n now Q : full st ∅ Q -> n_qty n <= i64_max -> admitted st n ->
  let h := fst (op_allocate (me_pool st)) in let t := core (order_of st n now) in let st1 := at_work st n now in
  ml h t (stp st (n_account n) (n_instrument n)) st1 Q 0 /\ cs st1 = <[h := t]> (cs st) /\ (forall i s, h ∉ concat (Q i s)) /\ cands t st1 Q = cands t st Q /\
  fills_of (me_log st1) = fills_of (me_log st) /\ (forall i s, V st1 i s = V st i s) /\ 0 < n_qty n /\
  (n_type n = PostOnly -> forall p, p ∈ prices st1 (n_instrument n) (opposite (n_side n)) -> can t p = false).
Proof.
  intros H Hq [Href Hval] h t st1. pose proof (j_inv _ _ _ _ _ (f_J _ _ _ H)) as Hi. unfold refusal in Href. destruct (me_count st <=? n_instrument n); [done|].
  destruct (Z.ltb_spec 0 (n_qty n)) as [Hpos|]; [cbn [negb] in Href|done]. destruct (negb (bool_decide (n_type n = Market)) && _); [done|].
  destruct (bool_decide (is_Some (im_find _ _))) eqn:Ek; [done|]. apply bool_decide_eq_false in Ek. rewrite im_find_spec in Ek by apply Hi. apply eq_None_not_Some in Ek.
  destruct (op_allocate (me_pool st)) as [h' p] eqn:Ea. cbn [fst snd] in *. subst h.
  assert (Hst1 : st1 = placed (mstat (fun s => s <| ms_submits ::= bump |>) st) n now h' p) by (unfold st1, at_work; by rewrite Ea).
  destruct (full_create st st1 Q h' p (order_of st n now) [EvAck (order_of st n now) now] H Ea Hval Ek) as (F1 & F2 & F3); try (rewrite Hst1; reflexivity); [cbn; lia | exact Hq | by apply Forall_singleton|].
  assert (EV : forall i s, V st1 i s = V st i s) by (intros; rewrite Hst1; reflexivity).
  assert (Ecfg : me_stp st1 = me_stp st /\ me_count st1 = me_count st) by (by rewrite Hst1). destruct Ecfg as [Ec1 Ec2].
  assert (Hml : ml h' t (stp st (n_account n) (n_instrument n)) st1 Q 0).
  { constructor; [done | by rewrite F2, lookup_insert_eq | by apply stp_cfg]. }
  split; [done|]. split; [done|]. split; [done|]. split.
  { unfold cands. f_equal. rewrite F2. apply orders_at_insert. rewrite concat_rev_elem. apply F3. }
  split; [rewrite Hst1; unfold placed; change (me_log (say ?e ?x)) with (me_log x ++ [e]); by rewrite fills_snoc, app_nil_r|]. split; [done|]. split; [done|].
  intros Hpo. apply (opp_none h' t _ st1 Q 0 Hml). intros lv Hb. unfold sb_best in Hb. fold (V st1 (so_instrument t) (opposite (so_side t))) in Hb. rewrite EV in Hb.
  rewrite Hpo in Href. rewrite bool_decide_true in Href by done. cbn [andb] in Href. unfold sb_best in Href. change (n_instrument n) with (so_instrument t) in Href. change (n_side n) with (so_side t) in Href.
  fold (V st (so_instrument t) (opposite (so_side t))) in Href. rewrite Hb in Href. destruct (crosses (so_side t) (n_price n) (pl_price lv)) eqn:Ex; [done|].
  unfold can. change (so_type t) with (n_type n). rewrite Hpo. cbn [so_price t core order_of]. rewrite bool_decide_false by done. cbn [orb].
  replace (so_price t) with (n_price n); [done|]. unfold t, order_of. rewrite Hpo. by rewrite bool_decide_false.
Qed.

Lemma submit_ok n now st Q : full st ∅ Q -> n_qty n <= i64_max -> exists Q', full (snd (submit reducible n now st)) ∅ Q'.
Proof.
  intros H Hq. destruct (refusal st n) as [r|] eqn:Er.
  { rewrite submit_eq, Er. exists Q. by apply reject_ok, full_mstat. }
  destruct (handle_valid (fst (op_allocate (me_pool st)))) eqn:Ev.
  - rewrite submit_work by done. destruct (at_work_ok st n now Q H Hq (conj Er Ev)) as (A1 & _ & _ & _ & _ & _ & _ & A2). destruct (work_ok _ _ _ now _ _ A1 A2) as (Q' & W & _). eauto.
  - rewrite submit_eq, Er. pose proof (j_inv _ _ _ _ _ (f_J _ _ _ H)) as Hi. destruct (op_allocate (me_pool st)) as [h p] eqn:Ea. cbn [fst] in Ev. rewrite Ev. cbn [negb].
    assert (h = kNullHandle) as -> by (unfold handle_valid in Ev; lia). destruct (op_allocate_null _ _ (i_pool _ _ _ Hi) Ea) as [-> _].
    exists Q. apply reject_ok, full_mstat. apply (full_frame st _ _ _ []); try done. symmetry. apply app_nil_r.
Qed.
End entry.
