(* ===== verification/MatchingAmend.v ===== *)
(** * MatchingAmend: cancel, replace and the mirror of historical decreases

    Each takes a settled exchange to a settled exchange; a replace in place changes one order and
    leaves every queue as it is. *)

From S2P Require Import Prelude Types FixedPoint MapSum L2Book L2BookProps Interfaces Matching MatchingBook MatchingInv MatchingOps MatchingMatch MatchingLoop MatchingEntry.

#[local] Arguments i64 : simpl never.
#[local] Arguments u32 : simpl never.
#[local] Arguments u64 : simpl never.
#[local] Arguments kNullHandle : simpl never.

Section amend.
Context {M P : Type} `{!IdMapOps M, !IdMap M} `{!ObjPoolOps P SimOrder, !ObjPool P SimOrder}.
Abbreviation Engine := (MatchingEngine M P).
Implicit Type st : Engine.

(** The order behind a key. *)
Lemma found st Q k h : full st ∅ Q -> im_find (me_by_key st) k = Some h -> cs st !! h = Some (core (ord st h)) /\ key (so_account (ord st h)) (so_cl_ord_id (ord st h)) = k.
Proof.
  intros H Hf. pose proof (j_inv _ _ _ _ _ (f_J _ _ _ H)) as Hi. rewrite im_find_spec in Hf by apply Hi. apply (i_keys _ _ _ Hi) in Hf as (o & Ho & Hk).
  destruct (lat_ord _ _ _ h Hi ltac:(by exists o)) as (_ & E & _). split; [done|]. rewrite E in Ho. apply (inj Some) in Ho. rewrite <- Hk, <- Ho. done.
Qed.

Lemma cancel_ok a id now st Q : full st ∅ Q -> exists Q', full (snd (cancel a id now st)) ∅ Q'.
Proof.
  intros H. unfold cancel. destruct (im_find _ _) as [h|] eqn:E; cbn [snd].
  - destruct (found _ _ _ _ H E) as [Hc _]. destruct (remove_resting_ok (mstat (fun s => s <| ms_cancels ::= bump |>) st) Q h Requested now (full_mstat _ _ _ _ H)) as (Q' & R & _); [by eexists | eauto].
  - exists Q. apply full_say; [done|]. by apply full_mstat.
Qed.

Lemma key_account a id : Z.shiftr (key a id) 48 = a.
Proof.
  unfold key. assert (Hb : 0 <= Z.land id (2 ^ 48 - 1) < 2 ^ 48) by (rewrite land_mask by done; apply Z.mod_pos_bound; lia).
  rewrite (lor_pack a _ 48) by done. by apply pack_high.
Qed.

(** A queued order rewritten with [d] less left, its level along with it. *)
Lemma J_shrink st st' Q h i s k l lv o d es : J st ∅ Q None ∅ -> Q i s !! k = Some l -> h ∈ l -> V st i s !! k = Some lv ->
  inv st' ∅ Q -> cs st' = <[h := core o]> (cs st) -> leaves o = lat (cs st) h - d -> 0 < leaves o ->
  (forall i' s', PV st' i' s' = upd (PV st) i s (<[k := mkLevel (pl_price lv) (fx_sub (pl_qty lv) d)]> (PV st i s)) i' s') ->
  me_log st' = me_log st ++ es -> Forall plain es -> me_ledgers st' = me_ledgers st -> (forall i, uid st' i = uid st i) ->
  J st' ∅ Q (Some (i, s, pl_price lv)) ∅ /\ (d = 0 -> J st' ∅ Q None ∅).
Proof.
  intros H Hl Hh Hlv Hi' Ec Elv Hpos Ep El Hes Elg Hu. pose proof (j_inv _ _ _ _ _ H) as Hi.
  assert (Lh : lat (cs st') h = lat (cs st) h - d) by (unfold lat at 1; rewrite Ec, lookup_insert_eq; exact Elv).
  assert (Lo : forall y, y <> h -> lat (cs st') y = lat (cs st) y) by (intros y Hy; unfold lat; by rewrite Ec, lookup_insert_ne).
  assert (Hq : qty_ok (cs st') (PV st') Q).
  { eapply qty_ext; [exact Ep | | |].
    3: { apply (qty_change (cs st) (cs st') (PV st) Q i s k _ l); [apply H | by apply lookup_lt_Some in Hl | |].
      - cbn [l_qty]. pose proof (Forall2_lookup_lr _ _ _ _ _ _ (j_qty _ _ _ _ _ H i s) (PV_lookup _ _ _ _ _ Hlv) Hl) as Hq. cbn [flat1 l_qty] in Hq. rewrite Hq.
        destruct (rep_lookup _ _ _ _ _ _ _ Hi Hl) as (lv0 & _ & Hr). rewrite (lsum_change (lat (cs st)) (lat (cs st')) l h (lr_nodup _ _ _ _ _ _ Hr) Hh) by (intros y _ Hy; by apply Lo).
        unfold fx_sub. apply i64_proper. rewrite i64_eq64. apply eq64_diff. exists 0. lia.
      - intros i' s' j b y Hn Hb Hy. apply Lo. intros ->. destruct Hn. by apply (queue_unique _ _ _ i s k l i' s' j b h Hi). }
    + intros i' s'. unfold upd. case_decide as E; [destruct E as [-> ->]|done]. symmetry. by apply list_insert_id.
    + done. }
  assert (Hp : forall i' s' y, y ∈ concat (Q i' s') -> y ∉ (∅ : gset Z) -> 0 < lat (cs st') y).
  { intros i' s' y Hy Hn. destruct (decide (y = h)) as [-> |Hne]; [rewrite Lh; lia | rewrite Lo by done; by apply (j_pos _ _ _ _ _ H i' s')]. }
  split.
  - apply (J_move st _ ∅ _ Q _ None _ ∅ _ es); try done. intros i' s' px Hne. split; [done|]. rewrite Ep. by rewrite (depth_put _ _ _ _ _ _ _ _ _ _ _ Hi Hlv Hne).
  - intros ->. apply (J_move st _ ∅ _ Q _ None _ ∅ _ es); try done. intros i' s' px _. split; [done|]. rewrite Ep. unfold upd. case_decide as E; [destruct E as [-> ->]|done].
    rewrite list_insert_id; [done|]. rewrite (PV_lookup _ _ _ _ _ Hlv). f_equal. unfold flat1. f_equal.
    pose proof (Forall2_lookup_lr _ _ _ _ _ _ (j_qty _ _ _ _ _ H i s) (PV_lookup _ _ _ _ _ Hlv) Hl) as Hqq. cbn [flat1 l_qty] in Hqq. unfold fx_sub. rewrite Z.sub_0_r, Hqq. by rewrite i64_idem.
Qed.

Hypothesis caps : op_cap < im_cap.

(** The level of a queued order, closed after a change of what is left. *)
Lemma full_changed st0 st Q i s k lv : full st0 ∅ Q -> J st ∅ Q (Some (i, s, pl_price lv)) ∅ -> V st i s !! k = Some lv -> (forall i' s', prices st i' s' = prices st0 i' s') -> full (book_changed i s lv st) ∅ Q.
Proof.
  intros [_ Hn Hu] HJ Hk Hp. constructor; [by apply (J_changed _ _ _ _ _ _ k) | done|]. intros j b a. destruct (changed_fields st i s lv) as (_ & _ & _ & _ & E). rewrite !E, !Hp. apply Hu.
Qed.
Lemma level_after st st' Q i s k l lv q : inv st' ∅ Q -> Q i s !! k = Some l -> V st i s !! k = Some lv ->
  (forall i' s', PV st' i' s' = upd (PV st) i s (<[k := mkLevel (pl_price lv) q]> (PV st i s)) i' s') -> exists lv', V st' i s !! k = Some lv' /\ pl_price lv' = pl_price lv.
Proof.
  intros Hi Hl Hv Ep. destruct (rep_lookup _ _ _ _ _ _ _ Hi Hl) as (lv' & Hv' & _). exists lv'. split; [done|]. pose proof (PV_lookup _ _ _ _ _ Hv') as E. rewrite Ep, upd_eq in E.
  rewrite list_lookup_insert_eq in E by (unfold PV; rewrite flat_length; by apply lookup_lt_Some in Hv). by injection E.
Qed.
Lemma insert_price st i s k lv q i' s' : V st i s !! k = Some lv -> l_price <$> upd (PV st) i s (<[k := mkLevel (pl_price lv) q]> (PV st i s)) i' s' = prices st i' s'.
Proof. apply px_upd. Qed.

(** What [amend] leaves behind before it reports. *)
Definition amended (h : Z) (a : AccountId) (orig new_id : ClientOrderId) (qty : Qty) (now : Timestamp) (k : nat) st : Engine :=
  let o := ord st h in
  let st := say (EvCancel o Replaced now) st in
  let st := st <| me_by_key := snd (im_erase (me_by_key st) (key a orig)) |> in
  let st := take_level_qty (so_instrument o) (so_side o) k (fx_sub (leaves o) qty) st in
  let o' := o <| so_order_id := me_next_order_id st |> <| so_cl_ord_id := new_id |> <| so_qty := qty |> <| so_cum_qty := 0 |> <| so_created := now |> in
  let st := put_ord (st <| me_next_order_id ::= bump |>) h o' in
  st <| me_by_key := snd (im_assign (me_by_key st) (key a new_id) h) |>.
Definition renewed (o : SimOrder) (oid : Z) (new_id : ClientOrderId) (qty : Qty) (now : Timestamp) : SimOrder :=
  o <| so_order_id := oid |> <| so_cl_ord_id := new_id |> <| so_qty := qty |> <| so_cum_qty := 0 |> <| so_created := now |>.

Lemma amend_eq h a orig new_id qty now st k : sb_find (book_at st (so_instrument (ord st h))) (so_side (ord st h)) (so_price (ord st h)) = Some k ->
  amend h a orig new_id qty now st =
  let o := ord st h in
  let o' := renewed o (me_next_order_id st) new_id qty now in
  let st4 := amended h a orig new_id qty now k st in
  let st5 := if negb (qty =? leaves o) then book_changed (so_instrument o) (so_side o) (lvl st4 (so_instrument o) (so_side o) k) st4 else st4 in
  (mkSubmit (so_order_id o') NoReason 0 qty, say (EvAck o' now) st5).
Proof. intros E. unfold amend. rewrite E. reflexivity. Qed.

Lemma amended_ok h a orig new_id qty now st Q k l lv : full st ∅ Q -> im_find (me_by_key st) (key a orig) = Some h -> im_find (me_by_key st) (key a new_id) = None ->
  0 < qty <= leaves (ord st h) -> let i := so_instrument (ord st h) in let s := so_side (ord st h) in
  Q i s !! k = Some l -> h ∈ l -> V st i s !! k = Some lv ->
  let st' := amended h a orig new_id qty now k st in
  J st' ∅ Q (Some (i, s, pl_price lv)) ∅ /\ (qty = leaves (ord st h) -> J st' ∅ Q None ∅) /\ cs st' = <[h := core (renewed (ord st h) (me_next_order_id st) new_id qty now)]> (cs st) /\
  (forall i' s', PV st' i' s' = upd (PV st) i s (<[k := mkLevel (pl_price lv) (fx_sub (pl_qty lv) (fx_sub (leaves (ord st h)) qty))]> (PV st i s)) i' s').
Proof.
  intros H Hf Hnew Hq i s Hl Hh Hlv st'. pose proof (f_J _ _ _ H) as HJ. pose proof (j_inv _ _ _ _ _ HJ) as Hi. destruct (found _ _ _ _ H Hf) as [Hc Hk].
  destruct (lat_ord _ _ _ h Hi ltac:(by eexists)) as (Elat & _ & Hpm). pose proof (lat_range _ _ _ h Hi ltac:(by eexists)) as Hrange. set (o := ord st h) in *. set (o' := renewed o (me_next_order_id st) new_id qty now).
  assert (Ed : fx_sub (leaves o) qty = leaves o - qty) by (unfold fx_sub; apply i64_id; width).
  set (d := fx_sub (leaves o) qty) in *. assert (Ea : so_account o = a) by (rewrite <- (key_account a orig), <- Hk; symmetry; apply key_account).
  pose proof (inv_take st ∅ Q i s k d lv Hi Hlv) as HiA. set (stA := take_level_qty i s k d st) in *.
  assert (Epool : me_pool st' = op_set (me_pool st) h o') by reflexivity.
  assert (Ekey : me_by_key st' = snd (im_assign (snd (im_erase (me_by_key st) (key a orig))) (key a new_id) h)) by reflexivity.
  assert (EV : forall i' s', V st' i' s' = V stA i' s') by reflexivity.
  destruct (op_set_spec (me_pool st) h o' (i_pool _ _ _ Hi) ltac:(by exists o)) as [S1 S2].
  destruct (im_erase_spec (me_by_key st) (key a orig) (i_map _ _ _ Hi)) as [E1 E2]. rewrite im_find_spec in Hf, Hnew by apply Hi.
  pose proof (cs_size_cap _ _ _ Hi) as Hsz. rewrite <- (i_size _ _ _ Hi) in Hsz.
  destruct (im_assign_spec (snd (im_erase (me_by_key st) (key a orig))) (key a new_id) h E1) as (m' & A1 & A2 & A3).
  { right. rewrite E2, map_size_delete, Hf. unfold ks in Hsz. lia. }
  assert (Hpos : leaves o' = qty) by (rewrite leaves_exact; cbn; [lia | lia | unfold i64_max in *; lia]).
  destruct (inv_rekey stA st' ∅ Q h o o' HiA Hpm eq_refl eq_refl) as [Hi' Ec]; try done.
  - cbn. lia.
  - cbn. lia.
  - by rewrite Ekey, A1.
  - unfold ks. rewrite Ekey, A1. cbn [snd]. rewrite A3, E2. rewrite Hk. change (so_account o') with (so_account o). change (so_cl_ord_id o') with new_id. by rewrite Ea.
  - change (so_account o') with (so_account o). change (so_cl_ord_id o') with new_id. rewrite Ea. exact Hnew.
  - assert (Ep : forall i' s', PV st' i' s' = upd (PV st) i s (<[k := mkLevel (pl_price lv) (fx_sub (pl_qty lv) d)]> (PV st i s)) i' s').
    { intros i' s'. transitivity (PV stA i' s'); [reflexivity|]. by apply PV_take. }
    change (cs stA) with (cs st) in Ec.
    destruct (J_shrink st st' Q h i s k l lv o' d [EvCancel o Replaced now] HJ Hl Hh Hlv Hi' Ec) as [B1 B2]; try done; try lia.
    + by apply Forall_singleton.
    + intros j. exact (uid_set_lvl st i s k _ j).
    + split; [exact B1|]. split; [|done]. intros Eq. apply B2. lia.
Qed.

Lemma amend_ok h a orig new_id qty now st Q : full st ∅ Q -> im_find (me_by_key st) (key a orig) = Some h -> im_find (me_by_key st) (key a new_id) = None -> 0 < qty <= leaves (ord st h) ->
  full (snd (amend h a orig new_id qty now st)) ∅ Q.
Proof.
  intros H Hf Hnew Hq. destruct (found _ _ _ _ H Hf) as [Hc _]. destruct (waiting st Q h _ H Hc) as (k & l1 & l2 & lv & Hl & Hv & Hp & Hfind).
  change (so_instrument (core (ord st h))) with (so_instrument (ord st h)) in *. change (so_side (core (ord st h))) with (so_side (ord st h)) in *. change (so_price (core (ord st h))) with (so_price (ord st h)) in *.
  rewrite (amend_eq _ _ _ _ _ _ _ k Hfind). cbv zeta. cbn [snd]. apply full_say; [done|].
  destruct (amended_ok h a orig new_id qty now st Q k _ lv H Hf Hnew Hq Hl (elem_at _ _ _) Hv) as (A1 & A2 & A3 & A4). set (st4 := amended h a orig new_id qty now k st) in *. clearbody st4.
  set (i := so_instrument (ord st h)) in *. set (s := so_side (ord st h)) in *. assert (Epr : forall i' s', prices st4 i' s' = prices st i' s') by (intros; unfold prices; rewrite A4; by apply px_upd).
  destruct (Z.eqb_spec qty (leaves (ord st h))) as [E|N]; cbn [negb].
  - constructor; [by apply A2 | apply H|]. intros j b c. rewrite !Epr. apply H.
  - destruct (level_after st st4 Q i s k _ lv _ (j_inv _ _ _ _ _ A1) Hl Hv A4) as (lv' & Hv' & Hp'). rewrite (lvl_lookup _ _ _ _ _ Hv'). rewrite <- Hp' in A1.
    by apply (full_changed st _ _ _ _ k).
Qed.

Lemma amend_cs h a orig new_id qty now st Q : full st ∅ Q -> im_find (me_by_key st) (key a orig) = Some h -> im_find (me_by_key st) (key a new_id) = None -> 0 < qty <= leaves (ord st h) ->
  cs (snd (amend h a orig new_id qty now st)) = <[h := core (renewed (ord st h) (me_next_order_id st) new_id qty now)]> (cs st).
Proof.
  intros H Hf Hnew Hq. destruct (found _ _ _ _ H Hf) as [Hc _]. destruct (waiting st Q h _ H Hc) as (k & l1 & l2 & lv & Hl & Hv & Hp & Hfind).
  rewrite (amend_eq _ _ _ _ _ _ _ k Hfind). destruct (amended_ok h a orig new_id qty now st Q k _ lv H Hf Hnew Hq Hl (elem_at _ _ _) Hv) as (_ & _ & A3 & _).
  rewrite <- A3. cbv zeta. cbn [snd]. by destruct (negb _).
Qed.

(** ** The mirror of historical decreases *)

(** Walking a queue back from its tail finds an order of the account in it, or nothing. *)
Lemma newest_in st a l : op_ok (me_pool st) -> forall hd q n, seg (pm st) kNullHandle hd q n l ->
  let h := newest_of st a (default kNullHandle (last l)) (length l) in
  (handle_valid h = true -> h ∈ l /\ so_account (ord st h) = a) /\ (handle_valid h = false -> Forall (fun y => so_account (ord st y) <> a) l).
Proof.
  intros Hok. induction l as [|x l IH] using rev_ind; intros hd q n Hs; [by split|]. apply seg_app in Hs as (q' & x' & Hs & (-> & o & Ho & Hp & _)).
  rewrite last_snoc, length_app, Nat.add_1_r. cbn [newest_of default from_option id length]. rewrite (pm_valid st Hok x) by eauto. cbn [andb]. rewrite (ord_lookup st x o Hok Ho).
  destruct (Z.eqb_spec (so_account o) a) as [E|N]; cbn [negb].
  - split; [intros _; split; [apply elem_of_app; right; constructor | by rewrite (ord_lookup st x o Hok Ho)]|]. rewrite (pm_valid st Hok x) by eauto. done.
  - rewrite Hp, (seg_last _ _ _ _ _ _ Hs). destruct (IH _ _ _ Hs) as [I1 I2]. split.
    + intros Hv. destruct (I1 Hv). split; [apply elem_of_app; by left | done].
    + intros Hv. apply Forall_app. split; [by apply I2|]. apply Forall_singleton. by rewrite (ord_lookup st x o Hok Ho).
Qed.

Lemma reduce_step_ok a i s px now by_ st Q : full st ∅ Q ->
  match reduce_step a i s px now (by_, st) with
  | inl (by', st') => (exists Q', full st' ∅ Q') /\ S (size (cs st')) = size (cs st)
  | inr st' => exists Q', full st' ∅ Q'
  end.
Proof.
  intros H. unfold reduce_step. destruct (Z.ltb_spec 0 by_) as [Hby|]; cbn [negb]; [|by exists Q]. pose proof (f_J _ _ _ H) as HJ. pose proof (j_inv _ _ _ _ _ HJ) as Hi.
  destruct (sb_find (book_at st i) s px) as [k|] eqn:Ef; [|by exists Q]. destruct (sb_find_inv _ _ _ _ Ef) as (lv & Hlv & Hpx). fold (V st i s) in Hlv.
  rewrite (lvl_lookup _ _ _ _ _ Hlv). destruct (rep_lookup_l _ _ _ _ _ _ _ Hi Hlv) as (l & Hl & Hr). rewrite (lr_count _ _ _ _ _ _ Hr), Nat2Z.id.
  pose proof (newest_in st a l (i_pool _ _ _ Hi) _ _ _ (lr_seg _ _ _ _ _ _ Hr)) as [Hn _]. rewrite <- (seg_last _ _ _ _ _ _ (lr_seg _ _ _ _ _ _ Hr)) in Hn.
  set (h := newest_of st a (pl_tail lv) (length l)) in *. destruct (handle_valid h); cbn [negb]; [|by exists Q]. destruct (Hn eq_refl) as [Hh _]. clear Hn.
  pose proof (queued_live _ _ _ _ _ _ _ _ Hi Hl Hh) as Lh. destruct (lat_ord _ _ _ _ Hi Lh) as (Elat & Hc & Hpm). pose proof (lat_range _ _ _ h Hi Lh) as Hrange.
  assert (Hpos : 0 < lat (cs st) h) by (apply (j_pos _ _ _ _ _ HJ i s); [apply elem_of_concat; eauto | set_solver]).
  destruct (Z.leb_spec (leaves (ord st h)) by_) as [Hle|Hgt].
  - destruct (remove_resting_ok (mstat (fun x => x <| ms_cancels ::= bump |>) st) Q h Requested now (full_mstat _ _ _ _ H) Lh) as (Q' & R1 & R2 & _). split; [eauto|].
    rewrite R2. change (cs (mstat ?f st)) with (cs st). rewrite map_size_delete, Hc. assert (size (cs st) <> 0)%nat by (intros E; apply map_size_empty_inv in E; by rewrite E, lookup_empty in Hc). lia.
  - set (o := ord st h) in *. destruct (i_ord _ _ _ Hi h _ Hc) as [A B]. change (so_cum_qty (core o)) with (so_cum_qty o) in A. change (so_qty (core o)) with (so_qty o) in A, B.
    rewrite leaves_exact in Hgt by done. assert (El : lat (cs st) h = so_qty o - so_cum_qty o) by (rewrite <- Elat; by apply leaves_exact).
    set (o' := o <| so_qty ::= _ |>). assert (Eq : so_qty o' = so_qty o - by_) by (cbn; unfold fx_sub; apply i64_id; width). assert (Ecum : so_cum_qty o' = so_cum_qty o) by done.
    destruct (inv_put st ∅ Q h o o' Hi Hpm) as (H1 & P1 & C1); try done; [lia | lia|]. pose proof (inv_take (put_ord st h o') ∅ Q i s k by_ lv H1 Hlv) as H2. set (st2 := take_level_qty i s k by_ (put_ord st h o')) in *.
    assert (Ep : forall i' s', PV st2 i' s' = upd (PV st) i s (<[k := mkLevel (pl_price lv) (fx_sub (pl_qty lv) by_)]> (PV st i s)) i' s') by (intros; exact (PV_take (put_ord st h o') i s k by_ lv i' s' Hlv)).
    destruct (J_shrink st st2 Q h i s k l lv o' by_ [] HJ Hl Hh Hlv H2 C1) as [J1 _]; try done.
    + rewrite leaves_exact by lia. lia.
    + rewrite leaves_exact by lia. lia.
    + symmetry. apply app_nil_r.
    + intros j. exact (uid_set_lvl st i s k _ j).
    + exists Q. destruct (level_after st st2 Q i s k l lv _ H2 Hl Hlv Ep) as (lv' & Hv' & Hp'). rewrite (lvl_lookup _ _ _ _ _ Hv'). rewrite <- Hp' in J1. apply (full_changed st _ _ _ _ k); try done.
      intros i' s'. unfold prices at 1. rewrite Ep. by apply px_upd.
Qed.

Hypothesis orders_max : op_cap <= kMaxSimOrders.

Lemma reduce_ok a i s px by_ now st Q : full st ∅ Q -> exists Q', full (reduce_account_qty a i s px by_ now st) ∅ Q'.
Proof.
  intros H. unfold reduce_account_qty. destruct (_ <=? _); [by exists Q|].
  destruct (loop_rule (reduce_step a i s px now) (fun x => exists Q, full (snd x) ∅ Q) (fun st' => exists Q', full st' ∅ Q') (fun x => Z.of_nat (size (cs (snd x))))) with (d := 17%nat) (s := (by_, st)) as (r & Er & Hr).
  - intros [b st'] (Q' & H'). pose proof (reduce_step_ok a i s px now b st' Q' H') as Hs. destruct (reduce_step a i s px now (b, st')) as [[b2 st2]|st2]; [|done].
    destruct Hs as [H1 H2]. split; [exact H1|]. cbn [snd]. lia.
  - by exists Q.
  - cbn [snd]. pose proof (cs_size_cap _ _ _ (j_inv _ _ _ _ _ (f_J _ _ _ H))) as Hsz. unfold kMaxSimOrders in orders_max. change (2 ^ Z.of_nat 17) with (2 * 2 ^ 16). lia.
  - by rewrite Er.
Qed.

Variable reducible : list sim_event -> SimOrder -> Qty.
Hypothesis reducible_nonneg : forall log o, 0 <= reducible log o.

Lemma replace_ok a orig new_id price qty now st Q : full st ∅ Q -> qty <= i64_max -> exists Q', full (snd (replace reducible a orig new_id price qty now st)) ∅ Q'.
Proof.
  intros H Hq. unfold replace. pose proof (full_mstat _ _ _ (fun s => s <| ms_replaces ::= bump |>) H) as H0. set (st0 := mstat _ st) in *. clearbody st0. clear H st. destruct (im_find (me_by_key st0) (key a orig)) as [h|] eqn:Ef.
  - destruct ((0 <? qty) && (price =? so_price (ord st0 h)) && (qty <=? leaves (ord st0 h)) && _) eqn:E.
    + apply andb_true_iff in E as [E E4%negb_true_iff%bool_decide_eq_false]. apply andb_true_iff in E as [E E3]. apply andb_true_iff in E as [E1 E2].
      exists Q. apply amend_ok; [done | done | by apply eq_None_not_Some | lia].
    + destruct (found _ _ _ _ H0 Ef) as [Hc _]. destruct (remove_resting_ok st0 Q h Replaced now H0 ltac:(by eexists)) as (Q1 & R1 & _). by apply (submit_ok reducible reducible_nonneg caps _ now _ Q1).
  - exists Q. apply full_say; [done|]. apply full_mstat, full_say; [done|]. by apply full_mstat.
Qed.
End amend.
