(* ===== verification/MatchingFok.v ===== *)
(** * MatchingFok: the fill-or-kill test against the sweep

    The queues as the code walks them, and the proof that [fillable] reaches the order's quantity
    exactly when the reference allocation fills it whole, as long as no order met is reduce-only and
    the waiting quantity fits 64 bits. *)

From Stdlib Require Import Sorted.
From S2P Require Import Prelude Types FixedPoint MapSum L2Book L2BookProps Interfaces Matching MatchingBook MatchingInv MatchingOps MatchingMatch MatchingLoop MatchingEntry.

#[local] Arguments i64 : simpl never.
#[local] Arguments kNullHandle : simpl never.

(** ** Sums *)

Lemma lsum_ge {A} (f : A -> Z) l : Forall (fun x => 0 <= f x) l -> 0 <= lsum f l.
Proof. induction 1 as [|x l Hx Hl IH]; unfold lsum in *; cbn [foldr]; lia. Qed.
Lemma alloc_none a want os : 0 <= want -> Forall (fun o => 0 <= leaves o) os -> snd (fst (alloc StpNone a want os)) = Z.max 0 (want - lsum leaves os).
Proof.
  intros Hw Hos. revert want Hw. induction Hos as [|o os Ho Hos IH]; intros want Hw; cbn [alloc]; [cbn; lia|]. assert (Hl : lsum leaves (o :: os) = leaves o + lsum leaves os) by done.
  pose proof (lsum_ge leaves os Hos). destruct (Z.leb_spec want 0); [cbn [fst snd]; lia|]. rewrite bool_decide_true by done. cbn [negb andb]. specialize (IH (want - Z.min want (leaves o)) ltac:(lia)).
  destruct (alloc StpNone a _ os) as [[fs w] b]. cbn [fst snd] in *. lia.
Qed.

(** Under self-trade prevention the test stops where the sweep would. *)
Lemma fillable_alloc taker mode os sum : mode <> StpNone -> 0 <= sum < leaves taker -> Forall (fun o => 0 < leaves o) os -> sum + lsum leaves os <= i64_max ->
  let q := match fillable_level taker mode os sum with inl q | inr q => q end in
  (q <? leaves taker) = (0 <? snd (fst (alloc mode (so_account taker) (leaves taker - sum) os))).
Proof.
  intros Hm Hs Hos. revert sum Hs. induction Hos as [|o os Ho Hos IH]; intros sum Hs Hmax; cbn [fillable_level alloc]; [cbn; lia|].
  assert (Hl : lsum leaves (o :: os) = leaves o + lsum leaves os) by done. assert (Hge : 0 <= lsum leaves os) by (apply lsum_ge; eapply Forall_impl; [exact Hos | cbn; lia]).
  rewrite (proj2 (Z.leb_gt (leaves taker - sum) 0)) by lia. rewrite (bool_decide_false (mode = StpNone)) by done. cbn [negb andb]. destruct (so_account o =? so_account taker); cbn [negb].
  - destruct mode; try done; cbn.
    + rewrite bool_decide_false by done. cbn. lia.
    + rewrite bool_decide_true by done. cbn [negb]. rewrite (proj2 (Z.leb_gt (leaves taker) sum)) by lia. apply IH; lia.
    + rewrite bool_decide_false by done. cbn. lia.
  - assert (Ea : fx_add sum (leaves o) = sum + leaves o) by (unfold fx_add; apply i64_id; width). cbv zeta. rewrite Ea.
    destruct (Z.leb_spec (leaves taker) (sum + leaves o)) as [Hle|Hgt].
    + rewrite Z.min_l, Z.sub_diag, alloc_done by lia. cbn. lia.
    + rewrite Z.min_r by lia. specialize (IH (sum + leaves o) ltac:(lia) ltac:(lia)). replace (leaves taker - sum - leaves o) with (leaves taker - (sum + leaves o)) by lia.
      destruct (alloc mode _ _ os) as [[fs w] b]. exact IH.
Qed.

Section fok.
Context {M P : Type} `{!IdMapOps M, !IdMap M} `{!ObjPoolOps P SimOrder, !ObjPool P SimOrder}.
Abbreviation Engine := (MatchingEngine M P).
Implicit Type st : Engine.

(** ** Queues as the code walks them *)

Lemma queue_seg st l : op_ok (me_pool st) -> forall p h q, seg (pm st) p h q kNullHandle l -> queue st h (length l) = ord st <$> l.
Proof.
  intros Hok. induction l as [|x l IH]; intros p h q Hs; [done|]. destruct Hs as (-> & o & Ho & _ & Hs). cbn [length queue]. rewrite (pm_valid st Hok x) by eauto.
  rewrite (ord_lookup st x o Hok Ho). rewrite fmap_cons, (ord_lookup st x o Hok Ho). f_equal. by apply (IH x (so_next o) q).
Qed.
Lemma level_orders_rep st F Q i s k lv l : inv st F Q -> V st i s !! k = Some lv -> Q i s !! k = Some l -> level_orders st lv = ord st <$> l.
Proof.
  intros H Hv Hl. destruct (rep_lookup _ _ _ _ _ _ _ H Hl) as (lv' & Hv' & Hr). assert (lv' = lv) as -> by congruence. unfold level_orders. rewrite (lr_count _ _ _ _ _ _ Hr), Nat2Z.id.
  apply (queue_seg st l (i_pool _ _ _ H) kNullHandle _ (pl_tail lv)). apply Hr.
Qed.
Lemma resting_rep st F Q i s : inv st F Q -> resting st i s = ord st <$> concat (rev (Q i s)).
Proof.
  intros H. unfold resting. fold (V st i s). assert (E : level_orders st <$> V st i s = (fun l => ord st <$> l) <$> Q i s).
  { apply list_eq. intros k. rewrite !list_lookup_fmap. destruct (V st i s !! k) as [lv|] eqn:Ev.
    - destruct (rep_lookup_l _ _ _ _ _ _ _ H Ev) as (l & Hl & _). rewrite Hl. cbn. f_equal. by apply (level_orders_rep _ F Q i s k).
    - destruct (Q i s !! k) as [l|] eqn:El; [|done]. destruct (rep_lookup _ _ _ _ _ _ _ H El) as (lv & E & _). congruence. }
  change (level_orders st <$> rev (V st i s)) with (map (level_orders st) (rev (V st i s))). rewrite map_rev. change (map (level_orders st) (V st i s)) with (level_orders st <$> V st i s). rewrite E.
  change (rev ((fun l => ord st <$> l) <$> Q i s)) with (rev (map (map (ord st)) (Q i s))). rewrite <- map_rev. symmetry. apply concat_map.
Qed.
Lemma orders_core st F Q l : inv st F Q -> (forall h, h ∈ l -> is_Some (cs st !! h)) -> orders_at (cs st) l = core <$> (ord st <$> l).
Proof.
  intros H Hl. unfold orders_at. rewrite <- list_fmap_compose. apply list_fmap_ext. intros j h Hj. destruct (lat_ord _ _ _ h H (Hl h ltac:(by apply list_elem_of_lookup_2 in Hj))) as (_ & E & _). by rewrite E.
Qed.

(** ** Levels from the best on *)

Section side.
Context (t : SimOrder).
Abbreviation opp := (opposite (so_side t)).

Lemma at_or_better_can p : negb (bool_decide (so_type t = Market)) && negb (at_or_better opp p (so_price t)) = negb (can t p).
Proof. unfold can, at_or_better, crosses. rewrite negb_orb. f_equal. destruct (so_side t); cbn [opposite]; done. Qed.
Lemma crosses_can p : negb (bool_decide (so_type t = Market)) && negb (crosses (so_side t) (so_price t) p) = negb (can t p).
Proof. unfold can. by rewrite negb_orb. Qed.

(** The levels [ls], best first, with the orders [f] gives them. *)
Record ladder (f : PriceLevel -> list SimOrder) (ls : list PriceLevel) : Prop := {
  ld_sorted : StronglySorted (fun a b => better opp (pl_price a) (pl_price b) = true) ls;
  ld_price : Forall (fun l => Forall (fun o => so_price o = pl_price l) (f l)) ls;
  ld_qty : Forall (fun l => pl_qty l = i64 (lsum leaves (f l))) ls;
  ld_pos : Forall (fun l => Forall (fun o => 0 < leaves o) (f l)) ls;
}.
Definition tradable (os : list SimOrder) : list SimOrder := filter (fun o => can t (so_price o) = true) os.

Lemma ladder_tail f l ls : ladder f (l :: ls) -> ladder f ls.
Proof. intros [H1 H2 H3 H4]. inversion H1; inversion H2; inversion H3; inversion H4; subst. by constructor. Qed.
Lemma tradable_level f l ls : ladder f (l :: ls) -> can t (pl_price l) = true -> tradable (f l) = f l.
Proof.
  intros [_ H2 _ _] Hc. inversion H2 as [|? ? Hp _]; subst. unfold tradable. apply filter_all. eapply Forall_impl; [exact Hp|]. cbn. by intros o ->.
Qed.
Lemma tradable_none f l ls : ladder f (l :: ls) -> can t (pl_price l) = false -> tradable (concat (f <$> (l :: ls))) = [].
Proof.
  intros [H1 H2 _ _] Hc. unfold tradable. apply filter_none. apply Forall_forall. intros o Ho. apply list_elem_of_In, in_concat in Ho as (os & Hos & Ho). apply list_elem_of_In in Hos, Ho.
  apply list_elem_of_fmap in Hos as (l' & -> & Hl'). assert (Hp : so_price o = pl_price l').
  { rewrite Forall_forall in H2. specialize (H2 l' Hl'). rewrite Forall_forall in H2. by apply H2. }
  rewrite Hp. apply elem_of_cons in Hl' as [-> |Hl']; [by rewrite Hc|]. inversion H1 as [|? ? _ Hall]; subst. rewrite Forall_forall in Hall. by rewrite (can_mono t _ _ (Hall l' Hl') Hc).
Qed.
Lemma tradable_app a b : tradable (a ++ b) = tradable a ++ tradable b.
Proof. apply filter_app. Qed.

Lemma sum_better_ladder f ls acc : ladder f ls -> 0 <= acc -> acc + lsum leaves (concat (f <$> ls)) <= i64_max ->
  sum_better opp (so_price t) (bool_decide (so_type t = Market)) ls acc = acc + lsum leaves (tradable (concat (f <$> ls))).
Proof.
  revert acc. induction ls as [|l ls IH]; intros acc H Hacc Hmax; [cbn; unfold lsum; cbn; lia|]. cbn [sum_better]. rewrite at_or_better_can. destruct (can t (pl_price l)) eqn:Hc; cbn [negb].
  - rewrite fmap_cons in *. cbn [concat] in *. rewrite tradable_app, (tradable_level f l ls H Hc). rewrite !lsum_app in *. pose proof H as [_ _ H3 H4]. inversion H3 as [|? ? Hq _]; subst. inversion H4 as [|? ? Hp Hps]; subst.
    assert (G1 : 0 <= lsum leaves (f l)) by (apply lsum_ge; eapply Forall_impl; [exact Hp | cbn; lia]).
    assert (G2 : 0 <= lsum leaves (concat (f <$> ls))).
    { apply lsum_ge. apply Forall_forall. intros o Ho. apply list_elem_of_In, in_concat in Ho as (os & Hos & Ho). apply list_elem_of_In in Hos, Ho. apply list_elem_of_fmap in Hos as (l' & -> & Hl').
      rewrite Forall_forall in Hps. specialize (Hps l' Hl'). rewrite Forall_forall in Hps. specialize (Hps o Ho). cbn in Hps. lia. }
    rewrite (i64_id (lsum leaves (f l))) in Hq by width. assert (Ea : fx_add acc (pl_qty l) = acc + lsum leaves (f l)) by (unfold fx_add; rewrite Hq; apply i64_id; width).
    rewrite Ea, IH; [lia | by apply (ladder_tail f l) | lia | lia].
  - rewrite (tradable_none f l ls H Hc). unfold lsum. cbn. lia.
Qed.

Lemma fillable_level_app taker mode a b sum : fillable_level taker mode (a ++ b) sum = match fillable_level taker mode a sum with inr q => inr q | inl s => fillable_level taker mode b s end.
Proof. revert sum. induction a as [|o a IH]; intros sum; [done|]. cbn [app fillable_level]. repeat case_if; try done; apply IH. Qed.

Lemma fillable_ladder st taker mode ls sum : so_type taker = so_type t -> so_side taker = so_side t -> so_price taker = so_price t -> ladder (level_orders st) ls ->
  fillable_levels st taker mode ls sum = match fillable_level taker mode (tradable (concat (level_orders st <$> ls))) sum with inl q | inr q => q end.
Proof.
  intros E1 E2 E3. revert sum. induction ls as [|l ls IH]; intros sum H; [done|]. cbn [fillable_levels]. rewrite E1, E2, E3, crosses_can. destruct (can t (pl_price l)) eqn:Hc; cbn [negb].
  - rewrite fmap_cons. cbn [concat]. rewrite tradable_app, (tradable_level _ l ls H Hc), fillable_level_app. destruct (fillable_level taker mode (level_orders st l) sum); [|done]. apply IH. by apply (ladder_tail _ l).
  - by rewrite (tradable_none _ l ls H Hc).
Qed.
End side.

Lemma sorted_snoc {A} (R : A -> A -> Prop) l x : StronglySorted R l -> Forall (fun y => R y x) l -> StronglySorted R (l ++ [x]).
Proof.
  induction 1 as [|y l Hs IH Hy]; intros Hx; cbn [app]; [by repeat constructor|]. inversion Hx; subst. constructor; [by apply IH|]. apply Forall_app. split; [done|]. by apply Forall_singleton.
Qed.
Lemma strongly_sorted_rev {A} (R : A -> A -> Prop) l : StronglySorted R l -> StronglySorted (fun a b => R b a) (rev l).
Proof. induction 1 as [|x l Hs IH Hx]; cbn [rev]; [constructor|]. apply sorted_snoc; [done|]. by apply Forall_rev. Qed.

Lemma ladder_of st F Q X t : J st F Q None X -> (forall h, h ∈ concat (Q (so_instrument t) (opposite (so_side t))) -> h ∉ X) -> ladder t (level_orders st) (rev (V st (so_instrument t) (opposite (so_side t)))).
Proof.
  intros H HX. pose proof (j_inv _ _ _ _ _ H) as Hi. set (i := so_instrument t) in *. set (s := opposite (so_side t)) in *.
  assert (Hlv : forall lv, lv ∈ V st i s -> exists k l, V st i s !! k = Some lv /\ Q i s !! k = Some l /\ level_orders st lv = ord st <$> l).
  { intros lv Hin. apply list_elem_of_lookup in Hin as [k Hk]. destruct (rep_lookup_l _ _ _ _ _ _ _ Hi Hk) as (l & Hl & _). exists k, l. split; [done|]. split; [done|]. by apply (level_orders_rep _ F Q i s k). }
  constructor.
  - apply (strongly_sorted_rev (fun a b => better s (pl_price b) (pl_price a) = true)). pose proof (i_sorted _ _ _ Hi i s) as Hs. unfold sorted, PV, flat in Hs. clear Hlv. induction (V st i s) as [|x v IH]; [constructor|].
    inversion Hs as [|? ? H1 H2]; subst. constructor; [by apply IH|]. rewrite Forall_forall in H2. apply Forall_forall. intros y Hy. exact (H2 (flat1 y) (list_elem_of_fmap_2 _ _ _ Hy)).
  - apply Forall_rev, Forall_forall. intros lv Hin. destruct (Hlv lv Hin) as (k & l & Hv & Hl & ->). apply Forall_fmap, Forall_forall. intros h Hh. cbn.
    destruct (in_queue _ _ _ _ _ _ _ _ Hi Hl Hh) as (lv' & o & E1 & E2 & _ & _ & E3). destruct (lat_ord _ _ _ h Hi ltac:(by exists o)) as (_ & E & _). rewrite E in E2. apply (inj Some) in E2.
    rewrite <- E2 in E3. assert (lv' = lv) as -> by congruence. exact E3.
  - apply Forall_rev, Forall_forall. intros lv Hin. destruct (Hlv lv Hin) as (k & l & Hv & Hl & ->).
    pose proof (Forall2_lookup_lr _ _ _ _ _ _ (j_qty _ _ _ _ _ H i s) (PV_lookup _ _ _ _ _ Hv) Hl) as Hq. cbn [flat1 l_qty] in Hq. rewrite Hq. f_equal.
    assert (Hlive : forall h, h ∈ l -> is_Some (cs st !! h)) by (intros h Hh; by apply (queued_live _ _ _ _ _ _ _ _ Hi Hl)). clear -Hi Hlive. induction l as [|h l IH]; [done|].
    rewrite fmap_cons. unfold lsum in *. cbn [foldr]. rewrite IH by (intros y Hy; apply Hlive; by constructor). destruct (lat_ord _ _ _ h Hi (Hlive h ltac:(constructor))) as (-> & _). done.
  - apply Forall_rev, Forall_forall. intros lv Hin. destruct (Hlv lv Hin) as (k & l & Hv & Hl & ->). apply Forall_fmap, Forall_forall. intros h Hh. cbn.
    destruct (lat_ord _ _ _ h Hi (queued_live _ _ _ _ _ _ _ _ Hi Hl Hh)) as (-> & _). assert (Hc : h ∈ concat (Q i s)) by (apply elem_of_concat; eauto). apply (j_pos _ _ _ _ _ H i s); [done | by apply HX].
Qed.

Lemma alloc_core mode a want os : alloc mode a want (core <$> os) = alloc mode a want os.
Proof.
  revert want. induction os as [|o os IH]; intros want; [done|]. rewrite fmap_cons. cbn [alloc]. change (so_account (core o)) with (so_account o). change (leaves (core o)) with (leaves o).
  change (so_order_id (core o)) with (so_order_id o). change (so_price (core o)) with (so_price o). by rewrite !IH.
Qed.
Lemma tradable_core t os : filter (fun o => can t (so_price o) = true) (core <$> os) = core <$> tradable t os.
Proof.
  induction os as [|o os IH]; [done|]. unfold tradable in *. rewrite fmap_cons, !filter_cons. change (so_price (core o)) with (so_price o). case_decide; [|done]. rewrite fmap_cons. by rewrite IH.
Qed.
Lemma cands_resting st F Q t : inv st F Q -> cands t st Q = core <$> tradable t (resting st (so_instrument t) (opposite (so_side t))).
Proof.
  intros H. unfold cands. rewrite (orders_core st F Q _ H), tradable_core, (resting_rep st F Q _ _ H); [done|]. intros h Hh. rewrite concat_rev_elem in Hh.
  apply elem_of_concat in Hh as (k & l & Hk & Hh). by apply (queued_live _ _ _ _ _ _ _ _ H Hk).
Qed.
Lemma lsum_core os : lsum leaves (core <$> os) = lsum leaves os.
Proof. induction os as [|o os IH]; [done|]. rewrite fmap_cons. unfold lsum in *. cbn [foldr]. by rewrite IH. Qed.

(** The test refuses exactly what the reference does not fill whole. *)
Lemma fok_exact h t mode st Q : ml h t mode st Q 0 -> 0 < so_qty t -> Forall (fun o => 0 < leaves o) (tradable t (resting st (so_instrument t) (opposite (so_side t)))) ->
  lsum leaves (resting st (so_instrument t) (opposite (so_side t))) <= i64_max ->
  (fillable st (ord st h) <? so_qty t) = (0 <? snd (fst (alloc mode (so_account t) (so_qty t) (tradable t (resting st (so_instrument t) (opposite (so_side t))))))).
Proof.
  intros H Hpos Hos Hmax. destruct (taker_ord _ _ _ _ _ _ H) as (Eo & El & _ & _). rewrite Z.sub_0_r in El. pose proof (f_J _ _ _ (l_full _ _ _ _ _ _ H)) as HJ. pose proof (j_inv _ _ _ _ _ HJ) as Hi.
  pose proof (ladder_of st _ Q _ t HJ ltac:(set_solver)) as Hld. set (os := tradable t _) in *.
  assert (E1 : so_instrument (ord st h) = so_instrument t) by exact (f_equal so_instrument Eo). assert (E2 : so_side (ord st h) = so_side t) by exact (f_equal so_side Eo).
  assert (E3 : so_type (ord st h) = so_type t) by exact (f_equal so_type Eo). assert (E4 : so_price (ord st h) = so_price t) by exact (f_equal so_price Eo). assert (E5 : so_account (ord st h) = so_account t) by exact (f_equal so_account Eo).
  unfold fillable. rewrite E1, E2, E3, E4, E5, (l_mode _ _ _ _ _ _ H). destruct (bool_decide (mode = StpNone)) eqn:Em.
  - apply bool_decide_eq_true in Em as ->. unfold sb_qty_at_or_better. fold (V st (so_instrument t) (opposite (so_side t))). rewrite (sum_better_ladder t _ _ 0 Hld) by (try done; exact Hmax).
    fold (resting st (so_instrument t) (opposite (so_side t))). fold os. assert (Hge : Forall (fun o => 0 <= leaves o) os) by (eapply Forall_impl; [exact Hos | cbn; lia]).
    rewrite (alloc_none (so_account t) (so_qty t) os) by (done || lia). change (tradable t (concat (level_orders st <$> rev (V st (so_instrument t) (opposite (so_side t)))))) with os. lia.
  - apply bool_decide_eq_false in Em. fold (V st (so_instrument t) (opposite (so_side t))). rewrite (fillable_ladder t st _ mode _ 0 E3 E2 E4 Hld). change (tradable t (concat _)) with os.
    assert (Hle : lsum leaves os <= lsum leaves (resting st (so_instrument t) (opposite (so_side t)))).
    { assert (Hall : Forall (fun o => 0 <= leaves o) (resting st (so_instrument t) (opposite (so_side t)))).
      { apply Forall_forall. intros o Ho. apply list_elem_of_In, in_concat in Ho as (os' & Hos' & Ho). apply list_elem_of_In in Hos', Ho. apply list_elem_of_fmap in Hos' as (l' & -> & Hl').
        pose proof (ld_pos _ _ _ Hld) as Hp. rewrite Forall_forall in Hp. specialize (Hp l' Hl'). rewrite Forall_forall in Hp. specialize (Hp o Ho). cbn in Hp. lia. }
      unfold os, tradable. clear -Hall. induction Hall as [|o l Ho Hl IH]; [done|]. rewrite filter_cons. unfold lsum in *. case_decide; cbn [foldr]; lia. }
    assert (G1 : 0 <= 0 < leaves (ord st h)) by (rewrite El; lia). assert (G2 : 0 + lsum leaves os <= i64_max) by (clear -Hle Hmax; lia).
    pose proof (fillable_alloc (ord st h) mode os 0 Em G1 Hos G2) as E. cbv zeta in E. rewrite El, E5, Z.sub_0_r in E. exact E.
Qed.
End fok.
