(* ===== verification/MatchingProps.v ===== *)
(** * MatchingProps: what the simulated exchange guarantees

    Every state the exchange reaches through its order entry is well formed and uncrossed; fills
    follow price and time; fill-or-kill is all or nothing; the ledgers and the depth stream agree
    with the fills and the levels. *)

From S2P Require Import Prelude Types FixedPoint MapSum Pool HashMap L2Book L2BookProps Interfaces Matching MatchingBook MatchingInv MatchingOps MatchingMatch MatchingLoop MatchingEntry MatchingAmend MatchingFok.

#[local] Arguments i64 : simpl never.
#[local] Arguments u32 : simpl never.
#[local] Arguments u64 : simpl never.
#[local] Arguments kNullHandle : simpl never.

Section reach.
Context {M P : Type} `{!IdMapOps M, !IdMap M} `{!ObjPoolOps P SimOrder, !ObjPool P SimOrder}.
Abbreviation Engine := (MatchingEngine M P).
Implicit Type st : Engine.

(** ** Reachable states *)

Variable reducible : list sim_event -> SimOrder -> Qty.

Inductive sim_reach : Engine -> Prop :=
| sim_new n : sim_reach (new_engine n)
| sim_submit st n now : sim_reach st -> n_qty n <= i64_max -> sim_reach (snd (submit reducible n now st))
| sim_cancel st a id now : sim_reach st -> sim_reach (snd (cancel a id now st))
| sim_replace st a orig new_id price qty now : sim_reach st -> qty <= i64_max -> sim_reach (snd (replace reducible a orig new_id price qty now st))
| sim_reduce st a i s px by_ now : sim_reach st -> sim_reach (reduce_account_qty a i s px by_ now st)
| sim_stp st a i mode : sim_reach st -> sim_reach (set_stp a i mode st)
| sim_stp_all st a mode : sim_reach st -> sim_reach (set_stp_all a mode st).

Hypothesis reducible_nonneg : forall log o, 0 <= reducible log o.
Hypothesis caps : op_cap < im_cap.
Hypothesis orders_max : op_cap <= kMaxSimOrders.

Lemma new_full n : full (new_engine n) ∅ (fun _ _ => []).
Proof.
  destruct op_new_ok as [O1 O2]. destruct (op_warm_up_spec _ O1) as [O3 O4]. destruct im_new_ok as [I1 I2].
  assert (Epm : pm (new_engine n) = ∅) by (unfold pm; cbn; by rewrite O4). assert (Ecs : cs (new_engine n) = ∅) by (unfold cs; rewrite Epm; apply fmap_empty).
  assert (Eks : ks (new_engine n) = ∅) by exact I2. assert (EV : forall i s, V (new_engine n) i s = []) by (intros i s; unfold V, book_at; cbn; rewrite lookup_empty; by destruct s).
  assert (EPV : forall i s, PV (new_engine n) i s = []) by (intros; unfold PV; by rewrite EV).
  constructor; [|done|intros i b a; unfold prices; rewrite EPV; by intros ?%not_elem_of_nil].
  constructor.
  - constructor; rewrite ?Ecs, ?Eks; try (intros ? ?; rewrite ?EPV, ?EV; by constructor).
    + exact O3.
    + exact I1.
    + intros i s. rewrite EV. cbn. lia.
    + intros k h. rewrite lookup_empty. split; [done|]. intros (o & E & _). by rewrite lookup_empty in E.
    + done.
  - intros i s. rewrite EPV. constructor.
  - intros i s h Hh. by apply not_elem_of_nil in Hh.
  - by constructor.
  - intros i s px _. by rewrite EPV.
  - intros i. exists 0%nat. split; [done|]. unfold uid, book_at. cbn. by rewrite lookup_empty.
Qed.

Lemma reach_full st : sim_reach st -> exists Q, full st ∅ Q.
Proof.
  induction 1 as [n|st n now H [Q IH] Hq|st a id now H [Q IH]|st a orig new_id price qty now H [Q IH] Hq|st a i s px by_ now H [Q IH]|st a i mode H [Q IH]|st a mode H [Q IH]].
  - exists (fun _ _ => []). apply new_full.
  - by apply (submit_ok reducible reducible_nonneg caps n now st Q).
  - by apply (cancel_ok a id now st Q).
  - by apply (replace_ok caps reducible reducible_nonneg a orig new_id price qty now st Q).
  - by apply (reduce_ok caps orders_max a i s px by_ now st Q).
  - exists Q. unfold set_stp. destruct (_ && _); [|done]. apply (full_frame st _ _ _ []); try done. symmetry. apply app_nil_r.
  - exists Q. unfold set_stp_all. destruct (_ <=? _); [done|]. apply (full_frame st _ _ _ []); try done. symmetry. apply app_nil_r.
Qed.

Lemma level_nodup st Q i s k l : full st ∅ Q -> Q i s !! k = Some l -> NoDup l.
Proof. intros H Hl. destruct (rep_lookup _ _ _ _ _ _ _ (j_inv _ _ _ _ _ (f_J _ _ _ H)) Hl) as (lv & _ & Hr). apply Hr. Qed.

(** Replacing in place changes one order and no queue. *)
Lemma replace_in_place a orig new_id qty now st Q h o : full st ∅ Q -> im_find (me_by_key st) (key a orig) = Some h -> ord st h = o -> im_find (me_by_key st) (key a new_id) = None ->
  0 < qty <= leaves o -> let st' := snd (replace reducible a orig new_id (so_price o) qty now st) in
  full st' ∅ Q /\ cs st' = <[h := core (renewed o (me_next_order_id st) new_id qty now)]> (cs st).
Proof.
  intros H Hf <- Hn Hq. pose proof (full_mstat _ _ _ (fun s => s <| ms_replaces ::= bump |>) H) as H0. unfold replace. set (st0 := mstat (fun s => s <| ms_replaces ::= bump |>) st) in *.
  change (im_find (me_by_key st)) with (im_find (me_by_key st0)) in *. change (ord st) with (ord st0) in *. change (cs st) with (cs st0) in *. change (me_next_order_id st) with (me_next_order_id st0). clearbody st0. rewrite Hf, Hn.
  rewrite (proj2 (Z.ltb_lt 0 qty)), Z.eqb_refl, (proj2 (Z.leb_le qty (leaves (ord st0 h)))), bool_decide_false by (lia || by intros [? ?]). cbn [andb negb]. cbv zeta. split.
  - by apply (amend_ok caps).
  - by apply (amend_cs caps _ a orig _ _ _ _ Q).
Qed.

(** ** The books *)

(** What the queries of the engine show of a well formed exchange. *)
Record well_formed st : Prop := {
  wf_sorted : forall i s, sorted s (PV st i s);
  wf_uncrossed : forall i b a, sb_best (book_at st i) Buy = Some b -> sb_best (book_at st i) Sell = Some a -> pl_price b < pl_price a;
  wf_levels : forall i s k lv, sb_levels (book_at st i) s !! k = Some lv -> let os := level_orders st lv in
    os <> [] /\ pl_count lv = Z.of_nat (length os) /\ pl_qty lv = i64 (lsum leaves os) /\
    Forall (fun o => so_instrument o = i /\ so_side o = s /\ so_price o = pl_price lv /\ 0 < leaves o) os;
  wf_found : forall a id o, find st a id = Some o -> so_account o = a /\ o ∈ resting st (so_instrument o) (so_side o);
}.

Lemma lsum_lat st F Q l : inv st F Q -> (forall h, h ∈ l -> is_Some (cs st !! h)) -> lsum leaves (ord st <$> l) = lsum (lat (cs st)) l.
Proof.
  intros Hi Hlive. induction l as [|h l IH]; [done|]. rewrite fmap_cons. unfold lsum in *. cbn [foldr]. rewrite IH by (intros y Hy; apply Hlive; by constructor).
  destruct (lat_ord _ _ _ h Hi (Hlive h ltac:(constructor))) as (-> & _). done.
Qed.
Lemma level_formed st Q i s k lv : full st ∅ Q -> V st i s !! k = Some lv -> let os := level_orders st lv in
  os <> [] /\ pl_count lv = Z.of_nat (length os) /\ pl_qty lv = i64 (lsum leaves os) /\ Forall (fun o => so_instrument o = i /\ so_side o = s /\ so_price o = pl_price lv /\ 0 < leaves o) os.
Proof.
  intros H Hv os. pose proof (f_J _ _ _ H) as HJ. pose proof (j_inv _ _ _ _ _ HJ) as Hi. destruct (rep_lookup_l _ _ _ _ _ _ _ Hi Hv) as (l & Hl & Hr).
  unfold os. rewrite (level_orders_rep _ _ _ _ _ _ _ _ Hi Hv Hl), length_fmap. assert (Hlive : forall h, h ∈ l -> is_Some (cs st !! h)) by (intros h Hh; by apply (queued_live _ _ _ _ _ _ _ _ Hi Hl)).
  split; [|split; [apply Hr|split]].
  - pose proof (Forall_lookup_1 _ _ _ _ (f_nonempty _ _ _ H i s) Hl) as Hne. by destruct l.
  - rewrite (lsum_lat _ _ _ _ Hi Hlive). exact (Forall2_lookup_lr _ _ _ _ _ _ (j_qty _ _ _ _ _ HJ i s) (PV_lookup _ _ _ _ _ Hv) Hl).
  - apply Forall_fmap, Forall_forall. intros h Hh. cbn. destruct (lat_ord _ _ _ h Hi (Hlive h Hh)) as (El & E & _).
    destruct (lr_orders _ _ _ _ _ _ Hr h Hh) as (o & Ho & E1 & E2 & E3). rewrite E in Ho. apply (inj Some) in Ho. rewrite <- Ho in E1, E2, E3.
    split; [exact E1|]. split; [exact E2|]. split; [exact E3|]. rewrite El. apply (j_pos _ _ _ _ _ HJ i s); [apply elem_of_concat; eauto | set_solver].
Qed.

(** C3. Whatever orders, cancels, replaces and decreases arrive, in any order, every book of the exchange keeps its
    levels in strict price order with the best bid below the best ask; every level queues at least one order, counts
    its orders and shows exactly the sum of what they have left, and all of them are live orders of that instrument,
    side and price; and every order the exchange knows by its key waits in the queue of its price. *)
Theorem exchange_well_formed st : sim_reach st -> well_formed st.
Proof.
  intros Hr. destruct (reach_full st Hr) as [Q H]. pose proof (j_inv _ _ _ _ _ (f_J _ _ _ H)) as Hi. constructor.
  - apply Hi.
  - intros i b a Hb Ha. apply (f_uncrossed _ _ _ H i); apply list_elem_of_fmap; [exists (flat1 b) | exists (flat1 a)]; (split; [done|]); apply list_elem_of_fmap_2; by apply last_Some_elem_of.
  - intros i s k lv Hv. by apply (level_formed st Q i s k).
  - intros a id o Hf. unfold find in Hf. destruct (im_find _ _) as [h|] eqn:E; [|done]. injection Hf as <-. destruct (found _ _ _ _ H E) as [Hc Hk]. split; [rewrite <- (key_account a id), <- Hk; symmetry; apply key_account|].
    rewrite (resting_rep st _ Q _ _ Hi). apply list_elem_of_fmap_2. rewrite concat_rev_elem. destruct (i_live _ _ _ Hi h _ Hc) as [?|Hin]; [set_solver | exact Hin].
Qed.

(** ** Fills *)

Lemma refusal_reason st n r : refusal st n = Some r -> r <> NoReason.
Proof. unfold refusal. repeat case_if; intros [= <-]; done. Qed.
(** An accepted order passed every check. *)
Lemma accepted_admitted st n now : sr_reason (fst (submit reducible n now st)) = NoReason -> admitted st n.
Proof.
  rewrite submit_eq. unfold admitted. destruct (refusal st n) as [r|] eqn:Er; [intros E; by destruct (refusal_reason st n r Er)|]. split; [done|].
  destruct (op_allocate (me_pool st)) as [h p]. cbn [fst]. by destruct (handle_valid h).
Qed.

(** The orders waiting against [n] at prices it accepts, in the order the book lists them. *)
Definition against st (n : NewOrder) : list SimOrder := filter (fun o => (bool_decide (n_type n = Market) || crosses (n_side n) (n_price n) (so_price o)) = true) (resting st (n_instrument n) (opposite (n_side n))).

Lemma tradable_against st n now : tradable (core (order_of st n now)) (resting st (n_instrument n) (opposite (n_side n))) = against st n.
Proof.
  unfold tradable, against. induction (resting st (n_instrument n) (opposite (n_side n))) as [|o os IH]; [done|]. rewrite !filter_cons, IH.
  assert (E : can (core (order_of st n now)) (so_price o) = (bool_decide (n_type n = Market) || crosses (n_side n) (n_price n) (so_price o))).
  { unfold can. change (so_type (core (order_of st n now))) with (n_type n). change (so_side (core (order_of st n now))) with (n_side n).
    change (so_price (core (order_of st n now))) with (if bool_decide (n_type n = Market) then 0 else n_price n). by destruct (bool_decide _). }
  by rewrite E.
Qed.

Lemma alloc_bounds mode a want os : 0 <= want -> Forall (fun o => 0 <= leaves o) os -> 0 <= snd (fst (alloc mode a want os)).
Proof.
  intros Hw Hos. revert want Hw. induction Hos as [|o os Ho _ IH]; intros want Hw; cbn [alloc]; [done|]. destruct (want <=? 0); [done|].
  destruct (_ && _); [destruct mode; cbn [fst snd]; auto|]. specialize (IH (want - Z.min want (leaves o)) ltac:(lia)). by destruct (alloc _ _ _ os) as [[? ?] ?].
Qed.
Lemma leaves_core os : Forall (fun o => 0 < leaves o) (core <$> os) <-> Forall (fun o => 0 < leaves o) os.
Proof. by rewrite Forall_fmap. Qed.

Lemma submit_fills st Q n now : full st ∅ Q -> n_qty n <= i64_max -> admitted st n -> n_reduce_only n = false -> Forall (fun o => so_reduce_only o = false) (against st n) ->
  let '(fs, w, b) := alloc (stp st (n_account n) (n_instrument n)) (n_account n) (n_qty n) (against st n) in
  let h := fst (op_allocate (me_pool st)) in
  if fok_refuses reducible (at_work st n now) (ord (at_work st n now) h)
  then fills_of (me_log (snd (submit reducible n now st))) = fills_of (me_log st) /\ sr_filled (fst (submit reducible n now st)) = 0
  else fills_of (me_log (snd (submit reducible n now st))) = fills_of (me_log st) ++ fs /\ sr_filled (fst (submit reducible n now st)) = n_qty n - w.
Proof.
  intros H Hq Had Hro Hos. pose proof (j_inv _ _ _ _ _ (f_J _ _ _ H)) as Hi. destruct (at_work_ok reducible reducible_nonneg caps st n now Q H Hq Had) as (A1 & A2 & A3 & A4 & A5 & A6 & A7 & A8). rewrite submit_work by done.
  destruct (work_ok reducible reducible_nonneg caps _ _ _ now _ _ A1 A8) as (Q' & _ & W). cbv zeta. set (t := core (order_of st n now)) in *.
  assert (Ec : cands t (at_work st n now) Q = core <$> against st n) by (rewrite A4, (cands_resting st ∅ Q t Hi); f_equal; apply tradable_against).
  rewrite Ec, alloc_core in W. specialize (W Hro ltac:(by apply Forall_fmap)). change (so_account t) with (n_account n) in W. change (so_qty t) with (n_qty n) in W.
  destruct (alloc _ _ _ (against st n)) as [[fs w] b]. rewrite A5 in W. exact W.
Qed.

(** C4. Price-time priority: an accepted order that is not fill-or-kill trades exactly with the orders waiting against it
    at prices it accepts, best price first and oldest first at a price, each for as much as both have left, until it
    is filled; orders of its own account are passed over or end it as self-trade prevention says.  This is for a taker that
    is not reduce-only with no reduce-only order among those it could trade with: the sink decides what those may fill. *)
Theorem price_time_priority st n now : sim_reach st -> n_qty n <= i64_max -> sr_reason (fst (submit reducible n now st)) = NoReason -> n_tif n <> Fok ->
  n_reduce_only n = false -> Forall (fun o => so_reduce_only o = false) (against st n) ->
  let '(fs, w, b) := alloc (stp st (n_account n) (n_instrument n)) (n_account n) (n_qty n) (against st n) in
  fills_of (me_log (snd (submit reducible n now st))) = fills_of (me_log st) ++ fs /\ sr_filled (fst (submit reducible n now st)) = n_qty n - w.
Proof.
  intros Hr Hq Hacc Htif Hro Hos. destruct (reach_full st Hr) as [Q H]. pose proof (accepted_admitted _ _ _ Hacc) as Had. pose proof (submit_fills st Q n now H Hq Had Hro Hos) as Hs.
  destruct (alloc _ _ _ (against st n)) as [[fs w] b]. cbv zeta in Hs. destruct (at_work_ok reducible reducible_nonneg caps st n now Q H Hq Had) as (A1 & _). destruct (taker_ord _ _ _ _ _ _ A1) as (Eo & _).
  assert (Ef : fok_refuses reducible (at_work st n now) (ord (at_work st n now) (fst (op_allocate (me_pool st)))) = false); [|by rewrite Ef in Hs].
  unfold fok_refuses. rewrite (bool_decide_false (so_tif _ = Fok)); [done|]. intros E. assert (E2 : so_tif (ord (at_work st n now) (fst (op_allocate (me_pool st)))) = (if bool_decide (n_type n = Market) then Ioc else n_tif n)) by exact (f_equal so_tif Eo).
  rewrite E in E2. by destruct (bool_decide _).
Qed.

(** C33. Fill-or-kill: an accepted fill-or-kill order is filled whole, by the allocation of price-time priority, when that
    allocation covers it, and otherwise trades nothing.  This needs that the order is not reduce-only, that no reduce-only
    order waits against it ([fok_fills_partly] shows why) and that what waits on the other side adds up within 64 bits. *)
Theorem fok_all_or_nothing st n now : sim_reach st -> n_qty n <= i64_max -> sr_reason (fst (submit reducible n now st)) = NoReason -> n_tif n = Fok -> n_type n <> Market ->
  n_reduce_only n = false -> Forall (fun o => so_reduce_only o = false) (against st n) -> lsum leaves (resting st (n_instrument n) (opposite (n_side n))) <= i64_max ->
  let '(fs, w, b) := alloc (stp st (n_account n) (n_instrument n)) (n_account n) (n_qty n) (against st n) in
  if w =? 0 then fills_of (me_log (snd (submit reducible n now st))) = fills_of (me_log st) ++ fs /\ sr_filled (fst (submit reducible n now st)) = n_qty n
  else fills_of (me_log (snd (submit reducible n now st))) = fills_of (me_log st) /\ sr_filled (fst (submit reducible n now st)) = 0.
Proof.
  intros Hr Hq Hacc Htif Hty Hro Hos Hmax. destruct (reach_full st Hr) as [Q H]. pose proof (accepted_admitted _ _ _ Hacc) as Had. pose proof (submit_fills st Q n now H Hq Had Hro Hos) as Hs.
  pose proof (j_inv _ _ _ _ _ (f_J _ _ _ H)) as Hi. destruct (at_work_ok reducible reducible_nonneg caps st n now Q H Hq Had) as (A1 & A2 & A3 & A4 & A5 & A6 & A7 & A8). destruct (taker_ord _ _ _ _ _ _ A1) as (Eo & _).
  set (st1 := at_work st n now) in *. set (h := fst (op_allocate (me_pool st))) in *. set (t := core (order_of st n now)) in *. pose proof (f_J _ _ _ (l_full _ _ _ _ _ _ A1)) as HJ1.
  assert (Ec : core <$> tradable t (resting st1 (so_instrument t) (opposite (so_side t))) = core <$> against st n).
  { rewrite <- (cands_resting st1 _ Q t (j_inv _ _ _ _ _ HJ1)), A4, (cands_resting st ∅ Q t Hi). f_equal. apply tradable_against. }
  assert (Er : core <$> resting st1 (so_instrument t) (opposite (so_side t)) = core <$> resting st (so_instrument t) (opposite (so_side t))).
  { rewrite (resting_rep st1 _ Q _ _ (j_inv _ _ _ _ _ HJ1)), (resting_rep st _ Q _ _ Hi). set (hs := concat _). assert (Hlive : forall y, y ∈ hs -> is_Some (cs st !! y)).
    { intros y Hy. unfold hs in Hy. rewrite concat_rev_elem in Hy. apply elem_of_concat in Hy as (k & l & Hk & Hy). by apply (queued_live _ _ _ _ _ _ _ _ Hi Hk). }
    rewrite <- (orders_core st ∅ Q hs Hi Hlive), <- (orders_core st1 _ Q hs (j_inv _ _ _ _ _ HJ1)); [|intros y Hy; rewrite A2; apply lookup_insert_is_Some'; right; by apply Hlive].
    rewrite A2. apply orders_at_insert. unfold hs. rewrite concat_rev_elem. apply A3. }
  assert (Hp1 : Forall (fun o => 0 < leaves o) (tradable t (resting st1 (so_instrument t) (opposite (so_side t))))).
  { pose proof (ladder_of st1 _ Q _ t HJ1 ltac:(set_solver)) as Hld. apply Forall_forall. intros o Ho. apply list_elem_of_filter in Ho as [_ Ho]. apply list_elem_of_In, in_concat in Ho as (os & Hos' & Ho). apply list_elem_of_In in Hos', Ho.
    apply list_elem_of_fmap in Hos' as (l & -> & Hl). pose proof (ld_pos _ _ _ Hld) as Hp. rewrite Forall_forall in Hp. specialize (Hp l Hl). rewrite Forall_forall in Hp. by apply Hp. }
  assert (Hpos : Forall (fun o => 0 <= leaves o) (against st n)).
  { apply (Forall_impl (fun o => 0 < leaves o)); [|intros o; apply Z.lt_le_incl]. apply leaves_core. rewrite <- Ec. by apply leaves_core. }
  pose proof (fok_exact h t _ st1 Q A1 A7 Hp1) as Hfok. rewrite <- (lsum_core (resting st1 _ _)), Er, lsum_core in Hfok. specialize (Hfok Hmax).
  rewrite <- (alloc_core _ _ _ (tradable t _)), Ec, alloc_core in Hfok. change (so_account t) with (n_account n) in Hfok. change (so_qty t) with (n_qty n) in Hfok.
  assert (Ef : fok_refuses reducible st1 (ord st1 h) = (fillable st1 (ord st1 h) <? n_qty n)).
  { unfold fok_refuses. assert (E1 : so_tif (ord st1 h) = (if bool_decide (n_type n = Market) then Ioc else n_tif n)) by exact (f_equal so_tif Eo). rewrite E1, (bool_decide_false (n_type n = Market)), Htif by done.
    rewrite (bool_decide_true (Fok = Fok)) by done. assert (E2 : so_qty (ord st1 h) = n_qty n) by exact (f_equal so_qty Eo). assert (E3 : so_reduce_only (ord st1 h) = n_reduce_only n) by exact (f_equal so_reduce_only Eo).
    rewrite E2, E3, Hro. cbn [andb]. apply orb_false_r. }
  destruct (alloc _ _ _ (against st n)) as [[fs w] b] eqn:Ea. cbv zeta in Hs. rewrite Ef, Hfok in Hs. cbn [fst snd] in Hs.
  pose proof (alloc_bounds (stp st (n_account n) (n_instrument n)) (n_account n) (n_qty n) (against st n) ltac:(exact (Z.lt_le_incl _ _ A7)) Hpos) as Hw. rewrite Ea in Hw. cbn [fst snd] in Hw.
  destruct (Z.eqb_spec w 0) as [->|]; [by rewrite Z.sub_0_r in Hs | by rewrite (proj2 (Z.ltb_lt 0 w)) in Hs by lia].
Qed.
(** C35. The sweep of an accepted order ends: the bound of 2^64 turns on its loop is never met. *)
Theorem matching_terminates st n now : sim_reach st -> n_qty n <= i64_max -> admitted st n ->
  let h := fst (op_allocate (me_pool st)) in
  exists alive filled st', loop 64 (match_step reducible h now) (at_work st n now) = inr (alive, filled, st') /\ match_ reducible h now (at_work st n now) = (alive, filled, st').
Proof.
  intros Hr Hq Had h. destruct (reach_full st Hr) as [Q H]. destruct (at_work_ok reducible reducible_nonneg caps st n now Q H Hq Had) as (A1 & _).
  destruct (match_ok reducible reducible_nonneg h _ now _ False [] 0 false _ Q 0 A1) as ([[al fi] st'] & E1 & E2 & _); [done|]. eauto.
Qed.

(** ** Ledgers and the depth stream *)

Lemma level_qty_price_map st F Q i s px : inv st F Q -> level_qty st i s px = default 0 (price_map (PV st i s) !! px).
Proof.
  intros Hi. unfold level_qty. destruct (sb_find (book_at st i) s px) as [k|] eqn:E.
  - destruct (sb_find_inv _ _ _ _ E) as (lv & Hv & <-). fold (V st i s) in Hv. rewrite (lvl_lookup _ _ _ _ _ Hv).
    change (pl_price lv) with (l_price (flat1 lv)). rewrite (proj1 (pm_elem s _ (flat1 lv) (i_sorted _ _ _ Hi i s)) (list_elem_of_lookup_2 _ _ _ (PV_lookup _ _ _ _ _ Hv))). done.
  - destruct (price_map (PV st i s) !! px) as [q|] eqn:Eq; [|done]. apply (pm_elem s _ (mkLevel px q) (i_sorted _ _ _ Hi i s)) in Eq. apply list_elem_of_fmap in Eq as (lv & El & Hin).
    apply list_elem_of_lookup in Hin as [k Hk]. by rewrite (sb_find_some _ _ px k lv (i_sorted _ _ _ Hi i s) Hk (f_equal l_price (eq_sym El))) in E.
Qed.

(** C32. Conservation: over all accounts, what was bought, what was sold and the volume of the fills reported agree
    modulo 2^64, and so do the notionals: no fill is booked on one side only. *)
Theorem ledgers_balanced st : sim_reach st ->
  tot al_bought st =64 tot al_sold st /\ tot al_bought st =64 vol (me_log st) /\
  tot al_buy_notional st =64 tot al_sell_notional st /\ tot al_buy_notional st =64 turnover (me_log st).
Proof. intros Hr. destruct (reach_full st Hr) as [Q H]. destruct (j_booked _ _ _ _ _ (f_J _ _ _ H)) as [E1 E2 E3 E4]. split_and!; congruence. Qed.

(** C31. The depth stream is complete: replaying the level updates sent so far, last one wins, gives at every instrument,
    side and price exactly the quantity the book holds there; and the update ids of an instrument are 1, 2, 3, ...
    without gap or repetition, up to the id the book carries. *)
Theorem depth_stream_exact st : sim_reach st ->
  (forall i s px, depth_of (me_log st) i s px = level_qty st i s px) /\
  (forall i, exists n, ids_of (me_log st) i = (fun k => u64 (Z.of_nat k)) <$> seq 1 n /\ sb_update_id (book_at st i) = u64 (Z.of_nat n)).
Proof.
  intros Hr. destruct (reach_full st Hr) as [Q H]. pose proof (f_J _ _ _ H) as HJ. split; [|apply HJ].
  intros i s px. rewrite (j_depth _ _ _ _ _ HJ) by done. symmetry. apply (level_qty_price_map st ∅ Q). apply HJ.
Qed.

(** ** Amending in place *)

(** The queue at a price, oldest first, without its links. *)
Definition queue_at st (i : InstrumentId) (s : Side) (px : Price) : list SimOrder :=
  match sb_find (book_at st i) s px with None => [] | Some k => core <$> level_orders st (lvl st i s k) end.

Lemma queue_at_rep st Q i s k l h o : full st ∅ Q -> Q i s !! k = Some l -> h ∈ l -> cs st !! h = Some o ->
  queue_at st i s (so_price o) = orders_at (cs st) l.
Proof.
  intros H Hl Hh Ho. pose proof (j_inv _ _ _ _ _ (f_J _ _ _ H)) as Hi. destruct (rep_lookup _ _ _ _ _ _ _ Hi Hl) as (lv & Hv & Hr).
  destruct (lr_orders _ _ _ _ _ _ Hr h Hh) as (o' & Ho' & _ & _ & Hp). rewrite Ho in Ho'. apply (inj Some) in Ho'. subst o'.
  unfold queue_at. rewrite (sb_find_some _ _ _ k lv (i_sorted _ _ _ Hi i s) Hv (eq_sym Hp)), (lvl_lookup _ _ _ _ _ Hv), (level_orders_rep _ _ _ _ _ _ _ _ Hi Hv Hl).
  symmetry. apply (orders_core st ∅ Q l Hi). intros y Hy. by apply (queued_live _ _ _ _ _ _ _ _ Hi Hl).
Qed.

(** A replace that keeps the price and does not raise the quantity keeps the order's place: the queue at its price is
    the same orders in the same order, with the replaced one, renewed, where it stood. *)
Theorem replace_keeps_place st a orig new_id qty now o : sim_reach st -> find st a orig = Some o -> find st a new_id = None -> 0 < qty <= leaves o ->
  let st' := snd (replace reducible a orig new_id (so_price o) qty now st) in
  exists l1 l2, queue_at st (so_instrument o) (so_side o) (so_price o) = l1 ++ core o :: l2 /\
    queue_at st' (so_instrument o) (so_side o) (so_price o) = l1 ++ core (renewed o (me_next_order_id st) new_id qty now) :: l2.
Proof.
  intros Hr Hf Hn Hq st'. destruct (reach_full st Hr) as [Q H]. unfold find in Hf, Hn. destruct (im_find (me_by_key st) (key a orig)) as [h|] eqn:Eh; [|done]. apply (inj Some) in Hf.
  destruct (im_find (me_by_key st) (key a new_id)) as [?|] eqn:En; [done|].
  destruct (found _ _ _ _ H Eh) as [Hc _]. rewrite Hf in Hc. destruct (waiting st Q h _ H Hc) as (k & l1 & l2 & lv & Hl & _). change (so_instrument (core o)) with (so_instrument o) in Hl. change (so_side (core o)) with (so_side o) in Hl.
  destruct (replace_in_place a orig new_id qty now st Q h o H Eh Hf En Hq) as [R1 R2]. fold st' in R1, R2. clearbody st'.
  pose proof (nodup_mid _ _ _ (level_nodup _ _ _ _ _ _ H Hl)) as [Hnot _].
  exists (orders_at (cs st) l1), (orders_at (cs st) l2). split.
  - change (so_price o) with (so_price (core o)). rewrite (queue_at_rep st Q _ _ k _ h _ H Hl (elem_at _ _ _) Hc). unfold orders_at. by rewrite fmap_app, fmap_cons, Hc.
  - set (o' := core (renewed o (me_next_order_id st) new_id qty now)) in *. assert (Hc' : cs st' !! h = Some o') by (rewrite R2; apply lookup_insert_eq). change (so_price o) with (so_price o').
    rewrite (queue_at_rep st' Q _ _ k _ h _ R1 Hl (elem_at _ _ _) Hc'). unfold orders_at. rewrite fmap_app, fmap_cons, Hc', R2.
    fold (orders_at (<[h:=o']> (cs st)) l1). fold (orders_at (<[h:=o']> (cs st)) l2). rewrite !orders_at_insert by set_solver. done.
Qed.
End reach.

(** ** Concrete engines *)

Module ConcreteSim.
#[local] Instance key_ops : IdMapOps (OpenHash.OpenHashMap Z) | 0 := hash_id_ops 7.
#[local] Instance order_ops : ObjPoolOps (Pool.Pool SimOrder) SimOrder | 0 := pool_ops SimOrder 64.
#[local] Instance key_map : IdMap (OpenHash.OpenHashMap Z) := hash_id_map 7 ltac:(lia).
#[local] Instance order_pool : ObjPool (Pool.Pool SimOrder) SimOrder := obj_pool SimOrder 64 ltac:(unfold kNullHandle; lia).
Abbreviation SimEngine := (MatchingEngine (OpenHash.OpenHashMap Z) (Pool.Pool SimOrder)).

(** The capacities of the source, 2^16 orders in a table of 2^17 slots, satisfy the assumptions; the engines below are
    smaller, in the same proportion. *)
Lemma source_caps H1 H2 : @op_cap _ _ _ (obj_pool SimOrder kMaxSimOrders H1) < @im_cap _ _ (hash_id_map 17 H2) /\
  @op_cap _ _ _ (obj_pool SimOrder kMaxSimOrders H1) <= kMaxSimOrders.
Proof. done. Qed.
Lemma sim_caps : op_cap < im_cap.
Proof. reflexivity. Qed.
Lemma sim_orders_max : op_cap <= kMaxSimOrders.
Proof. done. Qed.

(** A sink that lets a reduce-only order fill 2. *)
Definition two (_ : list sim_event) (_ : SimOrder) : Qty := 2.
Lemma two_nonneg log o : 0 <= two log o.
Proof. done. Qed.

Definition limit (a : AccountId) (id : ClientOrderId) (s : Side) (px : Price) (q : Qty) (f : TimeInForce) : NewOrder := mkNew a id 0 s Limit f px q false.

(** Two sells wait at 100, one at 101. *)
Definition e0 : SimEngine := new_engine 1.
Definition e1 : SimEngine := snd (submit two (limit 1 1 Sell 100 5 Gtc) 10 e0).
Definition e2 : SimEngine := snd (submit two (limit 2 2 Sell 100 3 Gtc) 11 e1).
Definition e3 : SimEngine := snd (submit two (limit 2 3 Sell 101 4 Gtc) 12 e2).
Lemma e3_reach : sim_reach two e3.
Proof. unfold e3, e2, e1, e0. repeat (apply sim_submit; [|done]). apply sim_new. Qed.

Definition taker : NewOrder := limit 3 9 Buy 101 10 Gtc.
Definition killer : NewOrder := limit 3 9 Buy 101 10 Fok.

Lemma exchange_well_formed_witness : well_formed e3.
Proof. exact (exchange_well_formed two two_nonneg sim_caps sim_orders_max e3 e3_reach). Defined.

Lemma price_time_priority_witness :
  fills_of (me_log (snd (submit two taker 20 e3))) = fills_of (me_log e3) ++ [(1, 100, 5); (2, 100, 3); (3, 101, 2)] /\ sr_filled (fst (submit two taker 20 e3)) = n_qty taker - 0.
Proof.
  pose proof (price_time_priority two two_nonneg sim_caps sim_orders_max e3 taker 20 e3_reach ltac:(done) ltac:(vm_compute; reflexivity) ltac:(done) ltac:(done)
    ltac:(vm_compute; repeat constructor)) as H.
  assert (E : alloc (stp e3 (n_account taker) (n_instrument taker)) (n_account taker) (n_qty taker) (against e3 taker) = ([(1, 100, 5); (2, 100, 3); (3, 101, 2)], 0, false)) by (vm_compute; reflexivity).
  rewrite E in H. exact H.
Defined.

Lemma fok_all_or_nothing_witness :
  fills_of (me_log (snd (submit two killer 20 e3))) = fills_of (me_log e3) ++ [(1, 100, 5); (2, 100, 3); (3, 101, 2)] /\ sr_filled (fst (submit two killer 20 e3)) = n_qty killer.
Proof.
  pose proof (fok_all_or_nothing two two_nonneg sim_caps sim_orders_max e3 killer 20 e3_reach ltac:(done) ltac:(vm_compute; reflexivity) ltac:(done) ltac:(done) ltac:(done)
    ltac:(vm_compute; repeat constructor) ltac:(vm_compute; congruence)) as H.
  assert (E : alloc (stp e3 (n_account killer) (n_instrument killer)) (n_account killer) (n_qty killer) (against e3 killer) = ([(1, 100, 5); (2, 100, 3); (3, 101, 2)], 0, false)) by (vm_compute; reflexivity).
  rewrite E in H. exact H.
Defined.

Lemma matching_terminates_witness : exists alive filled st',
  loop 64 (match_step two (fst (op_allocate (me_pool e3))) 20) (at_work e3 taker 20) = inr (alive, filled, st') /\
  match_ two (fst (op_allocate (me_pool e3))) 20 (at_work e3 taker 20) = (alive, filled, st').
Proof. apply (matching_terminates two two_nonneg sim_caps sim_orders_max e3 taker 20 e3_reach); [done|]. split; vm_compute; reflexivity. Defined.

Definition e4 : SimEngine := snd (submit two taker 20 e3).
Lemma e4_reach : sim_reach two e4.
Proof. apply sim_submit; [apply e3_reach | done]. Qed.
Lemma ledgers_balanced_witness : tot al_bought e4 =64 tot al_sold e4 /\ vol (me_log e4) = 10.
Proof. split; [exact (proj1 (ledgers_balanced two two_nonneg sim_caps sim_orders_max e4 e4_reach)) | vm_compute; reflexivity]. Defined.

Lemma depth_stream_exact_witness : depth_of (me_log e4) 0 Sell 101 = level_qty e4 0 Sell 101 /\ level_qty e4 0 Sell 101 = 2.
Proof. split; [exact (proj1 (depth_stream_exact two two_nonneg sim_caps sim_orders_max e4 e4_reach) 0 Sell 101) | vm_compute; reflexivity]. Defined.

Lemma replace_keeps_place_witness : exists o l1 l2, find e3 1 1 = Some o /\ queue_at e3 0 Sell 100 = l1 ++ core o :: l2 /\
  queue_at (snd (replace two 1 1 8 100 4 30 e3)) 0 Sell 100 = l1 ++ core (renewed o (me_next_order_id e3) 8 4 30) :: l2.
Proof.
  set (o := default no_sim (find e3 1 1)). assert (E : find e3 1 1 = Some o) by (vm_compute; reflexivity).
  destruct (replace_keeps_place two two_nonneg sim_caps sim_orders_max e3 1 1 8 4 30 o e3_reach E ltac:(vm_compute; reflexivity) ltac:(vm_compute; split; [reflexivity | congruence])) as (l1 & l2 & H).
  exists o, l1, l2. split; [exact E|]. exact H.
Defined.

(** A replace under the same id, at the same price and quantity, goes to the back of the queue. *)
Lemma replace_same_id_requeues : so_cl_ord_id <$> queue_at e3 0 Sell 100 = [1; 2] /\ so_cl_ord_id <$> queue_at (snd (replace two 1 1 1 100 5 30 e3)) 0 Sell 100 = [2; 1].
Proof. vm_compute. auto. Qed.

(** A sink that lets a reduce-only order fill 2, once. *)
Definition once (log : list sim_event) (_ : SimOrder) : Qty := match fills_of log with [] => 2 | _ => 0 end.
(** A reduce-only sell of 5 waits at 100; a fill-or-kill buy of 5 arrives. *)
Definition r1 : SimEngine := snd (submit once (mkNew 1 1 0 Sell Limit Gtc 100 5 true) 10 e0).
Definition kill5 : NewOrder := limit 3 9 Buy 100 5 Fok.

(** What the fill-or-kill test leaves out: it counts a waiting reduce-only order in full, so with a reduce-only sell
    of 5 of which only 2 may fill, a fill-or-kill buy of 5 passes the test, buys 2 and expires with 3 unfilled. *)
Theorem fok_fills_partly :
  sr_filled (fst (submit once kill5 20 r1)) = 2 /\ fills_of (me_log (snd (submit once kill5 20 r1))) = [(1, 100, 2)] /\
  sr_resting (fst (submit once kill5 20 r1)) = 0 /\ fillable (at_work r1 kill5 20) (order_of r1 kill5 20) = 5.
Proof. vm_compute. auto. Qed.
End ConcreteSim.
