(* ===== verification/QuoteManager.v ===== *)
(** * QuoteManager: the differ of desired and resting quotes ([quote_manager.hpp])

    The manager compares the ladder a strategy wants with the orders that rest and sends the
    difference through a placer.  A slot per instrument, side and level remembers its order and
    the target to apply once that order is no longer pending; three queues remember instruments
    to try again.  The order manager and everything the placer touches are a world [W], read
    through [live_order]; the placer takes an action and the world and returns whether it was
    sent, the action with its output fields, and the new world.  It does not call back into the
    manager.  A [float] is only stored and passed on: it is its bit pattern. *)

From S2P Require Import Prelude Types FixedPoint L2Book RingBuffer Instruments Orders Oms.

(** ** Data *)

Definition kMaxQuoteLevels : nat := 8.
Definition kNever : Z := i64_max.
Abbreviation float := Z (only parsing).
(** The quiet NaN. *)
Definition kNoValue : float := 2143289344.

Record DesiredQuotes := mkDesired {
  dq_bids : list Level;
  dq_asks : list Level;
  dq_bid_account : gmap Z VenueId;
  dq_ask_account : gmap Z VenueId;
  dq_bid_value : gmap Z float;
  dq_ask_value : gmap Z float;
  dq_bid_keep : gmap Z float;
  dq_ask_keep : gmap Z float;
}.
#[export] Instance eta_desired : Eta DesiredQuotes := fun d =>
  mkDesired (dq_bids d) (dq_asks d) (dq_bid_account d) (dq_ask_account d) (dq_bid_value d) (dq_ask_value d) (dq_bid_keep d) (dq_ask_keep d).
Definition no_quotes : DesiredQuotes := mkDesired [] [] ∅ ∅ ∅ ∅ ∅ ∅.

Definition in_ladder (lvl : Z) : bool := lvl <? Z.of_nat kMaxQuoteLevels.
Definition dq_side (d : DesiredQuotes) (s : Side) : list Level := match s with Buy => dq_bids d | Sell => dq_asks d end.
Definition dq_account (d : DesiredQuotes) (s : Side) (lvl : Z) : VenueId :=
  if in_ladder lvl then default kInvalidVenue ((match s with Buy => dq_bid_account d | Sell => dq_ask_account d end) !! lvl) else kInvalidVenue.
Definition dq_value (d : DesiredQuotes) (s : Side) (lvl : Z) : float :=
  if in_ladder lvl then default kNoValue ((match s with Buy => dq_bid_value d | Sell => dq_ask_value d end) !! lvl) else kNoValue.
Definition dq_keep (d : DesiredQuotes) (s : Side) (lvl : Z) : float :=
  if in_ladder lvl then default kNoValue ((match s with Buy => dq_bid_keep d | Sell => dq_ask_keep d end) !! lvl) else kNoValue.
Definition dq_set_value (s : Side) (lvl : Z) (value keep : float) (d : DesiredQuotes) : DesiredQuotes :=
  if negb (in_ladder lvl) then d
  else match s with
  | Buy => d <| dq_bid_value ::= insert lvl value |> <| dq_bid_keep ::= insert lvl keep |>
  | Sell => d <| dq_ask_value ::= insert lvl value |> <| dq_ask_keep ::= insert lvl keep |>
  end.
Definition dq_empty (d : DesiredQuotes) : bool := bool_decide (dq_bids d = []) && bool_decide (dq_asks d = []).
(** [bid(px, qty)] and [ask(px, qty)]. *)
Definition dq_push (s : Side) (px : Price) (q : Qty) (d : DesiredQuotes) : bool * DesiredQuotes :=
  if (0 <? px) && (0 <? q) then
    let '(ok, v) := SVec.push_back kMaxQuoteLevels (mkLevel px q) (dq_side d s) in
    (ok, match s with Buy => d <| dq_bids := v |> | Sell => d <| dq_asks := v |> end)
  else (false, d).
(** ... with the level's value and keep value. *)
Definition dq_push_valued (s : Side) (px : Price) (q : Qty) (value keep : float) (d : DesiredQuotes) : bool * DesiredQuotes :=
  let '(ok, d) := dq_push s px q d in
  if negb ok then (false, d) else (true, dq_set_value s (Z.of_nat (length (dq_side d s)) - 1) value keep d).
Definition uncross (tick : Price) (d : DesiredQuotes) : DesiredQuotes :=
  match dq_bids d, dq_asks d with
  | b :: _, a :: asks => if l_price a <=? l_price b then d <| dq_asks := mkLevel (fx_add (l_price b) tick) (l_qty a) :: asks |> else d
  | _, _ => d
  end.

Record QuoteParams := mkQuoteParams {
  qp_min_requote_ticks : Z;
  qp_min_requote_interval : Duration;
  qp_min_qty_bps : Z;
  qp_supports_replace : bool;
  qp_replace_all_venues : bool;
  qp_post_only : bool;
  qp_reject_backoff : Duration;
  qp_reject_backoff_max : Duration;
  qp_token_reserve : Z;
  qp_room_reserve : Z;
}.
Definition default_quote_params : QuoteParams := mkQuoteParams 1 50000000 8000 false false true 1000000000 60000000000 0 0.

Inductive QuoteActionKind := ANew | ACancel | AReplace.
#[export] Instance QuoteActionKind_eq_dec : EqDecision QuoteActionKind.
Proof. solve_decision. Defined.

Record QuoteAction := mkAction {
  qa_kind : QuoteActionKind;
  qa_instrument : InstrumentId;
  qa_side : Side;
  qa_level : Z;
  qa_handle : Z;
  qa_cl_ord_id : ClientOrderId;
  qa_price : Price;
  qa_qty : Qty;
  qa_post_only : bool;
  qa_deferred : bool;
  qa_withheld : bool;
  qa_rate_limited : bool;
  qa_account : VenueId;
  qa_refused : RejectReason;
  qa_held : bool;
  qa_value : float;
  qa_keep : float;
  qa_priced_out : bool;
  qa_paid : bool;
}.
#[export] Instance eta_action : Eta QuoteAction := fun a =>
  mkAction (qa_kind a) (qa_instrument a) (qa_side a) (qa_level a) (qa_handle a) (qa_cl_ord_id a) (qa_price a) (qa_qty a) (qa_post_only a)
    (qa_deferred a) (qa_withheld a) (qa_rate_limited a) (qa_account a) (qa_refused a) (qa_held a) (qa_value a) (qa_keep a) (qa_priced_out a) (qa_paid a).
(** The fields an action is built with; the rest are value-initialised. *)
Definition new_action (k : QuoteActionKind) (i : InstrumentId) (s : Side) (lvl h : Z) (px : Price) (q : Qty) (post : bool) : QuoteAction :=
  mkAction k i s lvl h 0 px q post false false false kInvalidVenue NoReason false kNoValue kNoValue false false.

Record QuoteStats := mkQuoteStats {
  qs_news : Z; qs_cancels : Z; qs_replaces : Z; qs_kept_hysteresis : Z; qs_kept_interval : Z; qs_skipped_pending : Z; qs_rejected : Z;
  qs_reject_backoffs : Z; qs_kept_backoff : Z; qs_kept_balance : Z; qs_kept_rate_limit : Z; qs_kept_room : Z; qs_retries : Z;
  qs_priced_out : Z; qs_priced_out_moves : Z }.
#[export] Instance eta_qstats : Eta QuoteStats := fun s =>
  mkQuoteStats (qs_news s) (qs_cancels s) (qs_replaces s) (qs_kept_hysteresis s) (qs_kept_interval s) (qs_skipped_pending s) (qs_rejected s)
    (qs_reject_backoffs s) (qs_kept_backoff s) (qs_kept_balance s) (qs_kept_rate_limit s) (qs_kept_room s) (qs_retries s)
    (qs_priced_out s) (qs_priced_out_moves s).
Definition no_qstats : QuoteStats := mkQuoteStats 0 0 0 0 0 0 0 0 0 0 0 0 0 0 0.

Record Slot := mkSlot {
  sl_handle : Z;
  sl_cl_ord_id : ClientOrderId;
  sl_last_requote : Timestamp;
  sl_want : Level;
  sl_want_account : VenueId;
  sl_want_value : float;
  sl_want_keep : float;
  sl_paid : bool;
  sl_apply_want : bool;
  sl_awaiting_terminal : bool;
}.
#[export] Instance eta_slot : Eta Slot := fun s =>
  mkSlot (sl_handle s) (sl_cl_ord_id s) (sl_last_requote s) (sl_want s) (sl_want_account s) (sl_want_value s) (sl_want_keep s) (sl_paid s)
    (sl_apply_want s) (sl_awaiting_terminal s).
Definition new_slot : Slot := mkSlot kNullHandle 0 0 no_level kInvalidVenue kNoValue kNoValue false false false.
Definition slot_empty (s : Slot) : bool := negb (handle_valid (sl_handle s)) && negb (sl_apply_want s) && negb (sl_awaiting_terminal s).

(** The arrays by side and by level read as value-initialised where nothing was written. *)
Record InstState := mkInstState {
  is_slots : gmap (Z * Z) Slot;
  is_used : gmap Z Z;
  is_desired : DesiredQuotes;
  is_pulled : bool;
  is_paused : bool;
  is_resumable : bool;
  is_venue_no_replace : bool;
  is_replace : bool;
  is_backoff : gmap Z Duration;
  is_blocked_until : gmap Z Timestamp;
  is_starved : bool;
  is_priced : bool;
  is_retry_at : Timestamp;
}.
#[export] Instance eta_inst_state : Eta InstState := fun s =>
  mkInstState (is_slots s) (is_used s) (is_desired s) (is_pulled s) (is_paused s) (is_resumable s) (is_venue_no_replace s) (is_replace s)
    (is_backoff s) (is_blocked_until s) (is_starved s) (is_priced s) (is_retry_at s).
Definition new_inst : InstState := mkInstState ∅ ∅ no_quotes false false false false false ∅ ∅ false false kNever.
Definition slot_of (st : InstState) (s : Side) (lvl : Z) : Slot := default new_slot (is_slots st !! (side_ix s, lvl)).
Definition used_of (st : InstState) (s : Side) : Z := default 0 (is_used st !! side_ix s).
Definition backoff_of (st : InstState) (s : Side) : Duration := default 0 (is_backoff st !! side_ix s).
Definition blocked_of (st : InstState) (s : Side) : Timestamp := default 0 (is_blocked_until st !! side_ix s).

Record QuoteManager := mkQuotes {
  qm_params : QuoteParams;
  qm_stats : QuoteStats;
  qm_state : gmap Z InstState;
  qm_starved : Ring.Ring Z;
  qm_priced : Ring.Ring Z;
  qm_backed_off : Ring.Ring Z;
  qm_backoff_due : Timestamp;
  qm_held : gmap Z bool;
}.
#[export] Instance eta_quotes : Eta QuoteManager := fun q =>
  mkQuotes (qm_params q) (qm_stats q) (qm_state q) (qm_starved q) (qm_priced q) (qm_backed_off q) (qm_backoff_due q) (qm_held q).

(** [kMaxInstruments] is 2 to this. *)
Definition queue_bits : Z := 8.

(** ** State access *)

Definition st_at (q : QuoteManager) (i : InstrumentId) : InstState := default new_inst (qm_state q !! i).
Definition upd_st (i : InstrumentId) (f : InstState -> InstState) (q : QuoteManager) : QuoteManager :=
  q <| qm_state := <[i := f (st_at q i)]> (qm_state q) |>.
Definition slot_at (q : QuoteManager) (i : InstrumentId) (s : Side) (lvl : Z) : Slot := slot_of (st_at q i) s lvl.
Definition upd_slot (i : InstrumentId) (s : Side) (lvl : Z) (f : Slot -> Slot) (q : QuoteManager) : QuoteManager :=
  upd_st i (fun st => st <| is_slots := <[(side_ix s, lvl) := f (slot_of st s lvl)]> (is_slots st) |>) q.
Definition qstat (f : QuoteStats -> QuoteStats) (q : QuoteManager) : QuoteManager := q <| qm_stats ::= f |>.
Definition inc (x : Z) : Z := u64 (x + 1).
Definition side_held (q : QuoteManager) (s : Side) : bool := default false (qm_held q !! side_ix s).
Definition hold_side (s : Side) (on : bool) (q : QuoteManager) : QuoteManager := q <| qm_held ::= insert (side_ix s) on |>.

Definition resolve_replace (q : QuoteManager) : QuoteManager :=
  fold_left (fun q i => upd_st i (fun st => st <| is_replace := qp_supports_replace (qm_params q) && negb (is_venue_no_replace st) |>) q)
    (seqZ 0 kMaxInstruments) q.
Definition new_quote_manager (p : QuoteParams) : QuoteManager :=
  resolve_replace (mkQuotes p no_qstats ∅ Ring.ring_empty Ring.ring_empty Ring.ring_empty kNever ∅).
Definition set_params (p : QuoteParams) (q : QuoteManager) : QuoteManager := resolve_replace (q <| qm_params := p |>).
Definition set_replace (i : InstrumentId) (on : bool) (q : QuoteManager) : QuoteManager :=
  upd_st i (fun st => st <| is_venue_no_replace := negb on |> <| is_replace := qp_supports_replace (qm_params q) && on |>) q.

Definition make_tag (s : Side) (lvl : Z) : Z := Z.lor (Z.lor 1358954496 (Z.shiftl (side_ix s) 8)) lvl.
Definition is_quote_tag (t : Z) : bool := Z.land t 4294901760 =? 1358954496.
(** The side and level of a tag. *)
Definition tag_side (t : Z) : Side := if Z.land (Z.shiftr t 8) 1 =? 0 then Buy else Sell.
Definition tag_level (t : Z) : Z := Z.land t 255.

(** ** Backoff and the queues *)

Definition backing_off (st : InstState) (s : Side) (now : Timestamp) : bool := (0 <? backoff_of st s) && (now <? blocked_of st s).
Definition set_retry (i : InstrumentId) (t : Timestamp) (q : QuoteManager) : QuoteManager := upd_st i (fun st => st <| is_retry_at := t |>) q.
Definition kept_backoff (i : InstrumentId) (s : Side) (q : QuoteManager) : QuoteManager :=
  let q := qstat (fun x => x <| qs_kept_backoff ::= inc |>) q in
  let until := blocked_of (st_at q i) s in
  let wait q := (set_retry i (Z.min (is_retry_at (st_at q i)) until) q) <| qm_backoff_due ::= Z.min until |> in
  if is_retry_at (st_at q i) =? kNever then
    match Ring.try_push queue_bits (qm_backed_off q) i with
    | (false, _) => q
    | (true, r) => wait (q <| qm_backed_off := r |>)
    end
  else wait q.
Definition back_off (i : InstrumentId) (s : Side) (now : Timestamp) (q : QuoteManager) : QuoteManager :=
  let p := qm_params q in
  if qp_reject_backoff p <=? 0 then q
  else
    let b := backoff_of (st_at q i) s in
    let next := if b <=? 0 then qp_reject_backoff p else i64 (b + b) in
    let next := if (0 <? qp_reject_backoff_max p) && (qp_reject_backoff_max p <? next) then qp_reject_backoff_max p else next in
    qstat (fun x => x <| qs_reject_backoffs ::= inc |>)
      (upd_st i (fun st => st <| is_backoff ::= insert (side_ix s) next |> <| is_blocked_until ::= insert (side_ix s) (i64 (now + next)) |>) q).
Definition on_venue_reject (i : InstrumentId) (s : Side) (r : RejectReason) (now : Timestamp) (q : QuoteManager) : QuoteManager :=
  if bool_decide (r = PostOnlyWouldCross) || bool_decide (r = VenueUnknownOrder) then q else back_off i s now q.
Definition held_back (i : InstrumentId) (a : QuoteAction) (now : Timestamp) (q : QuoteManager) : QuoteManager :=
  if negb (qa_rate_limited a) then
    let q := qstat (fun x => x <| qs_rejected ::= inc |>) q in
    if bool_decide (qa_refused a = PriceCollar) || bool_decide (qa_refused a = FatFinger) then back_off i (qa_side a) now q else q
  else
    let q := qstat (fun x => x <| qs_kept_rate_limit ::= inc |>) q in
    if is_starved (st_at q i) then q
    else (upd_st i (fun st => st <| is_starved := true |>) q) <| qm_starved ::= fun r => snd (Ring.try_push queue_bits r i) |>.
Definition queue_priced (i : InstrumentId) (q : QuoteManager) : QuoteManager :=
  if is_priced (st_at q i) then q
  else let '(ok, r) := Ring.try_push queue_bits (qm_priced q) i in upd_st i (fun st => st <| is_priced := ok |>) (q <| qm_priced := r |>).

(** ** The slot machine *)

Section quotes.
Context {W : Type}.
(** The live order behind a handle: [oms.is_live] and [oms.get]. *)
Variable live_order : W -> Z -> option Order.
(** [place(a)]: whether it was sent, the action with its outputs, the world after. *)
Variable place : QuoteAction -> W -> bool * QuoteAction * W.

Definition owns (w : W) (i : InstrumentId) (s : Side) (lvl : Z) (sl : Slot) : bool :=
  handle_valid (sl_handle sl) &&
  match live_order w (sl_handle sl) with
  | None => false
  | Some o => (o_instrument o =? i) && (o_user_tag o =? make_tag s lvl)
  end.
Definition the_order (w : W) (sl : Slot) : Order := default no_order (live_order w (sl_handle sl)).

(** [slot.want], its account and values, to be applied later. *)
Definition record_want (target : Level) (account : VenueId) (value keep : float) (sl : Slot) : Slot :=
  sl <| sl_want := target |> <| sl_want_account := account |> <| sl_want_value := value |> <| sl_want_keep := keep |> <| sl_apply_want := true |>.

Definition cancel (i : InstrumentId) (s : Side) (lvl : Z) (q : QuoteManager) (w : W) : Z * QuoteManager * W :=
  let a := new_action ACancel i s lvl (sl_handle (slot_at q i s lvl)) 0 0 false in
  let '(ok, _, w) := place a w in
  if negb ok then (0, qstat (fun x => x <| qs_rejected ::= inc |>) q, w)
  else (1, upd_slot i s lvl (fun sl => sl <| sl_awaiting_terminal := true |>) (qstat (fun x => x <| qs_cancels ::= inc |>) q), w).

Definition move (i : InstrumentId) (s : Side) (lvl : Z) (target : Level) (account : VenueId) (value keep : float) (q : QuoteManager) (w : W) :
    Z * QuoteManager * W :=
  let a := (new_action ACancel i s lvl (sl_handle (slot_at q i s lvl)) (l_price target) (l_qty target) false) <| qa_value := value |> <| qa_keep := keep |> in
  let q := upd_slot i s lvl (fun sl => (record_want target account value keep sl) <| sl_paid := false |>) q in
  let forget q := upd_slot i s lvl (fun sl => sl <| sl_apply_want := false |>) q in
  let '(ok, a, w) := place a w in
  if negb ok then
    (0, (if qa_priced_out a then queue_priced i (qstat (fun x => x <| qs_priced_out_moves ::= inc |>) (forget q))
         else if qa_held a then qstat (fun x => x <| qs_kept_room ::= inc |>) (forget q)
         else qstat (fun x => x <| qs_rejected ::= inc |>) q), w)
  else (1, upd_slot i s lvl (fun sl => sl <| sl_paid := qa_paid a |> <| sl_awaiting_terminal := true |>) (qstat (fun x => x <| qs_cancels ::= inc |>) q), w).

Definition submit_new (i : InstrumentId) (s : Side) (lvl : Z) (target : Level) (account : VenueId) (value : float) (now : Timestamp) (deferred : bool)
    (q : QuoteManager) (w : W) : Z * QuoteManager * W :=
  let a := (new_action ANew i s lvl kNullHandle (l_price target) (l_qty target) (qp_post_only (qm_params q)))
    <| qa_deferred := deferred |> <| qa_account := account |> <| qa_value := value |> <| qa_paid := deferred && sl_paid (slot_at q i s lvl) |> in
  let q := upd_slot i s lvl (fun sl => sl <| sl_paid := false |>) q in
  let '(ok, a, w) := place a w in
  if negb ok || negb (handle_valid (qa_handle a)) then
    (0, (if qa_priced_out a then queue_priced i (qstat (fun x => x <| qs_priced_out ::= inc |>) q)
         else if qa_withheld a then qstat (fun x => x <| qs_kept_balance ::= inc |>) q
         else held_back i a now q), w)
  else (1, upd_slot i s lvl (fun sl => sl <| sl_handle := qa_handle a |> <| sl_cl_ord_id := qa_cl_ord_id a |> <| sl_last_requote := now |>
             <| sl_awaiting_terminal := false |>) (qstat (fun x => x <| qs_news ::= inc |>) q), w).

(** The hysteresis on price and quantity, and the interval. *)
Definition close_enough (p : QuoteParams) (tick : Price) (o : Order) (target : Level) : bool :=
  (Z.quot (fx_abs (fx_sub (l_price target) (o_price o))) tick <? qp_min_requote_ticks p) &&
  (i128 (l_qty target * qp_min_qty_bps p) <=? i128 (leaves_qty o * 10000)).
Definition too_soon (p : QuoteParams) (sl : Slot) (now : Timestamp) : bool := i64 (now - sl_last_requote sl) <? qp_min_requote_interval p.
(** A move of [o] to [px] goes away from the touch. *)
Definition away (s : Side) (px : Price) (o : Order) : bool := match s with Buy => px <? o_price o | Sell => o_price o <? px end.

(** A slot whose order rests and is not pending, with a level to quote. *)
Definition requote (inst : Instrument) (s : Side) (lvl : Z) (target : Level) (account : VenueId) (value keep : float) (now : Timestamp)
    (q : QuoteManager) (w : W) : Z * QuoteManager * W :=
  let i := in_id inst in
  let sl := slot_at q i s lvl in
  let o := the_order w sl in
  if negb (account =? kInvalidVenue) && negb (o_venue o =? account) then
    cancel i s lvl (upd_slot i s lvl (fun sl => (record_want target account value keep sl) <| sl_paid := false |>) q) w
  else if close_enough (qm_params q) (in_tick inst) o target then (0, qstat (fun x => x <| qs_kept_hysteresis ::= inc |>) q, w)
  else if too_soon (qm_params q) sl now then (0, qstat (fun x => x <| qs_kept_interval ::= inc |>) q, w)
  else if is_replace (st_at q i) && negb (backing_off (st_at q i) s now) then
    let a := (new_action AReplace i s lvl (sl_handle sl) (l_price target) (l_qty target) (qp_post_only (qm_params q))) <| qa_value := value |> <| qa_keep := keep |> in
    let '(ok, a, w) := place a w in
    if negb ok then
      if qa_priced_out a then
        if away s (l_price target) (the_order w sl) then move i s lvl target account value keep q w
        else (0, queue_priced i (qstat (fun x => x <| qs_priced_out_moves ::= inc |>) q), w)
      else if qa_held a then (0, qstat (fun x => x <| qs_kept_room ::= inc |>) q, w)
      else (0, held_back i a now q, w)
    else (1, upd_slot i s lvl (fun sl => sl <| sl_last_requote := now |>) (qstat (fun x => x <| qs_replaces ::= inc |>) q), w)
  else move i s lvl target account value keep q w.

Definition reconcile_slot (inst : Instrument) (s : Side) (lvl : Z) (target : Level) (account : VenueId) (value keep : float) (now : Timestamp)
    (q : QuoteManager) (w : W) : Z * QuoteManager * W :=
  let i := in_id inst in
  let has_want := 0 <? l_qty target in
  if owns w i s lvl (slot_at q i s lvl) then
    if is_pending (o_state (the_order w (slot_at q i s lvl))) then
      (0, upd_slot i s lvl (record_want target account value keep) (qstat (fun x => x <| qs_skipped_pending ::= inc |>) q), w)
    else
      let q := upd_slot i s lvl (fun sl => sl <| sl_apply_want := false |>) q in
      if negb has_want then cancel i s lvl q w else requote inst s lvl target account value keep now q w
  else
    let q := upd_slot i s lvl (fun sl => sl <| sl_handle := kNullHandle |> <| sl_awaiting_terminal := false |> <| sl_apply_want := false |>) q in
    if negb has_want then (0, q, w)
    else if backing_off (st_at q i) s now then (0, kept_backoff i s q, w)
    else submit_new i s lvl target account value now false q w.

(** ** Whole ladders *)

(** The loop over the levels of a side; the accumulator holds the actions and 1 + the last slot in use. *)
Definition over_levels (i : InstrumentId) (s : Side) (slot_step : Z -> QuoteManager -> W -> Z * QuoteManager * W) (n : Z) (q : QuoteManager) (w : W) :
    Z * Z * QuoteManager * W :=
  fold_left (fun '(acts, used, q, w) lvl =>
    let '(k, q, w) := slot_step lvl q w in
    (u32 (acts + k), if slot_empty (slot_at q i s lvl) then used else lvl + 1, q, w)) (seqZ 0 n) (0, 0, q, w).
Definition set_used (i : InstrumentId) (s : Side) (n : Z) (q : QuoteManager) : QuoteManager := upd_st i (fun st => st <| is_used ::= insert (side_ix s) n |>) q.

(** What level [lvl] of the ladder asks for. *)
Definition wanted (q : QuoteManager) (i : InstrumentId) (s : Side) (lvl : Z) : Level :=
  let want := dq_side (is_desired (st_at q i)) s in
  if negb (side_held q s) && (lvl <? Z.of_nat (length want)) && (0 <? l_qty (default no_level (want !! Z.to_nat lvl)))
  then default no_level (want !! Z.to_nat lvl) else no_level.
Definition reconcile_side (inst : Instrument) (s : Side) (now : Timestamp) (q : QuoteManager) (w : W) : Z * QuoteManager * W :=
  let i := in_id inst in
  let d := is_desired (st_at q i) in
  let n := Z.max (Z.of_nat (length (dq_side d s))) (used_of (st_at q i) s) in
  let '(acts, used, q, w) := over_levels i s (fun lvl q w =>
    reconcile_slot inst s lvl (wanted q i s lvl) (dq_account (is_desired (st_at q i)) s lvl) (dq_value (is_desired (st_at q i)) s lvl)
      (dq_keep (is_desired (st_at q i)) s lvl) now q w) n q w in
  (acts, set_used i s used q, w).
Definition reconcile (inst : Instrument) (desired : DesiredQuotes) (now : Timestamp) (q : QuoteManager) (w : W) : Z * QuoteManager * W :=
  let q := upd_st (in_id inst) (fun st => st <| is_pulled := false |> <| is_paused := false |> <| is_resumable := false |> <| is_desired := desired |>) q in
  let '(n1, q, w) := reconcile_side inst Buy now q w in
  let '(n2, q, w) := reconcile_side inst Sell now q w in
  (u32 (n1 + n2), q, w).

Definition pull_slot (i : InstrumentId) (s : Side) (lvl : Z) (q : QuoteManager) (w : W) : Z * QuoteManager * W :=
  let q := upd_slot i s lvl (fun sl => sl <| sl_apply_want := false |>) q in
  if negb (owns w i s lvl (slot_at q i s lvl)) then (0, q, w)
  else if negb (is_working (the_order w (slot_at q i s lvl))) then (0, q, w)
  else cancel i s lvl q w.
Definition pull_levels (i : InstrumentId) (s : Side) (q : QuoteManager) (w : W) : Z * QuoteManager * W :=
  let '(acts, _, q, w) := over_levels i s (pull_slot i s) (Z.of_nat kMaxQuoteLevels) q w in (acts, q, w).
Definition keep_resumable (st : InstState) : bool := is_resumable st || (negb (is_pulled st) && negb (dq_empty (is_desired st))).
Definition pull_quotes (i : InstrumentId) (keep_desired : bool) (q : QuoteManager) (w : W) : Z * QuoteManager * W :=
  let q := upd_st i (fun st => if keep_desired then st <| is_resumable := keep_resumable st |>
                               else st <| is_resumable := false |> <| is_desired := no_quotes |>) q in
  let q := upd_st i (fun st => st <| is_pulled := true |> <| is_paused := false |>) q in
  let '(n1, q, w) := pull_levels i Buy q w in
  let '(n2, q, w) := pull_levels i Sell q w in
  (u32 (n1 + n2), q, w).

Definition pause_quotes (i : InstrumentId) (q : QuoteManager) : QuoteManager :=
  let q := upd_st i (fun st => st <| is_resumable := keep_resumable st |> <| is_paused := true |>) q in
  upd_st i (fun st => st <| is_slots ::= fmap (fun sl => sl <| sl_apply_want := false |>) |>) q.

Definition resume (inst : Instrument) (now : Timestamp) (q : QuoteManager) (w : W) : Z * QuoteManager * W :=
  let q := upd_st (in_id inst) (fun st => st <| is_paused := false |>) q in
  if negb (is_resumable (st_at q (in_id inst))) then (0, q, w) else reconcile inst (is_desired (st_at q (in_id inst))) now q w.

Definition pull_side (inst : Instrument) (s : Side) (now : Timestamp) (q : QuoteManager) (w : W) : Z * QuoteManager * W :=
  let i := in_id inst in
  let '(acts, used, q, w) := over_levels i s (fun lvl q w => reconcile_slot inst s lvl no_level kInvalidVenue kNoValue kNoValue now q w)
    (used_of (st_at q i) s) q w in
  (acts, set_used i s used q, w).
Definition reapply (inst : Instrument) (now : Timestamp) (q : QuoteManager) (w : W) : Z * QuoteManager * W :=
  let st := st_at q (in_id inst) in
  if is_pulled st || is_paused st || dq_empty (is_desired st) then (0, q, w) else reconcile inst (is_desired st) now q w.

(** ** Retries *)

(** [retry_backed_off] and [retry_priced]. *)
Definition retry_queued (inst : Instrument) (now : Timestamp) (q : QuoteManager) (w : W) : Z * QuoteManager * W :=
  let st := st_at q (in_id inst) in
  if is_pulled st || is_paused st then (0, q, w) else reconcile inst (is_desired st) now q w.
Definition retry (inst : Instrument) (now : Timestamp) (q : QuoteManager) (w : W) : Z * QuoteManager * W :=
  let st := st_at q (in_id inst) in
  if is_pulled st || is_paused st then (0, q, w)
  else reconcile inst (is_desired st) now (qstat (fun x => x <| qs_retries ::= inc |>) q) w.

(** [None] when nothing is starved, where the source may not call it. *)
Definition pop_starved (q : QuoteManager) : option (InstrumentId * QuoteManager) :=
  match Ring.pop queue_bits (qm_starved q) with
  | Some (Some i, r) => Some (i, upd_st i (fun st => st <| is_starved := false |>) (q <| qm_starved := r |>))
  | _ => None
  end.

(** The instruments whose backoff has ended leave the queue and go to [f], which may queue them again; [n] counts down
    from the size at the call. *)
Fixpoint take_due (now : Timestamp) (f : InstrumentId -> QuoteManager -> W -> QuoteManager * W) (n : nat) (q : QuoteManager) (w : W) : QuoteManager * W :=
  match n with
  | O => (q, w)
  | S n =>
    match Ring.pop queue_bits (qm_backed_off q) with
    | Some (Some i, r) =>
      let q := q <| qm_backed_off := r |> in
      let at_ := is_retry_at (st_at q i) in
      if now <? at_ then
        take_due now f n (q <| qm_backed_off ::= fun r => snd (Ring.try_push queue_bits r i) |> <| qm_backoff_due ::= Z.min at_ |>) w
      else
        let '(q, w) := f i (set_retry i kNever q) w in take_due now f n q w
    | _ => (q, w)
    end
  end.
Definition take_backoff_due (now : Timestamp) (f : InstrumentId -> QuoteManager -> W -> QuoteManager * W) (q : QuoteManager) (w : W) : QuoteManager * W :=
  if now <? qm_backoff_due q then (q, w)
  else take_due now f (Z.to_nat (Ring.size (qm_backed_off q))) (q <| qm_backoff_due := kNever |>) w.

Fixpoint take_all_priced (f : InstrumentId -> QuoteManager -> W -> QuoteManager * W) (n : nat) (q : QuoteManager) (w : W) : QuoteManager * W :=
  match n with
  | O => (q, w)
  | S n =>
    match Ring.pop queue_bits (qm_priced q) with
    | Some (Some i, r) =>
      let '(q, w) := f i (upd_st i (fun st => st <| is_priced := false |>) (q <| qm_priced := r |>)) w in take_all_priced f n q w
    | _ => (q, w)
    end
  end.
Definition take_priced (f : InstrumentId -> QuoteManager -> W -> QuoteManager * W) (q : QuoteManager) (w : W) : QuoteManager * W :=
  take_all_priced f (Z.to_nat (Ring.size (qm_priced q))) q w.

(** ** Order updates *)

Definition was_pending (u : OmsUpdate) : bool := bool_decide (u_prev u = PendingNew) || bool_decide (u_prev u = PendingReplace).

(** An update that leaves the order alive. *)
Definition on_live_update (u : OmsUpdate) (inst : Instrument) (s : Side) (lvl : Z) (now : Timestamp) (q : QuoteManager) (w : W) : QuoteManager * W :=
  let i := in_id inst in
  let q := if was_pending u && bool_decide (u_refused u = NoReason) && is_working (u_order u)
           then upd_st i (fun st => st <| is_backoff ::= insert (side_ix s) 0 |>) q else q in
  let sl := slot_at q i s lvl in
  if negb (handle_valid (u_handle u)) || negb (sl_handle sl =? u_handle u) || negb (owns w i s lvl sl) || negb (is_working (u_order u)) then (q, w)
  else if is_pulled (st_at q i) then let '(_, q, w) := cancel i s lvl q w in (q, w)
  else if is_paused (st_at q i) then (q, w)
  else if sl_apply_want sl && was_pending u then
    let q := upd_slot i s lvl (fun sl => sl <| sl_apply_want := false |>) q in
    let '(_, q, w) := reconcile_slot inst s lvl (if side_held q s then no_level else sl_want sl) (sl_want_account sl) (sl_want_value sl) (sl_want_keep sl) now q w in
    (q, w)
  else (q, w).

(** An update that ends the order. *)
Definition on_terminal_update (inst : Instrument) (s : Side) (lvl : Z) (now : Timestamp) (q : QuoteManager) (w : W) : QuoteManager * W :=
  let i := in_id inst in
  if owns w i s lvl (slot_at q i s lvl) then (q, w)
  else
    let q := upd_slot i s lvl (fun sl => sl <| sl_handle := kNullHandle |> <| sl_cl_ord_id := 0 |> <| sl_awaiting_terminal := false |>) q in
    let sl := slot_at q i s lvl in
    if is_pulled (st_at q i) || is_paused (st_at q i) || negb (sl_apply_want sl) then (q, w)
    else
      let q := upd_slot i s lvl (fun sl => sl <| sl_apply_want := false |>) q in
      if negb (0 <? l_qty (sl_want sl)) || side_held q s then (q, w)
      else if backing_off (st_at q i) s now then (kept_backoff i s q, w)
      else let '(_, q, w) := submit_new i s lvl (sl_want sl) (sl_want_account sl) (sl_want_value sl) now true q w in (q, w).

Definition on_order_update (u : OmsUpdate) (inst : Instrument) (now : Timestamp) (q : QuoteManager) (w : W) : QuoteManager * W :=
  let t := o_user_tag (u_order u) in
  if negb (is_quote_tag t) then (q, w)
  else
    let s := tag_side t in
    let lvl := tag_level t in
    if (Z.of_nat kMaxQuoteLevels <=? lvl) || negb (o_instrument (u_order u) =? in_id inst) then (q, w)
    else
      let q := if negb (bool_decide (u_refused u = NoReason)) then on_venue_reject (in_id inst) s (u_refused u) now q else q in
      if negb (u_terminal u) then on_live_update u inst s lvl now q w else on_terminal_update inst s lvl now q w.
End quotes.
