(* ===== verification/QuoteInv.v ===== *)
(** * QuoteInv: one order per level

    What the manager needs from a placer, the invariant that every live quote is held by the slot of its instrument,
    side and level, and the proof that every step on a slot keeps it and only touches that slot's order. *)

From S2P Require Import Prelude Types FixedPoint L2Book RingBuffer Instruments Orders Oms QuoteManager.

#[local] Arguments i64 : simpl never.
#[local] Arguments u32 : simpl never.
#[local] Arguments u64 : simpl never.
#[local] Arguments kNullHandle : simpl never.
#[local] Arguments make_tag : simpl never.

(** ** Tags *)

Definition is_level (l : Z) : Prop := 0 <= l < 8.
Ltac each_level l := let H := fresh in assert (H : l = 0 \/ l = 1 \/ l = 2 \/ l = 3 \/ l = 4 \/ l = 5 \/ l = 6 \/ l = 7) by (unfold is_level in *; lia);
  destruct H as [-> | [-> | [-> | [-> | [-> | [-> | [-> | ->]]]]]]].
Lemma tag_roundtrip s l : is_level l -> tag_side (make_tag s l) = s /\ tag_level (make_tag s l) = l /\ is_quote_tag (make_tag s l) = true.
Proof. intros Hl. each_level l; by destruct s. Qed.
Lemma make_tag_inj s l s' l' : is_level l -> is_level l' -> make_tag s l = make_tag s' l' -> s = s' /\ l = l'.
Proof. intros H H' E. destruct (tag_roundtrip s l H) as (E1 & E2 & _). destruct (tag_roundtrip s' l' H') as (E3 & E4 & _). rewrite E in E1, E2. split; congruence. Qed.

(** ** Slots *)

Lemma st_upd i f q j : st_at (upd_st i f q) j = if decide (j = i) then f (st_at q i) else st_at q j.
Proof. unfold st_at, upd_st. cbn. case_decide; [subst; by rewrite lookup_insert_eq | by rewrite lookup_insert_ne]. Qed.
Lemma slot_upd i s l f q i' s' l' : slot_at (upd_slot i s l f q) i' s' l' = if decide (i' = i /\ s' = s /\ l' = l) then f (slot_at q i s l) else slot_at q i' s' l'.
Proof.
  unfold slot_at, upd_slot. rewrite st_upd. destruct (decide (i' = i)) as [->|N]; [|by rewrite decide_False by tauto]. unfold slot_of. cbn. case_decide as E.
  - destruct E as (_ & -> & ->). by rewrite lookup_insert_eq.
  - rewrite lookup_insert_ne; [done|]. intros [= E1 ->]. apply side_ix_inj in E1 as ->. tauto.
Qed.
Lemma slot_upd_eq i s l f q : slot_at (upd_slot i s l f q) i s l = f (slot_at q i s l).
Proof. rewrite slot_upd. by rewrite decide_True. Qed.

(** What a step on a slot leaves alone: the ladder, the modes and how far the slots are used. *)
Definition ctl (st : InstState) : gmap Z Z * DesiredQuotes * bool * bool * bool * bool * bool :=
  (is_used st, is_desired st, is_pulled st, is_paused st, is_resumable st, is_venue_no_replace st, is_replace st).
(** Only counters, queues and backoffs change. *)
Record quiet (q q' : QuoteManager) : Prop := {
  qu_slot : forall i s l, slot_at q' i s l = slot_at q i s l;
  qu_ctl : forall i, ctl (st_at q' i) = ctl (st_at q i);
  qu_glob : qm_params q' = qm_params q /\ qm_held q' = qm_held q;
}.
Lemma quiet_refl q : quiet q q.
Proof. by constructor. Qed.
Lemma quiet_trans q1 q2 q3 : quiet q1 q2 -> quiet q2 q3 -> quiet q1 q3.
Proof. intros [A1 A2 [A3 A4]] [B1 B2 [B3 B4]]. constructor; [intros; by rewrite B1 | intros; by rewrite B2 | split; congruence]. Qed.
Lemma quiet_upd i f q : (forall st, is_slots (f st) = is_slots st) -> (forall st, ctl (f st) = ctl st) -> quiet q (upd_st i f q).
Proof.
  intros Hs Hc. constructor; [| |done].
  - intros j s l. unfold slot_at, slot_of. rewrite st_upd. case_decide; [subst; by rewrite Hs | done].
  - intros j. rewrite st_upd. case_decide; [subst; apply Hc | done].
Qed.
Lemma quiet_frame q q' : qm_state q' = qm_state q -> qm_params q' = qm_params q -> qm_held q' = qm_held q -> quiet q q'.
Proof. intros E1 E2 E3. constructor; [| |done]; intros; unfold slot_at, st_at; by rewrite E1. Qed.
Lemma quiet_qstat f q : quiet q (qstat f q).
Proof. by constructor. Qed.
Lemma quiet_back_off i s now q : quiet q (back_off i s now q).
Proof.
  unfold back_off. destruct (_ <=? _); [apply quiet_refl|]. eapply quiet_trans; [|apply quiet_qstat]. by apply quiet_upd.
Qed.
Lemma quiet_queue_priced i q : quiet q (queue_priced i q).
Proof. unfold queue_priced. destruct (is_priced _); [apply quiet_refl|]. destruct (Ring.try_push _ _ _) as [ok r]. apply (quiet_trans q (q <| qm_priced := r |>)); [by apply quiet_frame | by apply quiet_upd]. Qed.
Lemma quiet_held_back i a now q : quiet q (held_back i a now q).
Proof.
  unfold held_back. destruct (negb _).
  - destruct (_ || _); [eapply quiet_trans; [apply quiet_qstat | apply quiet_back_off] | apply quiet_qstat].
  - set (q1 := qstat _ q). assert (H1 : quiet q q1) by apply quiet_qstat. clearbody q1. destruct (is_starved _); [done|]. apply (quiet_trans q _ _ (quiet_trans q q1 (upd_st i (fun st => st <| is_starved := true |>) q1) H1 ltac:(by apply quiet_upd))). by apply quiet_frame.
Qed.
Lemma quiet_kept_backoff i s q : quiet q (kept_backoff i s q).
Proof.
  unfold kept_backoff. set (q1 := qstat _ q). assert (H1 : quiet q q1) by apply quiet_qstat. clearbody q1.
  assert (Hw : forall t u q2, quiet q q2 -> quiet q ((set_retry i t q2) <| qm_backoff_due ::= Z.min u |>)).
  { intros t u q2 H2. eapply quiet_trans; [exact H2|]. eapply quiet_trans; [by apply (quiet_upd i (fun st => st <| is_retry_at := t |>))|]. by apply quiet_frame. }
  destruct (_ =? kNever); [|by apply Hw]. destruct (Ring.try_push _ _ _) as [[|] r]; [|done]. apply Hw. eapply quiet_trans; [exact H1|]. by apply quiet_frame.
Qed.
Lemma quiet_venue_reject i s r now q : quiet q (on_venue_reject i s r now q).
Proof. unfold on_venue_reject. destruct (_ || _); [apply quiet_refl | apply quiet_back_off]. Qed.
#[export] Hint Resolve quiet_refl quiet_qstat quiet_back_off quiet_queue_priced quiet_held_back quiet_kept_backoff quiet_venue_reject : fmm.
Ltac quietly := repeat first [solve [auto with fmm] | eapply quiet_trans; [|solve [auto with fmm]]].

(** ** The placer *)

Definition quote_of (i : InstrumentId) (s : Side) (l : Z) (o : Order) : Prop := o_instrument o = i /\ o_user_tag o = make_tag s l.

Section placer.
Context {W : Type} (live_order : W -> Z -> option Order).

(** A placement that respects the slots: a New where nothing of the level is live, a Cancel or Replace of the level's
    own order while it is not pending. *)
Definition legit (w : W) (a : QuoteAction) : Prop :=
  is_level (qa_level a) /\
  match qa_kind a with
  | ANew => forall h o, live_order w h = Some o -> ~ quote_of (qa_instrument a) (qa_side a) (qa_level a) o
  | _ => handle_valid (qa_handle a) = true /\
    exists o, live_order w (qa_handle a) = Some o /\ quote_of (qa_instrument a) (qa_side a) (qa_level a) o /\ is_pending (o_state o) = false
  end.

(** What the manager relies on, for placements that respect the slots: a New that is sent makes one new live order with
    the level's tag, pending; a Cancel or Replace that is sent makes its order pending; nothing else changes. *)
Class Placer (wok : W -> Prop) (place : QuoteAction -> W -> bool * QuoteAction * W) : Prop := {
  pl_ok : forall w a ok a' w', wok w -> legit w a -> place a w = (ok, a', w') -> wok w';
  pl_new : forall w a a' w', wok w -> legit w a -> qa_kind a = ANew -> place a w = (true, a', w') -> handle_valid (qa_handle a') = true ->
    live_order w (qa_handle a') = None /\
    (exists o, live_order w' (qa_handle a') = Some o /\ quote_of (qa_instrument a) (qa_side a) (qa_level a) o /\ is_pending (o_state o) = true) /\
    forall h, h <> qa_handle a' -> live_order w' h = live_order w h;
  pl_touch : forall w a a' w', wok w -> legit w a -> qa_kind a <> ANew -> place a w = (true, a', w') ->
    (exists o, live_order w' (qa_handle a) = Some o /\ quote_of (qa_instrument a) (qa_side a) (qa_level a) o /\ is_pending (o_state o) = true) /\
    forall h, h <> qa_handle a -> live_order w' h = live_order w h;
  pl_refused : forall w a ok a' w', wok w -> legit w a -> place a w = (ok, a', w') -> ok = false \/ (qa_kind a = ANew /\ handle_valid (qa_handle a') = false) ->
    forall h, live_order w' h = live_order w h;
}.

(** Only orders of one level come, go or change. *)
Definition only (i : InstrumentId) (s : Side) (l : Z) (w w' : W) : Prop :=
  forall h o, ~ quote_of i s l o -> live_order w h = Some o <-> live_order w' h = Some o.
Lemma only_refl i s l w : only i s l w w.
Proof. by intros h o. Qed.
Lemma only_trans i s l w1 w2 w3 : only i s l w1 w2 -> only i s l w2 w3 -> only i s l w1 w3.
Proof. intros H1 H2 h o Hn. by rewrite (H1 h o Hn), (H2 h o Hn). Qed.
Lemma only_same i s l w w' : (forall h, live_order w' h = live_order w h) -> only i s l w w'.
Proof. intros E h o _. by rewrite E. Qed.

(** The slot of a level holds every live order of the level. *)
Definition lone_at (q : QuoteManager) (w : W) (i : InstrumentId) (s : Side) (l : Z) : Prop :=
  forall h o, live_order w h = Some o -> quote_of i s l o -> sl_handle (slot_at q i s l) = h /\ handle_valid h = true.
Definition lone (q : QuoteManager) (w : W) : Prop := forall i s l, is_level l -> lone_at q w i s l.

Lemma owns_spec w i s l sl : owns live_order w i s l sl = true <->
  handle_valid (sl_handle sl) = true /\ exists o, live_order w (sl_handle sl) = Some o /\ quote_of i s l o.
Proof.
  unfold owns, quote_of. rewrite andb_true_iff. destruct (live_order w (sl_handle sl)) as [o|].
  - rewrite andb_true_iff, !Z.eqb_eq. split; [intros (? & ? & ?); eauto | intros (? & o' & [= <-] & ? & ?); done].
  - split; [by intros [? ?] | by intros (? & ? & ? & ?)].
Qed.
Lemma not_owned q w i s l : lone_at q w i s l -> owns live_order w i s l (slot_at q i s l) = false -> forall h o, live_order w h = Some o -> ~ quote_of i s l o.
Proof.
  intros H Ho h o Hh Hq. destruct (H h o Hh Hq) as [E Hv]. assert (owns live_order w i s l (slot_at q i s l) = true); [|congruence].
  apply owns_spec. rewrite E. eauto.
Qed.

(** ** A step on one slot *)

Record slot_step (i : InstrumentId) (s : Side) (l : Z) (q : QuoteManager) (w : W) (q' : QuoteManager) (w' : W) : Prop := {
  ss_slot : forall i' s' l', ~ (i' = i /\ s' = s /\ l' = l) -> slot_at q' i' s' l' = slot_at q i' s' l';
  ss_ctl : forall j, ctl (st_at q' j) = ctl (st_at q j);
  ss_glob : qm_params q' = qm_params q /\ qm_held q' = qm_held q;
  ss_only : only i s l w w';
  ss_lone : lone_at q' w' i s l;
}.
Lemma step_quiet i s l q q' w : quiet q q' -> lone_at q w i s l -> slot_step i s l q w q' w.
Proof. intros [A1 A2 A3] H. constructor; [auto | auto | auto | apply only_refl|]. intros h o. rewrite A1. apply H. Qed.
Lemma step_trans i s l q1 w1 q2 w2 q3 w3 : slot_step i s l q1 w1 q2 w2 -> slot_step i s l q2 w2 q3 w3 -> slot_step i s l q1 w1 q3 w3.
Proof.
  intros [A1 A2 [A3 A4] A5 A6] [B1 B2 [B3 B4] B5 B6].
  constructor; [intros; by rewrite B1, A1 | intros; by rewrite B2 | split; congruence | by eapply only_trans | done].
Qed.
Lemma step_upd i s l f q w : (sl_handle (f (slot_at q i s l)) = sl_handle (slot_at q i s l) \/ owns live_order w i s l (slot_at q i s l) = false) ->
  lone_at q w i s l -> slot_step i s l q w (upd_slot i s l f q) w.
Proof.
  intros Hf H. constructor; [intros; rewrite slot_upd; by rewrite decide_False | | done | apply only_refl|].
  - intros j. unfold upd_slot. rewrite st_upd. case_decide; [by subst | done].
  - intros h o Hh Hq. rewrite slot_upd_eq. destruct Hf as [-> |Hf]; [by apply (H h o)|]. by destruct (not_owned q w i s l H Hf h o Hh).
Qed.
Lemma lone_step i s l q w q' w' : is_level l -> slot_step i s l q w q' w' -> lone q w -> lone q' w'.
Proof.
  intros Hl H HL i' s' l' Hl'. destruct (decide (i' = i /\ s' = s /\ l' = l)) as [(-> & -> & ->)|N]; [apply H|].
  intros h o Hh Hq. rewrite (ss_slot _ _ _ _ _ _ _ H) by done. apply (HL i' s' l' Hl' h o); [|done]. apply (ss_only _ _ _ _ _ _ _ H); [|done].
  intros [E1 E2]. destruct Hq as [E3 E4]. destruct (make_tag_inj s l s' l' Hl Hl' ltac:(congruence)) as [-> ->]. apply N. split; [congruence | done].
Qed.

Context (wok : W -> Prop) (place : QuoteAction -> W -> bool * QuoteAction * W) `{HP : !Placer wok place}.
Abbreviation cancel := (cancel place).
Abbreviation move := (move place).
Abbreviation submit_new := (submit_new place).

(** [stepped] with the actions it placed; [r] is the result of an operation. *)
Definition stepped i s l q w (r : Z * QuoteManager * W) : Prop := slot_step i s l q w (snd (fst r)) (snd r) /\ wok (snd r) /\ 0 <= fst (fst r) <= 1.

Lemma placed_same i s l q w w' : (forall h, live_order w' h = live_order w h) -> lone_at q w i s l -> lone_at q w' i s l.
Proof. intros E H h o. rewrite E. apply H. Qed.
Lemma step_world i s l q w w' : only i s l w w' -> lone_at q w' i s l -> slot_step i s l q w q w'.
Proof. intros H1 H2. by constructor. Qed.

(** Placing a Cancel or Replace of the slot's order. *)
Lemma place_touch i s l q w a ok a' w' : wok w -> lone_at q w i s l -> qa_kind a <> ANew -> qa_instrument a = i -> qa_side a = s -> qa_level a = l ->
  qa_handle a = sl_handle (slot_at q i s l) -> legit w a -> place a w = (ok, a', w') -> wok w' /\ slot_step i s l q w q w'.
Proof.
  intros Hw H Hk <- <- <- Eh Hl Hp. split; [by eapply pl_ok|]. destruct ok.
  - destruct (pl_touch _ _ _ _ Hw Hl Hk Hp) as [(o & Ho & Hq & _) Hoth]. apply step_world.
    + intros h o' Hn. destruct (decide (h = qa_handle a)) as [->|N]; [|by rewrite Hoth]. destruct Hl as [_ Hl]. destruct (qa_kind a) eqn:Ek; [done| |];
        destruct Hl as (_ & o1 & Ho1 & Hq1 & _); split; intros E; rewrite E in *; simplify_eq; done.
    + intros h o' Hh Hq'. destruct (decide (h = qa_handle a)) as [->|N]; [|apply (H h o'); [by rewrite <- Hoth | done]].
      split; [done|]. destruct Hl as [_ Hl]. destruct (qa_kind a) eqn:Ek; [done|apply Hl..].
  - pose proof (pl_refused _ _ _ _ _ Hw Hl Hp (or_introl eq_refl)) as E. apply step_world; [by apply only_same | by eapply placed_same].
Qed.

(** The slot's order is live, its own, and not pending. *)
Definition idle (q : QuoteManager) (w : W) (i : InstrumentId) (s : Side) (l : Z) : Prop :=
  is_level l /\ owns live_order w i s l (slot_at q i s l) = true /\ is_pending (o_state (the_order live_order w (slot_at q i s l))) = false.
Lemma idle_legit q w i s l a : idle q w i s l -> qa_kind a <> ANew -> qa_instrument a = i -> qa_side a = s -> qa_level a = l -> qa_handle a = sl_handle (slot_at q i s l) -> legit w a.
Proof.
  intros (Hl & Ho & Hp) Hk <- <- <- Eh. split; [done|]. apply owns_spec in Ho as (Hv & o & Ho & Hq). unfold the_order in Hp. rewrite Ho in Hp. cbn in Hp.
  destruct (qa_kind a); [done|..]; rewrite Eh; eauto.
Qed.
Lemma idle_handle q q' w i s l : sl_handle (slot_at q' i s l) = sl_handle (slot_at q i s l) -> idle q w i s l -> idle q' w i s l.
Proof. unfold idle, owns, the_order. intros ->. auto. Qed.
Lemma lone_handle q q' w i s l : sl_handle (slot_at q' i s l) = sl_handle (slot_at q i s l) -> lone_at q w i s l -> lone_at q' w i s l.
Proof. unfold lone_at. intros ->. auto. Qed.
Lemma step_refl i s l q w : lone_at q w i s l -> slot_step i s l q w q w.
Proof. apply step_quiet, quiet_refl. Qed.
Lemma keep_handle (f : Slot -> Slot) q w i s l : (forall sl, sl_handle (f sl) = sl_handle sl) -> lone_at q w i s l -> slot_step i s l q w (upd_slot i s l f q) w.
Proof. intros Hf. apply step_upd. left. apply Hf. Qed.
(** What follows a placement: counters, then fields of the slot other than its order. *)
Lemma then_quiet i s l q w q1 w1 q2 : slot_step i s l q w q1 w1 -> quiet q1 q2 -> slot_step i s l q w q2 w1.
Proof. intros H Hq. eapply step_trans; [exact H|]. apply step_quiet; [done | apply H]. Qed.
Lemma then_upd i s l q w q1 w1 f : slot_step i s l q w q1 w1 -> (forall sl, sl_handle (f sl) = sl_handle sl) -> slot_step i s l q w (upd_slot i s l f q1) w1.
Proof. intros H Hf. eapply step_trans; [exact H|]. apply keep_handle; [done | apply H]. Qed.

Lemma cancel_step i s l q w : wok w -> lone_at q w i s l -> idle q w i s l -> stepped i s l q w (cancel i s l q w).
Proof.
  intros Hw H Hi. unfold QuoteManager.cancel. set (a := new_action _ _ _ _ _ _ _ _). destruct (place a w) as [[ok a'] w'] eqn:Ep.
  destruct (place_touch i s l q w a ok a' w' Hw H ltac:(done) eq_refl eq_refl eq_refl eq_refl ltac:(by apply (idle_legit q w i s l)) Ep) as [Hw' Hs].
  destruct ok; cbn [negb]; (split; [|split; [done | cbn; lia]]); cbn [fst snd].
  - apply then_upd; [|done]. by apply (then_quiet _ _ _ _ _ q); [|apply quiet_qstat].
  - by apply (then_quiet _ _ _ _ _ q); [|apply quiet_qstat].
Qed.
Lemma move_step i s l target account value keep q w : wok w -> lone_at q w i s l -> idle q w i s l -> stepped i s l q w (move i s l target account value keep q w).
Proof.
  intros Hw H Hi. unfold QuoteManager.move. set (a := (new_action _ _ _ _ _ _ _ _) <| qa_value := _ |> <| qa_keep := _ |>). cbv zeta.
  set (q1 := upd_slot i s l (fun sl => (record_want target account value keep sl) <| sl_paid := false |>) q). assert (E1 : sl_handle (slot_at q1 i s l) = sl_handle (slot_at q i s l)) by (unfold q1; by rewrite slot_upd_eq).
  assert (H1 : slot_step i s l q w q1 w) by by apply keep_handle. clearbody q1. destruct (place a w) as [[ok a'] w'] eqn:Ep.
  destruct (place_touch i s l q1 w a ok a' w' Hw ltac:(apply H1) ltac:(done) eq_refl eq_refl eq_refl ltac:(by rewrite E1) ltac:(by apply (idle_legit q w i s l)) Ep) as [Hw' Hs].
  pose proof (step_trans _ _ _ _ _ _ _ _ _ H1 Hs) as H2. destruct ok; cbn [negb]; (split; [|split; [done | cbn; lia]]); cbn [fst snd].
  - apply then_upd; [|done]. by apply (then_quiet _ _ _ _ _ q1); [|apply quiet_qstat].
  - destruct (qa_priced_out a'); [|destruct (qa_held a')].
    + eapply then_quiet; [|apply quiet_queue_priced]. eapply then_quiet; [|apply quiet_qstat]. by apply then_upd.
    + eapply then_quiet; [|apply quiet_qstat]. by apply then_upd.
    + eapply then_quiet; [|apply quiet_qstat]. done.
Qed.

(** A New where the slot owns nothing. *)
Lemma submit_new_step i s l target account value now deferred q w : is_level l -> wok w -> lone_at q w i s l -> owns live_order w i s l (slot_at q i s l) = false ->
  stepped i s l q w (submit_new i s l target account value now deferred q w).
Proof.
  intros Hl Hw H Ho. pose proof (not_owned q w i s l H Ho) as Hno. unfold QuoteManager.submit_new. set (a := (new_action _ _ _ _ _ _ _ _) <| qa_deferred := _ |> <| qa_account := _ |> <| qa_value := _ |> <| qa_paid := _ |>). cbv zeta.
  set (q1 := upd_slot i s l _ q). assert (H1 : slot_step i s l q w q1 w) by by apply keep_handle. clearbody q1.
  assert (Hlg : legit w a) by by split. destruct (place a w) as [[ok a'] w'] eqn:Ep. pose proof (pl_ok _ _ _ _ _ Hw Hlg Ep) as Hw'.
  destruct (negb ok || negb (handle_valid (qa_handle a'))) eqn:Er; (split; [|split; [done | cbn; lia]]); cbn [fst snd].
  - assert (E : forall h, live_order w' h = live_order w h).
    { eapply pl_refused; [exact Hw | exact Hlg | exact Ep|]. apply orb_true_iff in Er as [?%negb_true_iff|?%negb_true_iff]; auto. }
    assert (H2 : slot_step i s l q w q1 w') by (eapply step_trans; [exact H1|]; apply step_world; [by apply only_same | eapply placed_same; [done | apply H1]]).
    destruct (qa_priced_out a'); [|destruct (qa_withheld a')].
    + eapply then_quiet; [|apply quiet_queue_priced]. eapply then_quiet; [|apply quiet_qstat]. done.
    + eapply then_quiet; [|apply quiet_qstat]. done.
    + eapply then_quiet; [|apply quiet_held_back]. done.
  - apply orb_false_iff in Er as [->%negb_false_iff Hv%negb_false_iff]. destruct (pl_new _ _ _ _ Hw Hlg eq_refl Ep Hv) as (Hf & (o & Hn & Hq & _) & Hoth).
    assert (Hon : only i s l w w').
    { intros h o' Hno'. destruct (decide (h = qa_handle a')) as [->|N]; [|by rewrite Hoth]. rewrite Hf, Hn. split; [done|]. by intros [= <-]. }
    pose proof (step_quiet i s l q1 (qstat (fun x => x <| qs_news ::= inc |>) q1) w (quiet_qstat _ _) ltac:(apply H1)) as H2. pose proof (step_trans _ _ _ _ _ _ _ _ _ H1 H2) as [B1 B2 B3 B4 B5].
    constructor.
    + intros i' s' l' N. rewrite slot_upd, decide_False by done. by apply B1.
    + intros j. unfold upd_slot. rewrite st_upd. case_decide; [subst; apply (B2 i) | apply (B2 j)].
    + done.
    + done.
    + intros h o' Hh Hq'. rewrite slot_upd_eq. cbn. destruct (decide (h = qa_handle a')) as [->|N]; [done|]. rewrite Hoth in Hh by done. by destruct (Hno h o' Hh).
Qed.
Lemma stepped_quiet i s l q w q' : wok w -> lone_at q w i s l -> quiet q q' -> stepped i s l q w (0, q', w).
Proof. intros Hw H Hq. split; [by apply step_quiet|]. split; [done | cbn; lia]. Qed.
Lemma stepped_after i s l q w q1 r : slot_step i s l q w q1 w -> stepped i s l q1 w r -> stepped i s l q w r.
Proof. intros H [H1 H2]. split; [by eapply step_trans | done]. Qed.

Lemma requote_step inst s l target account value keep now q w : let i := in_id inst in wok w -> lone_at q w i s l -> idle q w i s l ->
  stepped i s l q w (requote live_order place inst s l target account value keep now q w).
Proof.
  intros i Hw H Hi. unfold requote. fold i. destruct (_ && _).
  { set (q1 := upd_slot i s l _ q). assert (H1 : slot_step i s l q w q1 w) by by apply keep_handle.
    apply (stepped_after i s l q w q1 _ H1). apply cancel_step; [done | apply H1|]. apply (idle_handle q); [|done]. unfold q1. by rewrite slot_upd_eq. }
  destruct (close_enough _ _ _ _); [by apply stepped_quiet; auto with fmm|]. destruct (too_soon _ _ _); [by apply stepped_quiet; auto with fmm|].
  destruct (_ && _); [|by apply move_step]. cbv zeta. set (a := (new_action _ _ _ _ _ _ _ _) <| qa_value := _ |> <| qa_keep := _ |>). destruct (place a w) as [[ok a'] w'] eqn:Ep.
  pose proof (idle_legit q w i s l a Hi ltac:(done) eq_refl eq_refl eq_refl eq_refl) as Hlg.
  destruct (place_touch i s l q w a ok a' w' Hw H ltac:(done) eq_refl eq_refl eq_refl eq_refl Hlg Ep) as [Hw' Hs].
  destruct ok; cbn [negb].
  { split; [|split; [done | cbn; lia]]. cbn [fst snd]. apply then_upd; [|done]. by apply (then_quiet _ _ _ _ _ q); [|apply quiet_qstat]. }
  pose proof (pl_refused _ _ _ _ _ Hw Hlg Ep (or_introl eq_refl)) as E. assert (H' : lone_at q w' i s l) by apply Hs.
  assert (Hi' : idle q w' i s l) by (destruct Hi as (I1 & I2 & I3); split; [done|]; unfold owns, the_order in *; rewrite E; done).
  assert (Hgo : forall r, stepped i s l q w' r -> stepped i s l q w r) by (intros r [A1 A2]; split; [by eapply step_trans | done]). apply Hgo.
  destruct (qa_priced_out a'); [destruct (away _ _ _)|destruct (qa_held a')].
  - by apply move_step.
  - apply stepped_quiet; [done | done|]. eapply quiet_trans; [apply quiet_qstat | apply quiet_queue_priced].
  - apply stepped_quiet; auto with fmm.
  - apply stepped_quiet; auto with fmm.
Qed.

(** One slot of [reconcile]: it keeps the level's order alone and touches nothing else. *)
Lemma reconcile_slot_step inst s l target account value keep now q w : let i := in_id inst in is_level l -> wok w -> lone_at q w i s l ->
  stepped i s l q w (reconcile_slot live_order place inst s l target account value keep now q w).
Proof.
  intros i Hl Hw H. unfold reconcile_slot. fold i. destruct (owns live_order w i s l (slot_at q i s l)) eqn:Ho.
  - destruct (is_pending _) eqn:Ep.
    { split; [|split; [done | cbn; lia]]. cbn [fst snd]. apply then_upd; [|done]. apply step_quiet; [apply quiet_qstat | done]. }
    set (q1 := upd_slot i s l _ q). assert (H1 : slot_step i s l q w q1 w) by by apply keep_handle.
    assert (Hi : idle q1 w i s l) by (apply (idle_handle q); [unfold q1; by rewrite slot_upd_eq | done]).
    apply (stepped_after i s l q w q1 _ H1). destruct (negb _); [apply cancel_step | apply requote_step]; try done; apply H1.
  - set (q1 := upd_slot i s l _ q). assert (H1 : slot_step i s l q w q1 w) by (apply step_upd; [by right | done]). apply (stepped_after i s l q w q1 _ H1).
    assert (Ho1 : owns live_order w i s l (slot_at q1 i s l) = false) by (unfold q1; by rewrite slot_upd_eq). clearbody q1. destruct (negb _); [apply stepped_quiet; [done | apply H1 | apply quiet_refl]|].
    destruct (backing_off _ _ _); [apply stepped_quiet; [done | apply H1 | apply quiet_kept_backoff]|]. apply submit_new_step; try done. apply H1.
Qed.
Lemma pull_slot_step i s l q w : is_level l -> wok w -> lone_at q w i s l -> stepped i s l q w (pull_slot live_order place i s l q w).
Proof.
  intros Hl Hw H. unfold pull_slot. set (q1 := upd_slot i s l _ q). assert (H1 : slot_step i s l q w q1 w) by by apply keep_handle. apply (stepped_after i s l q w q1 _ H1). clearbody q1.
  destruct (owns _ _ _ _ _ _) eqn:Ho; cbn [negb]; [|apply stepped_quiet; [done | apply H1 | apply quiet_refl]].
  destruct (is_working _) eqn:Ew; cbn [negb]; [|apply stepped_quiet; [done | apply H1 | apply quiet_refl]]. apply cancel_step; [done | apply H1|].
  split; [done|]. split; [done|]. unfold is_working in Ew. by destruct (o_state _).
Qed.

(** ** A loop over the levels of a side *)

Definition others (i : InstrumentId) (s : Side) (w w' : W) : Prop :=
  forall h o, (forall l, is_level l -> ~ quote_of i s l o) -> live_order w h = Some o <-> live_order w' h = Some o.
Record side_step (i : InstrumentId) (s : Side) (n : Z) (q : QuoteManager) (w : W) (q' : QuoteManager) (w' : W) : Prop := {
  sd_slot : forall i' s' l', ~ (i' = i /\ s' = s /\ 0 <= l' < n) -> slot_at q' i' s' l' = slot_at q i' s' l';
  sd_ctl : forall j, ctl (st_at q' j) = ctl (st_at q j);
  sd_glob : qm_params q' = qm_params q /\ qm_held q' = qm_held q;
  sd_others : others i s w w';
  sd_lone : lone q' w';
  sd_wok : wok w';
}.

(** What holds of each level before and after its turn, and is not disturbed by the turns of the others as long as
    [Keep] relates the states; [c] bounds the actions of a turn. *)
Definition stable (i : InstrumentId) (s : Side) (Keep : QuoteManager -> W -> QuoteManager -> W -> Prop) (R : Z -> QuoteManager -> W -> Prop) : Prop :=
  forall l l' q w q' w', is_level l -> is_level l' -> l <> l' -> wok w -> lone q w -> slot_step i s l' q w q' w' -> Keep q w q' w' -> R l q w -> R l q' w'.
Lemma over_levels_step i s step n c q w (Keep : QuoteManager -> W -> QuoteManager -> W -> Prop) (Pre Post : Z -> QuoteManager -> W -> Prop) :
  0 <= n <= 8 -> wok w -> lone q w -> Keep q w q w -> (forall q1 w1 q2 w2 q3 w3, Keep q1 w1 q2 w2 -> Keep q2 w2 q3 w3 -> Keep q1 w1 q3 w3) ->
  stable i s Keep Pre -> stable i s Keep Post -> (forall l, 0 <= l < n -> Pre l q w) ->
  (forall l q w, 0 <= l < n -> wok w -> lone q w -> Pre l q w -> let '(k, q', w') := step l q w in
    stepped i s l q w (k, q', w') /\ k <= c /\ Keep q w q' w' /\ Post l q' w') ->
  exists acts used q' w', over_levels i s step n q w = (acts, used, q', w') /\ side_step i s n q w q' w' /\ Keep q w q' w' /\
    0 <= acts <= c * n /\ 0 <= used <= n /\ (forall l, used <= l < n -> slot_empty (slot_at q' i s l) = true) /\ (forall l, 0 <= l < n -> Post l q' w').
Proof.
  intros Hn Hw H KR KT SPre SPost HPre Hst. unfold over_levels. assert (Hind : forall k, (Z.of_nat k <= n) -> exists acts used q' w',
    fold_left (fun '(acts, used, q, w) lvl => let '(k, q, w) := step lvl q w in (u32 (acts + k), if slot_empty (slot_at q i s lvl) then used else lvl + 1, q, w))
      (seqZ 0 (Z.of_nat k)) (0, 0, q, w) = (acts, used, q', w') /\ side_step i s (Z.of_nat k) q w q' w' /\ Keep q w q' w' /\ 0 <= acts <= Z.of_nat k /\ acts <= c * Z.of_nat k /\ 0 <= used <= Z.of_nat k /\
    (forall l, used <= l < Z.of_nat k -> slot_empty (slot_at q' i s l) = true) /\ (forall l, 0 <= l < Z.of_nat k -> Post l q' w') /\ (forall l, Z.of_nat k <= l < n -> Pre l q' w')).
  2: { destruct (Hind (Z.to_nat n) ltac:(lia)) as (acts & used & q' & w' & E & A & K & B & B' & C & D & F & _). rewrite Z2Nat.id in * by lia. exists acts, used, q', w'.
       split; [done|]. split; [done|]. split; [done|]. split; [lia|]. done. }
  induction k as [|k IH]; intros Hk.
  { exists 0, 0, q, w. split; [done|]. split; [constructor; done|]. split; [done|]. split; [lia|]. split; [lia|]. split; [lia|]. split; [lia|]. split; [lia|]. intros l Hl. apply HPre. lia. }
  destruct (IH ltac:(lia)) as (acts & used & q1 & w1 & E & [A1 A2 [A3 A4] A5 A6 A7] & HK & Ha & Hc & Hu & He & HPo & HPr). rewrite seqZ_S, fold_left_app, E. cbn [fold_left]. rewrite Z.add_0_l.
  set (m := Z.of_nat k) in *. assert (Hl : is_level m) by (unfold is_level; lia). specialize (Hst m q1 w1 ltac:(lia) A7 A6 (HPr m ltac:(lia))).
  destruct (step m q1 w1) as [[j q2] w2]. destruct Hst as ((B & Bw & Bk) & Bc & BK & BP). cbn [fst snd] in *. exists (u32 (acts + j)), (if slot_empty (slot_at q2 i s m) then used else m + 1), q2, w2. split; [done|].
  assert (Eu : u32 (acts + j) = acts + j) by (unfold u32; apply Z.mod_small; lia). rewrite Eu.
  replace (Z.of_nat (S k)) with (m + 1) by lia. split; [|split; [by eapply KT|split; [lia|split; [lia|split; [|split; [|split]]]]]].
  - constructor; [| | | | by eapply lone_step | done].
    + intros i' s' l' N. rewrite (ss_slot _ _ _ _ _ _ _ B), A1 by (intros (? & ? & ?); apply N; split; [done|]; split; [done | lia]). done.
    + intros j'. by rewrite (ss_ctl _ _ _ _ _ _ _ B).
    + destruct (ss_glob _ _ _ _ _ _ _ B). split; congruence.
    + intros h o Hno. rewrite (A5 h o Hno). apply (ss_only _ _ _ _ _ _ _ B). by apply Hno.
  - destruct (slot_empty _); lia.
  - intros l Hrange. destruct (decide (l = m)) as [->|N].
    + destruct (slot_empty (slot_at q2 i s m)) eqn:Es; [done | lia].
    + rewrite (ss_slot _ _ _ _ _ _ _ B) by tauto. apply He. destruct (slot_empty (slot_at q2 i s m)); lia.
  - intros l Hrange. destruct (decide (l = m)) as [->|N]; [done|]. apply (SPost l m q1 w1); try done; [unfold is_level; lia | apply HPo; lia].
  - intros l Hrange. apply (SPre l m q1 w1); try done; [unfold is_level; lia | lia | apply HPr; lia].
Qed.
(** The loop with nothing more to say of the levels. *)
Lemma over_levels_plain i s step n q w : 0 <= n <= 8 -> wok w -> lone q w -> (forall l q w, 0 <= l < n -> wok w -> lone q w -> stepped i s l q w (step l q w)) ->
  exists acts used q' w', over_levels i s step n q w = (acts, used, q', w') /\ side_step i s n q w q' w' /\
    0 <= used <= n /\ (forall l, used <= l < n -> slot_empty (slot_at q' i s l) = true).
Proof.
  intros Hn Hw H Hst. destruct (over_levels_step i s step n 1 q w (fun _ _ _ _ => True) (fun _ _ _ => True) (fun _ _ _ => True)) as (acts & used & q' & w' & E & A & _ & _ & B & C & _);
    try done; [|by exists acts, used, q', w'].
  intros l q1 w1 Hl Hw1 H1 _. specialize (Hst l q1 w1 Hl Hw1 H1). destruct (step l q1 w1) as [[k q2] w2]. split; [done|]. split; [apply Hst | done].
Qed.
End placer.
