(* ===== verification/QuoteProps.v ===== *)
(** * QuoteProps: what the quote manager guarantees

    Whatever the strategy, the engine and the venue do, and in whatever order, a level has at most one live order and
    only its slot's order is touched, never while it is pending; pulling and pausing do what they say; applying the same
    quotes again sends nothing; the queues hold exactly the instruments flagged for them. *)

From S2P Require Import Prelude Types FixedPoint L2Book RingBuffer Instruments Orders Oms QuoteManager QuoteInv.

#[local] Arguments i64 : simpl never.
#[local] Arguments u32 : simpl never.
#[local] Arguments u64 : simpl never.
#[local] Arguments kNullHandle : simpl never.
#[local] Arguments make_tag : simpl never.

Section quotes.
Context {W : Type} (live_order : W -> Z -> option Order) (wok : W -> Prop) (place : QuoteAction -> W -> bool * QuoteAction * W) `{HP : !Placer live_order wok place}.
Abbreviation lone := (lone live_order).
Abbreviation slot_step := (slot_step live_order).
Abbreviation reconcile := (reconcile live_order place).
Abbreviation reconcile_slot := (reconcile_slot live_order place).

(** ** The invariant *)

(** No slot above those in use holds anything. *)
Record tidy (q : QuoteManager) : Prop := {
  t_used : forall i s, 0 <= used_of (st_at q i) s <= 8;
  t_len : forall i s, Z.of_nat (length (dq_side (is_desired (st_at q i)) s)) <= 8;
  t_empty : forall i s l, used_of (st_at q i) s <= l < 8 -> slot_empty (slot_at q i s l) = true;
}.
Record good (q : QuoteManager) (w : W) : Prop := { g_lone : lone q w; g_wok : wok w; g_tidy : tidy q }.

Lemma used_ctl st st' s : ctl st = ctl st' -> used_of st s = used_of st' s.
Proof. unfold ctl, used_of. intros [= -> _ _ _ _ _ _]. done. Qed.
Lemma desired_ctl st st' : ctl st = ctl st' -> is_desired st = is_desired st'.
Proof. unfold ctl. by intros [= _ -> _ _ _ _ _]. Qed.

Lemma good_step i s l q w q' w' : is_level l -> slot_step i s l q w q' w' -> wok w' -> good q w ->
  (slot_empty (slot_at q i s l) = true -> slot_empty (slot_at q' i s l) = true) -> good q' w'.
Proof.
  intros Hl Hs Hw [G1 G2 [T1 T2 T3]] He. constructor; [by eapply lone_step | done|]. pose proof (ss_ctl _ _ _ _ _ _ _ _ Hs) as C. constructor.
  - intros j s'. rewrite (used_ctl _ _ s' (C j)). apply T1.
  - intros j s'. rewrite (desired_ctl _ _ (C j)). apply T2.
  - intros j s' l' Hr. rewrite (used_ctl _ _ s' (C j)) in Hr. destruct (decide (j = i /\ s' = s /\ l' = l)) as [(-> & -> & ->)|N]; [by apply He, T3|].
    rewrite (ss_slot _ _ _ _ _ _ _ _ Hs) by done. by apply T3.
Qed.
Lemma good_quiet q q' w : quiet q q' -> good q w -> good q' w.
Proof.
  intros [A1 A2 _] [G1 G2 [T1 T2 T3]]. constructor; [|done|].
  - intros i s l Hl h o. rewrite A1. by apply G1.
  - constructor; [intros; by rewrite (used_ctl _ _ _ (A2 i)) | intros; by rewrite (desired_ctl _ _ (A2 i))|].
    intros i s l. rewrite (used_ctl _ _ _ (A2 i)), A1. apply T3.
Qed.
Lemma good_frame q q' w : qm_state q' = qm_state q -> good q w -> good q' w.
Proof.
  intros E [G1 G2 [T1 T2 T3]]. assert (Es : forall i, st_at q' i = st_at q i) by (intros; unfold st_at; by rewrite E).
  constructor; [|done|]; [intros i s l Hl h o | constructor; intros i s]; unfold slot_at; rewrite Es; [by apply G1 | apply T1 | apply T2 | apply T3].
Qed.
(** Changing modes or the ladder of an instrument. *)
Lemma good_upd i f q w : (forall st, is_slots (f st) = is_slots st) -> (forall st, is_used (f st) = is_used st) ->
  (forall s, Z.of_nat (length (dq_side (is_desired (f (st_at q i))) s)) <= 8) -> good q w -> good (upd_st i f q) w.
Proof.
  intros E1 E2 E3 [G1 G2 [T1 T2 T3]]. assert (Es : forall j s l, slot_at (upd_st i f q) j s l = slot_at q j s l) by (intros; unfold slot_at, slot_of; rewrite st_upd; case_decide; [subst; by rewrite E1 | done]).
  assert (Eu : forall j s, used_of (st_at (upd_st i f q) j) s = used_of (st_at q j) s) by (intros; unfold used_of; rewrite st_upd; case_decide; [subst; by rewrite E2 | done]).
  constructor; [|done|].
  - intros j s l Hl h o. rewrite Es. by apply G1.
  - constructor; [intros; by rewrite Eu | intros; rewrite st_upd; case_decide; [by subst | apply T2] | intros j s l; rewrite Eu, Es; apply T3].
Qed.
Lemma good_mode i f q w : (forall st, is_slots (f st) = is_slots st) -> (forall st, is_used (f st) = is_used st) -> (forall st, is_desired (f st) = is_desired st) -> good q w -> good (upd_st i f q) w.
Proof. intros E1 E2 E3 G. apply good_upd; [done | done | | done]. intros s. rewrite E3. apply G. Qed.

(** ** Operations *)

Lemma good_side i s n used q w q' w' : good q w -> used_of (st_at q i) s <= n <= 8 -> side_step live_order wok i s n q w q' w' -> 0 <= used <= n ->
  (forall l, used <= l < n -> slot_empty (slot_at q' i s l) = true) -> good (set_used i s used q') w'.
Proof.
  intros [G1 G2 [T1 T2 T3]] Hn [A1 A2 A3 A4 A5 A6] Hu He. unfold set_used. set (f := fun st => st <| is_used ::= insert (side_ix s) used |>).
  assert (Es : forall j s' l, slot_at (upd_st i f q') j s' l = slot_at q' j s' l) by (intros; unfold slot_at, slot_of; rewrite st_upd; by case_decide; [subst|]).
  assert (Eu : forall j s', used_of (st_at (upd_st i f q') j) s' = if decide (j = i /\ s' = s) then used else used_of (st_at q j) s').
  { intros j s'. rewrite st_upd. destruct (decide (j = i)) as [->|N]; [|rewrite decide_False by tauto; apply used_ctl, A2]. unfold f, used_of at 1. cbn. destruct (decide (s' = s)) as [->|N].
    - by rewrite lookup_insert_eq, decide_True.
    - rewrite lookup_insert_ne by (intros ?%side_ix_inj; congruence). rewrite decide_False by tauto. apply (used_ctl _ _ s' (A2 i)). }
  constructor; [|done|].
  - intros j s' l Hl h o. rewrite Es. by apply A5.
  - constructor.
    + intros j s'. rewrite Eu. case_decide; [lia | apply T1].
    + intros j s'. rewrite st_upd. case_decide; [subst; unfold f; cbn|]; rewrite (desired_ctl _ _ (A2 _)); apply T2.
    + intros j s' l. rewrite Eu, Es. case_decide as E.
      * destruct E as [-> ->]. intros Hr. destruct (decide (l < n)); [apply He; lia|]. rewrite A1 by (intros (_ & _ & ?); lia). apply T3. lia.
      * intros Hr. rewrite A1 by (intros (? & ? & ?); apply E; done). by apply T3.
Qed.

Lemma reconcile_side_good inst s now q w : good q w -> good (snd (fst (reconcile_side live_order place inst s now q w))) (snd (reconcile_side live_order place inst s now q w)).
Proof.
  intros G. pose proof (g_tidy _ _ G) as [T1 T2 T3]. unfold reconcile_side. set (i := in_id inst). set (n := Z.max _ _). assert (Hn : 0 <= n <= 8) by (pose proof (T1 i s); pose proof (T2 i s); lia).
  destruct (over_levels_plain live_order wok i s (fun lvl q w => reconcile_slot inst s lvl (wanted q i s lvl) (dq_account (is_desired (st_at q i)) s lvl)
    (dq_value (is_desired (st_at q i)) s lvl) (dq_keep (is_desired (st_at q i)) s lvl) now q w) n q w) as (acts & used & q' & w' & E & Hs & Hu & He); [done | apply G | apply G | |].
  - intros l q1 w1 Hl Hw1 H1. apply (reconcile_slot_step live_order wok place); [unfold is_level; lia | done | apply H1; unfold is_level; lia].
  - rewrite E. cbn [fst snd]. apply (good_side i s n _ q w); try done. unfold n. lia.
Qed.
Lemma reconcile_good inst d now q w : (forall s, Z.of_nat (length (dq_side d s)) <= 8) -> good q w -> good (snd (fst (reconcile inst d now q w))) (snd (reconcile inst d now q w)).
Proof.
  intros Hd G. unfold QuoteManager.reconcile. set (q1 := upd_st _ _ q). assert (G1 : good q1 w) by by apply good_upd. clearbody q1.
  pose proof (reconcile_side_good inst Buy now q1 w G1) as G2. destruct (reconcile_side _ _ inst Buy now q1 w) as [[n1 q2] w2].
  pose proof (reconcile_side_good inst Sell now q2 w2 G2) as G3. by destruct (reconcile_side _ _ inst Sell now q2 w2) as [[n2 q3] w3].
Qed.

Lemma pull_side_good inst s now q w : good q w -> good (snd (fst (pull_side live_order place inst s now q w))) (snd (pull_side live_order place inst s now q w)).
Proof.
  intros G. pose proof (g_tidy _ _ G) as [T1 T2 T3]. unfold pull_side. set (i := in_id inst). pose proof (T1 i s) as Hn. set (n := used_of _ _) in *.
  destruct (over_levels_plain live_order wok i s (fun lvl q w => reconcile_slot inst s lvl no_level kInvalidVenue kNoValue kNoValue now q w) n q w)
    as (acts & used & q' & w' & E & Hs & Hu & He); [done | apply G | apply G | |].
  - intros l q1 w1 Hl Hw1 H1. apply (reconcile_slot_step live_order wok place); [unfold is_level; lia | done | apply H1; unfold is_level; lia].
  - rewrite E. cbn [fst snd]. apply (good_side i s n _ q w); try done. fold n. lia.
Qed.

(** A pull leaves an empty slot empty. *)
Lemma cancel_slot i s l q w : let r := cancel place i s l q w in exists b, slot_at (snd (fst r)) i s l = (slot_at q i s l) <| sl_awaiting_terminal := b |>.
Proof.
  unfold cancel. destruct (place _ w) as [[ok a] w']. destruct ok; cbn [negb fst snd].
  - exists true. by rewrite slot_upd_eq.
  - exists (sl_awaiting_terminal (slot_at q i s l)). change (slot_at (qstat _ q) i s l) with (slot_at q i s l). by destruct (slot_at q i s l).
Qed.
Lemma pull_slot_empty i s l q w : slot_empty (slot_at q i s l) = true -> slot_empty (slot_at (snd (fst (pull_slot live_order place i s l q w))) i s l) = true.
Proof.
  intros He. unfold slot_empty in He. apply andb_true_iff in He as [[E1 E2]%andb_true_iff E3]. apply negb_true_iff in E1.
  unfold pull_slot. set (q1 := upd_slot i s l _ q). assert (E : slot_at q1 i s l = (slot_at q i s l) <| sl_apply_want := false |>) by apply slot_upd_eq. clearbody q1.
  assert (Ho : owns live_order w i s l (slot_at q1 i s l) = false) by (rewrite E; unfold owns; cbn; by rewrite E1). rewrite Ho. cbn [negb fst snd]. rewrite E. unfold slot_empty. cbn. by rewrite E1, E3.
Qed.
Lemma pull_levels_good i s q w : good q w -> good (snd (fst (pull_levels live_order place i s q w))) (snd (pull_levels live_order place i s q w)).
Proof.
  intros G. pose proof (g_tidy _ _ G) as [T1 T2 T3]. unfold pull_levels.
  destruct (over_levels_step live_order wok i s (pull_slot live_order place i s) 8 1 q w (fun _ _ _ _ => True) (fun l q1 _ => slot_at q1 i s l = slot_at q i s l)
    (fun l q1 _ => slot_empty (slot_at q i s l) = true -> slot_empty (slot_at q1 i s l) = true)) as (acts & used & q' & w' & E & [A1 A2 A3 A4 A5 A6] & _ & _ & _ & _ & Hp);
    [lia | apply G | apply G | done | done | | | done | |].
  - intros l l' q1 w1 q2 w2 _ _ N _ _ Hs _ E. by rewrite (ss_slot _ _ _ _ _ _ _ _ Hs) by tauto.
  - intros l l' q1 w1 q2 w2 _ _ N _ _ Hs _ E. by rewrite (ss_slot _ _ _ _ _ _ _ _ Hs) by tauto.
  - intros l q1 w1 Hl Hw1 H1 E. pose proof (pull_slot_step live_order wok place i s l q1 w1 ltac:(unfold is_level; lia) Hw1 ltac:(apply H1; unfold is_level; lia)) as Hs.
    pose proof (pull_slot_empty i s l q1 w1) as Hpe. rewrite E in Hpe. destruct (pull_slot _ _ i s l q1 w1) as [[k q2] w2]. split; [done|]. split; [apply Hs | done].
  - change (Z.of_nat kMaxQuoteLevels) with 8. rewrite E. cbn [fst snd]. constructor; [done | done|]. constructor.
    + intros j s'. rewrite (used_ctl _ _ s' (A2 j)). apply T1.
    + intros j s'. rewrite (desired_ctl _ _ (A2 j)). apply T2.
    + intros j s' l Hr. rewrite (used_ctl _ _ s' (A2 j)) in Hr. destruct (decide (j = i /\ s' = s)) as [[-> ->]|N].
      * apply Hp; [pose proof (T1 i s); lia | by apply T3].
      * rewrite A1 by tauto. by apply T3.
Qed.
Lemma pull_quotes_good i keep q w : good q w -> good (snd (fst (pull_quotes live_order place i keep q w))) (snd (pull_quotes live_order place i keep q w)).
Proof.
  intros G. unfold pull_quotes. set (q1 := upd_st i _ q). assert (G1 : good q1 w) by (apply good_upd; [by destruct keep | by destruct keep | | done]; intros s; destruct keep; [apply G | by destruct s]). clearbody q1.
  set (q2 := upd_st i _ q1). assert (G2 : good q2 w) by by apply good_mode. clearbody q2.
  pose proof (pull_levels_good i Buy q2 w G2) as G3. destruct (pull_levels _ _ i Buy q2 w) as [[n1 q3] w3].
  pose proof (pull_levels_good i Sell q3 w3 G3) as G4. by destruct (pull_levels _ _ i Sell q3 w3) as [[n2 q4] w4].
Qed.
Lemma pause_good i q w : good q w -> good (pause_quotes i q) w.
Proof.
  intros G. unfold pause_quotes. set (q1 := upd_st i _ q). assert (G1 : good q1 w) by by apply good_mode. clearbody q1. destruct G1 as [G1 G2 [T1 T2 T3]].
  set (f := fun st => st <| is_slots ::= _ |>). assert (Es : forall j s l, exists b, slot_at (upd_st i f q1) j s l = (slot_at q1 j s l) <| sl_apply_want := b |> /\ (b = true -> sl_apply_want (slot_at q1 j s l) = true)).
  { intros j s l. unfold slot_at, slot_of. rewrite st_upd. case_decide as E.
    - exists false. subst. unfold f. cbn. rewrite lookup_fmap. by destruct (is_slots (st_at q1 i) !! _).
    - exists (sl_apply_want (slot_at q1 j s l)). unfold slot_at, slot_of. by destruct (default new_slot _). }
  assert (Eu : forall j s, used_of (st_at (upd_st i f q1) j) s = used_of (st_at q1 j) s) by (intros; rewrite st_upd; case_decide; by subst).
  constructor; [|done|].
  - intros j s l Hl h o Hh Hq. destruct (Es j s l) as (b & -> & _). by apply (G1 j s l Hl h o).
  - constructor; [intros; by rewrite Eu | intros; rewrite st_upd; case_decide; subst; apply T2|].
    intros j s l Hr. rewrite Eu in Hr. specialize (T3 j s l Hr). unfold slot_empty in *. destruct (Es j s l) as (b & -> & Hb). cbn. apply andb_true_iff in T3 as [[E1 E2]%andb_true_iff E3].
    rewrite E1, E3. destruct b; [|done]. by rewrite Hb in E2.
Qed.
Lemma resolve_good q w : good q w -> good (resolve_replace q) w.
Proof.
  unfold resolve_replace. generalize (seqZ 0 kMaxInstruments). intros js. revert q. induction js as [|i js IH]; intros q G; [done|]. cbn [fold_left]. apply IH. by apply good_mode.
Qed.

(** ** Order updates *)

(** A non-terminal update shows the order as it is now. *)
Definition reports (w : W) (u : OmsUpdate) : Prop := forall o, live_order w (u_handle u) = Some o -> o_state o = o_state (u_order u).

Lemma owns_nonempty w i s l sl : owns live_order w i s l sl = true -> slot_empty sl = false.
Proof. intros [Hv _]%owns_spec. unfold slot_empty. by rewrite Hv. Qed.

Lemma live_update_good u inst s l now q w : is_level l -> reports w u -> good q w ->
  good (fst (on_live_update live_order place u inst s l now q w)) (snd (on_live_update live_order place u inst s l now q w)).
Proof.
  intros Hl Hu G. unfold on_live_update. set (i := in_id inst). set (q1 := if (_ : bool) then _ else q). assert (G1 : good q1 w) by (unfold q1; destruct (_ && _); [by apply good_mode | done]). clearbody q1. clear G q.
  destruct (_ || _) eqn:Er; [done|]. apply orb_false_iff in Er as [[[_ Eh]%orb_false_iff Eo]%orb_false_iff Ew].
  apply negb_false_iff in Eh, Eo, Ew. apply Z.eqb_eq in Eh. pose proof (owns_nonempty _ _ _ _ _ Eo) as Hne.
  assert (Hi : idle live_order q1 w i s l).
  { split; [done|]. split; [done|]. apply owns_spec in Eo as (_ & o & Ho & _). unfold the_order. rewrite Ho. cbn. rewrite Eh in Ho. rewrite (Hu o Ho). unfold is_working in Ew. by destruct (o_state (u_order u)). }
  destruct (is_pulled _).
  { destruct (cancel_step live_order wok place i s l q1 w (g_wok _ _ G1) (g_lone _ _ G1 i s l Hl) Hi) as (A & B & _). destruct (cancel place i s l q1 w) as [[k q2] w2]. cbn [fst snd] in *.
    apply (good_step i s l q1 w); [done | exact A | exact B | exact G1 | congruence]. }
  destruct (is_paused _); [done|]. destruct (_ && _); [|done]. set (q2 := upd_slot i s l _ q1).
  assert (H2 : slot_step i s l q1 w q2 w) by (apply keep_handle; [done | by apply G1]). assert (Hl2 : lone_at live_order q2 w i s l) by apply H2. clearbody q2.
  destruct (reconcile_slot_step live_order wok place inst s l (if side_held q2 s then no_level else sl_want (slot_at q1 i s l)) (sl_want_account (slot_at q1 i s l)) (sl_want_value (slot_at q1 i s l))
    (sl_want_keep (slot_at q1 i s l)) now q2 w Hl (g_wok _ _ G1) Hl2) as (A & B & _). destruct (reconcile_slot _ _ _ _ _ _ _ _ _ _) as [[k q3] w3]. cbn [fst snd] in *.
  apply (good_step i s l q1 w); [done | by eapply step_trans | exact B | exact G1 | congruence].
Qed.
Lemma terminal_update_good inst s l now q w : is_level l -> good q w ->
  good (fst (on_terminal_update live_order place inst s l now q w)) (snd (on_terminal_update live_order place inst s l now q w)).
Proof.
  intros Hl G. unfold on_terminal_update. set (i := in_id inst). destruct (owns _ _ _ _ _ _) eqn:Eo; [done|]. set (q1 := upd_slot i s l _ q).
  assert (H1 : slot_step i s l q w q1 w) by (apply step_upd; [by right | by apply G]).
  assert (E1 : slot_at q1 i s l = (slot_at q i s l) <| sl_handle := kNullHandle |> <| sl_cl_ord_id := 0 |> <| sl_awaiting_terminal := false |>) by (unfold q1; by rewrite slot_upd_eq).
  assert (Ho1 : owns live_order w i s l (slot_at q1 i s l) = false) by by rewrite E1. clearbody q1.
  destruct (_ || _) eqn:Ep; [cbn [fst snd]|].
  { apply (good_step i s l q w); [done | exact H1 | apply G | exact G|]. rewrite E1. unfold slot_empty. cbn. intros He. apply andb_true_iff in He as [[_ ->]%andb_true_iff _]. done. }
  apply orb_false_iff in Ep as [_ Ea%negb_false_iff]. assert (Hne : slot_empty (slot_at q i s l) = true -> False).
  { rewrite E1 in Ea. cbn in Ea. unfold slot_empty. rewrite Ea. by rewrite andb_false_r. }
  set (q2 := upd_slot i s l _ q1). assert (H2 : slot_step i s l q w q2 w) by (eapply step_trans; [exact H1|]; apply keep_handle; [done | apply H1]).
  assert (Ho2 : owns live_order w i s l (slot_at q2 i s l) = false) by (unfold q2; by rewrite slot_upd_eq). clearbody q2.
  assert (Hend : forall q3 w3, slot_step i s l q2 w q3 w3 -> wok w3 -> good q3 w3) by (intros q3 w3 A B; apply (good_step i s l q w); [done | by eapply step_trans | done | done | done]).
  destruct (_ || _); [cbn [fst snd]; apply Hend; [apply step_refl; apply H2 | apply G]|].
  destruct (backing_off _ _ _); [cbn [fst snd]; apply Hend; [apply step_quiet; [apply quiet_kept_backoff | apply H2] | apply G]|].
  destruct (submit_new_step live_order wok place i s l (sl_want (slot_at q1 i s l)) (sl_want_account (slot_at q1 i s l)) (sl_want_value (slot_at q1 i s l)) now true q2 w Hl (g_wok _ _ G) ltac:(apply H2) Ho2) as (A & B & _).
  destruct (submit_new _ _ _ _ _ _ _ _ _ _ _) as [[k q3] w3]. by apply Hend.
Qed.
Lemma order_update_good u inst now q w : (u_terminal u = false -> reports w u) -> good q w ->
  good (fst (on_order_update live_order place u inst now q w)) (snd (on_order_update live_order place u inst now q w)).
Proof.
  intros Hu G. unfold on_order_update. set (t := o_user_tag (u_order u)). destruct (negb (is_quote_tag t)); [done|]. destruct (_ || _) eqn:El; [done|].
  apply orb_false_iff in El as [El _]. change (Z.of_nat kMaxQuoteLevels) with 8 in El. assert (Hl : is_level (tag_level t)).
  { unfold is_level. split; [|lia]. unfold tag_level. apply Z.land_nonneg. right. lia. }
  set (q1 := if (_ : bool) then _ else q). assert (G1 : good q1 w) by (unfold q1; destruct (negb _); [by apply (good_quiet q); [apply quiet_venue_reject|] | done]). clearbody q1.
  destruct (u_terminal u); cbn [negb]; [by apply terminal_update_good | apply live_update_good; auto].
Qed.

(** ** Retries *)

Lemma good_pair (r : Z * QuoteManager * W) : good (snd (fst r)) (snd r) -> good (fst (let '(_, q, w) := r in (q, w))) (snd (let '(_, q, w) := r in (q, w))).
Proof. by destruct r as [[? ?] ?]. Qed.
Lemma retry_queued_good inst now q w : good q w -> good (snd (fst (retry_queued live_order place inst now q w))) (snd (retry_queued live_order place inst now q w)).
Proof. intros G. unfold retry_queued. destruct (_ || _); [done|]. apply reconcile_good; [apply G | done]. Qed.
Lemma take_due_good now f n : (forall i q w, good q w -> good (fst (f i q w)) (snd (f i q w))) -> forall q w, good q w -> good (fst (take_due now f n q w)) (snd (take_due now f n q w)).
Proof.
  intros Hf. induction n as [|n IH]; intros q w G; [done|]. cbn [take_due]. destruct (Ring.pop _ _) as [[[i|] r]|]; [|done|done]. set (q1 := q <| qm_backed_off := r |>).
  assert (G1 : good q1 w) by (apply (good_quiet q); [by apply quiet_frame | done]). clearbody q1. destruct (now <? _).
  - apply IH. apply (good_quiet q1); [by apply quiet_frame | done].
  - assert (G2 : good (set_retry i kNever q1) w) by by apply good_mode. specialize (Hf i _ _ G2). destruct (f i _ w) as [q2 w2]. by apply IH.
Qed.
Lemma take_priced_good f n : (forall i q w, good q w -> good (fst (f i q w)) (snd (f i q w))) -> forall q w, good q w -> good (fst (take_all_priced f n q w)) (snd (take_all_priced f n q w)).
Proof.
  intros Hf. induction n as [|n IH]; intros q w G; [done|]. cbn [take_all_priced]. destruct (Ring.pop _ _) as [[[i|] r]|]; [|done|done].
  assert (G1 : good (upd_st i (fun st => st <| is_priced := false |>) (q <| qm_priced := r |>)) w) by (apply good_mode; try done; apply (good_quiet q); [by apply quiet_frame | done]).
  specialize (Hf i _ _ G1). destruct (f i _ w) as [q2 w2]. by apply IH.
Qed.
Lemma pop_starved_good q w i q' : good q w -> pop_starved q = Some (i, q') -> good q' w.
Proof.
  intros G. unfold pop_starved. destruct (Ring.pop _ _) as [[[j|] r]|]; [|done|done]. intros [= -> <-]. apply good_mode; try done. apply (good_quiet q); [by apply quiet_frame | done].
Qed.

(** ** Reachable states *)

(** The instruments and whether one may quote, as the engine's retries see them. *)
Context (insts : InstrumentId -> Instrument) (enabled : W -> InstrumentId -> bool).
(** What the engine does with an instrument handed out by a queue. *)
Definition try_again (now : Timestamp) (i : InstrumentId) (q : QuoteManager) (w : W) : QuoteManager * W :=
  if enabled w i then let '(_, q, w) := retry_queued live_order place (insts i) now q w in (q, w) else (q, w).

(** The venue and the rest of the engine change the world as they like, but no quote comes to life outside the placer
    and a live one keeps its instrument and tag. *)
Definition world_step (w w' : W) : Prop :=
  forall h o', live_order w' h = Some o' -> is_quote_tag (o_user_tag o') = true ->
    exists o, live_order w h = Some o /\ o_instrument o = o_instrument o' /\ o_user_tag o = o_user_tag o'.
(** What happens outside the manager, one step. *)
Context (wstep : W -> W -> Prop).
Hypothesis wstep_ok : forall w w', wok w -> wstep w w' -> wok w' /\ world_step w w'.
(** A ladder has at most [kMaxQuoteLevels] levels a side. *)
Definition ladder (d : DesiredQuotes) : Prop := forall s, Z.of_nat (length (dq_side d s)) <= 8.

Inductive quotes_reach : QuoteManager -> W -> Prop :=
| qr_new p w : wok w -> (forall h o, live_order w h = Some o -> is_quote_tag (o_user_tag o) = false) -> quotes_reach (new_quote_manager p) w
| qr_world q w w' : quotes_reach q w -> wstep w w' -> quotes_reach q w'
| qr_params q w p : quotes_reach q w -> quotes_reach (set_params p q) w
| qr_replace q w i on : quotes_reach q w -> quotes_reach (set_replace i on q) w
| qr_hold q w s on : quotes_reach q w -> quotes_reach (hold_side s on q) w
| qr_reconcile q w inst d now k q' w' : quotes_reach q w -> ladder d -> reconcile inst d now q w = (k, q', w') -> quotes_reach q' w'
| qr_pull q w i keep k q' w' : quotes_reach q w -> pull_quotes live_order place i keep q w = (k, q', w') -> quotes_reach q' w'
| qr_pause q w i : quotes_reach q w -> quotes_reach (pause_quotes i q) w
| qr_resume q w inst now k q' w' : quotes_reach q w -> resume live_order place inst now q w = (k, q', w') -> quotes_reach q' w'
| qr_pull_side q w inst s now k q' w' : quotes_reach q w -> pull_side live_order place inst s now q w = (k, q', w') -> quotes_reach q' w'
| qr_reapply q w inst now k q' w' : quotes_reach q w -> reapply live_order place inst now q w = (k, q', w') -> quotes_reach q' w'
| qr_pop q w i q' : quotes_reach q w -> pop_starved q = Some (i, q') -> quotes_reach q' w
| qr_retry q w inst now k q' w' : quotes_reach q w -> retry live_order place inst now q w = (k, q', w') -> quotes_reach q' w'
| qr_backed_off q w now q' w' : quotes_reach q w -> take_backoff_due now (try_again now) q w = (q', w') -> quotes_reach q' w'
| qr_priced q w now q' w' : quotes_reach q w -> take_priced (try_again now) q w = (q', w') -> quotes_reach q' w'
| qr_update q w u inst now q' w' : quotes_reach q w -> (u_terminal u = false -> reports w u) -> on_order_update live_order place u inst now q w = (q', w') -> quotes_reach q' w'.

Lemma try_again_good now i q w : good q w -> good (fst (try_again now i q w)) (snd (try_again now i q w)).
Proof. intros G. unfold try_again. destruct (enabled w i); [|done]. by apply good_pair, retry_queued_good. Qed.
Lemma new_good p w : wok w -> (forall h o, live_order w h = Some o -> is_quote_tag (o_user_tag o) = false) -> good (new_quote_manager p) w.
Proof.
  intros Hw Hn. unfold new_quote_manager. apply resolve_good. assert (E : forall i, st_at (mkQuotes p no_qstats ∅ Ring.ring_empty Ring.ring_empty Ring.ring_empty kNever ∅) i = new_inst) by (intros; unfold st_at; cbn; by rewrite lookup_empty).
  constructor; [|done|].
  - intros i s l Hl h o Hh [_ Ht]. pose proof (Hn h o Hh) as Hno. destruct (tag_roundtrip s l Hl) as (_ & _ & E2). by rewrite Ht, E2 in Hno.
  - constructor; intros i s; [rewrite E; destruct s; by split | rewrite E; by destruct s|]. intros l _. unfold slot_at. rewrite E. by destruct s.
Qed.
Lemma world_good q w w' : good q w -> wok w' -> world_step w w' -> good q w'.
Proof.
  intros [G1 G2 G3] Hw Hs. constructor; [|done|done]. intros i s l Hl h o' Hh [E1 E2]. destruct (tag_roundtrip s l Hl) as (_ & _ & E3).
  destruct (Hs h o' Hh ltac:(by rewrite E2)) as (o & Ho & F1 & F2). apply (G1 i s l Hl h o Ho). split; congruence.
Qed.

Lemma good_res {q w} {r : Z * QuoteManager * W} {k q' w'} : good q w -> (good q w -> good (snd (fst r)) (snd r)) -> r = (k, q', w') -> good q' w'.
Proof. intros G H ->. by apply H. Qed.
Lemma reach_good q w : quotes_reach q w -> good q w.
Proof.
  induction 1 as [p w Hw Hn|q w w' _ IH Hs|q w p _ IH|q w i on _ IH|q w s on _ IH|q w inst d now k q' w' _ IH Hd E|q w i keep k q' w' _ IH E|q w i _ IH|q w inst now k q' w' _ IH E
    |q w inst s now k q' w' _ IH E|q w inst now k q' w' _ IH E|q w i q' _ IH E|q w inst now k q' w' _ IH E|q w now q' w' _ IH E|q w now q' w' _ IH E|q w u inst now q' w' _ IH Hu E].
  - by apply new_good.
  - destruct (wstep_ok w w' (g_wok _ _ IH) Hs) as [Hw' Hs']. by apply (world_good q w).
  - unfold set_params. apply resolve_good. by apply (good_frame q).
  - by apply good_mode.
  - by apply (good_frame q).
  - apply (good_res IH (reconcile_good inst d now q w Hd) E).
  - apply (good_res IH (pull_quotes_good i keep q w) E).
  - by apply pause_good.
  - unfold resume in E. set (q1 := upd_st _ _ q) in E. assert (G1 : good q1 w) by by apply good_mode. destruct (negb _); [by simplify_eq|].
    apply (good_res G1 (reconcile_good inst _ now q1 w (t_len _ (g_tidy _ _ G1) (in_id inst))) E).
  - apply (good_res IH (pull_side_good inst s now q w) E).
  - unfold reapply in E. destruct (_ || _); [by simplify_eq|]. apply (good_res IH (reconcile_good inst _ now q w (t_len _ (g_tidy _ _ IH) (in_id inst))) E).
  - by apply (pop_starved_good q w i).
  - unfold retry in E. destruct (_ || _); [by simplify_eq|]. set (q1 := qstat _ q) in E. assert (G1 : good q1 w) by by apply (good_frame q).
    apply (good_res G1 (reconcile_good inst (is_desired (st_at q (in_id inst))) now q1 w (t_len _ (g_tidy _ _ G1) (in_id inst))) E).
  - unfold take_backoff_due in E. destruct (_ <? _); [by simplify_eq|]. pose proof (take_due_good now (try_again now) (Z.to_nat (Ring.size (qm_backed_off q))) (try_again_good now) (q <| qm_backoff_due := kNever |>) w) as G.
    rewrite E in G. apply G. by apply (good_frame q).
  - pose proof (take_priced_good (try_again now) (Z.to_nat (Ring.size (qm_priced q))) (try_again_good now) q w IH) as G. unfold take_priced in E. by rewrite E in G.
  - pose proof (order_update_good u inst now q w Hu IH) as G. by rewrite E in G.
Qed.

(** C12. One order per level: however requotes, pulls, retries, order updates and venue events interleave, every live order
    tagged as the quote of an instrument, side and level is the one its slot holds, so no level ever has two live
    orders; and the slots above those counted as used hold nothing, so a requote visits every live quote. *)
Theorem one_order_per_level q w : quotes_reach q w ->
  (forall i s l h o, is_level l -> live_order w h = Some o -> quote_of i s l o -> sl_handle (slot_at q i s l) = h /\ l < used_of (st_at q i) s) /\
  (forall i s l h1 h2 o1 o2, is_level l -> live_order w h1 = Some o1 -> live_order w h2 = Some o2 -> quote_of i s l o1 -> quote_of i s l o2 -> h1 = h2).
Proof.
  intros [G1 G2 [T1 T2 T3]]%reach_good. split.
  - intros i s l h o Hl Hh Hq. destruct (G1 i s l Hl h o Hh Hq) as [E Hv]. split; [done|]. unfold is_level in Hl. destruct (decide (l < used_of (st_at q i) s)); [done|].
    specialize (T3 i s l ltac:(lia)). unfold slot_empty in T3. by rewrite E, Hv in T3.
  - intros i s l h1 h2 o1 o2 Hl H1 H2 Q1 Q2. destruct (G1 i s l Hl h1 o1 H1 Q1), (G1 i s l Hl h2 o2 H2 Q2). congruence.
Qed.
(** ** Pulling *)

(** The placer sends every Cancel that respects the slots. *)
Definition cancels_sent : Prop := forall w a, wok w -> legit live_order w a -> qa_kind a = ACancel -> fst (fst (place a w)) = true.
(** Nothing of the level is working. *)
Definition at_rest (i : InstrumentId) (s : Side) (l : Z) (w : W) : Prop := forall h o, live_order w h = Some o -> quote_of i s l o -> is_working o = false.

Lemma only_other i s l l' w w' : is_level l -> is_level l' -> l <> l' -> only live_order i s l' w w' -> forall h o, quote_of i s l o -> live_order w' h = Some o -> live_order w h = Some o.
Proof. intros Hl Hl' N Ho h o [E1 E2] Hh. apply Ho; [|done]. intros [_ E3]. destruct (make_tag_inj s l s l' Hl Hl' ltac:(congruence)) as [_ ->]. done. Qed.
Lemma pending_not_working o : is_pending (o_state o) = true -> is_working o = false.
Proof. unfold is_working. by destruct (o_state o). Qed.
Lemma slot_order q w i s l h o : lone_at live_order q w i s l -> live_order w h = Some o -> quote_of i s l o -> the_order live_order w (slot_at q i s l) = o.
Proof. intros H Hh Hq. destruct (H h o Hh Hq) as [E _]. unfold the_order. by rewrite E, Hh. Qed.

Lemma pull_slot_rests i s l q w : cancels_sent -> is_level l -> wok w -> lone q w -> at_rest i s l (snd (pull_slot live_order place i s l q w)).
Proof.
  intros Hc Hl Hw H. unfold pull_slot. set (q1 := upd_slot i s l _ q). assert (H1 : lone_at live_order q1 w i s l) by (apply (keep_handle live_order (fun sl => sl <| sl_apply_want := false |>)); [done | by apply H]). clearbody q1.
  destruct (owns _ _ _ _ _ _) eqn:Eo; cbn [negb]; [|intros h o Hh Hq; by destruct (not_owned live_order q1 w i s l H1 Eo h o Hh)].
  destruct (is_working _) eqn:Ew; cbn [negb snd]; [|intros h o Hh Hq; by rewrite (slot_order q1 w i s l h o) in Ew].
  assert (Hi : idle live_order q1 w i s l) by (split; [done|]; split; [done|]; unfold is_working in Ew; by destruct (o_state _)).
  pose proof (cancel_step live_order wok place i s l q1 w Hw H1 Hi) as ([_ _ _ _ H2] & _). unfold cancel in *. set (a := new_action _ _ _ _ _ _ _ _) in *.
  pose proof (idle_legit live_order q1 w i s l a Hi ltac:(done) eq_refl eq_refl eq_refl eq_refl) as Hlg. pose proof (Hc w a Hw Hlg eq_refl) as Hok. destruct (place a w) as [[ok a'] w'] eqn:Ep. cbn [fst] in Hok. subst ok. cbn [negb fst snd] in *.
  destruct (pl_touch live_order _ _ _ _ Hw Hlg ltac:(done) Ep) as [(o' & Ho' & Hq' & Hp') _]. intros h o Hh Hq. destruct (H2 h o Hh Hq) as [E _], (H2 _ o' Ho' Hq') as [E' _].
  assert (Eh : h = qa_handle a) by congruence. rewrite Eh, Ho' in Hh. apply (inj Some) in Hh as <-. by apply pending_not_working.
Qed.
Lemma pull_levels_rest i s q w : cancels_sent -> good q w -> let w' := snd (pull_levels live_order place i s q w) in others live_order i s w w' /\ forall l, is_level l -> at_rest i s l w'.
Proof.
  intros Hc G. unfold pull_levels. destruct (over_levels_step live_order wok i s (pull_slot live_order place i s) 8 1 q w (fun _ _ _ _ => True) (fun _ _ _ => True) (fun l _ w => at_rest i s l w))
    as (acts & used & q' & w' & E & Hs & _ & _ & _ & _ & Hp); [lia | apply G | apply G | done | done | done | | done | |].
  - intros l l' q1 w1 q2 w2 Hl Hl' N _ _ Hs _ Hr h o Hh Hq. apply (Hr h o); [|done]. by apply (only_other i s l l' w1 w2 Hl Hl' N (ss_only _ _ _ _ _ _ _ _ Hs)).
  - intros l q1 w1 Hl Hw1 H1 _. pose proof (pull_slot_step live_order wok place i s l q1 w1 ltac:(unfold is_level; lia) Hw1 ltac:(apply H1; unfold is_level; lia)) as Hs.
    pose proof (pull_slot_rests i s l q1 w1 Hc ltac:(unfold is_level; lia) Hw1 H1) as Hr. destruct (pull_slot _ _ i s l q1 w1) as [[k q2] w2]. split; [done|]. split; [apply Hs | done].
  - change (Z.of_nat kMaxQuoteLevels) with 8. rewrite E. cbn [snd]. split; [apply Hs | exact Hp].
Qed.

(** C16. A pull leaves nothing working: when the placer takes the cancels, after [pull_quotes] no quote of the instrument,
    on either side and at any level, is working at the venue without a cancel on its way; what is left is pending. *)
Theorem pull_leaves_nothing_working q w i keep k q' w' : quotes_reach q w -> cancels_sent -> pull_quotes live_order place i keep q w = (k, q', w') ->
  forall s l h o, is_level l -> live_order w' h = Some o -> quote_of i s l o -> is_working o = false.
Proof.
  intros G%reach_good Hc E. unfold pull_quotes in E. set (q1 := upd_st i _ q) in E. assert (G1 : good q1 w) by (apply good_upd; [by destruct keep | by destruct keep | | done]; intros s; destruct keep; [apply G | by destruct s]). clearbody q1.
  set (q2 := upd_st i _ q1) in E. assert (G2 : good q2 w) by by apply good_mode. clearbody q2.
  pose proof (pull_levels_good i Buy q2 w G2) as G3. destruct (pull_levels_rest i Buy q2 w Hc G2) as [_ R1]. destruct (pull_levels _ _ i Buy q2 w) as [[n1 q3] w3]. cbn [fst snd] in *.
  destruct (pull_levels_rest i Sell q3 w3 Hc G3) as [O2 R2]. destruct (pull_levels _ _ i Sell q3 w3) as [[n2 q4] w4]. cbn [snd] in *. injection E as _ _ <-.
  intros s l h o Hl Hh Hq. destruct s; [|by apply (R2 l Hl h o)]. apply (R1 l Hl h o); [|done]. apply O2; [|done].
  intros l' Hl' [_ E]. destruct Hq as [_ E']. by destruct (make_tag_inj Buy l Sell l' Hl Hl' ltac:(congruence)).
Qed.
End quotes.

(** ** Recording the placements *)

Section recorder.
Context {W : Type} (live_order : W -> Z -> option Order) (wok : W -> Prop) (place : QuoteAction -> W -> bool * QuoteAction * W).

(** The world with the list of the placements asked for, each with the world it was asked in. *)
Abbreviation Rec := (W * list (W * QuoteAction))%type.
Definition rec_live (x : Rec) (h : Z) : option Order := live_order (fst x) h.
Definition rec_place (a : QuoteAction) (x : Rec) : bool * QuoteAction * Rec :=
  let '(ok, a', w') := place a (fst x) in (ok, a', (w', snd x ++ [(fst x, a)])).
Definition rec_ok (x : Rec) : Prop := wok (fst x) /\ Forall (fun c => legit live_order (fst c) (snd c)) (snd x).

Lemma rec_place_eq a x ok a' x' : rec_place a x = (ok, a', x') -> place a (fst x) = (ok, a', fst x').
Proof. unfold rec_place. destruct (place a (fst x)) as [[? ?] ?]. by intros [= -> -> <-]. Qed.
#[export] Instance rec_placer `{!Placer live_order wok place} : Placer rec_live rec_ok rec_place.
Proof.
  constructor.
  - intros x a ok a' x' [Hw Hl] Hlg E. pose proof (rec_place_eq _ _ _ _ _ E) as E1. split; [by eapply pl_ok|]. unfold rec_place in E. rewrite E1 in E. injection E as <-. cbn.
    apply Forall_app. split; [done|]. by apply Forall_singleton.
  - intros x a a' x' [Hw Hl] Hlg Hk E%rec_place_eq Hv. exact (pl_new (wok := wok) live_order _ _ _ _ Hw (Hlg : legit live_order (fst x) a) Hk E Hv).
  - intros x a a' x' [Hw Hl] Hlg Hk E%rec_place_eq. exact (pl_touch (wok := wok) live_order _ _ _ _ Hw (Hlg : legit live_order (fst x) a) Hk E).
  - intros x a ok a' x' [Hw Hl] Hlg E%rec_place_eq Hn. exact (pl_refused (wok := wok) live_order _ _ _ _ _ Hw (Hlg : legit live_order (fst x) a) E Hn).
Qed.

Context (insts : InstrumentId -> Instrument) (enabled : W -> InstrumentId -> bool) (wstep : W -> W -> Prop).
Context `{HP : !Placer live_order wok place}.
Hypothesis wstep_ok : forall w w', wok w -> wstep w w' -> wok w' /\ world_step live_order w w'.
Definition rec_step (x x' : Rec) : Prop := wstep (fst x) (fst x') /\ snd x' = snd x.
Abbreviation recorded := (quotes_reach rec_live rec_ok rec_place insts (fun x => enabled (fst x)) rec_step).

(** C13. The manager touches only its own orders: in every history, each placement it asked for was, when it asked, either
    a New for a level with no live order of its own, or a Cancel or Replace of the live order that carries the
    level's tag while that order was not pending. *)
Theorem placements_respect_slots q w log : recorded q (w, log) -> Forall (fun c => legit live_order (fst c) (snd c)) log.
Proof.
  intros H. apply (reach_good rec_live rec_ok rec_place) in H as [_ [_ Hl] _]; [done|]. intros x x' [Hw Hf] [Hs E]. destruct (wstep_ok _ _ Hw Hs) as [Hw' Hs']. split; [|exact Hs']. split; [done | by rewrite E].
Qed.
(** While an instrument is pulled or paused nothing new is quoted: an order update sends at most Cancels, and nothing
    at all when it is only paused, and no retry or reapply sends or changes anything. *)
Theorem pulled_sends_only_cancels u inst now q w log : let i := in_id inst in is_pulled (st_at q i) || is_paused (st_at q i) = true ->
  (exists calls, snd (snd (on_order_update rec_live rec_place u inst now q (w, log))) = log ++ calls /\ Forall (fun c => qa_kind (snd c) = ACancel) calls /\
     (is_pulled (st_at q i) = false -> calls = [])) /\
  retry rec_live rec_place inst now q (w, log) = (0, q, (w, log)) /\ retry_queued rec_live rec_place inst now q (w, log) = (0, q, (w, log)) /\
  reapply rec_live rec_place inst now q (w, log) = (0, q, (w, log)).
Proof.
  intros i Hp. split; [|unfold retry, retry_queued, reapply; fold i; by rewrite Hp].
  assert (Hnone : forall q' : QuoteManager, exists calls, snd (snd (q', (w, log))) = log ++ calls /\ Forall (fun c => qa_kind (snd c) = ACancel) calls /\ (is_pulled (st_at q i) = false -> calls = []))
    by (intros; exists []; by rewrite app_nil_r).
  unfold on_order_update. cbv zeta. destruct (negb (is_quote_tag _)); [apply Hnone|]. destruct ((_ <=? _) || _); [apply Hnone|]. fold i. set (s := tag_side _). set (l := tag_level _). set (q1 := if (_ : bool) then _ else q).
  assert (E1 : is_pulled (st_at q1 i) = is_pulled (st_at q i) /\ is_paused (st_at q1 i) = is_paused (st_at q i)).
  { assert (Hq : quiet q q1) by (unfold q1; destruct (negb _); auto with fmm). destruct (qu_ctl _ _ Hq i). pose proof (qu_ctl _ _ Hq i) as E. unfold ctl in E. by simplify_eq. }
  clearbody q1. destruct E1 as [E1 E2]. destruct (u_terminal u); cbn [negb].
  - unfold on_terminal_update. fold i. destruct (owns _ _ _ _ _ _); [apply Hnone|]. set (q2 := upd_slot i s l _ q1).
    assert (E3 : is_pulled (st_at q2 i) = is_pulled (st_at q i) /\ is_paused (st_at q2 i) = is_paused (st_at q i)) by (unfold q2, upd_slot; rewrite st_upd, decide_True by done; done). destruct E3 as [-> ->]. rewrite Hp. apply Hnone.
  - unfold on_live_update. fold i. set (q2 := if (_ : bool) then _ else q1). assert (E3 : is_pulled (st_at q2 i) = is_pulled (st_at q i) /\ is_paused (st_at q2 i) = is_paused (st_at q i)).
    { unfold q2. destruct (_ && _ && _); [rewrite st_upd, decide_True by done; done | done]. }
    clearbody q2. destruct E3 as [-> E4]. rewrite E4. destruct (_ || _ || _ || _); [apply Hnone|]. destruct (is_pulled (st_at q i)) eqn:Epl.
    + unfold cancel, rec_place. cbn [fst snd]. set (a := new_action _ _ _ _ _ _ _ _). destruct (place a w) as [[ok a'] w']. exists [(w, a)]. split; [by destruct ok|]. split; [by apply Forall_singleton | done].
    + cbn [orb] in Hp. rewrite Hp. apply Hnone.
Qed.
End recorder.
