(* ===== verification/QuoteSettle.v ===== *)
(** * QuoteSettle: applying the same quotes twice sends nothing the second time

    After a requote whose placements were all sent, every level is settled: its order is pending, or close enough, or too
    fresh to move, or there is none and none may be sent.  A settled level sends nothing, and levels do not disturb each
    other. *)

From S2P Require Import Prelude Types FixedPoint L2Book RingBuffer Instruments Orders Oms QuoteManager QuoteInv QuoteProps.

#[local] Arguments i64 : simpl never.
#[local] Arguments u32 : simpl never.
#[local] Arguments u64 : simpl never.
#[local] Arguments kNullHandle : simpl never.
#[local] Arguments make_tag : simpl never.

(** The backoffs of every side stand. *)
Definition calm (q q' : QuoteManager) : Prop := forall j, is_backoff (st_at q' j) = is_backoff (st_at q j) /\ is_blocked_until (st_at q' j) = is_blocked_until (st_at q j).
Lemma calm_refl q : calm q q.
Proof. done. Qed.
Lemma calm_trans q1 q2 q3 : calm q1 q2 -> calm q2 q3 -> calm q1 q3.
Proof. intros H1 H2 j. destruct (H1 j), (H2 j). split; congruence. Qed.
Lemma calm_upd i f q : (forall st, is_backoff (f st) = is_backoff st /\ is_blocked_until (f st) = is_blocked_until st) -> calm q (upd_st i f q).
Proof. intros Hf j. rewrite st_upd. case_decide; [subst; apply Hf | done]. Qed.
Lemma calm_frame q q' : qm_state q' = qm_state q -> calm q q'.
Proof. intros E j. unfold st_at. by rewrite E. Qed.
Lemma calm_slot i s l f q : calm q (upd_slot i s l f q).
Proof. by apply calm_upd. Qed.
Lemma calm_qstat f q : calm q (qstat f q).
Proof. by apply calm_frame. Qed.
Lemma calm_kept i s q : calm q (kept_backoff i s q).
Proof.
  unfold kept_backoff. set (q1 := qstat _ q). assert (H1 : calm q q1) by apply calm_qstat. clearbody q1.
  assert (Hw : forall t u q2, calm q q2 -> calm q ((set_retry i t q2) <| qm_backoff_due ::= Z.min u |>)).
  { intros t u q2 H2. eapply calm_trans; [exact H2|]. by apply (calm_upd i (fun st => st <| is_retry_at := t |>)). }
  destruct (_ =? kNever); [|by apply Hw]. destruct (Ring.try_push _ _ _) as [[|] r]; [|done]. apply Hw. eapply calm_trans; [exact H1|]. by apply calm_frame.
Qed.
Lemma calm_backing q q' i s now : calm q q' -> backing_off (st_at q' i) s now = backing_off (st_at q i) s now.
Proof. intros H. destruct (H i) as [E1 E2]. unfold backing_off, backoff_of, blocked_of. by rewrite E1, E2. Qed.

Section settle.
Context {W : Type} (live_order : W -> Z -> option Order) (wok : W -> Prop) (place : QuoteAction -> W -> bool * QuoteAction * W) `{HP : !Placer live_order wok place}.
Context (inst : Instrument) (now : Timestamp).
Abbreviation i := (in_id inst).
Abbreviation owns := (owns live_order).
Abbreviation the_order := (the_order live_order).
Abbreviation lone := (lone live_order).

(** Everything asked for is sent. *)
Definition all_sent : Prop := forall w a, wok w -> legit live_order w a -> fst (fst (place a w)) = true /\ (qa_kind a = ANew -> handle_valid (qa_handle (snd (fst (place a w)))) = true).

Definition settled (s : Side) (l : Z) (target : Level) (account : VenueId) (q : QuoteManager) (w : W) : Prop :=
  let sl := slot_at q i s l in
  let o := the_order w sl in
  if owns w i s l sl then is_pending (o_state o) = true \/
    ((0 <? l_qty target) = true /\ negb (account =? kInvalidVenue) && negb (o_venue o =? account) = false /\
     (close_enough (qm_params q) (in_tick inst) o target = true \/ too_soon (qm_params q) sl now = true))
  else (0 <? l_qty target) = false \/ backing_off (st_at q i) s now = true.

Lemma settled_ext s l target account q w q' w' : slot_at q' i s l = slot_at q i s l -> qm_params q' = qm_params q -> calm q q' ->
  (forall h o, quote_of i s l o -> live_order w h = Some o <-> live_order w' h = Some o) -> settled s l target account q w -> settled s l target account q' w'.
Proof.
  intros E1 E2 Hc Hw. unfold settled. rewrite E1, E2, (calm_backing q q' i s now Hc). assert (Eo : owns w' i s l (slot_at q i s l) = owns w i s l (slot_at q i s l)).
  { apply eq_true_iff_eq. rewrite !owns_spec. split; intros (Hv & o & Ho & Hq); (split; [done|]; exists o; split; [by apply (Hw _ o Hq) | done]). }
  rewrite Eo. destruct (owns w i s l (slot_at q i s l)) eqn:E; [|done]. apply owns_spec in E as (_ & o & Ho & Hq).
  assert (Et : the_order w' (slot_at q i s l) = the_order w (slot_at q i s l)) by (unfold QuoteManager.the_order; rewrite Ho, (proj1 (Hw _ o Hq) Ho); done). by rewrite Et.
Qed.

(** A level with its order pending is settled. *)
Lemma pending_settled s l target account q w o : handle_valid (sl_handle (slot_at q i s l)) = true -> live_order w (sl_handle (slot_at q i s l)) = Some o -> quote_of i s l o ->
  is_pending (o_state o) = true -> settled s l target account q w.
Proof.
  intros Hv Ho Hq Hp. unfold settled. assert (E : owns w i s l (slot_at q i s l) = true) by (apply owns_spec; eauto). rewrite E. left. unfold QuoteManager.the_order. by rewrite Ho.
Qed.
Lemma touch_settled s l target account q w a a' w' f : all_sent -> wok w -> idle live_order q w i s l -> qa_kind a <> ANew -> qa_instrument a = i -> qa_side a = s -> qa_level a = l ->
  qa_handle a = sl_handle (slot_at q i s l) -> place a w = (true, a', w') -> forall q', (slot_at q' i s l = f (slot_at q i s l)) -> (forall sl, sl_handle (f sl) = sl_handle sl) -> settled s l target account q' w'.
Proof.
  intros Ha Hw Hi Hk E1 E2 E3 Eh Ep q' Es Hf. pose proof (idle_legit live_order q w i s l a Hi Hk E1 E2 E3 Eh) as Hlg. destruct (pl_touch live_order _ _ _ _ Hw Hlg Hk Ep) as [(o & Ho & Hq & Hp) _].
  rewrite E1, E2, E3 in Hq. rewrite Eh in Ho. apply (pending_settled s l target account q' w' o); rewrite ?Es, ?Hf; try done. destruct Hi as (_ & Ho' & _). by apply owns_spec in Ho' as [? _].
Qed.
Lemma sent w a ok a' w' : all_sent -> wok w -> legit live_order w a -> place a w = (ok, a', w') -> ok = true /\ (qa_kind a = ANew -> handle_valid (qa_handle a') = true).
Proof. intros Ha Hw Hl E. destruct (Ha w a Hw Hl) as [A B]. rewrite E in A, B. done. Qed.

Abbreviation lands s l target account q r := (calm q (snd (fst r)) /\ settled s l target account (snd (fst r)) (snd r)).
Lemma cancel_lands s l target account q w : all_sent -> wok w -> idle live_order q w i s l -> lands s l target account q (cancel place i s l q w).
Proof.
  intros Ha Hw Hi. unfold cancel. set (a := new_action _ _ _ _ _ _ _ _). destruct (place a w) as [[ok a'] w'] eqn:Ep. destruct (sent w a ok a' w' Ha Hw ltac:(by apply (idle_legit live_order q w i s l)) Ep) as [-> _].
  cbn [negb fst snd]. split; [eapply calm_trans; [apply calm_qstat | apply calm_slot]|].
  apply (touch_settled s l target account q w a a' w' (fun sl => sl <| sl_awaiting_terminal := true |>)); try done. by rewrite slot_upd_eq.
Qed.
Lemma move_lands s l target account value keep q w : all_sent -> wok w -> idle live_order q w i s l -> lands s l target account q (move place i s l target account value keep q w).
Proof.
  intros Ha Hw Hi. unfold move. set (a := (new_action _ _ _ _ _ _ _ _) <| qa_value := _ |> <| qa_keep := _ |>). cbv zeta. destruct (place a w) as [[ok a'] w'] eqn:Ep.
  destruct (sent w a ok a' w' Ha Hw ltac:(by apply (idle_legit live_order q w i s l)) Ep) as [-> _]. cbn [negb fst snd]. split.
  - eapply calm_trans; [|apply calm_slot]. eapply calm_trans; [|apply calm_qstat]. apply calm_slot.
  - apply (touch_settled s l target account q w a a' w' (fun sl => (record_want target account value keep sl) <| sl_paid := false |> <| sl_paid := qa_paid a' |> <| sl_awaiting_terminal := true |>)); try done.
    rewrite slot_upd_eq. change (slot_at (qstat ?f ?x) i s l) with (slot_at x i s l). by rewrite slot_upd_eq.
Qed.
Lemma submit_lands s l target account value deferred q w : all_sent -> is_level l -> wok w -> lone_at live_order q w i s l -> owns w i s l (slot_at q i s l) = false ->
  lands s l target account q (submit_new place i s l target account value now deferred q w).
Proof.
  intros Ha Hl Hw H Ho. unfold submit_new. set (a := (new_action _ _ _ _ _ _ _ _) <| qa_deferred := _ |> <| qa_account := _ |> <| qa_value := _ |> <| qa_paid := _ |>). cbv zeta.
  assert (Hlg : legit live_order w a) by (split; [done | exact (not_owned live_order q w i s l H Ho)]). destruct (place a w) as [[ok a'] w'] eqn:Ep.
  destruct (sent w a ok a' w' Ha Hw Hlg Ep) as [-> Hv]. specialize (Hv eq_refl). rewrite Hv. cbn [negb orb fst snd]. split.
  - eapply calm_trans; [|apply calm_slot]. eapply calm_trans; [|apply calm_qstat]. apply calm_slot.
  - destruct (pl_new live_order _ _ _ _ Hw Hlg eq_refl Ep Hv) as (_ & (o & Hn & Hq & Hp) & _). apply (pending_settled _ _ _ _ _ _ o); rewrite ?slot_upd_eq; done.
Qed.

(** A turn whose placements are sent leaves the level settled. *)
Lemma requote_lands s l target account value keep q w : all_sent -> wok w -> lone_at live_order q w i s l -> idle live_order q w i s l -> (0 <? l_qty target) = true ->
  lands s l target account q (requote live_order place inst s l target account value keep now q w).
Proof.
  intros Ha Hw H Hi Ht. unfold requote. destruct Hi as (Hl & Ho & Hp). assert (Hi : idle live_order q w i s l) by done. set (o := the_order w (slot_at q i s l)). destruct (negb (account =? _) && _) eqn:Ea.
  { set (q1 := upd_slot i s l _ q). assert (Hi1 : idle live_order q1 w i s l) by (apply (idle_handle live_order q); [unfold q1; by rewrite slot_upd_eq | done]).
    destruct (cancel_lands s l target account q1 w Ha Hw Hi1) as [A B]. split; [|exact B]. eapply calm_trans; [|exact A]. apply calm_slot. }
  assert (Hstay : forall f, close_enough (qm_params q) (in_tick inst) o target = true \/ too_soon (qm_params q) (slot_at q i s l) now = true -> calm q (qstat f q) /\ settled s l target account (qstat f q) w).
  { intros f Hor. split; [apply calm_qstat|]. unfold settled. change (slot_at (qstat f q) i s l) with (slot_at q i s l). rewrite Ho. right. done. }
  destruct (close_enough _ _ _ _) eqn:Ece; [apply Hstay; by left|]. destruct (too_soon _ _ _) eqn:Ets; [apply Hstay; by right|].
  destruct (is_replace _ && _); [|by apply move_lands]. cbv zeta. set (a := (new_action _ _ _ _ _ _ _ _) <| qa_value := _ |> <| qa_keep := _ |>). destruct (place a w) as [[ok a'] w'] eqn:Ep.
  destruct (sent w a ok a' w' Ha Hw ltac:(by apply (idle_legit live_order q w i s l)) Ep) as [-> _]. cbn [negb fst snd]. split; [eapply calm_trans; [apply calm_qstat | apply calm_slot]|].
  apply (touch_settled s l target account q w a a' w' (fun sl => sl <| sl_last_requote := now |>)); try done. by rewrite slot_upd_eq.
Qed.
Lemma reconcile_slot_lands s l target account value keep q w : all_sent -> is_level l -> wok w -> lone_at live_order q w i s l ->
  lands s l target account q (reconcile_slot live_order place inst s l target account value keep now q w).
Proof.
  intros Ha Hl Hw H. unfold reconcile_slot. destruct (owns w i s l (slot_at q i s l)) eqn:Ho.
  - destruct (is_pending _) eqn:Ep.
    { cbn [fst snd]. split; [eapply calm_trans; [apply calm_qstat | apply calm_slot]|]. apply owns_spec in Ho as (Hv & o & Ho & Hq). unfold QuoteManager.the_order in Ep. rewrite Ho in Ep.
      apply (pending_settled _ _ _ _ _ _ o); rewrite ?slot_upd_eq; done. }
    set (q1 := upd_slot i s l _ q). assert (Hi : idle live_order q1 w i s l) by (apply (idle_handle live_order q); [unfold q1; by rewrite slot_upd_eq | done]). assert (C1 : calm q q1) by apply calm_slot.
    assert (H1 : lone_at live_order q1 w i s l) by (apply (lone_handle live_order q); [unfold q1; by rewrite slot_upd_eq | done]). clearbody q1.
    assert (Hgo : forall r : Z * QuoteManager * W, lands s l target account q1 r -> lands s l target account q r) by (intros r [A B]; split; [by eapply calm_trans | done]). apply Hgo.
    destruct (0 <? l_qty target) eqn:Et; cbn [negb]; [by apply requote_lands | by apply cancel_lands].
  - set (q1 := upd_slot i s l _ q). assert (C1 : calm q q1) by apply calm_slot. assert (Ho1 : owns w i s l (slot_at q1 i s l) = false) by (unfold q1; by rewrite slot_upd_eq).
    assert (H1 : lone_at live_order q1 w i s l) by (apply (step_upd live_order i s l (fun sl => sl <| sl_handle := kNullHandle |> <| sl_awaiting_terminal := false |> <| sl_apply_want := false |>) q w); [by right | done]).
    clearbody q1. assert (Hgo : forall r : Z * QuoteManager * W, lands s l target account q1 r -> lands s l target account q r) by (intros r [A B]; split; [by eapply calm_trans | done]). apply Hgo.
    destruct (0 <? l_qty target) eqn:Et; cbn [negb]; [|split; [apply calm_refl|]; unfold settled; cbn [fst snd]; rewrite Ho1, Et; by left].
    destruct (backing_off _ _ _) eqn:Eb; [|by apply submit_lands]. cbn [fst snd]. split; [apply calm_kept|]. unfold settled. rewrite (qu_slot _ _ (quiet_kept_backoff i s q1)), Ho1.
    right. by rewrite (calm_backing _ _ _ _ _ (calm_kept i s q1)).
Qed.

(** A turn on a settled level sends nothing and leaves it settled. *)
Lemma settled_rests s l target account value keep q w : settled s l target account q w -> let r := reconcile_slot live_order place inst s l target account value keep now q w in
  fst (fst r) = 0 /\ snd r = w /\ calm q (snd (fst r)) /\ settled s l target account (snd (fst r)) w.
Proof.
  intros Hs. unfold reconcile_slot. unfold settled in Hs. destruct (owns w i s l (slot_at q i s l)) eqn:Ho.
  - destruct (is_pending _) eqn:Ep.
    { cbn [fst snd]. split; [done|]. split; [done|]. split; [eapply calm_trans; [apply calm_qstat | apply calm_slot]|]. apply owns_spec in Ho as (Hv & o & Ho & Hq). unfold QuoteManager.the_order in Ep. rewrite Ho in Ep.
      apply (pending_settled _ _ _ _ _ _ o); rewrite ?slot_upd_eq; done. }
    destruct Hs as [?|(Ht & Ea & Hk)]; [congruence|]. rewrite Ht. cbn [negb]. set (q1 := upd_slot i s l _ q).
    assert (E1 : slot_at q1 i s l = (slot_at q i s l) <| sl_apply_want := false |>) by apply slot_upd_eq. assert (C1 : calm q q1) by apply calm_slot. assert (P1 : qm_params q1 = qm_params q) by done. clearbody q1.
    assert (Et : the_order w (slot_at q1 i s l) = the_order w (slot_at q i s l)) by by rewrite E1. assert (Es : too_soon (qm_params q) (slot_at q1 i s l) now = too_soon (qm_params q) (slot_at q i s l) now) by by rewrite E1.
    assert (Hstay : forall f, calm q (qstat f q1) /\ settled s l target account (qstat f q1) w).
    { intros f. split; [eapply calm_trans; [exact C1 | apply calm_qstat]|]. unfold settled. change (slot_at (qstat f q1) i s l) with (slot_at q1 i s l). change (qm_params (qstat f q1)) with (qm_params q1).
      assert (Ho1 : owns w i s l (slot_at q1 i s l) = true) by (rewrite E1; exact Ho). rewrite Ho1, Et, P1, Es. right. done. }
    unfold requote. rewrite Et, Ea, P1, Es. destruct (close_enough _ _ _ _); [split; [done|]; split; [done|]; apply Hstay|]. destruct Hk as [?|Hk]; [done|]. rewrite Hk. split; [done|]. split; [done|]. apply Hstay.
  - set (q1 := upd_slot i s l _ q). assert (C1 : calm q q1) by apply calm_slot. assert (Ho1 : owns w i s l (slot_at q1 i s l) = false) by (unfold q1; by rewrite slot_upd_eq). clearbody q1.
    destruct (0 <? l_qty target) eqn:Et; cbn [negb]; [|split; [done|]; split; [done|]; split; [done|]; unfold settled; cbn [fst snd]; rewrite Ho1, Et; by left].
    destruct Hs as [?|Hb]; [done|]. rewrite (calm_backing _ _ _ _ _ C1), Hb. cbn [fst snd]. split; [done|]. split; [done|]. split; [eapply calm_trans; [exact C1 | apply calm_kept]|].
    unfold settled. rewrite (qu_slot _ _ (quiet_kept_backoff i s q1)), Ho1. right. by rewrite (calm_backing _ _ _ _ _ (calm_kept i s q1)), (calm_backing _ _ _ _ _ C1).
Qed.

(** ** Whole ladders *)

Definition tgt (s : Side) (q : QuoteManager) (l : Z) : Level := wanted q i s l.
Definition acc (s : Side) (q : QuoteManager) (l : Z) : VenueId := dq_account (is_desired (st_at q i)) s l.
Definition span (s : Side) (q : QuoteManager) : Z := Z.max (Z.of_nat (length (dq_side (is_desired (st_at q i)) s))) (used_of (st_at q i) s).
Lemma tgt_same s q q' l : is_desired (st_at q' i) = is_desired (st_at q i) -> qm_held q' = qm_held q -> tgt s q' l = tgt s q l /\ acc s q' l = acc s q l.
Proof. intros E1 E2. unfold tgt, acc, wanted, side_held. by rewrite E1, E2. Qed.

Definition side_settled (s : Side) (n : Z) (q0 q : QuoteManager) (w : W) : Prop := forall l, 0 <= l < n -> settled s l (tgt s q0 l) (acc s q0 l) q w.
(** What a pass over one side leaves alone on the other, and what it keeps. *)
Record passed (s : Side) (q : QuoteManager) (w : W) (q' : QuoteManager) (w' : W) : Prop := {
  pa_slots : forall l, slot_at q' i (opposite s) l = slot_at q i (opposite s) l;
  pa_desired : is_desired (st_at q' i) = is_desired (st_at q i);
  pa_used : used_of (st_at q' i) (opposite s) = used_of (st_at q i) (opposite s);
  pa_glob : qm_params q' = qm_params q /\ qm_held q' = qm_held q;
  pa_calm : calm q q';
  pa_others : others live_order i s w w';
}.
Lemma passed_settled s n q0 q w q' w' : 0 <= n <= 8 -> passed s q w q' w' -> side_settled (opposite s) n q0 q w -> side_settled (opposite s) n q0 q' w'.
Proof.
  intros Hn [P1 P2 P3 [P4 P5] P6 P7] H l Hl. apply (settled_ext (opposite s) l _ _ q w); [apply P1 | done | done | | by apply H].
  intros h o [E1 E2]. apply P7. intros l' Hl' [_ E3]. destruct (make_tag_inj (opposite s) l s l') as [E _]; [unfold is_level; lia | done | congruence | by destruct s].
Qed.
Lemma side_passed s n used q w q' w' : side_step live_order wok i s n q w q' w' -> calm q q' -> passed s q w (set_used i s used q') w'.
Proof.
  intros [A1 A2 [A3 A4] A5 A6 A7] Hc. unfold set_used. set (f := fun st => st <| is_used ::= insert (side_ix s) used |>).
  assert (Es : forall s' l, slot_at (upd_st i f q') i s' l = slot_at q' i s' l) by (intros; unfold slot_at, slot_of; rewrite st_upd, decide_True by done; done).
  constructor; [| | | done | |exact A5].
  - intros l. rewrite Es. apply A1. intros (_ & E & _). by destruct s.
  - rewrite st_upd, decide_True by done. unfold f. cbn. apply (desired_ctl _ _ (A2 i)).
  - rewrite st_upd, decide_True by done. unfold f, used_of. cbn. rewrite lookup_insert_ne by by destruct s. apply (used_ctl _ _ (opposite s) (A2 i)).
  - eapply calm_trans; [exact Hc|]. by apply calm_upd.
Qed.

(** The turn of a level in [reconcile_side]. *)
Definition turn (s : Side) (l : Z) (q : QuoteManager) (w : W) : Z * QuoteManager * W :=
  reconcile_slot live_order place inst s l (tgt s q l) (acc s q l) (dq_value (is_desired (st_at q i)) s l) (dq_keep (is_desired (st_at q i)) s l) now q w.
Lemma tgt_stable s Keep q : stable live_order wok i s Keep (fun l q1 _ => tgt s q1 l = tgt s q l /\ acc s q1 l = acc s q l).
Proof.
  intros l l' q1 w1 q2 w2 _ _ _ _ _ Hs _ [E1 E2]. destruct (tgt_same s q1 q2 l) as [F1 F2]; [apply (desired_ctl _ _ (ss_ctl _ _ _ _ _ _ _ _ Hs i)) | apply Hs|]. split; congruence.
Qed.
Lemma settled_stable s Keep q : (forall q w q' w', Keep q w q' w' -> calm q q') -> stable live_order wok i s Keep (fun l q1 w1 => settled s l (tgt s q l) (acc s q l) q1 w1).
Proof.
  intros HK l l' q1 w1 q2 w2 Hl Hl' N _ _ Hs Hk. apply settled_ext; [by apply (ss_slot _ _ _ _ _ _ _ _ Hs); tauto | apply Hs | by apply (HK q1 w1 q2 w2)|].
  intros h o [E1 E2]. apply (ss_only _ _ _ _ _ _ _ _ Hs). intros [_ E3]. destruct (make_tag_inj s l s l' Hl Hl' ltac:(congruence)) as [_ ?]. done.
Qed.

Lemma side_lands s q w : all_sent -> good live_order wok q w -> let '(k, q', w') := reconcile_side live_order place inst s now q w in
  passed s q w q' w' /\ side_settled s (span s q) q q' w' /\ 0 <= used_of (st_at q' i) s <= span s q.
Proof.
  intros Ha G. pose proof (g_tidy _ _ _ _ G) as [T1 T2 T3]. unfold reconcile_side. assert (Hn : 0 <= span s q <= 8) by (unfold span; pose proof (T1 i s); pose proof (T2 i s); lia).
  destruct (over_levels_step live_order wok i s (turn s) (span s q) 1 q w (fun q _ q' _ => calm q q') (fun l q1 _ => tgt s q1 l = tgt s q l /\ acc s q1 l = acc s q l)
    (fun l q1 w1 => settled s l (tgt s q l) (acc s q l) q1 w1)) as (acts & used & q' & w' & E & Hs & Hc & _ & Hu & _ & Hp); [done | apply G | apply G | done | by intros; eapply calm_trans | apply tgt_stable | by apply settled_stable | done | |].
  - intros l q1 w1 Hl Hw1 H1 [E1 E2]. assert (Hlv : is_level l) by (unfold is_level; lia).
    pose proof (reconcile_slot_step live_order wok place inst s l (tgt s q1 l) (acc s q1 l) (dq_value (is_desired (st_at q1 i)) s l) (dq_keep (is_desired (st_at q1 i)) s l) now q1 w1 Hlv Hw1 (H1 i s l Hlv)) as Hst.
    pose proof (reconcile_slot_lands s l (tgt s q1 l) (acc s q1 l) (dq_value (is_desired (st_at q1 i)) s l) (dq_keep (is_desired (st_at q1 i)) s l) q1 w1 Ha Hlv Hw1 (H1 i s l Hlv)) as [Hc Hse].
    fold (turn s l q1 w1) in Hst, Hc, Hse. rewrite E1, E2 in Hse. destruct (turn s l q1 w1) as [[k q2] w2]. split; [done|]. split; [apply Hst|]. done.
  - fold (span s q). unfold turn, tgt, acc in E. rewrite E. pose proof (side_passed s (span s q) used q w q' w' Hs Hc) as Hpa. split; [exact Hpa|]. split.
    + intros l Hl. apply (settled_ext s l _ _ q' w'); [| done | by apply calm_upd | done | by apply Hp]. unfold set_used, slot_at, slot_of. by rewrite st_upd, decide_True.
    + unfold set_used. rewrite st_upd, decide_True by done. unfold used_of. cbn. rewrite lookup_insert_eq. cbn. lia.
Qed.
Lemma side_rests s n q0 q w : good live_order wok q w -> (forall l, tgt s q l = tgt s q0 l /\ acc s q l = acc s q0 l) -> side_settled s n q0 q w -> span s q <= n ->
  exists q', reconcile_side live_order place inst s now q w = (0, q', w) /\ passed s q w q' w.
Proof.
  intros G Et Hse Hsp. pose proof (g_tidy _ _ _ _ G) as [T1 T2 T3]. unfold reconcile_side. assert (Hn : 0 <= span s q <= 8) by (unfold span; pose proof (T1 i s); pose proof (T2 i s); lia).
  destruct (over_levels_step live_order wok i s (turn s) (span s q) 0 q w (fun q w q' w' => calm q q' /\ w' = w)
    (fun l q1 w1 => (tgt s q1 l = tgt s q0 l /\ acc s q1 l = acc s q0 l) /\ settled s l (tgt s q0 l) (acc s q0 l) q1 w1) (fun _ _ _ => True)) as (acts & used & q' & w' & E & Hs & [Hc ->] & Hacts & _);
    [done | apply G | apply G | done | | | done | | |].
  - intros q1 w1 q2 w2 q3 w3 [C1 ->] [C2 ->]. split; [by eapply calm_trans | done].
  - intros l l' q1 w1 q2 w2 Hl Hl' N Hw1 H1 Hs Hk [A B]. split; [by apply (tgt_stable s (fun _ _ _ _ => True) q0 l l' q1 w1 q2 w2)|].
    by apply (settled_stable s (fun q w q' w' => calm q q' /\ w' = w) q0 ltac:(by intros ? ? ? ? [? _]) l l' q1 w1 q2 w2).
  - intros l Hl. split; [apply Et | apply Hse; lia].
  - intros l q1 w1 Hl Hw1 H1 [[E1 E2] Hst]. assert (Hlv : is_level l) by (unfold is_level; lia).
    pose proof (reconcile_slot_step live_order wok place inst s l (tgt s q1 l) (acc s q1 l) (dq_value (is_desired (st_at q1 i)) s l) (dq_keep (is_desired (st_at q1 i)) s l) now q1 w1 Hlv Hw1 (H1 i s l Hlv)) as Hss.
    rewrite <- E1, <- E2 in Hst. pose proof (settled_rests s l (tgt s q1 l) (acc s q1 l) (dq_value (is_desired (st_at q1 i)) s l) (dq_keep (is_desired (st_at q1 i)) s l) q1 w1 Hst) as (R1 & R2 & R3 & _).
    fold (turn s l q1 w1) in Hss, R1, R2, R3. destruct (turn s l q1 w1) as [[k q2] w2]. cbn [fst snd] in *. split; [done|]. split; [lia|]. done.
  - fold (span s q). unfold turn, tgt, acc in E. rewrite E. exists (set_used i s used q'). split; [f_equal; f_equal; lia|]. by apply (side_passed s (span s q)).
Qed.

Context (insts : InstrumentId -> Instrument) (enabled : W -> InstrumentId -> bool) (wstep : W -> W -> Prop).
Hypothesis wstep_ok : forall w w', wok w -> wstep w w' -> wok w' /\ world_step live_order w w'.

Definition start (d : DesiredQuotes) (q : QuoteManager) : QuoteManager :=
  upd_st i (fun st => st <| is_pulled := false |> <| is_paused := false |> <| is_resumable := false |> <| is_desired := d |>) q.
Lemma start_good d q w : ladder d -> good live_order wok q w -> good live_order wok (start d q) w.
Proof. intros Hd G. by apply good_upd. Qed.
Lemma start_settled s n d q0 q w : side_settled s n q0 q w -> side_settled s n q0 (start d q) w.
Proof. intros H l Hl. apply (settled_ext s l _ _ q w); [|done|by apply calm_upd|done|by apply H]. unfold start, slot_at, slot_of. by rewrite st_upd, decide_True. Qed.
Lemma start_desired d q : is_desired (st_at (start d q) i) = d.
Proof. unfold start. by rewrite st_upd, decide_True. Qed.
Lemma start_used d q s : used_of (st_at (start d q) i) s = used_of (st_at q i) s.
Proof. unfold start. by rewrite st_upd, decide_True. Qed.

(** C14. Requoting settles: after a requote whose placements were all sent, applying the same quotes again at the same time
    sends nothing and leaves every order as it is; in particular a new or moved order is never sent twice while it is
    pending. *)
Theorem requote_settles q w d k q1 w1 : quotes_reach live_order wok place insts enabled wstep q w -> all_sent -> ladder d ->
  reconcile live_order place inst d now q w = (k, q1, w1) -> exists q2, reconcile live_order place inst d now q1 w1 = (0, q2, w1).
Proof.
  intros G%(reach_good live_order wok place); [|done]. intros Ha Hd E. unfold reconcile in *. fold (start d q) in E. fold (start d q1). pose proof (start_good d q w Hd G) as Ga. pose proof (start_desired d q) as Da. set (qa := start d q) in *. clearbody qa.
  pose proof (side_lands Buy qa w Ha Ga) as L1. pose proof (reconcile_side_good live_order wok place inst Buy now qa w Ga) as Gb. destruct (reconcile_side _ _ inst Buy now qa w) as [[n1 qb] wb]. cbn [fst snd] in Gb. destruct L1 as (P1 & S1 & U1).
  pose proof (side_lands Sell qb wb Ha Gb) as L2. pose proof (reconcile_side_good live_order wok place inst Sell now qb wb Gb) as Gc. destruct (reconcile_side _ _ inst Sell now qb wb) as [[n2 qc] wc]. cbn [fst snd] in Gc. destruct L2 as (P2 & S2 & U2).
  injection E as _ <- <-. assert (Hspan : forall s q w, good live_order wok q w -> 0 <= span s q <= 8) by (intros s q' w' [_ _ [T1 T2 _]]; unfold span; pose proof (T1 i s); pose proof (T2 i s); lia).
  pose proof (passed_settled Sell (span Buy qa) qa qb wb qc wc (Hspan Buy qa w Ga) P2 S1) as S1'. apply (start_settled _ _ d) in S1'. cbn [opposite] in S1'. apply (start_settled _ _ d) in S2. pose proof (start_good d qc wc Hd Gc) as Gd.
  pose proof (start_desired d qc) as Dd. pose proof (start_used d qc) as Ud. assert (Hh : qm_held (start d qc) = qm_held qc) by done. set (qd := start d qc) in *. clearbody qd.
  destruct P1 as [_ Dq1 Us1 [_ H1] _ _], P2 as [_ Dq2 Us2 [_ H2] _ _]. cbn [opposite] in Us1, Us2.
  destruct (side_rests Buy (span Buy qa) qa qd wc Gd) as (qe & Ee & Pe); [intros l; apply tgt_same; congruence | exact S1' | unfold span in *; rewrite Dd, Da, Ud, Us2 in *; lia|].
  pose proof (reconcile_side_good live_order wok place inst Buy now qd wc Gd) as Ge. rewrite Ee in *. cbn [fst snd] in Ge.
  pose proof (passed_settled Buy (span Sell qb) qb qd wc qe wc (Hspan Sell qb wb Gb) Pe S2) as S2'. cbn [opposite] in S2'. destruct Pe as [_ De Ue [_ He] _ _]. cbn [opposite] in Ue.
  destruct (side_rests Sell (span Sell qb) qb qe wc Ge) as (qf & -> & _); [intros l; apply tgt_same; congruence | exact S2' | unfold span in *; rewrite De, Dd, Ue, Ud, Dq1, Da in *; lia|].
  exists qf. done.
Qed.
End settle.
