(* ===== verification/QuoteQueues.v ===== *)
(** * QuoteQueues: nothing held back is forgotten

    The three queues of the quote manager hold each instrument at most once, exactly the instruments flagged for them,
    in the order they were flagged, and never overflow; the time of the next backoff check is never later than the
    backoff of a queued instrument.  Holds whatever the placer does. *)

From S2P Require Import Prelude Types FixedPoint L2Book RingBuffer Instruments Orders Oms QuoteManager QuoteInv QuoteProps.

#[local] Arguments i64 : simpl never.
#[local] Arguments u32 : simpl never.
#[local] Arguments u64 : simpl never.
#[local] Arguments kNullHandle : simpl never.
#[local] Arguments kNever : simpl never.

(** ** A queue of flagged instruments *)

Definition in_range (i : InstrumentId) : Prop := 0 <= i < kMaxInstruments.
Record uq (r : Ring.Ring Z) (l : list Z) (flag : Z -> Prop) : Prop := {
  uq_rep : Ring.ring_rep queue_bits r l;
  uq_nodup : NoDup l;
  uq_flag : forall i, i ∈ l <-> flag i;
  uq_range : forall i, i ∈ l -> in_range i;
}.
Lemma bits_ok : 0 <= queue_bits < 64.
Proof. done. Qed.
Lemma uq_ext r l flag flag' : (forall i, flag i <-> flag' i) -> uq r l flag -> uq r l flag'.
Proof. intros E [A B C D]. constructor; [done | done | intros i; by rewrite C | done]. Qed.
Lemma uq_push r l flag i : uq r l flag -> in_range i -> ~ flag i -> exists r', Ring.try_push queue_bits r i = (true, r') /\ uq r' (l ++ [i]) (fun j => j = i \/ flag j).
Proof.
  intros [A B C D] Hi Hn. assert (Hnot : i ∉ l) by by rewrite C.
  assert (Hlen : Z.of_nat (length l) < Ring.cap queue_bits).
  { assert (Hs : i :: l ⊆+ seqZ 0 256) by (apply NoDup_submseteq; [by constructor|]; intros x [->|Hx]%elem_of_cons; apply elem_of_seqZ; [unfold in_range, kMaxInstruments in Hi; lia | pose proof (D x Hx) as Hx'; unfold in_range, kMaxInstruments in Hx'; lia]).
    apply submseteq_length in Hs. rewrite length_seqZ in Hs. cbn [length] in Hs. change (Ring.cap queue_bits) with 256. lia. }
  unfold Ring.try_push. rewrite (Ring.full_rep queue_bits bits_ok r l A). replace (_ =? _) with false by lia. eexists. split; [done|].
  constructor; [by apply Ring.rep_push_room| | |].
  - apply NoDup_app. split; [done|]. split; [intros x Hx ->%list_elem_of_singleton; done | apply NoDup_singleton].
  - intros j. rewrite elem_of_app, list_elem_of_singleton, C. tauto.
  - intros j [Hj| ->%list_elem_of_singleton]%elem_of_app; [by apply D | done].
Qed.
Lemma uq_pop r l flag : uq r l flag -> match l with
  | [] => Ring.pop queue_bits r = None
  | x :: l' => exists r', Ring.pop queue_bits r = Some (Some x, r') /\ uq r' l' (fun j => flag j /\ j <> x) /\ in_range x
  end.
Proof.
  intros [A B C D]. unfold Ring.pop. pose proof (Ring.empty_rep queue_bits bits_ok r l A) as He. destruct l as [|x l].
  - by rewrite (proj2 He).
  - destruct (Ring.empty r); [discriminate (proj1 He eq_refl)|]. exists (Ring.mkRing (u64 (Ring.head_ r + 1)) (Ring.tail_ r) (Ring.buf_ r)). split.
    + rewrite (Ring.slot_mod queue_bits bits_ok). destruct A as (_ & _ & _ & Hl). specialize (Hl 0%nat x eq_refl). rewrite Z.add_0_r in Hl. by rewrite Hl.
    + inversion B as [|? ? Hx Hnd]; subst. split; [|apply D; constructor]. constructor; [by apply (Ring.rep_drop_oldest queue_bits bits_ok r x) | done | |intros i Hi; apply D; by constructor].
      intros i. rewrite <- C, elem_of_cons. split; [intros Hi; split; [by right | by intros ->] | intros [[->|?] N]; [by destruct N | done]].
Qed.

(** ** The invariant *)

(** Clocks and backoffs stay within 2^62 nanoseconds, some 146 years. *)
Definition clock (now : Timestamp) : Prop := 0 <= now < 2 ^ 62.
Definition params_ok (p : QuoteParams) : Prop := 0 < qp_reject_backoff_max p <= 2 ^ 61.
(** [X] holds queued instruments whose backoff is about to be looked at. *)
Record queued (X : list Z) (q : QuoteManager) (ls lp lb : list Z) : Prop := {
  qq_starved : uq (qm_starved q) ls (fun i => is_starved (st_at q i) = true);
  qq_priced : uq (qm_priced q) lp (fun i => is_priced (st_at q i) = true);
  qq_backed : uq (qm_backed_off q) lb (fun i => is_retry_at (st_at q i) <> kNever);
  qq_due : forall i, i ∈ lb -> i ∉ X -> qm_backoff_due q <= is_retry_at (st_at q i);
  qq_times : forall i s, 0 <= backoff_of (st_at q i) s <= 2 ^ 61 /\ blocked_of (st_at q i) s < kNever;
  qq_params : params_ok (qm_params q);
}.
(** Queues only grow at their end. *)
Definition grows (q q' : QuoteManager) : Prop := forall X ls lp lb, queued X q ls lp lb -> exists e1 e2 e3, queued X q' (ls ++ e1) (lp ++ e2) (lb ++ e3).
Lemma grows_refl q : grows q q.
Proof. intros X ls lp lb H. exists [], [], []. by rewrite !app_nil_r. Qed.
Lemma grows_trans q1 q2 q3 : grows q1 q2 -> grows q2 q3 -> grows q1 q3.
Proof.
  intros H1 H2 X ls lp lb H. destruct (H1 _ _ _ _ H) as (a1 & a2 & a3 & Ha). destruct (H2 _ _ _ _ Ha) as (b1 & b2 & b3 & Hb). exists (a1 ++ b1), (a2 ++ b2), (a3 ++ b3). by rewrite !app_assoc.
Qed.
(** What the invariant reads of an instrument. *)
Definition flags (st : InstState) : bool * bool * Timestamp * gmap Z Duration * gmap Z Timestamp := (is_starved st, is_priced st, is_retry_at st, is_backoff st, is_blocked_until st).
Lemma queued_same X q q' ls lp lb : qm_starved q' = qm_starved q -> qm_priced q' = qm_priced q -> qm_backed_off q' = qm_backed_off q -> qm_backoff_due q' = qm_backoff_due q ->
  params_ok (qm_params q') -> (forall i, flags (st_at q' i) = flags (st_at q i)) -> queued X q ls lp lb -> queued X q' ls lp lb.
Proof.
  intros E1 E2 E3 E4 Hp Ef [A1 A2 A3 A4 A5 A6]. assert (F : forall i, is_starved (st_at q' i) = is_starved (st_at q i) /\ is_priced (st_at q' i) = is_priced (st_at q i) /\ is_retry_at (st_at q' i) = is_retry_at (st_at q i) /\
    is_backoff (st_at q' i) = is_backoff (st_at q i) /\ is_blocked_until (st_at q' i) = is_blocked_until (st_at q i)) by (intros i; pose proof (Ef i) as E; unfold flags in E; by simplify_eq).
  constructor; rewrite ?E1, ?E2, ?E3, ?E4; try done.
  - eapply uq_ext; [|exact A1]. intros i. cbn. by destruct (F i) as (-> & _).
  - eapply uq_ext; [|exact A2]. intros i. cbn. by destruct (F i) as (_ & -> & _).
  - eapply uq_ext; [|exact A3]. intros i. cbn. by destruct (F i) as (_ & _ & -> & _).
  - intros i. destruct (F i) as (_ & _ & -> & _). apply A4.
  - intros i s. unfold backoff_of, blocked_of. destruct (F i) as (_ & _ & _ & -> & ->). apply A5.
Qed.
Lemma grows_same q q' : qm_starved q' = qm_starved q -> qm_priced q' = qm_priced q -> qm_backed_off q' = qm_backed_off q -> qm_backoff_due q' = qm_backoff_due q ->
  qm_params q' = qm_params q -> (forall i, flags (st_at q' i) = flags (st_at q i)) -> grows q q'.
Proof. intros E1 E2 E3 E4 E5 Ef X ls lp lb H. exists [], [], []. rewrite !app_nil_r. apply (queued_same X q); try done. rewrite E5. apply H. Qed.
Lemma grows_upd i f q : (forall st, flags (f st) = flags st) -> grows q (upd_st i f q).
Proof. intros Hf. apply grows_same; try done. intros j. rewrite st_upd. case_decide; [subst; apply Hf | done]. Qed.
Lemma grows_slot i s l f q : grows q (upd_slot i s l f q).
Proof. by apply grows_upd. Qed.
Lemma grows_qstat f q : grows q (qstat f q).
Proof. by apply grows_same. Qed.

(** ** Backoffs and flags *)

(** One instrument changes, and the queues to match. *)
Lemma queued_at i X X0 q q' ls lp lb ls' lp' lb' : (forall j, j <> i -> st_at q' j = st_at q j) -> queued X0 q ls lp lb -> params_ok (qm_params q') ->
  uq (qm_starved q') ls' (fun j => if decide (j = i) then is_starved (st_at q' i) = true else is_starved (st_at q j) = true) ->
  uq (qm_priced q') lp' (fun j => if decide (j = i) then is_priced (st_at q' i) = true else is_priced (st_at q j) = true) ->
  uq (qm_backed_off q') lb' (fun j => if decide (j = i) then is_retry_at (st_at q' i) <> kNever else is_retry_at (st_at q j) <> kNever) ->
  (forall j, j ∈ lb' -> j ∉ X -> qm_backoff_due q' <= is_retry_at (if decide (j = i) then st_at q' i else st_at q j)) ->
  (forall s, 0 <= backoff_of (st_at q' i) s <= 2 ^ 61 /\ blocked_of (st_at q' i) s < kNever) -> queued X q' ls' lp' lb'.
Proof.
  intros E [A1 A2 A3 A4 A5 A6] Hp U1 U2 U3 Hd Ht. constructor; [eapply uq_ext; [|exact U1] | eapply uq_ext; [|exact U2] | eapply uq_ext; [|exact U3] | | | done].
  1-3: intros j; cbn; case_decide; [by subst | by rewrite E].
  - intros j Hj HX. specialize (Hd j Hj HX). case_decide; [by subst | by rewrite E].
  - intros j s. destruct (decide (j = i)) as [->|N]; [apply Ht | rewrite E by done; apply A5].
Qed.
Lemma uq_keep r l (flag : Z -> Prop) (P : Prop) i : uq r l flag -> (P <-> flag i) -> uq r l (fun j => if decide (j = i) then P else flag j).
Proof. intros U E. eapply uq_ext; [|exact U]. intros j. cbn. case_decide; [by subst | done]. Qed.
Lemma st_frame q q' j : qm_state q' = qm_state q -> st_at q' j = st_at q j.
Proof. intros E. unfold st_at. by rewrite E. Qed.
Lemma st_upd_eq i f q : st_at (upd_st i f q) i = f (st_at q i).
Proof. rewrite st_upd. by rewrite decide_True. Qed.
Lemma st_upd_ne i f q j : j <> i -> st_at (upd_st i f q) j = st_at q j.
Proof. intros N. rewrite st_upd. by rewrite decide_False. Qed.
Lemma back_off_grows i s now q : clock now -> grows q (back_off i s now q).
Proof.
  intros Hc. unfold back_off. destruct (_ <=? 0) eqn:E0; [apply grows_refl|]. cbv zeta. set (b := backoff_of (st_at q i) s). set (n0 := if b <=? 0 then _ else _). set (n := if (_ : bool) then _ else n0).
  eapply grows_trans; [|apply grows_qstat]. intros X ls lp lb [A1 A2 A3 A4 A5 A6]. exists [], [], []. rewrite !app_nil_r.
  assert (Hb : 0 <= b <= 2 ^ 61) by apply A5. assert (Hn : 0 <= n <= 2 ^ 61).
  { assert (H0 : 0 < n0) by (unfold n0; destruct (Z.leb_spec b 0); [lia | rewrite i64_id by (unfold in_i64, i64_min, i64_max; lia); lia]).
    unfold n. clearbody n0 b. unfold params_ok in A6. destruct ((0 <? _) && _) eqn:Em; lia. }
  assert (Ht : i64 (now + n) = now + n) by (apply i64_id; unfold clock, in_i64, i64_min, i64_max in *; lia). rewrite Ht.
  set (f := fun st : InstState => st <| is_backoff ::= insert (side_ix s) n |> <| is_blocked_until ::= insert (side_ix s) (now + n) |>).
  apply (queued_at i X X q _ ls lp lb); rewrite ?st_upd_eq; [intros j N; by apply st_upd_ne | by constructor | done | | | | |].
  1: by apply (uq_keep _ _ (fun j => is_starved (st_at q j) = true)).
  1: by apply (uq_keep _ _ (fun j => is_priced (st_at q j) = true)).
  1: by apply (uq_keep _ _ (fun j => is_retry_at (st_at q j) <> kNever)).
  - intros j. destruct (decide (j = i)) as [->|N]; apply A4.
  - intros s'. unfold f, backoff_of, blocked_of. cbn. destruct (decide (s' = s)) as [->|N].
    + rewrite !lookup_insert_eq. cbn. unfold clock, kNever, i64_max in *. lia.
    + rewrite !lookup_insert_ne by (intros ?%side_ix_inj; congruence). apply A5.
Qed.

Lemma uq_raise r l (flag : Z -> Prop) (P : Prop) i : uq r l flag -> in_range i -> ~ flag i -> P -> exists r', Ring.try_push queue_bits r i = (true, r') /\ uq r' (l ++ [i]) (fun j => if decide (j = i) then P else flag j).
Proof. intros U Hi Hn HP. destruct (uq_push r l flag i U Hi Hn) as (r' & E & U'). exists r'. split; [done|]. eapply uq_ext; [|exact U']. intros j. cbn. case_decide; tauto. Qed.
Lemma starve_grows i q : in_range i -> is_starved (st_at q i) = false ->
  grows q ((upd_st i (fun st => st <| is_starved := true |>) q) <| qm_starved ::= fun r => snd (Ring.try_push queue_bits r i) |>).
Proof.
  intros Hi Hf X ls lp lb H. pose proof H as [A1 A2 A3 A4 A5 A6]. destruct (uq_raise _ _ _ (is_starved (st_at (upd_st i (fun st => st <| is_starved := true |>) q) i) = true) i A1 Hi ltac:(cbn -[st_at]; by rewrite Hf)) as (r & Er & U); [by rewrite st_upd_eq|].
  exists [i], [], []. rewrite !app_nil_r. set (q' := _ <| qm_starved ::= _ |>). assert (E : forall j, st_at q' j = st_at (upd_st i (fun st => st <| is_starved := true |>) q) j) by (intros; by apply st_frame).
  apply (queued_at i X X q q' ls lp lb); rewrite ?E; [intros j N; rewrite E; by apply st_upd_ne | done | done | | | | |].
  - cbn -[st_at upd_st Ring.try_push]. change (qm_starved (upd_st _ _ q)) with (qm_starved q). by rewrite Er.
  - rewrite st_upd_eq. by apply (uq_keep _ _ (fun j => is_priced (st_at q j) = true)).
  - rewrite st_upd_eq. by apply (uq_keep _ _ (fun j => is_retry_at (st_at q j) <> kNever)).
  - rewrite st_upd_eq. intros j. destruct (decide (j = i)) as [->|N]; apply A4.
  - rewrite st_upd_eq. apply A5.
Qed.
Lemma queue_priced_grows i q : in_range i -> grows q (queue_priced i q).
Proof.
  intros Hi. unfold queue_priced. destruct (is_priced (st_at q i)) eqn:Hf; [apply grows_refl|]. intros X ls lp lb H. pose proof H as [A1 A2 A3 A4 A5 A6].
  destruct (uq_raise _ _ _ True i A2 Hi ltac:(cbn -[st_at]; by rewrite Hf)) as (r & Er & U); [done|]. rewrite Er. exists [], [i], []. rewrite !app_nil_r.
  set (q1 := q <| qm_priced := r |>). apply (queued_at i X X q _ ls lp lb); rewrite ?st_upd_eq; [intros j N; by rewrite st_upd_ne | done | done | | | | |].
  - by apply (uq_keep _ _ (fun j => is_starved (st_at q j) = true)).
  - eapply uq_ext; [|exact U]. intros j. cbn -[st_at]. by case_decide.
  - by apply (uq_keep _ _ (fun j => is_retry_at (st_at q j) <> kNever)).
  - intros j. destruct (decide (j = i)) as [->|N]; apply A4.
  - apply (A5 i).
Qed.
Lemma held_back_grows i a now q : in_range i -> clock now -> grows q (held_back i a now q).
Proof.
  intros Hi Hc. unfold held_back. destruct (negb _).
  - destruct (_ || _); [eapply grows_trans; [apply grows_qstat | by apply back_off_grows] | apply grows_qstat].
  - set (q1 := qstat _ q). apply (grows_trans q q1); [apply grows_qstat|]. clearbody q1. destruct (is_starved (st_at q1 i)) eqn:E; [apply grows_refl | by apply starve_grows].
Qed.
(** The backoff check moves up to the end of the side's backoff. *)
Lemma wait_queued i X q r t until ls lp lb lb' : queued X q ls lp lb -> t < kNever -> uq r lb' (fun j => if decide (j = i) then True else is_retry_at (st_at q j) <> kNever) ->
  (i ∉ X -> Z.min until (qm_backoff_due q) <= t) -> queued X ((set_retry i t (q <| qm_backed_off := r |>)) <| qm_backoff_due ::= Z.min until |>) ls lp lb'.
Proof.
  intros H Ht U Hd. pose proof H as [A1 A2 A3 A4 A5 A6]. set (q' := _ <| qm_backoff_due ::= _ |>). set (f := fun st : InstState => st <| is_retry_at := t |>).
  assert (Ei : st_at q' i = f (st_at q i)) by (transitivity (st_at (upd_st i f (q <| qm_backed_off := r |>)) i); [by apply st_frame | by rewrite st_upd_eq]).
  assert (En : forall j, j <> i -> st_at q' j = st_at q j) by (intros j N; transitivity (st_at (upd_st i f (q <| qm_backed_off := r |>)) j); [by apply st_frame | by rewrite st_upd_ne]).
  apply (queued_at i X X q q' ls lp lb); rewrite ?Ei; [done | done | done | | | | |].
  - by apply (uq_keep _ _ (fun j => is_starved (st_at q j) = true)).
  - by apply (uq_keep _ _ (fun j => is_priced (st_at q j) = true)).
  - eapply uq_ext; [|exact U]. intros j. cbn -[st_at]. case_decide; [|done]. split; [intros _; lia | done].
  - intros j Hj HX. change (qm_backoff_due q') with (Z.min until (qm_backoff_due q)). destruct (decide (j = i)) as [->|N]; [by apply Hd|].
    apply (uq_flag _ _ _ U) in Hj. rewrite decide_False in Hj by done. apply (uq_flag _ _ _ A3) in Hj. specialize (A4 j Hj HX). lia.
  - apply (A5 i).
Qed.
Lemma kept_backoff_grows i s q : in_range i -> grows q (kept_backoff i s q).
Proof.
  intros Hi. unfold kept_backoff. set (q1 := qstat _ q). apply (grows_trans q q1); [apply grows_qstat|]. clearbody q1. clear q. rename q1 into q. cbv zeta.
  intros X ls lp lb H. pose proof H as [A1 A2 A3 A4 A5 A6]. pose proof (proj2 (A5 i s)) as Hb. set (until := blocked_of (st_at q i) s) in *. destruct (is_retry_at (st_at q i) =? kNever) eqn:Er.
  - apply Z.eqb_eq in Er. destruct (uq_raise _ _ _ True i A3 Hi ltac:(intros N; by apply N)) as (r & -> & U); [done|]. exists [], [], [i]. rewrite !app_nil_r.
    change (st_at (q <| qm_backed_off := r |>) i) with (st_at q i). rewrite Er. apply (wait_queued i X q r _ until ls lp lb); [done | lia | done | lia].
  - apply Z.eqb_neq in Er. exists [], [], []. rewrite !app_nil_r. assert (Eq : q <| qm_backed_off := qm_backed_off q |> = q) by by destruct q.
    pose proof (wait_queued i X q (qm_backed_off q) (Z.min (is_retry_at (st_at q i)) until) until ls lp lb lb H) as HW. rewrite Eq in HW. apply HW; [lia | |].
    + by apply (uq_keep _ _ (fun j => is_retry_at (st_at q j) <> kNever)).
    + intros HX. assert (Hin : i ∈ lb) by by apply (uq_flag _ _ _ A3). specialize (A4 i Hin HX). lia.
Qed.
Lemma venue_reject_grows i s r now q : clock now -> grows q (on_venue_reject i s r now q).
Proof. intros Hc. unfold on_venue_reject. destruct (_ || _); [apply grows_refl | by apply back_off_grows]. Qed.

Ltac grow1 := first [apply grows_qstat | apply grows_slot | by apply queue_priced_grows | by apply held_back_grows | by apply kept_backoff_grows | by apply back_off_grows].
Ltac grow := repeat first [apply grows_refl | eapply grows_trans; [|grow1]].

(** ** The slot machine and the ladders, whatever the placer does *)

Section queues.
Context {W : Type} (live_order : W -> Z -> option Order) (place : QuoteAction -> W -> bool * QuoteAction * W).

Lemma cancel_grows i s l q w : grows q (snd (fst (cancel place i s l q w))).
Proof. unfold cancel. destruct (place _ w) as [[[|] a] w']; cbn [negb fst snd]; grow. Qed.
Lemma move_grows i s l target account value keep q w : in_range i -> grows q (snd (fst (move place i s l target account value keep q w))).
Proof.
  intros Hi. unfold move. cbv zeta. set (q1 := upd_slot i s l _ q). apply (grows_trans q q1); [apply grows_slot|]. clearbody q1. destruct (place _ w) as [[[|] a] w']; cbn [negb fst snd]; [grow|].
  destruct (qa_priced_out a); [|destruct (qa_held a)]; grow.
Qed.
Lemma submit_grows i s l target account value now deferred q w : in_range i -> clock now -> grows q (snd (fst (submit_new place i s l target account value now deferred q w))).
Proof.
  intros Hi Hc. unfold submit_new. cbv zeta. set (q1 := upd_slot i s l _ q). apply (grows_trans q q1); [apply grows_slot|]. clearbody q1. destruct (place _ w) as [[ok a] w']. destruct (_ || _); cbn [fst snd]; [|grow].
  destruct (qa_priced_out a); [|destruct (qa_withheld a)]; grow.
Qed.
Lemma requote_grows inst s l target account value keep now q w : in_range (in_id inst) -> clock now -> grows q (snd (fst (requote live_order place inst s l target account value keep now q w))).
Proof.
  intros Hi Hc. unfold requote. cbv zeta. destruct (_ && _); [eapply grows_trans; [apply grows_slot | apply cancel_grows]|]. destruct (close_enough _ _ _ _); [cbn [fst snd]; grow|]. destruct (too_soon _ _ _); [cbn [fst snd]; grow|].
  destruct (_ && _); [|by apply move_grows]. destruct (place _ w) as [[[|] a] w']; cbn [negb]; [cbn [fst snd]; grow|].
  destruct (qa_priced_out a); [destruct (away _ _ _); [by apply move_grows | cbn [fst snd]; grow] | destruct (qa_held a); cbn [fst snd]; grow].
Qed.
Lemma reconcile_slot_grows inst s l target account value keep now q w : in_range (in_id inst) -> clock now -> grows q (snd (fst (reconcile_slot live_order place inst s l target account value keep now q w))).
Proof.
  intros Hi Hc. unfold reconcile_slot. cbv zeta. destruct (owns _ _ _ _ _ _); [destruct (is_pending _); [cbn [fst snd]; grow|]|].
  - eapply grows_trans; [apply (grows_slot (in_id inst) s l)|]. destruct (negb _); [apply cancel_grows | by apply requote_grows].
  - eapply grows_trans; [apply (grows_slot (in_id inst) s l)|]. destruct (negb _); [apply grows_refl|]. destruct (backing_off _ _ _); [cbn [fst snd]; grow | by apply submit_grows].
Qed.
Lemma pull_slot_grows i s l q w : grows q (snd (fst (pull_slot live_order place i s l q w))).
Proof. unfold pull_slot. cbv zeta. eapply grows_trans; [apply (grows_slot i s l)|]. destruct (negb _); [apply grows_refl|]. destruct (negb _); [apply grows_refl | apply cancel_grows]. Qed.
Lemma over_levels_grows i s (step : Z -> QuoteManager -> W -> Z * QuoteManager * W) n q w : (forall l q w, grows q (snd (fst (step l q w)))) ->
  grows q (snd (fst (over_levels i s step n q w))).
Proof.
  intros Hst. unfold over_levels. generalize 0 at 2, 0 at 2. generalize (seqZ 0 n). intros ls. revert q w. induction ls as [|l ls IH]; intros q w acts used; [apply grows_refl|]. cbn [fold_left].
  pose proof (Hst l q w) as H1. destruct (step l q w) as [[k q1] w1]. cbn [fst snd] in H1. eapply grows_trans; [exact H1 | apply IH].
Qed.
Lemma set_used_grows i s n q : grows q (set_used i s n q).
Proof. by apply grows_upd. Qed.
Lemma reconcile_side_grows inst s now q w : in_range (in_id inst) -> clock now -> grows q (snd (fst (reconcile_side live_order place inst s now q w))).
Proof.
  intros Hi Hc. unfold reconcile_side. set (step := fun lvl q w => reconcile_slot live_order place inst s lvl _ _ _ _ now q w). set (n := Z.max _ _).
  pose proof (over_levels_grows (in_id inst) s step n q w) as H. destruct (over_levels _ _ _ _ _ _) as [[[k u] q1] w1]. cbn [fst snd] in *. eapply grows_trans; [apply H | apply set_used_grows]. intros. by apply reconcile_slot_grows.
Qed.
Lemma reconcile_grows inst d now q w : in_range (in_id inst) -> clock now -> grows q (snd (fst (reconcile live_order place inst d now q w))).
Proof.
  intros Hi Hc. unfold reconcile. set (q1 := upd_st _ _ q). apply (grows_trans q q1); [by apply grows_upd|]. clearbody q1.
  pose proof (reconcile_side_grows inst Buy now q1 w Hi Hc) as H1. destruct (reconcile_side _ _ inst Buy now q1 w) as [[n1 q2] w2].
  pose proof (reconcile_side_grows inst Sell now q2 w2 Hi Hc) as H2. destruct (reconcile_side _ _ inst Sell now q2 w2) as [[n2 q3] w3]. by eapply grows_trans.
Qed.
Lemma pull_levels_grows i s q w : grows q (snd (fst (pull_levels live_order place i s q w))).
Proof.
  unfold pull_levels. pose proof (over_levels_grows i s (pull_slot live_order place i s) (Z.of_nat kMaxQuoteLevels) q w (fun l => pull_slot_grows i s l)) as H. by destruct (over_levels _ _ _ _ _ _) as [[[k u] q1] w1].
Qed.
Lemma pull_quotes_grows i keep q w : grows q (snd (fst (pull_quotes live_order place i keep q w))).
Proof.
  unfold pull_quotes. set (q1 := upd_st i _ q). apply (grows_trans q q1); [apply grows_upd; by destruct keep|]. clearbody q1. set (q2 := upd_st i _ q1). apply (grows_trans q1 q2); [by apply grows_upd|]. clearbody q2.
  pose proof (pull_levels_grows i Buy q2 w) as H1. destruct (pull_levels _ _ i Buy q2 w) as [[n1 q3] w3]. pose proof (pull_levels_grows i Sell q3 w3) as H2. destruct (pull_levels _ _ i Sell q3 w3) as [[n2 q4] w4]. by eapply grows_trans.
Qed.
Lemma pull_side_grows inst s now q w : in_range (in_id inst) -> clock now -> grows q (snd (fst (pull_side live_order place inst s now q w))).
Proof.
  intros Hi Hc. unfold pull_side. set (step := fun lvl q w => reconcile_slot live_order place inst s lvl _ _ _ _ now q w).
  pose proof (over_levels_grows (in_id inst) s step (used_of (st_at q (in_id inst)) s) q w) as H. destruct (over_levels _ _ _ _ _ _) as [[[k u] q1] w1]. cbn [fst snd] in *. eapply grows_trans; [apply H | apply set_used_grows]. intros. by apply reconcile_slot_grows.
Qed.
Lemma retry_queued_grows inst now q w : in_range (in_id inst) -> clock now -> grows q (snd (fst (retry_queued live_order place inst now q w))).
Proof. intros Hi Hc. unfold retry_queued. destruct (_ || _); [apply grows_refl | by apply reconcile_grows]. Qed.
Lemma live_update_grows u inst s l now q w : in_range (in_id inst) -> clock now -> grows q (fst (on_live_update live_order place u inst s l now q w)).
Proof.
  intros Hi Hc. unfold on_live_update. cbv zeta. set (i := in_id inst) in *. set (q1 := if (_ : bool) then _ else q). assert (G1 : grows q q1).
  { unfold q1. destruct (_ && _); [|apply grows_refl]. intros X ls lp lb H. pose proof H as [A1 A2 A3 A4 A5 A6]. exists [], [], []. rewrite !app_nil_r.
    apply (queued_at i X X q _ ls lp lb); rewrite ?st_upd_eq; [intros j N; by apply st_upd_ne | done | done | by apply (uq_keep _ _ (fun j => is_starved (st_at q j) = true)) |
      by apply (uq_keep _ _ (fun j => is_priced (st_at q j) = true)) | by apply (uq_keep _ _ (fun j => is_retry_at (st_at q j) <> kNever)) | intros j; destruct (decide (j = i)) as [->|N]; apply A4|].
    intros s'. pose proof (A5 i s') as [B1 B2]. split; [|exact B2]. unfold backoff_of. cbn -[st_at]. destruct (decide (s' = s)) as [->|N]; [by rewrite lookup_insert_eq|]. by rewrite lookup_insert_ne by (intros ?%side_ix_inj; congruence). }
  apply (grows_trans q q1); [done|]. clearbody q1. destruct (_ || _); [apply grows_refl|]. destruct (is_pulled _); [pose proof (cancel_grows i s l q1 w) as H; by destruct (cancel _ _ _ _ _ _) as [[? ?] ?]|].
  destruct (is_paused _); [apply grows_refl|]. destruct (_ && _); [|apply grows_refl]. set (q2 := upd_slot i s l _ q1). apply (grows_trans q1 q2); [apply grows_slot|]. clearbody q2.
  match goal with |- context [reconcile_slot ?a ?b ?c ?d ?e ?f ?g ?h ?k ?m ?n ?o] => pose proof (reconcile_slot_grows c d e f g h k m n o Hi Hc) as H; by destruct (reconcile_slot a b c d e f g h k m n o) as [[? ?] ?] end.
Qed.
Lemma terminal_update_grows inst s l now q w : in_range (in_id inst) -> clock now -> grows q (fst (on_terminal_update live_order place inst s l now q w)).
Proof.
  intros Hi Hc. unfold on_terminal_update. cbv zeta. set (i := in_id inst) in *. destruct (owns _ _ _ _ _ _); [apply grows_refl|]. set (q1 := upd_slot i s l _ q). apply (grows_trans q q1); [apply grows_slot|]. clearbody q1.
  destruct (_ || _); [apply grows_refl|]. set (q2 := upd_slot i s l _ q1). apply (grows_trans q1 q2); [apply grows_slot|]. clearbody q2. destruct (_ || _); [apply grows_refl|]. destruct (backing_off _ _ _); [by apply kept_backoff_grows|].
  match goal with |- context [submit_new ?b ?c ?d ?e ?f ?g ?h ?k ?m ?n ?o] => pose proof (submit_grows c d e f g h k m n o Hi Hc) as H; by destruct (submit_new b c d e f g h k m n o) as [[? ?] ?] end.
Qed.
Lemma order_update_grows u inst now q w : in_range (in_id inst) -> clock now -> grows q (fst (on_order_update live_order place u inst now q w)).
Proof.
  intros Hi Hc. unfold on_order_update. cbv zeta. destruct (negb _); [apply grows_refl|]. destruct (_ || _); [apply grows_refl|]. set (q1 := if (_ : bool) then _ else q).
  apply (grows_trans q q1); [unfold q1; destruct (negb _); [by apply venue_reject_grows | apply grows_refl]|]. clearbody q1. destruct (negb _); [by apply live_update_grows | by apply terminal_update_grows].
Qed.

End queues.

(** ** Taking from the queues *)

Lemma uq_head {r x l flag} (P : Prop) : uq r (x :: l) flag -> ~ P -> exists r', Ring.pop queue_bits r = Some (Some x, r') /\ uq r' l (fun j => if decide (j = x) then P else flag j) /\ in_range x.
Proof.
  intros U HP. destruct (uq_pop _ _ _ U) as (r' & E & U' & Hx). exists r'. split; [done|]. split; [|done]. eapply uq_ext; [|exact U']. intros j. cbn. case_decide; tauto.
Qed.
Lemma starved_popped q ls lp lb : queued [] q ls lp lb -> match ls with
  | [] => pop_starved q = None
  | i :: ls' => exists q', pop_starved q = Some (i, q') /\ queued [] q' ls' lp lb
  end.
Proof.
  intros H. pose proof H as [A1 A2 A3 A4 A5 A6]. unfold pop_starved. destruct ls as [|i ls]; [pose proof (uq_pop _ _ _ A1) as E; cbn in E; by rewrite E|].
  destruct (uq_head False A1 ltac:(tauto)) as (r & -> & U & Hi). eexists. split; [done|]. apply (queued_at i [] [] q _ (i :: ls) lp lb); rewrite ?st_upd_eq; [intros j N; by rewrite st_upd_ne | done | done | | | | |].
  - eapply uq_ext; [|exact U]. intros j. cbn -[st_at]. by case_decide.
  - by apply (uq_keep _ _ (fun j => is_priced (st_at q j) = true)).
  - by apply (uq_keep _ _ (fun j => is_retry_at (st_at q j) <> kNever)).
  - intros j. destruct (decide (j = i)) as [->|N]; apply A4.
  - apply (A5 i).
Qed.

Section taking.
Context {W : Type} (f : InstrumentId -> QuoteManager -> W -> QuoteManager * W).
Hypothesis f_grows : forall i q w, in_range i -> grows q (fst (f i q w)).

Lemma all_priced_queued n : forall X q w ls lp lb, queued X q ls lp lb -> (n <= length lp)%nat -> exists e1 e2 e3, queued X (fst (take_all_priced f n q w)) (ls ++ e1) (drop n lp ++ e2) (lb ++ e3).
Proof.
  induction n as [|n IH]; intros X q w ls lp lb H Hn; [exists [], [], []; by rewrite !app_nil_r|]. destruct lp as [|i lp]; [cbn in Hn; lia|]. pose proof H as [A1 A2 A3 A4 A5 A6]. cbn [take_all_priced drop].
  destruct (uq_head False A2 ltac:(tauto)) as (r & -> & U & Hi). set (q1 := upd_st i _ _). assert (H1 : queued X q1 ls lp lb).
  { unfold q1. apply (queued_at i X X q _ ls (i :: lp) lb); rewrite ?st_upd_eq; [intros j N; by rewrite st_upd_ne | done | done | by apply (uq_keep _ _ (fun j => is_starved (st_at q j) = true)) | |
      by apply (uq_keep _ _ (fun j => is_retry_at (st_at q j) <> kNever)) | intros j; destruct (decide (j = i)) as [->|N]; apply A4 | apply (A5 i)]. eapply uq_ext; [|exact U]. intros j. cbn -[st_at]. by case_decide. }
  clearbody q1. destruct (f_grows i q1 w Hi _ _ _ _ H1) as (a1 & a2 & a3 & H2). destruct (f i q1 w) as [q2 w2]. cbn [fst] in H2. cbn in Hn.
  destruct (IH X q2 w2 _ _ _ H2 ltac:(rewrite length_app; lia)) as (b1 & b2 & b3 & H3). rewrite drop_app_le in H3 by lia. exists (a1 ++ b1), (a2 ++ b2), (a3 ++ b3). by rewrite !app_assoc.
Qed.
(** The loop over the queue as it was: [todo] is what it has still to look at. *)
Lemma due_queued now todo : forall q w ls lp done, queued todo q ls lp (todo ++ done) ->
  exists ls' lp' lb', queued [] (fst (take_due now f (length todo) q w)) ls' lp' lb'.
Proof.
  induction todo as [|i todo IH]; intros q w ls lp don H; [by exists ls, lp, don|]. pose proof H as [A1 A2 A3 A4 A5 A6]. cbn [take_due length]. cbn [app] in A3.
  assert (Hnd : i ∉ todo ++ don) by (pose proof (uq_nodup _ _ _ A3) as Hnd; by inversion Hnd). destruct (uq_head False A3 ltac:(tauto)) as (r & -> & U & Hi).
  change (st_at (q <| qm_backed_off := r |>) i) with (st_at q i). assert (Hf : is_retry_at (st_at q i) <> kNever) by (apply (uq_flag _ _ _ A3); by constructor). destruct (now <? is_retry_at (st_at q i)) eqn:Et.
  - destruct (uq_push _ _ _ i U Hi ltac:(cbv beta; rewrite decide_True by done; tauto)) as (r' & Er & U'). cbn [qm_backed_off]. set (q1 := _ <| qm_backoff_due ::= _ |>). apply (IH q1 w ls lp (don ++ [i])).
    rewrite app_assoc. constructor; [exact A1 | exact A2 | | | exact A5 | exact A6].
    + change (uq (snd (Ring.try_push queue_bits r i)) ((todo ++ don) ++ [i]) (fun j => is_retry_at (st_at q j) <> kNever)). rewrite Er. eapply uq_ext; [|exact U']. intros j. cbn -[st_at]. case_decide; [subst; tauto | tauto].
    + intros j Hj HX. change (st_at q1 j) with (st_at q j). change (qm_backoff_due q1) with (Z.min (is_retry_at (st_at q i)) (qm_backoff_due q)). apply elem_of_app in Hj as [Hj| ->%list_elem_of_singleton]; [|lia].
      destruct (decide (j = i)) as [->|N]; [lia|]. assert (HX' : j ∉ i :: todo) by (by intros [?|?]%elem_of_cons). specialize (A4 j ltac:(by right) HX'). lia.
  - set (q1 := set_retry i kNever _). assert (H1 : queued todo q1 ls lp (todo ++ don)).
    { unfold q1, set_retry. apply (queued_at i todo (i :: todo) q _ ls lp (i :: todo ++ don)); rewrite ?st_upd_eq; [intros j N; by rewrite st_upd_ne | done | done | by apply (uq_keep _ _ (fun j => is_starved (st_at q j) = true)) |
        by apply (uq_keep _ _ (fun j => is_priced (st_at q j) = true)) | | | apply (A5 i)].
      - eapply uq_ext; [|exact U]. intros j. cbn -[st_at]. case_decide; [|done]. split; [done | intros N; by apply N].
      - intros j Hj HX. rewrite decide_False by congruence. apply A4; [by right|]. intros [->|?]%elem_of_cons; done. }
    clearbody q1. destruct (f_grows i q1 w Hi _ _ _ _ H1) as (a1 & a2 & a3 & H2). destruct (f i q1 w) as [q2 w2]. cbn [fst] in H2. rewrite <- app_assoc in H2. by apply (IH q2 w2 _ _ _ H2).
Qed.
End taking.

(** ** Reachable states *)

Section reach.
Context {W : Type} (live_order : W -> Z -> option Order) (place : QuoteAction -> W -> bool * QuoteAction * W).
Context (insts : InstrumentId -> Instrument) (enabled : W -> InstrumentId -> bool).
Hypothesis insts_ok : forall i, in_range i -> in_range (in_id (insts i)).
Abbreviation try_again := (try_again live_order place insts enabled).

(** Any calls in any order, with registered instruments; the placer and the rest of the engine do what they like. *)
Inductive queue_reach : QuoteManager -> W -> Prop :=
| q_new p w : params_ok p -> queue_reach (new_quote_manager p) w
| q_world q w w' : queue_reach q w -> queue_reach q w'
| q_params q w p : queue_reach q w -> params_ok p -> queue_reach (set_params p q) w
| q_replace q w i on : queue_reach q w -> queue_reach (set_replace i on q) w
| q_hold q w s on : queue_reach q w -> queue_reach (hold_side s on q) w
| q_pause q w i : queue_reach q w -> queue_reach (pause_quotes i q) w
| q_pop q w i q' : queue_reach q w -> pop_starved q = Some (i, q') -> queue_reach q' w
| q_reconcile q w inst d now : queue_reach q w -> in_range (in_id inst) -> clock now -> queue_reach (snd (fst (reconcile live_order place inst d now q w))) (snd (reconcile live_order place inst d now q w))
| q_pull q w i keep : queue_reach q w -> queue_reach (snd (fst (pull_quotes live_order place i keep q w))) (snd (pull_quotes live_order place i keep q w))
| q_resume q w inst now : queue_reach q w -> in_range (in_id inst) -> clock now -> queue_reach (snd (fst (resume live_order place inst now q w))) (snd (resume live_order place inst now q w))
| q_pull_side q w inst s now : queue_reach q w -> in_range (in_id inst) -> clock now -> queue_reach (snd (fst (pull_side live_order place inst s now q w))) (snd (pull_side live_order place inst s now q w))
| q_reapply q w inst now : queue_reach q w -> in_range (in_id inst) -> clock now -> queue_reach (snd (fst (reapply live_order place inst now q w))) (snd (reapply live_order place inst now q w))
| q_retry q w inst now : queue_reach q w -> in_range (in_id inst) -> clock now -> queue_reach (snd (fst (retry live_order place inst now q w))) (snd (retry live_order place inst now q w))
| q_backed_off q w now : queue_reach q w -> clock now -> queue_reach (fst (take_backoff_due now (try_again now) q w)) (snd (take_backoff_due now (try_again now) q w))
| q_priced q w now : queue_reach q w -> clock now -> queue_reach (fst (take_priced (try_again now) q w)) (snd (take_priced (try_again now) q w))
| q_update q w u inst now : queue_reach q w -> in_range (in_id inst) -> clock now -> queue_reach (fst (on_order_update live_order place u inst now q w)) (snd (on_order_update live_order place u inst now q w)).

Definition exact (q : QuoteManager) : Prop := exists ls lp lb, queued [] q ls lp lb.
Lemma exact_grows q q' : grows q q' -> exact q -> exact q'.
Proof. intros G (ls & lp & lb & H). destruct (G _ _ _ _ H) as (? & ? & ? & ?). by do 3 eexists. Qed.
Lemma resolve_flags q : let q' := resolve_replace q in qm_starved q' = qm_starved q /\ qm_priced q' = qm_priced q /\ qm_backed_off q' = qm_backed_off q /\ qm_backoff_due q' = qm_backoff_due q /\
  qm_params q' = qm_params q /\ forall i, flags (st_at q' i) = flags (st_at q i).
Proof.
  cbv zeta. unfold resolve_replace. generalize (seqZ 0 kMaxInstruments). intros js. revert q. induction js as [|j js IH]; intros q; [done|]. cbn [fold_left].
  match goal with |- context [fold_left _ js ?x] => set (q1 := x) end. destruct (IH q1) as (-> & -> & -> & -> & -> & F). repeat split; try done.
  intros i. rewrite F. unfold q1. rewrite st_upd. case_decide; by subst.
Qed.
Lemma exact_resolve q : exact q -> exact (resolve_replace q).
Proof. destruct (resolve_flags q) as (E1 & E2 & E3 & E4 & E5 & F). apply exact_grows. by apply grows_same. Qed.
Lemma try_again_grows now i q w : clock now -> in_range i -> grows q (fst (try_again now i q w)).
Proof.
  intros Hc Hi. unfold QuoteProps.try_again. destruct (enabled w i); [|apply grows_refl]. pose proof (retry_queued_grows live_order place (insts i) now q w (insts_ok i Hi) Hc) as H. by destruct (retry_queued _ _ _ _ _ _) as [[? ?] ?].
Qed.
Lemma exact_new p : params_ok p -> exact (new_quote_manager p).
Proof.
  intros Hp. unfold new_quote_manager. apply exact_resolve. exists [], [], []. assert (E : forall i, st_at (mkQuotes p no_qstats ∅ Ring.ring_empty Ring.ring_empty Ring.ring_empty kNever ∅) i = new_inst) by (intros; unfold st_at; cbn; by rewrite lookup_empty).
  assert (Hu : forall flag, (forall i, ~ flag i) -> uq Ring.ring_empty [] flag).
  { intros flag Hn. constructor; [apply (Ring.rep_empty queue_bits bits_ok) | constructor | | by intros i ?%elem_of_nil]. intros i. split; [by intros ?%elem_of_nil | by intros ?%Hn]. }
  constructor; [apply Hu | apply Hu | apply Hu | by intros i ?%elem_of_nil | | done].
  1-3: intros i; rewrite E; by auto.
  intros i s. rewrite E. unfold backoff_of, blocked_of. cbn. by rewrite !lookup_empty.
Qed.
Lemma exact_due now q w : clock now -> exact q -> exact (fst (take_backoff_due now (try_again now) q w)).
Proof.
  intros Hc (ls & lp & lb & H). unfold take_backoff_due. destruct (_ <? _); [by exists ls, lp, lb|]. pose proof H as [A1 A2 A3 A4 A5 A6].
  rewrite (Ring.size_rep queue_bits bits_ok _ _ (uq_rep _ _ _ A3)), Nat2Z.id. apply (due_queued (try_again now) (fun i q w => try_again_grows now i q w Hc) now lb _ w ls lp []).
  rewrite app_nil_r. constructor; [exact A1 | exact A2 | exact A3 | by intros i ? ? | exact A5 | exact A6].
Qed.
Lemma exact_priced now q w : clock now -> exact q -> exact (fst (take_priced (try_again now) q w)).
Proof.
  intros Hc (ls & lp & lb & H). unfold take_priced. rewrite (Ring.size_rep queue_bits bits_ok _ _ (uq_rep _ _ _ (qq_priced _ _ _ _ _ H))), Nat2Z.id.
  destruct (all_priced_queued (try_again now) (fun i q w => try_again_grows now i q w Hc) (length lp) [] q w ls lp lb H ltac:(lia)) as (? & ? & ? & ?). by do 3 eexists.
Qed.
Lemma reach_exact q w : queue_reach q w -> exact q.
Proof.
  induction 1 as [p w Hp|q w w' _ IH|q w p _ IH Hp|q w i on _ IH|q w s on _ IH|q w i _ IH|q w i q' _ IH E|q w inst d now _ IH Hi Hc|q w i keep _ IH|q w inst now _ IH Hi Hc|q w inst s now _ IH Hi Hc
    |q w inst now _ IH Hi Hc|q w inst now _ IH Hi Hc|q w now _ IH Hc|q w now _ IH Hc|q w u inst now _ IH Hi Hc].
  - by apply exact_new.
  - done.
  - unfold set_params. apply exact_resolve. destruct IH as (ls & lp & lb & H). exists ls, lp, lb. by apply (queued_same [] q).
  - apply (exact_grows q); [by apply grows_upd | done].
  - apply (exact_grows q); [by apply grows_same | done].
  - apply (exact_grows q); [|done]. unfold pause_quotes. eapply grows_trans; by apply grows_upd.
  - destruct IH as (ls & lp & lb & H). pose proof (starved_popped q ls lp lb H) as Hp. destruct ls as [|j ls]; [congruence|]. destruct Hp as (q1 & E1 & H1). rewrite E1 in E. simplify_eq. by exists ls, lp, lb.
  - apply (exact_grows q); [by apply reconcile_grows | done].
  - apply (exact_grows q); [apply pull_quotes_grows | done].
  - apply (exact_grows q); [|done]. unfold resume. set (q1 := upd_st _ _ q). apply (grows_trans q q1); [by apply grows_upd|]. clearbody q1. destruct (negb _); [apply grows_refl | by apply reconcile_grows].
  - apply (exact_grows q); [by apply pull_side_grows | done].
  - apply (exact_grows q); [|done]. unfold reapply. destruct (_ || _); [apply grows_refl | by apply reconcile_grows].
  - apply (exact_grows q); [|done]. unfold retry. destruct (_ || _); [apply grows_refl|]. eapply grows_trans; [apply grows_qstat | by apply reconcile_grows].
  - by apply exact_due.
  - by apply exact_priced.
  - apply (exact_grows q); [by apply order_update_grows | done].
Qed.

(** C15. Nothing held back is forgotten: in every history, whatever the placer answers, each of the three queues holds
    exactly the instruments flagged for it, once each and in the order they were flagged, never overflowing; and the
    next backoff check is never later than the backoff of a queued instrument, so none is left behind. *)
Theorem queues_exact q w : queue_reach q w -> exists ls lp lb,
  uq (qm_starved q) ls (fun i => is_starved (st_at q i) = true) /\ uq (qm_priced q) lp (fun i => is_priced (st_at q i) = true) /\
  uq (qm_backed_off q) lb (fun i => is_retry_at (st_at q i) <> kNever) /\ forall i, i ∈ lb -> qm_backoff_due q <= is_retry_at (st_at q i).
Proof.
  intros (ls & lp & lb & [A1 A2 A3 A4 _ _])%reach_exact. exists ls, lp, lb. split; [done|]. split; [done|]. split; [done|]. intros i Hi. apply A4; [done | by intros ?%elem_of_nil].
Qed.
End reach.
