(* ===== verification/QuoteOms.v ===== *)
(** * QuoteOms: the quote manager over the order manager

    The world of the quote manager is the order manager of [Oms]; the placer submits, cancels and replaces there, as
    [Engine::place_quote] does once its checks have passed and the transport has taken the message.  It keeps the
    contract the quote manager relies on, and so do the venue's messages about open orders. *)

From S2P Require Import Prelude Types Orders Interfaces Oms OmsInv OmsStep OmsOps OmsHandlers Pool HashMap RecentMap L2Book Instruments QuoteManager QuoteInv QuoteProps.

#[local] Arguments i64 : simpl never.
#[local] Arguments u32 : simpl never.
#[local] Arguments kNullHandle : simpl never.
#[local] Arguments make_tag : simpl never.

Section oms.
Context {M P R : Type} `{IM : IdMap M} `{OP : ObjPool P Order} `{SN : Seen R}.
Abbreviation Oms := (Oms M P R).
Hypothesis Hcap : op_cap = kMaxOpenOrders.
Hypothesis Hids : 3 * kMaxOpenOrders < im_cap.
Implicit Type st : Oms.

Definition oms_live st (h : Z) : option Order := if (0 <=? h) && is_live st h then Some (get st h) else None.

(** The request of a New, and whether its fields are in range. *)
Definition quote_request (a : QuoteAction) : NewOrderRequest :=
  mkRequest (qa_instrument a) kInvalidVenue (qa_account a) (qa_side a) (if qa_post_only a then PostOnly else Limit) Gtc (qa_post_only a) false (qa_price a) (qa_qty a)
    (make_tag (qa_side a) (qa_level a)).
Definition sane (a : QuoteAction) : bool := (0 <=? qa_instrument a) && (0 <=? qa_qty a) && (qa_qty a <=? i64_max).
Definition direct_place (now : Timestamp) (a : QuoteAction) st : bool * QuoteAction * Oms :=
  match qa_kind a with
  | ANew =>
    if negb (sane a) then (false, a <| qa_refused := InvalidLot |>, st)
    else
      let '(id, st) := next_cl_ord_id st in
      if id =? 0 then (false, a <| qa_refused := OrderTableFull |>, st)
      else match submit (quote_request a) id now st with
      | (Ok h, st) => (true, a <| qa_cl_ord_id := id |> <| qa_handle := h |>, st)
      | (Err r, st) => (false, a <| qa_refused := r |>, st)
      end
  | ACancel => match request_cancel (qa_handle a) st with (Ok _, st) => (true, a, st) | (Err _, st) => (false, a, st) end
  | AReplace =>
    if negb (sane a) then (false, a <| qa_refused := InvalidLot |>, st)
    else
      let '(id, st) := next_cl_ord_id st in
      if id =? 0 then (false, a <| qa_refused := OrderTableFull |>, st)
      else match request_replace (qa_handle a) id (qa_price a) (qa_qty a) now st with
      | (Ok _, st) => (true, a, st)
      | (Err r, st) => (false, a <| qa_refused := r |>, st)
      end
  end.
(** A message about an open order. *)
Definition venue_step st st' : Prop := exists e o, est_room st /\ orders st !! find st (event_id e) = Some o /\ st' = snd (handle e st).

(** ** The contract *)

Lemma oms_live_spec st h : op_ok (pool_ st) -> oms_live st h = orders st !! h.
Proof.
  intros Hok. unfold oms_live. destruct (Z.leb_spec 0 h) as [Hh|Hh]; cbn [andb].
  - destruct (is_live st h) eqn:El.
    + apply (op_live_spec _ _ Hok Hh) in El as [o Ho]. unfold orders. rewrite Ho. f_equal. by apply get_spec.
    + destruct (orders st !! h) as [o|] eqn:Eo; [|done]. assert (op_is_live (pool_ st) h = true) by (apply op_live_spec; [done | done | by eexists]). unfold is_live in El. congruence.
  - destruct (orders st !! h) as [o|] eqn:Eo; [|done]. pose proof (op_range _ h Hok ltac:(by eexists)). lia.
Qed.
Lemma reach_pool st : reach False st -> op_ok (pool_ st).
Proof. intros Hr. destruct (reach_inv Hcap Hids False st Hr) as [l Hv]. apply Hv. Qed.
Lemma next_orders st : orders (snd (next_cl_ord_id st)) = orders st.
Proof. unfold next_cl_ord_id. by destruct (_ <=? _). Qed.
Lemma submit_orders req id now st : op_ok (pool_ st) -> match submit req id now st with
  | (Ok h, st') => handle_valid h = true /\ orders st !! h = None /\ exists o, orders st' = <[h := o]> (orders st) /\
      o_instrument o = r_instrument req /\ o_user_tag o = r_user_tag req /\ o_state o = PendingNew
  | (Err _, st') => orders st' = orders st
  end.
Proof.
  intros Hok. unfold submit. destruct (_ <=? _); [done|]. destruct (handle_valid (open_handle st id)); [done|]. destruct (op_allocate (pool_ st)) as [h pool] eqn:Ea.
  destruct (handle_valid h) eqn:Ev; cbn [negb].
  - destruct (op_allocate_some _ _ _ Hok Ea) as (_ & Hn & Hset & _ & Hfree); [unfold handle_valid in Ev; lia|]. unfold add_open. destruct (im_assign _ _ _) as [ok m]. destruct ok; cbn [negb]; [|exact Hfree].
    split; [done|]. split; [done|]. match goal with |- context [put ?s h ?x] => set (o := x) end. exists o. split; [|done].
    transitivity (op_abs (op_set pool h o)); [|apply Hset]. by destruct (_ || _).
  - unfold handle_valid in Ev. assert (h = kNullHandle) as -> by lia. destruct (op_allocate_null _ _ Hok Ea) as [-> _]. done.
Qed.
Lemma request_cancel_orders h st o : op_ok (pool_ st) -> orders st !! h = Some o -> 0 <= h -> match request_cancel h st with
  | (Ok _, st') => orders st' = <[h := o <| o_state := PendingCancel |>]> (orders st)
  | (Err _, st') => st' = st
  end.
Proof.
  intros Hok Ho Hh. unfold request_cancel. destruct (is_live st h); cbn [negb]; [|done]. rewrite (get_spec st h o Hok Ho). destruct (is_working o); cbn [negb]; [|done].
  apply put_orders; [done | by eexists].
Qed.
Lemma request_replace_orders h id px q now st o : op_ok (pool_ st) -> orders st !! h = Some o -> 0 <= h -> match request_replace h id px q now st with
  | (Ok _, st') => exists o', orders st' = <[h := o']> (orders st) /\ same_quote o o' /\ o_state o' = PendingReplace
  | (Err _, st') => orders st' = orders st
  end.
Proof.
  intros Hok Ho Hh. unfold request_replace. destruct (is_live st h); cbn [negb]; [|done]. rewrite (get_spec st h o Hok Ho). destruct (is_working o); cbn [negb]; [|done]. cbv zeta.
  set (o' := o <| o_pending_cl_ord_id := id |> <| o_pending_price := px |> <| o_pending_qty := q |> <| o_state := PendingReplace |>).
  destruct (id =? o_cl_ord_id o); cbn [negb].
  - exists o'. split; [|done]. exact (proj2 (put_orders st h o' Hok ltac:(by eexists))).
  - destruct (handle_valid _); [done|]. unfold add_open. destruct (im_assign _ _ _) as [ok m]. destruct ok; cbn [negb]; [|done].
    exists o'. split; [|done]. match goal with |- context [put ?s h o'] => exact (proj2 (put_orders s h o' Hok (ex_intro _ o Ho))) end.
Qed.

Lemma direct_spec now a st ok a' st' : op_ok (pool_ st) -> legit oms_live st a -> direct_place now a st = (ok, a', st') ->
  (ok = false /\ orders st' = orders st) \/
  (ok = true /\ exists h o, h = qa_handle a' /\ handle_valid h = true /\ orders st' = <[h := o]> (orders st) /\ quote_of (qa_instrument a) (qa_side a) (qa_level a) o /\ is_pending (o_state o) = true /\
     (qa_kind a = ANew -> orders st !! h = None) /\ (qa_kind a <> ANew -> h = qa_handle a)).
Proof.
  intros Hok [_ Hl]. unfold direct_place. pose proof (next_orders st) as En.
  assert (Hpool : pool_ (snd (next_cl_ord_id st)) = pool_ st) by (unfold next_cl_ord_id; by destruct (_ <=? _)).
  destruct (qa_kind a) eqn:Ek.
  - destruct (negb (sane a)); [intros [= <- _ <-]; by left|]. destruct (next_cl_ord_id st) as [id st1]. cbn [snd] in *. destruct (id =? 0); [intros [= <- _ <-]; by left|].
    pose proof (submit_orders (quote_request a) id now st1 ltac:(by rewrite Hpool)) as Hs. destruct (submit _ _ _ st1) as [[h|r] st2]; intros [= <- <- <-]; [right | left; split; congruence].
    destruct Hs as (Hv & Hn & o & Eo & E1 & E2 & E3). split; [done|]. exists h, o. rewrite <- En. split; [done|]. split; [done|]. split; [done|]. split; [done|]. split; [by rewrite E3 | done].
  - destruct Hl as (Hv & o & Ho & Hq & _). rewrite (oms_live_spec _ _ Hok) in Ho. pose proof (op_range _ _ Hok ltac:(by eexists)) as Hh.
    pose proof (request_cancel_orders _ st o Hok Ho ltac:(lia)) as Hs. destruct (request_cancel _ st) as [[?|r] st2]; intros [= <- <- <-]; [right | left; split; [done | by rewrite Hs]].
    split; [done|]. exists (qa_handle a), (o <| o_state := PendingCancel |>). done.
  - destruct Hl as (Hv & o & Ho & Hq & _). rewrite (oms_live_spec _ _ Hok) in Ho. pose proof (op_range _ _ Hok ltac:(by eexists)) as Hh.
    destruct (negb (sane a)); [intros [= <- _ <-]; by left|]. destruct (next_cl_ord_id st) as [id st1]. cbn [snd] in *. destruct (id =? 0); [intros [= <- _ <-]; by left|].
    rewrite <- En in Ho. pose proof (request_replace_orders (qa_handle a) id (qa_price a) (qa_qty a) now st1 o ltac:(by rewrite Hpool) Ho ltac:(lia)) as Hs.
    destruct (request_replace _ _ _ _ _ st1) as [[?|r] st2]; intros [= <- <- <-]; [right | left; split; congruence].
    destruct Hs as (o' & Eo & (S1 & S2 & S3) & E3). split; [done|]. exists (qa_handle a), o'. rewrite <- En. split; [done|]. split; [done|]. split; [done|]. split; [|by rewrite E3].
    destruct Hq. split; congruence.
Qed.
Lemma direct_reach now a st ok a' st' : reach False st -> legit oms_live st a -> direct_place now a st = (ok, a', st') -> reach False st'.
Proof.
  intros Hr [_ Hl]. unfold direct_place. assert (Hsane : sane a = true -> 0 <= qa_instrument a /\ 0 <= qa_qty a <= i64_max) by (unfold sane; lia).
  assert (Hrange : qa_kind a <> ANew -> 0 <= qa_handle a).
  { intros Hk. pose proof (reach_pool st Hr) as Hok. destruct (qa_kind a); [done|..]; destruct Hl as (_ & o & Ho & _); rewrite (oms_live_spec _ _ Hok) in Ho; pose proof (op_range _ _ Hok ltac:(by eexists)); lia. }
  destruct (qa_kind a) eqn:Ek.
  - destruct (sane a) eqn:Es; cbn [negb]; [|by intros [= _ _ <-]]. destruct (Hsane eq_refl) as [S1 S2]. pose proof (reach_next _ _ Hr) as H1. destruct (next_cl_ord_id st) as [id st1]. cbn [snd] in H1.
    destruct (id =? 0); [by intros [= _ _ <-]|]. pose proof (reach_submit _ st1 (quote_request a) id now H1 S1 S2 ltac:(done)) as H2. destruct (submit _ _ _ st1) as [[h|r] st2]; intros [= _ _ <-]; exact H2.
  - pose proof (reach_cancel _ st (qa_handle a) Hr (Hrange ltac:(done))) as H2. destruct (request_cancel _ st) as [[?|r] st2]; intros [= _ _ <-]; exact H2.
  - destruct (sane a) eqn:Es; cbn [negb]; [|by intros [= _ _ <-]]. destruct (Hsane eq_refl) as [S1 S2]. pose proof (reach_next _ _ Hr) as H1. destruct (next_cl_ord_id st) as [id st1]. cbn [snd] in H1.
    destruct (Z.eqb_spec id 0) as [E|N]; [by intros [= _ _ <-]|]. pose proof (reach_replace _ st1 (qa_handle a) id (qa_price a) (qa_qty a) now H1 (Hrange ltac:(done)) N S2 ltac:(done)) as H2.
    destruct (request_replace _ _ _ _ _ st1) as [[?|r] st2]; intros [= _ _ <-]; exact H2.
Qed.

(** The order manager behind the direct placer is a world for the quote manager. *)
#[export] Instance oms_placer now : Placer oms_live (reach False) (direct_place now).
Proof.
  assert (Hlive : forall st h, reach False st -> oms_live st h = orders st !! h) by (intros; by apply oms_live_spec, reach_pool). constructor.
  - intros st a ok a' st' Hr Hl E. by apply (direct_reach now a st ok a').
  - intros st a a' st' Hr Hl Hk E Hv. pose proof (direct_reach _ _ _ _ _ _ Hr Hl E) as Hr'.
    destruct (direct_spec _ _ _ _ _ _ (reach_pool _ Hr) Hl E) as [[? _]|(_ & h & o & -> & _ & Eo & Hq & Hp & Hn & _)]; [done|].
    rewrite (Hlive st) by done. split; [by apply Hn|]. split; [|intros h Hh; by rewrite !Hlive, Eo, lookup_insert_ne]. exists o. by rewrite Hlive, Eo, lookup_insert_eq.
  - intros st a a' st' Hr Hl Hk E. pose proof (direct_reach _ _ _ _ _ _ Hr Hl E) as Hr'.
    destruct (direct_spec _ _ _ _ _ _ (reach_pool _ Hr) Hl E) as [[? _]|(_ & h & o & _ & _ & Eo & Hq & Hp & _ & Eh)]; [done|]. specialize (Eh Hk). subst h.
    split; [|intros h Hh; by rewrite !Hlive, Eo, lookup_insert_ne]. exists o. by rewrite Hlive, Eo, lookup_insert_eq.
  - intros st a ok a' st' Hr Hl E Hn h. pose proof (direct_reach _ _ _ _ _ _ Hr Hl E) as Hr'. rewrite !Hlive by done.
    destruct (direct_spec _ _ _ _ _ _ (reach_pool _ Hr) Hl E) as [[_ Eo]|(-> & h' & o & -> & Hv & _)]; [by rewrite Eo|]. destruct Hn as [?|[_ Hn]]; congruence.
Qed.

(** A message about an open order keeps its instrument and tag, and makes no order; what it reports is the order as it
    now is. *)
Lemma venue_step_ok st st' : reach False st -> venue_step st st' -> reach False st' /\ world_step oms_live st st'.
Proof.
  intros Hr (e & o & Hroom & Ho & ->). assert (Hr' : reach False (snd (handle e st))).
  { destruct e; cbn [handle]; [apply reach_ack | apply reach_reject | apply reach_cancel_ack | apply reach_cancel_reject | apply reach_fill | apply reach_expired | apply reach_open_order]; done. }
  split; [done|]. intros h o' Hh _. rewrite (oms_live_spec _ _ (reach_pool _ Hr')) in Hh. rewrite (oms_live_spec _ _ (reach_pool _ Hr)).
  destruct (event_handled False st e o (reach_inv Hcap Hids False st Hr) Hroom Ho) as [[_ E]|(_ & _ & _ & E & _ & (S1 & _ & S2) & _)].
  - rewrite E in Hh. eauto.
  - rewrite E in Hh. destruct (u_terminal _).
    + apply lookup_delete_Some in Hh as [_ Hh]. eauto.
    + apply lookup_insert_Some in Hh as [[<- <-]|[_ Hh]]; eauto.
Qed.
Lemma update_reports st e o : reach False st -> est_room st -> orders st !! find st (event_id e) = Some o -> u_action (fst (handle e st)) <> ADuplicate ->
  u_terminal (fst (handle e st)) = false -> reports oms_live (snd (handle e st)) (fst (handle e st)).
Proof.
  intros Hr Hroom Ho Hd Ht o' Hh. assert (Hr' : reach False (snd (handle e st))) by (apply (venue_step_ok st); [done | by exists e, o]).
  rewrite (oms_live_spec _ _ (reach_pool _ Hr')) in Hh.
  destruct (event_handled False st e o (reach_inv Hcap Hids False st Hr) Hroom Ho) as [[? _]|(_ & _ & _ & E & _ & _ & Eh)]; [done|].
  rewrite E, Ht, (Eh Ht), lookup_insert_eq in Hh. by apply (inj Some) in Hh as ->.
Qed.
End oms.
