(* ===== verification/QuoteConcrete.v ===== *)
(** * QuoteConcrete: the quote manager at work

    Concrete runs behind which the quote manager's guarantees are exhibited: over the order manager; over a simple exchange
    that takes every message; and with a placer that is out of tokens. *)

From S2P Require Import Prelude Types FixedPoint L2Book RingBuffer Pool HashMap RecentMap Interfaces Instruments Orders Oms OmsInv OmsStep OmsOps OmsHandlers OmsProps QuoteManager QuoteInv QuoteProps QuoteSettle QuoteQueues QuoteOms.

#[local] Arguments i64 : simpl never.
#[local] Arguments u32 : simpl never.
#[local] Arguments u64 : simpl never.
#[local] Arguments kNullHandle : simpl never.
#[local] Arguments make_tag : simpl never.

Lemma triple {A B C} (r : A * B * C) : r = (fst (fst r), snd (fst r), snd r).
Proof. by destruct r as [[? ?] ?]. Qed.
Definition quoted (id : Z) : Instrument := mkInstrument id 0 Spot 1 2 1000000 1 1 1000000000000 0 1 0.
(** Five bid at 1.00 and five offered at 1.10. *)
Definition quotes1 : DesiredQuotes := no_quotes <| dq_bids := [mkLevel 100000000 5] |> <| dq_asks := [mkLevel 110000000 5] |>.
Lemma quotes1_ladder : ladder quotes1.
Proof. by intros []. Qed.
Definition fresh_quotes : QuoteManager := new_quote_manager default_quote_params.

(** ** Over the order manager *)

Module OverOms.
#[local] Existing Instance Concrete.ids_ops.
#[local] Existing Instance Concrete.slots_ops.
#[local] Existing Instance Concrete.seen_ops.
#[local] Existing Instance Concrete.ids_map.
#[local] Existing Instance Concrete.slots_pool.
#[local] Existing Instance Concrete.seen_map.
Abbreviation SimpleOms := (Oms (OpenHash.OpenHashMap Z) (Pool.Pool Order) (Recent.RecentMap Z)).
#[local] Instance placer now : Placer oms_live (reach False) (direct_place now) := oms_placer Concrete.cap_ok Concrete.ids_ok now.
Definition every (w : SimpleOms) (i : InstrumentId) : bool := true.
Abbreviation run := (quotes_reach oms_live (reach False) (direct_place 10) quoted every venue_step).
Lemma venue_ok st st' : reach False st -> venue_step st st' -> reach False st' /\ world_step oms_live st st'.
Proof. apply venue_step_ok; [exact Concrete.cap_ok | exact Concrete.ids_ok]. Qed.

Definition w0 : SimpleOms := new_oms 1 100.
Definition r1 := reconcile oms_live (direct_place 10) (quoted 7) quotes1 10 fresh_quotes w0.
Lemma none_live h o : oms_live w0 h = Some o -> False.
Proof.
  rewrite (oms_live_spec w0 h); [|apply (reach_pool Concrete.cap_ok Concrete.ids_ok); apply reach_new]. assert (E : orders w0 = ∅) by (vm_compute; reflexivity). by rewrite E, lookup_empty.
Qed.
Lemma run_reconcile q w inst d now : run q w -> ladder d ->
  run (snd (fst (reconcile oms_live (direct_place 10) inst d now q w))) (snd (reconcile oms_live (direct_place 10) inst d now q w)).
Proof. intros H Hd. exact (qr_reconcile _ _ _ _ _ _ q w inst d now _ _ _ H Hd (triple _)). Qed.
Lemma run1 : run (snd (fst r1)) (snd r1).
Proof. unfold r1. apply run_reconcile; [|exact quotes1_ladder]. apply qr_new; [apply reach_new | by intros h o ?%none_live]. Qed.
(** The bid is acknowledged; at a new bid it is cancelled, to be sent again when the cancel is through. *)
Definition ack1 : event := EAck (mkAck (mkHdr 7 20 21) (sl_cl_ord_id (slot_at (snd (fst r1)) 7 Buy 0)) [65] 0).
Definition w2 : SimpleOms := snd (handle ack1 (snd r1)).
Definition u2 : OmsUpdate := fst (handle ack1 (snd r1)).
Lemma bid_live : exists o, orders (snd r1) !! find (snd r1) (event_id ack1) = Some o /\ sl_handle (slot_at (snd (fst r1)) 7 Buy 0) = find (snd r1) (event_id ack1) /\ quote_of 7 Buy 0 o.
Proof. eexists. split; [vm_compute; reflexivity | by vm_compute]. Qed.
Lemma room1 : est_room (snd r1).
Proof.
  assert (H : map_Forall (fun h o => e_qty (estimate_at (snd r1) h) + o_qty o <= i64_max) (orders (snd r1))) by (apply (bool_decide_unpack _); vm_compute; exact I). exact H.
Qed.
Lemma acked : reports oms_live w2 u2.
Proof.
  destruct bid_live as (o & Ho & _). unfold w2, u2. pose proof (g_wok _ _ _ _ (reach_good _ _ _ _ _ _ venue_ok _ _ run1)) as Hr.
  assert (E1 : match u_action (fst (handle ack1 (snd r1))) with ADuplicate => false | _ => true end = true) by (vm_compute; reflexivity). assert (E2 : u_terminal (fst (handle ack1 (snd r1))) = false) by (vm_compute; reflexivity).
  refine (update_reports Concrete.cap_ok Concrete.ids_ok (snd r1) ack1 o Hr room1 Ho _ E2). intros E. rewrite E in E1. discriminate E1.
Qed.
Definition r3 := on_order_update oms_live (direct_place 10) u2 (quoted 7) 30 (snd (fst r1)) w2.
Definition quotes2 : DesiredQuotes := no_quotes <| dq_bids := [mkLevel 90000000 5] |> <| dq_asks := [mkLevel 110000000 5] |>.
Definition r4 := reconcile oms_live (direct_place 10) (quoted 7) quotes2 2000000000 (fst r3) (snd r3).
Lemma run3 : run (fst r3) (snd r3).
Proof.
  unfold r3. generalize acked. generalize u2. intros u Hu. eapply qr_update; [|intros _; exact Hu | apply surjective_pairing]. eapply qr_world; [exact run1|].
  destruct bid_live as (o & Ho & _). exists ack1, o. split; [exact room1|]. split; [exact Ho | reflexivity].
Qed.
Lemma run4 : run (snd (fst r4)) (snd r4).
Proof. unfold r4. apply run_reconcile; [exact run3 | by intros []]. Qed.

(** The bid, waiting for its cancel, is still the only order of its level. *)
Lemma one_order_per_level_witness : (exists o, oms_live (snd r4) 0 = Some o /\ quote_of 7 Buy 0 o /\ o_state o = PendingCancel) /\
  sl_handle (slot_at (snd (fst r4)) 7 Buy 0) = 0 /\ 0 < used_of (st_at (snd (fst r4)) 7) Buy.
Proof.
  assert (H : exists o, oms_live (snd r4) 0 = Some o /\ quote_of 7 Buy 0 o /\ o_state o = PendingCancel) by (eexists; split; [vm_compute; reflexivity | by vm_compute]).
  split; [exact H|]. destruct H as (o & Ho & Hq & _). exact (proj1 (one_order_per_level _ _ _ _ _ _ venue_ok _ _ run4) 7 Buy 0 0 o ltac:(unfold is_level; lia) Ho Hq).
Defined.

(** The same with the placements on record. *)
Abbreviation rec_run := (quotes_reach (rec_live oms_live) (rec_ok oms_live (reach False)) (rec_place (direct_place 10)) quoted (fun x => every (fst x)) (rec_step venue_step)).
Definition r5 := reconcile (rec_live oms_live) (rec_place (direct_place 10)) (quoted 7) quotes1 10 fresh_quotes (w0, []).
Lemma rec_reconcile q x inst d now : rec_run q x -> ladder d ->
  rec_run (snd (fst (reconcile (rec_live oms_live) (rec_place (direct_place 10)) inst d now q x))) (snd (reconcile (rec_live oms_live) (rec_place (direct_place 10)) inst d now q x)).
Proof. intros H Hd. exact (qr_reconcile _ _ _ _ _ _ q x inst d now _ _ _ H Hd (triple _)). Qed.
Lemma run5 : rec_run (snd (fst r5)) (fst (snd r5), snd (snd r5)).
Proof.
  rewrite <- surjective_pairing. unfold r5. apply rec_reconcile; [|exact quotes1_ladder]. apply qr_new; [split; [apply reach_new | constructor] | intros h o Hh; destruct (none_live h o Hh)].
Qed.
Lemma placements_respect_slots_witness : length (snd (snd r5)) = 2%nat /\ Forall (fun c => legit oms_live (fst c) (snd c)) (snd (snd r5)).
Proof. split; [vm_compute; reflexivity|]. exact (placements_respect_slots _ _ _ _ _ _ venue_ok _ _ _ run5). Defined.

(** The acknowledgement reaches a pulled instrument: the order is cancelled. *)
Definition q6 : QuoteManager := snd (fst (pull_quotes oms_live (direct_place 10) 7 false (snd (fst r1)) (snd r1))).
Lemma pulled_sends_only_cancels_witness : exists calls,
  snd (snd (on_order_update (rec_live oms_live) (rec_place (direct_place 10)) u2 (quoted 7) 30 q6 (w2, []))) = calls /\ length calls = 1%nat /\ Forall (fun c => qa_kind (snd c) = ACancel) calls.
Proof.
  destruct (pulled_sends_only_cancels oms_live (direct_place 10) u2 (quoted 7) 30 q6 w2 [] ltac:(vm_compute; reflexivity)) as [(calls & E & Hc & _) _].
  exists calls. cbn [app] in E. split; [exact E|]. split; [|exact Hc]. rewrite <- E. vm_compute. reflexivity.
Defined.
End OverOms.

(** ** A simple exchange *)

(** Every message is taken: orders by handle, a New under a handle never used. *)
Module TakesAll.
Abbreviation Book := (gmap Z Order).
Definition live (w : Book) (h : Z) : option Order := w !! h.
Definition next_handle (w : Book) : Z := fresh (dom w ∪ {[kNullHandle]}).
Definition send (a : QuoteAction) (w : Book) : bool * QuoteAction * Book :=
  match qa_kind a with
  | ANew => let h := next_handle w in
    (true, a <| qa_handle := h |>, <[h := no_order <| o_instrument := qa_instrument a |> <| o_user_tag := make_tag (qa_side a) (qa_level a) |> <| o_state := PendingNew |> <| o_price := qa_price a |> <| o_qty := qa_qty a |>]> w)
  | ACancel => (true, a, alter (fun o => o <| o_state := PendingCancel |>) (qa_handle a) w)
  | AReplace => (true, a, alter (fun o => o <| o_state := PendingReplace |>) (qa_handle a) w)
  end.
Definition sound (w : Book) : Prop := True.
Lemma next_fresh (w : Book) : w !! next_handle w = None /\ handle_valid (next_handle w) = true.
Proof.
  pose proof (is_fresh (dom w ∪ {[kNullHandle]})) as H. fold (next_handle w) in H. apply not_elem_of_union in H as [H1 H2%not_elem_of_singleton]. split; [by apply not_elem_of_dom|].
  unfold handle_valid. by apply negb_true_iff, Z.eqb_neq.
Qed.
Lemma touch_spec (w : Book) a (f : Order -> Order) : (exists o, w !! qa_handle a = Some o /\ quote_of (qa_instrument a) (qa_side a) (qa_level a) o) ->
  (forall o, o_instrument (f o) = o_instrument o /\ o_user_tag (f o) = o_user_tag o /\ is_pending (o_state (f o)) = true) ->
  (exists o, alter f (qa_handle a) w !! qa_handle a = Some o /\ quote_of (qa_instrument a) (qa_side a) (qa_level a) o /\ is_pending (o_state o) = true) /\
  forall h, h <> qa_handle a -> alter f (qa_handle a) w !! h = w !! h.
Proof.
  intros (o & Ho & Hq) Hf. destruct (Hf o) as (E1 & E2 & E3). split; [|intros h Hh; by rewrite lookup_alter_ne].
  exists (f o). rewrite lookup_alter_eq, Ho. split; [done|]. split; [|done]. destruct Hq. split; congruence.
Qed.
#[local] Instance takes_all : Placer live sound send.
Proof.
  constructor; unfold live, send.
  - done.
  - intros w a a' w' _ _ Hk. rewrite Hk. intros [= <- <-] _. destruct (next_fresh w) as [Hn _]. cbn. split; [done|]. split; [|intros h Hh; by rewrite lookup_insert_ne]. eexists. rewrite lookup_insert_eq. done.
  - intros w a a' w' _ [_ Hl] Hk. destruct (qa_kind a); [done|..]; intros [= <- <-]; destruct Hl as (_ & o & Ho & Hq & _); (apply touch_spec; [by exists o | done]).
  - intros w a ok a' w' _ _ E [-> |[Hk Hv]].
    + by destruct (qa_kind a).
    + rewrite Hk in E. injection E as <- <- <-. destruct (next_fresh w) as [_ H]. cbn in Hv. by rewrite H in Hv.
Qed.
Lemma sends_all : all_sent live sound send.
Proof. intros w a _ _. unfold send. destruct (qa_kind a) eqn:Ek; [|done|done]. split; [done|]. intros _. apply next_fresh. Qed.
Lemma sends_cancels : cancels_sent live sound send.
Proof. intros w a _ _ Hk. unfold send. by rewrite Hk. Qed.
(** The venue acknowledges everything pending. *)
Definition acknowledge (w : Book) : Book := (fun o => o <| o_state := Live |>) <$> w.
Definition acks (w w' : Book) : Prop := w' = acknowledge w.
Lemma acks_ok w w' : sound w -> acks w w' -> sound w' /\ world_step live w w'.
Proof.
  intros _ ->. split; [done|]. intros h o'. unfold live, acknowledge. rewrite lookup_fmap. destruct (w !! h) as [o|] eqn:Eo; [|done]. intros [= <-] _. by exists o.
Qed.
Abbreviation run := (quotes_reach live sound send quoted (fun _ _ => true) acks).
Definition r1 := reconcile live send (quoted 7) quotes1 10 fresh_quotes ∅.
Lemma run_requote q w inst d now : run q w -> ladder d -> run (snd (fst (reconcile live send inst d now q w))) (snd (reconcile live send inst d now q w)).
Proof. intros H Hd. exact (qr_reconcile _ _ _ _ _ _ q w inst d now _ _ _ H Hd (triple _)). Qed.
Lemma run_acked : run (snd (fst r1)) (acknowledge (snd r1)).
Proof.
  apply (qr_world _ _ _ _ _ _ _ (snd r1)); [|done]. unfold r1. apply run_requote; [|exact quotes1_ladder]. apply qr_new; [done|]. intros h o. unfold live. by rewrite lookup_empty.
Qed.

(** A lower bid is wanted: the first requote cancels the old one, the next sends nothing. *)
Definition quotes2 : DesiredQuotes := no_quotes <| dq_bids := [mkLevel 90000000 5] |> <| dq_asks := [mkLevel 110000000 5] |>.
Definition r2 := reconcile live send (quoted 7) quotes2 2000000000 (snd (fst r1)) (acknowledge (snd r1)).
Lemma requote_settles_witness : fst (fst r2) = 1 /\ exists q2, reconcile live send (quoted 7) quotes2 2000000000 (snd (fst r2)) (snd r2) = (0, q2, snd r2).
Proof.
  split; [vm_compute; reflexivity|]. unfold r2. generalize run_acked. generalize (snd (fst r1)) (acknowledge (snd r1)). intros q w H.
  exact (requote_settles live sound send (quoted 7) 2000000000 _ _ _ acks_ok q w quotes2 _ _ _ H sends_all ltac:(by intros []) (triple _)).
Defined.

Definition r3 := pull_quotes live send 7 false (snd (fst r1)) (acknowledge (snd r1)).
Lemma pull_leaves_nothing_working_witness : fst (fst r3) = 2 /\ (exists h o, live (snd r3) h = Some o /\ quote_of 7 Sell 0 o) /\
  forall s l h o, is_level l -> live (snd r3) h = Some o -> quote_of 7 s l o -> is_working o = false.
Proof.
  split; [vm_compute; reflexivity|]. split; [exists (sl_handle (slot_at (snd (fst r3)) 7 Sell 0)); eexists; split; [vm_compute; reflexivity | by vm_compute]|].
  unfold r3. generalize run_acked. generalize (snd (fst r1)) (acknowledge (snd r1)). intros q w H.
  exact (pull_leaves_nothing_working live sound send _ _ _ acks_ok q w 7 false _ _ _ H sends_cancels (triple _)).
Defined.
End TakesAll.

(** ** Out of tokens *)

Module OutOfTokens.
Definition none (w : unit) (h : Z) : option Order := None.
Definition refuse (a : QuoteAction) (w : unit) : bool * QuoteAction * unit := (false, a <| qa_rate_limited := true |>, w).
Definition r1 := reconcile none refuse (quoted 7) quotes1 10 fresh_quotes tt.
Lemma queues_exact_witness : is_starved (st_at (snd (fst r1)) 7) = true /\ exists ls lp lb,
  uq (qm_starved (snd (fst r1))) ls (fun i => is_starved (st_at (snd (fst r1)) i) = true) /\ uq (qm_priced (snd (fst r1))) lp (fun i => is_priced (st_at (snd (fst r1)) i) = true) /\
  uq (qm_backed_off (snd (fst r1))) lb (fun i => is_retry_at (st_at (snd (fst r1)) i) <> kNever) /\ forall i, i ∈ lb -> qm_backoff_due (snd (fst r1)) <= is_retry_at (st_at (snd (fst r1)) i).
Proof.
  split; [vm_compute; reflexivity|]. apply (queues_exact none refuse quoted (fun _ _ => true) (fun i H => H) _ (snd r1)). unfold r1. apply q_reconcile; [|unfold in_range, kMaxInstruments; cbn; lia | unfold clock; lia].
  apply q_new. unfold params_ok. cbn. lia.
Defined.
End OutOfTokens.
