(* ===== verification/DList.v ===== *)
(** * DList: intrusive doubly linked lists

    Nodes are handles, their links two functions; a list is a segment of nodes whose links agree.  What linking at the
    front and unlinking anywhere do to a list. *)

From S2P Require Import Prelude Types.

(** [p] comes before the nodes [l], which start at [h]. *)
Fixpoint seg (nx pv : Z -> Z) (p h : Z) (l : list Z) : Prop :=
  match l with
  | [] => h = kNullHandle
  | x :: l => h = x /\ x <> kNullHandle /\ pv x = p /\ seg nx pv x (nx x) l
  end.

Lemma dseg_ext nx pv nx' pv' p h l : (forall x, x ∈ l -> nx' x = nx x /\ pv' x = pv x) -> seg nx pv p h l -> seg nx' pv' p h l.
Proof.
  revert p h. induction l as [|x l IH]; intros p h E; [done|]. cbn. intros (-> & N & Hp & H). destruct (E x ltac:(by constructor)) as [E1 E2].
  split; [done|]. split; [done|]. split; [congruence|]. rewrite E1. apply IH; [intros y Hy; apply E; by constructor | done].
Qed.
Lemma seg_not_null nx pv p h l : seg nx pv p h l -> kNullHandle ∉ l.
Proof.
  revert p h. induction l as [|x l IH]; intros p h; [by intros _ ?%elem_of_nil|]. cbn. intros (-> & N & _ & H) [E|E]%elem_of_cons; [done | by apply (IH _ _ H)].
Qed.
(** The first node. *)
Definition first (l : list Z) : Z := match l with [] => kNullHandle | x :: _ => x end.
Lemma seg_first nx pv p h l : seg nx pv p h l -> h = first l.
Proof. destruct l; [done|]. by intros [-> _]. Qed.
Lemma seg_at nx pv p h l1 x l2 : seg nx pv p h (l1 ++ x :: l2) -> nx x = first l2 /\ pv x = default p (last l1) /\ x <> kNullHandle.
Proof.
  revert p h. induction l1 as [|y l1 IH]; intros p h; cbn.
  - intros (-> & N & Hp & H). split; [by apply seg_first in H | done].
  - intros (-> & N & Hp & H). destruct (IH _ _ H) as (A & B & C). split; [done|]. split; [|done]. rewrite B, last_cons. by destruct (last l1).
Qed.

(** Linking at the front. *)
Lemma seg_push nx pv nx' pv' h l x : x <> kNullHandle -> x ∉ l -> NoDup l -> seg nx pv kNullHandle h l -> nx' x = h -> pv' x = kNullHandle -> pv' h = (if decide (h = kNullHandle) then pv' h else x) ->
  (forall y, y ∈ l -> nx' y = nx y /\ (y <> h -> pv' y = pv y)) -> seg nx' pv' kNullHandle x (x :: l).
Proof.
  intros N Hx Hd H E1 E2 E3 Ho. cbn. split; [done|]. split; [done|]. split; [done|]. rewrite E1. destruct l as [|y l]; [done|]. cbn in H. destruct H as (-> & Ny & Hp & H).
  rewrite decide_False in E3 by done. cbn. split; [done|]. split; [done|]. split; [done|]. destruct (Ho y ltac:(by constructor)) as [-> _]. inversion Hd as [|? ? Hy Hd']; subst.
  apply (dseg_ext nx pv); [|done]. intros z Hz. destruct (Ho z ltac:(by constructor)) as [F1 F2]. split; [done|]. apply F2. by intros ->.
Qed.

(** Unlinking a node. *)
Lemma seg_remove nx pv nx' pv' p h l1 x l2 : NoDup (l1 ++ x :: l2) -> p ∉ l1 ++ x :: l2 -> seg nx pv p h (l1 ++ x :: l2) ->
  (forall y, y ∈ l1 -> pv' y = pv y /\ nx' y = if decide (y = pv x) then nx x else nx y) ->
  (forall y, y ∈ l2 -> nx' y = nx y /\ pv' y = if decide (y = nx x) then pv x else pv y) ->
  seg nx' pv' p (if decide (l1 = []) then nx x else h) (l1 ++ l2).
Proof.
  revert p h. induction l1 as [|y l1 IH]; intros p h Hd Hp H H1 H2.
  - cbn in *. destruct H as (-> & N & Hpx & H). destruct l2 as [|z l2]; [done|]. cbn in H. destruct H as (Ez & Nz & Hpz & H). cbn. split; [done|]. split; [done|].
    destruct (H2 z ltac:(by constructor)) as [F1 F2]. rewrite decide_True in F2 by done. split; [congruence|]. rewrite F1. inversion Hd as [|? ? Hx Hd1]; subst. inversion Hd1 as [|? ? Hz Hd2]; subst.
    apply (dseg_ext nx pv); [|done]. intros y Hy. destruct (H2 y ltac:(by constructor)) as [G1 G2]. split; [done|]. rewrite G2, decide_False; [done | by intros ->].
  - rewrite decide_False by done. cbn [app seg] in *. destruct H as (-> & N & Hpy & H). split; [done|]. split; [done|]. destruct (H1 y ltac:(by constructor)) as [F1 F2]. split; [congruence|].
    inversion Hd as [|? ? Hy Hd']; subst. pose proof (seg_at _ _ _ _ _ _ _ H) as (_ & Epx & _).
    assert (Hy' : y ∉ l1) by (intros ?; apply Hy, elem_of_app; by left).
    assert (Ey : nx' y = if decide (l1 = []) then nx x else nx y).
    { rewrite F2. destruct l1 as [|z l1]; [cbn in Epx; by rewrite decide_True | ]. rewrite decide_False; [by rewrite decide_False|]. intros E. rewrite Epx in E.
      assert (Hl : y ∈ z :: l1); [|done]. destruct (last (z :: l1)) as [v|] eqn:El; [|by apply last_None in El]. cbn in E. subst v. by apply last_Some_elem_of. }
    rewrite Ey. apply IH; [done | done | done | |done]. intros z Hz. apply H1. by constructor.
Qed.
