(* ===== verification/TimerWheel.v ===== *)
(** * TimerWheel: the hashed timer wheel ([timer_wheel.hpp])

    4096 slots of a millisecond each head doubly linked lists of timers that live in one pool; timers beyond the horizon
    wait in an overflow list.  A callback may add and cancel timers while the wheel walks its slots: it is a function from
    the wheel and its own world to new ones.  The pool is used through its interface.  Loops along a list run on fuel and
    return [None] when it does not suffice. *)

From S2P Require Import Prelude Types Orders Interfaces.

Abbreviation TimerId := Z (only parsing).
Definition kInvalidTimer : TimerId := 4294967295.
Definition kSlots : Z := 4096.
Definition kSlotNs : Z := 1000000.
Definition kOverflow : Z := 4294967294.
Definition kUnlinked : Z := 4294967293.
Definition never : Z := i64_max.

Record Timer := mkTimer {
  t_expiry : Timestamp;
  t_period : Duration;
  t_user_data : Z;
  t_next : Z;
  t_prev : Z;
  t_list : Z;
  t_repeat : bool;
  t_active : bool;
}.
#[export] Instance eta_timer : Eta Timer := fun t =>
  mkTimer (t_expiry t) (t_period t) (t_user_data t) (t_next t) (t_prev t) (t_list t) (t_repeat t) (t_active t).
Definition no_timer : Timer := mkTimer 0 0 0 0 0 0 false false.

Record TimerWheel (P : Type) := mkWheel {
  pool_ : P;
  gen_ : gmap Z Z;
  slots_ : gmap Z Z;
  overflow_ : Z;
  overflow_min_ms_ : Z;
  cur_ms_ : Z;
  firing_ : Z;
  next_ : Timestamp;
  next_stale_ : bool;
  walk_next_ : Z;
}.
Arguments mkWheel {P}.
Arguments pool_ {P}.
Arguments gen_ {P}.
Arguments slots_ {P}.
Arguments overflow_ {P}.
Arguments overflow_min_ms_ {P}.
Arguments cur_ms_ {P}.
Arguments firing_ {P}.
Arguments next_ {P}.
Arguments next_stale_ {P}.
Arguments walk_next_ {P}.
#[export] Instance eta_wheel P : Eta (TimerWheel P) := fun s =>
  mkWheel (pool_ s) (gen_ s) (slots_ s) (overflow_ s) (overflow_min_ms_ s) (cur_ms_ s) (firing_ s) (next_ s) (next_stale_ s) (walk_next_ s).

Section wheel.
Context {P : Type} `{!ObjPoolOps P Timer}.
(** The template parameter. *)
Variable kMaxTimers : Z.
Abbreviation TimerWheel := (TimerWheel P).
Implicit Type st : TimerWheel.

(** [std::bit_width(kMaxTimers - 1)] *)
Definition kIndexBits : Z := if kMaxTimers - 1 =? 0 then 0 else Z.log2 (kMaxTimers - 1) + 1.
Definition kIndexMask : Z := 2 ^ kIndexBits - 1.
Definition kGenerations : Z := Z.shiftr 4294967295 kIndexBits.

Definition new_wheel (now : Timestamp) : TimerWheel :=
  mkWheel op_new ∅ ∅ kNullHandle never (Z.quot now kSlotNs) kNullHandle i64_max false kNullHandle.

(** ** Access *)

Definition tm st (idx : Z) : Timer := default no_timer (op_get (pool_ st) idx).
Definition upd (idx : Z) (f : Timer -> Timer) st : TimerWheel := st <| pool_ := op_set (pool_ st) idx (f (tm st idx)) |>.
Definition gen st (idx : Z) : Z := default 0 (gen_ st !! idx).
(** The head of a slot's list or of the overflow list. *)
Definition head st (list : Z) : Z := if list =? kOverflow then overflow_ st else default kNullHandle (slots_ st !! list).
Definition set_head (list h : Z) st : TimerWheel := if list =? kOverflow then st <| overflow_ := h |> else st <| slots_ ::= insert list h |>.
Definition slot_of (ms : Z) : Z := Z.land (u64 ms) (kSlots - 1).
Definition ms_of (t : Timestamp) : Z := Z.quot t kSlotNs.

Definition id_of st (idx : Z) : TimerId := Z.lor (u32 (Z.shiftl (gen st idx) kIndexBits)) idx.
Definition index_of (id : TimerId) : Z := Z.land id kIndexMask.
Definition live st (id : TimerId) : bool :=
  let idx := index_of id in
  negb (id =? kInvalidTimer) && (idx <? kMaxTimers) && op_is_live (pool_ st) idx && (Z.shiftr id kIndexBits =? gen st idx).
Definition release (h : Z) st : TimerWheel :=
  let g := u32 (gen st h + 1) in
  let st := st <| gen_ ::= insert h (if g =? kGenerations then 0 else g) |> in
  st <| pool_ := op_free (pool_ st) h |>.

(** ** Lists *)

Definition link (idx : Z) st : TimerWheel :=
  let ms := ms_of (t_expiry (tm st idx)) in
  let far := kSlots <=? i64 (ms - cur_ms_ st) in
  let st := if far && (ms <? overflow_min_ms_ st) then st <| overflow_min_ms_ := ms |> else st in
  let list := if far then kOverflow else slot_of (if ms <? cur_ms_ st then cur_ms_ st else ms) in
  let h := head st list in
  let st := upd idx (fun t => t <| t_list := list |> <| t_prev := kNullHandle |> <| t_next := h |>) st in
  let st := if negb (h =? kNullHandle) then upd h (fun t => t <| t_prev := idx |>) st else st in
  set_head list idx st.

Definition unlink (idx : Z) st : TimerWheel :=
  let t := tm st idx in
  if t_list t =? kUnlinked then st
  else
    let st := if idx =? walk_next_ st then st <| walk_next_ := t_next t |> else st in
    let st := if negb (t_prev t =? kNullHandle) then upd (t_prev t) (fun x => x <| t_next := t_next t |>) st else set_head (t_list t) (t_next t) st in
    let st := if negb (t_next t =? kNullHandle) then upd (t_next t) (fun x => x <| t_prev := t_prev t |>) st else st in
    upd idx (fun x => x <| t_list := kUnlinked |>) st.

(** ** Adding, cancelling, asking *)

Definition add (now : Timestamp) (period : Duration) (repeat : bool) (user_data : Z) st : TimerId * TimerWheel :=
  let '(h, pool) := op_allocate (pool_ st) in
  if negb (handle_valid h) then (kInvalidTimer, st)
  else
    let expiry := i64 (now + period) in
    let t := mkTimer expiry (if (period <? kSlotNs) && repeat then kSlotNs else period) user_data kNullHandle kNullHandle kUnlinked repeat true in
    let st := link h (st <| pool_ := op_set pool h t |>) in
    let st := if expiry <? next_ st then st <| next_ := expiry |> else st in
    (id_of st h, st).

Definition cancel (id : TimerId) st : bool * TimerWheel :=
  if negb (live st id) then (false, st)
  else
    let h := index_of id in
    if negb (t_active (tm st h)) then (false, st)
    else
      let st := upd h (fun t => t <| t_active := false |>) st in
      let st := if t_expiry (tm st h) <=? next_ st then st <| next_stale_ := true |> else st in
      let st := unlink h st in
      (true, if negb (firing_ st =? h) then release h st else st).

Definition active st (id : TimerId) : bool := live st id && t_active (tm st (index_of id)).
Definition warm_up st : TimerWheel := st <| pool_ ::= op_warm_up |>.

(** The earliest expiry of the active timers among [hs], or [best]. *)
Definition earliest st (hs : list Z) (best : Timestamp) : Timestamp :=
  fold_left (fun best h => if t_active (tm st h) && (t_expiry (tm st h) <? best) then t_expiry (tm st h) else best) hs best.
Definition next_expiry st : Timestamp * TimerWheel :=
  let st := if next_stale_ st then st <| next_ := earliest st (op_handles (pool_ st)) i64_max |> <| next_stale_ := false |> else st in
  (next_ st, st).

(** The timers of a list from [idx] on. *)
Fixpoint listed st (fuel : nat) (idx : Z) : option (list Z) :=
  if idx =? kNullHandle then Some []
  else match fuel with
  | O => None
  | S n => cons idx <$> listed st n (t_next (tm st idx))
  end.
Definition fuel : nat := S (Z.to_nat kMaxTimers).
Definition next_expiry_before (limit : Timestamp) st : option Timestamp :=
  let span := i64 (ms_of limit - cur_ms_ st) in
  let steps := if span <? kSlots then span else kSlots - 1 in
  foldr (fun s k best => match listed st fuel (head st (slot_of (i64 (cur_ms_ st + s)))) with Some hs => k (earliest st hs best) | None => None end)
    Some (seqZ 0 (steps + 1)) limit.

(** ** Firing *)

Context {W : Type}.
(** The callback, with the wheel it may change and its own world. *)
Variable f : TimerId -> Z -> TimerWheel -> W -> TimerWheel * W.

Definition fire (idx : Z) (now : Timestamp) st (w : W) : Z * TimerWheel * W :=
  let st := unlink idx (st <| next_stale_ := true |>) in
  let st := st <| firing_ := idx |> in
  let '(st, w) := f (id_of st idx) (t_user_data (tm st idx)) st w in
  let st := st <| firing_ := kNullHandle |> in
  if negb (t_active (tm st idx)) then (1, (release idx st) <| next_stale_ := true |>, w)
  else if t_repeat (tm st idx) then
    let st := upd idx (fun t => t <| t_expiry := i64 (t_expiry t + t_period t) |>) st in
    let st := if t_expiry (tm st idx) <=? now then upd idx (fun t => t <| t_expiry := i64 (now + t_period t) |>) st else st in
    (1, (link idx st) <| next_stale_ := true |>, w)
  else (1, (release idx (upd idx (fun t => t <| t_active := false |>) st)) <| next_stale_ := true |>, w).

Definition fire_recorded (id : TimerId) (user_data : Z) (now : Timestamp) st (w : W) : bool * TimerWheel * W :=
  if negb (active st id) then let '(st, w) := f id user_data st w in (false, st, w)
  else let '(_, st, w) := fire (index_of id) now st w in (true, st, w).

(** The loop of [promote_overflow]. *)
Fixpoint promote (n : nat) (idx min_ms : Z) st : option (Z * TimerWheel) :=
  if idx =? kNullHandle then Some (min_ms, st)
  else match n with
  | O => None
  | S n =>
    let t := tm st idx in
    let ms := ms_of (t_expiry t) in
    if i64 (ms - cur_ms_ st) <? kSlots then promote n (t_next t) min_ms (link idx (unlink idx st))
    else promote n (t_next t) (if ms <? min_ms then ms else min_ms) st
  end.
Definition promote_overflow st : option TimerWheel :=
  '(min_ms, st) ← promote fuel (overflow_ st) never st; Some (st <| overflow_min_ms_ := min_ms |>).

(** The walk along the list of one slot. *)
Fixpoint walk (n : nat) (idx : Z) (now : Timestamp) (fired : Z) st (w : W) : option (Z * TimerWheel * W) :=
  if idx =? kNullHandle then Some (fired, st, w)
  else match n with
  | O => None
  | S n =>
    let st := st <| walk_next_ := t_next (tm st idx) |> in
    let '(k, st, w) := if t_expiry (tm st idx) <=? now then fire idx now st w else (0, st, w) in
    walk n (walk_next_ st) now (u64 (fired + k)) st w
  end.
Fixpoint walk_slots (ss : list Z) (now : Timestamp) (fired : Z) st (w : W) : option (Z * TimerWheel * W) :=
  match ss with
  | [] => Some (fired, st, w)
  | s :: ss => '(fired, st, w) ← walk fuel (head st (slot_of (i64 (cur_ms_ st + s)))) now fired st w; walk_slots ss now fired st w
  end.

Definition poll_due (now : Timestamp) (now_ms : Z) st (w : W) : option (Z * TimerWheel * W) :=
  let st := if kSlots <? i64 (now_ms - cur_ms_ st) then st <| cur_ms_ := i64 (now_ms - kSlots) |> else st in
  st ← (if overflow_min_ms_ st <? i64 (now_ms + kSlots) then promote_overflow st else Some st);
  if negb (next_stale_ st) && (now <? next_ st) then Some (0, st <| cur_ms_ := now_ms |>, w)
  else
    let steps := i64 (now_ms - cur_ms_ st) in
    '(fired, st, w) ← walk_slots (seqZ 0 (steps + 1)) now 0 st w;
    Some (fired, st <| walk_next_ := kNullHandle |> <| cur_ms_ := now_ms |>, w).
Definition poll (now : Timestamp) st (w : W) : option (Z * TimerWheel * W) :=
  let now_ms := ms_of now in
  if now_ms <? cur_ms_ st then Some (0, st, w)
  else if negb (next_stale_ st) && (now <? next_ st) && (i64 (now_ms + kSlots) <=? overflow_min_ms_ st) then Some (0, st <| cur_ms_ := now_ms |>, w)
  else poll_due now now_ms st w.
End wheel.
