(* ===== verification/TimerInv.v ===== *)
(** * TimerInv: the lists of the timer wheel

    Every timer of the pool that is linked is in exactly the list it names, and the lists are doubly linked.  What linking
    and unlinking do to the lists and to the timers; then adding, cancelling and asking for the next expiry. *)

From S2P Require Import Prelude Types Orders Interfaces DList TimerWheel.

#[local] Arguments i64 : simpl never.
#[local] Arguments u64 : simpl never.
#[local] Arguments u32 : simpl never.
#[local] Arguments kNullHandle : simpl never.
#[local] Arguments kOverflow : simpl never.
#[local] Arguments kUnlinked : simpl never.

Definition is_list (k : Z) : Prop := k = kOverflow \/ 0 <= k < kSlots.
Lemma wheel_slot_range ms : 0 <= slot_of ms < kSlots.
Proof. unfold slot_of, kSlots. change (4096 - 1) with (Z.ones 12). rewrite Z.land_ones by lia. apply Z.mod_pos_bound. lia. Qed.
Lemma wheel_slot_mod ms : 0 <= ms < 2 ^ 63 -> slot_of ms = ms mod kSlots.
Proof. intros H. unfold slot_of, kSlots, u64. change (4096 - 1) with (Z.ones 12). rewrite Z.land_ones by lia. rewrite (Z.mod_small ms) by lia. done. Qed.
(** A timer without its links. *)
Definition core (t : Timer) : Timer := t <| t_next := 0 |> <| t_prev := 0 |>.
Definition ins (k x : Z) (L : Z -> list Z) : Z -> list Z := fun j => if decide (j = k) then x :: L k else L j.
Definition del (x : Z) (L : Z -> list Z) : Z -> list Z := fun j => filter (fun y => y <> x) (L j).

Section lists.
Context {P : Type} `{OPO : !ObjPoolOps P Timer} `{OP : !ObjPool P Timer}.
Abbreviation TimerWheel := (TimerWheel P).
Implicit Type st : TimerWheel.

Definition timers st : gmap Z Timer := op_abs (pool_ st).
Definition cores st : gmap Z Timer := core <$> timers st.
Definition nx st (x : Z) : Z := t_next (tm st x).
Definition pv st (x : Z) : Z := t_prev (tm st x).

Record lists_ok st (L : Z -> list Z) : Prop := {
  lo_pool : op_ok (pool_ st);
  lo_seg : forall k, is_list k -> seg (nx st) (pv st) kNullHandle (head st k) (L k);
  lo_nodup : forall k, NoDup (L k);
  lo_mem : forall k x, is_list k -> x ∈ L k <-> exists c, cores st !! x = Some c /\ t_list c = k;
}.

Lemma tm_timers st x t : op_ok (pool_ st) -> timers st !! x = Some t -> tm st x = t.
Proof. intros Hok H. unfold tm. rewrite (op_get_spec _ _ Hok ltac:(by eexists)). unfold timers in H. by rewrite H. Qed.
Lemma core_timers st x c : cores st !! x = Some c -> exists t, timers st !! x = Some t /\ core t = c.
Proof. unfold cores. rewrite lookup_fmap. destruct (timers st !! x) as [t|]; [|done]. intros [= <-]. by exists t. Qed.
Lemma tm_core st x c : op_ok (pool_ st) -> cores st !! x = Some c -> core (tm st x) = c.
Proof. intros Hok (t & Ht & <-)%core_timers. by rewrite (tm_timers st x t). Qed.
Lemma upd_timers st x f t : op_ok (pool_ st) -> timers st !! x = Some t -> op_ok (pool_ (upd x f st)) /\ timers (upd x f st) = <[x := f t]> (timers st).
Proof. intros Hok H. unfold upd, timers. cbn. rewrite (tm_timers st x t Hok H). apply op_set_spec; [done | by eexists]. Qed.
Lemma upd_tm st x f y : op_ok (pool_ st) -> is_Some (timers st !! x) -> is_Some (timers st !! y) -> tm (upd x f st) y = if decide (y = x) then f (tm st x) else tm st y.
Proof.
  intros Hok [t Ht] [u Hu]. destruct (upd_timers st x f t Hok Ht) as [Hok' E]. rewrite (tm_timers st x t), (tm_timers st y u) by done. apply tm_timers; [done|]. rewrite E.
  case_decide; [subst; by rewrite lookup_insert_eq | by rewrite lookup_insert_ne].
Qed.
(** A change of the links alone. *)
Lemma upd_links st x f : op_ok (pool_ st) -> is_Some (timers st !! x) -> (forall t, core (f t) = core t) ->
  op_ok (pool_ (upd x f st)) /\ cores (upd x f st) = cores st /\ forall y, is_Some (timers (upd x f st) !! y) <-> is_Some (timers st !! y).
Proof.
  intros Hok [t Ht] Hf. destruct (upd_timers st x f t Hok Ht) as [Hok' E]. split; [done|]. split.
  - unfold cores. rewrite E, fmap_insert, Hf. rewrite <- fmap_insert. by rewrite insert_id.
  - intros y. rewrite E. destruct (decide (x = y)) as [->|N]; [rewrite lookup_insert_eq; by split; eexists | by rewrite lookup_insert_ne].
Qed.
Lemma upd_core st x f g : op_ok (pool_ st) -> is_Some (timers st !! x) -> (forall t, core (f t) = g (core t)) ->
  op_ok (pool_ (upd x f st)) /\ cores (upd x f st) = <[x := g (core (tm st x))]> (cores st) /\ forall y, is_Some (timers (upd x f st) !! y) <-> is_Some (timers st !! y).
Proof.
  intros Hok [t Ht] Hf. destruct (upd_timers st x f t Hok Ht) as [Hok' E]. split; [done|]. split.
  - unfold cores. by rewrite E, fmap_insert, Hf, (tm_timers st x t).
  - intros y. rewrite E. destruct (decide (x = y)) as [->|N]; [rewrite lookup_insert_eq; by split; eexists | by rewrite lookup_insert_ne].
Qed.
Lemma some_core st x : is_Some (timers st !! x) <-> is_Some (cores st !! x).
Proof. unfold cores. by rewrite lookup_fmap, fmap_is_Some. Qed.
Lemma listed_some st L k x : lists_ok st L -> is_list k -> x ∈ L k -> is_Some (timers st !! x).
Proof. intros H Hk Hx. apply (lo_mem _ _ H) in Hx as (c & Hc & _); [|done]. apply some_core. by eexists. Qed.
Lemma range_not_null st x : op_ok (pool_ st) -> is_Some (timers st !! x) -> 0 <= x < op_cap /\ x <> kNullHandle.
Proof. intros Hok H. pose proof (op_range _ x Hok H). pose proof op_cap_range. lia. Qed.

Lemma head_set k h st j : is_list k -> is_list j -> head (set_head k h st) j = if decide (j = k) then h else head st j.
Proof.
  unfold head, set_head. intros Hk Hj. destruct (Z.eqb_spec k kOverflow) as [->|N].
  - cbn. destruct (Z.eqb_spec j kOverflow) as [->|N']; [by rewrite decide_True | by rewrite decide_False].
  - cbn. destruct (Z.eqb_spec j kOverflow) as [->|N']; [by rewrite decide_False by done|]. destruct (decide (j = k)) as [->|N2]; [by rewrite lookup_insert_eq | by rewrite lookup_insert_ne].
Qed.

(** The fields no list operation changes. *)
Definition same_clock st st' : Prop := gen_ st' = gen_ st /\ cur_ms_ st' = cur_ms_ st /\ firing_ st' = firing_ st /\ next_ st' = next_ st /\ next_stale_ st' = next_stale_ st.
Lemma same_clock_trans st1 st2 st3 : same_clock st1 st2 -> same_clock st2 st3 -> same_clock st1 st3.
Proof. unfold same_clock. intros (? & ? & ? & ? & ?) (? & ? & ? & ? & ?). repeat split; congruence. Qed.
(** The links of a node that may be none. *)
Lemma upd_if st x f : op_ok (pool_ st) -> (x <> kNullHandle -> is_Some (timers st !! x)) -> (forall t, core (f t) = core t) ->
  let st' := if negb (x =? kNullHandle) then upd x f st else st in
  op_ok (pool_ st') /\ cores st' = cores st /\ (forall y, is_Some (timers st' !! y) <-> is_Some (timers st !! y)) /\
  (forall y, is_Some (timers st !! y) -> tm st' y = if decide (y = x) then f (tm st y) else tm st y) /\
  same_clock st st' /\ walk_next_ st' = walk_next_ st /\ overflow_min_ms_ st' = overflow_min_ms_ st /\ forall j, head st' j = head st j.
Proof.
  intros Hok Hx Hf. destruct (Z.eqb_spec x kNullHandle) as [E|N]; cbn [negb].
  - split; [done|]. split; [done|]. split; [done|]. split; [|done]. intros y Hy. rewrite decide_False; [done|]. pose proof (range_not_null st y Hok Hy). lia.
  - destruct (upd_links st x f Hok (Hx N) Hf) as (O2 & C2 & S2). split; [done|]. split; [done|]. split; [done|]. split; [|done]. intros y Hy. rewrite upd_tm by auto. case_decide; [by subst | done].
Qed.
Lemma set_head_frame k h st : let st' := set_head k h st in pool_ st' = pool_ st /\ cores st' = cores st /\ (forall x, tm st' x = tm st x) /\ same_clock st st' /\ walk_next_ st' = walk_next_ st /\ overflow_min_ms_ st' = overflow_min_ms_ st.
Proof. unfold set_head. by destruct (k =? kOverflow). Qed.

(** ** Linking *)

(** The list a timer goes to. *)
Definition dest (cur : Z) (e : Timestamp) : Z :=
  if kSlots <=? i64 (ms_of e - cur) then kOverflow else slot_of (if ms_of e <? cur then cur else ms_of e).
Lemma dest_list cur e : is_list (dest cur e).
Proof. unfold dest, is_list. destruct (_ <=? _); [by left|]. right. apply wheel_slot_range. Qed.

Lemma link_lists st L idx c : lists_ok st L -> cores st !! idx = Some c -> t_list c = kUnlinked ->
  let k := dest (cur_ms_ st) (t_expiry c) in
  lists_ok (link idx st) (ins k idx L) /\ cores (link idx st) = <[idx := c <| t_list := k |>]> (cores st) /\ same_clock st (link idx st) /\
  walk_next_ (link idx st) = walk_next_ st /\ overflow_min_ms_ (link idx st) = if decide (k = kOverflow) then Z.min (overflow_min_ms_ st) (ms_of (t_expiry c)) else overflow_min_ms_ st.
Proof.
  intros H Hc Hu k. pose proof (lo_pool _ _ H) as Hok. destruct (core_timers _ _ _ Hc) as (t & Ht & Ec). assert (Et : tm st idx = t) by by apply tm_timers. assert (Ee : t_expiry t = t_expiry c) by (by rewrite <- Ec).
  assert (Hk : is_list k) by apply dest_list. destruct (range_not_null st idx Hok ltac:(by eexists)) as [_ Hnn].
  assert (Hnot : forall j, is_list j -> idx ∉ L j).
  { intros j Hj Hin. apply (lo_mem _ _ H) in Hin as (c' & Hc' & El); [|done]. rewrite Hc in Hc'. simplify_eq. destruct Hj as [Hj|Hj]; rewrite Hu in Hj; [done|]. unfold kUnlinked, kSlots in Hj. lia. }
  unfold link. rewrite Et, Ee. cbv zeta. set (far := kSlots <=? i64 (ms_of (t_expiry c) - cur_ms_ st)).
  set (st0 := if far && _ then _ else st). assert (Hk0 : (if far then kOverflow else slot_of (if ms_of (t_expiry c) <? cur_ms_ st0 then cur_ms_ st0 else ms_of (t_expiry c))) = k).
  { unfold k, dest. fold far. destruct far; [done|]. unfold st0. done. }
  rewrite Hk0. assert (F0 : pool_ st0 = pool_ st /\ head st0 k = head st k /\ (forall j, head st0 j = head st j) /\ same_clock st st0 /\ walk_next_ st0 = walk_next_ st) by (unfold st0; destruct (far && _); done).
  assert (Fm : overflow_min_ms_ st0 = if decide (k = kOverflow) then Z.min (overflow_min_ms_ st) (ms_of (t_expiry c)) else overflow_min_ms_ st).
  { unfold st0, k, dest. fold far. destruct far; cbn [andb].
    - rewrite decide_True by done. destruct (Z.ltb_spec (ms_of (t_expiry c)) (overflow_min_ms_ st)); cbn; lia.
    - rewrite decide_False; [done|]. intros E. pose proof (wheel_slot_range (if ms_of (t_expiry c) <? cur_ms_ st then cur_ms_ st else ms_of (t_expiry c))) as R. rewrite E in R. unfold kOverflow, kSlots in R. lia. }
  clearbody st0. destruct F0 as (Fp & Fh & Fhs & Fc & Fw). rewrite Fh. set (h := head st k).
  assert (Tm0 : forall x, tm st0 x = tm st x) by (intros; unfold tm; by rewrite Fp). assert (T0 : timers st0 = timers st) by (unfold timers; by rewrite Fp). assert (C0 : cores st0 = cores st) by (unfold cores; by rewrite T0).
  set (f1 := fun t : Timer => t <| t_list := k |> <| t_prev := kNullHandle |> <| t_next := h |>).
  destruct (upd_core st0 idx f1 (fun c => c <| t_list := k |>)) as (Hok1 & C1 & S1); [by rewrite Fp | rewrite T0; by eexists | done|]. rewrite Tm0, Et, Ec, C0 in C1.
  assert (Tm1 : forall y, is_Some (timers st !! y) -> tm (upd idx f1 st0) y = if decide (y = idx) then f1 t else tm st y).
  { intros y Hy. rewrite upd_tm, !Tm0, ?Et; [done | by rewrite Fp | rewrite T0; by eexists | by rewrite T0]. }
  set (st1 := upd idx f1 st0) in *. assert (F1 : same_clock st st1 /\ walk_next_ st1 = walk_next_ st /\ overflow_min_ms_ st1 = overflow_min_ms_ st0 /\ forall j, head st1 j = head st j) by done. clearbody st1.
  assert (Eh : h = first (L k)) by (eapply seg_first, (lo_seg _ _ H); done).
  set (f2 := fun t : Timer => t <| t_prev := idx |>). set (st2 := if negb (h =? kNullHandle) then upd h f2 st1 else st1).
  assert (Hh : h <> kNullHandle -> is_Some (timers st !! h) /\ h <> idx /\ h ∈ L k).
  { intros N. rewrite Eh in *. destruct (L k) as [|y l] eqn:El; [done|]. cbn [first] in *. assert (Hy : y ∈ L k) by (rewrite El; by constructor). split; [by apply (listed_some st L k)|]. split; [intros ->; by apply (Hnot k) | by constructor]. }
  destruct (upd_if st1 h f2 Hok1) as (Hok2 & C2 & _ & Tm2 & Fc2 & Fw2 & Fm2 & Fh2); [intros N; apply S1; rewrite T0; by apply Hh | done|]. fold st2 in Hok2, C2, Tm2, Fc2, Fw2, Fm2, Fh2. clearbody st2. rewrite C1 in C2.
  assert (Tm2' : forall y, is_Some (timers st !! y) -> tm st2 y = let u := if decide (y = idx) then f1 t else tm st y in if decide (y = h) then f2 u else u).
  { intros y Hy. rewrite Tm2, Tm1 by (try apply S1; by rewrite ?T0). done. }
  destruct (set_head_frame k idx st2) as (Fp3 & C3 & Tm3 & Fc3 & Fw3 & Fm3). destruct F1 as (Fc1 & Fw1 & Fm1 & Fh1).
  rewrite C3, C2, Fm3, Fm2, Fm1, Fw3, Fw2, Fw1. split; [|split; [done|split; [|done]]].
  2: { by do 2 (eapply same_clock_trans; [eassumption|]). }
  constructor.
  - by rewrite Fp3.
  - intros j Hj. rewrite head_set by done. unfold ins. destruct (decide (j = k)) as [->|Nj].
    + apply (seg_push (nx st) (pv st) _ _ h); [done | by apply Hnot | apply (lo_nodup _ _ H) | by apply (lo_seg _ _ H) | | | |].
      * unfold nx. rewrite Tm3, Tm2' by (by eexists). cbv zeta. rewrite (decide_True (P := idx = idx)) by done. by destruct (decide (idx = h)).
      * unfold pv. rewrite Tm3, Tm2' by (by eexists). cbv zeta. rewrite (decide_True (P := idx = idx)) by done. destruct (decide (idx = h)) as [E|E]; [|done]. destruct (Hh ltac:(congruence)) as (_ & ? & _). congruence.
      * destruct (decide (h = kNullHandle)) as [E|E]; [done|]. destruct (Hh E) as (Hs & Nh & _). unfold pv. rewrite Tm3, Tm2' by done. cbv zeta. by rewrite (decide_True (P := h = h)).
      * intros y Hy. pose proof (listed_some _ _ _ _ H Hk Hy) as Hs. assert (Ny : y <> idx) by (intros ->; by apply (Hnot k)). unfold nx, pv. rewrite Tm3, Tm2' by done. cbv zeta. rewrite (decide_False (P := y = idx)) by done. by destruct (decide (y = h)).
    + rewrite Fh2, Fh1. apply (dseg_ext (nx st) (pv st)); [|by apply (lo_seg _ _ H)]. intros y Hy. pose proof (listed_some _ _ _ _ H Hj Hy) as Hs. assert (Ny : y <> idx) by (intros ->; by apply (Hnot j)).
      assert (Nh : y <> h). { intros ->. destruct (range_not_null st h Hok Hs) as [_ Nn]. destruct (Hh Nn) as (_ & _ & Hin). apply (lo_mem _ _ H) in Hin as (c1 & E1 & El1); [|done]. apply (lo_mem _ _ H) in Hy as (c2 & E2 & El2); [|done]. rewrite E1 in E2. simplify_eq. }
      unfold nx, pv. rewrite Tm3, Tm2' by done. cbv zeta. by rewrite !decide_False.
  - intros j. unfold ins. destruct (decide (j = k)); [|apply (lo_nodup _ _ H)]. constructor; [by apply Hnot | apply (lo_nodup _ _ H)].
  - intros j x Hj. rewrite C3, C2. unfold ins. destruct (decide (x = idx)) as [->|Nx].
    + rewrite lookup_insert_eq. split.
      * destruct (decide (j = k)) as [->|E]; [intros _; by eexists|]. by intros ?%Hnot.
      * intros (c' & [= <-] & El). cbn in El. rewrite decide_True by done. by constructor.
    + rewrite lookup_insert_ne by done. rewrite <- (lo_mem _ _ H) by done. destruct (decide (j = k)) as [->|E]; [rewrite elem_of_cons|done]. naive_solver.
Qed.

(** ** Unlinking *)

Lemma del_other (x : Z) (l : list Z) : x ∉ l -> filter (fun y => y <> x) l = l.
Proof.
  induction l as [|y l IH]; [done|]. intros Hx. rewrite filter_cons_True by (intros ->; apply Hx; by constructor). f_equal. apply IH. intros ?. apply Hx. by right.
Qed.
Lemma del_split (x : Z) (l1 l2 : list Z) : NoDup (l1 ++ x :: l2) -> filter (fun y => y <> x) (l1 ++ x :: l2) = l1 ++ l2.
Proof.
  intros Hd. apply NoDup_app in Hd as (H1 & H12 & H2). inversion H2 as [|? ? Hx H2']; subst. rewrite filter_app, filter_cons_False by (intros N; by apply N).
  rewrite !del_other; [done | done|]. intros Hx1. apply (H12 x Hx1). by constructor.
Qed.

(** What unlinking writes. *)
Lemma unlink_effect st L idx c k l1 l2 : lists_ok st L -> cores st !! idx = Some c -> t_list c = k -> is_list k -> L k = l1 ++ idx :: l2 ->
  let st' := unlink idx st in let p := default kNullHandle (last l1) in let n := first l2 in
  op_ok (pool_ st') /\ cores st' = <[idx := c <| t_list := kUnlinked |>]> (cores st) /\ same_clock st st' /\
  walk_next_ st' = (if decide (idx = walk_next_ st) then n else walk_next_ st) /\ overflow_min_ms_ st' = overflow_min_ms_ st /\
  (forall j, is_list j -> head st' j = if decide (l1 = []) then (if decide (j = k) then n else head st j) else head st j) /\
  (forall y, is_Some (timers st !! y) -> nx st' y = (if decide (y = p) then n else nx st y) /\ pv st' y = if decide (y = n) then p else pv st y) /\
  nx st idx = n /\ pv st idx = p /\ (p <> kNullHandle -> p ∈ l1) /\ (n <> kNullHandle -> n ∈ l2).
Proof.
  intros H Hc Hl Hk EL. cbv zeta. pose proof (lo_pool _ _ H) as Hok. destruct (core_timers _ _ _ Hc) as (t & Ht & Ec). assert (Et : tm st idx = t) by by apply tm_timers. assert (El : t_list t = k) by (by rewrite <- Hl, <- Ec).
  pose proof (lo_seg _ _ H k Hk) as Hseg. rewrite EL in Hseg. destruct (seg_at _ _ _ _ _ _ _ Hseg) as (En & Ep & Hnn). unfold nx, pv in En, Ep. rewrite Et in En, Ep.
  pose proof (lo_nodup _ _ H k) as Hd. rewrite EL in Hd. assert (Hsome : forall y, y ∈ l1 ++ idx :: l2 -> is_Some (timers st !! y)) by (intros y Hy; apply (listed_some st L k); [done | done | by rewrite EL]).
  unfold unlink. rewrite Et, El, Ep, En. replace (k =? kUnlinked) with false by (destruct Hk as [->|Hk]; [done|]; unfold kSlots, kUnlinked in *; lia). cbv zeta.
  set (st0 := if idx =? walk_next_ st then _ else st). assert (F0 : pool_ st0 = pool_ st /\ same_clock st st0 /\ overflow_min_ms_ st0 = overflow_min_ms_ st /\ forall j, head st0 j = head st j) by (unfold st0; by destruct (idx =? _)).
  assert (Fw0 : walk_next_ st0 = if decide (idx = walk_next_ st) then first l2 else walk_next_ st) by (unfold st0; destruct (Z.eqb_spec idx (walk_next_ st)); case_decide; done). clearbody st0. destruct F0 as (Fp0 & Fc0 & Fm0 & Fh0).
  assert (T0 : timers st0 = timers st) by (unfold timers; by rewrite Fp0). assert (Tm0 : forall y, tm st0 y = tm st y) by (intros; unfold tm; by rewrite Fp0). assert (C0 : cores st0 = cores st) by (unfold cores; by rewrite T0).
  set (p := default kNullHandle (last l1)). set (n := first l2). assert (X1 : nx st idx = n) by (unfold nx; by rewrite Et). assert (X2 : pv st idx = p) by (unfold pv; by rewrite Et). set (f1 := fun x : Timer => x <| t_next := n |>). set (f2 := fun x : Timer => x <| t_prev := p |>).
  assert (Hp : p <> kNullHandle -> p ∈ l1) by (unfold p; destruct (last l1) eqn:E; [intros _; by apply last_Some_elem_of | done]).
  assert (Hn : n <> kNullHandle -> n ∈ l2) by (unfold n; destruct l2; [done | intros _; by constructor]).
  assert (Hpn : p = kNullHandle <-> l1 = []).
  { unfold p. destruct (last l1) eqn:E; [|apply last_None in E; by subst]. split; [|by intros ->]. cbn. intros ->. destruct (range_not_null st kNullHandle Hok) as [_ ?]; [|done]. apply Hsome, elem_of_app. left. by apply last_Some_elem_of. }
  set (st1 := if negb (p =? kNullHandle) then upd p f1 st0 else set_head k n st0).
  assert (F1 : op_ok (pool_ st1) /\ cores st1 = cores st /\ (forall y, is_Some (timers st1 !! y) <-> is_Some (timers st !! y)) /\ (forall y, is_Some (timers st !! y) -> tm st1 y = if decide (y = p) then f1 (tm st y) else tm st y) /\
    same_clock st st1 /\ walk_next_ st1 = walk_next_ st0 /\ overflow_min_ms_ st1 = overflow_min_ms_ st /\ forall j, is_list j -> head st1 j = if decide (l1 = []) then (if decide (j = k) then n else head st j) else head st j).
  { destruct (decide (l1 = [])) as [E|E].
    - unfold st1. pose proof (proj2 Hpn E) as Ep0. replace (p =? kNullHandle) with true by lia. cbn [negb]. destruct (set_head_frame k n st0) as (G1 & G2 & G3 & G4 & G5 & G6). rewrite G1, G2, G5, G6, Fp0, C0. split; [done|]. split; [done|]. unfold timers. rewrite G1. fold (timers st0). rewrite T0. split; [done|].
      split; [|split; [by eapply same_clock_trans|split; [done|split; [done|]]]].
      + intros y Hy. rewrite G3, Tm0, decide_False; [done|]. pose proof (range_not_null st y Hok Hy). congruence || lia.
      + intros j Hj. rewrite head_set, Fh0 by done. done.
    - assert (Np : p <> kNullHandle) by tauto. destruct (upd_if st0 p f1) as (O & C & S & T & G1 & G2 & G3 & G4); [by rewrite Fp0 | intros _; rewrite T0; apply Hsome, elem_of_app; left; by apply Hp | done|].
      rewrite C0 in C. rewrite T0 in S, T. unfold st1. replace (p =? kNullHandle) with false in * by lia. cbn [negb] in *. split; [done|]. split; [done|]. split; [done|]. split; [intros y Hy; by rewrite T, Tm0|].
      split; [by eapply same_clock_trans|]. split; [done|]. split; [congruence|]. intros j Hj. by rewrite G4, Fh0. }
  clearbody st1. destruct F1 as (O1 & C1 & S1 & Tm1 & Fc1 & Fw1 & Fm1 & Fh1). set (st2 := if negb (n =? kNullHandle) then upd n f2 st1 else st1).
  destruct (upd_if st1 n f2 O1) as (O2 & C2 & S2 & Tm2 & Fc2 & Fw2 & Fm2 & Fh2); [intros N; apply S1, Hsome, elem_of_app; right; right; by apply Hn | done|]. fold st2 in O2, C2, S2, Tm2, Fc2, Fw2, Fm2, Fh2. clearbody st2.
  assert (Si : is_Some (timers st2 !! idx)) by (apply S2, S1; by eexists).
  destruct (upd_core st2 idx (fun x => x <| t_list := kUnlinked |>) (fun x => x <| t_list := kUnlinked |>) O2 Si ltac:(done)) as (O3 & C3 & S3).
  assert (Eci : core (tm st2 idx) = c) by (apply tm_core; [done|]; by rewrite C2, C1). rewrite Eci, C2, C1 in C3.
  assert (Tm3 : forall y, is_Some (timers st !! y) -> nx (upd idx (fun x => x <| t_list := kUnlinked |>) st2) y = (if decide (y = p) then n else nx st y) /\ pv (upd idx (fun x => x <| t_list := kUnlinked |>) st2) y = if decide (y = n) then p else pv st y).
  { intros y Hy. assert (Sy : is_Some (timers st1 !! y)) by by apply S1. unfold nx, pv. rewrite !upd_tm by (try done; by apply S2). assert (E2 : tm st2 y = if decide (y = n) then f2 (if decide (y = p) then f1 (tm st y) else tm st y) else if decide (y = p) then f1 (tm st y) else tm st y) by (rewrite Tm2, Tm1 by done; done).
    destruct (decide (y = idx)) as [->|_]; cbn [t_next t_prev]; rewrite E2; destruct (decide (_ = n)), (decide (_ = p)); done. }
  set (st3 := upd idx _ st2) in *. assert (F3 : same_clock st2 st3 /\ walk_next_ st3 = walk_next_ st2 /\ overflow_min_ms_ st3 = overflow_min_ms_ st2 /\ forall j, head st3 j = head st2 j) by done. clearbody st3. destruct F3 as (Fc3 & Fw3 & Fm3 & Fh3).
  split; [done|]. split; [done|]. split; [by do 2 (eapply same_clock_trans; [eassumption|])|]. split; [by rewrite Fw3, Fw2, Fw1, Fw0|]. split; [congruence|].
  split; [intros j Hj; by rewrite Fh3, Fh2, Fh1|]. done.
Qed.
Lemma unlink_lists st L idx c k l1 l2 : lists_ok st L -> cores st !! idx = Some c -> t_list c = k -> is_list k -> L k = l1 ++ idx :: l2 ->
  lists_ok (unlink idx st) (del idx L) /\ cores (unlink idx st) = <[idx := c <| t_list := kUnlinked |>]> (cores st) /\ same_clock st (unlink idx st) /\
  walk_next_ (unlink idx st) = (if decide (idx = walk_next_ st) then first l2 else walk_next_ st) /\ overflow_min_ms_ (unlink idx st) = overflow_min_ms_ st.
Proof.
  intros H Hc Hl Hk EL. destruct (unlink_effect st L idx c k l1 l2 H Hc Hl Hk EL) as (O3 & C3 & Fc & Fw & Fm & Fh & Tm3 & X1 & X2 & Hp & Hn). split; [|done].
  pose proof (lo_pool _ _ H) as Hok. pose proof (lo_nodup _ _ H k) as Hd. pose proof (lo_seg _ _ H k Hk) as Hseg. rewrite EL in Hd, Hseg.
  assert (Hsome : forall y, y ∈ l1 ++ idx :: l2 -> is_Some (timers st !! y)) by (intros y Hy; apply (listed_some st L k); [done | done | by rewrite EL]).
  set (p := default kNullHandle (last l1)) in *. set (n := first l2) in *. set (st3 := unlink idx st) in *. clearbody st3 p n.
  assert (Hdis : forall j x, is_list j -> j <> k -> x ∈ L j -> x ∉ l1 ++ idx :: l2).
  { intros j x Hj N Hx Hx'. rewrite <- EL in Hx'. apply (lo_mem _ _ H) in Hx as (c1 & E1 & El1); [|done]. apply (lo_mem _ _ H) in Hx' as (c2 & E2 & El2); [|done]. rewrite E1 in E2. simplify_eq. }
  constructor.
  - done.
  - intros j Hj. rewrite Fh by done. unfold del. destruct (decide (j = k)) as [->|Nj].
    + rewrite EL, del_split by done.
      apply NoDup_app in Hd as Hd'. destruct Hd' as (Hd1 & Hd12 & Hd2).
      pose proof (seg_remove (nx st) (pv st) (nx st3) (pv st3) kNullHandle (head st k) l1 idx l2 Hd) as HR. rewrite X1, X2 in HR.
      apply HR; [| done | |].
      * intros Hx. pose proof (range_not_null st kNullHandle Hok (Hsome _ Hx)). tauto.
      * intros y Hy. destruct (Tm3 y ltac:(apply Hsome, elem_of_app; by left)) as [A B]. split; [|done]. rewrite B, decide_False; [done|]. intros ->. destruct (Hd12 n Hy). right. apply Hn. apply (range_not_null st n Hok). apply Hsome, elem_of_app. by left.
      * intros y Hy. destruct (Tm3 y ltac:(apply Hsome, elem_of_app; right; by right)) as [A B]. split; [|done]. rewrite A, decide_False; [done|]. intros ->. assert (Hpl : p ∈ l1) by (apply Hp; apply (range_not_null st p Hok); apply Hsome, elem_of_app; right; by right). apply (Hd12 p Hpl). by right.
    + assert (Hx : idx ∉ L j) by (intros Hx; apply (Hdis j idx Hj Nj Hx), elem_of_app; right; by constructor). rewrite del_other by done.
      replace (if decide (l1 = []) then head st j else head st j) with (head st j) by by destruct (decide (l1 = [])). apply (dseg_ext (nx st) (pv st)); [|by apply (lo_seg _ _ H)].
      intros y Hy. pose proof (Hdis j y Hj Nj Hy) as Hy'. destruct (Tm3 y (listed_some _ _ _ _ H Hj Hy)) as [A B]. pose proof (range_not_null st y Hok (listed_some _ _ _ _ H Hj Hy)) as [_ Ny].
      rewrite A, B. split; rewrite decide_False; try done; intros ->; apply Hy', elem_of_app; [left; by apply Hp | right; right; by apply Hn].
  - intros j. apply NoDup_filter, (lo_nodup _ _ H).
  - intros j x Hj. rewrite C3. unfold del. rewrite list_elem_of_filter. destruct (decide (x = idx)) as [->|Nx].
    + rewrite lookup_insert_eq. split; [tauto|]. intros (c' & [= <-] & E). cbn in E. subst j. destruct Hj as [Hj|Hj]; [done|]. unfold kUnlinked, kSlots in Hj. lia.
    + rewrite lookup_insert_ne by done. rewrite <- (lo_mem _ _ H) by done. tauto.
Qed.
End lists.
