(* ===== verification/TimerOps.v ===== *)
(** * TimerOps: the invariant of the timer wheel

    Every timer in the pool is active and in the list it names, but for the one whose callback runs; the earliest expiry and
    the bound of the overflow list are what they claim.  Adding, cancelling and asking keep it, also from a callback. *)

From S2P Require Import Prelude Types Orders Interfaces DList TimerWheel TimerInv.

#[local] Arguments i64 : simpl never.
#[local] Arguments u64 : simpl never.
#[local] Arguments u32 : simpl never.
#[local] Arguments kNullHandle : simpl never.
#[local] Arguments kOverflow : simpl never.
#[local] Arguments kUnlinked : simpl never.

(** Times stay below 2^62 nanoseconds, some 146 years. *)
Definition t_range (c : Timer) : Prop := 0 <= t_expiry c < 2 ^ 62 /\ 0 <= t_period c < 2 ^ 61 /\ (t_repeat c = true -> kSlotNs <= t_period c).
Lemma ms_bounds e : 0 <= e < 2 ^ 62 -> 0 <= ms_of e < 2 ^ 43 /\ ms_of e * kSlotNs <= e < (ms_of e + 1) * kSlotNs.
Proof. intros H. unfold ms_of, kSlotNs in *. rewrite Z.quot_div_nonneg by lia. pose proof (Z.div_mod e 1000000 ltac:(lia)). pose proof (Z.mod_pos_bound e 1000000 ltac:(lia)). lia. Qed.
Lemma ms_mono a b : 0 <= a <= b -> ms_of a <= ms_of b.
Proof. intros H. unfold ms_of, kSlotNs. rewrite !Z.quot_div_nonneg by lia. apply Z.div_le_mono; lia. Qed.

Section ops.
Context {P : Type} `{OPO : !ObjPoolOps P Timer} `{OP : !ObjPool P Timer} (kMaxTimers : Z).
Abbreviation TimerWheel := (TimerWheel P).
Implicit Type st : TimerWheel.

Record wok st (L : Z -> list Z) : Prop := {
  w_lists : lists_ok st L;
  w_linked : forall x c, cores st !! x = Some c -> x <> firing_ st -> t_active c = true /\ is_list (t_list c);
  w_firing : firing_ st <> kNullHandle -> exists c, cores st !! firing_ st = Some c /\ t_list c = kUnlinked;
  w_over : forall x c, cores st !! x = Some c -> t_list c = kOverflow -> overflow_min_ms_ st <= ms_of (t_expiry c);
  w_next : next_stale_ st = false -> forall x c, cores st !! x = Some c -> t_active c = true -> next_ st <= t_expiry c;
  w_least : next_stale_ st = false -> next_ st = i64_max \/ exists x c, cores st !! x = Some c /\ t_active c = true /\ t_expiry c = next_ st;
  w_range : forall x c, cores st !! x = Some c -> t_range c;
  w_cur : 0 <= cur_ms_ st < 2 ^ 43;
  w_gen : forall x, 0 <= gen st x < kGenerations kMaxTimers;
}.

(** A timer where the cursor at [cur] finds it. *)
Definition placed (cur : Z) (c : Timer) : Prop :=
  t_list c = kOverflow \/ (t_list c = slot_of (Z.max (ms_of (t_expiry c)) cur) /\ ms_of (t_expiry c) < cur + kSlots).
Lemma dest_spec cur e : 0 <= cur < 2 ^ 43 -> 0 <= e < 2 ^ 62 ->
  dest cur e = if decide (cur + kSlots <= ms_of e) then kOverflow else slot_of (Z.max (ms_of e) cur).
Proof.
  intros Hc He. destruct (ms_bounds e He) as [Hm _]. unfold dest. rewrite i64_id by (unfold in_i64, i64_min, i64_max; lia). destruct (Z.leb_spec kSlots (ms_of e - cur)); [by rewrite decide_True by lia|].
  rewrite decide_False by lia. f_equal. destruct (Z.ltb_spec (ms_of e) cur); lia.
Qed.
Lemma dest_placed cur e c : 0 <= cur < 2 ^ 43 -> 0 <= e < 2 ^ 62 -> t_expiry c = e -> t_list c = dest cur e -> placed cur c.
Proof. intros Hc He <- El. rewrite dest_spec in El by done. unfold placed. case_decide; [by left|]. right. split; [done | lia]. Qed.
Lemma not_overflow ms : slot_of ms <> kOverflow.
Proof. pose proof (wheel_slot_range ms). unfold kOverflow, kSlots in *. lia. Qed.

Lemma tm_fields st x c : op_ok (pool_ st) -> cores st !! x = Some c ->
  t_expiry (tm st x) = t_expiry c /\ t_period (tm st x) = t_period c /\ t_user_data (tm st x) = t_user_data c /\ t_list (tm st x) = t_list c /\ t_repeat (tm st x) = t_repeat c /\ t_active (tm st x) = t_active c.
Proof. intros Hok Hc. by rewrite <- (tm_core st x c Hok Hc). Qed.

(** ** Releasing *)

Lemma release_lists st L x : lists_ok st L -> is_Some (cores st !! x) -> (forall k, is_list k -> x ∉ L k) -> lists_ok (release kMaxTimers x st) L /\ cores (release kMaxTimers x st) = delete x (cores st).
Proof.
  intros H Hx Hn. pose proof (lo_pool _ _ H) as Hok. destruct (op_free_spec _ x Hok ltac:(by apply some_core)) as [Hok' E]. set (st' := release kMaxTimers x st).
  assert (Ec : cores st' = delete x (cores st)) by (unfold cores, timers; cbn; by rewrite E, fmap_delete).
  assert (Tm : forall y, y <> x -> is_Some (timers st !! y) -> tm st' y = tm st y).
  { intros y N [t Ht]. rewrite (tm_timers st y t) by done. apply tm_timers; [done|]. unfold timers. cbn. rewrite E. by rewrite lookup_delete_ne. }
  split; [|done]. constructor; [done | | apply H |].
  - intros k Hk. apply (dseg_ext (nx st) (pv st)); [|by apply (lo_seg _ _ H)]. intros y Hy. assert (y <> x) by (intros ->; by apply (Hn k)). unfold nx, pv. rewrite Tm; [done | done | by apply (listed_some st L k)].
  - intros k y Hk. rewrite Ec, (lo_mem _ _ H) by done. split; intros (c & Hc & El); exists c; (split; [|done]).
    + rewrite lookup_delete_ne; [done|]. intros ->. apply (Hn k Hk), (lo_mem _ _ H); [done|]. by exists c.
    + by apply lookup_delete_Some in Hc as [_ ?].
Qed.

Lemma generations_pos : 0 < kMaxTimers <= 2 ^ 24 -> 0 < kGenerations kMaxTimers < 2 ^ 32.
Proof.
  intros H. unfold kGenerations. assert (Hb : 0 <= kIndexBits kMaxTimers <= 24).
  { unfold kIndexBits. destruct (Z.eqb_spec (kMaxTimers - 1) 0); [lia|]. pose proof (Z.log2_nonneg (kMaxTimers - 1)). assert (Z.log2 (kMaxTimers - 1) < 24) by (apply Z.log2_lt_pow2; lia). lia. }
  rewrite Z.shiftr_div_pow2 by lia. pose proof (Z.pow_le_mono_r 2 _ 24 ltac:(lia) (proj2 Hb)). pose proof (Z.pow_pos_nonneg 2 (kIndexBits kMaxTimers) ltac:(lia) (proj1 Hb)).
  split; [apply Z.div_str_pos; lia|]. apply Z.div_lt_upper_bound; lia.
Qed.
Context (Hmax : 0 < kMaxTimers <= 2 ^ 24).
Lemma release_gen h st : (forall x, 0 <= gen st x < kGenerations kMaxTimers) -> forall x, 0 <= gen (release kMaxTimers h st) x < kGenerations kMaxTimers.
Proof.
  intros Hg x. pose proof (generations_pos Hmax). set (g := if u32 (gen st h + 1) =? kGenerations kMaxTimers then 0 else u32 (gen st h + 1)).
  assert (E : gen (release kMaxTimers h st) x = if decide (x = h) then g else gen st x) by (unfold gen; cbn; case_decide; [subst; by rewrite lookup_insert_eq | by rewrite lookup_insert_ne]).
  rewrite E. case_decide; [|apply Hg]. unfold g. pose proof (Hg h). unfold u32. rewrite Z.mod_small by lia. destruct (Z.eqb_spec (gen st h + 1) (kGenerations kMaxTimers)); lia.
Qed.

(** ** Adding *)

Lemma fresh_lists st L h pool t : lists_ok st L -> op_abs (pool_ st) !! h = None -> op_ok (op_set pool h t) -> op_abs (op_set pool h t) = <[h := t]> (op_abs (pool_ st)) -> t_list t = kUnlinked ->
  let st1 := st <| pool_ := op_set pool h t |> in lists_ok st1 L /\ cores st1 = <[h := core t]> (cores st) /\ cores st !! h = None.
Proof.
  intros A1 Hnone Hok1 E1 Hu st1. assert (C1 : cores st1 = <[h := core t]> (cores st)) by (unfold cores, timers, st1; cbn; by rewrite E1, fmap_insert).
  assert (Hnc : cores st !! h = None) by (unfold cores, timers; by rewrite lookup_fmap, Hnone). split; [|done].
  assert (Tm : forall y, is_Some (timers st !! y) -> tm st1 y = tm st y).
  { intros y [u Hu']. rewrite (tm_timers st y u) by (try apply A1; done). apply tm_timers; [done|]. unfold timers, st1. cbn. rewrite E1, lookup_insert_ne; [done|]. intros ->. unfold timers in Hu'. by rewrite Hnone in Hu'. }
  constructor; [done | | apply A1 |].
  - intros k Hk. apply (dseg_ext (nx st) (pv st)); [|by apply (lo_seg _ _ A1)]. intros y Hy. unfold nx, pv. rewrite Tm; [done | by apply (listed_some st L k)].
  - intros k y Hk. rewrite C1, (lo_mem _ _ A1) by done. split; intros (c & Hc & El); exists c; (split; [|done]).
    + rewrite lookup_insert_ne; [done|]. intros ->. by rewrite Hnc in Hc.
    + apply lookup_insert_Some in Hc as [[<- <-]|[_ Hc]]; [|done]. change (t_list (core t)) with (t_list t) in El. rewrite Hu in El. subst k. destruct Hk as [Hk|Hk]; [done|]. unfold kUnlinked, kSlots in Hk. lia.
Qed.
Lemma add_ok now period repeat ud st L id st' : wok st L -> 0 <= now -> 0 <= period < 2 ^ 61 -> now + period < 2 ^ 62 -> add kMaxTimers now period repeat ud st = (id, st') ->
  (st' = st /\ id = kInvalidTimer /\ Z.of_nat (size (cores st)) = op_cap) \/
  exists h c, cores st !! h = None /\ cores st' = <[h := c]> (cores st) /\ t_expiry c = now + period /\ t_list c = dest (cur_ms_ st) (now + period) /\ t_active c = true /\
    t_user_data c = ud /\ t_repeat c = repeat /\ wok st' (ins (t_list c) h L) /\ cur_ms_ st' = cur_ms_ st /\ firing_ st' = firing_ st /\ walk_next_ st' = walk_next_ st /\ gen_ st' = gen_ st /\ id = id_of kMaxTimers st' h.
Proof.
  intros [A1 A2 A3 A4 A5 A6 A7 A8 A9] Hn Hp Hr. unfold add. destruct (op_allocate (pool_ st)) as [h pool] eqn:Ea. destruct (handle_valid h) eqn:Ev; cbn [negb].
  2: { intros [= <- <-]. left. split; [done|]. split; [done|]. unfold cores, timers. rewrite map_size_fmap. unfold handle_valid in Ev. assert (h = kNullHandle) as -> by lia. by apply (op_allocate_null _ pool (lo_pool _ _ A1)). }
  assert (Nh : h <> kNullHandle) by (unfold handle_valid in Ev; lia). pose proof (lo_pool _ _ A1) as Hok. destruct (op_allocate_some _ _ _ Hok Ea Nh) as (Hrng & Hnone & Hset & _).
  assert (Ei : i64 (now + period) = now + period) by (apply i64_id; unfold in_i64, i64_min, i64_max; lia). cbv zeta. rewrite Ei. set (e := now + period) in *.
  set (t := mkTimer _ _ _ _ _ _ _ _). intros H. destruct (Hset t) as [Hok1 E1]. set (st1 := st <| pool_ := op_set pool h t |>) in H.
  destruct (fresh_lists st L h pool t A1 Hnone Hok1 E1 eq_refl) as (L1 & C1 & Hnc). fold st1 in L1, C1.
  destruct (link_lists st1 L h (core t) L1) as (L2 & C2 & Fc & Fw & Fm); [by rewrite C1, lookup_insert_eq | done|]. cbn [t_expiry core] in L2, C2, Fm. change (t_expiry (core t)) with e in *.
  change (cur_ms_ st1) with (cur_ms_ st) in *. set (k := dest (cur_ms_ st) e) in *. rewrite C1, insert_insert_eq in C2. set (c := core t <| t_list := k |>) in *.
  destruct Fc as (Fg & Fcur & Ff & Fn & Fs). set (st2 := link h st1) in *. clearbody st2. change (walk_next_ st1) with (walk_next_ st) in Fw. change (firing_ st1) with (firing_ st) in Ff. change (next_ st1) with (next_ st) in Fn. change (next_stale_ st1) with (next_stale_ st) in Fs. change (overflow_min_ms_ st1) with (overflow_min_ms_ st) in Fm. change (gen_ st1) with (gen_ st) in Fg.
  set (st3 := if e <? next_ st2 then st2 <| next_ := e |> else st2) in H. assert (F3 : pool_ st3 = pool_ st2 /\ (forall j, head st3 j = head st2 j) /\ cores st3 = cores st2 /\ (forall y, tm st3 y = tm st2 y) /\ cur_ms_ st3 = cur_ms_ st2 /\ firing_ st3 = firing_ st2 /\ walk_next_ st3 = walk_next_ st2 /\
    next_stale_ st3 = next_stale_ st2 /\ overflow_min_ms_ st3 = overflow_min_ms_ st2 /\ gen_ st3 = gen_ st2) by (unfold st3; by destruct (e <? next_ st2)).
  assert (Fn3 : next_ st3 = Z.min e (next_ st)) by (unfold st3; rewrite Fn; destruct (Z.ltb_spec e (next_ st)); cbn; lia). clearbody st3. destruct F3 as (G1 & G2 & G3 & G4 & G5 & G6 & G7 & G8 & G9 & G10).
  injection H as <- <-. right. exists h, c. assert (Nf : h <> firing_ st).
  { intros ->. destruct A3 as (c' & Hc' & _); [done|]. by rewrite Hnc in Hc'. }
  assert (Hold : forall x c', cores st3 !! x = Some c' -> (x = h /\ c' = c) \/ (x <> h /\ cores st !! x = Some c')) by (intros x c'; rewrite G3, C2; intros [[<- <-]|[? ?]]%lookup_insert_Some; [by left | by right]).
  split; [done|]. split; [by rewrite G3, C2|]. do 5 (split; [done|]). split; [|rewrite G5, G6, G7, G10, Fcur, Ff, Fw, Fg; done]. constructor.
  - destruct L2 as [B1 B2 B3 B4]. constructor; [by rewrite G1 | | done | intros; rewrite G3; by apply B4]. intros j Hj. rewrite G2. apply (dseg_ext (nx st2) (pv st2)); [|by apply B2]. intros y _. unfold nx, pv. by rewrite G4.
  - intros x c' [[-> ->]|[N Hc]]%Hold Hx; [split; [done | apply dest_list] | apply (A2 x); [done | congruence]].
  - intros Nn. rewrite G6, Ff in *. destruct (A3 Nn) as (c' & Hc' & El). exists c'. rewrite G3, C2, lookup_insert_ne by done. done.
  - intros x c' [[-> ->]|[N Hc]]%Hold Hl; rewrite G9, Fm.
    + cbn in Hl. rewrite decide_True by done. cbn. lia.
    + pose proof (A4 x c' Hc Hl). case_decide; lia.
  - rewrite G8, Fs. intros Hst x c' [[-> ->]|[N Hc]]%Hold Ha; rewrite Fn3; [cbn; lia|]. pose proof (A5 Hst x c' Hc Ha). lia.
  - rewrite G8, Fs, Fn3. intros Hst. destruct (Z.le_gt_cases (next_ st) e) as [Hle|Hgt].
    + rewrite Z.min_r by done. destruct (A6 Hst) as [?|(x & c' & Hc & Ha & He)]; [by left|]. right. exists x, c'. rewrite G3, C2, lookup_insert_ne; [done|]. intros ->. by rewrite Hnc in Hc.
    + rewrite Z.min_l by lia. right. exists h, c. by rewrite G3, C2, lookup_insert_eq.
  - intros x c' [[-> ->]|[N Hc]]%Hold; [|by apply (A7 x)]. unfold t_range. cbn. split; [lia|]. split; [destruct (_ && _); unfold kSlotNs; lia|]. intros ->. rewrite andb_true_r. destruct (Z.ltb_spec period kSlotNs); lia.
  - by rewrite G5, Fcur.
  - intros x. unfold gen. rewrite G10, Fg. apply A9.
Qed.

(** ** Cancelling *)

Definition dom_range st x : is_Some (cores st !! x) -> op_ok (pool_ st) -> 0 <= x < op_cap /\ x <> kNullHandle := fun H Hok => range_not_null st x Hok (proj2 (some_core st x) H).
Lemma live_some st id : op_ok (pool_ st) -> 0 <= id -> live kMaxTimers st id = true -> is_Some (cores st !! index_of kMaxTimers id).
Proof.
  intros Hok Hid Hl. unfold live in Hl. apply andb_true_iff in Hl as [[[_ _]%andb_true_iff Hl]%andb_true_iff _]. apply some_core. apply op_live_spec; [done | | done].
  unfold index_of. apply Z.land_nonneg. by left.
Qed.
(** A change of a timer that leaves it in its list. *)
Lemma upd_lists (f : Timer -> Timer) st L x c : lists_ok st L -> cores st !! x = Some c -> (forall t, core (f t) = f (core t)) -> (forall t, t_list (f t) = t_list t /\ t_next (f t) = t_next t /\ t_prev (f t) = t_prev t) ->
  lists_ok (upd x f st) L /\ cores (upd x f st) = <[x := f c]> (cores st).
Proof.
  intros H Hc Hf Hl. pose proof (lo_pool _ _ H) as Hok. assert (Hx : is_Some (timers st !! x)) by (apply some_core; by eexists).
  destruct (upd_core st x f f Hok Hx Hf) as (O & C & S). rewrite (tm_core st x c Hok Hc) in C. split; [|done]. constructor; [done | | apply H |].
  - intros k Hk. apply (dseg_ext (nx st) (pv st)); [|by apply (lo_seg _ _ H)]. intros y Hy. unfold nx, pv. rewrite upd_tm by (try done; by apply (listed_some st L k)). case_decide; [subst; apply Hl | done].
  - intros k y Hk. rewrite C, (lo_mem _ _ H) by done. destruct (decide (y = x)) as [->|N]; [|by rewrite lookup_insert_ne]. rewrite lookup_insert_eq, Hc. pose proof (proj1 (Hl c)) as E.
    split; intros (c' & [= <-] & El); eexists; (split; [done|]); congruence.
Qed.
(** Only the clock fields differ. *)
Lemma lists_frame st st' L : pool_ st' = pool_ st -> slots_ st' = slots_ st -> overflow_ st' = overflow_ st -> lists_ok st L -> lists_ok st' L /\ cores st' = cores st.
Proof.
  intros E1 E2 E3 [A1 A2 A3 A4]. assert (Tm : forall x, tm st' x = tm st x) by (intros; unfold tm; by rewrite E1). assert (C : cores st' = cores st) by (unfold cores, timers; by rewrite E1). split; [|done].
  constructor; [by rewrite E1 | | done | intros; rewrite C; by apply A4]. intros k Hk. assert (Eh : head st' k = head st k) by (unfold head; by rewrite E2, E3). rewrite Eh.
  apply (dseg_ext (nx st) (pv st)); [|by apply A2]. intros y _. unfold nx, pv. by rewrite Tm.
Qed.

(** [after x l]: what follows [x]. *)
Fixpoint after (x : Z) (l : list Z) : list Z := match l with [] => [] | y :: l => if decide (y = x) then l else after x l end.
Lemma after_split x l1 l2 : x ∉ l1 -> after x (l1 ++ x :: l2) = l2.
Proof. induction l1 as [|y l1 IH]; intros Hx; cbn; [by rewrite decide_True|]. rewrite decide_False by (intros ->; apply Hx; by constructor). apply IH. intros ?. apply Hx. by right. Qed.

Lemma timer_cancel_ok id st L r st' : wok st L -> 0 <= id -> cancel kMaxTimers id st = (r, st') ->
  (r = false /\ st' = st) \/
  (r = true /\ exists h c, h = index_of kMaxTimers id /\ cores st !! h = Some c /\ t_active c = true /\ cur_ms_ st' = cur_ms_ st /\ firing_ st' = firing_ st /\ (forall y, y <> h -> gen st' y = gen st y) /\
    ((h = firing_ st /\ wok st' L /\ cores st' = <[h := c <| t_active := false |>]> (cores st) /\ walk_next_ st' = walk_next_ st) \/
     (h <> firing_ st /\ wok st' (del h L) /\ cores st' = delete h (cores st) /\ walk_next_ st' = if decide (h = walk_next_ st) then first (after h (L (t_list c))) else walk_next_ st))).
Proof.
  intros [A1 A2 A3 A4 A5 A6 A7 A8 A9] Hid. unfold cancel. destruct (live kMaxTimers st id) eqn:El; cbn [negb]; [|intros [= <- <-]; by left]. pose proof (lo_pool _ _ A1) as Hok.
  destruct (live_some st id Hok Hid El) as [c Hc]. set (h := index_of kMaxTimers id) in *. assert (Ea : t_active (tm st h) = t_active c) by apply (tm_fields st h c Hok Hc). rewrite Ea. destruct (t_active c) eqn:Eac; cbn [negb]; [|intros [= <- <-]; by left].
  cbv zeta. destruct (upd_lists (fun t => t <| t_active := false |>) st L h c A1 Hc) as [L1 C1]; [done | done|]. set (st1 := upd h _ st) in *. assert (F1 : same_clock st st1 /\ walk_next_ st1 = walk_next_ st /\ overflow_min_ms_ st1 = overflow_min_ms_ st) by done.
  set (c1 := c <| t_active := false |>) in *. assert (Hc1 : cores st1 !! h = Some c1) by by rewrite C1, lookup_insert_eq. assert (Ee : t_expiry (tm st1 h) = t_expiry c) by exact (proj1 (tm_fields st1 h c1 (lo_pool _ _ L1) Hc1)). rewrite Ee.
  destruct F1 as ((Fg & Fcur & Ff & Fn & Fs) & Fw & Fm). rewrite Fn. clearbody st1.
  set (st2 := if t_expiry c <=? next_ st then st1 <| next_stale_ := true |> else st1). assert (F2 : lists_ok st2 L /\ cores st2 = cores st1 /\ cur_ms_ st2 = cur_ms_ st /\ firing_ st2 = firing_ st /\ next_ st2 = next_ st /\ walk_next_ st2 = walk_next_ st /\ overflow_min_ms_ st2 = overflow_min_ms_ st /\ gen_ st2 = gen_ st).
  { destruct (_ <=? _) in st2 |- *; [destruct (lists_frame st1 st2 L eq_refl eq_refl eq_refl L1) as [X Y]; split; [exact X|]; split; [exact Y|]; cbn|split; [exact L1|]; split; [done|]]; auto 12. }
  assert (Hst : next_stale_ st2 = false -> next_stale_ st = false /\ next_ st < t_expiry c) by (unfold st2; destruct (Z.leb_spec (t_expiry c) (next_ st)); cbn; [done|]; rewrite Fs; auto). clearbody st2. destruct F2 as (L2 & C2 & Gcur & Gf & Gn & Gw & Gm & Gg).
  assert (Hc2 : cores st2 !! h = Some c1) by by rewrite C2. intros H. right.
  destruct (decide (h = firing_ st)) as [Ef|Nf].
  - (* the firing timer *) assert (Eu : unlink h st2 = st2).
    { unfold unlink. destruct A3 as (c' & Hc' & Hu); [rewrite <- Ef; exact (proj2 (dom_range st h (ex_intro _ c Hc) Hok))|]. rewrite <- Ef, Hc in Hc'. injection Hc' as <-. destruct (tm_fields st2 h c1 (lo_pool _ _ L2) Hc2) as (_ & _ & _ & -> & _). change (t_list c1) with (t_list c). by rewrite Hu. }
    rewrite Eu, Gf in H. replace (firing_ st =? h) with true in H by lia. cbn [negb] in H. injection H as <- <-. split; [done|]. exists h, c. do 5 (split; [done|]). split; [intros y _; unfold gen; by rewrite Gg|]. left. split; [done|]. split; [|by rewrite C2, C1]. constructor.
    + done.
    + intros x c' Hx Nx. rewrite Gf in Nx. rewrite C2, C1, lookup_insert_ne in Hx by congruence. by apply (A2 x).
    + intros _. rewrite Gf, <- Ef. exists c1. split; [done|]. destruct A3 as (c' & Hc' & Hu); [rewrite <- Ef; exact (proj2 (dom_range st h (ex_intro _ c Hc) Hok))|]. rewrite <- Ef, Hc in Hc'. by injection Hc' as <-.
    + intros x c' Hx. rewrite Gm. rewrite C2, C1 in Hx. apply lookup_insert_Some in Hx as [[<- <-]|[_ Hx]]; [apply (A4 h c Hc) | by apply (A4 x)].
    + intros Hs x c' Hx Ha. destruct (Hst Hs) as [Hs' _]. rewrite Gn. rewrite C2, C1 in Hx. apply lookup_insert_Some in Hx as [[<- <-]|[_ Hx]]; [done | by apply (A5 Hs' x)].
    + intros Hs. destruct (Hst Hs) as [Hs' Hlt]. rewrite Gn. destruct (A6 Hs') as [?|(x & c' & Hx & Ha & He)]; [by left|]. right. exists x, c'. rewrite C2, C1, lookup_insert_ne; [done|]. intros <-. rewrite Hc in Hx. injection Hx as <-. lia.
    + intros x c' Hx. rewrite C2, C1 in Hx. apply lookup_insert_Some in Hx as [[<- <-]|[_ Hx]]; [apply (A7 h c Hc) | by apply (A7 x)].
    + by rewrite Gcur.
    + intros x. unfold gen. rewrite Gg. apply A9.
  - destruct (A2 h c Hc ltac:(congruence)) as [_ Hk]. assert (Hin : h ∈ L (t_list c)) by (apply (lo_mem _ _ A1); [done|]; by exists c). apply list_elem_of_split in Hin as (l1 & l2 & EL).
    destruct (unlink_lists st2 L h c1 (t_list c) l1 l2 L2 Hc2 eq_refl Hk EL) as (L3 & C3 & (Hg3 & Hcur3 & Hf3 & Hn3 & Hs3) & Hw3 & Hm3). set (st3 := unlink h st2) in *. clearbody st3.
    rewrite Hf3, Gf in H. replace (firing_ st =? h) with false in H by lia. cbn [negb] in H. injection H as <- <-.
    destruct (release_lists st3 (del h L) h L3) as [L4 C4]; [rewrite C3, lookup_insert_eq; by eexists | intros k _; unfold del; rewrite list_elem_of_filter; tauto|].
    rewrite C3, C2, C1, insert_insert_eq, delete_insert_eq in C4. pose proof (release_gen h st3) as Kg. set (st4 := release kMaxTimers h st3) in *. assert (F4 : cur_ms_ st4 = cur_ms_ st3 /\ firing_ st4 = firing_ st3 /\ next_ st4 = next_ st3 /\ next_stale_ st4 = next_stale_ st3 /\ walk_next_ st4 = walk_next_ st3 /\ overflow_min_ms_ st4 = overflow_min_ms_ st3) by done.
    assert (Kgen : forall y, y <> h -> gen st4 y = gen st3 y) by (intros y N; unfold gen, st4, release; cbn; by rewrite lookup_insert_ne by done).
    clearbody st4. destruct F4 as (K1 & K2 & K3 & K4 & K5 & K6). split; [done|]. exists h, c. do 3 (split; [done|]). split; [congruence|]. split; [congruence|]. split; [intros y N; rewrite Kgen by done; unfold gen; by rewrite Hg3, Gg|]. right. split; [done|]. split; [|split; [done|]].
    + assert (Hold : forall x c', cores st4 !! x = Some c' -> x <> h /\ cores st !! x = Some c') by (intros x c'; rewrite C4; by intros [? ?]%lookup_delete_Some). constructor.
      * done.
      * intros x c' [Nx Hx]%Hold Nf'. apply (A2 x); [done|]. congruence.
      * rewrite K2, Hf3, Gf. intros Nn. destruct (A3 Nn) as (c' & Hc' & Hu). exists c'. rewrite C4, lookup_delete_ne by done. done.
      * intros x c' [Nx Hx]%Hold Hl. rewrite K6, Hm3, Gm. by apply (A4 x).
      * rewrite K4, Hs3, K3, Hn3, Gn. intros [Hs _]%Hst x c' [Nx Hx]%Hold. by apply (A5 Hs x).
      * rewrite K4, Hs3, K3, Hn3, Gn. intros [Hs Hlt]%Hst. destruct (A6 Hs) as [?|(x & c' & Hx & Ha & He)]; [by left|]. right. exists x, c'. rewrite C4, lookup_delete_ne; [done|]. intros <-. rewrite Hc in Hx. injection Hx as <-. lia.
      * intros x c' [Nx Hx]%Hold. by apply (A7 x).
      * by rewrite K1, Hcur3, Gcur.
      * apply Kg. intros x. unfold gen. rewrite Hg3, Gg. apply A9.
    + rewrite K5, Hw3, Gw. rewrite EL, after_split; [done|]. pose proof (lo_nodup _ _ A1 (t_list c)) as Hd. rewrite EL in Hd. apply NoDup_app in Hd as (_ & Hd & _). intros Hx. apply (Hd h Hx). by constructor.
Qed.

(** ** Asking *)

Lemma earliest_spec st hs best : let e := earliest st hs best in e <= best /\ (forall h, h ∈ hs -> t_active (tm st h) = true -> e <= t_expiry (tm st h)) /\
  (e = best \/ exists h, h ∈ hs /\ t_active (tm st h) = true /\ t_expiry (tm st h) = e).
Proof.
  unfold earliest. revert best. induction hs as [|h hs IH]; intros best; cbn [fold_left]; [split; [lia|]; split; [by intros h ?%elem_of_nil | by left]|].
  set (b := if _ && _ then t_expiry (tm st h) else best). assert (Hb : b <= best /\ (t_active (tm st h) = true -> b <= t_expiry (tm st h)) /\ (b = best \/ (t_active (tm st h) = true /\ b = t_expiry (tm st h)))).
  { unfold b. destruct (t_active (tm st h)); cbn [andb]; [|split; [lia|]; split; [done | by left]]. destruct (Z.ltb_spec (t_expiry (tm st h)) best); (split; [lia|]); split; try lia; auto. }
  destruct (IH b) as (A & B & C). destruct Hb as (H1 & H2 & H3). split; [lia|]. split.
  - intros x [->|Hx]%elem_of_cons Ha; [specialize (H2 Ha); lia | by apply B].
  - destruct C as [E|(x & Hx & Ha & He)]; [|right; exists x; split; [by right | done]]. rewrite E. destruct H3 as [->|[Ha ->]]; [by left|]. right. exists h. split; [by constructor | done].
Qed.
Lemma next_expiry_ok st L e st' : wok st L -> next_expiry st = (e, st') -> wok st' L /\ cores st' = cores st /\ cur_ms_ st' = cur_ms_ st /\ firing_ st' = firing_ st /\ walk_next_ st' = walk_next_ st /\ next_stale_ st' = false /\ e = next_ st' /\ gen_ st' = gen_ st.
Proof.
  intros [A1 A2 A3 A4 A5 A6 A7 A8 A9]. unfold next_expiry. destruct (next_stale_ st) eqn:Es; intros [= <- <-]; [|split; [constructor; try done; intros _; first [by apply A5 | by apply A6] | done]].
  set (e := earliest st _ _). set (st' := _ <| next_stale_ := false |>). destruct (lists_frame st st' L eq_refl eq_refl eq_refl A1) as [L1 C1]. split; [|done]. pose proof (lo_pool _ _ A1) as Hok.
  destruct (op_handles_spec _ Hok) as [_ Hh]. destruct (earliest_spec st (op_handles (pool_ st)) i64_max) as (B1 & B2 & B3). fold e in B1, B2, B3.
  constructor; rewrite ?C1; [done | done | done | done | | | done | done | done].
  - intros _ x c Hc Ha. destruct (tm_fields st x c Hok Hc) as (E1 & _ & _ & _ & _ & E2). rewrite <- E1. apply B2; [|congruence]. apply Hh, some_core. by eexists.
  - intros _. destruct B3 as [?|(h & Hin & Ha & He)]; [by left|]. right. apply Hh, some_core in Hin as [c Hc]. destruct (tm_fields st h c Hok Hc) as (E1 & _ & _ & _ & _ & E2). exists h, c. split; [done|]. split; [congruence|]. change (next_ st') with e. congruence.
Qed.
End ops.
