(* ===== verification/TimerWalk.v ===== *)
(** * TimerWalk: firing timers while callbacks add and cancel

    A callback may add and cancel timers, the firing one and the next of the walk included.  What the walk has still to see
    in its slot stays a suffix of the slot's list, headed by [walk_next_]; everything behind it is dealt with. *)

From S2P Require Import Prelude Types Orders Interfaces DList TimerWheel TimerInv TimerOps.

#[local] Arguments i64 : simpl never.
#[local] Arguments u64 : simpl never.
#[local] Arguments u32 : simpl never.
#[local] Arguments kNullHandle : simpl never.
#[local] Arguments kOverflow : simpl never.
#[local] Arguments kUnlinked : simpl never.

Section walk.
Context {P : Type} `{OPO : !ObjPoolOps P Timer} `{OP : !ObjPool P Timer} (kMaxTimers : Z) (Hmax : 0 < kMaxTimers <= 2 ^ 24).
Abbreviation TimerWheel := (TimerWheel P).
Abbreviation wok := (wok kMaxTimers).
Implicit Type st : TimerWheel.

(** What a callback may do, in any number and order; new timers expire no earlier than [b]. *)
Inductive calls (b : Z) : TimerWheel -> TimerWheel -> Prop :=
| calls_done st : calls b st st
| calls_add st st' now period repeat ud : 0 <= now -> 0 <= period < 2 ^ 61 -> b <= now + period < 2 ^ 62 -> calls b (snd (add kMaxTimers now period repeat ud st)) st' -> calls b st st'
| calls_cancel st st' id : 0 <= id -> calls b (snd (cancel kMaxTimers id st)) st' -> calls b st st'
| calls_ask st st' : calls b (snd (next_expiry st)) st' -> calls b st st'.

(** ** The end of a timer's turn *)

Definition stale st : TimerWheel := st <| next_stale_ := true |>.
(** [st'] holds the same timers but [idx], which is gone or linked again. *)
Lemma wok_released st L idx : wok st L -> firing_ st = idx -> is_Some (cores st !! idx) -> forall st', lists_ok st' L -> is_Some (cores st' !! idx) -> delete idx (cores st') = delete idx (cores st) -> cur_ms_ st' = cur_ms_ st -> firing_ st' = kNullHandle -> overflow_min_ms_ st' = overflow_min_ms_ st -> gen_ st' = gen_ st ->
  wok (stale (release kMaxTimers idx st')) L /\ cores (stale (release kMaxTimers idx st')) = delete idx (cores st).
Proof.
  intros [A1 A2 A3 A4 A5 A6 A7 A8 A9] Ef [c Hc] st' L1 Hi C1 F1 F2 F3 F4. assert (Hnn : idx <> kNullHandle) by (apply (range_not_null st idx (lo_pool _ _ A1)); apply some_core; by eexists).
  destruct A3 as (cf & Hcf & Hu); [congruence|]. rewrite Ef, Hc in Hcf. injection Hcf as <-.
  destruct (release_lists kMaxTimers st' L idx L1) as [L2 C2]; [done | |].
  { intros k Hk Hin. apply (lo_mem _ _ A1) in Hin as (c' & Hc' & El); [|done]. rewrite Hc in Hc'. injection Hc' as <-. rewrite Hu in El. subst k. destruct Hk as [Hk|Hk]; [done|]. unfold kUnlinked, kSlots in Hk. lia. }
  pose proof (release_gen kMaxTimers Hmax idx st') as Hg. set (st2 := release kMaxTimers idx st') in *. assert (G : cur_ms_ st2 = cur_ms_ st' /\ firing_ st2 = firing_ st' /\ overflow_min_ms_ st2 = overflow_min_ms_ st') by done. clearbody st2. destruct G as (G1 & G2 & G3).
  destruct (lists_frame st2 (stale st2) L eq_refl eq_refl eq_refl L2) as [L3 C3]. rewrite C1 in C2. split; [|by rewrite C3]. assert (Hold : forall x c', cores (stale st2) !! x = Some c' -> x <> idx /\ cores st !! x = Some c') by (intros x c'; rewrite C3, C2; intros [? ?]%lookup_delete_Some; done). constructor.
  - done.
  - intros x c' [N Hx]%Hold _. apply (A2 x); [done | congruence].
  - change (firing_ (stale st2)) with (firing_ st2). intros N. congruence.
  - intros x c' [N Hx]%Hold. change (overflow_min_ms_ (stale st2)) with (overflow_min_ms_ st2). rewrite G3, F3. by apply (A4 x).
  - done.
  - done.
  - intros x c' [N Hx]%Hold. by apply (A7 x).
  - change (cur_ms_ (stale st2)) with (cur_ms_ st2). by rewrite G1, F1.
  - apply Hg. intros x. unfold gen. rewrite F4. apply A9.
Qed.
Lemma wok_relinked st L idx c e : wok st L -> firing_ st = idx -> cores st !! idx = Some c -> t_active c = true -> 0 <= e < 2 ^ 62 ->
  forall st', lists_ok st' L -> cores st' = <[idx := c <| t_expiry := e |>]> (cores st) -> cur_ms_ st' = cur_ms_ st -> firing_ st' = kNullHandle -> overflow_min_ms_ st' = overflow_min_ms_ st -> gen_ st' = gen_ st -> 
  let k := dest (cur_ms_ st) e in
  wok (stale (link idx st')) (ins k idx L) /\ cores (stale (link idx st')) = <[idx := c <| t_expiry := e |> <| t_list := k |>]> (cores st) /\
  cur_ms_ (stale (link idx st')) = cur_ms_ st /\ firing_ (stale (link idx st')) = kNullHandle /\ walk_next_ (stale (link idx st')) = walk_next_ st'.
Proof.
  intros [A1 A2 A3 A4 A5 A6 A7 A8 A9] Ef Hc Ha He st' L1 C1 F1 F2 F3 F4 k. assert (Hnn : idx <> kNullHandle) by (apply (range_not_null st idx (lo_pool _ _ A1)); apply some_core; by eexists).
  destruct A3 as (cf & Hcf & Hu); [congruence|]. rewrite Ef, Hc in Hcf. injection Hcf as <-.
  destruct (link_lists st' L idx (c <| t_expiry := e |>) L1) as (L2 & C2 & (Fg & Fc & Ff & _ & _) & Fw & Fm); [by rewrite C1, lookup_insert_eq | done|]. change (t_expiry (c <| t_expiry := e |>)) with e in *. rewrite F1 in *. fold k in L2, C2, Fm. rewrite C1, insert_insert_eq in C2.
  set (st2 := link idx st') in *. clearbody st2. destruct (lists_frame st2 (stale st2) (ins k idx L) eq_refl eq_refl eq_refl L2) as [L3 C3]. rewrite C2 in C3. set (c2 := c <| t_expiry := e |> <| t_list := k |>) in *.
  assert (Hold : forall x c', cores (stale st2) !! x = Some c' -> (x = idx /\ c' = c2) \/ (x <> idx /\ cores st !! x = Some c')) by (intros x c'; rewrite C3; intros [[<- <-]|[? ?]]%lookup_insert_Some; auto).
  split; [|split; [done|]; change (cur_ms_ (stale st2)) with (cur_ms_ st2); change (firing_ (stale st2)) with (firing_ st2); change (walk_next_ (stale st2)) with (walk_next_ st2); split; [congruence|]; split; congruence]. constructor.
  - done.
  - intros x c' [[-> ->]|[N Hx]]%Hold _; [split; [done | apply dest_list]|]. apply (A2 x); [done | congruence].
  - change (firing_ (stale st2)) with (firing_ st2). intros N. congruence.
  - intros x c' [[-> ->]|[N Hx]]%Hold Hl; change (overflow_min_ms_ (stale st2)) with (overflow_min_ms_ st2); rewrite Fm, F3.
    + cbn in Hl. rewrite decide_True by done. cbn. lia.
    + pose proof (A4 x c' Hx Hl). case_decide; lia.
  - done.
  - done.
  - intros x c' [[-> ->]|[N Hx]]%Hold; [|by apply (A7 x)]. destruct (A7 idx c Hc) as (_ & R2 & R3). done.
  - change (cur_ms_ (stale st2)) with (cur_ms_ st2). by rewrite Fc.
  - intros x. unfold gen. change (gen_ (stale st2)) with (gen_ st2). rewrite Fg, F4. apply A9.
Qed.

(** A callback for a poll at [now]: called for an active timer that is due, it makes calls and keeps [PW],
    whose index is the count of what has fired. *)
Definition callback_ok {W} (now b : Z) (PW : Z -> W -> Prop) (f : TimerId -> Z -> TimerWheel -> W -> TimerWheel * W) : Prop :=
  forall n st w L idx c, wok st L -> firing_ st = idx -> cores st !! idx = Some c -> t_active c = true -> t_expiry c <= now -> PW n w ->
    calls b st (fst (f (id_of kMaxTimers st idx) (t_user_data c) st w)) /\ PW (u64 (n + 1)) (snd (f (id_of kMaxTimers st idx) (t_user_data c) st w)).

(** ** The walk *)

Section walking.
Context (c0 b : Z) (V : list Z) (k0 : Z) (Good Base : Timer -> Prop).
Hypothesis k0_list : is_list k0.
Hypothesis good_new : forall c, t_range c -> b <= t_expiry c -> t_list c = dest c0 (t_expiry c) -> Good c.

(** [V]: the slots still to be walked; [rest]: what is left of the slot [k0]. *)
Definition seen_or_due (rest : list Z) (x : Z) (c : Timer) : Prop := Good c \/ (Base c /\ (t_list c ∈ V \/ x ∈ rest)).
Record walking (rest : list Z) st (L : Z -> list Z) : Prop := {
  wk_ok : wok st L;
  wk_cur : cur_ms_ st = c0;
  wk_pre : exists pre, L k0 = pre ++ rest;
  wk_next : walk_next_ st = first rest;
  wk_cores : forall x c, cores st !! x = Some c -> is_list (t_list c) -> seen_or_due rest x c;
}.

Lemma walking_add now period repeat ud rest st L : walking rest st L -> 0 <= now -> 0 <= period < 2 ^ 61 -> b <= now + period < 2 ^ 62 ->
  exists L', walking rest (snd (add kMaxTimers now period repeat ud st)) L' /\ firing_ (snd (add kMaxTimers now period repeat ud st)) = firing_ st /\
    forall c, cores st !! firing_ st = Some c -> cores (snd (add kMaxTimers now period repeat ud st)) !! firing_ st = Some c.
Proof.
  intros [W1 W2 (pre & W3) W4 W5] Hn Hp Hr. destruct (add kMaxTimers now period repeat ud st) as [id st'] eqn:E. cbn [snd].
  destruct (add_ok kMaxTimers now period repeat ud st L id st' W1 Hn Hp ltac:(lia) E) as [(-> & _)|(h & c & Hnone & C & Ee & El & Ha & _ & _ & Hw & F1 & F2 & F3 & _)].
  { exists L. split; [|done]. constructor; eauto. }
  exists (ins (t_list c) h L). split; [|split; [done|]]. constructor; [done | congruence | | congruence |].
  - unfold ins. destruct (decide (k0 = t_list c)) as [E'|N]; [|by exists pre]. exists (h :: pre). rewrite <- E', W3. done.
  - intros x c'. rewrite C. intros [[<- <-]|[N Hc]]%lookup_insert_Some Hl; [|by apply W5]. left. apply good_new; [apply (w_range _ _ _ Hw h); by rewrite C, lookup_insert_eq | lia | congruence].
  - intros c' Hc'. rewrite C, lookup_insert_ne; [done|]. intros ->. by rewrite Hnone in Hc'.
Qed.
Lemma first_del h rest : h <> first rest -> first (filter (fun y => y <> h) rest) = first rest.
Proof. destruct rest as [|y rest]; [done|]. cbn [first]. intros N. by rewrite filter_cons_True by congruence. Qed.
Lemma walking_cancel id rest st L : walking rest st L -> 0 <= id ->
  exists rest' L', walking rest' (snd (cancel kMaxTimers id st)) L' /\ (length rest' <= length rest)%nat /\ firing_ (snd (cancel kMaxTimers id st)) = firing_ st /\
    forall c, cores st !! firing_ st = Some c -> cores (snd (cancel kMaxTimers id st)) !! firing_ st = Some c \/ cores (snd (cancel kMaxTimers id st)) !! firing_ st = Some (c <| t_active := false |>).
Proof.
  intros [W1 W2 (pre & W3) W4 W5] Hid. destruct (cancel kMaxTimers id st) as [r st'] eqn:E. cbn [snd].
  destruct (timer_cancel_ok kMaxTimers Hmax id st L r st' W1 Hid E) as [[_ ->]|(_ & h & c & -> & Hc & Ha & F1 & F2 & _ & [(Ef & Hw & C & F3)|(Nf & Hw & C & F3)])].
  { exists rest, L. split; [constructor; eauto|]. split; [done|]. split; [done|]. by left. }
  - exists rest, L. set (h := index_of kMaxTimers id) in *. split; [|split; [done|split; [done|]]].
    + constructor; [done | congruence | by exists pre | congruence |]. intros x c'. rewrite C. intros [[<- <-]|[N Hx]]%lookup_insert_Some Hl; [|by apply W5].
      exfalso. destruct (w_firing _ _ _ W1) as (cf & Hcf & Hu); [rewrite <- Ef; apply (range_not_null st h (lo_pool _ _ (w_lists _ _ _ W1))); apply some_core; by eexists|].
      rewrite <- Ef, Hc in Hcf. injection Hcf as <-. cbn in Hl. rewrite Hu in Hl. destruct Hl as [Hl|Hl]; [done|]. unfold kUnlinked, kSlots in Hl. lia.
    + intros c' Hc'. rewrite <- Ef, Hc in Hc'. injection Hc' as <-. right. rewrite C, <- Ef. by rewrite lookup_insert_eq.
  - set (h := index_of kMaxTimers id) in *. set (rest' := filter (fun y => y <> h) rest). exists rest', (del h L). pose proof (lo_nodup _ _ (w_lists _ _ _ W1) k0) as Hd. rewrite W3 in Hd.
    split; [|split; [apply length_filter|split; [done|]]].
    + constructor; [done | congruence | exists (filter (fun y => y <> h) pre); unfold del; by rewrite W3, filter_app | |].
      * rewrite F3. case_decide as Eh; [|rewrite W4; unfold rest'; rewrite first_del; [done | congruence]]. rewrite W4 in Eh.
        assert (Hnn : h <> kNullHandle) by (apply (range_not_null st h (lo_pool _ _ (w_lists _ _ _ W1))); apply some_core; by eexists). destruct rest as [|y rest1]; [done|]. cbn in Eh. subst y.
        assert (Ek : t_list c = k0) by (destruct (proj1 (lo_mem _ _ (w_lists _ _ _ W1) k0 h k0_list)) as (c2 & Hc2 & El2); [rewrite W3; apply elem_of_app; right; by constructor | congruence]).
        rewrite Ek, W3. apply NoDup_app in Hd as (Hd1 & Hd12 & Hd2). rewrite after_split by (intros Hx; apply (Hd12 h Hx); by constructor). unfold rest'. inversion Hd2; subst. by rewrite filter_cons_False, del_other by tauto.
      * intros x c'. rewrite C. intros [N Hx]%lookup_delete_Some Hl. destruct (W5 x c' Hx Hl) as [?|[HB [?|Hr]]]; [by left | right; split; [done | by left] | right; split; [done|]; right].
        unfold rest'. by apply list_elem_of_filter.
    + intros c' Hc'. left. by rewrite C, lookup_delete_ne.
Qed.
Lemma walking_calls st st' : calls b st st' -> forall rest L, walking rest st L ->
  exists rest' L', walking rest' st' L' /\ (length rest' <= length rest)%nat /\ firing_ st' = firing_ st /\
    forall c, cores st !! firing_ st = Some c -> cores st' !! firing_ st = Some c \/ cores st' !! firing_ st = Some (c <| t_active := false |>).
Proof.
  assert (Hcomp : forall (C1 C2 C3 : option Timer), (forall c, C1 = Some c -> C2 = Some c \/ C2 = Some (c <| t_active := false |>)) -> (forall c, C2 = Some c -> C3 = Some c \/ C3 = Some (c <| t_active := false |>)) ->
    forall c, C1 = Some c -> C3 = Some c \/ C3 = Some (c <| t_active := false |>)) by (intros C1 C2 C3 H1 H2 c Hc; destruct (H1 c Hc) as [E|E]; destruct (H2 _ E) as [F|F]; auto).
  induction 1 as [st|st st' now period repeat ud Hn Hp Hr _ IH|st st' id Hid _ IH|st st' _ IH]; intros rest L HW.
  - exists rest, L. split; [done|]. split; [done|]. split; [done|]. by left.
  - destruct (walking_add now period repeat ud rest st L HW Hn Hp Hr) as (L1 & HW1 & F1 & K1). destruct (IH rest L1 HW1) as (r2 & L2 & HW2 & Hl2 & F2 & K2). exists r2, L2. split; [done|]. split; [done|]. split; [congruence|]. rewrite F1 in K2. intros c Hc. by apply K2, K1.
  - destruct (walking_cancel id rest st L HW Hid) as (r1 & L1 & HW1 & Hl1 & F1 & K1). destruct (IH r1 L1 HW1) as (r2 & L2 & HW2 & Hl2 & F2 & K2). exists r2, L2. split; [done|]. split; [lia|]. split; [congruence|]. rewrite F1 in K2. by apply (Hcomp _ _ _ K1 K2).
  - destruct (next_expiry st) as [e st1] eqn:E. cbn [snd] in *. destruct HW as [W1 W2 W3 W4 W5]. destruct (next_expiry_ok kMaxTimers st L e st1 W1 E) as (Hw & C & F1 & F2 & F3 & _).
    destruct (IH rest L) as (r2 & L2 & HW2 & Hl2 & F4 & K2); [constructor; [done | congruence | done | congruence | by rewrite C]|]. exists r2, L2. split; [done|]. split; [done|]. split; [congruence|]. by rewrite F2, C in K2.
Qed.

(** ** Firing *)

Context {W : Type} (now : Z) (PW : Z -> W -> Prop) (f : TimerId -> Z -> TimerWheel -> W -> TimerWheel * W).
Hypothesis f_ok : callback_ok now b PW f.
Hypothesis now_range : 0 <= now < 2 ^ 61.
Hypothesis b_range : b <= now + 1.

(** The callback runs with the timer out of its list. *)
Lemma fire_begins st L idx c rest : wok st L -> firing_ st = kNullHandle -> cur_ms_ st = c0 -> cores st !! idx = Some c -> (exists pre, del idx L k0 = pre ++ rest) -> walk_next_ st = first rest -> idx <> first rest ->
  (forall x c', x <> idx -> cores st !! x = Some c' -> is_list (t_list c') -> seen_or_due rest x c') ->
  let st1 := (unlink idx (stale st)) <| firing_ := idx |> in walking rest st1 (del idx L) /\ cores st1 !! idx = Some (c <| t_list := kUnlinked |>) /\ t_active c = true.
Proof.
  intros [A1 A2 A3 A4 A5 A6 A7 A8 A9] Ef Ec Hc Hpre Hwn Hne Hcores. pose proof (range_not_null st idx (lo_pool _ _ A1) (proj2 (some_core st idx) (ex_intro _ c Hc))) as [_ Hnn].
  destruct (A2 idx c Hc ltac:(congruence)) as [Hact Hk]. destruct (lists_frame st (stale st) L eq_refl eq_refl eq_refl A1) as [L1 C1]. assert (Hin : idx ∈ L (t_list c)) by (apply (lo_mem _ _ A1); [done|]; by exists c).
  apply list_elem_of_split in Hin as (l1 & l2 & EL). destruct (unlink_lists (stale st) L idx c (t_list c) l1 l2 L1 ltac:(by rewrite C1) eq_refl Hk EL) as (L2 & C2 & (Fg & Fc & Ff & _ & Fs) & Fw & Fm). rewrite C1 in C2.
  set (st1 := unlink idx (stale st)) in *. clearbody st1. set (st2 := st1 <| firing_ := idx |>). destruct (lists_frame st1 st2 (del idx L) eq_refl eq_refl eq_refl L2) as [L3 C3]. rewrite C2 in C3. cbv zeta. set (c1 := c <| t_list := kUnlinked |>) in *.
  assert (Hold : forall x c', cores st2 !! x = Some c' -> (x = idx /\ c' = c1) \/ (x <> idx /\ cores st !! x = Some c')) by (intros x c'; rewrite C3; intros [[<- <-]|[? ?]]%lookup_insert_Some; auto).
  split; [|by rewrite C3, lookup_insert_eq]. assert (Hs2 : next_stale_ st2 = true) by done. constructor; [constructor|..].
  - done.
  - intros x c' [[-> ->]|[N Hx]]%Hold Nf; [done|]. apply (A2 x); [done|]. intros ->. destruct (range_not_null st kNullHandle (lo_pool _ _ A1)) as [_ ?]; [|done]. apply some_core. rewrite <- Ef. by eexists.
  - intros _. exists c1. by rewrite C3, lookup_insert_eq.
  - intros x c' [[-> ->]|[N Hx]]%Hold Hl; [done|]. change (overflow_min_ms_ st2) with (overflow_min_ms_ st1). rewrite Fm. by apply (A4 x).
  - rewrite Hs2. done.
  - rewrite Hs2. done.
  - intros x c' [[-> ->]|[N Hx]]%Hold; [apply (A7 idx c Hc) | by apply (A7 x)].
  - change (cur_ms_ st2) with (cur_ms_ st1). by rewrite Fc.
  - intros x. change (gen st2 x) with (gen st1 x). unfold gen. rewrite Fg. apply A9.
  - change (cur_ms_ st2) with (cur_ms_ st1). by rewrite Fc.
  - done.
  - change (walk_next_ st2) with (walk_next_ st1). rewrite Fw. rewrite decide_False; [done|]. change (walk_next_ (stale st)) with (walk_next_ st). congruence.
  - intros x c' [[-> ->]|[N Hx]]%Hold Hl; [|by apply Hcores]. exfalso. destruct Hl as [Hl|Hl]; [done|]. cbn in Hl. unfold kUnlinked, kSlots in Hl. lia.
Qed.
(** The timer's next expiry keeps its phase, or starts again from [now]. *)
Definition again (c : Timer) : Z := if t_expiry c + t_period c <=? now then now + t_period c else t_expiry c + t_period c.

Lemma fire_ok n idx c rest st L w : wok st L -> firing_ st = kNullHandle -> cur_ms_ st = c0 -> cores st !! idx = Some c -> t_expiry c <= now -> (exists pre, del idx L k0 = pre ++ rest) -> walk_next_ st = first rest -> idx <> first rest ->
  (forall x c', x <> idx -> cores st !! x = Some c' -> is_list (t_list c') -> seen_or_due rest x c') -> PW n w ->
  exists st' w' rest' L', fire kMaxTimers f idx now st w = (1, st', w') /\ walking rest' st' L' /\ (length rest' <= length rest)%nat /\ firing_ st' = kNullHandle /\ next_stale_ st' = true /\ PW (u64 (n + 1)) w'.
Proof.
  intros Hw Ef Ec Hc Hdue Hpre Hwn Hne Hcores HP. destruct (fire_begins st L idx c rest Hw Ef Ec Hc Hpre Hwn Hne Hcores) as (W1 & Hc1 & Hact). unfold fire. change (st <| next_stale_ := true |>) with (stale st). cbv zeta.
  set (st1 := (unlink idx (stale st)) <| firing_ := idx |>) in *. assert (Ef1 : firing_ st1 = idx) by done. clearbody st1. set (c1 := c <| t_list := kUnlinked |>) in *. pose proof (wk_ok _ _ _ W1) as Hw1.
  destruct (tm_fields st1 idx c1 (lo_pool _ _ (w_lists _ _ _ Hw1)) Hc1) as (_ & _ & Eud & _). rewrite Eud.
  destruct (f_ok n st1 w (del idx L) idx c1 Hw1 Ef1 Hc1 Hact Hdue HP) as [Hcalls HP']. destruct (f (id_of kMaxTimers st1 idx) (t_user_data c1) st1 w) as [st2 w2]. cbn [fst snd] in *.
  destruct (walking_calls st1 st2 Hcalls rest (del idx L) W1) as (rest2 & L2 & [V1 V2 (pre2 & V3) V4 V5] & Hlen & Ef2 & Hkeep). rewrite Ef1 in Ef2, Hkeep. specialize (Hkeep c1 Hc1). clear W1 Hw1 Hcalls Hcores Hw Hc1 Eud Ef1.
  pose proof (w_lists _ _ _ V1) as L2ok. set (st3 := st2 <| firing_ := kNullHandle |>). destruct (lists_frame st2 st3 L2 eq_refl eq_refl eq_refl L2ok) as [L3 C3].
  assert (Hc3 : exists a, cores st3 !! idx = Some (c1 <| t_active := a |>)) by (rewrite C3; destruct Hkeep as [E|E]; rewrite E; [exists true; unfold c1; destruct c; cbn in *; by subst | by exists false]).
  assert (Hrel : forall st', lists_ok st' L2 -> is_Some (cores st' !! idx) -> delete idx (cores st') = delete idx (cores st2) -> cur_ms_ st' = cur_ms_ st2 -> firing_ st' = kNullHandle -> overflow_min_ms_ st' = overflow_min_ms_ st2 -> gen_ st' = gen_ st2 -> walk_next_ st' = walk_next_ st2 ->
    walking rest2 (stale (release kMaxTimers idx st')) L2).
  { intros st' K1 K2 K3 K4 K5 K6 K7 K8. destruct (wok_released st2 L2 idx V1 Ef2 ltac:(destruct Hkeep as [E|E]; rewrite E; by eexists) st' K1 K2 K3 K4 K5 K6 K7) as [Hw5 C5]. constructor; [done | | by exists pre2 | |].
    - change (cur_ms_ (stale (release kMaxTimers idx st'))) with (cur_ms_ st'). congruence.
    - change (walk_next_ (stale (release kMaxTimers idx st'))) with (walk_next_ st'). congruence.
    - intros x c'. rewrite C5. intros [_ Hx]%lookup_delete_Some. by apply V5. }
  destruct Hc3 as [a Hc3]. destruct (tm_fields st3 idx _ (lo_pool _ _ L3) Hc3) as (E3 & E4 & _ & _ & E5 & E6). rewrite E6. change (t_active (c1 <| t_active := a |>)) with a. destruct a; cbn [negb].
  2: { exists (stale (release kMaxTimers idx st3)), w2, rest2, L2. split; [done|]. split; [|done]. by apply Hrel. }
  rewrite E5. change (t_repeat (c1 <| t_active := true |>)) with (t_repeat c). destruct (t_repeat c) eqn:Er.
  - assert (R : t_range c1) by (destruct Hkeep as [E|E]; apply (w_range _ _ _ V1 idx _ E)). destruct R as (R1 & R2 & R3). change (t_expiry c1) with (t_expiry c) in R1. change (t_period c1) with (t_period c) in R2, R3. specialize (R3 Er). unfold kSlotNs in R3.
    destruct (upd_lists (fun t => t <| t_expiry := i64 (t_expiry t + t_period t) |>) st3 L2 idx _ L3 Hc3) as [L4 C4]; [done | done|]. set (st4 := upd idx _ st3) in *. assert (F4 : cur_ms_ st4 = cur_ms_ st2 /\ firing_ st4 = kNullHandle /\ overflow_min_ms_ st4 = overflow_min_ms_ st2 /\ gen_ st4 = gen_ st2 /\ walk_next_ st4 = walk_next_ st2) by done. clearbody st4.
    cbn [t_expiry t_period] in C4. change (t_expiry (c1 <| t_active := true |>)) with (t_expiry c) in C4. change (t_period (c1 <| t_active := true |>)) with (t_period c) in C4. rewrite i64_id in C4 by (unfold in_i64, i64_min, i64_max; lia). rewrite C3 in C4.
    set (c4 := c1 <| t_active := true |> <| t_expiry := t_expiry c + t_period c |>) in *. assert (Hc4 : cores st4 !! idx = Some c4) by by rewrite C4, lookup_insert_eq. destruct (tm_fields st4 idx c4 (lo_pool _ _ L4) Hc4) as (E7 & _). rewrite E7. change (t_expiry c4) with (t_expiry c + t_period c).
    set (st5 := if _ <=? now then _ else st4). assert (F5 : lists_ok st5 L2 /\ cores st5 = <[idx := c1 <| t_active := true |> <| t_expiry := again c |>]> (cores st2) /\ cur_ms_ st5 = cur_ms_ st2 /\ firing_ st5 = kNullHandle /\ overflow_min_ms_ st5 = overflow_min_ms_ st2 /\ gen_ st5 = gen_ st2 /\ walk_next_ st5 = walk_next_ st2).
    { unfold again. destruct (t_expiry c + t_period c <=? now) in st5 |- *; [|done]. destruct (upd_lists (fun t => t <| t_expiry := i64 (now + t_period t) |>) st4 L2 idx c4 L4 Hc4) as [L5 C5]; [done | done|]. split; [exact L5|]. split; [|exact F4].
      unfold st5. rewrite C5, C4, insert_insert_eq. change (t_period c4) with (t_period c). by rewrite i64_id by (unfold in_i64, i64_min, i64_max; lia). }
    clearbody st5. destruct F5 as (L5 & C5 & G1 & G2 & G3 & G4 & G5). assert (Hag : b <= again c /\ 0 <= again c < 2 ^ 62) by (unfold again; destruct (Z.leb_spec (t_expiry c + t_period c) now); lia).
    assert (Hc2 : cores st2 !! idx = Some (c1 <| t_active := true |>)) by by rewrite <- C3.
    destruct (wok_relinked st2 L2 idx _ (again c) V1 Ef2 Hc2 eq_refl ltac:(lia) st5 L5 C5 G1 G2 G3 G4) as (Hw6 & C6 & H1 & H2 & H3). set (st6 := stale (link idx st5)) in *. assert (H4 : next_stale_ st6 = true) by done.
    exists st6, w2, rest2, (ins (dest (cur_ms_ st2) (again c)) idx L2). split; [done|]. clearbody st6. split; [|done]. constructor; [done | congruence | | congruence |].
    + unfold ins. destruct (decide (k0 = _)) as [E|N]; [|by exists pre2]. exists (idx :: pre2). rewrite <- E, V3. done.
    + intros x c'. rewrite C6. intros [[<- <-]|[N Hx]]%lookup_insert_Some Hl; [|by apply V5]. left. apply good_new; [|cbn; lia | cbn; by rewrite V2]. apply (w_range _ _ _ Hw6 idx). by rewrite C6, lookup_insert_eq.
  - destruct (upd_lists (fun t => t <| t_active := false |>) st3 L2 idx _ L3 Hc3) as [L4 C4]; [done | done|]. set (st4 := upd idx _ st3) in *. exists (stale (release kMaxTimers idx st4)), w2, rest2, L2. split; [done|]. split; [|done].
    apply Hrel; try done; rewrite C4; [rewrite lookup_insert_eq; by eexists | by rewrite delete_insert_eq, C3].
Qed.

(** ** One slot *)

Hypothesis base_good : forall c, Base c -> now < t_expiry c -> Good c.

Lemma walk_ok n : forall rest st L w fired, wok st L -> firing_ st = kNullHandle -> cur_ms_ st = c0 -> (exists pre, L k0 = pre ++ rest) ->
  (forall x c, cores st !! x = Some c -> is_list (t_list c) -> seen_or_due rest x c) -> (length rest < n)%nat -> 0 <= fired < 2 ^ 64 -> PW fired w ->
  exists fired' st' w' L', walk kMaxTimers f n (first rest) now fired st w = Some (fired', st', w') /\ wok st' L' /\ firing_ st' = kNullHandle /\ cur_ms_ st' = c0 /\
    (forall x c, cores st' !! x = Some c -> is_list (t_list c) -> seen_or_due [] x c) /\ 0 <= fired' < 2 ^ 64 /\ PW fired' w'.
Proof.
  induction n as [|n IH]; intros rest st L w fired Hw Ef Ec (pre & Hpre) Hcores Hn Hfd HP; [lia|]. destruct rest as [|idx rest].
  { exists fired, st, w, L. done. }
  pose proof (w_lists _ _ _ Hw) as HL. pose proof (lo_pool _ _ HL) as Hok. pose proof (lo_seg _ _ HL k0 k0_list) as Hseg. rewrite Hpre in Hseg. destruct (seg_at _ _ _ _ _ _ _ Hseg) as (Enx & _ & Hnn).
  assert (Hin : idx ∈ L k0) by (rewrite Hpre; apply elem_of_app; right; by constructor). apply (lo_mem _ _ HL) in Hin as (c & Hc & Hl); [|done]. pose proof (lo_nodup _ _ HL k0) as Hd. rewrite Hpre in Hd.
  cbn [walk first]. replace (idx =? kNullHandle) with false by lia. cbv zeta. unfold nx in Enx. rewrite Enx. set (st1 := st <| walk_next_ := first rest |>).
  destruct (lists_frame st st1 L eq_refl eq_refl eq_refl HL) as [L1 C1]. assert (Hw1 : wok st1 L) by (destruct Hw; by constructor). rewrite <- C1 in Hc, Hcores.
  destruct (tm_fields st1 idx c Hok Hc) as (-> & _). assert (Hidx : idx ∉ rest /\ idx <> first rest).
  { apply NoDup_app in Hd as (_ & _ & Hd). inversion Hd; subst. split; [done|]. destruct rest; [done|]. cbn. intros ->. set_solver. }
  assert (Hoth : forall x c', x <> idx -> cores st1 !! x = Some c' -> is_list (t_list c') -> seen_or_due rest x c').
  { intros x c' N Hx Hl'. destruct (Hcores x c' Hx Hl') as [?|[HB [?|[?|?]%elem_of_cons]]]; [by left | right; auto | done | right; auto]. }
  destruct (Z.leb_spec (t_expiry c) now) as [Hdue|Hnot].
  - destruct (fire_ok fired idx c rest st1 L w Hw1 Ef Ec Hc Hdue) as (st2 & w2 & rest2 & L2 & -> & W2 & Hlen & Ef2 & _ & HP2); [|done|tauto|done|done|].
    { exists pre. unfold del. rewrite Hpre. by apply del_split. }
    destruct W2 as [X1 X2 X3 X4 X5]. rewrite X4. apply (IH rest2 st2 L2); try done; [cbn in Hn; lia | apply Z.mod_pos_bound; lia].
  - change (walk_next_ st1) with (first rest). assert (Ez : u64 (fired + 0) = fired) by (unfold u64; rewrite Z.add_0_r; by apply Z.mod_small). rewrite Ez. apply (IH rest st1 L); try done; [| |cbn in Hn; lia].
    + exists (pre ++ [idx]). by rewrite Hpre, <- app_assoc.
    + intros x c' Hx Hl'. destruct (decide (x = idx)) as [->|N]; [|by apply Hoth]. rewrite Hc in Hx. injection Hx as <-. left. destruct (Hcores idx c Hc Hl') as [?|[HB _]]; [done | by apply base_good].
Qed.
End walking.

(** ** All slots *)

Hypothesis Hcap : op_cap = kMaxTimers.
Lemma list_fits st L k : lists_ok st L -> is_list k -> (length (L k) < fuel kMaxTimers)%nat.
Proof.
  intros HL Hk. assert (Hs : L k ⊆+ seqZ 0 kMaxTimers).
  { apply NoDup_submseteq; [apply (lo_nodup _ _ HL)|]. intros x Hx. apply elem_of_seqZ. pose proof (range_not_null st x (lo_pool _ _ HL) (listed_some st L k x HL Hk Hx)). lia. }
  apply submseteq_length in Hs. rewrite length_seqZ in Hs. unfold fuel. lia.
Qed.

Section slots.
Context (c0 b : Z) (Good Base : Timer -> Prop) {W : Type} (now : Z) (PW : Z -> W -> Prop) (f : TimerId -> Z -> TimerWheel -> W -> TimerWheel * W).
Hypothesis good_new : forall c, t_range c -> b <= t_expiry c -> t_list c = dest c0 (t_expiry c) -> Good c.
Hypothesis base_good : forall c, Base c -> now < t_expiry c -> Good c.
Hypothesis f_ok : callback_ok now b PW f.
Hypothesis now_range : 0 <= now < 2 ^ 61.
Hypothesis b_range : b <= now + 1.

Lemma walk_slots_ok ss : forall st L w fired, wok st L -> firing_ st = kNullHandle -> cur_ms_ st = c0 ->
  (forall x c, cores st !! x = Some c -> is_list (t_list c) -> Good c \/ (Base c /\ t_list c ∈ (fun s => slot_of (i64 (c0 + s))) <$> ss)) -> 0 <= fired < 2 ^ 64 -> PW fired w ->
  exists fired' st' w' L', walk_slots kMaxTimers f ss now fired st w = Some (fired', st', w') /\ wok st' L' /\ firing_ st' = kNullHandle /\ cur_ms_ st' = c0 /\
    (forall x c, cores st' !! x = Some c -> is_list (t_list c) -> Good c) /\ PW fired' w'.
Proof.
  induction ss as [|s ss IH]; intros st L w fired Hw Ef Ec Hcores Hfd HP; cbn [walk_slots].
  { exists fired, st, w, L. split; [done|]. do 3 (split; [done|]). split; [|done]. intros x c Hc Hl. destruct (Hcores x c Hc Hl) as [?|[_ ?%elem_of_nil]]; done. }
  rewrite Ec. set (k := slot_of (i64 (c0 + s))). assert (Hk : is_list k) by (right; apply wheel_slot_range). pose proof (w_lists _ _ _ Hw) as HL. rewrite (seg_first _ _ _ _ _ (lo_seg _ _ HL k Hk)).
  destruct (walk_ok c0 b ((fun s => slot_of (i64 (c0 + s))) <$> ss) k Good Base Hk good_new now PW f f_ok now_range b_range base_good (fuel kMaxTimers) (L k) st L w fired) as (fired1 & st1 & w1 & L1 & -> & Hw1 & Ef1 & Ec1 & Hc1 & Hfd1 & HP1); try done.
  - by exists [].
  - intros x c Hc Hl. destruct (Hcores x c Hc Hl) as [?|[HB Hin]]; [by left|]. right. split; [done|]. rewrite fmap_cons in Hin. apply elem_of_cons in Hin as [E|Hin]; [right|by left]. apply (lo_mem _ _ HL); [done|]. by exists c.
  - by apply (list_fits st L k).
  - cbn. apply (IH st1 L1); try done. intros x c Hc Hl. destruct (Hc1 x c Hc Hl) as [?|[HB [?|?%elem_of_nil]]]; [by left | by right | done].
Qed.
End slots.
End walk.
