(* ===== verification/TimerPoll.v ===== *)
(** * TimerPoll: what a poll fires

    Promotion from the overflow list, the poll, the states the wheel reaches, and the theorems: a poll returns, fires only
    timers that are due, and leaves none behind that was due, but for one case the theorem names. *)

From S2P Require Import Prelude Types Orders Interfaces Pool DList TimerWheel TimerInv TimerOps TimerWalk.

#[local] Arguments i64 : simpl never.
#[local] Arguments u64 : simpl never.
#[local] Arguments u32 : simpl never.
#[local] Arguments kNullHandle : simpl never.
#[local] Arguments kOverflow : simpl never.
#[local] Arguments kUnlinked : simpl never.

Section poll.
Context {P : Type} `{OPO : !ObjPoolOps P Timer} `{OP : !ObjPool P Timer} (kMaxTimers : Z) (Hmax : 0 < kMaxTimers <= 2 ^ 24) (Hcap : op_cap = kMaxTimers).
Abbreviation TimerWheel := (TimerWheel P).
Abbreviation wok := (wok kMaxTimers).
Implicit Type st : TimerWheel.

(** ** Promotion *)

Lemma relink_ok st L idx c : wok st L -> firing_ st = kNullHandle -> walk_next_ st = kNullHandle -> cores st !! idx = Some c -> t_list c = kOverflow -> ms_of (t_expiry c) < cur_ms_ st + kSlots ->
  let k := dest (cur_ms_ st) (t_expiry c) in let st' := link idx (unlink idx st) in
  wok st' (ins k idx (del idx L)) /\ k <> kOverflow /\ cores st' = <[idx := c <| t_list := k |>]> (cores st) /\ same_clock st st' /\ walk_next_ st' = kNullHandle /\ overflow_min_ms_ st' = overflow_min_ms_ st.
Proof.
  intros Hw Ef Ew Hc Hl Hms k. pose proof Hw as [A1 A2 A3 A4 A5 A6 A7 A8 A9]. pose proof (range_not_null st idx (lo_pool _ _ A1) (proj2 (some_core st idx) (ex_intro _ c Hc))) as [_ Hnn].
  assert (Hk : is_list (t_list c)) by by left. assert (Hin : idx ∈ L (t_list c)) by (apply (lo_mem _ _ A1); [done|]; by exists c). apply list_elem_of_split in Hin as (l1 & l2 & EL).
  destruct (unlink_lists st L idx c (t_list c) l1 l2 A1 Hc eq_refl Hk EL) as (L1 & C1 & S1 & W1 & M1). rewrite decide_False in W1 by congruence. set (st1 := unlink idx st) in *. clearbody st1. set (c1 := c <| t_list := kUnlinked |>) in *.
  destruct (link_lists st1 (del idx L) idx c1 L1) as (L2 & C2 & S2 & W2 & M2); [by rewrite C1, lookup_insert_eq | done|]. change (t_expiry c1) with (t_expiry c) in *. assert (Ec1 : cur_ms_ st1 = cur_ms_ st) by apply S1. rewrite Ec1 in *. fold k in L2, C2, M2.
  rewrite C1, insert_insert_eq in C2. cbv zeta. set (st2 := link idx st1) in *. clearbody st2. pose proof (same_clock_trans _ _ _ S1 S2) as S3. clear S1 S2. assert (Nk : k <> kOverflow).
  { unfold k. rewrite dest_spec by (try apply A8; apply (A7 idx c Hc)). rewrite decide_False by lia. apply not_overflow. }
  rewrite decide_False in M2 by done. rewrite M1 in M2. rewrite W1 in W2. set (c2 := c <| t_list := k |>). change (c1 <| t_list := k |>) with c2 in C2. split; [|rewrite W2, Ew; done].
  assert (Hold : forall x c', cores st2 !! x = Some c' -> (x = idx /\ c' = c2) \/ (x <> idx /\ cores st !! x = Some c')) by (intros x c'; rewrite C2; intros [[<- <-]|[? ?]]%lookup_insert_Some; auto).
  destruct S3 as (Fg & Fc & Ff & Fn & Fs). destruct (A2 idx c Hc ltac:(congruence)) as [Ha _]. constructor.
  - done.
  - intros x c' [[-> ->]|[N Hx]]%Hold _; [split; [done | apply dest_list]|]. apply (A2 x); [done|]. intros ->. destruct (range_not_null st (firing_ st) (lo_pool _ _ A1)) as [_ ?]; [|done]. apply some_core. by eexists.
  - congruence.
  - intros x c' [[-> ->]|[N Hx]]%Hold Hl'; [done|]. rewrite M2. by apply (A4 x).
  - rewrite Fs, Fn. intros Hs x c' [[-> ->]|[N Hx]]%Hold Ha'; [by apply (A5 Hs idx c) | by apply (A5 Hs x)].
  - rewrite Fs, Fn. intros Hs. destruct (A6 Hs) as [?|(x & c' & Hx & Ha' & He)]; [by left|]. right. destruct (decide (x = idx)) as [->|N]; [exists idx, c2; rewrite C2, lookup_insert_eq; rewrite Hc in Hx; by injection Hx as <-|].
    exists x, c'. by rewrite C2, lookup_insert_ne.
  - intros x c' [[-> ->]|[N Hx]]%Hold; [apply (A7 idx c Hc) | by apply (A7 x)].
  - by rewrite Fc.
  - intros x. unfold gen. rewrite Fg. apply A9.
Qed.

Section promotion.
Context (c0 : Z) (Q : Timer -> Prop).
Hypothesis q_new : forall c, t_range c -> t_list c = dest c0 (t_expiry c) -> Q c.

Lemma promote_ok n : forall rest st L kept min, wok st L -> firing_ st = kNullHandle -> walk_next_ st = kNullHandle -> cur_ms_ st = c0 -> L kOverflow = kept ++ rest -> (length rest < n)%nat -> 0 <= min ->
  (forall x c, x ∈ kept -> cores st !! x = Some c -> c0 + kSlots <= ms_of (t_expiry c) /\ min <= ms_of (t_expiry c)) ->
  (forall x c, cores st !! x = Some c -> t_list c <> kOverflow -> Q c) ->
  exists min' st' L', promote n (first rest) min st = Some (min', st') /\ wok st' L' /\ same_clock st st' /\ walk_next_ st' = kNullHandle /\
    (forall x c, cores st' !! x = Some c -> if decide (t_list c = kOverflow) then c0 + kSlots <= ms_of (t_expiry c) /\ min' <= ms_of (t_expiry c) else Q c).
Proof.
  induction n as [|n IH]; intros rest st L kept min Hw Ef Ew Ec HL Hn Hmin Hkept HQ; [lia|]. pose proof (w_lists _ _ _ Hw) as Hlo. destruct rest as [|idx rest].
  { exists min, st, L. split; [done|]. split; [done|]. split; [done|]. split; [done|]. intros x c Hc. case_decide as E; [|by apply (HQ x)]. apply (Hkept x c); [|done]. rewrite app_nil_r in HL. rewrite <- HL. apply (lo_mem _ _ Hlo); [by left|]. by exists c. }
  assert (Ho : is_list kOverflow) by by left. pose proof (lo_seg _ _ Hlo kOverflow Ho) as Hseg. rewrite HL in Hseg. destruct (seg_at _ _ _ _ _ _ _ Hseg) as (Enx & _ & Hnn). unfold nx in Enx.
  assert (Hin : idx ∈ L kOverflow) by (rewrite HL; apply elem_of_app; right; by constructor). apply (lo_mem _ _ Hlo) in Hin as (c & Hc & Hl); [|done]. pose proof (lo_nodup _ _ Hlo kOverflow) as Hd. rewrite HL in Hd.
  cbn [promote first]. replace (idx =? kNullHandle) with false by lia. cbv zeta. rewrite Enx. destruct (tm_fields st idx c (lo_pool _ _ Hlo) Hc) as (-> & _). rewrite Ec.
  pose proof (w_range _ _ _ Hw idx c Hc) as R. destruct (ms_bounds (t_expiry c) (proj1 R)) as [Hms _]. pose proof (w_cur _ _ _ Hw) as Hcur. rewrite i64_id by (unfold in_i64, i64_min, i64_max; lia).
  destruct (Z.ltb_spec (ms_of (t_expiry c) - c0) kSlots) as [Hin|Hout].
  - destruct (relink_ok st L idx c Hw Ef Ew Hc Hl ltac:(lia)) as (Hw1 & Nk & C1 & S1 & Ew1 & M1). rewrite Ec in *. set (k := dest c0 (t_expiry c)) in *. set (st1 := link idx (unlink idx st)) in *. clearbody st1.
    assert (Hkx : idx ∉ kept) by (intros Hx; apply NoDup_app in Hd as (_ & Hd & _); apply (Hd idx Hx); by constructor).
    destruct (IH rest st1 (ins k idx (del idx L)) kept min) as (min' & st' & L' & E & Hw' & S' & Ew' & Hc'); try done.
    + destruct S1 as (_ & _ & -> & _). done.
    + destruct S1 as (_ & -> & _). done.
    + unfold ins. rewrite decide_False by congruence. unfold del. rewrite HL. by apply del_split.
    + cbn in Hn. lia.
    + intros x c' Hx. rewrite C1. intros [[<- <-]|[N Hc']]%lookup_insert_Some; [done | by apply (Hkept x)].
    + intros x c'. rewrite C1. intros [[<- <-]|[N Hc']]%lookup_insert_Some Hno; [|by apply (HQ x)]. by apply q_new.
    + exists min', st', L'. split; [done|]. split; [done|]. split; [by eapply same_clock_trans | done].
  - destruct (IH rest st L (kept ++ [idx]) (if ms_of (t_expiry c) <? min then ms_of (t_expiry c) else min)) as (min' & st' & L' & E & Hw' & S' & Ew' & Hc'); try done.
    + by rewrite HL, <- app_assoc.
    + cbn in Hn. lia.
    + destruct (_ <? _); lia.
    + intros x c' [Hx| ->%list_elem_of_singleton]%elem_of_app Hc'; [destruct (Hkept x c' Hx Hc')|rewrite Hc in Hc'; injection Hc' as <-]; (split; [lia|]); destruct (Z.ltb_spec (ms_of (t_expiry c)) min); lia.
    + exists min', st', L'. done.
Qed.
Lemma promote_overflow_ok st L : wok st L -> firing_ st = kNullHandle -> walk_next_ st = kNullHandle -> cur_ms_ st = c0 -> (forall x c, cores st !! x = Some c -> t_list c <> kOverflow -> Q c) ->
  exists st' L', promote_overflow kMaxTimers st = Some st' /\ wok st' L' /\ same_clock st st' /\ walk_next_ st' = kNullHandle /\
    (forall x c, cores st' !! x = Some c -> if decide (t_list c = kOverflow) then c0 + kSlots <= ms_of (t_expiry c) else Q c).
Proof.
  intros Hw Ef Ew Ec HQ. pose proof (w_lists _ _ _ Hw) as Hlo. assert (Ho : is_list kOverflow) by by left. unfold promote_overflow. pose proof (seg_first _ _ _ _ _ (lo_seg _ _ Hlo kOverflow Ho)) as Eh. unfold head in Eh. rewrite Z.eqb_refl in Eh. rewrite Eh.
  destruct (promote_ok (fuel kMaxTimers) (L kOverflow) st L [] never Hw Ef Ew Ec eq_refl (list_fits kMaxTimers Hcap st L kOverflow Hlo Ho)) as (min' & st' & L' & -> & Hw' & S' & Ew' & Hc'); [done | by intros x c ?%elem_of_nil | done|].
  cbn. set (st2 := st' <| overflow_min_ms_ := min' |>). exists st2, L'. destruct (lists_frame st' st2 L' eq_refl eq_refl eq_refl (w_lists _ _ _ Hw')) as [L2 C2].
  split; [done|]. split; [|split; [done|]; split; [done|]; intros x c Hx; rewrite C2 in Hx; specialize (Hc' x c Hx); case_decide; [apply Hc' | done]].
  destruct Hw' as [A1 A2 A3 A4 A5 A6 A7 A8 A9]. constructor; rewrite ?C2; try done. intros x c Hx Hl. specialize (Hc' x c Hx). rewrite decide_True in Hc' by done. apply Hc'.
Qed.
End promotion.

(** ** The poll *)

(** Between calls: no callback runs and the cursor finds every timer. *)
Definition quiet st : Prop := exists L, wok st L /\ firing_ st = kNullHandle /\ walk_next_ st = kNullHandle /\ forall x c, cores st !! x = Some c -> placed (cur_ms_ st) c.

Lemma quiet_listed st L x c : wok st L -> firing_ st = kNullHandle -> cores st !! x = Some c -> t_active c = true /\ is_list (t_list c).
Proof.
  intros Hw Ef Hc. apply (w_linked _ _ _ Hw x c Hc). rewrite Ef. apply (range_not_null st x (lo_pool _ _ (w_lists _ _ _ Hw))). apply some_core. by eexists.
Qed.
(** The cursor moves on when nothing is due. *)
Lemma moved_quiet st L now : wok st L -> firing_ st = kNullHandle -> 0 <= now < 2 ^ 61 ->
  (forall x c, cores st !! x = Some c -> t_list c = kOverflow \/ (now <= t_expiry c /\ t_list c = slot_of (ms_of (t_expiry c)) /\ ms_of (t_expiry c) < ms_of now + kSlots)) ->
  quiet (st <| walk_next_ := kNullHandle |> <| cur_ms_ := ms_of now |>).
Proof.
  intros Hw Ef Hn Hp. pose proof Hw as [A1 A2 A3 A4 A5 A6 A7 A8 A9]. set (st' := _ <| cur_ms_ := _ |>). destruct (lists_frame st st' L eq_refl eq_refl eq_refl A1) as [L1 C1]. destruct (ms_bounds now ltac:(lia)) as [Hm _].
  exists L. split; [constructor; rewrite ?C1; try done; cbn; lia|]. split; [done|]. split; [done|]. intros x c Hc. rewrite C1 in Hc. destruct (Hp x c Hc) as [?|(H1 & H2 & H3)]; [by left|]. right. change (cur_ms_ st') with (ms_of now).
  pose proof (ms_mono now (t_expiry c) ltac:(lia)). rewrite Z.max_l by lia. done.
Qed.

Section polling.
Context {W : Type} (now b : Z) (PW : Z -> W -> Prop) (f : TimerId -> Z -> TimerWheel -> W -> TimerWheel * W).
Hypothesis f_ok : callback_ok kMaxTimers now b PW f.
Hypothesis now_range : 0 <= now < 2 ^ 61.
Hypothesis b_range : now <= b <= now + 1.
Abbreviation now_ms := (ms_of now).

(** A timer that stays: not due, or in the overflow list beyond the window of the cursor [c0]. *)
Definition stays (c0 : Z) (c : Timer) : Prop :=
  (t_list c = kOverflow /\ c0 + kSlots <= ms_of (t_expiry c)) \/ (b <= t_expiry c /\ t_list c = slot_of (ms_of (t_expiry c)) /\ ms_of (t_expiry c) < now_ms + kSlots).
Definition waits (c : Timer) : Prop := now <= t_expiry c -> t_list c = slot_of (ms_of (t_expiry c)) /\ ms_of (t_expiry c) < now_ms + kSlots.
(** The slots from [c0] to now. *)
Definition window (c0 : Z) : list Z := (fun s => slot_of (i64 (c0 + s))) <$> seqZ 0 (now_ms - c0 + 1).

Lemma stays_new c0 c : 0 <= c0 < 2 ^ 43 -> c0 <= now_ms -> t_range c -> b <= t_expiry c -> t_list c = dest c0 (t_expiry c) -> stays c0 c.
Proof.
  intros Hc0 Hle R Hb Hl. rewrite dest_spec in Hl by (try done; apply R). unfold stays. pose proof (ms_mono now (t_expiry c) ltac:(lia)). case_decide; [by left|]. right. rewrite Z.max_l in Hl by lia. split; [done|]. split; [done | lia].
Qed.
Lemma waits_stays c0 c : waits c -> now < t_expiry c -> stays c0 c.
Proof. intros H Hlt. right. split; [lia|]. apply H. lia. Qed.
Lemma placed_waits cur c : cur <= now_ms -> placed cur c -> t_list c <> kOverflow -> t_range c -> waits c.
Proof. intros Hle [?|[Hl Hm]] Hno R Hn; [done|]. pose proof (ms_mono now (t_expiry c) ltac:(lia)). rewrite Z.max_l in Hl by lia. split; [done | lia]. Qed.
Lemma window_all c0 k : 0 <= c0 < 2 ^ 43 -> now_ms < 2 ^ 43 -> kSlots <= now_ms - c0 -> 0 <= k < kSlots -> k ∈ window c0.
Proof.
  intros H0 H1 H2 Hk. unfold window. apply list_elem_of_fmap. exists ((k - c0) mod kSlots). unfold kSlots in *. pose proof (Z.mod_pos_bound (k - c0) 4096 ltac:(lia)). split; [|apply elem_of_seqZ; lia].
  rewrite i64_id by (unfold in_i64, i64_min, i64_max; lia). rewrite wheel_slot_mod by lia. unfold kSlots. rewrite Zplus_mod_idemp_r. replace (c0 + (k - c0)) with k by lia. symmetry. by apply Z.mod_small.
Qed.
Lemma window_from c0 m : 0 <= c0 < 2 ^ 43 -> c0 <= m <= now_ms -> now_ms < 2 ^ 43 -> slot_of m ∈ window c0.
Proof.
  intros H0 Hm H1. unfold window. apply list_elem_of_fmap. exists (m - c0). split; [|apply elem_of_seqZ; lia]. rewrite i64_id by (unfold in_i64, i64_min, i64_max; lia). f_equal. lia.
Qed.
(** A timer placed for the cursor the walk starts from. *)
Lemma placed_window c0 c : 0 <= c0 < 2 ^ 43 -> c0 <= now_ms < 2 ^ 43 -> t_range c -> placed c0 c -> t_list c <> kOverflow -> stays c0 c \/ (waits c /\ t_list c ∈ window c0).
Proof.
  intros H0 H1 R Hp Hno. pose proof (placed_waits c0 c ltac:(lia) Hp Hno R) as HW. destruct Hp as [?|[Hl Hm]]; [done|]. destruct (Z.le_gt_cases (Z.max (ms_of (t_expiry c)) c0) now_ms) as [Hle|Hgt].
  - right. split; [done|]. rewrite Hl. apply window_from; lia.
  - left. apply waits_stays; [done|]. destruct (Z.le_gt_cases (t_expiry c) now) as [Hx|Hx]; [|lia]. pose proof (ms_mono (t_expiry c) now ltac:(destruct R; lia)). lia.
Qed.

Lemma cursor_moved st n : walk_next_ st = kNullHandle -> st <| cur_ms_ := n |> = st <| walk_next_ := kNullHandle |> <| cur_ms_ := n |>.
Proof. intros E. destruct st. cbn in *. by subst. Qed.
(** Nothing is due. *)
Lemma poll_nothing st L c0 (w : W) : wok st L -> firing_ st = kNullHandle -> walk_next_ st = kNullHandle -> next_stale_ st = false -> now < next_ st -> (forall x c, cores st !! x = Some c -> stays c0 c \/ waits c) ->
  quiet (st <| cur_ms_ := now_ms |>) /\ forall x c, cores (st <| cur_ms_ := now_ms |>) !! x = Some c -> b <= t_expiry c.
Proof.
  intros Hw Ef Ew Hs Hn HQ. assert (Hlate : forall x c, cores st !! x = Some c -> now < t_expiry c).
  { intros x c Hc. destruct (quiet_listed st L x c Hw Ef Hc) as [Ha _]. pose proof (w_next _ _ _ Hw Hs x c Hc Ha). lia. }
  split.
  - rewrite (cursor_moved st now_ms Ew). apply (moved_quiet st L); try done. intros x c Hc. pose proof (Hlate x c Hc). destruct (HQ x c Hc) as [[[? _]|(_ & ? & ?)]|Hwt]; [by left | right | right]; (split; [lia|]); [done|]. apply Hwt. lia.
  - intros x c Hc. pose proof (Hlate x c Hc). lia.
Qed.
Lemma poll_walks st L c0 (w : W) : wok st L -> firing_ st = kNullHandle -> cur_ms_ st = c0 -> c0 <= now_ms -> (forall x c, cores st !! x = Some c -> stays c0 c \/ (waits c /\ t_list c ∈ window c0)) -> PW 0 w ->
  exists n st' w', walk_slots kMaxTimers f (seqZ 0 (i64 (now_ms - c0) + 1)) now 0 st w = Some (n, st', w') /\ quiet (st' <| walk_next_ := kNullHandle |> <| cur_ms_ := now_ms |>) /\ PW n w' /\
    forall x c, cores st' !! x = Some c -> stays c0 c.
Proof.
  intros Hw Ef Ec Hle HQ HP. pose proof (w_cur _ _ _ Hw) as Hc0. rewrite Ec in Hc0. destruct (ms_bounds now ltac:(lia)) as [Hnm _]. rewrite i64_id by (unfold in_i64, i64_min, i64_max; lia).
  destruct (walk_slots_ok kMaxTimers Hmax Hcap c0 b (stays c0) waits now PW f) with (ss := seqZ 0 (now_ms - c0 + 1)) (st := st) (L := L) (w := w) (fired := 0) as (n & st' & w' & L' & E & Hw' & Ef' & Ec' & Hg & HP'); try done.
  - intros c R Hb Hl. by apply stays_new.
  - intros c. apply waits_stays.
  - lia.
  - intros x c Hc _. by apply (HQ x).
  - exists n, st', w'. split; [done|]. assert (Hst : forall x c, cores st' !! x = Some c -> stays c0 c) by (intros x c Hc; apply (Hg x c Hc); by apply (quiet_listed st' L' x c)). split; [|done].
    apply (moved_quiet st' L'); try done. intros x c Hc. destruct (Hst x c Hc) as [[? _]|(? & ? & ?)]; [by left | right]. split; [lia | done].
Qed.
Lemma stays_late c0 cur c : t_range c -> c0 = Z.max cur (now_ms - kSlots) -> stays c0 c -> b <= t_expiry c \/ (t_list c = kOverflow /\ ms_of (t_expiry c) = now_ms /\ cur + kSlots <= now_ms).
Proof.
  intros R -> [[Hl Hm]|[? _]]; [|by left]. destruct (Z.eq_dec (ms_of (t_expiry c)) now_ms) as [E|N]; [right; split; [done|]; split; [done | lia]|]. left.
  destruct (Z.le_gt_cases (t_expiry c) now) as [Hx|Hx]; [|lia]. pose proof (ms_mono (t_expiry c) now ltac:(destruct R; lia)). lia.
Qed.

Lemma poll_ok st w : quiet st -> cur_ms_ st <= now_ms -> PW 0 w ->
  exists n st' w', poll kMaxTimers f now st w = Some (n, st', w') /\ quiet st' /\ cur_ms_ st' = now_ms /\ PW n w' /\
    forall x c, cores st' !! x = Some c -> b <= t_expiry c \/ (t_list c = kOverflow /\ ms_of (t_expiry c) = now_ms /\ cur_ms_ st + kSlots <= now_ms).
Proof.
  intros (L & Hw & Ef & Ew & Hpl) Hle HP. destruct (ms_bounds now ltac:(lia)) as [Hnm _]. pose proof (w_cur _ _ _ Hw) as Hcur. unfold poll. cbv zeta. replace (now_ms <? cur_ms_ st) with false by lia.
  assert (E1 : i64 (now_ms + kSlots) = now_ms + kSlots) by (apply i64_id; unfold in_i64, i64_min, i64_max, kSlots; lia). rewrite E1.
  destruct (negb (next_stale_ st) && (now <? next_ st) && (now_ms + kSlots <=? overflow_min_ms_ st)) eqn:Efast.
  { apply andb_true_iff in Efast as [[Es%negb_true_iff Hn%Z.ltb_lt]%andb_true_iff Ho%Z.leb_le]. destruct (poll_nothing st L (cur_ms_ st) w Hw Ef Ew Es Hn) as [Hq Hb].
    - intros x c Hc. destruct (decide (t_list c = kOverflow)) as [El|Nl]; [left; left; split; [done|]; pose proof (w_over _ _ _ Hw x c Hc El); lia | right; apply (placed_waits (cur_ms_ st)); try done; [by apply (Hpl x) | by apply (w_range _ _ _ Hw x)]].
    - exists 0, (st <| cur_ms_ := now_ms |>), w. split; [done|]. split; [done|]. split; [done|]. split; [done|]. intros x c Hc. left. by apply (Hb x). }
  clear Efast. unfold poll_due. rewrite !(i64_id (now_ms - cur_ms_ st)), !(i64_id (now_ms - kSlots)) by (unfold in_i64, i64_min, i64_max, kSlots; lia). cbv zeta.
  set (st1 := if kSlots <? now_ms - cur_ms_ st then _ else st). set (c0 := Z.max (cur_ms_ st) (now_ms - kSlots)).
  assert (F1 : wok st1 L /\ cores st1 = cores st /\ firing_ st1 = kNullHandle /\ walk_next_ st1 = kNullHandle /\ cur_ms_ st1 = c0 /\ next_stale_ st1 = next_stale_ st).
  { destruct (Z.ltb_spec kSlots (now_ms - cur_ms_ st)) in st1 |- *; [|split; [done|]; split; [done|]; split; [done|]; split; [done|]; split; [|done]; unfold st1, c0; lia].
    destruct (lists_frame st st1 L eq_refl eq_refl eq_refl (w_lists _ _ _ Hw)) as [L1 C1]. split; [destruct Hw; constructor; rewrite ?C1; try done; cbn; unfold kSlots in *; lia|]. split; [done|]. split; [done|]. split; [done|]. split; [|done]. cbn. unfold c0. lia. }
  assert (Hc0 : 0 <= c0 < 2 ^ 43 /\ c0 <= now_ms) by (unfold c0, kSlots; lia). set (Q := fun c => stays c0 c \/ (waits c /\ t_list c ∈ window c0)).
  assert (HQ : forall x c, cores st1 !! x = Some c -> t_list c <> kOverflow -> Q c).
  { intros x c Hc Hno. destruct F1 as (_ & C1 & _). rewrite C1 in Hc. pose proof (w_range _ _ _ Hw x c Hc) as R. destruct (Z.le_gt_cases (now_ms - kSlots) (cur_ms_ st)) as [Hj|Hj].
    - apply placed_window; [lia | lia | done | | done]. replace c0 with (cur_ms_ st) by (unfold c0; lia). by apply (Hpl x).
    - right. split; [apply (placed_waits (cur_ms_ st)); try done; by apply (Hpl x)|]. apply window_all; [lia | lia | unfold c0; lia|]. destruct (quiet_listed st L x c Hw Ef Hc) as [_ [?|?]]; done. }
  clearbody st1. destruct F1 as (Hw1 & C1 & Ef1 & Ew1 & Ec1 & Es1). set (m := if overflow_min_ms_ st1 <? i64 (now_ms + kSlots) then promote_overflow kMaxTimers st1 else Some st1).
  assert (H2 : exists st2 L2, m = Some st2 /\ wok st2 L2 /\ firing_ st2 = kNullHandle /\ walk_next_ st2 = kNullHandle /\ cur_ms_ st2 = c0 /\ forall x c, cores st2 !! x = Some c -> Q c).
  { unfold m. rewrite E1. destruct (Z.ltb_spec (overflow_min_ms_ st1) (now_ms + kSlots)).
    - destruct (promote_overflow_ok c0 Q) with (st := st1) (L := L) as (st2 & L2 & E2 & Hw2 & (_ & S2 & S3 & _) & Ew2 & HQ2); try done.
      + intros c R Hl. destruct (decide (t_list c = kOverflow)) as [El|Nl]; [left; left; split; [done|]|apply placed_window; [lia | lia | done | | done]; apply (dest_placed c0 (t_expiry c)); try done; [lia | apply R]].
        rewrite El, dest_spec in Hl by (try lia; apply R). case_decide; [done|]. by apply symmetry, not_overflow in Hl.
      + exists st2, L2. split; [done|]. split; [done|]. split; [congruence|]. split; [done|]. split; [congruence|]. intros x c Hc. specialize (HQ2 x c Hc). case_decide; [left; by left | done].
    - exists st1, L. do 5 (split; [done|]). intros x c Hc. destruct (decide (t_list c = kOverflow)) as [El|Nl]; [|by apply (HQ x)]. left. left. split; [done|]. pose proof (w_over _ _ _ Hw1 x c Hc El). lia. }
  destruct H2 as (st2 & L2 & -> & Hw2 & Ef2 & Ew2 & Ec2 & HQ2). cbn [mbind option_bind]. destruct (negb (next_stale_ st2) && (now <? next_ st2)) eqn:Elate.
  - apply andb_true_iff in Elate as [Es%negb_true_iff Hn%Z.ltb_lt]. destruct (poll_nothing st2 L2 c0 w Hw2 Ef2 Ew2 Es Hn) as [Hq Hb]; [intros x c Hc; destruct (HQ2 x c Hc) as [?|[? _]]; auto|].
    exists 0, (st2 <| cur_ms_ := now_ms |>), w. split; [done|]. split; [done|]. split; [done|]. split; [done|]. intros x c Hc. left. by apply (Hb x).
  - rewrite Ec2. destruct (poll_walks st2 L2 c0 w Hw2 Ef2 Ec2 ltac:(lia) HQ2 HP) as (n & st3 & w3 & -> & Hq & HP3 & Hst). cbn. eexists _, _, w3. split; [done|]. split; [exact Hq|]. split; [done|]. split; [done|].
    intros x c Hc. apply (stays_late c0); [|done | by apply (Hst x)]. destruct Hq as (L3 & Hw3 & _). apply (w_range _ _ _ Hw3 x). exact Hc.
Qed.
End polling.
End poll.
