(* ===== verification/TimerProps.v ===== *)
(** * TimerProps: the timer wheel in every state it reaches *)

From S2P Require Import Prelude Types Orders Interfaces Pool DList TimerWheel TimerInv TimerOps TimerWalk TimerPoll.

#[local] Arguments i64 : simpl never.
#[local] Arguments u64 : simpl never.
#[local] Arguments u32 : simpl never.
#[local] Arguments kNullHandle : simpl never.
#[local] Arguments kOverflow : simpl never.
#[local] Arguments kUnlinked : simpl never.

Section props.
Context {P : Type} `{OPO : !ObjPoolOps P Timer} `{OP : !ObjPool P Timer} (kMaxTimers : Z) (Hmax : 0 < kMaxTimers <= 2 ^ 24) (Hcap : op_cap = kMaxTimers).
Abbreviation TimerWheel := (TimerWheel P).
Abbreviation wok := (wok kMaxTimers).
Abbreviation quiet := (quiet kMaxTimers).
Implicit Type st : TimerWheel.

(** ** Identifiers *)

Lemma bits_range : 0 <= kIndexBits kMaxTimers <= 24 /\ kMaxTimers <= 2 ^ kIndexBits kMaxTimers.
Proof.
  unfold kIndexBits. destruct (Z.eqb_spec (kMaxTimers - 1) 0); [split; [lia|]; cbn; lia|]. pose proof (Z.log2_nonneg (kMaxTimers - 1)). assert (Z.log2 (kMaxTimers - 1) < 24) by (apply Z.log2_lt_pow2; lia).
  split; [lia|]. pose proof (Z.log2_spec (kMaxTimers - 1) ltac:(lia)). replace (Z.succ (Z.log2 (kMaxTimers - 1))) with (Z.log2 (kMaxTimers - 1) + 1) in * by lia. lia.
Qed.
Lemma id_split st x : (forall y, 0 <= gen st y < kGenerations kMaxTimers) -> 0 <= x < kMaxTimers ->
  id_of kMaxTimers st x = gen st x * 2 ^ kIndexBits kMaxTimers + x /\ 0 <= id_of kMaxTimers st x < kInvalidTimer /\ index_of kMaxTimers (id_of kMaxTimers st x) = x /\ Z.shiftr (id_of kMaxTimers st x) (kIndexBits kMaxTimers) = gen st x.
Proof.
  intros Hg Hx. destruct bits_range as [Hb Hm]. specialize (Hg x). unfold id_of. set (n := kIndexBits kMaxTimers) in *. set (g := gen st x) in *.
  assert (Hk : kGenerations kMaxTimers * 2 ^ n <= 4294967295) by (unfold kGenerations; fold n; rewrite Z.shiftr_div_pow2 by lia; rewrite Z.mul_comm; apply Z.mul_div_le; apply Z.pow_pos_nonneg; lia).
  pose proof (Z.pow_pos_nonneg 2 n ltac:(lia) ltac:(lia)) as Hp. assert (Hs : g * 2 ^ n + 2 ^ n <= 4294967295) by nia.
  assert (E : Z.lor (u32 (Z.shiftl g n)) x = g * 2 ^ n + x).
  { unfold u32. rewrite Z.mod_small by (rewrite Z.shiftl_mul_pow2 by lia; nia). apply lor_pack; lia. }
  rewrite E. unfold kInvalidTimer, index_of, kIndexMask. fold n. split; [done|]. split; [nia|]. split.
  - replace (2 ^ n - 1) with (Z.ones n) by (rewrite Z.ones_equiv; lia). rewrite Z.land_ones by lia. rewrite Z.add_comm, Z.mod_add by lia. apply Z.mod_small. lia.
  - rewrite Z.shiftr_div_pow2 by lia. rewrite Z.div_add_l by lia. rewrite Z.div_small by lia. lia.
Qed.
Lemma core_range st L x c : wok st L -> cores st !! x = Some c -> 0 <= x < kMaxTimers.
Proof. intros Hw Hc. rewrite <- Hcap. apply (range_not_null st x (lo_pool _ _ (w_lists _ _ _ Hw))). apply some_core. by eexists. Qed.
Lemma active_spec st L id : wok st L -> 0 <= id <= kInvalidTimer -> active kMaxTimers st id = true <-> exists x c, cores st !! x = Some c /\ t_active c = true /\ id_of kMaxTimers st x = id.
Proof.
  intros Hw Hid. pose proof (lo_pool _ _ (w_lists _ _ _ Hw)) as Hok. pose proof (w_gen _ _ _ Hw) as Hg. unfold active. rewrite andb_true_iff. split.
  - intros [Hl Ha]. destruct (live_some kMaxTimers st id Hok ltac:(lia) Hl) as [c Hc]. exists (index_of kMaxTimers id), c. split; [done|]. destruct (tm_fields st _ c Hok Hc) as (_ & _ & _ & _ & _ & <-). split; [done|].
    pose proof (core_range st L _ c Hw Hc) as Hr. destruct (id_split st _ Hg Hr) as (-> & _). unfold live in Hl. apply andb_true_iff in Hl as [_ Egen%Z.eqb_eq]. rewrite <- Egen. destruct bits_range as [Hb _].
    rewrite Z.shiftr_div_pow2 by lia. unfold index_of, kIndexMask. replace (2 ^ kIndexBits kMaxTimers - 1) with (Z.ones (kIndexBits kMaxTimers)) by (rewrite Z.ones_equiv; lia). rewrite Z.land_ones by lia.
    pose proof (Z.pow_pos_nonneg 2 (kIndexBits kMaxTimers) ltac:(lia) ltac:(lia)). pose proof (Z.div_mod id (2 ^ kIndexBits kMaxTimers) ltac:(lia)). lia.
  - intros (x & c & Hc & Ha & <-). pose proof (core_range st L x c Hw Hc) as Hr. destruct (id_split st x Hg Hr) as (_ & Hi & E1 & E2). rewrite E1. destruct (tm_fields st x c Hok Hc) as (_ & _ & _ & _ & _ & ->). split; [|done].
    unfold live. rewrite E1, E2. assert (op_is_live (pool_ st) x = true) as -> by (apply op_live_spec; [done | lia | apply some_core; by eexists]). rewrite Z.eqb_refl. lia.
Qed.
Lemma id_inj st L x y c d : wok st L -> cores st !! x = Some c -> cores st !! y = Some d -> id_of kMaxTimers st x = id_of kMaxTimers st y -> x = y.
Proof.
  intros Hw Hx Hy E. pose proof (w_gen _ _ _ Hw) as Hg. destruct (id_split st x Hg (core_range st L x c Hw Hx)) as (_ & _ & <- & _). destruct (id_split st y Hg (core_range st L y d Hw Hy)) as (_ & _ & <- & _). by rewrite E.
Qed.

(** ** Reachable states *)

Inductive wheel_reach : TimerWheel -> Prop :=
| wr_new now : 0 <= now < 2 ^ 61 -> wheel_reach (new_wheel now)
| wr_add st now period repeat ud : wheel_reach st -> 0 <= now -> 0 <= period < 2 ^ 61 -> now + period < 2 ^ 62 -> wheel_reach (snd (add kMaxTimers now period repeat ud st))
| wr_cancel st id : wheel_reach st -> 0 <= id -> wheel_reach (snd (cancel kMaxTimers id st))
| wr_ask st : wheel_reach st -> wheel_reach (snd (next_expiry st))
| wr_warm st : wheel_reach st -> wheel_reach (warm_up st)
| wr_poll st W (f : TimerId -> Z -> TimerWheel -> W -> TimerWheel * W) now w n st' w' : wheel_reach st -> 0 <= now < 2 ^ 61 -> (forall id ud s w, calls kMaxTimers now s (fst (f id ud s w))) ->
    poll kMaxTimers f now st w = Some (n, st', w') -> wheel_reach st'
| wr_recorded st W (f : TimerId -> Z -> TimerWheel -> W -> TimerWheel * W) id ud now w : wheel_reach st -> 0 <= id <= kInvalidTimer -> 0 <= now < 2 ^ 61 -> t_expiry (tm st (index_of kMaxTimers id)) <= now ->
    (forall id ud s w, calls kMaxTimers 0 s (fst (f id ud s w))) -> wheel_reach (snd (fst (fire_recorded kMaxTimers f id ud now st w))).

Lemma new_quiet now : 0 <= now < 2 ^ 61 -> quiet (new_wheel now).
Proof.
  intros Hn. destruct op_new_ok as [Hok E]. assert (C : forall x, cores (new_wheel now : TimerWheel) !! x = None) by (intros x; unfold cores, timers; cbn; by rewrite E, fmap_empty, lookup_empty).
  destruct (ms_bounds now ltac:(lia)) as [Hm _]. pose proof (generations_pos kMaxTimers Hmax). exists (fun _ => []). split; [|split; [done|]; split; [done|]; intros x c Hc; by rewrite C in Hc]. constructor.
  - constructor; [done | | intros; constructor | intros k x _; rewrite C; split; [by intros ?%elem_of_nil | by intros (c & ? & _)]]. intros k _. cbn. unfold head. by destruct (k =? kOverflow).
  - intros x c Hc. by rewrite C in Hc.
  - done.
  - intros x c Hc. by rewrite C in Hc.
  - intros _ x c Hc. by rewrite C in Hc.
  - by left.
  - intros x c Hc. by rewrite C in Hc.
  - done.
  - intros x. unfold gen. cbn. rewrite lookup_empty. cbn. lia.
Qed.
Lemma add_quiet st now period repeat ud : quiet st -> 0 <= now -> 0 <= period < 2 ^ 61 -> now + period < 2 ^ 62 -> quiet (snd (add kMaxTimers now period repeat ud st)).
Proof.
  intros (L & Hw & Ef & Ew & Hp) Hn Hpe Hr. destruct (add kMaxTimers now period repeat ud st) as [id st'] eqn:E. cbn [snd].
  destruct (add_ok kMaxTimers now period repeat ud st L id st' Hw Hn Hpe Hr E) as [(-> & _)|(h & c & _ & C & Ee & El & _ & _ & _ & Hw' & F1 & F2 & F3 & _)]; [by exists L|].
  exists (ins (t_list c) h L). split; [done|]. split; [congruence|]. split; [congruence|]. intros x c'. rewrite C, F1. intros [[<- <-]|[_ Hc]]%lookup_insert_Some; [|by apply (Hp x)]. apply (dest_placed _ (t_expiry c)); [apply Hw | lia | done | congruence].
Qed.
Lemma not_firing st L x c : wok st L -> firing_ st = kNullHandle -> cores st !! x = Some c -> x <> firing_ st.
Proof. intros Hw Ef Hc. rewrite Ef. apply (range_not_null st x (lo_pool _ _ (w_lists _ _ _ Hw))). apply some_core. by eexists. Qed.
Lemma cancel_quiet st id : quiet st -> 0 <= id -> quiet (snd (cancel kMaxTimers id st)).
Proof.
  intros (L & Hw & Ef & Ew & Hp) Hid. destruct (cancel kMaxTimers id st) as [r st'] eqn:E. cbn [snd]. destruct (timer_cancel_ok kMaxTimers Hmax id st L r st' Hw Hid E) as [[_ ->]|(_ & h & c & -> & Hc & _ & F1 & F2 & _ & [(Efi & _)|(_ & Hw' & C & F3)])]; [by exists L| |].
  - by destruct (not_firing st L _ c Hw Ef Hc).
  - exists (del (index_of kMaxTimers id) L). split; [done|]. split; [congruence|]. split.
    + rewrite F3, decide_False; [done|]. rewrite Ew, <- Ef. by apply (not_firing st L _ c).
    + intros x c'. rewrite C, F1. intros [_ Hx]%lookup_delete_Some. by apply (Hp x).
Qed.
Lemma ask_quiet st : quiet st -> quiet (snd (next_expiry st)).
Proof.
  intros (L & Hw & Ef & Ew & Hp). destruct (next_expiry st) as [e st'] eqn:E. destruct (next_expiry_ok kMaxTimers st L e st' Hw E) as (Hw' & C & F1 & F2 & F3 & _). exists L. cbn [snd]. split; [done|]. split; [congruence|]. split; [congruence|]. intros x c. rewrite C, F1. apply Hp.
Qed.
Lemma warm_quiet st : quiet st -> quiet (warm_up st).
Proof.
  intros (L & [[B1 B2 B3 B4] A2 A3 A4 A5 A6 A7 A8 A9] & Ef & Ew & Hp). destruct (op_warm_up_spec _ B1) as [Hok E]. assert (C : cores (warm_up st) = cores st) by (unfold cores, timers; cbn; by rewrite E).
  exists L. split; [|split; [done|]; split; [done|]; intros x c; rewrite C; apply Hp]. constructor; rewrite ?C; try done. constructor; [done | | done | by rewrite C]. intros k Hk. apply (dseg_ext (nx st) (pv st)); [|by apply B2].
  intros x Hx. apply B4 in Hx as (c & Hc & _); [|done]. apply core_timers in Hc as (t & Ht & _). assert (tm (warm_up st) x = tm st x) as Et; [|unfold nx, pv; by rewrite Et].
  rewrite (tm_timers st x t B1 Ht). apply tm_timers; [done|]. unfold timers. cbn. by rewrite E.
Qed.

Lemma walking_quiet c0 L st : walking kMaxTimers c0 [] 0 (placed c0) (fun _ => False) [] st L -> firing_ st = kNullHandle -> quiet st.
Proof.
  intros [W1 W2 W3 W4 W5] Ef. exists L. split; [done|]. split; [done|]. split; [done|]. intros x c Hc. rewrite W2. destruct (W5 x c Hc ltac:(apply (quiet_listed kMaxTimers st L x c W1 Ef Hc))) as [?|[[] _]]. done.
Qed.
Lemma placed_new cur c : 0 <= cur < 2 ^ 43 -> t_range c -> 0 <= t_expiry c -> t_list c = dest cur (t_expiry c) -> placed cur c.
Proof. intros Hc R _ Hl. apply (dest_placed cur (t_expiry c)); [done | apply R | done | done]. Qed.
Lemma recorded_quiet {W} (f : TimerId -> Z -> TimerWheel -> W -> TimerWheel * W) st id ud now w : quiet st -> 0 <= id <= kInvalidTimer -> 0 <= now < 2 ^ 61 -> t_expiry (tm st (index_of kMaxTimers id)) <= now ->
  (forall id ud s w, calls kMaxTimers 0 s (fst (f id ud s w))) -> quiet (snd (fst (fire_recorded kMaxTimers f id ud now st w))).
Proof.
  intros (L & Hw & Ef & Ew & Hp) Hid Hn He Hf. unfold fire_recorded. assert (Hk : is_list 0) by (right; unfold kSlots; lia). assert (Hnew : forall c, t_range c -> 0 <= t_expiry c -> t_list c = dest (cur_ms_ st) (t_expiry c) -> placed (cur_ms_ st) c) by (intros c; apply placed_new, Hw).
  destruct (active kMaxTimers st id) eqn:Ea; cbn [negb].
  - apply (active_spec st L) in Ea as (x & c & Hc & Ha & <-); [|done|done]. destruct (id_split st x (w_gen _ _ _ Hw) (core_range st L x c Hw Hc)) as (_ & _ & Ex & _). rewrite Ex in *. destruct (tm_fields st x c (lo_pool _ _ (w_lists _ _ _ Hw)) Hc) as (Ee & _). rewrite Ee in He.
    assert (Hcb : callback_ok kMaxTimers now 0 (fun _ _ => True) f) by (intros n s w0 L0 idx c0 _ _ _ _ _ _; split; [apply Hf | done]).
    destruct (fire_ok kMaxTimers Hmax (cur_ms_ st) 0 [] 0 (placed (cur_ms_ st)) (fun _ => False) Hk Hnew now (fun _ _ => True) f Hcb Hn ltac:(lia) 0 x c [] st L w Hw Ef eq_refl Hc He) as (st' & w' & rest' & L' & E & HW & Hlen & Ef' & _); try done.
    + exists (del x L 0). by rewrite app_nil_r.
    + change (first []) with kNullHandle. rewrite <- Ef. by apply (not_firing st L x c).
    + intros y c' _ Hc' _. left. by apply (Hp y).
    + rewrite E. cbn [fst snd]. destruct rest'; [|cbn in Hlen; lia]. by apply (walking_quiet (cur_ms_ st) L').
  - pose proof (Hf id ud st w) as Hcalls. destruct (f id ud st w) as [st' w']. cbn [fst snd] in *.
    destruct (walking_calls kMaxTimers Hmax (cur_ms_ st) 0 [] 0 (placed (cur_ms_ st)) (fun _ => False) Hk Hnew st st' Hcalls [] L) as (rest' & L' & HW & Hlen & Ef' & _).
    + constructor; [done | done | exists (L 0); by rewrite app_nil_r | done |]. intros x c Hc _. left. by apply (Hp x).
    + destruct rest'; [|cbn in Hlen; lia]. apply (walking_quiet (cur_ms_ st) L'); [done | congruence].
Qed.
Lemma poll_quiet {W} (f : TimerId -> Z -> TimerWheel -> W -> TimerWheel * W) st now w n st' w' : quiet st -> 0 <= now < 2 ^ 61 -> (forall id ud s w, calls kMaxTimers now s (fst (f id ud s w))) -> poll kMaxTimers f now st w = Some (n, st', w') -> quiet st'.
Proof.
  intros Hq Hn Hf E. destruct (Z.le_gt_cases (cur_ms_ st) (ms_of now)) as [Hle|Hgt].
  - assert (Hcb : callback_ok kMaxTimers now now (fun _ _ => True) f) by (intros k s w0 L0 idx c0 _ _ _ _ _ _; split; [apply Hf | done]).
    destruct (poll_ok kMaxTimers Hmax Hcap now now (fun _ _ => True) f Hcb Hn ltac:(lia) st w Hq Hle I) as (n1 & st1 & w1 & E1 & Hq1 & _). rewrite E in E1. by injection E1 as _ -> _.
  - unfold poll in E. cbv zeta in E. replace (ms_of now <? cur_ms_ st) with true in E by lia. by injection E as _ <- _.
Qed.
Lemma reach_quiet st : wheel_reach st -> quiet st.
Proof.
  induction 1; [by apply new_quiet | by apply add_quiet | by apply cancel_quiet | by apply ask_quiet | by apply warm_quiet | by eapply poll_quiet | by apply recorded_quiet].
Qed.

(** ** What a poll does *)

(** The callback with the timers it was called for on record. *)
Definition recording {W} (f : TimerId -> Z -> TimerWheel -> W -> TimerWheel * W) (id : TimerId) (ud : Z) st (x : W * list Timer) : TimerWheel * (W * list Timer) :=
  let '(st', w') := f id ud st (fst x) in (st', (w', snd x ++ [tm st (index_of kMaxTimers id)])).

(** C17. A poll at a time the wheel is not ahead of returns, with the number of timers fired, and each of them was active and
    due.  Its callbacks may cancel any timer, the firing one and the ones after it included, and add timers that expire at
    [b] or later, [b] being the time of the poll or the nanosecond after it; then every timer left expires at [b] or later,
    so with the later [b] nothing due is left.  The exception are timers that expire in the very millisecond of the poll and
    sit in the overflow list after the wheel was not polled for [kSlots] milliseconds. *)
Theorem poll_fires_due {W} (f : TimerId -> Z -> TimerWheel -> W -> TimerWheel * W) st now b w : wheel_reach st -> 0 <= now < 2 ^ 61 -> cur_ms_ st <= ms_of now -> now <= b <= now + 1 ->
  (forall id ud s w, calls kMaxTimers b s (fst (f id ud s w))) ->
  exists n st' w' log, poll kMaxTimers (recording f) now st (w, []) = Some (n, st', (w', log)) /\ n = u64 (Z.of_nat (length log)) /\
    Forall (fun t => t_active t = true /\ t_expiry t <= now) log /\
    forall x c, cores st' !! x = Some c -> b <= t_expiry c \/ (t_list c = kOverflow /\ ms_of (t_expiry c) = ms_of now /\ cur_ms_ st + kSlots <= ms_of now).
Proof.
  intros Hq%reach_quiet Hn Hc Hb Hf. set (PW := fun n (x : W * list Timer) => n = u64 (Z.of_nat (length (snd x))) /\ Forall (fun t => t_active t = true /\ t_expiry t <= now) (snd x)).
  assert (Hcb : callback_ok kMaxTimers now b PW (recording f)).
  { intros n s [w0 l] L idx c Hw Efi Hcx Ha Hdue [-> Hl]. unfold recording. cbn [fst snd]. pose proof (Hf (id_of kMaxTimers s idx) (t_user_data c) s w0) as Hcalls. destruct (f _ _ s w0) as [s' w1]. cbn [fst snd] in *. split; [done|].
    unfold PW. cbn [fst snd]. split; [rewrite length_app; cbn; unfold u64; rewrite Zplus_mod_idemp_l; f_equal; lia|]. apply Forall_app. split; [done|]. apply Forall_singleton. destruct (id_split s idx (w_gen _ _ _ Hw) (core_range s L idx c Hw Hcx)) as (_ & _ & -> & _).
    destruct (tm_fields s idx c (lo_pool _ _ (w_lists _ _ _ Hw)) Hcx) as (-> & _ & _ & _ & _ & ->). done. }
  destruct (poll_ok kMaxTimers Hmax Hcap now b PW (recording f) Hcb Hn Hb st (w, []) Hq Hc) as (n & st' & [w' log] & E & _ & _ & [H1 H2] & H3); [done|]. by exists n, st', w', log.
Qed.

(** The next expiry is exact: in every state, [next_expiry] answers the earliest expiry of the timers there are, or the
    end of time when there is none. *)
Theorem next_expiry_exact st : wheel_reach st -> let e := fst (next_expiry st) in
  (cores st = ∅ /\ e = i64_max) \/ ((exists x c, cores st !! x = Some c /\ t_expiry c = e) /\ forall x c, cores st !! x = Some c -> e <= t_expiry c).
Proof.
  intros (L & Hw & Ef & _ & _)%reach_quiet e. destruct (next_expiry st) as [e0 st'] eqn:E. cbn [fst] in e. subst e. destruct (next_expiry_ok kMaxTimers st L e0 st' Hw E) as (Hw' & C & _ & F2 & _ & Hs & -> & _).
  assert (Hle : forall x c, cores st !! x = Some c -> next_ st' <= t_expiry c).
  { intros x c Hc. rewrite <- C in Hc. apply (w_next _ _ _ Hw' Hs x c Hc). apply (quiet_listed kMaxTimers st' L x c Hw'); [congruence | done]. }
  destruct (w_least _ _ _ Hw' Hs) as [Em|(x & c & Hc & _ & He)].
  - left. split; [|done]. apply map_eq. intros x. rewrite lookup_empty. destruct (cores st !! x) as [c|] eqn:Hc; [|done]. pose proof (Hle x c Hc). pose proof (proj1 (w_range _ _ _ Hw x c Hc)). unfold i64_max in Em. lia.
  - right. split; [|done]. exists x, c. by rewrite <- C.
Qed.

(** C37. An identifier names one timer: adding makes exactly the returned id active, or answers the invalid id when the pool
    is full; cancelling succeeds exactly for active ids and makes exactly that id inactive. *)
Theorem timer_ids st now period repeat ud id : wheel_reach st -> 0 <= now -> 0 <= period < 2 ^ 61 -> now + period < 2 ^ 62 -> 0 <= id <= kInvalidTimer ->
  (let '(new, st') := add kMaxTimers now period repeat ud st in
    (st' = st /\ new = kInvalidTimer /\ Z.of_nat (size (cores st)) = kMaxTimers) \/
    (active kMaxTimers st new = false /\ forall i, 0 <= i <= kInvalidTimer -> active kMaxTimers st' i = (i =? new) || active kMaxTimers st i)) /\
  (let '(r, st') := cancel kMaxTimers id st in
    r = active kMaxTimers st id /\ forall i, 0 <= i <= kInvalidTimer -> active kMaxTimers st' i = negb (i =? id) && active kMaxTimers st i).
Proof.
  intros (L & Hw & Ef & _ & _)%reach_quiet Hn Hp Hr Hid. split.
  - destruct (add kMaxTimers now period repeat ud st) as [new st'] eqn:E. destruct (add_ok kMaxTimers now period repeat ud st L new st' Hw Hn Hp Hr E) as [(-> & -> & Hs)|(h & c & Hnone & C & _ & _ & Ha & _ & _ & Hw' & _ & _ & _ & Fg & ->)]; [left; by rewrite <- Hcap|].
    assert (Hhc : cores st' !! h = Some c) by by rewrite C, lookup_insert_eq. pose proof (core_range st' _ h c Hw' Hhc) as Hh. destruct (id_split st' h (w_gen _ _ _ Hw') Hh) as (_ & Hi & Eh & _).
    assert (Eid : forall x, id_of kMaxTimers st' x = id_of kMaxTimers st x) by (intros x; unfold id_of, gen; by rewrite Fg). right. split.
    + apply not_true_iff_false. rewrite (active_spec st L) by (try done; lia). intros (x & c' & Hc' & _ & Ei). rewrite <- Eid in Ei. destruct (id_split st' x (w_gen _ _ _ Hw') (core_range st L x c' Hw Hc')) as (_ & _ & Ex & _). rewrite Ei, Eh in Ex. subst. by rewrite Hnone in Hc'.
    + intros i Hi'. apply eq_true_iff_eq. rewrite orb_true_iff, Z.eqb_eq, (active_spec st' _ i Hw' Hi'), (active_spec st L i Hw Hi'). split.
      * intros (x & c' & Hc' & Ha' & <-). rewrite C in Hc'. apply lookup_insert_Some in Hc' as [[<- <-]|[_ Hc']]; [by left|]. right. exists x, c'. by rewrite Eid.
      * intros [->|(x & c' & Hc' & Ha' & <-)]; [by exists h, c|]. exists x, c'. rewrite Eid, C, lookup_insert_ne; [done|]. intros ->. by rewrite Hnone in Hc'.
  - destruct (cancel kMaxTimers id st) as [r st'] eqn:E. destruct (timer_cancel_ok kMaxTimers Hmax id st L r st' Hw ltac:(lia) E) as [[-> ->]|(-> & h & c & -> & Hc & Ha & F1 & F2 & Hgen & [(Efi & _)|(_ & Hw' & C & F3)])].
    + assert (Hf : active kMaxTimers st id = false). { revert E. unfold active, cancel. destruct (live kMaxTimers st id); [|done]. cbn [negb andb]. destruct (t_active (tm st (index_of kMaxTimers id))); [discriminate | done]. }
      split; [done|]. intros i _. destruct (Z.eqb_spec i id) as [->|]; [done | done].
    + by destruct (not_firing st L _ c Hw Ef Hc).
    + set (h := index_of kMaxTimers id) in *. assert (Hact : active kMaxTimers st id = true) by (revert E; unfold active, cancel; fold h; destruct (live kMaxTimers st id); [|discriminate]; cbn [negb andb]; by destruct (t_active (tm st h))).
      pose proof Hact as Hact'. apply (active_spec st L) in Hact' as (x & c' & Hc' & _ & Eid); [|done|done]. destruct (id_split st x (w_gen _ _ _ Hw) (core_range st L x c' Hw Hc')) as (_ & _ & Ex & _). rewrite Eid in Ex. fold h in Ex. subst x.
      split; [done|]. intros i Hi. apply eq_true_iff_eq. rewrite andb_true_iff, negb_true_iff, Z.eqb_neq, (active_spec st' _ i Hw' Hi), (active_spec st L i Hw Hi).
      assert (Eids : forall y, y <> h -> id_of kMaxTimers st' y = id_of kMaxTimers st y) by (intros y N; unfold id_of; by rewrite (Hgen y N)). split.
      * intros (y & d & Hd & Hda & <-). rewrite C in Hd. apply lookup_delete_Some in Hd as [N Hd]. rewrite Eids by done. split; [|by exists y, d]. rewrite <- Eid. intros E'. by apply N, (id_inj st L h y c d).
      * intros [N (y & d & Hd & Hda & <-)]. exists y, d. assert (y <> h) by (intros ->; congruence). rewrite Eids, C, lookup_delete_ne by done. done.
Qed.

(** ** Looking ahead *)

Lemma listed_seg st p h l n : seg (nx st) (pv st) p h l -> (length l < n)%nat -> listed st n h = Some l.
Proof.
  revert p h n. induction l as [|x l IH]; intros p h n H Hn; (destruct n as [|n]; [cbn in Hn; lia|]); cbn [listed].
  - cbn in H. subst. by rewrite Z.eqb_refl.
  - cbn in H. destruct H as (-> & N & _ & H). replace (x =? kNullHandle) with false by lia. unfold nx in H at 2. cbn in Hn. by rewrite (IH x _ n H ltac:(lia)).
Qed.
Lemma scan_ok st L ss : wok st L -> firing_ st = kNullHandle -> forall best, exists e,
  foldr (fun s k best => match listed st (fuel kMaxTimers) (head st (slot_of (i64 (cur_ms_ st + s)))) with Some hs => k (earliest st hs best) | None => None end) Some ss best = Some e /\ e <= best /\
  (forall s x c, s ∈ ss -> cores st !! x = Some c -> t_list c = slot_of (i64 (cur_ms_ st + s)) -> e <= t_expiry c) /\ (e = best \/ exists x c, cores st !! x = Some c /\ t_list c <> kOverflow /\ t_expiry c = e).
Proof.
  intros Hw Ef. pose proof (w_lists _ _ _ Hw) as HL. pose proof (lo_pool _ _ HL) as Hok. induction ss as [|s ss IH]; intros best; cbn [foldr]; [exists best; split; [done|]; split; [lia|]; split; [by intros s x c ?%elem_of_nil | by left]|].
  set (k := slot_of (i64 (cur_ms_ st + s))). assert (Hk : is_list k) by (right; apply wheel_slot_range). rewrite (listed_seg st _ _ (L k) _ (lo_seg _ _ HL k Hk) (list_fits kMaxTimers Hcap st L k HL Hk)).
  destruct (earliest_spec st (L k) best) as (B1 & B2 & B3). destruct (IH (earliest st (L k) best)) as (e & -> & H1 & H2 & H3). exists e. split; [done|]. split; [lia|]. split.
  - intros s' x c [->|Hs]%elem_of_cons Hc El; [|by apply (H2 s' x)]. destruct (tm_fields st x c Hok Hc) as (E1 & _ & _ & _ & _ & E2). rewrite <- E1. etransitivity; [exact H1|]. apply B2; [apply (lo_mem _ _ HL); [done|]; by exists c|]. rewrite E2. apply (quiet_listed kMaxTimers st L x c Hw Ef Hc).
  - destruct H3 as [->|?]; [|by right]. destruct B3 as [?|(x & Hx & _ & He)]; [by left|]. right. apply (lo_mem _ _ HL) in Hx as (c & Hc & El); [|done]. exists x, c. destruct (tm_fields st x c Hok Hc) as (E1 & _). split; [done|]. split; [rewrite El; apply not_overflow | congruence].
Qed.
(** The bound of the idle wait is exact: [next_expiry_before] answers the earliest expiry before the limit among the timers
    in the wheel, or the limit; timers in the overflow list are not looked at. *)
Theorem next_expiry_before_exact st limit : wheel_reach st -> 0 <= limit < 2 ^ 62 -> cur_ms_ st <= ms_of limit -> exists e, next_expiry_before kMaxTimers limit st = Some e /\ e <= limit /\
  (forall x c, cores st !! x = Some c -> t_list c <> kOverflow -> e <= t_expiry c) /\ (e = limit \/ exists x c, cores st !! x = Some c /\ t_list c <> kOverflow /\ t_expiry c = e).
Proof.
  intros (L & Hw & Ef & _ & Hp)%reach_quiet Hl Hc. pose proof (w_cur _ _ _ Hw) as Hcur. destruct (ms_bounds limit Hl) as [Hm _]. unfold next_expiry_before. rewrite i64_id by (unfold in_i64, i64_min, i64_max; lia). cbv zeta.
  set (steps := if _ <? kSlots then _ else _). destruct (scan_ok st L (seqZ 0 (steps + 1)) Hw Ef limit) as (e & E & H1 & H2 & H3). exists e. split; [done|]. split; [done|]. split; [|done].
  intros x c Hx Hno. destruct (Z.le_gt_cases limit (t_expiry c)) as [?|Hlt]; [lia|]. pose proof (w_range _ _ _ Hw x c Hx) as [R _]. pose proof (ms_mono (t_expiry c) limit ltac:(lia)). destruct (Hp x c Hx) as [?|[El Hms]]; [done|].
  destruct (ms_bounds (t_expiry c) R) as [Hmc _]. set (m := Z.max (ms_of (t_expiry c)) (cur_ms_ st)) in *. apply (H2 (m - cur_ms_ st) x c).
  - apply elem_of_seqZ. unfold steps. destruct (Z.ltb_spec (ms_of limit - cur_ms_ st) kSlots); unfold kSlots in *; lia.
  - done.
  - rewrite El. f_equal. rewrite i64_id by (unfold in_i64, i64_min, i64_max; lia). lia.
Qed.
End props.

(** ** A wheel of four timers *)

Module ConcreteTimers.
#[local] Instance four_ops : ObjPoolOps (Pool.Pool Timer) Timer | 0 := pool_ops Timer 4.
#[local] Instance four : ObjPool (Pool.Pool Timer) Timer := obj_pool Timer 4 ltac:(unfold kNullHandle; lia).
Abbreviation Wheel := (TimerWheel (Pool.Pool Timer)).
Abbreviation ms := 1000000.
Lemma four_max : 0 < 4 <= 2 ^ 24.
Proof. lia. Qed.
Lemma four_cap : @op_cap _ _ _ four = 4.
Proof. reflexivity. Qed.

(** One timer every five milliseconds, one once after seven, one beyond the horizon. *)
Definition w0 : Wheel := new_wheel 0.
Definition w1 : Wheel := snd (add 4 0 (5 * ms) true 50 w0).
Definition w2 : Wheel := snd (add 4 0 (7 * ms) false 70 w1).
Definition w3 : Wheel := snd (add 4 0 (5000 * ms) false 90 w2).
Lemma w3_reach : wheel_reach 4 w3.
Proof. unfold w3, w2, w1, w0. do 3 (apply wr_add; [|lia | lia | lia]). apply wr_new. lia. Qed.
(** The repeating timer's callback cancels the other one, the next of the walk, and starts a new one. *)
Definition on_timer (id : TimerId) (ud : Z) (st : Wheel) (w : list Z) : Wheel * list Z :=
  (if ud =? 50 then snd (add 4 (8 * ms) (2 * ms) false 20 (snd (cancel 4 1 st))) else st, w ++ [ud]).
Lemma on_timer_calls id ud (st : Wheel) w : calls 4 (8 * ms + 1) st (fst (on_timer id ud st w)).
Proof.
  unfold on_timer. cbn [fst]. destruct (ud =? 50); [|constructor]. apply (calls_cancel 4 _ _ _ 1); [lia|]. apply (calls_add 4 _ _ _ (8 * ms) (2 * ms) false 20); [lia | lia | lia|]. constructor.
Qed.
Lemma poll_fires_due_witness : exists n st' w' log, poll 4 (recording 4 on_timer) (8 * ms) w3 ([], []) = Some (n, st', (w', log)) /\ w' = [50] /\ n = 1 /\
  forall x c, cores st' !! x = Some c -> 8 * ms + 1 <= t_expiry c \/ (t_list c = kOverflow /\ ms_of (t_expiry c) = ms_of (8 * ms) /\ cur_ms_ w3 + kSlots <= ms_of (8 * ms)).
Proof.
  destruct (poll_fires_due 4 four_max four_cap on_timer w3 (8 * ms) (8 * ms + 1) [] w3_reach ltac:(lia) ltac:(vm_compute; discriminate) ltac:(lia) on_timer_calls) as (n & st' & w' & log & E & _ & _ & H).
  exists n, st', w', log. split; [exact E|]. assert (F : (fun r => match r with Some (n, _, (w, _)) => Some (n, w) | None => None end) (poll 4 (recording 4 on_timer) (8 * ms) w3 ([], [])) = Some (1, [50])) by (vm_compute; reflexivity).
  rewrite E in F. injection F as -> ->. split; [reflexivity|]. split; [reflexivity | exact H].
Defined.
Lemma next_expiry_exact_witness : fst (next_expiry w3) = 5 * ms /\ forall x c, cores w3 !! x = Some c -> 5 * ms <= t_expiry c.
Proof.
  assert (E : fst (next_expiry w3) = 5 * ms) by (vm_compute; reflexivity). split; [exact E|]. pose proof (next_expiry_exact 4 four_max four_cap w3 w3_reach) as H. cbv zeta in H. rewrite E in H. destruct H as [[_ E']|[_ H]]; [vm_compute in E'; discriminate E' | exact H].
Defined.
Lemma timer_ids_witness : fst (cancel 4 1 w3) = true /\ active 4 w3 1 = true /\ active 4 (snd (cancel 4 1 w3)) 1 = false /\ active 4 (snd (cancel 4 1 w3)) 2 = true.
Proof.
  destruct (timer_ids 4 four_max four_cap w3 0 ms false 0 1 w3_reach ltac:(lia) ltac:(lia) ltac:(lia) ltac:(unfold kInvalidTimer; lia)) as [_ H]. destruct (cancel 4 1 w3) as [r st']. destruct H as [-> H]. cbn [fst snd].
  assert (E : active 4 w3 1 = true /\ active 4 w3 2 = true) by (split; vm_compute; reflexivity). destruct E as [E1 E2]. rewrite (H 1), (H 2), E1, E2 by (unfold kInvalidTimer; lia). split; [reflexivity|]. split; [reflexivity|]. split; reflexivity.
Defined.
Lemma next_expiry_before_exact_witness : next_expiry_before 4 (6 * ms) w3 = Some (5 * ms) /\ forall x c, cores w3 !! x = Some c -> t_list c <> kOverflow -> 5 * ms <= t_expiry c.
Proof.
  assert (E : next_expiry_before 4 (6 * ms) w3 = Some (5 * ms)) by (vm_compute; reflexivity). split; [exact E|].
  destruct (next_expiry_before_exact 4 four_max four_cap w3 (6 * ms) w3_reach ltac:(lia) ltac:(vm_compute; discriminate)) as (e & E' & _ & H & _). rewrite E in E'. injection E' as <-. exact H.
Defined.

(** After a stall a timer can be missed: with the wheel not polled for [kSlots] milliseconds, a timer in the overflow list
    that expires in the millisecond of the poll is due and is not fired; the next poll fires it. *)
Theorem stalled_poll_misses : exists st', poll 4 (fun _ _ st w => (st, w)) (5000 * ms) (snd (add 4 0 (5000 * ms) false 90 w0)) tt = Some (0, st', tt) /\
  fst (next_expiry st') = 5000 * ms /\ exists st'', poll 4 (fun _ _ st w => (st, w)) (5000 * ms + 1) st' tt = Some (1, st'', tt).
Proof. eexists. split; [vm_compute; reflexivity|]. split; [vm_compute; reflexivity|]. eexists. vm_compute. reflexivity. Qed.
End ConcreteTimers.
