(* ===== verification/NasdaqFields.v ===== *)
(** * NasdaqFields: the wire fields of the Nasdaq protocols ([nasdaq_fields.hpp])

    A byte is a [Z] in [0, 256); a span of bytes is a list.  A buffer the code writes into is a list too:
    [put off bs buf] is the [memcpy] of [bs] to [buf + off], [get off n buf] the span of [n] bytes at [off]. *)

From S2P Require Import Prelude Types FixedPoint.

Definition is_byte (b : Z) : Prop := 0 <= b < 256.
Abbreviation bytes_ok := (Forall is_byte).
Definition byte_at (p : list Z) (i : nat) : Z := nth i p 0.
Definition len (bs : list Z) : Z := Z.of_nat (length bs).
Definition get (off n : Z) (buf : list Z) : list Z := take (Z.to_nat n) (drop (Z.to_nat off) buf).
Definition put (off : Z) (bs buf : list Z) : list Z := take (Z.to_nat off) buf ++ bs ++ drop (Z.to_nat off + length bs) buf.
Definition space : Z := 32.
Definition char0 : Z := 48.
Definition u16 (z : Z) : Z := z mod 2 ^ 16.

(** ** Big-endian integers *)

Definition load_be16 (p : list Z) : Z := u16 (Z.lor (Z.shiftl (byte_at p 0) 8) (byte_at p 1)).
Definition load_be64 (p : list Z) : Z := fold_left (fun v i => Z.lor (u64 (Z.shiftl v 8)) (byte_at p i)) (seq 0 8) 0.
Definition store_be16 (v : Z) : list Z := [u8 (Z.shiftr v 8); u8 v].
Definition store_be64 (v : Z) : list Z := (fun i => u8 (Z.shiftr v (56 - 8 * Z.of_nat i))) <$> seq 0 8.
Definition be48_get (b : list Z) : Z :=
  Z.lor (Z.lor (Z.lor (Z.lor (Z.lor (Z.shiftl (byte_at b 0) 40) (Z.shiftl (byte_at b 1) 32)) (Z.shiftl (byte_at b 2) 24)) (Z.shiftl (byte_at b 3) 16)) (Z.shiftl (byte_at b 4) 8)) (byte_at b 5).
Definition be48_set (v : Z) : list Z := [u8 (Z.shiftr v 40); u8 (Z.shiftr v 32); u8 (Z.shiftr v 24); u8 (Z.shiftr v 16); u8 (Z.shiftr v 8); u8 v].
Definition kMaxBe48 : Z := 2 ^ 48 - 1.

(** ** Prices and share quantities *)

Definition u32_max : Z := 4294967295.
Definition kPrice4Unit : Z := Z.quot kFixedScale 10000.
Definition price4_to_price (p : Z) : Price := i64 (p * kPrice4Unit).
Definition price4_to_price64 (p : Z) : option Price := if Z.quot i64_max kPrice4Unit <? p then None else Some (i64 (p * kPrice4Unit)).
Definition price8_to_price (p : Z) : option Price := if i64_max <? p then None else Some p.
Definition price_to_price4 (p : Price) : option Z :=
  if (p <? 0) || negb (Z.rem p kPrice4Unit =? 0) then None
  else let v := Z.quot p kPrice4Unit in if u32_max <? v then None else Some v.
Definition price_to_price4_64 (p : Price) : option Z := if (p <? 0) || negb (Z.rem p kPrice4Unit =? 0) then None else Some (Z.quot p kPrice4Unit).
Definition price_to_price8 (p : Price) : option Z := if p <? 0 then None else Some p.
Definition kMaxShares : Z := Z.quot i64_max kFixedScale.
Definition shares_to_qty (n : Z) : Qty := from_int n.
Definition shares_to_qty64 (n : Z) : option Qty := if kMaxShares <? n then None else Some (from_int n).
Definition qty_to_shares (q : Qty) : option Z :=
  if (q <? 0) || negb (Z.rem q kFixedScale =? 0) then None
  else let v := Z.quot q kFixedScale in if u32_max <? v then None else Some v.
Definition qty_to_shares64 (q : Qty) : option Z := if (q <? 0) || negb (Z.rem q kFixedScale =? 0) then None else Some (Z.quot q kFixedScale).

(** ** Alpha fields *)

(** The field of [width] characters that [put_alpha] writes. *)
Definition put_alpha (width : nat) (s : list Z) : list Z :=
  let n := if (length s <? width)%nat then length s else width in take n s ++ replicate (width - n) space.
Fixpoint trim_end (src : list Z) (n : nat) : list Z :=
  match n with
  | O => []
  | S m => if byte_at src m =? space then trim_end src m else take n src
  end.
Definition get_alpha (src : list Z) (width : nat) : list Z := trim_end src width.
Fixpoint trim_front (v : list Z) : list Z :=
  match v with [] => [] | c :: v' => if c =? space then trim_front v' else v end.
Definition get_alpha_trimmed (src : list Z) (width : nat) : list Z := trim_front (get_alpha src width).
Definition symbol_key8 (field8 : list Z) : Z := fold_left (fun k i => Z.lor (u64 (Z.shiftl k 8)) (byte_at field8 i)) (seq 0 8) 0.
Definition symbol_key (symbol : list Z) : Z := symbol_key8 (put_alpha 8 symbol).

(** ** ASCII numeric fields *)

(** The loop of [put_numeric]: the digits go in front of [acc], at most [i] of them. *)
Fixpoint put_digits (i : nat) (v : Z) (acc : list Z) : option (nat * list Z) :=
  match i with
  | O => None
  | S i =>
    let acc := char0 + v mod 10 :: acc in
    if v / 10 =? 0 then Some (i, acc) else put_digits i (v / 10) acc
  end.
Definition put_numeric (width : nat) (v : Z) : option (list Z) :=
  '(i, digits) ← put_digits width v []; Some (replicate i space ++ digits).
Definition u64_max : Z := 18446744073709551615.
Fixpoint get_digits (src : list Z) (v : Z) : option Z :=
  match src with
  | [] => Some v
  | c :: rest =>
    if c =? space then (if forallb (fun c => c =? space) src then Some v else None)
    else if (c <? char0) || (char0 + 9 <? c) then None
    else
      let d := c - char0 in
      if (u64_max - d) / 10 <? v then None else get_digits rest (v * 10 + d)
  end.
Definition get_numeric (src : list Z) (width : nat) : option Z := get_digits (trim_front (take width src)) 0.
(** The loop of [format_decimal] that collects the digits, lowest first; twenty suffice for 64 bits. *)
Fixpoint digits_of (n : nat) (v : Z) : list Z :=
  match n with
  | O => []
  | S n => (char0 + v mod 10) :: (if v / 10 =? 0 then [] else digits_of n (v / 10))
  end.
Definition format_decimal (v : Z) : list Z := rev (digits_of 20 v).

(** ** Big-endian digits *)

Definition be_value (bs : list Z) : Z := fold_left (fun v b => v * 256 + b) bs 0.
Fixpoint be_digits (n : nat) (v : Z) : list Z := match n with O => [] | S n => be_digits n (v / 256) ++ [v mod 256] end.

Lemma be_value_snoc bs b : be_value (bs ++ [b]) = be_value bs * 256 + b.
Proof. unfold be_value. by rewrite fold_left_app. Qed.
Lemma be_digits_length n v : length (be_digits n v) = n.
Proof. revert v. induction n as [|n IH]; intros v; cbn [be_digits]; [done|]. rewrite length_app, IH. cbn. lia. Qed.
Lemma be_digits_ok n v : bytes_ok (be_digits n v).
Proof.
  revert v. induction n as [|n IH]; intros v; cbn [be_digits]; [done|]. apply Forall_app. split; [apply IH|].
  apply Forall_singleton. unfold is_byte. pose proof (Z.mod_pos_bound v 256). lia.
Qed.
Lemma be_value_digits n v : 0 <= v < 256 ^ Z.of_nat n -> be_value (be_digits n v) = v.
Proof.
  revert v. induction n as [|n IH]; intros v Hv; cbn [be_digits].
  - change (256 ^ Z.of_nat 0) with 1 in Hv. cbn. lia.
  - rewrite Nat2Z.inj_succ, Z.pow_succ_r in Hv by lia. rewrite be_value_snoc, IH.
    + pose proof (Z.div_mod v 256). lia.
    + split; [apply Z.div_pos; lia | apply Z.div_lt_upper_bound; lia].
Qed.
Lemma be_value_range bs : bytes_ok bs -> 0 <= be_value bs < 256 ^ len bs.
Proof.
  unfold len. induction bs as [|b bs IH] using rev_ind; intros H; [cbn; lia|]. apply Forall_app in H as [Hbs Hb%Forall_inv].
  specialize (IH Hbs). unfold is_byte in Hb. rewrite be_value_snoc, length_app, Nat2Z.inj_add, Z.pow_add_r by lia. change (256 ^ Z.of_nat (length [b])) with 256. set (q := 256 ^ Z.of_nat (length bs)) in *. clearbody q. lia.
Qed.
Lemma be_digits_value bs : bytes_ok bs -> be_digits (length bs) (be_value bs) = bs.
Proof.
  induction bs as [|b bs IH] using rev_ind; intros H; [done|]. apply Forall_app in H as [Hbs Hb%Forall_inv]. unfold is_byte in Hb.
  rewrite length_app, Nat.add_comm. cbn [length Nat.add be_digits]. rewrite be_value_snoc, Z.div_add_l, (Z.div_small b), Z.add_0_r by lia.
  rewrite IH by done. f_equal. rewrite Z.add_comm, Z_mod_plus_full, Z.mod_small by lia. done.
Qed.
Lemma lor_byte w v b : 0 <= v < 2 ^ (w - 8) -> 8 <= w -> is_byte b -> Z.lor ((Z.shiftl v 8) mod 2 ^ w) b = v * 256 + b.
Proof.
  intros Hv Hw Hb. assert (2 ^ w = 2 ^ (w - 8) * 256) as E by (change 256 with (2 ^ 8); rewrite <- Z.pow_add_r by lia; f_equal; lia).
  rewrite Z.mod_small by (rewrite Z.shiftl_mul_pow2 by lia; change (2 ^ 8) with 256; lia). by apply (lor_pack v b 8).
Qed.
Lemma load_be64_value p : bytes_ok p -> (8 <= length p)%nat -> load_be64 p = be_value (take 8 p).
Proof.
  intros H Hl. do 8 (destruct p as [|? p]; [cbn in Hl; lia|]). do 8 (apply Forall_cons in H as [? H]). unfold load_be64. cbn [seq fold_left byte_at nth take].
  cbn [be_value fold_left]. unfold is_byte in *. unfold u64.
  repeat match goal with |- context [Z.lor (Z.shiftl ?v 8 mod 2 ^ 64) ?b] => lazymatch v with context [Z.lor] => fail | _ => rewrite (lor_byte 64 v b) by (unfold is_byte; lia) end end. done.
Qed.
Lemma load_be16_value p : bytes_ok p -> (2 <= length p)%nat -> load_be16 p = be_value (take 2 p).
Proof.
  intros H Hl. do 2 (destruct p as [|? p]; [cbn in Hl; lia|]). do 2 (apply Forall_cons in H as [? H]). unfold load_be16. cbn [byte_at nth take be_value fold_left]. unfold is_byte in *. unfold u16.
  rewrite (lor_pack z z0 8) by lia. change (2 ^ 8) with 256. change (2 ^ 16) with 65536. rewrite take_0, Z.mod_small by lia. cbn. lia.
Qed.
Lemma u8_shiftr v k : 0 <= k -> u8 (Z.shiftr v k) = v / 2 ^ k mod 256.
Proof. intros Hk. unfold u8. by rewrite Z.shiftr_div_pow2. Qed.
Lemma store_be16_digits v : store_be16 v = be_digits 2 v.
Proof. reflexivity || (unfold store_be16; cbn [be_digits app]; rewrite u8_shiftr by lia; done). Qed.
Lemma store_be64_digits v : store_be64 v = be_digits 8 v.
Proof.
  unfold store_be64. cbn [seq fmap list_fmap be_digits app]. rewrite !u8_shiftr by lia. rewrite !Z.div_div by lia. cbn. rewrite Z.div_1_r. done.
Qed.
Lemma store_be16_length v : length (store_be16 v) = 2%nat.
Proof. done. Qed.
Lemma store_be64_length v : length (store_be64 v) = 8%nat.
Proof. done. Qed.
Lemma store_be16_ok v : bytes_ok (store_be16 v).
Proof. rewrite store_be16_digits. apply be_digits_ok. Qed.
Lemma store_be64_ok v : bytes_ok (store_be64 v).
Proof. rewrite store_be64_digits. apply be_digits_ok. Qed.
Lemma load_be16_range p : 0 <= load_be16 p < 65536.
Proof. unfold load_be16, u16. pose proof (Z.mod_pos_bound (Z.lor (Z.shiftl (byte_at p 0) 8) (byte_at p 1)) (2 ^ 16)). lia. Qed.
Lemma load_be64_app p rest : length p = 8%nat -> load_be64 (p ++ rest) = load_be64 p.
Proof. intros Hl. unfold load_be64. do 8 (destruct p as [|? p]; [discriminate Hl|]). destruct p; [|discriminate Hl]. cbn [seq fold_left byte_at nth app]. reflexivity. Qed.
Lemma load_be16_app p rest : length p = 2%nat -> load_be16 (p ++ rest) = load_be16 p.
Proof. intros Hl. unfold load_be16. do 2 (destruct p as [|? p]; [discriminate Hl|]). destruct p; [|discriminate Hl]. cbn [seq fold_left byte_at nth app]. reflexivity. Qed.
(** What is stored is read back, whatever follows. *)
Lemma load_store_be16 v rest : 0 <= v < 65536 -> load_be16 (store_be16 v ++ rest) = v.
Proof.
  intros Hv. rewrite load_be16_app, load_be16_value by (by auto using store_be16_ok). rewrite firstn_all2 by (by rewrite store_be16_length). rewrite store_be16_digits. apply be_value_digits. lia.
Qed.
Lemma load_store_be64 v rest : 0 <= v < 2 ^ 64 -> load_be64 (store_be64 v ++ rest) = v.
Proof.
  intros Hv. rewrite load_be64_app, load_be64_value by (by auto using store_be64_ok). rewrite firstn_all2 by (by rewrite store_be64_length). rewrite store_be64_digits. apply be_value_digits. cbn. lia.
Qed.
Lemma load_be64_range p : bytes_ok p -> (8 <= length p)%nat -> 0 <= load_be64 p < 2 ^ 64.
Proof.
  intros H Hl. rewrite load_be64_value by done. pose proof (be_value_range (take 8 p) (Forall_take _ _ _ H)) as Hr. unfold len in Hr. rewrite length_take in Hr.
  replace (Z.of_nat (8 `min` length p)) with 8 in Hr by lia. change (256 ^ 8) with (2 ^ 64) in Hr. exact Hr.
Qed.
(** What is read can be written back. *)
Lemma store_load_be64 p : bytes_ok p -> (8 <= length p)%nat -> store_be64 (load_be64 p) = take 8 p.
Proof. intros H Hl. rewrite load_be64_value, store_be64_digits by done. rewrite <- (be_digits_value (take 8 p)) at 2 by by apply Forall_take. f_equal. rewrite length_take. lia. Qed.
Lemma store_load_be16 p : bytes_ok p -> (2 <= length p)%nat -> store_be16 (load_be16 p) = take 2 p.
Proof. intros H Hl. rewrite load_be16_value, store_be16_digits by done. rewrite <- (be_digits_value (take 2 p)) at 2 by by apply Forall_take. f_equal. rewrite length_take. lia. Qed.

(** ** Buffers *)

Lemma len_nonneg bs : 0 <= len bs.
Proof. unfold len. lia. Qed.
Lemma len_app a b : len (a ++ b) = len a + len b.
Proof. unfold len. rewrite length_app. lia. Qed.
Lemma len_0 bs : len bs = 0 <-> bs = [].
Proof. unfold len. split; [destruct bs; [done | cbn; lia] | by intros ->]. Qed.
Lemma drop_len a b : drop (Z.to_nat (len a)) (a ++ b) = b.
Proof. unfold len. by rewrite Nat2Z.id, drop_app_length. Qed.
Lemma put_length off bs buf : 0 <= off -> off + len bs <= len buf -> length (put off bs buf) = length buf.
Proof. unfold put, len. intros Ho Hl. rewrite !length_app, length_take, length_drop. lia. Qed.
Lemma put_at a bs rest : put (len a) bs (a ++ rest) = a ++ bs ++ drop (length bs) rest.
Proof. unfold put, len. rewrite Nat2Z.id, take_app_length, <- drop_drop, drop_app_length. done. Qed.
Lemma get_at a bs rest : get (len a) (len bs) (a ++ bs ++ rest) = bs.
Proof. unfold get, len. rewrite !Nat2Z.id, drop_app_length, take_app_length. done. Qed.
Lemma get_length off n buf : 0 <= off -> 0 <= n -> off + n <= len buf -> len (get off n buf) = n.
Proof. unfold get, len. intros. rewrite length_take, length_drop. lia. Qed.
Lemma get_put_same off bs buf : 0 <= off -> off + len bs <= len buf -> get off (len bs) (put off bs buf) = bs.
Proof.
  intros Ho Hl. unfold get, put. rewrite drop_app_length' by (rewrite length_take; unfold len in *; lia). unfold len. by rewrite Nat2Z.id, take_app_length.
Qed.
Lemma get_put_other off bs buf off' n : 0 <= off -> 0 <= off' -> 0 <= n -> off + len bs <= len buf -> off' + n <= off \/ off + len bs <= off' -> get off' n (put off bs buf) = get off' n buf.
Proof.
  intros Ho Ho' Hn Hl Hd. unfold get. apply list_eq. intros i. destruct (decide (i < Z.to_nat n)%nat) as [Hi|Hi]; [|by rewrite !lookup_take_ge by lia].
  rewrite !lookup_take_lt, !lookup_drop by lia. unfold put, len in *. destruct Hd as [Hd|Hd].
  - rewrite lookup_app_l by (rewrite length_take; lia). by rewrite lookup_take_lt by lia.
  - rewrite lookup_app_r by (rewrite length_take; lia). rewrite length_take. rewrite lookup_app_r by lia. rewrite lookup_drop. f_equal. lia.
Qed.
Lemma put_ok off bs buf : bytes_ok bs -> bytes_ok buf -> bytes_ok (put off bs buf).
Proof. intros. unfold put. rewrite !Forall_app. auto using Forall_take, Forall_drop. Qed.
Lemma get_ok off n buf : bytes_ok buf -> bytes_ok (get off n buf).
Proof. intros. unfold get. auto using Forall_take, Forall_drop. Qed.
