(* ===== verification/NasdaqProps.v ===== *)
(** * NasdaqProps: the conversions of the wire fields are exact *)

From S2P Require Import Prelude Types FixedPoint NasdaqFields.

(** ** Prices and shares *)

Lemma unit_val : kPrice4Unit = 10000.
Proof. reflexivity. Qed.
Lemma exact_quot p u : 0 < u -> (p <? 0) || negb (Z.rem p u =? 0) = false <-> exists v, 0 <= v /\ p = v * u.
Proof.
  intros Hu. rewrite orb_false_iff, negb_false_iff, Z.ltb_ge, Z.eqb_eq. split.
  - intros [Hp Hr]. exists (Z.quot p u). split; [by apply Z.quot_pos|]. pose proof (Z.quot_rem' p u). lia.
  - intros (v & Hv & ->). split; [lia|]. apply Z.rem_mul. lia.
Qed.
Lemma quot_unit v u : 0 < u -> Z.quot (v * u) u = v.
Proof. intros Hu. apply Z.quot_mul. lia. Qed.
(** The conversions to the wire succeed exactly on what the wire can carry, and undo those from it. *)
Lemma price4_exact p v : price_to_price4 p = Some v <-> 0 <= v <= u32_max /\ price4_to_price v = p.
Proof.
  unfold price_to_price4, price4_to_price. rewrite unit_val. assert (Hi : forall v, 0 <= v <= u32_max -> i64 (v * 10000) = v * 10000) by (intros w Hw; apply i64_id; unfold u32_max in Hw; width).
  destruct ((p <? 0) || negb (Z.rem p 10000 =? 0)) eqn:E.
  - split; [done|]. intros [Hv Hp]. rewrite Hi in Hp by done. assert (false = true) by (rewrite <- E; symmetry; apply exact_quot; [lia | exists v; lia]). done.
  - apply exact_quot in E as (w & Hw & ->); [|lia]. rewrite quot_unit by lia. destruct (Z.ltb_spec u32_max w) as [Hl|Hl].
    + split; [done|]. intros [Hv Hp]. rewrite Hi in Hp by done. lia.
    + split; [intros [= ->]; split; [lia | apply Hi; lia]|]. intros [Hv Hp]. rewrite Hi in Hp by done. f_equal. lia.
Qed.
Lemma shares_exact q n : qty_to_shares q = Some n <-> 0 <= n <= u32_max /\ shares_to_qty n = q.
Proof.
  unfold qty_to_shares, shares_to_qty, from_int, kFixedScale. assert (Hi : forall v, 0 <= v <= u32_max -> i64 (v * 100000000) = v * 100000000) by (intros w Hw; apply i64_id; unfold u32_max in Hw; width).
  destruct ((q <? 0) || negb (Z.rem q 100000000 =? 0)) eqn:E.
  - split; [done|]. intros [Hv Hp]. rewrite Hi in Hp by done. assert (false = true) by (rewrite <- E; symmetry; apply exact_quot; [lia | exists n; lia]). done.
  - apply exact_quot in E as (w & Hw & ->); [|lia]. rewrite quot_unit by lia. destruct (Z.ltb_spec u32_max w) as [Hl|Hl].
    + split; [done|]. intros [Hv Hp]. rewrite Hi in Hp by done. lia.
    + split; [intros [= ->]; split; [lia | apply Hi; lia]|]. intros [Hv Hp]. rewrite Hi in Hp by done. f_equal. lia.
Qed.

(** ** Alpha fields *)

Lemma trim_end_spaces s k : trim_end (s ++ replicate k space) (length s + k) = trim_end s (length s).
Proof.
  induction k as [|k IH].
  - rewrite Nat.add_0_r. cbn [replicate]. by rewrite app_nil_r.
  - rewrite Nat.add_succ_r. cbn [trim_end]. unfold byte_at. rewrite app_nth2 by lia. replace (length s + k - length s)%nat with k by lia.
    assert (E : nth k (replicate (S k) space) 0 = space) by (rewrite nth_lookup, lookup_replicate_2 by lia; done). rewrite E, Z.eqb_refl.
    rewrite <- IH. replace (replicate (S k) space) with (replicate k space ++ [space]) by (by rewrite replicate_S_end). rewrite app_assoc.
    generalize (s ++ replicate k space), (length_app s (replicate k space)). rewrite length_replicate. intros l El. clear - El.
    assert (H : forall n, (n <= length l)%nat -> trim_end (l ++ [space]) n = trim_end l n); [|apply H; lia]. induction n as [|n IHn]; intros Hn; [done|]. cbn [trim_end]. unfold byte_at. rewrite app_nth1 by lia. rewrite IHn by lia. by rewrite (take_app_le _ _ (S n)) by lia.
Qed.
(** A text of at most the width that does not end in a space is read back. *)
Lemma alpha_roundtrip w s : (length s <= w)%nat -> last s <> Some space -> get_alpha (put_alpha w s) w = s.
Proof.
  intros Hl Hs. unfold get_alpha, put_alpha. set (n := if (length s <? w)%nat then _ else _). assert (n = length s) as -> by (unfold n; destruct (Nat.ltb_spec (length s) w); lia). rewrite firstn_all.
  replace w with (length s + (w - length s))%nat at 2 by lia. rewrite trim_end_spaces. destruct s as [|x s] using rev_ind; [done|]. rewrite last_snoc in Hs. rewrite length_app. cbn [length]. rewrite Nat.add_comm. cbn [Nat.add trim_end].
  unfold byte_at. rewrite app_nth2, Nat.sub_diag by lia. cbn [nth]. replace (x =? space) with false by (symmetry; apply Z.eqb_neq; congruence). rewrite firstn_all2; [done|]. rewrite length_app. cbn. lia.
Qed.

(** ** Numeric fields *)

Definition decimal (ds : list Z) (v : Z) : Z := fold_left (fun v c => v * 10 + (c - char0)) ds v.
Definition is_digit (c : Z) : Prop := char0 <= c <= char0 + 9.
Lemma put_digits_ok i v acc : 0 <= v -> match put_digits i v acc with
  | Some (j, ds) => exists d, ds = d ++ acc /\ Forall is_digit d /\ (length d + j)%nat = i /\ (0 < length d)%nat /\ forall x, decimal d x = x * 10 ^ Z.of_nat (length d) + v
  | None => 10 ^ Z.of_nat i <= v \/ i = 0%nat end.
Proof.
  revert v acc. induction i as [|i IH]; intros v acc Hv; cbn [put_digits]; [by right|]. pose proof (Z.mod_pos_bound v 10 ltac:(lia)) as Hm. pose proof (Z.div_mod v 10 ltac:(lia)) as Hd. assert (Hdig : is_digit (char0 + v mod 10)) by (unfold is_digit; lia).
  destruct (Z.eqb_spec (v / 10) 0) as [E0|N0].
  - exists [char0 + v mod 10]. split; [done|]. split; [by apply Forall_singleton|]. split; [cbn; lia|]. split; [cbn; lia|]. intros x. unfold decimal. cbn [fold_left length]. change (10 ^ Z.of_nat 1) with 10. lia.
  - specialize (IH (v / 10) (char0 + v mod 10 :: acc) ltac:(apply Z.div_pos; lia)). destruct (put_digits i (v / 10) (char0 + v mod 10 :: acc)) as [[j ds]|].
    + destruct IH as (d & -> & Hf & Hl & Hp & Hx). exists (d ++ [char0 + v mod 10]). split; [by rewrite <- app_assoc|]. split; [apply Forall_app; split; [done | by apply Forall_singleton]|]. rewrite length_app. cbn [length]. split; [lia|]. split; [lia|].
      intros x. unfold decimal. rewrite fold_left_app. cbn [fold_left]. fold (decimal d x). rewrite Hx, Nat2Z.inj_add, Z.pow_add_r by lia. change (10 ^ Z.of_nat 1) with 10. lia.
    + left. rewrite Nat2Z.inj_succ, Z.pow_succ_r by lia. destruct IH as [IH | ->]; [lia|]. cbn. pose proof (Z.div_pos v 10 ltac:(lia) ltac:(lia)). lia.
Qed.
Lemma get_digits_ok d v : Forall is_digit d -> 0 <= v -> decimal d v <= u64_max -> get_digits d v = Some (decimal d v).
Proof.
  revert v. induction d as [|c d IH]; intros v Hf Hv Hm; [done|]. apply Forall_cons in Hf as [Hc Hf]. unfold is_digit in Hc. cbn [get_digits]. replace (c =? space) with false by (unfold space, char0 in *; lia). replace ((c <? char0) || (char0 + 9 <? c)) with false by lia.
  unfold decimal in Hm. cbn [fold_left] in Hm. fold (decimal d (v * 10 + (c - char0))) in Hm. assert (Hge : forall d v, 0 <= v -> Forall is_digit d -> v <= decimal d v).
  { clear. induction d as [|c d IH]; intros v Hv Hf; unfold decimal; cbn [fold_left]; [lia|]. apply Forall_cons in Hf as [Hc Hf]. unfold is_digit in Hc. fold (decimal d (v * 10 + (c - char0))). specialize (IH (v * 10 + (c - char0)) ltac:(lia) Hf). lia. }
  specialize (Hge d (v * 10 + (c - char0)) ltac:(lia) Hf). assert (v <= (u64_max - (c - char0)) / 10) by (apply Z.div_le_lower_bound; lia). replace (_ <? v) with false by lia. by apply IH; [|lia|].
Qed.
Lemma trim_front_spaces k s : trim_front (replicate k space ++ s) = trim_front s.
Proof. induction k as [|k IH]; [done|]. cbn [replicate app trim_front]. by rewrite Z.eqb_refl. Qed.
(** A 64-bit number that fits the width is written and read back; one that does not is refused. *)
Lemma numeric_roundtrip w v : 0 <= v <= u64_max -> (0 < w)%nat -> match put_numeric w v with Some f => length f = w /\ get_numeric f w = Some v | None => 10 ^ Z.of_nat w <= v end.
Proof.
  intros Hv Hw. unfold put_numeric. pose proof (put_digits_ok w v [] ltac:(lia)) as H. destruct (put_digits w v []) as [[j ds]|]; [|cbn; destruct H; [done | lia]]. cbn [mbind option_bind]. destruct H as (d & -> & Hf & Hl & Hp & Hx). rewrite app_nil_r.
  assert (El : length (replicate j space ++ d) = w) by (rewrite length_app, length_replicate; lia). split; [exact El|]. unfold get_numeric. rewrite firstn_all2 by lia. rewrite trim_front_spaces. destruct d as [|c d]; [cbn in Hp; lia|].
  pose proof (Forall_inv Hf) as Hc. unfold is_digit in Hc. cbn [trim_front]. replace (c =? space) with false by (unfold space, char0 in *; lia). specialize (Hx 0). rewrite Z.mul_0_l, Z.add_0_l in Hx. rewrite <- Hx. apply get_digits_ok; [done | lia | lia].
Qed.

(** ** The 48-bit time stamp *)

Lemma lor_shift a b n k : k = n + 8 -> 0 <= n -> is_byte b -> Z.lor (Z.shiftl a k) (Z.shiftl b n) = Z.shiftl (a * 256 + b) n.
Proof. intros -> Hn Hb. replace (a * 256 + b) with (Z.lor (Z.shiftl a 8) b) by (by apply (lor_pack a b 8)).  rewrite Z.shiftl_lor, Z.shiftl_shiftl by lia. do 2 f_equal. lia. Qed.
Lemma be48_roundtrip v : 0 <= v <= kMaxBe48 -> be48_get (be48_set v) = v.
Proof.
  intros Hv. transitivity (be_value (be_digits 6 v)); [|apply be_value_digits; unfold kMaxBe48 in Hv; change (256 ^ Z.of_nat 6) with (2 ^ 48); lia]. pose proof (be_digits_ok 6 v) as Hok.
  assert (E : be48_set v = be_digits 6 v) by (unfold be48_set; cbn [be_digits app]; rewrite !u8_shiftr by lia; rewrite !Z.div_div by lia; reflexivity). rewrite E. clear E. pose proof (be_digits_length 6 v) as Hl. generalize dependent (be_digits 6 v). intros ds Hok Hl.
  do 6 (destruct ds as [|? ds]; [discriminate Hl|]). destruct ds; [|discriminate Hl]. do 6 (apply Forall_cons in Hok as [? Hok]). unfold be48_get, be_value. cbn [byte_at nth fold_left].
  rewrite (lor_shift z z0 32 40), (lor_shift _ z1 24 32), (lor_shift _ z2 16 24), (lor_shift _ z3 8 16) by (lia || done). rewrite (lor_pack _ z4 8) by (lia || done). lia.
Qed.
