(* ===== verification/MoldUdp.v ===== *)
(** * MoldUdp: MoldUDP64 packets, receiver and transmitter ([moldudp64.hpp], [moldudp64.cpp])

    A datagram is a list of bytes.  The handler of the receiver is the list of the calls it gets; it does not feed packets
    back.  The slab of the reorder buffer and the history of the transmitter are flat buffers, as in the code.  Loops that
    the code bounds only by its state run under [loop]; an operation answers [None] when such a bound does not suffice. *)

From S2P Require Import Prelude Types FixedPoint NasdaqFields.

Definition kSessionLength : nat := 10.
Definition kHeaderLength : Z := 20.
Definition kRequestLength : Z := 20.
Definition kHeartbeatCount : Z := 0.
Definition kEndOfSessionCount : Z := 65535.
Definition kMaxMessageLength : Z := 65535.
Definition kMaxMessagesPerPacket : Z := 65534.
Abbreviation SessionId := (list Z) (only parsing).
Definition kBlankSession : SessionId := replicate kSessionLength space.
Definition make_session (s : list Z) : SessionId := put_alpha kSessionLength s.
Definition is_blank (s : SessionId) : bool := bool_decide (s = kBlankSession).

(** ** Packets *)

Inductive PacketKind := Data | Heartbeat | EndOfSession.
#[export] Instance packet_kind_dec : EqDecision PacketKind.
Proof. solve_decision. Defined.
Record PacketView := mkPacket {
  pv_session : SessionId;
  pv_sequence : Z;
  pv_count : Z;
  pv_kind : PacketKind;
  pv_blocks : list Z;
}.
Definition next_sequence (p : PacketView) : Z := u64 (pv_sequence p + pv_count p).

(** The loop of [parse_packet] over the announced blocks: the offset behind the last one. *)
Fixpoint skip_blocks (n : nat) (blocks : list Z) (off : Z) : option Z :=
  match n with
  | O => Some off
  | S n =>
    if len blocks - off <? 2 then None
    else
      let k := load_be16 (drop (Z.to_nat off) blocks) in
      if len blocks - off - 2 <? k then None else skip_blocks n blocks (off + 2 + k)
  end.
Definition parse_packet (datagram : list Z) : option PacketView :=
  if len datagram <? kHeaderLength then None
  else
    let session := take kSessionLength datagram in
    let sequence := load_be64 (drop 10 datagram) in
    let raw_count := load_be16 (drop 18 datagram) in
    let blocks := drop (Z.to_nat kHeaderLength) datagram in
    if (raw_count =? kHeartbeatCount) || (raw_count =? kEndOfSessionCount) then
      let kind := if raw_count =? kHeartbeatCount then Heartbeat else EndOfSession in
      if len blocks =? 0 then Some (mkPacket session sequence 0 kind []) else None
    else
      off ← skip_blocks (Z.to_nat raw_count) blocks 0;
      if negb (off =? len blocks) then None else Some (mkPacket session sequence raw_count Data blocks).

Record RequestView := mkRequest { rq_session : SessionId; rq_sequence : Z; rq_count : Z }.
Definition parse_request (datagram : list Z) : option RequestView :=
  if negb (len datagram =? kRequestLength) then None
  else Some (mkRequest (take kSessionLength datagram) (load_be64 (drop 10 datagram)) (load_be16 (drop 18 datagram))).

(** [FrameView]: the payload and the bytes consumed, zero when the frame is not complete. *)
Record FrameView := mkFrame { payload : list Z; consumed : Z }.
Definition framer_next (inp : list Z) : FrameView :=
  if len inp <? 2 then mkFrame [] 0
  else
    let n := load_be16 inp in
    if len inp <? 2 + n then mkFrame [] 0 else mkFrame (get 2 n inp) (2 + n).
Record MessageIterator := mkIter { it_rest : list Z; it_seq : Z; it_left : Z }.
Definition new_iterator (p : PacketView) : MessageIterator := mkIter (pv_blocks p) (pv_sequence p) (pv_count p).
Definition it_next (it : MessageIterator) : option (Z * list Z * MessageIterator) :=
  if it_left it =? 0 then None
  else
    let f := framer_next (it_rest it) in
    if consumed f =? 0 then None
    else Some (it_seq it, payload f, mkIter (drop (Z.to_nat (consumed f)) (it_rest it)) (u64 (it_seq it + 1)) (it_left it - 1)).

(** ** Building packets *)

Definition write_header (off : Z) (session : SessionId) (seq count : Z) (buf : list Z) : list Z :=
  put (off + 18) (store_be16 count) (put (off + 10) (store_be64 seq) (put off session buf)).
Record PacketBuilder := mkBuilder { pb_buf : list Z; pb_first : Z; pb_size : Z; pb_count : Z }.
Definition new_builder (buf : list Z) (session : SessionId) (first_sequence : Z) : PacketBuilder :=
  if kHeaderLength <=? len buf then mkBuilder (write_header 0 session first_sequence 0 buf) first_sequence kHeaderLength 0
  else mkBuilder buf first_sequence 0 0.
Definition pb_add (msg : list Z) (b : PacketBuilder) : bool * PacketBuilder :=
  if (pb_size b =? 0) || (kMaxMessageLength <? len msg) || (kMaxMessagesPerPacket <=? pb_count b) || (len (pb_buf b) - pb_size b <? 2 + len msg) then (false, b)
  else
    let buf := put (pb_size b) (store_be16 (u16 (len msg))) (pb_buf b) in
    let buf := if negb (len msg =? 0) then put (pb_size b + 2) msg buf else buf in
    (true, mkBuilder buf (pb_first b) (pb_size b + 2 + len msg) (pb_count b + 1)).
(** The datagram length and the buffer. *)
Definition pb_finish (b : PacketBuilder) : Z * list Z :=
  if pb_size b =? 0 then (0, pb_buf b) else (pb_size b, put 18 (store_be16 (pb_count b)) (pb_buf b)).
Definition write_heartbeat (out : list Z) (session : SessionId) (next : Z) : Z * list Z :=
  if len out <? kHeaderLength then (0, out) else (kHeaderLength, write_header 0 session next kHeartbeatCount out).
Definition write_end_of_session (out : list Z) (session : SessionId) (next : Z) : Z * list Z :=
  if len out <? kHeaderLength then (0, out) else (kHeaderLength, write_header 0 session next kEndOfSessionCount out).
Definition write_request (out : list Z) (session : SessionId) (seq count : Z) : Z * list Z :=
  if len out <? kRequestLength then (0, out) else (kRequestLength, write_header 0 session seq count out).

(** ** The reorder buffer *)

Definition kNone : Z := 4294967295.
Record Entry := mkEntry { e_seq : Z; e_end : Z; e_rx_ns : Z; e_len : Z; e_count : Z; e_used : bool }.
#[export] Instance eta_entry : Eta Entry := fun e => mkEntry (e_seq e) (e_end e) (e_rx_ns e) (e_len e) (e_count e) (e_used e).
Definition no_entry : Entry := mkEntry 0 0 0 0 0 false.
Record ReorderBuffer := mkReorder { rb_entries : list Entry; rb_data : list Z; rb_capacity : Z; rb_size : Z; rb_stride : Z }.
#[export] Instance eta_reorder : Eta ReorderBuffer := fun r => mkReorder (rb_entries r) (rb_data r) (rb_capacity r) (rb_size r) (rb_stride r).
Definition new_reorder (capacity max_packet_bytes : Z) : ReorderBuffer :=
  let stride := if kHeaderLength <? max_packet_bytes then max_packet_bytes - kHeaderLength else 0 in
  mkReorder (replicate (Z.to_nat capacity) no_entry) (replicate (Z.to_nat (capacity * stride)) 0) capacity 0 stride.
Definition rb_full (r : ReorderBuffer) : bool := rb_size r =? rb_capacity r.
Definition rb_empty (r : ReorderBuffer) : bool := rb_size r =? 0.
Definition rb_fits (p : PacketView) (r : ReorderBuffer) : bool := negb (rb_capacity r =? 0) && (len (pv_blocks p) <=? rb_stride r).
Definition rb_entry (r : ReorderBuffer) (i : Z) : Entry := default no_entry (rb_entries r !! Z.to_nat i).
(** The index of the first entry that satisfies [f], [kNone] without one. *)
Fixpoint scan (f : Entry -> bool) (es : list Entry) (i : Z) : Z :=
  match es with [] => kNone | e :: es => if f e then i else scan f es (i + 1) end.
Definition rb_insert (p : PacketView) (rx_ns : Z) (r : ReorderBuffer) : Z * ReorderBuffer :=
  if rb_full r || negb (rb_fits p r) then (kNone, r)
  else
    let i := scan (fun e => negb (e_used e)) (rb_entries r) 0 in
    let e := mkEntry (pv_sequence p) (next_sequence p) rx_ns (u32 (len (pv_blocks p))) (pv_count p) true in
    (i, r <| rb_entries ::= insert (Z.to_nat i) e |>
          <| rb_data ::= fun d => if negb (len (pv_blocks p) =? 0) then put (i * rb_stride r) (pv_blocks p) d else d |>
          <| rb_size := rb_size r + 1 |>).
Definition rb_covers (seq end_ : Z) (r : ReorderBuffer) : bool :=
  if rb_size r =? 0 then false else existsb (fun e => e_used e && (e_seq e <=? seq) && (end_ <=? e_end e)) (rb_entries r).
Definition find_at_or_below (seq : Z) (r : ReorderBuffer) : Z :=
  if rb_size r =? 0 then kNone else scan (fun e => e_used e && (e_seq e <=? seq)) (rb_entries r) 0.
Definition rb_view (slot : Z) (session : SessionId) (r : ReorderBuffer) : PacketView :=
  let e := rb_entry r slot in mkPacket session (e_seq e) (e_count e) Data (get (slot * rb_stride r) (e_len e) (rb_data r)).
Definition rb_erase (slot : Z) (r : ReorderBuffer) : ReorderBuffer :=
  r <| rb_entries ::= alter (fun e => e <| e_used := false |>) (Z.to_nat slot) |> <| rb_size := rb_size r - 1 |>.
Definition rb_clear (r : ReorderBuffer) : ReorderBuffer := r <| rb_entries ::= fmap (fun e => e <| e_used := false |>) |> <| rb_size := 0 |>.
Definition rb_lowest (r : ReorderBuffer) : Z :=
  if rb_size r =? 0 then u64_max else fold_left (fun lo e => if e_used e && (e_seq e <? lo) then e_seq e else lo) (rb_entries r) u64_max.
Definition oldest_rx (r : ReorderBuffer) : Z :=
  if rb_size r =? 0 then i64_max else fold_left (fun t e => if e_used e && (e_rx_ns e <? t) then e_rx_ns e else t) (rb_entries r) i64_max.

(** ** The receiver *)

Definition kMaxLines : Z := 4.
Definition kSkewSlots : Z := 4096.
Definition kNoGap : Z := i64_min.
Inductive SessionState := Down | LoggingOn | Up | Recovering.
#[export] Instance session_state_dec : EqDecision SessionState.
Proof. solve_decision. Defined.
Definition recovering (s : SessionState) : bool := match s with Recovering => true | _ => false end.

Record ReceiverConfig := mkConfig {
  c_session : SessionId;
  c_next_sequence : Z;
  c_max_request_count : Z;
  c_request_timeout_ns : Z;
  c_max_request_attempts : Z;
  c_gap_timeout_ns : Z;
  c_reorder_packets : Z;
  c_max_packet_bytes : Z;
  c_can_request : bool;
  c_follow_session : bool;
}.
Definition default_config : ReceiverConfig := mkConfig kBlankSession 0 1024 250000000 4 2000000 256 1472 true false.

Record ReceiverLineStats := mkLine { ls_packets : Z; ls_duplicate_packets : Z; skew_samples : Z; skew_last_ns : Z; skew_max_ns : Z; skew_sum_ns : Z }.
#[export] Instance eta_line : Eta ReceiverLineStats := fun s =>
  mkLine (ls_packets s) (ls_duplicate_packets s) (skew_samples s) (skew_last_ns s) (skew_max_ns s) (skew_sum_ns s).
Definition no_line : ReceiverLineStats := mkLine 0 0 0 0 0 0.
Record ReceiverStats := mkStats {
  s_packets : Z;
  s_messages : Z;
  s_heartbeats : Z;
  s_end_of_session : Z;
  s_duplicate_packets : Z;
  s_ahead_packets : Z;
  s_held_packets : Z;
  s_reorder_overflow : Z;
  s_reorder_high_water : Z;
  s_gaps : Z;
  s_requests : Z;
  s_unrecoverable_gaps : Z;
  s_lost_messages : Z;
  s_sessions : Z;
  s_session_mismatch : Z;
  s_malformed : Z;
  s_lines : list ReceiverLineStats;
}.
#[export] Instance eta_stats : Eta ReceiverStats := fun s =>
  mkStats (s_packets s) (s_messages s) (s_heartbeats s) (s_end_of_session s) (s_duplicate_packets s) (s_ahead_packets s) (s_held_packets s) (s_reorder_overflow s)
    (s_reorder_high_water s) (s_gaps s) (s_requests s) (s_unrecoverable_gaps s) (s_lost_messages s) (s_sessions s) (s_session_mismatch s) (s_malformed s) (s_lines s).
Definition no_stats : ReceiverStats := mkStats 0 0 0 0 0 0 0 0 0 0 0 0 0 0 0 0 (replicate (Z.to_nat kMaxLines) no_line).
(** [++n] on a 64-bit counter. *)
Abbreviation inc := (fun n => u64 (n + 1)).
Definition on_line (line : Z) (f : ReceiverLineStats -> ReceiverLineStats) (s : ReceiverStats) : ReceiverStats :=
  s <| s_lines ::= alter f (Z.to_nat (if line <? kMaxLines then line else kMaxLines - 1)) |>.

(** What the handler is told. *)
Inductive Event (Meta : Type) :=
| OnMessage (seq : Z) (msg : list Z) (meta : Meta)
| SendRequest (bytes : list Z)
| OnEndOfSession
| OnGapUnrecoverable (from count : Z).
Arguments OnMessage {Meta}.
Arguments SendRequest {Meta}.
Arguments OnEndOfSession {Meta}.
Arguments OnGapUnrecoverable {Meta}.

Record Receiver (Meta : Type) := mkReceiver {
  h_ : list (Event Meta);
  held_ : ReorderBuffer;
  metas_ : gmap Z Meta;
  skew_ : gmap Z (Z * Z);
  session_ : SessionId;
  have_session_ : bool;
  eos_ : bool;
  eos_notified_ : bool;
  state_ : SessionState;
  next_ : Z;
  highest_ : Z;
  requested_next_ : Z;
  overflow_end_ : Z;
  attempts_ : Z;
  now_ns_ : Z;
  highest_ns_ : Z;
  last_request_ns_ : Z;
  gap_since_ : Z;
  stats_ : ReceiverStats;
}.
Arguments mkReceiver {Meta}.
Arguments h_ {Meta}.
Arguments held_ {Meta}.
Arguments metas_ {Meta}.
Arguments skew_ {Meta}.
Arguments session_ {Meta}.
Arguments have_session_ {Meta}.
Arguments eos_ {Meta}.
Arguments eos_notified_ {Meta}.
Arguments state_ {Meta}.
Arguments next_ {Meta}.
Arguments highest_ {Meta}.
Arguments requested_next_ {Meta}.
Arguments overflow_end_ {Meta}.
Arguments attempts_ {Meta}.
Arguments now_ns_ {Meta}.
Arguments highest_ns_ {Meta}.
Arguments last_request_ns_ {Meta}.
Arguments gap_since_ {Meta}.
Arguments stats_ {Meta}.
#[export] Instance eta_receiver Meta : Eta (Receiver Meta) := fun r =>
  mkReceiver (h_ r) (held_ r) (metas_ r) (skew_ r) (session_ r) (have_session_ r) (eos_ r) (eos_notified_ r) (state_ r) (next_ r) (highest_ r) (requested_next_ r)
    (overflow_end_ r) (attempts_ r) (now_ns_ r) (highest_ns_ r) (last_request_ns_ r) (gap_since_ r) (stats_ r).

Section receiver.
Context {Meta : Type} `{!Inhabited Meta}.
Variable cfg : ReceiverConfig.
Abbreviation Receiver := (Receiver Meta).
Implicit Type st : Receiver.

Definition new_receiver : Receiver :=
  mkReceiver [] (new_reorder (c_reorder_packets cfg) (c_max_packet_bytes cfg)) ∅ ∅ (c_session cfg) false false false Down (c_next_sequence cfg) 0 0 0 0 0 0 0 kNoGap no_stats.
Definition tell (e : Event Meta) st : Receiver := st <| h_ ::= fun l => l ++ [e] |>.
Definition count (f : ReceiverStats -> ReceiverStats) st : Receiver := st <| stats_ ::= f |>.

(** A new session numbers its messages from 1. *)
Definition start_session (s : SessionId) st : Receiver :=
  count (fun x => x <| s_sessions ::= inc |>)
    (st <| session_ := s |> <| next_ := if c_next_sequence cfg =? 0 then 0 else 1 |> <| highest_ := 0 |> <| highest_ns_ := 0 |> <| requested_next_ := 0 |> <| attempts_ := 0 |>
        <| overflow_end_ := 0 |> <| eos_ := false |> <| eos_notified_ := false |> <| gap_since_ := kNoGap |> <| held_ ::= rb_clear |> <| skew_ := ∅ |> <| state_ := Up |>).
Definition accept_session (p : PacketView) st : bool * Receiver :=
  if negb (have_session_ st) then
    if negb (is_blank (session_ st)) && negb (bool_decide (pv_session p = session_ st)) then (false, count (fun x => x <| s_session_mismatch ::= inc |>) st)
    else (true, st <| session_ := pv_session p |> <| have_session_ := true |>)
  else if bool_decide (pv_session p = session_ st) then (true, st)
  else if c_follow_session cfg && eos_notified_ st then (true, start_session (pv_session p) st)
  else (false, count (fun x => x <| s_session_mismatch ::= inc |>) st).

Definition skew_slot (p : PacketView) : Z := Z.land (pv_sequence p) (kSkewSlots - 1).
Definition first_copy (p : PacketView) (now_ns : Z) st : Receiver := st <| skew_ ::= insert (skew_slot p) (pv_sequence p, now_ns) |>.
Definition duplicate (p : PacketView) (now_ns line : Z) st : Receiver :=
  let st := count (fun x => on_line line (fun l => l <| ls_duplicate_packets ::= inc |>) (x <| s_duplicate_packets ::= inc |>)) st in
  let '(seq, rx_ns) := default (0, 0) (skew_ st !! skew_slot p) in
  if negb (seq =? pv_sequence p) then st
  else
    let d := i64 (now_ns - rx_ns) in
    count (on_line line (fun l => l <| skew_samples ::= inc |> <| skew_last_ns := d |> <| skew_sum_ns ::= fun s => i64 (s + d) |> <| skew_max_ns ::= fun m => if m <? d then d else m |>)) st.

(** The loop of [deliver]; the iterator hands out at most [n] messages. *)
Fixpoint deliver_all (n : nat) (it : MessageIterator) (meta : Meta) st : Receiver :=
  match n with
  | O => st
  | S n =>
    match it_next it with
    | None => st
    | Some (seq, msg, it) =>
      let st := if seq <? next_ st then st else count (fun x => x <| s_messages ::= inc |>) ((tell (OnMessage seq msg meta) st) <| next_ := u64 (seq + 1) |>) in
      deliver_all n it meta st
    end
  end.
Definition deliver (p : PacketView) (meta : Meta) st : Receiver := deliver_all (S (Z.to_nat (pv_count p))) (new_iterator p) meta st.

(** One turn of the loop of [drain]. *)
Definition drain_step st : Receiver + Receiver :=
  let i := find_at_or_below (next_ st) (held_ st) in
  if i =? kNone then inr st
  else
    let v := rb_view i (session_ st) (held_ st) in
    let st := if next_ st <? next_sequence v then deliver v (default inhabitant (metas_ st !! i)) st else st in
    inl (st <| held_ ::= rb_erase i |>).
Definition drain st : option Receiver :=
  if rb_empty (held_ st) then Some st
  else match loop 32 drain_step st with inr st => Some st | inl _ => None end.

Definition hold (p : PacketView) (now_ns : Z) (meta : Meta) st : bool * Receiver :=
  let '(slot, held) := rb_insert p now_ns (held_ st) in
  if slot =? kNone then (false, st)
  else
    let st := st <| held_ := held |> <| metas_ ::= insert slot meta |> in
    (true, count (fun x => x <| s_held_packets ::= inc |> <| s_reorder_high_water ::= fun w => if w <? rb_size held then rb_size held else w |>) st).

Definition hole_known_since st : Z := let held := oldest_rx (held_ st) in if held <? highest_ns_ st then held else highest_ns_ st.
Definition on_progress st : Receiver := st <| gap_since_ := if next_ st <? highest_ st then hole_known_since st else kNoGap |>.
Definition aged (now_ns : Z) st : bool := c_gap_timeout_ns cfg <=? i64 (now_ns - gap_since_ st).

(** Gives up the sequences from [next_] to the first held packet, at most to [limit]. *)
Definition skip_hole (limit : Z) st : option Receiver :=
  let lowest := rb_lowest (held_ st) in
  let target := if lowest <? limit then lowest else limit in
  let from := next_ st in
  let st := count (fun x => x <| s_unrecoverable_gaps ::= inc |> <| s_lost_messages ::= fun n => u64 (n + u64 (target - from)) |>) st in
  let st := tell (OnGapUnrecoverable from (u64 (target - from))) (st <| next_ := target |>) in
  st ← drain st; Some (on_progress st).

(** Requests the first hole. *)
Definition request (now_ns : Z) st : Receiver :=
  let lowest := rb_lowest (held_ st) in
  let hole_end := if lowest <? highest_ st then lowest else highest_ st in
  let missing := u64 (hole_end - next_ st) in
  let n := if missing <? c_max_request_count cfg then u16 missing else c_max_request_count cfg in
  let buf := snd (write_request (replicate (Z.to_nat kRequestLength) 0) (session_ st) (next_ st) n) in
  let st := st <| attempts_ := if requested_next_ st =? next_ st then u32 (attempts_ st + 1) else 1 |> <| requested_next_ := next_ st |> <| last_request_ns_ := now_ns |> in
  tell (SendRequest buf) (count (fun x => x <| s_requests ::= inc |>) st).

(** One turn of the do-loop that gives up holes until the packet is in sequence or can be held. *)
Definition give_up_step (p : PacketView) st : Receiver + option Receiver :=
  match skip_hole (pv_sequence p) (count (fun x => x <| s_gaps ::= inc |>) st) with
  | None => inr None
  | Some st => if (next_ st <? pv_sequence p) && (rb_full (held_ st) || negb (rb_fits p (held_ st))) then inl st else inr (Some st)
  end.
Definition on_ahead (p : PacketView) (now_ns : Z) (meta : Meta) (line : Z) st : option Receiver :=
  let st := count (fun x => x <| s_ahead_packets ::= inc |>) st in
  if rb_covers (pv_sequence p) (next_sequence p) (held_ st) then Some (duplicate p now_ns line st)
  else
    let st := first_copy p now_ns st in
    let '(ok, st) := hold p now_ns meta st in
    if ok then Some st
    else
      let st := count (fun x => x <| s_reorder_overflow ::= inc |>) st in
      if c_can_request cfg then
        let st := if overflow_end_ st <? next_sequence p then st <| overflow_end_ := next_sequence p |> else st in
        Some (if negb (recovering (state_ st)) then request now_ns (count (fun x => x <| s_gaps ::= inc |>) (st <| state_ := Recovering |>)) else st)
      else
        match loop 64 (give_up_step p) st with
        | inr (Some st) =>
          if next_ st <? pv_sequence p then Some (snd (hold p now_ns meta st))
          else if next_ st <? next_sequence p then drain (deliver p meta st)
          else Some st
        | _ => None
        end.

(** One turn of the loop of [update]: [inl] to go on, [inr] to return, with whether the loop ran to its end. *)
Definition update_step (now_ns : Z) st : Receiver + option (bool * Receiver) :=
  if negb (next_ st <? highest_ st) then inr (Some (true, st))
  else
    let st := if gap_since_ st =? kNoGap then st <| gap_since_ := hole_known_since st |> else st in
    let skip := skip_hole (highest_ st) in
    if negb (recovering (state_ st)) then
      if negb (aged now_ns st) then inr (Some (false, st))
      else
        let st := count (fun x => x <| s_gaps ::= inc |>) st in
        if negb (c_can_request cfg) then match skip st with Some st => inl st | None => inr None end
        else inr (Some (false, request now_ns (st <| state_ := Recovering |>)))
    else if negb (requested_next_ st =? next_ st) then
      inr (Some (false, if aged now_ns st || (next_ st <? overflow_end_ st) then request now_ns st else st))
    else if i64 (now_ns - last_request_ns_ st) <? c_request_timeout_ns cfg then inr (Some (false, st))
    else if (c_max_request_attempts cfg =? 0) || (attempts_ st <? c_max_request_attempts cfg) then inr (Some (false, request now_ns st))
    else match skip st with Some st => inl st | None => inr None end.
Definition update (now_ns : Z) st : option Receiver :=
  match loop 64 (update_step now_ns) st with
  | inr (Some (true, st)) =>
    let st := st <| gap_since_ := kNoGap |> in
    let st := match state_ st with Down => st | _ => st <| state_ := Up |> end in
    Some (if eos_ st && negb (eos_notified_ st) then tell OnEndOfSession (st <| eos_notified_ := true |>) else st)
  | inr (Some (false, st)) => Some st
  | _ => None
  end.

Definition on_packet (line : Z) (datagram : list Z) (now_ns : Z) (meta : Meta) st : option Receiver :=
  let st := st <| now_ns_ := now_ns |> in
  match parse_packet datagram with
  | None => Some (count (fun x => x <| s_malformed ::= inc |>) st)
  | Some p =>
    let '(ok, st) := accept_session p st in
    if negb ok then Some st
    else
      let st := count (fun x => on_line line (fun l => l <| ls_packets ::= inc |>) (x <| s_packets ::= inc |>)) st in
      let st := if next_ st =? 0 then st <| next_ := if pv_sequence p =? 0 then 1 else pv_sequence p |> else st in
      let st := match state_ st with Down => st <| state_ := Up |> | _ => st end in
      let end_ := next_sequence p in
      let st := if highest_ st <? end_ then st <| highest_ := end_ |> <| highest_ns_ := now_ns |> else st in
      let before := next_ st in
      st ← match pv_kind p with
           | Heartbeat => Some (count (fun x => x <| s_heartbeats ::= inc |>) st)
           | EndOfSession => Some ((count (fun x => x <| s_end_of_session ::= inc |>) st) <| eos_ := true |>)
           | Data =>
             if end_ <=? next_ st then Some (duplicate p now_ns line st)
             else if pv_sequence p <=? next_ st then drain (deliver p meta (first_copy p now_ns st))
             else on_ahead p now_ns meta line st
           end;
      update now_ns (if negb (next_ st =? before) then on_progress st else st)
  end.
(** [on_frame]: the payload is a datagram of line 0, at the latest time seen. *)
Definition on_frame (payload : list Z) st : option Receiver := on_packet 0 payload (now_ns_ st) inhabitant st.
Definition on_timer (now_ns : Z) st : option Receiver :=
  let st := st <| now_ns_ := now_ns |> in
  if next_ st <? highest_ st then update now_ns st else Some st.
Definition reset (next : Z) st : Receiver :=
  let st := st <| next_ := next |> <| held_ ::= rb_clear |> <| requested_next_ := 0 |> <| attempts_ := 0 |> <| overflow_end_ := 0 |> <| gap_since_ := kNoGap |> in
  let st := if recovering (state_ st) then st <| state_ := Up |> else st in
  let st := if negb (next_ st =? 0) && (highest_ st <? next_ st) then st <| highest_ := next_ st |> <| highest_ns_ := now_ns_ st |> else st in
  if negb (next_ st =? 0) && (next_ st <? highest_ st) then st <| gap_since_ := now_ns_ st |> else st.
End receiver.

(** ** The transmitter *)

Record TransmitterConfig := mkTxConfig { history_bytes : Z; history_messages : Z; max_datagram : Z; overwrite_oldest : bool }.
Record Transmitter := mkTransmitter {
  tx_session : SessionId;
  tx_bytes : list Z;
  tx_starts : gmap Z Z;
  tx_lens : gmap Z Z;
  tx_count : Z;
  tx_first : Z;
  tx_head : Z;
  tx_evicted : Z;
  tx_next_unsent : Z;
}.
#[export] Instance eta_transmitter : Eta Transmitter := fun t =>
  mkTransmitter (tx_session t) (tx_bytes t) (tx_starts t) (tx_lens t) (tx_count t) (tx_first t) (tx_head t) (tx_evicted t) (tx_next_unsent t).

Section transmitter.
Variable cfg : TransmitterConfig.
Implicit Type t : Transmitter.

Definition new_transmitter (session : list Z) : Transmitter :=
  mkTransmitter (make_session session) (replicate (Z.to_nat (history_bytes cfg)) 0) ∅ ∅ 0 1 0 0 1.
Definition tx_held t : Z := u64 (tx_count t + 1 - tx_first t).
Definition start_of t (seq : Z) : Z := default 0 (tx_starts t !! (seq mod history_messages cfg)).
Definition len_of t (seq : Z) : Z := default 0 (tx_lens t !! (seq mod history_messages cfg)).
Definition evict_oldest t : Transmitter := t <| tx_first ::= fun n => u64 (n + 1) |> <| tx_evicted ::= fun n => u64 (n + 1) |>.
(** The loop [while (held() != 0 && cond) evict_oldest()]. *)
Definition evict_step (cond : Transmitter -> bool) t : Transmitter + Transmitter :=
  if negb (tx_held t =? 0) && cond t then inl (evict_oldest t) else inr t.
Definition evict_while (cond : Transmitter -> bool) t : option Transmitter :=
  match loop 64 (evict_step cond) t with inr t => Some t | inl _ => None end.
Definition store (msg : list Z) t : Transmitter :=
  let n := len msg in
  let t := if negb (n =? 0) then t <| tx_bytes ::= put (tx_head t) msg |> else t in
  let t := t <| tx_count ::= fun c => u64 (c + 1) |> in
  let slot := tx_count t mod history_messages cfg in
  t <| tx_starts ::= insert slot (tx_head t) |> <| tx_lens ::= insert slot (u16 n) |> <| tx_head ::= fun h => u64 (h + n) |>.
Definition publish (msg : list Z) t : option (Z * Transmitter) :=
  let n := len msg in
  if (kMaxMessageLength <? n) || (history_bytes cfg <? n) || (history_messages cfg =? 0) then Some (0, t)
  else if negb (overwrite_oldest cfg) then
    if (history_messages cfg <=? tx_held t) || (u64 (history_bytes cfg - tx_head t) <? n) then Some (0, t)
    else let t := store msg t in Some (tx_count t, t)
  else
    let t := if history_messages cfg <=? tx_held t then evict_oldest t else t in
    t ← (if u64 (history_bytes cfg - tx_head t) <? n then
           t ← evict_while (fun t => tx_head t <=? start_of t (tx_first t)) t; Some (t <| tx_head := 0 |>)
         else Some t);
    t ← evict_while (fun t => (tx_head t <=? start_of t (tx_first t)) && (start_of t (tx_first t) <? u64 (tx_head t + n))) t;
    let t := store msg t in Some (tx_count t, t).

(** The loop of [packet_at] that adds messages from [s] on; the builder takes at most [n] of them. *)
Fixpoint add_messages (n : nat) (s max_count : Z) t (b : PacketBuilder) : PacketBuilder :=
  match n with
  | O => b
  | S n =>
    if (s <=? tx_count t) && (pb_count b <? max_count) then
      let '(ok, b) := pb_add (get (start_of t s) (len_of t s) (tx_bytes t)) b in
      if ok then add_messages n (u64 (s + 1)) max_count t b else b
    else b
  end.
Definition packet_at (out : list Z) (seq max_count : Z) t : Z * list Z :=
  if (seq <? tx_first t) || (tx_count t <? seq) then (0, out)
  else
    let limit := if len out <? max_datagram cfg then len out else max_datagram cfg in
    let b := new_builder (take (Z.to_nat limit) out) (tx_session t) seq in
    let b := add_messages (S (Z.to_nat max_count)) seq max_count t b in
    let rest := drop (Z.to_nat limit) out in
    if pb_count b =? 0 then (0, pb_buf b ++ rest) else let '(n, buf) := pb_finish b in (n, buf ++ rest).
Definition next_packet (out : list Z) (max_count : Z) t : Z * list Z * Transmitter :=
  let t := if tx_next_unsent t <? tx_first t then t <| tx_next_unsent := tx_first t |> else t in
  if tx_count t <? tx_next_unsent t then (0, out, t)
  else
    let '(n, out) := packet_at out (tx_next_unsent t) max_count t in
    if n =? 0 then (0, out, t) else (n, out, t <| tx_next_unsent ::= fun s => u64 (s + load_be16 (drop 18 out)) |>).
Definition answer_request (req out : list Z) t : Z * list Z :=
  match parse_request req with
  | None => (0, out)
  | Some r => if negb (bool_decide (rq_session r = tx_session t)) || (rq_count r =? 0) then (0, out) else packet_at out (rq_sequence r) (rq_count r) t
  end.
Definition tx_heartbeat (out : list Z) t : Z * list Z := write_heartbeat out (tx_session t) (tx_next_unsent t).
Definition tx_end_of_session (out : list Z) t : Z * list Z := write_end_of_session out (tx_session t) (tx_next_unsent t).
End transmitter.
