(* ===== verification/MoldPacket.v ===== *)
(** * MoldPacket: what the packet parser accepts and what the builder writes *)

From S2P Require Import Prelude Types FixedPoint NasdaqFields MoldUdp.

(** ** The format *)

Definition block (m : list Z) : list Z := store_be16 (len m) ++ m.
Definition blocks (ms : list (list Z)) : list Z := concat (block <$> ms).
Definition header (session : list Z) (seq count : Z) : list Z := session ++ store_be64 seq ++ store_be16 count.
Definition message_ok (m : list Z) : Prop := bytes_ok m /\ len m <= kMaxMessageLength.
Definition session_ok (s : list Z) : Prop := bytes_ok s /\ length s = kSessionLength.

Lemma block_len m : len (block m) = 2 + len m.
Proof. unfold block. rewrite len_app. done. Qed.
Lemma blocks_cons m ms : blocks (m :: ms) = block m ++ blocks ms.
Proof. done. Qed.
Lemma blocks_snoc ms m : blocks (ms ++ [m]) = blocks ms ++ block m.
Proof. unfold blocks. rewrite fmap_app, concat_app. cbn. by rewrite app_nil_r. Qed.
Lemma block_ok m : message_ok m -> bytes_ok (block m).
Proof. intros [H _]. apply Forall_app. auto using store_be16_ok. Qed.
Lemma blocks_ok ms : Forall message_ok ms -> bytes_ok (blocks ms).
Proof. induction 1; [done|]. rewrite blocks_cons. apply Forall_app. auto using block_ok. Qed.
Lemma header_length s seq count : length s = kSessionLength -> length (header s seq count) = 20%nat.
Proof. intros H. unfold header. rewrite !length_app, H. done. Qed.
Lemma load_block m rest : message_ok m -> load_be16 (block m ++ rest) = len m.
Proof. intros [_ H]. unfold block. rewrite <- app_assoc. apply load_store_be16. pose proof (len_nonneg m). unfold kMaxMessageLength in H. lia. Qed.

(** A packet as the format has it. *)
Definition datagram_of (p : PacketView) : list Z :=
  header (pv_session p) (pv_sequence p) (match pv_kind p with Data => pv_count p | Heartbeat => kHeartbeatCount | EndOfSession => kEndOfSessionCount end) ++ pv_blocks p.
Definition packet_ok (p : PacketView) (ms : list (list Z)) : Prop :=
  session_ok (pv_session p) /\ 0 <= pv_sequence p < 2 ^ 64 /\ Forall message_ok ms /\ pv_blocks p = blocks ms /\ pv_count p = Z.of_nat (length ms) /\ pv_count p <= kMaxMessagesPerPacket /\
  (pv_kind p = Data <-> ms <> []).

(** ** Parsing *)

Lemma skip_blocks_all ms pre rest : Forall message_ok ms -> skip_blocks (length ms) (pre ++ blocks ms ++ rest) (len pre) = Some (len (pre ++ blocks ms)).
Proof.
  revert pre. induction ms as [|m ms IH]; intros pre H; cbn [length skip_blocks]; [by rewrite app_nil_r|]. apply Forall_cons in H as [Hm Hms]. rewrite blocks_cons, <- app_assoc.
  pose proof (len_nonneg (blocks ms)). pose proof (len_nonneg rest). pose proof (len_nonneg m). rewrite !len_app, block_len. replace (_ <? 2) with false by lia.
  rewrite drop_len, load_block by done. replace (_ <? len m) with false by lia.
  specialize (IH (pre ++ block m) Hms). rewrite !len_app, block_len, <- app_assoc in IH. replace (len pre + 2 + len m) with (len pre + (2 + len m)) by lia. rewrite IH. f_equal. lia.
Qed.
(** What the loop walks over is a sequence of blocks. *)
Lemma skip_blocks_some n pre bs off : bytes_ok bs -> skip_blocks n (pre ++ bs) (len pre) = Some off -> exists ms rest, bs = blocks ms ++ rest /\ length ms = n /\ Forall message_ok ms /\ off = len pre + len (blocks ms).
Proof.
  revert pre bs. induction n as [|n IH]; intros pre bs Hb; cbn [skip_blocks]; [intros [= <-]; exists [], bs; cbn; rewrite Z.add_0_r; done|].
  rewrite len_app. rewrite drop_len. destruct (Z.ltb_spec (len pre + len bs - len pre) 2) as [|H2]; [done|].
  set (k := load_be16 bs). pose proof (load_be16_range bs) as Hk. fold k in Hk. destruct (Z.ltb_spec (len pre + len bs - len pre - 2) k) as [|Hl]; [done|]. intros E.
  assert (Hlen : (2 <= length bs)%nat) by (unfold len in *; lia). set (m := take (Z.to_nat k) (drop 2 bs)).
  assert (Hm : len m = k) by (unfold m, len in *; rewrite length_take, length_drop; lia).
  assert (Em : bs = block m ++ drop (Z.to_nat k) (drop 2 bs)).
  { unfold block. rewrite Hm. unfold k. rewrite store_load_be16 by done. rewrite <- app_assoc. unfold m. fold k. by rewrite take_drop, take_drop. }
  set (bs' := drop (Z.to_nat k) (drop 2 bs)) in *. rewrite Em in E. rewrite app_assoc in E. replace (len pre + 2 + k) with (len (pre ++ block m)) in E by (rewrite len_app, block_len; lia).
  destruct (IH _ bs' ltac:(by apply Forall_drop, Forall_drop) E) as (ms & rest & -> & <- & Hms & ->). exists (m :: ms), rest. rewrite blocks_cons, <- app_assoc. split; [done|]. split; [done|]. split.
  - constructor; [|done]. split; [by apply Forall_take, Forall_drop|]. unfold kMaxMessageLength. lia.
  - rewrite !len_app. lia.
Qed.
Lemma header_fields s seq count rest : length s = kSessionLength -> 0 <= seq < 2 ^ 64 -> 0 <= count < 65536 -> let d := header s seq count ++ rest in
  take kSessionLength d = s /\ load_be64 (drop 10 d) = seq /\ load_be16 (drop 18 d) = count /\ drop 20 d = rest /\ len d = 20 + len rest.
Proof.
  intros Hs Hq Hc d. unfold d. split; [unfold header; rewrite <- !app_assoc, <- Hs; apply take_app_length|].
  unfold header. split; [rewrite <- !app_assoc, drop_app_length' by done; by apply load_store_be64|]. split.
  - rewrite (app_assoc s), <- app_assoc, drop_app_length' by (rewrite length_app, Hs; done). by apply load_store_be16.
  - split; [apply drop_app_length'; symmetry; by apply (header_length s seq count) | rewrite len_app; f_equal; unfold len; pose proof (header_length s seq count Hs) as E; unfold header in E; rewrite E; done].
Qed.

Lemma header_split d : bytes_ok d -> (20 <= length d)%nat -> d = header (take kSessionLength d) (load_be64 (drop 10 d)) (load_be16 (drop 18 d)) ++ drop 20 d.
Proof.
  intros H Hl. unfold header. rewrite store_load_be64, store_load_be16 by (rewrite ?length_drop; auto using Forall_drop; lia). rewrite <- !app_assoc.
  replace (drop 20 d) with (drop 2 (drop 18 d)) by (rewrite drop_drop; done). rewrite take_drop. replace (drop 18 d) with (drop 8 (drop 10 d)) by (rewrite drop_drop; done). by rewrite take_drop, take_drop.
Qed.
(** Well-formed packets are accepted, and nothing else is. *)
Lemma parse_datagram p ms : packet_ok p ms -> parse_packet (datagram_of p) = Some p.
Proof.
  intros ((_ & Hs) & Hq & Hms & Hb & Hc & Hmax & Hk). unfold kMaxMessagesPerPacket in Hmax. unfold datagram_of. set (c := match pv_kind p with Data => _ | Heartbeat => _ | EndOfSession => _ end).
  assert (Hcr : 0 <= c < 65536) by (unfold c, kHeartbeatCount, kEndOfSessionCount; destruct (pv_kind p); lia). destruct (header_fields _ _ c (pv_blocks p) Hs Hq Hcr) as (E1 & E2 & E3 & E4 & E5).
  unfold parse_packet. change (Z.to_nat kHeaderLength) with 20%nat. rewrite E1, E2, E3, E4, E5. pose proof (len_nonneg (pv_blocks p)). unfold kHeaderLength. replace (_ <? 20) with false by lia.
  destruct p as [s q n k bs]. cbn [pv_kind pv_count pv_blocks pv_session pv_sequence] in *. destruct k; unfold c, kHeartbeatCount, kEndOfSessionCount in *.
  - assert (ms <> []) as Hne by (by apply Hk). destruct ms as [|m ms]; [done|]. cbn [length] in Hc. replace (n =? 0) with false by lia. replace (n =? 65535) with false by lia. cbn [orb].
    pose proof (skip_blocks_all (m :: ms) [] [] Hms) as E. cbn [app] in E. rewrite app_nil_r in E. change (len []) with 0 in E. rewrite Hb, Hc, Nat2Z.id. cbn [length] in E. rewrite E. cbn [mbind option_bind]. by rewrite Z.eqb_refl.
  - assert (ms = []) as -> by (destruct ms; [done|]; exfalso; assert (Heartbeat = Data) by (by apply Hk); done). cbn in Hb, Hc. by subst.
  - assert (ms = []) as -> by (destruct ms; [done|]; exfalso; assert (EndOfSession = Data) by (by apply Hk); done). cbn in Hb, Hc. by subst.
Qed.
Lemma parse_inv d p : bytes_ok d -> parse_packet d = Some p -> d = datagram_of p /\ exists ms, packet_ok p ms.
Proof.
  intros Hd. unfold parse_packet. destruct (Z.ltb_spec (len d) kHeaderLength) as [|Hl]; [done|]. change (Z.to_nat kHeaderLength) with 20%nat. unfold kHeaderLength, len in Hl.
  pose proof (header_split d Hd ltac:(lia)) as Ed. pose proof (load_be16_range (drop 18 d)) as Hc. set (c := load_be16 (drop 18 d)) in *. set (s := take kSessionLength d) in *. set (q := load_be64 (drop 10 d)) in *.
  assert (Hs : session_ok s) by (split; [by apply Forall_take | unfold s, kSessionLength; rewrite length_take; lia]). assert (Hq : 0 <= q < 2 ^ 64) by (apply load_be64_range; [by apply Forall_drop | rewrite length_drop; lia]).
  destruct ((c =? kHeartbeatCount) || (c =? kEndOfSessionCount)) eqn:Ec.
  - destruct (Z.eqb_spec (len (drop 20 d)) 0) as [E0|]; [|done]. apply len_0 in E0. intros [= <-]. rewrite E0 in Ed. split.
    + rewrite Ed at 1. unfold datagram_of. cbn [pv_kind pv_count pv_blocks pv_session pv_sequence]. do 2 f_equal. unfold kHeartbeatCount, kEndOfSessionCount in *. destruct (Z.eqb_spec c 0); lia.
    + exists []. unfold packet_ok, kMaxMessagesPerPacket. cbn [pv_kind pv_count pv_blocks pv_session pv_sequence length]. split; [done|]. split; [done|]. split; [constructor|]. split; [done|]. split; [done|]. split; [lia|]. by destruct (c =? kHeartbeatCount).
  - pose proof (skip_blocks_some (Z.to_nat c) [] (drop 20 d)) as H. cbn [app] in H. change (len []) with 0 in H. destruct (skip_blocks (Z.to_nat c) (drop 20 d) 0) as [off|]; [|done]. cbn [mbind option_bind].
    destruct (H off ltac:(by apply Forall_drop) eq_refl) as (ms & rest & E & El & Hms & ->). destruct (Z.eqb_spec (0 + len (blocks ms)) (len (drop 20 d))) as [E'|]; [|done]. cbn [negb]. intros [= <-].
    rewrite E, len_app in E'. assert (rest = []) as -> by (apply len_0; lia). rewrite app_nil_r in E. unfold kHeartbeatCount, kEndOfSessionCount in *. split; [unfold datagram_of; cbn [pv_kind pv_count pv_blocks pv_session pv_sequence]; exact Ed|]. exists ms.
    unfold packet_ok, kMaxMessagesPerPacket. cbn [pv_kind pv_count pv_blocks pv_session pv_sequence]. split; [exact Hs|]. split; [exact Hq|]. split; [exact Hms|]. split; [exact E|]. split; [lia|]. split; [lia|]. split; [|reflexivity]. intros _ ->. cbn in El. lia.
Qed.

(** ** The messages of a packet *)

Fixpoint walk_messages (n : nat) (it : MessageIterator) : list (Z * list Z) :=
  match n with
  | O => []
  | S n => match it_next it with None => [] | Some (seq, msg, it) => (seq, msg) :: walk_messages n it end
  end.
Fixpoint numbered (seq : Z) (ms : list (list Z)) : list (Z * list Z) :=
  match ms with [] => [] | m :: ms => (seq, m) :: numbered (u64 (seq + 1)) ms end.
Definition packet_messages (p : PacketView) : list (Z * list Z) := walk_messages (S (Z.to_nat (pv_count p))) (new_iterator p).

Lemma it_next_block m rest seq n : message_ok m -> 0 < n -> it_next (mkIter (block m ++ rest) seq n) = Some (seq, m, mkIter rest (u64 (seq + 1)) (n - 1)).
Proof.
  intros Hm Hn. unfold it_next. cbn [it_left it_rest it_seq]. replace (n =? 0) with false by lia. unfold framer_next. pose proof (len_nonneg m). pose proof (len_nonneg rest). rewrite load_block by done.
  rewrite len_app, block_len. replace (_ <? 2) with false by lia. replace (_ <? 2 + len m) with false by lia. cbn [consumed payload]. replace (2 + len m =? 0) with false by lia.
  rewrite <- (block_len m), drop_len. do 3 f_equal. unfold block. rewrite <- app_assoc. exact (get_at (store_be16 (len m)) m rest).
Qed.
Lemma walk_blocks ms rest seq n : Forall message_ok ms -> (length ms < n)%nat -> walk_messages n (mkIter (blocks ms ++ rest) seq (Z.of_nat (length ms))) = numbered seq ms.
Proof.
  revert seq n. induction ms as [|m ms IH]; intros seq n H Hn; (destruct n as [|n]; [cbn in Hn; lia|]); cbn [walk_messages].
  - unfold it_next. cbn. done.
  - apply Forall_cons in H as [Hm Hms]. rewrite blocks_cons, <- app_assoc, it_next_block by (done || cbn; lia). cbn [numbered]. f_equal. replace (Z.of_nat (length (m :: ms)) - 1) with (Z.of_nat (length ms)) by (cbn; lia).
    apply IH; [done | cbn in Hn; lia].
Qed.
Lemma packet_messages_ok p ms : packet_ok p ms -> packet_messages p = numbered (pv_sequence p) ms.
Proof.
  intros (_ & _ & Hms & Hb & Hc & _). unfold packet_messages, new_iterator. rewrite Hb, Hc, Nat2Z.id. rewrite <- (app_nil_r (blocks ms)). by apply walk_blocks; [|lia].
Qed.

(** ** Building *)

Definition built (b : PacketBuilder) (s : list Z) (seq : Z) (ms : list (list Z)) (rest : list Z) : Prop :=
  pb_buf b = header s seq 0 ++ blocks ms ++ rest /\ pb_size b = 20 + len (blocks ms) /\ pb_count b = Z.of_nat (length ms) /\ pb_first b = seq.
Lemma header_put s seq c buf : length s = kSessionLength -> (20 <= length buf)%nat -> write_header 0 s seq c buf = header s seq c ++ drop 20 buf.
Proof.
  intros Hs Hl. unfold write_header, header. assert (E1 : put 0 s buf = s ++ drop 10 buf) by (pose proof (put_at [] s buf) as E; change (len []) with 0 in E; cbn [app] in E; rewrite E, Hs; done). change (0 + 18) with 18. change (0 + 10) with 10. rewrite E1.
  replace 10 with (len s) by (unfold len; rewrite Hs; done). rewrite put_at, store_be64_length, drop_drop. rewrite app_assoc. replace 18 with (len (s ++ store_be64 seq)) by (unfold len; rewrite length_app, Hs; done).
  rewrite put_at, store_be16_length, drop_drop. by rewrite <- !app_assoc.
Qed.
Lemma new_builder_built buf s seq : length s = kSessionLength -> 20 <= len buf -> built (new_builder buf s seq) s seq [] (drop 20 buf).
Proof.
  intros Hs Hl. unfold new_builder, kHeaderLength. replace (20 <=? len buf) with true by lia. unfold built. cbn [pb_buf pb_size pb_count pb_first]. rewrite header_put by (done || unfold len in Hl; lia). done.
Qed.
Lemma add_built b s seq ms rest m : built b s seq ms rest -> length s = kSessionLength -> len m <= kMaxMessageLength ->
  if (Z.of_nat (length ms) <? kMaxMessagesPerPacket) && (2 + len m <=? len rest) then exists b', pb_add m b = (true, b') /\ built b' s seq (ms ++ [m]) (drop (2 + length m) rest) else pb_add m b = (false, b).
Proof.
  intros (E1 & E2 & E3 & E4) Hs Hm. pose proof (len_nonneg m). pose proof (len_nonneg (blocks ms)). unfold pb_add. rewrite E2, E3. replace (20 + len (blocks ms) =? 0) with false by lia. replace (kMaxMessageLength <? len m) with false by lia. cbn [orb].
  assert (Ht : len (header s seq 0) = 20) by (unfold len; rewrite header_length; done). assert (El : len (pb_buf b) - (20 + len (blocks ms)) = len rest) by (rewrite E1, !len_app, Ht; lia). rewrite El.
  destruct (Z.ltb_spec (Z.of_nat (length ms)) kMaxMessagesPerPacket) as [Hc|Hc]; [|replace (kMaxMessagesPerPacket <=? Z.of_nat (length ms)) with true by lia; done].
  replace (kMaxMessagesPerPacket <=? Z.of_nat (length ms)) with false by lia. cbn [orb andb]. destruct (Z.leb_spec (2 + len m) (len rest)) as [Hr|Hr]; [|replace (len rest <? 2 + len m) with true by lia; done].
  replace (len rest <? 2 + len m) with false by lia. eexists. split; [reflexivity|]. unfold built. cbn [pb_buf pb_size pb_count pb_first].
  split; [|rewrite blocks_snoc, len_app, block_len, length_app, E4; cbn [length]; split; [lia|]; split; [lia | done]].
  rewrite E1, app_assoc. replace (20 + len (blocks ms)) with (len (header s seq 0 ++ blocks ms)) by (rewrite len_app; lia). rewrite put_at, store_be16_length. unfold u16. rewrite (Z.mod_small (len m)) by (unfold kMaxMessageLength in Hm; lia).
  rewrite blocks_snoc. unfold block. destruct (Z.eqb_spec (len m) 0) as [E0|N0]; cbn [negb].
  - apply len_0 in E0. subst m. cbn [length Nat.add]. by rewrite app_nil_r, <- !app_assoc.
  - rewrite app_assoc. replace (len (header s seq 0 ++ blocks ms) + 2) with (len ((header s seq 0 ++ blocks ms) ++ store_be16 (len m))) by (rewrite (len_app _ (store_be16 _)); done). rewrite put_at, drop_drop. by rewrite <- !app_assoc.
Qed.
Lemma finish_built b s seq ms rest : built b s seq ms rest -> length s = kSessionLength -> exists buf, pb_finish b = (20 + len (blocks ms), buf) /\ buf = header s seq (Z.of_nat (length ms)) ++ blocks ms ++ rest /\
  take (Z.to_nat (20 + len (blocks ms))) buf = header s seq (Z.of_nat (length ms)) ++ blocks ms.
Proof.
  intros (E1 & E2 & E3 & E4) Hs. pose proof (len_nonneg (blocks ms)). unfold pb_finish. rewrite E2, E3. replace (_ =? 0) with false by lia. eexists. split; [reflexivity|].
  assert (E : put 18 (store_be16 (Z.of_nat (length ms))) (pb_buf b) = header s seq (Z.of_nat (length ms)) ++ blocks ms ++ rest).
  { rewrite E1. unfold header at 1. rewrite (app_assoc s), <- app_assoc. replace 18 with (len (s ++ store_be64 seq)) by (unfold len; rewrite length_app, Hs; done). rewrite put_at, store_be16_length. cbn [drop app]. unfold header. by rewrite <- !app_assoc. }
  split; [exact E|]. rewrite E, app_assoc. apply take_app_length'. rewrite length_app, header_length by done. unfold len. lia.
Qed.

(** ** What the receiver and the sender rely on *)

Lemma build_all s seq ms : forall b ms0 rest, built b s seq ms0 rest -> length s = kSessionLength -> Forall message_ok ms -> Z.of_nat (length ms0 + length ms) <= kMaxMessagesPerPacket -> len (blocks ms) <= len rest ->
  exists rest', built (fold_left (fun b m => snd (pb_add m b)) ms b) s seq (ms0 ++ ms) rest'.
Proof.
  induction ms as [|m ms IH]; intros b ms0 rest Hb Hs Hms Hc Hl; cbn [fold_left]; [exists rest; by rewrite app_nil_r|]. apply Forall_cons in Hms as [Hm Hms]. rewrite blocks_cons, len_app, block_len in Hl. cbn [length] in Hc.
  pose proof (add_built b s seq ms0 rest m Hb Hs (proj2 Hm)) as H. pose proof (len_nonneg (blocks ms)). pose proof (len_nonneg m). replace (_ <? _) with true in H by lia. replace (_ <=? _) with true in H by lia.
  destruct H as (b' & -> & Hb'). cbn [snd]. replace (ms0 ++ m :: ms) with ((ms0 ++ [m]) ++ ms) by by rewrite <- app_assoc. eapply IH; [exact Hb' | done | done | rewrite length_app; cbn [length]; lia | unfold len in *; rewrite length_drop; lia].
Qed.
(** C22. Packets round trip: whatever messages are put into a packet that has room for them, the parser accepts the datagram
    and the iterator gives back those messages under consecutive sequence numbers; a packet of none is a heartbeat. *)
Theorem packet_roundtrip buf s seq ms : session_ok s -> 0 <= seq < 2 ^ 64 -> Forall message_ok ms -> Z.of_nat (length ms) <= kMaxMessagesPerPacket -> 20 + len (blocks ms) <= len buf ->
  let '(n, out) := pb_finish (fold_left (fun b m => snd (pb_add m b)) ms (new_builder buf s seq)) in
  exists p, parse_packet (take (Z.to_nat n) out) = Some p /\ pv_session p = s /\ pv_sequence p = seq /\ packet_messages p = numbered seq ms /\ (pv_kind p = Data <-> ms <> []) /\ (pv_kind p = Heartbeat <-> ms = []).
Proof.
  intros Hs Hq Hms Hc Hl. pose proof (len_nonneg (blocks ms)). destruct (build_all s seq ms _ [] _ (new_builder_built buf s seq (proj2 Hs) ltac:(lia)) (proj2 Hs) Hms) as (rest & Hb); [cbn [length]; lia | unfold len in *; rewrite length_drop; lia|]. cbn [app] in Hb.
  destruct (finish_built _ s seq ms rest Hb (proj2 Hs)) as (out & -> & _ & ->). set (p := mkPacket s seq (Z.of_nat (length ms)) (if decide (ms = []) then Heartbeat else Data) (blocks ms)).
  assert (Hp : packet_ok p ms) by (unfold packet_ok, p; cbn; repeat split; try done; try apply Hs; try lia; by destruct (decide (ms = []))). exists p. split; [|split; [done|]; split; [done|]; split; [by apply packet_messages_ok|]; cbn; by destruct (decide (ms = []))].
  rewrite <- (parse_datagram p ms Hp). f_equal. unfold datagram_of, p. cbn [pv_kind pv_count pv_blocks pv_session pv_sequence]. f_equal. f_equal. destruct (decide (ms = [])) as [->|]; done.
Qed.
(** C23. The parser accepts exactly the datagrams of the format: a header, as many blocks as it announces (none for a heartbeat
    and for the end of the session) and nothing behind them, and what it returns is well formed. *)
Theorem parse_exact d p : bytes_ok d -> parse_packet d = Some p <-> d = datagram_of p /\ exists ms, packet_ok p ms.
Proof. intros Hd. split; [by apply parse_inv|]. intros [-> [ms Hp]]. by apply (parse_datagram p ms). Qed.

Module ConcretePackets.
Abbreviation text := [72; 105].
Lemma blank_ok : session_ok kBlankSession.
Proof. split; [|done]. unfold kBlankSession, is_byte, space. apply Forall_replicate. lia. Qed.
Lemma texts_ok : Forall message_ok [text; []; [7]].
Proof. repeat (apply Forall_cons; split); try apply Forall_nil_2; (split; [repeat (apply Forall_cons; split); try apply Forall_nil_2; unfold is_byte; lia | vm_compute; discriminate]). Qed.
Lemma packet_roundtrip_witness : exists p, parse_packet (take 29 (snd (pb_finish (fold_left (fun b m => snd (pb_add m b)) [text; []; [7]] (new_builder (replicate 40 0) kBlankSession 5))))) = Some p /\ packet_messages p = [(5, text); (6, []); (7, [7])].
Proof.
  pose proof (packet_roundtrip (replicate 40 0) kBlankSession 5 [text; []; [7]] blank_ok ltac:(lia) texts_ok ltac:(unfold kMaxMessagesPerPacket; cbn; lia) ltac:(vm_compute; discriminate)) as H.
  destruct (pb_finish _) as [n out] eqn:E. assert (n = 29) as -> by (apply (f_equal fst) in E; vm_compute in E; congruence). destruct H as (p & Hp & _ & _ & Hm & _). exists p. split; [|exact Hm].
  rewrite <- Hp. cbn [snd]. apply (f_equal snd) in E. cbn [snd] in E. subst out. vm_compute. reflexivity.
Defined.
Lemma parse_exact_witness : exists p, parse_packet (header kBlankSession 9 1 ++ block text) = Some p /\ exists ms, packet_ok p ms.
Proof.
  destruct (parse_packet (header kBlankSession 9 1 ++ block text)) as [p|] eqn:E; [|vm_compute in E; discriminate E]. exists p. split; [reflexivity|].
  apply (parse_exact (header kBlankSession 9 1 ++ block text) p); [|exact E]. apply Forall_app. split; [unfold header; rewrite !Forall_app; split; [apply blank_ok | auto using store_be64_ok, store_be16_ok] | apply block_ok, (Forall_inv texts_ok)].
Defined.
End ConcretePackets.
