(* ===== verification/MoldReceive.v ===== *)
(** * MoldReceive: in-order delivery, step by step

    What the handler has been told is in sequence: each message and each lost range starts where the one before ended.  The
    reorder buffer holds whole packets beyond the next expected sequence; delivering, draining and skipping keep both. *)

From S2P Require Import Prelude Types FixedPoint NasdaqFields MoldUdp MoldPacket.

#[local] Arguments u64 : simpl never.
#[local] Arguments i64 : simpl never.
#[local] Arguments kNone : simpl never.

Section receive.
Context {Meta : Type} `{!Inhabited Meta}.
(** What the sender puts under each sequence number. *)
Context (carries : Z -> list Z -> Prop).
(** Whether sequences may be given up. *)
Context (lossy : Prop).
Abbreviation Receiver := (Receiver Meta).
Implicit Type st : Receiver.

(** ** The log *)

Fixpoint advance (n : Z) (evs : list (Event Meta)) : option Z :=
  match evs with
  | [] => Some n
  | OnMessage seq _ _ :: evs => if seq =? n then advance (n + 1) evs else None
  | OnGapUnrecoverable from count :: evs => if (from =? n) && (0 <? count) then advance (n + count) evs else None
  | _ :: evs => advance n evs
  end.
Definition event_ok (e : Event Meta) : Prop := match e with OnMessage seq m _ => carries seq m | OnGapUnrecoverable _ _ => lossy | OnEndOfSession => False | SendRequest _ => True end.
(** [st] after telling [evs]: in sequence, with the sender's messages. *)
Definition tells (n : Z) (evs : list (Event Meta)) (n' : Z) : Prop := advance n evs = Some n' /\ Forall event_ok evs.

Lemma advance_app n a b : advance n (a ++ b) = advance n a ≫= fun m => advance m b.
Proof. revert n. induction a as [|e a IH]; intros n; cbn; [done|]. destruct e; try done; by case_match. Qed.
Lemma tells_nil n : tells n [] n.
Proof. done. Qed.
Lemma tells_app n a m b k : tells n a m -> tells m b k -> tells n (a ++ b) k.
Proof. intros [E1 H1] [E2 H2]. split; [by rewrite advance_app, E1 | by apply Forall_app]. Qed.
Lemma advance_le n evs m : advance n evs = Some m -> n <= m.
Proof. revert n. induction evs as [|e evs IH]; intros n; cbn; [intros [= ->]; lia|]. destruct e; try apply IH; case_if; try done; intros H%IH; lia. Qed.
Lemma tells_gap n c m : lossy -> n + c = m -> 0 < c -> tells n [OnGapUnrecoverable n c] m.
Proof. intros HL <- Hc. split; [|by repeat constructor]. cbn. rewrite Z.eqb_refl. by replace (0 <? c) with true by lia. Qed.

(** ** Delivering a packet *)

Definition carried (seq : Z) (ms : list (list Z)) : Prop := Forall (fun x => carries (fst x) (snd x)) (numbered seq ms).
Lemma deliver_ok ms rest seq n meta st : Forall message_ok ms -> carried seq ms -> (length ms < n)%nat -> 0 <= seq <= next_ st -> seq + Z.of_nat (length ms) < 2 ^ 64 -> exists evs s,
  deliver_all n (mkIter (blocks ms ++ rest) seq (Z.of_nat (length ms))) meta st = st <| h_ := h_ st ++ evs |> <| next_ := Z.max (next_ st) (seq + Z.of_nat (length ms)) |> <| stats_ := s |> /\
  tells (next_ st) evs (Z.max (next_ st) (seq + Z.of_nat (length ms))).
Proof.
  revert seq n st. induction ms as [|m ms IH]; intros seq n st Hms Hc Hn Hs Hb; (destruct n as [|n]; [cbn in Hn; lia|]); cbn [deliver_all].
  - exists [], (stats_ st). cbn [length]. unfold it_next. cbn [it_left Z.of_nat Z.eqb]. rewrite Z.max_l, app_nil_r by lia. split; [by destruct st | apply tells_nil].
  - apply Forall_cons in Hms as [Hm Hms]. rewrite blocks_cons, <- app_assoc, it_next_block by (done || cbn [length]; lia). replace (Z.of_nat (length (m :: ms)) - 1) with (Z.of_nat (length ms)) by (cbn [length]; lia).
    cbn [length] in *. unfold u64. rewrite (Z.mod_small (seq + 1)) by lia. unfold carried in Hc. cbn [numbered] in Hc. apply Forall_cons in Hc as [Hcm Hc]. unfold u64 in Hc. rewrite (Z.mod_small (seq + 1)) in Hc by lia.
    destruct (Z.ltb_spec seq (next_ st)) as [Hlt|Hge].
    + destruct (IH (seq + 1) n st Hms Hc ltac:(lia) ltac:(lia) ltac:(lia)) as (evs & s & E & Ht). exists evs, s. replace (seq + Z.of_nat (S (length ms))) with (seq + 1 + Z.of_nat (length ms)) by lia. done.
    + assert (seq = next_ st) as -> by lia. set (st1 := count _ _). destruct (IH (next_ st + 1) n st1 Hms Hc ltac:(lia) ltac:(unfold st1; cbn; lia) ltac:(lia)) as (evs & s & E & Ht).
      exists (OnMessage (next_ st) m meta :: evs), s. replace (next_ st + Z.of_nat (S (length ms))) with (next_ st + 1 + Z.of_nat (length ms)) by lia. change (next_ st1) with (next_ st + 1) in *. rewrite Z.max_r in * by lia. split.
      * rewrite E. unfold st1, count, tell. cbn. by rewrite <- app_assoc.
      * change (OnMessage (next_ st) m meta :: evs) with ([OnMessage (next_ st) m meta] ++ evs). eapply tells_app; [|exact Ht]. split; [cbn; by rewrite Z.eqb_refl | by repeat constructor].
Qed.

(** ** The reorder buffer *)

Definition entry_ok (r : ReorderBuffer) (i : nat) (e : Entry) : Prop := exists ms, get (Z.of_nat i * rb_stride r) (e_len e) (rb_data r) = blocks ms /\ Forall message_ok ms /\ ms <> [] /\
  carried (e_seq e) ms /\ e_count e = Z.of_nat (length ms) /\ 0 <= e_seq e /\ e_end e = e_seq e + e_count e /\ e_end e < 2 ^ 64 /\ 0 <= e_len e <= rb_stride r.
Definition used (es : list Entry) : Z := Z.of_nat (length (filter (fun e => e_used e = true) es)).
Record reorder_ok (r : ReorderBuffer) : Prop := mkReorderOk {
  ro_cap : 0 <= rb_capacity r <= kNone;
  ro_len : length (rb_entries r) = Z.to_nat (rb_capacity r);
  ro_stride : 0 <= rb_stride r < 2 ^ 32;
  ro_data : len (rb_data r) = rb_capacity r * rb_stride r;
  ro_size : rb_size r = used (rb_entries r);
  ro_entry i e : rb_entries r !! i = Some e -> e_used e = true -> entry_ok r i e;
}.
Definition beyond (n : Z) (r : ReorderBuffer) : Prop := forall i e, rb_entries r !! i = Some e -> e_used e = true -> n < e_seq e.
Definition below (n : Z) (r : ReorderBuffer) : Prop := forall i e, rb_entries r !! i = Some e -> e_used e = true -> e_end e <= n.

Lemma entry_scan_spec f es k : 0 <= k -> k + Z.of_nat (length es) <= kNone ->
  (exists i e, scan f es k = k + Z.of_nat i /\ es !! i = Some e /\ f e = true) \/ (scan f es k = kNone /\ forall i e, es !! i = Some e -> f e = false).
Proof.
  revert k. induction es as [|e es IH]; intros k Hk Hl; cbn [scan]; [right; split; [done|]; by intros i e|]. destruct (f e) eqn:Ef.
  - left. exists 0%nat, e. split; [lia | done].
  - cbn [length] in Hl. destruct (IH (k + 1) ltac:(lia) ltac:(lia)) as [(i & e' & -> & Hi & Hf)|[-> H]].
    + left. exists (S i), e'. split; [lia | done].
    + right. split; [done|]. intros [|i] e' Hi; [by injection Hi as <- | by apply (H i)].
Qed.
Lemma used_0 es : used es = 0 <-> forall i e, es !! i = Some e -> e_used e = false.
Proof.
  unfold used. induction es as [|e es IH]; [split; [by intros _ i e | done]|]. rewrite filter_cons. destruct (decide (e_used e = true)) as [Hu|Hu].
  - split; [intros H; cbn [length] in H; lia|]. intros H. specialize (H 0%nat e eq_refl). congruence.
  - rewrite IH. split; [intros H [|i] e' Hi; [injection Hi as <-; by destruct (e_used e) | by apply (H i)] | intros H i e' Hi; by apply (H (S i))].
Qed.
Lemma used_insert es i e e' : es !! i = Some e -> used (<[i := e']> es) = used es - (if e_used e then 1 else 0) + (if e_used e' then 1 else 0).
Proof.
  unfold used. revert i. induction es as [|x es IH]; intros i Hi; [done|]. destruct i as [|i].
  - injection Hi as ->. change (<[0%nat := e']> (e :: es)) with (e' :: es). rewrite !filter_cons. destruct (e_used e), (e_used e'); repeat first [rewrite decide_True by done | rewrite decide_False by done]; cbn [length]; lia.
  - cbn in Hi. specialize (IH i Hi). change (<[S i := e']> (x :: es)) with (x :: <[i := e']> es). rewrite !filter_cons. destruct (decide (e_used x = true)); cbn [length]; lia.
Qed.
Lemma used_le es : used es <= Z.of_nat (length es).
Proof. unfold used. pose proof (length_filter (fun e => e_used e = true) es). lia. Qed.

(** A used slot shares no byte with another. *)
Lemma entry_ok_put r i j e bs : reorder_ok r -> rb_entries r !! i = Some e -> entry_ok r i e -> i <> j -> (j < length (rb_entries r))%nat -> len bs <= rb_stride r ->
  forall r', rb_stride r' = rb_stride r -> rb_data r' = put (Z.of_nat j * rb_stride r) bs (rb_data r) -> entry_ok r' i e.
Proof.
  intros Hr Hi (ms & E & H) N Hj Hl r' Es Ed. exists ms. rewrite Es, Ed. split; [|done]. rewrite <- E. pose proof (ro_stride r Hr). pose proof (ro_cap r Hr). pose proof (ro_len r Hr). pose proof (ro_data r Hr) as Hd.
  pose proof (lookup_lt_Some _ _ _ Hi). destruct H as (_ & _ & _ & _ & _ & _ & _ & He). apply get_put_other; [nia | nia | lia | rewrite Hd; nia | destruct (decide (i < j)%nat); [left | right]; nia].
Qed.
Lemma rb_insert_ok p ms now r : reorder_ok r -> packet_ok p ms -> ms <> [] -> carried (pv_sequence p) ms -> pv_sequence p + pv_count p < 2 ^ 64 ->
  if rb_full r || negb (rb_fits p r) then rb_insert p now r = (kNone, r)
  else exists i e r', rb_insert p now r = (Z.of_nat i, r') /\ Z.of_nat i <> kNone /\ reorder_ok r' /\ rb_entries r !! i = Some e /\ e_used e = false /\ rb_size r' = rb_size r + 1 /\ rb_capacity r' = rb_capacity r /\ rb_stride r' = rb_stride r /\
    rb_entries r' = <[i := mkEntry (pv_sequence p) (pv_sequence p + pv_count p) now (len (pv_blocks p)) (pv_count p) true]> (rb_entries r).
Proof.
  intros Hr Hp Hne Hc Hb. unfold rb_insert. destruct (rb_full r) eqn:Ef; [done|]. destruct (rb_fits p r) eqn:Efit; [|done]. cbn [negb orb]. unfold rb_full in Ef. unfold rb_fits in Efit.
  pose proof (ro_cap r Hr) as Hcap. pose proof (ro_len r Hr) as Hlen. pose proof (ro_stride r Hr) as Hst. pose proof (ro_size r Hr) as Hsz. pose proof (used_le (rb_entries r)) as Hu. destruct Hp as (Hps & Hpq & Hms & Hpb & Hpc & Hpm & _).
  destruct (entry_scan_spec (fun e => negb (e_used e)) (rb_entries r) 0 ltac:(lia) ltac:(lia)) as [(i & e & -> & Hi & Hf)|[_ H]].
  2:{ exfalso. enough (used (rb_entries r) = Z.of_nat (length (rb_entries r))) by lia. unfold used. f_equal. f_equal. apply filter_all. apply Forall_lookup. intros i e Hi. specialize (H i e Hi). cbn in H. by destruct (e_used e). }
  rewrite Z.add_0_l. pose proof (lookup_lt_Some _ _ _ Hi) as Hlt. pose proof (len_nonneg (pv_blocks p)). assert (e_used e = false) as Hue by (by destruct (e_used e)).
  assert (Hbl : len (pv_blocks p) <> 0) by (rewrite Hpb; destruct ms as [|m ms]; [done|]; rewrite blocks_cons, len_app, block_len; pose proof (len_nonneg m); pose proof (len_nonneg (blocks ms)); lia).
  set (e' := mkEntry _ _ _ _ _ _). set (r' := r <| rb_entries ::= _ |> <| rb_data ::= _ |> <| rb_size := _ |>). exists i, e, r'. split; [done|]. split; [lia|].
  assert (Ee : e' = mkEntry (pv_sequence p) (pv_sequence p + pv_count p) now (len (pv_blocks p)) (pv_count p) true) by (unfold e', next_sequence, u64, u32; rewrite !Z.mod_small by lia; done).
  assert (Een : rb_entries r' = <[i := e']> (rb_entries r)) by (unfold r'; cbn; by rewrite Nat2Z.id).
  assert (Eda : rb_data r' = put (Z.of_nat i * rb_stride r) (pv_blocks p) (rb_data r)) by (unfold r'; cbn; by replace (len (pv_blocks p) =? 0) with false by lia).
  assert (Hfit : 0 <= Z.of_nat i * rb_stride r /\ Z.of_nat i * rb_stride r + len (pv_blocks p) <= len (rb_data r)) by (rewrite (ro_data r Hr); nia).
  split; [|split; [done|]; split; [done|]; split; [done|]; split; [done|]; split; [done|]; by rewrite Een, Ee]. split.
  - done.
  - by rewrite Een, length_insert.
  - done.
  - rewrite Eda. unfold len. rewrite put_length by apply Hfit. exact (ro_data r Hr).
  - change (rb_size r') with (rb_size r + 1). rewrite Een, (used_insert _ i e) by done. rewrite Hue. cbn [e' e_used]. lia.
  - intros j x Hj Hx. rewrite Een in Hj. destruct (decide (i = j)) as [<-|N].
    + rewrite list_lookup_insert_eq in Hj by done. injection Hj as <-. exists ms. change (rb_stride r') with (rb_stride r). rewrite Eda, Ee. cbn [e_len e_seq e_count e_end]. rewrite get_put_same by apply Hfit. repeat split; try done; lia.
    + rewrite list_lookup_insert_ne in Hj by done. by apply (entry_ok_put r j i x (pv_blocks p) Hr Hj (ro_entry r Hr j x Hj Hx) (not_eq_sym N) Hlt ltac:(lia)).
Qed.
Lemma rb_erase_ok r i e : reorder_ok r -> rb_entries r !! i = Some e -> e_used e = true -> let r' := rb_erase (Z.of_nat i) r in
  reorder_ok r' /\ rb_size r' = rb_size r - 1 /\ rb_entries r' = <[i := e <| e_used := false |>]> (rb_entries r) /\ rb_capacity r' = rb_capacity r /\ rb_stride r' = rb_stride r.
Proof.
  intros Hr Hi Hu r'. assert (E : rb_entries r' = <[i := e <| e_used := false |>]> (rb_entries r)).
  { unfold r', rb_erase. cbn. rewrite Nat2Z.id. apply list_eq. intros j. destruct (decide (i = j)) as [<-|N].
    - rewrite list_lookup_alter_eq, list_lookup_insert_eq, Hi by (by eapply lookup_lt_Some). done.
    - by rewrite list_lookup_alter_ne, list_lookup_insert_ne. }
  split; [|done]. split; try apply Hr.
  - rewrite E, length_insert. apply Hr.
  - rewrite E, (used_insert _ i e), Hu by done. change (rb_size r') with (rb_size r - 1). rewrite (ro_size r Hr). cbn. lia.
  - intros j x Hj Hx. rewrite E in Hj. destruct (decide (i = j)) as [<-|N]; [rewrite list_lookup_insert_eq in Hj by (by eapply lookup_lt_Some); injection Hj as <-; done|].
    rewrite list_lookup_insert_ne in Hj by done. exact (ro_entry r Hr j x Hj Hx).
Qed.

(** ** Draining *)

Definition sub_reorder (r r0 : ReorderBuffer) : Prop := rb_capacity r = rb_capacity r0 /\ rb_stride r = rb_stride r0 /\ forall i e, rb_entries r !! i = Some e -> e_used e = true -> rb_entries r0 !! i = Some e.
(** [st'] is [st] after delivering held packets. *)
Definition drained st st' : Prop := exists evs s r n, st' = st <| h_ := h_ st ++ evs |> <| next_ := n |> <| stats_ := s |> <| held_ := r |> /\ tells (next_ st) evs n /\ reorder_ok r /\ sub_reorder r (held_ st) /\
  forall b, below b (held_ st) -> next_ st <= b -> n <= b.
Lemma sub_refl r : sub_reorder r r.
Proof. done. Qed.
Lemma sub_trans r1 r2 r3 : sub_reorder r1 r2 -> sub_reorder r2 r3 -> sub_reorder r1 r3.
Proof. intros (C1 & S1 & H1) (C2 & S2 & H2). split; [congruence|]. split; [congruence|]. auto. Qed.
Lemma sub_below b r r0 : sub_reorder r r0 -> below b r0 -> below b r.
Proof. intros (_ & _ & H) Hb i e Hi Hu. by apply (Hb i e), Hu; apply H. Qed.
Lemma sub_beyond b r r0 : sub_reorder r r0 -> beyond b r0 -> beyond b r.
Proof. intros (_ & _ & H) Hb i e Hi Hu. by apply (Hb i e), Hu; apply H. Qed.
Lemma drained_refl st : reorder_ok (held_ st) -> drained st st.
Proof. intros H. exists [], (stats_ st), (held_ st), (next_ st). rewrite app_nil_r. split; [by destruct st|]. auto using tells_nil, sub_refl. Qed.
Lemma drained_trans st st1 st2 : drained st st1 -> drained st1 st2 -> drained st st2.
Proof.
  intros (e1 & s1 & r1 & n1 & -> & T1 & R1 & S1 & B1) (e2 & s2 & r2 & n2 & -> & T2 & R2 & S2 & B2). exists (e1 ++ e2), s2, r2, n2. cbn in *. rewrite <- app_assoc. split; [done|]. split; [by eapply tells_app|]. split; [done|].
  split; [by eapply sub_trans|]. intros b Hb Hn. apply B2; [by eapply sub_below | by apply B1].
Qed.
Lemma drained_le st st' : drained st st' -> next_ st <= next_ st'.
Proof. intros (evs & s & r & n & -> & [T _] & _). by apply advance_le in T. Qed.
Lemma below_max r : reorder_ok r -> below (2 ^ 64 - 1) r.
Proof. intros Hr i e Hi Hu. destruct (ro_entry r Hr i e Hi Hu) as (ms & _ & _ & _ & _ & _ & _ & _ & He & _). lia. Qed.
Lemma view_deliver r session i e meta st : reorder_ok r -> rb_entries r !! i = Some e -> e_used e = true -> e_seq e <= next_ st < 2 ^ 64 -> let v := rb_view (Z.of_nat i) session r in
  next_sequence v = e_end e /\ exists evs s, deliver v meta st = st <| h_ := h_ st ++ evs |> <| next_ := Z.max (next_ st) (e_end e) |> <| stats_ := s |> /\ tells (next_ st) evs (Z.max (next_ st) (e_end e)).
Proof.
  intros Hr Hi Hu Hn v. destruct (ro_entry r Hr i e Hi Hu) as (ms & E & Hms & Hne & Hc & Hcnt & H0 & Hend & Hmax & _). assert (Ev : v = mkPacket session (e_seq e) (e_count e) Data (blocks ms)).
  { unfold v, rb_view, rb_entry. rewrite Nat2Z.id, Hi. cbn [default]. unfold from_option, id. by rewrite E. }
  rewrite Ev. split; [unfold next_sequence, u64; cbn; rewrite Z.mod_small; lia|]. unfold deliver, new_iterator. cbn [pv_blocks pv_sequence pv_count]. rewrite Hcnt, Nat2Z.id, Hend, Hcnt, <- (app_nil_r (blocks ms)). by apply deliver_ok; [done | done | lia | lia | lia].
Qed.
Lemma drain_step_ok st : reorder_ok (held_ st) -> 0 <= next_ st < 2 ^ 64 ->
  match drain_step st with inl st' => drained st st' /\ rb_size (held_ st') = rb_size (held_ st) - 1 | inr st' => st' = st /\ beyond (next_ st) (held_ st) end.
Proof.
  intros Hr Hn. unfold drain_step, find_at_or_below. destruct (Z.eqb_spec (rb_size (held_ st)) 0) as [E0|N0].
  - rewrite Z.eqb_refl. split; [done|]. rewrite (ro_size _ Hr) in E0. intros i e Hi Hu. rewrite used_0 in E0. specialize (E0 i e Hi). congruence.
  - pose proof (ro_cap _ Hr). pose proof (ro_len _ Hr). destruct (entry_scan_spec (fun e => e_used e && (e_seq e <=? next_ st)) (rb_entries (held_ st)) 0 ltac:(lia) ltac:(lia)) as [(i & e & -> & Hi & Hf)|[-> H1]].
    + rewrite Z.add_0_l. apply andb_true_iff in Hf as [Hu Hle%Z.leb_le]. pose proof (lookup_lt_Some _ _ _ Hi). replace (Z.of_nat i =? kNone) with false by lia.
      destruct (view_deliver (held_ st) (session_ st) i e (default inhabitant (metas_ st !! Z.of_nat i)) st Hr Hi Hu ltac:(lia)) as (En & evs & s & Ed & Ht). rewrite En, Ed.
      destruct (rb_erase_ok (held_ st) i e Hr Hi Hu) as (Hr' & Hs' & He' & Hc' & Hst'). set (st1 := if _ <? _ then _ else _).
      assert (Hsub : sub_reorder (rb_erase (Z.of_nat i) (held_ st)) (held_ st)) by (split; [done|]; split; [done|]; intros j x Hj Hx; rewrite He' in Hj; destruct (decide (i = j)) as [<-|N]; [rewrite list_lookup_insert_eq in Hj by done; injection Hj as <-; done | by rewrite list_lookup_insert_ne in Hj]).
      assert (E1 : exists evs s n, st1 = st <| h_ := h_ st ++ evs |> <| next_ := n |> <| stats_ := s |> /\ tells (next_ st) evs n /\ n = Z.max (next_ st) (e_end e)).
      { unfold st1. destruct (Z.ltb_spec (next_ st) (e_end e)); [by exists evs, s, (Z.max (next_ st) (e_end e))|]. exists [], (stats_ st), (next_ st). rewrite app_nil_r. split; [by destruct st|]. split; [apply tells_nil | lia]. }
      destruct E1 as (evs' & s' & n & -> & Ht' & ->). split; [|done]. exists evs', s', (rb_erase (Z.of_nat i) (held_ st)), (Z.max (next_ st) (e_end e)). split; [done|]. split; [done|]. split; [done|]. split; [done|].
      intros b Hb Hnb. specialize (Hb i e Hi Hu). lia.
    + rewrite Z.eqb_refl. split; [done|]. intros i e Hi Hu. specialize (H1 i e Hi). cbn in H1. rewrite Hu in H1. cbn in H1. lia.
Qed.
Lemma drain_ok st : reorder_ok (held_ st) -> 0 <= next_ st < 2 ^ 64 -> exists st', drain st = Some st' /\ drained st st' /\ beyond (next_ st') (held_ st').
Proof.
  intros Hr Hn. unfold drain, rb_empty. destruct (Z.eqb_spec (rb_size (held_ st)) 0) as [E0|N0].
  - exists st. split; [done|]. split; [by apply drained_refl|]. rewrite (ro_size _ Hr) in E0. intros i e Hi Hu. rewrite used_0 in E0. specialize (E0 i e Hi). congruence.
  - destruct (loop_rule drain_step (fun s => drained st s) (fun s => drained st s /\ beyond (next_ s) (held_ s)) (fun s => rb_size (held_ s))) with (d := 32%nat) (s := st) as (st' & -> & H); [| by apply drained_refl | | by exists st'].
    + intros s Hs. pose proof Hs as (evs & s' & r & n & Es & [T _] & R & S & B). pose proof (B _ (below_max _ Hr) ltac:(lia)) as Hb. pose proof (advance_le _ _ _ T). pose proof (drain_step_ok s ltac:(by subst s) ltac:(subst s; cbn; lia)) as Hst.
      destruct (drain_step s) as [s2|s2]; [|by destruct Hst as [-> Hbe]]. destruct Hst as [Hd Hsz]. split; [by eapply drained_trans|]. pose proof Hd as (e2 & s3 & r2 & n2 & E2 & _ & R2 & _).
      pose proof (ro_size _ R2) as Hu. assert (rb_size (held_ s2) = rb_size r2) by by rewrite E2. unfold used in Hu. lia.
    + pose proof (ro_size _ Hr). pose proof (used_le (rb_entries (held_ st))). pose proof (ro_len _ Hr). pose proof (ro_cap _ Hr). unfold used, kNone in *. change (2 ^ Z.of_nat 32) with 4294967296. lia.
Qed.
End receive.
