(* ===== verification/MoldRecover.v ===== *)
(** * MoldRecover: gaps, requests and whole packets of the receiver *)

From S2P Require Import Prelude Types FixedPoint NasdaqFields MoldUdp MoldPacket MoldReceive.

#[local] Arguments u64 : simpl never.
#[local] Arguments i64 : simpl never.
#[local] Arguments kNone : simpl never.
#[local] Arguments loop : simpl never.

Section recover.
Context {Meta : Type} `{!Inhabited Meta}.
Context (cfg : ReceiverConfig) (carries : Z -> list Z -> Prop).
Abbreviation Receiver := (Receiver Meta).
Definition lossy : Prop := c_can_request cfg = false \/ c_max_request_attempts cfg <> 0.
Abbreviation tells := (tells (Meta := Meta) carries lossy).
Abbreviation reorder_ok := (reorder_ok carries).
Abbreviation carried := (carried carries).
Implicit Type st : Receiver.

Record rinv st : Prop := mkRinv {
  ri_held : reorder_ok (held_ st);
  ri_beyond : beyond (next_ st) (held_ st);
  ri_below : below (highest_ st) (held_ st);
  ri_next : 0 <= next_ st < 2 ^ 64;
  ri_high : 0 <= highest_ st < 2 ^ 64;
  ri_session : session_ok (session_ st);
}.
(** [st'] is [st] after telling the handler something in sequence. *)
Definition moved st st' : Prop := exists evs, h_ st' = h_ st ++ evs /\ tells (next_ st) evs (next_ st') /\ highest_ st' = highest_ st /\ session_ st' = session_ st /\ have_session_ st' = have_session_ st /\ eos_ st' = eos_ st /\ eos_notified_ st' = eos_notified_ st.

Lemma rx_moved_refl st : moved st st.
Proof. exists []. rewrite app_nil_r. split; [done|]. split; [apply tells_nil | done]. Qed.
Lemma rx_moved_trans st st1 st2 : moved st st1 -> moved st1 st2 -> moved st st2.
Proof.
  intros (e1 & H1 & T1 & A1 & B1 & C1 & D1 & F1) (e2 & H2 & T2 & A2 & B2 & C2 & D2 & F2). exists (e1 ++ e2). rewrite H2, H1, <- app_assoc. split; [done|]. split; [by eapply tells_app|]. repeat split; congruence.
Qed.
Lemma moved_le st st' : moved st st' -> next_ st <= next_ st'.
Proof. intros (evs & _ & [T _] & _). by apply advance_le in T. Qed.
(** Steps that change nothing the log, the position and the invariant depend on. *)
Definition still st st' : Prop := h_ st' = h_ st /\ held_ st' = held_ st /\ next_ st' = next_ st /\ highest_ st' = highest_ st /\ session_ st' = session_ st /\ have_session_ st' = have_session_ st /\ eos_ st' = eos_ st /\ eos_notified_ st' = eos_notified_ st.
Lemma still_moved st st' : still st st' -> moved st st'.
Proof. intros (H1 & H2 & H3 & H4 & H5 & H6 & H7 & H8). exists []. rewrite app_nil_r, H3. split; [done|]. split; [apply tells_nil | done]. Qed.
Lemma rinv_same st st' : held_ st' = held_ st -> next_ st' = next_ st -> highest_ st' = highest_ st -> session_ st' = session_ st -> rinv st -> rinv st'.
Proof. intros H2 H3 H4 H5 [A B C D E F]. split; rewrite ?H2, ?H3, ?H4, ?H5; done. Qed.
Lemma still_rinv st st' : still st st' -> rinv st -> rinv st'.
Proof. intros (H1 & H2 & H3 & H4 & H5 & H6 & H7 & H8). by apply rinv_same. Qed.
Lemma drained_moved st st' : drained carries lossy st st' -> moved st st'.
Proof. intros (evs & s & r & n & -> & T & _). by exists evs. Qed.

(** ** Giving up a hole *)

Lemma lowest_spec r : reorder_ok r -> (forall i e, rb_entries r !! i = Some e -> e_used e = true -> rb_lowest r <= e_seq e) /\
  (rb_lowest r = u64_max \/ exists i e, rb_entries r !! i = Some e /\ e_used e = true /\ e_seq e = rb_lowest r).
Proof.
  intros Hr. unfold rb_lowest. destruct (Z.eqb_spec (rb_size r) 0) as [E0|_].
  - rewrite (ro_size _ _ Hr), used_0 in E0. split; [|by left]. intros i e Hi Hu. specialize (E0 i e Hi). congruence.
  - clear Hr. generalize (rb_entries r). intros es. generalize u64_max. intros m.
    enough (H : forall lo, let lo' := fold_left (fun lo e => if e_used e && (e_seq e <? lo) then e_seq e else lo) es lo in
      lo' <= lo /\ (forall i e, es !! i = Some e -> e_used e = true -> lo' <= e_seq e) /\ (lo' = lo \/ exists i e, es !! i = Some e /\ e_used e = true /\ e_seq e = lo')) by (destruct (H m) as (_ & ? & ?); done).
    induction es as [|e es IH]; intros lo; cbn [fold_left]; [split; [lia|]; split; [by intros i e | by left]|]. set (lo1 := if _ && _ then _ else _). destruct (IH lo1) as (A & B & C). set (lo' := fold_left _ es lo1) in *.
    assert (H1 : lo1 <= lo /\ (e_used e = true -> lo1 <= e_seq e) /\ (lo1 = lo \/ e_used e = true /\ e_seq e = lo1)) by (unfold lo1; destruct (e_used e); cbn [andb]; [destruct (Z.ltb_spec (e_seq e) lo)|]; (split; [lia|]; split; [intros ?; (lia || done)|]; auto)).
    destruct H1 as (D1 & D2 & D3). split; [lia|]. split; [intros [|i] x Hi Hu; [injection Hi as <-; specialize (D2 Hu); lia | by apply (B i)]|].
    destruct C as [->|(i & x & Hi & Hx)]; [|right; by exists (S i), x]. destruct D3 as [->|D3]; [by left|]. right. by exists 0%nat, e.
Qed.
Lemma skip_hole_ok limit st : lossy -> reorder_ok (held_ st) -> beyond (next_ st) (held_ st) -> 0 <= next_ st < limit -> limit < 2 ^ 64 -> exists st', skip_hole limit st = Some st' /\ moved st st' /\ next_ st < next_ st' /\ reorder_ok (held_ st') /\ beyond (next_ st') (held_ st') /\
  sub_reorder (held_ st') (held_ st) /\ (forall b, below b (held_ st) -> limit <= b -> next_ st' <= b) /\ rb_capacity (held_ st') = rb_capacity (held_ st) /\ state_ st' = state_ st.
Proof.
  intros HL Hr Hb Hn Hl. unfold skip_hole. destruct (lowest_spec (held_ st) Hr) as [L1 L2]. set (lo := rb_lowest (held_ st)) in *. set (t := if lo <? limit then lo else limit).
  assert (Ht : next_ st < t <= limit). { unfold t. destruct (Z.ltb_spec lo limit) as [Hlt|]; [|lia]. destruct L2 as [E|(i & e & Hi & Hu & E)]; [unfold u64_max in E; lia|]. specialize (Hb i e Hi Hu). lia. }
  assert (u64 (t - next_ st) = t - next_ st) as Eu by (unfold u64; apply Z.mod_small; lia). cbv zeta. rewrite !Eu. set (st1 := tell _ _).
  destruct (drain_ok carries lossy st1 Hr ltac:(cbn; lia)) as (st2 & -> & Hd & Hbe). cbn [mbind option_bind]. exists (on_progress st2). split; [done|].
  pose proof Hd as (evs & s & r & n & E2 & T & R & S & B). assert (T1 : tells (next_ st) [OnGapUnrecoverable (next_ st) (t - next_ st)] t) by (apply tells_gap; [exact HL | lia | lia]). change (next_ st1) with t in T, B. change (held_ st1) with (held_ st) in S, B.
  pose proof (proj1 T) as Hle%advance_le. split; [|split; [|split; [|split; [|split; [|split; [|split]]]]]].
  - exists ([OnGapUnrecoverable (next_ st) (t - next_ st)] ++ evs). subst st2. cbn. rewrite <- app_assoc. split; [done|]. split; [by eapply (tells_app carries lossy _ [_]) | done].
  - subst st2. cbn. lia.
  - by subst st2.
  - by subst st2.
  - by subst st2.
  - intros b H1 H2. subst st2. cbn. apply B; [done | lia].
  - subst st2. cbn. apply S.
  - by subst st2.
Qed.
Lemma skip_hole_rinv limit st : lossy -> rinv st -> next_ st < limit -> limit <= highest_ st -> exists st', skip_hole limit st = Some st' /\ moved st st' /\ rinv st' /\ next_ st < next_ st' <= highest_ st /\ sub_reorder (held_ st') (held_ st) /\ state_ st' = state_ st.
Proof.
  intros HL [A B C D E F] H1 H2. destruct (skip_hole_ok limit st HL A B ltac:(lia) ltac:(lia)) as (st' & Es & Hm & Hlt & Hr & Hb & Hs & Hle & _ & Hst). exists st'. split; [done|]. split; [done|]. specialize (Hle _ C H2). split; [|done].
  pose proof Hm as (evs & _ & _ & Eh & Ese & _). split; try done; rewrite ?Eh, ?Ese; try done; [by eapply sub_below | lia].
Qed.

(** ** Requests *)

(** A request asks for a part of the first hole: from the next expected sequence on, before any held packet, not beyond what is known. *)
Definition request_ok st (bs : list Z) : Prop := exists n, bs = header (session_ st) (next_ st) n /\ 0 <= n <= c_max_request_count cfg /\ (next_ st < highest_ st -> 0 < c_max_request_count cfg -> 0 < n) /\ next_ st + n <= Z.max (next_ st) (highest_ st) /\
  forall i e, rb_entries (held_ st) !! i = Some e -> e_used e = true -> next_ st + n <= e_seq e.
Lemma request_ok_told now st : rinv st -> 0 <= c_max_request_count cfg < 65536 -> next_ st < highest_ st -> exists bs, h_ (request cfg now st) = h_ st ++ [SendRequest bs] /\ request_ok st bs.
Proof.
  intros [A B C D E F] Hc Hn. unfold request. destruct (lowest_spec (held_ st) A) as [L1 L2]. set (lo := rb_lowest (held_ st)) in *. set (he := if lo <? highest_ st then lo else highest_ st).
  assert (Hhe : next_ st < he <= highest_ st /\ he <= lo). { unfold he. destruct (Z.ltb_spec lo (highest_ st)); [|lia]. destruct L2 as [Eu|(i & e & Hi & Hu & Eu)]; [unfold u64_max in Eu; lia|]. specialize (B i e Hi Hu). lia. }
  unfold u64. rewrite (Z.mod_small (he - next_ st)) by lia. set (n := if he - next_ st <? _ then _ else _). assert (Hn' : 0 <= n <= c_max_request_count cfg /\ n <= he - next_ st /\ (0 < c_max_request_count cfg -> 0 < n)).
  { unfold n, u16. destruct (Z.ltb_spec (he - next_ st) (c_max_request_count cfg)); [rewrite Z.mod_small by lia|]; lia. }
  eexists. split; [reflexivity|]. exists n. split; [unfold write_request; change (Z.to_nat kRequestLength) with 20%nat; change (len (replicate 20 0) <? kRequestLength) with false; cbn [snd]; rewrite header_put by (apply F || (rewrite length_replicate; lia)); rewrite drop_replicate; apply app_nil_r|].
  split; [lia|]. split; [lia|]. split; [lia|]. intros i e Hi Hu. specialize (L1 i e Hi Hu). lia.
Qed.
Lemma request_moved now st : moved st (request cfg now st) /\ (rinv st -> rinv (request cfg now st)).
Proof.
  split; [|by apply rinv_same]. eexists [SendRequest _]. split; [reflexivity|]. split; [|done]. split; [done | by repeat constructor].
Qed.

(** ** Packets *)

Definition good (p : PacketView) (ms : list (list Z)) : Prop := packet_ok p ms /\ carried (pv_sequence p) ms /\ pv_sequence p + pv_count p < 2 ^ 64.
Lemma good_next p ms : good p ms -> next_sequence p = pv_sequence p + pv_count p.
Proof. intros ((_ & Hq & _ & _ & Hc & _) & _ & Hb). unfold next_sequence, u64. apply Z.mod_small. lia. Qed.
Lemma deliver_drain_ok p ms meta st : good p ms -> rinv st -> pv_sequence p <= next_ st -> next_sequence p <= highest_ st -> next_ st <= highest_ st -> exists st', drain (deliver p meta st) = Some st' /\ moved st st' /\ rinv st' /\ next_sequence p <= next_ st' <= highest_ st.
Proof.
  intros Hg [A B C D E F] Hs He Hnh. rewrite (good_next p ms Hg) in *. destruct Hg as ((Hso & Hq & Hms & Hpb & Hpc & _) & Hc & Hb). unfold deliver, new_iterator. rewrite Hpc, Nat2Z.id, Hpb, <- (app_nil_r (blocks ms)).
  destruct (deliver_ok carries lossy ms [] (pv_sequence p) (S (length ms)) meta st Hms Hc ltac:(lia) ltac:(lia) ltac:(lia)) as (evs & s & -> & T). set (n := Z.max _ _) in *. set (st1 := st <| h_ := _ |> <| next_ := _ |> <| stats_ := _ |>).
  assert (Hn : 0 <= n <= highest_ st) by lia. destruct (drain_ok carries lossy st1 A ltac:(cbn; lia)) as (st2 & -> & Hd & Hbe). pose proof Hd as (evs2 & s2 & r & n2 & E2 & T2 & R & S & Bd). specialize (Bd _ C ltac:(cbn; lia)).
  exists st2. split; [done|]. change (next_ st1) with n in *. pose proof (proj1 T2) as Hle%advance_le. split; [|split; [|subst st2; cbn; lia]].
  - exists (evs ++ evs2). subst st2. cbn. rewrite <- app_assoc. split; [done|]. split; [by eapply tells_app | done].
  - subst st2. split; cbn in *; try done; [by eapply sub_below | lia].
Qed.
Lemma hold_ok p ms now meta st : good p ms -> ms <> [] -> rinv st -> next_ st < pv_sequence p -> next_sequence p <= highest_ st ->
  if rb_full (held_ st) || negb (rb_fits p (held_ st)) then hold p now meta st = (false, st) else exists st', hold p now meta st = (true, st') /\ moved st st' /\ rinv st'.
Proof.
  intros Hg Hne [A B C D E F] Hs He. rewrite (good_next p ms Hg) in He. destruct Hg as (Hp & Hc & Hb). pose proof (rb_insert_ok carries p ms now (held_ st) A Hp Hne Hc Hb) as H. unfold hold.
  destruct (rb_full (held_ st) || negb (rb_fits p (held_ st))); [rewrite H, Z.eqb_refl; done|]. destruct H as (i & e & r & -> & Ni & Hr & Hi & Hu & _ & _ & _ & Er). replace (Z.of_nat i =? kNone) with false by lia.
  eexists. split; [reflexivity|]. pose proof (lookup_lt_Some _ _ _ Hi). split; [exists []; cbn; rewrite app_nil_r; split; [done|]; split; [apply tells_nil | done]|]. split; cbn; try done.
  - intros j x Hj Hx. rewrite Er in Hj. destruct (decide (i = j)) as [<-|N]; [rewrite list_lookup_insert_eq in Hj by done; injection Hj as <-; done | rewrite list_lookup_insert_ne in Hj by done; by apply (B j)].
  - intros j x Hj Hx. rewrite Er in Hj. destruct (decide (i = j)) as [<-|N]; [rewrite list_lookup_insert_eq in Hj by done; injection Hj as <-; done | rewrite list_lookup_insert_ne in Hj by done; by apply (C j)].
Qed.
Lemma duplicate_still p now line st : still st (duplicate p now line st).
Proof. unfold duplicate. cbv zeta. case_match. by case_if. Qed.
Lemma ahead_moved p ms now meta line st : good p ms -> ms <> [] -> rinv st -> next_ st < pv_sequence p -> next_sequence p <= highest_ st -> exists st', on_ahead cfg p now meta line st = Some st' /\ moved st st' /\ rinv st'.
Proof.
  intros Hg Hne HI Hs He. unfold on_ahead. set (st1 := count _ st). assert (S1 : still st st1) by done. destruct (rb_covers _ _ _).
  { eexists. split; [reflexivity|]. pose proof (duplicate_still p now line st1) as S2. split; [eapply rx_moved_trans; [by apply (still_moved st st1) | by apply still_moved] | apply (still_rinv st1); [done | by apply (still_rinv st)]]. }
  set (st2 := first_copy p now st1). assert (S2 : still st st2) by done. assert (HI2 : rinv st2) by (by apply (still_rinv st)). pose proof (hold_ok p ms now meta st2 Hg Hne HI2 Hs He) as Hh.
  destruct (rb_full (held_ st2) || negb (rb_fits p (held_ st2))); [|destruct Hh as (st' & -> & Hm & Hr); exists st'; split; [done|]; split; [eapply rx_moved_trans; [by apply still_moved | done] | done]].
  rewrite Hh. clear Hh. set (st3 := count _ st2). assert (S3 : still st st3) by done. assert (HI3 : rinv st3) by (by apply (still_rinv st)). destruct (c_can_request cfg) eqn:Ecan.
  - eexists. split; [reflexivity|]. set (st4 := if overflow_end_ st3 <? _ then _ else _). assert (S4 : still st st4) by (unfold st4; by case_if). assert (HI4 : rinv st4) by (by apply (still_rinv st)). destruct (negb (recovering (state_ st4))); [|split; [by apply still_moved | done]].
    set (st5 := count _ _). assert (S5 : still st st5) by done. destruct (request_moved now st5) as [Hm Hr]. split; [eapply rx_moved_trans; [by apply still_moved | done] | apply Hr; by apply (still_rinv st)].
  - destruct (loop_rule (give_up_step p) (fun s => moved st s /\ rinv s /\ next_ s < pv_sequence p /\ next_ s <= highest_ st) (fun r => exists s, r = Some s /\ moved st s /\ rinv s /\ next_ s <= highest_ st /\ (next_ s < pv_sequence p -> rb_full (held_ s) || negb (rb_fits p (held_ s)) = false)) (fun s => Z.max 0 (pv_sequence p - next_ s))) with (d := 64%nat) (s := st3) as (r & -> & s & -> & Hm & Hr & Hnh & Hf).
    + intros s (Hm & Hr & Hn & Hnh). unfold give_up_step. set (s1 := count _ s). assert (Hr1 : rinv s1) by (by apply (still_rinv s)). pose proof Hm as (_ & _ & _ & Eh & _). rewrite (good_next p ms Hg) in He. destruct Hg as ((_ & _ & _ & _ & Hpc & _) & _ & _).
      destruct (skip_hole_rinv (pv_sequence p) s1 ltac:(by left) Hr1 Hn ltac:(cbn; lia)) as (s2 & -> & Hm2 & Hr2 & Hlt & _). change (next_ s1) with (next_ s) in Hlt. change (highest_ s1) with (highest_ s) in Hlt. assert (Hm' : moved st s2) by (eapply rx_moved_trans; [exact Hm|]; eapply rx_moved_trans; [by apply (still_moved s s1) | done]).
      destruct (Z.ltb_spec (next_ s2) (pv_sequence p)) as [Hl|Hl]; cbn [andb]; [|exists s2; split; [done|]; split; [done|]; split; [done|]; lia]. destruct (rb_full (held_ s2) || negb (rb_fits p (held_ s2))) eqn:Ef; [|exists s2; split; [done|]; split; [done|]; split; [done|]; split; [lia | done]].
      split; [|lia]. split; [done|]. split; [done|]. lia.
    + split; [by apply still_moved|]. split; [done|]. rewrite (good_next p ms Hg) in He. destruct Hg as (Hp & _). change (next_ st3) with (next_ st). destruct Hp as (_ & _ & _ & _ & Hpc & _). lia.
    + destruct Hg as ((_ & Hq & _) & _). pose proof (ri_next _ HI3). change (2 ^ Z.of_nat 64) with (2 ^ 64). lia.
    + pose proof Hm as (_ & _ & _ & Eh & _). destruct (Z.ltb_spec (next_ s) (pv_sequence p)) as [Hl|Hl].
      * pose proof (hold_ok p ms now meta s Hg Hne Hr Hl ltac:(lia)) as Hh. rewrite (Hf Hl) in Hh. destruct Hh as (s' & -> & Hm' & Hr'). exists s'. split; [done|]. split; [by eapply rx_moved_trans | done].
      * destruct (Z.ltb_spec (next_ s) (next_sequence p)); [|by exists s]. destruct (deliver_drain_ok p ms meta s Hg Hr Hl ltac:(lia) ltac:(lia)) as (s' & -> & Hm' & Hr' & _). exists s'. split; [done|]. split; [by eapply rx_moved_trans | done].
Qed.

(** ** The gap machine *)

(** After [update] the handler may also have been told that the session ended: then nothing is missing. *)
Definition updated st st' : Prop := exists evs fin, h_ st' = h_ st ++ evs ++ fin /\ tells (next_ st) evs (next_ st') /\ highest_ st' = highest_ st /\ session_ st' = session_ st /\ have_session_ st' = have_session_ st /\ eos_ st' = eos_ st /\
  (fin = [] \/ fin = [OnEndOfSession] /\ highest_ st' <= next_ st' /\ eos_ st' = true /\ eos_notified_ st = false /\ eos_notified_ st' = true).
(** A hole known for the gap timeout is being recovered, and recovery ends with the last hole. *)
Definition watched now st : Prop := (next_ st < highest_ st -> state_ st = Recovering \/ aged cfg now st = false) /\ (highest_ st <= next_ st -> state_ st <> Recovering).
Lemma moved_updated st st' : moved st st' -> updated st st'.
Proof. intros (evs & H1 & H2 & H3 & H4 & H5 & H6 & H7). exists evs, []. rewrite app_nil_r. repeat split; try done; try apply H2. by left. Qed.
Lemma recovering_true s : recovering s = true <-> s = Recovering.
Proof. by destruct s. Qed.
Lemma update_step_ok now st : rinv st -> match update_step cfg now st with
  | inl st' => moved st st' /\ rinv st' /\ next_ st < next_ st' <= highest_ st /\ next_ st < highest_ st
  | inr r => exists b st', r = Some (b, st') /\ moved st st' /\ rinv st' /\ if b then highest_ st' <= next_ st' else next_ st' < highest_ st' /\ watched now st' end.
Proof.
  intros HI. unfold update_step. destruct (Z.ltb_spec (next_ st) (highest_ st)) as [Hlt|Hge]; cbn [negb]; [|exists true, st; auto using rx_moved_refl]. set (st1 := if gap_since_ st =? kNoGap then _ else _).
  assert (S1 : still st st1 /\ state_ st1 = state_ st) by (unfold st1; by case_if). destruct S1 as [S1 Est1]. pose proof (still_rinv _ _ S1 HI) as HI1. pose proof (still_moved _ _ S1) as M1. assert (Hn1 : next_ st1 = next_ st /\ highest_ st1 = highest_ st) by (by destruct S1 as (_ & _ & ? & ? & _)). destruct Hn1 as [En Eh]. clearbody st1.
  assert (Hskip : forall s, lossy -> still st1 s -> exists s', skip_hole (highest_ st1) s = Some s' /\ moved st s' /\ rinv s' /\ next_ st < next_ s' <= highest_ st).
  { intros s HL Ss. pose proof (still_rinv _ _ Ss HI1) as HIs. assert (En' : next_ s = next_ st1 /\ highest_ s = highest_ st1) by (by destruct Ss as (_ & _ & ? & ? & _)). destruct (skip_hole_rinv (highest_ st1) s HL HIs ltac:(lia) ltac:(lia)) as (s' & E & Hm & Hr & Hl & _). exists s'. split; [done|]. split; [eapply rx_moved_trans; [exact M1|]; eapply rx_moved_trans; [by apply still_moved | done]|]. split; [done | lia]. }
  assert (Hreq : forall s, still st1 s -> state_ s = Recovering -> exists b st', Some (false, request cfg now s) = Some (b, st') /\ moved st st' /\ rinv st' /\ if b then highest_ st' <= next_ st' else next_ st' < highest_ st' /\ watched now st').
  { intros s Ss Est. exists false, (request cfg now s). split; [done|]. destruct (request_moved now s) as [Hm Hr]. split; [eapply rx_moved_trans; [exact M1|]; eapply rx_moved_trans; [by apply still_moved | done]|]. split; [apply Hr, (still_rinv _ _ Ss HI1)|].
    change (next_ (request cfg now s)) with (next_ s). change (highest_ (request cfg now s)) with (highest_ s). destruct Ss as (_ & _ & E1 & E2 & _). split; [lia|]. split; [by left|]. cbn. rewrite E1, E2. lia. }
  assert (Hstay : forall s, still st1 s -> state_ s = Recovering \/ aged cfg now s = false -> exists b st', Some (false, s) = Some (b, st') /\ moved st st' /\ rinv st' /\ if b then highest_ st' <= next_ st' else next_ st' < highest_ st' /\ watched now st').
  { intros s Ss H. exists false, s. split; [done|]. split; [eapply rx_moved_trans; [exact M1 | by apply still_moved]|]. split; [by apply (still_rinv _ _ Ss)|]. destruct Ss as (_ & _ & E1 & E2 & _). split; [lia|]. split; [done | lia]. }
  cbv zeta. destruct (recovering (state_ st1)) eqn:Er; cbn [negb].
  - apply recovering_true in Er. destruct (requested_next_ st1 =? next_ st1); cbn [negb].
    + destruct (_ <? c_request_timeout_ns cfg); [by apply Hstay; [|left]|]. destruct (_ || _) eqn:Eatt; [by apply Hreq|]. apply orb_false_iff in Eatt as [Eatt%Z.eqb_neq _]. destruct (Hskip st1 ltac:(by right) ltac:(done)) as (s' & -> & A1 & A2 & A3). split; [exact A1|]. split; [exact A2 | lia].
    + destruct (_ || _); [by apply Hreq | by apply Hstay; [|left]].
  - destruct (aged cfg now st1) eqn:Ea; cbn [negb]; [|by apply Hstay; [|right]]. destruct (c_can_request cfg) eqn:Ecan; cbn [negb]; [by apply Hreq|]. match goal with |- context [skip_hole _ ?s] => destruct (Hskip s ltac:(by left) ltac:(done)) as (s' & -> & A1 & A2 & A3) end. split; [exact A1|]. split; [exact A2 | lia].
Qed.
Lemma update_ok now st : rinv st -> exists st', update cfg now st = Some st' /\ updated st st' /\ rinv st' /\ watched now st'.
Proof.
  intros HI. unfold update. destruct (loop_rule (update_step cfg now) (fun s => moved st s /\ rinv s) (fun r => exists b st', r = Some (b, st') /\ moved st st' /\ rinv st' /\ if b : bool then highest_ st' <= next_ st' else next_ st' < highest_ st' /\ watched now st')
    (fun s => Z.max 0 (highest_ s - next_ s))) with (d := 64%nat) (s := st) as (r & -> & b & s & -> & Hm & Hr & Hp).
  - intros s [Hm Hr]. pose proof (update_step_ok now s Hr) as H. destruct (update_step cfg now s) as [s'|r].
    + destruct H as (H1 & H2 & H3 & H4). pose proof H1 as (_ & _ & _ & Eh & _). split; [split; [by eapply rx_moved_trans | done] | lia].
    + destruct H as (b & s' & -> & H1 & H2 & H3). exists b, s'. split; [done|]. split; [by eapply rx_moved_trans | done].
  - by split; [apply rx_moved_refl|].
  - pose proof (ri_next _ HI). pose proof (ri_high _ HI). change (2 ^ Z.of_nat 64) with (2 ^ 64). lia.
  - destruct b; [|exists s; split; [done|]; split; [by apply moved_updated|]; split; [done | apply Hp]]. set (s1 := s <| gap_since_ := kNoGap |>). set (s2 := match state_ s1 with Down => _ | _ => _ end).
    assert (S2 : still s s2 /\ state_ s2 <> Recovering) by (unfold s2; by destruct (state_ s1) eqn:Es; rewrite ?Es). destruct S2 as [S2 Hst]. pose proof (still_rinv _ _ S2 Hr) as Hr2. eexists. split; [reflexivity|].
    assert (M2 : moved st s2) by (eapply rx_moved_trans; [exact Hm | by apply still_moved]). assert (Hle : highest_ s2 <= next_ s2) by (destruct S2 as (_ & _ & -> & -> & _); done). destruct (eos_ s2 && negb (eos_notified_ s2)) eqn:Ee.
    + apply andb_true_iff in Ee as [Ee En%negb_true_iff]. split; [|split; [by apply (rinv_same s2) | split; cbn; [lia | done]]]. destruct M2 as (evs & H1 & H2 & H3 & H4 & H5 & H6 & H7). exists evs, [OnEndOfSession]. cbn. rewrite H1, <- app_assoc. repeat split; try done; try apply H2. right. repeat split; try done; congruence.
    + split; [by apply moved_updated|]. split; [done|]. split; [lia | done].
Qed.
End recover.
