(* ===== verification/MoldProps.v ===== *)
(** * MoldProps: what a handler of the receiver can rely on *)

From S2P Require Import Prelude Types FixedPoint NasdaqFields MoldUdp MoldPacket MoldReceive MoldRecover.

#[local] Arguments u64 : simpl never.
#[local] Arguments i64 : simpl never.
#[local] Arguments kNone : simpl never.
#[local] Arguments loop : simpl never.

Section props.
Context {Meta : Type} `{!Inhabited Meta}.
Context (cfg : ReceiverConfig) (carries : Z -> list Z -> Prop).
Context (Hsession : session_ok (c_session cfg)) (Hnext : 0 <= c_next_sequence cfg < 2 ^ 64) (Hreorder : 0 <= c_reorder_packets cfg <= kNone) (Hbytes : 0 <= c_max_packet_bytes cfg < 2 ^ 32).
Abbreviation Receiver := (Receiver Meta).
Abbreviation rinv := (rinv (Meta := Meta) carries).
Implicit Type st : Receiver.

(** A datagram of the stream: its sequence numbers do not wrap, and its messages are the sender's.  Anything else, lost,
    repeated, reordered, malformed or of another session, may arrive. *)
Definition datagram_good (d : list Z) : Prop := bytes_ok d /\ forall p, parse_packet d = Some p -> pv_sequence p + pv_count p < 2 ^ 64 /\ Forall (fun x => carries (fst x) (snd x)) (packet_messages p).
Lemma datagram_good_packet d p : datagram_good d -> parse_packet d = Some p -> exists ms, good carries p ms /\ (pv_kind p = Data <-> ms <> []).
Proof.
  intros [Hd Hg] Ep. destruct (Hg p Ep) as [Hb Hc]. destruct (parse_inv d p Hd Ep) as (_ & ms & Hp). exists ms. rewrite (packet_messages_ok p ms Hp) in Hc. split; [done|]. apply Hp.
Qed.

(** ** The reorder buffer, emptied *)

Lemma clear_ok r : reorder_ok carries r -> reorder_ok carries (rb_clear r) /\ forall i e, rb_entries (rb_clear r) !! i = Some e -> e_used e = false.
Proof.
  intros Hr. assert (H : forall i e, rb_entries (rb_clear r) !! i = Some e -> e_used e = false) by (intros i e; cbn; rewrite list_lookup_fmap; destruct (rb_entries r !! i); cbn; [by intros [= <-] | done]). split; [|done]. split; try apply Hr.
  - cbn. rewrite length_fmap. apply Hr.
  - symmetry. by apply used_0.
  - intros i e Hi Hu. specialize (H i e Hi). congruence.
Qed.
Lemma new_reorder_ok : reorder_ok carries (new_reorder (c_reorder_packets cfg) (c_max_packet_bytes cfg)) /\ forall i e, rb_entries (new_reorder (c_reorder_packets cfg) (c_max_packet_bytes cfg)) !! i = Some e -> e_used e = false.
Proof.
  unfold new_reorder. set (stride := if _ <? _ then _ else _). assert (Hs : 0 <= stride < 2 ^ 32) by (unfold stride, kHeaderLength; case_if; lia).
  assert (H : forall i e, replicate (Z.to_nat (c_reorder_packets cfg)) no_entry !! i = Some e -> e_used e = false) by (intros i e [-> _]%lookup_replicate_1; done). split; [|done]. split; cbn [rb_capacity rb_entries rb_stride rb_data rb_size].
  - done.
  - by rewrite length_replicate.
  - done.
  - unfold len. rewrite length_replicate. nia.
  - symmetry. by apply used_0.
  - intros i e Hi Hu. specialize (H i e Hi). congruence.
Qed.
(** ** Whole operations *)

(** Until it has a position the receiver knows and holds nothing. *)
Definition placed st : Prop := next_ st = 0 -> highest_ st = 0.
Definition restarts st (d : list Z) : bool := match parse_packet d with Some p => have_session_ st && negb (bool_decide (pv_session p = session_ st)) && c_follow_session cfg && eos_notified_ st | None => false end.
Definition first_of_session : Z := if c_next_sequence cfg =? 0 then 0 else 1.
Lemma accept_session_ok d p st : rinv st -> placed st -> parse_packet d = Some p -> datagram_good d -> let '(ok, st') := accept_session cfg p st in
  rinv st' /\ placed st' /\ h_ st' = h_ st /\ (restarts st d = false -> next_ st' = next_ st /\ highest_ st' = highest_ st) /\ (restarts st d = true -> ok = true /\ next_ st' = first_of_session).
Proof.
  intros HI Hz Ep Hd. destruct (datagram_good_packet d p Hd Ep) as (ms & ((Hs & _) & _) & _). unfold accept_session, restarts. rewrite Ep. destruct (have_session_ st); cbn [negb andb].
  - case_bool_decide; cbn [negb andb]; [split; [done|]; split; [done|]; split; [done|]; split; done|]. destruct (c_follow_session cfg && eos_notified_ st) eqn:Ef; [|split; [by apply (rinv_same carries st) | split; [done|]; split; [done|]; split; done]]. split; [|split; [done|]; split; [done|]; split; done].
    destruct HI as [A B C D E F]. destruct (clear_ok (held_ st) A) as [A' U]. split; [exact A' | | | cbn | by cbn | exact Hs].
    + intros i e Hi Hu. specialize (U i e Hi). congruence.
    + intros i e Hi Hu. specialize (U i e Hi). congruence.
    + case_if; lia.
  - destruct (negb (is_blank (session_ st)) && _) eqn:E1; (split; [|split; [done|]; split; [done|]; split; done]); destruct HI as [A B C D E F]; by split.
Qed.
Definition event_fine (e : Event Meta) : Prop := match e with OnMessage seq m _ => carries seq m | OnGapUnrecoverable _ _ => lossy cfg | _ => True end.
(** The step told the handler [evs], in sequence from position [n]. *)
Definition steps (n : Z) st st' : Prop := exists evs, h_ st' = h_ st ++ evs /\ advance n evs = Some (next_ st') /\ Forall event_fine evs /\ (OnEndOfSession ∈ evs -> highest_ st' <= next_ st').
Lemma updated_steps st0 st st' : h_ st = h_ st0 -> updated cfg carries st st' -> steps (next_ st) st0 st'.
Proof.
  intros Eh (evs & fin & H1 & [H2 H3] & H4 & _ & _ & _ & H5). exists (evs ++ fin). rewrite <- Eh. split; [done|]. split; [rewrite advance_app, H2; by destruct H5 as [->|(-> & _)]|]. split.
  - apply Forall_app. split; [|destruct H5 as [->|(-> & _)]; repeat constructor]. eapply Forall_impl; [exact H3|]. by intros [].
  - intros [Hin|Hin]%elem_of_app; [|destruct H5 as [->|(_ & ? & _)]; [by apply elem_of_nil in Hin | done]]. rewrite Forall_forall in H3. by destruct (H3 _ Hin).
Qed.
Lemma moved_updated_trans st st1 st2 : moved cfg carries st st1 -> updated cfg carries st1 st2 -> updated cfg carries st st2.
Proof.
  intros (e1 & H1 & T1 & A1 & B1 & C1 & D1 & F1) (e2 & fin & H2 & T2 & A2 & B2 & C2 & D2 & F2). exists (e1 ++ e2), fin. rewrite H2, H1, <- !app_assoc. split; [done|]. split; [by eapply tells_app|]. rewrite A2, B2, C2, D2. repeat split; try done.
  destruct F2 as [?|F2]; [by left|]. right. rewrite <- F1, <- D2, <- A2. done.
Qed.
Lemma on_packet_ok line d now meta st : rinv st -> placed st -> datagram_good d -> exists st', on_packet cfg line d now meta st = Some st' /\ rinv st' /\ placed st' /\
  ((restarts st d = false /\ next_ st = 0 /\ next_ st' = 0 /\ h_ st' = h_ st) \/ exists n, 0 < n /\ steps n st st' /\ (restarts st d = false -> next_ st <> 0 -> n = next_ st) /\ (restarts st d = true -> first_of_session <> 0 -> n = first_of_session)) /\
  (forall p, parse_packet d = Some p -> pv_kind p = Data -> have_session_ st = true -> pv_session p = session_ st -> next_ st <> 0 -> pv_sequence p <= next_ st -> next_sequence p <= next_ st').
Proof.
  intros HI Hz Hd. unfold on_packet. set (st0 := st <| now_ns_ := now |>). assert (HI0 : rinv st0) by (by apply (rinv_same carries st)).
  assert (Hidle : forall s, h_ s = h_ st -> next_ s = next_ st -> restarts st d = false -> (restarts st d = false /\ next_ st = 0 /\ next_ s = 0 /\ h_ s = h_ st) \/
    exists n, 0 < n /\ steps n st s /\ (restarts st d = false -> next_ st <> 0 -> n = next_ st) /\ (restarts st d = true -> first_of_session <> 0 -> n = first_of_session)).
  { intros s Eh En Er. destruct (Z.eq_dec (next_ st) 0) as [E0|N0]; [left; rewrite En; done|]. right. exists (next_ st). pose proof (ri_next _ _ HI). split; [lia|]. split; [|split; [done | congruence]]. exists []. rewrite app_nil_r, En. split; [done|]. split; [done|]. split; [done|]. by intros ?%elem_of_nil. }
  destruct (parse_packet d) as [p|] eqn:Ep; [|eexists; split; [reflexivity|]; split; [by apply (rinv_same carries st)|]; split; [done|]; split; [apply Hidle; try done; unfold restarts; by rewrite Ep | done]].
  pose proof (accept_session_ok d p st0 HI0 Hz Ep Hd) as Ha. change (restarts st0 d) with (restarts st d) in Ha. assert (Hacc : have_session_ st = true -> pv_session p = session_ st -> accept_session cfg p st0 = (true, st0)) by (intros Hhs Hps; unfold accept_session; change (have_session_ st0) with (have_session_ st); change (session_ st0) with (session_ st); rewrite Hhs, Hps, bool_decide_true by done; done). destruct (accept_session cfg p st0) as [ok st1]. destruct Ha as (HI1 & Hz1 & Eh1 & Hr1 & Hr2). destruct ok; cbn [negb].
  2:{ eexists. split; [reflexivity|]. split; [done|]. split; [done|]. assert (Er : restarts st d = false) by (destruct (restarts st d); [by destruct (Hr2 eq_refl) | done]). destruct (Hr1 Er) as [En _]. split; [by apply Hidle|]. intros p' Ep' _ Hhs Hps. apply (inj Some) in Ep' as <-. discriminate (Hacc Hhs Hps). }
  set (st2 := count _ st1). set (st3 := if next_ st2 =? 0 then _ else st2). destruct (datagram_good_packet d p Hd Ep) as (ms & Hg & Hk). pose proof (good_next _ p ms Hg) as Hgn.
  pose proof Hg as ((_ & Hq & _ & _ & Hpc & _) & _ & Hb).
  assert (E3 : next_ st3 = (if next_ st1 =? 0 then if pv_sequence p =? 0 then 1 else pv_sequence p else next_ st1) /\ held_ st3 = held_ st1 /\ highest_ st3 = highest_ st1 /\ session_ st3 = session_ st1 /\ h_ st3 = h_ st1) by (unfold st3, st2; cbn; by destruct (next_ st1 =? 0)).
  destruct E3 as (En3 & Eh3 & Ehi3 & Es3 & Ehl3). clearbody st3. assert (HI3 : rinv st3).
  { destruct HI1 as [A B C D E F]. pose proof (below_max _ _ A) as Hbm. split; rewrite ?Eh3, ?Ehi3, ?Es3; try done.
    - rewrite En3. destruct (Z.eqb_spec (next_ st1) 0) as [E0|]; [|done]. intros i e Hi Hu. specialize (C i e Hi Hu). rewrite (Hz1 E0) in C. destruct (ro_entry _ _ A i e Hi Hu) as (ms' & _ & _ & Hne & _ & Hc' & H0 & H1 & _). destruct ms'; [done|]. cbn in Hc'. lia.
    - rewrite En3. destruct (next_ st1 =? 0); [case_if|]; lia. }
  assert (Hpos : 0 < next_ st3) by (rewrite En3; pose proof (ri_next _ _ HI1); destruct (Z.eqb_spec (next_ st1) 0); [case_if|]; lia).
  set (st4 := match state_ st3 with Down => _ | _ => st3 end). assert (E4 : next_ st4 = next_ st3 /\ held_ st4 = held_ st3 /\ highest_ st4 = highest_ st3 /\ session_ st4 = session_ st3 /\ h_ st4 = h_ st3) by (unfold st4; by destruct (state_ st3)).
  destruct E4 as (En4 & Eh4 & Ehi4 & Es4 & Ehl4). clearbody st4. set (st5 := if highest_ st4 <? next_sequence p then _ else st4).
  assert (E5 : next_ st5 = next_ st3 /\ held_ st5 = held_ st3 /\ highest_ st5 = Z.max (highest_ st3) (next_sequence p) /\ session_ st5 = session_ st3 /\ h_ st5 = h_ st3).
  { unfold st5. destruct (Z.ltb_spec (highest_ st4) (next_sequence p)); cbn; repeat split; try congruence; lia. }
  destruct E5 as (En5 & Eh5 & Ehi5 & Es5 & Ehl5). clearbody st5. assert (HI5 : rinv st5).
  { destruct HI3 as [A B C D E F]. split; rewrite ?En5, ?Eh5, ?Ehi5, ?Es5; try done; [|lia]. intros i e Hi Hu. specialize (C i e Hi Hu). lia. }
  assert (Hmid : exists st6, match pv_kind p with
    | Heartbeat => Some (count (fun x => x <| s_heartbeats ::= inc |>) st5) | EndOfSession => Some ((count (fun x => x <| s_end_of_session ::= inc |>) st5) <| eos_ := true |>)
    | Data => if next_sequence p <=? next_ st5 then Some (duplicate p now line st5) else if pv_sequence p <=? next_ st5 then drain (deliver p meta (first_copy p now st5)) else on_ahead cfg p now meta line st5 end = Some st6 /\
    rinv st6 /\ (pv_kind p = Data -> pv_sequence p <= next_ st5 -> next_sequence p <= next_ st6) /\ exists st5', h_ st5' = h_ st5 /\ next_ st5' = next_ st5 /\ highest_ st5' = highest_ st5 /\ moved cfg carries st5' st6).
  { destruct (pv_kind p) eqn:Ek.
    - destruct (Z.leb_spec (next_sequence p) (next_ st5)) as [Hle|Hgt]; [eexists; split; [reflexivity|]; pose proof (duplicate_still p now line st5) as Sd; split; [by apply (still_rinv carries st5)|]; split; [destruct Sd as (_ & _ & -> & _); done | exists st5; auto using still_moved]|].
      destruct (Z.leb_spec (pv_sequence p) (next_ st5)) as [Hle|Hgt'].
      + destruct (deliver_drain_ok cfg carries p ms meta (first_copy p now st5) Hg ltac:(by apply (rinv_same carries st5)) Hle ltac:(cbn; lia) ltac:(cbn; lia)) as (st6 & -> & Hm & Hr & Hnn). exists st6. split; [done|]. split; [done|]. split; [intros _ _; lia|]. by exists (first_copy p now st5).
      + destruct (ahead_moved cfg carries p ms now meta line st5 Hg ltac:(by apply Hk) HI5 Hgt' ltac:(lia)) as (st6 & -> & Hm & Hr). exists st6. split; [done|]. split; [done|]. split; [intros _ ?; lia|]. by exists st5.
    - eexists. split; [reflexivity|]. split; [by apply (rinv_same carries st5)|]. split; [done|]. exists st5. split; [done|]. split; [done|]. split; [done|]. by apply still_moved.
    - eexists. split; [reflexivity|]. split; [by apply (rinv_same carries st5)|]. split; [done|]. eexists ((count (fun x => x <| s_end_of_session ::= inc |>) st5) <| eos_ := true |>). split; [done|]. split; [done|]. split; [done|]. apply rx_moved_refl. }
  destruct Hmid as (st6 & -> & HI6 & Hadv & st5' & F1 & F2 & F3 & Hm6). cbn [mbind option_bind]. set (st7 := if negb _ then on_progress st6 else st6). assert (S7 : still st6 st7) by (unfold st7; by case_if).
  destruct (update_ok cfg carries now st7 (still_rinv _ _ _ S7 HI6)) as (st' & -> & Hu & HI' & _). exists st'. split; [done|]. split; [done|].
  assert (Hu' : updated cfg carries st5' st') by (eapply moved_updated_trans; [exact Hm6|]; eapply moved_updated_trans; [by apply still_moved | done]). pose proof (updated_steps st st5' st' ltac:(by rewrite F1, Ehl5, Ehl3, Eh1) Hu') as Hst. rewrite F2, En5 in Hst.
  split; [destruct Hst as (evs & _ & Ha%advance_le & _); intros ?; lia|]. split.
  2:{ intros p' Ep' Ekd Hhs Hps N0 Hsq. apply (inj Some) in Ep' as <-. specialize (Hacc Hhs Hps). injection Hacc as ->. change (next_ st0) with (next_ st) in En3. replace (next_ st =? 0) with false in En3 by lia. specialize (Hadv Ekd ltac:(lia)).
      destruct Hu as (evs & fin & _ & [Hle%advance_le _] & _). destruct S7 as (_ & _ & E7 & _). lia. }
  right. exists (next_ st3). split; [lia|]. split; [done|]. split.
  - intros Er N0. destruct (Hr1 Er) as [En1 _]. rewrite En3, En1. change (next_ st0) with (next_ st). by replace (next_ st =? 0) with false by lia.
  - intros Er N0. destruct (Hr2 Er) as [_ En1]. rewrite En3, En1. by replace (first_of_session =? 0) with false by lia.
Qed.

Lemma on_timer_ok now st : rinv st -> placed st -> exists st', on_timer cfg now st = Some st' /\ rinv st' /\ placed st' /\ steps (next_ st) st st' /\ (next_ st = 0 -> h_ st' = h_ st /\ next_ st' = 0) /\ (next_ st' < highest_ st' -> watched cfg now st').
Proof.
  intros HI Hz. unfold on_timer. set (st0 := st <| now_ns_ := now |>). assert (HI0 : rinv st0) by (by apply (rinv_same carries st)). destruct (Z.ltb_spec (next_ st0) (highest_ st0)) as [Hlt|Hge].
  - destruct (update_ok cfg carries now st0 HI0) as (st' & -> & Hu & HI' & Hw). exists st'. split; [done|]. split; [done|]. pose proof (updated_steps st st0 st' eq_refl Hu) as Hs. pose proof (ri_next _ _ HI). change (next_ st0) with (next_ st) in *. change (highest_ st0) with (highest_ st) in *.
    assert (N0 : next_ st <> 0) by (intros E0; specialize (Hz E0); lia). split; [|split; [done|]; split; [done|]; done]. destruct Hs as (evs & _ & Ha%advance_le & _). intros ?. lia.
  - exists st0. split; [done|]. split; [done|]. split; [done|]. split; [|split; [done | cbn in *; lia]]. exists []. rewrite app_nil_r. split; [done|]. split; [done|]. split; [constructor|]. by intros ?%elem_of_nil.
Qed.
Lemma reset_ok n st : rinv st -> 0 < n < 2 ^ 64 -> rinv (reset n st) /\ placed (reset n st) /\ next_ (reset n st) = n /\ h_ (reset n st) = h_ st.
Proof.
  intros [A B C D E F] Hn. unfold reset. set (st1 := st <| next_ := n |> <| held_ ::= _ |> <| requested_next_ := _ |> <| attempts_ := _ |> <| overflow_end_ := _ |> <| gap_since_ := _ |>). set (st2 := if recovering _ then _ else st1). set (st3 := if negb (next_ st2 =? 0) && (highest_ st2 <? next_ st2) then _ else st2). set (st4 := if _ && _ then _ else st3).
  assert (E2 : next_ st2 = n /\ held_ st2 = rb_clear (held_ st) /\ highest_ st2 = highest_ st /\ session_ st2 = session_ st /\ h_ st2 = h_ st) by (unfold st2; by case_if). destruct E2 as (N2 & H2 & I2 & S2 & L2). clearbody st2.
  assert (E4 : next_ st4 = n /\ held_ st4 = rb_clear (held_ st) /\ 0 <= highest_ st4 < 2 ^ 64 /\ session_ st4 = session_ st /\ h_ st4 = h_ st).
  { unfold st4. assert (E3 : next_ st3 = n /\ held_ st3 = rb_clear (held_ st) /\ 0 <= highest_ st3 < 2 ^ 64 /\ session_ st3 = session_ st /\ h_ st3 = h_ st) by (unfold st3; case_if; cbn; rewrite ?N2, ?H2, ?I2, ?S2, ?L2; (split; [done|]; split; [done|]; split; [lia | done])). by case_if. }
  destruct E4 as (N4 & H4 & I4 & S4 & L4). destruct (clear_ok (held_ st) A) as [A' U]. split; [|split; [unfold placed; rewrite N4; lia | done]].
  split; rewrite ?N4, ?H4, ?S4; try done; [| | lia]; intros i e Hi Hu; specialize (U i e Hi); congruence.
Qed.

(** ** Runs

    The receiver with the position its current stretch started at, 0 while that is to be set by the first packet, and the
    number of calls the handler had got by then. *)
Inductive reach : Z -> nat -> Receiver -> Prop :=
| reach_new : reach (c_next_sequence cfg) 0 (new_receiver cfg)
| reach_packet s k st line d now meta st' : reach s k st -> datagram_good d -> on_packet cfg line d now meta st = Some st' ->
    reach (if restarts st d then first_of_session else s) (if restarts st d then length (h_ st) else k) st'
| reach_timer s k st now st' : reach s k st -> on_timer cfg now st = Some st' -> reach s k st'
| reach_reset s k st n : reach s k st -> 0 < n < 2 ^ 64 -> reach n (length (h_ st)) (reset n st).

(** The calls since the stretch started are in sequence. *)
Definition in_sequence (s : Z) (k : nat) st : Prop := (k <= length (h_ st))%nat /\ Forall event_fine (h_ st) /\
  ((s = 0 /\ next_ st = 0 /\ drop k (h_ st) = []) \/ next_ st <> 0 /\ exists n, (s <> 0 -> n = s) /\ 0 < n /\ advance n (drop k (h_ st)) = Some (next_ st)).
Lemma in_sequence_steps s k st st' : in_sequence s k st -> 0 <= next_ st -> next_ st <> 0 -> steps (next_ st) st st' -> in_sequence s k st'.
Proof.
  intros (Hk & Hf & H) Hp N0 (evs & E & Ha & Hfe & _). unfold in_sequence. rewrite !E. split; [rewrite length_app; lia|]. split; [by apply Forall_app|]. right. destruct H as [(_ & ? & _)|(_ & n & Hs & Hn & Hadv)]; [done|].
  pose proof Ha as Hle%advance_le. split; [lia|]. exists n. split; [done|]. split; [done|]. rewrite drop_app_le, advance_app, Hadv by done. exact Ha.
Qed.
Lemma in_sequence_start s k n st st' : in_sequence s k st -> 0 < n -> steps n st st' -> forall s' k', (s' <> 0 -> n = s') -> k' = length (h_ st) -> in_sequence s' k' st'.
Proof.
  intros (_ & Hf & _) Hn (evs & E & Ha & Hfe & _) s' k' Hs ->. unfold in_sequence. rewrite !E. split; [rewrite length_app; lia|]. split; [by apply Forall_app|]. right. pose proof Ha as Hle%advance_le. split; [lia|]. exists n. split; [done|]. split; [done|]. by rewrite drop_app_length.
Qed.
Lemma rx_reach_ok s k st : reach s k st -> rinv st /\ placed st /\ in_sequence s k st.
Proof.
  induction 1 as [|s k st line d now meta st' _ (HI & Hz & Hq) Hd E|s k st now st' _ (HI & Hz & Hq) E|s k st n _ (HI & Hz & Hq) Hn].
  - destruct new_reorder_ok as [A U]. split; [|split; [done|]].
    + split; [exact A | | | exact Hnext | by cbn | exact Hsession]; intros i e Hi Hu; specialize (U i e Hi); congruence.
    + split; [cbn; lia|]. split; [constructor|]. cbn. destruct (Z.eq_dec (c_next_sequence cfg) 0); [by left|]. right. split; [done|]. exists (c_next_sequence cfg). split; [done|]. split; [lia | done].
  - destruct (on_packet_ok line d now meta st HI Hz Hd) as (st1 & E1 & HI1 & Hz1 & H & _). rewrite E in E1. apply (inj Some) in E1 as <-. split; [done|]. split; [done|]. destruct H as [(Er & E0 & E0' & Eh)|(n & Hn & Hst & Hs1 & Hs2)].
    + rewrite Er. destruct Hq as (Hk & Hf & [(Es & _ & Edr)|(N0 & _)]); [|done]. unfold in_sequence. rewrite !Eh. split; [done|]. split; [done|]. by left.
    + destruct (restarts st d) eqn:Er; [eapply in_sequence_start; [exact Hq | exact Hn | exact Hst | auto | done]|]. destruct (Z.eq_dec (next_ st) 0) as [E0|N0].
      * pose proof Hq as (Hk & Hf & [(Es & _ & Edr)|(N0 & _)]); [|done]. eapply (in_sequence_start s k); [exact Hq | exact Hn | exact Hst | done|]. apply (f_equal length) in Edr. rewrite length_drop in Edr. cbn in Edr. lia.
      * rewrite (Hs1 eq_refl N0) in Hst. apply (in_sequence_steps s k st); try done. pose proof (ri_next _ _ HI). lia.
  - destruct (on_timer_ok now st HI Hz) as (st1 & E1 & HI1 & Hz1 & Hst & H0 & _). rewrite E in E1. apply (inj Some) in E1 as <-. split; [done|]. split; [done|]. destruct (Z.eq_dec (next_ st) 0) as [E0|N0].
    + destruct (H0 E0) as [Eh E0']. destruct Hq as (Hk & Hf & [(Es & _ & Edr)|(N0 & _)]); [|done]. unfold in_sequence. rewrite !Eh. split; [done|]. split; [done|]. by left.
    + apply (in_sequence_steps s k st); try done. pose proof (ri_next _ _ HI). lia.
  - destruct (reset_ok n st HI Hn) as (HI1 & Hz1 & En & Eh). split; [done|]. split; [done|]. destruct Hq as (Hk & Hf & _). unfold in_sequence. rewrite !Eh. split; [done|]. split; [done|]. right. rewrite En, drop_all. split; [lia|]. exists n. split; [done|]. split; [lia | done].
Qed.

(** ** What holds in every run *)

(** C19. Whatever the lines lose, repeat, reorder or damage, the handler gets the messages of the stream in sequence: since the
    receiver took its position, every message and every range it is told is lost starts where the one before ended, the
    messages are those the sender put under their numbers, and the next one expected is where the calls end. *)
Theorem receiver_in_order s k st : reach s k st -> exists n, (s <> 0 -> n = s) /\ advance n (drop k (h_ st)) = Some (next_ st) /\ forall seq m meta, OnMessage seq m meta ∈ h_ st -> carries seq m.
Proof.
  intros (_ & _ & _ & Hf & H)%rx_reach_ok. assert (Hm : forall seq m meta, OnMessage seq m meta ∈ h_ st -> carries seq m) by (intros seq m meta Hin; rewrite Forall_forall in Hf; exact (Hf _ Hin)).
  destruct H as [(-> & -> & ->)|(_ & n & Hn & _ & Ha)]; [by exists 0 | by exists n].
Qed.
(** C24. No hole is left unattended: a timer call always ends, and after it a hole known for the gap timeout is being recovered,
    or has been given up where nothing can be requested. *)
Theorem holes_attended s k st now : reach s k st -> exists st', on_timer cfg now st = Some st' /\ (next_ st' < highest_ st' -> state_ st' = Recovering \/ aged cfg now st' = false).
Proof. intros (HI & Hz & _)%rx_reach_ok. destruct (on_timer_ok now st HI Hz) as (st' & E & _ & _ & _ & _ & Hw). exists st'. split; [done|]. intros Hlt. by apply Hw. Qed.
(** Every packet is handled to the end, and the handler is told the session ended only when every message announced has
    been delivered or reported lost. *)
Theorem end_of_session_complete s k st line d now meta : reach s k st -> datagram_good d -> exists st' evs, on_packet cfg line d now meta st = Some st' /\ h_ st' = h_ st ++ evs /\ (OnEndOfSession ∈ evs -> highest_ st' <= next_ st').
Proof.
  intros (HI & Hz & _)%rx_reach_ok Hd. destruct (on_packet_ok line d now meta st HI Hz Hd) as (st' & E & _ & _ & H & _). exists st'. destruct H as [(_ & _ & _ & Eh)|(n & _ & (evs & Eh & _ & _ & He) & _)].
  - exists []. rewrite app_nil_r. split; [done|]. split; [done|]. by intros ?%elem_of_nil.
  - by exists evs.
Qed.
End props.

(** ** Two packets with one missing between them *)

Module ConcreteReceiver.
Definition rcfg : ReceiverConfig := mkConfig kBlankSession 1 1024 250000000 0 2000000 4 200 true false.
Definition text (i : Z) : list Z := [65 + i].
Definition stream (seq : Z) (m : list Z) : Prop := m = text seq.
Definition dgram (seq : Z) : list Z := header kBlankSession seq 1 ++ block (text seq).
Abbreviation R := (Receiver unit).
Definition unwrap (o : option R) : R := default (new_receiver rcfg) o.
Definition r1 : R := unwrap (on_packet rcfg 0 (dgram 1) 100 tt (new_receiver rcfg)).
Definition r3 : R := unwrap (on_packet rcfg 1 (dgram 3) 200 tt r1).
Definition r4 : R := unwrap (on_timer rcfg 3000000 r3).
Definition r2 : R := unwrap (on_packet rcfg 0 (dgram 2) 3000100 tt r4).
Lemma packet_of (i : Z) : 0 <= i < 100 -> packet_ok (mkPacket kBlankSession i 1 Data (block (text i))) [text i] /\ datagram_of (mkPacket kBlankSession i 1 Data (block (text i))) = dgram i.
Proof.
  intros Hi. split; [|done]. split; [apply ConcretePackets.blank_ok|]. split; [cbn; lia|]. split; [|split; [exact (eq_sym (app_nil_r (block (text i))))|]; split; [done|]; split; [cbn; unfold kMaxMessagesPerPacket; lia | done]].
  apply Forall_singleton. split; [apply Forall_singleton; unfold is_byte; lia | vm_compute; discriminate].
Qed.
Lemma dgram_good i : 0 < i < 100 -> datagram_good stream (dgram i).
Proof.
  intros Hi. destruct (packet_of i ltac:(lia)) as [Hp Ed]. split.
  - unfold dgram. apply Forall_app. split; [unfold header; rewrite !Forall_app; split; [apply ConcretePackets.blank_ok | auto using store_be64_ok, store_be16_ok]|]. destruct Hp as (_ & _ & Hm & _). apply block_ok, (Forall_inv Hm).
  - intros p. rewrite <- Ed, (parse_datagram _ _ Hp). intros E. apply (inj Some) in E as <-. rewrite (packet_messages_ok _ _ Hp). cbn. split; [lia|]. apply Forall_singleton. done.
Qed.
Lemma rcfg_ok : session_ok (c_session rcfg) /\ 0 <= c_next_sequence rcfg < 2 ^ 64 /\ 0 <= c_reorder_packets rcfg <= kNone /\ 0 <= c_max_packet_bytes rcfg < 2 ^ 32.
Proof. split; [apply ConcretePackets.blank_ok|]. unfold kNone. cbn. lia. Qed.
Abbreviation rreach := (reach (Meta := unit) rcfg stream).
Lemma r1_reach : rreach 1 0 r1.
Proof.
  apply (reach_packet rcfg stream 1 0 (new_receiver rcfg) 0 (dgram 1) 100 tt r1); [constructor | apply dgram_good; lia|]. vm_compute. reflexivity.
Qed.
Lemma r3_reach : rreach 1 0 r3.
Proof. apply (reach_packet rcfg stream 1 0 r1 1 (dgram 3) 200 tt r3 r1_reach); [apply dgram_good; lia|]. vm_compute. reflexivity. Qed.
Lemma r4_reach : rreach 1 0 r4.
Proof. apply (reach_timer rcfg stream 1 0 r3 3000000 r4 r3_reach). vm_compute. reflexivity. Qed.
Lemma r2_reach : rreach 1 0 r2.
Proof. apply (reach_packet rcfg stream 1 0 r4 0 (dgram 2) 3000100 tt r2 r4_reach); [apply dgram_good; lia|]. vm_compute. reflexivity. Qed.
Lemma receiver_in_order_witness : advance 1 (h_ r2) = Some 4 /\ forall seq m meta, OnMessage seq m meta ∈ h_ r2 -> stream seq m.
Proof.
  destruct rcfg_ok as (A & B & C & D). destruct (receiver_in_order rcfg stream A B C D 1 0 r2 r2_reach) as (n & Hn & Ha & Hm). rewrite (Hn ltac:(lia)) in Ha. rewrite drop_0 in Ha. split; [|exact Hm]. rewrite Ha. apply (f_equal Some). vm_compute. reflexivity.
Defined.
Lemma holes_attended_witness : exists st', on_timer rcfg 3000000 r3 = Some st' /\ state_ st' = Recovering.
Proof.
  destruct rcfg_ok as (A & B & C & D). destruct (holes_attended rcfg stream A B C D 1 0 r3 3000000 r3_reach) as (st' & E & H). exists st'. split; [exact E|]. assert (E' : Some st' = Some r4) by (rewrite <- E; vm_compute; reflexivity). apply (inj Some) in E' as ->.
  destruct H as [H|H]; [vm_compute; reflexivity | exact H | vm_compute in H; discriminate H].
Defined.
Lemma end_of_session_complete_witness : exists st' evs, on_packet rcfg 0 (dgram 2) 3000100 tt r4 = Some st' /\ h_ st' = h_ r4 ++ evs /\ (OnEndOfSession ∈ evs -> highest_ st' <= next_ st').
Proof. destruct rcfg_ok as (A & B & C & D). exact (end_of_session_complete rcfg stream A B C D 1 0 r4 0 (dgram 2) 3000100 tt r4_reach (dgram_good 2 ltac:(lia))). Defined.

(** After [reset 0], which leaves the position to the next packet, a timer call nevertheless finds a hole from sequence 0 on
    and requests it. *)
Theorem reset_zero_requests : exists st', on_timer rcfg 10000000 (reset 0 r2) = Some st' /\ h_ st' = h_ r2 ++ [SendRequest (header kBlankSession 0 4)].
Proof. eexists. split; [vm_compute; reflexivity | vm_compute; reflexivity]. Qed.
End ConcreteReceiver.
