(* ===== verification/MoldTransmit.v ===== *)
(** * MoldTransmit: the history of the transmitter

    The messages held lie in the byte ring in two runs: those of the previous lap, from the write offset on, and those of
    this lap, up to it.  Eviction takes the oldest, so a message still held is never overwritten. *)

From S2P Require Import Prelude Types FixedPoint NasdaqFields MoldUdp MoldPacket.

#[local] Arguments u64 : simpl never.
#[local] Arguments loop : simpl never.

Lemma some_bind {A B} (f : A -> option B) x : (Some x ≫= f) = f x.
Proof. done. Qed.

Section transmit.
Context (cfg : TransmitterConfig) (Hbytes : 0 <= history_bytes cfg < 2 ^ 62) (Hmsgs : 0 <= history_messages cfg < 2 ^ 62).
Implicit Type t : Transmitter.
Abbreviation start t s := (start_of cfg t s).
Abbreviation mlen t s := (len_of cfg t s).

(** Consecutive messages [a, b) lie one behind the other, from [lo] to [hi]. *)
Definition run t (a b lo hi : Z) : Prop := (forall s, a <= s < b -> lo <= start t s /\ start t s + mlen t s <= hi) /\ forall s, a <= s -> s + 1 < b -> start t s + mlen t s <= start t (s + 1).
(** [t] holds the messages [tx_first t .. tx_count t] of those published, [pub]. *)
Record tx_ok t (pub : list (list Z)) (pivot : Z) : Prop := mkTxOk {
  tk_count : tx_count t = Z.of_nat (length pub);
  tk_max : tx_count t < 2 ^ 62;
  tk_first : 1 <= tx_first t <= tx_count t + 1;
  tk_held : tx_count t + 1 - tx_first t <= history_messages cfg;
  tk_head : 0 <= tx_head t <= history_bytes cfg;
  tk_buf : len (tx_bytes t) = history_bytes cfg;
  tk_pivot : tx_first t <= pivot <= tx_count t + 1;
  tk_plain : overwrite_oldest cfg = false -> pivot = tx_first t;
  tk_old : run t (tx_first t) pivot (tx_head t) (history_bytes cfg);
  tk_new : run t pivot (tx_count t + 1) 0 (tx_head t);
  tk_msg s m : tx_first t <= s <= tx_count t -> pub !! Z.to_nat (s - 1) = Some m -> mlen t s = len m /\ get (start t s) (mlen t s) (tx_bytes t) = m;
  tk_ok : Forall message_ok pub;
  tk_session : session_ok (tx_session t);
}.

Lemma held_eq t pub pivot : tx_ok t pub pivot -> tx_held t = tx_count t + 1 - tx_first t.
Proof. intros H. pose proof (tk_max _ _ _ H). pose proof (tk_first _ _ _ H). unfold tx_held, u64. apply Z.mod_small. lia. Qed.
Lemma run_weaken t a b lo hi a' lo' hi' : run t a b lo hi -> a <= a' -> (forall s, a' <= s < b -> lo' <= start t s) -> hi <= hi' -> run t a' b lo' hi'.
Proof. intros [H1 H2] Ha Hl Hh. split; [intros s Hs; specialize (H1 s ltac:(lia)); specialize (Hl s Hs); lia | intros s Hs Hb; apply H2; lia]. Qed.
(** In a run the starts increase. *)
Lemma run_mono t a b lo hi : run t a b lo hi -> (forall s, a <= s < b -> 0 <= mlen t s) -> forall s, a <= s < b -> start t a <= start t s.
Proof.
  intros [_ H2] Hm s Hs. replace s with (a + Z.of_nat (Z.to_nat (s - a))) in Hs |- * by lia. revert Hs. induction (Z.to_nat (s - a)) as [|n IH]; intros Hs; [replace (a + Z.of_nat 0) with a by lia; lia|].
  specialize (IH ltac:(lia)). specialize (H2 (a + Z.of_nat n) ltac:(lia) ltac:(lia)). specialize (Hm (a + Z.of_nat n) ltac:(lia)). replace (a + Z.of_nat (S n)) with (a + Z.of_nat n + 1) by lia. lia.
Qed.
Lemma tx_len t pub pivot s : tx_ok t pub pivot -> tx_first t <= s <= tx_count t -> exists m, pub !! Z.to_nat (s - 1) = Some m /\ message_ok m /\ mlen t s = len m /\ get (start t s) (mlen t s) (tx_bytes t) = m.
Proof.
  intros H Hs. pose proof (tk_first _ _ _ H). pose proof (tk_count _ _ _ H). destruct (lookup_lt_is_Some_2 pub (Z.to_nat (s - 1)) ltac:(lia)) as [m Hm]. exists m. split; [done|]. split; [by eapply (Forall_lookup_1 _ _ _ _ (tk_ok _ _ _ H))|]. by apply (tk_msg _ _ _ H).
Qed.

(** ** Eviction *)

Definition evicts t t' : Prop := exists f e, t' = t <| tx_first := f |> <| tx_evicted := e |> /\ tx_first t <= f <= tx_count t + 1.
Lemma evict_ok t pub pivot : tx_ok t pub pivot -> tx_first t <= tx_count t -> overwrite_oldest cfg = true -> tx_ok (evict_oldest t) pub (Z.max pivot (tx_first t + 1)) /\ tx_first (evict_oldest t) = tx_first t + 1.
Proof.
  intros H Hf Ho. destruct H as [A1 A2 A3 A4 A5 A6 A7 A8 A9 A10 A11 A12 A13]. assert (Ef : tx_first (evict_oldest t) = tx_first t + 1) by (cbn; unfold u64; apply Z.mod_small; lia). split; [|done].
  split; rewrite ?Ef; change (tx_count (evict_oldest t)) with (tx_count t); change (tx_head (evict_oldest t)) with (tx_head t); try done; try congruence; try lia.
  - destruct (Z.max_spec pivot (tx_first t + 1)) as [[Hl ->]|[Hl ->]]; [split; intros s Hs; lia|]. by apply (run_weaken t (tx_first t) pivot (tx_head t) (history_bytes cfg)); [|lia | intros s Hs; apply A9; lia | lia].
  - by apply (run_weaken t pivot (tx_count t + 1) 0 (tx_head t)); [|lia | intros s Hs; apply A10; lia | lia].
  - intros s m Hs. apply A11. lia.
Qed.
Lemma evict_while_ok cond t pub pivot : tx_ok t pub pivot -> overwrite_oldest cfg = true -> exists t' pivot', evict_while cond t = Some t' /\ evicts t t' /\ tx_ok t' pub pivot' /\ pivot <= pivot' /\ (tx_first t' <= tx_count t' -> cond t' = false).
Proof.
  intros H Ho. unfold evict_while. destruct (loop_rule (evict_step cond) (fun s => exists p, evicts t s /\ tx_ok s pub p /\ pivot <= p) (fun s => exists p, evicts t s /\ tx_ok s pub p /\ pivot <= p /\ (tx_first s <= tx_count s -> cond s = false)) (fun s => tx_held s)) with (d := 64%nat) (s := t) as (t' & -> & p & H1 & H2 & H3 & H4).
  - intros s (p & He & Hs & Hp). unfold evict_step. pose proof (held_eq s pub p Hs) as Eh. pose proof (tk_first _ _ _ Hs). pose proof (tk_max _ _ _ Hs). destruct (Z.eqb_spec (tx_held s) 0) as [E0|N0]; cbn [negb andb]; [exists p; split; [done|]; split; [done|]; split; [done | lia]|].
    destruct (cond s) eqn:Ec; [|exists p; done]. destruct (evict_ok s pub p Hs ltac:(lia) Ho) as [Hs' Ef]. pose proof (held_eq _ _ _ Hs') as Eh'. split; [|rewrite Eh', Ef; change (tx_count (evict_oldest s)) with (tx_count s); lia]. exists (Z.max p (tx_first s + 1)). split; [|split; [done | lia]].
    destruct He as (f & e & -> & Hf). exists (u64 (f + 1)), (u64 (e + 1)). split; [done|]. cbn in *. unfold u64. rewrite Z.mod_small; lia.
  - exists pivot. split; [|split; [done | lia]]. exists (tx_first t), (tx_evicted t). split; [by destruct t|]. pose proof (tk_first _ _ _ H). lia.
  - pose proof (held_eq t pub pivot H). pose proof (tk_first _ _ _ H). pose proof (tk_max _ _ _ H). change (2 ^ Z.of_nat 64) with (2 ^ 64). lia.
  - by exists t', p.
Qed.

(** ** Storing *)

Lemma slot_other s c : 0 < history_messages cfg -> s < c -> c - s < history_messages cfg -> s mod history_messages cfg <> c mod history_messages cfg.
Proof.
  intros Hm H1 H2 E. pose proof (Z.div_mod s (history_messages cfg) ltac:(lia)) as D1. pose proof (Z.div_mod c (history_messages cfg) ltac:(lia)) as D2. rewrite E in D1. assert (c - s = history_messages cfg * (c / history_messages cfg - s / history_messages cfg)) as Eq by (rewrite Z.mul_sub_distr_l; lia). set (q := c / _ - s / _) in Eq. clearbody q. clear D1 D2 E. destruct (Z.le_gt_cases q 0); [pose proof (Z.mul_nonneg_nonpos (history_messages cfg) q) | pose proof (Z.mul_le_mono_nonneg_l 1 q (history_messages cfg))]; lia.
Qed.
Lemma store_ok t pub pivot msg : tx_ok t pub pivot -> message_ok msg -> tx_count t + 1 < 2 ^ 62 -> 0 < history_messages cfg -> tx_count t + 1 - tx_first t < history_messages cfg -> tx_head t + len msg <= history_bytes cfg -> (forall s, tx_first t <= s < pivot -> tx_head t + len msg <= start t s) ->
  tx_ok (store cfg msg t) (pub ++ [msg]) pivot /\ tx_count (store cfg msg t) = tx_count t + 1.
Proof.
  intros H Hm Hc Hh Hroom Hfit Hold. pose proof (len_nonneg msg) as Hn. pose proof H as [A1 A2 A3 A4 A5 A6 A7 A8 A9 A10 A11 A12 A13]. set (t' := store cfg msg t).
  assert (Ec : tx_count t' = tx_count t + 1) by (unfold t', store; case_if; cbn; unfold u64; apply Z.mod_small; lia). assert (Ef : tx_first t' = tx_first t) by (unfold t', store; by case_if). assert (Ess : tx_session t' = tx_session t) by (unfold t', store; by case_if). assert (Eh : tx_head t' = tx_head t + len msg) by (unfold t', store; case_if; cbn; unfold u64; apply Z.mod_small; lia).
  assert (Eb : tx_bytes t' = if len msg =? 0 then tx_bytes t else put (tx_head t) msg (tx_bytes t)) by (unfold t', store; destruct (len msg =? 0); done).
  assert (Es : tx_starts t' = <[(tx_count t + 1) mod history_messages cfg := tx_head t]> (tx_starts t) /\ tx_lens t' = <[(tx_count t + 1) mod history_messages cfg := len msg]> (tx_lens t)).
  { assert (u16 (len msg) = len msg) as Eu by (unfold u16; apply Z.mod_small; destruct Hm as [_ Hm]; unfold kMaxMessageLength in Hm; lia). unfold t', store. destruct (len msg =? 0); cbn; rewrite Eu; unfold u64; rewrite (Z.mod_small (tx_count t + 1)) by lia; done. }
  destruct Es as [Es El]. assert (Eold : forall s, tx_first t <= s <= tx_count t -> start t' s = start t s /\ mlen t' s = mlen t s).
  { intros s Hs. unfold start_of, len_of. rewrite Es, El, !lookup_insert_ne by (apply not_eq_sym, slot_other; lia). done. }
  assert (Enew : start t' (tx_count t + 1) = tx_head t /\ mlen t' (tx_count t + 1) = len msg) by (unfold start_of, len_of; rewrite Es, El, !lookup_insert_eq; done). clearbody t'. split; [|done]. split; rewrite ?Ec, ?Ef, ?Eh; try done; try lia.
  - rewrite A1, length_app. cbn. lia.
  - rewrite Eb. destruct (len msg =? 0); [done|]. unfold len. rewrite put_length; [exact A6 | lia | unfold len in *; lia].
  - split; [intros s Hs; destruct (Eold s ltac:(lia)) as [-> ->]; pose proof (proj1 A9 s ltac:(lia)); specialize (Hold s Hs); lia | intros s Hs Hb; destruct (Eold s ltac:(lia)) as [-> ->]; destruct (Eold (s + 1) ltac:(lia)) as [-> _]; apply A9; lia].
  - split.
    + intros s Hs. destruct (Z.eq_dec s (tx_count t + 1)) as [->|N]; [destruct Enew as [-> ->]; lia|]. destruct (Eold s ltac:(lia)) as [-> ->]. pose proof (proj1 A10 s ltac:(lia)). lia.
    + intros s Hs Hb. destruct (Eold s ltac:(lia)) as [-> ->]. destruct (Z.eq_dec (s + 1) (tx_count t + 1)) as [->|N]; [destruct Enew as [-> _]; apply A10; lia|]. destruct (Eold (s + 1) ltac:(lia)) as [-> _]. apply A10; lia.
  - intros s m Hs Hp. destruct (Z.eq_dec s (tx_count t + 1)) as [->|N].
    + rewrite lookup_app_r in Hp by lia. replace (Z.to_nat (tx_count t + 1 - 1) - length pub)%nat with 0%nat in Hp by lia. injection Hp as <-. destruct Enew as [-> ->]. split; [done|]. rewrite Eb. destruct (Z.eqb_spec (len msg) 0) as [E0|N0].
      * apply len_0 in E0. subst msg. done.
      * apply get_put_same; lia.
    + rewrite lookup_app_l in Hp by lia. destruct (Eold s ltac:(lia)) as [-> ->]. destruct (A11 s m ltac:(lia) Hp) as [E1 E2]. split; [done|]. rewrite Eb. destruct (len msg =? 0); [done|]. rewrite <- E2. pose proof (len_nonneg m).
      destruct (Z.lt_ge_cases s pivot) as [Hs1|Hs1]; [pose proof (proj1 A9 s ltac:(lia)); specialize (Hold s ltac:(lia)) | pose proof (proj1 A10 s ltac:(lia))]; apply get_put_other; lia.
  - apply Forall_app. split; [done | by apply Forall_singleton].
  - by rewrite Ess.
Qed.

Lemma rewind_ok t pub pivot : tx_ok t pub pivot -> overwrite_oldest cfg = true -> (tx_first t <= tx_count t -> (tx_head t <=? start t (tx_first t)) = false) -> tx_ok (t <| tx_head := 0 |>) pub (tx_count t + 1).
Proof.
  intros H Ho Hc. pose proof H as [A1 A2 A3 A4 A5 A6 A7 A8 A9 A10 A11 A12 A13]. assert (Hp : pivot = tx_first t \/ tx_first t = tx_count t + 1).
  { destruct (Z.eq_dec (tx_first t) (tx_count t + 1)); [by right|]. left. specialize (Hc ltac:(lia)). destruct (Z.eq_dec pivot (tx_first t)); [done|]. pose proof (proj1 A9 (tx_first t) ltac:(lia)). lia. }
  split; cbn; try done; try lia; try congruence; [|split; intros s Hs; lia].
  destruct Hp as [Hp|Hp]; [|split; intros s Hs; lia]. rewrite <- Hp. apply (run_weaken t pivot (tx_count t + 1) 0 (tx_head t)); [exact A10 | lia | intros s Hs; apply A10; lia | lia].
Qed.
(** What [publish] answers: 0 and nothing changed, or the number of the message, now the last of those published. *)
Definition published t (pub : list (list Z)) (pivot : Z) msg (r : Z) t' (pivot' : Z) : Prop :=
  (r = 0 /\ t' = t /\ tx_ok t' pub pivot') \/ (r = tx_count t + 1 /\ tx_count t' = r /\ tx_ok t' (pub ++ [msg]) pivot' /\ tx_next_unsent t' = tx_next_unsent t).
(** [t1] is [t] with room made for [msg]. *)
Definition roomy t (pub : list (list Z)) msg t1 p1 : Prop := tx_ok t1 pub p1 /\ tx_count t1 = tx_count t /\ tx_next_unsent t1 = tx_next_unsent t /\ tx_count t1 + 1 - tx_first t1 < history_messages cfg /\ tx_head t1 + len msg <= history_bytes cfg.
Lemma store_published t pub pivot msg t1 p1 : message_ok msg -> tx_count t + 1 < 2 ^ 62 -> 0 < history_messages cfg -> roomy t pub msg t1 p1 -> 0 <= tx_count t -> (forall s, tx_first t1 <= s < p1 -> tx_head t1 + len msg <= start t1 s) ->
  published t pub pivot msg (tx_count (store cfg msg t1)) (store cfg msg t1) p1 /\ tx_count (store cfg msg t1) <> 0.
Proof.
  intros Hm Hc Hh (H1 & Ec & En & Hr & Hf) H0 Hs. destruct (store_ok t1 pub p1 msg H1 Hm ltac:(lia) Hh Hr Hf Hs) as [H2 Ec2]. split; [|lia]. right. split; [lia|]. split; [lia|]. split; [done|]. rewrite <- En. unfold store. by case_if.
Qed.
Lemma wrap_ok t pub msg t1 p1 : overwrite_oldest cfg = true -> tx_ok t1 pub p1 -> tx_count t1 = tx_count t -> tx_next_unsent t1 = tx_next_unsent t -> tx_count t1 + 1 - tx_first t1 < history_messages cfg -> len msg <= history_bytes cfg ->
  exists t2 p2, (if u64 (history_bytes cfg - tx_head t1) <? len msg then t ← evict_while (fun t => tx_head t <=? start t (tx_first t)) t1; Some (t <| tx_head := 0 |>) else Some t1) = Some t2 /\ roomy t pub msg t2 p2.
Proof.
  intros Eo H1 Ec1 En1 Hr1 Hl. unfold u64. rewrite Z.mod_small by (pose proof (tk_head _ _ _ H1); lia). destruct (Z.ltb_spec (history_bytes cfg - tx_head t1) (len msg)) as [Hw|Hw]; [|exists t1, p1; split; [done|]; split; [done|]; split; [done|]; split; [done | lia]].
  destruct (evict_while_ok (fun t => tx_head t <=? start t (tx_first t)) t1 pub p1 H1 Eo) as (t2 & p2 & -> & (f & e & Et & Hf) & H2 & _ & Hcnd). cbn [mbind option_bind]. pose proof (rewind_ok t2 pub p2 H2 Eo Hcnd) as H3.
  exists (t2 <| tx_head := 0 |>), (tx_count t2 + 1). split; [done|]. split; [exact H3|]. rewrite Et. cbn. split; [exact Ec1|]. split; [exact En1|]. lia.
Qed.
Lemma evict_full_ok t pub pivot : tx_ok t pub pivot -> overwrite_oldest cfg = true -> 0 < history_messages cfg -> let t1 := if history_messages cfg <=? tx_held t then evict_oldest t else t in
  exists p1, tx_ok t1 pub p1 /\ tx_count t1 = tx_count t /\ tx_next_unsent t1 = tx_next_unsent t /\ tx_count t1 + 1 - tx_first t1 < history_messages cfg.
Proof.
  intros H Eo Hh t1. pose proof (held_eq t pub pivot H) as Eh. pose proof (tk_held _ _ _ H) as Hth. unfold t1. destruct (Z.leb_spec (history_messages cfg) (tx_held t)) as [Hle|Hle]; [|exists pivot; split; [done|]; split; [done|]; split; [done | lia]].
  destruct (evict_ok t pub pivot H ltac:(lia) Eo) as [H1 Ef]. exists (Z.max pivot (tx_first t + 1)). split; [done|]. split; [done|]. split; [done|]. rewrite Ef. change (tx_count (evict_oldest t)) with (tx_count t). lia.
Qed.
Lemma clear_ahead_ok t pub msg t2 p2 : overwrite_oldest cfg = true -> roomy t pub msg t2 p2 -> exists t3 p3,
  evict_while (fun t => (tx_head t <=? start t (tx_first t)) && (start t (tx_first t) <? u64 (tx_head t + len msg))) t2 = Some t3 /\ roomy t pub msg t3 p3 /\ forall s, tx_first t3 <= s < p3 -> tx_head t3 + len msg <= start t3 s.
Proof.
  intros Eo (H2 & Ec2 & En2 & Hr2 & Hf2). destruct (evict_while_ok (fun t => (tx_head t <=? start t (tx_first t)) && (start t (tx_first t) <? u64 (tx_head t + len msg))) t2 pub p2 H2 Eo) as (t3 & p3 & E & (f & e & Et & Hf) & H3 & _ & Hcnd).
  assert (Ec3 : tx_count t3 = tx_count t2 /\ tx_head t3 = tx_head t2 /\ tx_next_unsent t3 = tx_next_unsent t2 /\ tx_first t3 = f) by (subst t3; done). destruct Ec3 as (Ec3 & Eh3 & En3 & Hf3). clear Et. exists t3, p3. split; [exact E|]. split; [split; [done|]; split; [congruence|]; split; [congruence | lia]|].
  intros s Hs. pose proof (tk_pivot _ _ _ H3) as Hpv. specialize (Hcnd ltac:(lia)). pose proof (tk_head _ _ _ H3) as Hhd. pose proof (len_nonneg msg). unfold u64 in Hcnd. rewrite (Z.mod_small (tx_head t3 + len msg)) in Hcnd by lia. pose proof (tk_old _ _ _ H3) as Hrun. pose proof (proj1 Hrun (tx_first t3) ltac:(lia)).
  enough (start t3 (tx_first t3) <= start t3 s) by lia. apply (run_mono t3 (tx_first t3) p3 _ _ Hrun); [|lia]. intros x Hx. destruct (tx_len t3 pub p3 x H3 ltac:(lia)) as (m & _ & _ & -> & _). apply len_nonneg.
Qed.
(** Everything published and still held is kept whole; nothing is held that was not published. *)
Lemma publish_ok t pub pivot msg : tx_ok t pub pivot -> message_ok msg -> tx_count t + 1 < 2 ^ 62 -> exists r t' pivot', publish cfg msg t = Some (r, t') /\
  published t pub pivot msg r t' pivot' /\ (overwrite_oldest cfg = true -> len msg <= history_bytes cfg -> 0 < history_messages cfg -> r <> 0).
Proof.
  intros H Hm Hc. unfold publish. pose proof (len_nonneg msg) as Hn. assert (H0 : 0 <= tx_count t) by (rewrite (tk_count _ _ _ H); lia).
  assert (Hno : published t pub pivot msg 0 t pivot) by (by left). destruct ((kMaxMessageLength <? len msg) || (history_bytes cfg <? len msg) || (history_messages cfg =? 0)) eqn:E0; [exists 0, t, pivot; split; [done|]; split; [done|]; destruct Hm; lia|].
  assert (Hh : 0 < history_messages cfg) by lia. assert (Hl : len msg <= history_bytes cfg) by lia. clear E0. destruct (overwrite_oldest cfg) eqn:Eo; cbn [negb].
  - destruct (evict_full_ok t pub pivot H Eo Hh) as (p1 & H1 & Ec1 & En1 & Hr1). set (t1 := if history_messages cfg <=? tx_held t then evict_oldest t else t) in *. clearbody t1.
    destruct (wrap_ok t pub msg t1 p1 Eo H1 Ec1 En1 Hr1 Hl) as (t2 & p2 & -> & H2). rewrite some_bind. destruct (clear_ahead_ok t pub msg t2 p2 Eo H2) as (t3 & p3 & -> & H3 & Hs). rewrite some_bind.
    destruct (store_published t pub pivot msg t3 p3 Hm Hc Hh H3 H0 Hs) as [Hp Hne]. exists (tx_count (store cfg msg t3)), (store cfg msg t3), p3. split; [reflexivity|]. split; [exact Hp | done].
  - assert (Eu : u64 (history_bytes cfg - tx_head t) = history_bytes cfg - tx_head t) by (unfold u64; apply Z.mod_small; pose proof (tk_head _ _ _ H); lia). rewrite Eu, (held_eq t pub pivot H). destruct (Z.leb_spec (history_messages cfg) (tx_count t + 1 - tx_first t)); cbn [orb]; [by exists 0, t, pivot|].
    destruct (Z.ltb_spec (history_bytes cfg - tx_head t) (len msg)); [by exists 0, t, pivot|]. destruct (store_published t pub pivot msg t pivot Hm Hc Hh) as [Hp Hne]; [split; [done|]; split; [done|]; split; [done | lia] | done | intros s Hs; rewrite (tk_plain _ _ _ H Eo) in Hs; lia|].
    exists (tx_count (store cfg msg t)), (store cfg msg t), pivot. split; [reflexivity|]. split; [exact Hp | done].
Qed.

(** ** Packets from the history *)

Lemma add_messages_ok n t pub pivot max_count : tx_ok t pub pivot -> forall s b seq ms rest, built b (tx_session t) seq ms rest -> tx_first t <= s -> s <= tx_count t + 1 -> Z.of_nat (length ms) <= kMaxMessagesPerPacket ->
  exists more rest', built (add_messages cfg n s max_count t b) (tx_session t) seq (ms ++ more) rest' /\ more `prefix_of` drop (Z.to_nat (s - 1)) pub /\ (Z.of_nat (length ms) <= max_count -> Z.of_nat (length (ms ++ more)) <= max_count) /\ Z.of_nat (length (ms ++ more)) <= kMaxMessagesPerPacket /\
    len (blocks (ms ++ more)) + len rest' = len (blocks ms) + len rest /\
    (forall m, (0 < n)%nat -> Z.of_nat (length ms) < max_count -> Z.of_nat (length ms) < kMaxMessagesPerPacket -> pub !! Z.to_nat (s - 1) = Some m -> 2 + len m <= len rest -> more <> []).
Proof.
  intros H. pose proof (tk_session _ _ _ H) as [_ Hsl]. pose proof (tk_count _ _ _ H) as Hcnt. pose proof (tk_max _ _ _ H) as Hmax. induction n as [|n IH]; intros s b seq ms rest Hb Hs Hs' Hk; cbn [add_messages].
  { exists [], rest. rewrite app_nil_r. split; [done|]. split; [apply prefix_nil|]. split; [done|]. split; [done|]. split; [done | lia]. }
  assert (Hstop : forall (Q : (forall m, (0 < S n)%nat -> Z.of_nat (length ms) < max_count -> Z.of_nat (length ms) < kMaxMessagesPerPacket -> pub !! Z.to_nat (s - 1) = Some m -> 2 + len m <= len rest -> @nil (list Z) <> [])),
    exists more rest', built b (tx_session t) seq (ms ++ more) rest' /\ more `prefix_of` drop (Z.to_nat (s - 1)) pub /\ (Z.of_nat (length ms) <= max_count -> Z.of_nat (length (ms ++ more)) <= max_count) /\ Z.of_nat (length (ms ++ more)) <= kMaxMessagesPerPacket /\ len (blocks (ms ++ more)) + len rest' = len (blocks ms) + len rest /\
    (forall m, (0 < S n)%nat -> Z.of_nat (length ms) < max_count -> Z.of_nat (length ms) < kMaxMessagesPerPacket -> pub !! Z.to_nat (s - 1) = Some m -> 2 + len m <= len rest -> more <> [])).
  { intros Q. exists [], rest. rewrite app_nil_r. split; [done|]. split; [apply prefix_nil|]. done. }
  destruct Hb as (B1 & B2 & B3 & B4). rewrite B3. destruct (Z.leb_spec s (tx_count t)) as [Hle|Hgt]; cbn [andb].
  2:{ apply Hstop. intros m _ _ _ Hm%lookup_lt_Some. lia. }
  destruct (Z.ltb_spec (Z.of_nat (length ms)) max_count) as [Hlt|Hge]; [|apply Hstop; intros; lia]. destruct (tx_len t pub pivot s H ltac:(lia)) as (m & Hm & Hmo & _ & ->).
  pose proof (add_built b (tx_session t) seq ms rest m (conj B1 (conj B2 (conj B3 B4))) Hsl (proj2 Hmo)) as Ha. destruct (Z.ltb_spec (Z.of_nat (length ms)) kMaxMessagesPerPacket) as [Hc|Hc]; cbn [andb] in Ha; [|rewrite Ha; apply Hstop; intros; lia].
  destruct (Z.leb_spec (2 + len m) (len rest)) as [Hf|Hf]; [|rewrite Ha; apply Hstop; intros m' _ _ _ Hm' Hl; rewrite Hm in Hm'; injection Hm' as <-; lia].
  destruct Ha as (b' & -> & Hb'). assert (Eu : u64 (s + 1) = s + 1) by (unfold u64; apply Z.mod_small; pose proof (tk_first _ _ _ H); lia). rewrite Eu.
  destruct (IH (s + 1) b' seq (ms ++ [m]) _ Hb' ltac:(lia) ltac:(lia) ltac:(rewrite length_app; cbn [length]; lia)) as (more & rest' & E1 & E2 & E3 & E4 & E5 & _). rewrite <- app_assoc in E1, E3, E4, E5. exists (m :: more), rest'. split; [exact E1|]. split.
  { replace (s + 1 - 1) with s in E2 by lia. rewrite (drop_S _ m (Z.to_nat (s - 1))) by done. replace (S (Z.to_nat (s - 1))) with (Z.to_nat s) by (pose proof (tk_first _ _ _ H); lia). by apply prefix_cons. }
  split; [intros _; apply E3; rewrite length_app; cbn [length]; lia|]. split; [exact E4|]. split; [|done]. cbn [app] in E5. rewrite E5, blocks_snoc, len_app, block_len. unfold len in *. rewrite length_drop. lia.
Qed.
(** The packet of the messages [ms] from [seq] on. *)
Definition data_packet t seq ms : PacketView := mkPacket (tx_session t) seq (Z.of_nat (length ms)) Data (blocks ms).
Lemma packet_at_ok out seq max_count t pub pivot : tx_ok t pub pivot -> 0 <= max_count < 65536 -> let '(n, out') := packet_at cfg out seq max_count t in
  (n = 0 \/ exists ms, take (Z.to_nat n) out' = datagram_of (data_packet t seq ms) /\ packet_ok (data_packet t seq ms) ms /\ ms <> [] /\ ms `prefix_of` drop (Z.to_nat (seq - 1)) pub /\ Z.of_nat (length ms) <= max_count /\ n <= max_datagram cfg /\ n = 20 + len (blocks ms) /\ tx_first t <= seq <= tx_count t) /\
  (forall m, tx_first t <= seq <= tx_count t -> 0 < max_count -> pub !! Z.to_nat (seq - 1) = Some m -> 22 + len m <= len out -> 22 + len m <= max_datagram cfg -> n <> 0).
Proof.
  intros H Hmax. unfold packet_at. destruct ((seq <? tx_first t) || (tx_count t <? seq)) eqn:Er; [split; [by left|]; intros; lia|]. set (limit := if len out <? max_datagram cfg then len out else max_datagram cfg).
  assert (Hlim : limit = Z.min (len out) (max_datagram cfg)) by (unfold limit; destruct (Z.ltb_spec (len out) (max_datagram cfg)); lia). clearbody limit. set (buf := take (Z.to_nat limit) out). pose proof (tk_session _ _ _ H) as [Hsb Hsl]. pose proof (len_nonneg out) as Hlo.
  assert (Hbuf : len buf = Z.max 0 limit) by (unfold buf, len in *; rewrite length_take; lia). destruct (Z.le_gt_cases 20 limit) as [H20|H20].
  2:{ assert (Eb : new_builder buf (tx_session t) seq = mkBuilder buf seq 0 0) by (unfold new_builder, kHeaderLength; by replace (20 <=? len buf) with false by lia). rewrite Eb.
      assert (Ea : add_messages cfg (S (Z.to_nat max_count)) seq max_count t (mkBuilder buf seq 0 0) = mkBuilder buf seq 0 0) by (cbn [add_messages pb_count]; case_if; done). rewrite Ea. cbn [pb_count Z.eqb]. split; [by left|]. intros m _ _ _ H1 H2. pose proof (len_nonneg m). lia. }
  pose proof (new_builder_built buf (tx_session t) seq Hsl ltac:(lia)) as Hb. destruct (add_messages_ok (S (Z.to_nat max_count)) t pub pivot max_count H seq _ seq [] _ Hb ltac:(lia) ltac:(lia) ltac:(unfold kMaxMessagesPerPacket; cbn; lia)) as (ms & rest & Hb' & Hp & Hc1 & Hc2 & Hl & Hne). cbn [app length Z.of_nat] in *.
  set (b := add_messages _ _ _ _ _ _) in *. clearbody b. destruct (finish_built b (tx_session t) seq ms rest Hb' Hsl) as (buf' & Ef & Eb' & Et). rewrite Ef. destruct Hb' as (_ & _ & Ecnt & _). rewrite Ecnt. change (len (blocks [])) with 0 in Hl.
  assert (Hsz : 20 + len (blocks ms) + len rest = limit) by (unfold len in *; rewrite length_drop in Hl; lia). pose proof (len_nonneg rest). pose proof (len_nonneg (blocks ms)). destruct (Z.eqb_spec (Z.of_nat (length ms)) 0) as [E0|N0].
  - assert (ms = []) as -> by (destruct ms; [done | cbn in E0; lia]). split; [by left|]. intros m _ Hm1 Hm Hq1 Hq2. exfalso. apply (Hne m); try done; lia.
  - split; [|lia]. right. exists ms. assert (ms <> []) as Hms by (by intros ->). split; [|split; [|split; [done|]; split; [done|]; split; [apply Hc1; lia|]; split; [lia|]; split; [done | lia]]].
    + rewrite take_app_le by (rewrite Eb', !length_app, header_length by done; unfold len in *; lia). exact Et.
    + split; [done|]. pose proof (tk_first _ _ _ H). pose proof (tk_max _ _ _ H). split; [cbn; lia|]. split; [|done]. destruct Hp as [k Ek]. apply (proj1 (proj1 (Forall_app message_ok ms k) ltac:(rewrite <- Ek; by apply Forall_drop, (tk_ok _ _ _ H)))).
Qed.
End transmit.
