(* ===== verification/MoldStream.v ===== *)
(** * MoldStream: a transmitter and a receiver over a network that loses, repeats and reorders *)

From S2P Require Import Prelude Types FixedPoint NasdaqFields MoldUdp MoldPacket MoldReceive MoldRecover MoldProps MoldTransmit.

#[local] Arguments u64 : simpl never.
#[local] Arguments i64 : simpl never.
#[local] Arguments kNone : simpl never.
#[local] Arguments loop : simpl never.

(** Message number [seq] of those published. *)
Definition stream_of (pub : list (list Z)) (seq : Z) (m : list Z) : Prop := 1 <= seq /\ pub !! Z.to_nat (seq - 1) = Some m.
Lemma stream_mono pub pub' seq m : pub `prefix_of` pub' -> stream_of pub seq m -> stream_of pub' seq m.
Proof. intros [k ->] [H1 H2]. split; [done|]. by apply lookup_app_l_Some. Qed.

Section sender.
Context (tcfg : TransmitterConfig) (Hbytes : 0 <= history_bytes tcfg < 2 ^ 62) (Hmsgs : 0 <= history_messages tcfg < 2 ^ 62).
Implicit Type t : Transmitter.

(** ** What a transmitter sends *)

(** The transmitter [t] after publishing [pub]. *)
Inductive tx_reach : list (list Z) -> Transmitter -> Prop :=
| tx_new s : bytes_ok s -> tx_reach [] (new_transmitter tcfg s)
| tx_publish pub t msg r t' : tx_reach pub t -> message_ok msg -> tx_count t + 1 < 2 ^ 62 -> publish tcfg msg t = Some (r, t') -> tx_reach (if r =? 0 then pub else pub ++ [msg]) t'
| tx_next pub t out max_count n out' t' : tx_reach pub t -> 0 <= max_count < 65536 -> next_packet tcfg out max_count t = (n, out', t') -> tx_reach pub t'.
(** The datagrams it puts on the wire. *)
Inductive emits t : list Z -> Prop :=
| em_next out max_count n out' t' : 0 <= max_count < 65536 -> next_packet tcfg out max_count t = (n, out', t') -> n <> 0 -> emits t (take (Z.to_nat n) out')
| em_answer req out n out' : bytes_ok req -> answer_request tcfg req out t = (n, out') -> n <> 0 -> emits t (take (Z.to_nat n) out')
| em_heartbeat out n out' : tx_heartbeat out t = (n, out') -> n <> 0 -> emits t (take (Z.to_nat n) out')
| em_end out n out' : tx_end_of_session out t = (n, out') -> n <> 0 -> emits t (take (Z.to_nat n) out').

Lemma put_alpha_length w s : length (put_alpha w s) = w.
Proof. unfold put_alpha. destruct (Nat.ltb_spec (length s) w); rewrite length_app, length_take, length_replicate; lia. Qed.
Lemma make_session_ok s : bytes_ok s -> session_ok (make_session s).
Proof.
  intros H. split; [|apply put_alpha_length]. unfold make_session, put_alpha. apply Forall_app. split; [by apply Forall_take | apply Forall_replicate; unfold is_byte, space; lia].
Qed.
Lemma packet_at_unsent out seq mc t u : packet_at tcfg out seq mc (t <| tx_next_unsent := u |>) = packet_at tcfg out seq mc t.
Proof.
  assert (E : forall n s b, add_messages tcfg n s mc (t <| tx_next_unsent := u |>) b = add_messages tcfg n s mc t b).
  { induction n as [|n IH]; intros s b; cbn [add_messages]; [done|]. change (get _ _ _) with (get (start_of tcfg t s) (len_of tcfg t s) (tx_bytes t)). change (tx_count (t <| tx_next_unsent := u |>)) with (tx_count t). destruct (_ && _); [|done]. destruct (pb_add _ b) as [[] b']; [apply IH | done]. }
  unfold packet_at. rewrite E. done.
Qed.
Lemma next_packet_ok out max_count t pub pivot n out' t' : tx_ok tcfg t pub pivot -> 1 <= tx_next_unsent t <= tx_count t + 1 -> 0 <= max_count < 65536 -> next_packet tcfg out max_count t = (n, out', t') ->
  exists u, t' = t <| tx_next_unsent := u |> /\ tx_next_unsent t <= u <= tx_count t + 1 /\ (n <> 0 -> exists seq, packet_at tcfg out seq max_count t = (n, out')).
Proof.
  intros H Hu Hmax. pose proof (tk_first _ _ _ _ H) as Hf. pose proof (tk_max _ _ _ _ H) as Hm. unfold next_packet. set (t1 := if tx_next_unsent t <? tx_first t then _ else t).
  assert (E1 : exists u, t1 = t <| tx_next_unsent := u |> /\ tx_next_unsent t <= u <= tx_count t + 1) by (unfold t1; destruct (Z.ltb_spec (tx_next_unsent t) (tx_first t)); [exists (tx_first t); split; [done | lia] | exists (tx_next_unsent t); split; [by destruct t | lia]]).
  destruct E1 as (u & E1 & Hu1). rewrite E1. change (tx_next_unsent (t <| tx_next_unsent := u |>)) with u. change (tx_count (t <| tx_next_unsent := u |>)) with (tx_count t). rewrite packet_at_unsent.
  destruct (Z.ltb_spec (tx_count t) u) as [Hlt|Hge]; [intros [= <- <- <-]; by exists u|]. pose proof (packet_at_ok tcfg out u max_count t pub pivot H Hmax) as Hp. destruct (packet_at tcfg out u max_count t) as [n1 o1] eqn:Ep. destruct (Z.eqb_spec n1 0) as [E0|N0]; [intros [= <- <- <-]; by exists u|].
  intros [= <- <- <-]. destruct Hp as [[?|(ms & Et & Hpo & Hne & [k Hk] & _ & _ & En & _)] _]; [done|]. set (c := load_be16 (drop 18 o1)). assert (Hc : c = Z.of_nat (length ms)).
  { unfold c. destruct Hpo as ((_ & Hsl) & Hq & _ & _ & Hcnt & Hcm & _). unfold kMaxMessagesPerPacket in Hcm. cbn [data_packet pv_count] in *. rewrite <- (take_drop (Z.to_nat n1) o1), Et. unfold datagram_of, data_packet. cbn [pv_kind pv_session pv_sequence pv_count pv_blocks]. rewrite <- app_assoc.
    destruct (header_fields (tx_session t) u (Z.of_nat (length ms)) (blocks ms ++ drop (Z.to_nat n1) o1) Hsl Hq ltac:(lia)) as (_ & _ & Hcc & _). exact Hcc. }
  exists (u64 (u + c)). split; [done|]. pose proof (tk_count _ _ _ _ H) as Htc. assert (Hlen : Z.of_nat (length ms) <= tx_count t + 1 - u). { apply (f_equal length) in Hk. rewrite length_drop, length_app in Hk. lia. }
  unfold u64. rewrite Z.mod_small by lia. split; [lia|]. intros _. by exists u.
Qed.
Lemma tx_reach_ok pub t : tx_reach pub t -> exists pivot, tx_ok tcfg t pub pivot /\ 1 <= tx_next_unsent t <= tx_count t + 1.
Proof.
  induction 1 as [s Hs|pub t msg r t' _ (pivot & H & Hu) Hm Hc E|pub t out mc n out' t' _ (pivot & H & Hu) Hmc E].
  - exists 1. split; [|cbn; lia]. split; cbn; try done; try lia; first [by apply make_session_ok | split; intros; lia | unfold len; rewrite length_replicate; lia].
  - destruct (publish_ok tcfg Hbytes Hmsgs t pub pivot msg H Hm Hc) as (r1 & t1 & p1 & E1 & Hp & _). rewrite E in E1. injection E1 as <- <-. pose proof (tk_count _ _ _ _ H). destruct Hp as [(-> & -> & Hp)|(-> & Ec & Hp & En)]; [by exists p1|]. replace (tx_count t + 1 =? 0) with false by lia. exists p1. split; [done|]. lia.
  - destruct (next_packet_ok out mc t pub pivot n out' t' H Hu Hmc E) as (u & -> & Hu' & _). exists pivot. split; [by destruct H; split|]. cbn. lia.
Qed.
Lemma numbered_stream pub seq ms : 1 <= seq -> seq + Z.of_nat (length ms) < 2 ^ 64 -> ms `prefix_of` drop (Z.to_nat (seq - 1)) pub -> Forall (fun x => stream_of pub (fst x) (snd x)) (numbered seq ms).
Proof.
  revert seq. induction ms as [|m ms IH]; intros seq Hs Hb [k Hk]; cbn [numbered]; [constructor|]. cbn [length] in Hb. assert (Hm : pub !! Z.to_nat (seq - 1) = Some m) by (pose proof (lookup_drop pub (Z.to_nat (seq - 1)) 0) as E; rewrite Hk in E; cbn in E; rewrite Nat.add_0_r in E; done).
  constructor; [done|]. unfold u64. rewrite Z.mod_small by lia. apply IH; [lia | lia|]. exists k. rewrite (drop_S _ m _ Hm) in Hk. injection Hk as Hk. rewrite <- Hk. f_equal. lia.
Qed.
Lemma emits_packet pub t d : tx_reach pub t -> emits t d -> exists p ms, d = datagram_of p /\ packet_ok p ms /\ pv_session p = tx_session t /\ 1 <= pv_sequence p /\ pv_sequence p + pv_count p <= tx_count t + 1 /\ ms `prefix_of` drop (Z.to_nat (pv_sequence p - 1)) pub.
Proof.
  intros (pivot & H & Hu)%tx_reach_ok He. pose proof (tk_first _ _ _ _ H) as Hf. pose proof (tk_count _ _ _ _ H) as Hcn. pose proof (tk_session _ _ _ _ H) as Hss. pose proof (tk_max _ _ _ _ H) as Hmx.
  assert (Hpk : forall out seq mc n out', 0 <= mc < 65536 -> packet_at tcfg out seq mc t = (n, out') -> n <> 0 -> exists p ms, take (Z.to_nat n) out' = datagram_of p /\ packet_ok p ms /\ pv_session p = tx_session t /\ 1 <= pv_sequence p /\ pv_sequence p + pv_count p <= tx_count t + 1 /\ ms `prefix_of` drop (Z.to_nat (pv_sequence p - 1)) pub).
  { intros out seq mc n out' Hmc E N0. pose proof (packet_at_ok tcfg out seq mc t pub pivot H Hmc) as Hp. rewrite E in Hp. destruct Hp as [[?|(ms & Et & Hpo & _ & Hpre & _ & _ & _ & Hsq)] _]; [done|]. exists (data_packet t seq ms), ms. split; [done|]. split; [done|]. split; [done|]. split; [cbn; lia|]. split; [|done].
    cbn. destruct Hpre as [k Hk]. apply (f_equal length) in Hk. rewrite length_drop, length_app in Hk. lia. }
  assert (Hsp : forall c k out n out', (c = kHeartbeatCount /\ k = Heartbeat \/ c = kEndOfSessionCount /\ k = EndOfSession) -> (if len out <? kHeaderLength then (0, out) else (kHeaderLength, write_header 0 (tx_session t) (tx_next_unsent t) c out)) = (n, out') -> n <> 0 ->
    exists p ms, take (Z.to_nat n) out' = datagram_of p /\ packet_ok p ms /\ pv_session p = tx_session t /\ 1 <= pv_sequence p /\ pv_sequence p + pv_count p <= tx_count t + 1 /\ ms `prefix_of` drop (Z.to_nat (pv_sequence p - 1)) pub).
  { intros c k out n out' Hck E N0. destruct (Z.ltb_spec (len out) kHeaderLength) as [|Hl]; [injection E as <- <-; done|]. injection E as <- <-. exists (mkPacket (tx_session t) (tx_next_unsent t) 0 k []), []. destruct Hss as [Hs1 Hs2]. unfold kHeaderLength, len in Hl. rewrite header_put by (done || lia).
    split; [|split; [|split; [done|]; split; [cbn; lia|]; split; [cbn; lia | apply prefix_nil]]].
    - change (Z.to_nat kHeaderLength) with 20%nat. rewrite <- (header_length (tx_session t) (tx_next_unsent t) c Hs2), take_app_length. unfold datagram_of. cbn [pv_kind pv_session pv_sequence pv_blocks]. rewrite app_nil_r. by destruct Hck as [[-> ->]|[-> ->]].
    - split; [done|]. split; [cbn; lia|]. split; [constructor|]. split; [done|]. split; [done|]. split; [cbn; unfold kMaxMessagesPerPacket; lia|]. cbn. by destruct Hck as [[_ ->]|[_ ->]]. }
  destruct He as [out mc n out' t' Hmc E N0|req out n out' Hreq E N0|out n out' E N0|out n out' E N0].
  - destruct (next_packet_ok out mc t pub pivot n out' t' H Hu Hmc E) as (_ & _ & _ & Hx). destruct (Hx N0) as [seq Es]. by apply (Hpk out seq mc).
  - unfold answer_request in E. destruct (parse_request req) as [r|] eqn:Er; [|injection E as <- <-; done]. destruct (_ || _); [injection E as <- <-; done|]. apply (Hpk out (rq_sequence r) (rq_count r)); [|done | done]. unfold parse_request in Er. destruct (negb _); [done|]. injection Er as <-. cbn. pose proof (load_be16_range (drop 18 req)). lia.
  - apply (Hsp kHeartbeatCount Heartbeat out n out'); [by left | exact E | done].
  - apply (Hsp kEndOfSessionCount EndOfSession out n out'); [by right | exact E | done].
Qed.
(** Whatever it sends is part of the stream, also of any longer one. *)
Lemma emits_good pub pub' t d : tx_reach pub t -> pub `prefix_of` pub' -> emits t d -> datagram_good (stream_of pub') d /\ exists p, parse_packet d = Some p /\ pv_session p = tx_session t.
Proof.
  intros Ht Hpre He. destruct (emits_packet pub t d Ht He) as (p & ms & -> & Hp & Hs & H1 & H2 & Hm). pose proof (parse_datagram p ms Hp) as Ep. apply tx_reach_ok in Ht as (pivot & H & _). pose proof (tk_max _ _ _ _ H). split; [|by exists p]. split.
  - destruct Hp as (Hps & _ & Hms & Hb & _). unfold datagram_of, header. rewrite !Forall_app. split; [split; [apply Hps | auto using store_be64_ok, store_be16_ok]|]. rewrite Hb. by apply blocks_ok.
  - intros p' E. rewrite Ep in E. apply (inj Some) in E as <-. rewrite (packet_messages_ok p ms Hp). pose proof Hp as (_ & _ & _ & _ & Hc & _). split; [lia|]. eapply Forall_impl; [apply (numbered_stream pub); [done | lia | done]|]. intros x. by apply stream_mono.
Qed.
(** When the documentation has [publish] answer 0: a message longer than the format or the history allows, and, unless the
    oldest messages are overwritten, a history that is full by number or by bytes. *)
Definition total (pub : list (list Z)) : Z := foldr (fun m n => len m + n) 0 pub.
Definition refuses (pub : list (list Z)) (msg : list Z) : bool :=
  (kMaxMessageLength <? len msg) || (history_bytes tcfg <? len msg) || (history_messages tcfg =? 0) ||
  negb (overwrite_oldest tcfg) && ((history_messages tcfg <=? Z.of_nat (length pub)) || (history_bytes tcfg <? total pub + len msg)).
Lemma total_snoc pub msg : total (pub ++ [msg]) = total pub + len msg.
Proof. unfold total. induction pub as [|m pub IH]; cbn; [lia | rewrite IH; lia]. Qed.
Lemma publish_plain pub t pivot msg : tx_ok tcfg t pub pivot -> overwrite_oldest tcfg = false -> tx_first t = 1 -> tx_head t = total pub ->
  publish tcfg msg t = if refuses pub msg then Some (0, t) else Some (tx_count (store tcfg msg t), store tcfg msg t).
Proof.
  intros H Eo Ef Eh. unfold publish, refuses. rewrite Eo. cbn [negb andb]. destruct ((kMaxMessageLength <? len msg) || (history_bytes tcfg <? len msg) || (history_messages tcfg =? 0)); [done|]. cbn [orb].
  rewrite (held_eq tcfg t pub pivot H), Ef, (tk_count _ _ _ _ H). pose proof (tk_head _ _ _ _ H) as Hh. assert (Eu : u64 (history_bytes tcfg - tx_head t) = history_bytes tcfg - tx_head t) by (unfold u64; apply Z.mod_small; lia). rewrite Eu, Eh.
  replace (Z.of_nat (length pub) + 1 - 1) with (Z.of_nat (length pub)) by lia. replace (history_bytes tcfg - total pub <? len msg) with (history_bytes tcfg <? total pub + len msg) by lia. done.
Qed.
(** Without overwriting nothing is dropped, and the bytes in use are those of the messages. *)
Lemma plain_reach pub t : tx_reach pub t -> overwrite_oldest tcfg = false -> tx_first t = 1 /\ tx_head t = total pub.
Proof.
  intros Hr Eo. induction Hr as [s Hs|pub t msg r t' Hr IH Hm Hc E|pub t out mc n out' t' Hr IH Hmc E]; [done | |].
  - destruct (IH) as [Ef Eh]. destruct (tx_reach_ok pub t Hr) as (pivot & H & _). rewrite (publish_plain pub t pivot msg H Eo Ef Eh) in E. destruct (refuses pub msg) eqn:Er; [injection E as <- <-; done|]. apply (inj Some), pair_eq in E as [<- <-].
    unfold refuses in Er. rewrite Eo in Er. cbn [negb andb] in Er. pose proof (tk_head _ _ _ _ H). pose proof (len_nonneg msg). assert (Ec : tx_count (store tcfg msg t) = u64 (tx_count t + 1)) by (unfold store; by destruct (negb _)). rewrite Ec. pose proof (tk_count _ _ _ _ H).
    replace (u64 (tx_count t + 1) =? 0) with false by (unfold u64; rewrite Z.mod_small; lia). rewrite total_snoc, <- Eh. assert (Eh2 : tx_head (store tcfg msg t) = u64 (tx_head t + len msg)) by (unfold store; by destruct (negb _)). rewrite Eh2. unfold u64. rewrite Z.mod_small by lia.
    split; [|done]. unfold store. by destruct (negb _).
  - destruct IH as [Ef Eh]. destruct (tx_reach_ok pub t Hr) as (pivot & H & Hu). destruct (next_packet_ok out mc t pub pivot n out' t' H Hu Hmc E) as (u & -> & _). done.
Qed.
(** C21. The history is exact: [publish] ends; it answers 0 and changes nothing exactly where its documentation says, for a
    message longer than the format or the whole history and, in the mode that does not overwrite, when the messages
    published so far fill the history by number or by bytes; otherwise it answers the next number.  Without overwriting
    nothing published is ever dropped.  And every datagram the transmitter sends, new, repeated on request or empty, parses
    into messages as they were published under their numbers, however often the byte ring has wrapped. *)
Theorem transmitter_history pub t msg : tx_reach pub t -> bytes_ok msg -> tx_count t + 1 < 2 ^ 62 ->
  (exists r t', publish tcfg msg t = Some (r, t') /\ if refuses pub msg then r = 0 /\ t' = t else r = Z.of_nat (length pub) + 1) /\
  (overwrite_oldest tcfg = false -> tx_first t = 1) /\
  forall d, emits t d -> exists p, parse_packet d = Some p /\ pv_session p = tx_session t /\ Forall (fun x => stream_of pub (fst x) (snd x)) (packet_messages p).
Proof.
  intros Ht Hm Hc. pose proof (tx_reach_ok pub t Ht) as (pivot & H & Hu). split; [|split].
  - destruct (refuses pub msg) eqn:Er.
    + exists 0, t. split; [|done]. destruct (overwrite_oldest tcfg) eqn:Eo.
      * unfold refuses in Er. rewrite Eo in Er. cbn [negb andb] in Er. rewrite orb_false_r in Er. unfold publish. by rewrite Er.
      * destruct (plain_reach pub t Ht Eo) as [Ef Eh]. by rewrite (publish_plain pub t pivot msg H Eo Ef Eh), Er.
    + assert (Hlen : len msg <= kMaxMessageLength /\ len msg <= history_bytes tcfg /\ 0 < history_messages tcfg) by (unfold refuses in Er; lia).
      destruct (publish_ok tcfg Hbytes Hmsgs t pub pivot msg H (conj Hm (proj1 Hlen)) Hc) as (r & t' & p' & E & Hp & Hr). exists r, t'. split; [done|]. rewrite <- (tk_count _ _ _ _ H).
      destruct Hp as [(-> & -> & _)|(-> & _)]; [|done]. exfalso. destruct (overwrite_oldest tcfg) eqn:Eo; [by destruct (Hr eq_refl (proj1 (proj2 Hlen)) (proj2 (proj2 Hlen)))|]. destruct (plain_reach pub t Ht Eo) as [Ef Eh]. rewrite (publish_plain pub t pivot msg H Eo Ef Eh), Er in E.
      apply (inj Some), pair_eq in E as [E _]. assert (Ec : tx_count (store tcfg msg t) = u64 (tx_count t + 1)) by (unfold store; by destruct (negb _)). rewrite Ec in E. unfold u64 in E. pose proof (tk_count _ _ _ _ H). rewrite Z.mod_small in E; lia.
  - intros Eo. by apply (plain_reach pub).
  - intros d He. destruct (emits_good pub pub t d Ht ltac:(done) He) as [[_ Hg] (p & Ep & Es)]. exists p. destruct (Hg p Ep) as [_ Hf]. auto.
Qed.
End sender.

(** ** The whole system *)

Section system.
Context {Meta : Type} `{!Inhabited Meta}.
Context (rcfg : ReceiverConfig) (tcfg : TransmitterConfig).
Context (Hbytes : 0 <= history_bytes tcfg < 2 ^ 62) (Hmsgs : 0 <= history_messages tcfg < 2 ^ 62).
Context (Hsession : session_ok (c_session rcfg)) (Hnext : 0 <= c_next_sequence rcfg < 2 ^ 64) (Hreorder : 0 <= c_reorder_packets rcfg <= kNone) (Hpacket : 0 <= c_max_packet_bytes rcfg < 2 ^ 32).
Abbreviation Receiver := (Receiver Meta).
Implicit Type st : Receiver.

(** The messages published, the transmitter, the datagrams it ever sent and the receiver.  The network delivers any of them,
    any number of times, or none. *)
Inductive system : list (list Z) -> Transmitter -> list (list Z) -> Receiver -> Prop :=
| sys_new s : bytes_ok s -> system [] (new_transmitter tcfg s) [] (new_receiver rcfg)
| sys_publish pub t net st msg r t' : system pub t net st -> message_ok msg -> tx_count t + 1 < 2 ^ 62 -> publish tcfg msg t = Some (r, t') -> system (if r =? 0 then pub else pub ++ [msg]) t' net st
| sys_next pub t net st out max_count n out' t' : system pub t net st -> 0 <= max_count < 65536 -> next_packet tcfg out max_count t = (n, out', t') -> system pub t' (if n =? 0 then net else take (Z.to_nat n) out' :: net) st
| sys_send pub t net st d : system pub t net st -> emits tcfg t d -> system pub t (d :: net) st
| sys_receive pub t net st line d now meta st' : system pub t net st -> d ∈ net -> on_packet rcfg line d now meta st = Some st' -> system pub t net st'
| sys_timer pub t net st now st' : system pub t net st -> on_timer rcfg now st = Some st' -> system pub t net st'.

Lemma good_mono (c c' : Z -> list Z -> Prop) d : (forall s m, c s m -> c' s m) -> datagram_good c d -> datagram_good c' d.
Proof. intros Hc [H1 H2]. split; [done|]. intros p Hp. destruct (H2 p Hp) as [H3 H4]. split; [done|]. eapply Forall_impl; [exact H4|]. intros x. apply Hc. Qed.
Lemma reach_mono (c c' : Z -> list Z -> Prop) s k st : (forall s m, c s m -> c' s m) -> reach rcfg c s k st -> reach rcfg c' s k st.
Proof.
  intros Hc. induction 1; [apply reach_new | eapply reach_packet; eauto using good_mono | by eapply reach_timer | by eapply reach_reset].
Qed.
Lemma system_ok pub t net st : c_follow_session rcfg = false -> system pub t net st -> tx_reach tcfg pub t /\ Forall (datagram_good (stream_of pub)) net /\ reach rcfg (stream_of pub) (c_next_sequence rcfg) 0 st.
Proof.
  intros Hfol. induction 1 as [s Hs|pub t net st msg r t' _ (Ht & Hnt & Hr) Hm Hc E|pub t net st out mc n out' t' _ (Ht & Hnt & Hr) Hmc E|pub t net st d _ (Ht & Hnt & Hr) He|pub t net st line d now meta st' _ (Ht & Hnt & Hr) Hin E|pub t net st now st' _ (Ht & Hnt & Hr) E].
  - split; [by constructor|]. split; [constructor | apply reach_new].
  - split; [by eapply tx_publish|]. assert (Hpre : pub `prefix_of` (if r =? 0 then pub else pub ++ [msg])) by (destruct (r =? 0); [done | by apply prefix_app_r]). split; [eapply Forall_impl; [exact Hnt|]; intros d; apply good_mono | eapply reach_mono, Hr]; intros s m; by apply stream_mono.
  - split; [by eapply tx_next|]. split; [|done]. destruct (Z.eqb_spec n 0); [done|]. constructor; [|done]. apply (emits_good tcfg Hbytes Hmsgs pub pub t); [done | done | by eapply em_next].
  - split; [done|]. split; [|done]. constructor; [|done]. by apply (emits_good tcfg Hbytes Hmsgs pub pub t).
  - split; [done|]. split; [done|]. rewrite Forall_forall in Hnt. specialize (Hnt d Hin). pose proof (reach_packet rcfg _ _ _ st line d now meta st' Hr Hnt E) as Hr'. assert (Erst : restarts rcfg st d = false) by (unfold restarts; destruct (parse_packet d); [by rewrite Hfol, andb_false_r | done]). by rewrite Erst in Hr'.
  - split; [done|]. split; [done|]. by eapply reach_timer.
Qed.

Definition delivered (evs : list (Event Meta)) : list (list Z) := omap (fun e => match e with OnMessage _ m _ => Some m | _ => None end) evs.
Lemma delivered_slice pub evs n m : 1 <= n -> advance n evs = Some m -> (forall from c, OnGapUnrecoverable from c ∉ evs) -> (forall seq x meta, OnMessage seq x meta ∈ evs -> stream_of pub seq x) ->
  delivered evs = take (Z.to_nat (m - n)) (drop (Z.to_nat (n - 1)) pub) /\ (m = n \/ m - 1 <= Z.of_nat (length pub)).
Proof.
  revert n. induction evs as [|e evs IH]; intros n Hn Ha Hg Hc; cbn in Ha; [injection Ha as ->; rewrite Z.sub_diag; split; [done | by left]|].
  assert (Hg' : forall from c, OnGapUnrecoverable from c ∉ evs) by (intros from c Hin; by apply (Hg from c), list_elem_of_further). assert (Hc' : forall seq x meta, OnMessage seq x meta ∈ evs -> stream_of pub seq x) by (intros seq x meta Hin; by eapply Hc, list_elem_of_further).
  destruct e as [seq x meta|bs| |from c]; cbn [delivered omap list_omap].
  - destruct (Z.eqb_spec seq n) as [->|]; [|done]. destruct (IH (n + 1) ltac:(lia) Ha Hg' Hc') as [E1 E2]. pose proof Ha as Hle%advance_le. destruct (Hc n x meta (list_elem_of_here _ _)) as [_ Hx]. pose proof (lookup_lt_Some _ _ _ Hx).
    rewrite (drop_S _ x (Z.to_nat (n - 1)) Hx). replace (Z.to_nat (m - n)) with (S (Z.to_nat (m - (n + 1)))) by lia. cbn [take]. replace (S (Z.to_nat (n - 1))) with (Z.to_nat (n + 1 - 1)) by lia. split; [f_equal; exact E1|]. right. destruct E2; lia.
  - by apply IH.
  - by apply IH.
  - exfalso. apply (Hg from c), list_elem_of_here.
Qed.
(** C18. Exactly once and in order: with requests that are repeated until they are answered, whatever the network does, the
    messages the handler has got are the first ones published, each once, in the order they were published. *)
Theorem exactly_once_in_order pub t net st : c_next_sequence rcfg = 1 -> c_follow_session rcfg = false -> c_can_request rcfg = true -> c_max_request_attempts rcfg = 0 -> system pub t net st ->
  delivered (h_ st) = take (Z.to_nat (next_ st - 1)) pub /\ 1 <= next_ st <= Z.of_nat (length pub) + 1.
Proof.
  intros E1 Hfol Hcan Hatt (_ & _ & Hr)%system_ok; [|done]. rewrite E1 in Hr. destruct (rx_reach_ok rcfg _ Hsession Hnext Hreorder Hpacket _ _ _ Hr) as (_ & _ & _ & Hf & [(? & _)|(_ & n & Hn & _ & Ha)]); [done|]. rewrite (Hn ltac:(lia)), drop_0 in Ha. rewrite Forall_forall in Hf.
  destruct (delivered_slice pub (h_ st) 1 (next_ st) ltac:(lia) Ha) as [Ed Hl].
  - intros from c Hin. destruct (Hf _ Hin) as [Hx|Hx]; congruence.
  - intros seq x meta Hin. exact (Hf _ Hin).
  - pose proof Ha as Hle%advance_le. split; [exact Ed|]. destruct Hl; lia.
Qed.
(** C20. A request is answered: when a receiver that is in the transmitter's session asks for its first hole, with a positive
    limit on the messages of a request, and the transmitter still holds the next message and that message fits a datagram
    and the output buffer (22 bytes and its length), then the answer is not empty and takes the receiver on. *)
Theorem request_answered pub t net st out now line now' meta : c_follow_session rcfg = false -> system pub t net st -> have_session_ st = true -> session_ st = tx_session t -> next_ st < highest_ st -> tx_first t <= next_ st <= tx_count t -> 0 < c_max_request_count rcfg < 65536 ->
  (forall m, stream_of pub (next_ st) m -> 22 + len m <= Z.min (len out) (max_datagram tcfg)) ->
  exists bs n out' st', h_ (request rcfg now st) = h_ st ++ [SendRequest bs] /\ answer_request tcfg bs out t = (n, out') /\ n <> 0 /\ on_packet rcfg line (take (Z.to_nat n) out') now' meta (request rcfg now st) = Some st' /\ next_ st < next_ st'.
Proof.
  intros Hfol Hsys Hhs Hss Hlt Hheld Hmax Hroom. destruct (system_ok pub t net st Hfol Hsys) as (Ht & _ & Hr). pose proof (rx_reach_ok rcfg _ Hsession Hnext Hreorder Hpacket _ _ _ Hr) as (HI & Hz & _). destruct (request_ok_told rcfg _ now st HI ltac:(lia) Hlt) as (bs & Eh & c & -> & Hc & Hpos & _).
  destruct (tx_reach_ok tcfg Hbytes Hmsgs pub t Ht) as (pivot & H & _). pose proof (tk_first _ _ _ _ H) as Hf. pose proof (tk_session _ _ _ _ H) as Hso. pose proof (ri_next _ _ HI) as Hn. specialize (Hpos Hlt ltac:(lia)). rewrite Hss in *.
  destruct (header_fields (tx_session t) (next_ st) c [] (proj2 Hso) Hn ltac:(lia)) as (F1 & F2 & F3 & _ & F5). rewrite app_nil_r in F1, F2, F3, F5. assert (Epr : parse_request (header (tx_session t) (next_ st) c) = Some (mkRequest (tx_session t) (next_ st) c)) by (unfold parse_request; rewrite F1, F2, F3, F5; done).
  assert (Ea : answer_request tcfg (header (tx_session t) (next_ st) c) out t = packet_at tcfg out (next_ st) c t) by (unfold answer_request; rewrite Epr; cbn [rq_session rq_count rq_sequence]; rewrite bool_decide_true by done; by replace (c =? 0) with false by lia).
  destruct (tx_len tcfg t pub pivot (next_ st) H ltac:(lia)) as (m & Hm & _). specialize (Hroom m ltac:(split; [lia | done])). pose proof (packet_at_ok tcfg out (next_ st) c t pub pivot H ltac:(lia)) as Hp. destruct (packet_at tcfg out (next_ st) c t) as [n out'] eqn:Ep. destruct Hp as [Hp Hne].
  specialize (Hne m ltac:(lia) Hpos Hm ltac:(lia) ltac:(lia)). destruct Hp as [?|(ms & Et & Hpo & Hmn & _)]; [done|]. assert (Hem : emits tcfg t (take (Z.to_nat n) out')) by (eapply (em_answer tcfg t (header (tx_session t) (next_ st) c)); [unfold header; rewrite !Forall_app; split; [apply Hso | auto using store_be64_ok, store_be16_ok] | by rewrite Ea | done]).
  destruct (emits_good tcfg Hbytes Hmsgs pub pub t _ Ht ltac:(done) Hem) as [Hg _]. destruct (request_moved rcfg (stream_of pub) now st) as [_ HI']. specialize (HI' HI). destruct (on_packet_ok rcfg _ line _ now' meta (request rcfg now st) HI' Hz Hg) as (st' & Eo & _ & _ & _ & Hadv).
  exists (header (tx_session t) (next_ st) c), n, out', st'. split; [done|]. split; [by rewrite Ea|]. split; [done|]. split; [done|]. specialize (Hadv (data_packet t (next_ st) ms)). rewrite Et, (parse_datagram _ _ Hpo) in Hadv. specialize (Hadv eq_refl eq_refl Hhs (eq_sym Hss) ltac:(change (next_ st <> 0); lia) ltac:(change (next_ st <= next_ st); lia)).
  pose proof (tk_max _ _ _ _ H). unfold next_sequence, u64 in Hadv. cbn [data_packet pv_sequence pv_count] in Hadv. destruct Hpo as (_ & _ & _ & _ & _ & Hcm & _). cbn [data_packet pv_count] in Hcm. unfold kMaxMessagesPerPacket in Hcm. rewrite Z.mod_small in Hadv by lia. destruct ms; [done|]. cbn [length] in Hadv. lia.
Qed.
End system.

(** ** Three messages, the second lost *)

Module ConcreteStream.
Import ConcreteReceiver.
Definition tcfg : TransmitterConfig := mkTxConfig 10 4 200 true.
Lemma tcfg_ok : 0 <= history_bytes tcfg < 2 ^ 62 /\ 0 <= history_messages tcfg < 2 ^ 62.
Proof. cbn. lia. Qed.
Abbreviation out := (replicate 100 0).
Definition t0 : Transmitter := new_transmitter tcfg [].
Definition pub3 : list (list Z) := [text 1; text 2; text 3].
Definition published3 : option Transmitter := '(_, t) ← publish tcfg (text 1) t0; '(_, t) ← publish tcfg (text 2) t; '(_, t) ← publish tcfg (text 3) t; Some t.
Definition t3 : Transmitter := default t0 published3.
Abbreviation sys := (system (Meta := unit) rcfg tcfg).
Lemma text_ok i : 0 <= i < 100 -> message_ok (text i).
Proof. intros Hi. split; [apply Forall_singleton; unfold is_byte; lia | vm_compute; discriminate]. Qed.
Lemma t3_sys : sys pub3 t3 [] (new_receiver rcfg).
Proof.
  destruct (publish tcfg (text 1) t0) as [[r1 t1]|] eqn:E1; [|vm_compute in E1; discriminate E1]. destruct (publish tcfg (text 2) t1) as [[r2 t2]|] eqn:E2; [|vm_compute in E1; injection E1 as <- <-; vm_compute in E2; discriminate E2].
  destruct (publish tcfg (text 3) t2) as [[r3 t3']|] eqn:E3; [|vm_compute in E1; injection E1 as <- <-; vm_compute in E2; injection E2 as <- <-; vm_compute in E3; discriminate E3].
  assert (t3 = t3') as -> by (unfold t3, published3; rewrite E1; cbn [mbind option_bind]; rewrite E2; cbn [mbind option_bind]; rewrite E3; reflexivity).
  assert (H1 : r1 = 1 /\ tx_count t1 = 1) by (vm_compute in E1; injection E1 as <- <-; split; reflexivity). assert (H2 : r2 = 2 /\ tx_count t2 = 2) by (vm_compute in E1; injection E1 as <- <-; vm_compute in E2; injection E2 as <- <-; split; reflexivity).
  assert (r3 = 3) as -> by (vm_compute in E1; injection E1 as <- <-; vm_compute in E2; injection E2 as <- <-; vm_compute in E3; injection E3 as <- <-; reflexivity). destruct H1 as [-> C1], H2 as [-> C2].
  eapply (sys_publish rcfg tcfg [text 1; text 2] t2 [] _ (text 3) 3 t3'); [|apply text_ok; lia | rewrite C2; lia | exact E3]. eapply (sys_publish rcfg tcfg [text 1] t1 [] _ (text 2) 2 t2); [|apply text_ok; lia | rewrite C1; lia | exact E2].
  eapply (sys_publish rcfg tcfg [] t0 [] _ (text 1) 1 t1); [apply sys_new; constructor | apply text_ok; lia | vm_compute; reflexivity | exact E1].
Qed.
Definition net3 : list (list Z) := [dgram 3; dgram 2; dgram 1].
Lemma sends i : i ∈ [1; 2; 3] -> emits tcfg t3 (dgram i).
Proof.
  intros Hi. assert (E : (fun r => (fst r, take 23 (snd r))) (answer_request tcfg (header kBlankSession i 1) out t3) = (23, dgram i)) by (rewrite !elem_of_cons, elem_of_nil in Hi; destruct Hi as [->|[->|[->|[]]]]; vm_compute; reflexivity).
  destruct (answer_request tcfg (header kBlankSession i 1) out t3) as [n out'] eqn:Ea. cbn [fst snd] in E. injection E as -> <-. apply (em_answer tcfg t3 (header kBlankSession i 1) out 23 out'); [|exact Ea | discriminate].
  unfold header. rewrite !Forall_app. split; [apply ConcretePackets.blank_ok | auto using store_be64_ok, store_be16_ok].
Qed.
Lemma net_sys : sys pub3 t3 net3 (new_receiver rcfg).
Proof. do 3 (apply sys_send; [|apply sends; rewrite !elem_of_cons; auto]). exact t3_sys. Qed.
Lemma r3_sys : sys pub3 t3 net3 r3.
Proof.
  apply (sys_receive rcfg tcfg pub3 t3 net3 r1 1 (dgram 3) 200 tt r3); [|unfold net3; rewrite !elem_of_cons; auto | vm_compute; reflexivity].
  apply (sys_receive rcfg tcfg pub3 t3 net3 (new_receiver rcfg) 0 (dgram 1) 100 tt r1); [exact net_sys | unfold net3; rewrite !elem_of_cons; auto | vm_compute; reflexivity].
Qed.
Lemma r2_sys : sys pub3 t3 net3 r2.
Proof.
  apply (sys_receive rcfg tcfg pub3 t3 net3 r4 0 (dgram 2) 3000100 tt r2); [|unfold net3; rewrite !elem_of_cons; auto | vm_compute; reflexivity]. apply (sys_timer rcfg tcfg pub3 t3 net3 r3 3000000 r4 r3_sys). vm_compute. reflexivity.
Qed.
Lemma exactly_once_in_order_witness : delivered (h_ r2) = pub3.
Proof.
  destruct rcfg_ok as (A & B & C & D). destruct tcfg_ok as [F G]. destruct (exactly_once_in_order rcfg tcfg F G A B C D pub3 t3 net3 r2 eq_refl eq_refl eq_refl eq_refl r2_sys) as [E _]. rewrite E. assert (En : next_ r2 = 4) by (vm_compute; reflexivity). rewrite En. reflexivity.
Defined.
Lemma request_answered_witness : exists bs n out' st', h_ (request rcfg 300 r3) = h_ r3 ++ [SendRequest bs] /\ answer_request tcfg bs out t3 = (n, out') /\ n <> 0 /\ on_packet rcfg 0 (take (Z.to_nat n) out') 400 tt (request rcfg 300 r3) = Some st' /\ next_ r3 < next_ st'.
Proof.
  destruct rcfg_ok as (A & B & C & D). destruct tcfg_ok as [F G]. assert (En : next_ r3 = 2) by (vm_compute; reflexivity). assert (Et : tx_first t3 = 1 /\ tx_count t3 = 3) by (vm_compute; split; reflexivity). destruct Et as [Et1 Et2].
  apply (request_answered rcfg tcfg F G A B C D pub3 t3 net3 r3 out 300 0 400 tt eq_refl r3_sys); [vm_compute; reflexivity | vm_compute; reflexivity | vm_compute; reflexivity | rewrite En, Et1, Et2; lia | cbn; lia|].
  intros m [_ Hm]. rewrite En in Hm. injection Hm as <-. vm_compute. discriminate.
Defined.
Lemma t3_reach : tx_reach tcfg pub3 t3.
Proof. destruct tcfg_ok as [F G]. exact (proj1 (system_ok rcfg tcfg F G pub3 t3 [] (new_receiver rcfg) eq_refl t3_sys)). Qed.
Lemma transmitter_history_witness : (exists r t', publish tcfg (text 4) t3 = Some (r, t') /\ r <> 0) /\ exists p, parse_packet (dgram 2) = Some p /\ Forall (fun x => stream_of pub3 (fst x) (snd x)) (packet_messages p).
Proof.
  destruct tcfg_ok as [F G]. assert (Et : tx_count t3 = 3) by (vm_compute; reflexivity). destruct (transmitter_history tcfg F G pub3 t3 (text 4) t3_reach (proj1 (text_ok 4 ltac:(lia))) ltac:(rewrite Et; lia)) as [(r & t' & E & Hr) (_ & Hd)]. split.
  - exists r, t'. split; [exact E|]. assert (En : refuses tcfg pub3 (text 4) = false) by (vm_compute; reflexivity). rewrite En in Hr. rewrite Hr. vm_compute. discriminate.
  - destruct (Hd (dgram 2) (sends 2 ltac:(rewrite !elem_of_cons; auto))) as (p & Ep & _ & Hf). exists p. split; [exact Ep | exact Hf].
Defined.
End ConcreteStream.
