(* ===== verification/BalanceBook.v ===== *)
(** * BalanceBook: balances per venue and asset ([balance_book.hpp], [account_pool.hpp], [fees.hpp])

    A row per venue and asset holds the last report of the venue moved by what the engine's own orders and fills did since.
    The moves stamped after a report are kept in a ring of 1024 and moved again by a report that is older than they are.
    [room], which sizes in floating point, is not modelled. *)

From S2P Require Import Prelude Types FixedPoint Instruments RingBuffer.

(** An instrument with the asset names the table resolves. *)
Record NamedInstrument := mkNamed { ni_inst : Instrument; ni_base : list Z; ni_quote : list Z }.
Definition settlement_ccy (i : NamedInstrument) : list Z := if inverse (ni_inst i) then ni_base i else ni_quote i.
Definition upper (c : Z) : Z := if (97 <=? c) && (c <=? 122) then c - 32 else c.
Fixpoint same_currency (a b : list Z) : bool :=
  match a, b with
  | [], [] => true
  | x :: a, y :: b => (upper x =? upper y) && same_currency a b
  | _, _ => false
  end.
Inductive FeeAsset := FeeQuote | FeeBase | FeeOther.
#[export] Instance fee_asset_dec : EqDecision FeeAsset.
Proof. solve_decision. Defined.

(** ** Fee rates *)

Record FeeRates := mkFees { maker_cbps : Z; taker_cbps : Z }.
Inductive Liquidity := LiqUnknown | Maker | Taker.
Definition cbps (f : FeeRates) (l : Liquidity) : Z := match l with Taker => taker_cbps f | _ => maker_cbps f end.
Definition rate_fee (f : FeeRates) (n : Notional) (l : Liquidity) : Notional := i64 (i128 (Z.quot (i128 (n * cbps f l)) 1000000)).
Record FeeTable := mkFeeTable { ft_default : FeeRates; ft_per : gmap Z FeeRates }.
Definition set_instrument (id : InstrumentId) (s : FeeRates) (t : FeeTable) : FeeTable :=
  if kMaxInstruments <=? id then t else mkFeeTable (ft_default t) (<[id := s]> (ft_per t)).
(** The rates of an instrument with an override, else the default. *)
Definition schedule (t : FeeTable) (id : InstrumentId) : FeeRates :=
  if id <? kMaxInstruments then default (ft_default t) (ft_per t !! id) else ft_default t.

(** ** Account pools *)

Definition kVenues : Z := 8.
Definition kMaxMembers : Z := 8.
Record PoolPlan := mkPlan { primary_of : gmap Z VenueId; pp_active : bool }.
Definition primary_at (p : PoolPlan) (v : Z) : VenueId := default kInvalidVenue (primary_of p !! v).
(** The accounts of the pool, the primary first. *)
Definition pool_members (p : PoolPlan) (primary : VenueId) : list VenueId :=
  if negb (venue_valid primary) then []
  else primary :: take (Z.to_nat kMaxMembers - 1) (filter (fun v => primary_at p v = primary) (seqZ 0 kVenues)).
Definition pool_add (member primary : VenueId) (p : PoolPlan) : bool * PoolPlan :=
  if negb (venue_valid member) || negb (venue_valid primary) || (member =? primary) then (false, p)
  else if (kVenues <=? member) || (kVenues <=? primary) then (false, p)
  else if venue_valid (primary_at p member) || venue_valid (primary_at p primary) then (false, p)
  else if kMaxMembers <=? Z.of_nat (length (pool_members p primary)) then (false, p)
  else (true, mkPlan (<[member := primary]> (primary_of p)) true).
Definition pooled (p : PoolPlan) (primary : VenueId) : bool :=
  if negb (pp_active p) || (kVenues <=? primary) then false
  else venue_valid (primary_at p primary) || existsb (fun v => primary_at p v =? primary) (seqZ 0 kVenues).

(** ** The book *)

Definition kNoRow : Z := 65535.
Definition kMaxMoves : Z := 10.
Definition kUnreported : Z := i64_min.
Record Row := mkRow {
  r_venue : VenueId;
  r_asset : list Z;
  r_account : bool;
  r_reported : bool;
  r_free : Z;
  r_locked : Z;
  r_total : Z;
  r_equity : Z;
  r_maintenance : Z;
  r_withdrawable : Z;
  r_as_of : Timestamp;
  r_gen : Z;
  r_reserved : Z;
}.
#[export] Instance eta_row : Eta Row := fun r =>
  mkRow (r_venue r) (r_asset r) (r_account r) (r_reported r) (r_free r) (r_locked r) (r_total r) (r_equity r) (r_maintenance r) (r_withdrawable r) (r_as_of r) (r_gen r) (r_reserved r).
Definition new_row (venue : VenueId) (asset : list Z) (account : bool) : Row := mkRow venue asset account false 0 0 0 0 0 (-1) 0 0 0.
Definition transferable (r : Row) : Z := if r_withdrawable r <? 0 then r_free r else Z.min (r_free r) (r_withdrawable r).

Record Inst := mkInst {
  i_venue : VenueId;
  i_derivative : bool;
  i_taker_cbps : Z;
  i_im_raw : Z;
  i_base : Z;
  i_quote : Z;
  i_settle : Z;
  i_margin : Z;
  i_hold_buy : Z;
  i_hold_sell : Z;
  i_unacked_buy : Z;
  i_unacked_sell : Z;
  i_first_member : Z;
  i_n_members : Z;
}.
#[export] Instance eta_inst : Eta Inst := fun i =>
  mkInst (i_venue i) (i_derivative i) (i_taker_cbps i) (i_im_raw i) (i_base i) (i_quote i) (i_settle i) (i_margin i) (i_hold_buy i) (i_hold_sell i) (i_unacked_buy i) (i_unacked_sell i) (i_first_member i) (i_n_members i).
Definition no_inst : Inst := mkInst kInvalidVenue false 0 0 kNoRow kNoRow kNoRow kNoRow 0 0 0 0 kNoRow 0.
Definition side_hold (i : Inst) (s : Side) : Z := match s with Buy => i_hold_buy i | Sell => i_hold_sell i end.
Definition unacked (i : Inst) (s : Side) : Z := match s with Buy => i_unacked_buy i | Sell => i_unacked_sell i end.
Definition add_hold (s : Side) (d : Z) (i : Inst) : Inst := match s with Buy => i <| i_hold_buy ::= fun x => i64 (x + d) |> | Sell => i <| i_hold_sell ::= fun x => i64 (x + d) |> end.
Definition add_unacked (s : Side) (d : Z) (i : Inst) : Inst := match s with Buy => i <| i_unacked_buy ::= fun x => i64 (x + d) |> | Sell => i <| i_unacked_sell ::= fun x => i64 (x + d) |> end.
Definition larger_side (i : Inst) : Z := Z.max (i_hold_buy i) (i_hold_sell i).

Record Move := mkMove { m_venue_ts : Timestamp; m_free : Z; m_locked : Z; m_total : Z; m_row : Z }.
Definition no_move : Move := mkMove 0 0 0 0 kNoRow.
Record VenueState := mkVenue { account_row : Z; margin_default : Z; v_gen : Z; in_snapshot : bool; account_reported : bool }.
#[export] Instance eta_venue : Eta VenueState := fun v => mkVenue (account_row v) (margin_default v) (v_gen v) (in_snapshot v) (account_reported v).
Definition no_venue : VenueState := mkVenue kNoRow kNoRow 0 false false.
Record BalanceStats := mkBalStats { bs_reports : Z; bs_untracked : Z; bs_snapshots : Z; bs_moves_dropped : Z }.
#[export] Instance eta_bal_stats : Eta BalanceStats := fun s => mkBalStats (bs_reports s) (bs_untracked s) (bs_snapshots s) (bs_moves_dropped s).

Record BalanceBook := mkBook {
  rows_ : list Row;
  inst_ : gmap Z Inst;
  moves_ : Ring.Ring Move;
  members_ : list Inst;
  venues_ : gmap Z VenueState;
  bstats_ : BalanceStats;
  live_ : bool;
  check_ : bool;
}.
#[export] Instance eta_book : Eta BalanceBook := fun b => mkBook (rows_ b) (inst_ b) (moves_ b) (members_ b) (venues_ b) (bstats_ b) (live_ b) (check_ b).
Definition empty_book : BalanceBook := mkBook [] ∅ Ring.ring_empty [] ∅ (mkBalStats 0 0 0 0) false true.
Implicit Type b : BalanceBook.

Definition row_at b (r : Z) : Row := default (new_row kInvalidVenue [] false) (rows_ b !! Z.to_nat r).
Definition upd_row (r : Z) (f : Row -> Row) b : BalanceBook := b <| rows_ ::= alter f (Z.to_nat r) |>.
Definition inst_at b (id : Z) : Inst := default no_inst (inst_ b !! id).
Definition venue_at b (v : VenueId) : VenueState := default no_venue (venues_ b !! v).
Definition upd_venue (v : VenueId) (f : VenueState -> VenueState) b : BalanceBook := b <| venues_ ::= insert v (f (venue_at b v)) |>.

Fixpoint find_from (venue : VenueId) (asset : list Z) (rows : list Row) (i : Z) : Z :=
  match rows with
  | [] => kNoRow
  | r :: rows => if negb (r_account r) && (r_venue r =? venue) && same_currency (r_asset r) asset then i else find_from venue asset rows (i + 1)
  end.
Definition find b (venue : VenueId) (asset : list Z) : Z := find_from venue asset (rows_ b) 0.

(** ** Building *)

Record BalanceConfig := mkBalConfig { bc_check : bool; bc_initial_margin : gmap Z Z }.
Definition add_row (venue : VenueId) (asset : list Z) (account : bool) b : Z * BalanceBook :=
  (Z.of_nat (length (rows_ b)) mod 65536, b <| rows_ ::= fun l => l ++ [new_row venue (take 8 asset) account] |>).
Definition row_for (venue : VenueId) (asset : list Z) (account : bool) b : Z * BalanceBook :=
  match asset with
  | [] => (kNoRow, b)
  | _ => let r := find b venue asset in if negb (r =? kNoRow) then (r, b) else add_row venue asset account b
  end.
Definition place (i : NamedInstrument) (venue : VenueId) (fees : FeeTable) (cfg : BalanceConfig) (inst : Inst) b : Inst * BalanceBook :=
  let id := in_id (ni_inst i) in
  let im := default 0 (bc_initial_margin cfg !! id) in
  let inst := inst <| i_venue := venue |> <| i_derivative := is_derivative (ni_inst i) |> <| i_taker_cbps := Z.max (taker_cbps (schedule fees id)) 0 |>
                   <| i_im_raw := if 0 <? im then im else 0 |> in
  if negb (i_derivative inst) then
    let '(base, b) := row_for venue (ni_base i) false b in
    let '(quote, b) := row_for venue (ni_quote i) false b in
    (inst <| i_base := base |> <| i_quote := quote |>, b)
  else
    let '(settle, b) := row_for venue (settlement_ccy i) false b in
    let inst := inst <| i_settle := settle |> <| i_margin := settle |> in
    let b := if account_row (venue_at b venue) =? kNoRow then let '(r, b) := add_row venue [] true b in upd_venue venue (fun v => v <| account_row := r |>) b else b in
    let b := if margin_default (venue_at b venue) =? kNoRow then upd_venue venue (fun v => v <| margin_default := settle |>) b else b in
    (inst, b).
Definition place_member (i : NamedInstrument) (fees : FeeTable) (cfg : BalanceConfig) (venue : VenueId) b : BalanceBook :=
  let '(m, b) := place i venue fees cfg no_inst b in b <| members_ ::= fun l => l ++ [m] |>.
Definition build_one (fees : FeeTable) (cfg : BalanceConfig) (pools : option PoolPlan) b (i : NamedInstrument) : BalanceBook :=
  let id := in_id (ni_inst i) in
  if kMaxInstruments <=? id then b
  else
    let '(inst, b) := place i (in_venue (ni_inst i)) fees cfg (inst_at b id) b in
    match pools with
    | None => b <| inst_ ::= insert id inst |>
    | Some p =>
      if negb (pooled p (in_venue (ni_inst i))) then b <| inst_ ::= insert id inst |>
      else
        let ms := tail (pool_members p (in_venue (ni_inst i))) in
        let first := Z.of_nat (length (members_ b)) mod 65536 in
        let b := fold_left (fun b v => place_member i fees cfg v b) ms b in
        b <| inst_ ::= insert id (inst <| i_first_member := first |> <| i_n_members := (i_n_members inst + Z.of_nat (length ms)) mod 256 |>) |>
    end.
Definition build (insts : list NamedInstrument) (fees : FeeTable) (cfg : BalanceConfig) (pools : option PoolPlan) b : BalanceBook :=
  let b := b <| rows_ := [] |> <| moves_ := Ring.ring_empty |> <| inst_ := ∅ |> <| members_ := [] |> <| venues_ := ∅ |> <| check_ := bc_check cfg |> in
  fold_left (build_one fees cfg pools) insts b.
(** [fastmm-ctl limits check_balance=...] *)
Definition set_check (on : bool) b : BalanceBook := b <| check_ := on |>.
