(* ===== verification/BalanceOps.v ===== *)
(** * BalanceOps: the operations of the balance book ([balance_book.hpp])

    The reports of the venue, the holds of the orders, the fills and the transfers, and the pre-trade check.  A mutable
    [Inst&] of the source is a [SlotRef]: the instrument's own entry or a pool member's. *)

From S2P Require Import Prelude Types FixedPoint Instruments RingBuffer MapSum BalanceBook.
Implicit Type b : BalanceBook.

(** ** The state of an instrument on an account *)

Inductive SlotRef := OwnSlot (id : Z) | MemberSlot (k : Z).
Definition member_at b (k : Z) : Inst := default no_inst (members_ b !! Z.to_nat k).
Definition slot_get b (s : SlotRef) : Inst := match s with OwnSlot id => inst_at b id | MemberSlot k => member_at b k end.
Definition slot_upd (s : SlotRef) (f : Inst -> Inst) b : BalanceBook :=
  match s with
  | OwnSlot id => b <| inst_ ::= insert id (f (inst_at b id)) |>
  | MemberSlot k => b <| members_ ::= alter f (Z.to_nat k) |>
  end.
Fixpoint find_member b (account : VenueId) (k : Z) (n : nat) : option Z :=
  match n with
  | O => None
  | S n => if i_venue (member_at b k) =? account then Some k else find_member b account (k + 1) n
  end.
Definition slot b (id : InstrumentId) (account : VenueId) : SlotRef :=
  let i := inst_at b id in
  if (i_n_members i =? 0) || negb (venue_valid account) || (account =? i_venue i) then OwnSlot id
  else match find_member b account (i_first_member i) (Z.to_nat (i_n_members i)) with Some k => MemberSlot k | None => OwnSlot id end.
Definition row_of (i : Inst) (s : Side) : Z :=
  if i_derivative i then i_margin i else match s with Buy => i_quote i | Sell => i_base i end.
(** What the orders in flight hold of row [r] on top of a report. *)
Definition in_flight (i : Inst) (s : Side) (r : Z) : Z :=
  if negb (row_of i s =? r) then 0
  else if negb (i_derivative i) then unacked i s
  else i64 (larger_side i - Z.max (i64 (i_hold_buy i - i_unacked_buy i)) (i64 (i_hold_sell i - i_unacked_sell i))).
Definition inst_in_flight (i : Inst) (r : Z) : Z :=
  if i_derivative i then in_flight i Buy r else i64 (in_flight i Buy r + in_flight i Sell r).
(** Every instrument state on a venue, the instruments' own and the members'. *)
Definition on_venue (v : VenueId) (i : Inst) (x : Z) : Z := if i_venue i =? v then x else 0.
Definition extra_in_flight b (r : Z) : Z :=
  let v := r_venue (row_at b r) in
  i64 (msum (fun _ i => on_venue v i (inst_in_flight i r)) (inst_ b) +
       lsum (fun i => on_venue v i (inst_in_flight i r)) (members_ b)).
Definition add_in_flight (r : Z) b : BalanceBook :=
  let extra := extra_in_flight b r in
  upd_row r (fun row => row <| r_free ::= fun x => i64 (x - extra) |> <| r_locked ::= fun x => i64 (x + extra) |>) b.

(** ** Moves *)

Definition counted (row : Row) (ts : Timestamp) : bool := r_reported row && ts_valid ts && ts_valid (r_as_of row) && (ts <=? r_as_of row).
Definition note (r : Z) (ts : Timestamp) (free locked total : Z) b : BalanceBook :=
  if negb (ts_valid ts) || negb (r_reported (row_at b r)) then b
  else
    let b := if Ring.full kMaxMoves (moves_ b) then b <| bstats_ ::= fun s => s <| bs_moves_dropped ::= fun x => u64 (x + 1) |> |> else b in
    b <| moves_ ::= fun q => Ring.push kMaxMoves q (mkMove ts free locked total r) |>.
Definition apply_move (m : Move) (row : Row) : Row :=
  row <| r_free ::= fun x => i64 (x + m_free m) |> <| r_locked ::= fun x => i64 (x + m_locked m) |>
      <| r_total ::= fun x => i64 (x + m_total m) |> <| r_equity ::= fun x => i64 (x + m_total m) |>.
(** One turn of the loop of [rebase]: the oldest move leaves the front, is moved again or is done, and goes to the back. *)
Definition rebase_step (r : Z) b : BalanceBook :=
  match Ring.pop kMaxMoves (moves_ b) with
  | None => b
  | Some (x, q) =>
    let m := default no_move x in
    let b := b <| moves_ := q |> in
    let keep b := b <| moves_ ::= fun q => Ring.push kMaxMoves q m |> in
    if m_row m =? r then
      if negb (ts_valid (r_as_of (row_at b r))) || (m_venue_ts m <=? r_as_of (row_at b r)) then b
      else keep (upd_row r (apply_move m) b)
    else keep b
  end.
Definition rebase (r : Z) b : BalanceBook :=
  let b := add_in_flight r b in
  let b := upd_row r (fun row => row <| r_free ::= fun x => i64 (x - r_reserved row) |>) b in
  Nat.iter (Z.to_nat (Ring.size (moves_ b))) (rebase_step r) b.
Definition move_asset (r : Z) (d : Z) (ts : Timestamp) b : BalanceBook :=
  if (r =? kNoRow) || (d =? 0) then b
  else if counted (row_at b r) ts then b
  else note r ts d 0 d (upd_row r (fun row => row <| r_free ::= fun x => i64 (x + d) |> <| r_total ::= fun x => i64 (x + d) |> <| r_equity ::= fun x => i64 (x + d) |>) b).

(** ** Reports *)

Definition kSnapshot : Z := 1.
Definition kSnapshotEnd : Z := 2.
Definition kAccount : Z := 4.
Definition kWithdrawable : Z := 8.
Record BalanceMsg := mkBalMsg {
  bm_venue : VenueId;
  bm_exch_ts : Timestamp;
  bm_free : Z;
  bm_locked : Z;
  bm_total : Z;
  bm_equity : Z;
  bm_maintenance : Z;
  bm_asset : list Z;
  bm_flags : Z;
  bm_withdrawable : Z;
}.
Definition has_flag (m : BalanceMsg) (f : Z) : bool := negb (Z.land (bm_flags m) f =? 0).
Definition use_account (venue : VenueId) (r : Z) b : BalanceBook :=
  let f i := if (i_venue i =? venue) && i_derivative i then i <| i_margin := r |> else i in
  (upd_venue venue (fun v => v <| account_reported := true |>) b) <| inst_ ::= fmap f |> <| members_ ::= fmap f |>.
Definition zero_row (ts : Timestamp) (gen : Z) (row : Row) : Row :=
  row <| r_free := 0 |> <| r_locked := 0 |> <| r_total := 0 |> <| r_equity := 0 |> <| r_maintenance := 0 |>
      <| r_withdrawable ::= fun w => if 0 <? w then 0 else w |> <| r_as_of := ts |> <| r_reported := true |> <| r_gen := gen |>.
Definition end_row (venue : VenueId) (ts : Timestamp) b (r : Z) : BalanceBook :=
  let row := row_at b r in
  let gen := v_gen (venue_at b venue) in
  if negb (r_venue row =? venue) || (r_gen row =? gen) then b
  else if r_account row && negb (r_reported row) then b
  else rebase r (upd_row r (zero_row ts gen) b).
Definition end_snapshot (venue : VenueId) (ts : Timestamp) b : BalanceBook :=
  let b := upd_venue venue (fun v => v <| in_snapshot := false |>) b in
  let b := b <| bstats_ ::= fun s => s <| bs_snapshots ::= fun x => u64 (x + 1) |> |> in
  fold_left (end_row venue ts) (seqZ 0 (Z.of_nat (length (rows_ b)))) b.
Definition report_row (m : BalanceMsg) (gen : Z) (row : Row) : Row :=
  let row := row <| r_free := bm_free m |> <| r_locked := bm_locked m |> <| r_total := bm_total m |> <| r_equity := bm_equity m |>
                 <| r_maintenance := bm_maintenance m |> in
  let row := if has_flag m kWithdrawable then row <| r_withdrawable := bm_withdrawable m |> else row in
  row <| r_as_of := bm_exch_ts m |> <| r_reported := true |> <| r_gen := gen |>.
Definition reported_row (m : BalanceMsg) b : Z :=
  if has_flag m kAccount then account_row (venue_at b (bm_venue m))
  else match bm_asset m with [] => kNoRow | _ => find b (bm_venue m) (bm_asset m) end.
Definition start_snapshot (m : BalanceMsg) b : BalanceBook :=
  let v := bm_venue m in
  if (has_flag m kSnapshot || has_flag m kSnapshotEnd) && negb (in_snapshot (venue_at b v)) then
    upd_venue v (fun vs => vs <| in_snapshot := true |> <| v_gen ::= fun g => u32 (g + 1) |>) b
  else b.
(** The row a report names takes its amounts, or the report counts as untracked. *)
Definition apply_report (m : BalanceMsg) (r : Z) b : BalanceBook :=
  let v := bm_venue m in
  if negb (r =? kNoRow) then
    let b := upd_row r (report_row m (v_gen (venue_at b v))) b in
    let b :=
      if has_flag m kAccount then
        let b := upd_row r (fun row => row <| r_asset := bm_asset m |>) b in
        if negb (account_reported (venue_at b v)) then use_account v r b else b
      else b in
    rebase r b
  else match bm_asset m with [] => b | _ => b <| bstats_ ::= fun s => s <| bs_untracked ::= fun x => u64 (x + 1) |> |> end.
Definition begin_report (m : BalanceMsg) b : BalanceBook :=
  start_snapshot m (b <| live_ := true |> <| bstats_ ::= fun s => s <| bs_reports ::= fun x => u64 (x + 1) |> |>).
Definition on_report (m : BalanceMsg) b : bool * BalanceBook :=
  let b := begin_report m b in
  let r := reported_row m b in
  let b := apply_report m r b in
  let b := if has_flag m kSnapshotEnd then end_snapshot (bm_venue m) (bm_exch_ts m) b else b in
  (negb (r =? kNoRow), b).

(** ** Transfers *)

Definition reserve (venue : VenueId) (asset : list Z) (delta : Z) b : bool * BalanceBook :=
  let r := find b venue asset in
  if r =? kNoRow then (false, b)
  else (true, upd_row r (fun row => row <| r_reserved ::= fun x => i64 (x + delta) |> <| r_free ::= fun x => i64 (x - delta) |>) b).
Definition free_of b (venue : VenueId) (asset : list Z) : Z :=
  let r := find b venue asset in
  if (r =? kNoRow) || negb (r_reported (row_at b r)) then kUnreported else r_free (row_at b r).
Definition transfer (venue : VenueId) (asset : list Z) (delta : Z) (ts : Timestamp) b : BalanceBook := move_asset (find b venue asset) delta ts b.

(** ** Holds *)

Definition with_fee (n cbps : Z) : Z :=
  if (cbps <=? 0) || (n <=? 0) then n else i64 (n + i64 (Z.quot (i128 (i128 (n * cbps) + 999999)) 1000000)).
Definition margin_of (n rate_raw : Z) : Z :=
  if n <=? 0 then 0 else i64 (Z.quot (i128 (i128 (i128 (n * rate_raw) + kFixedScale) - 1)) kFixedScale).
Definition hold b (id : InstrumentId) (inst : Instrument) (s : Side) (px : Price) (leaves : Qty) (reduce_only : bool) (account : VenueId) : Z :=
  if (kMaxInstruments <=? id) || negb (0 <? leaves) then 0
  else
    let i := slot_get b (slot b id account) in
    if negb (i_derivative i) then
      match s with Sell => leaves | Buy => with_fee (notional inst px leaves) (i_taker_cbps i) end
    else if reduce_only || (i_im_raw i =? 0) then 0
    else margin_of (notional inst px leaves) (i_im_raw i).
(** The row part of [move_hold]: an event of an acknowledged order that the report counted changes nothing. *)
Definition move_hold_row (r delta : Z) (ts : Timestamp) (is_unacked : bool) b : BalanceBook :=
  if (r =? kNoRow) || (delta =? 0) then b
  else if negb is_unacked && counted (row_at b r) ts then b
  else
    let b := upd_row r (fun row => row <| r_free ::= fun x => i64 (x - delta) |> <| r_locked ::= fun x => i64 (x + delta) |>) b in
    if is_unacked then b else note r ts (i64 (- delta)) delta 0 b.
Definition move_hold (id : InstrumentId) (s : Side) (before after : Z) (ts : Timestamp) (is_unacked : bool) (account : VenueId) b : BalanceBook :=
  if (kMaxInstruments <=? id) || (before =? after) then b
  else
    let sl := slot b id account in
    let delta := i64 (after - before) in
    let b := if is_unacked then slot_upd sl (add_unacked s delta) b else b in
    let i := slot_get b sl in
    if negb (i_derivative i) then move_hold_row (match s with Buy => i_quote i | Sell => i_base i end) delta ts is_unacked b
    else
      let b := slot_upd sl (add_hold s delta) b in
      move_hold_row (i_margin i) (i64 (larger_side (slot_get b sl) - larger_side i)) ts is_unacked b.
Definition acknowledge (id : InstrumentId) (s : Side) (amount : Z) (ts : Timestamp) (account : VenueId) b : BalanceBook :=
  if (kMaxInstruments <=? id) || (amount =? 0) then b
  else
    let sl := slot b id account in
    let r := row_of (slot_get b sl) s in
    let before := if r =? kNoRow then 0 else in_flight (slot_get b sl) s r in
    let b := slot_upd sl (add_unacked s (- amount)) b in
    if r =? kNoRow then b
    else
      let back := i64 (before - in_flight (slot_get b sl) s r) in
      if negb (counted (row_at b r) ts) then note r ts (i64 (- back)) back 0 b
      else upd_row r (fun row => row <| r_free ::= fun x => i64 (x + back) |> <| r_locked ::= fun x => i64 (x - back) |>) b.

(** ** Fills *)

Definition abs64 (v : Z) : Z := if v <? 0 then i64 (- v) else v.
Definition fill_margin (inst : Instrument) (i : Inst) (px : Price) (pos_before pos_after : Z) : Z :=
  if negb (i_im_raw i =? 0) then
    i64 (margin_of (notional inst px (abs64 pos_after)) (i_im_raw i) - margin_of (notional inst px (abs64 pos_before)) (i_im_raw i))
  else 0.
Definition on_fill (id : InstrumentId) (inst : Instrument) (s : Side) (px : Price) (qty : Qty) (fee : Notional) (fee_asset : FeeAsset)
    (pos_before pos_after : Z) (ts : Timestamp) (account : VenueId) b : BalanceBook :=
  if kMaxInstruments <=? id then b
  else
    let i := slot_get b (slot b id account) in
    if negb (i_derivative i) then
      let base := match s with Buy => qty | Sell => i64 (- qty) end in
      let n := notional inst px qty in
      let quote := match s with Buy => i64 (- n) | Sell => n end in
      let base := if bool_decide (fee_asset = FeeBase) then i64 (base - fee) else base in
      let quote := if bool_decide (fee_asset = FeeQuote) then i64 (quote - fee) else quote in
      move_asset (i_quote i) quote ts (move_asset (i_base i) base ts b)
    else if i_margin i =? kNoRow then b
    else if counted (row_at b (i_margin i)) ts then b
    else
      let im := fill_margin inst i px pos_before pos_after in
      let settles := if inverse inst then bool_decide (fee_asset = FeeBase) else bool_decide (fee_asset = FeeQuote) in
      let f := if settles then fee else 0 in
      let b := upd_row (i_margin i) (fun row =>
        row <| r_free ::= fun x => i64 (x - i64 (im + f)) |> <| r_locked ::= fun x => i64 (x + im) |>
            <| r_total ::= fun x => i64 (x - f) |> <| r_equity ::= fun x => i64 (x - f) |>) b in
      note (i_margin i) ts (i64 (- i64 (im + f))) im (i64 (- f)) b.
Definition correct_fill (id : InstrumentId) (inst : Instrument) (s : Side) (estimate px : Price) (qty : Qty) (ts : Timestamp) (account : VenueId) b : BalanceBook :=
  if (kMaxInstruments <=? id) || negb (0 <? qty) || (estimate =? px) then b
  else
    let i := slot_get b (slot b id account) in
    if i_derivative i then b
    else
      let d := i64 (notional inst px qty - notional inst estimate qty) in
      move_asset (i_quote i) (match s with Buy => i64 (- d) | Sell => d end) ts b.

(** ** The pre-trade check *)

Definition covers b (id : InstrumentId) (inst : Instrument) (s : Side) (px : Price) (qty : Qty) (replaced_hold : Z) (reduce_only reduces : bool) (account : VenueId) : bool :=
  if kMaxInstruments <=? id then true
  else
    let i := slot_get b (slot b id account) in
    let r := if i_derivative i then i_margin i else match s with Buy => i_quote i | Sell => i_base i end in
    if (r =? kNoRow) || negb (r_reported (row_at b r)) then true
    else if i_derivative i && (reduce_only || reduces) then true
    else
      let free := r_free (row_at b r) in
      if negb (i_derivative i) then
        let need := i64 (hold b id inst s px qty false account - replaced_hold) in
        (need <=? 0) || (need <=? free)
      else if i_im_raw i =? 0 then 0 <? free
      else
        let sides := add_hold s (hold b id inst s px qty false account - replaced_hold) i in
        let need := i64 (larger_side sides - larger_side i) in
        (need <? 0) || ((0 <=? free) && (need <=? free)).

(** ** What the strategies read *)

Record Balance := mkBalance {
  ba_free : Z;
  ba_locked : Z;
  ba_total : Z;
  ba_equity : Z;
  ba_maintenance : Z;
  ba_as_of : Timestamp;
  ba_known : bool;
}.
Definition no_balance : Balance := mkBalance 0 0 0 0 0 0 false.
Definition to_balance (r : Row) : Balance :=
  if negb (r_reported r) then no_balance else mkBalance (r_free r) (r_locked r) (r_total r) (r_equity r) (r_maintenance r) (r_as_of r) true.
Definition balance b (venue : VenueId) (asset : list Z) : Balance :=
  let r := find b venue asset in if r =? kNoRow then no_balance else to_balance (row_at b r).
Record Margin := mkMargin { mg_balance : Balance; mg_asset : list Z; mg_account : bool }.
Definition margin b (venue : VenueId) : Margin :=
  let vs := venue_at b venue in
  let r := if account_reported vs then account_row vs else margin_default vs in
  if r =? kNoRow then mkMargin no_balance [] false else mkMargin (to_balance (row_at b r)) (r_asset (row_at b r)) (r_account (row_at b r)).
Definition base_total b (id : InstrumentId) (account : VenueId) : Z :=
  if kMaxInstruments <=? id then kUnreported
  else
    let i := slot_get b (slot b id account) in
    if i_derivative i || (i_base i =? kNoRow) || negb (r_reported (row_at b (i_base i))) then kUnreported else r_total (row_at b (i_base i)).
