(* ===== verification/BalanceInv.v ===== *)
(** * BalanceInv: the estimate of a row, its specification and the primitives

    [RowEst] is a row as its history gives it: the last report and the moves no report has covered since, without rings,
    in-flight sums or reservations.  [estimates] relates a row of the book to it; the lemmas of this file are what a move, a
    report, an order in flight and a reservation do to that relation. *)

From S2P Require Import Prelude Types FixedPoint Instruments RingBuffer MapSum BalanceBook BalanceOps.
Implicit Type b : BalanceBook.

(** ** The specification of a row *)

Inductive RowEvent := EMove (m : Move) | EReport (free locked total equity : Z) (as_of : Timestamp).
Record RowEst := mkEst { e_reported : bool; e_as_of : Timestamp; e_free : Z; e_locked : Z; e_total : Z; e_equity : Z; e_live : list Move }.
#[export] Instance eta_est : Eta RowEst := fun e => mkEst (e_reported e) (e_as_of e) (e_free e) (e_locked e) (e_total e) (e_equity e) (e_live e).
Definition no_est : RowEst := mkEst false 0 0 0 0 0 [].
Definition stamped (m : Move) : bool := ts_valid (m_venue_ts m).
(** A report stamped [as_of] has the move, or cannot tell. *)
Definition covered_by (as_of : Timestamp) (m : Move) : bool := negb (ts_valid as_of) || (m_venue_ts m <=? as_of).
Definition est_counts (e : RowEst) (ts : Timestamp) : bool := e_reported e && ts_valid ts && ts_valid (e_as_of e) && (ts <=? e_as_of e).
Definition unstamp (m : Move) : Move := mkMove 0 (m_free m) (m_locked m) (m_total m) (m_row m).
Definition add_live (m : Move) (e : RowEst) : RowEst := e <| e_live ::= fun l => l ++ [m] |>.
Definition est_step (e : RowEst) (ev : RowEvent) : RowEst :=
  match ev with
  | EMove m => if est_counts e (m_venue_ts m) then e else add_live (if e_reported e then m else unstamp m) e
  | EReport f l t q a => mkEst true a f l t q (filter (fun m => stamped m && negb (covered_by a m) = true) (e_live e))
  end.
Definition est_free (e : RowEst) : Z := e_free e + lsum m_free (e_live e).
Definition est_locked (e : RowEst) : Z := e_locked e + lsum m_locked (e_live e).
Definition est_total (e : RowEst) : Z := e_total e + lsum m_total (e_live e).
Definition est_equity (e : RowEst) : Z := e_equity e + lsum m_total (e_live e).

(** ** Rows of the book *)

Definition has_row b (r : Z) : Prop := 0 <= r < Z.of_nat (length (rows_ b)).
Lemma row_at_upd r f b : has_row b r -> row_at (upd_row r f b) r = f (row_at b r).
Proof.
  intros Hr. unfold row_at. cbn. unfold has_row in Hr. rewrite list_lookup_alter_eq.
  destruct (lookup_lt_is_Some_2 (rows_ b) (Z.to_nat r)) as [x ->]; [lia | done].
Qed.
Lemma row_at_upd_ne r r' f b : 0 <= r -> 0 <= r' -> r <> r' -> row_at (upd_row r f b) r' = row_at b r'.
Proof. intros H H' Hne. unfold row_at. cbn. rewrite list_lookup_alter_ne; [done | lia]. Qed.
Lemma has_row_upd r f b r' : has_row (upd_row r f b) r' <-> has_row b r'.
Proof. unfold has_row. cbn. by rewrite length_alter. Qed.
Lemma alter_alter {A} (f g : A -> A) (i : nat) (l : list A) : alter f i (alter g i l) = alter (fun x => f (g x)) i l.
Proof.
  apply list_eq. intros k. destruct (decide (k = i)) as [-> |]; [|by rewrite !list_lookup_alter_ne].
  rewrite !list_lookup_alter_eq. by destruct (l !! i).
Qed.
Lemma upd_row_upd r f g b : upd_row r f (upd_row r g b) = upd_row r (fun x => f (g x)) b.
Proof. destruct b as [rows i q ms v s l c]. apply (f_equal (fun l0 => mkBook l0 i q ms v s l c)), alter_alter. Qed.

Lemma alter_ext {A} (f g : A -> A) (i : nat) (l : list A) : (forall x, f x = g x) -> alter f i l = alter g i l.
Proof.
  intros E. apply list_eq. intros k. destruct (decide (k = i)) as [-> |]; [|by rewrite !list_lookup_alter_ne].
  rewrite !list_lookup_alter_eq. destruct (l !! i); [|done]. cbn. by rewrite E.
Qed.
Lemma alter_same {A} (f : A -> A) (i : nat) (l : list A) : (forall x, f x = x) -> alter f i l = l.
Proof.
  intros E. apply list_eq. intros k. destruct (decide (k = i)) as [-> |]; [|by rewrite !list_lookup_alter_ne].
  rewrite !list_lookup_alter_eq. destruct (l !! i); [|done]. cbn. by rewrite E.
Qed.
Lemma upd_row_ext r f g b : (forall x, f x = g x) -> upd_row r f b = upd_row r g b.
Proof. intros E. destruct b as [rows i q ms v s l c]. apply (f_equal (fun l0 => mkBook l0 i q ms v s l c)). by apply alter_ext. Qed.
Lemma upd_row_same r f b : (forall x, f x = x) -> upd_row r f b = b.
Proof. intros E. destruct b as [rows i q ms v s l c]. apply (f_equal (fun l0 => mkBook l0 i q ms v s l c)). by apply alter_same. Qed.

(** ** In flight *)

Definition contrib b (r : Z) (i : Inst) : Z := on_venue (r_venue (row_at b r)) i (inst_in_flight i r).
Definition flight b (r : Z) : Z := msum (fun _ => contrib b r) (inst_ b) + lsum (contrib b r) (members_ b).
Lemma extra_flight b r : extra_in_flight b r = i64 (flight b r).
Proof. reflexivity. Qed.

(** The relation between a row and its specification. *)
Record estimates b (r : Z) (e : RowEst) : Prop := {
  es_reported : r_reported (row_at b r) = e_reported e;
  es_as_of : e_reported e = true -> r_as_of (row_at b r) = e_as_of e;
  es_free : r_free (row_at b r) =64 est_free e - flight b r - r_reserved (row_at b r);
  es_locked : r_locked (row_at b r) =64 est_locked e + flight b r;
  es_total : r_total (row_at b r) =64 est_total e;
  es_equity : r_equity (row_at b r) =64 est_equity e;
  es_moves : exists l, Ring.ring_rep kMaxMoves (moves_ b) l /\ filter (fun m => m_row m = r) l = filter (fun m => stamped m = true) (e_live e);
  es_rows : Forall (fun m => m_row m = r) (e_live e);
}.

Lemma counted_est b r e ts : estimates b r e -> counted (row_at b r) ts = est_counts e ts.
Proof.
  intros H. unfold counted, est_counts. rewrite (es_reported b r e H). destruct (e_reported e) eqn:E; [|done].
  by rewrite (es_as_of b r e H E).
Qed.

(** ** A move *)

(** [row'] is [row] moved by [m], with [d] given back by the orders in flight, and the rest unchanged. *)
Record shifted (row row' : Row) (m : Move) (d : Z) : Prop := {
  sh_venue : r_venue row' = r_venue row;
  sh_reported : r_reported row' = r_reported row;
  sh_as_of : r_as_of row' = r_as_of row;
  sh_reserved : r_reserved row' = r_reserved row;
  sh_free : r_free row' =64 r_free row + m_free m + d;
  sh_locked : r_locked row' =64 r_locked row + m_locked m - d;
  sh_total : r_total row' =64 r_total row + m_total m;
  sh_equity : r_equity row' =64 r_equity row + m_total m;
}.
Definition dropped b : Z := bs_moves_dropped (bstats_ b).

Lemma flight_ext b b' r : inst_ b' = inst_ b -> members_ b' = members_ b -> r_venue (row_at b' r) = r_venue (row_at b r) -> flight b' r = flight b r.
Proof. intros Hi Hm Hv. unfold flight, contrib. by rewrite Hi, Hm, Hv. Qed.
Lemma note_rows r ts f l t b : rows_ (note r ts f l t b) = rows_ b.
Proof. unfold note. repeat case_if; reflexivity. Qed.
Lemma note_row_at r ts f l t b k : row_at (note r ts f l t b) k = row_at b k.
Proof. unfold row_at. by rewrite note_rows. Qed.
Lemma note_insts r ts f l t b : inst_ (note r ts f l t b) = inst_ b /\ members_ (note r ts f l t b) = members_ b.
Proof. unfold note. repeat case_if; done. Qed.
Lemma note_flight r ts f l t b k : flight (note r ts f l t b) k = flight b k.
Proof. destruct (note_insts r ts f l t b). apply flight_ext; [done | done | by rewrite note_row_at]. Qed.
Lemma note_moves r ts f l t b l0 : dropped (note r ts f l t b) = dropped b -> Ring.ring_rep kMaxMoves (moves_ b) l0 ->
  Ring.ring_rep kMaxMoves (moves_ (note r ts f l t b))
    (if ts_valid ts && r_reported (row_at b r) then l0 ++ [mkMove ts f l t r] else l0).
Proof.
  unfold note, dropped. intros Hd Hr. destruct (ts_valid ts); [|done]. destruct (r_reported (row_at b r)); [|done]. cbn [negb orb andb] in *.
  destruct (Ring.full kMaxMoves (moves_ b)) eqn:Ef.
  - exfalso. cbn in Hd. unfold u64 in Hd. pose proof (Z.mod_pos_bound (bs_moves_dropped (bstats_ b) + 1) (2 ^ 64) ltac:(lia)).
    pose proof (Z.div_mod (bs_moves_dropped (bstats_ b) + 1) (2 ^ 64) ltac:(lia)). lia.
  - cbn. pose proof (Ring.rep_push kMaxMoves ltac:(unfold kMaxMoves; lia) _ l0 (mkMove ts f l t r) Hr) as H. by rewrite Ef in H.
Qed.

Lemma filter_snoc {A} (Q : A -> Prop) `{!forall x, Decision (Q x)} l x : filter Q (l ++ [x]) = filter Q l ++ (if decide (Q x) then [x] else []).
Proof. rewrite filter_app. by rewrite filter_cons, filter_nil. Qed.
Lemma lsum_snoc {A} (f : A -> Z) l x : lsum f (l ++ [x]) = lsum f l + f x.
Proof. rewrite lsum_app. unfold lsum. simpl. lia. Qed.

Lemma est_add_live m e :
  est_free (add_live m e) = est_free e + m_free m /\ est_locked (add_live m e) = est_locked e + m_locked m /\
  est_total (add_live m e) = est_total e + m_total m /\ est_equity (add_live m e) = est_equity e + m_total m.
Proof. unfold est_free, est_locked, est_total, est_equity, add_live. cbn [e_free e_locked e_total e_equity e_live fupd]. rewrite !lsum_snoc. lia. Qed.

Ltac eq64 := unfold eq64; f_equal; lia.

(** A move of the row itself is a move of its specification. *)
Lemma est_move_row b b1 r e m d : m_row m = r -> estimates b r e -> moves_ b1 = moves_ b -> shifted (row_at b r) (row_at b1 r) m d ->
  flight b1 r =64 flight b r - d -> est_counts e (m_venue_ts m) = false ->
  let b' := note r (m_venue_ts m) (m_free m) (m_locked m) (m_total m) b1 in
  dropped b' = dropped b1 -> estimates b' r (est_step e (EMove m)).
Proof.
  intros Hm He Hq Hf Hfl Hc b' Hd. cbn [est_step]. rewrite Hc. set (m' := if e_reported e then m else unstamp m).
  destruct (est_add_live m' e) as (F1 & F2 & F3 & F4).
  assert (Hrow : row_at b' r = row_at b1 r) by apply note_row_at. assert (Hfl' : flight b' r = flight b1 r) by apply note_flight.
  assert (Hsame : m_free m' = m_free m /\ m_locked m' = m_locked m /\ m_total m' = m_total m /\ m_row m' = r) by (unfold m'; destruct (e_reported e); done).
  destruct Hsame as (E1 & E2 & E3 & E4). destruct He, Hf. split; rewrite ?Hrow, ?Hfl'; cbn [add_live e_reported e_as_of fupd].
  - congruence.
  - intros H. rewrite sh_as_of0. auto.
  - rewrite sh_free0, es_free0, sh_reserved0, Hfl, F1, E1. eq64.
  - rewrite sh_locked0, es_locked0, Hfl, F2, E2. eq64.
  - rewrite sh_total0, es_total0, F3, E3. eq64.
  - rewrite sh_equity0, es_equity0, F4, E3. eq64.
  - destruct es_moves0 as (l & Hl & Ef). eexists. split; [apply note_moves; [done | rewrite Hq; exact Hl]|].
    rewrite sh_reported0, es_reported0. cbn. rewrite filter_snoc, <- Ef.
    replace (stamped m') with (ts_valid (m_venue_ts m) && e_reported e) by (unfold m', stamped; destruct (e_reported e); [apply andb_true_r | by rewrite andb_false_r]).
    destruct (ts_valid (m_venue_ts m) && e_reported e) eqn:E; [|by rewrite app_nil_r].
    apply andb_prop in E as [_ E]. assert (m' = m) as -> by (unfold m'; by rewrite E). rewrite filter_snoc, decide_True by done. f_equal. f_equal. destruct m. cbn in *. congruence.
  - cbn. apply Forall_app. split; [done|]. by apply Forall_singleton.
Qed.
(** The orders in flight give [d] back, and nothing else moves. *)
Lemma est_flight b b1 r e d : estimates b r e -> moves_ b1 = moves_ b -> shifted (row_at b r) (row_at b1 r) no_move d ->
  flight b1 r =64 flight b r - d -> estimates b1 r e.
Proof.
  intros [] Hq [] Hfl. cbn [no_move m_free m_locked m_total] in *. split; rewrite ?Hq; try done.
  - congruence.
  - intros H. rewrite sh_as_of0. auto.
  - rewrite sh_free0, es_free0, sh_reserved0, Hfl. eq64.
  - rewrite sh_locked0, es_locked0, Hfl. eq64.
  - rewrite sh_total0, es_total0. eq64.
  - rewrite sh_equity0, es_equity0. eq64.
Qed.
(** Nothing the relation reads changed. *)
Lemma estimates_ext b b' r e : row_at b' r = row_at b r -> flight b' r =64 flight b r -> moves_ b' = moves_ b -> estimates b r e -> estimates b' r e.
Proof. intros Hr Hf Hm []. split; rewrite ?Hr, ?Hf, ?Hm; done. Qed.
(** A move of another row does not touch it. *)
Lemma est_note_other b r k e ts f l t : k <> r -> estimates b r e -> dropped (note k ts f l t b) = dropped b -> estimates (note k ts f l t b) r e.
Proof.
  intros Hne He Hd. destruct He. split; rewrite ?note_row_at, ?note_flight; try done.
  destruct es_moves0 as (l0 & Hl & Ef). eexists. split; [apply note_moves; [done | exact Hl]|].
  rewrite <- Ef. case_match; [|done]. rewrite filter_snoc. cbn. rewrite decide_False by done. apply app_nil_r.
Qed.

(** ** A report *)

Definition kept (r : Z) (as_of : Timestamp) (m : Move) : Prop := m_row m = r -> covered_by as_of m = false.
#[export] Instance kept_dec r as_of m : Decision (kept r as_of m).
Proof. unfold kept. apply _. Defined.
Definition again (r : Z) (l : list Move) (row : Row) : Row := fold_left (fun row m => apply_move m row) (filter (fun m => m_row m = r) l) row.

Lemma again_cons r m l row : again r (m :: l) row = again r l (if decide (m_row m = r) then apply_move m row else row).
Proof. unfold again. rewrite filter_cons. by case_decide. Qed.
Lemma rebase_step_spec r b m l : has_row b r -> Ring.ring_rep kMaxMoves (moves_ b) (m :: l) ->
  let as_of := r_as_of (row_at b r) in
  exists q, Ring.ring_rep kMaxMoves q (l ++ filter (kept r as_of) [m]) /\
    rebase_step r b = (upd_row r (again r (filter (kept r as_of) [m])) b) <| moves_ := q |>.
Proof.
  intros Hr Hq as_of. unfold rebase_step. assert (Hp : 0 <= kMaxMoves < 64) by (unfold kMaxMoves; lia).
  pose proof (Ring.ring_step_refines kMaxMoves Hp Ring.OPop _ _ Hq) as [Ho Hq']. cbn [Ring.step Ring.spec_step fst snd] in Ho, Hq'.
  destruct (Ring.pop kMaxMoves (moves_ b)) as [[x q]|]; [|done]. cbn [fst snd] in Ho, Hq'. injection Ho as ->. cbn [default]. cbv [id].
  assert (Hroom : Ring.full kMaxMoves q = false).
  { rewrite (Ring.full_rep kMaxMoves Hp _ _ Hq'). destruct Hq as (_ & _ & Hc & _). cbn [length] in Hc. lia. }
  pose proof (Ring.rep_push kMaxMoves Hp _ _ m Hq') as Hpush. rewrite Hroom in Hpush.
  change (row_at (b <| moves_ := q |>) r) with (row_at b r). fold as_of.
  assert (Hid : upd_row r (again r []) b = b).
  { apply upd_row_same. done. }
  rewrite filter_cons, filter_nil.
  change (negb (ts_valid as_of) || (m_venue_ts m <=? as_of)) with (covered_by as_of m).
  destruct (Z.eqb_spec (m_row m) r) as [Em|Em].
  - destruct (covered_by as_of m) eqn:Ec.
    + exists q. rewrite decide_False by (intros H; specialize (H Em); congruence). by rewrite app_nil_r, Hid.
    + exists (Ring.push kMaxMoves q m). rewrite decide_True by (intros _; done). split; [done|].
      unfold again. rewrite (filter_cons_True (fun m => m_row m = r) m []) by exact Em. reflexivity.
  - exists (Ring.push kMaxMoves q m). rewrite decide_True by (intros ?; done). split; [done|].
    assert (again r [m] = again r []) as -> by (unfold again; rewrite (filter_cons_False (fun m => m_row m = r) m []) by exact Em; reflexivity).
    by rewrite Hid.
Qed.

Lemma again_app r l k row : again r (l ++ k) row = again r k (again r l row).
Proof. unfold again. by rewrite filter_app, fold_left_app. Qed.
Lemma again_static r l row : r_as_of (again r l row) = r_as_of row /\ r_venue (again r l row) = r_venue row /\
  r_reported (again r l row) = r_reported row /\ r_reserved (again r l row) = r_reserved row.
Proof. revert row. induction l as [|m l IH]; intros row; [done|]. rewrite again_cons. destruct (IH (if decide (m_row m = r) then apply_move m row else row)) as (-> & -> & -> & ->). by case_decide. Qed.

(** The loop of [rebase] over all the moves: those of the row that the report covers are gone, the others stay in order. *)
Lemma rebase_loop r l1 : forall b l2, has_row b r -> Ring.ring_rep kMaxMoves (moves_ b) (l1 ++ l2) ->
  let k := filter (kept r (r_as_of (row_at b r))) l1 in
  exists q, Ring.ring_rep kMaxMoves q (l2 ++ k) /\
    Nat.iter (length l1) (rebase_step r) b = (upd_row r (again r k) b) <| moves_ := q |>.
Proof.
  induction l1 as [|m l1 IH]; intros b l2 Hr Hq k.
  - exists (moves_ b). cbn in k. subst k. rewrite app_nil_r. split; [done|]. cbn [length Nat.iter nat_rect]. symmetry.
    rewrite upd_row_same by done. by destruct b.
  - cbn [length]. rewrite Nat.iter_succ_r.
    destruct (rebase_step_spec r b m (l1 ++ l2) Hr Hq) as (q & Hq' & ->). set (k1 := filter (kept r (r_as_of (row_at b r))) [m]) in *.
    set (b1 := (upd_row r (again r k1) b) <| moves_ := q |>).
    assert (Hr1 : has_row b1 r) by (apply (has_row_upd r (again r k1) b); done).
    assert (Ha : r_as_of (row_at b1 r) = r_as_of (row_at b r)).
    { change (row_at b1 r) with (row_at (upd_row r (again r k1) b) r). rewrite row_at_upd by done. apply again_static. }
    rewrite <- app_assoc in Hq'. destruct (IH b1 (l2 ++ k1) Hr1 Hq') as (q2 & Hq2 & ->). exists q2. rewrite Ha in *.
    assert (Ek : k = k1 ++ filter (kept r (r_as_of (row_at b r))) l1) by (unfold k, k1; by rewrite <- filter_app).
    split; [by rewrite Ek, app_assoc|]. rewrite Ek. unfold b1.
    change (upd_row r (again r (filter (kept r (r_as_of (row_at b r))) l1)) ((upd_row r (again r k1) b) <| moves_ := q |>))
      with ((upd_row r (again r (filter (kept r (r_as_of (row_at b r))) l1)) (upd_row r (again r k1) b)) <| moves_ := q |>).
    rewrite upd_row_upd. rewrite (upd_row_ext r (again r (k1 ++ filter (kept r (r_as_of (row_at b r))) l1)) (fun x => again r (filter (kept r (r_as_of (row_at b r))) l1) (again r k1 x)));
      [reflexivity|]. intros x. apply again_app.
Qed.

Definition on_top (flight : Z) (row : Row) : Row :=
  row <| r_free ::= fun x => i64 (i64 (x - i64 flight) - r_reserved row) |> <| r_locked ::= fun x => i64 (x + i64 flight) |>.
Lemma rebase_eq r b l : has_row b r -> Ring.ring_rep kMaxMoves (moves_ b) l ->
  let k := filter (kept r (r_as_of (row_at b r))) l in
  exists q, Ring.ring_rep kMaxMoves q k /\ rebase r b = (upd_row r (fun row => again r k (on_top (flight b r) row)) b) <| moves_ := q |>.
Proof.
  intros Hr Hq k. unfold rebase, add_in_flight. rewrite extra_flight, upd_row_upd.
  set (b1 := upd_row r _ b).
  assert (Hb1 : b1 = upd_row r (on_top (flight b r)) b) by reflexivity. clearbody b1. subst b1.
  change (moves_ (upd_row r (on_top (flight b r)) b)) with (moves_ b).
  rewrite (Ring.size_rep kMaxMoves ltac:(unfold kMaxMoves; lia) _ _ Hq), Nat2Z.id.
  assert (Hr' : has_row (upd_row r (on_top (flight b r)) b) r) by by apply has_row_upd.
  destruct (rebase_loop r l (upd_row r (on_top (flight b r)) b) [] Hr' ltac:(by rewrite app_nil_r)) as (q & Hq' & ->).
  exists q. rewrite row_at_upd in * by done. cbn [app] in Hq'. split; [done|]. by rewrite upd_row_upd.
Qed.

Lemma again_amounts r l row :
  let own := filter (fun m => m_row m = r) l in
  r_free (again r l row) =64 r_free row + lsum m_free own /\ r_locked (again r l row) =64 r_locked row + lsum m_locked own /\
  r_total (again r l row) =64 r_total row + lsum m_total own /\ r_equity (again r l row) =64 r_equity row + lsum m_total own.
Proof.
  unfold again. generalize (filter (fun m => m_row m = r) l) as k. clear l. intros k. cbv zeta. revert row.
  induction k as [|m k IH]; intros row; [unfold lsum; cbn [foldr fold_left]; rewrite !Z.add_0_r; done|]. cbn [fold_left].
  destruct (IH (apply_move m row)) as (-> & -> & -> & ->). unfold lsum. cbn [apply_move r_free r_locked r_total r_equity fupd foldr].
  rewrite !i64_eq64. repeat split; eq64.
Qed.

Lemma filter_kept_own r as_of (l live : list Move) : filter (fun m => m_row m = r) l = filter (fun m => stamped m = true) live ->
  filter (fun m => m_row m = r) (filter (kept r as_of) l) = filter (fun m => stamped m && negb (covered_by as_of m) = true) live.
Proof.
  intros E. transitivity (filter (fun m => covered_by as_of m = false) (filter (fun m => m_row m = r) l)).
  - rewrite !list_filter_filter. apply list_filter_iff. intros m. unfold kept. naive_solver.
  - rewrite E, list_filter_filter. apply list_filter_iff. intros m. destruct (stamped m), (covered_by as_of m); naive_solver.
Qed.
Lemma filter_kept_other r k as_of (l : list Move) : k <> r -> filter (fun m => m_row m = k) (filter (kept r as_of) l) = filter (fun m => m_row m = k) l.
Proof. intros Hne. rewrite list_filter_filter. apply list_filter_iff. intros m. unfold kept. naive_solver. Qed.

(** What the row says now is the report: the orders in flight, the reservation and the moves it does not have go on top. *)
Lemma est_report b r e l : has_row b r -> r_reported (row_at b r) = true -> Ring.ring_rep kMaxMoves (moves_ b) l ->
  filter (fun m => m_row m = r) l = filter (fun m => stamped m = true) (e_live e) -> Forall (fun m => m_row m = r) (e_live e) ->
  let row := row_at b r in
  estimates (rebase r b) r (est_step e (EReport (r_free row) (r_locked row) (r_total row) (r_equity row) (r_as_of row))).
Proof.
  intros Hr Hrep Hl Ef Hrows row. destruct (rebase_eq r b l Hr Hl) as (q & Hq & ->). fold row in Hq |- *.
  set (k := filter (kept r (r_as_of row)) l) in *. set (b' := (upd_row r _ b) <| moves_ := q |>).
  assert (Hrow : row_at b' r = again r k (on_top (flight b r) row)).
  { change (row_at b' r) with (row_at (upd_row r (fun row => again r k (on_top (flight b r) row)) b) r). by rewrite row_at_upd. }
  destruct (again_static r k (on_top (flight b r) row)) as (S1 & S2 & S3 & S4).
  destruct (again_amounts r k (on_top (flight b r) row)) as (A1 & A2 & A3 & A4).
  pose proof (filter_kept_own r (r_as_of row) l (e_live e) Ef) as Ek. fold k in Ek. rewrite Ek in A1, A2, A3, A4.
  assert (Hfl : flight b' r = flight b r) by (apply flight_ext; [done | done |]; by rewrite Hrow, S2).
  cbn [est_step]. split; rewrite ?Hrow, ?Hfl; cbn [e_reported e_as_of e_live].
  - by rewrite S3.
  - intros _. by rewrite S1.
  - rewrite A1, S4. unfold est_free. cbn [on_top r_free r_reserved e_free e_live fupd]. rewrite !i64_eq64. eq64.
  - rewrite A2. unfold est_locked. cbn [on_top r_locked e_locked e_live fupd]. rewrite !i64_eq64. eq64.
  - rewrite A3. reflexivity.
  - rewrite A4. reflexivity.
  - exists k. split; [done|]. rewrite Ek, list_filter_filter. apply list_filter_iff. intros m. destruct (stamped m); naive_solver.
  - apply Forall_forall. intros m Hm. apply list_elem_of_filter in Hm as [_ Hm]. by apply (proj1 (Forall_forall _ _) Hrows).
Qed.
Lemma est_report_other b r k e : has_row b r -> has_row b k -> r <> k -> estimates b k e -> estimates (rebase r b) k e.
Proof.
  intros Hr Hk Hne [? ? ? ? ? ? (l & Hl & Ef) ?]. destruct (rebase_eq r b l Hr Hl) as (q & Hq & ->).
  set (b' := (upd_row r _ b) <| moves_ := q |>).
  assert (Hrow : row_at b' k = row_at b k) by (eapply row_at_upd_ne; unfold has_row in *; [lia | lia | done]).
  assert (Hfl : flight b' k = flight b k) by (apply flight_ext; [done | done | by rewrite Hrow]).
  split; rewrite ?Hrow, ?Hfl; try done. exists (filter (kept r (r_as_of (row_at b r))) l). split; [done|]. by rewrite filter_kept_other.
Qed.
