(* ===== verification/BalanceFlight.v ===== *)
(** * BalanceFlight: the well-formed book and the orders in flight

    [book_ok] holds of every book the table builds and is kept by every operation: the rows an instrument state names are
    rows of its venue, and the members of a pool are where the instrument says.  The rest of the file is how a change of one
    instrument state changes what is in flight on a row. *)

From S2P Require Import Prelude Types FixedPoint Instruments RingBuffer MapSum BalanceBook BalanceOps BalanceInv.
Implicit Type b : BalanceBook.

Definition row_ok b (v : VenueId) (r : Z) : Prop := r = kNoRow \/ (has_row b r /\ r_venue (row_at b r) = v).
Definition inst_ok b (i : Inst) : Prop := forall s, row_ok b (i_venue i) (row_of i s).
Definition members_ok b (i : Inst) : Prop :=
  i_n_members i = 0 \/ (0 <= i_first_member i /\ 0 <= i_n_members i /\ i_first_member i + i_n_members i <= Z.of_nat (length (members_ b))).
Record book_ok b : Prop := {
  bo_few : Z.of_nat (length (rows_ b)) < kNoRow;
  bo_insts : forall id i, inst_ b !! id = Some i -> inst_ok b i /\ members_ok b i;
  bo_members : Forall (inst_ok b) (members_ b);
  bo_accounts : forall v, row_ok b v (account_row (venue_at b v));
}.
Definition slot_ok b (s : SlotRef) : Prop := match s with OwnSlot _ => True | MemberSlot k => 0 <= k < Z.of_nat (length (members_ b)) end.

Lemma find_member_bound b account n : forall k j, find_member b account k n = Some j -> k <= j < k + Z.of_nat n.
Proof.
  induction n as [|n IH]; intros k j H; [done|]. cbn [find_member] in H. case_if; [injection H as <-; lia|]. apply IH in H. lia.
Qed.
Lemma account_slot_ok b id account : book_ok b -> slot_ok b (slot b id account).
Proof.
  intros H. unfold slot. case_if; [done|]. destruct (find_member b account _ _) as [k|] eqn:E; [|done]. cbn.
  apply find_member_bound in E. unfold inst_at in *. destruct (inst_ b !! id) as [i|] eqn:Ei; cbn in *; [|done].
  destruct (bo_insts b H id i Ei) as [_ [Hn|Hm]]; [rewrite Hn in *; done|]. lia.
Qed.
Lemma no_inst_ok b : inst_ok b no_inst.
Proof. intros []; by left. Qed.
Lemma slot_inst_ok b s : book_ok b -> slot_ok b s -> inst_ok b (slot_get b s).
Proof.
  intros H Hs. destruct s as [id|k]; cbn.
  - unfold inst_at. destruct (inst_ b !! id) as [i|] eqn:E; [by apply (bo_insts b H id i) | apply no_inst_ok].
  - unfold member_at. cbn in Hs. destruct (lookup_lt_is_Some_2 (members_ b) (Z.to_nat k)) as [i Hi]; [lia|]. rewrite Hi.
    apply (proj1 (Forall_lookup _ _) (bo_members b H) _ _ Hi).
Qed.

(** A state on the venue of its rows counts there, and only there. *)
Lemma has_row_not_none b r : book_ok b -> has_row b r -> r <> kNoRow.
Proof. intros H Hr. pose proof (bo_few b H). unfold has_row in Hr. lia. Qed.
Lemma in_flight_elsewhere i s r : row_of i s <> r -> in_flight i s r = 0.
Proof. intros H. unfold in_flight. by apply Z.eqb_neq in H as ->. Qed.
Lemma contrib_in_flight b r i : book_ok b -> has_row b r -> inst_ok b i -> contrib b r i = inst_in_flight i r.
Proof.
  intros H Hr Hi. unfold contrib, on_venue. destruct (Z.eqb_spec (i_venue i) (r_venue (row_at b r))) as [|Hne]; [done|].
  assert (E : forall s, row_of i s <> r).
  { intros s Es. destruct (Hi s) as [Hn|[_ Hv]]; [by apply (has_row_not_none b r H Hr); congruence | rewrite Es in Hv; congruence]. }
  unfold inst_in_flight. rewrite !in_flight_elsewhere by done. by case_if.
Qed.

(** ** A change of one state *)

(** The parts of a state that name rows and members. *)
Record same_place (i j : Inst) : Prop := {
  sp_venue : i_venue j = i_venue i;
  sp_derivative : i_derivative j = i_derivative i;
  sp_base : i_base j = i_base i;
  sp_quote : i_quote j = i_quote i;
  sp_margin : i_margin j = i_margin i;
  sp_first : i_first_member j = i_first_member i;
  sp_n : i_n_members j = i_n_members i;
}.
Lemma same_row_of i j s : same_place i j -> row_of j s = row_of i s.
Proof. intros []. unfold row_of. rewrite sp_derivative0, sp_margin0, sp_base0, sp_quote0. done. Qed.
Lemma same_inst_ok b i j : same_place i j -> inst_ok b i -> inst_ok b j.
Proof. intros Hp Hi s. rewrite (same_row_of i j s Hp), (sp_venue i j Hp). apply Hi. Qed.
Lemma add_hold_place s d i : same_place i (add_hold s d i).
Proof. by destruct s. Qed.
Lemma add_unacked_place s d i : same_place i (add_unacked s d i).
Proof. by destruct s. Qed.

Lemma slot_get_upd b s f : slot_ok b s -> slot_get (slot_upd s f b) s = f (slot_get b s).
Proof.
  destruct s as [id|k]; cbn; intros Hs.
  - unfold inst_at. cbn. by rewrite lookup_insert_eq.
  - unfold member_at. cbn. rewrite list_lookup_alter_eq. destruct (lookup_lt_is_Some_2 (members_ b) (Z.to_nat k)) as [i Hi]; [lia|]. by rewrite Hi.
Qed.
Lemma slot_upd_rows s f b : rows_ (slot_upd s f b) = rows_ b.
Proof. by destruct s. Qed.
Lemma slot_upd_row_at s f b r : row_at (slot_upd s f b) r = row_at b r.
Proof. by destruct s. Qed.
Lemma slot_upd_moves s f b : moves_ (slot_upd s f b) = moves_ b.
Proof. by destruct s. Qed.
Lemma slot_upd_dropped s f b : dropped (slot_upd s f b) = dropped b.
Proof. by destruct s. Qed.
Lemma no_inst_flight r : r <> kNoRow -> inst_in_flight no_inst r = 0.
Proof. intros Hr. unfold inst_in_flight. cbn. rewrite !in_flight_elsewhere; [done | cbn; congruence..]. Qed.

Lemma flight_slot_upd b s f r : book_ok b -> has_row b r -> slot_ok b s -> same_place (slot_get b s) (f (slot_get b s)) ->
  flight (slot_upd s f b) r = flight b r - inst_in_flight (slot_get b s) r + inst_in_flight (f (slot_get b s)) r.
Proof.
  intros H Hr Hs Hp. pose proof (slot_inst_ok b s H Hs) as Hi. pose proof (same_inst_ok b _ _ Hp Hi) as Hj.
  rewrite <- (contrib_in_flight b r _ H Hr Hi), <- (contrib_in_flight b r _ H Hr Hj). unfold flight.
  assert (Ec : forall i, contrib (slot_upd s f b) r i = contrib b r i) by (intros i; unfold contrib; by rewrite slot_upd_row_at).
  rewrite (msum_ext (fun _ => contrib (slot_upd s f b) r) (fun _ => contrib b r)) by auto.
  rewrite (lsum_ext (contrib (slot_upd s f b) r) (contrib b r)) by auto. destruct s as [n|k]; cbn [slot_upd slot_get inst_ members_ fupd] in *.
  - unfold inst_at in *. destruct (inst_ b !! n) as [i|] eqn:E; cbn [default] in *.
    + rewrite (msum_update _ _ _ _ _ E). unfold id. cbn beta. lia.
    + rewrite msum_insert by done. rewrite (contrib_in_flight b r no_inst H Hr (no_inst_ok b)), no_inst_flight by by apply (has_row_not_none b r). lia.
  - cbn in Hs. unfold member_at in *. destruct (lookup_lt_is_Some_2 (members_ b) (Z.to_nat k)) as [i E]; [lia|]. rewrite E in *. cbn [default] in *.
    replace (alter f (Z.to_nat k) (members_ b)) with (<[Z.to_nat k := f i]> (members_ b)).
    + rewrite (lsum_update _ _ _ _ _ E). unfold id. lia.
    + apply list_eq. intros j. destruct (decide (j = Z.to_nat k)) as [-> |].
      * rewrite list_lookup_insert_eq, list_lookup_alter_eq, E by lia. done.
      * by rewrite list_lookup_insert_ne, list_lookup_alter_ne.
Qed.

(** ** What a change of holds does to the orders in flight *)

(** The larger side of the orders the venue has acknowledged. *)
Definition acked_side (i : Inst) : Z := Z.max (i64 (i_hold_buy i - i_unacked_buy i)) (i64 (i_hold_sell i - i_unacked_sell i)).
Definition at_row (i : Inst) (s : Side) (r d : Z) : Z := if row_of i s =? r then d else 0.

Lemma spot_in_flight i r : i_derivative i = false ->
  inst_in_flight i r =64 at_row i Buy r (i_unacked_buy i) + at_row i Sell r (i_unacked_sell i).
Proof.
  intros Hd. unfold inst_in_flight, in_flight, at_row. rewrite Hd. cbn [negb]. rewrite i64_eq64. cbn [unacked].
  by destruct (row_of i Buy =? r), (row_of i Sell =? r).
Qed.
Lemma derivative_in_flight i r s : i_derivative i = true -> inst_in_flight i r =64 at_row i s r (larger_side i - acked_side i).
Proof.
  intros Hd. unfold inst_in_flight, in_flight, at_row, row_of. rewrite Hd. cbn [negb]. destruct (i_margin i =? r); cbn [negb]; [|done]. apply i64_eq64.
Qed.
Lemma spot_add_unacked i s d r : i_derivative i = false -> inst_in_flight (add_unacked s d i) r =64 inst_in_flight i r + at_row i s r d.
Proof.
  intros Hd. rewrite !spot_in_flight by (destruct s; done). unfold at_row. rewrite !(same_row_of i _ _ (add_unacked_place s d i)).
  destruct s; cbn; destruct (row_of i Buy =? r), (row_of i Sell =? r); rewrite ?i64_eq64; eq64.
Qed.
Lemma derivative_add_unacked i s d r : i_derivative i = true ->
  inst_in_flight (add_hold s d (add_unacked s d i)) r =64 inst_in_flight i r + at_row i s r (larger_side (add_hold s d i) - larger_side i).
Proof.
  intros Hd. rewrite !(derivative_in_flight _ _ s) by (destruct s; done). unfold at_row.
  rewrite (same_row_of _ _ _ (add_hold_place s d _)), (same_row_of i _ _ (add_unacked_place s d i)). destruct (row_of i s =? r); [|done].
  assert (acked_side (add_hold s d (add_unacked s d i)) = acked_side i) as ->.
  { unfold acked_side. destruct s; cbn; f_equal; apply i64_proper; rewrite !i64_eq64; eq64. }
  assert (larger_side (add_hold s d (add_unacked s d i)) = larger_side (add_hold s d i)) as -> by by destruct s. eq64.
Qed.
(** An acknowledged order's change is netted alike with and without the orders in flight. *)
Definition nets_alike (i : Inst) (s : Side) (d : Z) : bool :=
  i64 (larger_side (add_hold s d i) - larger_side i) =? i64 (acked_side (add_hold s d i) - acked_side i).
Lemma derivative_add_hold i s d r : i_derivative i = true -> nets_alike i s d = true -> inst_in_flight (add_hold s d i) r =64 inst_in_flight i r.
Proof.
  intros Hd Hn. rewrite !(derivative_in_flight _ _ s) by (destruct s; done). unfold at_row. rewrite (same_row_of i _ _ (add_hold_place s d i)).
  destruct (row_of i s =? r); [|done]. apply Z.eqb_eq in Hn. unfold eq64.
  transitivity (i64 ((larger_side (add_hold s d i) - larger_side i) + (larger_side i - acked_side (add_hold s d i)))); [f_equal; lia|].
  assert (E : larger_side (add_hold s d i) - larger_side i =64 acked_side (add_hold s d i) - acked_side i) by exact Hn.
  rewrite E. f_equal. lia.
Qed.

(** ** What leaves the shape of the book alone *)

Record frame b b' : Prop := {
  fr_rows : length (rows_ b') = length (rows_ b);
  fr_venue : forall r, r_venue (row_at b' r) = r_venue (row_at b r);
  fr_inst : inst_ b' = inst_ b;
  fr_members : members_ b' = members_ b;
  fr_accounts : forall v, account_row (venue_at b' v) = account_row (venue_at b v);
}.
#[export] Instance frame_preorder : PreOrder frame.
Proof. split; [done|]. intros a b c [] []. split; intros; congruence. Qed.
Lemma frame_has_row b b' r : frame b b' -> has_row b r -> has_row b' r.
Proof. intros []. unfold has_row. by rewrite fr_rows0. Qed.
Lemma frame_row_ok b b' v r : frame b b' -> row_ok b v r -> row_ok b' v r.
Proof. intros Hf [->|[Hr Hv]]; [by left|]. right. split; [by apply (frame_has_row b b' r Hf)|]. by rewrite (fr_venue b b' Hf). Qed.
Lemma frame_ok b b' : frame b b' -> book_ok b -> book_ok b'.
Proof.
  intros Hf []. assert (Hi : forall i, inst_ok b i -> inst_ok b' i) by (intros i H s; apply (frame_row_ok b b' _ _ Hf), H). pose proof Hf as []. split.
  - by rewrite fr_rows0.
  - intros id i E. rewrite fr_inst0 in E. destruct (bo_insts0 id i E) as [H1 H2]. split; [by apply Hi|]. unfold members_ok. by rewrite fr_members0.
  - rewrite fr_members0. eapply Forall_impl; [exact bo_members0 | exact Hi].
  - intros v. rewrite fr_accounts0. by apply (frame_row_ok b b' _ _ Hf).
Qed.
Lemma frame_flight b b' r : frame b b' -> flight b' r = flight b r.
Proof. intros []. by apply flight_ext. Qed.
Lemma upd_row_frame r f b : (forall row, r_venue (f row) = r_venue row) -> frame b (upd_row r f b).
Proof.
  intros Hf. split; try done; [cbn; by rewrite length_alter|]. intros k. unfold row_at. cbn.
  destruct (decide (Z.to_nat k = Z.to_nat r)) as [-> |]; [|by rewrite list_lookup_alter_ne].
  rewrite list_lookup_alter_eq. destruct (rows_ b !! Z.to_nat r); [apply Hf | done].
Qed.
Lemma note_frame r ts f l t b : frame b (note r ts f l t b).
Proof. unfold note. repeat case_if; done. Qed.
Lemma upd_venue_frame v f b : (forall vs, account_row (f vs) = account_row vs) -> frame b (upd_venue v f b).
Proof.
  intros Hf. split; try done. intros u. unfold upd_venue, venue_at. cbn. destruct (decide (u = v)) as [-> |]; [|by rewrite lookup_insert_ne].
  rewrite lookup_insert_eq. apply Hf.
Qed.
Lemma rebase_step_frame r b : frame b (rebase_step r b).
Proof.
  unfold rebase_step. destruct (Ring.pop _ _) as [[x q]|]; [|done]. repeat case_if; try done.
  transitivity (b <| moves_ := q |>); [done|]. etransitivity; [apply (upd_row_frame r (apply_move (default no_move x))); done | done].
Qed.
Lemma rebase_frame r b : frame b (rebase r b).
Proof.
  unfold rebase. match goal with |- frame b (Nat.iter _ _ ?c) => assert (Hc : frame b c); [|generalize dependent c] end.
  { etransitivity; [|apply upd_row_frame; done]. unfold add_in_flight. by apply upd_row_frame. }
  intros c Hc. induction (Z.to_nat (Ring.size (moves_ c))) as [|n IH]; [done|]. cbn [Nat.iter nat_rect]. etransitivity; [exact IH | apply rebase_step_frame].
Qed.
Lemma slot_upd_ok s f b : slot_ok b s -> same_place (slot_get b s) (f (slot_get b s)) -> book_ok b -> book_ok (slot_upd s f b).
Proof.
  intros Hs Hp Hb. pose proof (slot_inst_ok b s Hb Hs) as Hi. pose proof (same_inst_ok b _ _ Hp Hi) as Hj. destruct Hb.
  destruct s as [id|k]; cbn [slot_upd slot_get] in *.
  - split; [done | | done | done]. intros n i E. cbn in E. apply lookup_insert_Some in E as [[<- <-] | [Hne E]]; [|by apply (bo_insts0 n)].
    split; [done|]. change (members_ok b (f (inst_at b id))). unfold members_ok. rewrite (sp_n _ _ Hp), (sp_first _ _ Hp). unfold inst_at.
    destruct (inst_ b !! id) as [i|] eqn:Ei; [|by left]. by apply (bo_insts0 id i Ei).
  - split; [done | | | done].
    + intros n i E. destruct (bo_insts0 n i E) as [H1 H2]. split; [done|]. unfold members_ok. cbn. by rewrite length_alter.
    + cbn. apply Forall_lookup. intros n i E. destruct (decide (n = Z.to_nat k)) as [-> |Hne].
      * rewrite list_lookup_alter_eq in E. unfold member_at in Hj. destruct (members_ b !! Z.to_nat k) as [j|]; [|done]. cbn in E. injection E as <-. exact Hj.
      * rewrite list_lookup_alter_ne in E by done. by apply (proj1 (Forall_lookup _ _) bo_members0 n).
Qed.
