(* ===== verification/BalanceSteps.v ===== *)
(** * BalanceSteps: each operation of the book on the estimate of a row

    For every operation, the events of a row it amounts to ([_events]) and that the row follows its specification through
    them, while the book stays well formed. *)

From S2P Require Import Prelude Types FixedPoint Instruments RingBuffer MapSum BalanceBook BalanceOps BalanceInv BalanceFlight.
Implicit Type b : BalanceBook.

Abbreviation follow := (fold_left est_step).

(** ** Moves of one asset *)

Definition asset_events (r0 d : Z) (ts : Timestamp) (r : Z) : list RowEvent :=
  if (r0 =? r) && negb (d =? 0) then [EMove (mkMove ts d 0 d r)] else [].
Definition some_row b (r : Z) : Prop := r = kNoRow \/ has_row b r.
Lemma row_ok_some b v r : row_ok b v r -> some_row b r.
Proof. intros [H|[H _]]; [by left | by right]. Qed.

Lemma move_asset_frame r d ts b : frame b (move_asset r d ts b).
Proof. unfold move_asset. repeat case_if; try done. etransitivity; [|apply note_frame]. by apply upd_row_frame. Qed.

(** The three ways a row sees the move [m] of row [k]: it is the row and the last report has the move, it is the row, it is another. *)
Lemma est_moved b b1 k e m d r : book_ok b -> has_row b k -> has_row b r -> m_row m = k -> estimates b r e ->
  moves_ b1 = moves_ b -> dropped b1 = dropped b ->
  (k = r -> shifted (row_at b r) (row_at b1 r) m d /\ flight b1 r =64 flight b r - d) ->
  (k <> r -> row_at b1 r = row_at b r /\ flight b1 r =64 flight b r) ->
  est_counts e (m_venue_ts m) = false \/ k <> r ->
  let b' := note k (m_venue_ts m) (m_free m) (m_locked m) (m_total m) b1 in
  dropped b' = dropped b -> estimates b' r (if k =? r then est_step e (EMove m) else e).
Proof.
  intros Hb Hk Hr Hm He Hq Hd H1 H2 Hc b' Hd'. destruct (Z.eqb_spec k r) as [-> |Hne].
  - destruct (H1 eq_refl) as [Hs Hf]. destruct Hc as [Hc|]; [|done]. apply (est_move_row b b1 r e m d); try done. unfold b' in Hd'. congruence.
  - destruct (H2 Hne) as [Hs Hf]. apply est_note_other; [done | | unfold b' in Hd'; congruence]. by apply (estimates_ext b).
Qed.

Lemma est_move_asset b r0 d ts r e : book_ok b -> some_row b r0 -> has_row b r -> estimates b r e ->
  dropped (move_asset r0 d ts b) = dropped b -> estimates (move_asset r0 d ts b) r (follow (asset_events r0 d ts r) e).
Proof.
  intros Hb H0 Hr He Hd. pose proof (has_row_not_none b r Hb Hr) as Hn. unfold move_asset, asset_events in *.
  destruct (Z.eqb_spec r0 kNoRow) as [-> |Hr0]; [apply not_eq_sym, Z.eqb_neq in Hn as ->; done|]. destruct (Z.eqb_spec d 0) as [-> |Hd0]; [by rewrite andb_false_r|].
  destruct H0 as [|H0]; [done|]. cbn [orb negb] in *. rewrite andb_true_r.
  destruct (counted (row_at b r0) ts) eqn:Ec.
  - destruct (Z.eqb_spec r0 r) as [-> |]; [|done]. rewrite (counted_est b r e ts He) in Ec. cbn. by rewrite Ec.
  - set (f := fun row : Row => _) in *.
    pose proof (est_moved b (upd_row r0 f b) r0 e (mkMove ts d 0 d r0) 0 r Hb H0 Hr eq_refl He eq_refl eq_refl) as H. cbn [m_venue_ts m_free m_locked m_total] in H.
    assert (est_counts e ts = false \/ r0 <> r) as Hc. { destruct (decide (r0 = r)) as [-> |]; [|by right]. left. by rewrite <- (counted_est b r e ts He). }
    assert (Hfl : flight (upd_row r0 f b) r =64 flight b r) by (rewrite (frame_flight b) by (apply upd_row_frame; done); done).
    specialize (H ltac:(intros ->; split; [rewrite row_at_upd by done; split; unfold f; cbn; rewrite ?i64_eq64; try done; eq64 | rewrite Hfl; eq64])
                  ltac:(intros Hne; split; [apply row_at_upd_ne; unfold has_row in *; lia | exact Hfl]) Hc Hd).
    destruct (Z.eqb_spec r0 r) as [-> |]; exact H.
Qed.

(** ** Transfers and reservations *)

Lemma find_from_row v a rows : forall k, 0 <= k -> find_from v a rows k = kNoRow \/
  (k <= find_from v a rows k < k + Z.of_nat (length rows) /\
   exists row, rows !! Z.to_nat (find_from v a rows k - k) = Some row /\ r_venue row = v /\ r_account row = false /\ same_currency (r_asset row) a = true).
Proof.
  induction rows as [|row rows IH]; intros k Hk; [by left|]. cbn [find_from]. case_if.
  - right. split; [cbn; lia|]. exists row. rewrite Z.sub_diag. split; [done|]. destruct (r_account row), (Z.eqb_spec (r_venue row) v); try done.
  - destruct (IH (k + 1) ltac:(lia)) as [|[Hb (x & Hx & Hp)]]; [by left|]. right. split; [cbn [length]; lia|]. exists x. split; [|done].
    replace (Z.to_nat (find_from v a rows (k + 1) - k)) with (S (Z.to_nat (find_from v a rows (k + 1) - (k + 1)))) by lia. done.
Qed.
Lemma find_row_ok b v a : row_ok b v (find b v a).
Proof.
  unfold find. destruct (find_from_row v a (rows_ b) 0 ltac:(lia)) as [->|[Hb (x & Hx & Hv & _)]]; [by left|]. right. split; [unfold has_row; lia|].
  unfold row_at. rewrite Z.sub_0_r in Hx. by rewrite Hx.
Qed.
Lemma reserve_frame v a d b : frame b (snd (reserve v a d b)).
Proof. unfold reserve. case_if; [done|]. cbn. by apply upd_row_frame. Qed.
Lemma est_reserve b v a d r e : book_ok b -> has_row b r -> estimates b r e -> estimates (snd (reserve v a d b)) r e.
Proof.
  intros Hb Hr He. pose proof (reserve_frame v a d b) as Hf. pose proof (find_row_ok b v a) as Hok. unfold reserve in *.
  destruct (Z.eqb_spec (find b v a) kNoRow) as [|Hn]; [done|]. cbn [snd] in *. destruct Hok as [|[Hk _]]; [done|]. set (k := find b v a) in *.
  set (b' := upd_row k _ b) in *. destruct (decide (k = r)) as [-> |Hne].
  - assert (Hrow : row_at b' r = (row_at b r) <| r_reserved ::= fun x => i64 (x + d) |> <| r_free ::= fun x => i64 (x - d) |>) by by apply row_at_upd.
    destruct He. split; rewrite ?Hrow, ?(frame_flight b b' r Hf); cbn; try done. rewrite !i64_eq64, es_free. eq64.
  - apply (estimates_ext b); [apply row_at_upd_ne; unfold has_row in *; lia | by rewrite (frame_flight b b' r Hf) | done | done].
Qed.

(** ** Holds *)

Definition hold_delta (i : Inst) (s : Side) (d : Z) : Z := if i_derivative i then i64 (larger_side (add_hold s d i) - larger_side i) else d.
(** An acknowledged order's hold moved; what an order in flight holds is not an event of the row. *)
Definition hold_events (k delta : Z) (ts : Timestamp) (is_unacked : bool) (r : Z) : list RowEvent :=
  if (k =? r) && negb (delta =? 0) && negb is_unacked then [EMove (mkMove ts (i64 (- delta)) delta 0 r)] else [].

(** A change of one instrument state that no row shows yet. *)
Record unshown b b1 : Prop := {
  us_len : length (rows_ b1) = length (rows_ b);
  us_row : forall r, row_at b1 r = row_at b r;
  us_moves : moves_ b1 = moves_ b;
  us_dropped : dropped b1 = dropped b;
}.
Lemma slot_upd_unshown s f b : unshown b (slot_upd s f b).
Proof. split; [by rewrite slot_upd_rows | intros; apply slot_upd_row_at | apply slot_upd_moves | apply slot_upd_dropped]. Qed.
#[export] Instance unshown_preorder : PreOrder unshown.
Proof. split; [done|]. intros a b c [] []. split; intros; congruence. Qed.
Lemma unshown_has_row b b1 r : unshown b b1 -> has_row b r -> has_row b1 r.
Proof. intros []. unfold has_row. congruence. Qed.

Lemma est_hold_row b b1 k delta ts u r e : book_ok b -> unshown b b1 -> some_row b k -> has_row b r -> estimates b r e ->
  flight b1 r =64 flight b r + (if u && (k =? r) then delta else 0) ->
  dropped (move_hold_row k delta ts u b1) = dropped b -> estimates (move_hold_row k delta ts u b1) r (follow (hold_events k delta ts u r) e).
Proof.
  intros Hb Hu Hk Hr He Hfl Hd. pose proof (has_row_not_none b r Hb Hr) as Hn. pose proof Hu as [Hlen Hrow Hq Hdr]. unfold move_hold_row, hold_events in *.
  assert (Hsame : (u && (k =? r) = false \/ delta = 0) -> estimates b1 r e).
  { intros Hz. apply (estimates_ext b); [apply Hrow | | done | done]. rewrite Hfl. destruct Hz as [-> | ->]; [eq64 | case_match; eq64]. }
  destruct (Z.eqb_spec k kNoRow) as [-> |Hk0]; [apply not_eq_sym, Z.eqb_neq in Hn; rewrite Hn in *; apply Hsame; left; apply andb_false_r|].
  destruct (Z.eqb_spec delta 0) as [-> |Hd0]; [rewrite !andb_false_r; apply Hsame; by right|]. destruct Hk as [|Hk]; [done|]. cbn [orb negb] in *. rewrite andb_true_r.
  pose proof (unshown_has_row b b1 k Hu Hk) as Hk1.
  set (f := fun row : Row => _) in *. set (b2 := upd_row k f b1) in *.
  assert (Hf2 : frame b1 b2) by by apply upd_row_frame. assert (Hfl2 : flight b2 r = flight b1 r) by by apply frame_flight.
  assert (Hother : k <> r -> row_at b2 r = row_at b r) by (intros Hne; unfold b2; rewrite row_at_upd_ne by (unfold has_row in *; lia); apply Hrow).
  destruct u; cbn [negb andb] in *.
  - rewrite andb_false_r. destruct (Z.eqb_spec k r) as [-> |Hne].
    + apply (est_flight b b2 r e (- delta) He Hq); [|rewrite Hfl2, Hfl; eq64]. unfold b2. rewrite row_at_upd by done. rewrite Hrow. split; cbn; rewrite ?i64_eq64; try done; eq64.
    + apply (estimates_ext b); [by apply Hother | rewrite Hfl2, Hfl; eq64 | done | done].
  - rewrite andb_true_r. rewrite Z.add_0_r in Hfl. destruct (counted (row_at b1 k) ts) eqn:Ec.
    + destruct (Z.eqb_spec k r) as [-> |]; [|by apply Hsame; left]. rewrite Hrow, (counted_est b r e ts He) in Ec. cbn. rewrite Ec. by apply Hsame; left.
    + pose proof (est_moved b b2 k e (mkMove ts (i64 (- delta)) delta 0 k) 0 r Hb Hk Hr eq_refl He Hq Hdr) as H. cbn [m_venue_ts m_free m_locked m_total] in H.
      assert (est_counts e ts = false \/ k <> r) as Hc. { destruct (decide (k = r)) as [-> |]; [|by right]. left. by rewrite <- (counted_est b r e ts He), <- Hrow. }
      specialize (H ltac:(intros ->; split; [unfold b2; rewrite row_at_upd by done; rewrite Hrow; split; unfold f; cbn; rewrite ?i64_eq64; try done; eq64 | rewrite Hfl2, Hfl; eq64])
                    ltac:(intros Hne; split; [by apply Hother | by rewrite Hfl2, Hfl]) Hc Hd).
      destruct (Z.eqb_spec k r) as [-> |]; exact H.
Qed.

Definition move_hold_events b (id : InstrumentId) (s : Side) (before after : Z) (ts : Timestamp) (u : bool) (account : VenueId) (r : Z) : list RowEvent :=
  let i := slot_get b (slot b id account) in
  if (kMaxInstruments <=? id) || (before =? after) then [] else hold_events (row_of i s) (hold_delta i s (i64 (after - before))) ts u r.
Definition hold_nets b (id : InstrumentId) (s : Side) (before after : Z) (u : bool) (account : VenueId) : bool :=
  let i := slot_get b (slot b id account) in u || negb (i_derivative i) || nets_alike i s (i64 (after - before)).

Lemma move_hold_row_frame k delta ts u b : frame b (move_hold_row k delta ts u b).
Proof.
  unfold move_hold_row. repeat case_if; try done.
  - by apply upd_row_frame.
  - etransitivity; [|apply note_frame]. by apply upd_row_frame.
Qed.
Lemma move_hold_ok id s before after ts u account b : book_ok b -> book_ok (move_hold id s before after ts u account b).
Proof.
  intros Hb. pose proof (account_slot_ok b id account Hb) as Hs. unfold move_hold. case_if; [done|]. set (sl := slot b id account) in *.
  assert (Hu : book_ok (if u then slot_upd sl (add_unacked s (i64 (after - before))) b else b) /\ slot_ok (if u then slot_upd sl (add_unacked s (i64 (after - before))) b else b) sl).
  { destruct u; [|done]. split; [apply slot_upd_ok; [done | apply add_unacked_place | done]|]. destruct sl; [done|]. cbn in *. by rewrite length_alter. }
  destruct Hu as [Hu Hsu]. case_if; eapply frame_ok; [apply move_hold_row_frame | done | apply move_hold_row_frame|].
  apply slot_upd_ok; [done | apply add_hold_place | done].
Qed.

Lemma est_move_hold b id s before after ts u account r e : book_ok b -> has_row b r -> estimates b r e ->
  hold_nets b id s before after u account = true ->
  dropped (move_hold id s before after ts u account b) = dropped b ->
  estimates (move_hold id s before after ts u account b) r (follow (move_hold_events b id s before after ts u account r) e).
Proof.
  intros Hb Hr He Hn Hd. unfold move_hold, move_hold_events, hold_nets in *. case_if; [done|].
  pose proof (account_slot_ok b id account Hb) as Hs. set (sl := slot b id account) in *. set (i := slot_get b sl) in *. set (d := i64 (after - before)) in *.
  pose proof (slot_inst_ok b sl Hb Hs) as Hi. fold i in Hi.
  assert (Hrow : some_row b (row_of i s)) by apply (row_ok_some b _ _ (Hi s)).
  set (b0 := if u then slot_upd sl (add_unacked s d) b else b) in *. set (i0 := slot_get b0 sl) in *.
  assert (Ei0 : i0 = if u then add_unacked s d i else i) by (unfold i0, b0; destruct u; [by rewrite slot_get_upd | done]).
  assert (Hp : same_place i i0) by (rewrite Ei0; destruct u; [apply add_unacked_place | done]).
  assert (Hu0 : unshown b b0) by (unfold b0; destruct u; [apply slot_upd_unshown | done]).
  assert (Hs0 : slot_ok b0 sl) by (unfold b0; destruct u; [|done]; destruct sl; [done|]; cbn in *; by rewrite length_alter).
  assert (Hf0 : flight b0 r = flight b r - inst_in_flight i r + inst_in_flight i0 r).
  { rewrite Ei0. unfold b0. destruct u; [|lia]. apply flight_slot_upd; [done | done | done | apply add_unacked_place]. }
  assert (Hb0 : book_ok b0) by (unfold b0; destruct u; [|done]; apply slot_upd_ok; [done | apply add_unacked_place | done]).
  assert (Hr0 : has_row b0 r) by by apply (unshown_has_row b b0 r Hu0).
  rewrite (sp_derivative _ _ Hp) in *. unfold hold_delta. destruct (i_derivative i) eqn:Ed; cbn [negb] in *.
  - set (b1 := slot_upd sl (add_hold s d) b0) in *.
    assert (Ei1 : slot_get b1 sl = add_hold s d i0) by (unfold b1; by rewrite slot_get_upd).
    assert (Hl : i64 (larger_side (slot_get b1 sl) - larger_side i0) = i64 (larger_side (add_hold s d i) - larger_side i)) by (rewrite Ei1, Ei0; by destruct u, s).
    rewrite Hl in *. replace (i_margin i0) with (row_of i s) in * by (unfold row_of; rewrite Ed; symmetry; apply Hp).
    apply est_hold_row with (b := b); try done; [unfold b1; etransitivity; [exact Hu0 | apply slot_upd_unshown]|].
    unfold b1. rewrite flight_slot_upd by (done || apply add_hold_place). fold i0. rewrite Hf0, Ei0.
    destruct u; cbn [andb].
    + rewrite (derivative_add_unacked i s d r Ed). unfold at_row. case_match; rewrite ?i64_eq64; eq64.
    + cbn [orb] in Hn. rewrite (derivative_add_hold i s d r Ed Hn). eq64.
  - replace (match s with Buy => i_quote i0 | Sell => i_base i0 end) with (row_of i s) in *
      by (unfold row_of; rewrite Ed; destruct s; symmetry; apply Hp).
    apply est_hold_row with (b := b); try done. rewrite Hf0, Ei0. destruct u; cbn [andb]; [|eq64].
    rewrite (spot_add_unacked i s d r Ed). unfold at_row. eq64.
Qed.

(** ** Acknowledgements *)

Definition ack_back (i : Inst) (s : Side) (amount : Z) : Z :=
  i64 (in_flight i s (row_of i s) - in_flight (add_unacked s (- amount) i) s (row_of i s)).
Definition ack_events b (id : InstrumentId) (s : Side) (amount : Z) (ts : Timestamp) (account : VenueId) (r : Z) : list RowEvent :=
  let i := slot_get b (slot b id account) in
  if (kMaxInstruments <=? id) || (amount =? 0) || negb (row_of i s =? r) then []
  else [EMove (mkMove ts (i64 (- ack_back i s amount)) (ack_back i s amount) 0 r)].

Lemma ack_flight i s a r : inst_in_flight (add_unacked s a i) r =64 inst_in_flight i r - (in_flight i s r - in_flight (add_unacked s a i) s r).
Proof.
  assert (Hside : forall j t, i_derivative j = true -> in_flight j t r = in_flight j Buy r) by (intros j t Hj; unfold in_flight, row_of; by rewrite Hj).
  unfold inst_in_flight. rewrite (sp_derivative _ _ (add_unacked_place s a i)). destruct (i_derivative i) eqn:Ed.
  - rewrite (Hside i s Ed), (Hside (add_unacked s a i) s) by by destruct s. eq64.
  - rewrite !i64_eq64. destruct s.
    + assert (in_flight (add_unacked Buy a i) Sell r = in_flight i Sell r) as -> by (unfold in_flight, row_of; cbn; by rewrite Ed). eq64.
    + assert (in_flight (add_unacked Sell a i) Buy r = in_flight i Buy r) as -> by (unfold in_flight, row_of; cbn; by rewrite Ed). eq64.
Qed.

Lemma acknowledge_ok id s amount ts account b : book_ok b -> book_ok (acknowledge id s amount ts account b).
Proof.
  intros Hb. unfold acknowledge. case_if; [done|]. pose proof (account_slot_ok b id account Hb) as Hs. set (sl := slot b id account) in *.
  assert (H1 : book_ok (slot_upd sl (add_unacked s (- amount)) b)) by (apply slot_upd_ok; [done | apply add_unacked_place | done]).
  repeat case_if; try done; (eapply frame_ok; [|exact H1]); [apply note_frame | by apply upd_row_frame].
Qed.
Lemma est_acknowledge b id s amount ts account r e : book_ok b -> has_row b r -> estimates b r e ->
  dropped (acknowledge id s amount ts account b) = dropped b ->
  estimates (acknowledge id s amount ts account b) r (follow (ack_events b id s amount ts account r) e).
Proof.
  intros Hb Hr He Hd. pose proof (has_row_not_none b r Hb Hr) as Hn. unfold acknowledge, ack_events in *.
  destruct ((kMaxInstruments <=? id) || (amount =? 0)); [done|]. cbn [orb].
  pose proof (account_slot_ok b id account Hb) as Hs. set (sl := slot b id account) in *. set (i := slot_get b sl) in *.
  pose proof (slot_inst_ok b sl Hb Hs s) as Hrow. fold i in Hrow. apply row_ok_some in Hrow.
  set (b1 := slot_upd sl (add_unacked s (- amount)) b) in *.
  assert (Ei1 : slot_get b1 sl = add_unacked s (- amount) i) by (unfold b1; by rewrite slot_get_upd).
  assert (Hu : unshown b b1) by apply slot_upd_unshown. pose proof Hu as [_ Hrows Hq Hdr].
  assert (Hf1 : flight b1 r =64 flight b r - (in_flight i s r - in_flight (add_unacked s (- amount) i) s r)).
  { unfold b1. rewrite flight_slot_upd by (done || apply add_unacked_place). fold i. rewrite (ack_flight i s (- amount) r). eq64. }
  assert (Hother : row_of i s <> r -> flight b1 r =64 flight b r).
  { intros Hne. rewrite Hf1, !in_flight_elsewhere by (rewrite ?(same_row_of _ _ s (add_unacked_place s (- amount) i)); done). eq64. }
  assert (Hsame : row_of i s <> r -> estimates b1 r e) by (intros Hne; apply (estimates_ext b); [apply Hrows | by apply Hother | done | done]).
  destruct (Z.eqb_spec (row_of i s) kNoRow) as [E|Hk]; [rewrite E in *; assert (kNoRow =? r = false) as -> by lia; by apply Hsame|].
  destruct Hrow as [|Hrow]; [done|]. rewrite Ei1 in *. fold (ack_back i s amount) in *. set (k := row_of i s) in *.
  assert (Hback : k = r -> flight b1 r =64 flight b r - ack_back i s amount) by (intros <-; rewrite Hf1; unfold ack_back; rewrite i64_eq64; eq64).
  destruct (counted (row_at b1 k) ts) eqn:Ec; cbn [negb] in *.
  - set (f := fun row : Row => _) in *. assert (Hfl : flight (upd_row k f b1) r = flight b1 r) by (apply frame_flight; by apply upd_row_frame).
    destruct (Z.eqb_spec k r) as [Ek|Hne]; cbn [negb].
    + cbn. rewrite Hrows, Ek, (counted_est b r e ts He) in Ec. rewrite Ec.
      apply (est_flight b (upd_row k f b1) r e (ack_back i s amount) He Hq); [|by rewrite Hfl, Hback].
      rewrite <- Ek, row_at_upd by by apply (unshown_has_row b). rewrite Hrows. split; unfold f; cbn; rewrite ?i64_eq64; try done; eq64.
    + apply (estimates_ext b1); [apply row_at_upd_ne; unfold has_row in *; lia | by rewrite Hfl | done | by apply Hsame].
  - pose proof (est_moved b b1 k e (mkMove ts (i64 (- ack_back i s amount)) (ack_back i s amount) 0 k) (ack_back i s amount) r Hb Hrow Hr eq_refl He Hq Hdr) as H.
    cbn [m_venue_ts m_free m_locked m_total] in H.
    assert (est_counts e ts = false \/ k <> r) as Hc. { destruct (decide (k = r)) as [Ek|]; [|by right]. left. by rewrite <- (counted_est b r e ts He), <- Hrows, <- Ek. }
    specialize (H ltac:(intros Ek; split; [rewrite Hrows; split; cbn; rewrite ?i64_eq64; try done; eq64 | by apply Hback])
                  ltac:(intros Hne; split; [apply Hrows | by apply Hother]) Hc Hd).
    destruct (Z.eqb_spec k r) as [Ek|]; cbn [negb]; [rewrite <- Ek at 2; exact H | exact H].
Qed.

(** ** Fills *)

Definition fill_base (s : Side) (qty : Qty) (fee : Notional) (fa : FeeAsset) : Z :=
  let base := match s with Buy => qty | Sell => i64 (- qty) end in if bool_decide (fa = FeeBase) then i64 (base - fee) else base.
Definition fill_quote (s : Side) (n : Notional) (fee : Notional) (fa : FeeAsset) : Z :=
  let quote := match s with Buy => i64 (- n) | Sell => n end in if bool_decide (fa = FeeQuote) then i64 (quote - fee) else quote.
Definition settled_fee (inst : Instrument) (fee : Notional) (fa : FeeAsset) : Z :=
  if (if inverse inst then bool_decide (fa = FeeBase) else bool_decide (fa = FeeQuote)) then fee else 0.
Definition fill_events b (id : InstrumentId) (inst : Instrument) (s : Side) (px : Price) (qty : Qty) (fee : Notional) (fa : FeeAsset)
    (pb pa : Z) (ts : Timestamp) (account : VenueId) (r : Z) : list RowEvent :=
  let i := slot_get b (slot b id account) in
  if kMaxInstruments <=? id then []
  else if negb (i_derivative i) then
    asset_events (i_base i) (fill_base s qty fee fa) ts r ++ asset_events (i_quote i) (fill_quote s (notional inst px qty) fee fa) ts r
  else if i_margin i =? r then
    let im := fill_margin inst i px pb pa in
    let f := settled_fee inst fee fa in
    [EMove (mkMove ts (i64 (- i64 (im + f))) im (i64 (- f)) r)]
  else [].
Definition correct_events b (id : InstrumentId) (inst : Instrument) (s : Side) (estimate px : Price) (qty : Qty) (ts : Timestamp) (account : VenueId) (r : Z) : list RowEvent :=
  let i := slot_get b (slot b id account) in
  if (kMaxInstruments <=? id) || negb (0 <? qty) || (estimate =? px) || i_derivative i then []
  else
    let d := i64 (notional inst px qty - notional inst estimate qty) in
    asset_events (i_quote i) (match s with Buy => i64 (- d) | Sell => d end) ts r.

Lemma note_dropped r ts f l t b : dropped (note r ts f l t b) = dropped b \/ dropped (note r ts f l t b) = u64 (dropped b + 1).
Proof. unfold note. repeat case_if; (by left) || (by right). Qed.
Lemma move_asset_dropped r d ts b : dropped (move_asset r d ts b) = dropped b \/ dropped (move_asset r d ts b) = u64 (dropped b + 1).
Proof.
  unfold move_asset. repeat case_if; try (by left). match goal with |- context [note r ts d 0 d ?c] => change (dropped b) with (dropped c) end. apply note_dropped.
Qed.
Lemma two_moves_dropped r d r' d' ts b : dropped (move_asset r' d' ts (move_asset r d ts b)) = dropped b -> dropped (move_asset r d ts b) = dropped b.
Proof.
  destruct (move_asset_dropped r d ts b) as [E|E]; [done|]. destruct (move_asset_dropped r' d' ts (move_asset r d ts b)) as [E'|E']; rewrite E'; [done|].
  rewrite E. unfold u64. intros H. exfalso. rewrite Zplus_mod_idemp_l in H.
  pose proof (Z.mod_pos_bound (dropped b + 1 + 1) (2 ^ 64) ltac:(lia)). pose proof (Z.div_mod (dropped b + 1 + 1) (2 ^ 64) ltac:(lia)). lia.
Qed.

Lemma on_fill_frame id inst s px qty fee fa pb pa ts account b : frame b (on_fill id inst s px qty fee fa pb pa ts account b).
Proof.
  unfold on_fill. repeat case_if; try done; try (etransitivity; [apply move_asset_frame | apply move_asset_frame]);
    (etransitivity; [|apply note_frame]; by apply upd_row_frame).
Qed.
Lemma est_fill b id inst s px qty fee fa pb pa ts account r e : book_ok b -> has_row b r -> estimates b r e ->
  dropped (on_fill id inst s px qty fee fa pb pa ts account b) = dropped b ->
  estimates (on_fill id inst s px qty fee fa pb pa ts account b) r (follow (fill_events b id inst s px qty fee fa pb pa ts account r) e).
Proof.
  intros Hb Hr He Hd. pose proof (has_row_not_none b r Hb Hr) as Hn. unfold on_fill, fill_events in *. destruct (kMaxInstruments <=? id); [done|].
  pose proof (account_slot_ok b id account Hb) as Hs. set (i := slot_get b (slot b id account)) in *.
  pose proof (slot_inst_ok b _ Hb Hs) as Hi. fold i in Hi. unfold inst_ok, row_of in Hi.
  fold (fill_base s qty fee fa) (fill_quote s (notional inst px qty) fee fa) (settled_fee inst fee fa) in *.
  destruct (i_derivative i) eqn:Ed; cbn [negb] in *.
  - specialize (Hi Buy). apply row_ok_some in Hi. set (k := i_margin i) in *.
    destruct (Z.eqb_spec k kNoRow) as [E|Hk]; [rewrite E; assert (kNoRow =? r = false) as -> by lia; done|]. destruct Hi as [|Hi]; [done|].
    set (im := fill_margin inst i px pb pa) in *. set (fe := settled_fee inst fee fa) in *.
    destruct (counted (row_at b k) ts) eqn:Ec.
    + destruct (Z.eqb_spec k r) as [Ek|]; [|done]. rewrite Ek, (counted_est b r e ts He) in Ec. cbn. by rewrite Ec.
    + set (f := fun row : Row => _) in *.
      pose proof (est_moved b (upd_row k f b) k e (mkMove ts (i64 (- i64 (im + fe))) im (i64 (- fe)) k) 0 r Hb Hi Hr eq_refl He eq_refl eq_refl) as H.
      cbn [m_venue_ts m_free m_locked m_total] in H.
      assert (Hfl : flight (upd_row k f b) r =64 flight b r) by (rewrite (frame_flight b) by (apply upd_row_frame; done); done).
      assert (est_counts e ts = false \/ k <> r) as Hc. { destruct (decide (k = r)) as [Ek|]; [|by right]. left. by rewrite <- (counted_est b r e ts He), <- Ek. }
      specialize (H ltac:(intros Ek; split; [rewrite <- Ek, row_at_upd by done; split; unfold f; cbn; rewrite ?i64_eq64; try done; eq64 | rewrite Hfl; eq64])
                    ltac:(intros Hne; split; [apply row_at_upd_ne; unfold has_row in *; lia | exact Hfl]) Hc Hd).
      destruct (Z.eqb_spec k r) as [Ek|]; [rewrite <- Ek at 2; exact H | exact H].
  - pose proof (row_ok_some _ _ _ (Hi Buy)) as H1. pose proof (row_ok_some _ _ _ (Hi Sell)) as H2. pose proof (two_moves_dropped _ _ _ _ _ _ Hd) as Hd1.
    pose proof (move_asset_frame (i_base i) (fill_base s qty fee fa) ts b) as Hf. rewrite fold_left_app. apply est_move_asset; [by apply (frame_ok b) | | by apply (frame_has_row b) | | congruence].
    + destruct H1 as [|H1]; [by left | right; by apply (frame_has_row b)].
    + by apply est_move_asset.
Qed.
Lemma correct_fill_frame id inst s estimate px qty ts account b : frame b (correct_fill id inst s estimate px qty ts account b).
Proof. unfold correct_fill. repeat case_if; try done. apply move_asset_frame. Qed.
Lemma est_correct_fill b id inst s estimate px qty ts account r e : book_ok b -> has_row b r -> estimates b r e ->
  dropped (correct_fill id inst s estimate px qty ts account b) = dropped b ->
  estimates (correct_fill id inst s estimate px qty ts account b) r (follow (correct_events b id inst s estimate px qty ts account r) e).
Proof.
  intros Hb Hr He Hd. unfold correct_fill, correct_events in *. destruct ((kMaxInstruments <=? id) || negb (0 <? qty) || (estimate =? px)); [done|]. cbn [orb].
  pose proof (slot_inst_ok b _ Hb (account_slot_ok b id account Hb) Buy) as Hi. unfold row_of in Hi. destruct (i_derivative _); [done|].
  apply est_move_asset; try done. by apply row_ok_some in Hi.
Qed.
