(* ===== verification/BalanceReports.v ===== *)
(** * BalanceReports: the reports of a venue on the estimate of a row

    A report replaces the row it names; the first report of the account row makes the derivatives of the venue draw on it;
    the end of a snapshot replaces the rows it did not name with nothing. *)

From S2P Require Import Prelude Types FixedPoint Instruments RingBuffer MapSum BalanceBook BalanceOps BalanceInv BalanceFlight BalanceSteps.
Implicit Type b : BalanceBook.

Lemma begin_report_frame m b : frame b (begin_report m b).
Proof.
  unfold begin_report, start_snapshot. set (b0 := b <| live_ := true |> <| bstats_ ::= _ |>). assert (H0 : frame b b0) by done.
  case_if; [|done]. etransitivity; [exact H0|]. by apply upd_venue_frame.
Qed.
Lemma est_begin_report m b r e : estimates b r e -> estimates (begin_report m b) r e.
Proof.
  intros He. apply (estimates_ext b); [| | |done].
  - unfold begin_report, start_snapshot. by case_if.
  - by rewrite (frame_flight b _ r (begin_report_frame m b)).
  - unfold begin_report, start_snapshot. by case_if.
Qed.
Lemma begin_report_dropped m b : dropped (begin_report m b) = dropped b.
Proof. unfold begin_report, start_snapshot. by case_if. Qed.
Lemma reported_row_ok m b : book_ok b -> row_ok b (bm_venue m) (reported_row m b).
Proof. intros Hb. unfold reported_row. case_if; [apply (bo_accounts b Hb)|]. destruct (bm_asset m); [by left | apply find_row_ok]. Qed.

(** ** The account row takes over *)

Lemma use_account_ok v k b : book_ok b -> has_row b k -> r_venue (row_at b k) = v -> book_ok (use_account v k b).
Proof.
  intros Hb Hk Hv. pose proof Hb as []. unfold use_account. set (f := fun i : Inst => _).
  assert (Hf : forall i, inst_ok b i -> inst_ok b (f i)).
  { intros i Hi. unfold f. destruct (Z.eqb_spec (i_venue i) v) as [Ev|], (i_derivative i) eqn:Ed; cbn [andb]; try done. intros s. right.
    unfold row_of. cbn. rewrite Ed. split; [done | congruence]. }
  assert (Hn : forall i, i_n_members (f i) = i_n_members i /\ i_first_member (f i) = i_first_member i) by (intros i; unfold f; by case_if).
  split; cbn.
  - done.
  - intros id i E. rewrite lookup_fmap in E. apply fmap_Some in E as (j & Ej & ->). destruct (bo_insts id j Ej) as [H1 H2].
    split; [by apply Hf|]. unfold members_ok in *. cbn. rewrite length_fmap. by destruct (Hn j) as [-> ->].
  - apply Forall_fmap. eapply Forall_impl; [exact bo_members|]. intros i Hi. by apply Hf.
  - intros u. change (row_ok b u (account_row (venue_at (upd_venue v (fun vs => vs <| account_reported := true |>) b) u))).
    assert (Hfr : frame b (upd_venue v (fun vs => vs <| account_reported := true |>) b)) by by apply upd_venue_frame.
    rewrite (fr_accounts _ _ Hfr). apply bo_accounts.
Qed.
(** What the venue's derivatives in flight held of another row stays held there until its next report. *)
Lemma est_unstamped b b' r e x : estimates b r e -> row_at b' r = row_at b r -> moves_ b' = moves_ b -> flight b' r = flight b r + x ->
  estimates b' r (est_step e (EMove (mkMove 0 x (- x) 0 r))).
Proof.
  intros [] Hrow Hq Hfl. cbn [est_step m_venue_ts]. assert (est_counts e 0 = false) as ->.
  { unfold est_counts. change (ts_valid 0) with false. by rewrite andb_false_r. }
  set (m' := if e_reported e then _ else _). assert (m' = mkMove 0 x (- x) 0 r) as Em by (unfold m'; by case_if).
  destruct (est_add_live m' e) as (F1 & F2 & F3 & F4). rewrite Em in F1, F2, F3, F4. cbn [m_free m_locked m_total] in F1, F2, F3, F4.
  rewrite Em. split; rewrite ?Hrow, ?Hq, ?Hfl, ?F1, ?F2, ?F3, ?F4; cbn [add_live e_reported e_as_of fupd]; try done.
  - rewrite es_free. eq64.
  - rewrite es_locked. eq64.
  - rewrite es_total. eq64.
  - rewrite es_equity. eq64.
  - destruct es_moves as (l & Hl & E). exists l. split; [done|]. rewrite E. cbn [add_live e_live fupd]. rewrite filter_snoc, decide_False by done. by rewrite app_nil_r.
  - cbn [add_live e_live fupd]. apply Forall_app. split; [done|]. by apply Forall_singleton.
Qed.

(** ** The named row *)

Definition first_account b (m : BalanceMsg) : bool := has_flag m kAccount && negb (account_reported (venue_at b (bm_venue m))).
Definition named_events b (m : BalanceMsg) (r : Z) : list RowEvent :=
  let k := reported_row m b in
  if k =? kNoRow then []
  else if k =? r then [EReport (bm_free m) (bm_locked m) (bm_total m) (bm_equity m) (bm_exch_ts m)]
  else if first_account b m then
    let x := flight (use_account (bm_venue m) k b) r - flight b r in [EMove (mkMove 0 x (- x) 0 r)]
  else [].
(** The book of [apply_report] before it rebases the row. *)
Definition named b (m : BalanceMsg) (k : Z) : BalanceBook :=
  let b1 := upd_row k (report_row m (v_gen (venue_at b (bm_venue m)))) b in
  if has_flag m kAccount then
    let b2 := upd_row k (fun row => row <| r_asset := bm_asset m |>) b1 in
    if negb (account_reported (venue_at b2 (bm_venue m))) then use_account (bm_venue m) k b2 else b2
  else b1.
Lemma report_row_venue m g row : r_venue (report_row m g row) = r_venue row.
Proof. unfold report_row. by case_if. Qed.

Lemma named_row b m k : has_row b k ->
  let row := row_at (named b m k) k in
  r_reported row = true /\ r_free row = bm_free m /\ r_locked row = bm_locked m /\ r_total row = bm_total m /\ r_equity row = bm_equity m /\
  r_as_of row = bm_exch_ts m /\ r_gen row = v_gen (venue_at b (bm_venue m)).
Proof.
  intros Hk row. set (b1 := upd_row k (report_row m (v_gen (venue_at b (bm_venue m)))) b).
  assert (E1 : row_at b1 k = report_row m (v_gen (venue_at b (bm_venue m))) (row_at b k)) by by apply row_at_upd.
  assert (E : row = row_at b1 k \/ row = row_at (upd_row k (fun row => row <| r_asset := bm_asset m |>) b1) k) by (unfold row, named; repeat case_if; auto).
  destruct E as [-> | ->]; [|rewrite row_at_upd by by apply has_row_upd]; rewrite E1; unfold report_row; by case_if.
Qed.
Lemma named_ok b m k : book_ok b -> has_row b k -> r_venue (row_at b k) = bm_venue m -> book_ok (named b m k).
Proof.
  intros Hb Hk Hv. unfold named. set (b1 := upd_row k _ b). assert (H1 : frame b b1) by (apply upd_row_frame; intros; apply report_row_venue).
  case_if; [|by apply (frame_ok b)]. set (b2 := upd_row k _ b1). assert (H2 : frame b b2) by (etransitivity; [exact H1|]; by apply upd_row_frame).
  case_if; [|by apply (frame_ok b)]. apply use_account_ok; [by apply (frame_ok b) | by apply (frame_has_row b) | by rewrite (fr_venue _ _ H2)].
Qed.
Lemma named_moves b m k : moves_ (named b m k) = moves_ b /\ length (rows_ (named b m k)) = length (rows_ b) /\ dropped (named b m k) = dropped b.
Proof. unfold named. repeat case_if; cbn; by rewrite ?length_alter. Qed.
Lemma use_account_flight v k b b2 r : inst_ b2 = inst_ b -> members_ b2 = members_ b -> r_venue (row_at b2 r) = r_venue (row_at b r) ->
  flight (use_account v k b2) r = flight (use_account v k b) r.
Proof. intros Hi Hm Hv. apply flight_ext; [unfold use_account; cbn; by rewrite Hi | unfold use_account; cbn; by rewrite Hm | exact Hv]. Qed.
Lemma est_named_other b m k r e : has_row b k -> has_row b r -> k <> r -> estimates b r e ->
  estimates (named b m k) r (if first_account b m then est_step e (EMove (mkMove 0 (flight (use_account (bm_venue m) k b) r - flight b r) (- (flight (use_account (bm_venue m) k b) r - flight b r)) 0 r)) else e).
Proof.
  intros Hk Hr Hne He. unfold named, first_account. set (b1 := upd_row k _ b). set (b2 := upd_row k _ b1).
  assert (H1 : frame b b1) by (apply upd_row_frame; intros; apply report_row_venue). assert (H2 : frame b b2) by (etransitivity; [exact H1|]; by apply upd_row_frame).
  assert (R1 : row_at b1 r = row_at b r) by (apply row_at_upd_ne; unfold has_row in *; lia).
  assert (R2 : row_at b2 r = row_at b r) by (rewrite <- R1; apply row_at_upd_ne; unfold has_row in *; lia).
  change (account_reported (venue_at b2 (bm_venue m))) with (account_reported (venue_at b (bm_venue m))).
  destruct (has_flag m kAccount); cbn [andb].
  - destruct (account_reported _); cbn [negb].
    + apply (estimates_ext b); [done | by rewrite (frame_flight b b2 r H2) | done | done].
    + apply (est_unstamped b); [done | exact R2 | done |].
      rewrite (use_account_flight (bm_venue m) k b b2 r) by (apply H2 || by rewrite R2). lia.
  - apply (estimates_ext b); [done | by rewrite (frame_flight b b1 r H1) | done | done].
Qed.

Lemma apply_report_ok m b : book_ok b -> book_ok (apply_report m (reported_row m b) b).
Proof.
  intros Hb. pose proof (reported_row_ok m b Hb) as Hok. unfold apply_report. case_if.
  - eapply frame_ok; [apply rebase_frame|]. destruct Hok as [|[Hk Hv]]; [lia|]. by apply named_ok.
  - destruct (bm_asset m); [done|]. by apply (frame_ok b).
Qed.
Lemma est_apply_report m b r e : book_ok b -> has_row b r -> estimates b r e ->
  estimates (apply_report m (reported_row m b) b) r (follow (named_events b m r) e).
Proof.
  intros Hb Hr He. pose proof (reported_row_ok m b Hb) as Hok. pose proof (has_row_not_none b r Hb Hr) as Hn.
  unfold apply_report, named_events. set (k := reported_row m b) in *. destruct (Z.eqb_spec k kNoRow) as [E|Hk0]; cbn [negb].
  - destruct (bm_asset m); [done|]. by apply (estimates_ext b).
  - destruct Hok as [|[Hk Hv]]; [done|]. change (estimates (rebase k (named b m k)) r (follow (if k =? r then [EReport (bm_free m) (bm_locked m) (bm_total m) (bm_equity m) (bm_exch_ts m)]
      else if first_account b m then [EMove (mkMove 0 (flight (use_account (bm_venue m) k b) r - flight b r) (- (flight (use_account (bm_venue m) k b) r - flight b r)) 0 r)] else []) e)).
    destruct (named_moves b m k) as (Hq & Hlen & _). assert (Hk' : has_row (named b m k) k) by (unfold has_row in *; lia).
    destruct (Z.eqb_spec k r) as [Ek|Hne].
    + destruct (named_row b m k Hk) as (E0 & E1 & E2 & E3 & E4 & E5 & _). destruct (es_moves b r e He) as (l & Hl & Ef).
      pose proof (est_report (named b m k) k e l Hk' E0) as H. cbv zeta in H. rewrite E1, E2, E3, E4, E5 in H. rewrite Hq, Ek in H. rewrite Ek.
      cbn [fold_left]. apply H; [done | done | apply (es_rows b r e He)].
    + pose proof (est_named_other b m k r e Hk Hr Hne He) as H. apply est_report_other; [done | unfold has_row in *; lia | done|].
      destruct (first_account b m); exact H.
Qed.

(** ** The end of a snapshot *)

Definition ends b (v : VenueId) (r : Z) : bool :=
  let row := row_at b r in (r_venue row =? v) && negb (r_gen row =? v_gen (venue_at b v)) && negb (r_account row && negb (r_reported row)).
Definition end_events b (v : VenueId) (ts : Timestamp) (r : Z) : list RowEvent := if ends b v r then [EReport 0 0 0 0 ts] else [].
Lemma zero_row_frame r ts g b : frame b (upd_row r (zero_row ts g) b).
Proof. by apply upd_row_frame. Qed.
Lemma end_row_frame v ts b k : frame b (end_row v ts b k).
Proof. unfold end_row. repeat case_if; try done. etransitivity; [apply zero_row_frame | apply rebase_frame]. Qed.
Lemma end_row_dropped v ts b k : book_ok b -> has_row b k -> (exists l, Ring.ring_rep kMaxMoves (moves_ b) l) ->
  dropped (end_row v ts b k) = dropped b /\ venues_ (end_row v ts b k) = venues_ b /\ (exists l, Ring.ring_rep kMaxMoves (moves_ (end_row v ts b k)) l) /\
  forall r, 0 <= r -> r <> k -> row_at (end_row v ts b k) r = row_at b r.
Proof.
  intros Hb Hk (l & Hl). unfold end_row. case_if; [by eauto|]. case_if; [by eauto|].
  set (b1 := upd_row k _ b). destruct (rebase_eq k b1 l) as (q & Hq & ->); [by apply has_row_upd | done|].
  split; [done|]. split; [done|]. split; [by eexists|]. intros r Hr Hne. transitivity (row_at b1 r); [|apply row_at_upd_ne; unfold has_row in *; lia].
  eapply row_at_upd_ne; unfold has_row in *; lia.
Qed.
Lemma est_end_row v ts b k r e : book_ok b -> has_row b k -> has_row b r -> estimates b r e ->
  estimates (end_row v ts b k) r (if k =? r then follow (end_events b v ts r) e else e).
Proof.
  intros Hb Hk Hr He. unfold end_row, end_events, ends. destruct (Z.eqb_spec k r) as [-> |Hne].
  - destruct (r_venue (row_at b r) =? v); [|done]. destruct (r_gen (row_at b r) =? v_gen (venue_at b v)); [done|].
    destruct (r_account (row_at b r) && negb (r_reported (row_at b r))); [done|]. cbn [negb orb andb fold_left].
    set (g := v_gen (venue_at b v)). assert (Hrow : row_at (upd_row r (zero_row ts g) b) r = zero_row ts g (row_at b r)) by by apply row_at_upd.
    destruct (es_moves b r e He) as (l & Hl & Ef).
    pose proof (est_report (upd_row r (zero_row ts g) b) r e l) as H. cbv zeta in H. rewrite Hrow in H. apply H; [by apply has_row_upd | done | done | done | apply (es_rows b r e He)].
  - repeat case_if; try done. set (b1 := upd_row k _ b). assert (H1 : frame b b1) by apply zero_row_frame.
    apply est_report_other; [by apply (frame_has_row b) | by apply (frame_has_row b) | done|].
    apply (estimates_ext b); [apply row_at_upd_ne; unfold has_row in *; lia | by rewrite (frame_flight b b1 r H1) | done | done].
Qed.
Lemma ends_same b b' v r : row_at b' r = row_at b r -> venues_ b' = venues_ b -> ends b' v r = ends b v r.
Proof. intros Hrow Hv. unfold ends, venue_at. by rewrite Hrow, Hv. Qed.

(** The rows one after the other: each is replaced once. *)
Lemma est_end_rows v ts r ks : forall b e, NoDup ks -> (forall k, k ∈ ks -> has_row b k) -> book_ok b -> has_row b r -> estimates b r e ->
  let b' := fold_left (end_row v ts) ks b in
  frame b b' /\ dropped b' = dropped b /\ estimates b' r (if decide (r ∈ ks) then follow (end_events b v ts r) e else e).
Proof.
  induction ks as [|k ks IH]; intros b e Hnd Hin Hb Hr He; cbn [fold_left].
  - split; [done|]. split; [done|]. rewrite decide_False by apply not_elem_of_nil. done.
  - apply NoDup_cons in Hnd as [Hk Hnd]. assert (Hrk : has_row b k) by (apply Hin; by constructor).
    destruct (es_moves b r e He) as (l & Hl & _). destruct (end_row_dropped v ts b k Hb Hrk ltac:(by eexists)) as (Hd & Hv & _ & Hoth).
    pose proof (end_row_frame v ts b k) as Hf. set (b1 := end_row v ts b k) in *.
    pose proof (est_end_row v ts b k r e Hb Hrk Hr He) as He1. fold b1 in He1.
    destruct (IH b1 _ Hnd ltac:(intros j Hj; apply (frame_has_row b b1 j Hf), Hin; by constructor) (frame_ok b b1 Hf Hb) (frame_has_row b b1 r Hf Hr) He1) as (If & Id & Ie).
    split; [by etransitivity|]. split; [congruence|]. destruct (Z.eqb_spec k r) as [-> |Hne].
    + rewrite decide_False in Ie by done. by rewrite decide_True by constructor.
    + assert (Hee : end_events b1 v ts r = end_events b v ts r) by (unfold end_events; rewrite (ends_same b b1 v r); [done | apply Hoth; unfold has_row in *; lia | done]).
      rewrite Hee in Ie. destruct (decide (r ∈ ks)) as [Hrin|Hrin].
      * by rewrite decide_True by by constructor.
      * rewrite decide_False; [done|]. intros [->|]%elem_of_cons; done.
Qed.

Lemma est_end_snapshot v ts b r e : book_ok b -> has_row b r -> estimates b r e ->
  frame b (end_snapshot v ts b) /\ dropped (end_snapshot v ts b) = dropped b /\ estimates (end_snapshot v ts b) r (follow (end_events b v ts r) e).
Proof.
  intros Hb Hr He. unfold end_snapshot. set (b0 := upd_venue v (fun vs => vs <| in_snapshot := false |>) b). set (b1 := b0 <| bstats_ ::= _ |>).
  assert (Hf : frame b b1) by (transitivity b0; [by apply upd_venue_frame | done]).
  destruct (est_end_rows v ts r (seqZ 0 (Z.of_nat (length (rows_ b1)))) b1 e) as (If & Id & Ie).
  - apply NoDup_seqZ.
  - intros k Hk. apply elem_of_seqZ in Hk. unfold has_row. lia.
  - by apply (frame_ok b).
  - by apply (frame_has_row b).
  - apply (estimates_ext b); [done | by rewrite (frame_flight b b1 r Hf) | done | done].
  - split; [by etransitivity|]. split; [exact Id|]. rewrite decide_True in Ie by (apply elem_of_seqZ; unfold has_row in Hr; change (rows_ b1) with (rows_ b); lia).
    replace (end_events b v ts r) with (end_events b1 v ts r); [exact Ie|]. unfold end_events, ends.
    replace (v_gen (venue_at b1 v)) with (v_gen (venue_at b v)); [done|].
    change (venue_at b1 v) with (venue_at b0 v). unfold b0, upd_venue. unfold venue_at at 2. cbn. by rewrite lookup_insert_eq.
Qed.

(** ** A report *)

Definition report_events b (m : BalanceMsg) (r : Z) : list RowEvent :=
  let b := begin_report m b in
  named_events b m r ++ (if has_flag m kSnapshotEnd then end_events (apply_report m (reported_row m b) b) (bm_venue m) (bm_exch_ts m) r else []).
Lemma est_on_report m b r e : book_ok b -> has_row b r -> estimates b r e ->
  book_ok (snd (on_report m b)) /\ length (rows_ (snd (on_report m b))) = length (rows_ b) /\ estimates (snd (on_report m b)) r (follow (report_events b m r) e).
Proof.
  intros Hb Hr He. pose proof (begin_report_frame m b) as Hf. unfold on_report, report_events. cbn [snd]. set (b0 := begin_report m b) in *.
  pose proof (frame_ok b b0 Hf Hb) as Hb0. pose proof (frame_has_row b b0 r Hf Hr) as Hr0. pose proof (est_begin_report m b r e He) as He0. fold b0 in He0.
  set (k := reported_row m b0). pose proof (apply_report_ok m b0 Hb0) as Hb1. fold k in Hb1. pose proof (est_apply_report m b0 r e Hb0 Hr0 He0) as He1. fold k in He1.
  assert (Hlen : length (rows_ (apply_report m k b0)) = length (rows_ b)).
  { rewrite <- (fr_rows b b0 Hf). unfold apply_report. case_if; [|by destruct (bm_asset m)].
    etransitivity; [apply (fr_rows _ _ (rebase_frame k (named b0 m k))) | apply named_moves]. }
  rewrite fold_left_app. destruct (has_flag m kSnapshotEnd); [|done].
  destruct (est_end_snapshot (bm_venue m) (bm_exch_ts m) (apply_report m k b0) r _ Hb1 ltac:(unfold has_row in *; lia) He1) as (Hf2 & _ & He2).
  split; [by apply (frame_ok _ _ Hf2)|]. split; [by rewrite (fr_rows _ _ Hf2)|]. exact He2.
Qed.
