(* ===== verification/BalanceBuild.v ===== *)
(** * BalanceBuild: the book the table of instruments gives

    [build] places every instrument of a table and the members of its pool; the result is well formed, no row is reported and
    nothing is in flight. *)

From S2P Require Import Prelude Types FixedPoint Instruments RingBuffer MapSum BalanceBook BalanceOps BalanceInv BalanceFlight BalanceSteps.
Implicit Type b : BalanceBook.

Record fresh_row (row : Row) : Prop := {
  fw_reported : r_reported row = false;
  fw_free : r_free row = 0;
  fw_locked : r_locked row = 0;
  fw_total : r_total row = 0;
  fw_equity : r_equity row = 0;
  fw_reserved : r_reserved row = 0;
}.
Record idle (i : Inst) : Prop := { id_hb : i_hold_buy i = 0; id_hs : i_hold_sell i = 0; id_ub : i_unacked_buy i = 0; id_us : i_unacked_sell i = 0 }.
(** [b'] has the rows of [b] and at most [n] more, fresh ones. *)
Record extends (n : Z) b b' : Prop := {
  ex_rows : exists k, rows_ b' = rows_ b ++ k /\ Forall fresh_row k /\ Z.of_nat (length k) <= n;
  ex_inst : inst_ b' = inst_ b;
  ex_members : members_ b' = members_ b;
  ex_moves : moves_ b' = moves_ b;
}.
Lemma extends_refl b n : 0 <= n -> extends n b b.
Proof. intros Hn. split; try done. exists []. rewrite app_nil_r. repeat split; [constructor | cbn; lia]. Qed.
Lemma extends_trans n m b1 b2 b3 : extends n b1 b2 -> extends m b2 b3 -> extends (n + m) b1 b3.
Proof.
  intros [(k & E & F & L) ? ? ?] [(k' & E' & F' & L') ? ? ?]. split; [|congruence..]. exists (k ++ k').
  rewrite E', E, app_assoc, length_app. repeat split; [by apply Forall_app | lia].
Qed.
Lemma extends_row n b b' r : extends n b b' -> has_row b r -> has_row b' r /\ row_at b' r = row_at b r.
Proof.
  intros [(k & E & _) _ _ _] Hr. unfold has_row, row_at in *. rewrite E, length_app, lookup_app_l by lia. split; [lia | done].
Qed.
Lemma extends_row_ok n b b' v r : extends n b b' -> row_ok b v r -> row_ok b' v r.
Proof. intros He [->|[Hr Hv]]; [by left|]. destruct (extends_row n b b' r He Hr) as [H1 H2]. right. by rewrite H2. Qed.
Lemma extends_inst_ok n b b' i : extends n b b' -> inst_ok b i -> inst_ok b' i.
Proof. intros He Hi s. apply (extends_row_ok n b b' _ _ He), Hi. Qed.

(** ** Placing one instrument *)

Definition accounts_ok b : Prop := forall v, row_ok b v (account_row (venue_at b v)).
Lemma add_row_extends v a acc b : Z.of_nat (length (rows_ b)) < kNoRow ->
  let '(r, b') := add_row v a acc b in extends 1 b b' /\ row_ok b' v r /\ venues_ b' = venues_ b.
Proof.
  unfold add_row, kNoRow. intros Hl. cbv zeta. split; [|split; [|done]].
  - split; try done. exists [new_row v (take 8 a) acc]. repeat split; [by apply Forall_singleton | done].
  - right. rewrite Z.mod_small by lia. unfold has_row, row_at. cbn. rewrite length_app. cbn. split; [lia|].
    rewrite lookup_app_r by lia. replace (Z.to_nat (Z.of_nat (length (rows_ b))) - length (rows_ b))%nat with 0%nat by lia. done.
Qed.
Lemma row_for_extends v a b : Z.of_nat (length (rows_ b)) < kNoRow ->
  let '(r, b') := row_for v a false b in extends 1 b b' /\ row_ok b' v r /\ venues_ b' = venues_ b.
Proof.
  intros Hl. unfold row_for. destruct a as [|c a]; [by split; [apply extends_refl | split; [left|]]|]. case_if.
  - split; [by apply extends_refl|]. split; [apply find_row_ok | done].
  - by apply add_row_extends.
Qed.
Lemma extends_accounts n b b' : extends n b b' -> venues_ b' = venues_ b -> accounts_ok b -> accounts_ok b'.
Proof. intros He Hv H v. unfold venue_at. rewrite Hv. apply (extends_row_ok n b b' _ _ He), H. Qed.
Lemma extends_length n b b' : extends n b b' -> Z.of_nat (length (rows_ b')) <= Z.of_nat (length (rows_ b)) + n.
Proof. intros [(k & E & _ & L) _ _ _]. rewrite E, length_app. lia. Qed.
Lemma upd_venue_accounts v f b : accounts_ok b -> row_ok b v (account_row (f (venue_at b v))) -> accounts_ok (upd_venue v f b).
Proof.
  intros H Hv u. change (row_ok b u (account_row (venue_at (upd_venue v f b) u))). unfold venue_at at 1, upd_venue. cbn.
  destruct (decide (u = v)) as [-> |]; [rewrite lookup_insert_eq; exact Hv | rewrite lookup_insert_ne by done; apply H].
Qed.
Lemma extends_upd_venue n b b' v f : extends n b b' -> extends n b (upd_venue v f b').
Proof. by intros []. Qed.

Lemma place_ok i v fees cfg inst b : Z.of_nat (length (rows_ b)) + 2 < kNoRow -> accounts_ok b -> idle inst ->
  let '(inst', b') := place i v fees cfg inst b in
  extends 2 b b' /\ accounts_ok b' /\ inst_ok b' inst' /\ idle inst' /\ i_first_member inst' = i_first_member inst /\ i_n_members inst' = i_n_members inst.
Proof.
  intros Hl Ha Hi. unfold place. cbn [i_derivative fupd]. destruct (is_derivative (ni_inst i)); cbn [negb].
  - pose proof (row_for_extends v (settlement_ccy i) b ltac:(lia)) as H1. destruct (row_for v (settlement_ccy i) false b) as [r b1]. destruct H1 as (E1 & R1 & V1).
    pose proof (extends_accounts 1 b b1 E1 V1 Ha) as A1. pose proof (extends_length _ _ _ E1) as L1.
    set (b2 := if account_row (venue_at b1 v) =? kNoRow then _ else b1).
    assert (H2 : extends 1 b1 b2 /\ accounts_ok b2).
    { unfold b2. case_if; [|split; [by apply extends_refl | done]].
      pose proof (add_row_extends v [] true b1 ltac:(lia)) as H. destruct (add_row v [] true b1) as [q b']. destruct H as (E & R & V).
      split; [by apply extends_upd_venue|]. apply upd_venue_accounts; [by apply (extends_accounts 1 b1) | exact R]. }
    destruct H2 as [E2 A2]. set (b3 := if margin_default (venue_at b2 v) =? kNoRow then _ else b2).
    assert (E3 : extends 2 b b3) by (unfold b3; case_if; [apply extends_upd_venue|]; by apply (extends_trans 1 1 b b1)).
    split; [done|]. split; [unfold b3; case_if; [apply upd_venue_accounts; [done | apply A2] | done]|].
    split; [|by destruct Hi]. intros s. unfold row_of. cbn. assert (Hr : row_ok b2 v r) by by apply (extends_row_ok 1 b1).
    unfold b3. by case_if.
  - pose proof (row_for_extends v (ni_base i) b ltac:(lia)) as H1. destruct (row_for v (ni_base i) false b) as [r b1]. destruct H1 as (E1 & R1 & V1).
    pose proof (extends_length _ _ _ E1) as L1. pose proof (row_for_extends v (ni_quote i) b1 ltac:(lia)) as H2. destruct (row_for v (ni_quote i) false b1) as [q b2].
    destruct H2 as (E2 & R2 & V2). pose proof (extends_trans _ _ _ _ _ E1 E2) as E. split; [done|].
    split; [by apply (extends_accounts 2 b b2 E); [congruence|]|]. split; [|by destruct Hi].
    intros []; unfold row_of; cbn; [exact R2 | by apply (extends_row_ok 1 b1)].
Qed.

(** ** The whole table *)

Record built (n : Z) b : Prop := {
  bu_rows : Z.of_nat (length (rows_ b)) <= 16 * n;
  bu_count : Z.of_nat (length (members_ b)) <= 7 * n;
  bu_fresh : Forall fresh_row (rows_ b);
  bu_accounts : accounts_ok b;
  bu_insts : forall id i, inst_ b !! id = Some i -> inst_ok b i /\ members_ok b i /\ idle i;
  bu_members : Forall (fun i => inst_ok b i /\ idle i) (members_ b);
  bu_moves : moves_ b = Ring.ring_empty;
}.
(** [b'] is [b] with fresh rows and idle members added. *)
Record grows (rows ms : Z) b b' : Prop := {
  gr_rows : exists k, rows_ b' = rows_ b ++ k /\ Forall fresh_row k /\ Z.of_nat (length k) <= rows;
  gr_members : exists k, members_ b' = members_ b ++ k /\ Forall (fun i => inst_ok b' i /\ idle i) k /\ Z.of_nat (length k) = ms;
  gr_inst : inst_ b' = inst_ b;
  gr_moves : moves_ b' = moves_ b;
}.
Lemma grows_inst_ok r m b b' i : grows r m b b' -> inst_ok b i -> inst_ok b' i.
Proof.
  intros [(k & E & _) _ _ _] Hi s. destruct (Hi s) as [->|[Hr Hv]]; [by left|]. right. unfold has_row, row_at in *.
  rewrite E, length_app, lookup_app_l by lia. split; [lia | done].
Qed.
Lemma place_member_grows i fees cfg v b : Z.of_nat (length (rows_ b)) + 2 < kNoRow -> accounts_ok b ->
  grows 2 1 b (place_member i fees cfg v b) /\ accounts_ok (place_member i fees cfg v b).
Proof.
  intros Hl Ha. unfold place_member. pose proof (place_ok i v fees cfg no_inst b Hl Ha ltac:(by split)) as H.
  destruct (place i v fees cfg no_inst b) as [m b']. destruct H as ([Hr Hi Hm Hq] & Ha' & Hok & Hid & _). split; [|exact Ha'].
  split; [exact Hr | | done | done]. exists [m]. cbn. rewrite Hm. repeat split. apply Forall_singleton. by split.
Qed.
Lemma place_members_grow i fees cfg ms : forall b, Z.of_nat (length (rows_ b)) + 2 * Z.of_nat (length ms) < kNoRow -> accounts_ok b ->
  let b' := fold_left (fun b v => place_member i fees cfg v b) ms b in
  grows (2 * Z.of_nat (length ms)) (Z.of_nat (length ms)) b b' /\ accounts_ok b'.
Proof.
  induction ms as [|v ms IH]; intros b Hl Ha; cbn [fold_left length] in *.
  - split; [|done]. split; try done; exists []; by rewrite app_nil_r.
  - destruct (place_member_grows i fees cfg v b ltac:(lia) Ha) as [G1 A1]. set (b1 := place_member i fees cfg v b) in *.
    pose proof G1 as [(k1 & R1 & F1 & L1) (m1 & M1 & O1 & N1) I1 Q1].
    destruct (IH b1 ltac:(rewrite R1, length_app; lia) A1) as [G2 A2]. split; [|done]. pose proof G2 as [(k2 & R2 & F2 & L2) (m2 & M2 & O2 & N2) I2 Q2].
    split; [| | congruence | congruence].
    + exists (k1 ++ k2). rewrite R2, R1, app_assoc, length_app. repeat split; [by apply Forall_app | lia].
    + exists (m1 ++ m2). rewrite M2, M1, app_assoc, length_app. repeat split; [|lia]. apply Forall_app. split; [|done].
      eapply Forall_impl; [exact O1|]. intros j [H1 H2]. split; [by apply (grows_inst_ok _ _ b1 _ _ G2) | done].
Qed.
Lemma pool_tail_short p v : (length (tail (pool_members p v)) <= 7)%nat.
Proof. unfold pool_members. case_if; [cbn; lia|]. cbn [tail]. rewrite length_take. unfold kMaxMembers. lia. Qed.

Lemma built_members_ok b b' i : (length (members_ b) <= length (members_ b'))%nat -> members_ok b i -> members_ok b' i.
Proof. intros Hl [?|(? & ? & ?)]; [by left | right; lia]. Qed.
(** One more instrument, its own state at [id] and its members appended. *)
Lemma built_add n b rs ms b' inst id : 0 <= n -> built n b -> rs <= 16 -> 0 <= ms <= 7 -> grows rs ms b b' -> accounts_ok b' ->
  inst_ok b' inst -> members_ok b' inst -> idle inst ->
  built (n + 1) (b' <| inst_ ::= insert id inst |>) /\ forall id', id' <> id -> inst_ (b' <| inst_ ::= insert id inst |>) !! id' = inst_ b !! id'.
Proof.
  intros Hn [] Hrs Hms G Ha Hi Hmo Hid. pose proof G as [(k & R & F & L) (m & M & O & N) I Q].
  split; [|intros id' Hne; cbn; by rewrite lookup_insert_ne, I]. split; cbn.
  - rewrite R, length_app. lia.
  - rewrite M, length_app. lia.
  - rewrite R. by apply Forall_app.
  - exact Ha.
  - intros id' i E. apply lookup_insert_Some in E as [[<- <-] | [Hne E]]; [done|]. rewrite I in E. destruct (bu_insts0 id' i E) as (H1 & H2 & H3).
    split; [exact (grows_inst_ok rs ms b b' i G H1) | split; [|done]]. apply (built_members_ok b); [cbn; rewrite M, length_app; lia | done].
  - rewrite M. apply Forall_app. split; [|exact O]. eapply Forall_impl; [exact bu_members0|]. intros i [H1 H2]. split; [exact (grows_inst_ok rs ms b b' i G H1) | done].
  - by rewrite Q.
Qed.
Lemma build_one_built fees cfg pools i n b : 0 <= n < kMaxInstruments -> built n b -> inst_ b !! in_id (ni_inst i) = None ->
  built (n + 1) (build_one fees cfg pools b i) /\ forall id, id <> in_id (ni_inst i) -> inst_ (build_one fees cfg pools b i) !! id = inst_ b !! id.
Proof.
  unfold kMaxInstruments. intros Hn Hb Hid. unfold build_one. case_if.
  { split; [|done]. destruct Hb. split; try done; lia. }
  assert (inst_at b (in_id (ni_inst i)) = no_inst) as -> by (unfold inst_at; by rewrite Hid). pose proof (bu_rows n b Hb) as Hl.
  pose proof (place_ok i (in_venue (ni_inst i)) fees cfg no_inst b ltac:(unfold kNoRow; lia) (bu_accounts n b Hb) ltac:(by split)) as H.
  destruct (place i (in_venue (ni_inst i)) fees cfg no_inst b) as [inst b1]. destruct H as (E & A & O & D & F1 & F2). pose proof E as [Hr Hi Hm Hq].
  assert (G1 : grows 2 0 b b1) by (split; try done; exists []; by rewrite app_nil_r).
  assert (H0 : built (n + 1) (b1 <| inst_ ::= insert (in_id (ni_inst i)) inst |>) /\ forall id, id <> in_id (ni_inst i) -> inst_ (b1 <| inst_ ::= insert (in_id (ni_inst i)) inst |>) !! id = inst_ b !! id) by (apply (built_add n b 2 0); try done; try lia; by left).
  destruct pools as [p|]; [|exact H0]. case_if; [exact H0|].
  set (ms := tail (pool_members p (in_venue (ni_inst i)))). pose proof (pool_tail_short p (in_venue (ni_inst i))) as Hms. fold ms in Hms.
  pose proof (extends_length _ _ _ E) as L1. destruct (place_members_grow i fees cfg ms b1 ltac:(unfold kNoRow; lia) A) as [G2 A2].
  set (b2 := fold_left _ ms b1) in *. pose proof (bu_count n b Hb) as Hc. pose proof G2 as [(k2 & R2 & W2 & L2) (m2 & M2 & O2 & N2) I2 Q2].
  destruct Hr as (k1 & R1 & W1 & L1').
  apply (built_add n b (2 + 2 * Z.of_nat (length ms)) (Z.of_nat (length ms))); try done; try lia.
  - split; [| | congruence | congruence].
    + exists (k1 ++ k2). rewrite R2, R1, app_assoc, length_app. repeat split; [by apply Forall_app | lia].
    + exists m2. by rewrite M2, Hm.
  - exact (grows_inst_ok _ _ b1 b2 inst G2 O).
  - right. cbn. rewrite F2. cbn. rewrite M2, length_app, Hm.
    rewrite !Z.mod_small by lia. lia.
  - by destruct D.
Qed.

(** The identifiers of a table are distinct: [InstrumentTable::add] numbers them. *)
Definition table_ids (insts : list NamedInstrument) : list Z := (fun i => in_id (ni_inst i)) <$> insts.
Lemma table_built fees cfg pools insts : forall n b, 0 <= n -> n + Z.of_nat (length insts) <= kMaxInstruments -> NoDup (table_ids insts) ->
  (forall id, id ∈ table_ids insts -> inst_ b !! id = None) -> built n b -> built (n + Z.of_nat (length insts)) (fold_left (build_one fees cfg pools) insts b).
Proof.
  induction insts as [|i insts IH]; intros n b Hn Hl Hnd Hnew Hb; cbn [fold_left length table_ids fmap list_fmap] in *; [by rewrite Z.add_0_r|].
  apply NoDup_cons in Hnd as [Hi Hnd]. destruct (build_one_built fees cfg pools i n b) as [H1 H2]; [lia | done | apply Hnew; by constructor|].
  replace (n + Z.of_nat (S (length insts))) with (n + 1 + Z.of_nat (length insts)) by lia. apply IH; [lia | lia | done | | done].
  intros id Hid. rewrite H2; [apply Hnew; by constructor|]. intros ->. done.
Qed.
Lemma build_built insts fees cfg pools b : NoDup (table_ids insts) -> Z.of_nat (length insts) <= kMaxInstruments ->
  built (Z.of_nat (length insts)) (build insts fees cfg pools b).
Proof.
  intros Hnd Hl. unfold build. apply (table_built fees cfg pools insts 0); try done. split; try done; try (cbn; lia); try constructor; by cbn.
Qed.

Lemma idle_in_flight i r : idle i -> inst_in_flight i r = 0.
Proof.
  intros []. unfold inst_in_flight, in_flight, larger_side, unacked. rewrite id_hb0, id_hs0, id_ub0, id_us0. repeat case_if; done.
Qed.
Lemma built_flight n b r : built n b -> flight b r = 0.
Proof.
  intros []. unfold flight. rewrite (msum_ext _ (fun _ _ => 0)).
  - assert (lsum (contrib b r) (members_ b) = 0) as ->.
    { clear - bu_members0. induction bu_members0 as [|i l [_ Hi] _ IH]; [done|]. unfold lsum in *. cbn [foldr]. rewrite IH. unfold contrib, on_venue.
      rewrite idle_in_flight by done. by case_if. }
    rewrite Z.add_0_r. unfold msum. generalize (inst_ b). clear. intros m. apply (map_fold_weak_ind (fun x _ => x = 0)); [done|]. intros; lia.
  - intros id i E. destruct (bu_insts0 id i E) as (_ & _ & Hi). unfold contrib, on_venue. rewrite idle_in_flight by done. by case_if.
Qed.
Lemma built_ok n b : n <= kMaxInstruments -> built n b -> book_ok b.
Proof.
  unfold kMaxInstruments. intros Hn []. split; [unfold kNoRow; lia | | | done].
  - intros id i E. destruct (bu_insts0 id i E) as (? & ? & _). done.
  - eapply Forall_impl; [exact bu_members0|]. by intros i [].
Qed.
Lemma built_estimates n b r : built n b -> has_row b r -> estimates b r no_est.
Proof.
  intros Hb Hr. pose proof (built_flight n b r Hb) as Hf. destruct Hb.
  assert (Hw : fresh_row (row_at b r)).
  { unfold row_at. unfold has_row in Hr. destruct (lookup_lt_is_Some_2 (rows_ b) (Z.to_nat r)) as [row E]; [lia|]. rewrite E. exact (proj1 (Forall_lookup _ _) bu_fresh0 _ _ E). }
  destruct Hw. split; rewrite ?Hf, ?fw_reserved0; try done.
  - by rewrite fw_free0.
  - by rewrite fw_locked0.
  - by rewrite fw_total0.
  - by rewrite fw_equity0.
  - exists []. rewrite bu_moves0. split; [|done]. apply Ring.rep_empty. unfold kMaxMoves. lia.
Qed.
