(* ===== verification/BalanceProps.v ===== *)
(** * BalanceProps: what the balance book promises

    The estimate of every row is its last report moved by exactly the events no report has; an order the check passes cannot
    overdraw its row; an order's hold covers whatever its fills take. *)

From S2P Require Import Prelude Types FixedPoint Instruments RingBuffer MapSum BalanceBook BalanceOps BalanceInv BalanceFlight BalanceSteps BalanceReports BalanceBuild.
Implicit Type b : BalanceBook.

(** ** Histories *)

Inductive BalOp :=
  | OpReport (m : BalanceMsg)
  | OpReserve (venue : VenueId) (asset : list Z) (delta : Z)
  | OpTransfer (venue : VenueId) (asset : list Z) (delta : Z) (ts : Timestamp)
  | OpHold (id : InstrumentId) (s : Side) (before after : Z) (ts : Timestamp) (is_unacked : bool) (account : VenueId)
  | OpAck (id : InstrumentId) (s : Side) (amount : Z) (ts : Timestamp) (account : VenueId)
  | OpFill (id : InstrumentId) (inst : Instrument) (s : Side) (px : Price) (qty : Qty) (fee : Notional) (fa : FeeAsset) (pos_before pos_after : Z) (ts : Timestamp) (account : VenueId)
  | OpCorrect (id : InstrumentId) (inst : Instrument) (s : Side) (estimate px : Price) (qty : Qty) (ts : Timestamp) (account : VenueId).
Definition bal_step (o : BalOp) b : BalanceBook :=
  match o with
  | OpReport m => snd (on_report m b)
  | OpReserve v a d => snd (reserve v a d b)
  | OpTransfer v a d ts => transfer v a d ts b
  | OpHold id s x y ts u acc => move_hold id s x y ts u acc b
  | OpAck id s x ts acc => acknowledge id s x ts acc b
  | OpFill id inst s px q fee fa pb pa ts acc => on_fill id inst s px q fee fa pb pa ts acc b
  | OpCorrect id inst s est px q ts acc => correct_fill id inst s est px q ts acc b
  end.
Definition op_events (o : BalOp) b (r : Z) : list RowEvent :=
  match o with
  | OpReport m => report_events b m r
  | OpReserve _ _ _ => []
  | OpTransfer v a d ts => asset_events (find b v a) d ts r
  | OpHold id s x y ts u acc => move_hold_events b id s x y ts u acc r
  | OpAck id s x ts acc => ack_events b id s x ts acc r
  | OpFill id inst s px q fee fa pb pa ts acc => fill_events b id inst s px q fee fa pb pa ts acc r
  | OpCorrect id inst s est px q ts acc => correct_events b id inst s est px q ts acc r
  end.
(** The operation dropped no pending move, and netted an acknowledged derivative order as the acknowledged orders alone net. *)
Definition op_tracked (o : BalOp) b : bool :=
  (dropped (bal_step o b) =? dropped b) &&
  match o with OpHold id s x y _ u acc => hold_nets b id s x y u acc | _ => true end.
Fixpoint bal_run (ops : list BalOp) b : BalanceBook := match ops with [] => b | o :: ops => bal_run ops (bal_step o b) end.
Fixpoint history (ops : list BalOp) b (r : Z) : list RowEvent := match ops with [] => [] | o :: ops => op_events o b r ++ history ops (bal_step o b) r end.
Fixpoint tracked (ops : list BalOp) b : bool := match ops with [] => true | o :: ops => op_tracked o b && tracked ops (bal_step o b) end.

Lemma est_op o b r e : book_ok b -> has_row b r -> estimates b r e -> op_tracked o b = true ->
  book_ok (bal_step o b) /\ has_row (bal_step o b) r /\ estimates (bal_step o b) r (follow (op_events o b r) e).
Proof.
  intros Hb Hr He Ht. apply andb_prop in Ht as [Hd Ht]. apply Z.eqb_eq in Hd.
  assert (Hframe : frame b (bal_step o b) -> book_ok (bal_step o b) /\ has_row (bal_step o b) r) by (intros Hf; split; [by apply (frame_ok b) | by apply (frame_has_row b)]).
  destruct o; cbn [bal_step op_events] in *.
  - destruct (est_on_report m b r e Hb Hr He) as (H1 & H2 & H3). split; [done|]. split; [unfold has_row in *; by rewrite H2 | done].
  - destruct (Hframe (reserve_frame _ _ _ b)). by pose proof (est_reserve b venue asset delta r e Hb Hr He).
  - destruct (Hframe (move_asset_frame _ _ _ b)). split; [done|]. split; [done|]. apply est_move_asset; try done. apply (row_ok_some b venue), find_row_ok.
  - split; [by apply move_hold_ok|]. split; [|by apply est_move_hold]. unfold move_hold, has_row in *. repeat case_if; try done;
      rewrite (fr_rows _ _ (move_hold_row_frame _ _ _ _ _)), ?slot_upd_rows; done.
  - split; [by apply acknowledge_ok|]. split; [|by apply est_acknowledge]. unfold acknowledge, has_row in *. repeat case_if; cbn; rewrite ?note_rows, ?length_alter, ?slot_upd_rows; done.
  - destruct (Hframe (on_fill_frame _ _ _ _ _ _ _ _ _ _ _ b)). split; [done|]. split; [done|]. by apply est_fill.
  - destruct (Hframe (correct_fill_frame _ _ _ _ _ _ _ _ b)). split; [done|]. split; [done|]. by apply est_correct_fill.
Qed.
Lemma est_run r ops : forall b e, book_ok b -> has_row b r -> estimates b r e -> tracked ops b = true -> estimates (bal_run ops b) r (follow (history ops b r) e).
Proof.
  induction ops as [|o ops IH]; intros b e Hb Hr He Ht; [done|]. cbn [bal_run history tracked] in *. apply andb_prop in Ht as [Ho Ht].
  destruct (est_op o b r e Hb Hr He Ho) as (H1 & H2 & H3). rewrite fold_left_app. by apply IH.
Qed.

(** C8. Over any history of reports, reservations, transfers, holds, acknowledgements, fills and corrections since the book
    was built, every row holds its last report plus the moves no report has covered since, less what the orders in flight
    hold and what the treasury reserves: free and locked, total and equity, modulo the width of the amounts.  The history
    drops no pending move and nets acknowledged derivative orders alike with and without those in flight. *)
Theorem balance_estimates insts fees cfg pools b0 ops r :
  NoDup (table_ids insts) -> Z.of_nat (length insts) <= kMaxInstruments ->
  let b := build insts fees cfg pools b0 in
  has_row b r -> tracked ops b = true ->
  let row := row_at (bal_run ops b) r in
  let e := follow (history ops b r) no_est in
  r_reported row = e_reported e /\
  r_free row =64 est_free e - flight (bal_run ops b) r - r_reserved row /\
  r_locked row =64 est_locked e + flight (bal_run ops b) r /\
  r_total row =64 est_total e /\ r_equity row =64 est_equity e.
Proof.
  intros Hnd Hl b Hr Ht row e. pose proof (build_built insts fees cfg pools b0 Hnd Hl) as Hb. fold b in Hb.
  pose proof (est_run r ops b no_est (built_ok _ _ Hl Hb) Hr (built_estimates _ _ _ Hb Hr) Ht) as [].
  by unfold row, e.
Qed.

(** ** The pre-trade check *)



(** ** What a hold is enough for *)

Lemma div_superadd a c d : 0 < d -> a / d + c / d <= (a + c) / d.
Proof.
  intros Hd. apply Z.div_le_lower_bound; [done|]. pose proof (Z.mul_div_le a d Hd). pose proof (Z.mul_div_le c d Hd). lia.
Qed.
Lemma lsum_div_le {A} (f : A -> Z) d l : 0 < d -> lsum (fun x => f x / d) l <= lsum f l / d.
Proof.
  intros Hd. unfold lsum. induction l as [|x l IH]; cbn [foldr]; [by rewrite Z.div_0_l by lia|].
  etransitivity; [|apply div_superadd; done]. lia.
Qed.
Lemma lsum_le {A} (f g : A -> Z) l : Forall (fun x => f x <= g x) l -> lsum f l <= lsum g l.
Proof. unfold lsum. induction 1 as [|x l Hx _ IH]; cbn [foldr]; lia. Qed.
Lemma lsum_mul {A} (f : A -> Z) c l : lsum (fun x => f x * c) l = lsum f l * c.
Proof. unfold lsum. induction l as [|x l IH]; cbn [foldr]; lia. Qed.

(** The notional of a linear contract without the machine widths. *)
Definition linear_notional (inst : Instrument) (p q : Z) : Z :=
  if in_contract_multiplier inst =? one_contract then p * q / kFixedScale else p * q / kFixedScale * in_contract_multiplier inst / kFixedScale.
Lemma mul_nonneg_eq a c : 0 <= a -> 0 <= c -> in_i64 a -> in_i64 c -> in_i64 (a * c / kFixedScale) -> mul_div_const kFixedScale a c = a * c / kFixedScale.
Proof.
  intros Ha Hc Ia Ic Iq. rewrite mul_div_const_eq by (done || unfold kFixedScale; lia). rewrite Z.quot_div_nonneg by (unfold kFixedScale; nia). by apply i64_id.
Qed.
Lemma div_mono_i64 x y : 0 <= x <= y -> in_i64 (y / kFixedScale) -> in_i64 (x / kFixedScale).
Proof.
  intros H [_ H2]. assert (Hk : 0 < kFixedScale) by (unfold kFixedScale; lia). pose proof (Z.div_le_mono x y kFixedScale Hk (proj2 H)). pose proof (Z.div_pos x kFixedScale (proj1 H) Hk).
  unfold in_i64, i64_min, i64_max in *. lia.
Qed.

Definition fills_ok (px leaves : Z) (fills : list (Price * Qty * Liquidity)) : Prop := Forall (fun '(p, q, _) => 0 < p <= px /\ 0 < q) fills /\ lsum (fun '(_, q, _) => q) fills <= leaves.
Lemma fill_qty_le px leaves fills p q l : fills_ok px leaves fills -> (p, q, l) ∈ fills -> q <= leaves.
Proof.
  intros [Hf Hs] Hin. assert (q <= lsum (fun '(_, q, _) => q) fills); [|lia]. clear Hs. induction Hf as [|[[p' q'] l'] fills [_ Hq'] Hf IH]; [by apply not_elem_of_nil in Hin|].
  assert (0 <= lsum (fun '(_, q, _) => q) fills) by (clear IH Hin; unfold lsum; induction Hf as [|[[? ?] ?] ? [] ? IH]; cbn [foldr]; lia).
  unfold lsum in *. cbn [foldr]. apply elem_of_cons in Hin as [[= -> -> ->]|Hin]; [lia|]. specialize (IH Hin). lia.
Qed.

Section enough.
Context (inst : Instrument) (px leaves : Z).
Hypothesis Hinv : inverse inst = false.
Hypothesis Hm : 0 < in_contract_multiplier inst.
Hypothesis Im : in_i64 (in_contract_multiplier inst).
Hypothesis Ip : in_i64 px.
Hypothesis Il : in_i64 leaves.
Hypothesis In1 : in_i64 (px * leaves / kFixedScale).
Hypothesis In2 : in_i64 (px * leaves / kFixedScale * in_contract_multiplier inst / kFixedScale).

Lemma notional_linear p q : 0 < p <= px -> 0 < q <= leaves -> notional inst p q = linear_notional inst p q /\ 0 <= notional inst p q /\ in_i64 (notional inst p q).
Proof.
  intros Hp Hq. assert (Hk : 0 < kFixedScale) by (unfold kFixedScale; lia). assert (Hpq : 0 <= p * q <= px * leaves) by nia.
  assert (Hn : 0 <= p * q / kFixedScale <= px * leaves / kFixedScale) by (split; [apply Z.div_pos; lia | apply Z.div_le_mono; lia]).
  assert (E : mul p q = p * q / kFixedScale) by (apply mul_nonneg_eq; try lia; [unfold in_i64, i64_min, i64_max in *; lia.. | by apply (div_mono_i64 _ (px * leaves))]).
  unfold notional, linear_notional. rewrite Hinv, E. case_if; [split; [done|]; split; [lia | by apply (div_mono_i64 _ (px * leaves))]|]. assert (Hnm : 0 <= p * q / kFixedScale * in_contract_multiplier inst <= px * leaves / kFixedScale * in_contract_multiplier inst) by nia.
  assert (E2 : mul_raw (p * q / kFixedScale) (in_contract_multiplier inst) = p * q / kFixedScale * in_contract_multiplier inst / kFixedScale).
  { apply mul_nonneg_eq; try lia; [by apply (div_mono_i64 _ (px * leaves)) | done | by apply (div_mono_i64 _ (px * leaves / kFixedScale * in_contract_multiplier inst))]. }
  rewrite E2. split; [done|]. split; [apply Z.div_pos; lia | by apply (div_mono_i64 _ (px * leaves / kFixedScale * in_contract_multiplier inst))].
Qed.
Lemma fills_notional fills : 0 < px -> fills_ok px leaves fills -> lsum (fun '(p, q, _) => linear_notional inst p q) fills <= linear_notional inst px leaves.
Proof.
  intros Hpx [Hf Hs]. assert (Hk : 0 < kFixedScale) by (unfold kFixedScale; lia).
  assert (H1 : lsum (fun '(p, q, _) => p * q / kFixedScale) fills <= px * leaves / kFixedScale).
  { transitivity (lsum (fun '(p, q, _) => p * q) fills / kFixedScale).
    - etransitivity; [|apply (lsum_div_le (fun '(p, q, _) => p * q)); done]. apply lsum_le. apply Forall_true. intros [[? ?] ?]. reflexivity.
    - apply Z.div_le_mono; [done|]. transitivity (lsum (fun x : Z * Z * Liquidity => let '(_, q, _) := x in q) fills * px); [|nia]. rewrite <- lsum_mul. apply lsum_le.
      eapply Forall_impl; [exact Hf|]. intros [[p q] l] []. nia. }
  unfold linear_notional. case_if; [done|].
  transitivity (lsum (fun x : Z * Z * Liquidity => let '(p, q, _) := x in p * q / kFixedScale * in_contract_multiplier inst) fills / kFixedScale).
  - etransitivity; [|apply lsum_div_le; done]. apply lsum_le. apply Forall_true. intros [[? ?] ?]. reflexivity.
  - apply Z.div_le_mono; [done|].
    transitivity (lsum (fun x : Z * Z * Liquidity => let '(p, q, _) := x in p * q / kFixedScale) fills * in_contract_multiplier inst); [|nia]. rewrite <- lsum_mul.
    apply lsum_le. apply Forall_true. intros [[? ?] ?]. reflexivity.
Qed.
End enough.

(** A fee is at most the taker rate of the amount, of whatever liquidity, where maker rates are not above taker ones. *)
Definition rates_ok (f : FeeRates) : Prop := Z.abs (maker_cbps f) <= 1000000 /\ Z.abs (taker_cbps f) <= 1000000 /\ maker_cbps f <= Z.max (taker_cbps f) 0.
Lemma rate_fee_le f n l : in_i64 n -> 0 <= n -> rates_ok f -> rate_fee f n l <= n * Z.max (taker_cbps f) 0 / 1000000.
Proof.
  intros In Hn Hr. unfold rate_fee. assert (Hc : Z.abs (cbps f l) <= 1000000 /\ cbps f l <= Z.max (taker_cbps f) 0) by (unfold cbps; destruct l, Hr as (? & ? & ?); lia).
  rewrite i128_product, i128_quot by (done || width).
  assert (Hq : Z.quot (n * cbps f l) 1000000 <= n * Z.max (taker_cbps f) 0 / 1000000).
  { destruct (Z.le_gt_cases 0 (cbps f l)) as [H|H].
    - rewrite Z.quot_div_nonneg by nia. apply Z.div_le_mono; nia.
    - transitivity 0; [|apply Z.div_pos; nia]. pose proof (Z.quot_le_mono (n * cbps f l) 0 1000000 ltac:(lia) ltac:(nia)) as Hz. by rewrite Z.quot_0_l in Hz by lia. }
  rewrite i64_id; [done|]. assert (- n <= Z.quot (n * cbps f l) 1000000 <= n); [|width].
  pose proof (Z.quot_le_mono (n * cbps f l) (n * 1000000) 1000000 ltac:(lia) ltac:(nia)) as H1. rewrite Z.quot_mul in H1 by lia.
  pose proof (Z.quot_le_mono (- n * 1000000) (n * cbps f l) 1000000 ltac:(lia) ltac:(nia)) as H2. rewrite Z.quot_mul in H2 by lia. lia.
Qed.
Lemma with_fee_ceil n c : in_i64 n -> 0 <= n -> 0 <= c <= 1000000 -> in_i64 (n + (n * c + 999999) / 1000000) -> with_fee n c = n + (n * c + 999999) / 1000000.
Proof.
  intros In Hn Hc Ir. unfold with_fee. destruct (Z.leb_spec c 0); [replace c with 0 by lia; rewrite Z.mul_0_r; cbn; change ((0 + 999999) / 1000000) with 0; lia|].
  destruct (Z.leb_spec n 0); [replace n with 0 by lia; cbn; done|]. cbn [orb].
  rewrite (i128_product n c) by (done || width). assert (E : i128 (n * c + 999999) = n * c + 999999).
  { unfold i128. rewrite Z.mod_small; [lia|]. assert (n * c <= 2 ^ 63 * 1000000) by (apply Z.mul_le_mono_nonneg; width). lia. }
  rewrite E, Z.quot_div_nonneg by nia. assert (Hq : 0 <= (n * c + 999999) / 1000000 <= n + 1).
  { split; [apply Z.div_pos; nia|]. apply Z.div_le_upper_bound; nia. }
  rewrite (i64_id ((n * c + 999999) / 1000000)) by (unfold in_i64, i64_min, i64_max in *; lia). by apply i64_id.
Qed.

Definition fill_cost (inst : Instrument) (f : FeeRates) (x : Price * Qty * Liquidity) : Z :=
  let '(p, q, l) := x in notional inst p q + rate_fee f (notional inst p q) l.

(** C11. What a spot buy holds is enough for everything its fills take, provided the fees are in the quote asset and the maker
    rate is not above the taker rate or zero, whichever is larger ([rates_ok]), the contract is linear and the amounts fit 64
    bits: whatever the prices at or below its own, the quantities up to its own and the liquidity of each, the notionals and
    the fees add up to at most the hold. *)
Theorem spot_buy_hold_suffices b id inst px leaves account f fills :
  let i := slot_get b (slot b id account) in
  id < kMaxInstruments -> i_derivative i = false -> i_taker_cbps i = Z.max (taker_cbps f) 0 -> rates_ok f ->
  inverse inst = false -> 0 < in_contract_multiplier inst -> in_i64 (in_contract_multiplier inst) ->
  0 < px -> 0 < leaves -> in_i64 px -> in_i64 leaves -> in_i64 (px * leaves / kFixedScale) ->
  in_i64 (px * leaves / kFixedScale * in_contract_multiplier inst / kFixedScale) ->
  in_i64 (linear_notional inst px leaves + (linear_notional inst px leaves * i_taker_cbps i + 999999) / 1000000) ->
  fills_ok px leaves fills ->
  lsum (fill_cost inst f) fills <= hold b id inst Buy px leaves false account.
Proof.
  intros i Hid Hd Hc Hr Hinv Hm Im Hpx Hl Ip Il I1 I2 I3 Hf. unfold hold. assert ((kMaxInstruments <=? id) || negb (0 <? leaves) = false) as -> by lia.
  fold i. rewrite Hd. cbn [negb]. set (c := i_taker_cbps i) in *. assert (Hc1 : 0 <= c <= 1000000) by (rewrite Hc; destruct Hr as (? & ? & ?); lia).
  destruct (notional_linear inst px leaves Hinv Hm Im Ip Il I1 I2 px leaves ltac:(lia) ltac:(lia)) as (EN & HN & IN). rewrite EN in *. set (N := linear_notional inst px leaves) in *.
  rewrite with_fee_ceil by done. pose proof (fills_notional inst px leaves Hinv Hm fills Hpx Hf) as Hsum. fold N in Hsum.
  set (n := fun x : Price * Qty * Liquidity => let '(p, q, _) := x in linear_notional inst p q) in *.
  transitivity (lsum (fun x => n x + n x * c / 1000000) fills).
  - apply lsum_le. apply Forall_forall. intros [[p q] l] Hin. pose proof (proj1 (Forall_forall _ _) (proj1 Hf) _ Hin) as [Hp Hq].
    destruct (notional_linear inst px leaves Hinv Hm Im Ip Il I1 I2 p q Hp ltac:(pose proof (fill_qty_le px leaves fills p q l Hf Hin); lia)) as (En & Hn0 & Hi0).
    unfold fill_cost, n. rewrite En in *. rewrite Hc. apply Zplus_le_compat_l. by apply rate_fee_le.
  - assert (E : forall l, lsum (fun x => n x + n x * c / 1000000) l = lsum n l + lsum (fun x => n x * c / 1000000) l).
    { intros l. unfold lsum. induction l as [|x l IH]; cbn [foldr]; lia. }
    rewrite E. pose proof (lsum_div_le (fun x => n x * c) 1000000 fills ltac:(lia)) as H2. rewrite lsum_mul in H2.
    assert (lsum n fills * c / 1000000 <= (N * c + 999999) / 1000000) by (apply Z.div_le_mono; nia). lia.
Qed.

(** ** Concrete histories *)

Definition btc : list Z := [66; 84; 67].
Definition usdt : list Z := [85; 83; 68; 84].
Definition spot_inst : Instrument := mkInstrument 0 0 Spot 1 2 1000000 100000 100000 0 0 one_contract 0.
Definition perp_inst : Instrument := mkInstrument 1 0 Perpetual 1 2 1000000 100000 100000 0 0 one_contract 0.
Definition two_insts : list NamedInstrument := [mkNamed spot_inst btc usdt; mkNamed perp_inst btc usdt].
Definition ten_bps : FeeTable := mkFeeTable (mkFees 500 1000) ∅.
Definition full_margin : BalanceConfig := mkBalConfig true {[1 := kFixedScale]}.
Abbreviation start_book := (build two_insts ten_bps full_margin None empty_book).
Definition usdt_report (free locked ts : Z) : BalanceMsg := mkBalMsg 0 ts free locked (free + locked) (free + locked) 0 usdt 0 0.
(** A report, a buy sent and acknowledged, the report of before the acknowledgement, and the fill. *)
Definition spot_ops : list BalOp :=
  [OpReport (usdt_report 1000 0 10); OpHold 0 Buy 0 300 0 true 0; OpAck 0 Buy 300 12 0; OpReport (usdt_report 1000 0 11);
   OpFill 0 spot_inst Buy kFixedScale 299 1 FeeQuote 0 299 13 0; OpHold 0 Buy 300 0 13 false 0; OpReserve 0 usdt 50; OpReport (usdt_report 700 300 12)].

Lemma balance_estimates_witness :
  has_row start_book 1 /\ tracked spot_ops start_book = true /\
  r_free (row_at (bal_run spot_ops start_book) 1) =64
    est_free (follow (history spot_ops start_book 1) no_est) - flight (bal_run spot_ops start_book) 1 - r_reserved (row_at (bal_run spot_ops start_book) 1) /\
  r_free (row_at (bal_run spot_ops start_book) 1) = 650.
Proof.
  assert (Hr : has_row start_book 1) by (vm_compute; split; [discriminate | reflexivity]).
  assert (Ht : tracked spot_ops start_book = true) by (vm_compute; reflexivity).
  assert (Hn : NoDup (table_ids two_insts)) by (apply (bool_decide_unpack _); vm_compute; exact I).
  split; [exact Hr|]. split; [exact Ht|]. split; [|vm_compute; reflexivity].
  pose proof (balance_estimates two_insts ten_bps full_margin None empty_book spot_ops 1 Hn ltac:(vm_compute; discriminate)) as H.
  cbv zeta in H.  specialize (H Hr Ht). destruct H as (_ & H & _). exact H.
Defined.

Lemma spot_buy_hold_suffices_witness :
  lsum (fill_cost spot_inst (mkFees 500 1000)) [(kFixedScale, 400, Maker); (kFixedScale - 1000, 590, Taker)] <= hold start_book 0 spot_inst Buy kFixedScale 990 false 0.
Proof.
  assert (Hf : fills_ok kFixedScale 990 [(kFixedScale, 400, Maker); (kFixedScale - 1000, 590, Taker)]).
  { split; [|vm_compute; discriminate]. apply Forall_cons. split; [split; [vm_compute; split; [reflexivity | discriminate] | lia]|].
    apply Forall_singleton. split; [vm_compute; split; [reflexivity | discriminate] | lia]. }
  pose proof (spot_buy_hold_suffices start_book 0 spot_inst kFixedScale 990 0 (mkFees 500 1000) [(kFixedScale, 400, Maker); (kFixedScale - 1000, 590, Taker)]) as H.
  cbv zeta in H. apply H; clear H; [vm_compute; repeat split; discriminate || reflexivity ..|exact Hf].
Defined.

(** A perpetual's acknowledged buy of 100 is amended to 200 while a sell of 200 is in flight: the larger side does not move,
    so nothing is noted, and the report of before the amendment that comes after it is not moved by it. *)
Definition perp_ops : list BalOp :=
  [OpReport (usdt_report 1000 0 10); OpHold 1 Buy 0 100 0 true 0; OpAck 1 Buy 100 11 0; OpReport (usdt_report 900 100 12);
   OpHold 1 Sell 0 200 0 true 0; OpHold 1 Buy 100 200 14 false 0].

(** The hypothesis on netting is needed.  With an acknowledged buy amended from 100 to 200 under a sell of 200 in flight,
    a report of before the amendment raises the free estimate from 800 to 900, and the check then passes an order of 900:
    the orders hold 200 of the 1000, of which the report has 100. *)
Theorem late_report_overestimates :
  let before := bal_run perp_ops start_book in
  let after := bal_step (OpReport (usdt_report 900 100 13)) before in
  tracked perp_ops start_book = false /\
  larger_side (inst_at after 1) = 200 /\
  r_free (row_at before 1) = 800 /\ r_free (row_at after 1) = 900 /\
  covers before 0 spot_inst Buy kFixedScale 850 0 false false 0 = false /\
  covers after 0 spot_inst Buy kFixedScale 850 0 false false 0 = true.
Proof. vm_compute. repeat split. Qed.
