(* ===== verification/EngineHolds.v ===== *)
(** * EngineHolds: the holds of the open orders ([engine.hpp], balances)

    The engine keeps what every open order holds and whether the venue has acknowledged it, by pool slot, and moves the
    balance book as the orders change.  [ledger_ok] says that the book's totals of each instrument state and side are the sums
    of those entries, which the in-flight part of the estimate rests on. *)

From S2P Require Import Prelude Types FixedPoint Instruments RingBuffer MapSum Orders Oms L2Book BalanceBook BalanceOps BalanceInv BalanceFlight BalanceSteps BalanceReports BalanceProps.
Implicit Type b : BalanceBook.

Record HoldLedger := mkLedger { holds_ : gmap Z Z; unacked_ : gmap Z bool; balances_ : BalanceBook; balances_live_ : bool }.
#[export] Instance eta_ledger : Eta HoldLedger := fun l => mkLedger (holds_ l) (unacked_ l) (balances_ l) (balances_live_ l).
Implicit Type L : HoldLedger.
Definition hold_at L (idx : Z) : Z := default 0 (holds_ L !! idx).
Definition unacked_at L (idx : Z) : bool := default false (unacked_ L !! idx).
(** The venue has taken the order: its ack, or a fill of it, came. *)
Definition acknowledged (o : Order) : bool :=
  negb (bool_decide (o_state o = PendingNew)) && (negb (bool_decide (o_state o = PendingCancel)) || negb (bool_decide (o_venue_order_id o = []))).

Section ledger.
Context (table : list Instrument) (books : InstrumentId -> L2Book).

Definition contains (id : InstrumentId) : bool := id <? Z.of_nat (length table).
Definition get_inst (id : InstrumentId) : Instrument := default (mkInstrument 0 0 Spot 0 0 0 0 0 0 0 0 0) (table !! Z.to_nat id).
Definition hold_price (id : InstrumentId) (type : OrderType) (px : Price) : Price :=
  if negb (bool_decide (type = Market)) then px else if is_valid (books id) then mid (books id) else 0.
Definition order_hold L (o : Order) : Z :=
  hold (balances_ L) (o_instrument o) (get_inst (o_instrument o)) (o_side o) (hold_price (o_instrument o) (o_type o) (o_price o)) (leaves_qty o)
    (has o kReduceOnly) (o_venue o).
(** One open order of [start_balances]. *)
Definition start_order L (e : Z * Order) : HoldLedger :=
  let '(idx, o) := e in
  if negb (contains (o_instrument o)) then L
  else
    let amount := order_hold L o in
    let u := negb (acknowledged o) in
    let L := L <| holds_ ::= insert idx amount |> <| unacked_ ::= insert idx u |> in
    L <| balances_ ::= move_hold (o_instrument o) (o_side o) 0 amount 0 u (o_venue o) |>.
Definition start_balances (opens : list (Z * Order)) L : HoldLedger := fold_left start_order opens (L <| balances_live_ := true |>).
(** [opens]: the orders [for_each_open_order] visits. *)
Definition on_balance (opens : list (Z * Order)) (m : BalanceMsg) L : HoldLedger :=
  let L := if negb (balances_live_ L) then start_balances opens L else L in
  L <| balances_ ::= fun b => snd (on_report m b) |>.
(** The hold of an order the engine has just submitted to slot [idx]. *)
Definition submit_hold (idx : Z) (o : Order) L : HoldLedger :=
  if negb (balances_live_ L) then L
  else
    let amount := order_hold L o in
    let L := L <| holds_ ::= insert idx amount |> <| unacked_ ::= insert idx true |> in
    L <| balances_ ::= move_hold (o_instrument o) (o_side o) 0 amount 0 true (o_venue o) |>.
Definition update_hold (u : OmsUpdate) (ts : Timestamp) L : HoldLedger :=
  let o := u_order u in
  let idx := u_slot u in
  if negb (contains (o_instrument o)) then L
  else
    let now_hold := if u_terminal u then 0 else order_hold L o in
    let held := hold_at L idx in
    let L :=
      if unacked_at L idx && negb (u_terminal u) && acknowledged o then
        L <| balances_ ::= acknowledge (o_instrument o) (o_side o) held ts (o_venue o) |> <| unacked_ ::= insert idx false |>
      else L in
    let L :=
      if negb (now_hold =? held) then
        L <| balances_ ::= move_hold (o_instrument o) (o_side o) held now_hold ts (unacked_at L idx) (o_venue o) |>
      else L in
    let L := L <| holds_ ::= insert idx now_hold |> in
    if u_terminal u then L <| unacked_ ::= insert idx false |> else L.
(** The check of [check_balance]; [pos]: the instrument's position, [open_same_side]: what is already open on the side. *)
Definition balance_covers L (pos : Z) (inst : Instrument) (account : VenueId) (s : Side) (type : OrderType) (px : Price) (qty : Qty) (replaced : Z) (reduce_only : bool) (open_same_side : Qty) : bool :=
  let reduces := negb (pos =? 0) && negb (Bool.eqb (0 <? pos) (bool_decide (s = Buy))) && (i64 (open_same_side + qty) <=? (if pos <? 0 then i64 (- pos) else pos)) in
  covers (balances_ L) (in_id inst) inst s (hold_price (in_id inst) type px) qty replaced reduce_only reduces account.
End ledger.

(** ** What an operation of the book does to the instrument states *)

#[export] Instance slotref_dec : EqDecision SlotRef.
Proof. solve_decision. Defined.

(** From [b] to [b'], side [s] of state [sl] has [du] more in flight and, on a derivative, [dh] more held. *)
Record moved b b' (sl : SlotRef) (s : Side) (du dh : Z) : Prop := {
  mv_ok : book_ok b -> book_ok b';
  mv_slots : forall x, slot_ok b' x <-> slot_ok b x;
  mv_slot : forall id account, slot b' id account = slot b id account;
  mv_derivative : forall x, slot_ok b x -> i_derivative (slot_get b' x) = i_derivative (slot_get b x);
  mv_unacked : forall x t, slot_ok b x -> unacked (slot_get b' x) t =64 unacked (slot_get b x) t + (if decide ((x, t) = (sl, s)) then du else 0);
  mv_hold : forall x t, slot_ok b x -> side_hold (slot_get b' x) t =64 side_hold (slot_get b x) t + (if decide ((x, t) = (sl, s)) then dh else 0);
}.
Lemma moved_add b1 b2 b3 sl s du dh du' dh' : moved b1 b2 sl s du dh -> moved b2 b3 sl s du' dh' -> moved b1 b3 sl s (du + du') (dh + dh').
Proof.
  intros [O1 S1 L1 D1 U1 H1] [O2 S2 L2 D2 U2 H2]. split.
  - auto.
  - intros x. rewrite S2. apply S1.
  - intros. rewrite L2. apply L1.
  - intros x Hx. rewrite D2 by by apply S1. by apply D1.
  - intros x t Hx. rewrite U2, U1 by (done || by apply S1). case_match; eq64.
  - intros x t Hx. rewrite H2, H1 by (done || by apply S1). case_match; eq64.
Qed.
Lemma find_member_same b b' account n : (forall k, i_venue (member_at b' k) = i_venue (member_at b k)) -> forall k, find_member b' account k n = find_member b account k n.
Proof. intros E. induction n as [|n IH]; intros k; [done|]. cbn [find_member]. by rewrite E, IH. Qed.
Definition same_members b b' : Prop :=
  (forall id, i_venue (inst_at b' id) = i_venue (inst_at b id) /\ i_n_members (inst_at b' id) = i_n_members (inst_at b id) /\ i_first_member (inst_at b' id) = i_first_member (inst_at b id)) /\
  (forall k, i_venue (member_at b' k) = i_venue (member_at b k)).
Lemma slot_same b b' id account : same_members b b' -> slot b' id account = slot b id account.
Proof. intros [Hi Hm]. unfold slot. destruct (Hi id) as (-> & -> & ->). by rewrite (find_member_same b b' _ _ Hm). Qed.
Lemma moved_frame b b' sl s : frame b b' -> moved b b' sl s 0 0.
Proof.
  intros Hf. pose proof Hf as [_ _ Hi Hm _]. assert (Eg : forall x, slot_get b' x = slot_get b x) by (intros []; cbn; unfold inst_at, member_at; by rewrite ?Hi, ?Hm). split.
  - by apply frame_ok.
  - intros []; cbn; [done|]. by rewrite Hm.
  - intros. apply slot_same. unfold same_members, inst_at, member_at. by rewrite Hi, Hm.
  - intros. by rewrite Eg.
  - intros. rewrite Eg. case_match; eq64.
  - intros. rewrite Eg. case_match; eq64.
Qed.
Lemma slot_get_upd_ne b sl x f : slot_ok b sl -> slot_ok b x -> x <> sl -> slot_get (slot_upd sl f b) x = slot_get b x.
Proof.
  intros Hs Hx Hne. destruct sl as [id|k], x as [id'|k']; cbn in *; try done.
  - unfold inst_at. cbn. rewrite lookup_insert_ne by congruence. done.
  - unfold member_at. cbn. rewrite list_lookup_alter_ne; [done|]. intros E. apply Hne. f_equal. lia.
Qed.
Lemma slot_upd_same_members b sl f : slot_ok b sl -> same_place (slot_get b sl) (f (slot_get b sl)) -> same_members b (slot_upd sl f b).
Proof.
  intros Hs Hp. split.
  - intros id. destruct sl as [n|k]; [|done]. cbn [slot_upd slot_get] in *.
    assert (E : inst_at (b <| inst_ ::= insert n (f (inst_at b n)) |>) id = if decide (id = n) then f (inst_at b n) else inst_at b id).
    { unfold inst_at at 1. cbn. case_decide as Hc; [rewrite Hc, lookup_insert_eq; done | by rewrite lookup_insert_ne]. }
    rewrite !E. case_decide as Hc; [rewrite Hc; by destruct Hp | done].
  - intros k. destruct sl as [n|n]; [done|]. cbn [slot_upd slot_get] in *. unfold member_at at 1. cbn.
    destruct (decide (Z.to_nat k = Z.to_nat n)) as [E|]; [|rewrite list_lookup_alter_ne by done; done]. rewrite E, list_lookup_alter_eq.
    unfold member_at in *. rewrite E. destruct (members_ b !! Z.to_nat n) as [i|]; [|done]. cbn in *. by destruct Hp.
Qed.
Lemma moved_slot_upd b sl s f du dh : slot_ok b sl -> (forall i, same_place i (f i)) ->
  (forall i t, unacked (f i) t =64 unacked i t + (if decide (t = s) then du else 0)) -> (forall i t, side_hold (f i) t =64 side_hold i t + (if decide (t = s) then dh else 0)) ->
  moved b (slot_upd sl f b) sl s du dh.
Proof.
  intros Hs Hp Hu Hh. assert (Hd : forall x, slot_ok b x -> i_derivative (slot_get (slot_upd sl f b) x) = i_derivative (slot_get b x)).
  { intros x Hx. destruct (decide (x = sl)) as [-> |]; [rewrite slot_get_upd by done; apply Hp | by rewrite slot_get_upd_ne]. }
  assert (Hok : forall x, slot_ok (slot_upd sl f b) x <-> slot_ok b x) by (intros x; destruct sl, x; cbn; rewrite ?length_alter; done). split.
  - intros Hb. by apply slot_upd_ok.
  - exact Hok.
  - intros. apply slot_same. by apply slot_upd_same_members.
  - exact Hd.
  - intros x t Hx. destruct (decide (x = sl)) as [-> |Hne].
    + rewrite slot_get_upd, Hu by done. repeat case_decide; try congruence; eq64.
    + rewrite slot_get_upd_ne by done. rewrite decide_False by congruence. eq64.
  - intros x t Hx. destruct (decide (x = sl)) as [-> |Hne].
    + rewrite slot_get_upd, Hh by done. repeat case_decide; try congruence; eq64.
    + rewrite slot_get_upd_ne by done. rewrite decide_False by congruence. eq64.
Qed.

Lemma add_unacked_moves s d i t : unacked (add_unacked s d i) t =64 unacked i t + (if decide (t = s) then d else 0).
Proof. case_decide as E; [subst t|]; destruct s; try destruct t; try done; cbn; rewrite ?i64_eq64; eq64. Qed.
Lemma add_unacked_keeps s d i t : side_hold (add_unacked s d i) t =64 side_hold i t + (if decide (t = s) then 0 else 0).
Proof. assert ((if decide (t = s) then 0 else 0) = 0) as -> by by case_decide. rewrite Z.add_0_r. by destruct s. Qed.
Lemma add_hold_moves s d i t : side_hold (add_hold s d i) t =64 side_hold i t + (if decide (t = s) then d else 0).
Proof. case_decide as E; [subst t|]; destruct s; try destruct t; try done; cbn; rewrite ?i64_eq64; eq64. Qed.
Lemma add_hold_keeps s d i t : unacked (add_hold s d i) t =64 unacked i t + (if decide (t = s) then 0 else 0).
Proof. assert ((if decide (t = s) then 0 else 0) = 0) as -> by by case_decide. rewrite Z.add_0_r. by destruct s. Qed.
Lemma moved_eq64 b b' sl s du dh du' dh' : moved b b' sl s du dh -> du =64 du' -> dh =64 dh' -> moved b b' sl s du' dh'.
Proof.
  intros [] Hu Hh. split; try done; intros x t Hx; [rewrite mv_unacked0 by done | rewrite mv_hold0 by done]; case_match; rewrite ?Hu, ?Hh; done.
Qed.
Lemma moved_move_hold id s before after ts u account b : book_ok b -> id < kMaxInstruments ->
  let sl := slot b id account in
  moved b (move_hold id s before after ts u account b) sl s (if u then after - before else 0) (if i_derivative (slot_get b sl) then after - before else 0).
Proof.
  intros Hb Hid sl. pose proof (account_slot_ok b id account Hb) as Hs. fold sl in Hs. unfold move_hold. destruct (Z.eqb_spec before after) as [-> |Hne].
  - rewrite orb_true_r, Z.sub_diag. apply (moved_eq64 _ _ _ _ 0 0); [by apply moved_frame | by case_match..].
  - assert ((kMaxInstruments <=? id) || false = false) as -> by lia. fold sl. set (d := i64 (after - before)).
    assert (Hd : d =64 after - before) by apply i64_eq64. set (b0 := if u then slot_upd sl (add_unacked s d) b else b).
    assert (M0 : moved b b0 sl s (if u then after - before else 0) 0).
    { unfold b0. destruct u; [|by apply moved_frame]. apply (moved_eq64 _ _ _ _ d 0); [|done | done].
      apply moved_slot_upd; [done | apply add_unacked_place | apply add_unacked_moves | apply add_unacked_keeps]. }
    rewrite (mv_derivative _ _ _ _ _ _ M0 sl Hs). destruct (i_derivative (slot_get b sl)); cbn [negb].
    + set (b1 := slot_upd sl (add_hold s d) b0). apply (moved_eq64 _ _ _ _ ((if u then after - before else 0) + 0 + 0) (0 + d + 0)).
      * eapply moved_add; [eapply moved_add; [exact M0|]|apply moved_frame, move_hold_row_frame].
        apply moved_slot_upd; [by apply M0 | apply add_hold_place | apply add_hold_keeps | apply add_hold_moves].
      * eq64.
      * rewrite Z.add_0_r. exact Hd.
    + apply (moved_eq64 _ _ _ _ ((if u then after - before else 0) + 0) (0 + 0)); [|eq64 | done].
      eapply moved_add; [exact M0 | apply moved_frame, move_hold_row_frame].
Qed.
Lemma moved_acknowledge id s amount ts account b : book_ok b -> id < kMaxInstruments ->
  moved b (acknowledge id s amount ts account b) (slot b id account) s (- amount) 0.
Proof.
  intros Hb Hid. pose proof (account_slot_ok b id account Hb) as Hs. unfold acknowledge. assert (kMaxInstruments <=? id = false) as -> by lia. cbn [orb].
  destruct (Z.eqb_spec amount 0) as [-> |Hne]; [by apply moved_frame|].
  assert (M : moved b (slot_upd (slot b id account) (add_unacked s (- amount)) b) (slot b id account) s (- amount) 0).
  { apply moved_slot_upd; [done | apply add_unacked_place | apply add_unacked_moves | apply add_unacked_keeps]. }
  case_if; [exact M|]. apply (moved_eq64 _ _ _ _ (- amount + 0) (0 + 0)); [|eq64 | done]. eapply moved_add; [exact M|]. apply moved_frame.
  case_if; [apply note_frame | by apply upd_row_frame].
Qed.

Lemma moved_use_account v k b sl s : has_row b k -> r_venue (row_at b k) = v -> moved b (use_account v k b) sl s 0 0.
Proof.
  intros Hk Hv. unfold use_account. set (f := fun i : Inst => _). set (b' := _ <| members_ ::= _ |>).
  assert (Hf : forall i, unacked (f i) = unacked i /\ side_hold (f i) = side_hold i /\ i_derivative (f i) = i_derivative i /\ i_venue (f i) = i_venue i /\
    i_n_members (f i) = i_n_members i /\ i_first_member (f i) = i_first_member i) by (intros i; unfold f; by case_if).
  assert (Ei : forall id, inst_at b' id = f (inst_at b id) \/ inst_at b' id = inst_at b id).
  { intros id. unfold inst_at, b'. cbn. rewrite lookup_fmap. destruct (inst_ b !! id); [by left | by right]. }
  assert (Em : forall j, member_at b' j = f (member_at b j) \/ member_at b' j = member_at b j).
  { intros j. unfold member_at, b'. cbn. rewrite list_lookup_fmap. destruct (members_ b !! Z.to_nat j); [by left | by right]. }
  assert (Eg : forall x, slot_get b' x = f (slot_get b x) \/ slot_get b' x = slot_get b x) by (intros []; [apply Ei | apply Em]). split.
  - intros Hb. by apply (use_account_ok v k b).
  - intros []; cbn; [done|]. by rewrite length_fmap.
  - intros. apply slot_same. split.
    + intros n. destruct (Ei n) as [-> | ->]; [|done]. destruct (Hf (inst_at b n)) as (_ & _ & _ & ? & ? & ?). done.
    + intros n. destruct (Em n) as [-> | ->]; [|done]. apply Hf.
  - intros x _. destruct (Eg x) as [-> | ->]; [apply Hf | done].
  - intros x t _. destruct (Eg x) as [-> | ->]; [destruct (Hf (slot_get b x)) as (-> & _)|]; case_match; eq64.
  - intros x t _. destruct (Eg x) as [-> | ->]; [destruct (Hf (slot_get b x)) as (_ & -> & _)|]; case_match; eq64.
Qed.
Lemma end_snapshot_frame v ts b : frame b (end_snapshot v ts b).
Proof.
  unfold end_snapshot. set (b0 := upd_venue v (fun vs => vs <| in_snapshot := false |>) b). set (b1 := b0 <| bstats_ ::= _ |>).
  assert (H1 : frame b b1) by (transitivity b0; [by apply upd_venue_frame | done]). generalize (seqZ 0 (Z.of_nat (length (rows_ b1)))) as ks. revert H1. generalize b1.
  intros c Hc ks. revert c Hc. induction ks as [|k ks IH]; intros c Hc; cbn [fold_left]; [done|]. apply IH. etransitivity; [exact Hc | apply end_row_frame].
Qed.
Lemma moved_on_report m b sl s : book_ok b -> moved b (snd (on_report m b)) sl s 0 0.
Proof.
  intros Hb. unfold on_report. cbn [snd]. pose proof (begin_report_frame m b) as H0. set (b0 := begin_report m b) in *. pose proof (frame_ok _ _ H0 Hb) as Hb0.
  assert (H1 : moved b0 (apply_report m (reported_row m b0) b0) sl s 0 0).
  { pose proof (reported_row_ok m b0 Hb0) as Hok. unfold apply_report. case_if; [|apply moved_frame; by destruct (bm_asset m)].
    destruct Hok as [|[Hk Hv]]; [lia|]. set (k := reported_row m b0) in *. change 0 with (0 + 0). eapply moved_add; [|apply moved_frame, rebase_frame].
    set (b1 := upd_row k _ b0). assert (F1 : frame b0 b1) by (apply upd_row_frame; intros; apply report_row_venue).
    case_if; [|by apply moved_frame]. set (b2 := upd_row k _ b1). assert (F2 : frame b0 b2) by (etransitivity; [exact F1|]; by apply upd_row_frame).
    case_if; [|by apply moved_frame]. change 0 with (0 + 0). eapply moved_add; [by apply moved_frame|].
    apply moved_use_account; [by apply (frame_has_row b0) | by rewrite (fr_venue _ _ F2)]. }
  change 0 with (0 + 0). eapply moved_add; [by apply moved_frame|]. change 0 with (0 + 0). eapply moved_add; [exact H1|]. apply moved_frame.
  case_if; [apply end_snapshot_frame | done].
Qed.

(** ** The ledger *)

Abbreviation key := (SlotRef * Side)%type.
Definition unacked_part L (k : key) (idx : Z) (k' : key) : Z := if decide (k' = k) then if unacked_at L idx then hold_at L idx else 0 else 0.
Definition hold_part L (k : key) (idx : Z) (k' : key) : Z := if decide (k' = k) then hold_at L idx else 0.
(** [keys]: the instrument state and side of the order in each pool slot. *)
Record ledger_ok (keys : gmap Z key) L : Prop := {
  lo_book : book_ok (balances_ L);
  lo_keys : forall idx k, keys !! idx = Some k -> slot_ok (balances_ L) k.1;
  lo_unacked : forall x t, slot_ok (balances_ L) x -> unacked (slot_get (balances_ L) x) t =64 msum (unacked_part L (x, t)) keys;
  lo_hold : forall x t, slot_ok (balances_ L) x -> i_derivative (slot_get (balances_ L) x) = true ->
    side_hold (slot_get (balances_ L) x) t =64 msum (hold_part L (x, t)) keys;
}.
Lemma msum_put (g g' : Z -> key -> Z) keys idx k : (forall j x, j <> idx -> g' j x = g j x) ->
  msum g' (<[idx := k]> keys) = msum g keys - from_option (g idx) 0 (keys !! idx) + g' idx k.
Proof.
  intros E. rewrite <- insert_delete_eq, msum_insert by apply lookup_delete_eq.
  rewrite (msum_ext g' g (delete idx keys)) by (intros j x Hj; apply E; intros ->; by rewrite lookup_delete_eq in Hj).
  destruct (keys !! idx) as [x|] eqn:Ek; cbn; [rewrite (msum_delete g keys idx x Ek); lia|]. rewrite delete_id by done. lia.
Qed.

(** One entry changes, and the book with it. *)
Lemma ledger_entry keys L L' idx sl s h u h' u' dh : ledger_ok keys L ->
  hold_at L idx = h -> unacked_at L idx = u -> (keys !! idx = Some (sl, s) \/ h = 0) -> slot_ok (balances_ L) sl ->
  hold_at L' idx = h' -> unacked_at L' idx = u' -> (forall j, j <> idx -> hold_at L' j = hold_at L j /\ unacked_at L' j = unacked_at L j) ->
  moved (balances_ L) (balances_ L') sl s ((if u' then h' else 0) - (if u then h else 0)) dh ->
  (i_derivative (slot_get (balances_ L) sl) = true -> dh =64 h' - h) ->
  ledger_ok (<[idx := (sl, s)]> keys) L'.
Proof.
  intros [Hb Hk Hu Hh] Eh Eu Hkey Hs Eh' Eu' Hother HM Hdh. pose proof HM as [M1 M2 M3 M4 M5 M6]. split.
  - by apply M1.
  - intros j k E. apply M2. apply lookup_insert_Some in E as [[<- <-] | [_ E]]; [done | by apply (Hk j)].
  - intros x t Hx. apply M2 in Hx. rewrite M5, Hu by done.
    rewrite (msum_put (unacked_part L (x, t)) (unacked_part L' (x, t)) keys idx (sl, s)) by (intros j y Hj; unfold unacked_part; destruct (Hother j Hj) as [-> ->]; done).
    assert (Eo : from_option (unacked_part L (x, t) idx) 0 (keys !! idx) = if decide ((x, t) = (sl, s)) then if u then h else 0 else 0).
    { destruct Hkey as [-> | H0]; cbn; unfold unacked_part; rewrite ?Eu, ?Eh; [repeat case_decide; congruence|]. destruct (keys !! idx); cbn; repeat case_match; congruence. }
    rewrite Eo. unfold unacked_part. rewrite Eh', Eu'. repeat case_decide; try congruence; eq64.
  - intros x t Hx Hd. apply M2 in Hx. rewrite M4 in Hd by done. rewrite M6, Hh by done.
    rewrite (msum_put (hold_part L (x, t)) (hold_part L' (x, t)) keys idx (sl, s)) by (intros j y Hj; unfold hold_part; destruct (Hother j Hj) as [-> _]; done).
    assert (Eo : from_option (hold_part L (x, t) idx) 0 (keys !! idx) = if decide ((x, t) = (sl, s)) then h else 0).
    { destruct Hkey as [-> | H0]; cbn; unfold hold_part; rewrite ?Eh; [repeat case_decide; congruence|]. destruct (keys !! idx); cbn; repeat case_match; congruence. }
    rewrite Eo. unfold hold_part. rewrite Eh'. destruct (decide ((x, t) = (sl, s))) as [E|E].
    + injection E as -> ->. rewrite (Hdh Hd), decide_True by done. eq64.
    + rewrite decide_False by congruence. eq64.
Qed.
Lemma ledger_book keys L b' sl s : ledger_ok keys L -> moved (balances_ L) b' sl s 0 0 -> ledger_ok keys (L <| balances_ := b' |>).
Proof.
  intros [Hb Hk Hu Hh] [M1 M2 M3 M4 M5 M6]. split; cbn.
  - by apply M1.
  - intros j k E. apply M2. by apply (Hk j).
  - intros x t Hx. apply M2 in Hx. rewrite M5, Hu by done. case_match; rewrite Z.add_0_r; done.
  - intros x t Hx Hd. apply M2 in Hx. rewrite M4 in Hd by done. rewrite M6, Hh by done. case_match; rewrite Z.add_0_r; done.
Qed.

(** ** Histories of the ledger *)

Section histories.
Context (table : list Instrument) (books : InstrumentId -> L2Book).
Hypothesis Htable : Z.of_nat (length table) <= kMaxInstruments.

Inductive HoldOp := HBalance (opens : list (Z * Order)) (m : BalanceMsg) | HSubmit (idx : Z) (o : Order) | HUpdate (u : OmsUpdate) (ts : Timestamp) | HBook (o : BalOp).
Definition hold_step (o : HoldOp) L : HoldLedger :=
  match o with
  | HBalance opens m => on_balance table books opens m L
  | HSubmit idx o => submit_hold table books idx o L
  | HUpdate u ts => update_hold table books u ts L
  | HBook o => L <| balances_ ::= bal_step o |>
  end.
Definition order_key L (o : Order) : key := (slot (balances_ L) (o_instrument o) (o_venue o), o_side o).
Definition start_key L (keys : gmap Z key) (e : Z * Order) : gmap Z key := if contains table (o_instrument e.2) then <[e.1 := order_key L e.2]> keys else keys.
Definition keys_step (o : HoldOp) L (keys : gmap Z key) : gmap Z key :=
  match o with
  | HBalance opens _ => if balances_live_ L then keys else fold_left (start_key L) opens keys
  | HSubmit idx o => if balances_live_ L then <[idx := order_key L o]> keys else keys
  | _ => keys
  end.
(** An order goes to an idle pool slot, keeps its instrument, side and account there, and the engine moves holds itself. *)
Definition idle_slot L (idx : Z) : Prop := hold_at L idx = 0.
Definition hold_legal (o : HoldOp) L (keys : gmap Z key) : Prop :=
  match o with
  | HBalance opens _ => balances_live_ L = false -> NoDup opens.*1 /\ Forall (fun e => idle_slot L e.1) opens
  | HSubmit idx o => contains table (o_instrument o) = true /\ idle_slot L idx
  | HUpdate u _ => contains table (o_instrument (u_order u)) = true -> keys !! u_slot u = Some (order_key L (u_order u))
  | HBook o => match o with OpHold _ _ _ _ _ _ _ | OpAck _ _ _ _ _ => False | _ => True end
  end.

Lemma contains_id id : contains table id = true -> id < kMaxInstruments.
Proof. unfold contains. lia. Qed.

(** A new entry: at the start of the balances, or of an order just submitted. *)
Lemma new_entry keys L idx o u : ledger_ok keys L -> contains table (o_instrument o) = true -> idle_slot L idx ->
  let amount := order_hold table books L o in
  ledger_ok (<[idx := order_key L o]> keys)
    ((L <| holds_ ::= insert idx amount |> <| unacked_ ::= insert idx u |>) <| balances_ ::= move_hold (o_instrument o) (o_side o) 0 amount 0 u (o_venue o) |>).
Proof.
  intros HL Hc Hi amount. pose proof (lo_book _ _ HL) as Hb. pose proof (contains_id _ Hc) as Hid.
  pose proof (moved_move_hold (o_instrument o) (o_side o) 0 amount 0 u (o_venue o) (balances_ L) Hb Hid) as HM. cbv zeta in HM.
  eapply (ledger_entry keys L _ idx (slot (balances_ L) (o_instrument o) (o_venue o)) (o_side o) 0 (unacked_at L idx) amount u);
    [done | done | done | by right | by apply account_slot_ok | unfold hold_at; cbn; by rewrite lookup_insert_eq | unfold unacked_at; cbn; by rewrite lookup_insert_eq | | |].
  - intros j Hj. unfold hold_at, unacked_at. cbn. by rewrite !lookup_insert_ne.
  - eapply moved_eq64; [exact HM | | reflexivity]. destruct u, (unacked_at L idx); eq64.
  - intros ->. eq64.
Qed.
Lemma start_order_keys keys L idx o L0 : ledger_ok keys L -> idle_slot L idx -> (forall id acc, slot (balances_ L) id acc = slot (balances_ L0) id acc) ->
  let L' := start_order table books L (idx, o) in
  ledger_ok (start_key L0 keys (idx, o)) L' /\ (forall j, j <> idx -> hold_at L' j = hold_at L j) /\ (forall id acc, slot (balances_ L') id acc = slot (balances_ L0) id acc).
Proof.
  intros HL Hi Hs. unfold start_order, start_key. cbn [fst snd]. destruct (contains table (o_instrument o)) eqn:Hc; cbn [negb]; [|done].
  split; [|split].
  - assert (order_key L0 o = order_key L o) as -> by (unfold order_key; by rewrite Hs). by apply new_entry.
  - intros j Hj. unfold hold_at. cbn. by rewrite lookup_insert_ne.
  - intros id acc. rewrite <- Hs. apply (moved_move_hold _ _ _ _ _ _ _ _ (lo_book _ _ HL) (contains_id _ Hc)).
Qed.
Lemma start_balances_keys opens : forall keys L L0, ledger_ok keys L -> NoDup opens.*1 -> Forall (fun e => idle_slot L e.1) opens ->
  (forall id acc, slot (balances_ L) id acc = slot (balances_ L0) id acc) ->
  ledger_ok (fold_left (start_key L0) opens keys) (fold_left (start_order table books) opens L).
Proof.
  induction opens as [|[idx o] opens IH]; intros keys L L0 HL Hnd Hi Hs; [done|]. cbn [fold_left fmap list_fmap fst] in *.
  apply NoDup_cons in Hnd as [Hn Hnd]. apply Forall_cons in Hi as [H1 Hi].
  destruct (start_order_keys keys L idx o L0 HL H1 Hs) as (HL' & Hoth & Hs'). apply IH; try done.
  apply Forall_forall. intros [j o'] Hj. unfold idle_slot. cbn. rewrite Hoth; [by apply (proj1 (Forall_forall _ _) Hi (j, o'))|].
  intros ->. apply Hn. apply list_elem_of_fmap. by exists (idx, o').
Qed.

Lemma update_hold_ok keys L u ts : ledger_ok keys L -> (contains table (o_instrument (u_order u)) = true -> keys !! u_slot u = Some (order_key L (u_order u))) ->
  ledger_ok keys (update_hold table books u ts L).
Proof.
  intros HL Hk. unfold update_hold. destruct (contains table (o_instrument (u_order u))) eqn:Hc; cbn [negb]; [|done]. specialize (Hk eq_refl).
  set (o := u_order u) in *. set (idx := u_slot u) in *. set (now := if u_terminal u then 0 else order_hold table books L o). set (h := hold_at L idx).
  pose proof (lo_book _ _ HL) as Hb. pose proof (contains_id _ Hc) as Hid. set (sl := slot (balances_ L) (o_instrument o) (o_venue o)).
  set (ack := unacked_at L idx && negb (u_terminal u) && acknowledged o).
  set (L1 := if ack then _ else L).
  assert (H1 : moved (balances_ L) (balances_ L1) sl (o_side o) (if ack then - h else 0) 0).
  { unfold L1. destruct ack; [|by apply moved_frame]. cbn. by apply moved_acknowledge. }
  assert (E1 : hold_at L1 idx = h /\ unacked_at L1 idx = (if ack then false else unacked_at L idx) /\ forall j, j <> idx -> hold_at L1 j = hold_at L j /\ unacked_at L1 j = unacked_at L j).
  { unfold L1. destruct ack; [|done]. unfold hold_at, unacked_at. cbn. rewrite lookup_insert_eq. split; [done|]. split; [done|]. intros j Hj. by rewrite lookup_insert_ne. }
  destruct E1 as (E1 & E2 & E3). set (un := unacked_at L1 idx) in *.
  set (L2 := if negb (now =? h) then _ else L1).
  assert (H2 : moved (balances_ L1) (balances_ L2) sl (o_side o) (if un then now - h else 0) (if i_derivative (slot_get (balances_ L) sl) then now - h else 0)).
  { unfold L2. destruct (Z.eqb_spec now h) as [-> |]; cbn [negb].
    - rewrite Z.sub_diag. apply (moved_eq64 _ _ _ _ 0 0); [by apply moved_frame | by destruct un | by destruct (i_derivative _)].
    - pose proof (moved_move_hold (o_instrument o) (o_side o) h now ts un (o_venue o) (balances_ L1) (mv_ok _ _ _ _ _ _ H1 Hb) Hid) as HM. cbv zeta in HM.
      rewrite (mv_slot _ _ _ _ _ _ H1) in HM. fold sl in HM. rewrite (mv_derivative _ _ _ _ _ _ H1 sl) in HM by by apply account_slot_ok. exact HM. }
  assert (E4 : holds_ L2 = holds_ L1 /\ unacked_ L2 = unacked_ L1) by (unfold L2; by case_if). destruct E4 as [E4 E5].
  set (L3 := L2 <| holds_ ::= insert idx now |>). set (L4 := if u_terminal u then _ else L3).
  assert (E6 : balances_ L4 = balances_ L2 /\ hold_at L4 idx = now /\ unacked_at L4 idx = (if u_terminal u then false else un) /\
    forall j, j <> idx -> hold_at L4 j = hold_at L j /\ unacked_at L4 j = unacked_at L j).
  { split; [unfold L4; by case_if|]. split; [unfold L4; case_if; unfold hold_at; cbn; by rewrite lookup_insert_eq|]. split.
    - unfold L4. case_if; unfold unacked_at; cbn; [by rewrite lookup_insert_eq | by rewrite E5].
    - intros j Hj. destruct (E3 j Hj) as [F1 F2]. rewrite <- F1, <- F2.
      assert (hold_at L4 j = default 0 (holds_ L2 !! j)) as -> by (unfold L4; case_if; unfold hold_at; cbn; by rewrite lookup_insert_ne).
      assert (unacked_at L4 j = default false (unacked_ L2 !! j)) as -> by (unfold L4; case_if; unfold unacked_at; cbn; rewrite ?lookup_insert_ne; done).
      by rewrite E4, E5. }
  destruct E6 as (E6 & E7 & E8 & E9). rewrite <- (insert_id keys idx (sl, o_side o)) by exact Hk.
  apply (ledger_entry keys L L4 idx sl (o_side o) h (unacked_at L idx) now (if u_terminal u then false else un) (if i_derivative (slot_get (balances_ L) sl) then now - h else 0)); try done; try (by left); try (by apply account_slot_ok).
  - rewrite E6. eapply moved_eq64; [eapply moved_add; [exact H1 | exact H2] | | rewrite Z.add_0_l; reflexivity].
    rewrite E2. unfold ack, now. destruct (unacked_at L idx), (u_terminal u), (acknowledged o); cbn; eq64.
  - intros Hd. cbv beta. by rewrite Hd.
Qed.
Lemma hold_step_ok keys L o : ledger_ok keys L -> hold_legal o L keys -> ledger_ok (keys_step o L keys) (hold_step o L).
Proof.
  intros HL Hl. destruct o as [opens m|idx o|u ts|o]; cbn [keys_step hold_step hold_legal] in *.
  - unfold on_balance. destruct (balances_live_ L); cbn [negb].
    + apply (ledger_book _ _ _ (OwnSlot 0) Buy); [done|]. by apply moved_on_report, lo_book with keys.
    + destruct (Hl eq_refl) as [H1 H2]. unfold start_balances.
      assert (HS : ledger_ok (fold_left (start_key L) opens keys) (fold_left (start_order table books) opens (L <| balances_live_ := true |>))).
      { apply start_balances_keys; try done. by destruct HL. }
      eapply (ledger_book _ _ _ (OwnSlot 0) Buy); [exact HS|]. apply moved_on_report. apply (lo_book _ _ HS).
  - destruct Hl as [H1 H2]. unfold submit_hold. destruct (balances_live_ L); cbn [negb]; [|done]. by apply new_entry.
  - by apply update_hold_ok.
  - pose proof (lo_book _ _ HL) as Hb. apply (ledger_book _ _ _ (OwnSlot 0) Buy); [done|]. destruct o; cbn [bal_step] in *; try done.
    + by apply moved_on_report.
    + apply moved_frame, reserve_frame.
    + apply moved_frame, move_asset_frame.
    + apply moved_frame, on_fill_frame.
    + apply moved_frame, correct_fill_frame.
Qed.

Inductive ledger_run : gmap Z key -> HoldLedger -> list HoldOp -> gmap Z key -> HoldLedger -> Prop :=
  | run_done keys L : ledger_run keys L [] keys L
  | run_op keys L o ops keys' L' : hold_legal o L keys -> ledger_run (keys_step o L keys) (hold_step o L) ops keys' L' -> ledger_run keys L (o :: ops) keys' L'.
Lemma ledger_run_ok keys L ops keys' L' : ledger_run keys L ops keys' L' -> ledger_ok keys L -> ledger_ok keys' L'.
Proof. induction 1 as [|keys L o ops keys' L' Hl _ IH]; [done|]. intros HL. apply IH. by apply hold_step_ok. Qed.
End histories.

Lemma built_slot_idle n b x : BalanceBuild.built n b -> slot_ok b x -> BalanceBuild.idle (slot_get b x).
Proof.
  intros [] Hx. destruct x as [id|k]; cbn in *.
  - unfold inst_at. destruct (inst_ b !! id) as [i|] eqn:E; [by apply (bu_insts id i E) | done].
  - unfold member_at. destruct (lookup_lt_is_Some_2 (members_ b) (Z.to_nat k)) as [i E]; [lia|]. rewrite E. apply (proj1 (Forall_lookup _ _) bu_members _ _ E).
Qed.
Lemma first_ledger_ok n b live : n <= kMaxInstruments -> BalanceBuild.built n b -> ledger_ok ∅ (mkLedger ∅ ∅ b live).
Proof.
  intros Hn Hb. split; cbn.
  - by apply (BalanceBuild.built_ok n).
  - done.
  - intros x t Hx. rewrite msum_empty. destruct (built_slot_idle n b x Hb Hx) as [_ _ Hu1 Hu2]. destruct t; cbn; by rewrite ?Hu1, ?Hu2.
  - intros x t Hx _. rewrite msum_empty. destruct (built_slot_idle n b x Hb Hx) as [Hh1 Hh2 _ _]. destruct t; cbn; by rewrite ?Hh1, ?Hh2.
Qed.

(** C10. Whatever the engine's orders and the venue's reports do since the book was built, the balance book's totals are the
    engine's entries: per instrument, account and side, what it holds to be in flight is the sum of the holds of the open
    orders the venue has not acknowledged, and a derivative's side the sum of all its orders' holds, modulo the width. *)
Theorem holds_match_orders table books insts fees cfg pools b0 ops keys L :
  Z.of_nat (length table) <= kMaxInstruments -> NoDup (BalanceBuild.table_ids insts) -> Z.of_nat (length insts) <= kMaxInstruments ->
  ledger_run table books ∅ (mkLedger ∅ ∅ (build insts fees cfg pools b0) false) ops keys L ->
  forall id account s,
  let sl := slot (balances_ L) id account in
  let i := slot_get (balances_ L) sl in
  unacked i s =64 msum (unacked_part L (sl, s)) keys /\
  (i_derivative i = true -> side_hold i s =64 msum (hold_part L (sl, s)) keys).
Proof.
  intros Ht Hnd Hl Hrun id account s sl i. pose proof (BalanceBuild.build_built insts fees cfg pools b0 Hnd Hl) as Hb.
  pose proof (ledger_run_ok table books Ht _ _ _ _ _ Hrun (first_ledger_ok _ _ false Hl Hb)) as HL.
  pose proof (account_slot_ok (balances_ L) id account (lo_book _ _ HL)) as Hs. split; [by apply (lo_unacked _ _ HL) | by apply (lo_hold _ _ HL)].
Qed.

Definition buy_order : Order := no_order <| o_instrument := 0 |> <| o_venue := 0 |> <| o_price := kFixedScale |> <| o_qty := 990 |>.
Definition sell_order : Order := no_order <| o_instrument := 1 |> <| o_venue := 0 |> <| o_side := Sell |> <| o_price := kFixedScale |> <| o_qty := 200 |>.
Definition acked_update : OmsUpdate := new_update <| u_order := buy_order <| o_state := Live |> |> <| u_slot := 3 |>.
Definition ledger_ops : list HoldOp :=
  [HBalance [] (usdt_report 1000 0 10); HSubmit 3 buy_order; HSubmit 4 sell_order; HUpdate acked_update 12; HBook (OpReport (usdt_report 1000 0 11))].
Abbreviation first_ledger := (mkLedger ∅ ∅ (build two_insts ten_bps full_margin None empty_book) false).
Abbreviation two_table := [spot_inst; perp_inst].
Definition last_ledger : HoldLedger := fold_left (fun L o => hold_step two_table (fun _ => new_book) o L) ledger_ops first_ledger.
Definition last_keys : gmap Z (SlotRef * Side) := {[3 := (OwnSlot 0, Buy); 4 := (OwnSlot 1, Sell)]}.

Lemma holds_match_orders_witness :
  msum (unacked_part last_ledger (OwnSlot 1, Sell)) last_keys = 200 /\
  unacked (slot_get (balances_ last_ledger) (slot (balances_ last_ledger) 0 0)) Buy =64 msum (unacked_part last_ledger (slot (balances_ last_ledger) 0 0, Buy)) last_keys.
Proof.
  split; [vm_compute; reflexivity|].
  assert (Hrun : exists keys, ledger_run two_table (fun _ => new_book) ∅ first_ledger ledger_ops keys last_ledger /\ keys = last_keys).
  { eexists. split.
    - unfold last_ledger, ledger_ops. cbn [fold_left]. repeat (apply run_op; [cbn [hold_legal]|]); [..|apply run_done].
      + intros _. split; [constructor | constructor].
      + split; vm_compute; reflexivity.
      + split; vm_compute; reflexivity.
      + intros _. vm_compute. reflexivity.
      + exact I.
    - vm_compute. reflexivity. }
  destruct Hrun as (keys & Hrun & ->).
  assert (Hn : NoDup (BalanceBuild.table_ids two_insts)) by (apply (bool_decide_unpack _); vm_compute; exact I).
  pose proof (holds_match_orders two_table (fun _ => new_book) two_insts ten_bps full_margin None empty_book ledger_ops last_keys last_ledger
    ltac:(vm_compute; discriminate) Hn ltac:(vm_compute; discriminate) Hrun 0 0 Buy) as H. exact (proj1 H).
Defined.
