(* ===== verification/L3Store.v ===== *)
(** * L3Store: the overflow store of one side of the order-by-order book ([l3_book.hpp], [detail::L3LevelStore])

    A sorted array of levels cut into blocks of 64 behind a sorted directory of the blocks' first ranks.  The blocks live in
    one flat array, a pointer into the store is the address of its entry there; [memmove] and [memcpy] are [move].  The
    binary searches and the loops take fuel, and the theorems of [L3StoreProps] show that it is enough. *)

From S2P Require Import Prelude Types FixedPoint.

Record L3Level := mkLevel { lv_qty : Qty; lv_count : Z; lv_head : Z; lv_tail : Z }.
#[export] Instance eta_level : Eta L3Level := fun l => mkLevel (lv_qty l) (lv_count l) (lv_head l) (lv_tail l).
Definition empty_level : L3Level := mkLevel 0 0 kNullHandle kNullHandle.
Record Entry := mkEntry { en_rank : Z; en_lvl : L3Level }.
#[export] Instance eta_entry : Eta Entry := fun e => mkEntry (en_rank e) (en_lvl e).
Definition no_entry : Entry := mkEntry 0 empty_level.
Record Dir := mkDir { d_first : Z; d_blk : Z; d_n : Z }.
#[export] Instance eta_dir : Eta Dir := fun d => mkDir (d_first d) (d_blk d) (d_n d).
Definition no_dir : Dir := mkDir 0 0 0.
Definition kBlock : Z := 64.

(** [dir_]: the first [nd_] entries of the directory; [free_]: the stack of free blocks, its top first. *)
Record L3LevelStore := mkStore {
  cap_ : Z;
  nblocks_ : Z;
  n_ : Z;
  dir_ : list Dir;
  entries_ : gmap Z Entry;
  dir_of_ : gmap Z Z;
  free_ : list Z;
}.
#[export] Instance eta_store : Eta L3LevelStore := fun s => mkStore (cap_ s) (nblocks_ s) (n_ s) (dir_ s) (entries_ s) (dir_of_ s) (free_ s).
Implicit Type st : L3LevelStore.

Definition new_store (capacity : Z) : L3LevelStore :=
  let nblocks := 2 * ((capacity + kBlock - 1) / kBlock) + 1 in mkStore capacity nblocks 0 [] ∅ ∅ (reverse (seqZ 0 nblocks)).
Definition nd_ st : Z := Z.of_nat (length (dir_ st)).
Definition dir_at st (d : Z) : Dir := default no_dir (dir_ st !! Z.to_nat d).
Definition set_dir (d : Z) (f : Dir -> Dir) st : L3LevelStore := st <| dir_ ::= alter f (Z.to_nat d) |>.
Definition addr (blk i : Z) : Z := blk * kBlock + i.
Definition ent st (a : Z) : Entry := default no_entry (entries_ st !! a).
Definition set_ent (a : Z) (e : Entry) st : L3LevelStore := st <| entries_ ::= insert a e |>.
(** The level behind a pointer. *)
Definition lvl_at st (a : Z) : L3Level := en_lvl (ent st a).
Definition set_lvl (a : Z) (l : L3Level) st : L3LevelStore := set_ent a ((ent st a) <| en_lvl := l |>) st.
(** [memmove] of [n] entries; [memcpy] between blocks that do not overlap. *)
Definition move (dst src n : Z) (m : gmap Z Entry) : gmap Z Entry :=
  foldr (fun k acc => <[dst + k := default no_entry (m !! (src + k))]> acc) m (seqZ 0 n).

Definition clear st : L3LevelStore := st <| free_ ::= fun l => reverse (d_blk <$> dir_ st) ++ l |> <| n_ := 0 |> <| dir_ := [] |>.

(** ** Searching *)

(** The loop of a binary search: the first position of [lo, hi) where [p] fails. *)
Fixpoint partition_point (fuel : nat) (p : Z -> bool) (lo hi : Z) : Z :=
  match fuel with
  | O => lo
  | S f => if lo <? hi then let mid := lo + (hi - lo) / 2 in if p mid then partition_point f p (mid + 1) hi else partition_point f p lo mid else lo
  end.
Definition kSearch : nat := 64.
(** The first position whose rank is at or above [rank]: directory index ([nd_] past the end) and index in the block. *)
Definition lower_bound st (rank : Z) : Z * Z :=
  let lo := partition_point kSearch (fun m => d_first (dir_at st m) <=? rank) 0 (nd_ st) in
  if lo =? 0 then (0, 0)
  else
    let d := lo - 1 in
    let dd := dir_at st d in
    let l := partition_point kSearch (fun m => en_rank (ent st (addr (d_blk dd) m)) <? rank) 0 (d_n dd) in
    if l =? d_n dd then (d + 1, 0) else (d, l).
Definition back_addr st : Z := let d := dir_at st (nd_ st - 1) in addr (d_blk d) (d_n d - 1).
Definition back st : Entry := ent st (back_addr st).
Definition find st (rank : Z) : option Z :=
  let '(d, i) := lower_bound st rank in
  if d =? nd_ st then None
  else let a := addr (d_blk (dir_at st d)) i in if en_rank (ent st a) =? rank then Some a else None.
Definition below st (rank : Z) : option Entry :=
  let '(d, i) := lower_bound st rank in
  if negb (i =? 0) then Some (ent st (addr (d_blk (dir_at st d)) (i - 1)))
  else if (d =? 0) || (d_n (dir_at st (d - 1)) =? 0) then None
  else let dd := dir_at st (d - 1) in Some (ent st (addr (d_blk dd) (d_n dd - 1))).

(** ** Blocks *)

Definition take_block st : Z * L3LevelStore := (default 0 (head (free_ st)), st <| free_ ::= tail |>).
Definition renumber (d : Z) st : L3LevelStore :=
  st <| dir_of_ ::= fun m => fold_left (fun m k => <[d_blk (dir_at st k) := k]> m) (seqZ d (nd_ st - d)) m |>.
Definition drop_ (d : Z) st : L3LevelStore :=
  renumber d (st <| free_ ::= cons (d_blk (dir_at st d)) |> <| dir_ ::= fun l => take (Z.to_nat d) l ++ skipn (Z.to_nat d + 1) l |>).
Definition split (d : Z) st : L3LevelStore :=
  let '(nb, st) := take_block st in
  let dd := dir_at st d in
  let upper := addr (d_blk dd) (kBlock / 2) in
  let st := st <| entries_ ::= move (addr nb 0) upper (kBlock / 2) |> in
  let st := set_dir d (fun x => x <| d_n := kBlock / 2 |>) st in
  let st := st <| dir_ ::= fun l => take (Z.to_nat d + 1) l ++ mkDir (en_rank (ent st upper)) nb (kBlock / 2) :: skipn (Z.to_nat d + 1) l |> in
  renumber (d + 1) st.
Definition merge (d : Z) st : L3LevelStore :=
  let a := dir_at st d in
  let b := dir_at st (d + 1) in
  let st := st <| entries_ ::= move (addr (d_blk b) (d_n a)) (addr (d_blk b) 0) (d_n b) |> in
  let st := st <| entries_ ::= move (addr (d_blk b) 0) (addr (d_blk a) 0) (d_n a) |> in
  let st := set_dir (d + 1) (fun x => x <| d_n ::= fun n => n + d_n a |> <| d_first := d_first a |>) st in
  drop_ d st.

(** [pack]: the state of the loops, the block and the index written next. *)
Record Packing := mkPacking { pk_st : L3LevelStore; pk_od : Z; pk_oi : Z }.
Definition pack_close (p : Packing) (n : Z) : Packing :=
  let st := pk_st p in
  mkPacking (set_dir (pk_od p) (fun x => x <| d_n := n |> <| d_first := en_rank (ent st (addr (d_blk x) 0)) |>) st) (pk_od p + 1) 0.
Definition pack_part (src i k : Z) (p : Packing) : Packing :=
  let st := pk_st p in
  let st := st <| entries_ ::= move (addr (d_blk (dir_at st (pk_od p))) (pk_oi p)) (src + i) k |> in
  let p := mkPacking st (pk_od p) (pk_oi p + k) in
  if pk_oi p =? kBlock then pack_close p kBlock else p.
(** The loop over one block; it fills at most two. *)
Fixpoint pack_block (fuel : nat) (src n i : Z) (p : Packing) : Packing :=
  match fuel with
  | O => p
  | S f => if i <? n then let k := Z.min (n - i) (kBlock - pk_oi p) in pack_block f src n (i + k) (pack_part src i k p) else p
  end.
Definition pack st : L3LevelStore :=
  let p := fold_left (fun p d => let inn := dir_at (pk_st p) d in pack_block 3 (addr (d_blk inn) 0) (d_n inn) 0 p) (seqZ 0 (nd_ st)) (mkPacking st 0 0) in
  let p := if negb (pk_oi p =? 0) then pack_close p (pk_oi p) else p in
  let st := pk_st p in
  st <| free_ ::= fun l => reverse (d_blk <$> skipn (Z.to_nat (pk_od p)) (dir_ st)) ++ l |> <| dir_ ::= take (Z.to_nat (pk_od p)) |>.

(** ** Insertion and removal *)

(** A new level at index [i] of block [d]. *)
Definition put_new (d i rank : Z) st : Z * L3LevelStore :=
  let dd := dir_at st d in
  let b := addr (d_blk dd) 0 in
  let st := if negb (i =? d_n dd) then st <| entries_ ::= move (b + i + 1) (b + i) (d_n dd - i) |> else st in
  let st := set_ent (b + i) (mkEntry rank empty_level) st in
  let st := set_dir d (fun x => x <| d_n ::= fun n => n + 1 |>) st in
  let st := if i =? 0 then set_dir d (fun x => x <| d_first := rank |>) st else st in
  (b + i, st <| n_ ::= fun n => n + 1 |>).
Fixpoint find_or_insert_fuel (fuel : nat) (rank : Z) st : option Z * L3LevelStore :=
  match fuel with
  | O => (None, st)
  | S f =>
    if nd_ st =? 0 then
      if cap_ st =? 0 then (None, st)
      else
        let '(blk, st) := take_block st in
        let st := st <| dir_ := [mkDir rank blk 0] |> <| dir_of_ ::= insert blk 0 |> in
        let '(a, st) := put_new 0 0 rank st in (Some a, st)
    else
      let '(d, i) := lower_bound st rank in
      let a := addr (d_blk (dir_at st d)) i in
      if negb (d =? nd_ st) && (en_rank (ent st a) =? rank) then (Some a, st)
      else if n_ st =? cap_ st then (None, st)
      else
        let '(d, i) := if (i =? 0) && negb (d =? 0) then (d - 1, d_n (dir_at st (d - 1))) else (d, i) in
        if d_n (dir_at st d) =? kBlock then
          match free_ st with
          | [] => find_or_insert_fuel f rank (pack st)
          | _ =>
            let st := split d st in
            let '(d, i) := if kBlock / 2 <? i then (d + 1, i - kBlock / 2) else (d, i) in
            let '(a, st) := put_new d i rank st in (Some a, st)
          end
        else let '(a, st) := put_new d i rank st in (Some a, st)
  end.
(** A pack leaves a free block, so the call it repeats is the last. *)
Definition find_or_insert (rank : Z) st : option Z * L3LevelStore := find_or_insert_fuel 2 rank st.
Definition erase (at_ : Z) st : L3LevelStore :=
  let blk := at_ / kBlock in
  let i := at_ mod kBlock in
  let d := default 0 (dir_of_ st !! blk) in
  let dd := dir_at st d in
  let b := addr blk 0 in
  let st := if negb (i + 1 =? d_n dd) then st <| entries_ ::= move (b + i) (b + i + 1) (d_n dd - i - 1) |> else st in
  let st := set_dir d (fun x => x <| d_n ::= fun n => n - 1 |>) st in
  let st := st <| n_ ::= fun n => n - 1 |> in
  let dd := dir_at st d in
  if d_n dd =? 0 then
    if nd_ st =? 1 then set_dir d (fun x => x <| d_first := i64_min |>) st else drop_ d st
  else
    let st := if i =? 0 then set_dir d (fun x => x <| d_first := en_rank (ent st b) |>) st else st in
    if (d + 1 <? nd_ st) && (d_n (dir_at st d) + d_n (dir_at st (d + 1)) <=? kBlock / 2) then merge d st else st.

(** ** Visits *)

(** The entries [i - 1, ..., 0] of a block. *)
Definition block_down st (blk i : Z) : list Entry := reverse ((fun k => ent st (addr blk k)) <$> seqZ 0 i).
Fixpoint down (fuel : nat) st (d i : Z) : list Entry :=
  match fuel with
  | O => []
  | S f =>
    if (i =? 0) && (d =? 0) then []
    else
      let '(d, i) := if i =? 0 then (d - 1, d_n (dir_at st (d - 1))) else (d, i) in
      block_down st (d_blk (dir_at st d)) i ++ down f st d 0
  end.
(** The levels ranked below [rank], best first. *)
Definition visit_down st (rank : Z) : list Entry := let '(d, i) := lower_bound st rank in down (S (length (dir_ st))) st d i.
Definition block_up st (dd : Dir) : list Entry := (fun k => ent st (addr (d_blk dd) k)) <$> seqZ 0 (d_n dd).
(** Every level, worst first. *)
Definition visit_up st : list Entry := concat (block_up st <$> dir_ st).

(** Replaces the content with levels of increasing rank. *)
Fixpoint assign_blocks (fuel : nat) (src : list Entry) st : L3LevelStore :=
  match fuel with
  | O => st
  | S f =>
    match src with
    | [] => st
    | e :: _ =>
      let part := take (Z.to_nat kBlock) src in
      let '(blk, st) := take_block st in
      let st := st <| entries_ ::= fun m => foldr (fun '(i, e) m => <[addr blk i := e]> m) m (zip (seqZ 0 (Z.of_nat (length part))) part) |> in
      let st := st <| dir_of_ ::= insert blk (nd_ st) |> in
      let st := st <| dir_ ::= fun l => l ++ [mkDir (en_rank e) blk (Z.of_nat (length part))] |> <| n_ ::= fun n => n + Z.of_nat (length part) |> in
      assign_blocks f (skipn (Z.to_nat kBlock) src) st
    end
  end.
Definition assign (src : list Entry) st : L3LevelStore := assign_blocks (S (length src)) src (clear st).
