(* ===== verification/L3StoreInv.v ===== *)
(** * L3StoreInv: the list of levels an overflow store holds, and its invariant

    [levels] is the content, worst first.  [store_ok] ties the directory, the blocks, the free stack and the back pointers to
    it.  [lower_bound_spec] is what both binary searches together find. *)

From Stdlib Require Import Sorted.
From S2P Require Import Prelude Types FixedPoint L3Store.
Implicit Type st : L3LevelStore.

(** ** Memory *)

Definition mget (m : gmap Z Entry) (a : Z) : Entry := default no_entry (m !! a).
Lemma mget_insert m a e x : mget (<[a := e]> m) x = if decide (x = a) then e else mget m x.
Proof. unfold mget. case_decide as E; [by rewrite E, lookup_insert_eq | by rewrite lookup_insert_ne]. Qed.
Lemma mget_move dst src n m a : mget (move dst src n m) a = if decide (dst <= a < dst + n) then mget m (a - dst + src) else mget m a.
Proof.
  unfold move. destruct (Z.le_gt_cases n 0) as [Hn|Hn].
  { rewrite seqZ_nil by lia. cbn [foldr]. rewrite decide_False by lia. done. }
  assert (H : forall l, (forall k, k ∈ l -> 0 <= k < n) ->
    mget (foldr (fun k acc => <[dst + k := default no_entry (m !! (src + k))]> acc) m l) a = if decide (a - dst ∈ l) then mget m (a - dst + src) else mget m a).
  { induction l as [|k l IH]; intros Hl; cbn [foldr]; [rewrite decide_False by apply not_elem_of_nil; done|].
    rewrite mget_insert. destruct (decide (a = dst + k)) as [E|E].
    - assert (a - dst = k) as -> by lia. rewrite decide_True by constructor. unfold mget. by rewrite (Z.add_comm k src).
    - rewrite IH by (intros j Hj; apply Hl; by constructor). destruct (decide (a - dst ∈ l)) as [Hin|Hin].
      + by rewrite decide_True by by constructor.
      + rewrite decide_False; [done|]. intros [Ek|]%elem_of_cons; [apply E; lia | done]. }
  rewrite H by (intros k Hk; apply elem_of_seqZ in Hk; lia). destruct (decide (dst <= a < dst + n)) as [Hr|Hr].
  - rewrite decide_True; [done|]. apply elem_of_seqZ. lia.
  - rewrite decide_False; [done|]. intros Hin%elem_of_seqZ. lia.
Qed.

(** [n] entries of the block at [base], from index [i]. *)
Definition seg (m : gmap Z Entry) (base n : Z) : list Entry := (fun k => mget m (base + k)) <$> seqZ 0 n.
Lemma seg_lookup m base n j : seg m base n !! j = if decide (Z.of_nat j < n) then Some (mget m (base + Z.of_nat j)) else None.
Proof.
  unfold seg. rewrite list_lookup_fmap. case_decide as E.
  - rewrite lookup_seqZ_lt by lia. done.
  - rewrite lookup_seqZ_ge by lia. done.
Qed.
Lemma seg_length m base n : length (seg m base n) = Z.to_nat n.
Proof. unfold seg. by rewrite length_fmap, length_seqZ. Qed.
Lemma mseg_ext m m' base base' n : (forall k, 0 <= k < n -> mget m' (base' + k) = mget m (base + k)) -> seg m' base' n = seg m base n.
Proof. intros E. apply list_eq. intros j. rewrite !seg_lookup. case_decide; [|done]. by rewrite E by lia. Qed.
Lemma mseg_app m base n k : 0 <= n -> 0 <= k -> seg m base (n + k) = seg m base n ++ seg m (base + n) k.
Proof.
  intros Hn Hk. apply list_eq. intros j. rewrite lookup_app, !seg_lookup, seg_length. destruct (decide (Z.of_nat j < n)) as [H|H].
  - by rewrite decide_True by lia.
  - destruct (decide (Z.of_nat j < n + k)) as [H'|H'].
    + rewrite decide_True by lia. do 2 f_equal. lia.
    + by rewrite decide_False by lia.
Qed.
Lemma seg_take m base n i : 0 <= i <= n -> take (Z.to_nat i) (seg m base n) = seg m base i.
Proof. intros Hi. replace n with (i + (n - i)) by lia. rewrite mseg_app by lia. rewrite take_app_length'; [done | by rewrite seg_length]. Qed.
Lemma seg_drop m base n i : 0 <= i <= n -> drop (Z.to_nat i) (seg m base n) = seg m (base + i) (n - i).
Proof. intros Hi. replace n with (i + (n - i)) at 1 by lia. rewrite mseg_app by lia. rewrite drop_app_length'; [done | by rewrite seg_length]. Qed.
Lemma addr_inj b i b' i' : 0 <= i < kBlock -> 0 <= i' < kBlock -> addr b i = addr b' i' -> b = b' /\ i = i'.
Proof. unfold addr, kBlock. lia. Qed.
(** The blocks of two directory entries do not overlap. *)
Lemma addr_other b b' i j n : b <> b' -> 0 <= i -> 0 <= j < kBlock -> i + n <= kBlock -> ~ (addr b i <= addr b' j < addr b i + n).
Proof. unfold addr, kBlock. lia. Qed.

(** ** Binary search *)

Lemma partition_point_spec fuel p : forall lo hi, lo <= hi -> hi - lo < 2 ^ Z.of_nat fuel ->
  (forall a b, lo <= a <= b -> b < hi -> p b = true -> p a = true) ->
  let r := partition_point fuel p lo hi in
  lo <= r <= hi /\ (forall a, lo <= a < r -> p a = true) /\ (forall a, r <= a < hi -> p a = false).
Proof.
  induction fuel as [|f IH]; intros lo hi Hle Hf Hmono; cbn [partition_point].
  { change (2 ^ Z.of_nat 0) with 1 in Hf. split; [lia|]. split; intros; lia. }
  rewrite Nat2Z.inj_succ, Z.pow_succ_r in Hf by lia. destruct (Z.ltb_spec lo hi) as [Hlt|Hge]; [|split; [lia|]; split; intros; lia].
  set (mid := lo + (hi - lo) / 2). assert (Hm : lo <= mid < hi) by (unfold mid; pose proof (Z.div_lt_upper_bound (hi - lo) 2 (hi - lo) ltac:(lia) ltac:(lia)); pose proof (Z.div_pos (hi - lo) 2 ltac:(lia) ltac:(lia)); lia).
  assert (H2 : mid - lo = (hi - lo) / 2) by (unfold mid; lia). pose proof (Z.div_mod (hi - lo) 2 ltac:(lia)) as Hdm. pose proof (Z.mod_pos_bound (hi - lo) 2 ltac:(lia)) as Hmb.
  destruct (p mid) eqn:Ep.
  - destruct (IH (mid + 1) hi) as (I1 & I2 & I3); [lia | lia | intros a b Ha Hb; apply Hmono; lia|]. split; [lia|]. split; [|done].
    intros a Ha. destruct (Z.le_gt_cases a mid) as [|]; [|apply I2; lia]. apply (Hmono a mid); [lia | lia | done].
  - destruct (IH lo mid) as (I1 & I2 & I3); [lia | lia | intros a b Ha Hb; apply Hmono; lia|]. split; [lia|]. split; [done|].
    intros a Ha. destruct (Z.lt_ge_cases a mid) as [|]; [apply I3; lia|]. destruct (p a) eqn:Epa; [|done]. rewrite (Hmono mid a) in Ep; [done | lia | lia | done].
Qed.

(** ** The content *)

Definition block st (dd : Dir) : list Entry := seg (entries_ st) (addr (d_blk dd) 0) (d_n dd).
Definition levels st : list Entry := concat (block st <$> dir_ st).
Lemma block_up_block st dd : block_up st dd = block st dd.
Proof. unfold block_up, block, seg. apply list_fmap_ext. intros i x _. unfold ent, mget, addr. do 3 f_equal. lia. Qed.
Lemma visit_up_levels st : visit_up st = levels st.
Proof. unfold visit_up, levels. f_equal. apply list_fmap_ext. intros i x _. apply block_up_block. Qed.

Definition ranks (l : list Entry) : list Z := en_rank <$> l.
Definition only_empty st : Prop := exists dd, dir_ st = [dd] /\ d_n dd = 0 /\ d_first dd = i64_min.
Record store_ok st : Prop := {
  so_sorted : StronglySorted Z.lt (ranks (levels st));
  so_n : n_ st = Z.of_nat (length (levels st));
  so_cap : 0 <= n_ st <= cap_ st /\ cap_ st < 2 ^ 30;
  so_nblocks : nblocks_ st = 2 * ((cap_ st + kBlock - 1) / kBlock) + 1;
  so_size : Forall (fun dd => 0 <= d_n dd <= kBlock) (dir_ st);
  so_used : Forall (fun dd => 0 < d_n dd) (dir_ st) \/ only_empty st;
  so_first : Forall (fun dd => 0 < d_n dd -> d_first dd = en_rank (ent st (addr (d_blk dd) 0))) (dir_ st);
  so_blocks : (d_blk <$> dir_ st) ++ free_ st ≡ₚ seqZ 0 (nblocks_ st);
  so_dir_of : forall d dd, dir_ st !! d = Some dd -> dir_of_ st !! d_blk dd = Some (Z.of_nat d);
}.

(** Positions: block [d], index [i], and what lies before and from there on. *)
Definition before st (d i : nat) : list Entry := concat (block st <$> take d (dir_ st)) ++ take i (from_option (block st) [] (dir_ st !! d)).
Definition after st (d i : nat) : list Entry := drop i (from_option (block st) [] (dir_ st !! d)) ++ concat (block st <$> drop (S d) (dir_ st)).
Lemma levels_split st d i : levels st = before st d i ++ after st d i.
Proof.
  unfold levels, before, after. destruct (dir_ st !! d) as [dd|] eqn:E; cbn [from_option].
  - rewrite <- (take_drop_middle (dir_ st) d dd E) at 1. rewrite fmap_app, concat_app, fmap_cons. cbn [concat].
    rewrite <- (take_drop i (block st dd)) at 1. by rewrite <- !app_assoc.
  - apply lookup_ge_None in E. rewrite (take_ge (dir_ st) d) by lia. rewrite (drop_ge (dir_ st) (S d)) by lia. rewrite take_nil, drop_nil. cbn. by rewrite !app_nil_r.
Qed.

(** ** Order *)

Lemma sorted_split l1 l2 : StronglySorted Z.lt (ranks (l1 ++ l2)) <->
  StronglySorted Z.lt (ranks l1) /\ StronglySorted Z.lt (ranks l2) /\ (forall x y, x ∈ l1 -> y ∈ l2 -> en_rank x < en_rank y).
Proof.
  unfold ranks. rewrite fmap_app. induction l1 as [|e l1 IH]; cbn.
  - split; [intros H; split; [constructor|]; split; [done|]; intros x y Hx; by apply not_elem_of_nil in Hx | by intros (_ & H & _)].
  - split.
    + intros H. apply StronglySorted_inv in H as [H Hall]. apply IH in H as (H1 & H2 & H3). apply Forall_app in Hall as [Ha1 Ha2].
      split; [by constructor|]. split; [done|]. intros x y [->|Hx]%elem_of_cons Hy; [|by apply H3].
      rewrite Forall_forall in Ha2. apply Ha2. apply list_elem_of_fmap. by exists y.
    + intros (H1 & H2 & H3). apply StronglySorted_inv in H1 as [H1 Ha]. constructor.
      * apply IH. split; [done|]. split; [done|]. intros x y Hx Hy. apply H3; [by constructor | done].
      * apply Forall_app. split; [done|]. apply Forall_forall. intros r Hr. apply list_elem_of_fmap in Hr as (y & -> & Hy). apply H3; [constructor | done].
Qed.
Lemma elem_seg m base n e : e ∈ seg m base n <-> exists k, 0 <= k < n /\ e = mget m (base + k).
Proof.
  unfold seg. rewrite list_elem_of_fmap. split.
  - intros (k & -> & Hk%elem_of_seqZ). exists k. split; [lia | done].
  - intros (k & Hk & ->). exists k. split; [done|]. apply elem_of_seqZ. lia.
Qed.
Lemma elem_before st a b dd e : dir_ st !! a = Some dd -> (a < b)%nat -> e ∈ block st dd -> e ∈ before st b 0.
Proof.
  intros Ha Hab He. unfold before. apply elem_of_app. left. apply list_elem_of_In, in_concat. exists (block st dd). split; [|by apply list_elem_of_In].
  apply list_elem_of_In, list_elem_of_fmap. exists dd. split; [done|]. apply list_elem_of_lookup. exists a. by rewrite lookup_take_lt.
Qed.
Lemma elem_after st a b dd e : dir_ st !! b = Some dd -> (a <= b)%nat -> e ∈ block st dd -> e ∈ after st a 0.
Proof.
  intros Hb Hab He. unfold after. apply elem_of_app. destruct (decide (a = b)) as [-> |Hne]; [left; by rewrite Hb, drop_0|]. right.
  apply list_elem_of_In, in_concat. exists (block st dd). split; [|by apply list_elem_of_In].
  apply list_elem_of_In, list_elem_of_fmap. exists dd. split; [done|]. apply list_elem_of_lookup. exists (b - S a)%nat. rewrite lookup_drop. replace (S a + (b - S a))%nat with b by lia. done.
Qed.
Lemma elem_before_inv st b e : e ∈ before st b 0 -> exists a dd, dir_ st !! a = Some dd /\ (a < b)%nat /\ e ∈ block st dd.
Proof.
  unfold before. rewrite take_0, app_nil_r. intros He. apply list_elem_of_In, in_concat in He as (l & Hl & He). apply list_elem_of_In in Hl, He.
  apply list_elem_of_fmap in Hl as (dd & -> & Hdd). apply list_elem_of_lookup in Hdd as [a Ha]. apply lookup_take_Some in Ha as [Ha Hlt]. by exists a, dd.
Qed.
Lemma elem_after_inv st a e : e ∈ after st a 0 -> exists b dd, dir_ st !! b = Some dd /\ (a <= b)%nat /\ e ∈ block st dd.
Proof.
  unfold after. rewrite drop_0. intros [He|He]%elem_of_app.
  - destruct (dir_ st !! a) as [dd|] eqn:E; [|by apply not_elem_of_nil in He]. by exists a, dd.
  - apply list_elem_of_In, in_concat in He as (l & Hl & He). apply list_elem_of_In in Hl, He.
    apply list_elem_of_fmap in Hl as (dd & -> & Hdd). apply list_elem_of_lookup in Hdd as [b Hb]. rewrite lookup_drop in Hb. exists (S a + b)%nat, dd. split; [done|]. split; [lia | done].
Qed.
Lemma block_order st a b da db e e' : store_ok st -> dir_ st !! a = Some da -> dir_ st !! b = Some db -> (a < b)%nat ->
  e ∈ block st da -> e' ∈ block st db -> en_rank e < en_rank e'.
Proof.
  intros Hok Ha Hb Hab He He'. pose proof (so_sorted st Hok) as Hs. rewrite (levels_split st b 0) in Hs. apply sorted_split in Hs as (_ & _ & Hs).
  apply Hs; [by apply (elem_before st a b da) | by apply (elem_after st b b db)].
Qed.
Lemma block_sorted st a da : store_ok st -> dir_ st !! a = Some da -> StronglySorted Z.lt (ranks (block st da)).
Proof.
  intros Hok Ha. pose proof (so_sorted st Hok) as Hs. rewrite (levels_split st a 0) in Hs. apply sorted_split in Hs as (_ & Hs & _).
  unfold after in Hs. rewrite Ha, drop_0 in Hs. cbn [from_option] in Hs. by apply sorted_split in Hs as (Hs & _).
Qed.
Lemma seg_order m base n i j : StronglySorted Z.lt (ranks (seg m base n)) -> 0 <= i < j -> j < n -> en_rank (mget m (base + i)) < en_rank (mget m (base + j)).
Proof.
  intros Hs Hij Hj. replace n with (j + (n - j)) in Hs by lia. rewrite mseg_app in Hs by lia. apply sorted_split in Hs as (_ & _ & Hs).
  apply Hs; apply elem_seg; [by exists i|]. exists 0. split; [lia|]. f_equal. lia.
Qed.
Lemma ent_mget st a : ent st a = mget (entries_ st) a.
Proof. done. Qed.
Lemma dir_at_lookup st d dd : dir_ st !! d = Some dd -> dir_at st (Z.of_nat d) = dd.
Proof. intros E. unfold dir_at. by rewrite Nat2Z.id, E. Qed.
Lemma dir_short st : store_ok st -> Z.of_nat (length (dir_ st)) <= nblocks_ st /\ 0 < nblocks_ st < 2 ^ 30 + 2.
Proof.
  intros Hok. pose proof (Permutation_length (so_blocks st Hok)) as Hl. rewrite length_app, length_fmap, length_seqZ in Hl. pose proof (so_cap st Hok) as [Hc1 Hc2].
  pose proof (so_nblocks st Hok) as Hn. unfold kBlock in Hn. pose proof (Z.div_mod (cap_ st + 64 - 1) 64 ltac:(lia)). pose proof (Z.mod_pos_bound (cap_ st + 64 - 1) 64 ltac:(lia)). split; [|rewrite Hn]; lia.
Qed.
Lemma block_first st d dd : store_ok st -> dir_ st !! d = Some dd -> 0 < d_n dd -> d_first dd = en_rank (mget (entries_ st) (addr (d_blk dd) 0)).
Proof. intros Hok Hd Hn. rewrite <- ent_mget. by apply (proj1 (Forall_lookup _ _) (so_first st Hok) d dd Hd). Qed.

(** Where both searches meet: everything before the position ranks below [rank], everything from it on at or above. *)
Definition pos_ok st (d i : nat) : Prop := (d = length (dir_ st) /\ i = 0%nat) \/ (exists dd, dir_ st !! d = Some dd /\ Z.of_nat i < d_n dd).
Lemma firsts_mono st a b da db : store_ok st -> dir_ st !! a = Some da -> dir_ st !! b = Some db -> (a <= b)%nat -> d_first da <= d_first db.
Proof.
  intros Hok Ha Hb Hab. destruct (decide (a = b)) as [-> |Hne]; [by simplify_eq|].
  destruct (so_used st Hok) as [Hu|(d0 & Hd & _)].
  - assert (0 < d_n da) by exact (proj1 (Forall_lookup _ _) Hu a da Ha). assert (0 < d_n db) by exact (proj1 (Forall_lookup _ _) Hu b db Hb).
    rewrite (block_first st a da Hok Ha), (block_first st b db Hok Hb) by done.
    apply Z.lt_le_incl, (block_order st a b da db); [done | done | done | lia | |]; apply elem_seg; exists 0; rewrite Z.add_0_r; (split; [lia | done]).
  - rewrite Hd in Ha, Hb. apply lookup_lt_Some in Ha, Hb. cbn in *. lia.
Qed.
Lemma block_first_le st d dd e : store_ok st -> dir_ st !! d = Some dd -> e ∈ block st dd -> d_first dd <= en_rank e.
Proof.
  intros Hok Hd He. pose proof (block_sorted st d dd Hok Hd) as Hs. unfold block in He. apply elem_seg in He as (k & Hk & ->). unfold block in Hs.
  rewrite (block_first st d dd Hok Hd) by lia. destruct (decide (k = 0)) as [-> |Hne]; [by rewrite Z.add_0_r|].
  pose proof (seg_order _ _ _ 0 k Hs ltac:(lia) ltac:(lia)) as H. rewrite Z.add_0_r in H. lia.
Qed.
Lemma after_0 st d : after st d 0 = concat (block st <$> drop d (dir_ st)).
Proof.
  unfold after. rewrite drop_0. destruct (dir_ st !! d) as [dd|] eqn:E; cbn [from_option].
  - by rewrite (drop_S _ _ _ E).
  - apply lookup_ge_None in E. by rewrite !drop_ge by lia.
Qed.
Lemma elem_before_at st d i e : e ∈ before st d i -> e ∈ before st d 0 \/ exists dd, dir_ st !! d = Some dd /\ e ∈ take i (block st dd).
Proof.
  unfold before. rewrite take_0, app_nil_r. intros [He|He]%elem_of_app; [by left | right]. destruct (dir_ st !! d) as [dd|] eqn:E; [by exists dd|].
  cbn in He. rewrite take_nil in He. by apply not_elem_of_nil in He.
Qed.
Lemma elem_after_at st d i e : e ∈ after st d i -> (exists dd, dir_ st !! d = Some dd /\ e ∈ drop i (block st dd)) \/ e ∈ after st (S d) 0.
Proof.
  rewrite after_0. unfold after. intros [He|He]%elem_of_app; [left | by right]. destruct (dir_ st !! d) as [dd|] eqn:E; [by exists dd|].
  cbn in He. rewrite drop_nil in He. by apply not_elem_of_nil in He.
Qed.
Lemma elem_take_block st dd l e : 0 <= l <= d_n dd -> e ∈ take (Z.to_nat l) (block st dd) -> exists k, 0 <= k < l /\ e = ent st (addr (d_blk dd) k).
Proof. intros Hl. unfold block. rewrite seg_take by done. intros (k & Hk & ->)%elem_seg. exists k. split; [done|]. rewrite ent_mget. f_equal. unfold addr. lia. Qed.
Lemma elem_drop_block st dd l e : 0 <= l <= d_n dd -> e ∈ drop (Z.to_nat l) (block st dd) -> exists k, l <= k < d_n dd /\ e = ent st (addr (d_blk dd) k).
Proof. intros Hl. unfold block. rewrite seg_drop by done. intros (k & Hk & ->)%elem_seg. exists (l + k). split; [lia|]. rewrite ent_mget. f_equal. unfold addr. lia. Qed.
Lemma after_high st d rank : store_ok st -> (forall b db, dir_ st !! b = Some db -> (d <= b)%nat -> rank < d_first db) -> forall e, e ∈ after st d 0 -> rank <= en_rank e.
Proof. intros Hok H e (b & db & Hb & Hdb & He)%elem_after_inv. pose proof (H b db Hb Hdb). pose proof (block_first_le st b db e Hok Hb He). lia. Qed.
Lemma before_low st d dd rank : store_ok st -> dir_ st !! d = Some dd -> d_first dd <= rank -> forall e, e ∈ before st d 0 -> en_rank e < rank.
Proof.
  intros Hok Hd Hf e (a & da & Ha & Hlt & He)%elem_before_inv. destruct (so_used st Hok) as [Hu|(d0 & Hd0 & _)].
  - assert (0 < d_n dd) by exact (proj1 (Forall_lookup _ _) Hu d dd Hd). assert (en_rank e < d_first dd); [|lia].
    rewrite (block_first st d dd Hok Hd) by done. apply (block_order st a d da dd); [done | done | done | lia | done |].
    apply elem_seg. exists 0. rewrite Z.add_0_r. split; [lia | done].
  - rewrite Hd0 in Hd, Ha. apply lookup_lt_Some in Hd, Ha. cbn in *. lia.
Qed.
Lemma size_at st d dd : store_ok st -> dir_ st !! d = Some dd -> 0 <= d_n dd <= kBlock.
Proof. intros Hok Hd. exact (proj1 (Forall_lookup _ _) (so_size st Hok) d dd Hd). Qed.

Lemma dir_search st rank : store_ok st -> exists lo, partition_point kSearch (fun m => d_first (dir_at st m) <=? rank) 0 (nd_ st) = Z.of_nat lo /\ (lo <= length (dir_ st))%nat /\
  (forall a da, dir_ st !! a = Some da -> (a < lo)%nat -> d_first da <= rank) /\ (forall a da, dir_ st !! a = Some da -> (lo <= a)%nat -> rank < d_first da).
Proof.
  intros Hok. pose proof (dir_short st Hok) as [Hlen Hnb]. set (p := fun m => d_first (dir_at st m) <=? rank).
  destruct (partition_point_spec kSearch p 0 (nd_ st)) as (P1 & P2 & P3).
  { unfold nd_. lia. } { unfold nd_. change (2 ^ Z.of_nat kSearch) with (2 ^ 64). lia. }
  { intros a b Hab Hb. unfold p. rewrite !Z.leb_le. unfold nd_ in Hb.
    destruct (lookup_lt_is_Some_2 (dir_ st) (Z.to_nat a)) as [da Ha]; [lia|]. destruct (lookup_lt_is_Some_2 (dir_ st) (Z.to_nat b)) as [db Hdb]; [lia|].
    pose proof (firsts_mono st _ _ _ _ Hok Ha Hdb ltac:(lia)). unfold dir_at. rewrite Ha, Hdb. cbn. lia. }
  exists (Z.to_nat (partition_point kSearch p 0 (nd_ st))). unfold nd_ in *. split; [lia|]. split; [lia|]. split; intros a da Ha Hlt.
  - pose proof (P2 (Z.of_nat a) ltac:(lia)) as H. unfold p in H. rewrite (dir_at_lookup st a da Ha) in H. lia.
  - apply lookup_lt_Some in Ha as Hl. pose proof (P3 (Z.of_nat a) ltac:(lia)) as H. unfold p in H. rewrite (dir_at_lookup st a da Ha) in H. lia.
Qed.
Lemma block_search st d dd rank : store_ok st -> dir_ st !! d = Some dd -> exists l,
  partition_point kSearch (fun m => en_rank (ent st (addr (d_blk dd) m)) <? rank) 0 (d_n dd) = l /\ 0 <= l <= d_n dd /\
  (forall k, 0 <= k < l -> en_rank (ent st (addr (d_blk dd) k)) < rank) /\ (forall k, l <= k < d_n dd -> rank <= en_rank (ent st (addr (d_blk dd) k))).
Proof.
  intros Hok Hd. pose proof (size_at st d dd Hok Hd) as Hsz. unfold kBlock in Hsz. pose proof (block_sorted st d dd Hok Hd) as Hs. unfold block in Hs.
  set (p := fun m => en_rank (ent st (addr (d_blk dd) m)) <? rank).
  assert (Hmono : forall a b, 0 <= a < b -> b < d_n dd -> en_rank (ent st (addr (d_blk dd) a)) < en_rank (ent st (addr (d_blk dd) b))).
  { intros a b Hab Hb. pose proof (seg_order _ _ _ a b Hs Hab Hb) as H. rewrite !ent_mget. unfold addr in *. by rewrite !Z.add_0_r in H. }
  destruct (partition_point_spec kSearch p 0 (d_n dd)) as (P1 & P2 & P3); [lia | change (2 ^ Z.of_nat kSearch) with (2 ^ 64); lia | |].
  { intros a b Hab Hb. unfold p. rewrite !Z.ltb_lt. destruct (decide (a = b)) as [-> |]; [done|]. pose proof (Hmono a b ltac:(lia) Hb). lia. }
  eexists. split; [done|]. fold p. split; [done|]. split; intros k Hk; [specialize (P2 k Hk); unfold p in P2; lia | specialize (P3 k Hk); unfold p in P3; lia].
Qed.
Lemma lower_bound_spec st rank : store_ok st -> i64_min <= rank ->
  exists d i, lower_bound st rank = (Z.of_nat d, Z.of_nat i) /\ pos_ok st d i /\
    (forall e, e ∈ before st d i -> en_rank e < rank) /\ (forall e, e ∈ after st d i -> rank <= en_rank e).
Proof.
  intros Hok Hr. unfold lower_bound. destruct (dir_search st rank Hok) as (lo & -> & Hlo & P2 & P3). cbv zeta.
  assert (Hpos : pos_ok st lo 0). { destruct (dir_ st !! lo) as [dd|] eqn:E; [right; exists dd; split; [done|] | left; apply lookup_ge_None in E; lia].
    destruct (so_used st Hok) as [Hu|(d0 & Hd0 & _ & Hmin)]; [exact (proj1 (Forall_lookup _ _) Hu lo dd E)|].
    pose proof E as E'. rewrite Hd0 in E'. apply list_lookup_singleton_Some in E' as [-> ->]. pose proof (P3 0%nat dd E ltac:(lia)). lia. }
  pose proof (after_high st lo rank Hok P3) as Hhigh. destruct (Z.eqb_spec (Z.of_nat lo) 0) as [E0|E0].
  { exists 0%nat, 0%nat. assert (lo = 0%nat) as -> by lia. split; [done|]. split; [done|]. split; [|done]. intros e He. unfold before in He. rewrite !take_0 in He. by apply not_elem_of_nil in He. }
  destruct lo as [|d]; [done|]. replace (Z.of_nat (S d) - 1) with (Z.of_nat d) by lia. destruct (lookup_lt_is_Some_2 (dir_ st) d) as [dd Hd]; [lia|].
  rewrite (dir_at_lookup st d dd Hd). destruct (block_search st d dd rank Hok Hd) as (l & -> & Hl & L2 & L3).
  pose proof (before_low st d dd rank Hok Hd (P2 d dd Hd ltac:(lia))) as Hlow. destruct (Z.eqb_spec l (d_n dd)) as [El|El].
  - exists (S d), 0%nat. split; [f_equal; lia|]. split; [done|]. split; [|done]. intros e (a & da & Ha & Hlt & He)%elem_before_inv.
    destruct (decide (a = d)) as [-> |Hne]; [|apply Hlow, (elem_before st a d da); [done | lia | done]].
    simplify_eq. rewrite <- (take_ge (block st dd) (Z.to_nat (d_n dd))) in He by (unfold block; rewrite seg_length; lia). apply elem_take_block in He as (k & Hk & ->); [by apply L2 | done].
  - exists d, (Z.to_nat l). split; [f_equal; lia|]. split; [right; exists dd; split; [done | lia]|]. split.
    + intros e [He|(d' & Hd' & He)]%elem_before_at; [by apply Hlow|]. simplify_eq. apply elem_take_block in He as (k & Hk & ->); [by apply L2 | done].
    + intros e [(d' & Hd' & He)|He]%elem_after_at; [|by apply Hhigh]. simplify_eq. apply elem_drop_block in He as (k & Hk & ->); [by apply L3 | done].
Qed.
