(* ===== verification/L3StoreOps.v ===== *)
(** * L3StoreOps: insertion into and removal from an overflow store

    Each operation keeps [store_ok] and does to [levels] what the reference operations on a sorted list do: [put_new_spec],
    [split_spec], [drop_spec], [merge_spec]. *)

From Stdlib Require Import Sorted.
From S2P Require Import Prelude Types FixedPoint L3Store L3StoreInv.
Implicit Type st : L3LevelStore.

(** ** Frames *)

(** Memory outside block [b] is the same. *)
Definition same_but (b : Z) (m m' : gmap Z Entry) : Prop := forall blk i, blk <> b -> 0 <= i < kBlock -> mget m' (addr blk i) = mget m (addr blk i).
Lemma block_frame b st st' dd : same_but b (entries_ st) (entries_ st') -> d_blk dd <> b -> 0 <= d_n dd <= kBlock -> block st' dd = block st dd.
Proof. intros Hf Hb Hn. unfold block. apply mseg_ext. intros k Hk. specialize (Hf (d_blk dd) k Hb ltac:(lia)). unfold addr in *. by rewrite Z.add_0_r. Qed.
Lemma blocks_frame b st st' l : same_but b (entries_ st) (entries_ st') -> Forall (fun dd => d_blk dd <> b) l -> Forall (fun dd => 0 <= d_n dd <= kBlock) l ->
  concat (block st' <$> l) = concat (block st <$> l).
Proof.
  intros Hf Hb Hn. f_equal. apply list_fmap_ext. intros i dd Hi. apply (block_frame b); [done | exact (proj1 (Forall_lookup _ _) Hb i dd Hi) | exact (proj1 (Forall_lookup _ _) Hn i dd Hi)].
Qed.
Lemma dir_nodup st : store_ok st -> NoDup (d_blk <$> dir_ st).
Proof. intros Hok. pose proof (NoDup_seqZ 0 (nblocks_ st)) as H. rewrite <- (so_blocks st Hok) in H. by apply NoDup_app in H as (H & _). Qed.
Lemma dir_blk_inj st a b da db : NoDup (d_blk <$> dir_ st) -> dir_ st !! a = Some da -> dir_ st !! b = Some db -> d_blk da = d_blk db -> a = b.
Proof. intros Hn Ha Hb E. eapply (NoDup_lookup _ a b (d_blk da) Hn); rewrite list_lookup_fmap; [by rewrite Ha | by rewrite Hb, E]. Qed.
Lemma dir_others st d dd : NoDup (d_blk <$> dir_ st) -> dir_ st !! d = Some dd ->
  Forall (fun x => d_blk x <> d_blk dd) (take d (dir_ st)) /\ Forall (fun x => d_blk x <> d_blk dd) (drop (S d) (dir_ st)).
Proof.
  intros Hn Hd. split; apply Forall_lookup; intros i x Hi E.
  - apply lookup_take_Some in Hi as [Hi Hlt]. pose proof (dir_blk_inj st i d x dd Hn Hi Hd E). lia.
  - rewrite lookup_drop in Hi. pose proof (dir_blk_inj st _ d x dd Hn Hi Hd E). lia.
Qed.
Lemma levels_at st d dd : dir_ st !! d = Some dd -> levels st = concat (block st <$> take d (dir_ st)) ++ block st dd ++ concat (block st <$> drop (S d) (dir_ st)).
Proof. intros Hd. unfold levels. rewrite <- (take_drop_middle (dir_ st) d dd Hd) at 1. by rewrite fmap_app, concat_app, fmap_cons. Qed.

(** The invariant without the content: what the mutations keep between their steps. *)
Record store_wf st : Prop := {
  sw_cap : cap_ st < 2 ^ 30;
  sw_nblocks : nblocks_ st = 2 * ((cap_ st + kBlock - 1) / kBlock) + 1;
  sw_size : Forall (fun dd => 0 <= d_n dd <= kBlock) (dir_ st);
  sw_first : Forall (fun dd => 0 < d_n dd -> d_first dd = en_rank (ent st (addr (d_blk dd) 0))) (dir_ st);
  sw_blocks : (d_blk <$> dir_ st) ++ free_ st ≡ₚ seqZ 0 (nblocks_ st);
  sw_dir_of : forall d dd, dir_ st !! d = Some dd -> dir_of_ st !! d_blk dd = Some (Z.of_nat d);
}.
Lemma store_ok_wf st : store_ok st -> store_wf st.
Proof. intros [? ? [? ?] ? ? ? ? ? ?]. by constructor. Qed.
Lemma store_wf_ok st : store_wf st -> StronglySorted Z.lt (ranks (levels st)) -> n_ st = Z.of_nat (length (levels st)) -> n_ st <= cap_ st ->
  Forall (fun dd => 0 < d_n dd) (dir_ st) \/ only_empty st -> store_ok st.
Proof. intros [] ? Hn ? ?. constructor; try done. split; [|done]. split; [rewrite Hn; lia | done]. Qed.
Lemma wf_nodup st : store_wf st -> NoDup (d_blk <$> dir_ st).
Proof. intros Hok. pose proof (NoDup_seqZ 0 (nblocks_ st)) as H. rewrite <- (sw_blocks st Hok) in H. by apply NoDup_app in H as (H & _). Qed.
Lemma wf_first st d dd : store_wf st -> dir_ st !! d = Some dd -> 0 < d_n dd -> d_first dd = en_rank (mget (entries_ st) (addr (d_blk dd) 0)).
Proof. intros Hok Hd. exact (proj1 (Forall_lookup _ _) (sw_first st Hok) d dd Hd). Qed.
Lemma wf_size st d dd : store_wf st -> dir_ st !! d = Some dd -> 0 <= d_n dd <= kBlock.
Proof. intros Hok Hd. exact (proj1 (Forall_lookup _ _) (sw_size st Hok) d dd Hd). Qed.

(** One directory entry and its block change. *)
Record one_block st st' (d : nat) (dd dd' : Dir) : Prop := {
  ob_at : dir_ st !! d = Some dd;
  ob_dir : dir_ st' = <[d := dd']> (dir_ st);
  ob_blk : d_blk dd' = d_blk dd;
  ob_n : 0 <= d_n dd' <= kBlock;
  ob_first : 0 < d_n dd' -> d_first dd' = en_rank (ent st' (addr (d_blk dd) 0));
  ob_mem : same_but (d_blk dd) (entries_ st) (entries_ st');
  ob_cap : cap_ st' = cap_ st;
  ob_nblocks : nblocks_ st' = nblocks_ st;
  ob_free : free_ st' = free_ st;
  ob_dir_of : dir_of_ st' = dir_of_ st;
}.
Lemma levels_update st st' d dd dd' : store_wf st -> one_block st st' d dd dd' ->
  levels st' = concat (block st <$> take d (dir_ st)) ++ block st' dd' ++ concat (block st <$> drop (S d) (dir_ st)).
Proof.
  intros Hok [Hd Hdir _ _ _ Hf _ _ _ _]. destruct (dir_others st d dd (wf_nodup st Hok) Hd) as [H1 H2]. unfold levels. rewrite Hdir, insert_take_drop by (by apply lookup_lt_Some in Hd).
  rewrite fmap_app, concat_app, fmap_cons. cbn [concat]. rewrite !(blocks_frame (d_blk dd) st st'); [done | done | done | apply Forall_drop, (sw_size st Hok) | done | done | apply Forall_take, (sw_size st Hok)].
Qed.
Lemma one_block_wf st st' d dd dd' : store_wf st -> one_block st st' d dd dd' -> store_wf st'.
Proof.
  intros Hok [Hd Hdir Hblk Hn Hfirst Hmem Hcap Hnb Hfree Hdo]. pose proof (lookup_lt_Some _ _ _ Hd) as Hlt. constructor.
  - rewrite Hcap. apply (sw_cap st Hok).
  - rewrite Hnb, Hcap. apply (sw_nblocks st Hok).
  - rewrite Hdir. apply Forall_insert; [apply (sw_size st Hok) | lia].
  - rewrite Hdir. apply Forall_lookup. intros k x Hk Hx. destruct (decide (k = d)) as [-> |Hne].
    + rewrite list_lookup_insert_eq in Hk by done. injection Hk as <-. rewrite Hblk. by apply Hfirst.
    + rewrite list_lookup_insert_ne in Hk by done. rewrite (wf_first st k x Hok Hk Hx), ent_mget. f_equal. symmetry. apply Hmem; [|unfold kBlock; lia].
      intros E. apply Hne, (dir_blk_inj st k d x dd); [by apply wf_nodup | done | done | done].
  - rewrite Hfree, Hnb, Hdir, list_fmap_insert, Hblk. rewrite list_insert_id; [apply (sw_blocks st Hok)|]. by rewrite list_lookup_fmap, Hd.
  - intros k x Hk. rewrite Hdo. rewrite Hdir in Hk. destruct (decide (k = d)) as [-> |Hne].
    + rewrite list_lookup_insert_eq in Hk by done. injection Hk as <-. rewrite Hblk. by apply (sw_dir_of st Hok).
    + rewrite list_lookup_insert_ne in Hk by done. by apply (sw_dir_of st Hok).
Qed.
Lemma one_block_ok st st' d dd dd' : store_ok st -> one_block st st' d dd dd' -> 0 < d_n dd' ->
  StronglySorted Z.lt (ranks (levels st')) -> n_ st' = Z.of_nat (length (levels st')) -> n_ st' <= cap_ st -> store_ok st'.
Proof.
  intros Hok Hob Hpos Hs Hlen Hle. pose proof (store_ok_wf st Hok) as Hwf. apply store_wf_ok; [by apply (one_block_wf st st' d dd dd') | done | done | by rewrite (ob_cap _ _ _ _ _ Hob)|].
  left. rewrite (ob_dir _ _ _ _ _ Hob). destruct (so_used st Hok) as [Hu|(d0 & Hd0 & _)]; [by apply Forall_insert|].
  pose proof (ob_at _ _ _ _ _ Hob) as Hd. rewrite Hd0 in *. destruct d; cbn in *; [|done]. by repeat constructor.
Qed.

(** ** A new level *)

Definition new_level (rank : Z) : Entry := mkEntry rank empty_level.
Definition put_mem (b i n rank : Z) (m : gmap Z Entry) : gmap Z Entry := <[b + i := new_level rank]> (if negb (i =? n) then move (b + i + 1) (b + i) (n - i) m else m).
Lemma put_mem_get b i n rank m k : 0 <= i <= n -> mget (put_mem b i n rank m) (b + k) =
  if decide (k = i) then new_level rank else if decide (i < k <= n) then mget m (b + k - 1) else mget m (b + k).
Proof.
  intros Hi. unfold put_mem. rewrite mget_insert. destruct (decide (k = i)) as [-> |Hk]; [by rewrite decide_True|]. rewrite decide_False by lia.
  destruct (Z.eqb_spec i n) as [-> |Hin]; cbn [negb]; [by rewrite (decide_False (P := n < k <= n)) by lia|]. rewrite mget_move.
  destruct (decide (i < k <= n)) as [H|H]; [rewrite decide_True by lia; f_equal; lia | by rewrite decide_False by lia].
Qed.
Lemma seg_1 m b : seg m b 1 = [mget m b].
Proof. unfold seg. change (seqZ 0 1) with [0]. rewrite fmap_cons, fmap_nil. by rewrite Z.add_0_r. Qed.
Lemma put_mem_seg b i n rank m : 0 <= i <= n -> seg (put_mem b i n rank m) b (n + 1) = take (Z.to_nat i) (seg m b n) ++ new_level rank :: drop (Z.to_nat i) (seg m b n).
Proof.
  intros Hi. rewrite seg_take, seg_drop by lia. replace (n + 1) with (i + (1 + (n - i))) by lia. rewrite !mseg_app by lia. f_equal.
  - apply mseg_ext. intros k Hk. rewrite put_mem_get by lia. by rewrite !decide_False by lia.
  - change (new_level rank :: seg m (b + i) (n - i)) with ([new_level rank] ++ seg m (b + i) (n - i)). f_equal.
    + rewrite seg_1, put_mem_get by lia. by rewrite decide_True.
    + apply mseg_ext. intros k Hk. replace (b + i + 1 + k) with (b + (i + 1 + k)) by lia. rewrite put_mem_get by lia. rewrite decide_False, decide_True by lia. f_equal. lia.
Qed.
Lemma put_new_eq d i rank st : put_new d i rank st =
  let dd := dir_at st d in
  (addr (d_blk dd) 0 + i, st <| entries_ ::= put_mem (addr (d_blk dd) 0) i (d_n dd) rank |>
     <| dir_ ::= fun l => if i =? 0 then alter (fun x => x <| d_first := rank |>) (Z.to_nat d) (alter (fun x => x <| d_n ::= fun n => n + 1 |>) (Z.to_nat d) l)
                          else alter (fun x => x <| d_n ::= fun n => n + 1 |>) (Z.to_nat d) l |> <| n_ ::= fun n => n + 1 |>).
Proof. unfold put_new, put_mem. cbv zeta. destruct (negb (i =? d_n (dir_at st d))), (i =? 0); reflexivity. Qed.
Lemma dir_alter_insert (l : list Dir) (d : nat) (dd : Dir) f : l !! d = Some dd -> alter f d l = <[d := f dd]> l.
Proof.
  intros Hd. apply list_eq. intros j. destruct (decide (j = d)) as [-> |Hne].
  - rewrite list_lookup_alter_eq, Hd, list_lookup_insert_eq by (by apply lookup_lt_Some in Hd). done.
  - by rewrite list_lookup_alter_ne, list_lookup_insert_ne by done.
Qed.
Lemma put_new_spec d dd i rank st a st' : store_ok st -> dir_ st !! d = Some dd -> (Z.of_nat i <= d_n dd) -> d_n dd < kBlock -> n_ st < cap_ st ->
  (forall e, e ∈ before st d i -> en_rank e < rank) -> (forall e, e ∈ after st d i -> rank < en_rank e) ->
  put_new (Z.of_nat d) (Z.of_nat i) rank st = (a, st') ->
  store_ok st' /\ levels st' = before st d i ++ new_level rank :: after st d i /\ a = addr (d_blk dd) (Z.of_nat i) /\ ent st' a = new_level rank /\ cap_ st' = cap_ st /\
  exists dd', dir_ st' !! d = Some dd' /\ d_blk dd' = d_blk dd /\ d_n dd' = d_n dd + 1.
Proof.
  intros Hok Hd Hi Hn Hroom Hlo Hhi. rewrite put_new_eq. cbv zeta. rewrite (dir_at_lookup st d dd Hd), Nat2Z.id.
  set (dd' := mkDir (if Z.of_nat i =? 0 then rank else d_first dd) (d_blk dd) (d_n dd + 1)). set (b := addr (d_blk dd) 0).
  intros E. apply (f_equal snd) in E as E2. apply (f_equal fst) in E. cbn [fst snd] in E, E2.
  assert (Hdir : dir_ st' = <[d := dd']> (dir_ st)).
  { rewrite <- E2. cbn -[alter]. unfold dd'. rewrite (dir_alter_insert (dir_ st) d dd) by done. destruct (Z.of_nat i =? 0); [|done].
    rewrite (dir_alter_insert _ d (dd <| d_n ::= fun n => n + 1 |>)) by (apply list_lookup_insert_eq; by apply lookup_lt_Some in Hd). by rewrite list_insert_insert_eq. }
  assert (Hmem : entries_ st' = put_mem b (Z.of_nat i) (d_n dd) rank (entries_ st)) by (by rewrite <- E2).
  assert (Hsame : same_but (d_blk dd) (entries_ st) (entries_ st')).
  { intros blk k Hb Hk. rewrite Hmem. replace (addr blk k) with (b + (addr blk k - b)) by lia. rewrite put_mem_get by lia. unfold b, addr, kBlock in *. by rewrite !decide_False by lia. }
  assert (Hob : one_block st st' d dd dd').
  { constructor; [done | done | done | cbn; lia | intros _ | done | by rewrite <- E2 | by rewrite <- E2 | by rewrite <- E2 | by rewrite <- E2].
    rewrite ent_mget, Hmem, <- (Z.add_0_r (addr (d_blk dd) 0)). fold b. rewrite put_mem_get by lia. cbn [d_first dd'].
    destruct (Z.eqb_spec (Z.of_nat i) 0) as [E0|E0]; [by rewrite decide_True by lia|]. rewrite !decide_False by lia. rewrite Z.add_0_r. apply (block_first st d dd); [done | done | lia]. }
  assert (Hlev : levels st' = before st d i ++ new_level rank :: after st d i).
  { rewrite (levels_update st st' d dd dd' (store_ok_wf st Hok) Hob). unfold before, after. rewrite Hd. cbn [from_option]. 
    assert (block st' dd' = take i (block st dd) ++ new_level rank :: drop i (block st dd)) as ->; [|by rewrite <- !app_assoc].
    unfold block, dd'. cbn [d_blk d_n]. fold b. rewrite Hmem, put_mem_seg by lia. by rewrite Nat2Z.id. }
  assert (Hent : ent st' a = new_level rank). { rewrite ent_mget, Hmem, <- E, put_mem_get by lia. by rewrite decide_True. }
  assert (Hcap : cap_ st' = cap_ st) by (by rewrite <- E2).
  split; [|split; [done | split; [rewrite <- E; unfold b, addr; lia | split; [done | split; [done|]]]]].
  2: { exists dd'. rewrite Hdir, list_lookup_insert_eq by (by apply lookup_lt_Some in Hd). done. }
  assert (Hn' : n_ st' = n_ st + 1) by (by rewrite <- E2).
  apply (one_block_ok st st' d dd dd' Hok Hob).
  - cbn. lia.
  - rewrite Hlev. pose proof (so_sorted st Hok) as Hs. rewrite (levels_split st d i) in Hs. apply sorted_split in Hs as (Hs1 & Hs2 & Hs3). apply sorted_split.
    split; [done|]. split.
    + apply (sorted_split [new_level rank]). split; [repeat constructor|]. split; [done|]. intros x y ->%list_elem_of_singleton Hy. by apply Hhi.
    + intros x y Hx [->|Hy]%elem_of_cons; [by apply Hlo | by apply Hs3].
  - rewrite Hlev, Hn', (so_n st Hok), (levels_split st d i), !length_app. cbn [length]. lia.
  - lia.
Qed.

(** ** The level behind a pointer *)

Lemma levels_entry st d dd i : dir_ st !! d = Some dd -> 0 <= i < d_n dd ->
  levels st = before st d (Z.to_nat i) ++ ent st (addr (d_blk dd) i) :: after st d (S (Z.to_nat i)).
Proof.
  intros Hd Hi. rewrite (levels_split st d (Z.to_nat i)). f_equal. unfold after. rewrite Hd. cbn [from_option].
  rewrite (drop_S (block st dd) (ent st (addr (d_blk dd) i))); [done|]. unfold block. rewrite seg_lookup, decide_True by lia. rewrite ent_mget. do 2 f_equal. unfold addr. lia.
Qed.
Lemma set_lvl_spec st d dd i l : store_ok st -> dir_ st !! d = Some dd -> 0 <= i < d_n dd ->
  let a := addr (d_blk dd) i in let st' := set_lvl a l st in
  store_ok st' /\ levels st' = before st d (Z.to_nat i) ++ mkEntry (en_rank (ent st a)) l :: after st d (S (Z.to_nat i)) /\ cap_ st' = cap_ st.
Proof.
  intros Hok Hd Hi a st'. set (e := mkEntry (en_rank (ent st a)) l). pose proof (size_at st d dd Hok Hd) as Hsz.
  assert (Hmem : entries_ st' = <[a := e]> (entries_ st)) by done.
  assert (Hsame : same_but (d_blk dd) (entries_ st) (entries_ st')).
  { intros blk k Hb Hk. rewrite Hmem, mget_insert, decide_False; [done|]. unfold a. intros E. apply addr_inj in E as [E _]; [done | lia | lia]. }
  assert (Hdir : dir_ st' = <[d := dd]> (dir_ st)) by (by rewrite list_insert_id).
  assert (Hob : one_block st st' d dd dd).
  { constructor; try done. intros Hpos. rewrite ent_mget, Hmem, mget_insert. pose proof (block_first st d dd Hok Hd ltac:(lia)) as Hf.
    destruct (decide (addr (d_blk dd) 0 = a)) as [E|E]; [|done]. rewrite Hf, E. done. }
  assert (Hlev : levels st' = before st d (Z.to_nat i) ++ e :: after st d (S (Z.to_nat i))).
  { rewrite (levels_update st st' d dd dd (store_ok_wf st Hok) Hob). unfold before, after. rewrite Hd. cbn [from_option].
    assert (block st' dd = take (Z.to_nat i) (block st dd) ++ e :: drop (S (Z.to_nat i)) (block st dd)) as ->; [|by rewrite <- !app_assoc].
    unfold block. rewrite Hmem. rewrite <- (insert_take_drop _ _ e) by (rewrite seg_length; lia). apply list_eq. intros j. rewrite seg_lookup.
    destruct (decide (j = Z.to_nat i)) as [-> |Hj].
    - rewrite list_lookup_insert_eq by (rewrite seg_length; lia). rewrite decide_True by lia. rewrite mget_insert, decide_True; [done|]. unfold a, addr. lia.
    - rewrite list_lookup_insert_ne, seg_lookup by done. case_decide; [|done]. rewrite mget_insert, decide_False; [done|]. unfold a, addr. lia. }
  assert (Hr : ranks (levels st') = ranks (levels st)). { rewrite Hlev, (levels_entry st d dd i Hd Hi). unfold ranks. by rewrite !fmap_app, !fmap_cons. }
  split; [|done]. apply (one_block_ok st st' d dd dd Hok Hob).
  - lia.
  - rewrite Hr. apply (so_sorted st Hok).
  - rewrite <- (length_fmap en_rank (levels st')). fold (ranks (levels st')). rewrite Hr. unfold ranks. rewrite length_fmap. apply (so_n st Hok).
  - apply (so_cap st Hok).
Qed.

(** ** The directory *)

Lemma fold_insert_ne (key : Z -> Z) ks (m : gmap Z Z) x : (forall k, k ∈ ks -> key k <> x) -> fold_left (fun m k => <[key k := k]> m) ks m !! x = m !! x.
Proof.
  revert m. induction ks as [|k ks IH]; intros m H; cbn [fold_left]; [done|]. rewrite IH by (intros j Hj; apply H; by constructor).
  apply lookup_insert_ne, H. by constructor.
Qed.
Lemma fold_insert_in (key : Z -> Z) ks (m : gmap Z Z) k0 : k0 ∈ ks -> (forall k, k ∈ ks -> key k = key k0 -> k = k0) -> fold_left (fun m k => <[key k := k]> m) ks m !! key k0 = Some k0.
Proof.
  revert m. induction ks as [|k ks IH]; intros m Hin H; [by apply not_elem_of_nil in Hin|]. cbn [fold_left].
  destruct (decide (k0 ∈ ks)) as [Hk|Hk]; [apply IH; [done|]; intros j Hj; apply H; by constructor|].
  apply elem_of_cons in Hin as [->|Hin]; [|done]. rewrite fold_insert_ne; [by apply lookup_insert_eq|]. intros j Hj E. apply Hk. rewrite <- (H j) by (done || by constructor). done.
Qed.
Lemma renumber_dir_of st d : NoDup (d_blk <$> dir_ st) -> (forall k dd, dir_ st !! k = Some dd -> (k < d)%nat -> dir_of_ st !! d_blk dd = Some (Z.of_nat k)) ->
  forall k dd, dir_ st !! k = Some dd -> dir_of_ (renumber (Z.of_nat d) st) !! d_blk dd = Some (Z.of_nat k).
Proof.
  intros Hn Hlow k dd Hk. apply lookup_lt_Some in Hk as Hl. cbn -[dir_at nd_]. rewrite <- (dir_at_lookup st k dd Hk) at 1.
  assert (Hinj : forall j, j ∈ seqZ (Z.of_nat d) (nd_ st - Z.of_nat d) -> d_blk (dir_at st j) = d_blk (dir_at st (Z.of_nat k)) -> j = Z.of_nat k).
  { intros j [Hj1 Hj2]%elem_of_seqZ E. unfold nd_ in Hj2. destruct (lookup_lt_is_Some_2 (dir_ st) (Z.to_nat j)) as [dj Hdj]; [lia|].
    rewrite (dir_at_lookup st k dd Hk) in E. rewrite <- (Z2Nat.id j) in E by lia. rewrite (dir_at_lookup st _ dj Hdj) in E.
    pose proof (dir_blk_inj st _ _ _ _ Hn Hdj Hk E). lia. }
  destruct (decide (k < d)%nat) as [Hkd|Hkd].
  - rewrite (fold_insert_ne (fun j => d_blk (dir_at st j))); [rewrite (dir_at_lookup st k dd Hk); by apply Hlow|].
    intros j Hj E. pose proof (Hinj j Hj E). apply elem_of_seqZ in Hj. lia.
  - apply (fold_insert_in (fun j => d_blk (dir_at st j))); [apply elem_of_seqZ; unfold nd_; lia | done].
Qed.
Lemma renumber_same st d : let st' := renumber d st in dir_ st' = dir_ st /\ entries_ st' = entries_ st /\ free_ st' = free_ st /\ n_ st' = n_ st /\ cap_ st' = cap_ st /\ nblocks_ st' = nblocks_ st.
Proof. done. Qed.

Lemma levels_same_mem st st' l : entries_ st' = entries_ st -> concat (block st' <$> l) = concat (block st <$> l).
Proof. intros E. f_equal. apply list_fmap_ext. intros i x _. unfold block. by rewrite E. Qed.
Lemma drop_spec st d dd : store_wf st -> dir_ st !! d = Some dd -> let st' := drop_ (Z.of_nat d) st in
  store_wf st' /\ levels st' = concat (block st <$> take d (dir_ st)) ++ concat (block st <$> drop (S d) (dir_ st)) /\
  dir_ st' = take d (dir_ st) ++ drop (S d) (dir_ st) /\ n_ st' = n_ st /\ cap_ st' = cap_ st.
Proof.
  intros Hwf Hd st'. pose proof (lookup_lt_Some _ _ _ Hd) as Hlt.
  assert (Hdir : dir_ st' = take d (dir_ st) ++ drop (S d) (dir_ st)). { unfold st', drop_. cbn. rewrite Nat2Z.id. by replace (d + 1)%nat with (S d) by lia. }
  assert (Hsub : forall k x, dir_ st' !! k = Some x -> exists j, dir_ st !! j = Some x).
  { intros k x Hk. rewrite Hdir in Hk. apply lookup_app_Some in Hk as [Hk|[_ Hk]]; [apply lookup_take_Some in Hk as [Hk _] | rewrite lookup_drop in Hk]; by eexists. }
  assert (Hperm : d_blk dd :: (d_blk <$> dir_ st') ≡ₚ d_blk <$> dir_ st).
  { rewrite Hdir, fmap_app. rewrite <- (take_drop_middle (dir_ st) d dd Hd) at 3. rewrite fmap_app, fmap_cons. by rewrite Permutation_middle. }
  split; [|split; [unfold levels; rewrite Hdir, fmap_app, concat_app; by rewrite !(levels_same_mem st st') by done | done]].
  constructor.
  - apply (sw_cap st Hwf).
  - apply (sw_nblocks st Hwf).
  - apply Forall_lookup. intros k x Hk. destruct (Hsub k x Hk) as [j Hj]. by apply (wf_size st j x).
  - apply Forall_lookup. intros k x Hk Hx. destruct (Hsub k x Hk) as [j Hj]. by apply (wf_first st j x).
  - change (free_ st') with (d_blk (dir_at st (Z.of_nat d)) :: free_ st). rewrite (dir_at_lookup st d dd Hd). change (nblocks_ st') with (nblocks_ st). rewrite <- Permutation_middle. rewrite <- (sw_blocks st Hwf), <- Hperm. done.
  - intros j y Hj. unfold st', drop_. apply (renumber_dir_of _ d); [| |exact Hj].
    + change (NoDup (d_blk <$> dir_ st')). pose proof (wf_nodup st Hwf) as Hnd. rewrite <- Hperm in Hnd. by apply NoDup_cons in Hnd as [_ Hnd].
    + intros k x Hk Hkd. change (dir_ st' !! k = Some x) in Hk. rewrite Hdir, lookup_app_l in Hk by (rewrite length_take; lia). apply lookup_take_Some in Hk as [Hk _]. by apply (sw_dir_of st Hwf).
Qed.

(** ** A split *)

Section Split.
Context (st : L3LevelStore) (d : nat) (dd : Dir) (nb : Z) (fr : list Z).
Context (Hok : store_ok st) (Hd : dir_ st !! d = Some dd) (Hn : d_n dd = kBlock) (Ef : free_ st = nb :: fr).

Definition split_mem : gmap Z Entry := move (addr nb 0) (addr (d_blk dd) 32) 32 (entries_ st).
Definition split_lo : Dir := dd <| d_n := 32 |>.
Definition split_hi : Dir := mkDir (en_rank (mget split_mem (addr (d_blk dd) 32))) nb 32.
Definition split_dir : list Dir := take d (dir_ st) ++ split_lo :: split_hi :: drop (S d) (dir_ st).

Lemma split_eq : split (Z.of_nat d) st = renumber (Z.of_nat (S d)) (mkStore (cap_ st) (nblocks_ st) (n_ st) split_dir split_mem (dir_of_ st) fr).
Proof.
  unfold split, take_block. rewrite Ef. cbn [default head fst snd from_option id]. cbv zeta. rewrite Z.add_1_r, <- Nat2Z.inj_succ. f_equal.
  unfold set_dir. cbn -[alter take drop move addr]. rewrite Nat2Z.id. unfold dir_at. cbn -[alter take drop move addr]. rewrite Nat2Z.id, Hd. cbn -[alter take drop move addr].
  set (f := fun x : Dir => x <| d_n := 32 |>).
  transitivity (mkStore (cap_ st) (nblocks_ st) (n_ st) (take (d + 1) (alter f d (dir_ st)) ++ split_hi :: drop (d + 1) (alter f d (dir_ st))) split_mem (dir_of_ st) (tail (free_ st))); [done|].
  rewrite Ef, (dir_alter_insert _ d dd _ Hd). unfold f. fold split_lo. replace (d + 1)%nat with (S d) by lia. pose proof (lookup_lt_Some _ _ _ Hd) as Hlt. rewrite insert_take_drop by done. unfold split_dir. f_equal.
  rewrite (app_assoc (take d (dir_ st)) [split_lo] (drop (S d) (dir_ st)) : take d (dir_ st) ++ split_lo :: drop (S d) (dir_ st) = _).
  rewrite take_app_length', drop_app_length' by (rewrite length_app, length_take; cbn; lia). by rewrite <- app_assoc.
Qed.
Lemma split_fresh : Forall (fun x => d_blk x <> nb) (dir_ st).
Proof.
  pose proof (NoDup_seqZ 0 (nblocks_ st)) as H. rewrite <- (so_blocks st Hok), Ef in H. apply NoDup_app in H as (_ & H & _).
  apply Forall_lookup. intros k x Hk E. apply (H nb); [|by constructor]. apply list_elem_of_fmap. exists x. split; [done|]. by eapply list_elem_of_lookup_2.
Qed.
Lemma split_same : same_but nb (entries_ st) split_mem.
Proof. intros blk i Hb Hi. unfold split_mem. rewrite mget_move, decide_False; [done|]. apply addr_other; [done | lia | done | unfold kBlock; lia]. Qed.
Lemma split_blk_ne : d_blk dd <> nb.
Proof. exact (proj1 (Forall_lookup _ _) split_fresh d dd Hd). Qed.
Lemma split_block_lo st' : entries_ st' = split_mem -> block st' split_lo = take 32 (block st dd).
Proof.
  intros E. pose proof split_same as Hs. rewrite <- E in Hs. rewrite (block_frame nb st st' split_lo Hs split_blk_ne) by (cbn; unfold kBlock; lia).
  unfold block. cbn [split_lo d_blk d_n]. rewrite Hn. change 32%nat with (Z.to_nat 32). rewrite seg_take by (unfold kBlock; lia). done.
Qed.
Lemma split_block_hi st' : entries_ st' = split_mem -> block st' split_hi = drop 32 (block st dd).
Proof.
  intros E. unfold block. rewrite Hn, E. change 32%nat with (Z.to_nat 32). rewrite seg_drop by (unfold kBlock; lia). apply mseg_ext. intros k Hk. cbn [split_hi d_n d_blk] in *.
  unfold split_mem. rewrite mget_move, decide_True by (unfold kBlock in *; lia). f_equal. unfold addr. lia.
Qed.
Lemma split_hi_first : mget split_mem (addr (d_blk dd) 32) = mget split_mem (addr nb 0).
Proof.
  rewrite (split_same (d_blk dd) 32 split_blk_ne) by (unfold kBlock; lia). unfold split_mem. rewrite mget_move, decide_True by (clear; lia). f_equal. unfold addr. lia.
Qed.
Lemma split_others st' l : entries_ st' = split_mem -> l ⊆ dir_ st -> concat (block st' <$> l) = concat (block st <$> l).
Proof.
  intros E Hl. pose proof split_same as Hs. rewrite <- E in Hs. apply (blocks_frame nb st st' l Hs); apply Forall_forall; intros x Hx%Hl.
  - by apply (proj1 (Forall_forall _ _) split_fresh).
  - by apply (proj1 (Forall_forall _ _) (so_size st Hok)).
Qed.
Lemma split_dir_lookup : split_dir !! d = Some split_lo /\ split_dir !! S d = Some split_hi /\ take d split_dir = take d (dir_ st) /\
  drop (S d) split_dir = split_hi :: drop (S d) (dir_ st) /\ take (S d) split_dir = take d (dir_ st) ++ [split_lo] /\ drop (S (S d)) split_dir = drop (S d) (dir_ st).
Proof.
  pose proof (lookup_lt_Some _ _ _ Hd) as Hlt. assert (Hl : length (take d (dir_ st)) = d) by (rewrite length_take; lia). unfold split_dir.
  split; [by rewrite lookup_app_r, Hl, Nat.sub_diag by lia|]. split; [rewrite lookup_app_r, Hl by lia; by replace (S d - d)%nat with 1%nat by lia|].
  split; [by rewrite take_app_length'|]. rewrite (cons_middle split_lo), (app_assoc (take d (dir_ st)) [split_lo]).
  assert (Hl2 : length (take d (dir_ st) ++ [split_lo]) = S d) by (rewrite length_app, Hl; cbn; lia).
  split; [by rewrite drop_app_length'|]. split; [by rewrite take_app_length'|]. rewrite (cons_middle split_hi), app_assoc.
  rewrite drop_app_length'; [done|]. rewrite length_app, Hl2. cbn. lia.
Qed.
Lemma split_positions st' : dir_ st' = split_dir -> entries_ st' = split_mem ->
  (forall i, (i <= 32)%nat -> before st' d i = before st d i /\ after st' d i = after st d i) /\
  (forall i, (32 < i <= 64)%nat -> before st' (S d) (i - 32) = before st d i /\ after st' (S d) (i - 32) = after st d i).
Proof.
  intros Hdir Hmem. destruct split_dir_lookup as (L1 & L2 & T1 & D1 & T2 & D2). rewrite <- Hdir in *. pose proof (split_block_lo st' Hmem) as B1. pose proof (split_block_hi st' Hmem) as B2.
  assert (Htk : concat (block st' <$> take d (dir_ st)) = concat (block st <$> take d (dir_ st))) by (apply split_others; [done | intros x Hx; rewrite <- (take_drop d (dir_ st)); apply elem_of_app; by left]).
  assert (Hdr : concat (block st' <$> drop (S d) (dir_ st)) = concat (block st <$> drop (S d) (dir_ st))) by (apply split_others; [done | intros x Hx; rewrite <- (take_drop (S d) (dir_ st)); apply elem_of_app; by right]).
  assert (Hlen : length (block st dd) = 64%nat) by (unfold block; rewrite seg_length, Hn; done).
  unfold before, after. rewrite L1, L2, T1, D1, T2, D2, Hd. cbn [from_option]. split; intros i Hi.
  - rewrite B1, Htk, fmap_cons. cbn [concat]. rewrite B2, Hdr. split; [by rewrite take_take, Nat.min_l by lia|].
    rewrite app_assoc. f_equal. rewrite <- drop_app_le by (rewrite length_take; lia). by rewrite take_drop.
  - rewrite fmap_app, concat_app, B2, Htk, Hdr. cbn [concat fmap list_fmap]. rewrite B1, app_nil_r, <- app_assoc. split.
    + f_equal. rewrite take_take_drop. f_equal. lia.
    + f_equal. rewrite drop_drop. f_equal. lia.
Qed.
Lemma split_wf : store_wf (split (Z.of_nat d) st).
Proof.
  rewrite split_eq. pose proof (store_ok_wf st Hok) as Hwf. destruct split_dir_lookup as (L1 & L2 & T1 & D1 & T2 & D2).
  assert (Hperm : d_blk <$> split_dir ≡ₚ nb :: (d_blk <$> dir_ st)).
  { rewrite <- (take_drop_middle (dir_ st) d dd Hd) at 1. unfold split_dir. rewrite !fmap_app, !fmap_cons. rewrite (Permutation_app_comm (_ <$> take _ _)). rewrite (Permutation_app_comm (_ <$> take d (dir_ st))). cbn. apply perm_swap. }
  assert (Hin : forall x, x ∈ split_dir -> x = split_lo \/ x = split_hi \/ x ∈ dir_ st).
  { intros x. unfold split_dir. rewrite elem_of_app, !elem_of_cons. intros [Hx|[Hx|[Hx|Hx]]]; [| by left | by right; left |]; right; right; [rewrite <- (take_drop d (dir_ st)) | rewrite <- (take_drop (S d) (dir_ st))]; apply elem_of_app; [by left | by right]. }
  constructor.
  - apply (sw_cap st Hwf).
  - apply (sw_nblocks st Hwf).
  - apply Forall_forall. intros x [->|[->|Hx]]%Hin; [cbn; unfold kBlock; lia | cbn; unfold kBlock; lia|]. by apply (proj1 (Forall_forall _ _) (sw_size st Hwf)).
  - apply Forall_forall. rewrite ?ent_mget. intros x [->|[->|Hx]]%Hin Hp; rewrite ent_mget; cbn [renumber entries_].
    + change (d_first dd = en_rank (mget split_mem (addr (d_blk dd) 0))). rewrite (split_same (d_blk dd) 0 split_blk_ne) by (unfold kBlock; lia). apply (wf_first st d dd Hwf Hd). rewrite Hn. done.
    + cbn [split_hi d_first d_blk]. change (en_rank (mget split_mem (addr (d_blk dd) 32)) = en_rank (mget split_mem (addr nb 0))). by rewrite split_hi_first.
    + apply list_elem_of_lookup in Hx as [k Hk]. rewrite (wf_first st k x Hwf Hk Hp). f_equal. symmetry. apply split_same; [|unfold kBlock; lia]. exact (proj1 (Forall_lookup _ _) split_fresh k x Hk).
  - change ((d_blk <$> split_dir) ++ fr ≡ₚ seqZ 0 (nblocks_ st)). rewrite Hperm, <- (sw_blocks st Hwf), Ef. by rewrite <- Permutation_middle.
  - intros k x Hk. apply (renumber_dir_of _ (S d)); [| |exact Hk].
    + change (NoDup (d_blk <$> split_dir)). rewrite Hperm. pose proof (NoDup_seqZ 0 (nblocks_ st)) as Hnd. rewrite <- (sw_blocks st Hwf), Ef in Hnd.
      rewrite <- Permutation_middle in Hnd. apply (NoDup_app (nb :: (d_blk <$> dir_ st)) fr) in Hnd. apply Hnd.
    + intros j y Hj Hlt. change (split_dir !! j = Some y) in Hj. change (dir_of_ st !! d_blk y = Some (Z.of_nat j)). destruct (decide (j = d)) as [-> |Hne].
      * rewrite L1 in Hj. injection Hj as <-. by apply (sw_dir_of st Hwf d dd).
      * apply (sw_dir_of st Hwf). rewrite <- (lookup_take_lt _ d) by lia. rewrite <- T1, lookup_take_lt by lia. done.
Qed.
Lemma split_spec : let st' := split (Z.of_nat d) st in
  store_ok st' /\ n_ st' = n_ st /\ cap_ st' = cap_ st /\
  (exists d1 d2, dir_ st' !! d = Some d1 /\ d_n d1 = 32 /\ dir_ st' !! S d = Some d2 /\ d_n d2 = 32) /\
  (forall i, (i <= 32)%nat -> before st' d i = before st d i /\ after st' d i = after st d i) /\
  (forall i, (32 < i <= 64)%nat -> before st' (S d) (i - 32) = before st d i /\ after st' (S d) (i - 32) = after st d i).
Proof.
  cbv zeta. pose proof split_wf as Hwf. pose proof split_eq as E. destruct split_dir_lookup as (L1 & L2 & T1 & D1 & T2 & D2). set (st' := split (Z.of_nat d) st) in *.
  assert (Hdir : dir_ st' = split_dir) by (by rewrite E). destruct (split_positions st' Hdir) as [Hlo Hhi]; [by rewrite E|].
  assert (Hlev : levels st' = levels st) by (rewrite (levels_split st' d 0), (levels_split st d 0); destruct (Hlo 0%nat) as [-> ->]; [lia | done]).
  assert (Hn' : n_ st' = n_ st) by (by rewrite E). assert (Hcap : cap_ st' = cap_ st) by (by rewrite E). split; [|rewrite Hdir; do 2 (split; [done|]); split; [by exists split_lo, split_hi | done]].
  apply store_wf_ok; [done | rewrite Hlev; apply (so_sorted st Hok) | rewrite Hlev, Hn'; apply (so_n st Hok) | rewrite Hn', Hcap; apply (so_cap st Hok) | left].
  destruct (so_used st Hok) as [Hu|(d0 & Hd0 & Hz & _)]; [|rewrite Hd0 in Hd; apply list_lookup_singleton_Some in Hd as [_ ->]; unfold kBlock in *; lia].
  rewrite Hdir. unfold split_dir. apply Forall_app. split; [by apply Forall_take|]. repeat constructor. by apply Forall_drop.
Qed.
End Split.

(** ** A merge *)

Section Merge.
Context (st : L3LevelStore) (d : nat) (a b : Dir).
Context (Hok : store_ok st) (Ha : dir_ st !! d = Some a) (Hb : dir_ st !! S d = Some b) (Hna : 0 < d_n a) (Hnb : 0 < d_n b) (Hfit : d_n a + d_n b <= kBlock).

Definition merge_mem : gmap Z Entry := move (addr (d_blk b) 0) (addr (d_blk a) 0) (d_n a) (move (addr (d_blk b) (d_n a)) (addr (d_blk b) 0) (d_n b) (entries_ st)).
Definition merge_dir : Dir := mkDir (d_first a) (d_blk b) (d_n b + d_n a).
Definition merge_st : L3LevelStore := st <| entries_ := merge_mem |> <| dir_ := <[S d := merge_dir]> (dir_ st) |>.

Lemma merge_eq : merge (Z.of_nat d) st = drop_ (Z.of_nat d) merge_st.
Proof.
  unfold merge. cbv zeta. rewrite (dir_at_lookup st d a Ha). rewrite Z.add_1_r, <- Nat2Z.inj_succ, (dir_at_lookup st (S d) b Hb). f_equal.
  unfold set_dir, merge_st, merge_mem. rewrite Nat2Z.id. cbn -[alter insert move addr].
  transitivity (mkStore (cap_ st) (nblocks_ st) (n_ st) (alter (fun x => x <| d_n ::= fun n => n + d_n a |> <| d_first := d_first a |>) (S d) (dir_ st)) merge_mem (dir_of_ st) (free_ st)); [done|].
  rewrite (dir_alter_insert _ (S d) b _ Hb). done.
Qed.
Lemma merge_blk_ne : d_blk a <> d_blk b.
Proof. intros E. pose proof (dir_blk_inj st d (S d) a b (dir_nodup st Hok) Ha Hb E). lia. Qed.
Lemma merge_same : same_but (d_blk b) (entries_ st) merge_mem.
Proof. intros blk i Hne Hi. unfold merge_mem. rewrite !mget_move. rewrite !decide_False; [done | |]; apply addr_other; try done; lia. Qed.
Lemma merge_block : block merge_st merge_dir = block st a ++ block st b.
Proof.
  pose proof merge_blk_ne as Hne. unfold block. cbn [merge_dir d_n d_blk]. rewrite (Z.add_comm (d_n b)), mseg_app by lia. change (entries_ merge_st) with merge_mem. f_equal; apply mseg_ext; intros k Hk; unfold merge_mem; rewrite mget_move.
  - rewrite decide_True by lia. rewrite mget_move, decide_False; [f_equal; lia|]. replace (addr (d_blk b) 0 + k - addr (d_blk b) 0 + addr (d_blk a) 0) with (addr (d_blk a) k) by (unfold addr; lia). apply addr_other; [done | lia | lia | lia].
  - rewrite decide_False by lia. rewrite mget_move, decide_True by (unfold addr; lia). f_equal. unfold addr. lia.
Qed.
Lemma merge_one_block : one_block st merge_st (S d) b merge_dir.
Proof.
  constructor; try done; [cbn; lia | intros _ | apply merge_same].
  cbn [merge_dir d_first]. rewrite (block_first st d a Hok Ha Hna). f_equal. pose proof merge_block as E. apply (f_equal (fun l => l !! 0%nat)) in E.
  unfold block in E. rewrite lookup_app, !seg_lookup in E. cbn [merge_dir d_n d_blk] in E. rewrite !decide_True, !Z.add_0_r in E by lia. apply (inj Some) in E. by rewrite ent_mget.
Qed.
Lemma merge_spec : let st' := merge (Z.of_nat d) st in store_ok st' /\ levels st' = levels st /\ cap_ st' = cap_ st.
Proof.
  cbv zeta. rewrite merge_eq. pose proof merge_one_block as Hob. pose proof (one_block_wf _ _ _ _ _ (store_ok_wf st Hok) Hob) as Hwf.
  pose proof (lookup_lt_Some _ _ _ Hb) as Hlt. destruct (drop_spec merge_st d a Hwf) as (W & L & D & N & C).
  { cbn. rewrite list_lookup_insert_ne by lia. done. }
  set (st' := drop_ (Z.of_nat d) merge_st) in *. change (dir_ merge_st) with (<[S d := merge_dir]> (dir_ st)) in L, D. rewrite take_insert_ge in L, D by lia.
  rewrite (insert_take_drop (dir_ st) (S d) merge_dir Hlt) in L, D. rewrite drop_app_length' in L, D by (rewrite length_take; lia).
  destruct (dir_others st (S d) b (dir_nodup st Hok) Hb) as [O1 O2].
  assert (E1 : concat (block merge_st <$> take d (dir_ st)) = concat (block st <$> take d (dir_ st))).
  { apply (blocks_frame (d_blk b)); [apply merge_same | | apply Forall_take, (so_size st Hok)].
    replace (take d (dir_ st)) with (take d (take (S d) (dir_ st))) by (rewrite take_take; f_equal; lia). by apply Forall_take. }
  assert (E2 : concat (block merge_st <$> drop (S (S d)) (dir_ st)) = concat (block st <$> drop (S (S d)) (dir_ st))).
  { apply (blocks_frame (d_blk b)); [apply merge_same | done | apply Forall_drop, (so_size st Hok)]. }
  assert (Hlev : levels st' = levels st).
  { rewrite L, E1, fmap_cons. cbn [concat]. rewrite merge_block, E2, (levels_at st d a Ha), (drop_S _ _ _ Hb), fmap_cons. cbn [concat]. by rewrite <- !app_assoc. }
  split; [|done]. apply store_wf_ok; [done | rewrite Hlev; apply (so_sorted st Hok) | rewrite Hlev, N; apply (so_n st Hok) | rewrite N, C; apply (so_cap st Hok) | left].
  destruct (so_used st Hok) as [Hu|(d0 & Hd0 & _)]; [|rewrite Hd0 in Hb; done].
  rewrite D. apply Forall_app. split; [by apply Forall_take|]. constructor; [cbn; lia | by apply Forall_drop].
Qed.
End Merge.

(** ** A removal *)

Section Erase.
Context (st : L3LevelStore) (d : nat) (dd : Dir) (i : Z).
Context (Hok : store_ok st) (Hd : dir_ st !! d = Some dd) (Hi : 0 <= i < d_n dd).

Definition er_mem : gmap Z Entry := if negb (i + 1 =? d_n dd) then move (addr (d_blk dd) 0 + i) (addr (d_blk dd) 0 + i + 1) (d_n dd - i - 1) (entries_ st) else entries_ st.
(** The store after the levels have moved, its directory entry being [dd']. *)
Definition er_st (dd' : Dir) : L3LevelStore := st <| entries_ := er_mem |> <| dir_ := <[d := dd']> (dir_ st) |> <| n_ ::= fun n => n - 1 |>.
Definition er_dir (first : Z) : Dir := mkDir first (d_blk dd) (d_n dd - 1).

Lemma er_get k : mget er_mem (addr (d_blk dd) 0 + k) = if decide (i <= k < d_n dd - 1) then mget (entries_ st) (addr (d_blk dd) 0 + k + 1) else mget (entries_ st) (addr (d_blk dd) 0 + k).
Proof.
  unfold er_mem. destruct (Z.eqb_spec (i + 1) (d_n dd)) as [E|E]; cbn [negb]; [by rewrite decide_False by lia|]. rewrite mget_move.
  destruct (decide (i <= k < d_n dd - 1)) as [H|H]; [rewrite decide_True by lia; f_equal; lia | by rewrite decide_False by lia].
Qed.
Lemma er_block first : block (er_st (er_dir first)) (er_dir first) = take (Z.to_nat i) (block st dd) ++ drop (S (Z.to_nat i)) (block st dd).
Proof.
  unfold block. cbn [er_dir d_n d_blk]. change (entries_ (er_st (er_dir first))) with er_mem. rewrite seg_take by lia. replace (S (Z.to_nat i)) with (Z.to_nat (i + 1)) by lia.
  rewrite seg_drop by lia. replace (d_n dd - 1) with (i + (d_n dd - (i + 1))) by lia. rewrite mseg_app by lia. f_equal; apply mseg_ext; intros k Hk.
  - rewrite er_get. by rewrite decide_False by lia.
  - rewrite <- Z.add_assoc, er_get, decide_True by lia. f_equal. lia.
Qed.
Lemma er_same : same_but (d_blk dd) (entries_ st) er_mem.
Proof.
  intros blk k Hne Hk. pose proof (size_at st d dd Hok Hd). replace (addr blk k) with (addr (d_blk dd) 0 + (addr blk k - addr (d_blk dd) 0)) by lia. rewrite er_get. by rewrite decide_False by (unfold addr, kBlock in *; lia).
Qed.
Lemma er_one_block first : (1 < d_n dd -> first = en_rank (mget er_mem (addr (d_blk dd) 0))) -> one_block st (er_st (er_dir first)) d dd (er_dir first).
Proof. intros Hf. pose proof (size_at st d dd Hok Hd). constructor; try done; [cbn; lia | cbn [er_dir d_n d_first]; intros Hp; apply Hf; lia | apply er_same]. Qed.
Lemma er_levels first : (1 < d_n dd -> first = en_rank (mget er_mem (addr (d_blk dd) 0))) -> levels (er_st (er_dir first)) = before st d (Z.to_nat i) ++ after st d (S (Z.to_nat i)).
Proof.
  intros Hf. rewrite (levels_update _ _ _ _ _ (store_ok_wf st Hok) (er_one_block first Hf)). rewrite er_block. unfold before, after. rewrite Hd. cbn [from_option]. by rewrite <- !app_assoc.
Qed.
(** What removing the level leaves. *)
Lemma er_facts st' : levels st' = before st d (Z.to_nat i) ++ after st d (S (Z.to_nat i)) -> n_ st' = n_ st - 1 -> cap_ st' = cap_ st ->
  StronglySorted Z.lt (ranks (levels st')) /\ n_ st' = Z.of_nat (length (levels st')) /\ n_ st' <= cap_ st'.
Proof.
  intros -> -> ->. pose proof (so_sorted st Hok) as Hs. pose proof (so_n st Hok) as Hn. pose proof (so_cap st Hok). rewrite (levels_entry st d dd i Hd Hi) in Hs, Hn.
  apply sorted_split in Hs as (S1 & S2 & S3). apply StronglySorted_inv in S2 as [S2 _]. rewrite length_app in Hn. cbn [length] in Hn. split; [|rewrite length_app; lia].
  apply sorted_split. split; [done|]. split; [done|]. intros x y Hx Hy. apply S3; [done | by constructor].
Qed.
Lemma er_eq : (set_dir (Z.of_nat d) (fun x => x <| d_n ::= fun n => n - 1 |>)
    (if negb (i + 1 =? d_n dd) then st <| entries_ ::= move (addr (d_blk dd) 0 + i) (addr (d_blk dd) 0 + i + 1) (d_n dd - i - 1) |> else st)) <| n_ ::= fun n => n - 1 |> = er_st (er_dir (d_first dd)).
Proof.
  unfold set_dir, er_st, er_mem. rewrite Nat2Z.id.
  transitivity (mkStore (cap_ st) (nblocks_ st) (n_ st - 1) (alter (fun x => x <| d_n ::= fun n => n - 1 |>) d (dir_ st)) er_mem (dir_of_ st) (free_ st)); [unfold er_mem; by destruct (negb _)|].
  by rewrite (dir_alter_insert _ d dd _ Hd).
Qed.
Lemma er_dir_at first : dir_ (er_st (er_dir first)) !! d = Some (er_dir first).
Proof. cbn. apply list_lookup_insert_eq. by apply lookup_lt_Some in Hd. Qed.
Lemma er_set first r : set_dir (Z.of_nat d) (fun x => x <| d_first := r |>) (er_st (er_dir first)) = er_st (er_dir r).
Proof.
  unfold set_dir. rewrite Nat2Z.id. transitivity ((er_st (er_dir first)) <| dir_ := alter (fun x => x <| d_first := r |>) d (dir_ (er_st (er_dir first))) |>); [done|].
  rewrite (dir_alter_insert _ d _ _ (er_dir_at first)). cbn [er_st]. unfold er_st. cbn -[insert]. by rewrite list_insert_insert_eq.
Qed.
Lemma er_empty : d_n dd = 1 -> length (dir_ st) = 1%nat -> store_ok (er_st (er_dir i64_min)).
Proof.
  intros Hn1 Hl. assert (Hf : 1 < d_n dd -> i64_min = en_rank (mget er_mem (addr (d_blk dd) 0))) by lia. destruct (er_facts (er_st (er_dir i64_min))) as (F1 & F2 & F3); [by apply er_levels | done | done|].
  apply store_wf_ok; [by eapply one_block_wf, er_one_block; [apply store_ok_wf|] | done | done | done | right]. exists (er_dir i64_min).
  split; [|split; [cbn; lia | done]]. cbn. destruct (dir_ st) as [|x [|]] eqn:E; [done | | done]. destruct d; [done | by apply lookup_lt_Some in Hd; cbn in Hd; lia].
Qed.
Lemma er_drop first : d_n dd = 1 -> (1 < length (dir_ st))%nat -> let st' := drop_ (Z.of_nat d) (er_st (er_dir first)) in
  store_ok st' /\ levels st' = before st d (Z.to_nat i) ++ after st d (S (Z.to_nat i)) /\ cap_ st' = cap_ st.
Proof.
  intros Hn1 Hl st'. assert (Hf : 1 < d_n dd -> first = en_rank (mget er_mem (addr (d_blk dd) 0))) by lia. pose proof (er_one_block first Hf) as Hob.
  destruct (drop_spec (er_st (er_dir first)) d (er_dir first)) as (W & L & D & N & C); [by eapply one_block_wf; [apply store_ok_wf|] | apply er_dir_at|].
  pose proof (er_levels first Hf) as Hlev. rewrite (levels_at _ d _ (er_dir_at first)) in Hlev. unfold block at 2 in Hlev. cbn [er_dir d_n d_blk] in Hlev. rewrite Hn1 in Hlev. change (seg ?m ?b (1 - 1)) with (@nil Entry) in Hlev. cbn [app] in Hlev.
  fold st' in W, L, D, N, C. rewrite Hlev in L. destruct (er_facts st' L) as (F1 & F2 & F3); [done | done|]. split; [|done]. apply store_wf_ok; [done | done | done | done | left].
  rewrite D. destruct (so_used st Hok) as [Hu|(d0 & Hd0 & _)]; [|rewrite Hd0 in Hl; cbn in Hl; lia]. cbn [er_st]. change (dir_ (er_st (er_dir first))) with (<[d := er_dir first]> (dir_ st)).
  rewrite take_insert_ge, drop_insert_lt by lia. apply Forall_app. split; [by apply Forall_take | by apply Forall_drop].
Qed.
Lemma er_keep first : 1 < d_n dd -> first = en_rank (mget er_mem (addr (d_blk dd) 0)) -> store_ok (er_st (er_dir first)).
Proof.
  intros Hp Hf. destruct (er_facts (er_st (er_dir first))) as (F1 & F2 & F3); [by apply er_levels | done | done|].
  apply (one_block_ok st _ d dd (er_dir first)); [done | by apply er_one_block | cbn; lia | done | done | done].
Qed.
Lemma erase_spec : let st' := erase (addr (d_blk dd) i) st in
  store_ok st' /\ levels st' = before st d (Z.to_nat i) ++ after st d (S (Z.to_nat i)) /\ cap_ st' = cap_ st.
Proof.
  cbv zeta. pose proof (size_at st d dd Hok Hd) as Hsz. pose proof (lookup_lt_Some _ _ _ Hd) as Hlt. unfold erase.
  assert (addr (d_blk dd) i / kBlock = d_blk dd) as -> by (unfold addr, kBlock in *; rewrite Z.div_add_l, Z.div_small by lia; lia).
  assert (addr (d_blk dd) i mod kBlock = i) as -> by (unfold addr, kBlock in *; rewrite Z.add_comm, Z.mod_add, Z.mod_small by lia; lia).
  rewrite (so_dir_of st Hok d dd Hd). cbn [default from_option id]. rewrite (dir_at_lookup st d dd Hd). cbv zeta. rewrite er_eq, !(dir_at_lookup _ d _ (er_dir_at _)). cbn [er_dir d_n].
  assert (Hnd : forall f, nd_ (er_st (er_dir f)) = nd_ st) by (intros f; unfold nd_; cbn; by rewrite length_insert).
  destruct (Z.eqb_spec (d_n dd - 1) 0) as [E0|E0].
  { rewrite Hnd. unfold nd_. destruct (Z.eqb_spec (Z.of_nat (length (dir_ st))) 1) as [E1|E1]; [|apply er_drop; lia].
    rewrite er_set. split; [apply er_empty; lia|]. split; [apply er_levels; lia | done]. }
  set (first := en_rank (mget er_mem (addr (d_blk dd) 0))).
  assert ((if i =? 0 then set_dir (Z.of_nat d) (fun x => x <| d_first := en_rank (ent (er_st (er_dir (d_first dd))) (addr (d_blk dd) 0)) |>) (er_st (er_dir (d_first dd))) else er_st (er_dir (d_first dd))) = er_st (er_dir first)) as ->.
  { destruct (Z.eqb_spec i 0) as [Ei|Ei]; [by rewrite er_set|]. do 2 f_equal. unfold first. rewrite (block_first st d dd Hok Hd) by lia. rewrite <- (Z.add_0_r (addr (d_blk dd) 0)), er_get. by rewrite decide_False by lia. }
  assert (Hk : store_ok (er_st (er_dir first))) by (apply er_keep; [lia | done]). assert (Hl : levels (er_st (er_dir first)) = before st d (Z.to_nat i) ++ after st d (S (Z.to_nat i))) by (by apply er_levels).
  destruct (_ && _) eqn:Em; [|done]. apply andb_prop in Em as [Em1 Em2]. rewrite Hnd in Em1. unfold nd_ in Em1. rewrite Z.add_1_r, <- Nat2Z.inj_succ in Em1, Em2.
  destruct (lookup_lt_is_Some_2 (dir_ (er_st (er_dir first))) (S d)) as [b Hb]; [cbn; rewrite length_insert; lia|]. rewrite (dir_at_lookup _ _ _ (er_dir_at first)), (dir_at_lookup _ _ _ Hb) in Em2.
  assert (0 < d_n b). { destruct (so_used _ Hk) as [Hu|(d0 & Hd0 & _)]; [exact (proj1 (Forall_lookup _ _) Hu (S d) b Hb) | by rewrite Hd0 in Hb]. }
  destruct (merge_spec (er_st (er_dir first)) d (er_dir first) b) as (M1 & M2 & M3); [done | apply er_dir_at | done | cbn; lia | done | change (kBlock / 2) with 32 in Em2; unfold kBlock; lia|].
  rewrite M2. done.
Qed.
End Erase.
