(* ===== verification/L3StorePack.v ===== *)
(** * L3StorePack: packing an overflow store into full blocks

    [pack_spec]: in place, the levels stay the same and a block becomes free. *)

From Stdlib Require Import Sorted.
From S2P Require Import Prelude Types FixedPoint L3Store L3StoreInv L3StoreOps.
Implicit Type st : L3LevelStore.

Lemma store_eta st : st = st <| entries_ := entries_ st |> <| dir_ := dir_ st |>.
Proof. by destruct st. Qed.

Section Pack.
Context (st : L3LevelStore) (Hok : store_ok st).

(** The [k]-th block in directory order; the slots of the blocks, in one line. *)
Definition blk_of (k : Z) : Z := d_blk (dir_at st k).
Definition slot (x : Z) : Z := addr (blk_of (x / 64)) (x mod 64).
Definition at_slot (m : gmap Z Entry) (x : Z) : Entry := mget m (slot x).

Lemma blk_of_inj j k : 0 <= j < nd_ st -> 0 <= k < nd_ st -> blk_of j = blk_of k -> j = k.
Proof.
  unfold nd_. intros Hj Hk E. destruct (lookup_lt_is_Some_2 (dir_ st) (Z.to_nat j)) as [dj Ej]; [lia|]. destruct (lookup_lt_is_Some_2 (dir_ st) (Z.to_nat k)) as [dk Ek]; [lia|].
  unfold blk_of, dir_at in E. rewrite Ej, Ek in E. pose proof (dir_blk_inj st _ _ _ _ (dir_nodup st Hok) Ej Ek E). lia.
Qed.
Lemma slot_at k i : 0 <= i < 64 -> slot (64 * k + i) = addr (blk_of k) i.
Proof. intros Hi. unfold slot. f_equal; [f_equal|]; rewrite (Z.mul_comm 64); [rewrite Z.div_add_l, Z.div_small by lia; lia | rewrite Z.add_comm, Z.mod_add, Z.mod_small by lia; lia]. Qed.
(** A run of slots inside one block. *)
Lemma slot_move d i d' i' k m x : 0 <= d < nd_ st -> 0 <= i -> 0 <= i' -> i + k <= 64 -> i' + k <= 64 -> 0 < k -> 0 <= x < 64 * nd_ st ->
  at_slot (move (addr (blk_of d) i) (addr (blk_of d') i') k m) x =
  if decide (64 * d + i <= x < 64 * d + i + k) then at_slot m (x - (64 * d + i) + (64 * d' + i')) else at_slot m x.
Proof.
  intros Hd Hi Hi' Hik Hik' Hk Hx. unfold at_slot. rewrite mget_move. pose proof (Z.div_mod x 64 ltac:(lia)) as E. pose proof (Z.mod_pos_bound x 64 ltac:(lia)) as Hm.
  set (q := x / 64) in *. set (r := x mod 64) in *. assert (Hs : slot x = addr (blk_of q) r) by done. clearbody q r. assert (Hq : 0 <= q < nd_ st) by lia.
  destruct (decide (64 * d + i <= x < 64 * d + i + k)) as [H|H].
  - assert (q = d) as -> by lia. rewrite Hs, decide_True by (unfold addr; lia). f_equal.
    replace (x - (64 * d + i) + (64 * d' + i')) with (64 * d' + (r - i + i')) by lia. rewrite slot_at by lia. unfold addr. lia.
  - rewrite decide_False; [done|]. rewrite Hs. intros Hin. destruct (decide (q = d)) as [Eq|Nq].
    + apply H. rewrite Eq in Hin. unfold addr in Hin. lia.
    + assert (blk_of d <> blk_of q) as Hb by (intros Eb; apply Nq; symmetry; by apply blk_of_inj). revert Hin. apply addr_other; unfold kBlock; done || lia.
Qed.
Lemma slot_seg m k i n : 0 <= i -> 0 <= n -> i + n <= 64 -> seg m (addr (blk_of k) 0 + i) n = (fun j => at_slot m (64 * k + i + j)) <$> seqZ 0 n.
Proof.
  intros Hi Hn Hin. unfold seg. apply list_fmap_ext. intros j x Hx. apply lookup_seqZ in Hx as [-> Hx]. unfold at_slot. f_equal. replace (64 * k + i + (0 + Z.of_nat j)) with (64 * k + (i + Z.of_nat j)) by lia. rewrite slot_at by lia. unfold addr. lia.
Qed.

(** The loops have written [out] and read up to index [i] of block [d]. *)
Record packing (d i : Z) (out : list Entry) (p : Packing) : Prop := {
  pi_same : exists m l, pk_st p = st <| entries_ := m |> <| dir_ := l |>;
  pi_pos : 64 * pk_od p + pk_oi p = Z.of_nat (length out) /\ 0 <= pk_od p /\ 0 <= pk_oi p <= 64 /\ Z.of_nat (length out) <= 64 * d + i;
  pi_out : forall j e, out !! j = Some e -> at_slot (entries_ (pk_st p)) (Z.of_nat j) = e;
  pi_rest : forall x, 64 * d + i <= x < 64 * nd_ st -> at_slot (entries_ (pk_st p)) x = at_slot (entries_ st) x;
  pi_len : length (dir_ (pk_st p)) = length (dir_ st);
  pi_full : forall k, (Z.of_nat k < pk_od p) -> exists e, out !! (64 * k)%nat = Some e /\ dir_ (pk_st p) !! k = Some (mkDir (en_rank e) (blk_of (Z.of_nat k)) 64);
  pi_todo : forall k, (pk_od p <= Z.of_nat k) -> dir_ (pk_st p) !! k = dir_ st !! k;
}.
Lemma pack_write d i k out p : packing d i out p -> 0 <= d < nd_ st -> 0 <= i -> i + k <= 64 -> 0 < k -> pk_oi p + k <= 64 ->
  packing d (i + k) (out ++ seg (entries_ st) (addr (blk_of d) 0 + i) k)
    (mkPacking ((pk_st p) <| entries_ ::= move (addr (d_blk (dir_at (pk_st p) (pk_od p))) (pk_oi p)) (addr (blk_of d) 0 + i) k |>) (pk_od p) (pk_oi p + k)).
Proof.
  intros [(m & l & Hst) (P1 & P2 & P3 & P4) Ho Hr Hl Hf Ht] Hd Hi Hik Hk Hoi.
  set (od := pk_od p) in *. set (oi := pk_oi p) in *. assert (Hod : od < nd_ st) by lia.
  assert (Hb : d_blk (dir_at (pk_st p) od) = blk_of od). { unfold blk_of, dir_at. rewrite Ht; [done | lia]. }
  rewrite Hb. replace (addr (blk_of d) 0 + i) with (addr (blk_of d) i) by (unfold addr; lia).
  set (m' := move (addr (blk_of od) oi) (addr (blk_of d) i) k (entries_ (pk_st p))).
  assert (Hslots : forall x, 0 <= x < 64 * nd_ st -> at_slot m' x = if decide (64 * od + oi <= x < 64 * od + oi + k) then at_slot (entries_ (pk_st p)) (x - (64 * od + oi) + (64 * d + i)) else at_slot (entries_ (pk_st p)) x).
  { intros x Hx. apply slot_move; lia. }
  assert (Hseg : seg (entries_ st) (addr (blk_of d) i) k = (fun j => at_slot (entries_ st) (64 * d + i + j)) <$> seqZ 0 k).
  { replace (addr (blk_of d) i) with (addr (blk_of d) 0 + i) by (unfold addr; lia). apply slot_seg; lia. }
  rewrite Hseg. constructor; cbn [pk_st pk_od pk_oi].
  - exists m', l. unfold m'. rewrite Hst. done.
  - rewrite length_app, length_fmap, length_seqZ. lia.
  - intros j e Hj. change (at_slot m' (Z.of_nat j) = e). apply lookup_app_Some in Hj as [Hj|[Hge Hj]].
    + pose proof (lookup_lt_Some _ _ _ Hj). rewrite Hslots, decide_False by lia. by apply Ho.
    + apply list_lookup_fmap_Some in Hj as (y & -> & Hy). apply lookup_seqZ in Hy as [-> Hy]. rewrite Hslots by lia. rewrite decide_True by lia. rewrite Hr by lia. f_equal. lia.
  - intros x Hx. change (at_slot m' x = at_slot (entries_ st) x). rewrite Hslots, decide_False by lia. apply Hr. lia.
  - done.
  - intros j Hj. destruct (Hf j Hj) as (e & He & Hdj). exists e. split; [by apply lookup_app_l_Some | done].
  - done.
Qed.
Lemma pack_close_step d i out p n : packing d i out p -> pk_od p < nd_ st -> 0 < n -> pk_oi p = n -> 
  let p' := pack_close p n in
  dir_ (pk_st p') = <[Z.to_nat (pk_od p) := mkDir (en_rank (at_slot (entries_ (pk_st p)) (64 * pk_od p))) (blk_of (pk_od p)) n]> (dir_ (pk_st p)) /\
  (exists l, pk_st p' = (pk_st p) <| dir_ := l |>) /\ pk_od p' = pk_od p + 1 /\ pk_oi p' = 0.
Proof.
  intros [(m & l & Hst) (P1 & P2 & P3 & P4) Ho Hr Hl Hf Ht] Hlt Hn Hoi. unfold nd_ in Hlt. cbv zeta. unfold pack_close. cbn [pk_st pk_od pk_oi].
  destruct (lookup_lt_is_Some_2 (dir_ st) (Z.to_nat (pk_od p))) as [dd Hdd]; [lia|]. assert (Hdd' : dir_ (pk_st p) !! Z.to_nat (pk_od p) = Some dd) by (rewrite Ht; [done | lia]).
  split; [|split; [by eexists | done]]. unfold set_dir. change (dir_ (?s <| dir_ ::= ?f |>)) with (f (dir_ s)). rewrite (dir_alter_insert _ _ dd _ Hdd'). f_equal. cbn -[addr].
  unfold blk_of, dir_at. rewrite Hdd. cbn [default from_option id]. f_equal. unfold at_slot. rewrite ent_mget. do 2 f_equal. rewrite <- (Z.add_0_r (64 * pk_od p)), slot_at by lia. unfold blk_of, dir_at. by rewrite Hdd.
Qed.
Lemma pack_part_step d i k out p : packing d i out p -> 0 <= d < nd_ st -> 0 <= i -> i + k <= 64 -> 0 < k -> pk_oi p + k <= 64 ->
  let p' := pack_part (addr (blk_of d) 0) i k p in
  packing d (i + k) (out ++ seg (entries_ st) (addr (blk_of d) 0 + i) k) p' /\ pk_oi p' = (if pk_oi p + k =? 64 then 0 else pk_oi p + k).
Proof.
  intros Hp Hd Hi Hik Hk Hoi. unfold pack_part. cbv zeta. pose proof (pack_write d i k out p Hp Hd Hi Hik Hk Hoi) as Hw.
  set (out' := out ++ _) in *. set (q := mkPacking _ _ _) in *. cbn [pk_oi]. change (pk_oi q) with (pk_oi p + k). change (_ =? kBlock) with (pk_oi p + k =? 64). destruct (Z.eqb_spec (pk_oi p + k) 64) as [E|E]; [|done].
  assert (Hlt : pk_od q < nd_ st) by (pose proof (pi_pos _ _ _ _ Hp); cbn; lia).
  destruct (pack_close_step d (i + k) out' q kBlock Hw Hlt ltac:(done) E) as (C1 & (l' & C2) & C3 & C4). split; [|done].
  destruct Hw as [(m & l & Hst) (P1 & P2 & P3 & P4) Ho Hr Hl Hf Ht]. change (pk_oi q) with (pk_oi p + k) in P1, P3. constructor.
  - rewrite C2, Hst. by eexists _, _.
  - rewrite C3, C4. lia.
  - rewrite C2. done.
  - rewrite C2. done.
  - rewrite C1, length_insert. done.
  - intros j Hj. rewrite C1. rewrite C3 in Hj. destruct (decide (j = Z.to_nat (pk_od q))) as [-> |Hne].
    + destruct (lookup_lt_is_Some_2 out' (64 * Z.to_nat (pk_od q))) as [e He]; [lia|]. exists e. split; [done|]. rewrite list_lookup_insert_eq by (unfold nd_ in Hlt; lia). rewrite Z2Nat.id by lia.
      pose proof (Ho _ _ He) as He'. replace (64 * pk_od q) with (Z.of_nat (64 * Z.to_nat (pk_od q))) by lia. by rewrite He'.
    + rewrite list_lookup_insert_ne by done. apply Hf. lia.
  - intros j Hj. rewrite C3 in Hj. rewrite C1, list_lookup_insert_ne by lia. apply Ht. lia.
Qed.
Lemma pack_block_done f src n p : pack_block f src n n p = p.
Proof. destruct f; cbn [pack_block]; [done|]. by rewrite Z.ltb_irrefl. Qed.
Lemma pack_block_S f src n i p : i < n -> pack_block (S f) src n i p = let k := Z.min (n - i) (kBlock - pk_oi p) in pack_block f src n (i + k) (pack_part src i k p).
Proof. intros Hi. cbn [pack_block]. by rewrite (proj2 (Z.ltb_lt i n) Hi). Qed.
Lemma pack_block_step d dd out p : packing (Z.of_nat d) 0 out p -> pk_oi p < 64 -> dir_ st !! d = Some dd ->
  let p' := pack_block 3 (addr (blk_of (Z.of_nat d)) 0) (d_n dd) 0 p in packing (Z.of_nat d) (d_n dd) (out ++ block st dd) p' /\ pk_oi p' < 64.
Proof.
  intros Hp Hoi Hd. pose proof (size_at st d dd Hok Hd) as Hsz. unfold kBlock in Hsz. set (src := addr (blk_of (Z.of_nat d)) 0). set (n := d_n dd) in *.
  assert (Hnd : 0 <= Z.of_nat d < nd_ st) by (apply lookup_lt_Some in Hd; unfold nd_; lia).
  assert (Hblk : block st dd = seg (entries_ st) src n). { unfold block, src, blk_of. by rewrite (dir_at_lookup st d dd Hd). }
  pose proof (pi_pos _ _ _ _ Hp) as (_ & _ & Hoi0 & _). cbv zeta. rewrite Hblk. destruct (decide (n = 0)) as [E0|E0]; [rewrite E0, pack_block_done, app_nil_r; done|].
  rewrite pack_block_S by lia. cbv zeta. set (k := Z.min (n - 0) (kBlock - pk_oi p)). assert (Hk : k = Z.min n (64 - pk_oi p)) by (unfold k, kBlock; lia).
  destruct (pack_part_step (Z.of_nat d) 0 k out p Hp Hnd) as [Hp1 Ho1]; [lia | lia | lia | lia|]. fold src in Hp1, Ho1. set (p1 := pack_part src 0 k p) in *. rewrite !Z.add_0_r in Hp1. rewrite Z.add_0_l in *.
  destruct (decide (k = n)) as [En|En]; [rewrite En in *; rewrite pack_block_done; split; [done|]; rewrite Ho1; case_match; lia|].
  rewrite pack_block_S by lia. cbv zeta. assert (Hz : pk_oi p1 = 0) by (rewrite Ho1; rewrite (proj2 (Z.eqb_eq _ _)); lia).
  set (k2 := Z.min (n - k) (kBlock - pk_oi p1)). assert (Hk2 : k2 = n - k) by (unfold k2, kBlock; lia).
  destruct (pack_part_step (Z.of_nat d) k k2 _ p1 Hp1 Hnd) as [Hp2 Ho2]; [lia | lia | lia | lia|]. fold src in Hp2, Ho2. rewrite Hz in Ho2.
  replace (k + k2) with n in Hp2 |- * by lia. rewrite pack_block_done. rewrite <- app_assoc, Hk2, <- (mseg_app (entries_ st) src k (n - k)) in Hp2 by lia.
  replace (k + (n - k)) with n in Hp2 by lia. rewrite Hk2. rewrite Hk2 in Ho2. split; [done|]. rewrite Ho2. case_match; lia.
Qed.
Lemma packing_next d n out p : packing (Z.of_nat d) n out p -> n <= 64 -> packing (Z.of_nat (S d)) 0 out p.
Proof. intros [A1 A2 A3 A4 A5 A6 A7] Hn. constructor; try done; [lia | intros x Hx; apply A4; lia]. Qed.
Definition pack_loop (c : nat) : Packing :=
  fold_left (fun p d => let inn := dir_at (pk_st p) d in pack_block 3 (addr (d_blk inn) 0) (d_n inn) 0 p) (seqZ 0 (Z.of_nat c)) (mkPacking st 0 0).
Lemma pack_loop_spec c : (c <= length (dir_ st))%nat -> packing (Z.of_nat c) 0 (concat (block st <$> take c (dir_ st))) (pack_loop c) /\ pk_oi (pack_loop c) < 64.
Proof.
  induction c as [|c IH]; intros Hc.
  { change (pack_loop 0) with (mkPacking st 0 0). rewrite take_0. change (concat (block st <$> [])) with (@nil Entry). cbn [pk_oi]. split; [|lia]. constructor; cbn [pk_st pk_od pk_oi length]; [exists (entries_ st), (dir_ st); apply store_eta | lia | intros j e Hj; by rewrite lookup_nil in Hj | done | done | intros k Hk; lia | done]. }
  destruct (IH ltac:(lia)) as [Hp Ho]. destruct (lookup_lt_is_Some_2 (dir_ st) c) as [dd Hd]; [lia|].
  assert (E : pack_loop (S c) = pack_block 3 (addr (blk_of (Z.of_nat c)) 0) (d_n dd) 0 (pack_loop c)).
  { unfold pack_loop. rewrite seqZ_S, fold_left_app. fold (pack_loop c). cbn [fold_left]. cbv zeta. rewrite Z.add_0_l.
    assert (dir_at (pk_st (pack_loop c)) (Z.of_nat c) = dd) as -> by (apply dir_at_lookup; rewrite (pi_todo _ _ _ _ Hp); [done|]; pose proof (pi_pos _ _ _ _ Hp); lia).
    unfold blk_of. by rewrite (dir_at_lookup st c dd Hd). }
  rewrite E. destruct (pack_block_step c dd _ _ Hp Ho Hd) as [Hp' Ho']. split; [|done]. pose proof (size_at st c dd Hok Hd).
  rewrite (take_S_r _ _ _ Hd), fmap_app, concat_app. cbn [fmap list_fmap concat]. rewrite app_nil_r. eapply packing_next; [done | unfold kBlock in *; lia].
Qed.

(** What the loops leave, once the last block is closed. *)
Record packed (m : gmap Z Entry) (l : list Dir) (od : nat) : Prop := {
  pd_eq : pack st = st <| entries_ := m |> <| dir_ := take od l |> <| free_ := reverse (d_blk <$> drop od l) ++ free_ st |>;
  pd_out : forall j e, levels st !! j = Some e -> at_slot m (Z.of_nat j) = e;
  pd_od : (od <= length (dir_ st))%nat /\ (length (levels st) <= 64 * od)%nat /\ (64 * od < length (levels st) + 64)%nat;
  pd_len : length l = length (dir_ st);
  pd_full : forall k, (k < od)%nat -> exists e, levels st !! (64 * k)%nat = Some e /\
    l !! k = Some (mkDir (en_rank e) (blk_of (Z.of_nat k)) (Z.min 64 (Z.of_nat (length (levels st)) - 64 * Z.of_nat k)));
  pd_todo : forall k, (od <= k)%nat -> l !! k = dir_ st !! k;
}.
Lemma pack_packed : exists m l od, packed m l od.
Proof.
  destruct (pack_loop_spec (length (dir_ st)) ltac:(lia)) as [Hp Ho]. rewrite firstn_all in Hp. fold (levels st) in Hp. set (p := pack_loop (length (dir_ st))) in *.
  assert (Hpack : pack st = let p := if negb (pk_oi p =? 0) then pack_close p (pk_oi p) else p in
    (pk_st p) <| free_ ::= fun l => reverse (d_blk <$> drop (Z.to_nat (pk_od p)) (dir_ (pk_st p))) ++ l |> <| dir_ ::= take (Z.to_nat (pk_od p)) |>) by done.
  pose proof Hp as [(m & l & Hst) (P1 & P2 & P3 & P4) Hout _ Hl Hf Ht]. destruct (Z.eqb_spec (pk_oi p) 0) as [E|E]; cbn [negb] in Hpack; cbv zeta in Hpack.
  - exists m, l, (Z.to_nat (pk_od p)). rewrite Hst in Hout, Hl, Hf, Ht, Hpack. change (dir_ (st <| entries_ := m |> <| dir_ := l |>)) with l in *. change (entries_ (st <| entries_ := m |> <| dir_ := l |>)) with m in *.
    constructor; [done | done | lia | done | | intros k Hk; apply Ht; lia].
    intros k Hk. destruct (Hf k ltac:(lia)) as (e & He & Hdk). exists e. split; [done|]. rewrite Hdk. do 2 f_equal. lia.
  - assert (Hod : pk_od p < nd_ st) by (unfold nd_; lia). destruct (pack_close_step _ _ _ _ (pk_oi p) Hp Hod ltac:(lia) eq_refl) as (C1 & (l' & C2) & C3 & C4).
    set (p' := pack_close p (pk_oi p)) in *. exists m, l', (Z.to_nat (pk_od p')). rewrite C2, Hst in Hpack. rewrite C2, Hst in C1. rewrite Hst in Hout, Hl, Hf, Ht.
    change (dir_ (st <| entries_ := m |> <| dir_ := l |>)) with l in *. change (entries_ (st <| entries_ := m |> <| dir_ := l |>)) with m in *. change (dir_ (st <| entries_ := m |> <| dir_ := l |> <| dir_ := l' |>)) with l' in *.
    rewrite C3. constructor; [by rewrite <- C3 | done | unfold nd_ in *; lia | rewrite C1, length_insert; done | | intros k Hk; rewrite C1, list_lookup_insert_ne by lia; apply Ht; lia].
    intros k Hk. destruct (decide (k = Z.to_nat (pk_od p))) as [-> |Hne].
    + destruct (lookup_lt_is_Some_2 (levels st) (64 * Z.to_nat (pk_od p))) as [e He]; [lia|]. exists e. split; [done|]. rewrite C1, list_lookup_insert_eq by (unfold nd_ in *; lia).
      pose proof (Hout _ _ He) as He'. replace (64 * pk_od p) with (Z.of_nat (64 * Z.to_nat (pk_od p))) by lia. rewrite He', Z2Nat.id by lia. do 2 f_equal. lia.
    + destruct (Hf k ltac:(lia)) as (e & He & Hdk). exists e. split; [done|]. rewrite C1, list_lookup_insert_ne by done. rewrite Hdk. do 2 f_equal. lia.
Qed.
Lemma packed_blks m l od : packed m l od -> d_blk <$> l = d_blk <$> dir_ st.
Proof.
  intros Hp. apply list_eq. intros k. rewrite !list_lookup_fmap. destruct (decide (k < od)%nat) as [Hk|Hk]; [|by rewrite (pd_todo _ _ _ Hp) by lia].
  destruct (pd_full _ _ _ Hp k Hk) as (e & _ & ->). pose proof (pd_od _ _ _ Hp). destruct (lookup_lt_is_Some_2 (dir_ st) k) as [dd Hd]; [lia|]. rewrite Hd. cbn. unfold blk_of. by rewrite (dir_at_lookup st k dd Hd).
Qed.
Lemma packed_block m l od k dd : packed m l od -> (k < od)%nat -> l !! k = Some dd -> block (pack st) dd = take 64 (drop (64 * k) (levels st)) /\ 0 < d_n dd <= 64 /\ d_first dd = en_rank (mget m (addr (d_blk dd) 0)).
Proof.
  intros Hp Hk Hdd. destruct (pd_full _ _ _ Hp k Hk) as (e & He & Hd). rewrite Hd in Hdd. apply (inj Some) in Hdd as <-. apply lookup_lt_Some in He as Hlt. cbn [d_n d_blk d_first].
  split; [|split; [lia|]].
  - unfold block. cbn [d_n d_blk]. rewrite (pd_eq _ _ _ Hp). cbn [entries_]. change (entries_ _) with m. rewrite <- (Z.add_0_r (addr _ 0)), slot_seg by lia. apply list_eq. intros j. rewrite list_lookup_fmap.
    destruct (decide (j < 64)%nat) as [Hj|Hj]; [|rewrite lookup_take_ge, lookup_seqZ_ge by lia; done]. rewrite lookup_take_lt, lookup_drop by done.
    destruct (levels st !! (64 * k + j)%nat) as [x|] eqn:Ex.
    + apply lookup_lt_Some in Ex as Hx. rewrite lookup_seqZ_lt by lia. cbn [fmap option_fmap option_map]. f_equal. rewrite <- (pd_out _ _ _ Hp _ _ Ex). f_equal. lia.
    + apply lookup_ge_None in Ex. rewrite lookup_seqZ_ge by lia. done.
  - rewrite <- (pd_out _ _ _ Hp _ _ He). unfold at_slot. do 2 f_equal. rewrite <- (slot_at (Z.of_nat k) 0) by lia. f_equal. lia.
Qed.
Lemma packed_levels m l od : packed m l od -> levels (pack st) = levels st.
Proof.
  intros Hp. pose proof (pd_od _ _ _ Hp) as (O1 & O2 & O3). assert (H : forall c, (c <= od)%nat -> concat (block (pack st) <$> take c l) = take (64 * c) (levels st)).
  { induction c as [|c IH]; intros Hc; [by rewrite !take_0|]. destruct (lookup_lt_is_Some_2 l c) as [dd Hd]; [rewrite (pd_len _ _ _ Hp); lia|].
    rewrite (take_S_r _ _ _ Hd), fmap_app, concat_app, IH by lia. cbn [fmap list_fmap concat]. rewrite app_nil_r. destruct (packed_block m l od c dd Hp ltac:(lia) Hd) as [-> _]. rewrite take_take_drop. f_equal. lia. }
  unfold levels at 1. replace (dir_ (pack st)) with (take od l) by (by rewrite (pd_eq _ _ _ Hp)). rewrite H by lia. rewrite take_ge by lia. done.
Qed.
Lemma pack_spec : n_ st < cap_ st -> let st' := pack st in store_ok st' /\ levels st' = levels st /\ n_ st' = n_ st /\ cap_ st' = cap_ st /\ free_ st' <> [].
Proof.
  intros Hroom. cbv zeta. destruct pack_packed as (m & l & od & Hp). pose proof (pd_od _ _ _ Hp) as (O1 & O2 & O3). pose proof (packed_levels m l od Hp) as Hlev. pose proof (pd_eq _ _ _ Hp) as E. pose proof (pd_len _ _ _ Hp) as Hlen.
  assert (Hdir : dir_ (pack st) = take od l) by (by rewrite E). assert (Hfr : free_ (pack st) = reverse (d_blk <$> drop od l) ++ free_ st) by (by rewrite E).
  assert (Hn : n_ (pack st) = n_ st) by (by rewrite E). assert (Hcap : cap_ (pack st) = cap_ st) by (by rewrite E). assert (Hnb : nblocks_ (pack st) = nblocks_ st) by (by rewrite E).
  assert (Hblocks : (d_blk <$> dir_ (pack st)) ++ free_ (pack st) ≡ₚ seqZ 0 (nblocks_ st)).
  { rewrite Hdir, Hfr, app_assoc, (reverse_Permutation (d_blk <$> drop od l)), <- fmap_app, take_drop, (packed_blks m l od Hp). apply (so_blocks st Hok). }
  assert (Hall : forall k x, dir_ (pack st) !! k = Some x -> (k < od)%nat /\ l !! k = Some x) by (intros k x Hk; rewrite Hdir in Hk; by apply lookup_take_Some in Hk as [? ?]).
  split; [|split; [done | split; [done | split; [done|]]]].
  - constructor.
    + rewrite Hlev. apply (so_sorted st Hok).
    + rewrite Hlev, Hn. apply (so_n st Hok).
    + rewrite Hn, Hcap. apply (so_cap st Hok).
    + rewrite Hnb, Hcap. apply (so_nblocks st Hok).
    + apply Forall_lookup. intros k x [Hk Hx]%Hall. destruct (packed_block m l od k x Hp Hk Hx) as (_ & ? & _). unfold kBlock. lia.
    + left. apply Forall_lookup. intros k x [Hk Hx]%Hall. by destruct (packed_block m l od k x Hp Hk Hx) as (_ & [? _] & _).
    + apply Forall_lookup. intros k x [Hk Hx]%Hall _. destruct (packed_block m l od k x Hp Hk Hx) as (_ & _ & ->). by rewrite ent_mget, E.
    + by rewrite Hnb.
    + intros k x [Hk Hx]%Hall. replace (dir_of_ (pack st)) with (dir_of_ st) by (by rewrite E). pose proof (packed_blks m l od Hp) as Hb. apply (f_equal (fun l => l !! k)) in Hb. rewrite !list_lookup_fmap, Hx in Hb.
      destruct (dir_ st !! k) as [dd|] eqn:Hd; [|done]. cbn in Hb. apply (inj Some) in Hb. rewrite Hb. by apply (so_dir_of st Hok).
  - intros Ef. apply Permutation_length in Hblocks. rewrite Ef, app_nil_r, length_fmap, length_seqZ, Hdir, length_take in Hblocks. pose proof (so_nblocks st Hok) as Hnb'. pose proof (so_n st Hok). unfold kBlock in Hnb'.
    pose proof (Z.div_mod (cap_ st + 64 - 1) 64 ltac:(lia)). pose proof (Z.mod_pos_bound (cap_ st + 64 - 1) 64 ltac:(lia)). lia.
Qed.
End Pack.
