(* ===== verification/L3StoreProps.v ===== *)
(** * L3StoreProps: the overflow store of the order-by-order book is a bounded ordered map

    The reference is a list of levels of increasing rank: looking a rank up, inserting, writing and removing a level, and the
    visits are filters of it.  Each operation of the store answers what the reference answers and leaves what it leaves. *)

From Stdlib Require Import Sorted.
From S2P Require Import Prelude Types FixedPoint L3Store L3StoreInv L3StoreOps L3StorePack.
Implicit Type st : L3LevelStore.

(** ** The reference *)

Definition ref_below (r : Z) (l : list Entry) : list Entry := filter (fun e => en_rank e < r) l.
Definition ref_above (r : Z) (l : list Entry) : list Entry := filter (fun e => r < en_rank e) l.
Definition ref_find (r : Z) (l : list Entry) : option L3Level := en_lvl <$> head (filter (fun e => en_rank e = r) l).
Definition ref_insert (r : Z) (l : list Entry) : list Entry := ref_below r l ++ new_level r :: ref_above r l.
Definition ref_set (r : Z) (lv : L3Level) (l : list Entry) : list Entry := (fun e => if decide (en_rank e = r) then mkEntry r lv else e) <$> l.
Definition ref_erase (r : Z) (l : list Entry) : list Entry := filter (fun e => en_rank e <> r) l.

Lemma keep_all {A} (P : A -> Prop) `{!forall x, Decision (P x)} (l : list A) : (forall x, x ∈ l -> P x) -> filter P l = l.
Proof. intros Hl. induction l as [|x l IH]; [done|]. rewrite filter_cons_True by (apply Hl; constructor). f_equal. apply IH. intros y Hy. apply Hl. by constructor. Qed.
Lemma keep_none {A} (P : A -> Prop) `{!forall x, Decision (P x)} (l : list A) : (forall x, x ∈ l -> ~ P x) -> filter P l = [].
Proof. intros Hl. induction l as [|x l IH]; [done|]. rewrite filter_cons_False by (apply Hl; constructor). apply IH. intros y Hy. apply Hl. by constructor. Qed.

Lemma ref_find_absent r l : ref_find r l = None -> forall e, e ∈ l -> en_rank e <> r.
Proof.
  unfold ref_find. intros H e He Er. assert (Hin : e ∈ filter (fun e => en_rank e = r) l) by (by apply list_elem_of_filter). destruct (filter _ l); [by apply not_elem_of_nil in Hin | done].
Qed.

(** The reference on a list cut at a rank: absent, then present. *)
Section Cut.
Context (r : Z) (l1 l2 : list Entry).
Context (H1 : forall e, e ∈ l1 -> en_rank e < r) (H2 : forall e, e ∈ l2 -> r < en_rank e).

Lemma cut_below : ref_below r (l1 ++ l2) = l1.
Proof. unfold ref_below. rewrite filter_app, keep_all, keep_none, app_nil_r; [done | intros x Hx; specialize (H2 x Hx); lia | done]. Qed.
Lemma cut_above : ref_above r (l1 ++ l2) = l2.
Proof. unfold ref_above. rewrite filter_app, keep_none, keep_all; [done | done | intros x Hx; specialize (H1 x Hx); lia]. Qed.
Lemma cut_find : ref_find r (l1 ++ l2) = None.
Proof. unfold ref_find. rewrite filter_app, !keep_none; [done | intros x Hx; specialize (H2 x Hx); lia | intros x Hx; specialize (H1 x Hx); lia]. Qed.
Lemma cut_insert : ref_insert r (l1 ++ l2) = l1 ++ new_level r :: l2.
Proof. unfold ref_insert. by rewrite cut_below, cut_above. Qed.

Context (e : Entry) (He : en_rank e = r).
Lemma cut_at_below : ref_below r (l1 ++ e :: l2) = l1.
Proof. unfold ref_below. rewrite filter_app, filter_cons_False by lia. fold (ref_below r l2) (ref_below r l1). pose proof cut_below as E. unfold ref_below in *. by rewrite filter_app in E. Qed.
Lemma cut_at_above : ref_above r (l1 ++ e :: l2) = l2.
Proof. unfold ref_above. rewrite filter_app, filter_cons_False by lia. pose proof cut_above as E. unfold ref_above in *. by rewrite filter_app in E. Qed.
Lemma cut_at_find : ref_find r (l1 ++ e :: l2) = Some (en_lvl e).
Proof. unfold ref_find. rewrite filter_app, keep_none, filter_cons_True; [done | done | intros x Hx; specialize (H1 x Hx); lia]. Qed.
Lemma cut_at_set lv : ref_set r lv (l1 ++ e :: l2) = l1 ++ mkEntry r lv :: l2.
Proof.
  unfold ref_set. rewrite fmap_app, fmap_cons, decide_True by done. assert (H : forall l : list Entry, (forall x, x ∈ l -> en_rank x <> r) -> (fun e => if decide (en_rank e = r) then mkEntry r lv else e) <$> l = l).
  { intros l Hl. rewrite <- (list_fmap_id l) at 2. apply list_fmap_ext. intros i x Hx. rewrite decide_False; [done|]. apply Hl. by eapply list_elem_of_lookup_2. }
  rewrite !H; [done | intros x Hx; specialize (H2 x Hx); lia | intros x Hx; specialize (H1 x Hx); lia].
Qed.
Lemma cut_at_erase : ref_erase r (l1 ++ e :: l2) = l1 ++ l2.
Proof. unfold ref_erase. rewrite filter_app, filter_cons_False, !keep_all; [done | intros x Hx; specialize (H2 x Hx); lia | intros x Hx; specialize (H1 x Hx); lia | by intros []]. Qed.
End Cut.

(** ** Pointers *)

(** [a] points to the level of rank [r]. *)
Definition points st (a r : Z) : Prop := exists d dd i, dir_ st !! d = Some dd /\ 0 <= i < d_n dd /\ a = addr (d_blk dd) i /\ en_rank (ent st a) = r.
Lemma points_cut st a r : store_ok st -> points st a r -> exists d dd i, dir_ st !! d = Some dd /\ 0 <= i < d_n dd /\ a = addr (d_blk dd) i /\
  levels st = before st d (Z.to_nat i) ++ ent st a :: after st d (S (Z.to_nat i)) /\ en_rank (ent st a) = r /\
  (forall e, e ∈ before st d (Z.to_nat i) -> en_rank e < r) /\ (forall e, e ∈ after st d (S (Z.to_nat i)) -> r < en_rank e).
Proof.
  intros Hok (d & dd & i & Hd & Hi & -> & Hr). exists d, dd, i. pose proof (levels_entry st d dd i Hd Hi) as E. pose proof (so_sorted st Hok) as Hs. rewrite E in Hs.
  apply sorted_split in Hs as (_ & S2 & S3). split; [done|]. split; [done|]. split; [done|]. split; [done|]. split; [done|]. split.
  - intros e He. rewrite <- Hr. apply S3; [done | constructor].
  - intros e He. rewrite <- Hr. unfold ranks in S2. rewrite fmap_cons in S2. apply StronglySorted_inv in S2 as [_ S2]. apply (proj1 (Forall_forall _ _) S2). apply list_elem_of_fmap. by exists e.
Qed.
Lemma store_find_spec st r : store_ok st -> i64_min <= r -> match find st r with Some a => points st a r | None => ref_find r (levels st) = None end.
Proof.
  intros Hok Hr. unfold find. destruct (lower_bound_spec st r Hok Hr) as (d & i & -> & Hpos & Hlo & Hhi). unfold nd_.
  destruct Hpos as [[-> ->]|(dd & Hd & Hi)].
  - rewrite Z.eqb_refl. rewrite (levels_split st (length (dir_ st)) 0). apply cut_find; [done|]. intros e He. rewrite after_0, drop_ge in He by lia. by apply not_elem_of_nil in He.
  - pose proof (lookup_lt_Some _ _ _ Hd). destruct (Z.eqb_spec (Z.of_nat d) (Z.of_nat (length (dir_ st)))) as [E|_]; [lia|]. rewrite (dir_at_lookup st d dd Hd). cbv zeta.
    pose proof (levels_entry st d dd (Z.of_nat i) Hd ltac:(lia)) as El. rewrite Nat2Z.id in El. destruct (Z.eqb_spec (en_rank (ent st (addr (d_blk dd) (Z.of_nat i)))) r) as [E|E].
    + exists d, dd, (Z.of_nat i). split; [done|]. split; [lia | done].
    + pose proof (so_sorted st Hok) as Hs. rewrite El in Hs. apply sorted_split in Hs as (_ & S2 & _). unfold ranks in S2. rewrite fmap_cons in S2. apply StronglySorted_inv in S2 as [_ S2].
      assert (Ha : after st d i = ent st (addr (d_blk dd) (Z.of_nat i)) :: after st d (S i)) by (rewrite (levels_split st d i) in El; by apply app_inv_head in El).
      assert (Hge : r <= en_rank (ent st (addr (d_blk dd) (Z.of_nat i)))) by (apply Hhi; rewrite Ha; constructor).
      rewrite (levels_split st d i). apply cut_find; [done|]. rewrite Ha. intros e [->|He]%elem_of_cons; [lia|]. assert (en_rank (ent st (addr (d_blk dd) (Z.of_nat i))) < en_rank e); [|lia].
      apply (proj1 (Forall_forall _ _) S2). apply list_elem_of_fmap. by exists e.
Qed.

(** ** Insertion *)

(** A new level goes where the position says, at the end of the block before if that is as good. *)
Definition adjust st (d i : nat) : nat * nat :=
  match i, d with O, S d' => (d', from_option (fun dd => Z.to_nat (d_n dd)) O (dir_ st !! d')) | _, _ => (d, i) end.
Lemma adjust_eq st d i : pos_ok st d i ->
  (if (Z.of_nat i =? 0) && negb (Z.of_nat d =? 0) then (Z.of_nat d - 1, d_n (dir_at st (Z.of_nat d - 1))) else (Z.of_nat d, Z.of_nat i)) =
  let '(d', i') := adjust st d i in (Z.of_nat d', if decide (i = O /\ d <> O) then d_n (dir_at st (Z.of_nat d')) else Z.of_nat i').
Proof.
  intros Hpos. unfold adjust. destruct i as [|i]; [|cbn; done]. destruct d as [|d]; [by cbn|]. rewrite decide_True by lia. change (Z.of_nat 0 =? 0) with true. cbn [andb].
  destruct (Z.eqb_spec (Z.of_nat (S d)) 0); [lia|]. cbn [negb]. by replace (Z.of_nat (S d) - 1) with (Z.of_nat d) by lia.
Qed.
Lemma adjust_same st d i d' i' : store_ok st -> dir_ st <> [] -> pos_ok st d i -> adjust st d i = (d', i') ->
  exists dd, dir_ st !! d' = Some dd /\ (if decide (i = O /\ d <> O) then d_n (dir_at st (Z.of_nat d')) else Z.of_nat i') = Z.of_nat i' /\ Z.of_nat i' <= d_n dd /\ before st d' i' = before st d i /\ after st d' i' = after st d i.
Proof.
  intros Hok Hne Hpos. unfold adjust. destruct i as [|i]; [destruct d as [|d]|].
  - intros E. injection E as <- <-. rewrite decide_False by lia. destruct (dir_ st) as [|dd l] eqn:Ed; [done|]. exists dd. pose proof (size_at st 0 dd Hok ltac:(by rewrite Ed)). done || (split; [done|]; split; [done|]; split; [lia | done]).
  - rewrite decide_True by lia. assert (Hlt : (d < length (dir_ st))%nat) by (destruct Hpos as [[? _]|(dd & Hd & _)]; [lia | apply lookup_lt_Some in Hd; lia]).
    destruct (lookup_lt_is_Some_2 (dir_ st) d Hlt) as [dd Hd]. rewrite Hd. cbn [from_option]. intros E. injection E as <- <-. pose proof (size_at st d dd Hok Hd) as Hsz.
    exists dd. rewrite (dir_at_lookup st d dd Hd). split; [done|]. split; [lia|]. split; [lia|]. assert (Hl : length (block st dd) = Z.to_nat (d_n dd)) by (unfold block; by rewrite seg_length).
    rewrite after_0. unfold before, after. rewrite Hd. cbn [from_option]. rewrite take_0, app_nil_r, (take_ge (block st dd)), (drop_ge (block st dd)) by lia. split; [|done].
    rewrite (take_S_r _ _ _ Hd), fmap_app, concat_app. cbn. by rewrite app_nil_r.
  - intros E. injection E as <- <-. rewrite decide_False by lia. destruct Hpos as [[_ ?]|(dd & Hd & Hi)]; [done|]. exists dd. split; [done|]. split; [done|]. split; [lia | done].
Qed.

(** What [find_or_insert] promises: the level of that rank, the content with it, or a full store. *)
Record inserted st (r : Z) (res : option Z * L3LevelStore) : Prop := {
  ins_ok : store_ok (snd res);
  ins_cap : cap_ (snd res) = cap_ st;
  ins_levels : levels (snd res) = match ref_find r (levels st) with Some _ => levels st | None => if n_ st =? cap_ st then levels st else ref_insert r (levels st) end;
  ins_ptr : match fst res with
            | Some a => points (snd res) a r
            | None => ref_find r (levels st) = None /\ n_ st = cap_ st
            end;
}.
Lemma put_inserted st0 st d i dd r : store_ok st -> levels st = levels st0 -> cap_ st = cap_ st0 -> n_ st0 < cap_ st0 -> n_ st = n_ st0 -> dir_ st !! d = Some dd -> Z.of_nat i <= d_n dd -> d_n dd < kBlock ->
  (forall e, e ∈ before st d i -> en_rank e < r) -> (forall e, e ∈ after st d i -> r < en_rank e) ->
  inserted st0 r (let '(a, st') := put_new (Z.of_nat d) (Z.of_nat i) r st in (Some a, st')).
Proof.
  intros Hok Hlev Hcap Hroom Hn Hd Hi Hb Hlo Hhi. destruct (put_new (Z.of_nat d) (Z.of_nat i) r st) as [a st'] eqn:E.
  destruct (put_new_spec d dd i r st a st' Hok Hd Hi Hb ltac:(lia) Hlo Hhi E) as (O1 & O2 & O3 & O4 & O5 & dd' & O6 & O7 & O8).
  assert (Hcut : levels st0 = before st d i ++ after st d i) by (by rewrite <- Hlev, <- levels_split). constructor; cbn [fst snd].
  - done.
  - by rewrite O5.
  - rewrite O2, Hcut, cut_find by done. rewrite cut_insert by done. destruct (Z.eqb_spec (n_ st0) (cap_ st0)); [lia | done].
  - exists d, dd', (Z.of_nat i). rewrite O7, O4. split; [done|]. split; [lia | done].
Qed.

(** The rank is absent, and the store not full: the branch that inserts. *)
Definition insert_at (r : Z) st (d i : Z) (again : L3LevelStore -> option Z * L3LevelStore) : option Z * L3LevelStore :=
  if d_n (dir_at st d) =? kBlock then
    match free_ st with
    | [] => again (pack st)
    | _ =>
      let st := split d st in
      let '(d, i) := if kBlock / 2 <? i then (d + 1, i - kBlock / 2) else (d, i) in
      let '(a, st) := put_new d i r st in (Some a, st)
    end
  else let '(a, st) := put_new d i r st in (Some a, st).
Lemma insert_at_spec st0 st d i dd r again : store_ok st -> levels st = levels st0 -> cap_ st = cap_ st0 -> n_ st0 < cap_ st0 -> n_ st = n_ st0 -> dir_ st !! d = Some dd -> Z.of_nat i <= d_n dd ->
  (forall e, e ∈ before st d i -> en_rank e < r) -> (forall e, e ∈ after st d i -> r < en_rank e) ->
  (free_ st = [] -> inserted st0 r (again (pack st))) -> inserted st0 r (insert_at r st (Z.of_nat d) (Z.of_nat i) again).
Proof.
  intros Hok Hlev Hcap Hroom Hn Hd Hi Hlo Hhi Hagain. unfold insert_at. rewrite (dir_at_lookup st d dd Hd). pose proof (size_at st d dd Hok Hd) as Hsz.
  destruct (Z.eqb_spec (d_n dd) kBlock) as [Eb|Eb]; [|eapply put_inserted; try done; lia].
  destruct (free_ st) as [|nb fr] eqn:Ef; [by apply Hagain|]. clear Hagain.
  destruct (split_spec st d dd nb fr Hok Hd Eb Ef) as (S1 & S2 & S3 & (d1 & d2 & L1 & N1 & L2 & N2) & Plo & Phi). set (st' := split (Z.of_nat d) st) in *.
  assert (Hlev' : levels st' = levels st0). { rewrite (levels_split st' d 0), <- Hlev, (levels_split st d 0). destruct (Plo 0%nat) as [-> ->]; [lia | done]. }
  change (kBlock / 2) with 32. cbv zeta. unfold kBlock in *. destruct (Z.ltb_spec 32 (Z.of_nat i)) as [Hgt|Hle].
  - destruct (Phi i ltac:(lia)) as [P1 P2]. replace (Z.of_nat d + 1) with (Z.of_nat (S d)) by lia. replace (Z.of_nat i - 32) with (Z.of_nat (i - 32)) by lia.
    apply (put_inserted st0 st' (S d) (i - 32) d2); rewrite ?P1, ?P2; try done; unfold kBlock; lia || congruence.
  - destruct (Plo i ltac:(lia)) as [P1 P2]. apply (put_inserted st0 st' d i d1); rewrite ?P1, ?P2; try done; unfold kBlock; lia || congruence.
Qed.
Lemma find_or_insert_S f r st : dir_ st <> [] -> find_or_insert_fuel (S f) r st =
  let '(d, i) := lower_bound st r in
  let a := addr (d_blk (dir_at st d)) i in
  if negb (d =? nd_ st) && (en_rank (ent st a) =? r) then (Some a, st)
  else if n_ st =? cap_ st then (None, st)
  else let '(d, i) := if (i =? 0) && negb (d =? 0) then (d - 1, d_n (dir_at st (d - 1))) else (d, i) in insert_at r st d i (find_or_insert_fuel f r).
Proof.
  intros Hne. cbn [find_or_insert_fuel]. destruct (Z.eqb_spec (nd_ st) 0) as [E|E]; [exfalso; unfold nd_ in E; by destruct (dir_ st)|].
  destruct (lower_bound st r) as [d i]. cbv zeta. destruct (_ && _); [done|]. destruct (n_ st =? cap_ st); [done|]. by destruct (_ && _).
Qed.
Lemma find_as_lower_bound st r : find st r = let '(d, i) := lower_bound st r in
  let a := addr (d_blk (dir_at st d)) i in if negb (d =? nd_ st) && (en_rank (ent st a) =? r) then Some a else None.
Proof. unfold find. destruct (lower_bound st r) as [d i]. cbv zeta. by destruct (d =? nd_ st), (_ =? r). Qed.
(** One call, when what a pack is followed by is known to be right. *)
Lemma find_or_insert_step f r st0 st : store_ok st -> levels st = levels st0 -> cap_ st = cap_ st0 -> n_ st = n_ st0 -> dir_ st <> [] -> i64_min <= r ->
  (free_ st = [] -> n_ st < cap_ st -> inserted st0 r (find_or_insert_fuel f r (pack st))) -> inserted st0 r (find_or_insert_fuel (S f) r st).
Proof.
  intros Hok Hlev Hcap Hn Hne Hr Hagain. rewrite find_or_insert_S by done. pose proof (store_find_spec st r Hok Hr) as Hf. rewrite find_as_lower_bound in Hf.
  destruct (lower_bound_spec st r Hok Hr) as (d & i & E & Hpos & Hlo & Hhi). rewrite E in *. cbv zeta in *. destruct (negb _ && _).
  { constructor; cbn [fst snd]; [done | done | | done]. destruct (points_cut st _ r Hok Hf) as (d' & dd & i' & _ & _ & _ & El & Er & C1 & C2). rewrite <- Hlev, El, cut_at_find by done. done. }
  pose proof (so_cap st Hok) as Hle. rewrite Hlev in Hf. destruct (Z.eqb_spec (n_ st) (cap_ st)) as [Ec|Ec].
  { constructor; cbn [fst snd]; [done | done | | split; [done | congruence]]. rewrite Hf, <- Hn, <- Hcap, (proj2 (Z.eqb_eq _ _) Ec). done. }
  rewrite adjust_eq by done. destruct (adjust st d i) as [d' i'] eqn:Ea. destruct (adjust_same st d i d' i' Hok Hne Hpos Ea) as (dd & Hd & -> & Hi' & P1 & P2).
  apply (insert_at_spec st0 st d' i' dd); rewrite ?P1, ?P2; try done; [lia | | intros Hfr; apply Hagain; [done | lia]].
  intros e He. specialize (Hhi e He). assert (en_rank e <> r); [|lia]. intros Eer. apply (ref_find_absent r (levels st0) Hf e); [|done]. rewrite <- Hlev, (levels_split st d i). apply elem_of_app. by right.
Qed.

(** The first level takes a block. *)
Lemma first_block_ok st blk fr : store_ok st -> dir_ st = [] -> free_ st = blk :: fr ->
  store_ok (st <| free_ := fr |> <| dir_ := [mkDir i64_min blk 0] |> <| dir_of_ ::= insert blk 0 |>).
Proof.
  intros Hok Hd Hf. pose proof (so_cap st Hok). assert (Hl : levels st = []) by (unfold levels; by rewrite Hd). constructor; cbn -[insert seqZ].
  - constructor.
  - rewrite (so_n st Hok), Hl. done.
  - done.
  - apply (so_nblocks st Hok).
  - constructor; [cbn; unfold kBlock; lia | constructor].
  - right. by eexists.
  - constructor; [intros Hp; cbn in Hp; lia | constructor].
  - rewrite <- (so_blocks st Hok), Hd, Hf. done.
  - intros d dd Hdd. apply list_lookup_singleton_Some in Hdd as [-> <-]. cbn. by rewrite lookup_insert_eq.
Qed.
Lemma find_or_insert_first f r st : store_ok st -> dir_ st = [] -> inserted st r (find_or_insert_fuel (S f) r st).
Proof.
  intros Hok Hd. cbn [find_or_insert_fuel]. unfold nd_ at 1. rewrite Hd. change (Z.of_nat (length []) =? 0) with true. cbn match. assert (Hl : levels st = []) by (unfold levels; by rewrite Hd).
  assert (Hn : n_ st = 0) by (rewrite (so_n st Hok), Hl; done). destruct (Z.eqb_spec (cap_ st) 0) as [Ec|Ec].
  { constructor; cbn [fst snd]; [done | done | rewrite Hl, Hn, Ec; done | rewrite Hl; split; [done | lia]]. }
  pose proof (so_blocks st Hok) as Hb. rewrite Hd in Hb. cbn [fmap list_fmap app] in Hb. pose proof (dir_short st Hok) as [_ Hnb]. unfold take_block.
  destruct (free_ st) as [|blk fr] eqn:Ef; [apply Permutation_length in Hb; rewrite length_seqZ in Hb; cbn in Hb; lia|].
  pose proof (first_block_ok st blk fr Hok Hd Ef) as Hok1. set (st1 := st <| free_ := fr |> <| dir_ := [mkDir i64_min blk 0] |> <| dir_of_ ::= insert blk 0 |>) in *.
  cbn [default head from_option id]. change (put_new 0 0 r (_ <| dir_of_ ::= insert blk 0 |>)) with (put_new 0 0 r (st1 <| free_ := tail (free_ st) |> <| dir_ := [mkDir r blk 0] |>)). rewrite Ef. cbn [tail].
  replace (put_new 0 0 r (st1 <| free_ := fr |> <| dir_ := [mkDir r blk 0] |>)) with (put_new (Z.of_nat 0) (Z.of_nat 0) r st1) by done.
  apply (put_inserted st st1 0 0 (mkDir i64_min blk 0)); try done; try (pose proof (so_cap st Hok); cbn; unfold kBlock; lia); unfold before, after; cbn; intros e He; by apply not_elem_of_nil in He.
Qed.
Lemma find_or_insert_nopack f r st0 st : store_ok st -> levels st = levels st0 -> cap_ st = cap_ st0 -> n_ st = n_ st0 -> i64_min <= r -> free_ st <> [] -> inserted st0 r (find_or_insert_fuel (S f) r st).
Proof.
  intros Hok Hlev Hcap Hn Hr Hf. destruct (decide (dir_ st = [])) as [Ed|Ed]; [|apply (find_or_insert_step f r st0 st); done].
  destruct (find_or_insert_first f r st Hok Ed) as [I1 I2 I3 I4]. constructor; [done | by rewrite I2 | by rewrite I3, Hlev, Hn, Hcap | by rewrite <- Hlev, <- Hn, <- Hcap].
Qed.
Lemma find_or_insert_spec r st : store_ok st -> i64_min <= r -> inserted st r (find_or_insert r st).
Proof.
  intros Hok Hr. unfold find_or_insert. destruct (decide (dir_ st = [])) as [Ed|Ed]; [by apply find_or_insert_first|].
  apply find_or_insert_step; try done. intros _ Hroom. destruct (pack_spec st Hok Hroom) as (P1 & P2 & P3 & P4 & P5). by apply find_or_insert_nopack.
Qed.

(** ** Queries *)

Lemma ref_below_cut r l1 l2 : (forall e, e ∈ l1 -> en_rank e < r) -> (forall e, e ∈ l2 -> r <= en_rank e) -> ref_below r (l1 ++ l2) = l1.
Proof. intros H1 H2. unfold ref_below. rewrite filter_app, keep_all, keep_none, app_nil_r; [done | intros x Hx; specialize (H2 x Hx); lia | done]. Qed.
Lemma block_down_block st dd i : 0 <= i <= d_n dd -> block_down st (d_blk dd) i = reverse (take (Z.to_nat i) (block st dd)).
Proof. intros Hi. unfold block_down, block. rewrite seg_take by done. f_equal. apply list_fmap_ext. intros j x _. unfold ent, mget, addr. do 3 f_equal. lia. Qed.
Lemma down_blocks st d : store_ok st -> forall f, (d < f)%nat -> (d <= length (dir_ st))%nat -> down f st (Z.of_nat d) 0 = reverse (concat (block st <$> take d (dir_ st))).
Proof.
  intros Hok. induction d as [|d IH]; intros [|f] Hf Hd; try lia; [done|]. cbn [down]. change (0 =? 0) with true. destruct (Z.eqb_spec (Z.of_nat (S d)) 0) as [E|_]; [lia|]. cbn [andb].
  destruct (lookup_lt_is_Some_2 (dir_ st) d) as [dd Hdd]; [lia|]. replace (Z.of_nat (S d) - 1) with (Z.of_nat d) by lia. rewrite (dir_at_lookup st d dd Hdd). pose proof (size_at st d dd Hok Hdd) as Hsz.
  rewrite IH by lia. rewrite block_down_block by lia. rewrite take_ge by (unfold block; rewrite seg_length; lia). rewrite (take_S_r _ _ _ Hdd), fmap_app, concat_app. cbn. by rewrite app_nil_r, reverse_app.
Qed.
Lemma down_before st d i : store_ok st -> pos_ok st d i -> down (S (length (dir_ st))) st (Z.of_nat d) (Z.of_nat i) = reverse (before st d i).
Proof.
  intros Hok Hpos. assert (Hd : (d <= length (dir_ st))%nat) by (destruct Hpos as [[-> _]|(dd & Hd & _)]; [lia | apply lookup_lt_Some in Hd; lia]).
  destruct i as [|i]; [rewrite (down_blocks st d Hok) by lia; unfold before; by rewrite take_0, app_nil_r|].
  destruct Hpos as [[_ ?]|(dd & Hdd & Hi)]; [done|]. apply lookup_lt_Some in Hdd as Hlt. cbn [down]. destruct (Z.eqb_spec (Z.of_nat (S i)) 0) as [E|_]; [lia|]. cbn [andb].
  rewrite (dir_at_lookup st d dd Hdd), (down_blocks st d Hok) by lia. rewrite block_down_block, Nat2Z.id by lia. unfold before. rewrite Hdd. by rewrite reverse_app.
Qed.
Lemma visit_down_spec st r : store_ok st -> i64_min <= r -> visit_down st r = reverse (ref_below r (levels st)).
Proof.
  intros Hok Hr. unfold visit_down. destruct (lower_bound_spec st r Hok Hr) as (d & i & -> & Hpos & Hlo & Hhi). rewrite (levels_split st d i), ref_below_cut by done. by apply down_before.
Qed.
Lemma last_block st dd : 0 < d_n dd -> last (block st dd) = Some (ent st (addr (d_blk dd) (d_n dd - 1))).
Proof.
  intros Hn. rewrite last_lookup. unfold block. rewrite seg_length, seg_lookup, decide_True by lia. rewrite ent_mget. do 2 f_equal. unfold addr. lia.
Qed.
Lemma below_spec st r : store_ok st -> i64_min <= r -> below st r = last (ref_below r (levels st)).
Proof.
  intros Hok Hr. unfold below. destruct (lower_bound_spec st r Hok Hr) as (d & i & -> & Hpos & Hlo & Hhi). rewrite (levels_split st d i), ref_below_cut by done.
  destruct (Z.eqb_spec (Z.of_nat i) 0) as [Ei|Ei]; cbn [negb].
  - assert (i = 0%nat) as -> by lia. unfold before. rewrite take_0, app_nil_r. destruct d as [|d]; [done|]. destruct (Z.eqb_spec (Z.of_nat (S d)) 0) as [E|_]; [lia|]. cbn [orb].
    assert (Hd : (d < length (dir_ st))%nat) by (destruct Hpos as [[? _]|(dd & Hd & _)]; [lia | apply lookup_lt_Some in Hd; lia]). destruct (lookup_lt_is_Some_2 (dir_ st) d Hd) as [dd Hdd].
    replace (Z.of_nat (S d) - 1) with (Z.of_nat d) by lia. rewrite (dir_at_lookup st d dd Hdd), (take_S_r _ _ _ Hdd), fmap_app, concat_app. cbn [fmap list_fmap concat]. rewrite app_nil_r. cbv zeta.
    pose proof (size_at st d dd Hok Hdd). destruct (Z.eqb_spec (d_n dd) 0) as [E0|E0]; [|by rewrite last_app, last_block by lia].
    destruct (so_used st Hok) as [Hu|(d0 & Hd0 & _)]; [pose proof (proj1 (Forall_lookup _ _) Hu d dd Hdd) as Hp; cbn in Hp; lia|]. rewrite Hd0 in *. destruct d; [|by apply lookup_lt_Some in Hdd; cbn in Hdd; lia].
    unfold block. rewrite E0. done.
  - destruct Hpos as [[_ ?]|(dd & Hdd & Hi)]; [lia|]. rewrite (dir_at_lookup st d dd Hdd). unfold before. rewrite Hdd. cbn [from_option]. rewrite last_app, last_lookup, length_take. unfold block. rewrite seg_length.
    rewrite lookup_take_lt, seg_lookup, decide_True by lia. rewrite ent_mget. do 2 f_equal. unfold addr. lia.
Qed.
Lemma back_spec st : store_ok st -> levels st <> [] -> last (levels st) = Some (back st).
Proof.
  intros Hok Hne. unfold back, back_addr, nd_. destruct (dir_ st) as [|d0 l] eqn:E using rev_ind; [exfalso; apply Hne; unfold levels; by rewrite E|]. clear IHl.
  assert (Hd : dir_ st !! length l = Some d0) by (rewrite E, lookup_app_r, Nat.sub_diag by lia; done). rewrite length_app. cbn [length]. replace (Z.of_nat (length l + 1) - 1) with (Z.of_nat (length l)) by lia.
  rewrite (dir_at_lookup st _ _ Hd). cbv zeta. assert (Hp : 0 < d_n d0).
  { destruct (so_used st Hok) as [Hu|(x & Hx & Hz & _)]; [exact (proj1 (Forall_lookup _ _) Hu _ d0 Hd)|]. exfalso. apply Hne. unfold levels. rewrite Hx. cbn. unfold block. rewrite Hz. done. }
  unfold levels. rewrite E, fmap_app, concat_app. cbn [fmap list_fmap concat]. rewrite app_nil_r, last_app, last_block by done. done.
Qed.

(** ** Writing, removing, replacing the content *)

Lemma set_lvl_ref st a r lv : store_ok st -> points st a r -> store_ok (set_lvl a lv st) /\ levels (set_lvl a lv st) = ref_set r lv (levels st) /\ cap_ (set_lvl a lv st) = cap_ st.
Proof.
  intros Hok Hp. destruct (points_cut st a r Hok Hp) as (d & dd & i & Hd & Hi & -> & El & Er & C1 & C2).
  destruct (set_lvl_spec st d dd i lv Hok Hd Hi) as (O1 & O2 & O3). split; [done|]. split; [|done]. rewrite O2, El, cut_at_set by done. by rewrite Er.
Qed.
Lemma erase_ref st a r : store_ok st -> points st a r -> store_ok (erase a st) /\ levels (erase a st) = ref_erase r (levels st) /\ cap_ (erase a st) = cap_ st.
Proof.
  intros Hok Hp. destruct (points_cut st a r Hok Hp) as (d & dd & i & Hd & Hi & -> & El & Er & C1 & C2).
  destruct (erase_spec st d dd i Hok Hd Hi) as (O1 & O2 & O3). split; [done|]. split; [|done]. by rewrite O2, El, cut_at_erase.
Qed.
Lemma lvl_at_ref st a r : store_ok st -> points st a r -> ref_find r (levels st) = Some (lvl_at st a).
Proof. intros Hok Hp. destruct (points_cut st a r Hok Hp) as (d & dd & i & Hd & Hi & Ha & El & Er & C1 & C2). by rewrite El, cut_at_find. Qed.
Lemma clear_spec st : store_ok st -> store_ok (clear st) /\ levels (clear st) = [] /\ cap_ (clear st) = cap_ st.
Proof.
  intros Hok. split; [|done]. constructor; cbn; [constructor | done | split; [|apply (so_cap st Hok)]; pose proof (so_cap st Hok); lia | apply (so_nblocks st Hok) | constructor | left; constructor | constructor | | done].
  rewrite reverse_Permutation. apply (so_blocks st Hok).
Qed.
Lemma new_store_ok cap : 0 <= cap < 2 ^ 30 -> store_ok (new_store cap) /\ levels (new_store cap) = [].
Proof. intros Hc. split; [|done]. constructor; cbn -[seqZ Z.pow Z.div]; [constructor | done | lia | done | constructor | left; constructor | constructor | by rewrite reverse_Permutation | done]. Qed.

Lemma zip_mem blk part m : forall base k, mget (foldr (fun '(i, e) m => <[addr blk i := e]> m) m (zip (seqZ base (Z.of_nat (length part))) part)) (addr blk k) =
  if decide (base <= k < base + Z.of_nat (length part)) then default no_entry (part !! Z.to_nat (k - base)) else mget m (addr blk k).
Proof.
  induction part as [|e part IH]; intros base k; [rewrite decide_False by (cbn; lia); done|]. cbn [length]. rewrite Nat2Z.inj_succ. rewrite seqZ_cons by lia. rewrite Z.pred_succ. cbn [zip zip_with foldr].
  rewrite mget_insert. unfold addr in *. destruct (decide (k = base)) as [-> |Hk].
  - rewrite decide_True by lia. rewrite decide_True by lia. by rewrite Z.sub_diag.
  - rewrite decide_False by lia. rewrite IH. destruct (decide (Z.succ base <= k < Z.succ base + Z.of_nat (length part))) as [H|H].
    + rewrite decide_True by lia. by replace (Z.to_nat (k - base)) with (S (Z.to_nat (k - Z.succ base))) by lia.
    + by rewrite decide_False by lia.
Qed.
Lemma zip_mem_other blk b' part m k : b' <> blk -> (length part <= 64)%nat -> 0 <= k < kBlock -> forall base, 0 <= base -> base + Z.of_nat (length part) <= kBlock ->
  mget (foldr (fun '(i, e) m => <[addr blk i := e]> m) m (zip (seqZ base (Z.of_nat (length part))) part)) (addr b' k) = mget m (addr b' k).
Proof.
  intros Hb Hl Hk. clear Hl. induction part as [|e part IH]; intros base H0 Hb'; [done|]. cbn [length] in *. rewrite Nat2Z.inj_succ in *. rewrite seqZ_cons by lia. rewrite Z.pred_succ. cbn [zip zip_with foldr].
  rewrite mget_insert, decide_False; [apply IH; lia|]. intros E. apply addr_inj in E as [? _]; [done | done | lia].
Qed.

Section Assign.
Context (st : L3LevelStore) (e0 : Entry) (part : list Entry) (blk : Z) (fr : list Z).
Context (Hwf : store_wf st) (Hn : n_ st = Z.of_nat (length (levels st))) (Hused : Forall (fun dd => 0 < d_n dd) (dir_ st)).
Context (Hhd : head part = Some e0) (Hlen : (length part <= 64)%nat) (Hfr : free_ st = blk :: fr).

Definition asg_mem : gmap Z Entry := foldr (fun '(i, e) m => <[addr blk i := e]> m) (entries_ st) (zip (seqZ 0 (Z.of_nat (length part))) part).
Definition asg_dir : Dir := mkDir (en_rank e0) blk (Z.of_nat (length part)).
Definition asg_st : L3LevelStore := mkStore (cap_ st) (nblocks_ st) (n_ st + Z.of_nat (length part)) (dir_ st ++ [asg_dir]) asg_mem (<[blk := nd_ st]> (dir_of_ st)) fr.
Lemma asg_fresh : Forall (fun x => d_blk x <> blk) (dir_ st).
Proof.
  pose proof (NoDup_seqZ 0 (nblocks_ st)) as H. rewrite <- (sw_blocks st Hwf), Hfr in H. apply NoDup_app in H as (_ & H & _).
  apply Forall_lookup. intros k x Hk E. apply (H blk); [|by constructor]. apply list_elem_of_fmap. exists x. split; [done|]. by eapply list_elem_of_lookup_2.
Qed.
Lemma asg_same : same_but blk (entries_ st) asg_mem.
Proof. intros b i Hb Hi. unfold asg_mem. rewrite zip_mem_other; [done | done | done | done | lia | unfold kBlock; lia]. Qed.
Lemma asg_block : block asg_st asg_dir = part.
Proof.
  unfold block. cbn [asg_dir d_n d_blk asg_st entries_]. apply list_eq. intros j. rewrite seg_lookup. case_decide as E.
  - replace (addr blk 0 + Z.of_nat j) with (addr blk (Z.of_nat j)) by (unfold addr; lia). unfold asg_mem. rewrite zip_mem, decide_True by lia. rewrite Z.sub_0_r, Nat2Z.id. destruct (lookup_lt_is_Some_2 part j) as [x Hx]; [lia|]. by rewrite Hx.
  - symmetry. apply lookup_ge_None. lia.
Qed.
Lemma asg_pos : (0 < length part)%nat.
Proof. destruct part; [done | cbn; lia]. Qed.
Lemma assign_step : store_wf asg_st /\ levels asg_st = levels st ++ part /\ n_ asg_st = Z.of_nat (length (levels asg_st)) /\ Forall (fun dd => 0 < d_n dd) (dir_ asg_st).
Proof.
  pose proof asg_fresh as Hf. pose proof asg_pos as Hpos. assert (Hlev : levels asg_st = levels st ++ part).
  { unfold levels. cbn [asg_st dir_]. rewrite fmap_app, concat_app. cbn [fmap list_fmap concat]. rewrite asg_block, app_nil_r. f_equal. apply (blocks_frame blk); [apply asg_same | done | apply (sw_size st Hwf)]. }
  split; [|split; [done|]; split; [rewrite Hlev, length_app; cbn [asg_st n_]; lia|]]. 2: { cbn [asg_st dir_]. apply Forall_app. split; [done|]. constructor; [cbn; lia | constructor]. }
  constructor; cbn [asg_st cap_ nblocks_ dir_ entries_ free_ dir_of_].
  - apply (sw_cap st Hwf).
  - apply (sw_nblocks st Hwf).
  - apply Forall_app. split; [apply (sw_size st Hwf)|]. constructor; [cbn; unfold kBlock; lia | constructor].
  - apply Forall_app. split.
    + apply Forall_lookup. intros k x Hk Hx. rewrite (wf_first st k x Hwf Hk Hx), ent_mget. cbn [entries_]. f_equal. symmetry. apply asg_same; [exact (proj1 (Forall_lookup _ _) Hf k x Hk) | unfold kBlock; lia].
    + constructor; [|constructor]. intros _. change (en_rank e0 = en_rank (mget asg_mem (addr blk 0))). unfold asg_mem. rewrite zip_mem, decide_True by lia. rewrite Z.sub_0_r. change (Z.to_nat 0) with 0%nat. by rewrite <- head_lookup, Hhd.
  - rewrite <- (sw_blocks st Hwf), Hfr, fmap_app, <- app_assoc. done.
  - intros d dd Hd. apply lookup_app_Some in Hd as [Hd|[Hge Hd]].
    + rewrite lookup_insert_ne; [by apply (sw_dir_of st Hwf)|]. intros E. by apply (proj1 (Forall_lookup _ _) Hf d dd Hd).
    + apply list_lookup_singleton_Some in Hd as [Hd0 <-]. cbn [asg_dir d_blk]. rewrite lookup_insert_eq. unfold nd_. f_equal. lia.
Qed.
End Assign.
Lemma assign_blocks_spec f : forall src st, (length src < f)%nat -> store_wf st -> n_ st = Z.of_nat (length (levels st)) -> Forall (fun dd => 0 < d_n dd) (dir_ st) -> (length src <= 64 * length (free_ st))%nat ->
  let st' := assign_blocks f src st in store_wf st' /\ levels st' = levels st ++ src /\ n_ st' = Z.of_nat (length (levels st')) /\ Forall (fun dd => 0 < d_n dd) (dir_ st') /\ cap_ st' = cap_ st.
Proof.
  induction f as [|f IH]; intros src st Hf Hwf Hn Hu Hfr; [lia|]. cbn [assign_blocks]. destruct src as [|e src']; [rewrite app_nil_r; done|]. set (src := e :: src') in *. change (Z.to_nat kBlock) with 64%nat.
  destruct (free_ st) as [|blk fr] eqn:Ef; [cbn in Hfr; lia|]. unfold take_block. rewrite Ef. cbn [default head from_option id]. cbv zeta. set (part := take 64 src). cbn [length] in Hfr.
  assert (Hlen : (length part <= 64)%nat) by (unfold part; rewrite length_take; lia). assert (Hpl : length part = (64 `min` length src)%nat) by (unfold part; by rewrite length_take).
  destruct (assign_step st e part blk fr Hwf Hn Hu eq_refl Hlen Ef) as (A1 & A2 & A3 & A4).
  replace (assign_blocks f (drop 64 src) _) with (assign_blocks f (drop 64 src) (asg_st st e part blk fr)) by (f_equal; transitivity (asg_st st e part blk (tail (free_ st))); [by rewrite Ef | done]).
  destruct (IH (drop 64 src) (asg_st st e part blk fr)) as (I1 & I2 & I3 & I4 & I5); [rewrite length_drop; cbn [src length] in *; lia | done | done | done | rewrite length_drop; cbn [asg_st free_]; lia|].
  split; [done|]. split; [|done]. rewrite I2, A2, <- app_assoc. unfold part. by rewrite take_drop.
Qed.
Lemma assign_spec st src : store_ok st -> StronglySorted Z.lt (ranks src) -> Z.of_nat (length src) <= cap_ st -> store_ok (assign src st) /\ levels (assign src st) = src /\ cap_ (assign src st) = cap_ st.
Proof.
  intros Hok Hs Hl. destruct (clear_spec st Hok) as (C1 & C2 & C3). unfold assign.
  destruct (assign_blocks_spec (S (length src)) src (clear st)) as (A1 & A2 & A3 & A4 & A5); [lia | by apply store_ok_wf | apply (so_n _ C1) | by constructor | |].
  - pose proof (Permutation_length (so_blocks _ C1)) as Hb. rewrite length_app, length_seqZ in Hb. change (dir_ (clear st)) with (@nil Dir) in Hb. cbn [fmap list_fmap length] in Hb. pose proof (so_nblocks _ C1) as Hnb. rewrite C3 in Hnb. unfold kBlock in Hnb.
    pose proof (Z.div_mod (cap_ st + 64 - 1) 64 ltac:(lia)). pose proof (Z.mod_pos_bound (cap_ st + 64 - 1) 64 ltac:(lia)). lia.
  - rewrite C2 in A2. cbn [app] in A2. split; [|split; [done | by rewrite A5]]. apply store_wf_ok; [done | by rewrite A2 | done | rewrite A3, A2, A5, C3; done | by left].
Qed.

(** ** Sequences of operations *)

Inductive L3Cmd :=
  | CFindOrInsert (rank : Z) | CFind (rank : Z) | CWrite (rank : Z) (lvl : L3Level) | CErase (rank : Z)
  | CBelow (rank : Z) | CDown (rank : Z) | CUp | CBack | CSize | CClear | CAssign (src : list Entry).
Inductive L3Out := OLevel (lvl : option L3Level) | OEntry (e : option Entry) | OLevels (l : list Entry) | OSize (n : Z) | ODone.
(** What the callers of the store do: a pointer is followed at once; a level is written or removed where it was found. *)
Definition exec_store (c : L3Cmd) st : L3Out * L3LevelStore :=
  match c with
  | CFindOrInsert r => let '(p, st) := find_or_insert r st in (OLevel (lvl_at st <$> p), st)
  | CFind r => (OLevel (lvl_at st <$> find st r), st)
  | CWrite r lv => match find st r with Some a => (OLevel (Some (lvl_at st a)), set_lvl a lv st) | None => (OLevel None, st) end
  | CErase r => match find st r with Some a => (OLevel (Some (lvl_at st a)), erase a st) | None => (OLevel None, st) end
  | CBelow r => (OEntry (below st r), st)
  | CDown r => (OLevels (visit_down st r), st)
  | CUp => (OLevels (visit_up st), st)
  | CBack => (OEntry (if n_ st =? 0 then None else Some (back st)), st)
  | CSize => (OSize (n_ st), st)
  | CClear => (ODone, clear st)
  | CAssign src => (ODone, assign src st)
  end.
Definition exec_ref (cap : Z) (c : L3Cmd) (l : list Entry) : L3Out * list Entry :=
  match c with
  | CFindOrInsert r =>
      match ref_find r l with
      | Some lv => (OLevel (Some lv), l)
      | None => if Z.of_nat (length l) =? cap then (OLevel None, l) else (OLevel (Some empty_level), ref_insert r l)
      end
  | CFind r => (OLevel (ref_find r l), l)
  | CWrite r lv => (OLevel (ref_find r l), ref_set r lv l)
  | CErase r => (OLevel (ref_find r l), ref_erase r l)
  | CBelow r => (OEntry (last (ref_below r l)), l)
  | CDown r => (OLevels (reverse (ref_below r l)), l)
  | CUp => (OLevels l, l)
  | CBack => (OEntry (last l), l)
  | CSize => (OSize (Z.of_nat (length l)), l)
  | CClear => (ODone, [])
  | CAssign src => (ODone, src)
  end.
Definition cmd_ok (cap : Z) (c : L3Cmd) : Prop :=
  match c with
  | CFindOrInsert r | CFind r | CWrite r _ | CErase r | CBelow r | CDown r => i64_min <= r
  | CAssign src => StronglySorted Z.lt (ranks src) /\ Z.of_nat (length src) <= cap
  | _ => True
  end.
Fixpoint run {S} (exec : L3Cmd -> S -> L3Out * S) (cs : list L3Cmd) (s : S) : list L3Out :=
  match cs with [] => [] | c :: cs => let '(o, s) := exec c s in o :: run exec cs s end.

Lemma ref_set_absent r lv l : ref_find r l = None -> ref_set r lv l = l.
Proof.
  intros H. pose proof (ref_find_absent r l H) as Ha. unfold ref_set. rewrite <- (list_fmap_id l) at 2. apply list_fmap_ext. intros i x Hx. rewrite decide_False; [done|]. apply Ha. by eapply list_elem_of_lookup_2.
Qed.
Lemma ref_erase_absent r l : ref_find r l = None -> ref_erase r l = l.
Proof. intros H. apply keep_all. apply (ref_find_absent r l H). Qed.
Lemma ref_find_insert r l : ref_find r (ref_insert r l) = Some empty_level.
Proof.
  unfold ref_insert. rewrite (cut_at_find r); [done | | done]. intros e He. by apply list_elem_of_filter in He as [He _].
Qed.
Lemma exec_agrees cap c st : store_ok st -> cap_ st = cap -> cmd_ok cap c ->
  let '(o, st') := exec_store c st in exec_ref cap c (levels st) = (o, levels st') /\ store_ok st' /\ cap_ st' = cap.
Proof.
  intros Hok Hcap Hc. pose proof (so_n st Hok) as Hn. destruct c as [r|r|r lv|r|r|r| | | | |src]; cbn [exec_store exec_ref cmd_ok] in *.
  - pose proof (find_or_insert_spec r st Hok Hc) as [I1 I2 I3 I4]. destruct (find_or_insert r st) as [p st'] eqn:E. cbn [fst snd] in *. split; [|split; [done | by rewrite I2]].
    rewrite <- Hn, <- Hcap. destruct p as [a|]; cbn [fmap option_fmap option_map].
    + pose proof (lvl_at_ref st' a r I1 I4) as Hl. rewrite I3 in Hl |- *. destruct (ref_find r (levels st)) as [lv|] eqn:Ef; [by rewrite Ef in Hl; rewrite Hl|].
      destruct (n_ st =? cap_ st); [congruence|]. rewrite ref_find_insert in Hl. by rewrite Hl.
    + destruct I4 as [I4 I5]. rewrite I4 in *. rewrite (proj2 (Z.eqb_eq _ _) I5) in *. by rewrite I3.
  - pose proof (store_find_spec st r Hok Hc) as Hf. destruct (find st r) as [a|]; cbn [fmap option_fmap option_map]; [by rewrite (lvl_at_ref st a r Hok Hf) | by rewrite Hf].
  - pose proof (store_find_spec st r Hok Hc) as Hf. destruct (find st r) as [a|]; [|by rewrite (ref_set_absent r lv _ Hf), Hf]. destruct (set_lvl_ref st a r lv Hok Hf) as (S1 & S2 & S3). rewrite (lvl_at_ref st a r Hok Hf), S2, S3. done.
  - pose proof (store_find_spec st r Hok Hc) as Hf. destruct (find st r) as [a|]; [|by rewrite (ref_erase_absent r _ Hf), Hf]. destruct (erase_ref st a r Hok Hf) as (S1 & S2 & S3). rewrite (lvl_at_ref st a r Hok Hf), S2, S3. done.
  - by rewrite below_spec.
  - by rewrite visit_down_spec.
  - by rewrite visit_up_levels.
  - split; [|done]. destruct (Z.eqb_spec (n_ st) 0) as [E|E]; [destruct (levels st); [done | cbn in Hn; lia]|]. rewrite (back_spec st Hok); [done|]. intros El. rewrite El in Hn. cbn in Hn. lia.
  - by rewrite Hn.
  - destruct (clear_spec st Hok) as (C1 & C2 & C3). by rewrite C2, C3.
  - destruct Hc as [Hs Hl]. rewrite <- Hcap in Hl. destruct (assign_spec st src Hok Hs Hl) as (A1 & A2 & A3). by rewrite A2, A3.
Qed.
Lemma run_agrees cap cs : forall st, store_ok st -> cap_ st = cap -> Forall (cmd_ok cap) cs -> run exec_store cs st = run (exec_ref cap) cs (levels st).
Proof.
  induction cs as [|c cs IH]; intros st Hok Hcap Hcs; [done|]. apply Forall_cons in Hcs as [Hc Hcs]. cbn [run]. pose proof (exec_agrees cap c st Hok Hcap Hc) as H. destruct (exec_store c st) as [o st'].
  destruct H as (-> & Hok' & Hcap'). f_equal. by apply IH.
Qed.

(** C27. The overflow store of the order-by-order book is a bounded ordered map from ranks to levels.  Whatever operations are
    applied to a new store, in any order (lookups, insertions, writes, removals, the best level below a rank, the visits in
    both directions, replacing or clearing the content), its answers are those of a list of levels kept sorted by rank: a
    level is found exactly if it was inserted and not removed, an insertion is refused exactly when the store holds its
    capacity, and the visits report every level once and in order.  Blocks are split, merged, packed and recycled on the way
    and never lose or duplicate a level. *)
Theorem overflow_store_is_ordered_map cap cs : 0 <= cap < 2 ^ 30 -> Forall (cmd_ok cap) cs ->
  run exec_store cs (new_store cap) = run (exec_ref cap) cs [].
Proof.
  intros Hcap Hcs. destruct (new_store_ok cap Hcap) as [Hok Hl]. rewrite <- Hl. by apply run_agrees.
Qed.

Definition sample_cmds : list L3Cmd :=
  (CFindOrInsert <$> seqZ 0 70) ++ [CFindOrInsert 71; CErase 5; CFindOrInsert 71; CWrite 71 (mkLevel 9 1 0 0); CDown 3; CBelow 6; CBack; CSize; CClear; CFind 71].
Lemma overflow_store_is_ordered_map_witness : run exec_store sample_cmds (new_store 70) = run (exec_ref 70) sample_cmds [].
Proof.
  apply (overflow_store_is_ordered_map 70 sample_cmds); [lia|]. unfold sample_cmds. apply Forall_app. split; [|repeat constructor; vm_compute; discriminate].
  apply Forall_fmap, Forall_forall. intros r Hr. apply elem_of_seqZ in Hr. unfold compose, cmd_ok. change i64_min with (- 2 ^ 63). lia.
Defined.
